(* ===== verification/_CoqProject ===== *)
-Q . S2P
Prelude.v
RustStr.v
StrSearch.v
PolicyTypes.v
PolicyEngine.v
PolicyStartup.v
Provenance.v
Intent.v
ShellWords.v
Programs.v
ShellTree.v
IntentDerive.v
SessionRisk.v
AuditChain.v
Pep.v
Float64.v
Breaker.v
CompactText.v
Compaction.v
CodeCompaction.v
Conversation.v
ConversationRepair.v
ChatUsage.v
ChatHistory.v
ChatRequest.v
ChatState.v
IntraCompaction.v
ToolFs.v
HashScheme.v
HashlineEdit.v
HashlineTool.v
Confusables.v
EditDetails.v
EditHints.v
SearchReplace.v
HunkDiff.v
HunkGeometry.v
HunkFiles.v
HunkTracker.v
HunkInvariant.v
HunkReview.v
HunkLoc.v
HostFiles.v
ConfigLayers.v
ManagedCache.v
TrustStore.v
Permission.v
PermissionShell.v
PermissionGrants.v
PermissionAuto.v
PermissionPrompt.v
PermissionManager.v
PermissionLaws.v
PermissionSources.v
PermissionSourceLaws.v
FolderTrust.v
