(* ===== verification/Prelude.v ===== *)
(** * Core logic of the AiNxt CLI

    AiNxt is a coding agent for the terminal. This library models parts of it that
    carry its own logic and that can be judged without the network or a terminal:

    - the governed path ([src/crates/common/]): whatever the agent wants to do -
      run a shell command, read or write a file, reach a host, call an MCP tool -
      goes through one enforcement point before it happens;
    - the circuit breaker between the agent and a failing service
      ([ainxt-circuit-breaker]);
    - the compaction of a long conversation into a summary ([ainxt-compaction]);
    - the chat state of a session ([ainxt-chat-state], over the items of
      [ainxt-sampling-types]): the conversation, its repair, what is sent to the
      model and what is kept on the disk;
    - the tools that edit files ([src/crates/codegen/ainxt-tools]): the hashline
      tools, which name lines by anchors, and [search_replace];
    - the tracker of changed lines ([ainxt-hunk-tracker]), with which the user
      reviews what the agent wrote, hunk by hunk, and its attribution records;
    - the permission system ([ainxt-workspace/src/permission]), which decides for
      every tool call of a session whether it runs, is refused, or is put to the
      user, and remembers what the user said;
    - the configuration it is set up from ([ainxt-config]): layers, campaigns, the
      requirements of an administrator and signed policies, and the trust in the
      folder a session runs in ([ainxt-workspace], [ainxt-shell]).

    ** The parts and how they interact

    - A signed bundle, a built-in manifest and settings layers give the policy of
      the process ([ainxt-policy-types], [ainxt-policy]). Layers can only narrow.
    - A requested action is derived into capabilities and targets
      ([ainxt-intent]), a shell command through its syntax tree
      ([ainxt-shell-ast]).
    - The influence of untrusted content is tracked as a tier ([ainxt-provenance]).
    - Every action is charged to a ledger of budgets that freezes the subject
      when one is exceeded ([ainxt-session-risk]).
    - The enforcement point ([ainxt-pep]) charges the ledger, judges the derived
      action against ledger and policy, projects the judgement on an obligation by
      the posture (off, observe, block), mints an exec ticket for a shell command
      that proceeds, and appends one record to a hash-chained log ([ainxt-audit]).
    - The breaker counts failures in a sliding window shared by all threads, trips
      open, and lets a few probes through after a cool-down.
    - Compaction selects the old part of a conversation, has the model summarise
      it in chunks, cleans and validates the summary, and puts it in the place of
      what it stands for.
    - The chat state is an actor: the session sends it what the user, the model and
      the tools say; it keeps calls and results paired, counts tokens and costs,
      writes persistence records, builds the requests, and swaps its conversation
      for a compacted one when the session asks.
    - A hashline read or search shows every line with an anchor; an edit names its
      lines by anchors, which are checked against the file as it is.
    - [search_replace] replaces a text that occurs once, or everywhere; when there
      is no exact occurrence it can look for one up to typography. It announces
      every write, with the old content, to whoever must undo it.
    - The tools' writes and the notifications of the file system reach the tracker
      as commands; it diffs every tracked file against its baseline in git, and
      accepting or rejecting a hunk patches the baseline or the file. Its events
      feed the attribution records.
    - A tool call's permission is asked for through a handle, which asks the
      enforcement point first and sends the request to one actor. The actor judges
      the call by the rules of the policy, a shell command also by the files it
      reads and writes, then by the modes (always approve, auto), the grants kept
      from earlier answers, the classifier of auto mode and at last the user, on
      the terminal or over the hub.
    - The rules come from the requirements, managed settings, the configuration of
      the user and of the project, and the vendor's settings files, in that order; a
      lock of the administrator takes out what would allow everything. The layers of
      the configuration are merged with the requirements last, after campaigns. A
      signed policy is checked when it is fetched and again when a session starts.
    - What a repository carries that could run code is loaded only when its folder is
      trusted: by the store on disk, by an answer of the user, or because there is
      nothing to gate. A process remembers the verdicts that last.

    ** The files

    - [Prelude]: results with their monad, tactics, hints, lists, stable sorting.
    - [RustStr], [StrSearch]: the functions of Rust strings the code calls, over
      byte strings.
    - [PolicyTypes]: capability sets, tiers, rule ids and the narrowing merge
      ([capability.rs], [tier.rs], [ids.rs], [verdict.rs], [policy.rs], [merge.rs]).
    - [PolicyEngine]: the queries of the engine, and the egress and exec guards
      ([engine.rs], [egress_guard.rs], [exec_guard.rs]).
    - [PolicyStartup]: bundles, the managed manifest, bundle choice, overlays,
      anti-rollback and the start of a process ([bundle.rs], [manifest.rs],
      [bootstrap.rs], [global.rs]).
    - [Provenance]: tiers of context and escalation.
    - [ShellWords]: the word-level half of [access.rs] and [bash.rs]: wrappers,
      file operands, paths, display splitting.
    - [ShellTree]: the half over syntax trees: the explicit-stack walks,
      invocations, redirects, plain commands, soft breaks.
    - [Intent], [Programs], [IntentDerive]: derivations, the program tables and the
      classifier, and the POSIX, Windows and tool derivations.
    - [SessionRisk]: the ledger, the store interface with its laws, the in-process
      store and the file store with faults.
    - [AuditChain]: the chain, its verification, its file and its restart.
    - [Pep]: judgement, authorization, dry runs, effects, tickets, attestation.
    - [Float64], [Breaker]: the double arithmetic the code uses, and the breaker:
      its atomics as a shared memory, [check] and [record] as programs of atomic
      actions, and every interleaving of any number of threads.
    - [CompactText], [Compaction], [CodeCompaction], [IntraCompaction]: summaries
      and query blocks as text ([summary.rs], [filter.rs], [validate.rs]); turns,
      selection and the chunked pipeline ([select.rs], [chunked.rs] and the rest of
      [inter_compaction]); retries and the full replacement of a history
      ([code_compaction]); the trigger and the passes inside a turn
      ([intra_compaction]).
    - [Conversation]: the items, their constructors and queries, token estimates,
      and a model's response as items and back ([sampling-types/conversation.rs],
      [token-estimation/lib.rs]). [ConversationRepair]: dangling calls, duplicate
      and displaced results ([conversation.rs], [compaction_utils.rs]).
      [ChatUsage]: prices and the usage ledger ([pricing.rs], [usage.rs]).
      [ChatHistory]: the fitting to a budget, the queries
      of the user and the compacted history ([compaction_utils.rs],
      [conversation_util.rs]). [ChatRequest]: the system head, pruning, the byte
      budget of images and the memory reminder ([request_builder.rs],
      [mutations.rs]). [ChatState]: the actor ([actor/*.rs], [commands.rs],
      [events.rs], [persistence.rs]).
    - [HashScheme]: line hashes, anchors, the three schemes behind one interface
      ([util/hash.rs], [anchor.rs], [scheme.rs], [config.rs]).
    - [HashlineEdit]: the anchored view and the edit engine ([read_file.rs],
      [edit/apply.rs], [edit/types.rs], [edit/range_policy.rs]).
    - [ToolFs]: the file system under the tools, the decoding of file bytes and
      well-formed text. [HashlineTool]: an edit call on it ([edit/mod.rs]) and the
      anchors of search results ([grep.rs]).
    - [Confusables]: typography, its normal form with the map of offsets, and the
      search and replacement up to it ([util/unicode_confusables.rs],
      [search_replace/helpers.rs]). [EditDetails]: the description of an edit
      ([helpers.rs]). [EditHints]: truncation and the hints of a failed search
      ([util/truncate.rs], [util/query_tools.rs], [search_replace/mod.rs]).
      [SearchReplace]: the calls ([search_replace/mod.rs],
      [versions/legacy_0_4_10.rs], [ainxt_build_concise/search_replace.rs]).
    - [HunkDiff]: hunks, the diff they come from, patches and matching ([types.rs],
      [diff.rs]). [HunkGeometry]: where hunks lie and what patching them does, and a
      reference diff. [HunkFiles]: file contents, their classification, paths, the
      disk and git as the tracker reads them ([actor/state.rs],
      [actor/file_utils.rs], [actor/git.rs]). [HunkTracker]: the actor
      ([actor/*.rs], [commands.rs], [events.rs]). [HunkInvariant]: its invariant and
      that every handler keeps it. [HunkReview]: what a user can rely on, and where
      not. [HunkLoc]: the attribution records ([loc/mod.rs]).
    - [Permission]: what a call asks for, rules, their text form and the policy
      compiled from them ([types.rs], [rules.rs], [policy.rs]). [PermissionShell]:
      symbolic links and the gate on the files of a shell command ([access.rs],
      [shell_access.rs]). [PermissionGrants]: sovereign actions, the state of a
      session, safe and dangerous commands and the segments of a script
      ([sovereign.rs], [state.rs], [manager.rs] to line 700). [PermissionAuto]: auto
      mode, its heuristic and its model ([auto_mode.rs]). [PermissionPrompt]: options,
      answers and the prompt over the hub ([prompter.rs], [hub_permission.rs]).
      [PermissionManager]: the gate of the enforcement point, the stages of a request,
      the commands of the actor and a whole session as a step relation ([pep_gate.rs],
      [manager.rs]). [PermissionLaws]: what follows for a request, for a session and
      for the modes.
    - [HostFiles]: the machine configuration code sees, and TOML and JSON values
      ([paths.rs], [lib.rs]). [ConfigLayers]: merging, patches, version overrides,
      campaigns, requirements and the effective configuration ([loader.rs],
      [config_override.rs], [version_overrides.rs], [campaigns.rs], [validation.rs],
      [macos_managed.rs]). [ManagedCache]: signed policies, their verdict, and the
      marker of the last sync ([signed_policy.rs], [managed_cache.rs]).
    - [TrustStore]: the store of trusted folders, its key and the migration of older
      grants ([trust.rs] of [ainxt-workspace] and [ainxt-hooks]).
      [PermissionSources]: the vendor's settings, the rules of all sources, managed
      settings and the policies for MCP servers ([claude_settings.rs],
      [resolution.rs]); [PermissionSourceLaws]: what holds of them. [FolderTrust]: the
      markers of a repository, the decision, the verdicts of a process and the
      question to a client ([folder_trust.rs] of both crates, [project_config.rs],
      [repo.rs], [flags.rs], [folder_trust_prompt.rs]).

    Each file has a [Module] per Rust file or concern; a Rust struct is a [Record],
    an enum an [Inductive], a function of the same name a [Definition], with a
    method's [&mut self] as a state passed and returned.

    ** What the theorems show

    - Policy: resolution narrows every source and does not depend on their order;
      layers never widen an engine query; sovereign actions are never
      auto-approved; a managed start needs a fresh signed bundle; overlays narrow.
    - Derivation: no command node, operand, nested script, redirect or written path of
      a parsed command is missing from its derivation; wrappers hide nothing within
      their bounds; remote execution is claimed of exactly the commands that put a
      fetcher and an interpreter together, behind the wrappers looked through; what
      cannot be decomposed is unknown, never harmless.
    - Risk: a charge is judged on the window that counts it; freezes are sticky;
      one budget per key however clients interleave (a refinement of any store
      that satisfies the laws of [RiskStore]); corrupt files and failed writes.
    - Audit: appended chains verify; two that end in one hash differ only where two of
      their records at one distance from the end have the same hash, or where one
      hashes to the empty string; truncation is detected; a restart continues them.
    - Enforcement: an exact characterisation of a permit; posture only projects;
      tickets are single-use, short-lived and only for what proceeded; a dry run
      tells the truth; every evaluated action is recorded.
    - Breaker: run serially it refines a three-state machine; in every
      interleaving the memory stays consistent, the probes are bounded by the
      slots, and a quiet service is probed again.
    - Compaction: the selection splits the conversation without separating tool
      calls from their results; the chunks cover it in order and within their
      limit; summaries are inert and bounded, the loops of their cleaning stop; a
      failed pass leaves the history as it was, but for what a failing commit or the
      first pass of the combined mode has done.
    - Chat state: the records on the disk make of the repaired history what memory
      holds, after any commands but the restoration of a snapshot, and of the history as
      it was read only if the repair at the start changed nothing or was overwritten;
      every request is the repaired conversation, item for item, and answers every call; the capture of a turn is what was pushed in
      it; the repair of a history leaves calls and results paired and everything
      said in place; neither a compaction nor the fitting to a budget separates
      them; the ledger balances; images are evicted oldest first and no more than
      needed, and the size reported is exact unless an image was smaller than its
      placeholder; a rewind cuts before the prompt it names; a snapshot restores.
    - Anchors: validation accepts exactly what the view shows; the search for a
      shifted line is exact; a batch of edits refines a copy of the file with the
      ranges replaced, at the lines the anchors name, or changes nothing; the call
      keeps the file and its report in step.
    - Replacement: a call always returns, and what it reports, what it announces and
      what is on the disk agree; the gaps between the matches are kept and the
      matches are what was asked for, and the bytes outside them stay in a UTF-8 file
      with line ends of one kind; the number of occurrences decides; the
      typography search finds only whole characters with the right normal form; the
      details describe the new text; CRLF files are edited like plain ones.
    - Review: hunks carry the lines their coordinates name; accepting some is
      rejecting the others; the tracker's invariant holds in every reachable state
      (commands, coalesced batches, restored snapshots, outside changes); accepting
      or rejecting a file has exactly its effect; turns and summaries list exactly
      the attributed hunks; batches do what their commands do one by one; the
      attribution records sum to the lines of the hunks as long as none is merged.
    - Permissions: the decision of a policy on a script and on the files it touches is
      exactly that of its rules, the most restrictive first; the rules whose written
      form reads back are characterised; a command runs unasked only on the listed paths, and one the policy
      refuses on none; under an ask rule a file access, a command or an MCP call needs
      the user unless everything is approved or approvals are remembered; a dangerous
      segment needs a grant of its own script; the classification of launchers ends;
      an answer fits what was asked and a silent hub refuses;
      what a session remembers changes only by an answer or a reset, and the disk
      follows; the modes the handles show and those of the actor come to agree.
    - Sources of rules: the lock on always-approve takes out exactly what it means to,
      and a denial of any source stands; one place owns the mode; an MCP server runs
      exactly when the two lists say so.
    - Configuration: a patch decides exactly the paths the check names; no campaign
      changes what a requirement settles; requirements that fail closed are in force
      after the start-up check; version overrides inject nothing and the newest wins.
    - Signed policies: the verdict is exactly that of signature, principal, expiry and
      files; what was fetched is trusted; what is refused is fetched again.
    - Trust: the nearest records decide; a decision survives the writes of others that
      can read the file, and not of those that cannot; a
      folder runs what it carries only for a cause nobody revoked; a revocation
      holds unless it could not be written; where the verdict changes the environment
      the gate fires; at most one question is open per workspace until a revocation.
    - Several theorems state behaviour the comments of the code deny (a second
      start refused, a freeze lost to a torn write, an approved command without
      ticket, a trip race that skips the cool-down, a failed compaction that has
      changed the history, CRLF files rewritten by an edit, a refused write that
      has created its file, an overwritten file announced as new, a refused rejection
      that loses its turn, a coalesced batch that goes stale, line ends that review
      does not preserve, merged hunks counted twice, a repair that loses the capture of the
      turn it interrupts, a key read unasked although reading it is reserved, an ask rule
      on searches that asks nobody, a grant "for this session" that outlives it, rules of
      an untrusted clone in force, a denied address that matches nothing, a garbled policy
      that is trusted, a revocation that a failed write undoes, a failed read that drops
      the decisions of others, an imported rule that does not read back).

    ** Conventions and bounds

    - Strings are byte strings ([String.string]); a [char] loop of the code runs
      over UTF-8 encoded characters ([RustStr.chars]).
    - [u64], [u32] and [usize] counters are [N] or [nat] with wrap-around or
      saturation written where the code has it ([wrap32], [wrap64]); a possible
      panic (an index, a slice, an underflow) is [None] where a theorem excludes
      it.
    - Recursions the code bounds keep its bound as fuel: launchers 5 levels
      ([MAX_LAUNCHER_DEPTH]), nested scripts 4 ([MAX_NESTING]), wrappers 8. The
      walks over a syntax tree use its size as fuel, which the lemma on [dfs]
      shows enough to visit every node. Loops that rewrite a summary use the
      length of the text as fuel, which [cleaning_terminates] shows enough.
    - The breaker's atomic operations are single steps of one memory (sequential
      consistency); the time of an operation is its argument.
    - Code outside the repository is a class parameter: the signature and digest
      functions and the file system ([PolicyEngine], [PolicyStartup],
      [HostFs]), the tree-sitter parser ([BashParser]), serde and BLAKE3
      ([LedgerCodec], [AuditEnv], [RecordCodec]), the language model and the
      harness items of a compaction. Laws a theorem needs (a codec's round trip)
      are classes of their own, with instances that the witnesses use.
    - The line diff and git are parameters: [LineDiff], with the contract
      [LawfulDiff] (a diff spells out both texts, line by line) that a shortest diff
      satisfies, and [World], which also has the disk, its faults and the order hash
      maps are walked in. Identifiers of hunks are numbers never given out before.
    - The actor of the chat state handles one command at a time; what it sends to
      its persistence and event channels is appended to lists of the model, and a
      reply is a value. The length of a body as JSON, the trace type and the
      pruning configuration are parameters, with the one law that exchanging a
      part of a message changes the length by the difference of the parts. A
      panic is [None]: the command does not return. Debug assertions are off. The
      loops of the repair have fuel, one more than twice the items, which
      the lemmas on blocks show enough.
    - A file call holds its lock throughout, so it is one step; faults of a write
      are an argument.
    - The permission actor handles one request at a time; what surrounds it (the answer
      of the client, the sandbox, the enforcement point's engine) is an argument of the
      step. Globs, URLs, JSON, the file system's links, the order of hash sets and the
      client's answer data are classes ([PermissionLibs], [LinkFs], [HashOrder],
      [JsonValues], [AnswerMeta]). Scripts nested by [-c] are followed 8 deep and links
      41 times, as in the code; the loops over launchers have one more unit of fuel than
      words, which [routine_terminates] shows enough.
    - The machine of the configuration code is a record ([Host]): variables, files,
      canonical paths, git, the worktree registry and the forced device profile. TOML,
      JSON, variable expansion, versions, signatures and the documents of the store are
      classes ([ConfigLibs], [SigningLibs], [TrustCodec], [SourceLibs]), with laws in
      classes of their own ([LawfulVersions], [LawfulTexts], [LawfulTrustCodec]). Walks up
      a path have as fuel one more than its components. Whether the build carries a
      version stamp is an argument. A write of the store holds its lock and is one step
      whose failures are an argument; processes interleave between steps.

    ** Not modelled

    Key material, TOML and JSON syntax, process-wide cells beyond their contents,
    the redactor's regular expressions, the loading of hooks, plugins and MCP servers
    once a folder is trusted, the times of permission events, the
    clean-up of stale grant files, prompt texts and logging, the benchmark harness of the anchor schemes, and the
    terminal interface, agent loop and network code around these parts. *)
From stdpp Require Export base tactics list strings gmap sets finite pretty infinite.
From Stdlib Require Export Lia Sorting.Sorted.
From Stdlib Require Strings.Ascii.
Export Stdlib.Strings.Ascii (ascii(..), N_of_ascii, ascii_of_N).
Export (notations) Stdlib.Strings.Ascii.

Set Default Goal Selector "!".

(** * Fallible code *)

(** Rust's [Result<A, E>], with the error type first so that [result E] is a
    monad. *)
Inductive result (E A : Type) : Type :=
| Ok (a : A)
| Err (e : E).
Arguments Ok {E A} a.
Arguments Err {E A} e.

#[export] Instance result_ret {E} : MRet (result E) := λ A a, Ok a.
#[export] Instance result_bind {E} : MBind (result E) := λ A B f r,
  match r with Ok a => f a | Err e => Err e end.

(** [Result::ok]. *)
Definition ok {E A} (r : result E A) : option A :=
  match r with Ok a => Some a | Err _ => None end.

(** [Option::ok_or]. *)
Definition ok_or {E A} (o : option A) (e : E) : result E A :=
  match o with Some a => Ok a | None => Err e end.

(** [Result::map_err]. *)
Definition map_err {E F A} (f : E → F) (r : result E A) : result F A :=
  match r with Ok a => Ok a | Err e => Err (f e) end.

Lemma ok_or_Ok {E A} (o : option A) (e : E) a : ok_or o e = Ok a ↔ o = Some a.
Proof. destruct o; naive_solver. Qed.

Lemma bind_Ok {E A B} (r : result E A) (f : A → result E B) b :
  (r ≫= f) = Ok b ↔ ∃ a, r = Ok a ∧ f a = Ok b.
Proof. destruct r; naive_solver. Qed.

Lemma map_err_Ok {E F A} (f : E → F) (r : result E A) a : map_err f r = Ok a ↔ r = Ok a.
Proof. destruct r; naive_solver. Qed.

(** * Machine integers *)

Definition u32_max : N := 4294967295%N.
Definition u64_max : N := 18446744073709551615%N.
(** [saturating_add] of [u64]s. *)
Definition sat_add64 (a b : N) : N := N.min (a + b) u64_max.
(** [a - b] in unsigned integers, which panics below 0. *)
Definition usize_sub (a b : nat) : option nat := if bool_decide (b ≤ a) then Some (a - b) else None.

(** [x as u32] and release-profile wrapping arithmetic. *)
Definition wrap32 (n : N) : N := (n mod 4294967296)%N.
Definition wrap64 (n : N) : N := (n mod 18446744073709551616)%N.
(** [u32::saturating_add]. *)
Definition sat_add32 (a b : N) : N := N.min (a + b) u32_max.

Lemma wrap32_small n : (n ≤ u32_max)%N → wrap32 n = n.
Proof. intros H. apply N.mod_small. unfold u32_max in H. lia. Qed.

Lemma wrap64_le n : (wrap64 n ≤ n)%N.
Proof. apply N.Div0.mod_le. Qed.
Lemma wrap64_small n : (n ≤ u64_max)%N → wrap64 n = n.
Proof. intros H. apply N.mod_small. unfold u64_max in H. lia. Qed.

(** * Automation *)

(** Case analysis on every [if]/[match] of the goal, closing trivial cases. *)
Ltac split_cases := repeat (case_match || case_decide); simplify_eq/=; try done.

(** Boolean conjunctions and disjunctions in hypotheses and goal, as
    propositions. *)
Ltac to_prop :=
  repeat match goal with
  | H : _ && _ = true |- _ => apply andb_prop in H; destruct H
  | H : _ || _ = true |- _ => apply orb_prop in H
  | H : _ || _ = false |- _ => apply orb_false_elim in H; destruct H
  | H : negb _ = true |- _ => apply negb_true_iff in H
  | H : negb _ = false |- _ => apply negb_false_iff in H
  | H : bool_decide _ = true |- _ => apply bool_decide_eq_true in H
  | H : bool_decide _ = false |- _ => apply bool_decide_eq_false in H
  end.

(** Decides a closed proposition by evaluating its decision procedure. *)
Ltac by_compute := first [ vm_compute; reflexivity | apply (bool_decide_unpack _); vm_compute; exact I ].

Create HintDb ainxt.
#[export] Hint Resolve ok_or_Ok : ainxt.

(** * Lists and options *)

(** [Vec::dedup]: drops an element equal to the one kept before it. *)
Fixpoint dedup_from (prev : nat) (l : list nat) : list nat :=
  match l with
  | [] => []
  | x :: rest => if bool_decide (x = prev) then dedup_from prev rest else x :: dedup_from x rest
  end.
Definition dedup (l : list nat) : list nat :=
  match l with [] => [] | x :: rest => x :: dedup_from x rest end.

(** [Vec::contains]-guarded push. *)
Definition push_unique {A} `{EqDecision A} (l : list A) (x : A) : list A :=
  if bool_decide (x ∈ l) then l else l ++ [x].

Lemma elem_of_push_unique {A} `{EqDecision A} (l : list A) x y :
  y ∈ push_unique l x ↔ y = x ∨ y ∈ l.
Proof.
  unfold push_unique. case_bool_decide as H; [naive_solver|].
  rewrite elem_of_app, list_elem_of_singleton. naive_solver.
Qed.

Lemma NoDup_push_unique {A} `{EqDecision A} (l : list A) x :
  NoDup l → NoDup (push_unique l x).
Proof.
  intros Hl. unfold push_unique. case_bool_decide as H; [done|].
  apply NoDup_app. split_and!; [done| |apply NoDup_singleton].
  intros z Hz Hzx. apply list_elem_of_singleton in Hzx as ->. done.
Qed.

Lemma fold_left_inv {A B} (f : A → B → A) (P : A → Prop) (l : list B) a :
  P a → (∀ a' b, b ∈ l → P a' → P (f a' b)) → P (fold_left f l a).
Proof.
  revert a. induction l as [|b l IH]; intros a Ha Hf; simpl; [done|].
  apply IH; [apply Hf; [by left|done]|]. intros a' b' Hb'. apply Hf. by right.
Qed.

(** ** Stable sorting ([slice::sort_by]) *)

Section SortBy.
Context {A : Type} (le : A → A → bool).

Fixpoint insert_by (x : A) (l : list A) : list A :=
  match l with [] => [x] | y :: l' => if le x y then x :: l else y :: insert_by x l' end.
Definition sort_by (l : list A) : list A := foldr insert_by [] l.

Lemma insert_by_Permutation x l : insert_by x l ≡ₚ x :: l.
Proof.
  induction l as [|y l IH]; simpl; [done|]. destruct (le x y); [done|]. rewrite IH. apply Permutation_swap.
Qed.

Lemma sort_by_Permutation l : sort_by l ≡ₚ l.
Proof. induction l as [|x l IH]; simpl; [done|]. by rewrite insert_by_Permutation, IH. Qed.

Context (Htotal : ∀ x y, le x y = false → le y x = true).
Context (Htrans : ∀ x y z, le x y = true → le y z = true → le x z = true).

Lemma insert_by_sorted x l : StronglySorted (λ x y, le x y = true) l →
  StronglySorted (λ x y, le x y = true) (insert_by x l).
Proof.
  induction 1 as [|y l Hl IH Hy]; simpl; [repeat constructor|].
  destruct (le x y) eqn:E.
  - constructor; [by constructor|]. constructor; [done|]. eapply Forall_impl; [exact Hy|]. eauto.
  - constructor; [done|]. rewrite insert_by_Permutation. constructor; [by apply Htotal|done].
Qed.

Lemma sort_by_sorted l : StronglySorted (λ x y, le x y = true) (sort_by l).
Proof. induction l as [|x l IH]; simpl; [constructor|]. by apply insert_by_sorted. Qed.

End SortBy.

Lemma StronglySorted_weaken {A} (R R' : A → A → Prop) l :
  (∀ a b, R a b → R' a b) → StronglySorted R l → StronglySorted R' l.
Proof.
  intros HR. induction 1 as [|x l Hs IH Hall]; constructor; [done|].
  eapply Forall_impl; [exact Hall|]. auto.
Qed.

Lemma StronglySorted_related {A} (R : A → A → Prop) l a b :
  StronglySorted R l → a ∈ l → b ∈ l → a = b ∨ R a b ∨ R b a.
Proof.
  induction 1 as [|x l _ IH Hx]; [by intros ?%not_elem_of_nil|].
  rewrite Forall_forall in Hx. intros [->|Ha]%elem_of_cons [->|Hb]%elem_of_cons; eauto.
Qed.

Lemma StronglySorted_snoc {A} (R : A → A → Prop) l x :
  StronglySorted R l → Forall (λ y, R y x) l → StronglySorted R (l ++ [x]).
Proof.
  induction 1 as [|y l _ IH Hy]; intros Hx; [repeat constructor|].
  apply Forall_cons in Hx as [Hyx Hx]. cbn. constructor; [auto|]. apply Forall_app. by repeat constructor.
Qed.

Lemma StronglySorted_app_le {A} (R : A → A → Prop) l l' :
  StronglySorted R l → StronglySorted R l' → (∀ x y, x ∈ l → y ∈ l' → R x y) → StronglySorted R (l ++ l').
Proof.
  induction 1 as [|x l _ IH Hx]; intros Hl' Hc; [done|]. cbn. constructor.
  - apply IH; [done|]. intros a b Ha. apply Hc. by right.
  - apply Forall_app. split; [done|]. apply Forall_forall. intros y. apply Hc. by left.
Qed.

Lemma StronglySorted_suffix {A} (R : A → A → Prop) l l' : StronglySorted R (l ++ l') → StronglySorted R l'.
Proof. induction l as [|x l IH]; [done|]. intros [H _]%StronglySorted_inv. auto. Qed.

Lemma StronglySorted_reverse {A} (R : A → A → Prop) l :
  StronglySorted R l → StronglySorted (flip R) (reverse l).
Proof.
  induction 1 as [|x l _ IH Hx]; [constructor|]. rewrite reverse_cons. apply StronglySorted_snoc; [done|].
  by apply Forall_reverse.
Qed.

(** * Filters, sums and options *)

Lemma filter_true {A : Type} (P : A → Prop) `{!∀ x, Decision (P x)} (l : list A) : (∀ x, x ∈ l → P x) → filter P l = l.
Proof.
  induction l as [|x l IH]; intros HP; [done|]. rewrite filter_cons_True by (apply HP; by left).
  rewrite IH; [done|]. intros y Hy. apply HP. by right.
Qed.
Lemma filter_no {A : Type} (P : A → Prop) `{!∀ x, Decision (P x)} (l : list A) : (∀ x, x ∈ l → ¬ P x) → filter P l = [].
Proof.
  induction l as [|x l IH]; intros HP; [done|]. rewrite filter_cons_False by (apply HP; by left).
  apply IH. intros y Hy. apply HP. by right.
Qed.

Lemma sublist_fmap {A B} (f : A → B) l k : l `sublist_of` k → f <$> l `sublist_of` f <$> k.
Proof. induction 1; cbn; by constructor. Qed.

Lemma list_sum_app (l l' : list nat) : sum_list (l ++ l') = sum_list l + sum_list l'.
Proof. unfold sum_list. induction l as [|x l IH]; [done|]. cbn. rewrite <-Nat.add_assoc. by f_equal. Qed.

Lemma elem_of_option_list {A} (o : option A) x : x ∈ option_list o ↔ o = Some x.
Proof. destruct o; cbn; [rewrite list_elem_of_singleton; naive_solver|by rewrite elem_of_nil]. Qed.
