(* ===== verification/RustStr.v ===== *)
(** Rust strings and the [str]/[String] operations of the standard library
    that the modelled code calls.

    A Rust string is represented by its UTF-8 bytes, as a [string].  Operations
    that Rust defines on bytes or on substrings ([starts_with], [contains],
    [split_once], [to_ascii_lowercase], ...) are the same on the bytes;
    operations on characters ([chars], [trim], [char::is_whitespace]) go
    through [chars], which groups the bytes of each character. *)
From S2P Require Import Prelude.


(** * Bytes *)

Definition byte_in (lo hi : N) (a : ascii) : bool :=
  bool_decide (lo ≤ N_of_ascii a)%N && bool_decide (N_of_ascii a ≤ hi)%N.

Definition is_ascii_digit (a : ascii) : bool := byte_in 48 57 a.
Definition is_ascii_upper (a : ascii) : bool := byte_in 65 90 a.
Definition is_ascii_lower (a : ascii) : bool := byte_in 97 122 a.
Definition is_ascii_alphabetic (a : ascii) : bool := is_ascii_upper a || is_ascii_lower a.
Definition is_ascii_alphanumeric (a : ascii) : bool :=
  is_ascii_alphabetic a || is_ascii_digit a.
Definition byte_to_lower (a : ascii) : ascii :=
  if is_ascii_upper a then ascii_of_N (N_of_ascii a + 32) else a.

Fixpoint str_map (f : ascii → ascii) (s : string) : string :=
  match s with "" => "" | String a s' => String (f a) (str_map f s') end.

(** [str::to_ascii_lowercase]. *)
Definition to_ascii_lowercase : string → string := str_map byte_to_lower.

(** [s.bytes().all(f)] and [s.bytes().any(f)]. *)
Fixpoint bytes_all (f : ascii → bool) (s : string) : bool :=
  match s with "" => true | String a s' => f a && bytes_all f s' end.
Definition bytes_any (f : ascii → bool) (s : string) : bool :=
  negb (bytes_all (λ a, negb (f a)) s).

Definition is_empty (s : string) : bool := match s with "" => true | _ => false end.

(** * Substrings *)

(** [str::strip_prefix] with a literal. *)
Fixpoint strip_prefix (p s : string) : option string :=
  match p, s with
  | "", _ => Some s
  | String a p', String b s' => if bool_decide (a = b) then strip_prefix p' s' else None
  | String _ _, "" => None
  end.
Definition starts_with (p s : string) : bool := bool_decide (is_Some (strip_prefix p s)).

(** [str::strip_suffix] and [str::ends_with]. *)
Definition strip_suffix (p s : string) : option string :=
  String.rev <$> strip_prefix (String.rev p) (String.rev s).
Definition ends_with (p s : string) : bool := bool_decide (is_Some (strip_suffix p s)).

(** [s.contains(p)]. *)
Fixpoint contains (p s : string) : bool :=
  starts_with p s || match s with "" => false | String _ s' => contains p s' end.
Definition contains_byte (c : ascii) (s : string) : bool :=
  bytes_any (λ a, bool_decide (a = c)) s.

(** Number of occurrences of a byte, [s.matches(c).count()]. *)
Fixpoint count_byte (c : ascii) (s : string) : nat :=
  match s with
  | "" => 0
  | String a s' => (if bool_decide (a = c) then 1 else 0) + count_byte c s'
  end.

(** [s.split_once(c)]: around the first occurrence. *)
Fixpoint split_once (c : ascii) (s : string) : option (string * string) :=
  match s with
  | "" => None
  | String a s' =>
      if bool_decide (a = c) then Some ("", s')
      else '(h, t) ← split_once c s'; Some (String a h, t)
  end.

(** [s.rsplit_once(c)]: around the last occurrence. *)
Fixpoint rsplit_once (c : ascii) (s : string) : option (string * string) :=
  match s with
  | "" => None
  | String a s' =>
      match rsplit_once c s' with
      | Some (h, t) => Some (String a h, t)
      | None => if bool_decide (a = c) then Some ("", s') else None
      end
  end.

(** [s.split_once("…")] with a string pattern. *)
Fixpoint split_once_str (p s : string) : option (string * string) :=
  match strip_prefix p s with
  | Some t => Some ("", t)
  | None =>
      match s with
      | "" => None
      | String a s' => '(h, t) ← split_once_str p s'; Some (String a h, t)
      end
  end.

(** [s.split(pat).next()]: the part before the first match. *)
Fixpoint split_first (f : ascii → bool) (s : string) : string :=
  match s with
  | "" => ""
  | String a s' => if f a then "" else String a (split_first f s')
  end.

(** [s.rsplit(pat).next()]: the part after the last match. *)
Fixpoint rsplit_first (f : ascii → bool) (s : string) : string :=
  match s with
  | "" => ""
  | String a s' =>
      if f a || bytes_any f s' then rsplit_first f s' else String a (rsplit_first f s')
  end.

(** [s.split(c)] for a one-byte separator: always at least one piece. *)
Fixpoint split_on (c : ascii) (s : string) : list string :=
  match s with
  | "" => [""]
  | String a s' =>
      if bool_decide (a = c) then "" :: split_on c s'
      else match split_on c s' with
           | w :: ws => String a w :: ws
           | [] => [String a ""]
           end
  end.

(** [s.replace(c, …)] for one byte by another. *)
Definition replace_byte (c d : ascii) (s : string) : string :=
  str_map (λ a, if bool_decide (a = c) then d else a) s.

(** [l.join(sep)] *)
Definition join : string → list string → string := String.concat.

(** * Characters *)

Definition is_continuation (a : ascii) : bool := byte_in 128 191 a.
Definition starts_with_continuation (c : string) : bool :=
  match c with "" => false | String a _ => is_continuation a end.

(** The characters of a UTF-8 string, each as the string of its bytes. *)
Fixpoint chars (s : string) : list string :=
  match s with
  | "" => []
  | String a s' =>
      match chars s' with
      | c :: cs => if starts_with_continuation c then String a c :: cs
                   else String a "" :: c :: cs
      | [] => [String a ""]
      end
  end.

Definition byte (n : N) : ascii := ascii_of_N n.
Fixpoint str_of_bytes (l : list N) : string :=
  match l with [] => "" | n :: l' => String (byte n) (str_of_bytes l') end.

(** The characters with the Unicode property White_Space. *)
Definition white_space : list string :=
  str_of_bytes <$> [[9]; [10]; [11]; [12]; [13]; [32]]%N.
Definition white_space_multi : list string :=
  str_of_bytes <$>
  [[194; 133]; [194; 160]; [225; 154; 128];
   [226; 128; 128]; [226; 128; 129]; [226; 128; 130]; [226; 128; 131];
   [226; 128; 132]; [226; 128; 133]; [226; 128; 134]; [226; 128; 135];
   [226; 128; 136]; [226; 128; 137]; [226; 128; 138];
   [226; 128; 168]; [226; 128; 169]; [226; 128; 175]; [226; 129; 159];
   [227; 128; 128]]%N.
(** [char::is_whitespace]. *)
Definition is_whitespace (c : string) : bool :=
  bool_decide (c ∈ white_space) || bool_decide (c ∈ white_space_multi).

Fixpoint drop_while {A} (f : A → bool) (l : list A) : list A :=
  match l with [] => [] | x :: l' => if f x then drop_while f l' else l end.

Definition concat_str : list string → string := foldr String.append "".

(** [str::trim], and [trim_matches] for a set of characters. *)
Definition trim_by (f : string → bool) (s : string) : string :=
  concat_str (reverse (drop_while f (reverse (drop_while f (chars s))))).
Definition trim : string → string := trim_by is_whitespace.

(** * Numbers *)

Definition digit_val (a : ascii) : N := (N_of_ascii a - 48)%N.

(** The digits of [s] read as a decimal number after [acc]. *)
Fixpoint dec_go (acc : N) (s : string) : option N :=
  match s with
  | "" => Some acc
  | String a s' => if is_ascii_digit a then dec_go (acc * 10 + digit_val a) s' else None
  end.

(** [str::parse::<u64>]: an optional [+], at least one digit, no overflow. *)
Definition parse_u64 (s : string) : option N :=
  let body := default s (strip_prefix "+" s) in
  if is_empty body then None
  else n ← dec_go 0 body; if bool_decide (n ≤ u64_max)%N then Some n else None.

(** [{:?}] of a [str] and of a [char] for the ASCII range; the escape that the
    formatter prints for a non-ASCII character is [esc]. *)
Definition debug_char (esc : string → string) (c : string) : string :=
  match c with
  | String a "" =>
      let n := N_of_ascii a in
      if bool_decide (n = 9%N) then "\t" else
      if bool_decide (n = 10%N) then "\n" else
      if bool_decide (n = 13%N) then "\r" else
      if bool_decide (n = 0%N) then "\0" else
      if bool_decide (n = 34%N) then String (byte 92) (String (byte 34) "") else
      if bool_decide (n = 92%N) then String (byte 92) (String (byte 92) "") else
      if bool_decide (32 ≤ n < 127)%N then c else esc c
  | _ => esc c
  end.
Definition quote_str : string := String (byte 34) "".
Definition debug_str (esc : string → string) (s : string) : string :=
  quote_str +:+ concat_str (debug_char esc <$> chars s) +:+ quote_str.

(** * Lemmas *)

Lemma app_cons_str a (s t : string) : String a s +:+ t = String a (s +:+ t).
Proof. done. Qed.

Lemma app_nil_l_str (s : string) : "" +:+ s = s.
Proof. done. Qed.

Lemma app_nil_r_str (s : string) : s +:+ "" = s.
Proof. induction s as [|a s IH]; [done|]. by rewrite ?app_cons_str, IH. Qed.

Lemma app_assoc_str (s t u : string) : s +:+ (t +:+ u) = (s +:+ t) +:+ u.
Proof. induction s as [|a s IH]; [done|]. by rewrite ?app_cons_str, IH. Qed.

Lemma concat_chars s : concat_str (chars s) = s.
Proof.
  induction s as [|a s IH]; [done|]. simpl.
  destruct (chars s) as [|c cs] eqn:E; simpl in *; [by subst|].
  destruct (starts_with_continuation c); simpl; by rewrite <- IH.
Qed.

Lemma strip_prefix_Some p s t : strip_prefix p s = Some t ↔ s = p +:+ t.
Proof.
  revert s. induction p as [|a p IH]; intros s; simpl; [naive_solver|].
  destruct s as [|b s]; [done|]. rewrite app_cons_str. case_bool_decide as H.
  - rewrite IH. subst. naive_solver.
  - naive_solver.
Qed.

Lemma strip_prefix_app p t : strip_prefix p (p +:+ t) = Some t.
Proof. by apply strip_prefix_Some. Qed.

Lemma starts_with_spec p s : starts_with p s = true ↔ ∃ t, s = p +:+ t.
Proof.
  unfold starts_with. rewrite bool_decide_eq_true. unfold is_Some.
  by setoid_rewrite strip_prefix_Some.
Qed.

Lemma contains_spec p s : contains p s = true ↔ ∃ u v, s = u +:+ p +:+ v.
Proof.
  induction s as [|a s IH]; simpl; rewrite orb_true_iff, starts_with_spec.
  - split.
    + intros [[t Ht]|?]; [|done]. by exists "", t.
    + intros (u & v & E). left. exists v. destruct u; [done|]. done.
  - rewrite IH. split.
    + intros [[t Ht]|(u & v & ->)]; [by exists "", t|]. by exists (String a u), v.
    + intros ([|b u] & v & E).
      * left. by exists v.
      * right. rewrite app_cons_str in E. simplify_eq. by exists u, v.
Qed.

Lemma bytes_any_cons f a s : bytes_any f (String a s) = f a || bytes_any f s.
Proof. unfold bytes_any. simpl. destruct (f a); done. Qed.

Lemma bytes_all_app f s t : bytes_all f (s +:+ t) = bytes_all f s && bytes_all f t.
Proof. induction s as [|a s IH]; [done|]. rewrite app_cons_str. simpl. by rewrite IH, andb_assoc. Qed.

Lemma rsplit_once_None c s : rsplit_once c s = None ↔ contains_byte c s = false.
Proof.
  unfold contains_byte. induction s as [|a s IH]; simpl; [done|].
  rewrite bytes_any_cons. destruct (rsplit_once c s) as [[h t]|] eqn:E.
  - split; [done|]. intros [_ H]%orb_false_elim. apply IH in H. done.
  - rewrite (proj1 IH eq_refl), orb_false_r. by case_bool_decide.
Qed.

(** The split is around the last occurrence: the right part has none. *)
Lemma rsplit_once_Some c s h t :
  rsplit_once c s = Some (h, t) ↔ s = h +:+ String c t ∧ contains_byte c t = false.
Proof.
  revert h t. induction s as [|a s IH]; intros h t; simpl.
  - split; [done|]. intros [E _]. destruct h; done.
  - destruct (rsplit_once c s) as [[h' t']|] eqn:E.
    + destruct (proj1 (IH h' t') eq_refl) as [-> Ht'].
      split; [intros ?; by simplify_eq|].
      intros [E' Ht]. destruct h as [|b h].
      * rewrite app_nil_l_str in E'. simplify_eq.
        apply rsplit_once_None in Ht. congruence.
      * rewrite app_cons_str in E'. simplify_eq.
        assert (Some (h', t') = Some (h, t)) as X; [|by simplify_eq].
        apply IH. done.
    + assert (contains_byte c s = false) as Hs by (by apply rsplit_once_None).
      case_bool_decide as Ha.
      * subst. split; [intros ?; by simplify_eq|]. intros [E' Ht].
        destruct h as [|b h]; [by rewrite app_nil_l_str in E'; simplify_eq|].
        rewrite app_cons_str in E'. simplify_eq.
        assert (None = Some (h, t)) as X; [|done]. apply IH. done.
      * split; [done|]. intros [E' Ht].
        destruct h as [|b h]; [by rewrite app_nil_l_str in E'; simplify_eq|].
        rewrite app_cons_str in E'. simplify_eq.
        assert (None = Some (h, t)) as X; [|done]. apply IH. done.
Qed.

Lemma split_once_Some c s h t :
  split_once c s = Some (h, t) ↔ s = h +:+ String c t ∧ contains_byte c h = false.
Proof.
  revert h t. induction s as [|a s IH]; intros h t; simpl.
  - split; [done|]. intros [E _]. destruct h; done.
  - case_bool_decide as Ha.
    + subst. split; [intros ?; by simplify_eq|]. intros [E H].
      destruct h as [|b h]; [by rewrite app_nil_l_str in E; simplify_eq|].
      rewrite app_cons_str in E. simplify_eq.
      unfold contains_byte in H. rewrite bytes_any_cons in H.
      by rewrite bool_decide_eq_true_2 in H.
    + rewrite bind_Some. split.
      * intros ([h' t'] & H & ?). simplify_eq. apply IH in H as [-> H]. split; [done|].
        unfold contains_byte in *. rewrite bytes_any_cons, H.
        by rewrite bool_decide_eq_false_2.
      * intros [E H]. destruct h as [|b h]; [by rewrite app_nil_l_str in E; simplify_eq|].
        rewrite app_cons_str in E. simplify_eq.
        unfold contains_byte in *. rewrite bytes_any_cons in H.
        apply orb_false_elim in H as [_ H].
        exists (h, t). split; [|done]. by apply IH.
Qed.

(** ** Decimal round trip *)

Lemma is_ascii_digit_pretty x : (x < 10)%N →
  is_ascii_digit (pretty_N_char x) = true ∧ digit_val (pretty_N_char x) = x.
Proof.
  intros H.
  assert (Forall (λ x, is_ascii_digit (pretty_N_char x) = true
                       ∧ digit_val (pretty_N_char x) = x) [0;1;2;3;4;5;6;7;8;9]%N) as F.
  { repeat constructor. }
  rewrite Forall_forall in F. apply F.
  assert (x = 0 ∨ x = 1 ∨ x = 2 ∨ x = 3 ∨ x = 4 ∨ x = 5 ∨ x = 6 ∨ x = 7 ∨ x = 8 ∨ x = 9)%N by lia.
  set_solver.
Qed.

Lemma dec_go_pretty x s : dec_go 0 (pretty_N_go x s) = dec_go x s.
Proof.
  revert s. induction (N.lt_wf_0 x) as [x _ IH]; intros s.
  destruct (decide (0 < x)%N) as [Hx|Hx].
  - rewrite pretty_N_go_step by done. rewrite IH by (apply N.div_lt; lia). simpl.
    destruct (is_ascii_digit_pretty (x `mod` 10)%N) as [-> ->]; [by apply N.mod_lt|].
    f_equal. rewrite N.mul_comm. symmetry. apply N.div_mod. done.
  - assert (x = 0%N) as -> by lia. by rewrite pretty_N_go_0.
Qed.

Lemma dec_go_pretty_N (n : N) : dec_go 0 (pretty n) = Some n.
Proof.
  unfold pretty, pretty_N. case_decide as H; [by subst|].
  by rewrite dec_go_pretty.
Qed.

Lemma dec_go_digits acc s n : dec_go acc s = Some n → bytes_all is_ascii_digit s = true.
Proof.
  revert acc. induction s as [|a s IH]; intros acc; simpl; [done|].
  destruct (is_ascii_digit a); [|done]. apply IH.
Qed.

Lemma pretty_N_digits (n : N) : bytes_all is_ascii_digit (pretty n) = true.
Proof. eapply dec_go_digits, dec_go_pretty_N. Qed.

Lemma pretty_N_nonempty (n : N) : pretty n ≠ "".
Proof.
  intros E. destruct (decide (n = 0%N)) as [->|Hn]; [done|].
  pose proof (dec_go_pretty_N n) as H. rewrite E in H. simpl in H. congruence.
Qed.

Lemma parse_u64_pretty (n : N) : (n ≤ u64_max)%N → parse_u64 (pretty n) = Some n.
Proof.
  intros Hn. unfold parse_u64.
  pose proof (pretty_N_digits n) as Hd. pose proof (dec_go_pretty_N n) as Hv.
  destruct (pretty n) as [|a s] eqn:E; [by apply pretty_N_nonempty in E|].
  assert (strip_prefix "+" (String a s) = None) as ->.
  { simpl. case_bool_decide as Ha; [|done]. subst. done. }
  simpl is_empty. cbv iota. cbn [default]. rewrite Hv. simpl.
  by rewrite bool_decide_eq_true_2.
Qed.

(** ** Trimming text without white space *)

Definition plain_byte (a : ascii) : bool := byte_in 33 126 a.

(** A one-byte character. *)
Definition ascii_byte (a : ascii) : bool := byte_in 0 127 a.

Lemma chars_ascii a s :
  bytes_all ascii_byte (String a s) = true → chars (String a s) = String a "" :: chars s.
Proof.
  intros H. simpl. destruct s as [|b s]; [done|].
  simpl in H. apply andb_prop in H as [_ [Hb _]%andb_prop].
  destruct (chars (String b s)) as [|c cs] eqn:E; [done|].
  assert (starts_with_continuation c = false) as ->; [|done].
  assert (∃ r, c = String b r) as [r ->].
  { simpl in E. destruct (chars s) as [|c' cs']; [naive_solver|].
    destruct (starts_with_continuation c'); naive_solver. }
  simpl. destruct b as [[] [] [] [] [] [] [] []]; vm_compute in Hb |- *; done.
Qed.

Lemma chars_ascii_app s t :
  bytes_all ascii_byte (s +:+ t) = true → chars (s +:+ t) = chars s ++ chars t.
Proof.
  induction s as [|a s IH]; [done|]. intros H. rewrite app_cons_str in H |- *.
  rewrite chars_ascii by done.
  assert (bytes_all ascii_byte (s +:+ t) = true) as Hst by (simpl in H; by apply andb_prop in H as [_ ?]).
  rewrite (IH Hst), (chars_ascii a s); [done|].
  rewrite <-app_cons_str, bytes_all_app in H. by apply andb_prop in H as [? _].
Qed.

Lemma bytes_all_impl (f g : ascii → bool) s :
  (∀ a, f a = true → g a = true) → bytes_all f s = true → bytes_all g s = true.
Proof.
  intros H. induction s as [|a s IH]; [done|]. simpl. intros [? ?]%andb_prop.
  apply andb_true_intro. auto.
Qed.

Lemma plain_ascii a : plain_byte a = true → ascii_byte a = true.
Proof. unfold plain_byte, ascii_byte, byte_in. rewrite !andb_true_iff, !bool_decide_eq_true. lia. Qed.

Lemma chars_plain a s :
  bytes_all plain_byte (String a s) = true → chars (String a s) = String a "" :: chars s.
Proof. intros H. by apply chars_ascii, (bytes_all_impl _ _ _ plain_ascii). Qed.

Lemma plain_byte_not_space a : plain_byte a = true → is_whitespace (String a "") = false.
Proof. destruct a as [[] [] [] [] [] [] [] []]; vm_compute; done. Qed.

Lemma chars_plain_all s :
  bytes_all plain_byte s = true → Forall (λ c, is_whitespace c = false) (chars s).
Proof.
  induction s as [|a s IH]; intros H; [constructor|].
  rewrite chars_plain by done. simpl in H. apply andb_prop in H as [Ha Hs].
  constructor; [by apply plain_byte_not_space|auto].
Qed.

Lemma drop_while_none {A} (f : A → bool) l :
  Forall (λ x, f x = false) l → drop_while f l = l.
Proof. destruct 1 as [|x l Hx _]; [done|]. simpl. by rewrite Hx. Qed.

Lemma trim_plain s : bytes_all plain_byte s = true → trim s = s.
Proof.
  intros H. unfold trim, trim_by. pose proof (chars_plain_all s H) as F.
  rewrite (drop_while_none _ (chars s)) by done.
  rewrite drop_while_none by (by apply Forall_reverse). rewrite reverse_involutive.
  apply concat_chars.
Qed.

Lemma digit_plain a : is_ascii_digit a = true → plain_byte a = true.
Proof.
  unfold is_ascii_digit, plain_byte, byte_in. rewrite !andb_true_iff, !bool_decide_eq_true. lia.
Qed.

Lemma trim_pretty (n : N) : trim (pretty n) = pretty n.
Proof. apply trim_plain, (bytes_all_impl _ _ _ digit_plain), pretty_N_digits. Qed.

Lemma parse_u64_trim_pretty (n : N) :
  (n ≤ u64_max)%N → parse_u64 (trim (pretty n)) = Some n.
Proof. rewrite trim_pretty. apply parse_u64_pretty. Qed.

#[global] Arguments strip_prefix : simpl never.
#[global] Arguments strip_suffix : simpl never.
#[global] Arguments starts_with : simpl never.
#[global] Arguments contains : simpl never.
#[global] Arguments contains_byte : simpl never.
#[global] Arguments split_once : simpl never.
#[global] Arguments rsplit_once : simpl never.
#[global] Arguments split_once_str : simpl never.
#[global] Arguments parse_u64 : simpl never.
#[global] Arguments trim : simpl never.
#[global] Arguments to_ascii_lowercase : simpl never.

(** * Unix paths ([std::path]) *)

Definition path_is_absolute (p : string) : bool := starts_with "/" p.

(** [Path::join]. *)
Definition path_join (base p : string) : string :=
  if path_is_absolute p then p
  else if is_empty base then p
  else if ends_with "/" base then base +:+ p
  else base +:+ "/" +:+ p.

(** [Path::file_name]: the last component, unless it is [..]; empty and [.]
    segments are not components. *)
Definition path_file_name (p : string) : option string :=
  match last (filter (λ c, c ≠ "" ∧ c ≠ ".") (split_on "/"%char p)) with
  | Some c => if bool_decide (c = "..") then None else Some c
  | None => None
  end.

(** * Splitting and joining *)

Lemma split_on_nosep c s : contains_byte c s = false → split_on c s = [s].
Proof.
  unfold contains_byte. induction s as [|a s IH]; simpl; [done|].
  rewrite bytes_any_cons, orb_false_iff. intros [Ha Hs]. rewrite Ha, (IH Hs). done.
Qed.

Lemma digits_no_byte c s :
  bytes_all is_ascii_digit s = true → is_ascii_digit c = false → contains_byte c s = false.
Proof.
  unfold contains_byte. intros Hs Hc. induction s as [|a s IH]; [done|].
  simpl in Hs. apply andb_prop in Hs as [Ha Hs]. rewrite bytes_any_cons, (IH Hs), orb_false_r.
  apply bool_decide_eq_false. intros ->. congruence.
Qed.

Lemma split_on_sep c w s : contains_byte c w = false → split_on c (w +:+ String c s) = w :: split_on c s.
Proof.
  unfold contains_byte. induction w as [|a w IH]; simpl; intros Hw.
  - by rewrite bool_decide_eq_true_2.
  - rewrite bytes_any_cons, orb_false_iff in Hw. destruct Hw as [Ha Hw].
    rewrite Ha, (IH Hw). done.
Qed.

Lemma split_on_join c ws :
  ws ≠ [] → Forall (λ w, contains_byte c w = false) ws →
  split_on c (join (String c "") ws) = ws.
Proof.
  induction ws as [|w [|w' ws] IH]; intros Hne Hall; [done| |].
  - apply Forall_cons in Hall as [Hw _]. by apply split_on_nosep.
  - apply Forall_cons in Hall as [Hw Hall].
    change (join (String c "") (w :: w' :: ws)) with (w +:+ String c (join (String c "") (w' :: ws))).
    rewrite split_on_sep by done. by rewrite IH.
Qed.

Lemma split_on_pieces c s : Forall (λ w, contains_byte c w = false) (split_on c s).
Proof.
  unfold contains_byte. induction s as [|a s IH]; simpl; [by repeat constructor|].
  case_bool_decide as Ha; [by constructor|].
  destruct (split_on c s) as [|w ws] eqn:E.
  - repeat constructor. rewrite bytes_any_cons. by rewrite bool_decide_eq_false_2.
  - apply Forall_cons in IH as [Hw Hws]. constructor; [|done].
    rewrite bytes_any_cons. rewrite bool_decide_eq_false_2; done.
Qed.

Lemma split_on_bytes f c s : bytes_all f s = true → Forall (λ w, bytes_all f w = true) (split_on c s).
Proof.
  induction s as [|a s IH]; simpl; [by repeat constructor|].
  intros [Ha Hs]%andb_prop. specialize (IH Hs). case_bool_decide; [by constructor|].
  destruct (split_on c s) as [|w ws].
  - repeat constructor. simpl. by rewrite Ha.
  - apply Forall_cons in IH as [Hw Hws]. constructor; [|done]. simpl. by rewrite Ha.
Qed.

Lemma join_bytes f sep ws :
  bytes_all f sep = true → Forall (λ w, bytes_all f w = true) ws → bytes_all f (join sep ws) = true.
Proof.
  intros Hsep. induction ws as [|w [|w' ws] IH]; intros Hall; [done| |].
  - by apply Forall_cons in Hall as [Hw _].
  - apply Forall_cons in Hall as [Hw Hall].
    change (join sep (w :: w' :: ws)) with (w +:+ sep +:+ join sep (w' :: ws)).
    by rewrite !bytes_all_app, Hw, Hsep, (IH Hall).
Qed.

(** * Slices *)

Fixpoint str_take (n : nat) (s : string) : string :=
  match n, s with S n', String a s' => String a (str_take n' s') | _, _ => "" end.
Fixpoint str_drop (n : nat) (s : string) : string :=
  match n, s with S n', String _ s' => str_drop n' s' | _, _ => s end.

(** [&s[i..j]] for [i ≤ j ≤ s.len()]. *)
Definition slice (i j : nat) (s : string) : string := str_take (j - i) (str_drop i s).

(** [str::is_char_boundary]. *)
Definition is_char_boundary (s : string) (i : nat) : bool :=
  bool_decide (i ≤ String.length s) && negb (starts_with_continuation (str_drop i s)).

Lemma str_take_drop n s : str_take n s +:+ str_drop n s = s.
Proof. revert s. induction n as [|n IH]; intros [|a s]; try done. simpl. by rewrite app_cons_str, IH. Qed.

Lemma str_drop_drop n m s : str_drop n (str_drop m s) = str_drop (m + n) s.
Proof. revert s. induction m as [|m IH]; intros [|a s]; simpl; try done. by destruct n. Qed.

Lemma length_str_take n s : n ≤ String.length s → String.length (str_take n s) = n.
Proof. revert s. induction n as [|n IH]; intros [|a s]; simpl; try done; try lia. intros. f_equal. apply IH. lia. Qed.

Lemma length_str_drop n s : String.length (str_drop n s) = String.length s - n.
Proof. revert s. induction n as [|n IH]; intros [|a s]; simpl; try done; try lia. Qed.

Lemma slice_drop i j s : i ≤ j → slice i j s +:+ str_drop j s = str_drop i s.
Proof.
  intros H. unfold slice. replace (str_drop j s) with (str_drop (j - i) (str_drop i s)); [apply str_take_drop|].
  rewrite str_drop_drop. f_equal. lia.
Qed.

(** * Suffixes and bytes *)

Lemma rev_app_eq (s t : string) : String.rev_app s t = String.rev s +:+ t.
Proof.
  unfold String.rev. revert t. induction s as [|a s IH]; intros t; [done|]. simpl.
  rewrite IH, (IH (String a "")). by rewrite <-app_assoc_str.
Qed.

Lemma rev_append (s t : string) : String.rev (s +:+ t) = String.rev t +:+ String.rev s.
Proof.
  induction s as [|a s IH]; [by rewrite app_nil_r_str|]. rewrite app_cons_str. unfold String.rev in *. simpl.
  rewrite (rev_app_eq (s +:+ t)), (rev_app_eq s). unfold String.rev. rewrite IH. by rewrite app_assoc_str.
Qed.

Lemma rev_involutive (s : string) : String.rev (String.rev s) = s.
Proof.
  induction s as [|a s IH]; [done|].
  change (String a s) with (String a "" +:+ s). rewrite rev_append.
  rewrite rev_append, IH. done.
Qed.

Lemma strip_suffix_Some p s t : strip_suffix p s = Some t ↔ s = t +:+ p.
Proof.
  unfold strip_suffix. rewrite fmap_Some. setoid_rewrite strip_prefix_Some. split.
  - intros (u & Hu & ->). rewrite <-(rev_involutive s), Hu, rev_append. by rewrite rev_involutive.
  - intros ->. exists (String.rev t). by rewrite rev_append, rev_involutive.
Qed.

Lemma contains_byte_app c s t : contains_byte c (s +:+ t) = contains_byte c s || contains_byte c t.
Proof.
  unfold contains_byte. induction s as [|a s IH]; [done|].
  rewrite app_cons_str, !bytes_any_cons, IH. by rewrite orb_assoc.
Qed.

Lemma rsplit_first_clean f s : bytes_any f (rsplit_first f s) = false.
Proof.
  induction s as [|a s IH]; [done|]. simpl. destruct (f a) eqn:Ha; [done|].
  destruct (bytes_any f s) eqn:Hs; [done|]. simpl. by rewrite bytes_any_cons, Ha, IH.
Qed.

Lemma bytes_any_impl (f g : ascii → bool) s :
  (∀ a, f a = true → g a = true) → bytes_any g s = false → bytes_any f s = false.
Proof.
  intros Hfg. induction s as [|a s IH]; [done|]. rewrite !bytes_any_cons, !orb_false_iff.
  intros [Ha Hs]. split; [|auto]. destruct (f a) eqn:E; [|done]. apply Hfg in E. congruence.
Qed.

Lemma lowercase_slash s : contains_byte "/"%char s = false → contains_byte "/"%char (to_ascii_lowercase s) = false.
Proof.
  unfold contains_byte, to_ascii_lowercase. induction s as [|a s IH]; [done|]. simpl.
  rewrite !bytes_any_cons, !orb_false_iff. intros [Ha Hs]. split; [|auto].
  destruct a as [[] [] [] [] [] [] [] []]; vm_compute in Ha |- *; congruence.
Qed.
