(* ===== verification/StrSearch.v ===== *)
(** * Searching and replacing in strings

    [str::find], [rfind], [replace], [matches] and the one-sided trims, over the
    byte strings of [RustStr]. A search of UTF-8 text for UTF-8 text finds the
    same places bytewise. *)
From S2P Require Import Prelude RustStr.

(** [s.find(p)] and [s.rfind(p)]: the byte offset of a match. *)
Fixpoint find (p s : string) : option nat :=
  if starts_with p s then Some 0
  else match s with "" => None | String _ s' => S <$> find p s' end.

Fixpoint rfind (p s : string) : option nat :=
  match s with
  | "" => if starts_with p s then Some 0 else None
  | String _ s' =>
      match rfind p s' with
      | Some i => Some (S i)
      | None => if starts_with p s then Some 0 else None
      end
  end.

(** [s.replace(p, r)] for a non-empty [p]: [skip] bytes of a match are still to
    be dropped. *)
Fixpoint replace_go (p r : string) (skip : nat) (s : string) : string :=
  match s with
  | "" => ""
  | String a s' =>
      match skip with
      | S skip' => replace_go p r skip' s'
      | 0 => if starts_with p s then r +:+ replace_go p r (String.length p - 1) s'
             else String a (replace_go p r 0 s')
      end
  end.
Definition replace (p r s : string) : string := replace_go p r 0 s.

(** [s.matches(p).count()] for a non-empty [p]. *)
Fixpoint count_go (p : string) (skip : nat) (s : string) : nat :=
  match s with
  | "" => 0
  | String _ s' =>
      match skip with
      | S skip' => count_go p skip' s'
      | 0 => if starts_with p s then S (count_go p (String.length p - 1) s') else count_go p 0 s'
      end
  end.
Definition count_matches (p s : string) : nat := count_go p 0 s.

(** [trim_start], and [trim_start_matches] for a set of characters. *)
Definition trim_start_by (f : string → bool) (s : string) : string := concat_str (drop_while f (chars s)).
Definition trim_start : string → string := trim_start_by is_whitespace.
(** [str::trim_end] and [trim_end_matches]. *)
Definition trim_end_by (f : string → bool) (s : string) : string :=
  concat_str (reverse (drop_while f (reverse (chars s)))).
Definition trim_end : string → string := trim_end_by is_whitespace.

(** The arrow after a line number, and a number as text. *)
Definition arrow : string := str_of_bytes [226; 134; 146]%N.
Definition show_nat (n : nat) : string := pretty (N.of_nat n).

Definition newline : string := String (byte 10) "".
Definition carriage_return : string := String (byte 13) "".

(** One line without its line end: [\r\n] counts as one. *)
Definition strip_cr (l : string) : string := default l (strip_suffix carriage_return l).

(** [str::lines]: every piece that a newline ends, without a carriage return
    before it, and the rest of the text if there is any. *)
Definition lines (text : string) : list string :=
  match reverse (split_on (byte 10) text) with
  | [] => []
  | rest :: ended => (strip_cr <$> reverse ended) ++ (if is_empty rest then [] else [rest])
  end.

(** The lines [start..end]. *)
Definition slice_lines (start end_ : nat) (ls : list string) : list string :=
  take (end_ - start) (drop start ls).

Lemma take_slice i j (ls : list string) : i ≤ j → take i ls ++ slice_lines i j ls = take j ls.
Proof.
  intros H. unfold slice_lines. rewrite <-(take_drop i (take j ls)). rewrite take_take, Nat.min_l by done.
  f_equal. by rewrite <-skipn_firstn_comm.
Qed.

Lemma length_slice i j (ls : list string) : i ≤ j ≤ length ls → length (slice_lines i j ls) = j - i.
Proof. intros H. unfold slice_lines. rewrite length_take, length_drop. lia. Qed.

(** * Joining what was split *)

Lemma split_on_ne c s : split_on c s ≠ [].
Proof. destruct s as [|a s]; simpl; [done|]. case_bool_decide; [done|]. by destruct (split_on c s). Qed.

Lemma join_cons sep w ws : ws ≠ [] → join sep (w :: ws) = w +:+ sep +:+ join sep ws.
Proof. by destruct ws. Qed.

Lemma join_snoc sep ws w : ws ≠ [] → join sep (ws ++ [w]) = join sep ws +:+ sep +:+ w.
Proof.
  induction ws as [|v ws IH]; [done|]. intros _. destruct (decide (ws = [])) as [->|Hne]; [done|].
  cbn [app]. rewrite !join_cons by (try done; by destruct ws). by rewrite IH, !app_assoc_str.
Qed.

Lemma join_split_on c s : join (String c "") (split_on c s) = s.
Proof.
  induction s as [|a s IH]; [done|]. simpl. pose proof (split_on_ne c s) as Hne.
  case_bool_decide as Ha; [subst a; rewrite join_cons by done; by rewrite IH|].
  destruct (split_on c s) as [|w ws]; [done|]. rewrite <-IH. by destruct ws.
Qed.

(** * Trimming at both ends *)

Lemma split_once_here c h t : contains_byte c h = false → split_once c (h +:+ String c t) = Some (h, t).
Proof. intros H. by apply split_once_Some. Qed.

Lemma split_once_none c s : contains_byte c s = false → split_once c s = None.
Proof.
  intros H. destruct (split_once c s) as [[h t]|] eqn:E; [|done].
  apply split_once_Some in E as [-> _]. unfold contains_byte, bytes_any in *.
  rewrite bytes_all_app in H. simpl in H. rewrite bool_decide_eq_true_2 in H by done.
  simpl in H. by rewrite andb_false_r in H.
Qed.

Lemma chars_app_start s a t :
  is_continuation a = false → chars (s +:+ String a t) = chars s ++ chars (String a t).
Proof.
  intros Ha. assert (∃ c cs, chars (String a t) = String a c :: cs) as (c & cs & E).
  { simpl. destruct (chars t) as [|c cs]; [by eexists _, _|]. destruct (starts_with_continuation c); by eexists _, _. }
  induction s as [|b s IH]; [done|]. rewrite app_cons_str. cbn [chars]. rewrite IH.
  destruct (chars s) as [|d ds]; [|simpl; by destruct (starts_with_continuation d)].
  cbn [app]. rewrite E. cbn [starts_with_continuation]. rewrite Ha, <-E. done.
Qed.

Lemma drop_while_app {A} (f : A → bool) l l' :
  drop_while f (l ++ l') = match drop_while f l with [] => drop_while f l' | d => d ++ l' end.
Proof. induction l as [|x l IH]; [done|]. simpl. by destruct (f x). Qed.

Lemma drop_while_all {A} (f : A → bool) l : Forall (λ x, f x = true) l → drop_while f l = [].
Proof. induction 1 as [|x l Hx _ IH]; [done|]. simpl. by rewrite Hx. Qed.

(** What is trimmed may as well be absent. *)
Lemma drop_both_ends {A} (f : A → bool) l m r :
  Forall (λ x, f x = true) l → Forall (λ x, f x = true) r →
  drop_while f (reverse (drop_while f (l ++ m ++ r))) = drop_while f (reverse (drop_while f m)).
Proof.
  intros Hl Hr. rewrite drop_while_app, (drop_while_all _ _ Hl), drop_while_app.
  destruct (drop_while f m) as [|x m'] eqn:E; [by rewrite (drop_while_all _ _ Hr)|].
  rewrite reverse_app, drop_while_app, (drop_while_all f (reverse r)); [done|]. by apply Forall_reverse.
Qed.

(** * Substrings *)

Lemma length_app_str (s t : string) : String.length (s +:+ t) = String.length s + String.length t.
Proof. induction s as [|a s IH]; [done|]. rewrite app_cons_str. simpl. by rewrite IH. Qed.

Lemma str_take_app s t : str_take (String.length s) (s +:+ t) = s.
Proof. induction s as [|a s IH]; [by destruct t|]. rewrite app_cons_str. simpl. by rewrite IH. Qed.

Lemma str_drop_app s t : str_drop (String.length s) (s +:+ t) = t.
Proof. induction s as [|a s IH]; [by destruct t|]. rewrite app_cons_str. simpl. by rewrite IH. Qed.

Lemma str_drop_app_add s t n : str_drop (String.length s + n) (s +:+ t) = str_drop n t.
Proof. by rewrite <-str_drop_drop, str_drop_app. Qed.

Lemma app_str_inj (u s t : string) : u +:+ s = u +:+ t → s = t.
Proof. induction u as [|a u IH]; [done|]. rewrite !app_cons_str. intros [= E]. by apply IH. Qed.

(** The middle of three parts. *)
Lemma slice_mid pre mid s : slice (String.length pre) (String.length pre + String.length mid) (pre +:+ mid +:+ s) = mid.
Proof.
  unfold slice. rewrite str_drop_app. replace (_ + _ - _) with (String.length mid) by lia. apply str_take_app.
Qed.

Lemma slice_mid_0 s t : slice 0 (String.length s) (s +:+ t) = s.
Proof. apply (slice_mid "" s t). Qed.

Lemma starts_with_app p s : starts_with p (p +:+ s) = true.
Proof. apply starts_with_spec. by exists s. Qed.

Lemma starts_with_cons b p a s :
  starts_with (String b p) (String a s) = bool_decide (b = a) && starts_with p s.
Proof.
  apply Bool.eq_iff_eq_true. rewrite andb_true_iff, bool_decide_eq_true, !starts_with_spec. split.
  - intros [t E]. rewrite app_cons_str in E. injection E as -> ->. naive_solver.
  - intros [-> [t ->]]. by exists t.
Qed.

Lemma contains_nil p : contains p "" = starts_with p "".
Proof. apply orb_false_r. Qed.

Lemma contains_cons p a s : contains p (String a s) = starts_with p (String a s) || contains p s.
Proof. done. Qed.

Lemma contains_app_l p s t : contains p s = true → contains p (s +:+ t) = true.
Proof.
  rewrite !contains_spec. intros (u & v & ->). exists u, (v +:+ t). by rewrite <-!app_assoc_str.
Qed.

Lemma contains_app_r p s t : contains p t = true → contains p (s +:+ t) = true.
Proof. rewrite !contains_spec. intros (u & v & ->). exists (s +:+ u), v. by rewrite <-!app_assoc_str. Qed.

Lemma app_eq_cases (u v s t : string) :
  u +:+ v = s +:+ t → (∃ w, u = s +:+ w ∧ t = w +:+ v) ∨ (∃ w, s = u +:+ w ∧ v = w +:+ t).
Proof.
  revert s. induction u as [|a u IH]; intros s E; [right; by exists s|].
  destruct s as [|b s]; [left; by exists (String a u)|].
  rewrite !app_cons_str in E. injection E as -> E.
  destruct (IH _ E) as [(w & -> & ->)|(w & -> & ->)]; [left|right]; exists w; by rewrite app_cons_str.
Qed.

Lemma app_str_eq_nil (s t : string) : s +:+ t = "" → s = "" ∧ t = "".
Proof. by destruct s. Qed.

Lemma contains_byte_cons c a s : contains_byte c (String a s) = bool_decide (a = c) || contains_byte c s.
Proof. unfold contains_byte. by rewrite bytes_any_cons. Qed.

(** An occurrence of a pattern without the byte [c] does not straddle that byte. *)
Lemma contains_across p c s t :
  p ≠ "" → contains_byte c p = false → contains p (s +:+ String c t) = true →
  contains p s = true ∨ contains p t = true.
Proof.
  intros Hp Hc (u & v & E)%contains_spec. setoid_rewrite contains_spec.
  destruct (app_eq_cases _ _ _ _ E) as [(w & -> & E')|(w & -> & E')].
  - destruct (app_eq_cases _ _ _ _ E') as [(x & -> & E'')|(x & -> & E'')].
    + destruct x as [|b x]; [left; exists u, ""; by rewrite !app_nil_r_str|].
      rewrite app_cons_str in E''. injection E'' as <- E''.
      by rewrite contains_byte_app, contains_byte_cons, bool_decide_eq_true_2, orb_true_r in Hc.
    + left. by exists u, x.
  - destruct w as [|b w].
    + rewrite app_nil_l_str in E'. destruct p as [|b p]; [done|].
      rewrite app_cons_str in E'. injection E' as <- E'.
      by rewrite contains_byte_cons, bool_decide_eq_true_2 in Hc.
    + rewrite app_cons_str in E'. injection E' as <- ->. right. by exists w, v.
Qed.

Lemma contains_across_false p c s t :
  p ≠ "" → contains_byte c p = false → contains p s = false → contains p t = false →
  contains p (s +:+ String c t) = false.
Proof.
  intros Hp Hc Hs Ht. destruct (contains p (s +:+ String c t)) eqn:E; [|done].
  destruct (contains_across p c s t Hp Hc E); congruence.
Qed.

(** An occurrence of a pattern that begins with [c] is found behind text without [c]. *)
Lemma contains_skip c p x s :
  contains_byte c x = false → contains (String c p) (x +:+ s) = contains (String c p) s.
Proof.
  induction x as [|a x IH]; [done|]. rewrite contains_byte_cons. intros [Ha Hx]%orb_false_elim.
  rewrite app_cons_str, contains_cons, starts_with_cons, IH by done.
  apply bool_decide_eq_false_1 in Ha. by rewrite bool_decide_eq_false_2 by congruence.
Qed.

(** * Trimming keeps a substring *)

Lemma concat_str_app l l' : concat_str (l ++ l') = concat_str l +:+ concat_str l'.
Proof. induction l as [|c l IH]; [done|]. simpl. by rewrite IH, app_assoc_str. Qed.

Lemma drop_while_suffix {A} (f : A → bool) l : ∃ k, l = k ++ drop_while f l.
Proof.
  induction l as [|x l [k IH]]; [by exists []|]. simpl. destruct (f x); [|by exists []].
  exists (x :: k). simpl. by f_equal.
Qed.

Lemma trim_start_suffix f s : ∃ u, s = u +:+ trim_start_by f s.
Proof.
  destruct (drop_while_suffix f (chars s)) as [k Hk]. exists (concat_str k).
  unfold trim_start_by. by rewrite <-concat_str_app, <-Hk, concat_chars.
Qed.

Lemma trim_infix f s : ∃ u v, s = u +:+ trim_by f s +:+ v.
Proof.
  destruct (drop_while_suffix f (chars s)) as [k Hk]. set (l := drop_while f (chars s)) in *.
  destruct (drop_while_suffix f (reverse l)) as [k' Hk'].
  exists (concat_str k), (concat_str (reverse k')). unfold trim_by. fold l.
  rewrite <-!concat_str_app, <-reverse_app, <-Hk', reverse_involutive, <-Hk. by rewrite concat_chars.
Qed.

Lemma contains_trim p s : contains p s = false → contains p (trim s) = false.
Proof.
  intros H. destruct (contains p (trim s)) eqn:E; [|done].
  destruct (trim_infix is_whitespace s) as (u & v & Hs). rewrite Hs in H. unfold trim in E.
  rewrite contains_app_r in H; [done|]. by apply contains_app_l.
Qed.

Lemma contains_byte_trim c s : contains_byte c s = false → contains_byte c (trim s) = false.
Proof.
  intros H. destruct (trim_infix is_whitespace s) as (u & v & Hs). rewrite Hs in H. unfold trim.
  rewrite !contains_byte_app in H. by apply orb_false_elim in H as [_ [H _]%orb_false_elim].
Qed.

Lemma chars_first a s : ∃ c cs, chars (String a s) = String a c :: cs.
Proof.
  simpl. destruct (chars s) as [|c cs]; [by eexists _, _|]. destruct (starts_with_continuation c); by eexists _, _.
Qed.

Lemma plain_first_not_space a c : plain_byte a = true → is_whitespace (String a c) = false.
Proof.
  intros Ha. unfold is_whitespace. apply orb_false_intro; apply bool_decide_eq_false_2; intros H.
  all: unfold white_space, white_space_multi in H; cbn [fmap list_fmap str_of_bytes] in H.
  all: repeat (apply elem_of_cons in H as [H|H]; [injection H as -> _; by vm_compute in Ha|]).
  all: by apply not_elem_of_nil in H.
Qed.

Lemma drop_while_keep {A} (f : A → bool) l x : x ∈ l → f x = false → ∃ y l', drop_while f l = y :: l'.
Proof.
  intros Hx Hf. induction Hx as [|x y l _ IH]; simpl; [by rewrite Hf; eauto|].
  destruct (f y); [by apply IH|eauto].
Qed.

(** Text that begins with a visible character is not trimmed away. *)
Lemma trim_visible a s : plain_byte a = true → is_empty (trim (String a s)) = false.
Proof.
  intros Ha. destruct (chars_first a s) as (c & cs & E). unfold trim, trim_by. rewrite E.
  assert (is_whitespace (String a c) = false) as Hc by (by apply plain_first_not_space).
  cbn [drop_while]. rewrite Hc. rewrite reverse_cons.
  assert (∀ l, drop_while is_whitespace (l ++ [String a c]) =
    drop_while is_whitespace l ++ [String a c]) as Hdrop.
  { induction l as [|x l IH]; cbn [app drop_while]; [by rewrite Hc|]. by destruct (is_whitespace x). }
  rewrite Hdrop, reverse_app. done.
Qed.

Lemma trim_start_first f a s : (∀ c, f (String a c) = false) → trim_start_by f (String a s) = String a s.
Proof.
  intros Hf. unfold trim_start_by. destruct (chars_first a s) as (c & cs & E). rewrite E. cbn [drop_while].
  by rewrite Hf, <-E, concat_chars.
Qed.

(** * Finding *)

Lemma find_cons p a s :
  find p (String a s) = if starts_with p (String a s) then Some 0 else S <$> find p s.
Proof. done. Qed.

Lemma find_None p s : find p s = None ↔ contains p s = false.
Proof.
  induction s as [|a s IH]; cbn [find]; rewrite ?contains_nil, ?contains_cons.
  - destruct (starts_with p ""); done.
  - destruct (starts_with p (String a s)); [done|]. simpl. by rewrite fmap_None.
Qed.

(** [find] gives the first match: it splits the string there. *)
Lemma find_Some p s i : find p s = Some i → ∃ u v, s = u +:+ p +:+ v ∧ String.length u = i.
Proof.
  revert i. induction s as [|a s IH]; cbn [find]; intros i.
  - destruct (starts_with p "") eqn:E; [|done]. intros [= <-]. apply starts_with_spec in E as [t Ht]. by exists "", t.
  - destruct (starts_with p (String a s)) eqn:E.
    + intros [= <-]. apply starts_with_spec in E as [t Ht]. by exists "", t.
    + rewrite fmap_Some. intros (j & Hj & ->). destruct (IH j Hj) as (u & v & -> & <-).
      by exists (String a u), v.
Qed.

Lemma find_le p s i : find p s = Some i → i + String.length p ≤ String.length s.
Proof. intros (u & v & -> & <-)%find_Some. rewrite !length_app_str. lia. Qed.

Lemma rfind_None p s : rfind p s = None ↔ contains p s = false.
Proof.
  induction s as [|a s IH]; cbn [rfind]; rewrite ?contains_nil, ?contains_cons.
  - destruct (starts_with p ""); done.
  - destruct (rfind p s); destruct (starts_with p (String a s)); simpl; naive_solver.
Qed.

Lemma rfind_Some p s i : rfind p s = Some i → ∃ u v, s = u +:+ p +:+ v ∧ String.length u = i.
Proof.
  revert i. induction s as [|a s IH]; cbn [rfind]; intros i.
  - destruct (starts_with p "") eqn:E; [|done]. intros [= <-]. apply starts_with_spec in E as [t Ht]. by exists "", t.
  - destruct (rfind p s) as [j|].
    + intros [= <-]. destruct (IH j eq_refl) as (u & v & -> & <-). by exists (String a u), v.
    + destruct (starts_with p (String a s)) eqn:E; [|done].
      intros [= <-]. apply starts_with_spec in E as [t Ht]. by exists "", t.
Qed.

(** The last occurrence of a byte. *)
Lemma rfind_byte c y t : contains_byte c t = false → rfind (String c "") (y +:+ String c t) = Some (String.length y).
Proof.
  intros Ht. induction y as [|a y IH]; [|rewrite app_cons_str; cbn [rfind]; by rewrite IH].
  assert (Hn : rfind (String c "") t = None).
  { apply rfind_None, not_true_iff_false. intros (u & v & ->)%contains_spec.
    rewrite contains_byte_app, contains_byte_app in Ht. cbn in Ht.
    rewrite contains_byte_cons, bool_decide_eq_true_2 in Ht by done. cbn in Ht. by rewrite orb_true_r in Ht. }
  rewrite app_nil_l_str. cbn [rfind]. rewrite Hn. change (String c t) with (String c "" +:+ t). by rewrite starts_with_app.
Qed.

(** The last occurrence of a tag at the end of a text. *)
Lemma rfind_end p u : p ≠ "" → rfind p (u +:+ p) = Some (String.length u).
Proof.
  intros Hp. induction u as [|a u IH]; [|rewrite app_cons_str; cbn [rfind]; by rewrite IH].
  rewrite app_nil_l_str. destruct p as [|c p]; [done|]. cbn [rfind].
  assert (rfind (String c p) p = None) as ->.
  { apply rfind_None, not_true_iff_false. intros (u & v & E)%contains_spec.
    apply (f_equal String.length) in E. rewrite !length_app_str in E. simpl in E. lia. }
  rewrite <-(app_nil_r_str (String c p)) at 2. by rewrite starts_with_app.
Qed.

(** Text without the first byte of the pattern is skipped. *)
Lemma find_skip c p x s :
  contains_byte c x = false → find (String c p) (x +:+ s) = (λ i, String.length x + i) <$> find (String c p) s.
Proof.
  induction x as [|a x IH]; [intros _; simpl; by rewrite option_fmap_id|].
  rewrite contains_byte_cons. intros [Ha Hx]%orb_false_elim. rewrite app_cons_str. cbn [find].
  apply bool_decide_eq_false_1 in Ha. rewrite starts_with_cons, bool_decide_eq_false_2 by congruence. simpl.
  rewrite IH by done. by rewrite <-option_fmap_compose.
Qed.

Lemma find_here p s : find p (p +:+ s) = Some 0.
Proof. destruct p as [|c p]; [by destruct s|]. rewrite app_cons_str. cbn [find]. by rewrite <-app_cons_str, starts_with_app. Qed.

(** A tag in front of which the tag does not occur is found first. *)
Lemma starts_with_stop c w u t :
  contains_byte c w = false → starts_with w (u +:+ String c t) = true → starts_with w u = true.
Proof.
  revert u. induction w as [|b w IH]; intros u; [intros; by destruct u|].
  rewrite contains_byte_cons. intros [Hb%bool_decide_eq_false_1 Hw]%orb_false_elim.
  destruct u as [|a u].
  - rewrite app_nil_l_str, starts_with_cons, bool_decide_eq_false_2 by done. done.
  - rewrite app_cons_str, !starts_with_cons, !andb_true_iff. naive_solver.
Qed.

Lemma find_tag c w u t :
  contains_byte c w = false → contains (String c w) u = false →
  find (String c w) (u +:+ String c w +:+ t) = Some (String.length u).
Proof.
  intros Hw. induction u as [|a u IH]; [intros; apply (find_here (String c w))|].
  rewrite contains_cons. intros [Hs Hu]%orb_false_elim. rewrite app_cons_str. cbn [find].
  assert (starts_with (String c w) (String a (u +:+ String c w +:+ t)) = false) as ->; [|by rewrite IH].
  apply not_true_iff_false. intros H. rewrite starts_with_cons, andb_true_iff in H. destruct H as [Ha H].
  rewrite app_cons_str in H. apply starts_with_stop in H; [|done]. by rewrite starts_with_cons, Ha, H in Hs.
Qed.

(** No occurrence lies before the first one. *)
Lemma first_occurrence c w u v u' v' :
  contains_byte c w = false → contains (String c w) u = false →
  u +:+ String c w +:+ v = u' +:+ String c w +:+ v' →
  ∃ x, u' = u +:+ x ∧ String c w +:+ v = x +:+ String c w +:+ v'.
Proof.
  intros Hw. revert u'. induction u as [|a u IH]; intros u' Hu E; [by exists u'|].
  rewrite contains_cons in Hu. apply orb_false_elim in Hu as [Hs Hu]. destruct u' as [|b u'].
  - rewrite app_nil_l_str, !app_cons_str in E. injection E as -> E.
    assert (starts_with w (u +:+ String c (w +:+ v)) = true) as X by (rewrite E; apply starts_with_app).
    apply starts_with_stop in X; [|done]. by rewrite starts_with_cons, bool_decide_eq_true_2, X in Hs.
  - rewrite !app_cons_str in E. injection E as -> E.
    rewrite <-!(app_cons_str c) in E. destruct (IH u' Hu E) as (x & -> & Hx). by exists x.
Qed.

(** An occurrence in [s ++ d :: t] that is not in [s] is behind [d], when the
    pattern has no [d]. *)
Lemma find_tag_behind d c w s t u v :
  c ≠ d → contains_byte d w = false → contains (String c w) s = false →
  s +:+ String d t = u +:+ String c w +:+ v →
  ∃ x, u = s +:+ String d x ∧ t = x +:+ String c w +:+ v.
Proof.
  intros Hcd Hd Hs E. destruct (app_eq_cases _ _ _ _ E) as [(x & -> & E')|(x & -> & E')].
  - assert (contains (String c w) x = true) as X; [|by rewrite contains_app_r in Hs].
    destruct (app_eq_cases _ _ _ _ E') as [(y & Ey & E'')|(y & -> & E'')].
    + destruct y as [|a y]; [rewrite app_nil_r_str in Ey; rewrite <-Ey|].
      * apply contains_spec. exists "", "". by rewrite app_nil_r_str.
      * rewrite app_cons_str in E''. injection E'' as <- E''. apply (f_equal (contains_byte d)) in Ey.
        rewrite contains_byte_app, (contains_byte_cons d d y), (bool_decide_eq_true_2 (d = d)) in Ey by done.
        rewrite contains_byte_cons, bool_decide_eq_false_2, Hd in Ey by done.
        by rewrite orb_true_r in Ey.
    + apply contains_spec. by exists "", y.
  - destruct x as [|a x].
    + rewrite app_nil_l_str, app_cons_str in E'. by injection E' as ->.
    + rewrite app_cons_str in E'. injection E' as <- ->. by exists x.
Qed.

(** A match of [find] is the first one. *)
Lemma find_first c w s i :
  contains_byte c w = false → find (String c w) s = Some i →
  ∃ u v, s = u +:+ String c w +:+ v ∧ String.length u = i ∧ contains (String c w) u = false.
Proof.
  intros Hw. revert i. induction s as [|a s IH]; cbn [find]; intros i; [done|].
  destruct (starts_with (String c w) (String a s)) eqn:E.
  - intros [= <-]. apply starts_with_spec in E as [t Ht]. by exists "", t.
  - rewrite fmap_Some. intros (j & Hj & ->). destruct (IH j Hj) as (u & v & -> & <- & Hu).
    exists (String a u), v. split_and!; [done|done|]. rewrite contains_cons, Hu, orb_false_r.
    apply not_true_iff_false. intros [t Ht]%starts_with_spec. rewrite <-app_cons_str, Ht, <-app_assoc_str in E.
    by rewrite starts_with_app in E.
Qed.

#[global] Arguments find : simpl never.
#[global] Arguments rfind : simpl never.

(** * Defusing tags *)

(** A tag [<w] is defused by a zero-width space after its opening bracket; [w]
    has no further bracket and does not begin with that space. *)
Definition lt : ascii := "<"%char.
Definition zero_width_space : string := str_of_bytes [226; 128; 139]%N.
Definition tag (w : string) : string := String lt w.
Definition defused (w : string) : string := String lt (zero_width_space +:+ w).
Definition clean (w : string) : bool :=
  negb (contains_byte lt w) && match w with "" => false | String a _ => bool_decide (a ≠ byte 226) end.

Lemma clean_spec w : clean w = true → contains_byte lt w = false ∧ ∃ a w', w = String a w' ∧ a ≠ byte 226.
Proof.
  unfold clean. rewrite andb_true_iff, negb_true_iff. intros [H1 H2]. split; [done|].
  destruct w as [|a w]; [done|]. apply bool_decide_eq_true in H2. eauto.
Qed.

Lemma contains_defused w w' s :
  clean w = true → clean w' = true → contains (tag w') (defused w +:+ s) = contains (tag w') s.
Proof.
  intros [Hw _]%clean_spec [_ (a & x & -> & Ha)]%clean_spec. unfold tag, defused.
  rewrite app_cons_str, contains_cons, starts_with_cons, bool_decide_eq_true_2 by done. simpl.
  change (zero_width_space +:+ w) with (String (byte 226) (str_of_bytes [128; 139]%N +:+ w)).
  rewrite app_cons_str, starts_with_cons, bool_decide_eq_false_2 by done. simpl.
  rewrite <-app_cons_str. apply contains_skip.
  rewrite contains_byte_cons, contains_byte_app, Hw. done.
Qed.

(** Text without [<] at the front of the result was at the front of the input. *)
Lemma starts_with_replaced w x s :
  contains_byte lt x = false → starts_with x (replace_go (tag w) (defused w) 0 s) = true → starts_with x s = true.
Proof.
  revert s. induction x as [|b x IH]; intros s; [intros; by destruct s|].
  rewrite contains_byte_cons. intros [Hb Hx]%orb_false_elim. apply bool_decide_eq_false_1 in Hb.
  destruct s as [|a s]; [done|]. cbn [replace_go]. destruct (starts_with (tag w) (String a s)).
  - unfold defused. rewrite app_cons_str, starts_with_cons, bool_decide_eq_false_2 by done. done.
  - rewrite !starts_with_cons, !andb_true_iff. naive_solver.
Qed.

Lemma replace_defuses w w' skip s :
  clean w = true → clean w' = true → w' = w ∨ contains (tag w') s = false →
  contains (tag w') (replace_go (tag w) (defused w) skip s) = false.
Proof.
  intros Hw Hw'. pose proof (clean_spec w' Hw') as [Hl _]. revert skip.
  induction s as [|a s IH]; intros skip H; [done|].
  assert (w' = w ∨ contains (tag w') s = false) as H'.
  { destruct H as [?|H]; [by left|right]. rewrite contains_cons in H. by apply orb_false_elim in H as [_ ?]. }
  destruct skip as [|skip]; cbn [replace_go]; [|by apply IH].
  destruct (starts_with (tag w) (String a s)) eqn:E.
  - rewrite contains_defused by done. by apply IH.
  - rewrite contains_cons, IH, orb_false_r by done. apply not_true_iff_false. intros Hs.
    assert (starts_with (tag w') (String a s) = true) as Hs'.
    { unfold tag in *. rewrite starts_with_cons, andb_true_iff in Hs |- *. destruct Hs as [Ha Hs].
      split; [done|]. by apply starts_with_replaced with w. }
    destruct H as [->|H]; [congruence|]. by rewrite contains_cons, Hs' in H.
Qed.

(** Replacing a tag by its defused form leaves none of it and makes no other tag. *)
Lemma replace_tag_gone w s : clean w = true → contains (tag w) (replace (tag w) (defused w) s) = false.
Proof. intros H. apply replace_defuses; auto. Qed.
Lemma replace_tag_other w w' s : clean w = true → clean w' = true →
  contains (tag w') s = false → contains (tag w') (replace (tag w) (defused w) s) = false.
Proof. intros. apply replace_defuses; auto. Qed.

(** * Replacing runs *)

Lemma replace_absent p r s : contains p s = false → replace p r s = s.
Proof.
  unfold replace. induction s as [|a s IH]; [done|]. rewrite contains_cons.
  intros [H1 H2]%orb_false_elim. cbn [replace_go]. by rewrite H1, IH.
Qed.

(** Replacing by a run of a byte [c] makes no new text without [c]. *)
Lemma starts_with_replaced_run p r c x s :
  r ≠ "" → bytes_all (λ a, bool_decide (a = c)) r = true → contains_byte c x = false →
  starts_with x (replace_go p r 0 s) = true → starts_with x s = true.
Proof.
  intros Hr Hc. revert s. induction x as [|b x IH]; intros s; [intros; by destruct s|].
  rewrite contains_byte_cons. intros [Hb Hx]%orb_false_elim. apply bool_decide_eq_false_1 in Hb.
  destruct s as [|a s]; [done|]. cbn [replace_go]. destruct (starts_with p (String a s)).
  - destruct r as [|d r]; [done|]. simpl in Hc. apply andb_prop in Hc as [->%bool_decide_eq_true _].
    rewrite app_cons_str, starts_with_cons, bool_decide_eq_false_2 by done. done.
  - rewrite !starts_with_cons, !andb_true_iff. naive_solver.
Qed.

Lemma contains_run_skip c x r s :
  x ≠ "" → bytes_all (λ a, bool_decide (a = c)) r = true → contains_byte c x = false →
  contains x (r +:+ s) = contains x s.
Proof.
  intros Hx Hr Hc. induction r as [|a r IH]; [done|]. simpl in Hr.
  apply andb_prop in Hr as [->%bool_decide_eq_true Hr]. rewrite app_cons_str, contains_cons, IH by done.
  destruct x as [|b x]; [done|]. rewrite contains_byte_cons in Hc. apply orb_false_elim in Hc as [Hb _].
  by rewrite starts_with_cons, Hb.
Qed.

Lemma replace_run_absent p r c x skip s :
  x ≠ "" → r ≠ "" → bytes_all (λ a, bool_decide (a = c)) r = true → contains_byte c x = false →
  contains x s = false → contains x (replace_go p r skip s) = false.
Proof.
  intros Hx Hr Hc Hb. revert skip. induction s as [|a s IH]; intros skip; [done|].
  rewrite contains_cons. intros [H1 H2]%orb_false_elim. destruct skip; cbn [replace_go]; [|by apply IH].
  destruct (starts_with p (String a s)).
  - rewrite (contains_run_skip c) by done. by apply IH.
  - rewrite contains_cons, IH, orb_false_r by done. apply not_true_iff_false. intros Hs.
    assert (starts_with x (String a s) = true); [|congruence]. destruct x as [|b x]; [done|].
    rewrite contains_byte_cons in Hb. apply orb_false_elim in Hb as [_ Hb].
    rewrite starts_with_cons, andb_true_iff in Hs |- *. destruct Hs as [Ha Hs]. split; [done|].
    by apply (starts_with_replaced_run p r c).
Qed.

(** A shorter replacement shortens the string. *)
Lemma length_replace_go p r skip s :
  String.length r ≤ String.length p → p ≠ "" →
  String.length (replace_go p r skip s) + skip `min` String.length s ≤ String.length s.
Proof.
  intros Hr Hp. revert skip. induction s as [|a s IH]; intros skip; [simpl; lia|].
  destruct skip as [|skip]; cbn [replace_go String.length]; [|specialize (IH skip); lia].
  destruct (starts_with p (String a s)) eqn:E; [|specialize (IH 0); simpl; lia].
  apply starts_with_spec in E as [t Ht]. apply (f_equal String.length) in Ht.
  rewrite length_app_str in Ht |- *. simpl in Ht. specialize (IH (String.length p - 1)).
  destruct p; simpl in *; [done|]. lia.
Qed.

Lemma length_replace p r s :
  String.length r < String.length p → contains p s = true → String.length (replace p r s) < String.length s.
Proof.
  intros Hr. assert (p ≠ "") as Hp by (destruct p; simpl in *; [lia|done]). unfold replace.
  induction s as [|a s IH]; [destruct p; [done|by vm_compute]|].
  rewrite contains_cons. cbn [replace_go String.length].
  destruct (starts_with p (String a s)) eqn:E.
  - intros _. apply starts_with_spec in E as [t Ht]. apply (f_equal String.length) in Ht.
    pose proof (length_replace_go p r (String.length p - 1) s) as H.
    rewrite length_app_str in Ht |- *. simpl in Ht. specialize (H ltac:(lia) Hp). lia.
  - intros H. specialize (IH H). simpl. lia.
Qed.

(** * Counting matches *)

Lemma starts_with_stop_iff c w u t :
  contains_byte c w = false → starts_with w (u +:+ String c t) = starts_with w u.
Proof.
  intros Hw. apply Bool.eq_iff_eq_true. split; [by apply starts_with_stop|].
  rewrite !starts_with_spec. intros [v ->]. exists (v +:+ String c t). by rewrite <-app_assoc_str.
Qed.

(** Matches of a pattern do not straddle a byte that is not in its tail. *)
Lemma count_go_app p c w e skip x t :
  p = String c w → contains_byte e w = false → skip ≤ String.length x →
  count_go p skip (x +:+ String e t) = count_go p skip x + count_go p 0 (String e t).
Proof.
  intros -> He. revert skip. induction x as [|a x IH]; intros skip Hs; [by destruct skip; simpl in Hs; [|lia]|].
  rewrite app_cons_str. destruct skip as [|skip]; cbn [count_go]; [|apply IH; simpl in Hs; lia].
  rewrite !(starts_with_cons c w a), starts_with_stop_iff by done.
  destruct (bool_decide (c = a) && starts_with w x) eqn:E; [|apply IH; lia].
  rewrite IH; [done|]. apply andb_prop in E as [_ [v ->]%starts_with_spec].
  rewrite length_app_str. simpl. lia.
Qed.

Lemma count_app p c w e x t :
  p = String c w → contains_byte e w = false →
  count_matches p (x +:+ String e t) = count_matches p x + count_matches p (String e t).
Proof. intros. eapply count_go_app; [done..|lia]. Qed.

(** Text without the first byte of the pattern has no match, and matches behind it
    are unaffected. *)
Lemma count_go_skip c w x t :
  contains_byte c x = false → count_go (String c w) 0 (x +:+ t) = count_go (String c w) 0 t.
Proof.
  induction x as [|a x IH]; [done|]. rewrite contains_byte_cons.
  intros [Ha%bool_decide_eq_false_1 Hx]%orb_false_elim. rewrite app_cons_str. cbn [count_go].
  by rewrite starts_with_cons, bool_decide_eq_false_2, IH by congruence.
Qed.

Lemma count_go_inside p x t : count_go p (String.length x) (x +:+ t) = count_go p 0 t.
Proof. induction x as [|a x IH]; [done|]. rewrite app_cons_str. cbn [count_go String.length]. done. Qed.

(** A match at the front. *)
Lemma count_here c w t : count_matches (String c w) (String c w +:+ t) = S (count_matches (String c w) t).
Proof.
  unfold count_matches. rewrite app_cons_str. cbn [count_go]. rewrite <-app_cons_str, starts_with_app. f_equal.
  simpl. rewrite Nat.sub_0_r. apply count_go_inside.
Qed.

Lemma count_absent c w x : contains_byte c x = false → count_matches (String c w) x = 0.
Proof. intros H. rewrite <-(app_nil_r_str x). unfold count_matches. by rewrite count_go_skip. Qed.

(** A bracket that does not begin a match. *)
Lemma count_other c w t :
  starts_with (String c w) t = false → ∀ a s, t = String a s → count_matches (String c w) t = count_matches (String c w) s.
Proof. intros H a s ->. unfold count_matches. cbn [count_go]. by rewrite H. Qed.
