(* ===== verification/PolicyTypes.v ===== *)
(** The schema of a security policy and its narrowing-only merge algebra:
    the crate [ainxt-policy-types], one Module per source file
    ([capability.rs], [tier.rs], [ids.rs], [verdict.rs], [policy.rs],
    [merge.rs]).  A [BTreeSet] is a [gset]: its equality is set equality, and
    none of the modelled code observes the iteration order. *)
From S2P Require Import Prelude RustStr.

(** * capability.rs *)
Module Export Capability.

Inductive Allowlist : Type :=
| Any
| Only (entries : gset string).

#[export] Instance Allowlist_eq_dec : EqDecision Allowlist.
Proof. solve_decision. Defined.

(** [Allowlist::only] and [Allowlist::nothing]. *)
Definition Allowlist_only (entries : list string) : Allowlist := Only (list_to_set entries).
Definition Allowlist_nothing : Allowlist := Only ∅.

Definition meet (self other : Allowlist) : Allowlist :=
  match self, other with
  | Any, o => o
  | s, Any => s
  | Only a, Only b => Only (a ∩ b)
  end.

Definition permits (self : Allowlist) (entry : string) : bool :=
  match self with
  | Any => true
  | Only set => bool_decide (entry ∈ set)
  end.

(** The newtype [Denylist(BTreeSet<String>)]. *)
Record Denylist : Type := MkDenylist { denied : gset string }.

#[export] Instance Denylist_eq_dec : EqDecision Denylist.
Proof. solve_decision. Defined.

Definition Denylist_default : Denylist := MkDenylist ∅.
Definition Denylist_of (entries : list string) : Denylist := MkDenylist (list_to_set entries).

Definition Denylist_union (self other : Denylist) : Denylist :=
  MkDenylist (denied self ∪ denied other).

Definition denies (self : Denylist) (entry : string) : bool :=
  bool_decide (entry ∈ denied self).

Inductive SovereignAction : Type :=
| Persistence
| CredentialAccess
| PrivilegeEscalation
| GitHistoryRewrite
| ForcePush
| ProtectedBranchWrite
| PackagePublish
| BulkFileOperation
| NonAllowlistedEgress
| SecurityConfigChange.

#[export] Instance SovereignAction_eq_dec : EqDecision SovereignAction.
Proof. solve_decision. Defined.
#[export] Program Instance SovereignAction_finite : Finite SovereignAction := {|
  enum := [Persistence; CredentialAccess; PrivilegeEscalation; GitHistoryRewrite;
           ForcePush; ProtectedBranchWrite; PackagePublish; BulkFileOperation;
           NonAllowlistedEgress; SecurityConfigChange] |}.
Next Obligation. by_compute. Qed.
Next Obligation. intros []; by_compute. Qed.

(** [{:?}] of a [SovereignAction]. *)
Definition SovereignAction_debug (a : SovereignAction) : string :=
  match a with
  | Persistence => "Persistence"
  | CredentialAccess => "CredentialAccess"
  | PrivilegeEscalation => "PrivilegeEscalation"
  | GitHistoryRewrite => "GitHistoryRewrite"
  | ForcePush => "ForcePush"
  | ProtectedBranchWrite => "ProtectedBranchWrite"
  | PackagePublish => "PackagePublish"
  | BulkFileOperation => "BulkFileOperation"
  | NonAllowlistedEgress => "NonAllowlistedEgress"
  | SecurityConfigChange => "SecurityConfigChange"
  end.

Record SecurityCapabilities : Type := MkCaps {
  egress_allow : Allowlist;
  egress_deny : Denylist;
  exec_allow : Allowlist;
  exec_deny : Denylist;
  write_allow : Allowlist;
  cred_paths : Denylist;
  mcp_allow : Allowlist;
  sovereign : gset SovereignAction;
}.

#[export] Instance SecurityCapabilities_eq_dec : EqDecision SecurityCapabilities.
Proof. solve_decision. Defined.

Definition default_sovereign_set : gset SovereignAction :=
  list_to_set [Persistence; CredentialAccess; PrivilegeEscalation; SecurityConfigChange].

(** [impl Default for SecurityCapabilities]. *)
Definition SecurityCapabilities_default : SecurityCapabilities := {|
  mcp_allow := Any;
  egress_allow := Any;
  egress_deny := Denylist_default;
  exec_allow := Any;
  exec_deny := Denylist_default;
  write_allow := Any;
  cred_paths := Denylist_default;
  sovereign := default_sovereign_set |}.

(** ** Laws of the lattice *)

Lemma meet_comm a b : meet a b = meet b a.
Proof. destruct a, b; simpl; try done. f_equal. set_solver. Qed.

Lemma meet_assoc a b c : meet a (meet b c) = meet (meet a b) c.
Proof. destruct a, b, c; simpl; try done. f_equal. set_solver. Qed.

Lemma meet_idemp a : meet a a = a.
Proof. destruct a; simpl; [done|]. f_equal. set_solver. Qed.

Lemma permits_meet a b e : permits (meet a b) e = permits a e && permits b e.
Proof.
  destruct a, b; simpl; try done.
  - by rewrite andb_true_r.
  - rewrite <-bool_decide_and. apply bool_decide_ext. set_solver.
Qed.

Lemma denies_union a b e : denies (Denylist_union a b) e = denies a e || denies b e.
Proof. unfold denies. rewrite <-bool_decide_or. apply bool_decide_ext. set_solver. Qed.

Lemma Denylist_union_comm a b : Denylist_union a b = Denylist_union b a.
Proof. unfold Denylist_union. f_equal. set_solver. Qed.

Lemma Denylist_union_assoc a b c :
  Denylist_union a (Denylist_union b c) = Denylist_union (Denylist_union a b) c.
Proof. unfold Denylist_union. f_equal. set_solver. Qed.

Lemma Denylist_union_idemp a : Denylist_union a a = a.
Proof. destruct a. unfold Denylist_union. f_equal. set_solver. Qed.

End Capability.

(** * tier.rs *)
Module Export Tier.

(** [Ord] follows the declaration order. *)
Inductive TrustTier : Type := Untrusted | Derived | Workspace | Operator.

#[export] Instance TrustTier_eq_dec : EqDecision TrustTier.
Proof. solve_decision. Defined.

Definition tier_rank (t : TrustTier) : nat :=
  match t with Untrusted => 0 | Derived => 1 | Workspace => 2 | Operator => 3 end.
Definition tier_le (a b : TrustTier) : Prop := tier_rank a ≤ tier_rank b.
#[export] Instance tier_le_dec : RelDecision tier_le.
Proof. intros a b. unfold tier_le. apply _. Defined.

(** [Ord::min]. *)
Definition tier_min (a b : TrustTier) : TrustTier :=
  if bool_decide (tier_le a b) then a else b.

Definition FLOOR : TrustTier := Untrusted.

Definition permits_consequential_actions (self : TrustTier) : bool :=
  match self with Workspace | Operator => true | _ => false end.

(** [{:?}] of a [TrustTier]. *)
Definition TrustTier_debug (t : TrustTier) : string :=
  match t with
  | Untrusted => "Untrusted" | Derived => "Derived"
  | Workspace => "Workspace" | Operator => "Operator"
  end.

#[export] Instance tier_le_po : PartialOrder tier_le.
Proof.
  split; [split|].
  - intros a. unfold tier_le. lia.
  - intros a b c. unfold tier_le. lia.
  - intros [] []; unfold tier_le; simpl; intros; (done || lia).
Qed.

Lemma tier_min_le_l a b : tier_le (tier_min a b) a.
Proof. destruct a, b; unfold tier_le; vm_compute; lia. Qed.
Lemma tier_min_le_r a b : tier_le (tier_min a b) b.
Proof. destruct a, b; unfold tier_le; vm_compute; lia. Qed.
Lemma tier_min_glb a b c : tier_le c a → tier_le c b → tier_le c (tier_min a b).
Proof. unfold tier_min. by case_bool_decide. Qed.
Lemma tier_min_comm a b : tier_min a b = tier_min b a.
Proof. by destruct a, b. Qed.
Lemma tier_min_assoc a b c : tier_min a (tier_min b c) = tier_min (tier_min a b) c.
Proof. by destruct a, b, c. Qed.
Lemma tier_le_operator a : tier_le a Operator.
Proof. destruct a; unfold tier_le; simpl; lia. Qed.
Lemma permits_consequential_mono a b :
  tier_le a b → permits_consequential_actions a = true → permits_consequential_actions b = true.
Proof. destruct a, b; unfold tier_le; simpl; intros; (done || lia). Qed.

End Tier.

(** * ids.rs *)
Module Export Ids.

(** The schema errors of [error.rs]. *)
Inductive PolicyTypesError : Type :=
| InvalidRuleId (input reason : string)
| UnknownDomain (slug : string).

Inductive Authority : Type := Default | Managed | Org (name : string).

#[export] Instance Authority_eq_dec : EqDecision Authority.
Proof. solve_decision. Defined.

Definition Authority_to_string (a : Authority) : string :=
  match a with
  | Default => "DEFAULT"
  | Managed => "MANAGED"
  | Org name => "ORG-" +:+ name
  end.

Inductive Domain : Type :=
| Egress | Exec | Fs | Cred | Sov | Rate | Crack | Content | Mcp | Audit.

#[export] Instance Domain_eq_dec : EqDecision Domain.
Proof. solve_decision. Defined.

Definition Domain_as_str (d : Domain) : string :=
  match d with
  | Egress => "EGRESS" | Exec => "EXEC" | Fs => "FS" | Cred => "CRED" | Sov => "SOV"
  | Rate => "RATE" | Crack => "CRACK" | Content => "CONTENT" | Mcp => "MCP"
  | Audit => "AUDIT"
  end.

Definition from_slug (s : string) : result PolicyTypesError Domain :=
  if bool_decide (s = "EGRESS") then Ok Egress else
  if bool_decide (s = "EXEC") then Ok Exec else
  if bool_decide (s = "FS") then Ok Fs else
  if bool_decide (s = "CRED") then Ok Cred else
  if bool_decide (s = "SOV") then Ok Sov else
  if bool_decide (s = "RATE") then Ok Rate else
  if bool_decide (s = "CRACK") then Ok Crack else
  if bool_decide (s = "CONTENT") then Ok Content else
  if bool_decide (s = "MCP") then Ok Mcp else
  if bool_decide (s = "AUDIT") then Ok Audit else Err (UnknownDomain s).

Record RuleId : Type := MkRuleId { authority : Authority; domain : Domain; number : string }.

#[export] Instance RuleId_eq_dec : EqDecision RuleId.
Proof. solve_decision. Defined.

Definition default_rule (d : Domain) (n : string) : RuleId := MkRuleId Default d n.

(** [impl Display for RuleId]. *)
Definition RuleId_to_string (r : RuleId) : string :=
  Authority_to_string (authority r) +:+ "-" +:+ Domain_as_str (domain r) +:+ "-" +:+ number r.

(** [impl FromStr for RuleId]. *)
Definition RuleId_from_str (s : string) : result PolicyTypesError RuleId :=
  let invalid reason := InvalidRuleId s reason in
  '(head, number) ← ok_or (rsplit_once "-"%char s) (invalid "expected AUTHORITY-DOMAIN-NNN");
  '(authority_str, domain_str) ←
    ok_or (rsplit_once "-"%char head) (invalid "expected AUTHORITY-DOMAIN-NNN");
  if is_empty number || negb (bytes_all is_ascii_digit number)
  then Err (invalid "number segment must be non-empty ASCII digits")
  else
    authority ←
      (if bool_decide (authority_str = "DEFAULT") then Ok Default
       else if bool_decide (authority_str = "MANAGED") then Ok Managed
       else
         name ← ok_or (strip_prefix "ORG-" authority_str)
                  (invalid "authority must be DEFAULT, MANAGED, or ORG-<name>");
         if is_empty name then Err (invalid "ORG authority requires a name")
         else Ok (Org name));
    domain ← from_slug domain_str;
    Ok (MkRuleId authority domain number).

(** The rule ids that the parser produces: an organisation has a name and the
    number is a non-empty digit string (leading zeros kept). *)
Definition RuleId_wf (r : RuleId) : Prop :=
  number r ≠ "" ∧ bytes_all is_ascii_digit (number r) = true ∧
  match authority r with Org name => name ≠ "" | _ => True end.
#[export] Instance RuleId_wf_dec r : Decision (RuleId_wf r).
Proof. unfold RuleId_wf. destruct (authority r); apply _. Defined.

Lemma from_slug_as_str d : from_slug (Domain_as_str d) = Ok d.
Proof. by destruct d. Qed.

Lemma from_slug_Ok s d : from_slug s = Ok d → s = Domain_as_str d.
Proof.
  unfold from_slug. intros H.
  repeat (case_bool_decide; [by simplify_eq/=|]). done.
Qed.

Lemma no_hyphen_digits s : bytes_all is_ascii_digit s = true → contains_byte "-"%char s = false.
Proof.
  unfold contains_byte. induction s as [|a s IH]; [done|]. simpl. intros [Ha Hs]%andb_prop.
  rewrite bytes_any_cons, (IH Hs), orb_false_r. apply bool_decide_eq_false. by intros ->.
Qed.

Lemma no_hyphen_domain d : contains_byte "-"%char (Domain_as_str d) = false.
Proof. by destruct d. Qed.

Lemma is_empty_spec s : is_empty s = true ↔ s = "".
Proof. by destruct s. Qed.

Lemma authority_parse a e1 e2 :
  match a with Org name => name ≠ "" | _ => True end →
  (if bool_decide (Authority_to_string a = "DEFAULT") then Ok Default
   else if bool_decide (Authority_to_string a = "MANAGED") then Ok Managed
   else
     name ← ok_or (strip_prefix "ORG-" (Authority_to_string a)) e1;
     if is_empty name then Err e2 else Ok (Org name)) = Ok (E := PolicyTypesError) a.
Proof.
  destruct a as [| |name]; [done|done|]. intros Hn. simpl Authority_to_string.
  rewrite strip_prefix_app. simpl. destruct name; [done|]. done.
Qed.

(** Parsing a rule id accepts exactly the printed well-formed ids and
    returns the id that was printed: [parse] and [Display] are mutually
    inverse, for every authority including organisation names with hyphens. *)
Theorem RuleId_roundtrip s r :
  RuleId_from_str s = Ok r ↔ s = RuleId_to_string r ∧ RuleId_wf r.
Proof.
  unfold RuleId_from_str, RuleId_to_string, RuleId_wf. split.
  - intros ([head num] & H1%ok_or_Ok & H)%bind_Ok.
    apply bind_Ok in H as ([au dom] & H2%ok_or_Ok & H).
    apply rsplit_once_Some in H1 as [-> _]. apply rsplit_once_Some in H2 as [-> _].
    destruct (is_empty num || _) eqn:E; [done|].
    apply orb_false_elim in E as [E1 E2%negb_false_iff].
    apply bind_Ok in H as (a & Ha & H). apply bind_Ok in H as (d & Hd%from_slug_Ok & ?).
    simplify_eq/=. rewrite <-!app_assoc_str.
    assert (num ≠ "") as Hnum by (by intros ->).
    case_bool_decide as D; [by simplify_eq|]. case_bool_decide as M; [by simplify_eq|].
    apply bind_Ok in Ha as (name & Hn%ok_or_Ok & Ha).
    apply strip_prefix_Some in Hn as ->. destruct name; [done|]. by simplify_eq/=.
  - destruct r as [a d n]. simpl. intros (-> & Hn & Hd & Ha).
    rewrite (proj2 (rsplit_once_Some "-"%char _ (Authority_to_string a +:+ "-" +:+ Domain_as_str d) n)).
    2: { split; [|by apply no_hyphen_digits]. by rewrite <-!app_assoc_str. }
    simpl. rewrite (proj2 (rsplit_once_Some "-"%char _ (Authority_to_string a) (Domain_as_str d))).
    2: { split; [done|apply no_hyphen_domain]. }
    simpl. destruct (is_empty n) eqn:E; [by apply is_empty_spec in E|]. rewrite Hd. simpl.
    rewrite (authority_parse a) by done. simpl. by rewrite from_slug_as_str.
Qed.

End Ids.

(** * verdict.rs *)
Module Export Verdicts.

Inductive Enforcement : Type := EnforceOff | EnforceWarn | EnforceBlock.

#[export] Instance Enforcement_eq_dec : EqDecision Enforcement.
Proof. solve_decision. Defined.

Definition enforcement_rank (e : Enforcement) : nat :=
  match e with EnforceOff => 0 | EnforceWarn => 1 | EnforceBlock => 2 end.
Definition enforcement_le (a b : Enforcement) : Prop := enforcement_rank a ≤ enforcement_rank b.
#[export] Instance enforcement_le_dec : RelDecision enforcement_le.
Proof. intros a b. unfold enforcement_le. apply _. Defined.

(** [Enforcement::narrow], that is [Ord::max]. *)
Definition narrow (self other : Enforcement) : Enforcement :=
  if bool_decide (enforcement_le self other) then other else self.

Inductive Verdict : Type := Allow | Redact | Warn | Block.

#[export] Instance Verdict_eq_dec : EqDecision Verdict.
Proof. solve_decision. Defined.

Record Decision : Type := MkDecision {
  verdict : Verdict;
  rule : option RuleId;
  reason : string;
  requires_human : bool;
}.

Definition Decision_allow : Decision := MkDecision Allow None "no matching restriction" false.
Definition Decision_block (r : RuleId) (why : string) : Decision :=
  MkDecision Block (Some r) why false.

#[export] Instance enforcement_le_po : PartialOrder enforcement_le.
Proof.
  split; [split|].
  - intros a. unfold enforcement_le. lia.
  - intros a b c. unfold enforcement_le. lia.
  - intros [] []; unfold enforcement_le; simpl; intros; (done || lia).
Qed.

Lemma narrow_comm a b : narrow a b = narrow b a.
Proof. by destruct a, b. Qed.
Lemma narrow_assoc a b c : narrow a (narrow b c) = narrow (narrow a b) c.
Proof. by destruct a, b, c. Qed.
Lemma narrow_idemp a : narrow a a = a.
Proof. by destruct a. Qed.
Lemma narrow_ge_l a b : enforcement_le a (narrow a b).
Proof. destruct a, b; unfold enforcement_le; vm_compute; lia. Qed.
Lemma narrow_ge_r a b : enforcement_le b (narrow a b).
Proof. destruct a, b; unfold enforcement_le; vm_compute; lia. Qed.

End Verdicts.

(** * policy.rs *)
Module Export Policy.

Inductive SourceOrigin : Type :=
| PolicyBundleOrigin | ManagedOrigin | UserOrigin | ProjectOrigin | LocalOrigin | FlagsOrigin.

Definition is_attacker_controllable (o : SourceOrigin) : bool :=
  match o with ProjectOrigin | LocalOrigin => true | _ => false end.

Record SourceLayer : Type := MkLayer {
  layer_origin : SourceOrigin;
  layer_enforcement : option Enforcement;
  layer_capabilities : SecurityCapabilities;
}.

Definition SourceLayer_new (o : SourceOrigin) : SourceLayer :=
  MkLayer o None SecurityCapabilities_default.

Record SecurityPolicy : Type := MkPolicy {
  enforcement : Enforcement;
  capabilities : SecurityCapabilities;
}.

#[export] Instance SecurityPolicy_eq_dec : EqDecision SecurityPolicy.
Proof. solve_decision. Defined.

Definition oss_default : SecurityPolicy := MkPolicy EnforceOff SecurityCapabilities_default.

End Policy.

(** * merge.rs *)
Module Export Merge.

Definition narrow_capabilities (a b : SecurityCapabilities) : SecurityCapabilities := {|
  egress_allow := meet (egress_allow a) (egress_allow b);
  egress_deny := Denylist_union (egress_deny a) (egress_deny b);
  exec_allow := meet (exec_allow a) (exec_allow b);
  exec_deny := Denylist_union (exec_deny a) (exec_deny b);
  write_allow := meet (write_allow a) (write_allow b);
  mcp_allow := meet (mcp_allow a) (mcp_allow b);
  cred_paths := Denylist_union (cred_paths a) (cred_paths b);
  sovereign := sovereign a ∪ sovereign b |}.

(** One iteration of the loop of [resolve]. *)
Definition resolve_step (acc : SecurityPolicy) (layer : SourceLayer) : SecurityPolicy := {|
  enforcement := match layer_enforcement layer with
                 | Some e => narrow (enforcement acc) e
                 | None => enforcement acc
                 end;
  capabilities := narrow_capabilities (capabilities acc) (layer_capabilities layer) |}.

Definition resolve (base : SecurityPolicy) (layers : list SourceLayer) : SecurityPolicy :=
  fold_left resolve_step layers base.

Definition allow_subset (narrow wide : Allowlist) : bool :=
  match narrow, wide with
  | Any, Any => true
  | Any, Only _ => false
  | Only _, Any => true
  | Only n, Only w => bool_decide (n ⊆ w)
  end.

Definition deny_superset (narrow wide : Denylist) : bool :=
  bool_decide (denied wide ⊆ denied narrow).

Definition sovereign_superset (narrow wide : gset SovereignAction) : bool :=
  bool_decide (wide ⊆ narrow).

Definition is_narrower_or_equal (narrow wide : SecurityCapabilities) : bool :=
  allow_subset (egress_allow narrow) (egress_allow wide)
  && allow_subset (exec_allow narrow) (exec_allow wide)
  && allow_subset (write_allow narrow) (write_allow wide)
  && allow_subset (mcp_allow narrow) (mcp_allow wide)
  && deny_superset (egress_deny narrow) (egress_deny wide)
  && deny_superset (exec_deny narrow) (exec_deny wide)
  && deny_superset (cred_paths narrow) (cred_paths wide)
  && sovereign_superset (sovereign narrow) (sovereign wide).

(** The order that [is_narrower_or_equal] decides. *)
Definition caps_le (n w : SecurityCapabilities) : Prop := is_narrower_or_equal n w = true.
Infix "⊑c" := caps_le (at level 70).

(** ** The order *)

(** On the infinitely many strings, the syntactic test is the inclusion of the
    permitted sets: an [Only] never permits everything. *)
Lemma allow_subset_spec n w :
  allow_subset n w = true ↔ ∀ e, permits n e = true → permits w e = true.
Proof.
  destruct n as [|n], w as [|w]; simpl; try naive_solver.
  - split; [done|]. intros H. exfalso.
    specialize (H (fresh w) eq_refl). apply bool_decide_eq_true in H.
    by apply (is_fresh w).
  - rewrite bool_decide_eq_true. setoid_rewrite bool_decide_eq_true. done.
Qed.

Lemma deny_superset_spec n w :
  deny_superset n w = true ↔ ∀ e, denies w e = true → denies n e = true.
Proof.
  unfold deny_superset, denies. rewrite bool_decide_eq_true.
  by setoid_rewrite bool_decide_eq_true.
Qed.

Lemma sovereign_superset_spec n w : sovereign_superset n w = true ↔ w ⊆ n.
Proof. unfold sovereign_superset. by rewrite bool_decide_eq_true. Qed.

(** What the order means, dimension by dimension. *)
Record narrower (n w : SecurityCapabilities) : Prop := {
  narrower_egress : ∀ e, permits (egress_allow n) e = true → permits (egress_allow w) e = true;
  narrower_exec : ∀ e, permits (exec_allow n) e = true → permits (exec_allow w) e = true;
  narrower_write : ∀ e, permits (write_allow n) e = true → permits (write_allow w) e = true;
  narrower_mcp : ∀ e, permits (mcp_allow n) e = true → permits (mcp_allow w) e = true;
  narrower_egress_deny : ∀ e, denies (egress_deny w) e = true → denies (egress_deny n) e = true;
  narrower_exec_deny : ∀ e, denies (exec_deny w) e = true → denies (exec_deny n) e = true;
  narrower_cred : ∀ e, denies (cred_paths w) e = true → denies (cred_paths n) e = true;
  narrower_sovereign : sovereign w ⊆ sovereign n;
}.

Lemma caps_le_narrower n w : n ⊑c w ↔ narrower n w.
Proof.
  unfold caps_le, is_narrower_or_equal. rewrite !andb_true_iff.
  rewrite !allow_subset_spec, !deny_superset_spec, sovereign_superset_spec.
  split; [intros; destruct_and!; by constructor|by intros []].
Qed.

#[export] Instance caps_le_preorder : PreOrder caps_le.
Proof.
  split.
  - intros a. apply caps_le_narrower. by constructor.
  - intros a b c H1%caps_le_narrower H2%caps_le_narrower. apply caps_le_narrower.
    destruct H1, H2. constructor; [eauto..|]. etrans; eassumption.
Qed.

Lemma narrow_capabilities_comm a b : narrow_capabilities a b = narrow_capabilities b a.
Proof.
  unfold narrow_capabilities. f_equal; auto using meet_comm, Denylist_union_comm. set_solver.
Qed.

Lemma narrow_capabilities_assoc a b c :
  narrow_capabilities a (narrow_capabilities b c) =
  narrow_capabilities (narrow_capabilities a b) c.
Proof.
  unfold narrow_capabilities. simpl.
  f_equal; auto using meet_assoc, Denylist_union_assoc. set_solver.
Qed.

Lemma narrow_capabilities_idemp a : narrow_capabilities a a = a.
Proof.
  destruct a. unfold narrow_capabilities. simpl.
  f_equal; auto using meet_idemp, Denylist_union_idemp. set_solver.
Qed.

Lemma narrow_capabilities_le_l a b : narrow_capabilities a b ⊑c a.
Proof.
  apply caps_le_narrower. constructor; simpl.
  1-4: intros e; rewrite permits_meet, andb_true_iff; tauto.
  1-3: intros e; rewrite denies_union, orb_true_iff; tauto.
  set_solver.
Qed.

Lemma narrow_capabilities_le_r a b : narrow_capabilities a b ⊑c b.
Proof. rewrite narrow_capabilities_comm. apply narrow_capabilities_le_l. Qed.

Lemma narrow_capabilities_glb a b c : c ⊑c a → c ⊑c b → c ⊑c narrow_capabilities a b.
Proof.
  intros H1%caps_le_narrower H2%caps_le_narrower. apply caps_le_narrower.
  destruct H1, H2. constructor; simpl.
  1-4: intros e He; rewrite permits_meet, andb_true_iff; eauto.
  1-3: intros e; rewrite denies_union, orb_true_iff; intros [?|?]; eauto.
  by apply union_least.
Qed.

#[export] Hint Resolve narrow_capabilities_le_l narrow_capabilities_le_r
  narrow_ge_l narrow_ge_r : ainxt.

(** ** The fold *)

Definition policy_le (p q : SecurityPolicy) : Prop :=
  capabilities p ⊑c capabilities q ∧ enforcement_le (enforcement q) (enforcement p).

#[export] Instance policy_le_preorder : PreOrder policy_le.
Proof.
  split.
  - intros p. by split.
  - intros p q r [H1 H2] [H3 H4]. split; etrans; eassumption.
Qed.

Definition layer_bounds (p : SecurityPolicy) (l : SourceLayer) : Prop :=
  capabilities p ⊑c layer_capabilities l ∧
  match layer_enforcement l with Some e => enforcement_le e (enforcement p) | None => True end.

Lemma resolve_step_le p l : policy_le (resolve_step p l) p.
Proof. split; simpl; [auto with ainxt|]. destruct (layer_enforcement l); auto with ainxt. done. Qed.

Lemma resolve_step_bounds p l : layer_bounds (resolve_step p l) l.
Proof. split; simpl; [auto with ainxt|]. destruct (layer_enforcement l); auto with ainxt. Qed.

Lemma layer_bounds_mono p q l : policy_le p q → layer_bounds q l → layer_bounds p l.
Proof.
  intros [H1 H2] [H3 H4]. split; [by etrans|].
  destruct (layer_enforcement l); [|done]. by etrans.
Qed.

Lemma resolve_le base layers : policy_le (resolve base layers) base.
Proof.
  revert base. induction layers as [|l ls IH]; intros base; simpl; [done|].
  etrans; [apply IH|apply resolve_step_le].
Qed.

Lemma resolve_layer_bounds base layers l : l ∈ layers → layer_bounds (resolve base layers) l.
Proof.
  revert base. induction layers as [|l' ls IH]; intros base; simpl; [by intros ?%elem_of_nil|].
  intros [->|H]%elem_of_cons; [|by apply IH].
  eapply layer_bounds_mono; [apply resolve_le|apply resolve_step_bounds].
Qed.

Lemma resolve_step_swap p a b :
  resolve_step (resolve_step p a) b = resolve_step (resolve_step p b) a.
Proof.
  unfold resolve_step. simpl. f_equal.
  - destruct (layer_enforcement a), (layer_enforcement b); try done.
    rewrite <-!narrow_assoc. f_equal. apply narrow_comm.
  - rewrite <-!narrow_capabilities_assoc. f_equal. apply narrow_capabilities_comm.
Qed.

(** C12 (INV-2): the resolved policy is no wider than the base and no wider than
    any single layer, whatever the layers and their order: its capabilities are
    narrower or equal (by the code's own test) and its enforcement posture is
    at least as strict as the base's and every layer's. *)
Theorem resolve_narrows_every_source base layers :
  let p := resolve base layers in
  is_narrower_or_equal (capabilities p) (capabilities base) = true ∧
  enforcement_le (enforcement base) (enforcement p) ∧
  ∀ l, l ∈ layers →
    is_narrower_or_equal (capabilities p) (layer_capabilities l) = true ∧
    (∀ e, layer_enforcement l = Some e → enforcement_le e (enforcement p)).
Proof.
  intros p. destruct (resolve_le base layers) as [H1 H2]. split_and!; [done..|].
  intros l Hl. destruct (resolve_layer_bounds base layers l Hl) as [H3 H4].
  split; [done|]. intros e He. by rewrite He in H4.
Qed.

(** The order of the layers never changes the resolved policy. *)
Theorem resolve_permutation base layers layers' :
  layers ≡ₚ layers' → resolve base layers = resolve base layers'.
Proof.
  intros H. revert base. induction H as [|l ls ls' _ IH|a b ls|l1 l2 l3 _ IH1 _ IH2];
    intros base; simpl; [done|apply IH| |by rewrite IH1].
  by rewrite resolve_step_swap.
Qed.

Example resolve_permutation_witness :
  let l1 := MkLayer ProjectOrigin (Some EnforceWarn)
              (MkCaps (Allowlist_only ["a.example"]) (Denylist_of ["b.example"]) Any
                 Denylist_default Any Denylist_default Any ∅) in
  let l2 := SourceLayer_new UserOrigin in
  [l1; l2] ≡ₚ [l2; l1] ∧ resolve oss_default [l1; l2] = resolve oss_default [l2; l1].
Proof. split; [constructor|]. apply resolve_permutation. constructor. Defined.

(** The executable test [is_narrower_or_equal] decides the semantic order:
    it holds exactly when everything the narrower policy permits is permitted
    by the wider one and everything the wider one denies (or marks Sovereign)
    is denied (or marked) by the narrower one. *)
Theorem is_narrower_or_equal_spec n w : is_narrower_or_equal n w = true ↔ narrower n w.
Proof. apply caps_le_narrower. Qed.

(** [narrow_capabilities] is the greatest lower bound of its arguments in
    that order, so a merge loses nothing that both sources permit. *)
Theorem narrow_capabilities_greatest a b c :
  is_narrower_or_equal c (narrow_capabilities a b) =
  is_narrower_or_equal c a && is_narrower_or_equal c b.
Proof.
  apply eq_true_iff_eq. rewrite andb_true_iff. split.
  - intros H. change (c ⊑c narrow_capabilities a b) in H.
    split; (eapply (transitivity (R := caps_le)); [exact H|]); auto with ainxt.
  - intros [H1 H2]. by apply narrow_capabilities_glb.
Qed.

End Merge.
