(* ===== verification/PolicyEngine.v ===== *)
(** The decision engine of [ainxt-policy] and the two guards in front of it:
    one Module per source file ([engine.rs], [egress_guard.rs],
    [exec_guard.rs]).

    The URL parser (crate [url]) and the file system are parameters: [url_host]
    is [Url::parse(s).ok()?.host_str()], and a [FileSystem] answers the queries
    that [resolve_program] makes.  Paths are Unix paths. *)
From S2P Require Import Prelude RustStr PolicyTypes.

(** * engine.rs *)
Module Export Engine.

Record ExecTarget : Type := MkTarget {
  resolved_path : string;
  basename : string;
  content_hash : option string;
}.

Record PolicyEngine : Type := PolicyEngine_new { policy : SecurityPolicy }.

Definition engine_enforcement (self : PolicyEngine) : Enforcement := enforcement (policy self).

Definition is_sovereign (self : PolicyEngine) (action : SovereignAction) : bool :=
  bool_decide (action ∈ sovereign (capabilities (policy self))).

Definition can_auto_approve (self : PolicyEngine) (action : SovereignAction) : bool :=
  negb (is_sovereign self action).

Definition tier_permits_consequential (self : PolicyEngine) (tier : TrustTier) : bool :=
  permits_consequential_actions tier.

Definition egress_decision (self : PolicyEngine) (host : string) (tier : TrustTier) : Decision :=
  let caps := capabilities (policy self) in
  if denies (egress_deny caps) host then
    Decision_block (default_rule Egress "001") ("egress to " +:+ host +:+ " is explicitly denied")
  else if negb (permits (egress_allow caps) host) then
    let d := Decision_block (default_rule Egress "002")
               ("egress to " +:+ host +:+ " is not on the allowlist") in
    MkDecision (verdict d) (rule d) (reason d) (is_sovereign self NonAllowlistedEgress)
  else if negb (tier_permits_consequential self tier) then
    Decision_block (default_rule Egress "003")
      ("egress blocked: action tier " +:+ TrustTier_debug tier +:+ " is below Workspace")
  else Decision_allow.

Definition exec_decision (self : PolicyEngine) (target : ExecTarget) (tier : TrustTier) : Decision :=
  let caps := capabilities (policy self) in
  if denies (exec_deny caps) (basename target) || denies (exec_deny caps) (resolved_path target) then
    Decision_block (default_rule Exec "001")
      ("execution of " +:+ basename target +:+ " is explicitly denied")
  else
    let permitted := permits (exec_allow caps) (basename target)
                     || permits (exec_allow caps) (resolved_path target) in
    if negb permitted then
      Decision_block (default_rule Exec "002")
        ("execution of " +:+ basename target +:+ " is not on the allowlist")
    else if negb (tier_permits_consequential self tier) then
      Decision_block (default_rule Exec "003")
        ("execution blocked: action tier " +:+ TrustTier_debug tier +:+ " is below Workspace")
    else Decision_allow.

Definition mcp_decision (self : PolicyEngine) (server tool : string) (tier : TrustTier) : Decision :=
  let caps := capabilities (policy self) in
  let qualified := server +:+ "/" +:+ tool in
  let wildcard := server +:+ "/*" in
  if permits (mcp_allow caps) qualified || permits (mcp_allow caps) wildcard then
    if negb (tier_permits_consequential self tier) then
      Decision_block (default_rule Mcp "002")
        ("MCP call blocked: action tier " +:+ TrustTier_debug tier +:+ " is below Workspace")
    else Decision_allow
  else
    Decision_block (default_rule Mcp "001") ("MCP tool " +:+ qualified +:+ " is not on the allowlist").

Definition is_credential_path (self : PolicyEngine) (path : string) : bool :=
  denies (cred_paths (capabilities (policy self))) path.

Definition is_enforcing (self : PolicyEngine) : bool :=
  bool_decide (enforcement (policy self) = EnforceBlock).

Definition should_block (self : PolicyEngine) (v : Verdict) : bool :=
  bool_decide (v = Block) && bool_decide (enforcement (policy self) = EnforceBlock).

(** ** When a decision allows *)

Lemma egress_allow_iff e host tier :
  verdict (egress_decision e host tier) = Allow ↔
  denies (egress_deny (capabilities (policy e))) host = false ∧
  permits (egress_allow (capabilities (policy e))) host = true ∧
  permits_consequential_actions tier = true.
Proof.
  unfold egress_decision, tier_permits_consequential.
  destruct (denies _ _); [naive_solver|]. destruct (permits _ _); [|naive_solver].
  destruct (permits_consequential_actions tier); naive_solver.
Qed.

Lemma exec_allow_iff e t tier :
  verdict (exec_decision e t tier) = Allow ↔
  (denies (exec_deny (capabilities (policy e))) (basename t) = false ∧
   denies (exec_deny (capabilities (policy e))) (resolved_path t) = false) ∧
  (permits (exec_allow (capabilities (policy e))) (basename t) = true ∨
   permits (exec_allow (capabilities (policy e))) (resolved_path t) = true) ∧
  permits_consequential_actions tier = true.
Proof.
  unfold exec_decision, tier_permits_consequential.
  destruct (denies _ (basename t)), (denies _ (resolved_path t)); try naive_solver.
  destruct (permits _ (basename t)), (permits _ (resolved_path t));
    destruct (permits_consequential_actions tier); naive_solver.
Qed.

Lemma mcp_allow_iff e server tool tier :
  verdict (mcp_decision e server tool tier) = Allow ↔
  (permits (mcp_allow (capabilities (policy e))) (server +:+ "/" +:+ tool) = true ∨
   permits (mcp_allow (capabilities (policy e))) (server +:+ "/*") = true) ∧
  permits_consequential_actions tier = true.
Proof.
  unfold mcp_decision, tier_permits_consequential.
  destruct (permits _ (server +:+ "/" +:+ tool)), (permits _ (server +:+ "/*"));
    destruct (permits_consequential_actions tier); naive_solver.
Qed.

(** A capability decision only ever allows or blocks. *)
Lemma not_allow_block_egress e host tier :
  verdict (egress_decision e host tier) ≠ Allow → verdict (egress_decision e host tier) = Block.
Proof. unfold egress_decision. by repeat case_match. Qed.
Lemma not_allow_block_exec e t tier :
  verdict (exec_decision e t tier) ≠ Allow → verdict (exec_decision e t tier) = Block.
Proof. unfold exec_decision. by repeat case_match. Qed.
Lemma not_allow_block_mcp e s t tier :
  verdict (mcp_decision e s t tier) ≠ Allow → verdict (mcp_decision e s t tier) = Block.
Proof. unfold mcp_decision. by repeat case_match. Qed.

(** ** Monotonicity *)

Lemma denies_mono (n w : Denylist) x :
  (∀ e, denies w e = true → denies n e = true) → denies n x = false → denies w x = false.
Proof. intros H Hn. destruct (denies w x) eqn:E; [|done]. apply H in E. congruence. Qed.

Section monotone.
Context (n w : PolicyEngine) (Hle : narrower (capabilities (policy n)) (capabilities (policy w))).

Lemma egress_allow_mono host tier :
  verdict (egress_decision n host tier) = Allow → verdict (egress_decision w host tier) = Allow.
Proof.
  destruct Hle. rewrite !egress_allow_iff. intros (? & ? & ?). split_and!; eauto using denies_mono.
Qed.

Lemma exec_allow_mono t tier :
  verdict (exec_decision n t tier) = Allow → verdict (exec_decision w t tier) = Allow.
Proof.
  destruct Hle. rewrite !exec_allow_iff. intros ([? ?] & [?|?] & ?);
  split_and!; eauto using denies_mono.
Qed.

Lemma mcp_allow_mono server tool tier :
  verdict (mcp_decision n server tool tier) = Allow →
  verdict (mcp_decision w server tool tier) = Allow.
Proof. destruct Hle. rewrite !mcp_allow_iff. intros ([?|?] & ?); split; eauto. Qed.

Lemma is_sovereign_mono a : is_sovereign w a = true → is_sovereign n a = true.
Proof.
  destruct Hle. unfold is_sovereign. rewrite !bool_decide_eq_true. set_solver.
Qed.

Lemma is_credential_path_mono p : is_credential_path w p = true → is_credential_path n p = true.
Proof. destruct Hle. unfold is_credential_path. eauto. Qed.
End monotone.

Lemma resolve_narrower base layers :
  narrower (capabilities (resolve base layers)) (capabilities base).
Proof. apply caps_le_narrower, resolve_le. Qed.

Lemma resolve_narrower_layer base layers l :
  l ∈ layers → narrower (capabilities (resolve base layers)) (layer_capabilities l).
Proof. intros H. apply caps_le_narrower. by apply resolve_layer_bounds. Qed.

(** No stack of settings layers turns a
    blocked action into an allowed one, un-marks a Sovereign action, or stops a
    path from being a credential path. *)
Theorem layers_never_widen base layers :
  let e := PolicyEngine_new base in
  let e' := PolicyEngine_new (resolve base layers) in
  (∀ host tier, verdict (egress_decision e' host tier) = Allow →
                verdict (egress_decision e host tier) = Allow) ∧
  (∀ t tier, verdict (exec_decision e' t tier) = Allow →
             verdict (exec_decision e t tier) = Allow) ∧
  (∀ server tool tier, verdict (mcp_decision e' server tool tier) = Allow →
                       verdict (mcp_decision e server tool tier) = Allow) ∧
  (∀ a, can_auto_approve e' a = true → can_auto_approve e a = true) ∧
  (∀ p, is_credential_path e p = true → is_credential_path e' p = true) ∧
  (∀ v, should_block e v = true → should_block e' v = true).
Proof.
  intros e e'. pose proof (resolve_narrower base layers) as H.
  split_and!.
  - intros host tier. by apply egress_allow_mono.
  - intros t tier. by apply exec_allow_mono.
  - intros server tool tier. by apply mcp_allow_mono.
  - intros a. unfold can_auto_approve. rewrite !negb_true_iff. intros Ha.
    destruct (is_sovereign e a) eqn:E; [|done].
    eapply (is_sovereign_mono e' e H) in E. congruence.
  - intros p. by apply is_credential_path_mono.
  - intros v. unfold should_block. rewrite !andb_true_iff, !bool_decide_eq_true. simpl.
    intros [-> Hb]. split; [done|].
    pose proof (proj2 (resolve_le base layers)) as Hle. unfold enforcement_le in Hle.
    rewrite Hb in Hle. destruct (enforcement (resolve base layers)); simpl in *; [lia|lia|done].
Qed.

(** An action that the base or any layer marks Sovereign is never
    auto-approvable under the resolved policy. *)
Theorem sovereign_never_auto_approved base layers a :
  a ∈ sovereign (capabilities base) ∨
  (∃ l, l ∈ layers ∧ a ∈ sovereign (layer_capabilities l)) →
  can_auto_approve (PolicyEngine_new (resolve base layers)) a = false.
Proof.
  intros H. unfold can_auto_approve, is_sovereign. apply negb_false_iff, bool_decide_eq_true. simpl.
  destruct H as [H|(l & Hl & H)].
  - by apply (resolve_narrower base layers).
  - by apply (resolve_narrower_layer base layers l Hl).
Qed.

Example sovereign_never_auto_approved_witness :
  can_auto_approve (PolicyEngine_new (resolve (MkPolicy EnforceBlock
    (MkCaps Any Denylist_default Any Denylist_default Any Denylist_default Any ∅))
    [SourceLayer_new ProjectOrigin])) Persistence = false.
Proof.
  apply sovereign_never_auto_approved. right. exists (SourceLayer_new ProjectOrigin).
  split; [constructor|]. by_compute.
Defined.

Lemma low_tier_blocks_egress e host tier :
  permits_consequential_actions tier = false → verdict (egress_decision e host tier) = Block.
Proof. intros H. apply not_allow_block_egress. rewrite egress_allow_iff. intros (_ & _ & ?). congruence. Qed.
Lemma low_tier_blocks_exec e t tier :
  permits_consequential_actions tier = false → verdict (exec_decision e t tier) = Block.
Proof. intros H. apply not_allow_block_exec. rewrite exec_allow_iff. intros (_ & _ & ?). congruence. Qed.
Lemma low_tier_blocks_mcp e server tool tier :
  permits_consequential_actions tier = false → verdict (mcp_decision e server tool tier) = Block.
Proof. intros H. apply not_allow_block_mcp. rewrite mcp_allow_iff. intros (_ & ?). congruence. Qed.

End Engine.

(** * egress_guard.rs *)
Module Export EgressGuard.
Section egress_guard.
  Context (url_host : string → option string) (debug_escape : string → string).

Definition guard_host_of (url_str : string) : option string :=
  to_ascii_lowercase <$> url_host url_str.

Definition check_url (e : PolicyEngine) (url_str : string) (tier : TrustTier) : Decision :=
  match guard_host_of url_str with
  | Some host => egress_decision e host tier
  | None =>
      Decision_block (default_rule Egress "004")
        ("egress target " +:+ debug_str debug_escape url_str +:+ " has no parseable host")
  end.

Definition check_host (e : PolicyEngine) (host : string) (tier : TrustTier) : Decision :=
  egress_decision e host tier.

(** [check_url] fails closed: it allows a URL only when the URL parses to a
    host, and then exactly when the lowercased host is allowed. *)
Theorem check_url_allow e url tier :
  verdict (check_url e url tier) = Allow ↔
  ∃ h, url_host url = Some h ∧ verdict (check_host e (to_ascii_lowercase h) tier) = Allow.
Proof.
  unfold check_url, guard_host_of, check_host. destruct (url_host url); simpl; naive_solver.
Qed.
End egress_guard.
End EgressGuard.

(** * exec_guard.rs *)
Module Export ExecGuard.

Record ResolvedExec : Type := MkResolved { target : ExecTarget; resolved : bool }.

(** The answers of the operating system: [std::fs::metadata] as (is a regular
    file, permission bits), [dunce::canonicalize], and the blake3 hash of a
    file that opens and reads. *)
Record FileSystem : Type := {
  fs_metadata : string → option (bool * N);
  fs_canonicalize : string → option string;
  fs_hash : string → option string;
}.

Section exec_guard.
Context (fs : FileSystem).

Definition has_separator (s : string) : bool := contains_byte "/"%char s.

Definition basename_of (program : string) : string :=
  default program (path_file_name program).

(** [mode & 0o111 != 0] on a regular file. *)
Definition is_executable_file (p : string) : bool :=
  match fs_metadata fs p with
  | None => false
  | Some (is_file, mode) => is_file && negb (bool_decide (N.land mode 73 = 0)%N)
  end.

Definition hash_file (p : string) : option string := fs_hash fs p.

Definition resolve_program (program cwd : string) (path_dirs : list string) : ResolvedExec :=
  let base := basename_of program in
  let candidate :=
    if has_separator program then
      Some (if path_is_absolute program then program else path_join cwd program)
    else head (filter (λ c, is_executable_file c = true)
                 ((λ d, path_join d program) <$> path_dirs)) in
  let best_effort := MkResolved (MkTarget program base None) false in
  match candidate ≫= fs_canonicalize fs with
  | Some canon =>
      if is_executable_file canon
      then MkResolved (MkTarget canon (default base (path_file_name canon)) (hash_file canon)) true
      else best_effort
  | None => best_effort
  end.

Definition check_exec (e : PolicyEngine) (program cwd : string) (path_dirs : list string)
    (tier : TrustTier) : Decision * ResolvedExec :=
  let resolved := resolve_program program cwd path_dirs in
  (exec_decision e (target resolved) tier, resolved).

Definition path_dirs_from_env (path_var : string) : list string :=
  filter (λ p, p ≠ "") (split_on ":"%char path_var).

Lemma resolve_program_resolved program cwd dirs :
  let r := resolve_program program cwd dirs in
  resolved r = true →
  is_executable_file (resolved_path (target r)) = true ∧
  content_hash (target r) = fs_hash fs (resolved_path (target r)) ∧
  basename (target r) = default (basename_of program) (path_file_name (resolved_path (target r))) ∧
  ∃ c, fs_canonicalize fs c = Some (resolved_path (target r)).
Proof.
  unfold resolve_program. case_match eqn:E; [|done].
  apply bind_Some in E as (c & _ & Hc).
  destruct (is_executable_file _) eqn:X; [|done]. simpl. eauto 10.
Qed.

(** The exec decision is a function of the canonical file: two
    invocations (by any name, through any symlink or PATH entry) that resolve
    to the same file get the same decision.  The hypothesis states what
    canonicalisation guarantees: a canonical regular file has a file name. *)
Theorem check_exec_canonical e tier p1 cwd1 dirs1 p2 cwd2 dirs2 :
  (∀ p c, fs_canonicalize fs p = Some c → is_executable_file c = true →
          is_Some (path_file_name c)) →
  let r1 := resolve_program p1 cwd1 dirs1 in
  let r2 := resolve_program p2 cwd2 dirs2 in
  resolved r1 = true → resolved r2 = true →
  resolved_path (target r1) = resolved_path (target r2) →
  fst (check_exec e p1 cwd1 dirs1 tier) = fst (check_exec e p2 cwd2 dirs2 tier).
Proof.
  intros Hfs r1 r2 H1 H2 Heq. unfold check_exec. simpl. f_equal.
  destruct (resolve_program_resolved _ _ _ H1) as (X1 & C1 & B1 & c1 & K1).
  destruct (resolve_program_resolved _ _ _ H2) as (X2 & C2 & B2 & c2 & K2).
  destruct (Hfs _ _ K1 X1) as [n Hn].
  fold r1 r2 in X1, C1, B1, K1, X2, C2, B2, K2, Hn |- *.
  rewrite Hn in B1. rewrite <-Heq, Hn in B2. rewrite <-Heq in C2. simpl in *.
  destruct (target r1), (target r2). simpl in *. congruence.
Qed.
End exec_guard.

(** [git] is a symlink to [/usr/bin/pwsh]. *)
Definition witness_fs : FileSystem := {|
  fs_metadata p := Some (true, 493%N);
  fs_canonicalize p :=
    if bool_decide (p = "/usr/bin/git") then Some "/usr/bin/pwsh"
    else if bool_decide (p = "/usr/bin/pwsh") then Some "/usr/bin/pwsh" else None;
  fs_hash p := None |}.

Example check_exec_canonical_witness :
  let e := PolicyEngine_new (MkPolicy EnforceBlock
    (MkCaps Any Denylist_default (Allowlist_only ["git"]) Denylist_default Any
       Denylist_default Any ∅)) in
  fst (check_exec witness_fs e "git" "/" ["/usr/bin"] Operator)
  = fst (check_exec witness_fs e "/usr/bin/pwsh" "/" [] Operator) ∧
  verdict (fst (check_exec witness_fs e "git" "/" ["/usr/bin"] Operator)) = Block.
Proof.
  split.
  - apply check_exec_canonical; [|by_compute..].
    intros p c. simpl. repeat case_bool_decide; intros; simplify_eq; by_compute.
  - by_compute.
Defined.

End ExecGuard.
