(* ===== verification/PolicyStartup.v ===== *)
(** Policy at process start: signed bundles, the startup gate, the bootstrap
    that chooses a bundle and applies the gateway overlay, and the published
    engine ([bundle.rs], [manifest.rs], [bootstrap.rs], [global.rs] of
    [ainxt-policy]).

    A [Vec<u8>] is a [string] of its bytes.  The JSON parsers, Ed25519 and
    base64 are external crates and are parameters.  The file system is a map
    from paths to contents; [can_write p] says whether creating the parent
    directory of [p] and writing [p] succeed. *)
From S2P Require Import Prelude RustStr PolicyTypes PolicyEngine.

(** * bundle.rs and error.rs *)
Module Export Bundle.

Inductive PolicyError : Type :=
| PolicyRequiredButMissing (why : string)
| SignatureInvalid
| RollbackRejected (found last : N)
| Parse (why : string)
| BadAuthorityKey (why : string)
| Io (path source : string).

Record PolicyBundle : Type := MkBundle { payload : string; signature_hex : string }.

Record BundlePayload : Type := MkPayload {
  version : N;
  payload_enforcement : Enforcement;
  payload_capabilities : SecurityCapabilities;
  issued_at : option string;
}.

Record VerifiedBundle : Type := MkVerified { verified_payload : BundlePayload }.

Definition verified_version (v : VerifiedBundle) : N := version (verified_payload v).

(** The closure [nibble] of [decode_hex]. *)
Definition nibble (c : ascii) : result unit N :=
  let n := N_of_ascii c in
  if byte_in 48 57 c then Ok (n - 48)%N
  else if byte_in 97 102 c then Ok (n - 97 + 10)%N
  else if byte_in 65 70 c then Ok (n - 65 + 10)%N
  else Err tt.

(** The loop over [bytes.chunks_exact(2)]. *)
Fixpoint decode_pairs (s : string) : result unit string :=
  match s with
  | String a (String b s') =>
      hi ← nibble a;
      lo ← nibble b;
      rest ← decode_pairs s';
      Ok (String (ascii_of_N (N.lor (N.shiftl hi 4) lo)) rest)
  | _ => Ok ""
  end.

Definition decode_hex (s : string) : result unit string :=
  let s := trim s in
  if negb (Nat.even (String.length s)) then Err tt else decode_pairs s.

(** The external code a bundle relies on. *)
Class BundleCrypto : Type := {
  (** [serde_json::from_slice::<PolicyBundle>], with the error text *)
  parse_envelope : string → result string PolicyBundle;
  (** [serde_json::from_str::<BundlePayload>] *)
  parse_payload : string → result string BundlePayload;
  (** [ring]: key, message, signature *)
  ed25519_verify : string → string → string → bool;
}.

Section bundle.
Context `{BundleCrypto}.

Definition from_slice (bytes : string) : result PolicyError PolicyBundle :=
  map_err Parse (parse_envelope bytes).

Definition verify (self : PolicyBundle) (authority_pubkey : string) (last_version : option N)
    : result PolicyError VerifiedBundle :=
  sig ← map_err (λ _, SignatureInvalid) (decode_hex (signature_hex self));
  if negb (ed25519_verify authority_pubkey (payload self) sig) then Err SignatureInvalid
  else
    p ← map_err Parse (parse_payload (payload self));
    match last_version with
    | Some last =>
        if bool_decide (version p ≤ last)%N then Err (RollbackRejected (version p) last)
        else Ok (MkVerified p)
    | None => Ok (MkVerified p)
    end.

(** What a successful verification establishes. *)
Definition signed_by (key : string) (b : PolicyBundle) (p : BundlePayload) : Prop :=
  ∃ sig, decode_hex (signature_hex b) = Ok sig ∧
         ed25519_verify key (payload b) sig = true ∧
         parse_payload (payload b) = Ok p.
Definition newer_than (p : BundlePayload) (last : option N) : Prop :=
  match last with Some l => (l < version p)%N | None => True end.

Lemma verify_Ok b key last v :
  verify b key last = Ok v ↔
  signed_by key b (verified_payload v) ∧ newer_than (verified_payload v) last.
Proof.
  unfold verify, signed_by, newer_than. rewrite bind_Ok. split.
  - intros (sig & Hs%map_err_Ok & H0). destruct (ed25519_verify _ _ sig) eqn:E; [|done].
    simpl in H0. apply bind_Ok in H0 as (p & Hp%map_err_Ok & H0).
    destruct last as [l|]; [case_bool_decide; [done|]|]; simplify_eq/=.
    + split; [by exists sig|]. lia.
    + split; [by exists sig|done].
  - intros [(sig & H1 & H2 & H3) H4]. exists sig. rewrite map_err_Ok. split; [done|].
    rewrite H2. simpl. rewrite H3. simpl. destruct v as [p]. simpl in *.
    destruct last as [l|]; [|done]. by rewrite bool_decide_eq_false_2 by lia.
Qed.

(** A good signature with a version that is not newer is a rollback error. *)
Lemma verify_rollback b key l p :
  signed_by key b p → (version p ≤ l)%N → verify b key (Some l) = Err (RollbackRejected (version p) l).
Proof.
  intros (sig & H1 & H2 & H3) Hl. unfold verify. rewrite H1. simpl. rewrite H2. simpl.
  rewrite H3. simpl. by rewrite bool_decide_eq_true_2.
Qed.
End bundle.

(** ** Hexadecimal round trip *)

(** The reference encoder: two lower-case digits per byte. *)
Definition hex_digit (n : N) : ascii :=
  if bool_decide (n < 10)%N then ascii_of_N (48 + n) else ascii_of_N (87 + n).
Fixpoint encode_hex (s : string) : string :=
  match s with
  | "" => ""
  | String a s' =>
      String (hex_digit (N.shiftr (N_of_ascii a) 4))
        (String (hex_digit (N.land (N_of_ascii a) 15)) (encode_hex s'))
  end.

Lemma nibbles_of_byte a :
  nibble (hex_digit (N.shiftr (N_of_ascii a) 4)) = Ok (N.shiftr (N_of_ascii a) 4) ∧
  nibble (hex_digit (N.land (N_of_ascii a) 15)) = Ok (N.land (N_of_ascii a) 15) ∧
  ascii_of_N (N.lor (N.shiftl (N.shiftr (N_of_ascii a) 4) 4) (N.land (N_of_ascii a) 15)) = a.
Proof. destruct a as [[] [] [] [] [] [] [] []]; vm_compute; done. Qed.

Lemma encode_hex_even s : Nat.even (String.length (encode_hex s)) = true.
Proof. induction s as [|a s IH]; [done|]. done. Qed.

Definition nibble_table : bool :=
  forallb (λ k, forallb (λ j,
      let c := ascii_of_N (N.of_nat k) in let n := N.of_nat j in
      Bool.eqb (match nibble c with Ok m => bool_decide (m = n) | Err _ => false end)
               (bool_decide (byte_to_lower c = hex_digit n)))
    (seq 0 16)) (seq 0 256).

Lemma byte_range (c : ascii) : ∃ k, k < 256 ∧ c = ascii_of_N (N.of_nat k).
Proof.
  exists (N.to_nat (N_of_ascii c)). rewrite N2Nat.id, Stdlib.Strings.Ascii.ascii_N_embedding.
  split; [|done]. pose proof (Stdlib.Strings.Ascii.N_ascii_bounded c). lia.
Qed.

Lemma nibble_spec c n : nibble c = Ok n ↔ (n < 16)%N ∧ byte_to_lower c = hex_digit n.
Proof.
  assert (nibble_table = true) as T by (vm_compute; reflexivity).
  assert (∀ m, nibble c = Ok m → (m < 16)%N) as B.
  { intros m. unfold nibble, byte_in. generalize (N_of_ascii c). intros x.
    repeat case_bool_decide; simpl; intros [= <-]; lia. }
  destruct (byte_range c) as (k & Hk & Hc).
  unfold nibble_table in T. rewrite forallb_forall in T.
  specialize (T k). rewrite forallb_forall in T.
  assert (n < 16 → (nibble c = Ok n ↔ byte_to_lower c = hex_digit n))%N as X.
  { intros Hn. specialize (T ltac:(apply in_seq; lia) (N.to_nat n) ltac:(apply in_seq; lia)).
    cbv zeta in T. rewrite N2Nat.id, <-Hc in T. apply eqb_prop in T.
    destruct (nibble c) as [m|[]]; repeat case_bool_decide; simplify_eq; naive_solver. }
  split; [intros H|intros [H1 H2]]; [|by apply X].
  pose proof (B _ H). split; [done|]. by apply X.
Qed.

Definition pair_table : bool :=
  forallb (λ h, forallb (λ l,
      let b := N_of_ascii (ascii_of_N (N.lor (N.shiftl (N.of_nat h) 4) (N.of_nat l))) in
      (N.shiftr b 4 =? N.of_nat h)%N && (N.land b 15 =? N.of_nat l)%N)
    (seq 0 16)) (seq 0 16).

Lemma pair_byte hi lo : (hi < 16)%N → (lo < 16)%N →
  let b := N_of_ascii (ascii_of_N (N.lor (N.shiftl hi 4) lo)) in
  N.shiftr b 4 = hi ∧ N.land b 15 = lo.
Proof.
  intros H1 H2. assert (pair_table = true) as T by (vm_compute; reflexivity).
  unfold pair_table in T. rewrite forallb_forall in T.
  specialize (T (N.to_nat hi) ltac:(apply in_seq; lia)). rewrite forallb_forall in T.
  specialize (T (N.to_nat lo) ltac:(apply in_seq; lia)). cbv zeta in T.
  rewrite !N2Nat.id in T. apply andb_prop in T as [T1%N.eqb_eq T2%N.eqb_eq]. done.
Qed.

Lemma byte_nibble_bounds a :
  (N.shiftr (N_of_ascii a) 4 < 16)%N ∧ (N.land (N_of_ascii a) 15 < 16)%N.
Proof. destruct a as [[] [] [] [] [] [] [] []]; vm_compute; done. Qed.

Lemma decode_pairs_spec n t s :
  String.length t = 2 * n → decode_pairs t = Ok s ↔ to_ascii_lowercase t = encode_hex s.
Proof.
  revert t s. induction n as [|n IH]; intros t s Hl.
  { destruct t; [|done]. simpl. destruct s; [done|]. split; [done|]. done. }
  destruct t as [|a [|b t]]; [simpl in Hl; lia|simpl in Hl; lia|].
  cbn [decode_pairs]. unfold to_ascii_lowercase. cbn [str_map].
  assert (String.length t = 2 * n) as Hl' by (simpl in Hl; lia).
  split.
  - intros (hi & [Bh Hh]%nibble_spec & (lo & [Bl Hlo]%nibble_spec & (r & Hr & ?)%bind_Ok)%bind_Ok)%bind_Ok.
    simplify_eq. apply IH in Hr; [|done]. unfold to_ascii_lowercase in Hr.
    cbn [encode_hex]. destruct (pair_byte hi lo) as [-> ->]; [done..|]. by rewrite Hh, Hlo, Hr.
  - destruct s as [|c s]; [done|]. cbn [encode_hex]. intros E. injection E as E1 E2 E3.
    destruct (byte_nibble_bounds c). destruct (nibbles_of_byte c) as (_ & _ & Hc).
    rewrite (proj2 (nibble_spec a _) (conj H E1)). simpl.
    rewrite (proj2 (nibble_spec b _) (conj H0 E2)). simpl.
    rewrite (proj2 (IH t s Hl') E3). simpl. by rewrite Hc.
Qed.

Lemma str_map_length f s : String.length (str_map f s) = String.length s.
Proof. induction s as [|a s IH]; [done|]. simpl. by rewrite IH. Qed.

(** [decode_hex] accepts exactly the texts that, up to surrounding white
    space and letter case, are the hexadecimal encoding of a byte string, and
    returns that byte string. *)
Theorem decode_hex_spec t s :
  decode_hex t = Ok s ↔ to_ascii_lowercase (trim t) = encode_hex s.
Proof.
  unfold decode_hex. destruct (Nat.even (String.length (trim t))) eqn:E; simpl.
  - apply Nat.even_spec in E as [n E]. by apply (decode_pairs_spec n).
  - split; [done|]. intros H. exfalso.
    pose proof (encode_hex_even s) as Hs. rewrite <-H in Hs.
    unfold to_ascii_lowercase in Hs. rewrite str_map_length in Hs. congruence.
Qed.

End Bundle.

(** * manifest.rs *)
Module Export Manifest.

Record BuildManifest : Type := MkManifest {
  require_policy : bool;
  policy_authority : option string;
}.

Definition manifest_oss : BuildManifest := MkManifest false None.
Definition managed (authority_pubkey : string) : BuildManifest :=
  MkManifest true (Some authority_pubkey).

Record StartupOutcome : Type := MkOutcome {
  base_policy : SecurityPolicy;
  bundle_version : option N;
  overlay_version : option N;
}.

Definition permissive : StartupOutcome := MkOutcome oss_default None None.

Definition from_bundle (v : VerifiedBundle) : StartupOutcome :=
  let p := verified_payload v in
  MkOutcome (MkPolicy (payload_enforcement p) (payload_capabilities p))
    (Some (verified_version v)) None.

Section manifest.
Context `{BundleCrypto}.

Definition verify_bytes (bytes key : string) (last_version : option N)
    : result PolicyError VerifiedBundle :=
  envelope ← from_slice bytes;
  verify envelope key last_version.

(** [StartupGate::evaluate]. *)
Definition evaluate (manifest : BuildManifest) (bundle : option string) (last_version : option N)
    : result PolicyError StartupOutcome :=
  match require_policy manifest, bundle with
  | false, None => Ok permissive
  | false, Some bytes =>
      match policy_authority manifest with
      | Some key =>
          verified ← verify_bytes bytes key last_version;
          Ok (from_bundle verified)
      | None => Ok permissive
      end
  | true, None =>
      Err (PolicyRequiredButMissing "no policy bundle found and require_policy is set")
  | true, Some bytes =>
      key ← ok_or (policy_authority manifest)
              (BadAuthorityKey "require_policy set but build has no authority key");
      verified ← verify_bytes bytes key last_version;
      Ok (from_bundle verified)
  end.

(** [bytes] is an envelope that [key] signed, carrying [p]. *)
Definition bundle_of (key bytes : string) (p : BundlePayload) : Prop :=
  ∃ env, parse_envelope bytes = Ok env ∧ signed_by key env p.

Lemma signed_by_inj key env p p' : signed_by key env p → signed_by key env p' → p = p'.
Proof. intros (s & _ & _ & H1) (s' & _ & _ & H2). congruence. Qed.

Lemma bundle_of_inj key bytes p p' : bundle_of key bytes p → bundle_of key bytes p' → p = p'.
Proof.
  intros (e & H1 & H2) (e' & H1' & H2'). assert (e = e') as -> by congruence.
  eauto using signed_by_inj.
Qed.

Lemma verify_bytes_Ok bytes key last v :
  verify_bytes bytes key last = Ok v ↔
  bundle_of key bytes (verified_payload v) ∧ newer_than (verified_payload v) last.
Proof.
  unfold verify_bytes, bundle_of. rewrite bind_Ok. unfold from_slice.
  setoid_rewrite map_err_Ok. setoid_rewrite verify_Ok. naive_solver.
Qed.

Lemma verify_bytes_rollback bytes key l p :
  bundle_of key bytes p → (version p ≤ l)%N →
  verify_bytes bytes key (Some l) = Err (RollbackRejected (version p) l).
Proof.
  intros (env & He & Hs) Hl. unfold verify_bytes, from_slice. rewrite He. simpl.
  by apply verify_rollback.
Qed.

(** A build that requires a policy starts with nothing but the
    floor of a bundle that its authority key signed and whose version is newer
    than every version accepted before. *)
Theorem managed_start_requires_bundle m bundle last out :
  require_policy m = true →
  evaluate m bundle last = Ok out ↔
  ∃ key bytes p, policy_authority m = Some key ∧ bundle = Some bytes ∧
    bundle_of key bytes p ∧ newer_than p last ∧ out = from_bundle (MkVerified p).
Proof.
  intros Hm. unfold evaluate. rewrite Hm. destruct bundle as [bytes|]; [|naive_solver].
  rewrite bind_Ok. setoid_rewrite ok_or_Ok. setoid_rewrite bind_Ok.
  setoid_rewrite verify_bytes_Ok. split.
  - intros (key & Hk & [p] & [Hb Hn] & [= <-]). eauto 10.
  - intros (key & b & p & Hk & [= <-] & Hb & Hn & ->). exists key. split; [done|].
    exists (MkVerified p). done.
Qed.

End manifest.

(** A toy signature scheme that satisfies the interface: the signature of a
    payload under a key is the key itself. *)
Definition toy_caps : SecurityCapabilities :=
  MkCaps (Allowlist_only ["gateway.example"]) Denylist_default (Allowlist_only ["git"; "cargo"])
    Denylist_default Any Denylist_default (Allowlist_only []) ∅.
Definition toy_payload (v : N) : BundlePayload := MkPayload v EnforceBlock toy_caps None.
Definition toy_crypto : BundleCrypto := {|
  parse_envelope s := if is_empty s then Err "EOF" else Ok (MkBundle s "4b");
  parse_payload s := match parse_u64 s with Some v => Ok (toy_payload v) | None => Err "bad" end;
  ed25519_verify key msg sig := bool_decide (sig = key) |}.
#[local] Existing Instance toy_crypto.

Example managed_start_requires_bundle_witness :
  require_policy (managed "K") = true ∧
  ∃ key bytes p, policy_authority (managed "K") = Some key ∧ Some "7" = Some bytes ∧
    bundle_of key bytes p ∧ newer_than p (Some 3%N) ∧
    from_bundle (MkVerified (toy_payload 7)) = from_bundle (MkVerified p).
Proof.
  split; [done|].
  apply (managed_start_requires_bundle (managed "K") (Some "7") (Some 3%N)); [done|].
  vm_compute. reflexivity.
Defined.

(** Nothing pins the built-in Sovereign actions under a signed bundle: a
    bundle that lists none leaves an engine in which no action is Sovereign, so
    every one of them is auto-approvable. *)
Theorem bundle_can_drop_default_sovereign `{BundleCrypto} m bytes key p :
  policy_authority m = Some key → bundle_of key bytes p →
  sovereign (payload_capabilities p) = ∅ →
  ∃ out, evaluate m (Some bytes) None = Ok out ∧
    ∀ a, can_auto_approve (PolicyEngine_new (base_policy out)) a = true.
Proof.
  intros Hk Hb Hs. exists (from_bundle (MkVerified p)). split.
  - unfold evaluate. rewrite Hk.
    assert (verify_bytes bytes key None = Ok (MkVerified p)) as E
      by (by apply verify_bytes_Ok).
    destruct (require_policy m); simpl; by rewrite E.
  - intros a. unfold can_auto_approve, is_sovereign. simpl. rewrite Hs.
    by rewrite bool_decide_eq_false_2 by set_solver.
Qed.

Example bundle_can_drop_default_sovereign_witness :
  ∃ out, evaluate (managed "K") (Some "7") None = Ok out ∧
    ∀ a, can_auto_approve (PolicyEngine_new (base_policy out)) a = true.
Proof.
  apply (bundle_can_drop_default_sovereign (managed "K") "7" "K" (toy_payload 7)); [done| |done].
  exists (MkBundle "7" "4b"). split; [done|]. exists "K". by_compute || split_and!; vm_compute; done.
Defined.

End Manifest.

(** * global.rs *)
Module Export Global.

(** The process-wide [ArcSwapOption<PolicyEngine>]. *)
Definition EngineSlot : Type := option PolicyEngine.

Definition install (e : PolicyEngine) (slot : EngineSlot) : EngineSlot := Some e.
Definition active (slot : EngineSlot) : PolicyEngine :=
  match slot with Some e => e | None => PolicyEngine_new oss_default end.
Definition is_installed (slot : EngineSlot) : bool := bool_decide (is_Some slot).

End Global.

(** * bootstrap.rs *)
Module Export Bootstrap.

(** The readable files of the host. *)
Abbreviation Files := (gmap string string).

(** What the process starts from: the published engine and the host's files. *)
Record Process : Type := MkProcess { slot : EngineSlot; files : Files }.

Section bootstrap.
Context `{BundleCrypto}.
(** Values fixed at build time: [AINXT_POLICY_AUTHORITY_HEX],
    [AINXT_POLICY_BUNDLE_B64] and the base64 decoder. *)
Context (authority_hex bundle_b64 : option string) (base64_decode : string → option string).
Context (can_write : string → bool).

Definition resolve_manifest : result PolicyError BuildManifest :=
  match authority_hex with
  | Some hex =>
      if negb (is_empty (trim hex)) then
        key ← map_err (λ _, BadAuthorityKey
                 "AINXT_POLICY_AUTHORITY_HEX embedded at build time is not valid hex")
                (decode_hex hex);
        Ok (managed key)
      else Ok manifest_oss
  | None => Ok manifest_oss
  end.

(** The Linux search paths. *)
Definition bundle_search_paths : list string :=
  ["/etc/ainxt/policy.d/policy.json"; "/etc/ainxt/policy.json"].

Fixpoint load_bundle_bytes (paths : list string) (fs : Files) : option (string * string) :=
  match paths with
  | [] => None
  | p :: ps => match fs !! p with Some bytes => Some (p, bytes) | None => load_bundle_bytes ps fs end
  end.

Definition embedded_bundle_bytes : option string :=
  encoded ← bundle_b64;
  let encoded := trim encoded in
  if is_empty encoded then None else base64_decode encoded.

(** [Iterator::max_by_key]: the last of the maximal elements. *)
Definition max_by_version (l : list (N * nat)) : option (N * nat) :=
  foldl (λ best x,
           match best with
           | Some b => if bool_decide (fst b ≤ fst x)%N then Some x else Some b
           | None => Some x
           end) None l.

(** The version of a candidate that verifies without an anti-rollback bound. *)
Definition candidate_version (key bytes : string) : option N :=
  verified_version <$> ok (verify_bytes bytes key None).

Definition choose_bundle (candidates : list string) (key : option string) : option string :=
  if bool_decide (length candidates < 2) then head candidates
  else
    match key with
    | None => head candidates
    | Some key =>
        let versions := omap (λ '(index, bytes), (λ v, (v, index)) <$> candidate_version key bytes)
                          (imap pair candidates) in
        match max_by_version versions with
        | Some (_, index) => candidates !! index
        | None => head candidates
        end
    end.

Definition collect_bundles (paths : list string) (embedded : option string) (fs : Files)
    : list string :=
  option_list (snd <$> load_bundle_bytes paths fs) ++ option_list embedded.

Definition last_version_path (state_dir : string) : string :=
  path_join (path_join state_dir "policy") "bundle.version".

(** A version file: trimmed and parsed, [None] when missing or malformed. *)
Definition read_version (path : string) (fs : Files) : option N :=
  text ← fs !! path;
  parse_u64 (trim text).
Definition read_last_version (state_dir : string) (fs : Files) : option N :=
  read_version (last_version_path state_dir) fs.

Definition write_file (path contents : string) (fs : Files) : Files :=
  if can_write path then <[path := contents]> fs else fs.
Definition write_last_version (state_dir : string) (v : N) (fs : Files) : Files :=
  write_file (last_version_path state_dir) (pretty v) fs.

Definition overlay_path (state_dir : string) : string :=
  path_join (path_join state_dir "policy") "overlay.json".
Definition overlay_version_path (state_dir : string) : string :=
  path_join (path_join state_dir "policy") "overlay.version".

(** The narrowing of an outcome by a verified overlay payload, up to the
    tampering check. *)
Definition merge_overlay (p : BundlePayload) (out : StartupOutcome) : option StartupOutcome :=
  let base := base_policy out in
  let merged := narrow_capabilities (capabilities base) (payload_capabilities p) in
  if negb (is_narrower_or_equal merged (capabilities base)) then None
  else Some (MkOutcome (MkPolicy (narrow (enforcement base) (payload_enforcement p)) merged)
               (bundle_version out) (Some (version p))).

Definition apply_overlay (m : BuildManifest) (state_dir : string) (out : StartupOutcome) (fs : Files)
    : StartupOutcome * Files :=
  match policy_authority m with
  | None => (out, fs)
  | Some key =>
      match fs !! overlay_path state_dir with
      | None => (out, fs)
      | Some bytes =>
          let last := read_version (overlay_version_path state_dir) fs in
          match verify_bytes bytes key last with
          | Err _ => (out, fs)
          | Ok verified =>
              let p := verified_payload verified in
              match merge_overlay p out with
              | None => (out, fs)
              | Some out' => (out', write_file (overlay_version_path state_dir) (pretty (version p)) fs)
              end
          end
      end
  end.

Definition resolve_outcome_full (m : BuildManifest) (paths : list string) (embedded : option string)
    (state_dir : string) (fs : Files) : result PolicyError (StartupOutcome * Files) :=
  let bundle := choose_bundle (collect_bundles paths embedded fs) (policy_authority m) in
  let last := read_last_version state_dir fs in
  out ← evaluate m bundle last;
  Ok (apply_overlay m state_dir out fs).

Definition resolve_outcome_with (m : BuildManifest) (paths : list string) (state_dir : string)
    (fs : Files) : result PolicyError (StartupOutcome * Files) :=
  resolve_outcome_full m paths None state_dir fs.

Definition resolve_outcome (state_dir : string) (fs : Files)
    : result PolicyError (StartupOutcome * Files) :=
  m ← resolve_manifest;
  resolve_outcome_full m bundle_search_paths embedded_bundle_bytes state_dir fs.

Definition initialize (state_dir : string) (p : Process) : result PolicyError StartupOutcome * Process :=
  match resolve_outcome state_dir (files p) with
  | Err e => (Err e, p)
  | Ok (out, fs) =>
      let fs' := match bundle_version out with
                 | Some v => write_last_version state_dir v fs
                 | None => fs
                 end in
      (Ok out, MkProcess (install (PolicyEngine_new (base_policy out)) (slot p)) fs')
  end.

(** ** Lemmas *)

(** The overlay is refused by the tampering check never: the meet is below the
    base by construction. *)
Lemma merge_overlay_Some p out :
  merge_overlay p out =
  Some (MkOutcome (MkPolicy (narrow (enforcement (base_policy out)) (payload_enforcement p))
          (narrow_capabilities (capabilities (base_policy out)) (payload_capabilities p)))
          (bundle_version out) (Some (version p))).
Proof.
  unfold merge_overlay.
  by rewrite (narrow_capabilities_le_l (capabilities (base_policy out)) (payload_capabilities p)).
Qed.

Lemma apply_overlay_cases m dir out fs :
  apply_overlay m dir out fs = (out, fs) ∨
  ∃ key bytes p,
    policy_authority m = Some key ∧ fs !! overlay_path dir = Some bytes ∧
    bundle_of key bytes p ∧ newer_than p (read_version (overlay_version_path dir) fs) ∧
    merge_overlay p out = Some (fst (apply_overlay m dir out fs)) ∧
    snd (apply_overlay m dir out fs) =
      write_file (overlay_version_path dir) (pretty (version p)) fs.
Proof.
  unfold apply_overlay. destruct (policy_authority m) as [key|]; [|by left].
  destruct (fs !! overlay_path dir) as [bytes|]; [|by left].
  destruct (verify_bytes _ _ _) as [[p]|] eqn:E; [|by left].
  apply verify_bytes_Ok in E as [Hb Hn]. simpl.
  destruct (merge_overlay p out) as [o|] eqn:Em; [|by left].
  right. exists key, bytes, p. by split_and!.
Qed.

Lemma apply_overlay_bundle_version m dir out fs :
  bundle_version (fst (apply_overlay m dir out fs)) = bundle_version out.
Proof.
  destruct (apply_overlay_cases m dir out fs) as [->|(k & b & p & _ & _ & _ & _ & Hm & _)]; [done|].
  rewrite merge_overlay_Some in Hm. by injection Hm as <-.
Qed.

Lemma max_by_version_app l x :
  max_by_version (l ++ [x]) =
  match max_by_version l with
  | Some b => if bool_decide (fst b ≤ fst x)%N then Some x else Some b
  | None => Some x
  end.
Proof. unfold max_by_version. by rewrite foldl_app. Qed.

Lemma max_by_version_spec l :
  match max_by_version l with
  | Some b => b ∈ l ∧ ∀ x, x ∈ l → (fst x ≤ fst b)%N
  | None => l = []
  end.
Proof.
  induction l as [|x l IH] using rev_ind; [done|]. rewrite max_by_version_app.
  destruct (max_by_version l) as [b|].
  - destruct IH as [Hb Hmax]. case_bool_decide as C.
    + split; [apply elem_of_app; right; by constructor|].
      intros y [Hy|Hy%list_elem_of_singleton]%elem_of_app; [|by subst].
      etrans; [by apply Hmax|done].
    + split; [apply elem_of_app; by left|].
      intros y [Hy|Hy%list_elem_of_singleton]%elem_of_app; [by apply Hmax|]. subst. lia.
  - subst. split; [by constructor|]. intros y ->%list_elem_of_singleton. done.
Qed.

Lemma candidate_version_Some key bytes v :
  candidate_version key bytes = Some v ↔ ∃ p, bundle_of key bytes p ∧ version p = v.
Proof.
  unfold candidate_version. rewrite fmap_Some. split.
  - intros ([p] & Ho & ->). destruct (verify_bytes bytes key None) eqn:E; [|done].
    simpl in Ho. injection Ho as ->. apply verify_bytes_Ok in E as [E _]. by exists p.
  - intros (p & Hb & <-). exists (MkVerified p). split; [|done].
    by rewrite (proj2 (verify_bytes_Ok bytes key None (MkVerified p)) (conj Hb I)).
Qed.

Lemma elem_of_versions key (candidates : list string) v i :
  (v, i) ∈ omap (λ '(index, bytes), (λ v, (v, index)) <$> candidate_version key bytes)
             (imap pair candidates) ↔
  ∃ bytes, candidates !! i = Some bytes ∧ candidate_version key bytes = Some v.
Proof.
  rewrite list_elem_of_omap. split.
  - intros ([j bytes] & Hin & Hv). apply fmap_Some in Hv as (v' & Hv & [= <- <-]).
    apply elem_of_lookup_imap in Hin as (j & b & [= <- <-] & Hj). by exists bytes.
  - intros (bytes & Hl & Hv). exists (i, bytes). split.
    + apply elem_of_lookup_imap. by exists i, bytes.
    + by rewrite Hv.
Qed.

(** When any candidate bundle verifies under the embedded key, the bundle
    chosen verifies too and carries the highest verified version, wherever each
    candidate was found. *)
Theorem choose_bundle_highest candidates key b0 p0 :
  b0 ∈ candidates → bundle_of key b0 p0 →
  ∃ b p, choose_bundle candidates (Some key) = Some b ∧ bundle_of key b p ∧
    ∀ b' p', b' ∈ candidates → bundle_of key b' p' → (version p' ≤ version p)%N.
Proof.
  intros Hin Hb0. unfold choose_bundle. case_bool_decide as Hlen.
  { destruct candidates as [|b [|? ?]]; simpl in Hlen; [by apply elem_of_nil in Hin| |lia].
    apply list_elem_of_singleton in Hin as ->. exists b, p0. split_and!; [done..|].
    intros b' p' ->%list_elem_of_singleton Hb'. by rewrite (bundle_of_inj _ _ _ _ Hb' Hb0). }
  set (vs := omap _ _). pose proof (max_by_version_spec vs) as Hmax.
  destruct (max_by_version vs) as [[v i]|].
  - destruct Hmax as [Hvi Hmax].
    apply elem_of_versions in Hvi as (b & Hb & (p & Hbp & Hv)%candidate_version_Some).
    exists b, p. split_and!; [done..|]. intros b' p' (j & Hj)%list_elem_of_lookup Hb'.
    rewrite Hv. apply (Hmax (version p', j)). apply elem_of_versions. exists b'.
    split; [done|]. apply candidate_version_Some. by exists p'.
  - exfalso. apply list_elem_of_lookup in Hin as (j & Hj).
    assert ((version p0, j) ∈ vs) as X; [|rewrite Hmax in X; by apply elem_of_nil in X].
    apply elem_of_versions. exists b0. split; [done|]. apply candidate_version_Some. by exists p0.
Qed.

(** An overlay file, signed or not, can only narrow: after [apply_overlay]
    the policy is at most as wide as the base it was given, and it is the base
    itself unless the overlay is signed by the build's authority with a version
    newer than the last overlay accepted. *)
Theorem apply_overlay_narrows m dir out fs :
  let out' := fst (apply_overlay m dir out fs) in
  policy_le (base_policy out') (base_policy out) ∧
  bundle_version out' = bundle_version out ∧
  (out' = out ∨
   ∃ key bytes p, policy_authority m = Some key ∧ fs !! overlay_path dir = Some bytes ∧
     bundle_of key bytes p ∧ newer_than p (read_version (overlay_version_path dir) fs) ∧
     base_policy out' =
       resolve (base_policy out)
         [MkLayer PolicyBundleOrigin (Some (payload_enforcement p)) (payload_capabilities p)]).
Proof.
  intros out'. split; [|split; [apply apply_overlay_bundle_version|]].
  - subst out'.
    destruct (apply_overlay_cases m dir out fs) as [->|(k & b & p & _ & _ & _ & _ & Hm & _)]; [done|].
    rewrite merge_overlay_Some in Hm. injection Hm as <-.
    split; simpl; auto with ainxt.
  - subst out'.
    destruct (apply_overlay_cases m dir out fs) as [->|(k & b & p & ? & ? & ? & ? & Hm & _)]; [by left|].
    right. exists k, b, p. split_and!; [done..|].
    rewrite merge_overlay_Some in Hm. by injection Hm as <-.
Qed.

Lemma read_version_written path v fs :
  can_write path = true → (v ≤ u64_max)%N →
  read_version path (write_file path (pretty v) fs) = Some v.
Proof.
  intros Hw Hv. unfold read_version, write_file. rewrite Hw, lookup_insert_eq. simpl.
  by apply parse_u64_trim_pretty.
Qed.

Lemma write_file_ne path path' c fs :
  path ≠ path' → write_file path c fs !! path' = fs !! path'.
Proof. intros H0. unfold write_file. destruct (can_write path); [|done]. by rewrite lookup_insert_ne. Qed.

Lemma load_bundle_bytes_ext paths (fs fs' : Files) :
  (∀ p, p ∈ paths → fs' !! p = fs !! p) →
  load_bundle_bytes paths fs' = load_bundle_bytes paths fs.
Proof.
  induction paths as [|p ps IH]; intros Hp; [done|]. simpl.
  rewrite Hp by (by left). rewrite IH; [done|]. intros q Hq. apply Hp. by right.
Qed.

Lemma evaluate_version m bundle last out v :
  evaluate m bundle last = Ok out → bundle_version out = Some v →
  ∃ key bytes p, policy_authority m = Some key ∧ bundle = Some bytes ∧
    bundle_of key bytes p ∧ version p = v.
Proof.
  unfold evaluate. intros He Hv.
  destruct (require_policy m), bundle as [bytes|]; simplify_eq/=.
  - apply bind_Ok in He as (key & Hk%ok_or_Ok & He).
    apply bind_Ok in He as ([p] & [Hb _]%verify_bytes_Ok & [= <-]).
    injection Hv as <-. by exists key, bytes, p.
  - destruct (policy_authority m) as [key|] eqn:Hk; [|by simplify_eq/=].
    apply bind_Ok in He as ([p] & [Hb _]%verify_bytes_Ok & [= <-]).
    injection Hv as <-. by exists key, bytes, p.
Qed.

Lemma evaluate_rollback m key bytes p l :
  policy_authority m = Some key → bundle_of key bytes p → (version p ≤ l)%N →
  evaluate m (Some bytes) (Some l) = Err (RollbackRejected (version p) l).
Proof.
  intros Hk Hb Hl. unfold evaluate. rewrite Hk. simpl.
  rewrite (verify_bytes_rollback bytes key l p Hb Hl). by destruct (require_policy m).
Qed.

(** Once a start has accepted a bundle and recorded its version, starting
    again from the very same bundle is refused as a rollback: the recorded
    high-water mark is the version itself, and the gate demands a strictly
    newer one. *)
Theorem second_start_refused dir p out p' v :
  initialize dir p = (Ok out, p') →
  bundle_version out = Some v → (v ≤ u64_max)%N →
  can_write (last_version_path dir) = true →
  last_version_path dir ∉ bundle_search_paths →
  overlay_version_path dir ∉ bundle_search_paths →
  initialize dir p' = (Err (RollbackRejected v v), p').
Proof.
  intros Hi Hv Hmax Hw Hn1 Hn2. unfold initialize in Hi |- *. unfold resolve_outcome in *.
  destruct resolve_manifest as [m|e]; [|done]. simpl in *. unfold resolve_outcome_full in *.
  destruct (evaluate m _ _) as [out0|e] eqn:He in Hi; [|done]. simpl in Hi.
  destruct (apply_overlay m dir out0 (files p)) as [out1 fs1] eqn:Ha.
  injection Hi as -> <-. rewrite Hv. simpl.
  assert (bundle_version out0 = Some v) as Hv0.
  { pose proof (apply_overlay_bundle_version m dir out0 (files p)) as X. rewrite Ha in X.
    simpl in X. congruence. }
  destruct (evaluate_version _ _ _ _ _ He Hv0) as (key & bytes & pl & Hk & Hc & Hb & Hver).
  assert (∀ q, q ∈ bundle_search_paths → fs1 !! q = files p !! q) as Hfs1.
  { intros q Hq. destruct (apply_overlay_cases m dir out0 (files p))
      as [X|(? & ? & ? & _ & _ & _ & _ & _ & X)]; rewrite Ha in X; simpl in X; [by simplify_eq|].
    rewrite X. apply write_file_ne. by intros <-. }
  assert (load_bundle_bytes bundle_search_paths (write_last_version dir v fs1)
          = load_bundle_bytes bundle_search_paths (files p)) as Hl.
  { apply load_bundle_bytes_ext. intros q Hq. unfold write_last_version.
    rewrite write_file_ne by (by intros <-). by apply Hfs1. }
  unfold collect_bundles in *. rewrite Hl, Hc.
  unfold read_last_version, write_last_version. rewrite read_version_written by done.
  rewrite (evaluate_rollback m key bytes pl v Hk Hb) by lia. simpl. by rewrite Hver.
Qed.

(** An overlay narrows the process that first accepts it and no later one:
    once its version is recorded, applying the unchanged overlay again returns
    the un-narrowed base. *)
Theorem overlay_ignored_on_restart m dir out fs out' fs' v :
  apply_overlay m dir out fs = (out', fs') →
  overlay_version out = None → overlay_version out' = Some v → (v ≤ u64_max)%N →
  can_write (overlay_version_path dir) = true →
  overlay_path dir ≠ overlay_version_path dir →
  apply_overlay m dir out fs' = (out, fs').
Proof.
  intros Ha Hnone Hv Hmax Hw Hne.
  destruct (apply_overlay_cases m dir out fs)
    as [X|(key & bytes & p & Hk & Hf & Hb & _ & Hm & Hs)]; rewrite Ha in *; simpl in *.
  { injection X as -> ->. congruence. }
  rewrite merge_overlay_Some in Hm. injection Hm as <-. simpl in Hv. injection Hv as <-.
  subst fs'. unfold apply_overlay. rewrite Hk.
  rewrite (write_file_ne (overlay_version_path dir) (overlay_path dir)) by congruence. rewrite Hf.
  rewrite read_version_written by done.
  by rewrite (verify_bytes_rollback bytes key (version p) p Hb) by lia.
Qed.

End bootstrap.

(** ** Witnesses, with the toy signature scheme *)

#[local] Existing Instance toy_crypto.

Definition toy_files : Files :=
  {["/etc/ainxt/policy.json" := "7"; "/home/u/.ainxt/policy/overlay.json" := "9"]}.

Example choose_bundle_highest_witness :
  ∃ b p, choose_bundle ["3"; "7"; ""; "5"] (Some "K") = Some b ∧ bundle_of "K" b p ∧
    ∀ b' p', b' ∈ ["3"; "7"; ""; "5"] → bundle_of "K" b' p' → (version p' ≤ version p)%N.
Proof.
  apply (choose_bundle_highest _ "K" "3" (toy_payload 3)); [by left|].
  exists (MkBundle "3" "4b"). split; [done|]. exists "K". split_and!; vm_compute; done.
Defined.

Example second_start_refused_witness :
  ∃ out p', initialize (Some "4b") None (λ _, None) (λ _, true) "/home/u/.ainxt"
              (MkProcess None toy_files) = (Ok out, p') ∧
    initialize (Some "4b") None (λ _, None) (λ _, true) "/home/u/.ainxt" p'
    = (Err (RollbackRejected 7 7), p').
Proof.
  eexists _, _. split; [vm_compute; reflexivity|].
  eapply (second_start_refused _ _ _ _ _ (MkProcess None toy_files)); [vm_compute; reflexivity|..].
  - vm_compute. reflexivity.
  - vm_compute. discriminate.
  - done.
  - by_compute.
  - by_compute.
Defined.

Example overlay_ignored_on_restart_witness :
  let m := managed "K" in
  let r := apply_overlay (λ _, true) m "/home/u/.ainxt" permissive toy_files in
  overlay_version (fst r) = Some 9%N ∧
  apply_overlay (λ _, true) m "/home/u/.ainxt" permissive (snd r) = (permissive, snd r).
Proof.
  intros m r. split; [vm_compute; reflexivity|].
  apply (overlay_ignored_on_restart (λ _, true) m "/home/u/.ainxt" permissive toy_files (fst r)
           (snd r) 9%N); [apply surjective_pairing|vm_compute; reflexivity|vm_compute; reflexivity
    |vm_compute; discriminate|done|by_compute].
Defined.

End Bootstrap.
