(* ===== verification/Provenance.v ===== *)
(** The trust-provenance lattice of a session: the crate [ainxt-provenance].

    A session holds one tier; ingesting content lowers it and only a
    human-confirmed escalation raises it.  [run] replays a sequence of the
    crate's operations. *)
From S2P Require Import Prelude RustStr PolicyTypes PolicyEngine.

Inductive Origin : Type :=
| OperatorTty | WorkspaceFile | ModelOutput | ToolOutput | WebFetch | McpResult | Recall
| SubagentOutput | Mesh.

Definition tier_for_origin (o : Origin) : TrustTier :=
  match o with
  | OperatorTty => Operator
  | WorkspaceFile => Workspace
  | ModelOutput => Derived
  | ToolOutput | WebFetch | McpResult | Recall | SubagentOutput | Mesh => Untrusted
  end.

Definition merge_tier (tiers : list TrustTier) : TrustTier := foldl tier_min Operator tiers.

Record Tagged (T : Type) : Type := MkTagged { tagged_tier : TrustTier; value : T }.

Inductive ProvenanceError : Type := EscalationRequiresHuman.

Record SessionProvenance : Type := MkSession { current : TrustTier }.

Definition SessionProvenance_new : SessionProvenance := MkSession Operator.

Definition ingest (self : SessionProvenance) (span_tier : TrustTier) : SessionProvenance :=
  MkSession (tier_min (current self) span_tier).

Definition ingest_origin (self : SessionProvenance) (o : Origin) : SessionProvenance :=
  ingest self (tier_for_origin o).

Definition effective_action_tier (self : SessionProvenance) (direct_influences : list TrustTier)
    : TrustTier :=
  let influence_min := merge_tier direct_influences in
  tier_min (current self) influence_min.

Definition permits_consequential (self : SessionProvenance) (direct_influences : list TrustTier)
    : bool :=
  permits_consequential_actions (effective_action_tier self direct_influences).

(** Returns the new session with the result of the request. *)
Definition request_escalation (self : SessionProvenance) (to : TrustTier) (human_confirmed : bool)
    : SessionProvenance * result ProvenanceError TrustTier :=
  if negb human_confirmed then (self, Err EscalationRequiresHuman)
  else (MkSession to, Ok to).

Definition subagent_ceiling (self : SessionProvenance) : TrustTier := current self.

(** * Runs *)

(** The operations that change a session. *)
Inductive ProvEvent : Type :=
| Ingest (t : TrustTier)
| IngestOrigin (o : Origin)
| Escalate (to : TrustTier) (human_confirmed : bool).

Definition apply_event (s : SessionProvenance) (e : ProvEvent) : SessionProvenance :=
  match e with
  | Ingest t => ingest s t
  | IngestOrigin o => ingest_origin s o
  | Escalate to h => fst (request_escalation s to h)
  end.
Definition run (s : SessionProvenance) (es : list ProvEvent) : SessionProvenance :=
  foldl apply_event s es.

(** The tier that an event brings into the session. *)
Definition event_tier (e : ProvEvent) : option TrustTier :=
  match e with
  | Ingest t => Some t
  | IngestOrigin o => Some (tier_for_origin o)
  | Escalate _ _ => None
  end.
Definition confirmed (e : ProvEvent) : bool :=
  match e with Escalate _ h => h | _ => false end.

Lemma foldl_tier_min_glb c l t :
  tier_le c (foldl tier_min t l) ↔ tier_le c t ∧ Forall (tier_le c) l.
Proof.
  revert t. induction l as [|x l IH]; intros t; simpl; [rewrite Forall_nil; naive_solver|].
  rewrite IH, Forall_cons. split.
  - intros [H1 H2]. split_and!; [|  |done].
    + etrans; [exact H1|apply tier_min_le_l].
    + etrans; [exact H1|apply tier_min_le_r].
  - intros (H1 & H2 & H3). split; [by apply tier_min_glb|done].
Qed.

Lemma merge_tier_glb_iff c l : tier_le c (merge_tier l) ↔ Forall (tier_le c) l.
Proof. unfold merge_tier. rewrite foldl_tier_min_glb. pose proof (tier_le_operator c). tauto. Qed.

Lemma run_app s es1 es2 : run s (es1 ++ es2) = run (run s es1) es2.
Proof. apply foldl_app. Qed.

Lemma apply_event_descends s e :
  confirmed e = false → tier_le (current (apply_event s e)) (current s).
Proof. destruct e as [t|o|to []]; simpl; intros; try done; apply tier_min_le_l. Qed.

Lemma run_descends s es :
  Forall (λ e, confirmed e = false) es → tier_le (current (run s es)) (current s).
Proof.
  revert s. induction es as [|e es IH]; intros s; simpl; [done|].
  intros [He Hes]%Forall_cons. etrans; [by apply IH|by apply apply_event_descends].
Qed.

Lemma apply_event_tier s e t : event_tier e = Some t → tier_le (current (apply_event s e)) t.
Proof. destruct e; simpl; intros; simplify_eq; apply tier_min_le_r. Qed.

(** Once content below [Workspace] has entered a session, and as
    long as no human confirms an escalation after that, no action of the
    session - whatever its own influences - may take a consequential action,
    and the policy engine blocks its every egress, process and MCP call under
    every policy. *)
Theorem untrusted_content_neutralised s es1 e es2 t infl :
  event_tier e = Some t → permits_consequential_actions t = false →
  Forall (λ e', confirmed e' = false) es2 →
  let s' := run s (es1 ++ e :: es2) in
  let tier := effective_action_tier s' infl in
  permits_consequential s' infl = false ∧
  ∀ engine, (∀ host, verdict (egress_decision engine host tier) = Block) ∧
            (∀ target, verdict (exec_decision engine target tier) = Block) ∧
            (∀ server tool, verdict (mcp_decision engine server tool tier) = Block).
Proof.
  intros He Ht Hes s' tier.
  assert (tier_le tier t) as Hle.
  { etrans; [apply tier_min_le_l|]. unfold s'. rewrite run_app. simpl.
    etrans; [by apply run_descends|by apply apply_event_tier]. }
  assert (permits_consequential_actions tier = false) as Hp.
  { destruct (permits_consequential_actions tier) eqn:E; [|done].
    apply (permits_consequential_mono _ _ Hle) in E. congruence. }
  split; [exact Hp|]. intros engine.
  auto using low_tier_blocks_egress, low_tier_blocks_exec, low_tier_blocks_mcp.
Qed.

Example untrusted_content_neutralised_witness :
  permits_consequential
    (run SessionProvenance_new
       ([Ingest Workspace] ++ IngestOrigin WebFetch :: [Escalate Operator false; Ingest Operator]))
    [Operator] = false.
Proof.
  apply (untrusted_content_neutralised SessionProvenance_new [Ingest Workspace]
    (IngestOrigin WebFetch) [Escalate Operator false; Ingest Operator] Untrusted [Operator]);
  [done|done|by repeat constructor].
Defined.

(** The tier of an action is the greatest lower bound of the session tier
    and of every direct influence, so it is independent of their order and a
    summary of untrusted spans stays untrusted (no laundering). *)
Theorem effective_tier_glb s infl c :
  tier_le c (effective_action_tier s infl) ↔
  tier_le c (current s) ∧ ∀ t, t ∈ infl → tier_le c t.
Proof.
  unfold effective_action_tier. split.
  - intros H. split; [etrans; [exact H|apply tier_min_le_l]|].
    apply Forall_forall, merge_tier_glb_iff. etrans; [exact H|apply tier_min_le_r].
  - intros [H1 H2]. apply tier_min_glb; [done|]. by apply merge_tier_glb_iff, Forall_forall.
Qed.
