(* ===== verification/Intent.v ===== *)
(** The vocabulary of requested capabilities (crate [ainxt-intent], file
    [capability.rs]): capabilities, the confidence of a derivation, its evidence
    and its targets, and the operations that grow and merge derivations.  The
    invariant is [Derivation_wf]: a capability is claimed exactly when some
    evidence explains it, and nothing is recorded twice. *)
From stdpp Require Import sorting.
From S2P Require Import Prelude RustStr.

Module Cap.

(** [enum Capability], in declaration order. *)
Inductive Capability : Type :=
| FsRead | FsWrite | FsDelete | ExecuteProcess | ShellInterpretation | NetworkConnect
| Download | Upload | InstallPackage | PublishPackage | CredentialAccess | ModifyGit
| RewriteGitHistory | ForcePush | RemoteCodeExecution | ProcessControl | SystemPath
| PrivilegeEscalation | McpInvoke | AgentSpawn.

#[export] Instance Capability_eq_dec : EqDecision Capability.
Proof. solve_decision. Defined.

(** Every variant, in the order the derived [Ord] uses. *)
Definition all_capabilities : list Capability :=
  [FsRead; FsWrite; FsDelete; ExecuteProcess; ShellInterpretation; NetworkConnect;
   Download; Upload; InstallPackage; PublishPackage; CredentialAccess; ModifyGit;
   RewriteGitHistory; ForcePush; RemoteCodeExecution; ProcessControl; SystemPath;
   PrivilegeEscalation; McpInvoke; AgentSpawn].

Lemma elem_of_all_capabilities (c : Capability) : c ∈ all_capabilities.
Proof. destruct c; by_compute. Qed.

#[export] Program Instance Capability_finite : Finite Capability := {| enum := all_capabilities |}.
Next Obligation. by_compute. Qed.
Next Obligation. apply elem_of_all_capabilities. Qed.

#[export] Instance Capability_countable : Countable Capability := finite_countable.

Definition Capability_rank (c : Capability) : nat := default 0 (fst <$> list_find (c =.) all_capabilities).

Definition as_str (c : Capability) : string :=
  match c with
  | FsRead => "fs_read"
  | FsWrite => "fs_write"
  | FsDelete => "fs_delete"
  | ExecuteProcess => "execute_process"
  | ShellInterpretation => "shell_interpretation"
  | NetworkConnect => "network_connect"
  | Download => "download"
  | Upload => "upload"
  | InstallPackage => "install_package"
  | PublishPackage => "publish_package"
  | CredentialAccess => "credential_access"
  | ModifyGit => "modify_git"
  | RewriteGitHistory => "rewrite_git_history"
  | ForcePush => "force_push"
  | RemoteCodeExecution => "remote_code_execution"
  | ProcessControl => "process_control"
  | SystemPath => "system_path"
  | PrivilegeEscalation => "privilege_escalation"
  | McpInvoke => "mcp_invoke"
  | AgentSpawn => "agent_spawn"
  end.

Definition is_high_risk (c : Capability) : bool :=
  match c with
  | CredentialAccess | PrivilegeEscalation | ShellInterpretation | InstallPackage
  | PublishPackage | RewriteGitHistory | ForcePush | RemoteCodeExecution | SystemPath => true
  | _ => false
  end.

Lemma as_str_inj c c' : as_str c = as_str c' → c = c'.
Proof. by destruct c, c'. Qed.

Lemma Capability_rank_inj c c' : Capability_rank c = Capability_rank c' → c = c'.
Proof. by destruct c, c'. Qed.

(** [enum Confidence]: the derived order is the declaration order. *)
Inductive Confidence : Type := Exact | Partial | Unknown.

#[export] Instance Confidence_eq_dec : EqDecision Confidence.
Proof. solve_decision. Defined.

Definition Confidence_rank (c : Confidence) : nat :=
  match c with Exact => 0 | Partial => 1 | Unknown => 2 end.

(** [Ord::max]. *)
Definition Confidence_max (a b : Confidence) : Confidence :=
  if bool_decide (Confidence_rank a ≤ Confidence_rank b) then b else a.

Lemma Confidence_max_rank a b :
  Confidence_rank (Confidence_max a b) = Confidence_rank a `max` Confidence_rank b.
Proof. by destruct a, b. Qed.

End Cap.
Import Cap.

Module Export Derive.

Record Evidence : Type := MkEvidence { ev_capability : Capability; ev_detail : string }.

#[export] Instance Evidence_eq_dec : EqDecision Evidence.
Proof. solve_decision. Defined.

Record Targets : Type := MkTargets {
  programs : list string;
  reads : list string;
  writes : list string;
  urls : list string;
}.

#[export] Instance Targets_eq_dec : EqDecision Targets.
Proof. solve_decision. Defined.

Definition Targets_default : Targets := MkTargets [] [] [] [].

Definition add_program (t : Targets) (v : string) : Targets :=
  MkTargets (push_unique (programs t) v) (reads t) (writes t) (urls t).
Definition add_read (t : Targets) (v : string) : Targets :=
  MkTargets (programs t) (push_unique (reads t) v) (writes t) (urls t).
Definition add_write (t : Targets) (v : string) : Targets :=
  MkTargets (programs t) (reads t) (push_unique (writes t) v) (urls t).
Definition add_url (t : Targets) (v : string) : Targets :=
  MkTargets (programs t) (reads t) (writes t) (push_unique (urls t) v).

(** [Targets::merge]: the four lists in turn. *)
Definition Targets_merge (self other : Targets) : Targets :=
  let t := fold_left add_program (programs other) self in
  let t := fold_left add_read (reads other) t in
  let t := fold_left add_write (writes other) t in
  fold_left add_url (urls other) t.

Record Derivation : Type := MkDerivation {
  capabilities : gset Capability;
  confidence : Confidence;
  targets : Targets;
  evidence : list Evidence;
}.

Definition Derivation_new (c : Confidence) : Derivation := MkDerivation ∅ c Targets_default [].

(** [Derivation::add]: [BTreeSet::insert] tells whether the capability is new. *)
Definition add (d : Derivation) (c : Capability) (detail : string) : Derivation :=
  let inserted := bool_decide (c ∉ capabilities d) in
  let known := existsb (λ e, bool_decide (ev_capability e = c) && bool_decide (ev_detail e = detail))
                 (evidence d) in
  MkDerivation ({[c]} ∪ capabilities d) (confidence d) (targets d)
    (if inserted || negb known then evidence d ++ [MkEvidence c detail] else evidence d).

Definition Derivation_unknown (reason : string) : Derivation :=
  add (Derivation_new Unknown) ExecuteProcess reason.

Definition has (d : Derivation) (c : Capability) : bool := bool_decide (c ∈ capabilities d).

Definition Derivation_merge (self other : Derivation) : Derivation :=
  MkDerivation (capabilities self ∪ capabilities other)
    (Confidence_max (confidence self) (confidence other))
    (Targets_merge (targets self) (targets other))
    (fold_left push_unique (evidence other) (evidence self)).

(** Assignments to one field of a derivation. *)
Definition set_targets (d : Derivation) (t : Targets) : Derivation :=
  MkDerivation (capabilities d) (confidence d) t (evidence d).
Definition degrade (d : Derivation) (c : Confidence) : Derivation :=
  MkDerivation (capabilities d) (Confidence_max (confidence d) c) (targets d) (evidence d).

(** The key of [sort_by_key]: high-risk capabilities first, then declaration
    order. *)
Definition sort_key (c : Capability) : nat * nat :=
  (if is_high_risk c then 0 else 1, Capability_rank c).
Definition sort_key_le (a b : Capability) : Prop :=
  (sort_key a).1 < (sort_key b).1 ∨
  ((sort_key a).1 = (sort_key b).1 ∧ (sort_key a).2 ≤ (sort_key b).2).
#[export] Instance sort_key_le_dec : RelDecision sort_key_le.
Proof. intros a b. unfold sort_key_le. apply _. Defined.

(** Iterating a [BTreeSet] yields declaration order; the sort is stable. *)
Definition sorted_capabilities (d : Derivation) : list Capability :=
  merge_sort sort_key_le (filter (λ c, c ∈ capabilities d) all_capabilities).

(** ** The order in which a derivation grows *)

(** [d ⊑ d']: nothing the first derivation says is lost in the second. *)
Record grows (d d' : Derivation) : Prop := {
  grows_caps : capabilities d ⊆ capabilities d';
  grows_conf : Confidence_rank (confidence d) ≤ Confidence_rank (confidence d');
  grows_programs : programs (targets d) ⊆ programs (targets d');
  grows_reads : reads (targets d) ⊆ reads (targets d');
  grows_writes : writes (targets d) ⊆ writes (targets d');
  grows_urls : urls (targets d) ⊆ urls (targets d');
  grows_evidence : evidence d ⊆ evidence d';
}.

#[export] Instance grows_preorder : PreOrder grows.
Proof.
  split.
  - intros d. by split.
  - intros a b c [] []. split; first [by etransitivity | by eapply Nat.le_trans].
Qed.

(** A capability is claimed exactly when evidence explains it, and neither
    evidence nor a target is recorded twice. *)
Record Derivation_wf (d : Derivation) : Prop := {
  wf_explained : ∀ c, c ∈ capabilities d ↔ ∃ e, e ∈ evidence d ∧ ev_capability e = c;
  wf_evidence : NoDup (evidence d);
  wf_programs : NoDup (programs (targets d));
  wf_reads : NoDup (reads (targets d));
  wf_writes : NoDup (writes (targets d));
  wf_urls : NoDup (urls (targets d));
}.

Lemma elem_of_fold_push_unique {A} `{EqDecision A} (l acc : list A) x :
  x ∈ fold_left push_unique l acc ↔ x ∈ acc ∨ x ∈ l.
Proof.
  revert acc. induction l as [|y l IH]; intros acc; simpl; [set_solver|].
  rewrite IH, elem_of_push_unique. set_solver.
Qed.

Lemma NoDup_fold_push_unique {A} `{EqDecision A} (l acc : list A) :
  NoDup acc → NoDup (fold_left push_unique l acc).
Proof. intros H. apply fold_left_inv; [done|]. intros. by apply NoDup_push_unique. Qed.

Lemma Targets_merge_eq t o :
  Targets_merge t o =
  MkTargets (fold_left push_unique (programs o) (programs t)) (fold_left push_unique (reads o) (reads t))
    (fold_left push_unique (writes o) (writes t)) (fold_left push_unique (urls o) (urls t)).
Proof.
  assert (Hp : ∀ l t, fold_left add_program l t =
    MkTargets (fold_left push_unique l (programs t)) (reads t) (writes t) (urls t)).
  { induction l as [|x l IH]; intros []; simpl; [done|by rewrite IH]. }
  assert (Hr : ∀ l t, fold_left add_read l t =
    MkTargets (programs t) (fold_left push_unique l (reads t)) (writes t) (urls t)).
  { induction l as [|x l IH]; intros []; simpl; [done|by rewrite IH]. }
  assert (Hw : ∀ l t, fold_left add_write l t =
    MkTargets (programs t) (reads t) (fold_left push_unique l (writes t)) (urls t)).
  { induction l as [|x l IH]; intros []; simpl; [done|by rewrite IH]. }
  assert (Hu : ∀ l t, fold_left add_url l t =
    MkTargets (programs t) (reads t) (writes t) (fold_left push_unique l (urls t))).
  { induction l as [|x l IH]; intros []; simpl; [done|by rewrite IH]. }
  unfold Targets_merge. by rewrite Hp, Hr, Hw, Hu.
Qed.

Lemma subseteq_push_unique {A} `{EqDecision A} (l : list A) x : l ⊆ push_unique l x.
Proof. intros y Hy. apply elem_of_push_unique. by right. Qed.
Lemma subseteq_fold_push_unique {A} `{EqDecision A} (l acc : list A) :
  acc ⊆ fold_left push_unique l acc.
Proof. intros y Hy. apply elem_of_fold_push_unique. by left. Qed.

Lemma add_evidence_known d c detail :
  existsb (λ e, bool_decide (ev_capability e = c) && bool_decide (ev_detail e = detail)) (evidence d)
  = bool_decide (MkEvidence c detail ∈ evidence d).
Proof.
  apply eq_bool_prop_intro. rewrite existb_True, bool_decide_spec, Exists_exists. split.
  - intros ([c' t] & Hin & H). apply andb_True in H as [H1%bool_decide_unpack H2%bool_decide_unpack].
    simpl in *. by subst.
  - intros Hin. exists (MkEvidence c detail). split; [done|]. simpl.
    by rewrite !bool_decide_eq_true_2.
Qed.

Lemma grows_add d c detail : grows d (add d c detail).
Proof.
  split; unfold add; simpl; [set_solver|lia|done..|].
  case_match; [|done]. set_solver.
Qed.

Lemma grows_set_targets d t :
  programs (targets d) ⊆ programs t → reads (targets d) ⊆ reads t →
  writes (targets d) ⊆ writes t → urls (targets d) ⊆ urls t → grows d (set_targets d t).
Proof. by split. Qed.

Lemma grows_degrade d c : grows d (degrade d c).
Proof. split; try done. simpl. rewrite Confidence_max_rank. lia. Qed.

Lemma grows_merge_l d d' : grows d (Derivation_merge d d').
Proof.
  split; simpl; rewrite ?Targets_merge_eq, ?Confidence_max_rank; simpl;
    first [lia | set_solver | apply subseteq_fold_push_unique].
Qed.

Lemma grows_merge_r d d' : grows d' (Derivation_merge d d').
Proof.
  split; simpl; rewrite ?Targets_merge_eq, ?Confidence_max_rank; simpl;
    first [lia | set_solver | intros x Hx; apply elem_of_fold_push_unique; by right].
Qed.

Lemma add_has d c detail : c ∈ capabilities (add d c detail).
Proof. unfold add; simpl. set_solver. Qed.

Lemma Derivation_new_wf c : Derivation_wf (Derivation_new c).
Proof. split; simpl; try apply NoDup_nil_2. set_solver. Qed.

Lemma add_wf d c detail : Derivation_wf d → Derivation_wf (add d c detail).
Proof.
  intros [He Hn Hp Hr Hw Hu]. unfold add. rewrite add_evidence_known.
  set (fresh := bool_decide (c ∉ capabilities d) || negb _).
  assert (fresh = true ↔ MkEvidence c detail ∉ evidence d) as Hf.
  { unfold fresh. rewrite orb_true_iff, negb_true_iff, bool_decide_eq_true, bool_decide_eq_false.
    rewrite He. naive_solver. }
  clearbody fresh. split; simpl; [| |done..].
  - intros c'. rewrite elem_of_union, elem_of_singleton, He. destruct fresh.
    + setoid_rewrite elem_of_app. setoid_rewrite list_elem_of_singleton.
      split; [intros [->|(e & ? & <-)]|intros (e & [?| ->] & <-)]; simpl; eauto.
    + split; [intros [->|?]; [|done]|naive_solver].
      exists (MkEvidence c detail). split; [|done].
      destruct (decide (MkEvidence c detail ∈ evidence d)) as [?|Hn']; [done|].
      by apply Hf in Hn'.
  - destruct fresh; [|done]. apply NoDup_app. split_and!; [done| |apply NoDup_singleton].
    intros x Hx ->%list_elem_of_singleton. by apply Hf.
Qed.

Lemma Derivation_unknown_wf reason : Derivation_wf (Derivation_unknown reason).
Proof. apply add_wf, Derivation_new_wf. Qed.

Lemma merge_wf d d' : Derivation_wf d → Derivation_wf d' → Derivation_wf (Derivation_merge d d').
Proof.
  intros [He Hn Hp Hr Hw Hu] [He' _ _ _ _ _].
  split; simpl; rewrite ?Targets_merge_eq; simpl; try by apply NoDup_fold_push_unique.
  intros c. rewrite elem_of_union, He, He'. setoid_rewrite elem_of_fold_push_unique. naive_solver.
Qed.

Lemma set_targets_wf d t :
  Derivation_wf d → NoDup (programs t) → NoDup (reads t) → NoDup (writes t) → NoDup (urls t) →
  Derivation_wf (set_targets d t).
Proof. intros [] ????. by split. Qed.

Lemma degrade_wf d c : Derivation_wf d → Derivation_wf (degrade d c).
Proof. intros []. by split. Qed.

(** ** Recorders *)

(** [if b { f(&mut d) }]. *)
Definition when (b : bool) (f : Derivation → Derivation) (d : Derivation) : Derivation :=
  if b then f d else d.

(** A pass over a derivation that only ever records more: it forgets nothing,
    keeps the derivation well formed, and what it adds does not depend on what is
    already there.  Every classification step has this interface. *)
Class Recorder (f : Derivation → Derivation) : Prop := {
  rec_grows d : grows d (f d);
  rec_wf d : Derivation_wf d → Derivation_wf (f d);
  rec_caps : ∃ S : gset Capability, ∀ d, capabilities (f d) = capabilities d ∪ S;
  rec_conf : ∃ c, ∀ d, confidence (f d) = Confidence_max (confidence d) c;
}.

Lemma Confidence_max_Exact c : Confidence_max c Exact = c.
Proof. by destruct c. Qed.
Lemma Confidence_max_assoc a b c :
  Confidence_max (Confidence_max a b) c = Confidence_max a (Confidence_max b c).
Proof. by destruct a, b, c. Qed.

#[export] Instance Recorder_id : Recorder (λ d, d).
Proof.
  split; [done|done|exists ∅; set_solver|].
  exists Exact. intros d. by rewrite Confidence_max_Exact.
Qed.

#[export] Instance Recorder_add c t : Recorder (λ d, add d c t).
Proof.
  split; [intros; apply grows_add|intros; by apply add_wf|exists {[c]}; set_solver|].
  exists Exact. intros d. by rewrite Confidence_max_Exact.
Qed.

Lemma Recorder_comp f g : Recorder f → Recorder g → Recorder (λ d, g (f d)).
Proof.
  intros [Hg1 Hw1 [S1 H1] [c1 C1]] [Hg2 Hw2 [S2 H2] [c2 C2]]. split.
  - intros d. etransitivity; [apply Hg1|apply Hg2].
  - auto.
  - exists (S1 ∪ S2). intros d. rewrite H2, H1. set_solver.
  - exists (Confidence_max c1 c2). intros d. by rewrite C2, C1, Confidence_max_assoc.
Qed.

#[export] Instance Recorder_when b f : Recorder f → Recorder (when b f).
Proof. destruct b; [done|intros _; apply Recorder_id]. Qed.

#[export] Instance Recorder_degrade c : Recorder (λ d, degrade d c).
Proof.
  split; [intros; apply grows_degrade|intros; by apply degrade_wf|exists ∅; set_solver|by exists c].
Qed.

Lemma Recorder_set_targets (f : Targets → Targets) :
  (∀ t, programs t ⊆ programs (f t) ∧ (NoDup (programs t) → NoDup (programs (f t)))) →
  (∀ t, reads t ⊆ reads (f t) ∧ (NoDup (reads t) → NoDup (reads (f t)))) →
  (∀ t, writes t ⊆ writes (f t) ∧ (NoDup (writes t) → NoDup (writes (f t)))) →
  (∀ t, urls t ⊆ urls (f t) ∧ (NoDup (urls t) → NoDup (urls (f t)))) →
  Recorder (λ d, set_targets d (f (targets d))).
Proof.
  intros Hp Hr Hw Hu. split.
  - intros d. apply grows_set_targets; [apply Hp|apply Hr|apply Hw|apply Hu].
  - intros d []. apply set_targets_wf; [by split|by apply Hp|by apply Hr|by apply Hw|by apply Hu].
  - exists ∅. set_solver.
  - exists Exact. intros d. by rewrite Confidence_max_Exact.
Qed.

#[export] Instance Recorder_add_program v : Recorder (λ d, set_targets d (add_program (targets d) v)).
Proof.
  apply (Recorder_set_targets (λ t, add_program t v)); intros t; simpl; try done.
  split; [apply subseteq_push_unique|apply NoDup_push_unique].
Qed.
#[export] Instance Recorder_add_read v : Recorder (λ d, set_targets d (add_read (targets d) v)).
Proof.
  apply (Recorder_set_targets (λ t, add_read t v)); intros t; simpl; try done.
  split; [apply subseteq_push_unique|apply NoDup_push_unique].
Qed.
#[export] Instance Recorder_add_write v : Recorder (λ d, set_targets d (add_write (targets d) v)).
Proof.
  apply (Recorder_set_targets (λ t, add_write t v)); intros t; simpl; try done.
  split; [apply subseteq_push_unique|apply NoDup_push_unique].
Qed.
#[export] Instance Recorder_add_url v : Recorder (λ d, set_targets d (add_url (targets d) v)).
Proof.
  apply (Recorder_set_targets (λ t, add_url t v)); intros t; simpl; try done.
  split; [apply subseteq_push_unique|apply NoDup_push_unique].
Qed.

#[export] Instance Recorder_merge d' : Derivation_wf d' → Recorder (λ d, Derivation_merge d d').
Proof.
  intros Hd'. split; [intros; apply grows_merge_l|intros; by apply merge_wf|by exists (capabilities d')|].
  by exists (confidence d').
Qed.

Lemma Recorder_fold {A} (f : A → Derivation → Derivation) (l : list A) :
  (∀ x, Recorder (f x)) → Recorder (λ d, fold_left (λ d x, f x d) l d).
Proof.
  intros Hf. induction l as [|x l IH]; simpl; [apply Recorder_id|].
  apply (Recorder_comp (f x) (λ d, fold_left (λ d x, f x d) l d)); [apply Hf|done].
Qed.

Lemma fold_recorder_wf {A} (f : A → Derivation → Derivation) (l : list A) d :
  (∀ x, Recorder (f x)) → Derivation_wf d → Derivation_wf (fold_left (λ d x, f x d) l d).
Proof. intros Hf. destruct (Recorder_fold f l Hf). auto. Qed.

Lemma fold_recorder_grows {A} (f : A → Derivation → Derivation) (l : list A) d :
  (∀ x, Recorder (f x)) → grows d (fold_left (λ d x, f x d) l d).
Proof. intros Hf. destruct (Recorder_fold f l Hf). auto. Qed.

(** Every element of a fold leaves its mark on the result. *)
Lemma fold_recorder_member {A} (f : A → Derivation → Derivation) (l : list A) x d :
  (∀ y, Recorder (f y)) → x ∈ l →
  ∃ d0, grows d d0 ∧ grows (f x d0) (fold_left (λ d y, f y d) l d).
Proof.
  intros Hf. revert d. induction l as [|y l IH]; intros d Hx; [by apply not_elem_of_nil in Hx|].
  simpl. apply elem_of_cons in Hx as [->|Hx].
  - exists d. split; [done|]. by apply fold_recorder_grows.
  - destruct (IH (f y d) Hx) as (d0 & H0 & H1). exists d0. split; [|done].
    etransitivity; [apply (rec_grows (f := f y))|done].
Qed.

Lemma Recorder_caps_subset f d d' :
  Recorder f → capabilities d ⊆ capabilities d' → capabilities (f d) ⊆ capabilities (f d').
Proof. intros [_ _ [S HS] _] H. rewrite !HS. set_solver. Qed.

(** Splits a recorder into its steps. *)
Ltac recorder :=
  cbv zeta;
  repeat match goal with
  | |- ∀ _, _ => intros ?
  | |- Recorder (λ d, d) => apply Recorder_id
  | |- Recorder (λ d, add d _ _) => apply Recorder_add
  | |- Recorder (λ d, add (@?g d) ?c ?t) =>
      apply (Recorder_comp g (λ x, add x c t)); [|apply Recorder_add]
  | |- Recorder (λ d, when ?b ?f (@?g d)) =>
      apply (Recorder_comp g (when b f)); [|apply Recorder_when]
  | |- Recorder (λ d, when _ ?f d) => apply (Recorder_when _ f)
  | |- Recorder (λ d, fold_left (λ d' x, @?f x d') _ d) => apply (Recorder_fold f)
  | |- Recorder (λ d, fold_left (λ d' x, @?f x d') ?l (@?g d)) =>
      apply (Recorder_comp g (λ d0, fold_left (λ d' x, f x d') l d0)); [|apply (Recorder_fold f)]
  | |- Recorder (λ d, match ?x with _ => _ end) => destruct x
  | |- Recorder (λ d, ?f (@?g d)) => apply (Recorder_comp g f)
  end; try (apply _ || done).

(** ** Explanations *)

#[export] Instance sort_key_le_total : Total sort_key_le.
Proof. intros a b. unfold sort_key_le. lia. Qed.
#[export] Instance sort_key_le_trans : Transitive sort_key_le.
Proof. intros a b c. unfold sort_key_le. lia. Qed.

Lemma elem_of_sorted_capabilities d c : c ∈ sorted_capabilities d ↔ c ∈ capabilities d.
Proof.
  unfold sorted_capabilities. rewrite merge_sort_Permutation, list_elem_of_filter.
  split; [naive_solver|]. intros H. split; [done|]. apply elem_of_all_capabilities.
Qed.

(** Sorting a derivation's capabilities for an explanation loses and repeats
    nothing, and puts every high-risk capability before every other one. *)
Theorem sorted_capabilities_spec d :
  (∀ c, c ∈ sorted_capabilities d ↔ c ∈ capabilities d) ∧
  NoDup (sorted_capabilities d) ∧
  StronglySorted sort_key_le (sorted_capabilities d) ∧
  (∀ l1 a l2 b l3, sorted_capabilities d = l1 ++ a :: l2 ++ b :: l3 →
     is_high_risk b = true → is_high_risk a = true).
Proof.
  assert (StronglySorted sort_key_le (sorted_capabilities d)) as Hs
    by (apply (StronglySorted_merge_sort _)).
  split_and!; [apply elem_of_sorted_capabilities| |done|].
  - unfold sorted_capabilities. rewrite merge_sort_Permutation. apply NoDup_filter. by_compute.
  - intros l1 a l2 b l3 Heq Hb. rewrite Heq in Hs. apply StronglySorted_app in Hs as (_ & _ & Hs).
    apply StronglySorted_inv in Hs as [_ Hall].
    assert (sort_key_le a b) as Hle by (rewrite Forall_forall in Hall; apply Hall; set_solver).
    unfold sort_key_le, sort_key in Hle. simpl in Hle. rewrite Hb in Hle.
    destruct (is_high_risk a); [done|lia].
Qed.

End Derive.
