(* ===== verification/ShellWords.v ===== *)
(** Shell commands as lists of words (crate [ainxt-shell-ast]): peeling the
    wrappers that run another command ([bash.rs]), the files a command names
    ([access.rs]), path normalisation and the display splitters.  The functions
    that walk a syntax tree are in [ShellTree]. *)
From S2P Require Import Prelude RustStr.

Module Export Wrappers.

(** [word.rsplit(['/', '\\']).next()]. *)
Definition is_path_sep (a : ascii) : bool := bool_decide (a = "/"%char) || bool_decide (a = "\"%char).
Definition shell_program_name (word : string) : string := rsplit_first is_path_sep word.

Definition is_ident_start (a : ascii) : bool := is_ascii_alphabetic a || bool_decide (a = "_"%char).
Definition is_ident_byte (a : ascii) : bool := is_ascii_alphanumeric a || bool_decide (a = "_"%char).

(** A [NAME=VALUE] operand of [env]. *)
Definition is_env_assignment (tok : string) : bool :=
  match split_once "="%char tok with
  | None => false
  | Some (name, _) =>
      match name with
      | "" => false
      | String b _ => is_ident_start b && bytes_all is_ident_byte name
      end
  end.

(** The body of the loop of [env_scan] over the words from index [i] on. *)
Fixpoint env_scan_from (words : list string) (i : nat) (chdir : option string) : option string * nat :=
  match words with
  | [] => (chdir, i)
  | tok :: rest =>
      if bool_decide (tok = "--") then (chdir, i + 1)
      else if negb (bool_decide (tok = "-")) && starts_with "-" tok then
        if bool_decide (tok = "-C") || bool_decide (tok = "--chdir") then
          match rest with
          | [] => (None, i + 2)
          | dir :: rest' => env_scan_from rest' (i + 2) (Some dir)
          end
        else match strip_prefix "--chdir=" tok with
        | Some dir => env_scan_from rest (i + 1) (Some dir)
        | None =>
            match (dir ← strip_prefix "-C" tok; if is_empty dir then None else Some dir) with
            | Some dir => env_scan_from rest (i + 1) (Some dir)
            | None =>
                if bool_decide (tok ∈ ["-u"; "--unset"; "-S"; "--split-string"]) then
                  match rest with
                  | [] => (chdir, i + 2)
                  | _ :: rest' => env_scan_from rest' (i + 2) chdir
                  end
                else env_scan_from rest (i + 1) chdir
            end
        end
      else if is_env_assignment tok then env_scan_from rest (i + 1) chdir
      else (chdir, i)
  end.

Definition env_scan (cmd : list string) : option string * nat :=
  env_scan_from (drop 1 cmd) 1 None.

(** [while i < cmd.len() && cmd[i].starts_with('-')]: skip one word, or two when
    the flag takes a separate value. *)
Fixpoint skip_flags (valued : list string) (words : list string) (i : nat) : nat :=
  match words with
  | [] => i
  | tok :: rest =>
      if starts_with "-" tok then
        if bool_decide (tok ∈ valued) then
          match rest with
          | [] => i + 2
          | _ :: rest' => skip_flags valued rest' (i + 2)
          end
        else skip_flags valued rest (i + 1)
      else i
  end.

(** [cmd.get(i..)]. *)
Definition get_from (cmd : list string) (i : nat) : option (list string) :=
  if bool_decide (i ≤ length cmd) then Some (drop i cmd) else None.

(** The mandatory operand of [timeout] and [chrt]. *)
Definition skip_operand (cmd : list string) (i : nat) : option nat :=
  if bool_decide (length cmd ≤ i) then None else Some (i + 1).

Definition ionice_valued : list string :=
  ["-c"; "-n"; "-p"; "-P"; "-u"; "--class"; "--classdata"; "--pid"; "--pgid"; "--uid"].

(** Index of the inner command of a wrapper. *)
Definition wrapper_inner_index (head : string) (cmd : list string) : option nat :=
  let args := drop 1 cmd in
  if bool_decide (head = "timeout") then
    skip_operand cmd (skip_flags ["-k"; "-s"; "--kill-after"; "--signal"] args 1)
  else if bool_decide (head = "nice") then Some (skip_flags ["-n"; "--adjustment"] args 1)
  else if bool_decide (head = "ionice") then Some (skip_flags ionice_valued args 1)
  else if bool_decide (head = "chrt") then skip_operand cmd (skip_flags [] args 1)
  else if bool_decide (head = "stdbuf") then Some (skip_flags ["-i"; "-o"; "-e"] args 1)
  else if bool_decide (head = "env") then Some (env_scan cmd).2
  else None.

Definition strip_wrapper_command (cmd : list string) : option (list string) :=
  first ← head cmd;
  i ← wrapper_inner_index (shell_program_name first) cmd;
  inner ← get_from cmd i;
  if bool_decide (inner = []) then None else Some inner.

Definition wrapper_names : list string := ["timeout"; "nice"; "ionice"; "chrt"; "stdbuf"; "env"].

Definition is_wrapper_command (words : list string) : bool :=
  match head words with
  | Some w => bool_decide (shell_program_name w ∈ wrapper_names)
  | None => false
  end.

(** [for _ in 0..n { match strip { Some(inner) => current = inner, None => break } }]. *)
Fixpoint unwrap_n (n : nat) (current : list string) : list string :=
  match n with
  | 0 => current
  | S n' => match strip_wrapper_command current with
            | Some inner => unwrap_n n' inner
            | None => current
            end
  end.

Definition unwrap_wrappers (words : list string) : list string := unwrap_n 8 words.

Fixpoint has_chdir_n (n : nat) (current : list string) : bool :=
  match n with
  | 0 => false
  | S n' =>
      if bool_decide ((shell_program_name <$> head current) = Some "env") &&
         bool_decide (is_Some (env_scan current).1)
      then true
      else match strip_wrapper_command current with
           | Some inner => has_chdir_n n' inner
           | None => false
           end
  end.

Definition wrapper_has_chdir (words : list string) : bool := has_chdir_n 8 words.

(** ** Lemmas *)

Lemma skip_flags_ge valued words i : i ≤ skip_flags valued words i.
Proof.
  revert i. induction words as [words IH] using (induction_ltof1 _ (@length _)); intros i.
  destruct words as [|tok rest]; simpl; [done|]. case_match; [|done]. case_match.
  - destruct rest as [|? rest']; [lia|]. etransitivity; [|apply IH; unfold ltof; simpl; lia]. lia.
  - etransitivity; [|apply IH; unfold ltof; simpl; lia]. lia.
Qed.

Lemma env_scan_from_ge words i chdir : i ≤ (env_scan_from words i chdir).2.
Proof.
  revert i chdir. induction words as [words IH] using (induction_ltof1 _ (@length _)); intros i chdir.
  destruct words as [|tok rest]; simpl; [done|].
  assert (∀ l j o, length l < length (tok :: rest) → i ≤ j → i ≤ (env_scan_from l j o).2) as Hstep.
  { intros l j o Hl Hj. etransitivity; [exact Hj|]. by apply IH. }
  repeat case_match; simpl; try lia; apply Hstep; simpl; lia.
Qed.

Lemma wrapper_inner_index_pos h cmd i : wrapper_inner_index h cmd = Some i → 1 ≤ i.
Proof.
  pose proof (λ v, skip_flags_ge v (drop 1 cmd) 1) as Hs.
  unfold wrapper_inner_index, skip_operand. intros H.
  repeat case_match; simplify_eq; try done; try apply Hs; try lia.
  apply env_scan_from_ge.
Qed.

(** Stripping keeps a non-empty proper suffix. *)
Lemma strip_wrapper_suffix cmd inner :
  strip_wrapper_command cmd = Some inner →
  inner ≠ [] ∧ ∃ k, 1 ≤ k ∧ k < length cmd ∧ inner = drop k cmd.
Proof.
  unfold strip_wrapper_command. intros (f & Hf & H)%bind_Some.
  apply bind_Some in H as (i & Hi & H). apply bind_Some in H as (inn & Hg & H).
  case_bool_decide as Hn; [done|]. injection H as <-. split; [done|].
  unfold get_from in Hg. case_bool_decide as Hle; [|done]. injection Hg as <-.
  exists i. split_and!; [by eapply wrapper_inner_index_pos| |done].
  destruct (decide (i < length cmd)); [done|]. destruct Hn. apply drop_ge. lia.
Qed.

Lemma strip_wrapper_is_wrapper cmd inner :
  strip_wrapper_command cmd = Some inner → is_wrapper_command cmd = true.
Proof.
  unfold strip_wrapper_command, is_wrapper_command. intros (f & -> & H)%bind_Some.
  apply bind_Some in H as (i & Hi & _). apply bool_decide_eq_true.
  unfold wrapper_inner_index in Hi. repeat (case_bool_decide; [set_solver|]). done.
Qed.

Lemma unwrap_n_suffix n cmd :
  ∃ k, unwrap_n n cmd = drop k cmd ∧ (cmd ≠ [] → unwrap_n n cmd ≠ []).
Proof.
  revert cmd. induction n as [|n IH]; intros cmd; simpl; [by exists 0|].
  destruct (strip_wrapper_command cmd) as [inner|] eqn:Hs; [|by exists 0].
  apply strip_wrapper_suffix in Hs as (Hne & k & _ & _ & ->).
  destruct (IH (drop k cmd)) as (k' & -> & Hn). exists (k + k'). rewrite drop_drop. split; [done|].
  intros _. rewrite <-drop_drop. by apply Hn.
Qed.

Lemma unwrap_n_fix n cmd : strip_wrapper_command (unwrap_n n cmd) = None → ∀ m, n ≤ m → unwrap_n m cmd = unwrap_n n cmd.
Proof.
  revert cmd. induction n as [|n IH]; intros cmd Hn m Hm; simpl in *.
  - destruct m; simpl; [done|]. by rewrite Hn.
  - destruct m as [|m]; [lia|]. simpl. destruct (strip_wrapper_command cmd); [|done].
    apply IH; [done|lia].
Qed.

(** Peeling the wrappers of a command leaves a non-empty suffix of its words
    that no peeling step shortens, when at most eight wrappers are nested: the
    command a wrapper runs is always what is classified. *)
Theorem unwrap_wrappers_complete words inner n :
  unwrap_n n words = inner → strip_wrapper_command inner = None → n ≤ 8 → words ≠ [] →
  unwrap_wrappers words = inner ∧ inner ≠ [] ∧ ∃ k, inner = drop k words.
Proof.
  intros <- Hfix Hn Hw. unfold unwrap_wrappers. split_and!.
  - by apply unwrap_n_fix.
  - destruct (unwrap_n_suffix n words) as (_ & _ & H). by apply H.
  - destruct (unwrap_n_suffix n words) as (k & H & _). eauto.
Qed.

Lemma unwrap_wrappers_complete_witness :
  unwrap_wrappers ["/usr/bin/env"; "-C"; "/tmp"; "A=1"; "timeout"; "-k"; "5"; "30"; "rm"; "-rf"; "/"]
    = ["rm"; "-rf"; "/"].
Proof.
  apply (unwrap_wrappers_complete _ _ 2);
    [by vm_compute|by vm_compute|lia|done].
Defined.

(** A wrapper that [unwrap_wrappers] peels disappears without a trace. *)
Lemma unwrap_wrappers_strip words inner :
  strip_wrapper_command words = Some inner → strip_wrapper_command (unwrap_n 7 inner) = None →
  unwrap_wrappers words = unwrap_wrappers inner.
Proof.
  intros Hs Hfix. unfold unwrap_wrappers. rewrite (unwrap_n_fix 7 inner) by (done || lia).
  change (unwrap_n 8 words) with
    (match strip_wrapper_command words with Some inner => unwrap_n 7 inner | None => words end).
  by rewrite Hs.
Qed.

(** [env -S STRING] runs the command in STRING, but the option scanner skips
    STRING as an option value and takes the first operand, an argument of the real
    command, for the program: the command is classified as running [ls]. *)
Theorem env_split_string_hides_command (script : string) :
  unwrap_wrappers ["env"; "-S"; script; "ls"] = ["ls"].
Proof. by vm_compute. Qed.

End Wrappers.

Module Export Operands.

Inductive ShellFileMode : Type := Read | Write.

#[export] Instance ShellFileMode_eq_dec : EqDecision ShellFileMode.
Proof. solve_decision. Defined.

Definition reader_programs : list string :=
  ["cat"; "tac"; "nl"; "head"; "tail"; "grep"; "egrep"; "fgrep"; "rg"; "sed";
   "awk"; "less"; "more"; "bat"; "strings"; "xxd"; "od"; "hexdump"; "base64";
   "base32"; "cut"; "sort"; "uniq"; "wc"; "type"; "get-content"; "gc"; "diff";
   "comm"; "rev"; "jq"; "yq"; "select-string"; "sls"; "ag"; "ack"; "zcat";
   "zless"; "zmore"; "zgrep"; "zegrep"; "zfgrep"; "bzcat"; "bzgrep"; "xzcat";
   "xzgrep"; "zstdcat"; "lz4cat"].

Definition writer_programs : list string :=
  ["tee"; "set-content"; "out-file"; "add-content"; "tee-object"; "truncate"].

Definition shell_file_mode (program : string) : option ShellFileMode :=
  if bool_decide (program ∈ reader_programs) then Some Read
  else if bool_decide (program ∈ writer_programs) then Some Write
  else None.

Definition shell_sed_in_place (words : list string) : bool :=
  existsb (λ word,
    bool_decide (word = "--in-place") || starts_with "--in-place=" word ||
    (starts_with "-" word && negb (starts_with "--" word) && contains_byte "i"%char word))
    (drop 1 words).

(** The tokens of [words] paired with the token that follows each. *)
Fixpoint with_next (words : list string) : list (string * option string) :=
  match words with
  | [] => []
  | w :: rest => (w, head rest) :: with_next rest
  end.

(** [Option::filter(|v| !v.is_empty())]. *)
Definition nonempty (o : option string) : option string :=
  v ← o; if is_empty v then None else Some v.

(** [Option::or_else]. *)
Definition or_else {A} (a b : option A) : option A := match a with Some _ => a | None => b end.

Definition output_flag_value (token : string) (next : option string) : option string :=
  or_else (strip_prefix "--output=" token)
    (or_else (nonempty (strip_prefix "-o" token))
      (if bool_decide (token = "--output") || bool_decide (token = "-o") then next else None)).

Definition shell_output_flag_values (words : list string) : list string :=
  omap (λ '(token, next), output_flag_value token next) (with_next words).

Definition flag_value (flag token : string) (next : option string) : option string :=
  match strip_prefix (flag +:+ "=") token with
  | Some value => Some value
  | None =>
      if bool_decide (token = flag) then next
      else if negb (starts_with "--" flag) then nonempty (strip_prefix flag token)
      else None
  end.

Definition value_flag_values (words : list string) (flag : string) : list string :=
  omap (λ '(token, next), flag_value flag token next) (with_next words).

(** The loop of [shell_file_candidates] over the words after the program. *)
Fixpoint candidates_from (end_of_options : bool) (words : list string) : list string :=
  match words with
  | [] => []
  | token :: rest =>
      if negb end_of_options && bool_decide (token = "--") then candidates_from true rest
      else if end_of_options || (negb (bool_decide (token = "-")) && negb (starts_with "-" token))
      then token :: candidates_from end_of_options rest
      else candidates_from end_of_options rest
  end.

Definition shell_file_candidates (words : list string) : list string :=
  candidates_from false (drop 1 words).

Definition dd_operand (token : string) : option (string * ShellFileMode) :=
  or_else ((λ path, (path, Read)) <$> strip_prefix "if=" token)
    ((λ path, (path, Write)) <$> strip_prefix "of=" token).

Definition as_writes (paths : list string) : list (string * ShellFileMode) :=
  (λ p, (p, Write)) <$> paths.

Definition special_file_operands (program : string) (words : list string)
    : list (string * ShellFileMode) :=
  if bool_decide (program = "dd") then omap dd_operand (drop 1 words)
  else if bool_decide (program ∈ ["sort"; "go"; "git"]) then as_writes (shell_output_flag_values words)
  else if bool_decide (program = "rustc") then
    as_writes (shell_output_flag_values words ++ value_flag_values words "--out-dir")
  else if bool_decide (program = "rustfmt") then as_writes (shell_file_candidates words)
  else [].

(** [slice::split_last]. *)
Definition split_last {A} (l : list A) : option (A * list A) :=
  match reverse l with [] => None | x :: r => Some (x, reverse r) end.

Definition shell_path_command_operands (program : string) (words : list string)
    : option (list (string * ShellFileMode)) :=
  if bool_decide (program ∈ ["cp"; "mv"; "ln"; "install"]) then
    '(dest, sources) ← split_last (shell_file_candidates words);
    Some (((λ s, (s, Read)) <$> sources) ++ [(dest, Write)])
  else if bool_decide (program ∈ ["rm"; "rmdir"; "mkdir"; "touch"]) then
    Some (as_writes (shell_file_candidates words))
  else if bool_decide (program = "uniq") then
    match shell_file_candidates words with
    | input :: output :: _ => Some [(input, Read); (output, Write)]
    | _ => None
    end
  else None.

Definition written (ops : list (string * ShellFileMode)) : list string :=
  omap (λ '(p, m), match m with Write => Some p | Read => None end) ops.

Definition command_words_write_paths (words : list string) : list string :=
  let inner := unwrap_wrappers words in
  match head inner with
  | None => []
  | Some w =>
      let program := to_ascii_lowercase (shell_program_name w) in
      let out := written (special_file_operands program inner) in
      match shell_path_command_operands program inner with
      | Some operands => out ++ written operands
      | None =>
          let writes_operands := bool_decide (shell_file_mode program = Some Write) ||
                                 (bool_decide (program = "sed") && shell_sed_in_place inner) in
          if writes_operands then out ++ shell_file_candidates inner else out
      end
  end.

Definition shell_arg_is_ambiguous (token : string) : bool :=
  contains_byte "*"%char token || contains_byte "?"%char token || contains_byte "["%char token.

Definition is_directory_operand (token : string) : bool :=
  bool_decide (token = ".") || bool_decide (token = "..") || ends_with "/" token.

Definition shell_reader_can_recurse (program : string) (words candidates : list string) : bool :=
  let grep_recursive :=
    bool_decide (program ∈ ["grep"; "egrep"; "fgrep"]) &&
    existsb (λ word,
      bool_decide (word = "--recursive") || bool_decide (word = "--dereference-recursive") ||
      (starts_with "-" word && negb (starts_with "--" word) &&
       (contains_byte "r"%char word || contains_byte "R"%char word))) words in
  let searches_dir :=
    bool_decide (program ∈ ["rg"; "ag"; "ack"]) &&
    (bool_decide (length candidates ≤ 1) || existsb is_directory_operand (drop 1 candidates)) in
  grep_recursive || searches_dir.

(** ** What counts as an operand *)

Definition is_option (token : string) : bool := starts_with "-" token.

Lemma candidates_from_true words : candidates_from true words = words.
Proof. induction words as [|w ws IH]; simpl; [done|]. by rewrite IH. Qed.

Lemma dash_is_option token : negb (bool_decide (token = "-")) && negb (starts_with "-" token) = negb (is_option token).
Proof. unfold is_option. destruct (decide (token = "-")) as [->|]; [done|]. by rewrite bool_decide_eq_false_2. Qed.

(** The operands of a command are the words before the first [--] that do not
    look like options, followed by every word after it, in order. *)
Theorem shell_file_candidates_split prog before after :
  "--" ∉ before →
  shell_file_candidates (prog :: before ++ "--" :: after) =
  filter (λ t, is_option t = false) before ++ after.
Proof.
  intros Hb. unfold shell_file_candidates. simpl. rewrite drop_0.
  induction before as [|w ws IH]; simpl; [apply candidates_from_true|].
  apply not_elem_of_cons in Hb as [Hw Hb].
  rewrite (bool_decide_eq_false_2 (w = "--")) by congruence. rewrite dash_is_option. simpl.
  rewrite filter_cons. destruct (is_option w); simpl; [by apply IH|]. by rewrite IH.
Qed.

Lemma shell_file_candidates_split_witness :
  shell_file_candidates ["rm"; "-r"; "a"; "--"; "-/../.env"] = ["a"; "-/../.env"].
Proof.
  apply (shell_file_candidates_split "rm" ["-r"; "a"] ["-/../.env"]).
  apply (bool_decide_unpack _). by vm_compute.
Defined.

(** A wrapper hides no write: the paths a wrapped command writes are those
    the inner command writes. *)
Theorem command_words_write_paths_wrapper words inner :
  strip_wrapper_command words = Some inner → strip_wrapper_command (unwrap_n 7 inner) = None →
  command_words_write_paths words = command_words_write_paths inner.
Proof.
  intros Hs Hfix. unfold command_words_write_paths. by rewrite (unwrap_wrappers_strip words inner).
Qed.

Lemma command_words_write_paths_wrapper_witness :
  command_words_write_paths ["timeout"; "5"; "nice"; "-n"; "3"; "cp"; "a"; "b"; "/etc/x"] =
  command_words_write_paths ["nice"; "-n"; "3"; "cp"; "a"; "b"; "/etc/x"] ∧
  command_words_write_paths ["nice"; "-n"; "3"; "cp"; "a"; "b"; "/etc/x"] = ["/etc/x"].
Proof.
  split; [|by vm_compute].
  apply command_words_write_paths_wrapper; by vm_compute.
Defined.

End Operands.

Module Export Paths.

Definition is_colon_at_1 (path : string) : bool :=
  match path with String _ (String b _) => bool_decide (b = ":"%char) | _ => false end.

(** [path.split_at(prefix_len)]: the drive prefix, if any, and the rest. *)
Definition split_drive (path : string) : string * string :=
  match path with
  | String a (String b rest) =>
      if bool_decide (b = ":"%char) then (String a (String b ""), rest) else ("", path)
  | _ => ("", path)
  end.

Definition normalize_step (absolute : bool) (out : list string) (segment : string) : list string :=
  if bool_decide (segment = "") || bool_decide (segment = ".") then out
  else if bool_decide (segment = "..") then
    match last out with
    | Some s => if negb (bool_decide (s = "..")) then removelast out
                else if negb absolute then out ++ [".."] else out
    | None => if negb absolute then out ++ [".."] else out
    end
  else out ++ [segment].

Definition normalize_segments (absolute : bool) (segments : list string) : list string :=
  fold_left (normalize_step absolute) segments [].

Definition lexical_normalize (path : string) : string :=
  let '(prefix, rest) := split_drive path in
  let absolute := starts_with "/" rest in
  let body := join "/" (normalize_segments absolute (split_on "/"%char rest)) in
  match is_empty prefix, absolute, is_empty body with
  | false, true, false => prefix +:+ "/" +:+ body
  | false, true, true => prefix +:+ "/"
  | false, false, _ => prefix +:+ body
  | true, true, false => "/" +:+ body
  | true, true, true => "/"
  | true, false, _ => body
  end.

Definition is_quote (c : string) : bool := bool_decide (c = quote_str) || bool_decide (c = "'").

Definition normalize_shell_path_raw (path : string) : string :=
  let p := replace_byte "\"%char "/"%char (trim_by is_quote path) in
  match strip_prefix "/c/" p with
  | Some rest => "C:/" +:+ rest
  | None => p
  end.

Definition normalize_shell_path (path : string) : string :=
  lexical_normalize (normalize_shell_path_raw path).

Definition is_absolute_shell_path (path : string) : bool :=
  starts_with "/" path || starts_with "~/" path || is_colon_at_1 path.

(** ** The meaning of a path *)

(** Following one segment from a directory, given as its segments below the
    root: the parent of the root is the root. *)
Definition walk (dir : list string) (segment : string) : list string :=
  if bool_decide (segment = "") || bool_decide (segment = ".") then dir
  else if bool_decide (segment = "..") then removelast dir
  else dir ++ [segment].

(** The directory a path names, seen from [cwd]. *)
Definition walk_path (absolute : bool) (cwd segments : list string) : list string :=
  fold_left walk segments (if absolute then [] else cwd).

(** Normal form: real names only, [..] only as a leading run of a relative path. *)
Definition ordinary (s : string) : Prop := s ≠ "" ∧ s ≠ "." ∧ s ≠ "..".
Definition normal (absolute : bool) (segs : list string) : Prop :=
  ∃ n names, segs = replicate n ".." ++ names ∧ Forall ordinary names ∧ (absolute = true → n = 0).

Lemma ordinary_walk s dir : ordinary s → walk dir s = dir ++ [s].
Proof.
  intros (H1 & H2 & H3). unfold walk. rewrite !bool_decide_eq_false_2 by done. done.
Qed.

Lemma ordinary_step a out s : ordinary s → normalize_step a out s = out ++ [s].
Proof.
  intros (H1 & H2 & H3). unfold normalize_step. rewrite !bool_decide_eq_false_2 by done. done.
Qed.

Lemma segment_cases (s : string) : s = "" ∨ s = "." ∨ s = ".." ∨ ordinary s.
Proof.
  unfold ordinary. destruct (decide (s = "")); [by left|]. destruct (decide (s = ".")); [by right; left|].
  destruct (decide (s = "..")); [by right; right; left|]. naive_solver.
Qed.

Lemma last_replicate {A} n (x : A) : last (replicate (S n) x) = Some x.
Proof. induction n as [|n IH]; [done|]. by rewrite replicate_S, last_cons, IH. Qed.

(** What [..] does to a normal form. *)
Lemma step_dotdot a n names :
  Forall ordinary names → (a = true → n = 0) →
  normalize_step a (replicate n ".." ++ names) ".." =
    match last names with
    | Some _ => replicate n ".." ++ removelast names
    | None => if a then [] else replicate (S n) ".."
    end.
Proof.
  intros Hn Ha. unfold normalize_step. simpl.
  induction names as [|x names _] using rev_ind.
  - rewrite app_nil_r. simpl. destruct a; simpl.
    + by rewrite Ha.
    + destruct n as [|n]; [done|]. rewrite last_replicate. simpl.
      by rewrite <-replicate_cons_app.
  - rewrite app_assoc, !last_snoc, !removelast_last. apply Forall_app in Hn as [_ Hx].
    rewrite Forall_singleton in Hx. destruct Hx as (_ & _ & Hx). rewrite bool_decide_eq_false_2 by done. done.
Qed.

Lemma normalize_step_normal a out s : normal a out → normal a (normalize_step a out s).
Proof.
  intros (n & names & -> & Hn & Ha).
  destruct (segment_cases s) as [-> |[-> |[-> |Hs]]].
  - by exists n, names.
  - by exists n, names.
  - rewrite step_dotdot by done. destruct (last names) as [x|] eqn:Hl.
    + exists n, (removelast names). split_and!; [done| |done].
      apply last_Some in Hl as [l ->]. rewrite removelast_last. by apply Forall_app in Hn as [? _].
    + destruct a; [by exists 0, []|]. exists (S n), []. by rewrite app_nil_r.
  - rewrite ordinary_step by done. exists n, (names ++ [s]). rewrite app_assoc. split_and!; [done| |done].
    apply Forall_app. by rewrite Forall_singleton.
Qed.

Lemma normalize_segments_normal a segs : normal a (normalize_segments a segs).
Proof.
  unfold normalize_segments. apply fold_left_inv; [by exists 0, []|].
  intros. by apply normalize_step_normal.
Qed.

Lemma walk_step a cwd out s :
  normal a out → fold_left walk (normalize_step a out s) (if a then [] else cwd)
  = walk (fold_left walk out (if a then [] else cwd)) s.
Proof.
  intros (n & names & -> & Hn & Ha).
  destruct (segment_cases s) as [-> |[-> |[-> |Hs]]]; [done|done| |].
  - rewrite step_dotdot by done. destruct (last names) as [x|] eqn:Hl.
    + apply last_Some in Hl as [l ->]. rewrite removelast_last, app_assoc.
      rewrite (fold_left_app walk _ [x]). simpl. apply Forall_app in Hn as [_ Hx].
      rewrite Forall_singleton in Hx. rewrite (ordinary_walk x) by done.
      unfold walk at 2. simpl. by rewrite removelast_last.
    + apply last_None in Hl as ->. destruct a; [by rewrite Ha|].
      rewrite app_nil_r, replicate_S_end, fold_left_app. done.
  - rewrite ordinary_step, fold_left_app by done. done.
Qed.

Lemma normalize_segments_walk a cwd segs :
  walk_path a cwd (normalize_segments a segs) = walk_path a cwd segs.
Proof.
  unfold walk_path, normalize_segments.
  induction segs as [|s segs IH] using rev_ind; [done|].
  rewrite !fold_left_app. simpl. rewrite walk_step by apply normalize_segments_normal.
  by rewrite IH.
Qed.

Lemma normalize_segments_id a segs : normal a segs → normalize_segments a segs = segs.
Proof.
  intros (n & names & -> & Hn & Ha). unfold normalize_segments. rewrite fold_left_app.
  assert (fold_left (normalize_step a) (replicate n "..") [] = replicate n "..") as ->.
  { destruct a; [by rewrite Ha|]. clear. induction n as [|n IH]; [done|].
    rewrite replicate_S_end, fold_left_app, IH. simpl.
    pose proof (step_dotdot false n [] (Forall_nil_2 _)) as H. rewrite app_nil_r in H.
    by rewrite H, replicate_S_end. }
  generalize (replicate n ".."). induction names as [|x names IH]; intros out; simpl; [by rewrite app_nil_r|].
  apply Forall_cons in Hn as [Hx Hn]. rewrite ordinary_step, IH by done. by rewrite <-app_assoc.
Qed.

Lemma lexical_normalize_eq path prefix rest :
  split_drive path = (prefix, rest) →
  lexical_normalize path =
  prefix +:+ (if starts_with "/" rest then "/" else "") +:+
  join "/" (normalize_segments (starts_with "/" rest) (split_on "/"%char rest)).
Proof.
  intros E. unfold lexical_normalize. rewrite E.
  destruct prefix, (starts_with "/" rest), (join "/" _); simpl; by rewrite ?app_nil_r_str.
Qed.

(** Normalising a shell path keeps its drive prefix and its root, leaves no
    empty or [.] segment, keeps [..] only as the leading run of a relative path
    (never under a root), and names the same directory from every working
    directory. *)
Theorem lexical_normalize_canonical path :
  let '(prefix, rest) := split_drive path in
  let absolute := starts_with "/" rest in
  ∃ segs, lexical_normalize path = prefix +:+ (if absolute then "/" else "") +:+ join "/" segs ∧
    normal absolute segs ∧
    (∀ cwd, walk_path absolute cwd segs = walk_path absolute cwd (split_on "/"%char rest)).
Proof.
  destruct (split_drive path) as [prefix rest] eqn:E.
  eexists. split; [by apply lexical_normalize_eq|]. split; [apply normalize_segments_normal|].
  intros cwd. apply normalize_segments_walk.
Qed.

(** Segments of a normalised path come from the path. *)
Lemma normalize_segments_Forall (P : string → Prop) a segs :
  P ".." → Forall P segs → Forall P (normalize_segments a segs).
Proof.
  intros Hdd Hall. unfold normalize_segments. apply fold_left_inv; [by constructor|].
  rewrite Forall_forall in Hall. intros out s Hs Hout. unfold normalize_step.
  assert (Forall P (removelast out)) by (destruct out as [|x out _] using rev_ind;
    [done|rewrite removelast_last; by apply Forall_app in Hout as [? _]]).
  repeat case_match; try done; apply Forall_app; rewrite Forall_singleton; auto.
Qed.

Definition not_colon (a : ascii) : bool := negb (bool_decide (a = ":"%char)).

Lemma split_drive_no_colon path : bytes_all not_colon path = true → split_drive path = ("", path).
Proof.
  destruct path as [|a [|b path]]; [done|done|]. simpl.
  intros (_ & H & _)%andb_prop%(λ '(conj x y), conj x (andb_prop _ _ y)).
  unfold not_colon in H. by destruct (bool_decide (b = ":"%char)).
Qed.

Lemma join_starts_slash segs :
  Forall (λ w, contains_byte "/"%char w = false) segs → "" ∉ segs →
  starts_with "/" (join "/" segs) = false.
Proof.
  intros Hall Hne. destruct segs as [|w segs]; [done|].
  apply not_elem_of_cons in Hne as [Hw _]. apply Forall_cons in Hall as [Hc _].
  destruct w as [|a w]; [done|]. unfold contains_byte in Hc.
  rewrite bytes_any_cons, orb_false_iff in Hc. destruct Hc as [Ha%bool_decide_eq_false _].
  apply not_true_iff_false. rewrite starts_with_spec. intros [t Ht].
  destruct segs; simpl in Ht; injection Ht; congruence.
Qed.

(** Normalising twice is normalising once, for paths without a colon. *)
Theorem lexical_normalize_idempotent path :
  bytes_all not_colon path = true →
  lexical_normalize (lexical_normalize path) = lexical_normalize path.
Proof.
  intros Hc. rewrite (lexical_normalize_eq path "" path) by by apply split_drive_no_colon.
  rewrite !app_nil_l_str. set (a := starts_with "/" path). set (segs := normalize_segments a _).
  assert (Forall (λ w, contains_byte "/"%char w = false) segs) as Hs
    by (apply normalize_segments_Forall; [done|apply split_on_pieces]).
  assert (bytes_all not_colon (join "/" segs) = true) as Hj.
  { apply join_bytes; [done|]. apply normalize_segments_Forall; [done|]. by apply split_on_bytes. }
  assert (normal a segs) as Hn by apply normalize_segments_normal.
  assert ("" ∉ segs) as He.
  { destruct Hn as (n & names & -> & Hn & _). rewrite elem_of_app, elem_of_replicate.
    rewrite Forall_forall in Hn. intros [[? _]|H%Hn]; [done|by destruct H]. }
  assert (Hout : lexical_normalize ((if a then "/" else "") +:+ join "/" segs)
    = (if starts_with "/" ((if a then "/" else "") +:+ join "/" segs) then "/" else "") +:+
      join "/" (normalize_segments (starts_with "/" ((if a then "/" else "") +:+ join "/" segs))
        (split_on "/"%char ((if a then "/" else "") +:+ join "/" segs)))).
  { rewrite (lexical_normalize_eq _ "" ((if a then "/" else "") +:+ join "/" segs)); [done|].
    apply split_drive_no_colon. rewrite bytes_all_app, Hj. by destruct a. }
  rewrite Hout. clear Hout. destruct a.
  - change ("/" +:+ join "/" segs) with (String "/"%char (join "/" segs)).
    replace (starts_with "/" (String "/"%char (join "/" segs))) with true
      by (symmetry; apply starts_with_spec; by exists (join "/" segs)).
    do 2 f_equal.
    change (split_on "/"%char (String "/"%char (join "/" segs))) with ("" :: split_on "/"%char (join "/" segs)).
    change (normalize_segments true ("" :: split_on "/"%char (join "/" segs)))
      with (normalize_segments true (split_on "/"%char (join "/" segs))).
    destruct (decide (segs = [])) as [->|Hne]; [done|].
    rewrite split_on_join by done. by rewrite normalize_segments_id.
  - rewrite !app_nil_l_str. rewrite join_starts_slash by done. rewrite app_nil_l_str. f_equal.
    destruct (decide (segs = [])) as [->|Hne]; [done|].
    rewrite split_on_join by done. by rewrite normalize_segments_id.
Qed.

Lemma lexical_normalize_idempotent_witness :
  lexical_normalize "/a//../../b/./c/" = "/b/c" ∧
  lexical_normalize (lexical_normalize "/a//../../b/./c/") = "/b/c".
Proof. split; [by vm_compute|]. rewrite lexical_normalize_idempotent; by vm_compute. Defined.

End Paths.

Module Export Display.

Definition setup_names : list string :=
  ["cd"; "pushd"; "popd"; "export"; "unset"; "set"; "source"; "."; "sleep"; "timeout"].

Definition is_setup_command (cmd : list string) : bool :=
  match cmd with [] => true | c :: _ => bool_decide (c ∈ setup_names) end.

(** The loop of [sh_split_simple] over the remaining characters. *)
Fixpoint sh_split_from (cs : list string) (in_single in_double : bool) (current : string)
    : list string :=
  match cs with
  | [] => if is_empty current then [] else [current]
  | c :: rest =>
      if bool_decide (c = "'") && negb in_double then
        sh_split_from rest (negb in_single) in_double current
      else if bool_decide (c = quote_str) && negb in_single then
        sh_split_from rest in_single (negb in_double) current
      else if bool_decide (c = "\") then
        match rest with
        | [] => if is_empty current then [] else [current]
        | next :: rest' => sh_split_from rest' in_single in_double (current +:+ next)
        end
      else if is_whitespace c && negb in_single && negb in_double then
        if is_empty current then sh_split_from rest in_single in_double current
        else current :: sh_split_from rest in_single in_double ""
      else sh_split_from rest in_single in_double (current +:+ c)
  end.

Definition sh_split_simple (s : string) : list string := sh_split_from (chars s) false false "".

(** The slices of [text] that end at the offsets of [breaks], from [start] on. *)
Fixpoint slices_from (text : string) (start : nat) (breaks : list nat) : list string :=
  match breaks with
  | [] => if bool_decide (start < String.length text) then [str_drop start text] else []
  | b :: rest =>
      if bool_decide (start < b) then slice start b text :: slices_from text b rest
      else slices_from text start rest
  end.

Definition relative_breaks (line : string) (line_start : nat) (breaks : list nat) : list nat :=
  let line_end := line_start + String.length line in
  dedup (filter (λ b, is_char_boundary line b = true)
    ((λ b, b - line_start) <$> filter (λ b, line_start < b ∧ b < line_end) breaks)).

Definition split_physical_line_at_soft_breaks (line : string) (line_start : nat) (breaks : list nat)
    : list string :=
  match relative_breaks line line_start breaks with
  | [] => [line]
  | rel => match slices_from line 0 rel with [] => [line] | chunks => chunks end
  end.

Definition range_fully_inside (start end_ : nat) (ranges : list (nat * nat)) : bool :=
  if bool_decide (end_ < start) then false
  else existsb (λ '(rs, re), bool_decide (rs ≤ start) && bool_decide (end_ ≤ re)) ranges.

Lemma elem_of_dedup_from prev l x : x ∈ dedup_from prev l → x ∈ l.
Proof.
  revert prev. induction l as [|y l IH]; intros prev; simpl; [done|].
  case_bool_decide; [intros ?%IH; by right|]. rewrite !elem_of_cons. naive_solver.
Qed.

Lemma elem_of_dedup l x : x ∈ dedup l → x ∈ l.
Proof. destruct l; simpl; [done|]. rewrite !elem_of_cons. pose proof elem_of_dedup_from. naive_solver. Qed.

Lemma concat_slices_from text start breaks :
  Forall (λ b, b ≤ String.length text) breaks →
  concat_str (slices_from text start breaks) = str_drop start text.
Proof.
  revert start. induction breaks as [|b breaks IH]; intros start Hb; simpl.
  - case_bool_decide as H; simpl; [apply app_nil_r_str|].
    pose proof (length_str_drop start text) as Hl.
    destruct (str_drop start text); [done|]. simpl in Hl. lia.
  - apply Forall_cons in Hb as [Hb1 Hb]. case_bool_decide as H; [|by apply IH].
    simpl. rewrite IH by done. apply slice_drop. lia.
Qed.

(** Cutting a line at soft breaks loses and moves nothing: the pieces joined
    back are the line, whatever the offsets are. *)
Theorem split_physical_line_concat line line_start breaks :
  concat_str (split_physical_line_at_soft_breaks line line_start breaks) = line.
Proof.
  unfold split_physical_line_at_soft_breaks.
  destruct (relative_breaks line line_start breaks) as [|b rel] eqn:E; [apply app_nil_r_str|].
  pose proof (concat_slices_from line 0 (b :: rel)) as Hc.
  destruct (slices_from line 0 (b :: rel)); [apply app_nil_r_str|]. rewrite Hc; [by destruct line|].
  rewrite <-E. apply Forall_forall. unfold relative_breaks. intros x Hx%elem_of_dedup.
  apply list_elem_of_filter in Hx as [_ Hx]. apply list_elem_of_fmap in Hx as (y & -> & Hy).
  apply list_elem_of_filter in Hy as [Hy _]. lia.
Qed.

(** ** Splitting quoted words *)

(** A character that single quotes protect. *)
Definition quotable (a : ascii) : bool :=
  byte_in 0 127 a && negb (bool_decide (a = "'"%char)) && negb (bool_decide (a = "\"%char)).

Definition single_quoted (w : string) : string := "'" +:+ w +:+ "'".

Lemma sh_split_in_quotes w rest acc :
  bytes_all quotable w = true →
  sh_split_from (chars w ++ rest) true false acc = sh_split_from rest true false (acc +:+ w).
Proof.
  revert acc. induction w as [|a w IH]; intros acc Hw; [by rewrite app_nil_r_str|].
  rewrite chars_ascii by (revert Hw; apply bytes_all_impl; intros b;
    unfold quotable; rewrite !andb_true_iff; naive_solver).
  simpl in Hw. apply andb_prop in Hw as [Ha Hw]. unfold quotable in Ha.
  apply andb_prop in Ha as [[_ Hq%negb_true_iff%bool_decide_eq_false]%andb_prop
    Hb%negb_true_iff%bool_decide_eq_false].
  simpl. rewrite (bool_decide_eq_false_2 (String a "" = "'")) by congruence.
  rewrite (bool_decide_eq_false_2 (String a "" = "\")) by congruence.
  rewrite andb_false_r. simpl. rewrite !andb_false_r. simpl. rewrite IH by done.
  by rewrite <-app_assoc_str.
Qed.

Lemma single_quoted_ascii w : bytes_all quotable w = true → bytes_all ascii_byte (single_quoted w) = true.
Proof.
  intros H. unfold single_quoted. rewrite !bytes_all_app. simpl. rewrite andb_true_r.
  revert H. apply bytes_all_impl. intros b. unfold quotable. rewrite !andb_true_iff. naive_solver.
Qed.

Lemma sh_split_single_quoted w rest :
  bytes_all quotable w = true →
  sh_split_from (chars (single_quoted w) ++ rest) false false "" = sh_split_from rest false false w.
Proof.
  intros Hw. pose proof (single_quoted_ascii w Hw) as Ha. unfold single_quoted in *.
  rewrite chars_ascii_app in * by done.
  assert (bytes_all ascii_byte (w +:+ "'") = true) as Hw'
    by (rewrite bytes_all_app in Ha; by apply andb_prop in Ha as [_ ?]).
  rewrite (chars_ascii_app w) by done. rewrite <-!app_assoc.
  change (chars "'" ++ chars w ++ chars "'" ++ rest) with ("'" :: chars w ++ chars "'" ++ rest).
  simpl. rewrite sh_split_in_quotes by done. done.
Qed.

(** [sh_split_simple] inverts quoting: a list of non-empty words, each in
    single quotes and separated by spaces, splits back into those words. *)
Theorem sh_split_simple_quoted ws :
  Forall (λ w, w ≠ "" ∧ bytes_all quotable w = true) ws →
  sh_split_simple (join " " (single_quoted <$> ws)) = ws.
Proof.
  unfold sh_split_simple. induction ws as [|w [|w' ws] IH]; intros Hall; [done| |].
  - apply Forall_singleton in Hall as [Hne Hw].
    change (join " " (single_quoted <$> [w])) with (single_quoted w).
    rewrite <-(app_nil_r (chars (single_quoted w))), sh_split_single_quoted by done.
    by destruct w.
  - apply Forall_cons in Hall as [[Hne Hw] Hall]. specialize (IH Hall).
    set (tail := join " " (single_quoted <$> w' :: ws)) in *.
    change (join " " (single_quoted <$> w :: w' :: ws)) with (single_quoted w +:+ " " +:+ tail).
    assert (bytes_all ascii_byte tail = true) as Ht.
    { apply join_bytes; [done|]. apply Forall_fmap. eapply Forall_impl; [exact Hall|].
      intros x [_ Hx]. by apply single_quoted_ascii. }
    rewrite chars_ascii_app by (by rewrite !bytes_all_app, single_quoted_ascii, Ht).
    rewrite sh_split_single_quoted by done.
    rewrite (chars_ascii_app " ") by (by rewrite bytes_all_app, Ht).
    destruct w; [done|]. simpl. by rewrite IH.
Qed.

Lemma sh_split_simple_quoted_witness :
  sh_split_simple "'cargo' 'run --bin' 'a b'" = ["cargo"; "run --bin"; "a b"].
Proof.
  apply (sh_split_simple_quoted ["cargo"; "run --bin"; "a b"]).
  apply (bool_decide_unpack _). by vm_compute.
Defined.

End Display.
