(* ===== verification/Programs.v ===== *)
(** Program tables and the classification of one command (crate [ainxt-intent],
    file [programs.rs]): which capabilities a program name, its subcommands and
    its arguments stand for. *)
From S2P Require Import Prelude RustStr ShellWords Intent.
Import Cap.

Module Export Tables.

Definition NETWORK : list string :=
  ["curl"; "wget"; "nc"; "ncat"; "netcat"; "telnet"; "ftp"; "sftp"; "scp"; "rsync"; "ssh";
   "aria2c"; "httpie"; "http"; "https"; "socat"; "openssl"; "nmap"; "masscan"; "ping"; "dig";
   "nslookup"; "host"; "traceroute"; "iperf"; "invoke-webrequest"; "invoke-restmethod";
   "start-bitstransfer"].

Definition DOWNLOAD : list string :=
  ["curl"; "wget"; "aria2c"; "httpie"; "http"; "invoke-webrequest"; "invoke-restmethod";
   "start-bitstransfer"].

Definition SHELL_INTERPRETER : list string :=
  ["bash"; "sh"; "zsh"; "dash"; "ksh"; "fish"; "csh"; "tcsh"; "eval"; "source"; "pwsh";
   "powershell"; "cmd"; "invoke-expression"; "iex"; "wscript"; "cscript"; "mshta"; "rundll32";
   "regsvr32"].

Definition PRIVILEGE : list string :=
  ["sudo"; "su"; "doas"; "pkexec"; "runas"; "gsudo"].

Definition DELETE : list string :=
  ["rm"; "rmdir"; "unlink"; "shred"; "srm"; "del"; "erase"; "remove-item"; "ri";
   "clear-content"].

Definition PROCESS_CONTROL : list string :=
  ["kill"; "pkill"; "killall"; "systemctl"; "service"; "launchctl"; "sc"; "taskkill";
   "stop-process"; "start-service"; "stop-service"; "shutdown"; "reboot"].

Definition CREDENTIAL : list string :=
  ["gpg"; "pass"; "vault"; "security"; "keyring"; "cmdkey"; "get-credential"; "aws-vault";
   "op"; "ssh-add"; "ssh-keygen"; "keytool"].

Definition PACKAGE_MANAGERS : list (string * list string) :=
  [("pip", ["install"; "download"; "wheel"]);
   ("pip3", ["install"; "download"; "wheel"]);
   ("uv", ["add"; "pip"; "sync"; "install"]);
   ("poetry", ["add"; "install"; "update"]);
   ("conda", ["install"; "create"; "update"]);
   ("npm", ["install"; "i"; "add"; "ci"; "exec"; "update"]);
   ("yarn", ["add"; "install"; "up"]);
   ("pnpm", ["add"; "install"; "i"; "dlx"; "update"]);
   ("npx", []);
   ("bun", ["add"; "install"; "i"]);
   ("cargo", ["install"; "add"; "fetch"]);
   ("go", ["get"; "install"; "download"]);
   ("gem", ["install"; "update"]);
   ("apt", ["install"; "update"; "upgrade"]);
   ("apt-get", ["install"; "update"; "upgrade"]);
   ("yum", ["install"; "update"]);
   ("dnf", ["install"; "update"]);
   ("zypper", ["install"; "update"]);
   ("pacman", ["-s"; "-sy"; "-syu"]);
   ("apk", ["add"; "update"]);
   ("brew", ["install"; "update"; "upgrade"; "tap"]);
   ("choco", ["install"; "upgrade"]);
   ("winget", ["install"; "upgrade"]);
   ("scoop", ["install"; "update"]);
   ("dotnet", ["restore"; "add"]);
   ("nuget", ["install"; "restore"]);
   ("mvn", []);
   ("gradle", []);
   ("composer", ["install"; "require"; "update"])].

Definition GIT_NETWORK : list string :=
  ["clone"; "fetch"; "pull"; "push"; "remote"; "submodule"; "ls-remote"; "archive";
   "request-pull"].

Definition GIT_DOWNLOAD : list string :=
  ["clone"; "fetch"; "pull"; "submodule"].

Definition GIT_WRITE : list string :=
  ["commit"; "push"; "checkout"; "switch"; "restore"; "merge"; "cherry-pick"; "revert";
   "apply"; "am"; "clean"; "add"; "stash"; "tag"].

Definition GIT_HISTORY : list string :=
  ["rebase"; "filter-branch"; "filter-repo"; "reset"; "gc"; "prune"].

Definition PUBLISH_SUBCOMMANDS : list (string * list string) :=
  [("npm", ["publish"]);
   ("yarn", ["publish"]);
   ("pnpm", ["publish"]);
   ("bun", ["publish"]);
   ("cargo", ["publish"]);
   ("gem", ["push"]);
   ("twine", ["upload"]);
   ("mvn", ["deploy"]);
   ("gradle", ["publish"]);
   ("dotnet", ["nuget"]);
   ("nuget", ["push"]);
   ("docker", ["push"]);
   ("poetry", ["publish"]);
   ("uv", ["publish"]);
   ("composer", ["publish"])].

Definition CREDENTIAL_PATHS : list string :=
  [".ssh/"; ".ssh\"; "id_rsa"; "id_ed25519"; "id_ecdsa"; "id_dsa"; ".aws/"; ".aws\";
   ".config/gcloud"; ".azure/"; ".azure\"; ".kube/config"; ".kube\config";
   ".docker/config.json"; ".npmrc"; ".pypirc"; ".netrc"; "_netrc"; ".git-credentials";
   ".gnupg/"; ".gnupg\"; "keychain"; "credentials.json"; ".ainxt/credentials";
   ".ainxt\credentials"; ".claude.json"; "secring"; "ntuser.dat"; "/etc/shadow";
   "/etc/sudoers"].

Definition SYSTEM_PATHS : list string :=
  ["/etc/"; "/usr/"; "/bin/"; "/sbin/"; "/boot/"; "/sys/"; "/proc/"; "/var/lib/"; "/library/";
   "/system/"; "c:\windows"; "c:/windows"; "c:\program files"; "c:/program files";
   "c:\programdata"; "hklm"; "hkey_local_machine"].

Definition CODE_INTERPRETERS : list string :=
  ["bash"; "sh"; "zsh"; "dash"; "ksh"; "fish"; "csh"; "tcsh"; "python"; "python2"; "python3";
   "perl"; "ruby"; "node"; "php"; "rscript"; "pwsh"; "powershell"; "cmd"].

Definition LAUNCHERS : list string :=
  ["sudo"; "doas"; "pkexec"; "runas"; "gsudo"; "nohup"; "setsid"; "exec"; "xargs"; "command";
   "builtin"; "time"; "watch"].

Definition LAUNCHER_VALUE_FLAGS : list string :=
  ["-u"; "--user"; "-g"; "--group"; "-p"; "--prompt"; "-C"; "-D"; "--chdir"; "-n"; "-I"].

Definition SCHEMES : list string :=
  ["http://"; "https://"; "ftp://"; "ftps://"; "ssh://"; "git://"; "git+https://";
   "git+ssh://"; "svn://"; "rsync://"].

End Tables.

Module Export Classify.

(** The text of [format!("`{program}`…")]. *)
Definition quoted (program : string) : string := "`" +:+ program +:+ "`".

Definition EXE_SUFFIXES : list string := [".exe"; ".cmd"; ".bat"; ".ps1"; ".com"].

(** The first suffix of the list that matches is stripped. *)
Fixpoint strip_first_suffix (suffixes : list string) (base : string) : string :=
  match suffixes with
  | [] => base
  | suf :: rest => match strip_suffix suf base with
                   | Some stripped => stripped
                   | None => strip_first_suffix rest base
                   end
  end.

Definition normalize_program (word : string) : string :=
  strip_first_suffix EXE_SUFFIXES (to_ascii_lowercase (shell_program_name word)).

(** [slice::contains]. *)
Definition mem (x : string) (l : list string) : bool := bool_decide (x ∈ l).

Definition has_subcommand (args candidates : list string) : bool :=
  match find (λ a, negb (starts_with "-" a)) args with
  | Some a => mem (to_ascii_lowercase a) candidates
  | None => false
  end.

Definition is_code_interpreter (program : string) : bool := mem program CODE_INTERPRETERS.

Definition is_downloader (program : string) (args : list string) : bool :=
  mem program DOWNLOAD || (bool_decide (program = "git") && has_subcommand args GIT_DOWNLOAD).

Definition is_dash_c (a : string) : bool := bool_decide (a = "-c") || bool_decide (a = "--command").

(** [position] of the first [-c], then the argument after it. *)
Definition dash_c_script (args : list string) : option string :=
  '(index, _) ← list_find (λ a, is_dash_c a = true) args; args !! (index + 1).

Definition has_flag (args flags : list string) : bool :=
  existsb (λ a, mem (to_ascii_lowercase a) flags) args.

Definition path_is_credential (path : string) : bool :=
  existsb (λ frag, contains frag (to_ascii_lowercase path)) CREDENTIAL_PATHS.
Definition path_is_system (path : string) : bool :=
  existsb (λ prefix, contains prefix (to_ascii_lowercase path)) SYSTEM_PATHS.

(** The words a launcher runs, from index [i] of its arguments on; [i] may pass
    the end when a flag misses its value. *)
Fixpoint launched_command (args : list string) : option (list string) :=
  match args with
  | [] => None
  | arg :: rest =>
      if bool_decide (arg = "--") then match rest with [] => None | _ => Some rest end
      else if negb (starts_with "-" arg) then Some args
      else if is_dash_c arg then None
      else if mem arg LAUNCHER_VALUE_FLAGS then
        match rest with [] => None | _ :: rest' => launched_command rest' end
      else launched_command rest
  end.

Definition as_url (arg : string) : option string :=
  let lower := to_ascii_lowercase arg in
  if existsb (λ s, starts_with s lower) SCHEMES then Some arg
  else match split_once ":"%char arg with
  | Some (userhost, _) =>
      match split_once "@"%char userhost with
      | Some (_, host) =>
          if contains_byte "."%char host && negb (contains_byte "/"%char host) then Some arg else None
      | None => None
      end
  | None => None
  end.

(** The tables that look at the program name alone. *)
Definition classify_name (program : string) (d : Derivation) : Derivation :=
  let d := when (mem program NETWORK)
    (λ d, add d NetworkConnect (quoted program +:+ " opens a network connection")) d in
  let d := when (mem program DOWNLOAD)
    (λ d, add d Download (quoted program +:+ " retrieves remote content")) d in
  let d := when (mem program SHELL_INTERPRETER)
    (λ d, add d ShellInterpretation (quoted program +:+ " interprets its input as code")) d in
  let d := when (mem program PRIVILEGE)
    (λ d, add d PrivilegeEscalation (quoted program +:+ " elevates privileges")) d in
  let d := when (mem program PROCESS_CONTROL)
    (λ d, add d ProcessControl (quoted program +:+ " controls processes or services")) d in
  let d := when (mem program CREDENTIAL)
    (λ d, add d CredentialAccess (quoted program +:+ " reads or manages secrets")) d in
  when (mem program DELETE) (λ d, add d FsDelete (quoted program +:+ " deletes files")) d.

(** [TABLE.iter().find(|(p, _)| *p == program)]. *)
Definition lookup_table (program : string) (table : list (string * list string)) : option (list string) :=
  snd <$> find (λ '(p, _), bool_decide (p = program)) table.

Definition installs (program : string) (args : list string) : bool :=
  match lookup_table program PACKAGE_MANAGERS with
  | Some subs => bool_decide (subs = []) || has_subcommand args subs
  | None => false
  end.

Definition classify_install (program : string) (args : list string) (d : Derivation) : Derivation :=
  when (installs program args) (λ d,
    let d := add d InstallPackage (quoted program +:+ " installs packages") in
    let d := add d NetworkConnect (quoted program +:+ " fetches from a package registry") in
    add d Download (quoted program +:+ " downloads package contents")) d.

Definition classify_git (program : string) (args : list string) (d : Derivation) : Derivation :=
  when (bool_decide (program = "git")) (λ d,
    let d := when (has_subcommand args GIT_NETWORK)
      (λ d, add d NetworkConnect "git contacts a remote") d in
    let d := when (has_subcommand args GIT_DOWNLOAD)
      (λ d, add d Download "git retrieves remote objects") d in
    let d := when (has_subcommand args GIT_WRITE)
      (λ d, add d ModifyGit "git writes to the repository") d in
    let d := when (has_subcommand args GIT_HISTORY)
      (λ d, add d RewriteGitHistory "git rewrites history that already exists") d in
    let d := when (has_subcommand args ["commit"] && has_flag args ["--amend"])
      (λ d, add d RewriteGitHistory "`git commit --amend` replaces an existing commit") d in
    when (has_subcommand args ["push"]) (λ d,
      let d := add d Upload "git push sends objects to a remote" in
      when (has_flag args ["--force"; "-f"; "--force-with-lease"])
        (λ d, add d ForcePush "force push overwrites remote history") d) d) d.

Definition publishes (program : string) (args : list string) : bool :=
  match lookup_table program PUBLISH_SUBCOMMANDS with
  | Some subs => has_subcommand args subs
  | None => false
  end.

Definition classify_publish (program : string) (args : list string) (d : Derivation) : Derivation :=
  when (publishes program args) (λ d,
    let d := add d PublishPackage (quoted program +:+ " publishes an artifact to a registry") in
    let d := add d Upload (quoted program +:+ " uploads to a registry") in
    add d NetworkConnect (quoted program +:+ " contacts a registry")) d.

Definition note_url (arg : string) (d : Derivation) : Derivation :=
  match as_url arg with
  | Some url =>
      let d := set_targets d (add_url (targets d) url) in
      add d NetworkConnect ("argument names a remote endpoint: " +:+ url)
  | None => d
  end.

Definition classify_urls (args : list string) (d : Derivation) : Derivation :=
  fold_left (λ d arg, note_url arg d) args d.

(** Everything [classify_depth] does before it follows a launcher. *)
Definition classify_here (program : string) (args : list string) (d : Derivation) : Derivation :=
  let d := set_targets d (add_program (targets d) program) in
  let d := add d ExecuteProcess ("runs " +:+ quoted program) in
  let d := classify_name program d in
  let d := classify_install program args d in
  let d := classify_git program args d in
  let d := classify_publish program args d in
  let d := classify_urls args d in
  when ((mem program LAUNCHERS || mem program PRIVILEGE) && existsb is_dash_c args)
    (λ d, add d ShellInterpretation ("`" +:+ program +:+ " -c` interprets a script string")) d.

(** [classify_depth]: [fuel] is [5 - depth], so that it runs out exactly when
    [depth > 4]. *)
Fixpoint classify_depth (fuel : nat) (words : list string) (d : Derivation) : Derivation :=
  match fuel with
  | 0 => add d ExecuteProcess "launcher nesting exceeded the inspection depth"
  | S fuel' =>
      match words with
      | [] => d
      | raw :: args =>
          let program := normalize_program raw in
          let d := classify_here program args d in
          if mem program LAUNCHERS then
            match launched_command args with
            | Some rest =>
                let d := add d ExecuteProcess (quoted program +:+ " launches another program") in
                classify_depth fuel' rest d
            | None => d
            end
          else d
      end
  end.

Definition MAX_LAUNCHER_DEPTH : nat := 5.
Definition classify (words : list string) (d : Derivation) : Derivation :=
  classify_depth MAX_LAUNCHER_DEPTH words d.

(** ** Every step only records more *)

#[export] Instance Recorder_classify_name p : Recorder (classify_name p).
Proof. unfold classify_name. recorder. Qed.
#[export] Instance Recorder_classify_install p args : Recorder (classify_install p args).
Proof. unfold classify_install. recorder. Qed.
#[export] Instance Recorder_classify_git p args : Recorder (classify_git p args).
Proof. unfold classify_git. recorder. Qed.
#[export] Instance Recorder_classify_publish p args : Recorder (classify_publish p args).
Proof. unfold classify_publish. recorder. Qed.
#[export] Instance Recorder_note_url arg : Recorder (note_url arg).
Proof. unfold note_url. recorder. Qed.
#[export] Instance Recorder_classify_urls args : Recorder (classify_urls args).
Proof. unfold classify_urls. recorder. Qed.
#[export] Instance Recorder_classify_here p args : Recorder (classify_here p args).
Proof. unfold classify_here. recorder. Qed.
#[export] Instance Recorder_classify_depth fuel words : Recorder (classify_depth fuel words).
Proof.
  revert words. induction fuel as [|fuel IH]; intros words; simpl; [apply Recorder_add|].
  destruct words as [|raw args]; [apply Recorder_id|].
  destruct (mem _ LAUNCHERS); [|apply _]. destruct (launched_command args) as [rest|]; [|apply _].
  apply (Recorder_comp (λ d, add (classify_here (normalize_program raw) args d) ExecuteProcess _)
    (classify_depth fuel rest)); [|apply IH].
  recorder.
Qed.

Lemma classify_here_confidence p args d : confidence (classify_here p args d) = confidence d.
Proof.
  assert (Hw : ∀ b f d, (∀ d, confidence (f d) = confidence d) → confidence (when b f d) = confidence d)
    by (intros []; simpl; auto).
  unfold classify_here, classify_publish, classify_git, classify_install, classify_name. cbv zeta.
  rewrite Hw by done.
  assert (Hu : ∀ l d, confidence (classify_urls l d) = confidence d).
  { intros l d'. unfold classify_urls. apply fold_left_inv; [done|]. intros d2 a _ <-.
    unfold note_url. by destruct (as_url a). }
  rewrite Hu. repeat (rewrite Hw; [|intros ?; rewrite ?Hw; try done]).
  all: try done; intros; by rewrite ?Hw.
Qed.

(** ** What a command is classified as *)

(** [launches words inner n]: [words] is [inner] behind [n] launchers. *)
Inductive launches : list string → list string → nat → Prop :=
| launches_here words : launches words words 0
| launches_through l args rest inner n :
    normalize_program l ∈ LAUNCHERS → launched_command args = Some rest →
    launches rest inner n → launches (l :: args) inner (S n).

Lemma classify_depth_launches words p args n fuel d :
  launches words (p :: args) n → n < fuel →
  ∃ d0, grows d d0 ∧ grows (classify_here (normalize_program p) args d0) (classify_depth fuel words d).
Proof.
  intros HL. remember (p :: args) as inner eqn:Hi. revert fuel d.
  induction HL as [words|l largs rest inner n Hl Hr HL IH]; intros fuel d Hf; (destruct fuel as [|fuel]; [lia|]).
  - subst. exists d. split; [done|]. simpl.
    destruct (mem _ LAUNCHERS); [|done]. destruct (launched_command args) as [rest|]; [|done].
    etransitivity; [apply (grows_add _ ExecuteProcess)|apply rec_grows].
  - simpl. unfold mem at 1. rewrite bool_decide_eq_true_2, Hr by done.
    set (d1 := add _ _ _). destruct (IH Hi fuel d1) as (d0 & H0 & H1); [lia|].
    exists d0. split; [|done]. etransitivity; [|exact H0]. unfold d1.
    etransitivity; [|apply grows_add]. apply (rec_grows (f := classify_here (normalize_program l) largs)).
Qed.

Lemma classify_here_program p args d : p ∈ programs (targets (classify_here p args d)).
Proof.
  unfold classify_here. cbv zeta.
  assert (Hg : ∀ f d', Recorder f → p ∈ programs (targets d') → p ∈ programs (targets (f d')))
    by (intros f d' Hf Hp; by apply (rec_grows (f := f))).
  repeat (apply Hg; [apply _|]). apply (grows_programs _ _ (grows_add _ _ _)).
  simpl. apply elem_of_push_unique. by left.
Qed.

Lemma note_url_has arg u d :
  as_url arg = Some u → NetworkConnect ∈ capabilities (note_url arg d) ∧ u ∈ urls (targets (note_url arg d)).
Proof.
  intros H. unfold note_url. rewrite H. split; [apply add_has|]. simpl. apply elem_of_push_unique. by left.
Qed.

Lemma classify_urls_has args arg u d :
  arg ∈ args → as_url arg = Some u →
  NetworkConnect ∈ capabilities (classify_urls args d) ∧ u ∈ urls (targets (classify_urls args d)).
Proof.
  intros Hin Hu. revert d. induction args as [|a args IH]; intros d; [by apply not_elem_of_nil in Hin|].
  apply elem_of_cons in Hin as [<-|Hin]; [|by apply IH].
  change (classify_urls (arg :: args) d) with (classify_urls args (note_url arg d)).
  destruct (note_url_has arg u d Hu) as [H1 H2].
  destruct (rec_grows (f := classify_urls args) (note_url arg d)). auto.
Qed.

Lemma classify_here_url p args arg u d :
  arg ∈ args → as_url arg = Some u →
  NetworkConnect ∈ capabilities (classify_here p args d) ∧ u ∈ urls (targets (classify_here p args d)).
Proof.
  intros Hin Hu. unfold classify_here. cbv zeta. set (d1 := classify_publish _ _ _).
  destruct (classify_urls_has args arg u d1 Hin Hu) as [H1 H2].
  set (last := when _ _). assert (Recorder last) by (apply Recorder_when; recorder).
  destruct (rec_grows (f := last) (classify_urls args d1)). auto.
Qed.

#[export] Instance Recorder_classify words : Recorder (classify words).
Proof. apply Recorder_classify_depth. Qed.

(** Up to four nested launchers ([sudo], [xargs], [nohup], ...) hide nothing:
    everything the launched command stands for on its own is claimed, its program
    is recorded, and so is every endpoint its arguments name, as network reach. *)
Theorem classify_launchers_transparent words p args n d :
  launches words (p :: args) n → n < MAX_LAUNCHER_DEPTH →
  capabilities (classify_here (normalize_program p) args (Derivation_new Exact))
    ⊆ capabilities (classify words d) ∧
  normalize_program p ∈ programs (targets (classify words d)) ∧
  ∀ arg u, arg ∈ args → as_url arg = Some u →
    NetworkConnect ∈ capabilities (classify words d) ∧ u ∈ urls (targets (classify words d)).
Proof.
  intros HL Hn. destruct (classify_depth_launches _ _ _ _ _ d HL Hn) as (d0 & _ & [Hc _ Hp _ _ Hu _]).
  unfold classify. split_and!.
  - etransitivity; [|exact Hc]. apply Recorder_caps_subset; [apply _|]. simpl. set_solver.
  - apply Hp, classify_here_program.
  - intros arg u Hin Ha.
    destruct (classify_here_url (normalize_program p) args arg u d0 Hin Ha). auto.
Qed.

Lemma classify_launchers_transparent_witness :
  launches ["sudo"; "-u"; "root"; "nohup"; "curl"; "https://x/y"] ["curl"; "https://x/y"] 2 ∧
  "curl" ∈ programs (targets (classify ["sudo"; "-u"; "root"; "nohup"; "curl"; "https://x/y"]
                                (Derivation_new Exact))).
Proof.
  assert (launches ["sudo"; "-u"; "root"; "nohup"; "curl"; "https://x/y"] ["curl"; "https://x/y"] 2) as HL.
  { eapply (launches_through _ _ ["nohup"; "curl"; "https://x/y"]); [by_compute|by vm_compute|].
    eapply (launches_through _ _ ["curl"; "https://x/y"]); [by_compute|by vm_compute|].
    apply launches_here. }
  split; [exact HL|].
  destruct (classify_launchers_transparent _ _ _ _ (Derivation_new Exact) HL) as (_ & H & _);
    [unfold MAX_LAUNCHER_DEPTH; lia|exact H].
Defined.

Lemma has_subcommand_flag a args candidates :
  starts_with "-" a = true → has_subcommand (a :: args) candidates = has_subcommand args candidates.
Proof. intros H. unfold has_subcommand. simpl. by rewrite H. Qed.

Lemma lowercase_dash a : starts_with "-" (to_ascii_lowercase a) = true → starts_with "-" a = true.
Proof.
  rewrite !starts_with_spec. intros [t Ht]. destruct a as [|b a]; [done|].
  unfold to_ascii_lowercase in Ht. simpl in Ht. injection Ht as Hb _.
  exists a. simpl. f_equal. destruct b as [[] [] [] [] [] [] [] []]; vm_compute in Hb |- *; congruence.
Qed.

(** A subcommand written as a flag is never found: flags are skipped. *)
Lemma has_subcommand_flags_only args candidates :
  Forall (λ c, starts_with "-" c = true) candidates → has_subcommand args candidates = false.
Proof.
  intros Hc. unfold has_subcommand. destruct (find _ args) as [a|] eqn:E; [|done].
  apply find_some in E as [_ Ha]. apply negb_true_iff in Ha.
  unfold mem. apply bool_decide_eq_false. intros Hin. rewrite Forall_forall in Hc.
  apply Hc, lowercase_dash in Hin. congruence.
Qed.

(** No [pacman] command is ever classified as installing a package: the table
    lists [-S] and its combinations as subcommands, and the subcommand search
    skips every word that starts with a dash. *)
Theorem pacman_never_installs args d : classify_install "pacman" args d = d.
Proof.
  unfold classify_install, installs. change (lookup_table "pacman" PACKAGE_MANAGERS) with (Some ["-s"; "-sy"; "-syu"]).
  cbv iota. rewrite has_subcommand_flags_only; [done|]. apply (bool_decide_unpack _). by vm_compute.
Qed.

(** [git -C /repo ...] hides its subcommand: the search stops at the value of
    [-C], so neither a clone nor a forced push is recognised behind it. *)
Theorem git_directory_flag_hides_subcommand rest d :
  classify_git "git" ("-C" :: "/repo" :: rest) d = d.
Proof.
  unfold classify_git. simpl. unfold has_subcommand. simpl. done.
Qed.

End Classify.
