(* ===== verification/ShellTree.v ===== *)
(** Shell commands as syntax trees (crate [ainxt-shell-ast]): the walks of
    [access.rs] and [bash.rs] over the tree of the tree-sitter Bash grammar.  The
    parser is a third-party library: a tree is the data its API exposes, and the
    parser itself is a parameter, the class [BashParser]. *)
From stdpp Require Import sorting.
From S2P Require Import Prelude RustStr ShellWords.

Module Export Syntax.

(** A node as the API shows it: its kind, the field of the parent it fills, if it
    is named, the bytes it spans, and its children. *)
Inductive Tree : Type :=
| Node (kind : string) (field : option string) (is_named : bool) (start_byte end_byte : nat)
       (children : list Tree).

Definition kind (n : Tree) : string := match n with Node k _ _ _ _ _ => k end.
Definition field (n : Tree) : option string := match n with Node _ f _ _ _ _ => f end.
Definition is_named (n : Tree) : bool := match n with Node _ _ b _ _ _ => b end.
Definition start_byte (n : Tree) : nat := match n with Node _ _ _ s _ _ => s end.
Definition end_byte (n : Tree) : nat := match n with Node _ _ _ _ e _ => e end.
Definition children (n : Tree) : list Tree := match n with Node _ _ _ _ _ cs => cs end.

Definition named_children (n : Tree) : list Tree := filter (λ c, is_named c = true) (children n).
Definition child_by_field_name (n : Tree) (f : string) : option Tree :=
  snd <$> list_find (λ c, field c = Some f) (children n).

Fixpoint tree_size (t : Tree) : nat :=
  match t with
  | Node _ _ _ _ _ cs =>
      S ((fix forest (l : list Tree) : nat :=
            match l with [] => 0 | c :: l' => tree_size c + forest l' end) cs)
  end.
Definition forest_size (l : list Tree) : nat := sum_list_with tree_size l.

Lemma tree_size_eq t : tree_size t = S (forest_size (children t)).
Proof. by destruct t. Qed.

Inductive descendant (root : Tree) : Tree → Prop :=
| descendant_refl : descendant root root
| descendant_child n c : descendant root n → c ∈ children n → descendant root c.

(** The tree-sitter Bash parser. *)
Class BashParser : Type := {
  try_parse_shell : string → option Tree;
  has_error : Tree → bool;
  utf8_text : Tree → string → option string;
}.

(** [while let Some(node) = stack.pop() { visit(node); push next(node) }]: the
    nodes in the order they are visited; the head of the list is the top. *)
Fixpoint dfs {A} (fuel : nat) (next : A → list A) (stack : list A) : list A :=
  match fuel, stack with
  | S fuel', n :: rest => n :: dfs fuel' next (next n ++ rest)
  | _, _ => []
  end.

(** Children pushed in order are popped last child first. *)
Definition push_in_order (n : Tree) : list Tree := reverse (children n).
Definition visited (root : Tree) : list Tree := dfs (tree_size root) push_in_order [root].

(** ** The walk visits every node *)

Section Walk.
Context {A : Type} (next : A → list A) (size : A → nat).
Hypothesis next_smaller : ∀ n, sum_list_with size (next n) < size n.

Inductive reached : A → A → Prop :=
| reached_refl n : reached n n
| reached_next n c u : c ∈ next n → reached c u → reached n u.

Lemma reached_trans_next n m c : reached n m → c ∈ next m → reached n c.
Proof.
  induction 1 as [n|n c' u Hc' _ IH]; intros Hc.
  - econstructor; [exact Hc|constructor].
  - econstructor; [exact Hc'|by apply IH].
Qed.

Lemma elem_of_dfs fuel stack u :
  sum_list_with size stack ≤ fuel →
  u ∈ dfs fuel next stack ↔ ∃ n, n ∈ stack ∧ reached n u.
Proof.
  revert stack. induction fuel as [|fuel IH]; intros stack Hf.
  - destruct stack as [|n stack]; simpl in *; [set_solver|].
    pose proof (next_smaller n). lia.
  - destruct stack as [|n stack]; simpl in *; [set_solver|].
    pose proof (next_smaller n). rewrite elem_of_cons, IH by (rewrite sum_list_with_app; lia). split.
    + intros [->|(m & [Hm|Hm]%elem_of_app & Hr)].
      * exists n. split; [by left|constructor].
      * exists n. split; [by left|]. by econstructor.
      * exists m. split; [by right|done].
    + intros (m & [->|Hm]%elem_of_cons & Hr).
      * inversion Hr as [|? c ? Hc Hr']; subst; [by left|]. right. exists c. set_solver.
      * right. exists m. set_solver.
Qed.

End Walk.

Lemma sum_list_with_reverse {A} (f : A → nat) l : sum_list_with f (reverse l) = sum_list_with f l.
Proof.
  induction l as [|x l IH]; [done|]. rewrite reverse_cons, sum_list_with_app, IH. simpl. lia.
Qed.

Lemma push_in_order_smaller n : sum_list_with tree_size (push_in_order n) < tree_size n.
Proof. unfold push_in_order. rewrite sum_list_with_reverse, (tree_size_eq n). unfold forest_size. lia. Qed.

Lemma descendant_trans_child root c u : c ∈ children root → descendant c u → descendant root u.
Proof.
  intros Hc. induction 1 as [|n c' _ IH Hc'].
  - econstructor; [constructor|done].
  - by econstructor.
Qed.

Lemma reached_descendant n u : reached push_in_order n u ↔ descendant n u.
Proof.
  split.
  - induction 1 as [n|n c u Hc _ IH]; [constructor|]. unfold push_in_order in Hc. rewrite elem_of_reverse in Hc.
    by eapply descendant_trans_child.
  - induction 1 as [|m c _ IH Hc]; [constructor|].
    eapply reached_trans_next; [exact IH|]. unfold push_in_order. by rewrite elem_of_reverse.
Qed.

Lemma elem_of_visited root u : u ∈ visited root ↔ descendant root u.
Proof.
  unfold visited. rewrite (elem_of_dfs _ tree_size push_in_order_smaller) by (simpl; lia).
  rewrite <-reached_descendant. set_solver.
Qed.

End Syntax.

Module Export Access.

(** Operand of a command or destination of a redirect. *)
Inductive ArgText : Type := Literal (text : string) | Ambiguous.

Definition expansion_kinds : list string :=
  ["expansion"; "simple_expansion"; "command_substitution"; "arithmetic_expansion";
   "process_substitution"].

Definition node_has_expansion (node : Tree) : bool :=
  existsb (λ n, existsb (λ c, bool_decide (kind c ∈ expansion_kinds)) (children n)) (visited node).

Definition subshell_kinds : list string :=
  ["subshell"; "pipeline"; "command_substitution"; "process_substitution"].

(** A node with its ancestors, each with the siblings that follow the path. *)
Record Located : Type := MkLocated { at_node : Tree; ancestors : list (Tree * list Tree) }.

Fixpoint locate_children (parent : Tree) (up : list (Tree * list Tree)) (cs : list Tree)
    : list Located :=
  match cs with
  | [] => []
  | c :: rest => MkLocated c ((parent, rest) :: up) :: locate_children parent up rest
  end.

Definition located_push (l : Located) : list Located :=
  reverse (locate_children (at_node l) (ancestors l) (children (at_node l))).

(** The loop of [runs_in_current_shell] up the ancestors. *)
Fixpoint runs_up (up : list (Tree * list Tree)) : bool :=
  match up with
  | [] => true
  | (parent, following) :: rest =>
      if bool_decide ((kind <$> head following) = Some "&") then false
      else if bool_decide (kind parent ∈ subshell_kinds) then false
      else runs_up rest
  end.
Definition runs_in_current_shell (cmd : Located) : bool := runs_up (ancestors cmd).

Definition cwd_unpinned_before (positions : list nat) (at_ : nat) : bool :=
  existsb (λ p, bool_decide (p < at_)) positions.

Section Parser.
Context `{BashParser}.

Definition cwd_programs : list string := ["cd"; "pushd"; "popd"].

Definition is_cwd_change (src : string) (l : Located) : bool :=
  bool_decide (kind (at_node l) = "command") &&
  match (n ← child_by_field_name (at_node l) "name"; utf8_text n src) with
  | Some p => bool_decide (shell_program_name p ∈ cwd_programs)
  | None => false
  end && runs_in_current_shell l.

Definition cwd_poison_positions (root : Tree) (src : string) : list nat :=
  (start_byte ∘ at_node) <$>
  filter (λ l, is_cwd_change src l = true) (dfs (tree_size root) located_push [MkLocated root []]).

Definition strip_quotes (q raw : string) : string :=
  default raw (s ← strip_prefix q raw; strip_suffix q s).

Definition shell_node_arg (node : Tree) (src : string) : option ArgText :=
  if bool_decide (kind node = "variable_assignment") then None
  else if bool_decide (kind node ∈ ["word"; "number"]) then Literal <$> utf8_text node src
  else if bool_decide (kind node = "raw_string") then
    raw ← utf8_text node src; Some (Literal (strip_quotes "'" raw))
  else if bool_decide (kind node = "string") then
    if node_has_expansion node then Some Ambiguous
    else raw ← utf8_text node src; Some (Literal (strip_quotes quote_str raw))
  else if bool_decide (kind node = "concatenation") then
    if node_has_expansion node then Some Ambiguous else Literal <$> utf8_text node src
  else Some Ambiguous.

Definition operand_of (child : Tree) (src : string) : option ArgText :=
  if bool_decide (kind child = "command_name") then
    inner ← head (named_children child); shell_node_arg inner src
  else shell_node_arg child src.

(** One [command] node as [(start, words, ambiguous)]. *)
Definition invocation_step (src : string) (acc : list string * bool) (child : Tree)
    : list string * bool :=
  match operand_of child src with
  | Some (Literal w) => (acc.1 ++ [w], acc.2)
  | Some Ambiguous => (acc.1, true)
  | None => acc
  end.

Definition invocation (src : string) (node : Tree) : nat * list string * bool :=
  let '(words, ambiguous) := fold_left (invocation_step src) (named_children node) ([], false) in
  (start_byte node, words, ambiguous).

Definition invocation_le (a b : nat * list string * bool) : bool :=
  bool_decide (a.1.1 ≤ b.1.1).

Definition shell_command_invocations (root : Tree) (src : string) : list (nat * list string * bool) :=
  sort_by invocation_le
    (invocation src <$> filter (λ n, kind n = "command") (visited root)).

(** The operator loop of [shell_redirect_one]: [None] for inline text. *)
Fixpoint redirect_mode (cs : list Tree) : option ShellFileMode :=
  match cs with
  | [] => None
  | c :: rest =>
      if contains "<<" (kind c) then None
      else if contains_byte ">"%char (kind c) then Some Write
      else if contains_byte "<"%char (kind c) then Some Read
      else redirect_mode rest
  end.

Definition shell_redirect_one (node : Tree) (src : string)
    : option (option string * ShellFileMode * bool) :=
  mode ← redirect_mode (children node);
  dest ← child_by_field_name node "destination";
  arg ← shell_node_arg dest src;
  match arg with
  | Literal s =>
      if is_empty s || starts_with "&" s || bytes_all is_ascii_digit s then None
      else Some (Some s, mode, shell_arg_is_ambiguous s)
  | Ambiguous => Some (None, mode, true)
  end.

Definition shell_redirect_targets (root : Tree) (src : string)
    : list (nat * option string * ShellFileMode * bool) :=
  omap (λ n,
    if bool_decide (kind n = "file_redirect") then
      '(path, mode, ambiguous) ← shell_redirect_one n src;
      Some (start_byte n, path, mode, ambiguous)
    else None) (visited root).

Definition redirect_write (r : nat * option string * ShellFileMode * bool) : option string :=
  let '(_, path, mode, _) := r in match mode with Write => path | Read => None end.

Definition command_write_paths_in_tree (root : Tree) (src : string) : list string :=
  omap redirect_write (shell_redirect_targets root src) ++
  concat ((λ '(_, raw_words, _), command_words_write_paths raw_words) <$>
          shell_command_invocations root src).

(** Every [command] node of the tree is an invocation, however deep it is
    nested in substitutions, subshells or strings, nothing else is, and the
    invocations are in source order. *)
Theorem shell_command_invocations_complete root src :
  (∀ inv, inv ∈ shell_command_invocations root src ↔
     ∃ n, descendant root n ∧ kind n = "command" ∧ inv = invocation src n) ∧
  StronglySorted (λ a b, a.1.1 ≤ b.1.1) (shell_command_invocations root src).
Proof.
  unfold shell_command_invocations. split.
  - intros inv. rewrite sort_by_Permutation, list_elem_of_fmap.
    setoid_rewrite list_elem_of_filter. setoid_rewrite elem_of_visited. naive_solver.
  - eapply StronglySorted_weaken; [|apply (sort_by_sorted invocation_le)].
    + intros a b ?%bool_decide_eq_true. done.
    + unfold invocation_le. intros x y ?%bool_decide_eq_false. apply bool_decide_eq_true. lia.
    + unfold invocation_le. intros x y z ?%bool_decide_eq_true ?%bool_decide_eq_true.
      apply bool_decide_eq_true. lia.
Qed.

Lemma node_has_expansion_spec n :
  node_has_expansion n = true ↔ ∃ u c, descendant n u ∧ c ∈ children u ∧ kind c ∈ expansion_kinds.
Proof.
  unfold node_has_expansion. rewrite existsb_exists. setoid_rewrite existsb_exists. split.
  - intros (u & Hu%list_elem_of_In%elem_of_visited & c & Hc%list_elem_of_In & Hk%bool_decide_eq_true). eauto.
  - intros (u & c & Hu & Hc & Hk). exists u. split; [by apply list_elem_of_In, elem_of_visited|].
    exists c. split; [by apply list_elem_of_In|by apply bool_decide_eq_true].
Qed.

(** An operand taken literally is never one the shell would expand: when a
    quoted string or a concatenation is read as a literal, no node below it is an
    expansion or a substitution. *)
Theorem shell_node_arg_literal node src s :
  shell_node_arg node src = Some (Literal s) →
  kind node ∈ ["word"; "number"; "raw_string"] ∨
  (kind node ∈ ["string"; "concatenation"] ∧
   ∀ u c, descendant node u → c ∈ children u → kind c ∉ expansion_kinds).
Proof.
  unfold shell_node_arg. intros Hs.
  destruct (decide (kind node ∈ ["word"; "number"; "raw_string"])) as [?|Hl]; [by left|right].
  assert (kind node ∈ ["string"; "concatenation"] ∧ node_has_expansion node = false) as [Hkind He].
  { case_bool_decide; [done|].
    case_bool_decide as Hw; [destruct Hl; rewrite !elem_of_cons in *; tauto|].
    case_bool_decide as Hr; [destruct Hl; rewrite Hr; by_compute|].
    case_bool_decide as Hq; [rewrite Hq; split; [by_compute|by destruct (node_has_expansion node)]|].
    case_bool_decide as Hq'; [rewrite Hq'; split; [by_compute|by destruct (node_has_expansion node)]|done]. }
  split; [done|]. intros u c Hu Hc Hx. apply not_true_iff_false in He.
  apply He, node_has_expansion_spec. eauto.
Qed.

(** Every write the tree shows is reported: the target of an output redirect
    anywhere in the tree, and the operands each command writes. *)
Theorem command_write_paths_complete root src p :
  p ∈ command_write_paths_in_tree root src ↔
  (∃ n amb, descendant root n ∧ kind n = "file_redirect" ∧
     shell_redirect_one n src = Some (Some p, Write, amb)) ∨
  (∃ n, descendant root n ∧ kind n = "command" ∧
     p ∈ command_words_write_paths (invocation src n).1.2).
Proof.
  unfold command_write_paths_in_tree, shell_redirect_targets, shell_command_invocations.
  rewrite elem_of_app, list_elem_of_omap. f_equiv.
  - setoid_rewrite list_elem_of_omap. setoid_rewrite elem_of_visited. split.
    + intros (r & (n & Hn & Hr) & Hp). case_bool_decide as Hk; [|done].
      apply bind_Some in Hr as ([[path mode] amb] & Hone & [= <-]).
      destruct mode; [done|]. simpl in Hp. subst. eauto.
    + intros (n & amb & Hn & Hk & Hone).
      exists (start_byte n, Some p, Write, amb). split; [|done]. exists n. split; [done|].
      rewrite bool_decide_eq_true_2 by done. by rewrite Hone.
  - rewrite list_elem_of_In, in_concat. setoid_rewrite <-list_elem_of_In.
    setoid_rewrite list_elem_of_fmap. setoid_rewrite sort_by_Permutation.
    setoid_rewrite list_elem_of_fmap. setoid_rewrite list_elem_of_filter.
    setoid_rewrite elem_of_visited. split.
    + intros (l & ([[s w] a] & -> & n & Hinv & Hk & Hn) & Hp). exists n. rewrite <-Hinv. done.
    + intros (n & Hn & Hk & Hp). exists (command_words_write_paths (invocation src n).1.2).
      split; [|done]. exists (invocation src n). destruct (invocation src n) as [[s w] a] eqn:E.
      split; [done|]. by exists n.
Qed.

End Parser.

End Access.

Module Export WordOnly.

(** A parsed command: its words, and the bytes of the script it spans. *)
Record PlainCommand : Type := MkPlain { words : list string; span_start : nat; span_end : nat }.

Definition ALLOWED_KINDS : list string :=
  ["program"; "list"; "pipeline"; "command"; "command_name"; "word"; "string"; "string_content";
   "raw_string"; "number"; "concatenation"; "variable_assignment"; "variable_name";
   "redirected_statement"; "file_redirect"; "file_descriptor"; "comment"; "heredoc_redirect";
   "heredoc_start"; "heredoc_body"; "heredoc_content"; "heredoc_end"].

Definition ALLOWED_PUNCT_TOKENS : list string :=
  ["&&"; "||"; ";"; "|"; quote_str; "'"; "="; ">"; ">>"; "<"; "<<"; ">&"; "&>"; "&>>"].

Definition is_control_byte (a : ascii) : bool :=
  bool_decide (a = "&"%char) || bool_decide (a = ";"%char) || bool_decide (a = "|"%char).

(** The check of one visited node. *)
Definition node_allowed (n : Tree) : bool :=
  if is_named n then bool_decide (kind n ∈ ALLOWED_KINDS)
  else if bytes_any is_control_byte (kind n) && negb (bool_decide (kind n ∈ ALLOWED_PUNCT_TOKENS))
  then false
  else bool_decide (kind n ∈ ALLOWED_PUNCT_TOKENS) || is_empty (trim (kind n)).

(** The highlighted part of a script: its tokens before, in and after it. *)
Record BashCommandHighlights : Type := MkHighlights {
  prefix : list string; highlighted_words : list string; suffix : list string;
}.

Section Parser.
Context `{BashParser}.

(** The words read so far and the span they cover. *)
Definition plain_state : Type := list string * option nat * option nat.

(** [words.push(text)], widening the span to [node]. *)
Definition push_word (node : Tree) (text : string) (st : plain_state) : plain_state :=
  let '(ws, s, _) := st in
  (ws ++ [text], Some (default (start_byte node) s), Some (end_byte node)).

(** A double-quoted string with nothing but text between its quotes. *)
Definition simple_string_content (child : Tree) : option Tree :=
  match children child with
  | [a; b; c] =>
      if bool_decide (kind a = quote_str) && bool_decide (kind b = "string_content") &&
         bool_decide (kind c = quote_str) then Some b else None
  | _ => None
  end.

Definition plain_child (src : string) (child : Tree) (st : plain_state) : option plain_state :=
  if bool_decide (kind child = "variable_assignment") then Some st
  else if bool_decide (kind child = "command_name") then
    word_node ← head (named_children child);
    if bool_decide (kind word_node = "word") then
      text ← utf8_text word_node src; Some (push_word word_node text st)
    else None
  else if bool_decide (kind child ∈ ["word"; "number"; "concatenation"]) then
    text ← utf8_text child src; Some (push_word child text st)
  else if bool_decide (kind child = "string") then
    content ← simple_string_content child;
    text ← utf8_text content src; Some (push_word child text st)
  else if bool_decide (kind child = "raw_string") then
    raw ← utf8_text child src;
    s ← strip_prefix "'" raw;
    text ← strip_suffix "'" s; Some (push_word child text st)
  else None.

Fixpoint plain_children (src : string) (cs : list Tree) (st : plain_state) : option plain_state :=
  match cs with
  | [] => Some st
  | c :: rest => st' ← plain_child src c st; plain_children src rest st'
  end.

Definition parse_plain_command_from_node (cmd : Tree) (src : string) : option PlainCommand :=
  if negb (bool_decide (kind cmd = "command")) then None
  else
    '(ws, s, e) ← plain_children src (named_children cmd) ([], None, None);
    Some (MkPlain ws (default (start_byte cmd) s) (default (end_byte cmd) e)).

Definition start_le (a b : Tree) : bool := bool_decide (start_byte a ≤ start_byte b).

Definition command_nodes (root : Tree) : list Tree :=
  sort_by start_le (filter (λ n, is_named n = true ∧ kind n = "command") (visited root)).

Definition try_parse_word_only_commands_sequence (root : Tree) (src : string)
    : option (list PlainCommand) :=
  if has_error root then None
  else if forallb node_allowed (visited root) then
    mapM (λ n, parse_plain_command_from_node n src) (command_nodes root)
  else None.

Definition all_commands_from_script (script : string) : option (list PlainCommand) :=
  tree ← try_parse_shell script;
  try_parse_word_only_commands_sequence tree script.

Definition primary_command_from_script (script : string) : option BashCommandHighlights :=
  tree ← try_parse_shell script;
  commands ← try_parse_word_only_commands_sequence tree script;
  primary ← find (λ c, negb (is_setup_command (words c))) commands;
  Some (MkHighlights
    (sh_split_simple (str_take (span_start primary) script))
    (words primary)
    (sh_split_simple (str_drop (span_end primary) script))).

(** A script accepted as a sequence of plain commands parsed without error,
    has no node outside the allow-list anywhere (no subshell, substitution,
    expansion or control flow), and yields exactly one command per [command] node,
    in source order. *)
Theorem word_only_sequence_sound root src cmds :
  try_parse_word_only_commands_sequence root src = Some cmds →
  has_error root = false ∧
  (∀ n, descendant root n → is_named n = true → kind n ∈ ALLOWED_KINDS) ∧
  (∀ n, descendant root n → is_named n = false →
     kind n ∈ ALLOWED_PUNCT_TOKENS ∨ is_empty (trim (kind n)) = true) ∧
  Forall2 (λ n c, parse_plain_command_from_node n src = Some c) (command_nodes root) cmds ∧
  (∀ n, n ∈ command_nodes root ↔ descendant root n ∧ is_named n = true ∧ kind n = "command") ∧
  StronglySorted (λ a b, start_byte a ≤ start_byte b) (command_nodes root).
Proof.
  unfold try_parse_word_only_commands_sequence. intros Hs.
  destruct (has_error root); [done|]. destruct (forallb node_allowed (visited root)) eqn:Hall; [|done].
  rewrite forallb_forall in Hall. setoid_rewrite <-list_elem_of_In in Hall.
  setoid_rewrite elem_of_visited in Hall. unfold node_allowed in Hall. split_and!.
  - done.
  - intros n Hn Hnamed. specialize (Hall n Hn). rewrite Hnamed in Hall. by apply bool_decide_eq_true in Hall.
  - intros n Hn Hnamed. specialize (Hall n Hn). rewrite Hnamed in Hall.
    case_match; [done|]. apply orb_prop in Hall as [?%bool_decide_eq_true|?]; auto.
  - by apply mapM_Some.
  - intros n. unfold command_nodes. rewrite sort_by_Permutation, list_elem_of_filter, elem_of_visited. naive_solver.
  - eapply StronglySorted_weaken; [|apply (sort_by_sorted start_le)]; unfold start_le.
    + intros a b ?%bool_decide_eq_true. done.
    + intros x y ?%bool_decide_eq_false. apply bool_decide_eq_true. lia.
    + intros x y z ?%bool_decide_eq_true ?%bool_decide_eq_true. apply bool_decide_eq_true. lia.
Qed.

End Parser.

End WordOnly.

Module Export SoftBreaks.

Definition PAYLOAD_NODE_KINDS : list string :=
  ["heredoc_body"; "simple_heredoc_body"; "heredoc_content"; "heredoc_end"; "string"; "raw_string";
   "string_content"; "ansi_c_string"; "translated_string"; "comment"].

Definition is_soft_break_operator_kind (k : string) : bool :=
  bool_decide (k ∈ ["&&"; "||"; "|"; ";"]).
Definition is_payload_node_kind (k : string) : bool := bool_decide (k ∈ PAYLOAD_NODE_KINDS).

Definition HEREDOC_PAYLOAD : list string := ["heredoc_body"; "simple_heredoc_body"; "heredoc_content"].

(** Children pushed in reverse are popped in source order; the children of a
    node of the given kinds are not pushed. *)
Definition push_unless (stop : string → bool) (n : Tree) : list Tree :=
  if stop (kind n) then [] else children n.
Definition visited_unless (stop : string → bool) (root : Tree) : list Tree :=
  dfs (tree_size root) (push_unless stop) [root].

Definition range_le (a b : nat * nat) : bool :=
  bool_decide (a.1 < b.1) || (bool_decide (a.1 = b.1) && bool_decide (a.2 ≤ b.2)).

Fixpoint dedup_pairs_from (prev : nat * nat) (l : list (nat * nat)) : list (nat * nat) :=
  match l with
  | [] => []
  | x :: rest => if bool_decide (x = prev) then dedup_pairs_from prev rest
                 else x :: dedup_pairs_from x rest
  end.
Definition dedup_pairs (l : list (nat * nat)) : list (nat * nat) :=
  match l with [] => [] | x :: rest => x :: dedup_pairs_from x rest end.

Section Parser.
Context `{BashParser}.

Definition is_break (script : string) (n : Tree) : bool :=
  negb (is_payload_node_kind (kind n)) && is_soft_break_operator_kind (kind n) &&
  bool_decide (0 < end_byte n) && bool_decide (end_byte n ≤ String.length script) &&
  is_char_boundary script (end_byte n).

Definition soft_break_offsets_after_operators (script : string) : list nat :=
  match try_parse_shell script with
  | None => []
  | Some root =>
      if has_error root then []
      else dedup (sort_by (λ a b, bool_decide (a ≤ b))
             (end_byte <$> filter (λ n, is_break script n = true)
                (visited_unless is_payload_node_kind root)))
  end.

Definition is_payload_range (script : string) (n : Tree) : bool :=
  bool_decide (kind n ∈ HEREDOC_PAYLOAD) && bool_decide (start_byte n < end_byte n) &&
  bool_decide (end_byte n ≤ String.length script).

Definition heredoc_payload_byte_ranges (script : string) : list (nat * nat) :=
  match try_parse_shell script with
  | None => []
  | Some root =>
      if has_error root then []
      else dedup_pairs (sort_by range_le
             ((λ n, (start_byte n, end_byte n)) <$> filter (λ n, is_payload_range script n = true)
                (visited_unless (λ k, bool_decide (k ∈ HEREDOC_PAYLOAD)) root)))
  end.

Definition soft_break_chunks (script : string) : list string :=
  match soft_break_offsets_after_operators script with
  | [] => [script]
  | breaks => slices_from script 0 (filter (λ b, b ≤ String.length script) breaks)
  end.

Lemma push_unless_smaller stop n : sum_list_with tree_size (push_unless stop n) < tree_size n.
Proof.
  rewrite (tree_size_eq n). unfold push_unless. destruct (stop (kind n)); simpl; [lia|].
  unfold forest_size. lia.
Qed.

(** A node reached without passing through a node of a stopping kind. *)
Inductive exposed (stop : string → bool) (root : Tree) : Tree → Prop :=
| exposed_refl : exposed stop root root
| exposed_child n c : exposed stop root n → stop (kind n) = false → c ∈ children n → exposed stop root c.

Lemma elem_of_visited_unless stop root u : u ∈ visited_unless stop root ↔ exposed stop root u.
Proof.
  unfold visited_unless.
  rewrite (elem_of_dfs _ tree_size (push_unless_smaller stop)) by (simpl; lia).
  trans (reached (push_unless stop) root u); [set_solver|]. split.
  - assert (∀ n u, reached (push_unless stop) n u → ∀ r, exposed stop r n → exposed stop r u) as Hgen.
    { induction 1 as [n|n c v Hc _ IH]; intros r Hr; [done|]. apply IH.
      unfold push_unless in Hc. destruct (stop (kind n)) eqn:E; [by apply not_elem_of_nil in Hc|].
      by econstructor. }
    intros Hr. apply (Hgen _ _ Hr). constructor.
  - induction 1 as [|n c _ IH Hs Hc]; [constructor|]. eapply reached_trans_next; [exact IH|].
    unfold push_unless. by rewrite Hs.
Qed.

Lemma elem_of_dedup_from_iff prev l x : x ∈ prev :: dedup_from prev l ↔ x ∈ prev :: l.
Proof.
  revert prev. induction l as [|y l IH]; intros prev; simpl; [done|].
  case_bool_decide as Hy; [subst; rewrite IH; set_solver|].
  rewrite elem_of_cons, IH. set_solver.
Qed.

Lemma elem_of_dedup_iff l x : x ∈ dedup l ↔ x ∈ l.
Proof. destruct l; [done|]. apply elem_of_dedup_from_iff. Qed.

(** The display breaks of a script are the ends of its list and pipeline
    operators that are not inside a quoted string, a heredoc body or a comment,
    in ascending order; a script that does not parse cleanly has none. *)
Theorem soft_break_offsets_spec script root :
  try_parse_shell script = Some root → has_error root = false →
  (∀ b, b ∈ soft_break_offsets_after_operators script ↔
     ∃ n, exposed is_payload_node_kind root n ∧ is_break script n = true ∧ b = end_byte n) ∧
  concat_str (soft_break_chunks script) = script.
Proof.
  intros Hp He. split.
  - intros b. unfold soft_break_offsets_after_operators. rewrite Hp, He.
    rewrite elem_of_dedup_iff, sort_by_Permutation, list_elem_of_fmap.
    setoid_rewrite list_elem_of_filter. setoid_rewrite elem_of_visited_unless. naive_solver.
  - unfold soft_break_chunks. destruct (soft_break_offsets_after_operators script) as [|b bs];
      [apply app_nil_r_str|].
    rewrite concat_slices_from; [by destruct script|].
    apply Forall_forall. intros x Hx. by apply list_elem_of_filter in Hx as [? _].
Qed.

End Parser.

End SoftBreaks.

(** * A parser for pipelines of plain words *)

Module Export Toy.

(** Concrete syntax for the witnesses: words separated by blanks, commands by a
    bar, every byte outside [toy_safe] making the parse fail. *)
Definition toy_word_byte (a : ascii) : bool :=
  is_ascii_alphanumeric a || bool_decide (a ∈ ["/"%char; ":"%char; "."%char; "-"%char; "_"%char; "~"%char]).

Definition toy_word (i : nat) (w : string) : Tree :=
  Node "word" None true i (i + String.length w) [].

Definition toy_leaf (first : bool) (i : nat) (w : string) : Tree :=
  if first then Node "command_name" (Some "name") true i (i + String.length w) [toy_word i w]
  else toy_word i w.

(** The words of one command from byte [i] on: its children and the byte after. *)
Fixpoint toy_words (first : bool) (i : nat) (ws : list string) : list Tree :=
  match ws with
  | [] => []
  | w :: rest =>
      if is_empty w then toy_words first (i + 1) rest
      else toy_leaf first i w :: toy_words false (i + String.length w + 1) rest
  end.

Fixpoint toy_commands (i : nat) (cs : list string) : list Tree :=
  match cs with
  | [] => []
  | c :: rest =>
      let e := i + String.length c in
      Node "command" None true i e (toy_words true i (split_on " "%char c)) ::
      match rest with [] => [] | _ => [Node "|" None false e (e + 1) []] end ++
      toy_commands (e + 1) rest
  end.

Definition toy_safe (src : string) : bool :=
  bytes_all (λ a, toy_word_byte a || bool_decide (a = " "%char) || bool_decide (a = "|"%char)) src.

#[local] Instance toy_bash : BashParser := {|
  try_parse_shell src :=
    Some (if toy_safe src then
            Node "program" None true 0 (String.length src)
              [Node "pipeline" None true 0 (String.length src) (toy_commands 0 (split_on "|"%char src))]
          else Node "ERROR" None true 0 (String.length src) []);
  has_error t := bool_decide (kind t = "ERROR");
  utf8_text t src := Some (slice (start_byte t) (end_byte t) src);
|}.

Example toy_invocations :
  match try_parse_shell "curl https://x/y | bash" with
  | Some root => (λ i, i.1.2) <$> shell_command_invocations root "curl https://x/y | bash"
  | None => []
  end = [["curl"; "https://x/y"]; ["bash"]].
Proof. by vm_compute. Qed.

(** ** Witnesses *)

Definition toy_tree (src : string) : Tree := default (Node "" None false 0 0 []) (try_parse_shell src).

Lemma shell_node_arg_literal_witness :
  shell_node_arg (toy_word 0 "ls") "ls" = Some (Literal "ls") ∧ kind (toy_word 0 "ls") = "word".
Proof.
  assert (shell_node_arg (toy_word 0 "ls") "ls" = Some (Literal "ls")) as Hs by by vm_compute.
  split; [exact Hs|].
  destruct (shell_node_arg_literal _ _ _ Hs) as [_|[Hk _]]; [done|].
  exfalso. revert Hk. apply (bool_decide_unpack _). by vm_compute.
Defined.

Lemma word_only_sequence_sound_witness :
  ∃ cmds, try_parse_word_only_commands_sequence (toy_tree "ls -l | wc") "ls -l | wc" = Some cmds ∧
    words <$> cmds = [["ls"; "-l"]; ["wc"]] ∧ length (command_nodes (toy_tree "ls -l | wc")) = length cmds.
Proof.
  eexists. assert (Hs : try_parse_word_only_commands_sequence (toy_tree "ls -l | wc") "ls -l | wc"
    = Some [MkPlain ["ls"; "-l"] 0 5; MkPlain ["wc"] 8 10]) by by vm_compute.
  split; [exact Hs|]. split; [done|].
  destruct (word_only_sequence_sound _ _ _ Hs) as (_ & _ & _ & H2 & _).
  by apply Forall2_length in H2.
Defined.

Lemma soft_break_offsets_spec_witness :
  concat_str (soft_break_chunks "ls | wc | cat") = "ls | wc | cat" ∧
  soft_break_chunks "ls | wc | cat" = ["ls |"; " wc |"; " cat"].
Proof.
  split; [|by vm_compute].
  by apply (soft_break_offsets_spec "ls | wc | cat" (toy_tree "ls | wc | cat")); vm_compute.
Defined.

End Toy.
