(* ===== verification/SessionRisk.v ===== *)
(** Session-scoped risk (crate [ainxt-session-risk]): the ledger state machine of
    [ledger.rs], the storage boundary [RiskStore] of [lib.rs] as a class with laws,
    and its two implementations, in memory ([memory.rs]) and in files ([file.rs],
    with its faults).  The clock is an argument of every operation. *)
From S2P Require Import Prelude RustStr Intent.
Import Cap.

Module Export Ledger.

Record Budgets : Type := MkBudgets {
  window_secs : N;
  max_execs : N;
  max_repeats_same_program : N;
  max_consecutive_failures : N;
  max_distinct_hosts : N;
  max_bytes_out : N;
  max_installs : N;
}.

Definition Budgets_default : Budgets := MkBudgets 300 300 400 12 30 (256 * 1024 * 1024) 40.

Record Charge : Type := MkCharge {
  charge_capabilities : gset Capability;
  charge_program : option string;
  charge_hosts : list string;
  charge_bytes_out : N;
}.

#[export] Instance Charge_eq_dec : EqDecision Charge.
Proof. solve_decision. Defined.

Definition for_program (program : string) : Charge := MkCharge ∅ (Some program) [] 0.

Inductive BudgetBreach : Type :=
| ExecRate (count limit : N)
| RepeatedProgram (program : string) (count limit : N)
| ConsecutiveFailures (program : string) (count limit : N)
| HostFanOut (count limit : N)
| BytesOut (bytes limit : N)
| InstallRate (count limit : N).

#[export] Instance BudgetBreach_eq_dec : EqDecision BudgetBreach.
Proof. solve_decision. Defined.

(** [BudgetBreach::describe]; the dash of the third message is U+2014. *)
Definition em_dash : string := str_of_bytes [226; 128; 148]%N.

Definition describe (b : BudgetBreach) : string :=
  match b with
  | ExecRate count limit =>
      pretty count +:+ " actions in the window exceeds the limit of " +:+ pretty limit
  | RepeatedProgram program count limit =>
      "`" +:+ program +:+ "` ran " +:+ pretty count +:+ " times in the window, limit " +:+ pretty limit
  | ConsecutiveFailures program count limit =>
      "`" +:+ program +:+ "` failed " +:+ pretty count +:+ " times in a row, limit " +:+
      pretty limit +:+ " " +:+ em_dash +:+
      " this is the signature of a credential or password attack"
  | HostFanOut count limit =>
      "contacted " +:+ pretty count +:+ " distinct hosts in the window, limit " +:+ pretty limit
  | BytesOut bytes limit =>
      "sent " +:+ pretty bytes +:+ " bytes outbound in the window, limit " +:+ pretty limit
  | InstallRate count limit =>
      pretty count +:+ " package installs in the window, limit " +:+ pretty limit
  end.

Record FreezeReason : Type := MkFreeze { breach : BudgetBreach; freeze_at : N }.

#[export] Instance FreezeReason_eq_dec : EqDecision FreezeReason.
Proof. solve_decision. Defined.

Inductive ArtifactTrust : Type := Untrusted | Workspace | Operator.
#[export] Instance ArtifactTrust_eq_dec : EqDecision ArtifactTrust.
Proof. solve_decision. Defined.

Record Artifact : Type := MkArtifact { path : string; trust : ArtifactTrust; origin : string; artifact_at : N }.
#[export] Instance Artifact_eq_dec : EqDecision Artifact.
Proof. solve_decision. Defined.

Record RiskState : Type := MkState {
  state_frozen : option FreezeReason;
  execs_in_window : N;
  installs_in_window : N;
  distinct_hosts_in_window : N;
  bytes_out_in_window : N;
  state_max_consecutive_failures : N;
  breaches : list BudgetBreach;
}.

Definition is_frozen (s : RiskState) : bool := bool_decide (is_Some (state_frozen s)).

Record Event : Type := MkEvent {
  at_ : N; program : option string; installed : bool; hosts : list string; bytes_out : N;
}.
#[export] Instance Event_eq_dec : EqDecision Event.
Proof. solve_decision. Defined.

Definition MAX_EVENTS : nat := 4096.

Record Ledger : Type := MkLedger {
  events : list Event;
  failures : gmap string N;
  artifacts : gmap string Artifact;
  frozen : option FreezeReason;
}.
#[export] Instance Ledger_eq_dec : EqDecision Ledger.
Proof. solve_decision. Defined.

Definition Ledger_default : Ledger := MkLedger [] ∅ ∅ None.

(** [x.len() as u32]. *)
Definition len_u32 (n : nat) : N := wrap32 (N.of_nat n).

Definition cutoff (now : N) (b : Budgets) : N := now - window_secs b.

Definition prune (now : N) (b : Budgets) (l : Ledger) : Ledger :=
  MkLedger (filter (λ e, (cutoff now b ≤ at_ e)%N) (events l)) (failures l) (artifacts l) (frozen l).

Definition freeze (reason : FreezeReason) (l : Ledger) : Ledger :=
  match frozen l with
  | None => MkLedger (events l) (failures l) (artifacts l) (Some reason)
  | Some _ => l
  end.

Definition apply_breaches (bs : list BudgetBreach) (now : N) (l : Ledger) : Ledger :=
  match bs with
  | first :: _ => freeze (MkFreeze first now) l
  | [] => l
  end.

Definition distinct_hosts (es : list Event) : N :=
  len_u32 (size (list_to_set (concat (hosts <$> es)) : gset string)).
(** [Iterator::sum] of [u64], which wraps in a release build. *)
Definition total_bytes (es : list Event) : N :=
  wrap64 (foldr N.add 0%N (bytes_out <$> es)).
Definition count_installs (es : list Event) : N :=
  len_u32 (length (filter (λ e, installed e = true) es)).
Definition count_program (p : string) (es : list Event) : N :=
  len_u32 (length (filter (λ e, program e = Some p) es)).

Definition snapshot (bs : list BudgetBreach) (l : Ledger) : RiskState := {|
  state_frozen := frozen l;
  execs_in_window := len_u32 (length (events l));
  installs_in_window := count_installs (events l);
  distinct_hosts_in_window := distinct_hosts (events l);
  bytes_out_in_window := total_bytes (events l);
  state_max_consecutive_failures := map_fold (λ _ v acc, N.max v acc) 0%N (failures l);
  breaches := bs;
|}.

(** The newest [MAX_EVENTS] events: [drain(..len - MAX_EVENTS)] from the front. *)
Definition cap_events (es : list Event) : list Event :=
  if bool_decide (MAX_EVENTS < length es) then drop (length es - MAX_EVENTS) es else es.

Definition event_of (c : Charge) (now : N) : Event :=
  MkEvent now (charge_program c) (bool_decide (InstallPackage ∈ charge_capabilities c))
    (charge_hosts c) (charge_bytes_out c).

(** One threshold: a breach when the count passes the limit. *)
Definition over (count limit : N) (b : BudgetBreach) : list BudgetBreach :=
  if bool_decide (limit < count)%N then [b] else [].

Definition charge_breaches (c : Charge) (b : Budgets) (es : list Event) : list BudgetBreach :=
  let execs := len_u32 (length es) in
  over execs (max_execs b) (ExecRate execs (max_execs b)) ++
  (match charge_program c with
   | Some p => let n := count_program p es in
       over n (max_repeats_same_program b) (RepeatedProgram p n (max_repeats_same_program b))
   | None => []
   end) ++
  (let n := distinct_hosts es in over n (max_distinct_hosts b) (HostFanOut n (max_distinct_hosts b))) ++
  (let n := total_bytes es in over n (max_bytes_out b) (BytesOut n (max_bytes_out b))) ++
  (let n := count_installs es in over n (max_installs b) (InstallRate n (max_installs b))).

Definition charge (c : Charge) (b : Budgets) (now : N) (l : Ledger) : Ledger * RiskState :=
  let l := prune now b l in
  let l := MkLedger (cap_events (events l ++ [event_of c now])) (failures l) (artifacts l) (frozen l) in
  let bs := charge_breaches c b (events l) in
  let l := apply_breaches bs now l in
  (l, snapshot bs l).

Definition note_outcome (p : string) (success : bool) (b : Budgets) (now : N) (l : Ledger)
    : Ledger * RiskState :=
  let '(fs, bs) :=
    if success then (delete p (failures l), [])
    else
      let counter := sat_add32 (default 0%N (failures l !! p)) 1 in
      (<[p := counter]> (failures l),
       over counter (max_consecutive_failures b)
         (ConsecutiveFailures p counter (max_consecutive_failures b))) in
  let l := apply_breaches bs now (MkLedger (events l) fs (artifacts l) (frozen l)) in
  (l, snapshot bs l).

Definition note_artifact (a : Artifact) (l : Ledger) : Ledger :=
  MkLedger (events l) (failures l) (<[path a := a]> (artifacts l)) (frozen l).

Definition artifact (p : string) (l : Ledger) : option Artifact := artifacts l !! p.

Definition clear_freeze (l : Ledger) : Ledger := MkLedger (events l) ∅ (artifacts l) None.

(** [peek] works on a clone. *)
Definition peek (b : Budgets) (now : N) (l : Ledger) : RiskState := snapshot [] (prune now b l).

(** ** The state machine *)

(** A mutating call on one ledger. *)
Inductive LedgerOp : Type :=
| OpCharge (c : Charge) (now : N)
| OpOutcome (p : string) (success : bool) (now : N)
| OpArtifact (a : Artifact)
| OpFreeze (r : FreezeReason)
| OpClearFreeze.

#[export] Instance LedgerOp_eq_dec : EqDecision LedgerOp.
Proof. solve_decision. Defined.

Definition apply_op (b : Budgets) (l : Ledger) (op : LedgerOp) : Ledger :=
  match op with
  | OpCharge c now => (charge c b now l).1
  | OpOutcome p s now => (note_outcome p s b now l).1
  | OpArtifact a => note_artifact a l
  | OpFreeze r => freeze r l
  | OpClearFreeze => clear_freeze l
  end.

Definition apply_ops (b : Budgets) (l : Ledger) (ops : list LedgerOp) : Ledger :=
  fold_left (apply_op b) ops l.

Lemma frozen_freeze r l : frozen (freeze r l) = Some (default r (frozen l)).
Proof. unfold freeze. destruct (frozen l) eqn:E; simpl; by rewrite ?E. Qed.

Lemma frozen_apply_breaches bs now l :
  frozen (apply_breaches bs now l) =
  match frozen l, head bs with
  | Some r, _ => Some r
  | None, Some x => Some (MkFreeze x now)
  | None, None => None
  end.
Proof. destruct bs as [|x bs]; simpl; [|rewrite frozen_freeze]; by destruct (frozen l). Qed.

Lemma events_apply_breaches bs now l : events (apply_breaches bs now l) = events l.
Proof. destruct bs; [done|]. simpl. unfold freeze. by destruct (frozen l). Qed.

Lemma cap_events_length es : length (cap_events es) ≤ MAX_EVENTS.
Proof.
  unfold cap_events. case_bool_decide; [|lia]. rewrite length_drop. lia.
Qed.

Lemma cap_events_suffix es : ∃ k, cap_events es = drop k es.
Proof. unfold cap_events. case_bool_decide; [by eexists|by exists 0]. Qed.

Lemma cap_events_last es e : last (cap_events (es ++ [e])) = Some e.
Proof.
  unfold cap_events. case_bool_decide; [|apply last_snoc].
  rewrite drop_app_le; [apply last_snoc|]. rewrite length_app. simpl. unfold MAX_EVENTS. lia.
Qed.

Lemma elem_of_cap_events es e : e ∈ cap_events es → e ∈ es.
Proof.
  destruct (cap_events_suffix es) as [k ->]. intros H. rewrite <-(take_drop k es).
  apply elem_of_app. by right.
Qed.

Lemma events_charge c b now l :
  events (charge c b now l).1 =
  cap_events (filter (λ e, (cutoff now b ≤ at_ e)%N) (events l) ++ [event_of c now]).
Proof. unfold charge. simpl. by rewrite events_apply_breaches. Qed.

Lemma frozen_apply_op b l op r :
  frozen l = Some r → op ≠ OpClearFreeze → frozen (apply_op b l op) = Some r.
Proof.
  intros Hf Hop. destruct op as [c now|p s now|a|r'|]; simpl; try done.
  - by rewrite frozen_apply_breaches; simpl; rewrite Hf.
  - unfold note_outcome. destruct s; simpl; [done|]. by rewrite frozen_apply_breaches; simpl; rewrite Hf.
  - by rewrite frozen_freeze, Hf.
Qed.

(** What clients of a charge rely on. *)
Lemma charge_breach_freezes c b now l :
  breaches (charge c b now l).2 ≠ [] → is_Some (frozen (charge c b now l).1).
Proof.
  unfold charge. cbn [fst snd breaches snapshot]. rewrite frozen_apply_breaches. simpl.
  destruct (charge_breaches _ _ _); [done|]. destruct (frozen l); simpl; eauto.
Qed.

Lemma charge_no_breach_frozen c b now l :
  breaches (charge c b now l).2 = [] → state_frozen (charge c b now l).2 = frozen l.
Proof.
  unfold charge. cbn [fst snd breaches snapshot state_frozen]. rewrite frozen_apply_breaches. simpl.
  intros ->. by destruct (frozen l).
Qed.

Lemma charge_artifacts c b now l : artifacts (charge c b now l).1 = artifacts l.
Proof.
  unfold charge. cbn [fst]. destruct (charge_breaches _ _ _); [done|]. simpl. unfold freeze. simpl.
  by destruct (frozen l).
Qed.

(** A freeze is sticky and keeps its first cause: whatever is charged,
    reported or frozen afterwards, the ledger stays frozen for the same reason
    until it is explicitly cleared. *)
Theorem freeze_sticky b l ops r :
  frozen l = Some r → OpClearFreeze ∉ ops → frozen (apply_ops b l ops) = Some r.
Proof.
  unfold apply_ops. revert l. induction ops as [|op ops IH]; intros l Hf Hn; [done|].
  apply not_elem_of_cons in Hn as [Hop Hn]. simpl. apply IH; [|done].
  by apply frozen_apply_op.
Qed.

Lemma freeze_sticky_witness :
  let l := charge (for_program "qpdf") (MkBudgets 300 0 0 0 0 0 0) 5 Ledger_default in
  frozen (apply_ops Budgets_default l.1 [OpCharge (for_program "ls") 900; OpOutcome "ls" true 901;
    OpFreeze (MkFreeze (ExecRate 9 9) 902)]) = Some (MkFreeze (ExecRate 1 0) 5).
Proof. apply freeze_sticky; [by vm_compute|by_compute]. Defined.

(** A charge keeps exactly the newest [MAX_EVENTS] events of the window and
    the new one; it reports a breach exactly for the budgets the window now
    exceeds, and any breach leaves the ledger frozen. *)
Theorem charge_spec c b now l :
  let '(l', st) := charge c b now l in
  length (events l') ≤ MAX_EVENTS ∧
  last (events l') = Some (event_of c now) ∧
  (∀ e, e ∈ events l' → (cutoff now b ≤ at_ e)%N) ∧
  breaches st = charge_breaches c b (events l') ∧
  execs_in_window st = N.of_nat (length (events l')) ∧
  (breaches st ≠ [] → is_frozen st = true) ∧
  state_frozen st = frozen l' ∧
  (frozen l = None → frozen l' = (λ x, MkFreeze x now) <$> head (breaches st)).
Proof.
  destruct (charge c b now l) as [l' st] eqn:E.
  assert (He : events l' = cap_events (filter (λ e, (cutoff now b ≤ at_ e)%N) (events l) ++ [event_of c now]))
    by (pose proof (events_charge c b now l) as H; by rewrite E in H).
  assert (Hlen : length (events l') ≤ MAX_EVENTS) by (rewrite He; apply cap_events_length).
  assert (Hst : st = snapshot (charge_breaches c b (events l')) l' ∧
    frozen l' = frozen (apply_breaches (charge_breaches c b (events l')) now l)).
  { unfold charge in E. injection E as <- <-. rewrite events_apply_breaches. cbn [events].
    split; [done|]. by rewrite !frozen_apply_breaches. }
  destruct Hst as [-> Hfz]. cbn [breaches snapshot execs_in_window state_frozen]. split_and!.
  - done.
  - rewrite He. apply cap_events_last.
  - rewrite He. intros e [Hin|Hin]%elem_of_cap_events%elem_of_app.
    + by apply list_elem_of_filter in Hin as [? _].
    + apply list_elem_of_singleton in Hin as ->. unfold cutoff. simpl. lia.
  - done.
  - unfold len_u32. apply wrap32_small. unfold u32_max. unfold MAX_EVENTS in Hlen. lia.
  - intros Hb. unfold is_frozen. cbn [state_frozen snapshot]. rewrite Hfz, frozen_apply_breaches.
    destruct (charge_breaches _ _ _); [done|]. simpl. by destruct (frozen l).
  - done.
  - intros Hn. rewrite Hfz, frozen_apply_breaches, Hn. by destruct (head _).
Qed.

Lemma failures_failed p b now l :
  failures (note_outcome p false b now l).1 =
  <[p := sat_add32 (default 0%N (failures l !! p)) 1]> (failures l).
Proof.
  unfold note_outcome. simpl. unfold over. case_bool_decide; simpl; [|done].
  unfold freeze. simpl. by destruct (frozen l).
Qed.

(** A success, then [n] failures in a row. *)
Definition failure_run (p : string) (b : Budgets) (now : N) (n : nat) (l : Ledger) : Ledger :=
  Nat.iter n (λ l, (note_outcome p false b now l).1) (note_outcome p true b now l).1.

Lemma failure_run_S p b now n l :
  failure_run p b now (S n) l = (note_outcome p false b now (failure_run p b now n l)).1.
Proof. reflexivity. Qed.

Lemma failure_run_counter p b now n l :
  failures (failure_run p b now n l) !! p =
  if bool_decide (n = 0) then None else Some (N.min (N.of_nat n) u32_max).
Proof.
  induction n as [|n IH]; [apply lookup_delete_eq|].
  rewrite failure_run_S, failures_failed, lookup_insert_eq, IH. unfold sat_add32, u32_max.
  rewrite (bool_decide_eq_false_2 (S n = 0)) by lia. f_equal. case_bool_decide; simpl; lia.
Qed.

(** Failures count consecutively per program and saturate: after a success,
    [n] failures in a row read [min n u32::MAX]; past the limit the ledger is
    frozen; no other program's counter moves. *)
Theorem failure_loop_counts p b n now l :
  failures (failure_run p b now n l) !! p =
    (if bool_decide (n = 0) then None else Some (N.min (N.of_nat n) u32_max)) ∧
  ((max_consecutive_failures b < N.min (N.of_nat n) u32_max)%N →
   is_Some (frozen (failure_run p b now n l))) ∧
  (∀ q, q ≠ p → failures (failure_run p b now n l) !! q = failures l !! q).
Proof.
  split_and!; [apply failure_run_counter| |].
  - intros Hlt. destruct n as [|n]; [unfold u32_max in Hlt; lia|]. rewrite failure_run_S.
    pose proof (failure_run_counter p b now (S n) l) as Hc.
    rewrite failure_run_S, failures_failed, lookup_insert_eq in Hc.
    rewrite (bool_decide_eq_false_2 (S n = 0)) in Hc by lia. injection Hc as Hc.
    unfold note_outcome. rewrite Hc. unfold over. rewrite bool_decide_eq_true_2 by done.
    simpl. rewrite frozen_freeze. by eexists.
  - intros q Hq. induction n as [|n IH]; [by apply lookup_delete_ne|].
    by rewrite failure_run_S, failures_failed, lookup_insert_ne.
Qed.

End Ledger.

Module Export Store.

(** Whose budget is spent: a subject on an endpoint, never a process. *)
Record LedgerKey : Type := MkKey { subject : string; endpoint : string }.

#[export] Instance LedgerKey_eq_dec : EqDecision LedgerKey.
Proof. solve_decision. Defined.
#[export] Program Instance LedgerKey_countable : Countable LedgerKey :=
  inj_countable' (λ k, (subject k, endpoint k)) (λ '(s, e), MkKey s e) _.
Next Obligation. by intros []. Qed.

Inductive RiskError : Type := Io (what : string) | Corrupt (what : string).

(** The storage boundary.  Every operation of both implementations is one
    [with_ledger]: read the ledger of a key, update it, store it, answer. *)
Class RiskStore (St : Type) : Type := {
  store_budgets : St → Budgets;
  with_ledger {T} : LedgerKey → (Ledger → Ledger * T) → St → result RiskError T * St;
}.

Section Operations.
Context {St : Type} `{RiskStore St}.

Definition store_charge (k : LedgerKey) (c : Charge) (now : N) (s : St) : result RiskError RiskState * St :=
  with_ledger k (charge c (store_budgets s) now) s.
Definition store_peek (k : LedgerKey) (now : N) (s : St) : result RiskError RiskState * St :=
  with_ledger k (λ l, (l, peek (store_budgets s) now l)) s.
Definition store_note_outcome (k : LedgerKey) (p : string) (success : bool) (now : N) (s : St)
    : result RiskError RiskState * St :=
  with_ledger k (note_outcome p success (store_budgets s) now) s.
Definition store_note_artifact (k : LedgerKey) (a : Artifact) (s : St) : result RiskError unit * St :=
  with_ledger k (λ l, (note_artifact a l, ())) s.
Definition store_artifact (k : LedgerKey) (p : string) (s : St) : result RiskError (option Artifact) * St :=
  with_ledger k (λ l, (l, artifact p l)) s.
Definition store_freeze (k : LedgerKey) (r : FreezeReason) (s : St) : result RiskError unit * St :=
  with_ledger k (λ l, (freeze r l, ())) s.
Definition store_clear_freeze (k : LedgerKey) (s : St) : result RiskError unit * St :=
  with_ledger k (λ l, (clear_freeze l, ())) s.

(** A mutating call of some client on some key; clients share the store. *)
Definition store_step (s : St) (call : LedgerKey * LedgerOp) : St :=
  let '(k, op) := call in
  match op with
  | OpCharge c now => (store_charge k c now s).2
  | OpOutcome p ok now => (store_note_outcome k p ok now s).2
  | OpArtifact a => (store_note_artifact k a s).2
  | OpFreeze r => (store_freeze k r s).2
  | OpClearFreeze => (store_clear_freeze k s).2
  end.

Definition run_store (s : St) (calls : list (LedgerKey * LedgerOp)) : St := fold_left store_step calls s.

End Operations.

(** What the implementations promise their clients: a store is a map from keys to
    ledgers, one of which may be unreadable; an update of a readable ledger changes
    that ledger alone, and an unreadable one is refused and left as it is. *)
Class RiskStoreLaws (St : Type) `{RiskStore St} : Type := {
  contents : St → LedgerKey → option Ledger;
  in_use : LedgerKey → Prop;
  law_update {T} k (f : Ledger → Ledger * T) s l :
    contents s k = Some l →
    ∃ s', with_ledger k f s = (Ok (f l).2, s') ∧ contents s' k = Some (f l).1 ∧
      store_budgets s' = store_budgets s ∧
      ∀ k', in_use k → in_use k' → k' ≠ k → contents s' k' = contents s k';
  law_refuse {T} k (f : Ledger → Ledger * T) s :
    contents s k = None → ∃ e, with_ledger k f s = (Err e, s);
}.

Definition ops_of (k : LedgerKey) (calls : list (LedgerKey * LedgerOp)) : list LedgerOp :=
  snd <$> filter (λ c, c.1 = k) calls.

Section Clients.
Context {St : Type} `{RiskStoreLaws St}.

Lemma store_step_spec s k op k' l :
  in_use k → in_use k' → contents s k' = Some l →
  store_budgets (store_step s (k, op)) = store_budgets s ∧
  contents (store_step s (k, op)) k' =
    Some (if bool_decide (k = k') then apply_op (store_budgets s) l op else l).
Proof.
  intros Hk Hk' Hl.
  assert (Hgen : ∀ T (f : Ledger → Ledger * T),
    store_budgets (with_ledger k f s).2 = store_budgets s ∧
    contents (with_ledger k f s).2 k' = Some (if bool_decide (k = k') then (f l).1 else l)).
  { intros T f. destruct (contents s k) as [lk|] eqn:E.
    - destruct (law_update k f s lk E) as (s' & -> & Hs' & Hb & Ho). simpl. split; [done|].
      case_bool_decide as Hkk; [subst; rewrite Hs'; congruence|].
      rewrite Ho; [done..|congruence].
    - destruct (law_refuse k f s E) as (e & ->). simpl. split; [done|].
      case_bool_decide; [congruence|done]. }
  destruct op; simpl; apply Hgen.
Qed.

(** C15: splitting work across clients does not split the budget: whatever calls
    any clients interleave on the store, the ledger of a key is the one that the
    calls on that key, in order, produce on their own. *)
Theorem one_budget_per_key calls s k l :
  Forall (λ c, in_use c.1) calls → in_use k → contents s k = Some l →
  contents (run_store s calls) k = Some (apply_ops (store_budgets s) l (ops_of k calls)).
Proof.
  unfold run_store, apply_ops, ops_of. revert s l.
  induction calls as [|[k' op] calls IH]; intros s l Hall Hk Hl; [done|].
  apply Forall_cons in Hall as [Hk' Hall]. simpl in Hk'.
  destruct (store_step_spec s k' op k l Hk' Hk Hl) as [Hb Hc]. cbn [fold_left].
  rewrite (IH _ _ Hall Hk Hc), Hb, filter_cons. simpl.
  case_bool_decide; case_decide; done.
Qed.

End Clients.

End Store.

Module Export Memory.

Record InProcessRiskStore : Type := MkMemory { mem_budgets : Budgets; ledgers : gmap LedgerKey Ledger }.

Definition InProcessRiskStore_new (b : Budgets) : InProcessRiskStore := MkMemory b ∅.

(** [f(guard.entry(key).or_default())]. *)
Definition memory_with_ledger {T} (k : LedgerKey) (f : Ledger → Ledger * T) (s : InProcessRiskStore)
    : result RiskError T * InProcessRiskStore :=
  let '(l, out) := f (default Ledger_default (ledgers s !! k)) in
  (Ok out, MkMemory (mem_budgets s) (<[k := l]> (ledgers s))).

#[export] Instance memory_store : RiskStore InProcessRiskStore := {|
  store_budgets := mem_budgets; with_ledger := @memory_with_ledger |}.

#[export] Instance memory_laws : RiskStoreLaws InProcessRiskStore.
Proof.
  refine {| contents s k := Some (default Ledger_default (ledgers s !! k)); in_use _ := True |}.
  - intros T k f s l [= <-]. simpl. unfold memory_with_ledger.
    destruct (f (default Ledger_default (ledgers s !! k))) as [l' out] eqn:E.
    eexists. split_and!; [done| |done|].
    + simpl. by rewrite lookup_insert_eq.
    + intros k' _ _ Hne. simpl. by rewrite lookup_insert_ne.
  - done.
Defined.

Lemma one_budget_per_key_witness :
  let k := MkKey "local:1000" "laptop" in
  let k' := MkKey "local:1001" "laptop" in
  let s := MkMemory (MkBudgets 300 2 400 12 30 1000 40) ∅ in
  let calls := [(k, OpCharge (for_program "a") 1); (k', OpCharge (for_program "x") 1);
                (k, OpCharge (for_program "b") 2); (k, OpCharge (for_program "c") 3)] in
  contents (run_store s calls) k =
    Some (apply_ops (mem_budgets s) Ledger_default (ops_of k calls)) ∧
  frozen (apply_ops (mem_budgets s) Ledger_default (ops_of k calls)) = Some (MkFreeze (ExecRate 3 2) 3).
Proof.
  intros k k' s calls. split; [|by vm_compute].
  refine (one_budget_per_key (St := InProcessRiskStore) calls s k Ledger_default _ I eq_refl).
  unfold calls. repeat (apply Forall_cons; split; [exact I|]). apply Forall_nil_2.
Defined.

End Memory.

Module Export File.

(** Third-party code: the JSON form of a ledger and the key hash. *)
Class LedgerCodec : Type := {
  to_json : Ledger → string;
  from_json : string → result string Ledger;
  blake3_hex : string → string;
}.

(** How a call on a file can end early. [WriteFails n] is a write that stops after
    [n] bytes, a full disk or a power loss. *)
Inductive Fault : Type :=
| NoFault | OpenFails | LockFails | ReadFails | TruncateFails | WriteFails (n : nat) | SyncFails.

#[export] Instance Fault_eq_dec : EqDecision Fault.
Proof. solve_decision. Defined.

(** The directory of ledgers, as the contents of its files. *)
Record FileRiskStore : Type := MkFileStore {
  dir : string; file_budgets : Budgets; disk : gmap string string;
}.

Section Codec.
Context `{LedgerCodec}.

Definition nul : string := String (byte 0) "".
Definition storage_id (k : LedgerKey) : string :=
  slice 0 32 (blake3_hex (subject k +:+ nul +:+ endpoint k)).
Definition path_for (s : FileRiskStore) (k : LedgerKey) : string :=
  path_join (dir s) (storage_id k +:+ ".json").

(** What the bytes of a ledger file mean. *)
Definition decode_ledger (buf : string) : result RiskError Ledger :=
  if is_empty (trim buf) then Ok Ledger_default else map_err Corrupt (from_json buf).

(** [locked_update]: the answer, and the bytes left in the file. *)
Definition locked_update {T} (fault : Fault) (f : Ledger → Ledger * T) (buf : string)
    : result RiskError T * string :=
  if bool_decide (fault = ReadFails) then (Err (Io "read"), buf)
  else
    match decode_ledger buf with
    | Err e => (Err e, buf)
    | Ok l =>
        let '(l', out) := f l in
        let encoded := to_json l' in
        match fault with
        | TruncateFails => (Err (Io "set_len"), buf)
        | WriteFails n => (Err (Io "write"), str_take n encoded)
        | SyncFails => (Err (Io "sync"), encoded)
        | _ => (Ok out, encoded)
        end
    end.

(** [with_ledger]: opening creates the file when it is missing. *)
Definition file_with_ledger {T} (fault : Fault) (k : LedgerKey) (f : Ledger → Ledger * T)
    (s : FileRiskStore) : result RiskError T * FileRiskStore :=
  let p := path_for s k in
  let buf := default "" (disk s !! p) in
  match fault with
  | OpenFails => (Err (Io "open"), s)
  | LockFails => (Err (Io "lock"), MkFileStore (dir s) (file_budgets s) (<[p := buf]> (disk s)))
  | _ =>
      let '(out, bytes) := locked_update fault f buf in
      (out, MkFileStore (dir s) (file_budgets s) (<[p := bytes]> (disk s)))
  end.

#[export] Instance file_store : RiskStore FileRiskStore := {|
  store_budgets := file_budgets; with_ledger T := file_with_ledger NoFault |}.

End Codec.

Lemma length_append (a b : string) : String.length (a +:+ b) = String.length a + String.length b.
Proof. induction a as [|x a IH]; [done|]. rewrite app_cons_str. simpl. by rewrite IH. Qed.

Lemma app_inv_tail (t a b : string) : a +:+ t = b +:+ t → a = b.
Proof.
  intros Heq. assert (Hl : String.length a = String.length b).
  { apply (f_equal String.length) in Heq. rewrite !length_append in Heq. lia. }
  revert b Hl Heq. induction a as [|x a IH]; intros [|y b] Hl Heq; try done.
  rewrite !app_cons_str in Heq. injection Heq as -> Heq. f_equal. apply IH; [by injection Hl|done].
Qed.

Lemma starts_with_slash_app a t :
  starts_with "/" t = false → starts_with "/" a = false → starts_with "/" (a +:+ t) = false.
Proof.
  intros Ht Ha. destruct a as [|x a]; [done|]. apply not_true_iff_false. rewrite starts_with_spec.
  intros [u Hu]. apply not_true_iff_false in Ha. apply Ha. rewrite starts_with_spec. exists a.
  rewrite app_cons_str in Hu. injection Hu as -> _. done.
Qed.

Lemma path_join_json_inj d a b :
  starts_with "/" a = false → starts_with "/" b = false →
  path_join d (a +:+ ".json") = path_join d (b +:+ ".json") → a = b.
Proof.
  intros Ha Hb. unfold path_join, path_is_absolute.
  rewrite !starts_with_slash_app by done. intros Heq. apply (app_inv_tail ".json").
  destruct (is_empty d); [done|]. destruct (ends_with "/" d); [by apply (inj (String.append d)) in Heq|].
  apply (inj (String.append d)) in Heq. by apply (inj (String.append "/")) in Heq.
Qed.

(** What the store relies on: a ledger reads back from its own JSON, which is
    never blank, and no two keys in use share a file. *)
Class LedgerCodecLaws `{LedgerCodec} (used : LedgerKey → Prop) : Prop := {
  json_roundtrip l : from_json (to_json l) = Ok l;
  json_not_blank l : is_empty (trim (to_json l)) = false;
  storage_injective k k' : used k → used k' → storage_id k = storage_id k' → k = k';
  storage_relative k : used k → starts_with "/" (storage_id k) = false;
}.

Section Laws.
Context `{LedgerCodecLaws used}.

Lemma decode_ledger_encode l : decode_ledger (to_json l) = Ok l.
Proof. unfold decode_ledger. by rewrite json_not_blank, json_roundtrip. Qed.

Definition file_contents (s : FileRiskStore) (k : LedgerKey) : option Ledger :=
  p ← Some (path_for s k); ok (decode_ledger (default "" (disk s !! p))).

Lemma file_update_ok {T} k (f : Ledger → Ledger * T) s l :
  file_contents s k = Some l →
  file_with_ledger NoFault k f s =
    (Ok (f l).2, MkFileStore (dir s) (file_budgets s) (<[path_for s k := to_json (f l).1]> (disk s))).
Proof.
  unfold file_contents, file_with_ledger, locked_update. simpl.
  destruct (decode_ledger _) as [l'|e]; simpl; [|done]. intros [= ->].
  by destruct (f l) as [l' out].
Qed.

(** The update of one key leaves the files of the others alone. *)
Lemma file_contents_insert s k k' bytes b :
  used k → used k' → k' ≠ k →
  file_contents (MkFileStore (dir s) b (<[path_for s k := bytes]> (disk s))) k' = file_contents s k'.
Proof.
  intros Hk Hk' Hne. unfold file_contents. simpl.
  rewrite lookup_insert_ne; [done|]. unfold path_for. simpl. intros Hp. apply Hne.
  apply (storage_injective _ _ Hk' Hk). symmetry.
  apply path_join_json_inj in Hp; [done|by apply storage_relative..].
Qed.

#[export] Instance file_laws : RiskStoreLaws FileRiskStore.
Proof.
  refine {| contents := file_contents; in_use := used |}.
  - intros T k f s l Hl. change (with_ledger k f s) with (file_with_ledger NoFault k f s).
    rewrite (file_update_ok k f s l Hl).
    eexists. split_and!; [done| |done|].
    + unfold file_contents, path_for. simpl. rewrite lookup_insert_eq. simpl. by rewrite decode_ledger_encode.
    + intros k' Hk Hk' Hne. by apply file_contents_insert.
  - intros T k f s Hc. change (with_ledger k f s) with (file_with_ledger NoFault k f s).
    unfold file_contents in Hc. simpl in Hc. unfold file_with_ledger, locked_update. simpl.
    destruct (disk s !! path_for s k) as [buf|] eqn:Hd; simpl in *;
      [|by unfold decode_ledger in Hc].
    destruct (decode_ledger buf) as [l|e]; [done|]. exists e. rewrite insert_id by done.
    by destruct s.
Defined.

(** A call that fails before it writes, or after it has written everything,
    leaves either the old ledger or the new one: never a mixture, and never the
    ledger of another key. *)
Theorem faults_keep_old_or_new {T} fault k (f : Ledger → Ledger * T) s l :
  file_contents s k = Some l → (∀ n, fault ≠ WriteFails n) →
  let s' := (file_with_ledger fault k f s).2 in
  (file_contents s' k = Some l ∨ file_contents s' k = Some (f l).1) ∧
  (fault ≠ NoFault → ∃ e, (file_with_ledger fault k f s).1 = Err (Io e)) ∧
  (used k → ∀ k', used k' → k' ≠ k → file_contents s' k' = file_contents s k').
Proof.
  intros Hl Hf. assert (Hd : decode_ledger (default "" (disk s !! path_for s k)) = Ok l).
  { unfold file_contents in Hl. simpl in Hl. destruct (decode_ledger _); [|done]. by injection Hl as ->. }
  assert (Hback : ∀ bytes l', decode_ledger bytes = Ok l' →
    file_contents (MkFileStore (dir s) (file_budgets s) (<[path_for s k := bytes]> (disk s))) k = Some l').
  { intros bytes l' Hb. unfold file_contents, path_for. simpl. rewrite lookup_insert_eq. simpl. by rewrite Hb. }
  destruct fault; unfold file_with_ledger, locked_update; simpl; rewrite ?Hd;
    try (destruct (f l) as [l' out] eqn:E); simpl.
  all: try match goal with H : ∀ n, WriteFails ?m ≠ WriteFails n |- _ => destruct (H m eq_refl) end.
  all: split_and!; try (intros Hx; first [by destruct Hx | eexists; reflexivity]); try (intros ? k' ? ?; by first [done|apply file_contents_insert]).
  all: first [by left | left; by apply Hback | right; apply Hback, decode_ledger_encode | done].
Qed.

(** A ledger that does not parse is never reset: every operation on it, under
    every fault, is refused and leaves the store as it was. *)
Theorem corrupt_ledger_fails_closed {T} fault k (f : Ledger → Ledger * T) s buf e :
  disk s !! path_for s k = Some buf → is_empty (trim buf) = false → from_json buf = Err e →
  (∃ e', (file_with_ledger fault k f s).1 = Err e') ∧ (file_with_ledger fault k f s).2 = s.
Proof.
  intros Hd Hb He.
  assert (Hl : decode_ledger buf = Err (Corrupt e)) by (unfold decode_ledger; by rewrite Hb, He).
  assert (Hs : MkFileStore (dir s) (file_budgets s) (<[path_for s k := buf]> (disk s)) = s)
    by (rewrite insert_id by done; by destruct s).
  destruct fault; unfold file_with_ledger, locked_update; simpl; rewrite ?Hd; simpl;
    rewrite ?Hl; simpl; by eauto.
Qed.

(** A write that stops right after the truncation, a full disk or a power
    loss, leaves an empty file, which the next call reads as a fresh ledger: the
    freeze that was on disk is gone. *)
Theorem torn_write_loses_freeze {T} k (f : Ledger → Ledger * T) s l now :
  file_contents s k = Some l →
  let s' := (file_with_ledger (WriteFails 0) k f s).2 in
  file_contents s' k = Some Ledger_default ∧
  (store_peek k now s').1 = Ok (peek (file_budgets s) now Ledger_default).
Proof.
  intros Hl. assert (Hd : decode_ledger (default "" (disk s !! path_for s k)) = Ok l).
  { unfold file_contents in Hl. simpl in Hl. destruct (decode_ledger _); [|done]. by injection Hl as ->. }
  assert (Hs : (file_with_ledger (WriteFails 0) k f s).2 =
    MkFileStore (dir s) (file_budgets s) (<[path_for s k := ""]> (disk s))).
  { unfold file_with_ledger, locked_update. simpl. rewrite Hd. by destruct (f l). }
  cbv zeta. rewrite Hs. assert (Hc : file_contents
    (MkFileStore (dir s) (file_budgets s) (<[path_for s k := ""]> (disk s))) k = Some Ledger_default).
  { unfold file_contents, path_for. simpl. by rewrite lookup_insert_eq. }
  split; [done|]. unfold store_peek.
  change (with_ledger k ?g ?t) with (file_with_ledger NoFault k g t). by rewrite (file_update_ok _ _ _ _ Hc).
Qed.

End Laws.

(** ** A concrete codec *)

#[export] Instance BudgetBreach_countable : Countable BudgetBreach.
Proof.
  refine (inj_countable' (λ b, match b with
    | ExecRate c l => (0, "", c, l) | RepeatedProgram p c l => (1, p, c, l)
    | ConsecutiveFailures p c l => (2, p, c, l) | HostFanOut c l => (3, "", c, l)
    | BytesOut c l => (4, "", c, l) | InstallRate c l => (5, "", c, l) end)
    (λ '(k, p, c, l), match k with
    | 0 => ExecRate c l | 1 => RepeatedProgram p c l | 2 => ConsecutiveFailures p c l
    | 3 => HostFanOut c l | 4 => BytesOut c l | _ => InstallRate c l end) _). by intros [].
Defined.
#[export] Program Instance FreezeReason_countable : Countable FreezeReason :=
  inj_countable' (λ r, (breach r, freeze_at r)) (λ '(b, a), MkFreeze b a) _.
Next Obligation. by intros []. Qed.
#[export] Instance ArtifactTrust_countable : Countable ArtifactTrust.
Proof.
  refine (inj_countable' (λ t, match t with Untrusted => 0 | Workspace => 1 | Operator => 2 end)
    (λ n, match n with 0 => Untrusted | 1 => Workspace | _ => Operator end) _). by intros [].
Defined.
#[export] Program Instance Artifact_countable : Countable Artifact :=
  inj_countable' (λ a, (path a, trust a, origin a, artifact_at a)) (λ '(p, t, o, n), MkArtifact p t o n) _.
Next Obligation. by intros []. Qed.
#[export] Program Instance Event_countable : Countable Event :=
  inj_countable' (λ e, (at_ e, program e, installed e, hosts e, bytes_out e))
    (λ '(a, p, i, h, b), MkEvent a p i h b) _.
Next Obligation. by intros []. Qed.
#[export] Program Instance Ledger_countable : Countable Ledger :=
  inj_countable' (λ l, (events l, failures l, artifacts l, frozen l)) (λ '(e, f, a, r), MkLedger e f a r) _.
Next Obligation. by intros []. Qed.

(** A ledger as the decimal digits of its code; keys as padded text. *)
#[local] Instance toy_codec : LedgerCodec := {|
  to_json l := pretty (N.pos (encode l));
  from_json s :=
    match dec_go 0 s with
    | Some (N.pos p) => match decode p with Some l => Ok l | None => Err "no ledger" end
    | _ => Err "not a number"
    end;
  blake3_hex s := s +:+ "................................";
|}.

Definition key_a : LedgerKey := MkKey "local:1000" "laptop".
Definition key_b : LedgerKey := MkKey "local:1001" "laptop".
Definition toy_keys (k : LedgerKey) : Prop := k = key_a ∨ k = key_b.

#[local] Instance toy_codec_laws : LedgerCodecLaws toy_keys.
Proof.
  split.
  - intros l. unfold from_json, to_json, toy_codec. by rewrite dec_go_pretty_N, decode_encode.
  - intros l. unfold to_json, toy_codec. rewrite trim_pretty.
    pose proof (pretty_N_nonempty (N.pos (encode l))). by destruct (pretty (N.pos (encode l))).
  - intros k k' [-> | ->] [-> | ->]; [done| | |done]; intros H; by vm_compute in H.
  - intros k [-> | ->]; by vm_compute.
Qed.

Definition toy_frozen : Ledger := freeze (MkFreeze (ExecRate 9 2) 7) Ledger_default.
Definition toy_store : FileRiskStore :=
  let s := MkFileStore "/state" Budgets_default ∅ in
  MkFileStore "/state" Budgets_default {[ path_for s key_a := to_json toy_frozen ]}.

Lemma toy_store_contents : file_contents toy_store key_a = Some toy_frozen.
Proof.
  change (ok (decode_ledger (default "" (({[ path_for toy_store key_a := to_json toy_frozen ]} :
    gmap string string) !! path_for toy_store key_a))) = Some toy_frozen).
  rewrite lookup_singleton_eq. change (default "" (Some ?x)) with x. by rewrite (decode_ledger_encode toy_frozen).
Qed.

Lemma faults_keep_old_or_new_witness :
  file_contents (file_with_ledger SyncFails key_a (λ l, (clear_freeze l, ())) toy_store).2 key_a = Some toy_frozen ∨
  file_contents (file_with_ledger SyncFails key_a (λ l, (clear_freeze l, ())) toy_store).2 key_a
    = Some (clear_freeze toy_frozen).
Proof.
  exact (proj1 (faults_keep_old_or_new SyncFails key_a (λ l, (clear_freeze l, ())) toy_store toy_frozen
    toy_store_contents (λ n H, ltac:(discriminate H)))).
Defined.

Lemma corrupt_ledger_fails_closed_witness :
  let s := MkFileStore "/state" Budgets_default {[ path_for toy_store key_a := "garbage" ]} in
  (file_with_ledger NoFault key_a (λ l, (clear_freeze l, ())) s).2 = s.
Proof.
  intros s. apply (corrupt_ledger_fails_closed NoFault key_a _ s "garbage" "not a number");
    [apply lookup_singleton_eq|by vm_compute|by vm_compute].
Defined.

Lemma torn_write_loses_freeze_witness :
  is_Some (frozen toy_frozen) ∧
  file_contents (file_with_ledger (WriteFails 0) key_a (λ l, (l, ())) toy_store).2 key_a = Some Ledger_default.
Proof.
  split; [by eexists|].
  exact (proj1 (torn_write_loses_freeze key_a (λ l, (l, ())) toy_store toy_frozen 0 toy_store_contents)).
Defined.

End File.
