(* ===== verification/AuditChain.v ===== *)
(** The hash-chained audit log (crate [ainxt-audit], and [install_audit] of
    [ainxt-pep/src/bootstrap.rs]): appending, verification, the checkpoint, the
    JSON-lines file and the process-wide sink. *)
From S2P Require Import Prelude RustStr StrSearch.

Module Export Chain.

(** Third-party and leaf code: the JSON form of a record's core, the hash, and the
    secret redactor of [ainxt-secrets]. *)
Class AuditEnv : Type := {
  core_json : N * string * string * string * string * string * string * option string * string → string;
  blake3_hex : string → string;
  redact : string → string;
}.

Definition GENESIS_HASH : string := "".

Record AuditEntry : Type := MkEntry {
  entry_actor : string; entry_action : string; entry_target : string;
  entry_tier : string; entry_decision : string; entry_rule : option string;
}.

Record AuditRecord : Type := MkRecord {
  seq : N; timestamp : string; actor : string; action : string; target : string;
  tier : string; decision : string; rule : option string;
  prev_hash : string; this_hash : string;
}.

#[export] Instance AuditRecord_eq_dec : EqDecision AuditRecord.
Proof. solve_decision. Defined.

Record Checkpoint : Type := MkCheckpoint { last_seq : N; last_hash : string }.

Inductive AuditError : Type :=
| Empty
| SeqGap (at_ : nat) (expected found : N)
| PrevHashMismatch (at_ : nat)
| HashMismatch (at_ : nat)
| Truncated (expected : N) (found : option N)
| CheckpointHashMismatch
| IoError (what : string).

(** The committed fields of a record: everything but its own hash. *)
Definition Core : Type := N * string * string * string * string * string * string * option string * string.
Definition core (r : AuditRecord) : Core :=
  (seq r, timestamp r, actor r, action r, target r, tier r, decision r, rule r, prev_hash r).

Lemma record_core_inj r r' : core r = core r' → this_hash r = this_hash r' → r = r'.
Proof. destruct r, r'. unfold core. simpl. congruence. Qed.

Record AuditLog : Type := MkLog { log_seq : N; log_hash : string }.

Definition AuditLog_new : AuditLog := MkLog 0 GENESIS_HASH.
Definition resume (c : Checkpoint) : AuditLog := MkLog (last_seq c) (last_hash c).
Definition checkpoint (l : AuditLog) : Checkpoint := MkCheckpoint (log_seq l) (log_hash l).

Section Env.
Context `{AuditEnv}.

Definition hash_core (c : Core) : string := blake3_hex (core_json c).
Definition compute_hash (r : AuditRecord) : string := hash_core (core r).

(** [append] at time [now]: sequence numbers are [u64]. *)
Definition append (now : string) (e : AuditEntry) (l : AuditLog) : AuditRecord * AuditLog :=
  let s := wrap64 (log_seq l + 1) in
  let r := MkRecord s now (redact (entry_actor e)) (redact (entry_action e)) (redact (entry_target e))
             (redact (entry_tier e)) (redact (entry_decision e)) (redact <$> entry_rule e)
             (log_hash l) "" in
  let h := compute_hash r in
  (MkRecord (seq r) (timestamp r) (actor r) (action r) (target r) (tier r) (decision r) (rule r)
     (prev_hash r) h, MkLog s h).

(** The loop of [verify_chain] from index [at_] on. *)
Fixpoint verify_from (records : list AuditRecord) (at_ : nat) (expected_prev : string) (expected_seq : N)
    : result AuditError unit :=
  match records with
  | [] => Ok ()
  | r :: rest =>
      if negb (bool_decide (seq r = expected_seq)) then Err (SeqGap at_ expected_seq (seq r))
      else if negb (bool_decide (prev_hash r = expected_prev)) then Err (PrevHashMismatch at_)
      else if negb (bool_decide (compute_hash r = this_hash r)) then Err (HashMismatch at_)
      else verify_from rest (S at_) (this_hash r) (wrap64 (expected_seq + 1))
  end.

Definition verify_chain (records : list AuditRecord) : result AuditError unit :=
  match records with
  | [] => Err Empty
  | first :: _ => verify_from records 0 GENESIS_HASH (seq first)
  end.

Definition verify_against_checkpoint (records : list AuditRecord) (c : Checkpoint)
    : result AuditError unit :=
  match verify_chain records, last records with
  | Ok _, Some r =>
      if bool_decide (seq r < last_seq c)%N then Err (Truncated (last_seq c) (Some (seq r)))
      else if bool_decide (seq r = last_seq c) && negb (bool_decide (this_hash r = last_hash c))
      then Err CheckpointHashMismatch
      else Ok ()
  | Err e, _ => Err e
  | Ok _, None => Ok ()
  end.

(** Several appends in a row, with their times. *)
Fixpoint append_all (es : list (string * AuditEntry)) (l : AuditLog) : list AuditRecord * AuditLog :=
  match es with
  | [] => ([], l)
  | (now, e) :: rest =>
      let '(r, l1) := append now e l in
      let '(rs, l2) := append_all rest l1 in
      (r :: rs, l2)
  end.

(** ** The chain as a relation *)

(** [chained prev s rs]: the records follow one another from hash [prev] and
    sequence number [s]. *)
Inductive chained : string → N → list AuditRecord → Prop :=
| chained_nil p s : chained p s []
| chained_cons p s r rs :
    seq r = s → prev_hash r = p → compute_hash r = this_hash r →
    chained (this_hash r) (wrap64 (s + 1)) rs → chained p s (r :: rs).

Lemma verify_from_chained rs at_ p s : verify_from rs at_ p s = Ok () ↔ chained p s rs.
Proof.
  revert at_ p s. induction rs as [|r rs IH]; intros at_ p s; simpl.
  - split; [constructor|done].
  - split.
    + repeat case_bool_decide; simpl; try done. intros ?%IH. by constructor.
    + inversion_clear 1 as [|? ? ? ? Hs Hp Hh Hc].
      rewrite !bool_decide_eq_true_2 by done. simpl. by apply IH.
Qed.

Lemma verify_chain_chained rs :
  verify_chain rs = Ok () ↔ ∃ r rest, rs = r :: rest ∧ chained GENESIS_HASH (seq r) rs.
Proof.
  unfold verify_chain. destruct rs as [|r rest]; [naive_solver|]. rewrite verify_from_chained. naive_solver.
Qed.

Lemma compute_hash_this r h :
  compute_hash (MkRecord (seq r) (timestamp r) (actor r) (action r) (target r) (tier r) (decision r)
    (rule r) (prev_hash r) h) = compute_hash r.
Proof. done. Qed.

Lemma chained_app p s rs rs' :
  chained p s (rs ++ rs') ↔
  chained p s rs ∧
  chained (default p (this_hash <$> last rs)) (default s (wrap64 <$> ((λ r, seq r + 1)%N <$> last rs))) rs'.
Proof.
  revert p s. induction rs as [|r rs IH]; intros p s.
  { simpl. split; [|by intros [_ ?]]. intros ?. split; [constructor|done]. }
  cbn [app]. split.
  - inversion_clear 1 as [|? ? ? ? Hs Hp Hh Hc]. apply IH in Hc as [H1 H2].
    split; [by constructor|]. rewrite last_cons. destruct (last rs) as [x|]; simpl in *; [done|by subst].
  - intros [H1 H2]. inversion_clear H1 as [|? ? ? ? Hs Hp Hh Hc]. constructor; [done..|].
    apply IH. split; [done|]. rewrite last_cons in H2. destruct (last rs) as [x|]; simpl in *; [done|by subst].
Qed.

Lemma append_all_chained es l rs l' :
  append_all es l = (rs, l') →
  chained (log_hash l) (wrap64 (log_seq l + 1)) rs ∧
  log_hash l' = default (log_hash l) (this_hash <$> last rs) ∧
  log_seq l' = default (log_seq l) (seq <$> last rs) ∧ length rs = length es.
Proof.
  revert l rs l'. induction es as [|[now e] es IH]; intros l rs l' Ha; simpl in Ha.
  { injection Ha as <- <-. split_and!; [constructor|done..]. }
  destruct (append_all es _) as [rs1 l2] eqn:E. injection Ha as <- <-.
  apply IH in E as (Hc & Hh & Hq & Hn). simpl in Hc, Hh, Hq. split_and!.
  - constructor; [done..|]. simpl. exact Hc.
  - rewrite Hh, last_cons. by destruct (last rs1).
  - rewrite Hq, last_cons. by destruct (last rs1).
  - simpl. by rewrite Hn.
Qed.

(** What is appended verifies: the records of a fresh log form a chain that
    [verify_chain] accepts and that matches the log's own checkpoint, and a log
    resumed from the head of an accepted chain extends it to an accepted chain. *)
Theorem appended_chain_verifies e es :
  let '(rs, l) := append_all (e :: es) AuditLog_new in
  verify_chain rs = Ok () ∧ verify_against_checkpoint rs (checkpoint l) = Ok () ∧
  ∀ old r more, verify_chain old = Ok () → last old = Some r →
    verify_chain (old ++ (append_all more (resume (MkCheckpoint (seq r) (this_hash r)))).1) = Ok ().
Proof.
  destruct (append_all (e :: es) AuditLog_new) as [rs l] eqn:E.
  pose proof (append_all_chained _ _ _ _ E) as (Hc & Hh & Hq & Hn).
  destruct rs as [|r rs]; [done|].
  assert (Hv : verify_chain (r :: rs) = Ok ()).
  { apply verify_chain_chained. exists r, rs. split; [done|].
    assert (seq r = wrap64 (log_seq AuditLog_new + 1)) as -> by (by inversion Hc). exact Hc. }
  split_and!; [done| |].
  - unfold verify_against_checkpoint. rewrite Hv. unfold checkpoint. simpl. rewrite Hh, Hq, last_cons.
    destruct (last rs) as [x|]; simpl; (rewrite bool_decide_eq_false_2 by lia);
      by rewrite !bool_decide_eq_true_2.
  - intros old x more Ho Hl. apply verify_chain_chained in Ho as (r0 & rest & -> & Hc0).
    apply verify_chain_chained. exists r0, (rest ++ (append_all more (resume (MkCheckpoint (seq x) (this_hash x)))).1).
    split; [done|]. apply chained_app. split; [done|].
    rewrite Hl. simpl. destruct (append_all more _) as [ms l'] eqn:Em.
    by apply append_all_chained in Em as (Hm & _).
Qed.

(** Two chains that carry the same records from some point on, and just before it
    hold two records with different committed fields and one hash. *)
Definition collides (rs rs' : list AuditRecord) : Prop :=
  ∃ older older' a b shared, rs = older ++ a :: shared ∧ rs' = older' ++ b :: shared ∧
    core a ≠ core b ∧ compute_hash a = compute_hash b.

Lemma collides_snoc rs rs' r : collides rs rs' → collides (rs ++ [r]) (rs' ++ [r]).
Proof.
  intros (o & o' & a & b & sh & -> & -> & Hne & Hh). exists o, o', a, b, (sh ++ [r]).
  by rewrite <- !app_assoc.
Qed.

(** What the newest record of a chain says of the one before it. *)
Lemma chained_snoc_inv p s rs r :
  chained p s (rs ++ [r]) →
  chained p s rs ∧ prev_hash r = default p (this_hash <$> last rs) ∧ compute_hash r = this_hash r.
Proof. intros [Hc Hr]%chained_app. by inversion_clear Hr. Qed.

Lemma chained_last_hash p s rs r : chained p s rs → last rs = Some r → compute_hash r = this_hash r ∧ r ∈ rs.
Proof.
  intros Hc [l ->]%last_Some. apply chained_snoc_inv in Hc as (_ & _ & Hh).
  split; [done|]. apply elem_of_app. right. by apply list_elem_of_singleton.
Qed.

(** A chain that starts where the other still has a predecessor: the predecessor
    hashes to the genesis value. *)
Lemma genesis_in_the_middle s rs r :
  chained GENESIS_HASH s rs → rs ≠ [] → default GENESIS_HASH (this_hash <$> last rs) = GENESIS_HASH →
  ∃ x, x ∈ rs ++ [r] ∧ compute_hash x = GENESIS_HASH.
Proof.
  intros Hc Hne Hd. destruct (last rs) as [x|] eqn:El; [|by apply last_None in El].
  destruct (chained_last_hash _ _ _ _ Hc El) as [Hx Hin]. exists x. simpl in Hd.
  split; [apply elem_of_app; by left|congruence].
Qed.

Lemma chained_head_determines rs rs' s s' :
  chained GENESIS_HASH s rs → chained GENESIS_HASH s' rs' →
  this_hash <$> last rs = this_hash <$> last rs' →
  rs = rs' ∨ collides rs rs' ∨ (∃ x, (x ∈ rs ∨ x ∈ rs') ∧ compute_hash x = GENESIS_HASH).
Proof.
  revert rs'. induction rs as [|r rs IH] using rev_ind; intros rs' H1 H2 Hl.
  { destruct rs' as [|r' rs' _] using rev_ind; [by left|]. by rewrite last_snoc in Hl. }
  destruct rs' as [|r' rs' _] using rev_ind; [by rewrite last_snoc in Hl|].
  rewrite !last_snoc in Hl. injection Hl as Hl.
  apply chained_snoc_inv in H1 as (H1 & Hp & Hh). apply chained_snoc_inv in H2 as (H2 & Hp' & Hh').
  destruct (decide (core r = core r')) as [Hcore|Hcore].
  2: { right. left. exists rs, rs', r, r', []. by rewrite Hh, Hh'. }
  assert (r = r') as <- by (by apply record_core_inj). rewrite Hp' in Hp.
  destruct (decide (rs = [])) as [->|Hne], (decide (rs' = [])) as [->|Hne']; [by left|..].
  - right. right. destruct (genesis_in_the_middle s' rs' r H2 Hne' Hp) as (x & Hx & Hg). eauto.
  - right. right. destruct (genesis_in_the_middle s rs r H1 Hne (eq_sym Hp)) as (x & Hx & Hg). eauto.
  - destruct (IH rs' H1 H2) as [-> |[Hc|(x & Hx & Hg)]].
    + destruct (last rs) eqn:E; [|by apply last_None in E]. destruct (last rs') eqn:E'; [|by apply last_None in E'].
      simpl in *. by rewrite Hp.
    + by left.
    + right. left. by apply collides_snoc.
    + right. right. exists x. rewrite !elem_of_app. split; [tauto|done].
Qed.

(** C16: the log is tamper-evident: of two chains that verify and end in the same
    hash, going back from the newest record, the records are the same down to the
    first record of both, or down to two records, one in each chain at the same
    distance from the end, whose committed fields differ and whose hashes are
    equal. The only other way to differ is a record whose hash is the empty
    string, which the first record of a chain names as its predecessor. *)
Theorem tamper_evident rs rs' r r' :
  verify_chain rs = Ok () → verify_chain rs' = Ok () →
  last rs = Some r → last rs' = Some r' → this_hash r = this_hash r' →
  rs = rs' ∨ collides rs rs' ∨ (∃ x, (x ∈ rs ∨ x ∈ rs') ∧ compute_hash x = GENESIS_HASH).
Proof.
  intros (x & xs & Hx & H1)%verify_chain_chained (y & ys & Hy & H2)%verify_chain_chained Hr Hr' Hh.
  apply (chained_head_determines rs rs' _ _ H1 H2). by rewrite Hr, Hr'; simpl; rewrite Hh.
Qed.

(** Deleting the newest records is detected: a proper prefix of a verified
    chain does not pass against the checkpoint of the whole chain. *)
Theorem truncation_detected rs rs' r r' :
  verify_chain (rs ++ rs') = Ok () → last rs = Some r → last rs' = Some r' → (seq r < seq r')%N →
  verify_against_checkpoint rs (MkCheckpoint (seq r') (this_hash r'))
    = Err (Truncated (seq r') (Some (seq r))).
Proof.
  intros Hv Hr Hr' Hlt. unfold verify_against_checkpoint.
  assert (verify_chain rs = Ok ()) as ->.
  { apply verify_chain_chained in Hv as (x & xs & Hx & Hc). apply chained_app in Hc as [Hc _].
    apply verify_chain_chained. destruct rs as [|y ys]; [done|]. injection Hx as -> _. eauto. }
  rewrite Hr. simpl. by rewrite bool_decide_eq_true_2.
Qed.

(** The checkpoint only guards a chain that ends exactly at it: a chain forged
    from scratch that is longer than the checkpoint is accepted, whatever hash the
    checkpoint carries. *)
Theorem longer_forged_chain_accepted c es rs l :
  append_all es AuditLog_new = (rs, l) → es ≠ [] → (last_seq c < log_seq l)%N →
  verify_against_checkpoint rs c = Ok ().
Proof.
  intros E Hne Hlt. pose proof (append_all_chained _ _ _ _ E) as (Hc & Hh & Hq & Hn).
  destruct rs as [|r rs]; [by destruct es|].
  assert (Hv : verify_chain (r :: rs) = Ok ()).
  { apply verify_chain_chained. exists r, rs. split; [done|].
    assert (seq r = wrap64 (log_seq AuditLog_new + 1)) as -> by (by inversion Hc). exact Hc. }
  unfold verify_against_checkpoint. rewrite Hv. rewrite Hq in Hlt.
  destruct (last (r :: rs)) as [x|]; [|done]. simpl in Hlt.
  rewrite !bool_decide_eq_false_2 by lia. done.
Qed.

Lemma verify_from_app_err rs rs' at_ p s e :
  verify_from rs at_ p s = Err e → verify_from (rs ++ rs') at_ p s = Err e.
Proof.
  revert at_ p s. induction rs as [|r rs IH]; intros at_ p s; simpl; [done|].
  repeat case_match; try done. apply IH.
Qed.

(** Appending never repairs a chain. *)
Lemma verify_chain_app_err rs rs' e : rs ≠ [] → verify_chain rs = Err e → verify_chain (rs ++ rs') = Err e.
Proof. destruct rs as [|r rs]; [done|]. intros _. apply verify_from_app_err. Qed.

End Env.

End Chain.

Module Export Sink.

(** The JSON form of a record, one line of the log file. *)
Class RecordCodec : Type := {
  record_json : AuditRecord → string;
  parse_record : string → result string AuditRecord;
}.

Fixpoint parse_lines `{RecordCodec} (ls : list string) : result AuditError (list AuditRecord) :=
  match ls with
  | [] => Ok []
  | l :: rest =>
      match parse_record l with
      | Err e => Err (IoError e)
      | Ok r => match parse_lines rest with Ok rs => Ok (r :: rs) | Err e => Err e end
      end
  end.

#[global] Arguments append : simpl never.

(** The file system of one log: its text, or why it cannot be read. *)
Inductive LogFile : Type := Missing | Unreadable (why : string) | Text (text : string).

Section File.
Context `{RecordCodec}.

Definition load (f : LogFile) : result AuditError (list AuditRecord) :=
  match f with
  | Missing => Ok []
  | Unreadable why => Err (IoError why)
  | Text text => parse_lines (filter (λ l, is_empty (trim l) = false) (lines text))
  end.

(** [FileAuditSink::write]; [fault] is the I/O error of this call, if any. *)
Definition write (fault : option string) (r : AuditRecord) (f : LogFile) : result AuditError unit * LogFile :=
  match fault, f with
  | Some e, _ => (Err (IoError e), f)
  | None, Unreadable why => (Err (IoError why), f)
  | None, Missing => (Ok (), Text (record_json r +:+ newline))
  | None, Text text => (Ok (), Text (text +:+ record_json r +:+ newline))
  end.

(** A file the sink has written: whole records, each ended by a newline. *)
Fixpoint log_text (rs : list AuditRecord) : string :=
  match rs with
  | [] => ""
  | r :: rest => record_json r +:+ newline +:+ log_text rest
  end.

End File.

(** The process-wide chain and its sink; [None] until it is installed. *)
Record GlobalAudit : Type := MkGlobal { log : AuditLog; sink : LogFile }.

Section Global.
Context `{AuditEnv} `{RecordCodec}.

(** [global::record]: the record is chained whether or not it reaches the file. *)
Definition record (fault : option string) (now : string) (e : AuditEntry) (g : option GlobalAudit)
    : option AuditRecord * option GlobalAudit :=
  match g with
  | None => (None, None)
  | Some g =>
      let '(r, l) := append now e (log g) in
      (Some r, Some (MkGlobal l (write fault r (sink g)).2))
  end.

(** What [install_audit] finds. *)
Inductive AuditStart : Type :=
| Fresh
| Resumed (records : nat)
| Broken (detail : AuditError) (records : nat)
| NoDirectory (why : string).

(** [install_audit] over the file [f]; [mkdir] is the failure of the directory. *)
Definition install_audit (mkdir : option string) (f : LogFile) (g : option GlobalAudit)
    : AuditStart * option GlobalAudit :=
  match mkdir with
  | Some why => (NoDirectory why, g)
  | None =>
      match load f with
      | Err e => (Broken e 0, Some (MkGlobal AuditLog_new f))
      | Ok records =>
          match last records with
          | None => (Fresh, Some (MkGlobal AuditLog_new f))
          | Some r =>
              match verify_chain records with
              | Err e => (Broken e (length records), Some (MkGlobal AuditLog_new f))
              | Ok _ =>
                  (Resumed (length records),
                   Some (MkGlobal (resume (MkCheckpoint (seq r) (this_hash r))) f))
              end
          end
      end
  end.

(** What the file relies on: a record reads back from its own line, which is not
    blank and has no line break in it. *)
Class RecordCodecLaws : Prop := {
  record_roundtrip r : parse_record (record_json r) = Ok r;
  record_one_line r : contains_byte (byte 10) (record_json r) = false;
  record_no_cr r : strip_suffix carriage_return (record_json r) = None;
  record_not_blank r : is_empty (trim (record_json r)) = false;
}.

Section Laws.
Context `{RecordCodecLaws}.

Lemma split_log_text rs : split_on (byte 10) (log_text rs) = (record_json <$> rs) ++ [""].
Proof.
  induction rs as [|r rs IH]; [done|]. cbn [log_text].
  change (newline +:+ log_text rs) with (String (byte 10) (log_text rs)).
  rewrite split_on_sep by apply record_one_line. by rewrite IH.
Qed.

Lemma lines_log_text rs : lines (log_text rs) = record_json <$> rs.
Proof.
  unfold lines. rewrite split_log_text, reverse_app. simpl. rewrite reverse_involutive, app_nil_r.
  rewrite <-list_fmap_compose. apply list_fmap_ext. intros _ r _. simpl. unfold strip_cr.
  by rewrite record_no_cr.
Qed.

Lemma load_log_text rs : load (Text (log_text rs)) = Ok rs.
Proof.
  unfold load. rewrite lines_log_text.
  induction rs as [|r rs IH]; [done|]. rewrite fmap_cons, filter_cons_True by apply record_not_blank.
  cbn [parse_lines]. by rewrite record_roundtrip, IH.
Qed.

Lemma log_text_app rs rs' : log_text (rs ++ rs') = log_text rs +:+ log_text rs'.
Proof.
  induction rs as [|r rs IH]; [done|]. cbn [app log_text]. by rewrite IH, !app_assoc_str.
Qed.

Lemma write_log_text r rs : (write None r (Text (log_text rs))).2 = Text (log_text (rs ++ [r])).
Proof. cbn [write snd]. rewrite log_text_app. cbn [log_text]. by rewrite app_nil_r_str. Qed.

(** Recording entries with no I/O error. *)
Definition record_all (es : list (string * AuditEntry)) (g : option GlobalAudit) : option GlobalAudit :=
  fold_left (λ g '(now, e), (record None now e g).2) es g.

Lemma record_all_spec es l rs :
  record_all es (Some (MkGlobal l (Text (log_text rs)))) =
  Some (MkGlobal (append_all es l).2 (Text (log_text (rs ++ (append_all es l).1)))).
Proof.
  revert l rs. induction es as [|[now e] es IH]; intros l rs; [simpl; by rewrite app_nil_r|].
  cbn [append_all]. unfold record_all in *. cbn [fold_left]. unfold record. cbn [log sink].
  destruct (append now e l) as [r l1] eqn:E. cbn [snd]. rewrite write_log_text, IH.
  destruct (append_all es l1) as [rs1 l2]. cbn [fst snd]. by rewrite <-app_assoc.
Qed.

(** The chain is continuous across restarts: whatever a process appends to an
    intact log, the file reads back as one chain that verifies, and the next start
    resumes it after its last record. *)
Theorem chain_survives_restart rs e es :
  verify_chain rs = Ok () → rs ≠ [] →
  ∃ g f g' new,
    install_audit None (Text (log_text rs)) None = (Resumed (length rs), Some g) ∧
    record_all (e :: es) (Some g) = Some (MkGlobal g' f) ∧ load f = Ok (rs ++ new) ∧
    length new = S (length es) ∧ verify_chain (rs ++ new) = Ok () ∧
    install_audit None f None = (Resumed (length rs + length new), Some (MkGlobal g' f)).
Proof.
  intros Hv Hne. destruct (last rs) as [r|] eqn:Hl; [|by apply last_None in Hl].
  set (g := MkGlobal (resume (MkCheckpoint (seq r) (this_hash r))) (Text (log_text rs))).
  assert (Hi : install_audit None (Text (log_text rs)) None = (Resumed (length rs), Some g)).
  { unfold install_audit. by rewrite load_log_text, Hl, Hv. }
  destruct (append_all (e :: es) (resume (MkCheckpoint (seq r) (this_hash r)))) as [new g'] eqn:E.
  pose proof (append_all_chained _ _ _ _ E) as (Hc & Hh & Hq & Hn).
  assert (Hv' : verify_chain (rs ++ new) = Ok ()).
  { apply verify_chain_chained in Hv as (x & xs & -> & Hcx). apply verify_chain_chained.
    exists x, (xs ++ new). split; [done|]. apply chained_app. split; [done|]. by rewrite Hl. }
  exists g, (Text (log_text (rs ++ new))), g', new. split_and!; [done| |apply load_log_text|done|done|].
  - unfold g. rewrite record_all_spec. by rewrite E.
  - unfold install_audit. rewrite load_log_text, Hv', last_app, length_app.
    destruct new as [|n0 new]; [done|]. rewrite last_cons in *.
    destruct (last new) as [y|]; simpl in *; (do 3 f_equal); destruct g'; simpl in *; by subst.
Qed.

(** A broken log never verifies again: after a start that found a break, the
    new chain is written behind the broken records, so every later start finds the
    break too, whatever was recorded in between. *)
Theorem broken_log_stays_broken rs e es :
  rs ≠ [] → verify_chain rs = Err e →
  ∃ g, install_audit None (Text (log_text rs)) None = (Broken e (length rs), Some g) ∧
    ∀ g', record_all es (Some g) = Some g' →
      (install_audit None (sink g') None).1 = Broken e (length rs + length es).
Proof.
  intros Hne Hv. destruct (last rs) as [r|] eqn:Hl; [|by apply last_None in Hl].
  exists (MkGlobal AuditLog_new (Text (log_text rs))). split.
  - unfold install_audit. by rewrite load_log_text, Hl, Hv.
  - intros g'. rewrite record_all_spec. intros Hg. injection Hg as <-. cbn [sink].
    destruct (append_all es AuditLog_new) as [new l'] eqn:E.
    apply append_all_chained in E as (_ & _ & _ & Hn). cbn [fst snd]. unfold install_audit.
    rewrite load_log_text, last_app, (verify_chain_app_err rs new e) by done. rewrite length_app, Hn.
    destruct (last new); [done|]. by rewrite Hl.
Qed.

(** One write that fails is enough to break the log: the record is chained in
    memory but not in the file, so once the next record is written the file no
    longer verifies. *)
Theorem failed_write_breaks_log rs fault now1 e1 now2 e2 l :
  rs ≠ [] → (∀ r, last rs = Some r → l = resume (MkCheckpoint (seq r) (this_hash r))) →
  (log_seq l < u64_max - 2)%N →
  let g1 := (record (Some fault) now1 e1 (Some (MkGlobal l (Text (log_text rs))))).2 in
  ∃ g2, (record None now2 e2 g1).2 = Some g2 ∧ ∃ all err, load (sink g2) = Ok all ∧ verify_chain all = Err err.
Proof.
  intros Hne Hl Hlt. unfold record. cbn [log sink].
  destruct (append now1 e1 l) as [r1 l1] eqn:E1. cbn [snd log sink].
  change (write (Some fault) r1 (Text (log_text rs))).2 with (Text (log_text rs)).
  destruct (append now2 e2 l1) as [r l2] eqn:E2. cbn [snd]. eexists. split; [reflexivity|].
  exists (rs ++ [r]). cbn [sink]. rewrite write_log_text, load_log_text.
  destruct (verify_chain (rs ++ [r])) as [[]|err] eqn:E; [|by exists err].
  exfalso. apply verify_chain_chained in E as (x & xs & Hx & Hc). apply chained_app in Hc as [_ Hc].
  destruct (last rs) as [y|] eqn:Hy; [|by apply last_None in Hy].
  specialize (Hl y eq_refl). subst l. inversion_clear Hc as [|? ? ? ? Hs _ _ _].
  unfold append in E1, E2. injection E1 as <- <-. injection E2 as <- <-.
  simpl in Hs, Hlt. unfold wrap64, u64_max in *.
  rewrite !N.mod_small in Hs by (rewrite ?N.mod_small; lia). lia.
Qed.

End Laws.

End Global.

End Sink.

Module Export Witnesses.

(** A concrete environment: cores and records as the digits of their codes. *)
#[export] Program Instance AuditRecord_countable : Countable AuditRecord :=
  inj_countable' (λ r, (core r, this_hash r))
    (λ '((s, ts, a, ac, t, ti, d, ru, p), h), MkRecord s ts a ac t ti d ru p h) _.
Next Obligation. by intros []. Qed.

#[local] Instance toy_env : AuditEnv := {|
  core_json '(s, _, _, _, t, _, _, _, _) := t;
  blake3_hex s := s;
  redact s := s;
|}.

#[local] Instance toy_record_codec : RecordCodec := {|
  record_json r := pretty (N.pos (encode r));
  parse_record s :=
    match dec_go 0 s with
    | Some (N.pos p) => match decode p with Some r => Ok r | None => Err "no record" end
    | _ => Err "not a number"
    end;
|}.

Lemma bytes_all_rev_app f s t : bytes_all f (String.rev_app s t) = bytes_all f s && bytes_all f t.
Proof.
  revert t. induction s as [|a s IH]; intros t; simpl; [done|]. rewrite IH. simpl.
  destruct (f a), (bytes_all f s); simpl; try done; by rewrite ?andb_false_r.
Qed.

#[local] Instance toy_record_laws : RecordCodecLaws.
Proof.
  assert (Hd : ∀ r, bytes_all is_ascii_digit (record_json r) = true) by (intros r; apply pretty_N_digits).
  split; intros r.
  - unfold parse_record, record_json, toy_record_codec. by rewrite dec_go_pretty_N, decode_encode.
  - by apply digits_no_byte.
  - unfold strip_suffix. destruct (strip_prefix _ _) as [t|] eqn:E; [|done].
    apply strip_prefix_Some in E. specialize (Hd r).
    assert (Hr : bytes_all is_ascii_digit (String.rev (record_json r)) = true)
      by (unfold String.rev; by rewrite bytes_all_rev_app, Hd).
    rewrite E in Hr. by rewrite bytes_all_app in Hr.
  - unfold record_json, toy_record_codec. rewrite trim_pretty.
    pose proof (pretty_N_nonempty (N.pos (encode r))). by destruct (pretty _).
Qed.

Definition entry (who t : string) : AuditEntry := MkEntry who "tool:bash" t "operator" "permit" None.
Definition log_of (who : string) : list AuditRecord :=
  (append_all [("t1", entry who "ls"); ("t2", entry who "pwd")] AuditLog_new).1.
Definition nth_record (n : nat) (rs : list AuditRecord) : AuditRecord :=
  nth n rs (MkRecord 0 "" "" "" "" "" "" None "" "").

(** The toy hash ignores the actor, so two forged logs share their head: the
    theorem finds the two records that collide. *)
Lemma tamper_evident_witness :
  log_of "alice" ≠ log_of "mallory" ∧ collides (log_of "alice") (log_of "mallory").
Proof.
  assert (log_of "alice" ≠ log_of "mallory") as Hne by (by vm_compute). split; [exact Hne|].
  destruct (tamper_evident (log_of "alice") (log_of "mallory") (nth_record 1 (log_of "alice"))
    (nth_record 1 (log_of "mallory"))) as [He|[Hc|(x & Hx & Hg)]]; [by vm_compute..|by destruct Hne|exact Hc|].
  exfalso. revert Hx Hg. vm_compute (log_of _). rewrite !elem_of_cons, !elem_of_nil.
  intros Hx Hg. destruct_or?; subst; by vm_compute in Hg.
Defined.

Lemma truncation_detected_witness :
  verify_against_checkpoint (take 1 (log_of "alice")) (MkCheckpoint 2 "pwd")
    = Err (Truncated 2 (Some 1%N)).
Proof.
  exact (truncation_detected (take 1 (log_of "alice")) (drop 1 (log_of "alice"))
    (nth_record 0 (log_of "alice")) (nth_record 1 (log_of "alice")) eq_refl eq_refl eq_refl eq_refl).
Defined.

Lemma longer_forged_chain_accepted_witness :
  verify_against_checkpoint (log_of "mallory") (MkCheckpoint 1 "the genuine head") = Ok ().
Proof.
  exact (longer_forged_chain_accepted (MkCheckpoint 1 "the genuine head")
    [("t1", entry "mallory" "ls"); ("t2", entry "mallory" "pwd")] (log_of "mallory") (MkLog 2 "pwd")
    eq_refl ltac:(discriminate) eq_refl).
Defined.

Lemma chain_survives_restart_witness :
  ∃ g, install_audit None (Text (log_text (log_of "alice"))) None = (Resumed 2, Some g).
Proof.
  destruct (chain_survives_restart (log_of "alice") ("t3", entry "alice" "id") [])
    as (g & f & g' & new & H & _); [by vm_compute|by vm_compute|].
  exists g. exact H.
Defined.

Definition forged : AuditRecord :=
  MkRecord 1 "2026-01-01T00:00:00Z" "a" "exec" "t" "operator" "permit" None "0" "deadbeef".

Lemma broken_log_stays_broken_witness :
  ∃ g, install_audit None (Text (log_text [forged])) None = (Broken (PrevHashMismatch 0) 1, Some g).
Proof.
  destruct (broken_log_stays_broken [forged] (PrevHashMismatch 0) [("t", entry "a" "ls")])
    as (g & H & _); [done|by vm_compute|]. exists g. exact H.
Defined.

Lemma failed_write_breaks_log_witness :
  ∃ g2, (record None "t4" (entry "alice" "w")
          (record (Some "disk full") "t3" (entry "alice" "id")
            (Some (MkGlobal (MkLog 2 "pwd") (Text (log_text (log_of "alice")))))).2).2 = Some g2 ∧
    ∃ all err, load (sink g2) = Ok all ∧ verify_chain all = Err err.
Proof.
  apply failed_write_breaks_log; [by vm_compute| |by vm_compute].
  intros r Hr. vm_compute in Hr. injection Hr as <-. reflexivity.
Defined.

End Witnesses.
