(* ===== verification/Float64.v ===== *)
(** The [f64] arithmetic the code uses, in the IEEE 754 format of the Standard
    Library: conversions from and to integers, division, product, comparison. *)
From Stdlib Require Floats.SpecFloat.
From S2P Require Import Prelude.

Definition F64 : Type := SpecFloat.spec_float.
(** [n as f64]. *)
Definition f64_of_N (n : N) : F64 := SpecFloat.binary_normalize 53 1024 (Z.of_N n) 0 false.
Definition f64_div : F64 → F64 → F64 := SpecFloat.SFdiv 53 1024.
Definition f64_mul : F64 → F64 → F64 := SpecFloat.SFmul 53 1024.
Definition f64_ge (a b : F64) : bool := SpecFloat.SFleb b a.

(** [x as uN]: truncated towards zero and saturating, zero for a NaN. *)
Definition f64_to_N (max : N) (x : F64) : N :=
  match x with
  | SpecFloat.S754_finite false m e =>
      N.min max (if bool_decide (0 ≤ e)%Z then N.pos m * 2 ^ Z.to_N e else N.pos m / 2 ^ Z.to_N (- e))
  | SpecFloat.S754_infinity false => max
  | _ => 0
  end%N.
Definition f64_to_u32 : F64 → N := f64_to_N u32_max.

(** [x.ceil() as u64]. *)
Definition f64_ceil_to_u64 (x : F64) : N :=
  match x with
  | SpecFloat.S754_finite false m e =>
      N.min u64_max (if bool_decide (0 ≤ e)%Z then N.pos m * 2 ^ Z.to_N e
                     else (N.pos m + 2 ^ Z.to_N (- e) - 1) / 2 ^ Z.to_N (- e))
  | SpecFloat.S754_infinity false => u64_max
  | _ => 0
  end%N.

Lemma f64_to_N_max max x : (f64_to_N max x ≤ max)%N.
Proof. destruct x as [|[]| |[] m e]; simpl; lia. Qed.
