(* ===== verification/Breaker.v ===== *)
(** The circuit breaker (crate [ainxt-circuit-breaker]): the sliding window
    ([window.rs]), the configuration ([config.rs]), the breaker as programs of
    atomic steps over a shared memory ([breaker.rs], [state.rs]), the registry and
    the retry policy. The programs run alone, or interleaved by a scheduler;
    the memory is sequentially consistent. *)
From stdpp Require Import relations sorting.
From S2P Require Import Prelude RustStr Float64.

Module Export Window.

(** Instants are nanoseconds of the monotonic clock, durations nanoseconds. *)
Definition Instant : Type := Z.
Definition Duration : Type := N.

(** The earliest instant: seconds are an [i64]. *)
Definition instant_min : Instant := (- 9223372036854775808 * 1000000000)%Z.
Definition checked_sub (now : Instant) (d : Duration) : option Instant :=
  let t := (now - Z.of_N d)%Z in if bool_decide (instant_min ≤ t)%Z then Some t else None.

Definition MAX_WINDOW_ENTRIES : nat := 10000.

Record SlidingWindow : Type := MkWindow { entries : list (Instant * bool); failures : N }.

Definition SlidingWindow_new : SlidingWindow := MkWindow [] 0.

(** [usize] subtraction, wrapping. *)
Definition usize_dec (n : N) : N := wrap64 (n + u64_max)%N.
Definition usize_inc (n : N) : N := wrap64 (n + 1)%N.

Definition dec_if (was_failure : bool) (n : N) : N := if was_failure then usize_dec n else n.
Definition inc_if (is_failure : bool) (n : N) : N := if is_failure then usize_inc n else n.

Definition pop_front (w : SlidingWindow) : SlidingWindow :=
  match entries w with
  | [] => w
  | (_, was_failure) :: rest => MkWindow rest (dec_if was_failure (failures w))
  end.

Definition push (is_failure : bool) (at_ : Instant) (w : SlidingWindow) : SlidingWindow :=
  let w := if bool_decide (MAX_WINDOW_ENTRIES ≤ length (entries w)) then pop_front w else w in
  MkWindow (entries w ++ [(at_, is_failure)]) (inc_if is_failure (failures w)).

Fixpoint evict_from (cutoff : Instant) (es : list (Instant * bool)) (fs : N) : SlidingWindow :=
  match es with
  | (ts, was_failure) :: rest =>
      if bool_decide (ts < cutoff)%Z then evict_from cutoff rest (dec_if was_failure fs)
      else MkWindow es fs
  | [] => MkWindow [] fs
  end.

Definition evict (window : Duration) (now : Instant) (w : SlidingWindow) : SlidingWindow :=
  match checked_sub now window with
  | None => w
  | Some cutoff => evict_from cutoff (entries w) (failures w)
  end.

Definition sample_count (w : SlidingWindow) : nat := length (entries w).

Definition error_rate (w : SlidingWindow) : F64 :=
  match entries w with
  | [] => f64_of_N 0
  | _ => f64_div (f64_of_N (failures w)) (f64_of_N (N.of_nat (length (entries w))))
  end.

Definition clear (w : SlidingWindow) : SlidingWindow := MkWindow [] 0.

End Window.

Module Export Config.

Definition secs (n : N) : Duration := (n * 1000000000)%N.
Definition from_millis (n : N) : Duration := (n * 1000000)%N.

Record BreakerConfig : Type := MkConfig {
  window_duration : Duration; min_samples : nat; error_rate_threshold : F64;
  open_duration : Duration; half_open_max_probes : N; failure_codes : gset N; enabled : bool;
}.

Definition DEFAULT_FAILURE_CODES : list N := [429; 500; 502; 503; 504]%N.
Definition default_failure_codes : gset N := list_to_set DEFAULT_FAILURE_CODES.

(** The literal [0.5]. *)
Definition one_half : F64 := f64_div (f64_of_N 1) (f64_of_N 2).

Definition server : BreakerConfig :=
  MkConfig (secs 60) 10 one_half (secs 10) 1 default_failure_codes true.
Definition client : BreakerConfig := MkConfig (secs 60) 5 one_half (secs 60) 1 {[ 401%N ]} true.

Definition is_failure_status (c : BreakerConfig) (status : N) : bool := bool_decide (status ∈ failure_codes c).

(** [with_clock] admits at least one probe. *)
Definition normalized (c : BreakerConfig) : BreakerConfig :=
  MkConfig (window_duration c) (min_samples c) (error_rate_threshold c) (open_duration c)
    (N.max (half_open_max_probes c) 1) (failure_codes c) (enabled c).

(** [s.parse::<u16>()]. *)
Definition parse_u16 (s : string) : option N :=
  n ← parse_u64 s; if bool_decide (n ≤ 65535)%N then Some n else None.
Definition parse_bool (s : string) : option bool :=
  if bool_decide (s = "true") then Some true else if bool_decide (s = "false") then Some false else None.

(** Invalid entries are dropped. *)
Definition parse_failure_codes (s : string) : gset N :=
  list_to_set (omap (λ c, parse_u16 (trim c)) (split_on ","%char s)).

Definition lookup_or {T} (parse : string → option T) (get : string → option string) (k : string) (dflt : T) : T :=
  match get k with
  | Some v => default dflt (parse v)
  | None => dflt
  end.

(** [parse_f64] is [str::parse::<f64>]. *)
Definition from_lookup_with_prefix (parse_f64 : string → option F64) (prefix : string)
    (get : string → option string) : BreakerConfig :=
  let key k := prefix +:+ k in
  let codes :=
    match get (key "FAILURE_CODES") with
    | Some raw =>
        let codes := parse_failure_codes raw in
        if bool_decide (codes = ∅) then default_failure_codes else codes
    | None => default_failure_codes
    end in
  MkConfig (secs (lookup_or parse_u64 get (key "WINDOW_SECS") 60%N))
    (N.to_nat (lookup_or parse_u64 get (key "MIN_SAMPLES") 10%N))
    (lookup_or parse_f64 get (key "ERROR_RATE_THRESHOLD") one_half)
    (secs (lookup_or parse_u64 get (key "OPEN_DURATION_SECS") 10%N))
    (N.max (lookup_or parse_u64 get (key "HALF_OPEN_MAX_PROBES") 1%N) 1)
    codes
    (lookup_or parse_bool get (key "ENABLED") true).

(** The comma-separated list of codes reads back as their set. *)
Theorem parse_failure_codes_join codes :
  Forall (λ c, c ≤ 65535)%N codes →
  parse_failure_codes (join "," (pretty <$> codes)) = list_to_set codes.
Proof.
  intros Hc. unfold parse_failure_codes. destruct codes as [|c codes]; [by vm_compute|].
  rewrite (split_on_join ","%char); [|done|].
  - f_equal. clear -Hc. induction Hc as [|c' cs Hc' _ IH]; [done|]. cbn [fmap list_fmap omap list_omap].
    unfold parse_u16. rewrite parse_u64_trim_pretty by (unfold u64_max; lia). simpl.
    rewrite bool_decide_eq_true_2 by done. by f_equal.
  - apply Forall_fmap, Forall_forall. intros c' _. apply digits_no_byte; [apply pretty_N_digits|done].
Qed.

End Config.

Module Export State.

Inductive BreakerState : Type := Closed | Open | HalfOpen.
#[export] Instance BreakerState_eq_dec : EqDecision BreakerState.
Proof. solve_decision. Defined.

Definition as_u8 (s : BreakerState) : N := match s with Closed => 0 | Open => 1 | HalfOpen => 2 end.
Definition from_u8 (v : N) : BreakerState :=
  if bool_decide (v = 0)%N then Closed
  else if bool_decide (v = 1)%N then Open
  else if bool_decide (v = 2)%N then HalfOpen else Closed.

Inductive Outcome : Type := Success | Failure.
#[export] Instance Outcome_eq_dec : EqDecision Outcome.
Proof. solve_decision. Defined.

Record BreakerOpen : Type := MkOpen { retry_after : Duration }.

(** The callbacks of an observer. *)
Inductive Notice : Type :=
| StateChange (old new : BreakerState) (why : string)
| ProbeAdmission (allowed : bool)
| OutcomeSeen (o : Outcome) (status : BreakerState).

(** The memory that the clones of a breaker share, with the clock and the
    callbacks made so far. *)
Record Shared : Type := MkShared {
  cell_state : N; opened_at_millis : N; half_open_probes : N; probe_claimed_at_millis : N;
  is_open_fast : bool; window : SlidingWindow; clock : Instant; notices : list Notice;
}.

Definition set_state (v : BreakerState) (s : Shared) : Shared :=
  MkShared (as_u8 v) (opened_at_millis s) (half_open_probes s) (probe_claimed_at_millis s) (is_open_fast s)
    (window s) (clock s) (notices s).
Definition set_opened (v : N) (s : Shared) : Shared :=
  MkShared (cell_state s) v (half_open_probes s) (probe_claimed_at_millis s) (is_open_fast s)
    (window s) (clock s) (notices s).
Definition set_probes (v : N) (s : Shared) : Shared :=
  MkShared (cell_state s) (opened_at_millis s) v (probe_claimed_at_millis s) (is_open_fast s)
    (window s) (clock s) (notices s).
Definition set_claimed (v : N) (s : Shared) : Shared :=
  MkShared (cell_state s) (opened_at_millis s) (half_open_probes s) v (is_open_fast s)
    (window s) (clock s) (notices s).
Definition set_fast (v : bool) (s : Shared) : Shared :=
  MkShared (cell_state s) (opened_at_millis s) (half_open_probes s) (probe_claimed_at_millis s) v
    (window s) (clock s) (notices s).
Definition set_window (v : SlidingWindow) (s : Shared) : Shared :=
  MkShared (cell_state s) (opened_at_millis s) (half_open_probes s) (probe_claimed_at_millis s) (is_open_fast s)
    v (clock s) (notices s).
Definition set_clock (v : Instant) (s : Shared) : Shared :=
  MkShared (cell_state s) (opened_at_millis s) (half_open_probes s) (probe_claimed_at_millis s) (is_open_fast s)
    (window s) v (notices s).
Definition notify (n : Notice) (s : Shared) : Shared :=
  MkShared (cell_state s) (opened_at_millis s) (half_open_probes s) (probe_claimed_at_millis s) (is_open_fast s)
    (window s) (clock s) (notices s ++ [n]).

End State.

Module Export Programs.

(** A program: atomic steps on the shared memory, then an answer. *)
Inductive prog (A : Type) : Type :=
| Ret (a : A)
| Act (f : Shared → Shared * prog A).
Arguments Ret {A} a.
Arguments Act {A} f.

(** Induction that reaches the programs an action continues with. *)
Lemma prog_nested_ind {A} (P : prog A → Prop) :
  (∀ a, P (Ret a)) → (∀ f, (∀ s, P (f s).2) → P (Act f)) → ∀ p, P p.
Proof.
  intros Hret Hact. fix IH 1. intros [a|f]; [apply Hret|]. apply Hact. intros s.
  destruct (f s) as [s' p']. apply IH.
Qed.

#[export] Instance prog_ret : MRet prog := @Ret.
#[export] Instance prog_bind : MBind prog := λ A B k,
  fix bind (p : prog A) : prog B :=
    match p with
    | Ret a => k a
    | Act f => Act (λ s, let '(s', p') := f s in (s', bind p'))
    end.

Definition atomically {A} (f : Shared → Shared * A) : prog A := Act (λ s, let '(s', a) := f s in (s', Ret a)).
Definition fetch {A} (g : Shared → A) : prog A := atomically (λ s, (s, g s)).
Definition modify (g : Shared → Shared) : prog unit := atomically (λ s, (g s, ())).

(** A program that runs alone. *)
Fixpoint run_alone {A} (p : prog A) (s : Shared) : A * Shared :=
  match p with
  | Ret a => (a, s)
  | Act f => let '(s', p') := f s in run_alone p' s'
  end.

End Programs.

Module Export Atomic.

Section Breaker.
Context (cfg : BreakerConfig) (baseline : Instant).

Definition CircuitBreaker_new (now : Instant) : Shared :=
  MkShared (as_u8 Closed) 0 0 0 false SlidingWindow_new now [].

(** [now.saturating_duration_since(baseline).as_millis() as u64]. *)
Definition millis_since (now : Instant) : N := (Z.to_N (now - baseline) / 1000000)%N.
Definition elapsed_millis : prog N := now ← fetch clock; mret (wrap64 (millis_since now)).

Definition current_state : prog BreakerState := v ← fetch cell_state; mret (from_u8 v).

Definition cas_state (from to : BreakerState) : prog bool :=
  atomically (λ s, if bool_decide (cell_state s = as_u8 from) then (set_state to s, true) else (s, false)).

Definition HALF_OPEN_PROBE_BACKOFF : Duration := from_millis 50.

Definition reject_probe : prog (result BreakerOpen unit) :=
  modify (notify (ProbeAdmission false));;
  mret (Err (MkOpen (N.min HALF_OPEN_PROBE_BACKOFF (open_duration cfg)))).

Definition admit_probe : prog (result BreakerOpen unit) :=
  modify (notify (ProbeAdmission true));; mret (Ok ()).

Definition lease_millis : N := wrap64 (open_duration cfg / 1000000)%N.

Definition try_half_open_probe : prog (result BreakerOpen unit) :=
  now ← elapsed_millis;
  prev ← atomically (λ s, (set_probes (usize_inc (half_open_probes s)) s, half_open_probes s));
  if bool_decide (prev < Config.half_open_max_probes cfg)%N then
    modify (set_claimed now);; admit_probe
  else
    modify (λ s, set_probes (usize_dec (half_open_probes s)) s);;
    claimed ← fetch probe_claimed_at_millis;
    if bool_decide (lease_millis ≤ now - claimed)%N then
      won ← atomically (λ s, if bool_decide (probe_claimed_at_millis s = claimed)
                             then (set_claimed now s, true) else (s, false));
      if (won : bool) then admit_probe else reject_probe
    else reject_probe.

Definition still_open (elapsed : Duration) : result BreakerOpen unit :=
  Err (MkOpen (open_duration cfg - elapsed)%N).

Definition check_open : prog (result BreakerOpen unit) :=
  opened ← fetch opened_at_millis;
  now ← elapsed_millis;
  let elapsed := from_millis (now - opened)%N in
  if bool_decide (open_duration cfg ≤ elapsed)%N then
    won ← cas_state Open HalfOpen;
    if (won : bool) then
      modify (set_fast false);;
      modify (notify (StateChange Open HalfOpen "open_elapsed"));;
      try_half_open_probe
    else
      st ← current_state;
      match st with
      | Closed => mret (Ok ())
      | HalfOpen => try_half_open_probe
      | Open =>
          opened ← fetch opened_at_millis;
          now ← elapsed_millis;
          mret (still_open (from_millis (now - opened)%N))
      end
  else mret (still_open elapsed).

Definition breaker_check : prog (result BreakerOpen unit) :=
  if negb (enabled cfg) then mret (Ok ())
  else
    st ← current_state;
    match st with
    | Closed => mret (Ok ())
    | Open => check_open
    | HalfOpen => try_half_open_probe
    end.

Definition notify_change (prev new : BreakerState) (why : string) : prog unit :=
  if bool_decide (prev = new) then mret () else modify (notify (StateChange prev new why)).

Definition trip (prev : BreakerState) (why : string) : prog unit :=
  modify (set_state Open);;
  now ← elapsed_millis;
  modify (set_opened now);;
  modify (set_probes 0);;
  modify (set_fast true);;
  notify_change prev Open why.

Definition close (prev : BreakerState) (why : string) : prog unit :=
  modify (set_state Closed);;
  modify (λ s, set_window (clear (window s)) s);;
  modify (set_probes 0);;
  modify (set_fast false);;
  notify_change prev Closed why.

(** The samples of the window once an outcome is in. *)
Definition observe (is_failure : bool) (now : Instant) (w : SlidingWindow) : SlidingWindow :=
  evict (window_duration cfg) now (push is_failure now w).

Definition trips (w : SlidingWindow) : bool :=
  bool_decide (min_samples cfg ≤ sample_count w) && f64_ge (error_rate w) (error_rate_threshold cfg).

(** [record]: each critical section of the window mutex is one step. *)
Definition breaker_record (o : Outcome) : prog unit :=
  if negb (enabled cfg) then mret ()
  else
    let is_failure := bool_decide (o = Failure) in
    now ← fetch clock;
    prev ← current_state;
    match prev with
    | Closed =>
        should_trip ← atomically (λ s,
          let w := observe is_failure now (window s) in (set_window w s, trips w));
        if (should_trip : bool) then trip prev "trip" else mret ()
    | HalfOpen => if is_failure then trip prev "probe_failure" else close prev "probe_success"
    | Open => modify (λ s, set_window (observe is_failure now (window s)) s)
    end;;
    new ← current_state;
    modify (notify (OutcomeSeen o new)).

Definition breaker_is_open : prog bool := fetch is_open_fast.

Definition breaker_error_rate : prog F64 :=
  now ← fetch clock;
  atomically (λ s, let w := evict (window_duration cfg) now (window s) in (set_window w s, error_rate w)).

End Breaker.

End Atomic.

Module Export Interleave.

(** Any number of threads, each in the middle of one call or idle. *)
Inductive Call : Type := CallCheck | CallRecord (o : Outcome) | CallErrorRate | CallIsOpen.
Inductive Answer : Type :=
| Checked (r : result BreakerOpen unit)
| Recorded
| Rate (f : F64)
| Answered (b : bool).

Record System : Type := MkSystem {
  memory : Shared; threads : list (option (prog Answer)); answers : list (nat * Answer);
}.

Section System.
Context (cfg : BreakerConfig) (baseline : Instant).

Definition call_prog (c : Call) : prog Answer :=
  match c with
  | CallCheck => r ← breaker_check cfg baseline; mret (Checked r)
  | CallRecord o => _ ← breaker_record cfg baseline o; mret Recorded
  | CallErrorRate => f ← breaker_error_rate cfg; mret (Rate f)
  | CallIsOpen => b ← breaker_is_open; mret (Answered b)
  end.

(** One step: a thread begins a call, performs its next atomic action or
    returns, or time passes. *)
Inductive step : System → System → Prop :=
| step_begin m ts as_ i c :
    ts !! i = Some None → step (MkSystem m ts as_) (MkSystem m (<[i := Some (call_prog c)]> ts) as_)
| step_act m ts as_ i f :
    ts !! i = Some (Some (Act f)) →
    step (MkSystem m ts as_) (MkSystem (f m).1 (<[i := Some (f m).2]> ts) as_)
| step_return m ts as_ i a :
    ts !! i = Some (Some (Ret a)) → step (MkSystem m ts as_) (MkSystem m (<[i := None]> ts) (as_ ++ [(i, a)]))
| step_tick m ts as_ (d : N) :
    step (MkSystem m ts as_) (MkSystem (set_clock (clock m + Z.of_N d)%Z m) ts as_).

Definition start (now : Instant) (n : nat) : System := MkSystem (CircuitBreaker_new now) (replicate n None) [].

Definition reachable (n : nat) (sys : System) : Prop := rtc step (start baseline n) sys.

(** A scheduler: which thread goes next. [Go] returns when it is at an answer and
    leaves an idle thread alone. *)
Inductive Choice : Type := Begin (i : nat) (c : Call) | Go (i : nat) | Tick (d : N).

Definition exec1 (sys : System) (ch : Choice) : option System :=
  let '(MkSystem m ts as_) := sys in
  match ch with
  | Begin i c =>
      match ts !! i with Some None => Some (MkSystem m (<[i := Some (call_prog c)]> ts) as_) | _ => None end
  | Go i =>
      match ts !! i with
      | Some (Some (Act f)) => let '(m', p) := f m in Some (MkSystem m' (<[i := Some p]> ts) as_)
      | Some (Some (Ret a)) => Some (MkSystem m (<[i := None]> ts) (as_ ++ [(i, a)]))
      | _ => Some sys
      end
  | Tick d => Some (MkSystem (set_clock (clock m + Z.of_N d)%Z m) ts as_)
  end.

Fixpoint exec (sys : System) (chs : list Choice) : option System :=
  match chs with
  | [] => Some sys
  | ch :: rest => sys' ← exec1 sys ch; exec sys' rest
  end.

Lemma exec1_step sys ch sys' : exec1 sys ch = Some sys' → rtc step sys sys'.
Proof.
  destruct sys as [m ts as_]. destruct ch as [i c|i|d]; simpl.
  - destruct (ts !! i) as [[p|]|] eqn:E; [done| |done]. intros [= <-]. apply rtc_once. by constructor.
  - destruct (ts !! i) as [[[a|f]|]|] eqn:E.
    + intros [= <-]. apply rtc_once. by constructor.
    + pose proof (step_act m ts as_ i f E) as Hs. destruct (f m) as [m' p]. intros [= <-]. by apply rtc_once.
    + by intros [= <-].
    + by intros [= <-].
  - intros [= <-]. apply rtc_once. constructor.
Qed.

Lemma exec_steps sys chs sys' : exec sys chs = Some sys' → rtc step sys sys'.
Proof.
  revert sys. induction chs as [|ch chs IH]; intros sys; simpl; [by intros [= <-]|].
  destruct (exec1 sys ch) as [s1|] eqn:E; [|done]. simpl. intros H.
  etransitivity; [by eapply exec1_step|by apply IH].
Qed.

(** ** Invariants of every interleaving *)

(** A predicate on the memory that holds under the clock being monotone: every
    action of the program keeps it, from any memory no earlier than the last. *)
Fixpoint keeps {A} (I : Shared → Prop) (t : Instant) (p : prog A) : Prop :=
  match p with
  | Ret _ => True
  | Act f => ∀ s, (t ≤ clock s)%Z → I s →
      I (f s).1 ∧ clock (f s).1 = clock s ∧ keeps I (clock s) (f s).2
  end.

Lemma keeps_later {A} I t t' (p : prog A) : (t ≤ t')%Z → keeps I t p → keeps I t' p.
Proof. destruct p as [a|f]; simpl; [done|]. intros Ht Hp s Hs. apply Hp. lia. Qed.

Lemma keeps_ret {A} I t (a : A) : keeps I t (mret a).
Proof. done. Qed.

Lemma keeps_atomically {A} (I : Shared → Prop) t (f : Shared → Shared * A) :
  (∀ s, (t ≤ clock s)%Z → I s → I (f s).1 ∧ clock (f s).1 = clock s) → keeps I t (atomically f).
Proof.
  intros Hf s Hs HI. specialize (Hf s Hs HI). destruct (f s) as [s' a]. simpl in *.
  split_and!; [apply Hf..|done].
Qed.

Lemma keeps_fetch {A} I t (g : Shared → A) : keeps I t (fetch g).
Proof. by apply keeps_atomically. Qed.

Lemma keeps_modify (I : Shared → Prop) t g :
  (∀ s, (t ≤ clock s)%Z → I s → I (g s) ∧ clock (g s) = clock s) → keeps I t (modify g).
Proof. intros Hg. by apply keeps_atomically. Qed.

Lemma keeps_bind {A B} I t (p : prog A) (k : A → prog B) :
  keeps I t p → (∀ a t', (t ≤ t')%Z → keeps I t' (k a)) → keeps I t (p ≫= k).
Proof.
  revert t. induction p as [a|f IH] using prog_nested_ind; intros t Hp Hk.
  - by apply Hk.
  - change (keeps I t (Act (λ s, let '(s', p') := f s in (s', p' ≫= k)))).
    intros s Hs HI. specialize (IH s). destruct (Hp s Hs HI) as (H1 & H2 & H3).
    destruct (f s) as [s' p']. simpl in *. split_and!; [done..|]. apply IH; [done..|].
    intros a t' Ht'. apply Hk. lia.
Qed.

(** Reading the clock bounds what later actions store. *)
Lemma keeps_elapsed {B} I t (k : N → prog B) :
  (∀ n t', (t ≤ t')%Z → (n ≤ millis_since baseline t')%N → keeps I t' (k n)) →
  keeps I t (elapsed_millis baseline ≫= k).
Proof.
  intros Hk s Hs HI. simpl. split_and!; [done..|]. apply (Hk _ (clock s)); [lia|].
  apply wrap64_le.
Qed.

(** An invariant of the memory that time and every call keep holds in every
    reachable system. *)
Lemma reachable_keeps (I : Shared → Prop) n sys :
  I (CircuitBreaker_new baseline) →
  (∀ s d, I s → I (set_clock (clock s + Z.of_N d)%Z s)) →
  (∀ c t, keeps I t (call_prog c)) →
  reachable n sys → I (memory sys).
Proof.
  intros H0 Htick Hcall Hr.
  enough (I (memory sys) ∧ ∀ i p, threads sys !! i = Some (Some p) → keeps I (clock (memory sys)) p) by naive_solver.
  revert sys Hr. apply rtc_ind_r.
  - split; [done|]. simpl. intros i p Hp. apply lookup_replicate in Hp as [? _]. done.
  - intros s1 s2 _ Hs [IHm IHt]. destruct Hs as [m ts as_ i c Hi|m ts as_ i f Hi|m ts as_ i a Hi|m ts as_ d];
      simpl in *.
    + split; [done|]. intros j p [(<- & Hp & _)|[_ Hj]]%list_lookup_insert_Some; [|by eapply IHt].
      injection Hp as <-. apply Hcall.
    + destruct (IHt i _ Hi m) as (H1 & H2 & H3); [lia|done|]. split; [done|]. rewrite H2.
      intros j p [(<- & Hp & _)|[_ Hj]]%list_lookup_insert_Some; [|by eapply IHt]. by injection Hp as <-.
    + split; [done|]. intros j p [(<- & Hp & _)|[_ Hj]]%list_lookup_insert_Some; [done|by eapply IHt].
    + split; [by apply Htick|]. intros i p Hp. apply (keeps_later I (clock m)); [lia|by eapply IHt].
Qed.

End System.

End Interleave.

Module Export WindowSpec.

(** ** The window against a plain count *)

Definition count_failures (es : list (Instant * bool)) : N := N.of_nat (length (filter (λ e, e.2 = true) es)).

(** The incremental count is the count, and the window is bounded. *)
Record window_wf (w : SlidingWindow) : Prop := {
  wf_failures : failures w = count_failures (entries w);
  wf_bound : length (entries w) ≤ MAX_WINDOW_ENTRIES;
}.

Lemma count_failures_cons ts b es : count_failures ((ts, b) :: es) = ((if b then 1 else 0) + count_failures es)%N.
Proof. unfold count_failures. rewrite filter_cons. simpl. destruct b; case_decide; simpl; lia || done. Qed.
Lemma count_failures_app es es' : count_failures (es ++ es') = (count_failures es + count_failures es')%N.
Proof. unfold count_failures. rewrite filter_app, length_app. lia. Qed.
Lemma count_failures_le es : (count_failures es ≤ N.of_nat (length es))%N.
Proof. unfold count_failures. pose proof (length_filter (λ e : Instant * bool, e.2 = true) es). lia. Qed.

Lemma max_entries_N : N.of_nat MAX_WINDOW_ENTRIES = 10000%N.
Proof. by vm_compute. Qed.
#[global] Opaque MAX_WINDOW_ENTRIES.

(** No counter of a well-formed window ever wraps. *)
Lemma usize_dec_pos n : (1 ≤ n)%N → (n ≤ u64_max)%N → usize_dec n = (n - 1)%N.
Proof.
  intros H1 H2. unfold usize_dec, wrap64. unfold u64_max in *.
  replace (n + 18446744073709551615)%N with ((n - 1) + 1 * 18446744073709551616)%N by lia.
  rewrite N.Div0.mod_add. apply N.mod_small. lia.
Qed.
Lemma usize_inc_small n : (n < u64_max)%N → usize_inc n = (n + 1)%N.
Proof. intros H. apply wrap64_small. lia. Qed.

Lemma dec_if_spec (b : bool) n : (n + (if b then 1 else 0) ≤ u64_max)%N → dec_if b (n + (if b then 1 else 0))%N = n.
Proof. destruct b; simpl; intros H; [|lia]. rewrite usize_dec_pos; lia. Qed.

Lemma wf_small w : window_wf w → (failures w ≤ 10000)%N.
Proof.
  intros [Hf Hb]. rewrite Hf. etransitivity; [apply count_failures_le|]. pose proof max_entries_N. lia.
Qed.

Lemma pop_front_wf w : window_wf w → window_wf (pop_front w) ∧ entries (pop_front w) = tail (entries w).
Proof.
  intros Hw. pose proof (wf_small w Hw) as Hs. destruct Hw as [Hf Hb]. destruct w as [[|[ts b] es] fs]; simpl in *.
  { split; [by split|done]. }
  split; [|done]. split; simpl; [|lia]. rewrite Hf, count_failures_cons, N.add_comm. apply dec_if_spec.
  rewrite Hf, count_failures_cons in Hs. unfold u64_max. lia.
Qed.

Lemma push_entries b t w :
  entries (push b t w) =
    (if bool_decide (MAX_WINDOW_ENTRIES ≤ length (entries w)) then tail (entries w) else entries w) ++ [(t, b)].
Proof. unfold push. case_bool_decide; [|done]. destruct w as [[|[] ?] ?]; done. Qed.

Lemma push_wf b t w : window_wf w → window_wf (push b t w).
Proof.
  intros Hw. set (w0 := if bool_decide (MAX_WINDOW_ENTRIES ≤ length (entries w)) then pop_front w else w).
  assert (H0 : window_wf w0 ∧ length (entries w0) < MAX_WINDOW_ENTRIES).
  { unfold w0. case_bool_decide as Hl; [|split; [done|lia]].
    destruct (pop_front_wf w Hw) as [Hp He]. split; [done|]. rewrite He. pose proof (wf_bound w Hw) as Hb.
    pose proof max_entries_N. destruct (entries w); simpl in *; lia. }
  destruct H0 as [H0 Hl]. pose proof (wf_small w0 H0). destruct H0 as [Hf Hb].
  unfold push. fold w0. split; simpl.
  - rewrite count_failures_app, <-Hf. change [(t, b)] with ([(t, b)] ++ []).
    rewrite app_nil_r, count_failures_cons. destruct b; simpl; [|unfold count_failures; simpl; lia].
    rewrite usize_inc_small by (unfold u64_max; lia). unfold count_failures. simpl. lia.
  - rewrite length_app. simpl. lia.
Qed.

(** Eviction drops the leading samples older than the cutoff. *)
Fixpoint drop_old (cutoff : Instant) (es : list (Instant * bool)) : list (Instant * bool) :=
  match es with
  | (ts, b) :: rest => if bool_decide (ts < cutoff)%Z then drop_old cutoff rest else es
  | [] => []
  end.

Lemma evict_from_spec cutoff es fs :
  fs = count_failures es → length es ≤ MAX_WINDOW_ENTRIES →
  evict_from cutoff es fs = MkWindow (drop_old cutoff es) (count_failures (drop_old cutoff es)).
Proof.
  revert fs. induction es as [|[ts b] es IH]; intros fs Hf Hl; simpl; [by subst|].
  case_bool_decide; [|by subst]. apply IH; [|simpl in Hl; lia]. subst fs.
  rewrite count_failures_cons, N.add_comm. apply dec_if_spec. pose proof (count_failures_le es). simpl in Hl.
  pose proof max_entries_N. unfold u64_max. destruct b; lia.
Qed.

Lemma drop_old_length cutoff es : length (drop_old cutoff es) ≤ length es.
Proof. induction es as [|[ts b] es IH]; simpl; [done|]. case_bool_decide; simpl; lia. Qed.

Definition evicted (window : Duration) (now : Instant) (es : list (Instant * bool)) : list (Instant * bool) :=
  match checked_sub now window with None => es | Some cutoff => drop_old cutoff es end.

Lemma evict_spec window now w :
  window_wf w → window_wf (evict window now w) ∧ entries (evict window now w) = evicted window now (entries w).
Proof.
  intros Hw. destruct Hw as [Hf Hb]. unfold evict, evicted. destruct (checked_sub now window); [|by repeat split].
  rewrite (evict_from_spec _ _ _ Hf Hb). split; [|done]. split; [done|]. simpl.
  pose proof (drop_old_length i (entries w)). lia.
Qed.

Lemma filter_all {A} (P : A → Prop) `{!∀ x, base.Decision (P x)} l : Forall P l → filter P l = l.
Proof. induction 1; [done|]. rewrite filter_cons. by case_decide; f_equal. Qed.

Lemma drop_old_filter cutoff es :
  StronglySorted (λ a b : Instant * bool, (a.1 ≤ b.1)%Z) es →
  drop_old cutoff es = filter (λ e, (cutoff ≤ e.1)%Z) es.
Proof.
  induction es as [|[ts b] es IH]; intros Hs; simpl; [done|]. apply StronglySorted_inv in Hs as [Hs Hall].
  rewrite filter_cons. simpl. case_bool_decide; case_decide; try lia; [by apply IH|].
  f_equal. symmetry. apply filter_all. eapply Forall_impl; [exact Hall|].
  simpl. intros [t' b'] Ht. simpl in *. lia.
Qed.

End WindowSpec.

Module Export Invariants.

Section Breaker.
Context (cfg : BreakerConfig) (baseline : Instant).

(** What holds of the memory at every step of every interleaving: the state cell
    holds a state, the window counts its failures, and no stamp is of the future. *)
Record shared_inv (s : Shared) : Prop := {
  inv_state : cell_state s = as_u8 (from_u8 (cell_state s));
  inv_window : window_wf (window s);
  inv_opened : (opened_at_millis s ≤ millis_since baseline (clock s))%N;
  inv_claimed : (probe_claimed_at_millis s ≤ millis_since baseline (clock s))%N;
}.

Lemma from_as_u8 st : from_u8 (as_u8 st) = st.
Proof. by destruct st. Qed.

Lemma millis_mono t t' : (t ≤ t')%Z → (millis_since baseline t ≤ millis_since baseline t')%N.
Proof. intros H. apply N.Div0.div_le_mono. lia. Qed.

Local Notation ok_prog := (keeps shared_inv).

Lemma keeps_set_state t v : ok_prog t (modify (set_state v)).
Proof. apply keeps_modify. intros s _ [Hst Hwin Hop Hcl]. split; [|done]. split; try done. simpl. by rewrite from_as_u8. Qed.
Lemma keeps_set_probes t f : ok_prog t (modify (λ s, set_probes (f s) s)).
Proof. apply keeps_modify. intros s _ [Hst Hwin Hop Hcl]. split; [by split|done]. Qed.
Lemma keeps_set_fast t b : ok_prog t (modify (set_fast b)).
Proof. apply keeps_modify. intros s _ [Hst Hwin Hop Hcl]. split; [by split|done]. Qed.
Lemma keeps_notify t n : ok_prog t (modify (notify n)).
Proof. apply keeps_modify. intros s _ [Hst Hwin Hop Hcl]. split; [by split|done]. Qed.
Lemma keeps_set_opened t n : (n ≤ millis_since baseline t)%N → ok_prog t (modify (set_opened n)).
Proof.
  intros Hn. apply keeps_modify. intros s Hs [Hst Hwin Hop Hcl]. pose proof (millis_mono _ _ Hs).
  split; [|done]. split; try done. simpl. lia.
Qed.
Lemma keeps_set_claimed t n : (n ≤ millis_since baseline t)%N → ok_prog t (modify (set_claimed n)).
Proof.
  intros Hn. apply keeps_modify. intros s Hs [Hst Hwin Hop Hcl]. pose proof (millis_mono _ _ Hs).
  split; [|done]. split; try done. simpl. lia.
Qed.
Lemma keeps_window {A} t (f : SlidingWindow → SlidingWindow) (g : SlidingWindow → A) :
  (∀ w, window_wf w → window_wf (f w)) →
  ok_prog t (atomically (λ s, (set_window (f (window s)) s, g (f (window s))))).
Proof. intros Hf. apply keeps_atomically. intros s _ [Hst Hwin Hop Hcl]. split; [split; simpl; try done; by apply Hf|done]. Qed.

Lemma observe_wf b now w : window_wf w → window_wf (observe cfg b now w).
Proof. intros Hw. by apply evict_spec, push_wf. Qed.

(** Peels the actions off a program, one bind at a time. *)
Ltac keep_prog :=
  repeat first
    [ apply keeps_ret
    | apply keeps_set_state | apply keeps_set_probes | apply keeps_set_fast | apply keeps_notify
    | apply keeps_set_opened; eassumption | apply keeps_set_claimed; eassumption
    | apply keeps_fetch
    | apply keeps_elapsed; intros ? ? ? ?
    | apply keeps_bind; [|intros ? ? ?]
    | case_match ].

Lemma later_bound n t t' : (n ≤ millis_since baseline t)%N → (t ≤ t')%Z → (n ≤ millis_since baseline t')%N.
Proof. intros Hn Ht. pose proof (millis_mono _ _ Ht). lia. Qed.

Lemma keeps_probe t : ok_prog t (try_half_open_probe cfg baseline).
Proof.
  unfold try_half_open_probe, admit_probe, reject_probe. apply keeps_elapsed. intros now t1 Ht1 Hnow.
  apply keeps_bind; [|intros prev t2 Ht2].
  { apply keeps_atomically. intros s _ [Hst Hwin Hop Hcl]. split; [by split|done]. }
  pose proof (later_bound _ _ _ Hnow Ht2) as Hnow2. case_bool_decide; [by keep_prog|].
  apply keeps_bind; [by keep_prog|intros _ t3 Ht3]. pose proof (later_bound _ _ _ Hnow2 Ht3) as Hnow3.
  apply keeps_bind; [by keep_prog|intros claimed t4 Ht4]. pose proof (later_bound _ _ _ Hnow3 Ht4) as Hnow4.
  case_bool_decide; [|by keep_prog]. apply keeps_bind; [|by intros; keep_prog].
  apply keeps_atomically. intros s Hs HI. case_bool_decide; [|done].
  destruct HI as [Hst Hwin Hop Hcl]. split; [split; simpl; try done; by eapply later_bound|done].
Qed.

Lemma keeps_check_open t : ok_prog t (check_open cfg baseline).
Proof.
  unfold check_open. apply keeps_bind; [by keep_prog|intros opened t1 _].
  apply keeps_elapsed. intros now t2 _ _. case_bool_decide; [|done].
  apply keeps_bind; [|intros won t3 _].
  { apply keeps_atomically. intros s _ HI. case_bool_decide; [|done]. destruct HI as [Hst Hwin Hop Hcl].
    split; [by split|done]. }
  destruct won.
  - do 2 (apply keeps_bind; [by keep_prog|intros _ ? _]). apply keeps_probe.
  - apply keeps_bind; [by keep_prog|intros st t4 _]. destruct st; [done|by keep_prog|apply keeps_probe].
Qed.

Lemma keeps_check t : ok_prog t (breaker_check cfg baseline).
Proof.
  unfold breaker_check. destruct (enabled cfg); [|done]. cbn [negb]. apply keeps_bind; [by keep_prog|].
  intros [] t' _; [done|apply keeps_check_open|apply keeps_probe].
Qed.

Lemma keeps_trip t prev why : ok_prog t (trip baseline prev why).
Proof.
  unfold trip, notify_change. apply keeps_bind; [by keep_prog|intros _ t1 _]. apply keeps_elapsed.
  intros now t2 Ht2 Hnow. by keep_prog.
Qed.

Lemma keeps_close t prev why : ok_prog t (close prev why).
Proof.
  unfold close, notify_change. apply keeps_bind; [by keep_prog|intros _ t1 _].
  apply keeps_bind; [|intros _ t2 _; by keep_prog].
  apply (keeps_window _ clear (λ _, ())). intros w _. split; [done|apply Nat.le_0_l].
Qed.

Lemma keeps_record t o : ok_prog t (breaker_record cfg baseline o).
Proof.
  unfold breaker_record. destruct (enabled cfg); [|done]. cbn [negb]. cbv zeta.
  apply keeps_bind; [by keep_prog|intros now t1 _]. apply keeps_bind; [by keep_prog|intros prev t2 _].
  apply keeps_bind; [|intros _ t3 _; by keep_prog]. destruct prev.
  - apply keeps_bind.
    + apply (keeps_window _ (observe cfg _ now) (trips cfg)). intros w. apply observe_wf.
    + intros [] t3 _; [apply keeps_trip|done].
  - apply (keeps_window _ (observe cfg _ now) (λ _, ())). intros w. apply observe_wf.
  - case_bool_decide; [apply keeps_trip|apply keeps_close].
Qed.

Lemma keeps_call c t : ok_prog t (call_prog cfg baseline c).
Proof.
  destruct c; (apply keeps_bind; [|done]).
  - apply keeps_check.
  - apply keeps_record.
  - unfold breaker_error_rate. apply keeps_bind; [by keep_prog|intros now t1 _].
    apply (keeps_window _ (evict _ now) error_rate). intros w Hw. by apply evict_spec.
  - by keep_prog.
Qed.

Lemma shared_inv_tick s d : shared_inv s → shared_inv (set_clock (clock s + Z.of_N d)%Z s).
Proof.
  intros [Hst Hwin Hop Hcl]. pose proof (millis_mono (clock s) (clock s + Z.of_N d)%Z ltac:(lia)) as Hm.
  split; simpl; try done; lia.
Qed.

Lemma shared_inv_new : shared_inv (CircuitBreaker_new baseline).
Proof. split; simpl; [done| |apply N.le_0_l..]. split; [done|apply Nat.le_0_l]. Qed.

Lemma reachable_inv n sys : reachable cfg baseline n sys → shared_inv (memory sys).
Proof. apply reachable_keeps; [apply shared_inv_new|apply shared_inv_tick|apply keeps_call]. Qed.

(** Under every interleaving of any number of threads, the state cell holds one
    of the three states, the incremental failure count of the window is the count
    of its failures, the window never exceeds its cap, and no stamp lies in the
    future. *)
Theorem memory_consistent n sys :
  reachable cfg baseline n sys →
  (∃ st, cell_state (memory sys) = as_u8 st) ∧
  failures (window (memory sys)) = count_failures (entries (window (memory sys))) ∧
  length (entries (window (memory sys))) ≤ MAX_WINDOW_ENTRIES ∧
  (opened_at_millis (memory sys) ≤ millis_since baseline (clock (memory sys)))%N ∧
  (probe_claimed_at_millis (memory sys) ≤ millis_since baseline (clock (memory sys)))%N.
Proof. intros Hr. destruct (reachable_inv n sys Hr) as [Hst [Hf Hb] Hop Hcl]. split_and!; eauto. Qed.

End Breaker.

End Invariants.

Module Export Alone.

(** ** Programs that run alone *)

Lemma run_bind {A B} (p : prog A) (k : A → prog B) s :
  run_alone (p ≫= k) s = run_alone (k (run_alone p s).1) (run_alone p s).2.
Proof.
  revert s. induction p as [a|f IH] using prog_nested_ind; intros s; [done|].
  change (run_alone (Act (λ s, let '(s', p') := f s in (s', p' ≫= k))) s = run_alone (k (run_alone (Act f) s).1) (run_alone (Act f) s).2).
  simpl. specialize (IH s). destruct (f s) as [s' p']. apply IH.
Qed.
Lemma run_ret {A} (a : A) s : run_alone (mret a) s = (a, s).
Proof. done. Qed.
Lemma run_fetch {A} (g : Shared → A) s : run_alone (fetch g) s = (g s, s).
Proof. done. Qed.
Lemma run_modify g s : run_alone (modify g) s = ((), g s).
Proof. done. Qed.
Lemma run_atomically {A} (f : Shared → Shared * A) s : run_alone (atomically f) s = ((f s).2, (f s).1).
Proof. simpl. by destruct (f s). Qed.
Lemma run_state s : run_alone current_state s = (from_u8 (cell_state s), s).
Proof. done. Qed.
Lemma run_elapsed b s : run_alone (elapsed_millis b) s = (wrap64 (millis_since b (clock s)), s).
Proof. done. Qed.

Create HintDb run.
#[export] Hint Rewrite @run_bind @run_ret @run_fetch @run_modify @run_atomically run_state run_elapsed : run.

(** Runs the next actions; a conditional stops it. *)
Ltac run := cbn [fst snd]; autorewrite with run; cbn [fst snd].

Lemma usize_dec_inc n : (n ≤ u64_max)%N → usize_dec (usize_inc n) = n.
Proof.
  intros H. destruct (decide (n = u64_max)) as [->|Hn]; [by vm_compute|].
  rewrite usize_inc_small by lia. rewrite usize_dec_pos; lia.
Qed.

Section Breaker.
Context (cfg : BreakerConfig) (baseline : Instant).

(** Notifications aside, a probe attempt either takes a slot, or takes over an
    abandoned claim, or is refused. *)
Definition same_but_notices (s s' : Shared) : Prop := ∃ ns, s' = MkShared (cell_state s) (opened_at_millis s)
  (half_open_probes s) (probe_claimed_at_millis s) (is_open_fast s) (window s) (clock s) ns.

Lemma run_probe s :
  let now := wrap64 (millis_since baseline (clock s)) in
  let '(r, s') := run_alone (try_half_open_probe cfg baseline) s in
  if bool_decide (half_open_probes s < Config.half_open_max_probes cfg)%N then
    r = Ok () ∧ same_but_notices (set_claimed now (set_probes (usize_inc (half_open_probes s)) s)) s'
  else
    let back := set_probes (usize_dec (usize_inc (half_open_probes s))) s in
    if bool_decide (lease_millis cfg ≤ now - probe_claimed_at_millis s)%N then
      r = Ok () ∧ same_but_notices (set_claimed now back) s'
    else
      r = Err (MkOpen (N.min HALF_OPEN_PROBE_BACKOFF (open_duration cfg))) ∧ same_but_notices back s'.
Proof.
  cbv zeta. unfold try_half_open_probe. run. case_bool_decide.
  - unfold admit_probe. run. split; [done|by eexists].
  - run. cbn [set_probes probe_claimed_at_millis clock]. case_bool_decide.
    + run. cbn [set_probes probe_claimed_at_millis]. rewrite bool_decide_eq_true_2 by done.
      cbn [fst snd]. unfold admit_probe. run. split; [done|by eexists].
    + unfold reject_probe. run. split; [done|by eexists].
Qed.

End Breaker.

End Alone.

Module Export Recovery.

Section Breaker.
Context (cfg : BreakerConfig) (baseline : Instant).

Definition later (d : N) (s : Shared) : Shared := set_clock (clock s + Z.of_N d)%Z s.

Lemma lease_expired waited : (open_duration cfg ≤ from_millis waited)%N → (lease_millis cfg ≤ waited)%N.
Proof.
  intros H. unfold lease_millis. etransitivity; [apply wrap64_le|].
  apply N.Div0.div_le_upper_bound. unfold from_millis in H. lia.
Qed.

Lemma probe_admitted s :
  (lease_millis cfg ≤ wrap64 (millis_since baseline (clock s)) - probe_claimed_at_millis s)%N →
  (run_alone (try_half_open_probe cfg baseline) s).1 = Ok ().
Proof.
  intros H. pose proof (run_probe cfg baseline s) as Hp.
  destruct (run_alone (try_half_open_probe cfg baseline) s) as [r s']. simpl. cbv zeta in Hp.
  case_bool_decide; [by destruct Hp|]. rewrite bool_decide_eq_true_2 in Hp by done. by destruct Hp.
Qed.

(** C34: No interleaving of calls strands the breaker, a lost probe or a corrupted
    probe counter included: from any reachable memory, a check that runs alone
    once the open duration has passed is admitted. *)
Theorem quiet_check_admitted n sys d :
  reachable cfg baseline n sys →
  let s := later d (memory sys) in
  (millis_since baseline (clock s) ≤ u64_max)%N →
  (open_duration cfg ≤ from_millis (millis_since baseline (clock s) - millis_since baseline (clock (memory sys))))%N →
  (run_alone (breaker_check cfg baseline) s).1 = Ok ().
Proof.
  intros Hr s Hmax Hwait. destruct (reachable_inv cfg baseline n sys Hr) as [Hst _ Hop Hcl].
  assert (Hw : ∀ stamp, (stamp ≤ millis_since baseline (clock (memory sys)))%N →
    (open_duration cfg ≤ from_millis (millis_since baseline (clock s) - stamp))%N).
  { intros stamp Hs. etransitivity; [exact Hwait|]. apply N.mul_le_mono_r. lia. }
  assert (Hp : ∀ s', clock s' = clock s → probe_claimed_at_millis s' = probe_claimed_at_millis s →
    (run_alone (try_half_open_probe cfg baseline) s').1 = Ok ()).
  { intros s' Hc Hq. apply probe_admitted. rewrite Hc, Hq, wrap64_small by done. by apply lease_expired, Hw. }
  unfold breaker_check. destruct (enabled cfg); [|done]. cbn [negb]. run.
  change (cell_state s) with (cell_state (memory sys)).
  destruct (from_u8 (cell_state (memory sys))) eqn:Es; [done| |by apply Hp].
  unfold check_open. run. rewrite wrap64_small by done.
  rewrite bool_decide_eq_true_2 by (by apply Hw). unfold cas_state. run.
  change (cell_state s) with (cell_state (memory sys)). rewrite bool_decide_eq_true_2 by done.
  cbn [fst snd]. run. by apply Hp.
Qed.

End Breaker.

End Recovery.

Module Export Serial.

(** ** One call at a time *)

Section Breaker.
Context (cfg : BreakerConfig) (baseline : Instant).

(** Calls that do not overlap, each after a delay. *)
Definition call_alone (s : Shared) (dc : N * Call) : Answer * Shared :=
  run_alone (call_prog cfg baseline dc.2) (later dc.1 s).

Fixpoint serial (s : Shared) (calls : list (N * Call)) : list Answer * Shared :=
  match calls with
  | [] => ([], s)
  | dc :: rest =>
      let '(a, s') := call_alone s dc in
      let '(as_, s'') := serial s' rest in (a :: as_, s'')
  end.

(** The state machine a breaker means to be: a phase, the samples of the window
    and the clock, with no cells to keep in agreement. *)
Inductive Phase : Type :=
| PClosed
| POpen (since : N)
| PHalfOpen (used claim : N).
Record Spec : Type := MkSpec { phase : Phase; samples : list (Instant * bool); spec_clock : Instant }.

Definition spec_push (b : bool) (t : Instant) (es : list (Instant * bool)) : list (Instant * bool) :=
  (if bool_decide (MAX_WINDOW_ENTRIES ≤ length es) then tail es else es) ++ [(t, b)].
Definition spec_observe (b : bool) (t : Instant) (es : list (Instant * bool)) : list (Instant * bool) :=
  evicted (window_duration cfg) t (spec_push b t es).
Definition spec_rate (es : list (Instant * bool)) : F64 :=
  error_rate (MkWindow es (count_failures es)).
Definition spec_trips (es : list (Instant * bool)) : bool :=
  bool_decide (min_samples cfg ≤ length es) && f64_ge (spec_rate es) (error_rate_threshold cfg).

Definition spec_check (st : Spec) : result BreakerOpen unit * Phase :=
  let now := millis_since baseline (spec_clock st) in
  match phase st with
  | PClosed => (Ok (), PClosed)
  | POpen since =>
      let waited := from_millis (now - since)%N in
      if bool_decide (open_duration cfg ≤ waited)%N then (Ok (), PHalfOpen 1 now)
      else (Err (MkOpen (open_duration cfg - waited)%N), POpen since)
  | PHalfOpen used claim =>
      if bool_decide (used < Config.half_open_max_probes cfg)%N then (Ok (), PHalfOpen (used + 1)%N now)
      else if bool_decide (lease_millis cfg ≤ now - claim)%N then (Ok (), PHalfOpen used now)
      else (Err (MkOpen (N.min HALF_OPEN_PROBE_BACKOFF (open_duration cfg))), PHalfOpen used claim)
  end.

Definition spec_record (o : Outcome) (st : Spec) : Phase * list (Instant * bool) :=
  let now := millis_since baseline (spec_clock st) in
  let observed := spec_observe (bool_decide (o = Failure)) (spec_clock st) (samples st) in
  match phase st with
  | PClosed => (if spec_trips observed then POpen now else PClosed, observed)
  | POpen since => (POpen since, observed)
  | PHalfOpen _ _ => match o with Failure => (POpen now, samples st) | Success => (PClosed, []) end
  end.

Definition spec_call (st : Spec) (dc : N * Call) : Answer * Spec :=
  let st := MkSpec (phase st) (samples st) (spec_clock st + Z.of_N dc.1)%Z in
  match dc.2 with
  | CallCheck => let '(r, p) := spec_check st in (Checked r, MkSpec p (samples st) (spec_clock st))
  | CallRecord o => let '(p, es) := spec_record o st in (Recorded, MkSpec p es (spec_clock st))
  | CallErrorRate =>
      let es := evicted (window_duration cfg) (spec_clock st) (samples st) in
      (Rate (spec_rate es), MkSpec (phase st) es (spec_clock st))
  | CallIsOpen => (Answered (match phase st with POpen _ => true | _ => false end), st)
  end.

Fixpoint spec_run (st : Spec) (calls : list (N * Call)) : list Answer * Spec :=
  match calls with
  | [] => ([], st)
  | dc :: rest =>
      let '(a, st') := spec_call st dc in
      let '(as_, st'') := spec_run st' rest in (a :: as_, st'')
  end.

Definition spec_new : Spec := MkSpec PClosed [] baseline.

(** When the cells of the memory agree with a phase. *)
Definition phase_cells (p : Phase) (s : Shared) : Prop :=
  match p with
  | PClosed => cell_state s = 0%N ∧ is_open_fast s = false ∧ half_open_probes s = 0%N
  | POpen since => cell_state s = 1%N ∧ is_open_fast s = true ∧ half_open_probes s = 0%N ∧ opened_at_millis s = since
  | PHalfOpen used claim =>
      cell_state s = 2%N ∧ is_open_fast s = false ∧ half_open_probes s = used ∧
      probe_claimed_at_millis s = claim ∧ (used ≤ Config.half_open_max_probes cfg)%N
  end.

Record simulates (st : Spec) (s : Shared) : Prop := {
  sim_clock : clock s = spec_clock st;
  sim_wf : window_wf (window s);
  sim_samples : entries (window s) = samples st;
  sim_phase : phase_cells (phase st) s;
}.

Lemma wf_eta w : window_wf w → w = MkWindow (entries w) (count_failures (entries w)).
Proof. intros [Hf _]. destruct w. simpl in *. by subst. Qed.

Lemma observe_spec b t w : window_wf w →
  window_wf (observe cfg b t w) ∧ entries (observe cfg b t w) = spec_observe b t (entries w).
Proof.
  intros Hw. unfold observe. destruct (evict_spec (window_duration cfg) t _ (push_wf b t w Hw)) as [H1 H2].
  split; [done|]. by rewrite H2, push_entries.
Qed.

Lemma trips_spec w : window_wf w → trips cfg w = spec_trips (entries w).
Proof. intros Hw. unfold trips, spec_trips, spec_rate, sample_count. by rewrite <-(wf_eta w Hw). Qed.

Context (Hon : enabled cfg = true) (Hmax1 : (1 ≤ Config.half_open_max_probes cfg)%N)
        (Hmax64 : (Config.half_open_max_probes cfg ≤ u64_max)%N).

Lemma check_simulates st s :
  simulates st s → (millis_since baseline (clock s) ≤ u64_max)%N →
  let '(r, s') := run_alone (breaker_check cfg baseline) s in
  let '(r', p) := spec_check st in
  r = r' ∧ simulates (MkSpec p (samples st) (spec_clock st)) s'.
Proof.
  intros [Hc Hwf Hs Hp] Hnow. unfold breaker_check. rewrite Hon. cbn [negb]. run.
  unfold spec_check. destruct (phase st) as [|since|used claim] eqn:Ep; simpl in Hp.
  - destruct Hp as (Hst & Hf & Hpr). rewrite Hst. change (from_u8 0) with Closed. run.
    split; [done|]. split; simpl; try done.
  - destruct Hp as (Hst & Hf & Hpr & Hop). rewrite Hst. change (from_u8 1) with Open. unfold check_open. run.
    rewrite Hop, wrap64_small, Hc by done. case_bool_decide as Hw; [|split; [done|split; simpl; by rewrite ?Ep]].
    unfold cas_state. run. rewrite bool_decide_eq_true_2 by done. cbn [fst snd]. run.
    set (s1 := notify _ (set_fast false (set_state HalfOpen s))).
    pose proof (run_probe cfg baseline s1) as Hpb. cbv zeta in Hpb.
    destruct (run_alone (try_half_open_probe cfg baseline) s1) as [r s'].
    change (half_open_probes s1) with (half_open_probes s) in Hpb. rewrite Hpr in Hpb.
    rewrite bool_decide_eq_true_2 in Hpb by lia. destruct Hpb as [-> [ns ->]]. split; [done|].
    split; simpl; try done. rewrite wrap64_small, Hc by done. split_and!; try done.
  - destruct Hp as (Hst & Hf & Hpr & Hcl & Hle). rewrite Hst. change (from_u8 2) with HalfOpen.
    pose proof (run_probe cfg baseline s) as Hpb. cbv zeta in Hpb. cbv iota.
    destruct (run_alone (try_half_open_probe cfg baseline) s) as [r s'].
    rewrite Hpr, Hcl, wrap64_small, Hc in Hpb by done. case_bool_decide as Hu.
    { destruct Hpb as [-> [ns ->]]. split; [done|]. split; simpl; try done.
      rewrite usize_inc_small by lia. split_and!; try done. lia. }
    rewrite usize_dec_inc in Hpb by lia. case_bool_decide as Hlease; destruct Hpb as [-> [ns ->]].
    all: split; [done|]; split; simpl; try done; by split_and!.
Qed.

Lemma record_simulates o st s :
  simulates st s → (millis_since baseline (clock s) ≤ u64_max)%N →
  let '(p, es) := spec_record o st in
  simulates (MkSpec p es (spec_clock st)) (run_alone (breaker_record cfg baseline o) s).2.
Proof.
  intros [Hc Hwf Hs Hp] Hnow. unfold breaker_record. rewrite Hon. cbn [negb]. cbv zeta. run.
  unfold spec_record. set (b := bool_decide (o = Failure)).
  pose proof (observe_spec b (clock s) (window s) Hwf) as [Hwf' He]. rewrite Hs, Hc in He. rewrite Hc in Hwf' |- *.
  destruct (phase st) as [|since|used claim] eqn:Ep; simpl in Hp.
  - destruct Hp as (Hst & Hf & Hpr). rewrite Hst. change (from_u8 0) with Closed. run.
    rewrite (trips_spec _ Hwf'), He. destruct (spec_trips _).
    + unfold trip, notify_change. run. simpl bool_decide. cbv iota. run. split; simpl; try done.
      split_and!; try done. by rewrite Hc, wrap64_small by (by rewrite <-Hc).
    + run. split; simpl; try done.
  - destruct Hp as (Hst & Hf & Hpr & Hop). rewrite Hst. change (from_u8 1) with Open. run.
    split; simpl; try done.
  - destruct Hp as (Hst & Hf & Hpr & Hcl & Hle). rewrite Hst. change (from_u8 2) with HalfOpen. destruct o; simpl in b; subst b.
    + unfold close, notify_change. run. split; simpl; try done. split; [done|apply Nat.le_0_l].
    + unfold trip, notify_change. run. split; simpl; try done. split_and!; try done.
      by rewrite Hc, wrap64_small by (by rewrite <-Hc).
Qed.

Lemma simulates_later st s d :
  simulates st s → simulates (MkSpec (phase st) (samples st) (spec_clock st + Z.of_N d)%Z) (later d s).
Proof. intros [Hc Hwf Hs Hp]. split; simpl; try done. by rewrite Hc. Qed.

Lemma call_simulates st s dc :
  simulates st s → (millis_since baseline (clock s + Z.of_N dc.1)%Z ≤ u64_max)%N →
  let '(a, s') := call_alone s dc in let '(a', st') := spec_call st dc in a = a' ∧ simulates st' s'.
Proof.
  intros Hsim Hnow. apply (simulates_later _ _ dc.1) in Hsim. destruct dc as [d c]. simpl in Hsim, Hnow.
  unfold call_alone, spec_call. cbn [fst snd]. set (st1 := MkSpec _ _ _) in *. set (s1 := later d s) in *.
  destruct c as [|o| |]; cbn [call_prog]; run.
  - pose proof (check_simulates st1 s1 Hsim Hnow) as H.
    destruct (run_alone (breaker_check cfg baseline) s1) as [r s'], (spec_check st1) as [r' p]. simpl.
    destruct H as [-> H]. by split.
  - pose proof (record_simulates o st1 s1 Hsim Hnow) as H. destruct (spec_record o st1) as [p es]. by split.
  - unfold breaker_error_rate. run. destruct Hsim as [Hc Hwf Hs Hp].
    destruct (evict_spec (window_duration cfg) (clock s1) (window s1) Hwf) as [Hw He].
    rewrite Hc, Hs in He. rewrite Hc in Hw |- *. split.
    + f_equal. unfold spec_rate. rewrite (wf_eta _ Hw) at 1. by rewrite He.
    + by split.
  - split; [|done]. f_equal. destruct Hsim as [_ _ _ Hp]. destruct (phase st1); simpl in Hp; naive_solver.
Qed.

(** The time that passes in a run. *)
Definition total (calls : list (N * Call)) : N := foldr (λ dc n, (dc.1 + n)%N) 0%N calls.

Lemma serial_simulates st s calls :
  simulates st s → (millis_since baseline (clock s + Z.of_N (total calls))%Z ≤ u64_max)%N →
  let '(as_, s') := serial s calls in let '(as_', st') := spec_run st calls in
  as_ = as_' ∧ simulates st' s' ∧ clock s' = (clock s + Z.of_N (total calls))%Z.
Proof.
  revert st s. induction calls as [|dc calls IH]; intros st s Hsim Hnow; simpl.
  { split_and!; [done|done|lia]. }
  simpl in Hnow. pose proof (call_simulates st s dc Hsim) as Hcall.
  destruct (call_alone s dc) as [a s'] eqn:Ec. destruct (spec_call st dc) as [a' st'] eqn:Es.
  destruct Hcall as [-> Hsim'].
  { etransitivity; [|exact Hnow]. apply millis_mono. lia. }
  assert (Hclk : clock s' = (clock s + Z.of_N dc.1)%Z).
  { rewrite (sim_clock _ _ Hsim'), (sim_clock _ _ Hsim). unfold spec_call in Es. destruct dc as [d []]; simpl in *.
    - destruct (spec_check _). by injection Es as <- <-.
    - destruct (spec_record _ _). by injection Es as <- <-.
    - by injection Es as <- <-.
    - by injection Es as <- <-. }
  specialize (IH st' s' Hsim'). rewrite Hclk in IH.
  replace (clock s + Z.of_N dc.1 + Z.of_N (total calls))%Z with (clock s + Z.of_N (dc.1 + total calls))%Z in IH by lia.
  specialize (IH Hnow). destruct (serial s' calls) as [as_ s''], (spec_run st' calls) as [as_' st''].
  destruct IH as (-> & H1 & H2). by split_and!.
Qed.

Lemma simulates_new : simulates spec_new (CircuitBreaker_new baseline).
Proof. split; [done| |done|done]. split; [done|apply Nat.le_0_l]. Qed.

(** C33: Called one at a time, the breaker with its six shared cells answers every
    call as the three-phase state machine does, whose window is a plain list whose
    failures are counted on demand: no cell lags behind, no counter wraps. *)
Theorem serial_refinement calls :
  (millis_since baseline (baseline + Z.of_N (total calls))%Z ≤ u64_max)%N →
  (serial (CircuitBreaker_new baseline) calls).1 = (spec_run spec_new calls).1.
Proof.
  intros H. pose proof (serial_simulates spec_new (CircuitBreaker_new baseline) calls simulates_new H) as Hs.
  destruct (serial _ calls), (spec_run _ calls). by destruct Hs.
Qed.

(** Along a run, what the state machine keeps as long as it is open and waiting. *)
Definition waiting (since : N) (t : Instant) : Prop :=
  (from_millis (millis_since baseline t - since) < open_duration cfg)%N.

Lemma waiting_earlier since t t' : (t ≤ t')%Z → waiting since t' → waiting since t.
Proof.
  unfold waiting, from_millis. intros Ht Hw. pose proof (millis_mono baseline t t' Ht). lia.
Qed.

Definition refused (a : Answer) : Prop := match a with Checked r => is_Some (ok r) → False | _ => True end.

Lemma spec_open_waits st since calls :
  phase st = POpen since → waiting since (spec_clock st + Z.of_N (total calls))%Z →
  Forall refused (spec_run st calls).1 ∧ phase (spec_run st calls).2 = POpen since.
Proof.
  revert st. induction calls as [|[d c] calls IH]; intros st Hp Hw; simpl; [done|].
  simpl in Hw. set (st1 := MkSpec (phase st) (samples st) (spec_clock st + Z.of_N d)%Z).
  assert (Hstep : ∃ a st', spec_call st (d, c) = (a, st') ∧ refused a ∧ phase st' = POpen since ∧
    spec_clock st' = (spec_clock st + Z.of_N d)%Z).
  { unfold spec_call. cbn [fst snd]. fold st1.
    assert (H1 : phase st1 = POpen since) by done.
    destruct c as [|o| |].
    - unfold spec_check. rewrite H1. rewrite bool_decide_eq_false_2.
      + eexists _, _. split; [done|]. split_and!; try done. simpl. by intros [].
      + apply N.lt_nge. refine (waiting_earlier since (spec_clock st1) _ _ Hw). simpl. lia.
    - unfold spec_record. rewrite H1. eexists _, _. by split_and!.
    - eexists _, _. by split_and!.
    - eexists _, _. by split_and!. }
  destruct Hstep as (a & st' & -> & Ha & Hp' & Hc').
  destruct (IH st' Hp') as [H1 H2].
  { rewrite Hc'. by replace (spec_clock st + Z.of_N d + Z.of_N (total calls))%Z
      with (spec_clock st + Z.of_N (d + total calls))%Z by lia. }
  destruct (spec_run st' calls) as [as_ st'']. simpl in *. split; [by constructor|done].
Qed.

(** Called one at a time, an open breaker sheds every request until its open
    duration has passed since it tripped, stays open and says so. *)
Theorem cool_down_respected before after :
  (millis_since baseline (baseline + Z.of_N (total before + total after))%Z ≤ u64_max)%N →
  let '(_, s) := serial (CircuitBreaker_new baseline) before in
  from_u8 (cell_state s) = Open →
  waiting (opened_at_millis s) (clock s + Z.of_N (total after))%Z →
  let '(as_, s') := serial s after in
  Forall refused as_ ∧ from_u8 (cell_state s') = Open ∧ is_open_fast s' = true ∧
  opened_at_millis s' = opened_at_millis s.
Proof.
  intros Hnow. pose proof (serial_simulates spec_new (CircuitBreaker_new baseline) before simulates_new) as Hb.
  destruct (serial (CircuitBreaker_new baseline) before) as [as0 s].
  destruct (spec_run spec_new before) as [as0' st]. simpl in Hb.
  destruct Hb as (_ & Hsim & Hclk).
  { etransitivity; [|exact Hnow]. apply millis_mono. lia. }
  intros Hopen Hw. destruct (phase st) as [|since|used claim] eqn:Ep.
  - destruct Hsim as [_ _ _ Hp]. rewrite Ep in Hp. destruct Hp as [Hp _]. by rewrite Hp in Hopen.
  - pose proof (sim_phase _ _ Hsim) as Hp. rewrite Ep in Hp. destruct Hp as (_ & _ & _ & Hop).
    rewrite Hop in Hw |- *. rewrite (sim_clock _ _ Hsim) in Hw.
    destruct (spec_open_waits st since after Ep Hw) as [Hr Hp'].
    pose proof (serial_simulates st s after Hsim) as Ha.
    destruct (serial s after) as [as_ s'], (spec_run st after) as [as_' st']. simpl in *.
    destruct Ha as (-> & Hsim' & _).
    { rewrite Hclk. replace (baseline + Z.of_N (total before) + Z.of_N (total after))%Z
        with (baseline + Z.of_N (total before + total after))%Z by lia. done. }
    pose proof (sim_phase _ _ Hsim') as Hq. rewrite Hp' in Hq. destruct Hq as (Hq1 & Hq2 & _ & Hq4).
    split_and!; [done|by rewrite Hq1|done|done].
  - destruct Hsim as [_ _ _ Hp]. rewrite Ep in Hp. destruct Hp as [Hp _]. by rewrite Hp in Hopen.
Qed.

(** Calls one at a time keep what every interleaving keeps. *)
Lemma run_alone_keeps {A} (I : Shared → Prop) t (p : prog A) s :
  keeps I t p → (t ≤ clock s)%Z → I s → I (run_alone p s).2.
Proof.
  revert t s. induction p as [a|f IH] using prog_nested_ind; intros t s Hp Ht HI; [done|].
  destruct (Hp s Ht HI) as (H1 & H2 & H3). simpl. specialize (IH s). destruct (f s) as [s' p']. simpl in *.
  apply (IH (clock s)); [done|lia|done].
Qed.

Lemma serial_inv s calls : shared_inv baseline s → shared_inv baseline (serial s calls).2.
Proof.
  revert s. induction calls as [|[d c] calls IH]; intros s HI; [done|]. simpl. unfold call_alone. cbn [fst snd].
  pose proof (run_alone_keeps (shared_inv baseline) (clock (later d s)) (call_prog cfg baseline c) (later d s)
    (keeps_call cfg baseline c _) ltac:(lia) (shared_inv_tick baseline s d HI)) as Hk.
  destruct (run_alone _ (later d s)) as [a s']. simpl in Hk. specialize (IH s' Hk).
  by destruct (serial s' calls).
Qed.

Definition admitted (a : Answer) : bool := match a with Checked (Ok _) => true | _ => false end.
Definition count_admitted (as_ : list Answer) : N := N.of_nat (length (filter (λ a, admitted a = true) as_)).
Definition is_record (c : Call) : bool := match c with CallRecord _ => true | _ => false end.

Lemma count_admitted_cons a as_ :
  count_admitted (a :: as_) = ((if admitted a then 1 else 0) + count_admitted as_)%N.
Proof. unfold count_admitted. rewrite filter_cons. destruct (admitted a); case_decide; simpl; lia || done. Qed.

Lemma spec_half_open_bounded st used claim calls :
  phase st = PHalfOpen used claim → (used ≤ Config.half_open_max_probes cfg)%N →
  Forall (λ dc, is_record dc.2 = false) calls →
  (claim ≤ millis_since baseline (spec_clock st))%N →
  (millis_since baseline (spec_clock st + Z.of_N (total calls))%Z - claim < lease_millis cfg)%N →
  (used + count_admitted (spec_run st calls).1 ≤ Config.half_open_max_probes cfg)%N.
Proof.
  revert st used claim. induction calls as [|[d c] calls IH]; intros st used claim Hp Hu Hall Hpast Hl.
  { unfold count_admitted. simpl. lia. }
  apply Forall_cons in Hall as [Hc Hall]. simpl in Hc, Hl.
  set (st1 := MkSpec (phase st) (samples st) (spec_clock st + Z.of_N d)%Z).
  assert (Hm0 : (millis_since baseline (spec_clock st) ≤ millis_since baseline (spec_clock st1))%N)
    by (apply millis_mono; simpl; lia).
  assert (Hm : (millis_since baseline (spec_clock st1) ≤
    millis_since baseline (spec_clock st + Z.of_N (d + total calls))%Z)%N) by (apply millis_mono; simpl; lia).
  replace (spec_clock st + Z.of_N (d + total calls))%Z with (spec_clock st1 + Z.of_N (total calls))%Z in Hl, Hm
    by (simpl; lia).
  assert (Hstep : ∃ a st' used' claim', spec_call st (d, c) = (a, st') ∧ phase st' = PHalfOpen used' claim' ∧
    spec_clock st' = spec_clock st1 ∧ (used + (if admitted a then 1 else 0) = used')%N ∧
    (used' ≤ Config.half_open_max_probes cfg)%N ∧
    (claim' = claim ∨ claim' = millis_since baseline (spec_clock st1))).
  { unfold spec_call. cbn [fst snd]. fold st1. assert (H1 : phase st1 = PHalfOpen used claim) by done.
    destruct c as [|o| |]; [|done| |].
    - unfold spec_check. rewrite H1. case_bool_decide as Hlt.
      + eexists _, _, _, _. split_and!; try done; simpl; [lia|by right].
      + rewrite bool_decide_eq_false_2 by lia. eexists _, _, _, _. split_and!; try done; simpl; [lia|by left].
    - eexists _, _, _, _. split_and!; try done; simpl; [lia|by left].
    - eexists _, _, _, _. split_and!; try done; simpl; [lia|by left]. }
  destruct Hstep as (a & st' & used' & claim' & Hs & Hp' & Hc' & <- & Hu' & Hcl).
  specialize (IH st' _ claim' Hp' Hu' Hall). rewrite Hc' in IH.
  cbn [spec_run]. rewrite Hs. destruct (spec_run st' calls) as [as_ st'']. cbn [fst] in IH |- *.
  rewrite count_admitted_cons, N.add_assoc. apply IH; destruct Hcl as [->| ->]; lia.
Qed.

(** Called one at a time, a half-open breaker lets at most its remaining probe
    slots through until an outcome is recorded, as long as the newest claim has
    not outlived its lease. *)
Theorem half_open_probes_bounded before after :
  (millis_since baseline (baseline + Z.of_N (total before + total after))%Z ≤ u64_max)%N →
  Forall (λ dc, is_record dc.2 = false) after →
  let '(_, s) := serial (CircuitBreaker_new baseline) before in
  from_u8 (cell_state s) = HalfOpen →
  (millis_since baseline (clock s + Z.of_N (total after))%Z - probe_claimed_at_millis s < lease_millis cfg)%N →
  (half_open_probes s + count_admitted (serial s after).1 ≤ Config.half_open_max_probes cfg)%N.
Proof.
  intros Hnow Hall. pose proof (serial_simulates spec_new (CircuitBreaker_new baseline) before simulates_new) as Hb.
  pose proof (serial_inv (CircuitBreaker_new baseline) before (shared_inv_new baseline)) as Hinv.
  destruct (serial (CircuitBreaker_new baseline) before) as [as0 s].
  destruct (spec_run spec_new before) as [as0' st]. simpl in Hb.
  destruct Hb as (_ & Hsim & Hclk).
  { etransitivity; [|exact Hnow]. apply millis_mono. lia. }
  intros Hhalf Hl. pose proof (sim_phase _ _ Hsim) as Hp. destruct (phase st) as [|since|used claim] eqn:Ep.
  - destruct Hp as [Hp _]. by rewrite Hp in Hhalf.
  - destruct Hp as [Hp _]. by rewrite Hp in Hhalf.
  - destruct Hp as (_ & _ & Hpr & Hcl & Hle). rewrite Hpr. rewrite Hcl, (sim_clock _ _ Hsim) in Hl.
    assert (Hpast : (claim ≤ millis_since baseline (spec_clock st))%N)
      by (rewrite <-Hcl, <-(sim_clock _ _ Hsim); apply (inv_claimed _ _ Hinv)).
    pose proof (spec_half_open_bounded st used claim after Ep Hle Hall Hpast Hl) as Hbound.
    pose proof (serial_simulates st s after Hsim) as Ha.
    destruct (serial s after) as [as_ s'], (spec_run st after) as [as_' st']. simpl in *.
    destruct Ha as (-> & _); [|done].
    rewrite Hclk. replace (baseline + Z.of_N (total before) + Z.of_N (total after))%Z
      with (baseline + Z.of_N (total before + total after))%Z by lia. done.
Qed.

End Breaker.

End Serial.

Module Export Races.

(** ** What interleavings break *)

Definition finish (i : nat) : list Choice := replicate 30 (Go i).
Definition whole (i : nat) (c : Call) : list Choice := Begin i c :: finish i.

(** Ten failures trip the breaker; ten seconds later thread 0 has the probe. *)
Definition probing : list Choice :=
  concat (replicate 10 (whole 0 (CallRecord Failure))) ++ [Tick (secs 10)] ++ whole 0 CallCheck.

(** Thread 0 has reported the failed probe up to the store of the state; thread 1
    checks; thread 0 goes on, and thread 1 checks once more. *)
Definition trip_race : list Choice :=
  probing ++ [Tick (from_millis 5); Begin 0 (CallRecord Failure); Go 0; Go 0; Go 0] ++
  whole 1 CallCheck ++ finish 0 ++ whole 1 CallCheck.

(** Thread 1 has taken a slot too many when thread 0 trips the breaker; then
    thread 1 gives it back. *)
Definition slot_race : list Choice :=
  probing ++ [Begin 1 CallCheck; Go 1; Go 1; Go 1] ++ whole 0 (CallRecord Failure) ++ finish 1.

Definition idle (sys : System) : bool := forallb (λ t, match t with None => true | Some _ => false end) (threads sys).

Definition last_answers (n : nat) (sys : System) : list (nat * Answer) :=
  reverse (take n (reverse (answers sys))).

(** An interleaving skips the cool-down: a check that reads the breaker open
    while another thread is inside [trip] sees the stamp of the previous trip, and
    makes the breaker half-open; once the trip is complete, the next check is
    admitted at the very instant of the trip, with the fast mirror still open. *)
Theorem trip_race_skips_cool_down :
  ∃ sys, reachable server 0%Z 2 sys ∧ idle sys = true ∧
    last_answers 2 sys = [(0, Recorded); (1, Checked (Ok ()))] ∧
    opened_at_millis (memory sys) = millis_since 0%Z (clock (memory sys)) ∧
    from_u8 (cell_state (memory sys)) = HalfOpen ∧ is_open_fast (memory sys) = true.
Proof.
  destruct (exec server 0%Z (start 0%Z 2) trip_race) as [sys|] eqn:E; [|by vm_compute in E].
  exists sys. split; [by eapply exec_steps|]. vm_compute in E. injection E as <-. by vm_compute.
Qed.

(** The probe counter of an open breaker is not always zero: an interleaving wraps
    it to the largest [usize]. *)
Theorem slot_race_wraps_counter :
  ∃ sys, reachable server 0%Z 2 sys ∧ idle sys = true ∧
    from_u8 (cell_state (memory sys)) = Open ∧ half_open_probes (memory sys) = u64_max.
Proof.
  destruct (exec server 0%Z (start 0%Z 2) slot_race) as [sys|] eqn:E; [|by vm_compute in E].
  exists sys. split; [by eapply exec_steps|]. vm_compute in E. injection E as <-. by vm_compute.
Qed.

(** ** Witnesses *)

Lemma server_horizon calls :
  (total calls ≤ 1000000000000000)%N → (millis_since 0%Z (0 + Z.of_N (total calls))%Z ≤ u64_max)%N.
Proof.
  intros H. unfold millis_since. etransitivity; [apply N.Div0.div_le_upper_bound with (q := 1000000000000000%N)|by vm_compute].
  lia.
Qed.

Definition ten_failures : list (N * Call) := replicate 10 (0%N, CallRecord Failure).

Lemma memory_consistent_witness :
  ∃ sys, reachable server 0%Z 2 sys ∧ half_open_probes (memory sys) = u64_max ∧
    ∃ st, cell_state (memory sys) = as_u8 st.
Proof.
  destruct (exec server 0%Z (start 0%Z 2) slot_race) as [sys|] eqn:E; [|by vm_compute in E].
  assert (Hr : reachable server 0%Z 2 sys) by (by eapply exec_steps).
  exists sys. split; [exact Hr|]. split.
  - vm_compute in E. injection E as <-. by vm_compute.
  - exact (proj1 (memory_consistent server 0%Z 2 sys Hr)).
Defined.

Lemma quiet_check_admitted_witness :
  ∃ sys, reachable server 0%Z 2 sys ∧ half_open_probes (memory sys) = u64_max ∧
    (run_alone (breaker_check server 0%Z) (later (secs 10) (memory sys))).1 = Ok ().
Proof.
  destruct (exec server 0%Z (start 0%Z 2) slot_race) as [sys|] eqn:E; [|by vm_compute in E].
  assert (Hr : reachable server 0%Z 2 sys) by (by eapply exec_steps).
  assert (Hc : clock (memory sys) = 10000000000%Z) by (vm_compute in E; injection E as <-; by vm_compute).
  exists sys. split; [exact Hr|]. split.
  - vm_compute in E. injection E as <-. by vm_compute.
  - refine (quiet_check_admitted server 0%Z 2 sys (secs 10) Hr _ _);
      unfold later, set_clock; cbn [clock]; rewrite Hc; by vm_compute.
Defined.

Lemma serial_refinement_witness :
  (serial server 0%Z (CircuitBreaker_new 0%Z) (ten_failures ++ [(0%N, CallCheck); (secs 10, CallCheck)])).1 =
    replicate 10 Recorded ++ [Checked (Err (MkOpen (secs 10))); Checked (Ok ())].
Proof.
  etransitivity; [refine (serial_refinement server 0%Z eq_refl _ _ _ _)|by vm_compute]; by vm_compute.
Defined.

Definition tripped : Shared := (serial server 0%Z (CircuitBreaker_new 0%Z) ten_failures).2.
Definition probed : Shared :=
  (serial server 0%Z (CircuitBreaker_new 0%Z) (ten_failures ++ [(secs 10, CallCheck)])).2.

Lemma cool_down_respected_witness : is_open_fast (serial server 0%Z tripped [(secs 9, CallCheck)]).2 = true.
Proof.
  pose proof (cool_down_respected server 0%Z eq_refl ltac:(by vm_compute) ltac:(by vm_compute)
    ten_failures [(secs 9, CallCheck)] ltac:(by vm_compute)) as H.
  rewrite (surjective_pairing (serial server 0%Z (CircuitBreaker_new 0%Z) ten_failures)) in H.
  cbv beta iota in H. fold tripped in H. specialize (H ltac:(by vm_compute) ltac:(by vm_compute)).
  rewrite (surjective_pairing (serial server 0%Z tripped _)) in H. by destruct H as (_ & _ & H & _).
Defined.

Lemma half_open_probes_bounded_witness :
  half_open_probes probed = 1%N ∧
  count_admitted (serial server 0%Z probed [(0%N, CallCheck); (secs 9, CallCheck)]).1 = 0%N.
Proof.
  assert (Hone : half_open_probes probed = 1%N) by by vm_compute. split; [exact Hone|].
  pose proof (half_open_probes_bounded server 0%Z eq_refl ltac:(by vm_compute) ltac:(by vm_compute)
    (ten_failures ++ [(secs 10, CallCheck)]) [(0%N, CallCheck); (secs 9, CallCheck)] ltac:(by vm_compute)
    ltac:(by repeat constructor)) as H.
  rewrite (surjective_pairing (serial server 0%Z (CircuitBreaker_new 0%Z) (ten_failures ++ _))) in H.
  cbv beta iota in H. fold probed in H. specialize (H ltac:(by vm_compute) ltac:(by vm_compute)). rewrite Hone in H.
  change (Config.half_open_max_probes server) with 1%N in H. lia.
Defined.

End Races.

Module Export Registry.

(** The breakers handed out are shared: the map holds references into a heap. *)
Record CircuitBreakerRegistry : Type := MkRegistry {
  registry_config : BreakerConfig; breakers : gmap string nat; heap : list (BreakerConfig * Shared);
}.

Definition registry_new (c : BreakerConfig) : CircuitBreakerRegistry := MkRegistry c ∅ [].

Definition registry_get (now : Instant) (k : string) (r : CircuitBreakerRegistry)
    : option nat * CircuitBreakerRegistry :=
  if negb (enabled (registry_config r)) then (None, r)
  else
    match breakers r !! k with
    | Some id => (Some id, r)
    | None =>
        let id := length (heap r) in
        (Some id, MkRegistry (registry_config r) (<[k := id]> (breakers r))
           (heap r ++ [(normalized (registry_config r), CircuitBreaker_new now)]))
    end.

Definition gets (r : CircuitBreakerRegistry) (calls : list (Instant * string)) : CircuitBreakerRegistry :=
  fold_left (λ r c, (registry_get c.1 c.2 r).2) calls r.

(** References are allocated and not shared between keys. *)
Record registry_wf (r : CircuitBreakerRegistry) : Prop := {
  wf_allocated k id : breakers r !! k = Some id → id < length (heap r);
  wf_distinct k k' id : breakers r !! k = Some id → breakers r !! k' = Some id → k = k';
}.

Lemma registry_get_wf now k r : registry_wf r → registry_wf (registry_get now k r).2.
Proof.
  intros [Ha Hd]. unfold registry_get. destruct (negb _); [by split|].
  destruct (breakers r !! k) as [id|] eqn:E; [by split|]. split; simpl.
  - intros k' id. rewrite length_app. simpl. destruct (decide (k = k')) as [<-|Hne].
    + rewrite lookup_insert_eq. intros [= <-]. lia.
    + rewrite lookup_insert_ne by done. intros H. specialize (Ha _ _ H). lia.
  - intros k1 k2 id. destruct (decide (k = k1)) as [<-|H1], (decide (k = k2)) as [<-|H2];
      rewrite ?lookup_insert_eq, ?lookup_insert_ne by done; [done| | |by apply Hd].
    + intros [= <-] H. specialize (Ha _ _ H). lia.
    + intros H [= <-]. specialize (Ha _ _ H). lia.
Qed.

Lemma registry_get_grows now k r k' id : breakers r !! k' = Some id → breakers (registry_get now k r).2 !! k' = Some id.
Proof.
  unfold registry_get. intros H. destruct (negb _); [done|]. destruct (breakers r !! k) eqn:E; [done|]. simpl.
  rewrite lookup_insert_ne; [done|]. intros ->. congruence.
Qed.

Lemma gets_grow calls r k id : breakers r !! k = Some id → breakers (gets r calls) !! k = Some id.
Proof.
  revert r. induction calls as [|c calls IH]; intros r H; [done|]. apply (IH (registry_get c.1 c.2 r).2).
  by apply registry_get_grows.
Qed.

Lemma gets_wf calls r : registry_wf r → registry_wf (gets r calls) ∧ registry_config (gets r calls) = registry_config r.
Proof.
  revert r. induction calls as [|c calls IH]; intros r Hr; [done|].
  destruct (IH _ (registry_get_wf c.1 c.2 r Hr)) as [H1 H2]. split; [done|]. etransitivity; [exact H2|].
  unfold registry_get. by destruct (negb _), (breakers r !! c.2).
Qed.

Lemma registry_get_some now k r :
  enabled (registry_config r) = true →
  ∃ id, (registry_get now k r).1 = Some id ∧ breakers (registry_get now k r).2 !! k = Some id.
Proof.
  intros He. unfold registry_get. rewrite He. simpl. destruct (breakers r !! k) as [id|] eqn:E.
  - by exists id.
  - eexists. simpl. by rewrite lookup_insert_eq.
Qed.

(** One breaker per key: whatever the clients ask for in between, two requests
    get the same breaker exactly when they name the same key. *)
Theorem registry_one_breaker_per_key cfg before between t k t' k' :
  enabled cfg = true →
  let r := gets (registry_new cfg) before in
  let '(a, r1) := registry_get t k r in
  let '(b, _) := registry_get t' k' (gets r1 between) in
  is_Some a ∧ is_Some b ∧ (a = b ↔ k = k').
Proof.
  intros He. cbv zeta. set (r := gets _ before).
  assert (Hnew : registry_wf (registry_new cfg)) by (split; intros; simpl in *; done).
  destruct (gets_wf before _ Hnew) as [Hwf Hc]. fold r in Hwf, Hc.
  pose proof (registry_get_some t k r) as Ha. pose proof (registry_get_wf t k r Hwf) as Hwf1.
  rewrite Hc in Ha. specialize (Ha He).
  assert (Hc1 : registry_config (registry_get t k r).2 = cfg).
  { unfold registry_get. destruct (negb _), (breakers r !! k); done. }
  destruct (registry_get t k r) as [a r1]. simpl in *. destruct Ha as (id & -> & Hk).
  destruct (gets_wf between r1 Hwf1) as [Hwf2 Hc2].
  pose proof (registry_get_some t' k' (gets r1 between)) as Hb. rewrite Hc2, Hc1 in Hb. specialize (Hb He).
  pose proof (registry_get_wf t' k' _ Hwf2) as Hwf3.
  pose proof (registry_get_grows t' k' _ _ _ (gets_grow between r1 k id Hk)) as Hk3.
  destruct (registry_get t' k' (gets r1 between)) as [b r3]. simpl in *. destruct Hb as (id' & -> & Hk').
  split_and!; [by eexists|by eexists|]. split.
  - intros [= <-]. by eapply (wf_distinct r3).
  - intros <-. congruence.
Qed.

Lemma registry_one_breaker_per_key_witness :
  let '(a, r1) := registry_get 0%Z "eu" (registry_new server) in
  let '(b, _) := registry_get 1%Z "us" (gets r1 [(0%Z, "eu")]) in a ≠ b.
Proof.
  pose proof (registry_one_breaker_per_key server [] [(0%Z, "eu")] 0%Z "eu" 1%Z "us" eq_refl) as H.
  cbv zeta in H. simpl gets in H at 1.
  destruct (registry_get 0%Z "eu" (registry_new server)) as [a r1].
  destruct (registry_get 1%Z "us" (gets r1 [(0%Z, "eu")])) as [b r2]. destruct H as (_ & _ & H).
  intros Hab. by apply H in Hab.
Defined.

End Registry.

Module Export Retry.

Inductive Disposition : Type := Retryable | AuthRefresh | Terminal.
#[export] Instance Disposition_eq_dec : EqDecision Disposition.
Proof. solve_decision. Defined.

Record RetryPolicy : Type := MkRetry {
  retryable : list N; auth_refresh : list N; terminal : list N; default_disposition : Disposition;
}.

Definition within (lo hi status : N) : bool := bool_decide (lo ≤ status)%N && bool_decide (status < hi)%N.

Definition retry_classify (p : RetryPolicy) (status : N) : option Disposition :=
  if within 200 300 status then None
  else if bool_decide (status ∈ auth_refresh p) then Some AuthRefresh
  else if bool_decide (status ∈ terminal p) then Some Terminal
  else if bool_decide (status ∈ retryable p) || within 500 600 status then Some Retryable
  else Some (default_disposition p).

Definition should_retry (p : RetryPolicy) (status : N) : bool :=
  bool_decide (retry_classify p status = Some Retryable).

Definition server_policy : RetryPolicy := MkRetry [429%N] [] [] Terminal.
Definition client_storage_policy : RetryPolicy := MkRetry [] [401%N] [400; 403; 404]%N Retryable.

(** A server retries exactly rate limits and its own faults. *)
Theorem server_retries status :
  should_retry server_policy status = true ↔ status = 429%N ∨ (500 ≤ status < 600)%N.
Proof.
  unfold should_retry, retry_classify, within, server_policy. simpl.
  repeat case_bool_decide; simpl; split; intros; try set_solver; try lia; naive_solver lia.
Qed.

End Retry.
