(* ===== verification/CompactText.v ===== *)
(** Text of conversation compaction (crate [ainxt-compaction]): the cleaning of
    the model's summary ([code_compaction/summary.rs]), the user-query blocks and
    the middle cut ([history/filter.rs]) and the validation of a summary
    ([history/validate.rs]). *)
From stdpp Require Import list.
From S2P Require Import Prelude RustStr StrSearch.

Module Export Summary.

Definition blank_run : string := str_of_bytes [10; 10; 10]%N.
Definition blank_line : string := str_of_bytes [10; 10]%N.

Definition analysis_open : string := "<analysis>".
Definition analysis_close : string := "</analysis>".
Definition summary_open : string := "<summary>".
Definition summary_close : string := "</summary>".

(** The guard of a peeling step: the block is before any summary, or only space
    lies between the opening of the summary and it. *)
Definition is_leading (start : nat) (result : string) : bool :=
  match find summary_open result with
  | Some sp => bool_decide (start < sp)
               || is_empty (trim (slice (sp + String.length summary_open) start result))
  | None => is_empty (trim (str_take start result))
  end.

(** One round of the loop over leading analysis blocks: the text after it, and
    whether the loop goes on. *)
Definition peel_step (result : string) : string * bool :=
  match find analysis_open result with
  | None => (result, false)
  | Some start =>
      if negb (is_leading start result) then (result, false)
      else
        match find analysis_close (str_drop start result) with
        | Some rel =>
            let end_ := start + rel + String.length analysis_close in
            (str_take start result +:+ str_drop end_ result, true)
        | None =>
            let drop_to := match find summary_open (str_drop start result) with
                           | Some rel => start + rel
                           | None => String.length result
                           end in
            (str_take start result +:+ str_drop drop_to result, false)
        end
  end.

Fixpoint peel_analysis (fuel : nat) (result : string) : string :=
  match fuel with
  | 0 => result
  | S fuel' => let '(result', again) := peel_step result in
               if again then peel_analysis fuel' result' else result'
  end.

(** The characters [#*->], space and tab. *)
Definition decoration (c : string) : bool :=
  bool_decide (c ∈ ["#"; "*"; "-"; ">"; " "; str_of_bytes [9%N]]).
Definition starts_with_digit (s : string) : bool :=
  match s with "" => false | String a _ => is_ascii_digit a end.

Definition strip_leading_scratchpad (inner : string) : string :=
  let s := trim inner in
  let lead := trim_start_by decoration s in
  let s :=
    if negb (starts_with_digit lead) then
      match rfind analysis_close s with
      | Some pos => trim_start (str_drop (pos + String.length analysis_close) s)
      | None => s
      end
    else s in
  match strip_prefix summary_open s with
  | Some rest => trim_start rest
  | None => s
  end.

(** The control tokens without their opening bracket, in the order they are
    defused. *)
Definition control_tokens : list string :=
  ["/summary>"; "summary>"; "/analysis>"; "analysis>"; "/summary_request>"; "summary_request>"].

Definition neutralize_compaction_control_tokens (text : string) : string :=
  fold_left (λ t w, replace (tag w) (defused w) t) control_tokens text.

(** The loop that collapses blank lines. *)
Fixpoint collapse_blank_lines (fuel : nat) (result : string) : string :=
  match fuel with
  | 0 => result
  | S fuel' =>
      if contains blank_run result then collapse_blank_lines fuel' (replace blank_run blank_line result)
      else result
  end.

Definition convert_summary (result : string) : string :=
  match find summary_open result, rfind summary_close result with
  | Some start, Some end_ =>
      if bool_decide (start < end_) then
        let before := str_take start result in
        let after := str_drop (end_ + String.length summary_close) result in
        let inner := strip_leading_scratchpad
                       (trim (slice (start + String.length summary_open) end_ result)) in
        before +:+ "Summary:" +:+ newline +:+ inner +:+ after
      else result
  | _, _ => result
  end.

Definition format_compact_summary (summary : string) : string :=
  let result := peel_analysis (S (String.length summary)) summary in
  let result := convert_summary result in
  let result := neutralize_compaction_control_tokens result in
  let result := collapse_blank_lines (String.length result) result in
  trim result.

Definition MIN_SUMMARY_SEED_CHARS : nat := 500.

Definition is_degenerate_summary (raw_summary : string) : bool :=
  bool_decide (length (chars (format_compact_summary raw_summary)) < MIN_SUMMARY_SEED_CHARS).

Definition format_compact_summary_content (raw_summary : string) : string :=
  "This session is being continued from a previous conversation that ran out of context. " +:+
  "The summary below covers the earlier portion of the conversation." +:+ blank_line +:+
  format_compact_summary raw_summary.

Definition wrap_user_query (text : string) : string :=
  "<user_query>" +:+ newline +:+ text +:+ newline +:+ "</user_query>".

(** ** The loops end *)

Lemma peel_step_shortens result result' :
  peel_step result = (result', true) → String.length result' < String.length result.
Proof.
  unfold peel_step. destruct (find analysis_open result) as [start|] eqn:Ef; [|done].
  destruct (negb _); [done|]. destruct (find analysis_close _) as [rel|] eqn:Ec; [|done].
  intros [= <-]. apply find_le in Ef, Ec. rewrite length_str_drop in Ec.
  rewrite length_app_str, length_str_drop, length_str_take by lia. simpl in *. lia.
Qed.

(** The loop over leading analysis blocks as the code runs it, without a bound: [n] rounds
    go on, and then one stops it. *)
Inductive peels : string → nat → string → Prop :=
| peels_stop result result' : peel_step result = (result', false) → peels result 0 result'
| peels_again result result' n final :
    peel_step result = (result', true) → peels result' n final → peels result (S n) final.

(** The loop over blank lines likewise. *)
Inductive collapses : string → nat → string → Prop :=
| collapses_stop result : contains blank_run result = false → collapses result 0 result
| collapses_again result n final :
    contains blank_run result = true → collapses (replace blank_run blank_line result) n final →
    collapses result (S n) final.

Lemma peel_analysis_peels fuel result : String.length result < fuel →
  ∃ n, n ≤ String.length result ∧ peels result n (peel_analysis fuel result).
Proof.
  revert result. induction fuel as [|fuel IH]; intros result Hf; [lia|]. cbn [peel_analysis].
  destruct (peel_step result) as [result' []] eqn:E; [|exists 0; split; [lia|by constructor]].
  pose proof (peel_step_shortens _ _ E). destruct (IH result') as (n & Hn & Hp); [lia|].
  exists (S n). split; [lia|]. by econstructor.
Qed.

Lemma collapse_blank_lines_collapses fuel result : String.length result ≤ fuel →
  ∃ n, n ≤ String.length result ∧ collapses result n (collapse_blank_lines fuel result).
Proof.
  revert result. induction fuel as [|fuel IH]; intros result Hf; cbn [collapse_blank_lines].
  - exists 0. split; [lia|]. constructor. by destruct result; simpl in Hf; [vm_compute|lia].
  - destruct (contains blank_run result) eqn:E; [|exists 0; split; [lia|by constructor]].
    pose proof (length_replace blank_run blank_line result ltac:(vm_compute; lia) E).
    destruct (IH (replace blank_run blank_line result)) as (n & Hn & Hc); [lia|]. exists (S n). split; [lia|]. by constructor.
Qed.

Lemma collapse_blank_lines_ends fuel result :
  String.length result ≤ fuel → contains blank_run (collapse_blank_lines fuel result) = false.
Proof.
  revert result. induction fuel as [|fuel IH]; intros result Hf; cbn [collapse_blank_lines].
  - by destruct result; simpl in Hf; [vm_compute|lia].
  - destruct (contains blank_run result) eqn:E; [|done]. apply IH.
    pose proof (length_replace blank_run blank_line result ltac:(vm_compute; lia) E). lia.
Qed.

(** C38: The loops that clean a summary end, whatever the model wrote: the peeling of
    leading analysis blocks comes to a round that stops it, and the collapsing of blank
    lines to a text without three line ends in a row, each after no more rounds than the
    text it starts from has bytes; and what they leave is what the cleaning returns. *)
Theorem cleaning_terminates raw :
  ∃ n peeled m collapsed,
    peels raw n peeled ∧ n ≤ String.length raw ∧
    let text := neutralize_compaction_control_tokens (convert_summary peeled) in
    collapses text m collapsed ∧ m ≤ String.length text ∧ contains blank_run collapsed = false ∧
    format_compact_summary raw = trim collapsed.
Proof.
  destruct (peel_analysis_peels (S (String.length raw)) raw) as (n & Hn & Hp); [lia|].
  set (text := neutralize_compaction_control_tokens (convert_summary (peel_analysis (S (String.length raw)) raw))).
  destruct (collapse_blank_lines_collapses (String.length text) text) as (m & Hm & Hc); [done|].
  exists n, (peel_analysis (S (String.length raw)) raw), m, (collapse_blank_lines (String.length text) text). split; [exact Hp|]. split; [done|]. split; [exact Hc|]. split; [done|].
  split; [by apply collapse_blank_lines_ends|done].
Qed.

(** ** No live control token *)

Lemma control_tokens_clean : Forall (λ w, clean w = true) control_tokens.
Proof. repeat constructor. Qed.

(** Defusing tokens one after the other defuses each and revives none. *)
Lemma neutralize_fold ws done_ text :
  Forall (λ w, clean w = true) (done_ ++ ws) →
  Forall (λ w, contains (tag w) text = false) done_ →
  Forall (λ w, contains (tag w) (fold_left (λ t w, replace (tag w) (defused w) t) ws text) = false)
    (done_ ++ ws).
Proof.
  revert done_ text. induction ws as [|w ws IH]; intros done_ text Hc Hd; simpl; [by rewrite app_nil_r|].
  rewrite cons_middle, app_assoc in Hc |- *. apply IH; [done|]. apply Forall_app. split.
  - apply Forall_app in Hc as [[Hc1 Hw]%Forall_app _]. apply Forall_inv in Hw.
    apply Forall_forall. intros w' Hw'. apply replace_tag_other; [done| |].
    + by eapply Forall_forall in Hc1.
    + by eapply Forall_forall in Hd.
  - apply Forall_singleton, replace_tag_gone. apply Forall_app in Hc as [[_ Hw]%Forall_app _].
    by apply Forall_inv in Hw.
Qed.

Lemma neutralized text w :
  w ∈ control_tokens → contains (tag w) (neutralize_compaction_control_tokens text) = false.
Proof.
  intros Hw. pose proof (neutralize_fold control_tokens [] text control_tokens_clean (Forall_nil_2 _)) as H.
  by eapply Forall_forall in H.
Qed.

Lemma collapse_absent fuel x text :
  x ≠ "" → contains_byte (byte 10) x = false → contains x text = false →
  contains x (collapse_blank_lines fuel text) = false.
Proof.
  intros Hx Hb. revert text. induction fuel as [|fuel IH]; intros text H; cbn [collapse_blank_lines]; [done|].
  destruct (contains blank_run text); [|done]. apply IH. by apply replace_run_absent with (byte 10).
Qed.

Lemma seed_without_token raw w : w ∈ control_tokens → contains (tag w) (format_compact_summary raw) = false.
Proof.
  unfold format_compact_summary. set (t := convert_summary _). intros Hw.
  apply contains_trim, collapse_absent; [done| |by apply neutralized].
  revert w Hw. apply Forall_forall. by repeat constructor.
Qed.

(** Whatever the model answers, the text that seeds the next turn has no live
    control token and no run of blank lines. *)
Theorem summary_seed_is_inert raw :
  Forall (λ w, contains (tag w) (format_compact_summary raw) = false) control_tokens ∧
  contains blank_run (format_compact_summary raw) = false.
Proof.
  split; [apply Forall_forall; intros w; apply seed_without_token|].
  apply contains_trim, collapse_blank_lines_ends. lia.
Qed.

(** ** A well-formed answer is kept whole *)

(** What is done to every summary in the end. *)
Definition tidy (result : string) : string :=
  let result := neutralize_compaction_control_tokens result in
  trim (collapse_blank_lines (String.length result) result).

Lemma digit_not_decoration a c : is_ascii_digit a = true → decoration (String a c) = false.
Proof.
  intros Ha. apply bool_decide_eq_false_2. intros H.
  repeat (apply elem_of_cons in H as [H|H]; [injection H as -> _; by vm_compute in Ha|]).
  by apply not_elem_of_nil in H.
Qed.

(** A block that starts with a numbered section has no scratchpad to strip. *)
Lemma strip_leading_scratchpad_numbered s :
  trim s = s → starts_with_digit s = true → strip_leading_scratchpad s = s.
Proof.
  intros Ht Hd. unfold strip_leading_scratchpad. rewrite Ht. destruct s as [|a s]; [done|]. simpl in Hd.
  rewrite trim_start_first by (intros; by apply digit_not_decoration). simpl. rewrite Hd. simpl.
  destruct (strip_prefix summary_open (String a s)) as [r|] eqn:E; [|done].
  apply strip_prefix_Some in E. injection E as -> _. done.
Qed.

Lemma convert_numbered ws body :
  contains_byte lt ws = false → trim body = body → starts_with_digit body = true →
  convert_summary (ws +:+ summary_open +:+ body +:+ summary_close) = ws +:+ "Summary:" +:+ newline +:+ body.
Proof.
  intros Hws Ht Hd. unfold convert_summary.
  change (find summary_open) with (find (tag "summary>")). unfold tag. rewrite find_skip by done.
  assert (∀ s, find (String lt "summary>") (summary_open +:+ s) = Some 0) as Hf
    by exact (find_here (tag "summary>")).
  rewrite Hf. cbn [fmap option_fmap option_map].
  assert (ws +:+ summary_open +:+ body +:+ summary_close = (ws +:+ summary_open +:+ body) +:+ summary_close) as E
    by (by rewrite <-!app_assoc_str).
  rewrite E, rfind_end by done. rewrite !length_app_str. rewrite bool_decide_eq_true_2 by (simpl; lia).
  rewrite <-E, Nat.add_0_r, str_take_app. unfold slice.
  rewrite <-(length_app_str ws summary_open), (app_assoc_str ws summary_open), str_drop_app.
  replace (_ - _) with (String.length body) by (rewrite !length_app_str; lia). rewrite str_take_app.
  rewrite Ht, strip_leading_scratchpad_numbered by done.
  replace (str_drop _ _) with "".
  - by rewrite !app_nil_r_str.
  - symmetry. rewrite <-(str_drop_app ((ws +:+ summary_open) +:+ body +:+ summary_close) ""), app_nil_r_str.
    f_equal. rewrite !length_app_str. lia.
Qed.

(** An analysis block quoted behind the start of a numbered summary is not
    peeled. *)
Lemma peel_step_numbered ws body :
  contains_byte lt ws = false → starts_with_digit body = true →
  let r := ws +:+ summary_open +:+ body +:+ summary_close in peel_step r = (r, false).
Proof.
  intros Hws Hd r. unfold peel_step, is_leading.
  destruct body as [|d body]; [done|]. simpl in Hd.
  assert (∀ s, find (String lt "summary>") (summary_open +:+ s) = Some 0) as Hf
    by exact (find_here (tag "summary>")).
  assert (∀ s, find (String lt "analysis>") (summary_open +:+ s) =
    (λ i, String.length summary_open + i) <$> find (String lt "analysis>") s) as Ha.
  { intros s. change summary_open with (String lt "summary>"). rewrite app_cons_str, find_cons.
    rewrite starts_with_cons.
    assert (starts_with "analysis>" ("summary>" +:+ s) = false) as -> by done.
    rewrite andb_false_r, (find_skip lt "analysis>" "summary>"), <-option_fmap_compose by done. done. }
  assert (find (String lt "analysis>") (String d body +:+ summary_close) =
    S <$> find (String lt "analysis>") (body +:+ summary_close)) as Hda.
  { rewrite app_cons_str, find_cons, starts_with_cons, bool_decide_eq_false_2; [done|].
    intros <-. by vm_compute in Hd. }
  change (find analysis_open r) with (find (String lt "analysis>") r). change (find summary_open r) with (find (String lt "summary>") r).
  unfold r. rewrite (find_skip lt "analysis>" ws), (find_skip lt "summary>" ws) by done. rewrite Ha, Hda, Hf. cbn [fmap option_fmap option_map].
  destruct (find (String lt "analysis>") (body +:+ summary_close)) as [i|]; [|done]. simpl.
  rewrite bool_decide_eq_false_2 by lia. cbn [orb].
  assert (is_empty (trim (slice (String.length ws + 0 + 9) (String.length ws + S (S (S (S (S (S (S (S (S (S i))))))))))
    (ws +:+ summary_open +:+ String d body +:+ summary_close))) = false) as ->; [|done].
  unfold slice. rewrite Nat.add_0_r, str_drop_app_add.
  change 9 with (String.length summary_open) at 2. rewrite str_drop_app, app_cons_str.
  replace (_ - _) with (S i) by lia. cbn [str_take]. apply trim_visible. by apply digit_plain.
Qed.

Lemma peel_thoughts thoughts rest :
  contains analysis_close thoughts = false →
  peel_step (analysis_open +:+ thoughts +:+ analysis_close +:+ rest) = (rest, true).
Proof.
  intros Ht. unfold peel_step.
  assert (find analysis_open (analysis_open +:+ thoughts +:+ analysis_close +:+ rest) = Some 0) as ->
    by apply find_here.
  assert (is_leading 0 (analysis_open +:+ thoughts +:+ analysis_close +:+ rest) = true) as ->.
  { unfold is_leading. destruct (find _ _) as [sp|] eqn:E; [|done].
    rewrite bool_decide_eq_true_2; [done|]. destruct sp; [|lia]. exfalso.
    apply find_Some in E as (u & v & E & Hu). destruct u; [|done]. discriminate E. }
  cbn [negb str_drop].
  assert (find analysis_close (analysis_open +:+ thoughts +:+ analysis_close +:+ rest) =
    Some (String.length (analysis_open +:+ thoughts))) as ->.
  { rewrite (app_assoc_str analysis_open thoughts). apply (find_tag lt "/analysis>"); [done|].
    change analysis_open with (String lt "analysis>"). rewrite app_cons_str, contains_cons.
    rewrite starts_with_cons, bool_decide_eq_true_2 by done.
    change (starts_with "/analysis>" ("analysis>" +:+ thoughts)) with false. cbn [andb orb].
    by rewrite (contains_skip lt "/analysis>" "analysis>"). }
  cbn [str_take Nat.add]. rewrite app_nil_l_str, (app_assoc_str analysis_open), <-length_app_str, app_assoc_str.
  by rewrite str_drop_app.
Qed.

(** A draft in front of a summary that starts with a numbered section is dropped,
    and the whole section text is kept, whatever tags it quotes: it is only
    tidied. *)
Theorem numbered_summary_preserved thoughts ws body :
  contains analysis_close thoughts = false → contains_byte lt ws = false →
  trim body = body → starts_with_digit body = true →
  format_compact_summary
    (analysis_open +:+ thoughts +:+ analysis_close +:+ ws +:+ summary_open +:+ body +:+ summary_close) =
  tidy (ws +:+ "Summary:" +:+ newline +:+ body).
Proof.
  intros Ht Hws Hb Hd. unfold format_compact_summary. set (raw := analysis_open +:+ _).
  assert (peel_analysis (S (String.length raw)) raw = ws +:+ summary_open +:+ body +:+ summary_close) as ->.
  { assert (∃ n, String.length raw = S n) as [n ->] by (by eexists).
    cbn [peel_analysis]. unfold raw. rewrite peel_thoughts by done. cbn [peel_analysis].
    by rewrite peel_step_numbered. }
  by rewrite convert_numbered.
Qed.

Lemma numbered_summary_preserved_witness :
  format_compact_summary ("<analysis>draft</analysis>" +:+ newline +:+
    "<summary>1. Ask: keep </summary> and <analysis> quoted</summary>") =
  tidy (newline +:+ "Summary:" +:+ newline +:+ "1. Ask: keep </summary> and <analysis> quoted").
Proof.
  exact (numbered_summary_preserved "draft" newline "1. Ask: keep </summary> and <analysis> quoted"
    eq_refl eq_refl ltac:(vm_compute; reflexivity) eq_refl).
Defined.

End Summary.

Module Export Queries.

Definition start_tag : string := "<ainxt_user_queries>".
Definition end_tag : string := "</ainxt_user_queries>".

(** Append a piece on a line of its own, if there is one. *)
Definition push_line (rest piece : string) : string :=
  if is_empty piece then rest
  else if is_empty rest then piece
  else rest +:+ newline +:+ piece.

(** The loop over the blocks, on the text from the cursor on. *)
Fixpoint split_prior_go (fuel : nat) (text : string) (user_sections : list string) (rest : string)
  : list string * string :=
  match fuel with
  | 0 => (user_sections, rest)
  | S fuel' =>
      match find start_tag text with
      | None => (user_sections, push_line rest (trim text))
      | Some start =>
          match find end_tag (str_drop start text) with
          | None => (user_sections, push_line rest (trim text))
          | Some end_ =>
              let abs_end := start + end_ + String.length end_tag in
              split_prior_go fuel' (str_drop abs_end text)
                (user_sections ++ [slice start abs_end text])
                (push_line rest (trim (str_take start text)))
          end
      end
  end.

Definition split_prior_compaction_text (text : string) : option string * string :=
  let '(user_sections, rest) := split_prior_go (S (String.length text)) text [] "" in
  match user_sections with
  | [] => (None, text)
  | _ => (Some (join newline user_sections), rest)
  end.

Definition truncate_middle (msg : string) (max_chars : nat) : option string :=
  let cs := chars msg in
  let char_count := length cs in
  if bool_decide (char_count ≤ max_chars) then None
  else
    let front_len := max_chars / 2 in
    let back_len := max_chars - front_len in
    let front := concat_str (take front_len cs) in
    let back := concat_str (drop (char_count - back_len) cs) in
    Some (front +:+ "...[truncated]..." +:+ back).

Definition assemble_user_queries_preamble (prior current : option string) : string :=
  let preamble := match prior with Some p => p +:+ blank_line | None => "" end in
  match current with Some c => preamble +:+ c +:+ blank_line | None => preamble end.

Definition wrap_chunk_analysis (index : nat) (thinking : string) : string :=
  let trimmed := trim thinking in
  if is_empty trimmed then ""
  else "<chunk_analysis index=" +:+ quote_str +:+ pretty index +:+ quote_str +:+ ">" +:+ newline +:+
       trimmed +:+ newline +:+ "</chunk_analysis>" +:+ blank_line.

(** ** What the text of a prior compaction is made of *)

(** Pieces, each ended by a block with the given content, and the text behind the
    last block. *)
Definition block (content : string) : string := start_tag +:+ content +:+ end_tag.

Fixpoint prior_text (pieces : list (string * string)) (tail : string) : string :=
  match pieces with
  | [] => tail
  | (before, content) :: pieces' => before +:+ block content +:+ prior_text pieces' tail
  end.

(** No block that opens in the text is closed. *)
Definition unclosed (text : string) : Prop :=
  ∀ u v, text = u +:+ start_tag +:+ v → contains end_tag (start_tag +:+ v) = false.

Definition well_split (pieces : list (string * string)) (tail : string) : Prop :=
  Forall (λ p, contains start_tag p.1 = false ∧ contains end_tag (start_tag +:+ p.2) = false) pieces ∧
  unclosed tail.

Definition rest_of (rest : string) (pieces : list (string * string)) (tail : string) : string :=
  push_line (fold_left push_line ((λ p, trim p.1) <$> pieces) rest) (trim tail).

Lemma split_prior_go_pieces fuel pieces tail secs rest :
  well_split pieces tail → String.length (prior_text pieces tail) < fuel →
  split_prior_go fuel (prior_text pieces tail) secs rest =
    (secs ++ (block <$> pieces.*2), rest_of rest pieces tail).
Proof.
  intros [Hp Ht]. revert fuel secs rest. induction Hp as [|[before content] pieces [Hb Hc] _ IH];
    intros [|fuel] secs rest Hf; try lia; cbn [split_prior_go prior_text].
  - rewrite app_nil_r. destruct (find start_tag tail) as [i|] eqn:E; [|done].
    apply find_Some in E as (u & v & -> & <-). rewrite str_drop_app.
    by rewrite (proj2 (find_None _ _) (Ht u v eq_refl)).
  - simpl in Hb, Hc. set (t := prior_text pieces tail) in *.
    assert (find start_tag (before +:+ block content +:+ t) = Some (String.length before)) as ->.
    { unfold block. rewrite <-!app_assoc_str. by apply (find_tag "<"%char "ainxt_user_queries>"). }
    rewrite str_drop_app.
    assert (find end_tag (block content +:+ t) = Some (String.length (start_tag +:+ content))) as ->.
    { unfold block. rewrite <-!app_assoc_str, (app_assoc_str start_tag).
      by apply (find_tag "<"%char "/ainxt_user_queries>"). }
    assert (String.length (start_tag +:+ content) + String.length end_tag = String.length (block content)) as Hl.
    { unfold block. rewrite !length_app_str. lia. }
    rewrite <-Nat.add_assoc, Hl. unfold slice. rewrite str_drop_app_add, !str_drop_app, str_take_app.
    rewrite Nat.add_comm, Nat.add_sub, str_take_app.
    rewrite IH.
    + unfold rest_of. cbn. by rewrite <-app_assoc.
    + cbn [prior_text] in Hf. rewrite !length_app_str in Hf. unfold block in Hf. rewrite !length_app_str in Hf.
      simpl in Hf. fold t in Hf. lia.
Qed.

(** Every text is made of such pieces. *)
Lemma prior_text_exists text : ∃ pieces tail, text = prior_text pieces tail ∧ well_split pieces tail.
Proof.
  remember (String.length text) as n eqn:Hn. revert text Hn.
  induction n as [n IH] using lt_wf_ind. intros text ->.
  destruct (find start_tag text) as [i|] eqn:Es.
  - apply (find_first "<"%char "ainxt_user_queries>") in Es as (u & v & -> & _ & Hu); [|done].
    change (String "<" "ainxt_user_queries>") with start_tag in *.
    destruct (find end_tag (start_tag +:+ v)) as [j|] eqn:Ee.
    + apply (find_first "<"%char "/ainxt_user_queries>") in Ee as (x & y & E & _ & Hx); [|done].
      change (String "<" "/ainxt_user_queries>") with end_tag in *.
      assert (∃ c, x = start_tag +:+ c) as [c ->].
      { destruct (app_eq_cases _ _ _ _ E) as [(w & Ew & E')|(w & -> & E')]; [|by eexists].
        destruct w as [|a w]; [rewrite app_nil_r_str in Ew; exists ""; by rewrite app_nil_r_str|].
        change end_tag with (String "<" "/ainxt_user_queries>") in E'. rewrite !app_cons_str in E'.
        injection E' as <- E'. destruct x as [|b x]; [by rewrite app_nil_l_str in Ew|].
        change start_tag with (String "<" "ainxt_user_queries>") in Ew. rewrite app_cons_str in Ew.
        injection Ew as <- Ew. apply (f_equal (contains_byte "<"%char)) in Ew.
        rewrite contains_byte_app, (contains_byte_cons _ _ w), bool_decide_eq_true_2 in Ew by done.
        by rewrite orb_true_l, orb_true_r in Ew. }
      rewrite <-app_assoc_str in E. assert (v = c +:+ end_tag +:+ y) as ->.
      { apply (f_equal (str_drop (String.length start_tag))) in E. by rewrite !str_drop_app in E. }
      destruct (IH (String.length y)) with (text := y) as (pieces & tail & -> & [Hp Ht]); [|done|].
      { rewrite !length_app_str. simpl. lia. }
      exists ((u, c) :: pieces), tail. split; [|split; [by constructor|done]].
      cbn [prior_text]. unfold block. by rewrite <-!app_assoc_str.
    + exists [], (u +:+ start_tag +:+ v). split; [done|]. split; [constructor|].
      intros u' v' E. apply find_None in Ee.
      destruct (first_occurrence "<"%char "ainxt_user_queries>" u v u' v' eq_refl Hu E) as (x & -> & Ex).
      change (String "<" "ainxt_user_queries>") with start_tag in Ex. rewrite Ex in Ee.
      apply not_true_iff_false. intros X. rewrite contains_app_r in Ee; done.
  - exists [], text. split; [done|]. split; [constructor|]. apply find_None in Es.
    intros u v ->. rewrite contains_app_r in Es; [done|]. by apply contains_spec; exists "", v.
Qed.

(** What the split of a prior compaction returns. *)
Definition split_result (pieces : list (string * string)) (tail : string) : option string * string :=
  match pieces with
  | [] => (None, tail)
  | _ => (Some (join newline (block <$> pieces.*2)), rest_of "" pieces tail)
  end.

Lemma split_prior_pieces pieces tail :
  well_split pieces tail → split_prior_compaction_text (prior_text pieces tail) = split_result pieces tail.
Proof.
  intros H. unfold split_prior_compaction_text. rewrite split_prior_go_pieces by (done || lia).
  by destruct pieces as [|[b c] pieces].
Qed.

(** Splitting a prior compaction loses nothing: every text is a sequence of pieces
    and blocks with an unclosed tail, the blocks come back unchanged and in order,
    the pieces between them trimmed and one per line, and without a block the text
    is returned as it is. *)
Theorem split_prior_lossless text :
  ∃ pieces tail, text = prior_text pieces tail ∧ well_split pieces tail ∧
    split_prior_compaction_text text = split_result pieces tail.
Proof.
  destruct (prior_text_exists text) as (pieces & tail & -> & H).
  exists pieces, tail. split_and!; [done..|]. by apply split_prior_pieces.
Qed.

Lemma unclosed_infix a s b : unclosed (a +:+ s +:+ b) → unclosed s.
Proof.
  intros H u v ->. apply not_true_iff_false. intros X.
  assert (contains end_tag (start_tag +:+ v +:+ b) = true) as Y.
  { rewrite app_assoc_str. by apply contains_app_l. }
  rewrite (H (a +:+ u) (v +:+ b)) in Y; [done|]. by rewrite <-!app_assoc_str.
Qed.

Lemma unclosed_trim s : unclosed s → unclosed (trim s).
Proof.
  intros H. destruct (trim_infix is_whitespace s) as (a & b & E). rewrite E in H. by apply unclosed_infix in H.
Qed.

Lemma unclosed_absent s : contains start_tag s = false → unclosed s.
Proof.
  intros H u v ->. rewrite contains_app_r in H; [done|]. apply contains_spec. by exists "", v.
Qed.

Lemma unclosed_push rest piece :
  contains start_tag rest = false → unclosed piece → unclosed (push_line rest piece).
Proof.
  intros Hr Hp. unfold push_line. destruct (is_empty piece); [by apply unclosed_absent|].
  destruct (is_empty rest); [done|]. intros u v E.
  change (newline +:+ piece) with (String (byte 10) piece) in E.
  destruct (find_tag_behind (byte 10) "<"%char "ainxt_user_queries>" rest piece u v) as (x & -> & Hx); [done..|].
  by apply Hp in Hx.
Qed.

Lemma push_line_absent rest piece :
  contains start_tag rest = false → contains start_tag piece = false →
  contains start_tag (push_line rest piece) = false.
Proof.
  intros Hr Hp. unfold push_line. destruct (is_empty piece), (is_empty rest); try done.
  by apply (contains_across_false _ (byte 10)).
Qed.

Lemma rest_of_unclosed pieces tail : well_split pieces tail → unclosed (rest_of "" pieces tail).
Proof.
  intros [Hp Ht]. unfold rest_of. apply unclosed_push; [|by apply unclosed_trim].
  assert (contains start_tag "" = false) as H0 by done. revert H0. generalize "".
  induction Hp as [|[b c] pieces [Hb _] _ IH]; intros r Hr; [done|]. cbn.
  apply IH, push_line_absent; [done|]. by apply contains_trim.
Qed.

Lemma split_prior_rest text :
  let rest := (split_prior_compaction_text text).2 in split_prior_compaction_text rest = (None, rest).
Proof.
  cbv zeta. destruct (prior_text_exists text) as (pieces & tail & -> & H).
  rewrite split_prior_pieces by done.
  assert (unclosed (split_result pieces tail).2) as Hu.
  { destruct pieces; [by destruct H|]. by apply rest_of_unclosed. }
  exact (split_prior_pieces [] _ (conj (Forall_nil_2 _) Hu)).
Qed.

(** The middle cut keeps the first half and the last half of the allowed
    characters around a marker, and cuts exactly the texts that are too long. *)
Theorem truncate_middle_spec msg max_chars :
  match truncate_middle msg max_chars with
  | None => length (chars msg) ≤ max_chars
  | Some cut =>
      ∃ front middle back, chars msg = front ++ middle ++ back ∧ middle ≠ [] ∧
        length front = max_chars / 2 ∧ length front + length back = max_chars ∧
        cut = concat_str front +:+ "...[truncated]..." +:+ concat_str back
  end.
Proof.
  unfold truncate_middle. case_bool_decide as H; [done|].
  set (cs := chars msg) in *. set (f := max_chars / 2). set (b := max_chars - f).
  assert (f ≤ max_chars) by (subst f; apply Nat.Div0.div_le_upper_bound; lia).
  assert (f + b = max_chars) by (subst b; lia).
  exists (take f cs), (take (length cs - b - f) (drop f cs)), (drop (length cs - b) cs). split_and!.
  - rewrite <-(take_drop f cs) at 1. f_equal.
    rewrite <-(take_drop (length cs - b - f) (drop f cs)) at 1. f_equal. rewrite drop_drop. f_equal. lia.
  - intros E%(f_equal length). rewrite length_take, length_drop in E. simpl in E. lia.
  - rewrite length_take. lia.
  - rewrite length_take, length_drop. lia.
  - done.
Qed.

(** ** The preamble of one round is the prior of the next *)

(** The blocks of earlier rounds, joined. *)
Definition joined (bs : list string) : option string :=
  match bs with [] => None | _ => Some (join newline bs) end.

Lemma joined_cons b bs x :
  join newline (b :: bs) +:+ x = b +:+ concat_str ((λ b, newline +:+ b) <$> bs) +:+ x.
Proof.
  revert b. induction bs as [|b' bs IH]; intros b; [done|].
  change (join newline (b :: b' :: bs)) with (b +:+ newline +:+ join newline (b' :: bs)).
  rewrite <-!app_assoc_str, IH. cbn [fmap list_fmap concat_str foldr]. by rewrite <-!app_assoc_str.
Qed.

Lemma prior_text_lines cs pieces tail :
  concat_str ((λ b, newline +:+ b) <$> (block <$> cs)) +:+ prior_text pieces tail =
  prior_text (((λ c, (newline, c)) <$> cs) ++ pieces) tail.
Proof.
  induction cs as [|c cs IH]; [done|]. cbn [fmap list_fmap concat_str foldr app prior_text].
  rewrite <-IH. unfold concat_str. by rewrite <-!app_assoc_str.
Qed.

Definition closed_content (c : string) : Prop := contains end_tag (start_tag +:+ c) = false.

Lemma rest_of_blank rest pieces tail :
  Forall (λ p, trim p.1 = "") pieces → rest_of rest pieces tail = push_line rest (trim tail).
Proof.
  intros H. unfold rest_of. f_equal. revert rest. induction H as [|[b c] pieces Hb _ IH]; intros r; [done|].
  cbn. simpl in Hb. by rewrite Hb, <-IH.
Qed.

(** The text that a round assembles - the blocks of the earlier rounds, its own,
    and the summary - splits again into exactly these blocks and the summary. *)
Theorem preamble_survives_recompaction cs c rest :
  Forall closed_content cs → closed_content c → unclosed (blank_line +:+ rest) →
  split_prior_compaction_text
    (assemble_user_queries_preamble (joined (block <$> cs)) (Some (block c)) +:+ rest) =
  (joined (block <$> cs ++ [c]), trim (blank_line +:+ rest)).
Proof.
  intros Hcs Hc Hr. set (pieces := match cs with
    | [] => [("", c)]
    | c1 :: cs' => ("", c1) :: ((λ c, (newline, c)) <$> cs') ++ [(blank_line, c)] end).
  assert (assemble_user_queries_preamble (joined (block <$> cs)) (Some (block c)) +:+ rest =
    prior_text pieces (blank_line +:+ rest)) as ->.
  { subst pieces. destruct cs as [|c1 cs]; cbn [joined fmap list_fmap assemble_user_queries_preamble].
    - cbn [prior_text]. by rewrite !app_nil_l_str, <-!app_assoc_str.
    - cbn [prior_text]. rewrite app_nil_l_str, <-prior_text_lines, <-!app_assoc_str.
      rewrite joined_cons. done. }
  assert (Forall (λ p, closed_content p.2) pieces ∧
    Forall (λ p, p.1 ∈ [""; newline; blank_line]) pieces ∧ pieces.*2 = cs ++ [c]) as (H1 & H2 & H3).
  { subst pieces. destruct cs as [|c1 cs]; [by repeat (constructor || set_solver)|].
    apply Forall_cons in Hcs as [Hc1 Hcs]. split_and!.
    - constructor; [done|]. apply Forall_app. split; [|by repeat constructor].
      apply Forall_fmap. by eapply Forall_impl.
    - constructor; [by left|]. apply Forall_app. split; [|repeat constructor; set_solver].
      apply Forall_fmap, Forall_true. intros x. set_solver.
    - cbn. f_equal. rewrite fmap_app, <-list_fmap_compose. cbn. f_equal. by rewrite list_fmap_id. }
  rewrite split_prior_pieces.
  - unfold split_result. rewrite rest_of_blank.
    + rewrite H3. assert (pieces ≠ []) as Hne by (intros E; rewrite E in H3; by destruct cs).
      destruct pieces as [|p ps]; [done|].
      unfold joined. destruct (block <$> cs ++ [c]) eqn:Eb; [by destruct cs|].
      f_equal. unfold push_line. by destruct (is_empty _) eqn:Em; [destruct (trim _)|].
    + eapply Forall_impl; [done|]. intros p Hp. simpl in Hp.
      repeat (apply elem_of_cons in Hp as [->|Hp]; [by vm_compute|]). by apply not_elem_of_nil in Hp.
  - split; [|done]. apply Forall_forall. intros p Hp.
    split; [|by eapply Forall_forall in H1]. eapply Forall_forall in H2; [|done].
    repeat (apply elem_of_cons in H2 as [->|H2]; [by vm_compute|]). by apply not_elem_of_nil in H2.
Qed.

Lemma preamble_survives_recompaction_witness :
  split_prior_compaction_text
    (assemble_user_queries_preamble (joined (block <$> ["old"])) (Some (block "new")) +:+ "the summary") =
  (joined (block <$> ["old"; "new"]), "the summary").
Proof.
  rewrite (preamble_survives_recompaction ["old"] "new" "the summary"); [by vm_compute|by repeat constructor|done|].
  by apply unclosed_absent.
Defined.

End Queries.

Module Export Validate.

Inductive CompactionStrategy := Basic | DivideAndConquer | FullReplaceStrategy.

Definition strategy_label (s : CompactionStrategy) : string :=
  match s with
  | Basic => "basic"
  | DivideAndConquer => "divide_and_conquer"
  | FullReplaceStrategy => "full_replace"
  end.

Inductive CompactionValidationError :=
| EmptyContent
| UnbalancedChunkTags (open close : nat).

Definition chunk_open : string := "<chunk_summary".
Definition chunk_close : string := "</chunk_summary>".

Definition validate_compaction_text (text_content : string) (strategy : CompactionStrategy)
    : result CompactionValidationError unit :=
  if is_empty (trim text_content) then Err EmptyContent
  else
    match strategy with
    | DivideAndConquer =>
        let open_count := count_matches chunk_open text_content in
        let close_count := count_matches chunk_close text_content in
        if bool_decide (open_count ≠ close_count) then Err (UnbalancedChunkTags open_count close_count)
        else Ok ()
    | _ => Ok ()
    end.

(** The opening and closing tags of a text are equally many. *)
Definition balanced (text : string) : Prop := count_matches chunk_open text = count_matches chunk_close text.

Lemma balanced_valid text s :
  is_empty (trim text) = false → balanced text → validate_compaction_text text s = Ok ().
Proof.
  intros He Hb. unfold validate_compaction_text. rewrite He. destruct s; try done.
  by rewrite bool_decide_eq_false_2 by (intros []; done).
Qed.

End Validate.
