(* ===== verification/Compaction.v ===== *)
(** Conversation compaction (crate [ainxt-compaction]): the item seam
    ([item.rs], [token.rs], [sampler.rs]), turn selection ([select.rs]), the
    history filters ([history/filter.rs]) and the chunked pipeline between turns
    ([inter_compaction/compact.rs]). Items are those of the harness, behind a
    class; the summarising model is a function. *)
From stdpp Require Import list.
From S2P Require Import Prelude RustStr StrSearch CompactText.

Module Export Item.

Inductive CompactionRole := System | Developer | User | Assistant | Tool.
#[export] Instance CompactionRole_eq_dec : EqDecision CompactionRole.
Proof. solve_decision. Defined.

Record CompactionFileRef := MkFileRef { file_id : string; file_name : string }.

(** One item of a conversation, as the algorithms see it. *)
Class CompactionItem (T : Type) := {
  item_role : T → CompactionRole;
  item_text : T → option string;
  has_tool_requests : T → bool;
  is_compaction_summary : T → bool;
  attachment_refs : T → list CompactionFileRef;
}.

Definition is_tool_result `{CompactionItem T} (t : T) : bool := bool_decide (item_role t = Tool).

Class CompactionItemBuilder (T : Type) `{CompactionItem T} := {
  compaction_summary_item : string → T;
  strip_tool_content : T → option T;
}.

(** What an implementation of the builder promises. *)
Class CompactionItemLaws (T : Type) `{CompactionItemBuilder T} : Prop := {
  summary_item_is_summary s : is_compaction_summary (compaction_summary_item (T := T) s) = true;
  summary_item_text s : item_text (compaction_summary_item (T := T) s) = Some s;
}.

(** The trusted token count of an item, a [u32]. *)
Class ItemTokenCounter (T : Type) := count_item_tokens : T → N.

Record LlmCompactionOutput := MkOutput { response : string; thinking : string }.

Inductive CompactionSampleError :=
| SampleTimeout (timeout_secs : N) (collected_bytes : nat)
| SampleBuild (msg : string)
| SampleStart (msg : string)
| SampleEmptyResponse
| SampleOther (msg : string).

Definition is_deterministic (e : CompactionSampleError) : bool :=
  match e with
  | SampleTimeout _ _ | SampleEmptyResponse => false
  | SampleBuild _ | SampleStart _ => true
  | SampleOther msg => contains "Failed to build AgenticScheduler" msg
                       || contains "Failed to start compaction sample" msg
  end.

Record CompactionPrompt := MkPrompt { prompt_system : string; prompt_user : string }.

End Item.

Module Export Select.
Section Select.
Context `{CompactionItem T}.

Record SplitPlan := MkPlan { split_idx : nat; tokens_to_compact : N }.

(** The backward walk from item [i] on: [None] is an index out of range. *)
Fixpoint walk_back (counts : list N) (target : N) (i : nat) (kept : N) : option nat :=
  match i with
  | 0 => Some 0
  | S i' =>
      count ← counts !! i';
      if bool_decide (target < sat_add32 kept count)%N then Some (i' + 1)
      else walk_back counts target i' (sat_add32 kept count)
  end.

Fixpoint past_tool_results (items : list T) (idx : nat) : nat :=
  match items with
  | x :: items' => if is_tool_result x then past_tool_results items' (S idx) else idx
  | [] => idx
  end.

Definition snap_to_safe_boundary (items : list T) (candidate : nat) : nat :=
  let total := length items in
  if bool_decide (total ≤ candidate) then total
  else past_tool_results (drop candidate items) candidate.

(** The outer [None] is a panic (an index out of range). *)
Definition select_turns_to_compact (item_token_counts : list N) (items : list T)
    (target_tokens min_compactable : N) : option (option SplitPlan) :=
  let total := length items in
  if bool_decide (total = 0) then Some None
  else
    split_idx ← walk_back item_token_counts target_tokens total 0;
    if bool_decide (split_idx = 0) then Some None
    else
      let safe_split_idx := snap_to_safe_boundary items split_idx in
      if bool_decide (total ≤ safe_split_idx) then Some None
      else
        guard (safe_split_idx ≤ length item_token_counts);;
        let tokens_to_compact := foldl sat_add32 0%N (take safe_split_idx item_token_counts) in
        if bool_decide (tokens_to_compact < min_compactable)%N then Some None
        else Some (Some (MkPlan safe_split_idx tokens_to_compact)).

(** ** The specification *)

Definition sum_tokens (l : list N) : N := foldr N.add 0%N l.
Definition sat_sum (l : list N) : N := N.min (sum_tokens l) u32_max.

Lemma sum_tokens_app l l' : sum_tokens (l ++ l') = (sum_tokens l + sum_tokens l')%N.
Proof. induction l as [|x l IH]; simpl; [done|]. unfold sum_tokens in *. lia. Qed.

Lemma foldl_sat_add l a : foldl sat_add32 a l = N.min (a + sum_tokens l) u32_max ∨ l = [].
Proof.
  revert a. induction l as [|x l IH]; intros a; [by right|]. left. simpl.
  destruct (IH (sat_add32 a x)) as [->| ->]; unfold sat_add32; simpl; unfold sum_tokens; lia.
Qed.

Lemma foldl_sat_sum l : foldl sat_add32 0%N l = sat_sum l.
Proof. by destruct (foldl_sat_add l 0) as [->| ->]. Qed.

(** The items from [j] on fit the budget. *)
Definition fits (counts : list N) (target : N) (j : nat) : Prop := (sat_sum (drop j counts) ≤ target)%N.

Lemma fits_mono counts target i j : i ≤ j → fits counts target i → fits counts target j.
Proof.
  unfold fits, sat_sum. intros Hij Hi. replace j with (i + (j - i)) by lia. rewrite <-drop_drop.
  rewrite <-(take_drop (j - i) (drop i counts)), sum_tokens_app in Hi. lia.
Qed.

(** Items from [j] on may be kept: they fit, and do not begin with a tool result. *)
Definition may_keep (counts : list N) (items : list T) (target : N) (j : nat) : Prop :=
  fits counts target j ∧ ∃ x, items !! j = Some x ∧ is_tool_result x = false.

Lemma walk_back_spec counts target i kept :
  i ≤ length counts → kept = sat_sum (drop i counts) → fits counts target i →
  ∃ c, walk_back counts target i kept = Some c ∧ c ≤ i ∧ fits counts target c ∧
    ∀ j, j < c → ¬ fits counts target j.
Proof.
  revert kept. induction i as [|i IH]; intros kept Hi Hk Hf; cbn [walk_back].
  { exists 0. split_and!; [done..|lia]. }
  destruct (lookup_lt_is_Some_2 counts i) as [x Hx]; [lia|]. rewrite Hx. simpl.
  assert (sat_add32 kept x = sat_sum (drop i counts)) as Hs.
  { rewrite (drop_S counts x i Hx), Hk. unfold sat_add32, sat_sum. simpl. lia. }
  rewrite Hs. case_bool_decide as Hlt.
  - exists (i + 1). split_and!; [done|lia|by rewrite Nat.add_1_r|].
    intros j Hj Hfj. apply (fits_mono _ _ j i) in Hfj; [|lia]. unfold fits in Hfj. lia.
  - destruct (IH (sat_sum (drop i counts))) as (c & -> & Hc & Hfc & Hmin); [lia|done|unfold fits; lia|].
    exists c. split_and!; [done|lia|done|done].
Qed.

Lemma past_tool_results_spec items idx :
  ∃ k, past_tool_results items idx = idx + k ∧
    Forall (λ x, is_tool_result x = true) (take k items) ∧
    (∀ x, items !! k = Some x → is_tool_result x = false) ∧ k ≤ length items.
Proof.
  revert idx. induction items as [|x items IH]; intros idx; cbn [past_tool_results].
  { exists 0. split_and!; [lia|constructor|done|done]. }
  destruct (is_tool_result x) eqn:Hx.
  - destruct (IH (S idx)) as (k & -> & Ht & Hn & Hk). exists (S k). split_and!; [lia|by constructor|done|simpl; lia].
  - exists 0. split_and!; [lia|constructor| |simpl; lia]. intros y [= ->]. done.
Qed.

Lemma snap_spec items c :
  c ≤ length items →
  let s := snap_to_safe_boundary items c in
  c ≤ s ≤ length items ∧ (∀ x, items !! s = Some x → is_tool_result x = false) ∧
  (∀ j x, c ≤ j < s → items !! j = Some x → is_tool_result x = true).
Proof.
  intros Hc s. subst s. unfold snap_to_safe_boundary. case_bool_decide as Hb.
  { assert (c = length items) as -> by lia. split_and!; [done..| |lia].
    intros x Hx. apply lookup_lt_Some in Hx. lia. }
  destruct (past_tool_results_spec (drop c items) c) as (k & -> & Ht & Hn & Hk).
  rewrite length_drop in Hk. split_and!; [lia..| |].
  - intros x Hx. apply Hn. by rewrite lookup_drop.
  - intros j x Hj Hx. rewrite Forall_forall in Ht. apply Ht.
    apply list_elem_of_lookup_2 with (j - c). rewrite lookup_take_lt by lia. rewrite lookup_drop.
    by replace (c + (j - c)) with j by lia.
Qed.

(** The candidate found by the backward walk, moved to a safe boundary, is the
    first index from which the items may be kept, if there is one. *)
Lemma selected_index counts items target c :
  length counts = length items → c ≤ length items → fits counts target c →
  (∀ j, j < c → ¬ fits counts target j) →
  let s := snap_to_safe_boundary items c in
  (s < length items → may_keep counts items target s) ∧
  ∀ j, may_keep counts items target j → s ≤ j.
Proof.
  intros Hlen Hc Hf Hmin s. destruct (snap_spec items c Hc) as ([Hcs Hsl] & Hsafe & Hrun). fold s in Hcs, Hsl, Hsafe, Hrun.
  split.
  - intros Hs. split; [by apply fits_mono with c|].
    destruct (lookup_lt_is_Some_2 items s Hs) as [x Hx]. exists x. split; [done|by apply Hsafe].
  - intros j [Hfj (x & Hx & Hnt)]. destruct (decide (s ≤ j)) as [|Hj]; [done|]. exfalso.
    destruct (decide (j < c)) as [Hjc|Hjc]; [by apply (Hmin j)|].
    rewrite (Hrun j x) in Hnt; [done|lia|done].
Qed.

Lemma select_turns_spec counts items target min :
  length counts = length items →
  ∃ r, select_turns_to_compact counts items target min = Some r ∧
  ∀ p, r = Some p ↔
    ¬ fits counts target 0 ∧ may_keep counts items target (split_idx p) ∧
    (∀ j, may_keep counts items target j → split_idx p ≤ j) ∧
    tokens_to_compact p = sat_sum (take (split_idx p) counts) ∧ (min ≤ tokens_to_compact p)%N.
Proof.
  intros Hlen. unfold select_turns_to_compact. case_bool_decide as H0.
  { exists None. split; [done|]. intros p. split; [done|]. intros (_ & [_ (x & Hx & _)] & _).
    apply lookup_lt_Some in Hx. lia. }
  destruct (walk_back_spec counts target (length items) 0) as (c & -> & Hc & Hf & Hmin).
  { lia. } { by rewrite drop_ge by lia. } { unfold fits, sat_sum. rewrite drop_ge by lia. simpl. lia. }
  simpl. case_bool_decide as Hc0.
  { subst c. exists None. split; [done|]. intros p. naive_solver. }
  destruct (selected_index counts items target c Hlen Hc Hf Hmin) as [Hkeep Hleast].
  set (s := snap_to_safe_boundary items c) in *. case_bool_decide as Hs.
  { exists None. split; [done|]. intros p. split; [done|]. intros (_ & Hp & _).
    pose proof (Hleast _ Hp). destruct Hp as [_ (x & Hx & _)]. apply lookup_lt_Some in Hx. lia. }
  rewrite option_guard_True by lia. simpl. rewrite foldl_sat_sum.
  assert (∀ p, may_keep counts items target (split_idx p) →
    (∀ j, may_keep counts items target j → split_idx p ≤ j) → split_idx p = s) as Huniq.
  { intros p Hp Hpl. specialize (Hpl s (Hkeep ltac:(lia))). specialize (Hleast _ Hp). lia. }
  assert (¬ fits counts target 0) as Hnf by (apply Hmin; lia).
  case_bool_decide as Hm; eexists; (split; [done|]); intros p.
  - split; [done|]. intros (_ & Hp & Hpl & Ht & Hmt). rewrite (Huniq p Hp Hpl) in Ht. lia.
  - split.
    + intros [= <-]. simpl. split_and!; [done|apply Hkeep; lia|done|done|lia].
    + intros (_ & Hp & Hpl & Ht & _). pose proof (Huniq p Hp Hpl) as Hps. destruct p as [i t]. simpl in *. by subst.
Qed.

Lemma select_plan_spec counts items target min p :
  length counts = length items → select_turns_to_compact counts items target min = Some (Some p) →
  ¬ fits counts target 0 ∧ may_keep counts items target (split_idx p) ∧
  (∀ j, may_keep counts items target j → split_idx p ≤ j) ∧
  tokens_to_compact p = sat_sum (take (split_idx p) counts) ∧ (min ≤ tokens_to_compact p)%N.
Proof.
  intros Hlen Hs. destruct (select_turns_spec counts items target min Hlen) as (r & Hr & Hp).
  rewrite Hs in Hr. injection Hr as <-. by apply Hp.
Qed.

(** Selection never indexes out of range, and it chooses to compact up to [s]
    exactly when the whole conversation exceeds the budget, [s] is the first index
    from which the items fit the budget and do not begin with a tool result, and
    what lies before is worth compacting. *)
Theorem select_turns_correct counts items target min :
  length counts = length items →
  ∃ r, select_turns_to_compact counts items target min = Some r ∧
  ∀ p, r = Some p ↔
    ¬ fits counts target 0 ∧ may_keep counts items target (split_idx p) ∧
    (∀ j, may_keep counts items target j → split_idx p ≤ j) ∧
    tokens_to_compact p = sat_sum (take (split_idx p) counts) ∧ (min ≤ tokens_to_compact p)%N.
Proof. apply select_turns_spec. Qed.

(** A turn and the tool results right behind it are compacted together or kept
    together. *)
Theorem select_keeps_tool_pairs counts items target min p before turn results after :
  length counts = length items →
  select_turns_to_compact counts items target min = Some (Some p) →
  items = before ++ turn :: results ++ after → Forall (λ x, is_tool_result x = true) results →
  split_idx p ≤ length before ∨ length (before ++ turn :: results) ≤ split_idx p.
Proof.
  intros Hlen Hsel -> Hres.
  destruct (select_plan_spec _ _ _ _ _ Hlen Hsel) as (_ & [_ (x & Hx & Hnt)] & _).
  destruct (decide (split_idx p ≤ length before)) as [|Hb]; [by left|].
  destruct (decide (length (before ++ turn :: results) ≤ split_idx p)) as [|Ha]; [by right|]. exfalso.
  rewrite length_app in Ha. simpl in Ha. rewrite lookup_app_r in Hx by lia.
  destruct (split_idx p - length before) as [|i] eqn:Ei; [lia|]. simpl in Hx.
  rewrite lookup_app_l in Hx by lia. rewrite Forall_lookup in Hres. by rewrite (Hres _ _ Hx) in Hnt.
Qed.

End Select.
End Select.

Module Export Filter.
Section Filter.
Context `{CompactionItemBuilder T}.

Definition keep_turn_for_basic_compaction (turn : T) : bool :=
  match item_role turn with
  | System => false
  | Developer => is_compaction_summary turn
  | _ => true
  end.

Definition filter_turns_for_basic (turns : list T) : list T :=
  filter (λ t, keep_turn_for_basic_compaction t = true) turns.

Definition inter_turn (turn : T) : option T :=
  match item_role turn with
  | Tool | System => None
  | Developer => if is_compaction_summary turn then Some turn else None
  | User => Some turn
  | Assistant => strip_tool_content turn
  end.

Definition filter_turns_for_inter_compaction (turns : list T) : list T := omap inter_turn turns.

Definition file_line (a : CompactionFileRef) : string :=
  "<ainxt_file id=" +:+ quote_str +:+ file_id a +:+ quote_str +:+ " name=" +:+ quote_str +:+
  file_name a +:+ quote_str +:+ " />" +:+ newline.

(** The element of one turn, if it is a user turn with text or attachments. *)
Definition query_of (threshold : nat) (turn : T) : option string :=
  if bool_decide (item_role turn ≠ User) then None
  else
    let text := default "" (item_text turn) in
    let attachments := attachment_refs turn in
    if is_empty text && bool_decide (length attachments = 0) then None
    else
      let shown := default text (truncate_middle text threshold) in
      let files := if bool_decide (length attachments = 0) then ""
                   else newline +:+ concat_str (file_line <$> attachments) in
      Some ("<ainxt_query>" +:+ shown +:+ files +:+ "</ainxt_query>" +:+ newline).

Definition extract_user_queries_from_turns (turns : list T) (user_truncate_chars : N) : option string :=
  let queries := omap (query_of (N.to_nat user_truncate_chars)) turns in
  match queries with
  | [] => None
  | _ => Some ("<ainxt_user_queries>" +:+ newline +:+ concat_str queries +:+ "</ainxt_user_queries>")
  end.

Record SeparatedHistoryTurns := MkSeparated {
  turns_for_llm : list T;
  prior_user_queries : option string;
  has_prior_compaction : bool;
}.

Definition separate_turn (acc : SeparatedHistoryTurns) (turn : T) : SeparatedHistoryTurns :=
  if is_compaction_summary turn then
    let content := default "" (item_text turn) in
    let '(user_section, rest) := split_prior_compaction_text content in
    let prior :=
      match user_section, prior_user_queries acc with
      | Some user_sec, Some existing => Some (existing +:+ newline +:+ user_sec)
      | Some user_sec, None => Some user_sec
      | None, p => p
      end in
    let turns := if is_empty rest then turns_for_llm acc
                 else turns_for_llm acc ++ [compaction_summary_item rest] in
    MkSeparated turns prior true
  else MkSeparated (turns_for_llm acc ++ [turn]) (prior_user_queries acc) (has_prior_compaction acc).

Definition separate_prior_user_queries (turns : list T) : SeparatedHistoryTurns :=
  fold_left separate_turn turns (MkSeparated [] None false).

Definition extract_prior_user_queries (turns : list T) : option string :=
  prior_user_queries (separate_prior_user_queries turns).

Definition build_user_queries_preamble (turns : list T) (current_user_queries : option string) : string :=
  assemble_user_queries_preamble (extract_prior_user_queries turns) current_user_queries.

(** ** What the filters keep *)

(** What the model is shown of one turn, and the query blocks taken out of it. *)
Definition shown_turn (turn : T) : list T :=
  if is_compaction_summary turn then
    let rest := (split_prior_compaction_text (default "" (item_text turn))).2 in
    if is_empty rest then [] else [compaction_summary_item rest]
  else [turn].
Definition taken_blocks (turn : T) : list string :=
  if is_compaction_summary turn then
    match (split_prior_compaction_text (default "" (item_text turn))).1 with Some b => [b] | None => [] end
  else [].

Lemma separate_fold turns acc bs :
  prior_user_queries acc = joined bs →
  let r := fold_left separate_turn turns acc in
  turns_for_llm r = turns_for_llm acc ++ (turns ≫= shown_turn) ∧
  prior_user_queries r = joined (bs ++ (turns ≫= taken_blocks)) ∧
  has_prior_compaction r = has_prior_compaction acc || existsb is_compaction_summary turns.
Proof.
  revert acc bs. induction turns as [|t turns IH]; intros acc bs Hb; cbn [fold_left].
  { cbn. rewrite !app_nil_r, orb_false_r. by rewrite Hb. }
  cbn [existsb]. change ((t :: turns) ≫= shown_turn) with (shown_turn t ++ (turns ≫= shown_turn)).
  change ((t :: turns) ≫= taken_blocks) with (taken_blocks t ++ (turns ≫= taken_blocks)).
  assert (turns_for_llm (separate_turn acc t) = turns_for_llm acc ++ shown_turn t ∧
    prior_user_queries (separate_turn acc t) = joined (bs ++ taken_blocks t) ∧
    has_prior_compaction (separate_turn acc t) = has_prior_compaction acc || is_compaction_summary t) as (E1 & E2 & E3).
  { unfold separate_turn, shown_turn, taken_blocks. destruct (is_compaction_summary t).
    - destruct (split_prior_compaction_text _) as [us rest]. simpl. rewrite orb_true_r. split_and!; [| |done].
      + destruct (is_empty rest); [by rewrite app_nil_r|done].
      + rewrite Hb. destruct us as [u|]; [|by rewrite app_nil_r]. destruct bs as [|b bs]; [done|]. unfold joined at 1.
        rewrite <-join_snoc by done. by destruct bs.
    - simpl. rewrite app_nil_r, orb_false_r. done. }
  destruct (IH (separate_turn acc t) _ E2) as (-> & -> & ->). rewrite E1, E3, <-!app_assoc, <-orb_assoc. done.
Qed.

Lemma separate_prior_spec turns :
  separate_prior_user_queries turns =
  MkSeparated (turns ≫= shown_turn) (joined (turns ≫= taken_blocks)) (existsb is_compaction_summary turns).
Proof.
  unfold separate_prior_user_queries.
  destruct (separate_fold turns (MkSeparated [] None false) [] eq_refl) as (E1 & E2 & E3).
  destruct (fold_left _ _ _) as [a b c]. simpl in *. by subst.
Qed.

Context `{!CompactionItemLaws T}.

(** The model never sees a closed block of user queries: in every summary it is
    shown, a split finds nothing. *)
Theorem model_never_sees_queries turns t :
  t ∈ turns_for_llm (separate_prior_user_queries turns) → is_compaction_summary t = true →
  (split_prior_compaction_text (default "" (item_text t))).1 = None.
Proof.
  rewrite separate_prior_spec. simpl. intros (u & Ht & _)%list_elem_of_bind Hs. revert Ht. unfold shown_turn.
  destruct (is_compaction_summary u) eqn:Hu.
  - set (text := default "" (item_text u)). destruct (is_empty _); [by intros ?%not_elem_of_nil|].
    intros ->%list_elem_of_singleton. rewrite summary_item_text. simpl.
    by rewrite (split_prior_rest text).
  - intros ->%list_elem_of_singleton. congruence.
Qed.

End Filter.
End Filter.

Module Export Inter.

(** The events of the observer. *)
Inductive InterEvent :=
| OnRecompaction (strategy : string)
| OnChunkSampled (success : bool)
| OnChunkCount (num_chunks : nat).

Record InterCompactionConfig := MkInterConfig {
  inter_sampling_timeout_secs : N;
  compaction_strategy : CompactionStrategy;
  dnc_chunk_token_limit : N;
  user_message_compact_threshold : N;
}.

Definition UNBOUNDED_CHUNK_LIMIT : N := u32_max.

Record ChunkedCompactionOutput := MkChunked { combined_text : string; analysis_text : string }.

Section Inter.
Context `{CompactionItemBuilder T, ItemTokenCounter T}.
(** The model: it may answer differently at every call, so the number of calls
    before is an argument. *)
Variable sample_compaction :
  nat → list T → CompactionPrompt → N → result CompactionSampleError LlmCompactionOutput.
(** The two prompt templates. *)
Variable history_prompt : CompactionPrompt.
Variable config : InterCompactionConfig.

Definition flush_chunk (turns : list T) (chunk_idx : nat)
    : list InterEvent * result CompactionSampleError LlmCompactionOutput :=
  let r := sample_compaction chunk_idx turns history_prompt (inter_sampling_timeout_secs config) in
  ([OnChunkSampled (bool_decide (is_Some (ok r)))], r).

(** The condition of a flush in front of an item. *)
Definition must_flush (limit : N) (compactable : list T) (chunk_tokens turn_tokens : N) : bool :=
  negb (bool_decide (length compactable = 0)) && bool_decide (limit ≠ UNBOUNDED_CHUNK_LIMIT) &&
  bool_decide (limit < sat_add32 chunk_tokens turn_tokens)%N.

(** The walk over the items, with the final flush. *)
Fixpoint chunk_loop (limit : N) (turns : list T) (compactable : list T) (chunk_tokens : N)
    (outputs : list LlmCompactionOutput) (chunk_idx : nat)
    : list InterEvent * result CompactionSampleError (list LlmCompactionOutput) :=
  match turns with
  | [] =>
      if bool_decide (length compactable = 0) then ([], Ok outputs)
      else
        let '(ev, r) := flush_chunk compactable chunk_idx in
        (ev, o ← r; Ok (outputs ++ [o]))
  | turn :: turns' =>
      let turn_tokens := count_item_tokens turn in
      if must_flush limit compactable chunk_tokens turn_tokens then
        match flush_chunk compactable chunk_idx with
        | (ev, Err e) => (ev, Err e)
        | (ev, Ok o) =>
            let '(ev', r) := chunk_loop limit turns' [turn] (wrap32 turn_tokens) (outputs ++ [o]) (S chunk_idx) in
            (ev ++ ev', r)
        end
      else chunk_loop limit turns' (compactable ++ [turn]) (wrap32 (chunk_tokens + turn_tokens)) outputs chunk_idx
  end.

Definition summary_block (i : nat) (output : LlmCompactionOutput) : string :=
  "<chunk_summary index=" +:+ quote_str +:+ pretty i +:+ quote_str +:+ ">" +:+ newline +:+
  response output +:+ newline +:+ "</chunk_summary>" +:+ blank_line.

Definition chunk_limit (s : CompactionStrategy) : result CompactionSampleError N :=
  match s with
  | Basic => Ok UNBOUNDED_CHUNK_LIMIT
  | DivideAndConquer => Ok (dnc_chunk_token_limit config)
  | FullReplaceStrategy =>
      Err (SampleBuild "full_replace must be routed through the event-proc compact_conversation helper")
  end.

Definition sample_compaction_chunked (turns : list T) (current_user_queries : option string)
    : list InterEvent * result CompactionSampleError ChunkedCompactionOutput :=
  match chunk_limit (compaction_strategy config) with
  | Err e => ([], Err e)
  | Ok limit =>
      let filtered := filter_turns_for_inter_compaction turns in
      if bool_decide (length filtered = 0) then ([], Err (SampleOther "No turns remaining after filtering"))
      else
        let separated := separate_prior_user_queries filtered in
        match chunk_loop limit (turns_for_llm separated) [] 0%N [] 0 with
        | (ev, Err e) => (ev, Err e)
        | (ev, Ok outputs) =>
            let ev := if has_prior_compaction separated
                      then ev ++ [OnRecompaction (strategy_label (compaction_strategy config))] else ev in
            let preamble := assemble_user_queries_preamble (prior_user_queries separated) current_user_queries in
            (ev ++ [OnChunkCount (length outputs)],
             Ok (MkChunked (preamble +:+ concat_str (imap summary_block outputs))
                           (concat_str (imap (λ i o, wrap_chunk_analysis i (thinking o)) outputs))))
        end
  end.

(** ** The chunks *)

Definition tokens_of (l : list T) : N := sum_tokens (count_item_tokens <$> l).

(** A chunk that respects the limit: only a single item may exceed it. *)
Definition chunk_ok (limit : N) (chunk : list T) : Prop :=
  chunk ≠ [] ∧ (limit = UNBOUNDED_CHUNK_LIMIT ∨ (tokens_of chunk ≤ limit)%N ∨ length chunk = 1).

(** A chunk is closed only in front of an item that no longer fits. *)
Inductive greedy (limit : N) : list (list T) → Prop :=
| greedy_nil : greedy limit []
| greedy_one c : greedy limit [c]
| greedy_cons c t d cs :
    limit ≠ UNBOUNDED_CHUNK_LIMIT → (limit < tokens_of c + count_item_tokens t)%N →
    greedy limit ((t :: d) :: cs) → greedy limit (c :: (t :: d) :: cs).

(** The chunks the walk makes, without the model. *)
Fixpoint chunks_go (limit : N) (turns : list T) (compactable : list T) (chunk_tokens : N) : list (list T) :=
  match turns with
  | [] => if bool_decide (length compactable = 0) then [] else [compactable]
  | turn :: turns' =>
      let turn_tokens := count_item_tokens turn in
      if must_flush limit compactable chunk_tokens turn_tokens
      then compactable :: chunks_go limit turns' [turn] (wrap32 turn_tokens)
      else chunks_go limit turns' (compactable ++ [turn]) (wrap32 (chunk_tokens + turn_tokens))
  end.
Definition chunks (limit : N) (turns : list T) : list (list T) := chunks_go limit turns [] 0%N.

Lemma chunks_go_concat limit turns compactable n :
  concat (chunks_go limit turns compactable n) = compactable ++ turns.
Proof.
  revert compactable n. induction turns as [|t turns IH]; intros c n; cbn [chunks_go].
  - rewrite app_nil_r. case_bool_decide as Hc; [by destruct c|]. simpl. by rewrite app_nil_r.
  - destruct (must_flush _ _ _ _); cbn [concat]; rewrite IH; [done|]. by rewrite <-app_assoc.
Qed.

(** Token counts are [u32]. *)
Hypothesis counts_u32 : ∀ t : T, (count_item_tokens t ≤ u32_max)%N.

(** The running count is the true one as long as a limit is in force. *)
Definition running (limit : N) (compactable : list T) (n : N) : Prop :=
  (compactable = [] ∧ n = 0%N) ∨
  (compactable ≠ [] ∧ (limit = UNBOUNDED_CHUNK_LIMIT ∨
    (n = tokens_of compactable ∧ (n ≤ u32_max)%N ∧ ((n ≤ limit)%N ∨ length compactable = 1)))).

Lemma tokens_of_snoc c t : tokens_of (c ++ [t]) = (tokens_of c + count_item_tokens t)%N.
Proof. unfold tokens_of. rewrite fmap_app, sum_tokens_app. simpl. lia. Qed.

Lemma running_one limit t : running limit [t] (wrap32 (count_item_tokens t)).
Proof.
  right. split; [done|]. right. rewrite wrap32_small by apply counts_u32. unfold tokens_of. simpl.
  pose proof (counts_u32 t). split_and!; [lia|done|by right].
Qed.

Lemma running_snoc limit c n t :
  (limit ≤ u32_max)%N → running limit c n → must_flush limit c n (count_item_tokens t) = false →
  running limit (c ++ [t]) (wrap32 (n + count_item_tokens t)).
Proof.
  intros Hlim [[-> ->]|[Hc Hn]] Hf; [apply running_one|]. right. split; [by destruct c|].
  unfold must_flush in Hf. rewrite (bool_decide_eq_false_2 (length c = 0)) in Hf by (by destruct c). simpl in Hf.
  destruct Hn as [Hu|(-> & Hmax & Hl)]; [by left|].
  destruct (decide (limit = UNBOUNDED_CHUNK_LIMIT)) as [Hu|Hu]; [by left|].
  rewrite (bool_decide_eq_true_2 (limit ≠ _)) in Hf by done. simpl in Hf. apply bool_decide_eq_false in Hf.
  assert (tokens_of c + count_item_tokens t ≤ limit)%N as Hle.
  { unfold sat_add32 in Hf. assert (limit < u32_max)%N by (unfold UNBOUNDED_CHUNK_LIMIT in *; lia). lia. }
  right. rewrite wrap32_small, tokens_of_snoc by lia. split_and!; [done|lia|by left].
Qed.

Lemma chunks_go_ok limit turns c n :
  (limit ≤ u32_max)%N → running limit c n →
  Forall (chunk_ok limit) (chunks_go limit turns c n) ∧ greedy limit (chunks_go limit turns c n) ∧
  (c ≠ [] → ∃ d cs, chunks_go limit turns c n = (c ++ d) :: cs).
Proof.
  intros Hlim. revert c n. induction turns as [|t turns IH]; intros c n Hr; cbn [chunks_go].
  - case_bool_decide as Hc; [split_and!; [constructor|constructor|by destruct c]|].
    split_and!; [|constructor|intros _; exists [], []; by rewrite app_nil_r].
    constructor; [|done]. destruct Hr as [[-> _]|[Hne Hr]]; [done|]. split; [done|].
    destruct Hr as [?|(-> & _ & [?|?])]; auto.
  - destruct (must_flush limit c n (count_item_tokens t)) eqn:Hf.
    + destruct (IH [t] _ (running_one limit t)) as (A1 & A2 & A3).
      destruct (A3 ltac:(done)) as (d & cs & E). rewrite E in A1, A2 |- *.
      unfold must_flush in Hf. rewrite !andb_true_iff, negb_true_iff, bool_decide_eq_false, !bool_decide_eq_true in Hf.
      destruct Hf as [[Hc Hu] Hlt]. destruct Hr as [[-> _]|[Hne [Hr|(-> & Hm & Hl)]]]; [done..|].
      split_and!.
      * constructor; [|done]. split; [done|]. destruct Hl; auto.
      * apply (greedy_cons limit c t d cs); [done| |done]. unfold sat_add32 in Hlt. lia.
      * intros _. exists [], (([t] ++ d) :: cs). by rewrite app_nil_r.
    + destruct (IH (c ++ [t]) _ (running_snoc limit c n t Hlim Hr Hf)) as (A1 & A2 & A3).
      split_and!; [done..|]. intros _. destruct (A3 ltac:(by destruct c)) as (d & cs & ->).
      exists (t :: d), cs. by rewrite <-app_assoc.
Qed.

(** The model is asked once per chunk, in order, until it fails. *)
Fixpoint ask (chunk_idx : nat) (cs : list (list T))
    : list InterEvent * result CompactionSampleError (list LlmCompactionOutput) :=
  match cs with
  | [] => ([], Ok [])
  | c :: cs' =>
      match flush_chunk c chunk_idx with
      | (ev, Err e) => (ev, Err e)
      | (ev, Ok o) => let '(ev', r) := ask (S chunk_idx) cs' in (ev ++ ev', os ← r; Ok (o :: os))
      end
  end.

Lemma chunk_loop_ask limit turns c n os i :
  chunk_loop limit turns c n os i =
    let '(ev, r) := ask i (chunks_go limit turns c n) in (ev, os' ← r; Ok (os ++ os')).
Proof.
  revert c n os i. induction turns as [|t turns IH]; intros c n os i; cbn [chunk_loop chunks_go].
  - case_bool_decide; [by cbn; rewrite app_nil_r|]. cbn [ask]. unfold flush_chunk.
    by destruct (sample_compaction _ _ _ _).
  - destruct (must_flush _ _ _ _); [|apply IH]. cbn [ask]. unfold flush_chunk.
    destruct (sample_compaction _ _ _ _); [|done]. rewrite IH.
    destruct (ask _ _) as [ev [os'|e]]; [|done]. cbn. by rewrite <-app_assoc.
Qed.

(** C39: The chunked pipeline shows the model the items left by the filters, cut into
    chunks that lose and reorder nothing, respect the token limit wherever more
    than one item is in a chunk, and are closed no earlier than needed; it asks
    once per chunk in order, stops at the first failure, and assembles the
    preamble, the summaries and the analyses. *)
Theorem chunked_compaction_correct turns current limit :
  chunk_limit (compaction_strategy config) = Ok limit → (limit ≤ u32_max)%N →
  filter_turns_for_inter_compaction turns ≠ [] →
  let separated := separate_prior_user_queries (filter_turns_for_inter_compaction turns) in
  let cs := chunks limit (turns_for_llm separated) in
  concat cs = turns_for_llm separated ∧ Forall (chunk_ok limit) cs ∧ greedy limit cs ∧
  sample_compaction_chunked turns current =
    let '(ev, r) := ask 0 cs in
    match r with
    | Err e => (ev, Err e)
    | Ok outputs =>
        (ev ++ (if has_prior_compaction separated then [OnRecompaction (strategy_label (compaction_strategy config))] else [])
            ++ [OnChunkCount (length outputs)],
         Ok (MkChunked
           (assemble_user_queries_preamble (prior_user_queries separated) current +:+
            concat_str (imap summary_block outputs))
           (concat_str (imap (λ i o, wrap_chunk_analysis i (thinking o)) outputs))))
    end.
Proof.
  intros Hl Hmax Hne separated cs.
  destruct (chunks_go_ok limit (turns_for_llm separated) [] 0%N Hmax) as (A1 & A2 & _); [by left|].
  split_and!; [apply chunks_go_concat|done|done|].
  unfold sample_compaction_chunked. rewrite Hl, bool_decide_eq_false_2 by (by destruct (filter_turns_for_inter_compaction turns)).
  fold separated. rewrite chunk_loop_ask. fold (chunks limit (turns_for_llm separated)). fold cs.
  destruct (ask 0 cs) as [ev [os|e]]; [|done]. simpl. destruct (has_prior_compaction separated); [|done].
  by rewrite <-app_assoc.
Qed.

(** ** Assembled text validates *)

Lemma count_line p w x t :
  p = String lt w → contains_byte (byte 10) w = false →
  count_matches p (x +:+ newline +:+ t) = count_matches p x + count_matches p t.
Proof.
  intros -> Hw. change (newline +:+ t) with (String (byte 10) t).
  rewrite (count_app _ lt w) by done. f_equal.
Qed.

Lemma count_summary_block p w i o t :
  p = String lt w → contains_byte (byte 10) w = false → 
  count_matches p (summary_block i o +:+ t) =
  count_matches p ("<chunk_summary index=" +:+ quote_str +:+ pretty i +:+ quote_str +:+ ">") +
  count_matches p (response o) + count_matches p "</chunk_summary>" + count_matches p t.
Proof.
  intros Hp Hw. unfold summary_block.
  replace (_ +:+ t) with (("<chunk_summary index=" +:+ quote_str +:+ pretty i +:+ quote_str +:+ ">") +:+
    newline +:+ response o +:+ newline +:+ "</chunk_summary>" +:+ newline +:+ "" +:+ newline +:+ t)
    by (by rewrite <-!app_assoc_str).
  rewrite !(count_line p w) by done. assert (count_matches p "" = 0) as -> by done. lia.
Qed.

Lemma tag_line_clean (i : nat) : contains_byte lt ("chunk_summary index=" +:+ quote_str +:+ pretty i +:+ quote_str +:+ ">") = false.
Proof.
  rewrite !contains_byte_app. assert (contains_byte lt (pretty i) = false) as ->; [|done].
  unfold pretty, pretty_nat. apply digits_no_byte; [apply pretty_N_digits|done].
Qed.

Lemma summary_block_balanced (i : nat) o t : balanced (response o) → balanced t → balanced (summary_block i o +:+ t).
Proof.
  unfold balanced. intros Ho Ht. unfold chunk_open, chunk_close in *.
  rewrite !(count_summary_block _ _ i o t eq_refl) by done.
  change (String lt "chunk_summary") with "<chunk_summary". change (String lt "/chunk_summary>") with "</chunk_summary>".
  rewrite Ho, Ht.
  assert (count_matches "<chunk_summary" "</chunk_summary>" = 0) as -> by done.
  assert (count_matches "</chunk_summary>" "</chunk_summary>" = 1) as -> by done.
  pose proof (tag_line_clean i) as Hc. set (rest := quote_str +:+ pretty i +:+ quote_str +:+ ">") in *.
  assert (count_matches "<chunk_summary" ("<chunk_summary index=" +:+ rest) = 1) as ->.
  { change ("<chunk_summary index=" +:+ rest) with ("<chunk_summary" +:+ " index=" +:+ rest).
    rewrite (count_here lt "chunk_summary"). f_equal. apply (count_absent lt).
    change ("chunk_summary index=" +:+ rest) with ("chunk_summary" +:+ " index=" +:+ rest) in Hc.
    rewrite contains_byte_app in Hc. by apply orb_false_elim in Hc as [_ ?]. }
  assert (count_matches "</chunk_summary>" ("<chunk_summary index=" +:+ rest) = 0) as ->; [|lia].
  exact (eq_trans
    (count_other lt "/chunk_summary>" ("<chunk_summary index=" +:+ rest) eq_refl lt ("chunk_summary index=" +:+ rest) eq_refl)
    (count_absent lt "/chunk_summary>" _ Hc)).
Qed.

Lemma blocks_balanced i os :
  Forall (λ o, balanced (response o)) os → balanced (concat_str (imap (λ k, summary_block (i + k)) os)).
Proof.
  intros Hos. revert i. induction Hos as [|o os Ho _ IH]; intros i; [done|]. cbn [imap concat_str foldr].
  apply summary_block_balanced; [done|]. specialize (IH (S i)).
  erewrite imap_ext; [exact IH|]. intros k x _. cbn. f_equal. lia.
Qed.

Lemma balanced_preamble x os : balanced x → balanced (concat_str (imap summary_block os)) →
  balanced (x +:+ concat_str (imap summary_block os)).
Proof.
  intros Hx Hb. destruct os as [|o os]; [by rewrite app_nil_r_str|].
  unfold balanced in *. destruct (concat_str (imap summary_block (o :: os))) as [|a s] eqn:E.
  - by rewrite app_nil_r_str.
  - assert (a = lt) as -> by (cbn in E; by injection E).
    unfold chunk_open, chunk_close in *.
    rewrite (count_app _ lt "chunk_summary"), (count_app _ lt "/chunk_summary>") by done. lia.
Qed.

(** If no answer of the model and no query in the preamble leaves a chunk tag
    open, the assembled text passes the check of the chunk tags. *)
Theorem chunked_output_validates turns current ev out :
  sample_compaction_chunked turns current = (ev, Ok out) →
  (∀ i c o, sample_compaction i c history_prompt (inter_sampling_timeout_secs config) = Ok o → balanced (response o)) →
  balanced (assemble_user_queries_preamble
    (prior_user_queries (separate_prior_user_queries (filter_turns_for_inter_compaction turns))) current) →
  ∀ s o c, validate_compaction_text (combined_text out) s ≠ Err (UnbalancedChunkTags o c).
Proof.
  intros Hs Hresp Hpre s o c. assert (balanced (combined_text out)) as Hb.
  { unfold sample_compaction_chunked in Hs. destruct (chunk_limit _) as [limit|]; [|done].
    case_bool_decide; [done|]. rewrite chunk_loop_ask in Hs. destruct (ask _ _) as [ev' [os|]] eqn:E; [|done].
    injection Hs as <- <-. cbn [combined_text]. apply balanced_preamble; [done|].
    apply (blocks_balanced 0). revert E. generalize (chunks_go limit
      (turns_for_llm (separate_prior_user_queries (filter_turns_for_inter_compaction turns))) [] 0%N) 0 ev' os.
    induction l as [|ch l IH]; intros i ev1 os1; cbn [ask]; [intros [= <- <-]; constructor|].
    unfold flush_chunk. destruct (sample_compaction i ch _ _) as [o1|] eqn:Eo; [|done].
    destruct (ask (S i) l) as [ev2 [os2|]] eqn:E2; [|done]. intros [= <- <-].
    constructor; [by eapply Hresp|by eapply IH]. }
  unfold validate_compaction_text. destruct (is_empty _); [done|]. destruct s; try done.
  by rewrite bool_decide_eq_false_2 by (intros []; exact Hb).
Qed.

End Inter.
End Inter.

(** * A harness, for the witnesses *)

Module Export Chat.

Inductive ChatTurn :=
| TurnSystem
| TurnDeveloper (text : string) (summary : bool)
| TurnUser (text : string)
| TurnAssistant (text : option string) (tools : bool)
| TurnTool.

#[export] Instance chat_item : CompactionItem ChatTurn := {|
  item_role t := match t with
    | TurnSystem => System | TurnDeveloper _ _ => Developer | TurnUser _ => User
    | TurnAssistant _ _ => Assistant | TurnTool => Tool end;
  item_text t := match t with
    | TurnDeveloper s _ | TurnUser s => Some s
    | TurnAssistant s _ => s
    | TurnSystem | TurnTool => None end;
  has_tool_requests t := match t with TurnAssistant _ b => b | _ => false end;
  is_compaction_summary t := match t with TurnDeveloper _ b => b | _ => false end;
  attachment_refs _ := [] |}.

#[export] Instance chat_builder : CompactionItemBuilder ChatTurn := {|
  compaction_summary_item s := TurnDeveloper s true;
  strip_tool_content t := match t with
    | TurnAssistant (Some s) _ => Some (TurnAssistant (Some s) false)
    | TurnAssistant None _ => None
    | _ => Some t end |}.

#[export] Instance chat_laws : CompactionItemLaws ChatTurn.
Proof. by split. Qed.

(** A token per byte of text. *)
#[export] Instance chat_counter : ItemTokenCounter ChatTurn :=
  λ t, N.min (N.of_nat (String.length (default "" (item_text t)))) u32_max.

Definition chat : list ChatTurn :=
  [TurnUser "list the files"; TurnAssistant None true; TurnTool; TurnTool; TurnAssistant (Some "two files") false].

Lemma select_turns_correct_witness :
  ∃ r, select_turns_to_compact [10; 20; 30; 40; 5]%N chat 50 10 = Some r ∧
  ∀ p, r = Some p ↔
    ¬ fits [10; 20; 30; 40; 5]%N 50 0 ∧ may_keep [10; 20; 30; 40; 5]%N chat 50 (split_idx p) ∧
    (∀ j, may_keep [10; 20; 30; 40; 5]%N chat 50 j → split_idx p ≤ j) ∧
    tokens_to_compact p = sat_sum (take (split_idx p) [10; 20; 30; 40; 5]%N) ∧ (10 ≤ tokens_to_compact p)%N.
Proof. exact (select_turns_correct [10; 20; 30; 40; 5]%N chat 50 10 eq_refl). Defined.

(** The budget would cut between the two tool results: both are compacted. *)
Lemma select_keeps_tool_pairs_witness :
  select_turns_to_compact [10; 20; 30; 40; 5]%N chat 50 10 = Some (Some (MkPlan 4 100)) ∧
  (split_idx (MkPlan 4 100) ≤ 1 ∨ 4 ≤ split_idx (MkPlan 4 100)).
Proof.
  split; [by vm_compute|].
  refine (select_keeps_tool_pairs [10; 20; 30; 40; 5]%N chat 50 10 (MkPlan 4 100) [TurnUser "list the files"]
    (TurnAssistant None true) [TurnTool; TurnTool] [TurnAssistant (Some "two files") false] eq_refl _ eq_refl _).
  - by vm_compute.
  - by repeat constructor.
Defined.

Definition earlier : ChatTurn :=
  TurnDeveloper (block "old query" +:+ blank_line +:+ "what was done") true.

Lemma model_never_sees_queries_witness :
  turns_for_llm (separate_prior_user_queries [earlier; TurnUser "next"]) =
    [TurnDeveloper "what was done" true; TurnUser "next"] ∧
  (split_prior_compaction_text "what was done").1 = None.
Proof.
  split; [by vm_compute|].
  refine (model_never_sees_queries [earlier; TurnUser "next"] (TurnDeveloper "what was done" true) _ eq_refl).
  assert (turns_for_llm (separate_prior_user_queries [earlier; TurnUser "next"]) =
    [TurnDeveloper "what was done" true; TurnUser "next"]) as -> by (by vm_compute). by left.
Defined.

(** A model that always gives the same answer. *)
Definition steady (i : nat) (turns : list ChatTurn) (p : CompactionPrompt) (timeout : N)
  : result CompactionSampleError LlmCompactionOutput := Ok (MkOutput "summary" "thoughts").
Definition prompts : CompactionPrompt := MkPrompt "system" "user".
Definition divide : InterCompactionConfig := MkInterConfig 60 DivideAndConquer 20 3000.
Definition long_chat : list ChatTurn :=
  [earlier; TurnUser "list the files"; TurnAssistant (Some "two files") true; TurnTool; TurnUser "thanks"].

Lemma chat_counts_u32 t : (count_item_tokens (T := ChatTurn) t ≤ u32_max)%N.
Proof. apply N.le_min_r. Qed.

Lemma chunked_compaction_correct_witness :
  let separated := separate_prior_user_queries (filter_turns_for_inter_compaction long_chat) in
  let cs := chunks 20 (turns_for_llm separated) in
  cs = [[TurnDeveloper "what was done" true]; [TurnUser "list the files"];
        [TurnAssistant (Some "two files") false; TurnUser "thanks"]] ∧
  concat cs = turns_for_llm separated ∧ Forall (chunk_ok 20) cs.
Proof.
  intros separated cs. split; [by vm_compute|].
  destruct (chunked_compaction_correct steady prompts divide chat_counts_u32 long_chat None 20
    eq_refl ltac:(by vm_compute) ltac:(by vm_compute)) as (A1 & A2 & _).
  by split.
Defined.

Lemma chunked_output_validates_witness :
  ∃ ev out, sample_compaction_chunked steady prompts divide long_chat None = (ev, Ok out) ∧
    ∀ s o c, validate_compaction_text (combined_text out) s ≠ Err (UnbalancedChunkTags o c).
Proof.
  destruct (sample_compaction_chunked steady prompts divide long_chat None) as [ev [out|e]] eqn:E;
    [|by vm_compute in E].
  exists ev, out. split; [done|].
  refine (chunked_output_validates steady prompts divide long_chat None ev out E _ _).
  - intros i c o [= <-]. by vm_compute.
  - by vm_compute.
Defined.

(** The text of a user is not escaped: a closing tag in it ends the block, and the
    rest of the query is shown to the model as if it were part of the summary. *)
Lemma quoted_close_leaks :
  match extract_user_queries_from_turns [TurnUser "what is </ainxt_user_queries> for?"] 3000 with
  | Some q => (split_prior_compaction_text q).2 = "for?</ainxt_query>" +:+ newline +:+ "</ainxt_user_queries>"
  | None => False
  end.
Proof. by vm_compute. Qed.

End Chat.
