(* ===== verification/CodeCompaction.v ===== *)
(** The full-replace compaction pass (crate [ainxt-compaction],
    [code_compaction/]): failure classification ([failure.rs]), the bounded retry
    of the sampling ([sample.rs]), prompts ([prompt.rs]), the rebuilt history
    ([assemble.rs]), the pass itself ([compact.rs]) and the reminder of active
    agents ([reminder.rs]). *)
From stdpp Require Import list.
From S2P Require Import Prelude RustStr StrSearch CompactText Compaction.

Module Export Failure.

Inductive FailureKind := Deterministic | Transient.

Definition is_context_length_error (message : string) : bool :=
  let m := to_ascii_lowercase message in
  contains "too long for this model" m || contains "prompt is too long" m ||
  contains "maximum prompt length" m || contains "maximum context length" m ||
  contains "context_length_exceeded" m.

(** A client error that re-sending cannot cure. *)
Definition client_error (status : N) : bool :=
  bool_decide (400 ≤ status < 500)%N && negb (bool_decide (status = 408%N)) && negb (bool_decide (status = 429%N)).

Definition classify_http_status (status : N) (message : string) : FailureKind :=
  if is_context_length_error message || client_error status then Deterministic else Transient.

(** [c.parse::<u16>()]. *)
Definition parse_status (c : string) : option N :=
  n ← parse_u64 c; if bool_decide (n ≤ 65535)%N then Some n else None.

Definition classify_stream_event_error (code : option string) (message : string) : FailureKind :=
  if bool_decide (code = Some "invalid_request_error") || contains "invalid_request_error" message then Deterministic
  else
    match code ≫= parse_status with
    | Some status => if client_error status then Deterministic
                     else if is_context_length_error message then Deterministic else Transient
    | None => if is_context_length_error message then Deterministic else Transient
    end.

(** A numeric code and no marker: the two classifiers agree. *)
Lemma stream_code_as_http status message :
  (status ≤ 65535)%N → contains "invalid_request_error" message = false →
  classify_stream_event_error (Some (pretty status)) message = classify_http_status status message.
Proof.
  intros Hs Hm. unfold classify_stream_event_error, classify_http_status. rewrite Hm, orb_false_r.
  rewrite bool_decide_eq_false_2.
  - cbn [mbind option_bind]. unfold parse_status. rewrite parse_u64_pretty by (unfold u64_max; lia). cbn.
    rewrite bool_decide_eq_true_2 by done.
    by destruct (client_error status), (is_context_length_error message).
  - intros [= E]. pose proof (parse_u64_pretty status ltac:(unfold u64_max; lia)) as H. rewrite E in H. by vm_compute in H.
Qed.

End Failure.

Module Export Sample.

(** [CompactionSampleError]'s [Display]. *)
Definition sample_error_display (e : CompactionSampleError) : string :=
  match e with
  | SampleTimeout secs bytes =>
      "Compaction sampling timed out after " +:+ pretty secs +:+ "s (collected " +:+ pretty bytes +:+ " bytes so far)"
  | SampleBuild msg => "Compaction sampler build failed: " +:+ msg
  | SampleStart msg => "Compaction sampler start failed: " +:+ msg
  | SampleEmptyResponse => "Compaction sampler returned no response channel content"
  | SampleOther msg => msg
  end.

Record SampledSummary := MkSampled { sampled_summary : string; sampled_attempts : nat }.

Inductive SampleRetryError :=
| RetryEmpty (attempts : nat)
| RetryFailure (message : string) (deterministic context_overflow : bool) (attempts : nat).

Inductive FullReplaceAttemptOutcome :=
| AttemptSuccess (summary : string)
| AttemptEmpty (will_retry : bool)
| AttemptDegenerate (summary : string) (will_retry : bool)
| AttemptFailure (message : string) (deterministic context_overflow will_retry : bool).

Section Sample.
Context {T : Type}.
(** The model; the first argument is the number of calls before. *)
Variable sample_compaction :
  nat → list T → CompactionPrompt → N → result CompactionSampleError LlmCompactionOutput.

(** The loop from the given attempt on, with [left] attempts left; also the
    attempts reported to the observer. *)
Fixpoint sample_from (calls : nat) (turns : list T) (prompt : CompactionPrompt) (timeout : N)
    (max_attempts left attempt : nat)
    : list (nat * FullReplaceAttemptOutcome) * result SampleRetryError SampledSummary :=
  match left with
  | 0 => ([], Err (RetryEmpty max_attempts))
  | S left' =>
      let will_retry := bool_decide (attempt < max_attempts) in
      let next := sample_from (S calls) turns prompt timeout max_attempts left' (S attempt) in
      let then_retry outcome := ((attempt, outcome) :: next.1, next.2) in
      match sample_compaction calls turns prompt timeout with
      | Ok output =>
          if negb (is_empty (trim (response output))) then
            if is_degenerate_summary (response output) then
              let outcome := AttemptDegenerate (response output) will_retry in
              if will_retry then then_retry outcome else ([(attempt, outcome)], Err (RetryEmpty attempt))
            else ([(attempt, AttemptSuccess (response output))], Ok (MkSampled (response output) attempt))
          else
            let outcome := AttemptEmpty will_retry in
            if will_retry then then_retry outcome else ([(attempt, outcome)], Err (RetryEmpty attempt))
      | Err e =>
          let message := sample_error_display e in
          let context_overflow := is_context_length_error message in
          let deterministic := is_deterministic e || context_overflow in
          let outcome := AttemptFailure message deterministic context_overflow (will_retry && negb deterministic) in
          if deterministic then ([(attempt, outcome)], Err (RetryFailure message true context_overflow attempt))
          else if will_retry then then_retry outcome
          else ([(attempt, outcome)], Err (RetryFailure message false false attempt))
      end
  end.

(** [max_attempts.max(1)] attempts. *)
Definition attempts_of (max_attempts : N) : nat := N.to_nat (N.max max_attempts 1).

Definition sample_summary_with_retries (calls : nat) (turns : list T) (prompt : CompactionPrompt)
    (max_attempts : N) (timeout : N)
    : list (nat * FullReplaceAttemptOutcome) * result SampleRetryError SampledSummary :=
  let n := attempts_of max_attempts in sample_from calls turns prompt timeout n n 1.

(** ** What an attempt means *)

Definition usable (r : result CompactionSampleError LlmCompactionOutput) : Prop :=
  match r with
  | Ok o => is_empty (trim (response o)) = false ∧ is_degenerate_summary (response o) = false
  | Err _ => False
  end.
(** Worth another try: a poor answer, or an error that may pass. *)
Definition transient (r : result CompactionSampleError LlmCompactionOutput) : Prop :=
  match r with
  | Ok o => is_empty (trim (response o)) = true ∨ is_degenerate_summary (response o) = true
  | Err e => is_deterministic e = false ∧ is_context_length_error (sample_error_display e) = false
  end.

(** The result an attempt decides, when it is the last. *)
Definition final_result (r : result CompactionSampleError LlmCompactionOutput) (attempt : nat)
    : result SampleRetryError SampledSummary :=
  match r with
  | Ok o => if negb (is_empty (trim (response o))) && negb (is_degenerate_summary (response o))
            then Ok (MkSampled (response o) attempt) else Err (RetryEmpty attempt)
  | Err e =>
      let message := sample_error_display e in
      let overflow := is_context_length_error message in
      Err (RetryFailure message (is_deterministic e || overflow) overflow attempt)
  end.

Lemma sample_from_spec calls turns prompt timeout n left attempt :
  attempt + left = S n → 0 < left →
  let '(trace, r) := sample_from calls turns prompt timeout n left attempt in
  ∃ k, length trace = S k ∧ k < left ∧
    (∀ j, j < k → transient (sample_compaction (calls + j) turns prompt timeout)) ∧
    (transient (sample_compaction (calls + k) turns prompt timeout) → S k = left) ∧
    r = final_result (sample_compaction (calls + k) turns prompt timeout) (attempt + k).
Proof.
  revert calls attempt. induction left as [|left IH]; intros calls attempt Hn Hl; [lia|].
  cbn [sample_from].
  assert (transient (sample_compaction calls turns prompt timeout) → attempt < n →
    let '(trace, r) := sample_from (S calls) turns prompt timeout n left (S attempt) in
    ∀ o, ∃ k, length ((attempt, o) :: trace) = S k ∧ k < S left ∧
      (∀ j, j < k → transient (sample_compaction (calls + j) turns prompt timeout)) ∧
      (transient (sample_compaction (calls + k) turns prompt timeout) → S k = S left) ∧
      r = final_result (sample_compaction (calls + k) turns prompt timeout) (attempt + k)) as Hretry.
  { intros Ht Hlt. specialize (IH (S calls) (S attempt) ltac:(lia) ltac:(lia)).
    destruct (sample_from (S calls) _ _ _ _ _ _) as [trace r].
    destruct IH as (k & Hk & Hkl & Hb & Hlast & ->). intros o. exists (S k).
    rewrite Nat.add_succ_r, (Nat.add_succ_r attempt). split_and!; [simpl; lia|lia| |by intros; f_equal; apply Hlast|done].
    intros [|j] Hj; [by rewrite Nat.add_0_r|]. rewrite Nat.add_succ_r. apply Hb. lia. }
  assert (∀ o r, (transient (sample_compaction calls turns prompt timeout) → attempt = n) →
    r = final_result (sample_compaction calls turns prompt timeout) attempt →
    ∃ k, length [(attempt, o : FullReplaceAttemptOutcome)] = S k ∧ k < S left ∧
      (∀ j, j < k → transient (sample_compaction (calls + j) turns prompt timeout)) ∧
      (transient (sample_compaction (calls + k) turns prompt timeout) → S k = S left) ∧
      r = final_result (sample_compaction (calls + k) turns prompt timeout) (attempt + k)) as Hstop.
  { intros o r Ha Hr. exists 0. rewrite !Nat.add_0_r. split_and!; [done|lia|lia| |done]. intros Ht%Ha. lia. }
  destruct (sample_from (S calls) _ _ _ _ _ _) as [trace' r'].
  destruct (sample_compaction calls turns prompt timeout) as [o|e]; cbn [transient final_result fst snd] in *.
  - destruct (is_empty (trim (response o))) eqn:He; cbn [negb andb] in *;
      [|destruct (is_degenerate_summary (response o)) eqn:Hd; cbn [negb andb] in *].
    all: try (case_bool_decide as Hlt; [by apply Hretry; auto|apply Hstop; [lia|done]]).
    apply Hstop; [intros [?|?]; congruence|done].
  - destruct (is_deterministic e) eqn:Hd; cbn [orb negb andb] in *; [by apply Hstop; [intros []|]|].
    destruct (is_context_length_error (sample_error_display e)) eqn:Hc; cbn [negb andb] in *; [by apply Hstop; [intros []|]|].
    case_bool_decide as Hlt; [by apply Hretry|apply Hstop; [lia|done]].
Qed.

(** The retry loop calls the model at least once and at most the configured number
    of times; every call but the last was worth retrying, the last was not or there
    is no attempt left, and the last alone decides the result. *)
Theorem sample_retries_spec calls turns prompt max_attempts timeout :
  let '(trace, r) := sample_summary_with_retries calls turns prompt max_attempts timeout in
  ∃ k, length trace = S k ∧ S k ≤ attempts_of max_attempts ∧
    (∀ j, j < k → transient (sample_compaction (calls + j) turns prompt timeout)) ∧
    (transient (sample_compaction (calls + k) turns prompt timeout) → S k = attempts_of max_attempts) ∧
    r = final_result (sample_compaction (calls + k) turns prompt timeout) (S k).
Proof.
  unfold sample_summary_with_retries.
  assert (0 < attempts_of max_attempts) as Hp by (unfold attempts_of; lia).
  pose proof (sample_from_spec calls turns prompt timeout (attempts_of max_attempts) (attempts_of max_attempts) 1
    ltac:(lia) Hp) as H.
  destruct (sample_from _ _ _ _ _ _ _) as [trace r]. destruct H as (k & ? & ? & ? & ? & ->).
  exists k. split_and!; [done|lia|done|done|done].
Qed.

End Sample.
End Sample.

Module Export Reminder.

Record SubagentToolNames := MkToolNames { poll : string; cancel : string }.
Inductive TodoStatus := Pending | InProgress | Completed | Cancelled.
#[export] Instance TodoStatus_eq_dec : EqDecision TodoStatus.
Proof. solve_decision. Defined.

Definition is_actionable (s : TodoStatus) : bool :=
  match s with Pending | InProgress => true | _ => false end.
Definition todo_tag (s : TodoStatus) : string :=
  match s with
  | Pending => "[pending]"
  | InProgress => "[in_progress]"
  | Completed => "[completed]"
  | Cancelled => "[cancelled]"
  end.

Record TodoItem := MkTodo { todo_id : string; todo_content : string; todo_status : TodoStatus }.
Record BackgroundTask := MkTask {
  task_id : string; command : string; task_status : string; tool_name : option string }.
Record RunningSubagent := MkSubagent {
  subagent_id : string; subagent_type : option string; description : option string; elapsed_secs : N }.
Record ActiveAgentReminderState := MkActive {
  running_commands : list BackgroundTask; todos : list TodoItem; running_subagents : list RunningSubagent }.

Definition backtick : string := "`".

Definition task_line (t : BackgroundTask) : string :=
  "- " +:+ quote_str +:+ task_id t +:+ quote_str +:+ ": " +:+ backtick +:+ command t +:+ backtick +:+
  " (" +:+ task_status t +:+ match tool_name t with Some tool => ", " +:+ tool | None => "" end +:+ ")".

Definition section_background_tasks (tasks : list BackgroundTask) : option string :=
  match tasks with
  | [] => None
  | _ => Some ("## Running Background Tasks" +:+ newline +:+ "These tasks are still running:" +:+ newline +:+
               join newline (task_line <$> tasks))
  end.

Definition todo_line (t : TodoItem) : string :=
  "- " +:+ todo_tag (todo_status t) +:+ " " +:+ todo_id t +:+ ": " +:+ todo_content t.
Definition count_status (s : TodoStatus) (todos : list TodoItem) : nat :=
  length (filter (λ t, todo_status t = s) todos).

Definition section_todo_list (todos : list TodoItem) : option string :=
  let active := todo_line <$> filter (λ t, is_actionable (todo_status t) = true) todos in
  match active with
  | [] => None
  | _ =>
      let trailer :=
        match count_status Completed todos, count_status Cancelled todos with
        | 0, 0 => ""
        | c, 0 => newline +:+ "(" +:+ pretty c +:+ " completed)"
        | 0, k => newline +:+ "(" +:+ pretty k +:+ " cancelled)"
        | c, k => newline +:+ "(" +:+ pretty c +:+ " completed, " +:+ pretty k +:+ " cancelled)"
        end in
      Some ("## TODO List" +:+ newline +:+
        "This is your task list from before the conversation was compacted " +:+ str_of_bytes [226; 128; 148]%N +:+
        " it is still active. Keep working through the items below and update their status as you make progress:" +:+
        newline +:+ join newline active +:+ trailer)
  end.

Definition format_subagent_line (s : RunningSubagent) : string :=
  let head := "subagent_id: " +:+ backtick +:+ subagent_id s +:+ backtick in
  let head := match subagent_type s with
              | Some ty => head +:+ ", type: " +:+ backtick +:+ ty +:+ backtick | None => head end in
  let head := match description s with
              | Some desc => head +:+ ", task: " +:+ quote_str +:+ desc +:+ quote_str | None => head end in
  "- " +:+ head +:+ " (running for " +:+ pretty (elapsed_secs s) +:+ "s)".

Definition section_running_subagents (subagents : list RunningSubagent) (tools : SubagentToolNames) : option string :=
  match subagents with
  | [] => None
  | _ => Some ("## Running Subagents" +:+ newline +:+
      "These subagents were launched before this compaction and are still running. Use " +:+
      backtick +:+ poll tools +:+ backtick +:+
      " with the subagent_id to check their status or retrieve results. Use " +:+
      backtick +:+ cancel tools +:+ backtick +:+ " with the subagent_id to cancel a subagent." +:+ newline +:+
      join newline (format_subagent_line <$> subagents))
  end.

Definition format_active_agent_sections (st : ActiveAgentReminderState) (subagent_tools : option SubagentToolNames)
    : list string :=
  option_list (section_background_tasks (running_commands st)) ++
  option_list (section_todo_list (todos st)) ++
  option_list (tools ← subagent_tools; section_running_subagents (running_subagents st) tools).

Definition wrap_section (body s : string) : string :=
  if is_empty (trim s) then body
  else if is_empty body then s
  else body +:+ blank_line +:+ s.

Definition wrap_system_reminder (sections : list string) : option string :=
  let body := fold_left wrap_section sections "" in
  if is_empty body then None
  else Some ("<system-reminder>" +:+ newline +:+ body +:+ newline +:+ "</system-reminder>").

Definition format_active_agent_reminder (st : ActiveAgentReminderState) (subagent_tools : option SubagentToolNames)
    : option string :=
  wrap_system_reminder (format_active_agent_sections st subagent_tools).

Definition active_is_empty (st : ActiveAgentReminderState) : bool :=
  bool_decide (running_commands st = [] ∧ running_subagents st = []) &&
  negb (existsb (λ t, is_actionable (todo_status t)) (todos st)).

Definition append_reminder_block (summary : string) (reminder : option string) : string :=
  match reminder with
  | Some r => if negb (is_empty (trim r)) then summary +:+ blank_line +:+ r else summary
  | None => summary
  end.

(** ** Nothing active is lost *)

Lemma visible_section a s : plain_byte a = true → is_empty (trim (String a s)) = false.
Proof. apply trim_visible. Qed.

Lemma wrap_fold body ss :
  Forall (λ s, is_empty (trim s) = false) ss →
  (body = "" → fold_left wrap_section ss body = join blank_line ss) ∧
  (body ≠ "" → fold_left wrap_section ss body = body +:+ concat_str ((λ s, blank_line +:+ s) <$> ss)).
Proof.
  assert (∀ s ss, Forall (λ s, is_empty (trim s) = false) ss → s ≠ "" →
    fold_left wrap_section ss s = s +:+ concat_str ((λ s, blank_line +:+ s) <$> ss)) as Hne.
  { clear. intros s ss H. revert s. induction H as [|x ss Hx _ IH]; intros s Hs; [by rewrite app_nil_r_str|].
    cbn [fold_left]. unfold wrap_section at 2. rewrite Hx. destruct (is_empty s) eqn:Es; [by destruct s|].
    rewrite IH by (by destruct s). cbn [fmap list_fmap concat_str foldr]. by rewrite <-!app_assoc_str. }
  intros H. split; [|by apply Hne]. intros ->. destruct H as [|x ss Hx Hss]; [done|]. cbn [fold_left].
  unfold wrap_section at 2. rewrite Hx. simpl. rewrite Hne by (done || by intros ->).
  clear. revert x. induction ss as [|y ss IH]; intros x; [by rewrite app_nil_r_str|].
  change (join blank_line (x :: y :: ss)) with (x +:+ blank_line +:+ join blank_line (y :: ss)).
  assert (join blank_line (y :: ss) = y +:+ concat_str ((λ s, blank_line +:+ s) <$> ss)) as -> by (symmetry; apply IH).
  cbn [fmap list_fmap concat_str foldr]. by rewrite <-!app_assoc_str.
Qed.

Lemma contains_join p sep ss s : s ∈ ss → contains p s = true → contains p (join sep ss) = true.
Proof.
  intros Hs Hp. induction ss as [|x ss IH]; [by apply not_elem_of_nil in Hs|].
  destruct ss as [|y ss].
  - by apply list_elem_of_singleton in Hs as ->.
  - change (join sep (x :: y :: ss)) with (x +:+ sep +:+ join sep (y :: ss)).
    apply elem_of_cons in Hs as [->|Hs]; [by apply contains_app_l|].
    by apply contains_app_r, contains_app_r, IH.
Qed.

(** The line of everything that is still active is in the reminder: tasks and open
    todos always, sub-agents when their tools have a name. *)
Theorem active_agents_survive st tools line :
  (∃ t, t ∈ running_commands st ∧ line = task_line t) ∨
  (∃ t, t ∈ todos st ∧ is_actionable (todo_status t) = true ∧ line = todo_line t) ∨
  (is_Some tools ∧ ∃ a, a ∈ running_subagents st ∧ line = format_subagent_line a) →
  ∃ r, format_active_agent_reminder st tools = Some r ∧ contains line r = true.
Proof.
  intros Hline.
  assert (∃ s, s ∈ format_active_agent_sections st tools ∧ contains line s = true) as (s & Hs & Hc).
  { assert (∀ s : string, contains s s = true) as Hself.
    { intros s. apply contains_spec. exists "", "". by rewrite app_nil_r_str. }
    unfold format_active_agent_sections. destruct Hline as [(t & Ht & ->)|[(t & Ht & Ha & ->)|([tn ->] & a & Ha & ->)]].
    - destruct (running_commands st) as [|t0 ts] eqn:E; [by apply not_elem_of_nil in Ht|].
      eexists. split; [apply elem_of_app; left; by left|]. repeat apply contains_app_r.
      apply contains_join with (task_line t); [|apply Hself]. by apply list_elem_of_fmap_2.
    - unfold section_todo_list.
      assert (todo_line t ∈ todo_line <$> filter (λ t, is_actionable (todo_status t) = true) (todos st)) as Hin.
      { apply list_elem_of_fmap_2. by apply list_elem_of_filter. }
      destruct (todo_line <$> _) as [|l ls]; [by apply not_elem_of_nil in Hin|].
      eexists. split; [apply elem_of_app; right; apply elem_of_app; left; by left|].
      repeat first [apply contains_app_l; by apply contains_join with (todo_line t)|apply contains_app_r].
    - destruct (running_subagents st) as [|a0 al] eqn:E; [by apply not_elem_of_nil in Ha|].
      eexists. split; [apply elem_of_app; right; apply elem_of_app; right; by left|].
      repeat apply contains_app_r. apply contains_join with (format_subagent_line a); [|apply Hself].
      by apply list_elem_of_fmap_2. }
  assert (Forall (λ s, is_empty (trim s) = false) (format_active_agent_sections st tools)) as Hvis.
  { unfold format_active_agent_sections. apply Forall_app; split; [|apply Forall_app; split].
    - unfold section_background_tasks. destruct (running_commands st); repeat constructor. by apply trim_visible.
    - unfold section_todo_list. destruct (todo_line <$> _); repeat constructor. by apply trim_visible.
    - destruct tools as [tn|]; [|constructor]. simpl. unfold section_running_subagents.
      destruct (running_subagents st); repeat constructor. by apply trim_visible. }
  unfold format_active_agent_reminder, wrap_system_reminder.
  rewrite (proj1 (wrap_fold "" _ Hvis) eq_refl).
  assert (contains line (join blank_line (format_active_agent_sections st tools)) = true) as Hj
    by (by apply contains_join with s).
  destruct (is_empty _) eqn:Ee.
  - exfalso. destruct (format_active_agent_sections st tools) as [|x xs]; [by apply not_elem_of_nil in Hs|].
    apply Forall_cons in Hvis as [Hx _]. destruct x as [|a x]; [done|]. by destruct xs.
  - eexists. split; [done|]. apply contains_app_r, contains_app_r. by apply contains_app_l.
Qed.

End Reminder.

Module Export FullReplace.

(** What the assembler can make of an item. *)
Class CompactionItemFactory (T : Type) := {
  new_user : string → T;
  new_user_meta : string → T;
  new_project_instructions : string → T;
  new_system_reminder : string → T;
}.

Inductive SummaryPromptKind := Structured | SelfSummary.

Record FullReplaceConfig := MkFullReplace {
  fr_max_attempts : N; fr_retry_delay_secs : N; fr_sampling_timeout_secs : N }.
Definition full_replace_default : FullReplaceConfig := MkFullReplace 3 3 120.

Record FullReplaceContext (T : Type) := MkContext {
  system_message : T;
  user_message_prefix : string;
  agents_md_reminder : option string;
  last_user_query : option string;
  recent_messages : list T;
  system_reminder : option string;
  transcript_hint : option string;
}.
Arguments MkContext {T}.
Arguments system_message {T}.
Arguments user_message_prefix {T}.
Arguments agents_md_reminder {T}.
Arguments last_user_query {T}.
Arguments recent_messages {T}.
Arguments system_reminder {T}.
Arguments transcript_hint {T}.

Inductive FullReplaceError :=
| FrNothingToCompact
| FrEmptyResponse
| FrSampler (message : string) (deterministic context_overflow : bool).

(** The observer's terminal events. *)
Inductive FullReplaceEvent :=
| OnAttempt (attempt : nat) (outcome : FullReplaceAttemptOutcome)
| OnSuccess (attempts summary_chars : nat)
| OnError (attempts : nat).

Record FullReplaceOutput (T : Type) := MkReplaced { history : list T; raw_summary : string; attempts : nat }.
Arguments MkReplaced {T}.
Arguments history {T}.
Arguments raw_summary {T}.
Arguments attempts {T}.

Section FullReplace.
Context {T : Type} `{CompactionItemFactory T}.
Variable sample_compaction :
  nat → list T → CompactionPrompt → N → result CompactionSampleError LlmCompactionOutput.
(** The texts of the two prompt templates. *)
Variable full_replace_template self_summarization_prompt : string.

Definition build_summary_prompt (user_context : option string) : string :=
  let user_context_section :=
    match user_context with
    | Some context =>
        blank_line +:+ "**User-provided context for this compaction:**" +:+ newline +:+ context +:+ blank_line +:+
        "Please incorporate this context into your summary, ensuring it is prominently addressed in the relevant sections."
        +:+ blank_line
    | None => ""
    end in
  replace "{user_context_section}" user_context_section full_replace_template.

Definition build_summary_prompt_kind (kind : SummaryPromptKind) (user_context : option string) : string :=
  match kind with
  | Structured => build_summary_prompt user_context
  | SelfSummary =>
      match user_context with
      | Some ctx => self_summarization_prompt +:+ blank_line +:+ "<user_provided_context>" +:+ newline +:+ ctx +:+
          newline +:+ "</user_provided_context>" +:+ blank_line +:+
          "Incorporate the user-provided context above into your summary."
      | None => self_summarization_prompt
      end
  end.

(** The text of the item that carries the summary. *)
Definition summary_carrier (compaction_summary : string) (hint : option string) : string :=
  format_compact_summary_content compaction_summary +:+ default "" hint.

Definition assemble_compacted_history (ctx : FullReplaceContext T) (compaction_summary : string) : list T :=
  [system_message ctx; new_user_meta (user_message_prefix ctx)] ++
  option_list (new_project_instructions <$> agents_md_reminder ctx) ++
  option_list ((λ q, new_user (wrap_user_query q)) <$> last_user_query ctx) ++
  recent_messages ctx ++
  [new_user_meta (summary_carrier compaction_summary (transcript_hint ctx))] ++
  option_list (new_system_reminder <$> system_reminder ctx).

Definition attempt_events (trace : list (nat * FullReplaceAttemptOutcome)) : list FullReplaceEvent :=
  (λ p, OnAttempt p.1 p.2) <$> trace.

Definition sample_full_replace_summary (calls : nat) (llm_turns : list T) (user_context : option string)
    (config : FullReplaceConfig) : list FullReplaceEvent * result FullReplaceError SampledSummary :=
  if bool_decide (length llm_turns = 0) then ([], Err FrNothingToCompact)
  else
    let prompt := MkPrompt "" (build_summary_prompt user_context) in
    let '(trace, r) := sample_summary_with_retries sample_compaction calls llm_turns prompt
                         (fr_max_attempts config) (fr_sampling_timeout_secs config) in
    let events := attempt_events trace in
    match r with
    | Ok s => (events ++ [OnSuccess (sampled_attempts s) (length (chars (sampled_summary s)))], Ok s)
    | Err (RetryEmpty n) => (events ++ [OnError n], Err FrEmptyResponse)
    | Err (RetryFailure message deterministic context_overflow n) =>
        (events ++ [OnError n], Err (FrSampler message deterministic context_overflow))
    end.

Definition apply_full_replace_compaction (calls : nat) (llm_turns : list T) (user_context : option string)
    (ctx : FullReplaceContext T) (config : FullReplaceConfig)
    : list FullReplaceEvent * result FullReplaceError (FullReplaceOutput T) :=
  let '(events, r) := sample_full_replace_summary calls llm_turns user_context config in
  (events,
   s ← r;
   Ok (MkReplaced (assemble_compacted_history ctx (sampled_summary s)) (sampled_summary s) (sampled_attempts s))).

(** ** A pass that succeeds *)

Lemma full_replace_ok calls llm_turns user_context ctx config events out :
  apply_full_replace_compaction calls llm_turns user_context ctx config = (events, Ok out) →
  ∃ o k, k < attempts_of (fr_max_attempts config) ∧ attempts out = S k ∧
    sample_compaction (calls + k) llm_turns (MkPrompt "" (build_summary_prompt user_context))
      (fr_sampling_timeout_secs config) = Ok o ∧
    raw_summary out = response o ∧ is_degenerate_summary (response o) = false ∧
    history out = assemble_compacted_history ctx (response o).
Proof.
  unfold apply_full_replace_compaction, sample_full_replace_summary. case_bool_decide; [done|].
  pose proof (sample_retries_spec sample_compaction calls llm_turns
    (MkPrompt "" (build_summary_prompt user_context)) (fr_max_attempts config) (fr_sampling_timeout_secs config)) as Hs.
  destruct (sample_summary_with_retries _ _ _ _ _ _) as [trace r]. destruct Hs as (k & _ & Hk & _ & _ & ->).
  destruct (sample_compaction (calls + k) _ _ _) as [o|e] eqn:Eo; cbn [final_result]; [|done].
  destruct (negb (is_empty (trim (response o)))) eqn:He; [|done].
  destruct (negb (is_degenerate_summary (response o))) eqn:Hd; [|done]. cbn.
  intros [= <- <-]. exists o, k. apply negb_true_iff in Hd. split_and!; try done; try lia.
Qed.

(** When the pass succeeds, the rebuilt history begins with the unchanged system
    message and the user prefix, keeps the recent messages in order, and carries
    the summary of one of at most the configured number of calls: at least 500
    characters long, with no live control token. *)
Theorem full_replace_history_sound calls llm_turns user_context ctx config events out :
  apply_full_replace_compaction calls llm_turns user_context ctx config = (events, Ok out) →
  ∃ summary before after,
    1 ≤ attempts out ≤ attempts_of (fr_max_attempts config) ∧
    history out = [system_message ctx; new_user_meta (user_message_prefix ctx)] ++ before ++ recent_messages ctx ++
      [new_user_meta (summary +:+ default "" (transcript_hint ctx))] ++ after ∧
    MIN_SUMMARY_SEED_CHARS ≤ length (chars (format_compact_summary (raw_summary out))) ∧
    contains (format_compact_summary (raw_summary out)) summary = true ∧
    Forall (λ w, contains (tag w) summary = false) control_tokens.
Proof.
  intros Ho. destruct (full_replace_ok _ _ _ _ _ _ _ Ho) as (o & k & Hk & -> & _ & Hr & Hd & ->).
  rewrite Hr. eexists (format_compact_summary_content (response o)), _, _. split_and!; [lia|lia| | | |].
  - unfold assemble_compacted_history. rewrite (app_assoc (option_list (new_project_instructions <$> _))). done.
  - unfold is_degenerate_summary in Hd. apply bool_decide_eq_false in Hd. lia.
  - unfold format_compact_summary_content. repeat apply contains_app_r. apply contains_spec. exists "", "".
    by rewrite app_nil_r_str.
  - apply Forall_forall. intros w Hw. pose proof (seed_without_token (response o) w Hw) as Hn.
    unfold format_compact_summary_content, tag. rewrite !(contains_skip lt) by done. exact Hn.
Qed.

End FullReplace.
End FullReplace.

(** * Witnesses *)

Module Export CodeWitnesses.

Definition open_work : ActiveAgentReminderState :=
  MkActive [MkTask "bg-1" "npm run dev" "running" None] [MkTodo "t1" "ship" InProgress; MkTodo "t2" "plan" Completed] [].

Lemma active_agents_survive_witness :
  ∃ r, format_active_agent_reminder open_work None = Some r ∧ contains "- [in_progress] t1: ship" r = true.
Proof.
  apply (active_agents_survive open_work None "- [in_progress] t1: ship"). right. left.
  exists (MkTodo "t1" "ship" InProgress). split_and!; [by left|done|done].
Defined.

#[export] Instance text_factory : CompactionItemFactory string :=
  {| new_user s := s; new_user_meta s := s; new_project_instructions s := s; new_system_reminder s := s |}.

(** An answer that is long enough, after one that times out. *)
Definition long_answer : string := "Work so far: " +:+ concat_str (replicate 100 "detail ").
Definition slow_model (i : nat) (turns : list string) (p : CompactionPrompt) (timeout : N)
    : result CompactionSampleError LlmCompactionOutput :=
  match i with 0 => Err (SampleTimeout 120 0) | _ => Ok (MkOutput long_answer "") end.
Definition small_context : FullReplaceContext string :=
  MkContext "system" "prefix" None (Some "fix the bug") ["tool: ok"] None None.

Lemma full_replace_history_sound_witness :
  ∃ events out, apply_full_replace_compaction slow_model "summarize{user_context_section}" 0 ["fix the bug"] None
      small_context full_replace_default = (events, Ok out) ∧
    attempts out = 2 ∧ 1 ≤ attempts out ≤ attempts_of 3.
Proof.
  destruct (apply_full_replace_compaction slow_model "summarize{user_context_section}" 0 ["fix the bug"] None
    small_context full_replace_default) as [events [out|e]] eqn:E; [|by vm_compute in E].
  exists events, out. split; [done|].
  destruct (full_replace_history_sound slow_model "summarize{user_context_section}" 0 ["fix the bug"] None
    small_context full_replace_default events out E) as (s & b & a & Hb & _).
  split; [|exact Hb]. vm_compute in E. by injection E as _ <-.
Defined.

End CodeWitnesses.
