(* ===== verification/Conversation.v ===== *)
(** The conversation (crate [ainxt-sampling-types], [conversation.rs]): the items a
    session is made of, their constructors and text, what a response of the model
    contains, how a streamed or legacy reasoning text is spliced in, where a rewind
    cuts, and how the working directory of a forked session is rewritten. Items of
    the Responses API (crate [async-openai]) carry the fields the source reads; a
    JSON value is a [Json]. [Arc<str>] and [String] are strings of bytes. *)
From stdpp Require Import list gmap strings.
From S2P Require Import Prelude RustStr StrSearch Compaction CodeCompaction.

(** * Items *)

Module Export Items.

(** [types.rs], [Role]. *)
Module Role.
Inductive Role : Type := System | User | Assistant | Tool.
End Role.

(** [types.rs], [ReasoningEffort]. *)
Module Effort.
Inductive Effort : Type := None | Minimal | Low | Medium | High | Xhigh.
End Effort.
Definition ReasoningEffort : Type := Effort.Effort.

Definition effort_as_str (e : ReasoningEffort) : string :=
  match e with
  | Effort.None => "none" | Effort.Minimal => "minimal" | Effort.Low => "low"
  | Effort.Medium => "medium" | Effort.High => "high" | Effort.Xhigh => "xhigh"
  end.

Definition effort_to_messages_api (e : ReasoningEffort) : option string :=
  match e with
  | Effort.None | Effort.Minimal => None
  | Effort.Low => Some "low"
  | Effort.Medium => Some "medium"
  | Effort.High => Some "high"
  | Effort.Xhigh => Some "max"
  end.

(** [FromStr]: the tokens are ASCII, so lowering other letters does not matter. *)
Definition effort_from_str (s : string) : option ReasoningEffort :=
  let s := to_ascii_lowercase s in
  if bool_decide (s = "none") then Some Effort.None
  else if bool_decide (s = "minimal") then Some Effort.Minimal
  else if bool_decide (s = "low") then Some Effort.Low
  else if bool_decide (s = "medium") then Some Effort.Medium
  else if bool_decide (s = "high") then Some Effort.High
  else if bool_decide (s = "xhigh" ∨ s = "max") then Some Effort.Xhigh
  else None.

Inductive SyntheticReason : Type :=
| CompactionMeta | SystemReminder | ProjectInstructions | AutoContinue | AutoRecovery | Interjection
| TaskCompleted | SubagentCompleted | NotificationDrain | GoalSummary | GoalClassifierNudge
| SchedulerFired | UnknownReason.

Definition starts_prompt_turn (r : SyntheticReason) : bool :=
  match r with
  | TaskCompleted | SubagentCompleted | NotificationDrain | GoalClassifierNudge | SchedulerFired => true
  | CompactionMeta | SystemReminder | ProjectInstructions | AutoContinue | AutoRecovery | Interjection
  | GoalSummary | UnknownReason => false
  end.

Inductive PriorTurnInterrupt : Type := MidTurnAbort | PermissionRejected | PermissionCancelled | UnknownInterrupt.

Inductive ContentPart : Type :=
| Text (text : string)
| Image (url : string).

Record SystemItem : Type := MkSystem { system_content : string }.

Record UserItem : Type := MkUser {
  user_content : list ContentPart;
  synthetic_reason : option SyntheticReason;
  prior_turn_interrupt : option PriorTurnInterrupt;
  item_prompt_index : option nat;
}.

Record ToolCall : Type := MkCall { call_id : string; call_name : string; arguments : string }.

Record AssistantItem : Type := MkAssistant {
  assistant_content : string;
  tool_calls : list ToolCall;
  model_id : option string;
  model_fingerprint : option string;
  item_effort : option ReasoningEffort;
}.

Record ToolResultItem : Type := MkToolResult {
  tool_call_id : string;
  result_content : string;
  images : list ContentPart;
}.

(** [rs::WebSearchToolCall] and its action. *)
Inductive WebSearchAction : Type :=
| Search (query : string)
| OpenPage (url : option string)
| Find (pattern url : string)
| FindInPage (pattern url : string).
Record WebSearchToolCall : Type := MkWebSearch { ws_id : string; ws_action : WebSearchAction }.
(** [rs::CustomToolCall]. *)
Record CustomToolCall : Type := MkCustom { ct_id : string; ct_name : string; ct_input : string }.
(** [rs::CodeInterpreterToolCall]. *)
Record CodeInterpreterToolCall : Type := MkInterpreter { ci_id : string; ci_code : option string }.

Inductive BackendToolKind : Type :=
| WebSearch (ws : WebSearchToolCall)
| XSearch (ct : CustomToolCall)
| CodeInterpreter (ci : CodeInterpreterToolCall).

Record BackendToolCallItem : Type := MkBackend { kind : BackendToolKind }.

(** [rs::ReasoningItem]: summary parts and content blocks by their text. *)
Record ReasoningItem : Type := MkReasoning {
  reasoning_id : string;
  summary : list string;
  content : option (list string);
  encrypted_content : option string;
  status : option string;
}.

Inductive ConversationItem : Type :=
| System (s : SystemItem)
| User (u : UserItem)
| Assistant (a : AssistantItem)
| ToolResult (t : ToolResultItem)
| BackendToolCall (b : BackendToolCallItem)
| Reasoning (r : ReasoningItem).

#[export] Instance Effort_eq_dec : EqDecision Effort.Effort.
Proof. solve_decision. Defined.
#[export] Instance SyntheticReason_eq_dec : EqDecision SyntheticReason.
Proof. solve_decision. Defined.
#[export] Instance PriorTurnInterrupt_eq_dec : EqDecision PriorTurnInterrupt.
Proof. solve_decision. Defined.
#[export] Instance ContentPart_eq_dec : EqDecision ContentPart.
Proof. solve_decision. Defined.
#[export] Instance SystemItem_eq_dec : EqDecision SystemItem.
Proof. solve_decision. Defined.
#[export] Instance UserItem_eq_dec : EqDecision UserItem.
Proof. solve_decision. Defined.
#[export] Instance ToolCall_eq_dec : EqDecision ToolCall.
Proof. solve_decision. Defined.
#[export] Instance AssistantItem_eq_dec : EqDecision AssistantItem.
Proof. solve_decision. Defined.
#[export] Instance ToolResultItem_eq_dec : EqDecision ToolResultItem.
Proof. solve_decision. Defined.
#[export] Instance WebSearchAction_eq_dec : EqDecision WebSearchAction.
Proof. solve_decision. Defined.
#[export] Instance WebSearchToolCall_eq_dec : EqDecision WebSearchToolCall.
Proof. solve_decision. Defined.
#[export] Instance CustomToolCall_eq_dec : EqDecision CustomToolCall.
Proof. solve_decision. Defined.
#[export] Instance CodeInterpreterToolCall_eq_dec : EqDecision CodeInterpreterToolCall.
Proof. solve_decision. Defined.
#[export] Instance BackendToolKind_eq_dec : EqDecision BackendToolKind.
Proof. solve_decision. Defined.
#[export] Instance BackendToolCallItem_eq_dec : EqDecision BackendToolCallItem.
Proof. solve_decision. Defined.
#[export] Instance ReasoningItem_eq_dec : EqDecision ReasoningItem.
Proof. solve_decision. Defined.
#[export] Instance ConversationItem_eq_dec : EqDecision ConversationItem.
Proof. solve_decision. Defined.

Definition is_image (p : ContentPart) : bool := match p with Image _ => true | Text _ => false end.
Definition is_user (i : ConversationItem) : bool := match i with User _ => true | _ => false end.
Definition is_system (i : ConversationItem) : bool := match i with System _ => true | _ => false end.
Definition is_result (i : ConversationItem) : bool := match i with ToolResult _ => true | _ => false end.
Definition is_backend (i : ConversationItem) : bool := match i with BackendToolCall _ => true | _ => false end.
Definition is_reasoning (i : ConversationItem) : bool := match i with Reasoning _ => true | _ => false end.

End Items.

(** * Constructors and setters *)

Module Export Build.

Definition system (c : string) : ConversationItem := System (MkSystem c).

Definition user_synthetic (r : option SyntheticReason) (c : string) : ConversationItem :=
  User (MkUser [Text c] r None None).
Definition user : string → ConversationItem := user_synthetic None.
Definition user_with_parts (parts : list ContentPart) : ConversationItem := User (MkUser parts None None None).
Definition user_meta : string → ConversationItem := user_synthetic (Some CompactionMeta).
Definition system_reminder : string → ConversationItem := user_synthetic (Some SystemReminder).
Definition project_instructions : string → ConversationItem := user_synthetic (Some ProjectInstructions).
Definition auto_continue : string → ConversationItem := user_synthetic (Some AutoContinue).
Definition auto_recovery : string → ConversationItem := user_synthetic (Some AutoRecovery).
Definition interjection : string → ConversationItem := user_synthetic (Some Interjection).
Definition task_completed : string → ConversationItem := user_synthetic (Some TaskCompleted).
Definition subagent_completed : string → ConversationItem := user_synthetic (Some SubagentCompleted).
Definition notification_drain : string → ConversationItem := user_synthetic (Some NotificationDrain).
Definition goal_summary : string → ConversationItem := user_synthetic (Some GoalSummary).
Definition goal_classifier_nudge : string → ConversationItem := user_synthetic (Some GoalClassifierNudge).
Definition scheduler_fired : string → ConversationItem := user_synthetic (Some SchedulerFired).

Definition assistant (c : string) : ConversationItem := Assistant (MkAssistant c [] None None None).
Definition assistant_with_model (c model : string) : ConversationItem :=
  Assistant (MkAssistant c [] (Some model) None None).
Definition assistant_tool_calls (calls : list ToolCall) : ConversationItem :=
  Assistant (MkAssistant "" calls None None None).

Definition tool_result_with_images (tool_call_id c : string) (imgs : list ContentPart) : ConversationItem :=
  ToolResult (MkToolResult tool_call_id c imgs).
Definition tool_result (tool_call_id c : string) : ConversationItem := tool_result_with_images tool_call_id c [].

Definition role_of (i : ConversationItem) : Role.Role :=
  match i with
  | System _ => Role.System
  | User _ => Role.User
  | Assistant _ => Role.Assistant
  | ToolResult _ => Role.Tool
  | BackendToolCall _ => Role.Assistant
  | Reasoning _ => Role.Assistant
  end.

Definition user_add_image (url : string) (u : UserItem) : UserItem :=
  MkUser (user_content u ++ [Image url]) (synthetic_reason u) (prior_turn_interrupt u) (item_prompt_index u).
Definition add_image (url : string) (i : ConversationItem) : ConversationItem :=
  match i with User u => User (user_add_image url u) | i => i end.

Definition add_tool_call (c : ToolCall) (a : AssistantItem) : AssistantItem :=
  MkAssistant (assistant_content a) (tool_calls a ++ [c]) (model_id a) (model_fingerprint a) (item_effort a).
Definition assistant_with_model_id (m : string) (a : AssistantItem) : AssistantItem :=
  MkAssistant (assistant_content a) (tool_calls a) (Some m) (model_fingerprint a) (item_effort a).
Definition with_model_id (m : string) (i : ConversationItem) : ConversationItem :=
  match i with Assistant a => Assistant (assistant_with_model_id m a) | i => i end.

Definition set_prior_turn_interrupt (x : PriorTurnInterrupt) (i : ConversationItem) : ConversationItem :=
  match i with
  | User u => User (MkUser (user_content u) (synthetic_reason u) (Some x) (item_prompt_index u))
  | i => i
  end.
Definition set_prompt_index (n : nat) (i : ConversationItem) : ConversationItem :=
  match i with
  | User u => User (MkUser (user_content u) (synthetic_reason u) (prior_turn_interrupt u) (Some n))
  | i => i
  end.

End Build.

(** * The text of an item *)

Module Export ItemText.

(** [rs::SummaryPart]s and content blocks, in order. *)
Definition reasoning_item_text (r : ReasoningItem) : string :=
  join newline (summary r ++ default [] (content r)).

(** The first 100 bytes of the code, which Rust refuses to slice inside a
    character: [None] is the panic. *)
Definition code_preview (code : option string) : option string :=
  match code with
  | Some c =>
      if 100 <? String.length c then
        if is_char_boundary c 100 then Some (str_take 100 c +:+ "...") else None
      else Some c
  | None => Some ""
  end.

Definition action_desc (a : WebSearchAction) : string :=
  match a with
  | Search q => "search: " +:+ q
  | OpenPage url => "open: " +:+ default "?" url
  | Find pattern url | FindInPage pattern url =>
      "find " +:+ quote_str +:+ pattern +:+ quote_str +:+ " in " +:+ url
  end.

Definition text_summary (b : BackendToolCallItem) : option string :=
  match kind b with
  | WebSearch ws => Some ("[backend web_search] " +:+ action_desc (ws_action ws))
  | XSearch ct => Some ("[backend x_search] " +:+ ct_name ct +:+ "(" +:+ ct_input ct +:+ ")")
  | CodeInterpreter ci =>
      preview ← code_preview (ci_code ci); Some ("[backend code_interpreter] " +:+ preview)
  end.

Definition backend_id (b : BackendToolCallItem) : string :=
  match kind b with
  | WebSearch ws => ws_id ws
  | XSearch ct => ct_id ct
  | CodeInterpreter ci => ci_id ci
  end.

Definition part_text (p : ContentPart) : option string := match p with Text t => Some t | Image _ => None end.

Definition user_text (u : UserItem) : string := join newline (omap part_text (user_content u)).

(** [None] when the summary of a backend call panics. *)
Definition text_content (i : ConversationItem) : option string :=
  match i with
  | System s => Some (system_content s)
  | User u => Some (user_text u)
  | Assistant a => Some (assistant_content a)
  | ToolResult t => Some (result_content t)
  | BackendToolCall b => text_summary b
  | Reasoning r => Some (reasoning_item_text r)
  end.

(** The longest prefix of at most [max_bytes] bytes that ends at a character. *)
Fixpoint boundary_before (s : string) (end_ : nat) : nat :=
  if is_char_boundary s end_ then end_ else match end_ with 0 => 0 | S e => boundary_before s e end.
Definition truncate_bytes (s : string) (max_bytes : nat) : string :=
  if String.length s <=? max_bytes then s else str_take (boundary_before s max_bytes) s.

(** [strip_images], with the number of images it took away. *)
Definition IMAGE_REMOVED : string :=
  "[image removed " +:+ str_of_bytes [226; 128; 148]%N +:+ " conversation too large]".
Definition strip_image_part (placeholder : string) (p : ContentPart) : ContentPart :=
  match p with Image _ => Text placeholder | p => p end.
Definition set_content (u : UserItem) (parts : list ContentPart) : UserItem :=
  MkUser parts (synthetic_reason u) (prior_turn_interrupt u) (item_prompt_index u).
Definition count_images (parts : list ContentPart) : nat := length (filter (λ p, is_image p = true) parts).
Definition strip_item_images (i : ConversationItem) : ConversationItem * nat :=
  match i with
  | User u => (User (set_content u (strip_image_part IMAGE_REMOVED <$> user_content u)), count_images (user_content u))
  | ToolResult t => (ToolResult (MkToolResult (tool_call_id t) (result_content t) []), length (images t))
  | i => (i, 0)
  end.
Definition strip_request_images (items : list ConversationItem) : list ConversationItem * nat :=
  ((λ i, (strip_item_images i).1) <$> items, sum_list ((λ i, (strip_item_images i).2) <$> items)).

End ItemText.

(** * What the compaction engine sees of an item *)

Module Export Seam.

(** A panicking summary is no text here; the role [Developer] does not occur. *)
#[export] Instance conversation_compaction_item : CompactionItem ConversationItem := {
  item_role i := match role_of i with
                 | Role.System => Item.System
                 | Role.User => Item.User
                 | Role.Assistant => Item.Assistant
                 | Role.Tool => Item.Tool
                 end;
  item_text i := match text_content i with Some "" | None => None | Some t => Some t end;
  has_tool_requests i := match i with Assistant a => negb (bool_decide (tool_calls a = [])) | _ => false end;
  is_compaction_summary _ := false;
  attachment_refs _ := [];
}.

#[export] Instance conversation_factory : CompactionItemFactory ConversationItem := {
  new_user := user;
  new_user_meta := user_meta;
  new_project_instructions := project_instructions;
  new_system_reminder := system_reminder;
}.

End Seam.

(** * The response of a turn *)

Module Export Response.

Inductive StopReason : Type := Stop | Length | ToolCalls | ContentFilter.
Definition stop_reason_as_str (r : StopReason) : string :=
  match r with
  | Stop => "stop" | Length => "length" | ToolCalls => "tool_calls" | ContentFilter => "content_filter"
  end.

(** [u32] counters. *)
Record TokenUsage : Type := MkTokenUsage {
  prompt_tokens : N;
  completion_tokens : N;
  usage_total_tokens : N;
  usage_reasoning_tokens : N;
  cached_prompt_tokens : N;
  usage_cache_write_tokens : N;
}.

(** [types.rs], [Usage]: the chat-completions counters, with their optional details. *)
Record Usage : Type := MkUsage {
  wire_prompt_tokens : N;
  wire_completion_tokens : N;
  wire_total_tokens : N;
  wire_cached_tokens : option N;
  wire_reasoning_tokens : option N;
}.
Definition token_usage_from (u : Usage) : TokenUsage :=
  MkTokenUsage (wire_prompt_tokens u) (wire_completion_tokens u) (wire_total_tokens u)
    (default 0%N (wire_reasoning_tokens u)) (default 0%N (wire_cached_tokens u)) 0.

(** The items of a response; the counters beside them are read where they are used. *)
Record ConversationResponse : Type := MkResponse {
  response_items : list ConversationItem;
  stop_reason : option StopReason;
  usage : option TokenUsage;
  cost_usd_ticks : option Z;
  message_chunks_emitted : N;
  stop_message : option string;
}.

Definition reported_cost_ticks (raw : option Z) : option Z :=
  match raw with Some t => if (0 <? t)%Z then Some t else None | None => None end.

Definition as_assistant (i : ConversationItem) : option AssistantItem :=
  match i with Assistant a => Some a | _ => None end.
Definition as_reasoning (i : ConversationItem) : option ReasoningItem :=
  match i with Reasoning r => Some r | _ => None end.

Definition response_assistant (r : ConversationResponse) : option AssistantItem :=
  last (omap as_assistant (response_items r)).
Definition assistant_text (r : ConversationResponse) : string :=
  default "" (assistant_content <$> response_assistant r).
Definition reasoning_items (r : ConversationResponse) : list ReasoningItem := omap as_reasoning (response_items r).
Definition backend_tool_items (r : ConversationResponse) : list ConversationItem :=
  filter (λ i, is_backend i = true) (response_items r).

Inductive EmptyReason : Type := NoVisibleContent | ReasoningOnly.

Definition empty_reason (r : ConversationResponse) : option EmptyReason :=
  match response_assistant r with
  | None => Some NoVisibleContent
  | Some a =>
      if negb (is_empty (assistant_content a)) || negb (bool_decide (tool_calls a = [])) then None
      else if existsb (λ x, negb (bool_decide (summary x = [])) || bool_decide (is_Some (content x))
                            || bool_decide (is_Some (encrypted_content x))) (reasoning_items r)
      then Some ReasoningOnly else Some NoVisibleContent
  end.
Definition response_is_empty (r : ConversationResponse) : bool := bool_decide (is_Some (empty_reason r)).
Definition response_tool_calls (r : ConversationResponse) : list ToolCall :=
  default [] (tool_calls <$> response_assistant r).
Definition fallback_text (r : ConversationResponse) : option string :=
  if (0 <? message_chunks_emitted r)%N then None
  else if is_empty (assistant_text r) then None else Some (assistant_text r).

End Response.

(** * Reasoning: streamed fallback and legacy rows *)

(** [serde_json::Value]; an object keeps its entries in order, and a number its text. *)
Inductive Json : Type :=
| JNull
| JBool (b : bool)
| JNumber (text : string)
| JString (s : string)
| JArray (l : list Json)
| JObject (fields : list (string * Json)).

Module Export JsonAccess.

(** [Value::get], [as_str], [as_array], [as_object]; the last of equal keys counts. *)
Definition lookup_key (k : string) (fields : list (string * Json)) : option Json :=
  last ((filter (λ f, f.1 = k) fields).*2).
Definition as_str (j : Json) : option string := match j with JString s => Some s | _ => None end.
Definition as_array (j : Json) : option (list Json) := match j with JArray l => Some l | _ => None end.
Definition as_object (j : Json) : option (list (string * Json)) := match j with JObject f => Some f | _ => None end.

End JsonAccess.

Module Export Splice.

Definition synthesized_reasoning_item (text : string) : ReasoningItem :=
  MkReasoning "" [text] None None None.

Definition add_summary (text : string) (r : ReasoningItem) : ReasoningItem :=
  MkReasoning (reasoning_id r) (summary r ++ [text]) (content r) (encrypted_content r) (status r).

Definition summary_has_text (i : ConversationItem) : bool :=
  match i with Reasoning r => existsb (λ t, negb (is_empty t)) (summary r) | _ => false end.

(** The last assistant item, by position. *)
Fixpoint rposition (f : ConversationItem → bool) (l : list ConversationItem) : option nat :=
  match l with
  | [] => None
  | i :: l => match rposition f l with Some n => Some (S n) | None => if f i then Some 0 else None end
  end.
Definition is_assistant (i : ConversationItem) : bool := bool_decide (is_Some (as_assistant i)).

Definition inject_streaming_reasoning_fallback (items : list ConversationItem) (text : string)
  : list ConversationItem :=
  if is_empty text then items
  else if existsb summary_has_text items then items
  else match list_find (λ i, is_reasoning i = true) items with
       | Some (idx, _) =>
           alter (λ i, match i with Reasoning r => Reasoning (add_summary text r) | i => i end) idx items
       | None =>
           let pos := default (length items) (rposition is_assistant items) in
           take pos items ++ Reasoning (synthesized_reasoning_item text) :: drop pos items
       end.

(** [rs::OutputItem], by what the source reads of it. *)
Inductive OutputItem : Type :=
| OutMessage (texts : list (option string))
| OutFunctionCall (call_id name arguments : string)
| OutReasoning (r : ReasoningItem)
| OutWebSearch (ws : WebSearchToolCall)
| OutCustom (ct : CustomToolCall)
| OutInterpreter (ci : CodeInterpreterToolCall)
| OutMcp
| OutOther.

Definition backend (k : BackendToolKind) : ConversationItem := BackendToolCall (MkBackend k).

Definition nonempty (t : option string) : option string :=
  match t with Some "" => None | t => t end.

Definition build_synthetic_reasoning (id : string) (text encrypted : option string) : option ReasoningItem :=
  match nonempty text, nonempty encrypted with
  | None, None => None
  | t, e => Some (MkReasoning id (match t with Some t => [t] | None => [] end) None e None)
  end.

(** Reading a legacy row needs [serde_json::from_value::<rs::OutputItem>]. *)
Section Legacy.
Context (output_item : Json → option OutputItem).

Definition legacy_backend (id : string) (k : BackendToolKind) (acc : list ConversationItem * list string)
  : list ConversationItem * list string :=
  if bool_decide (id ∈ acc.2) then acc else (acc.1 ++ [backend k], acc.2 ++ [id]).

Definition legacy_entry (acc : list ConversationItem * list string) (entry : Json)
  : list ConversationItem * list string :=
  match output_item entry with
  | Some (OutReasoning r) => (acc.1 ++ [Reasoning r], acc.2)
  | Some (OutWebSearch ws) => legacy_backend (ws_id ws) (WebSearch ws) acc
  | Some (OutCustom ct) => legacy_backend (ct_id ct) (XSearch ct) acc
  | Some (OutInterpreter ci) => legacy_backend (ci_id ci) (CodeInterpreter ci) acc
  | _ => acc
  end.

Definition str_field (k : string) (fields : list (string * Json)) : option string := lookup_key k fields ≫= as_str.

(** The siblings of a row, and the backend call ids seen so far. *)
Definition upgrade_legacy_reasoning (raw : Json) (seen : list string) : list ConversationItem * list string :=
  match as_object raw with
  | None => ([], seen)
  | Some obj =>
      let v1 := bool_decide (str_field "type" obj = Some "assistant") in
      let v0 := bool_decide (str_field "role" obj = Some "assistant") in
      if negb v1 && negb v0 then ([], seen)
      else match lookup_key "raw_output" obj ≫= as_array with
      | Some raw_output => fold_left legacy_entry raw_output ([], seen)
      | None =>
          match (if v1 then lookup_key "reasoning" obj ≫= as_object else None) with
          | Some r =>
              (Reasoning <$> option_list (build_synthetic_reasoning (default "" (str_field "id" r))
                                            (str_field "text" r) (str_field "encrypted" r)), seen)
          | None =>
              match (if v0 then str_field "reasoning_content" obj else None) with
              | Some rc => (Reasoning <$> option_list (build_synthetic_reasoning "" (nonempty (Some rc)) None), seen)
              | None => ([], seen)
              end
          end
      end
  end.

End Legacy.

End Splice.

(** * Responses API: from the model and back to it *)

Module Export Responses.

(** [rs::Response], by what the source reads of it. *)
Record RsResponse : Type := MkRsResponse {
  rs_model : string;
  rs_fingerprint : option string;
  rs_effort : option ReasoningEffort;
  rs_output : list OutputItem;
}.

(** The items, the text and the tool calls collected so far. *)
Record Collected : Type := MkCollected {
  collected_items : list ConversationItem;
  collected_text : string;
  collected_calls : list ToolCall;
}.

Definition push_text (content : string) (t : string) : string :=
  if is_empty content then t else content +:+ newline +:+ t.

Definition collect_output (acc : Collected) (o : OutputItem) : Collected :=
  let push i := MkCollected (collected_items acc ++ [i]) (collected_text acc) (collected_calls acc) in
  match o with
  | OutMessage texts =>
      MkCollected (collected_items acc) (fold_left push_text (omap Datatypes.id texts) (collected_text acc)) (collected_calls acc)
  | OutFunctionCall id name args =>
      MkCollected (collected_items acc) (collected_text acc) (collected_calls acc ++ [MkCall id name args])
  | OutReasoning r => push (Reasoning r)
  | OutWebSearch ws => push (backend (WebSearch ws))
  | OutCustom ct => push (backend (XSearch ct))
  | OutInterpreter ci => push (backend (CodeInterpreter ci))
  | OutMcp | OutOther => acc
  end.

Definition response_to_conversation_items (r : RsResponse) : list ConversationItem :=
  let acc := fold_left collect_output (rs_output r) (MkCollected [] "" []) in
  collected_items acc ++
  [Assistant (MkAssistant (collected_text acc) (collected_calls acc) (Some (rs_model r))
     (nonempty (rs_fingerprint r)) (rs_effort r))].

(** [rs::InputItem]s. *)
Inductive InputContent : Type := InputText (text : string) | InputImage (url : string).
Inductive EasyInputContent : Type := EasyText (text : string) | ContentList (parts : list InputContent).
Inductive InputItem : Type :=
| EasyMessage (role : Role.Role) (content : EasyInputContent)
| InReasoning (r : ReasoningItem)
| InFunctionCall (call_id name arguments : string)
| InFunctionCallOutput (call_id : string) (output : EasyInputContent)
| InWebSearch (ws : WebSearchToolCall)
| InCustom (ct : CustomToolCall)
| InInterpreter (ci : CodeInterpreterToolCall).

Definition input_content (p : ContentPart) : InputContent :=
  match p with Text t => InputText t | Image u => InputImage u end.

Definition content_parts_to_easy_input_content (parts : list ContentPart) : EasyInputContent :=
  match parts with
  | [Text t] => EasyText t
  | parts => ContentList (input_content <$> parts)
  end.

Definition image_url (p : ContentPart) : option string := match p with Image u => Some u | Text _ => None end.

Section Arguments.
(** Whether [serde_json] accepts a string. *)
Context (valid_json : string → bool).

Definition sanitize_tool_arguments (arguments : string) : string := if valid_json arguments then arguments else "{}".

Definition conversation_item_to_input_items (i : ConversationItem) : list InputItem :=
  match i with
  | System s => [EasyMessage Role.System (EasyText (system_content s))]
  | User u => [EasyMessage Role.User (content_parts_to_easy_input_content (user_content u))]
  | Reasoning r => [InReasoning (MkReasoning (reasoning_id r) (summary r) (content r) (encrypted_content r) None)]
  | Assistant a =>
      (if is_empty (assistant_content a) then []
       else [EasyMessage Role.Assistant (EasyText (assistant_content a))]) ++
      ((λ tc, InFunctionCall (call_id tc) (call_name tc) (sanitize_tool_arguments (arguments tc))) <$> tool_calls a)
  | ToolResult t =>
      [InFunctionCallOutput (tool_call_id t)
         (match images t with
          | [] => EasyText (result_content t)
          | imgs => ContentList (InputText (result_content t) :: (InputImage <$> omap image_url imgs))
          end)]
  | BackendToolCall b =>
      [match kind b with
       | WebSearch ws => InWebSearch ws
       | XSearch ct => InCustom ct
       | CodeInterpreter ci => InInterpreter ci
       end]
  end.

Definition build_responses_input (items : list ConversationItem) : list InputItem :=
  items ≫= conversation_item_to_input_items.

End Arguments.

(** The discriminator that the serialized reasoning texts lack. *)
Definition with_type (c : Json) : Json :=
  match c with
  | JObject f => match lookup_key "type" f with
                 | Some _ => c
                 | None => JObject (f ++ [("type", JString "reasoning_text")])
                 end
  | c => c
  end.
Definition map_field (k : string) (f : Json → Json) (fields : list (string * Json)) : list (string * Json) :=
  (λ e, if bool_decide (e.1 = k) then (e.1, f e.2) else e) <$> fields.
Definition map_array (f : Json → Json) (j : Json) : Json := match j with JArray l => JArray (f <$> l) | j => j end.
Definition patch_reasoning_item (item : Json) : Json :=
  match item with
  | JObject f =>
      if bool_decide (str_field "type" f = Some "reasoning") then JObject (map_field "content" (map_array with_type) f)
      else item
  | item => item
  end.
Definition patch_reasoning_text_types (body : Json) : Json :=
  match body with
  | JObject f => JObject (map_field "input" (map_array patch_reasoning_item) f)
  | body => body
  end.

(** [ToolSpec] and the tools the backend hosts. *)
Record ToolSpec : Type := MkToolSpec { tool_name : string; description : option string; parameters : Json }.
Inductive HostedTool : Type := HostedWebSearch (allowed_domains : option (list string)) | HostedXSearch.
Definition wire_name (h : HostedTool) : string :=
  match h with HostedWebSearch _ => "web_search" | HostedXSearch => "x_search" end.
Inductive RsTool : Type := RsFunction (t : ToolSpec) | RsWebSearch (allowed_domains : option (list string)).

Definition build_responses_tools (tools : list ToolSpec) (hosted : list HostedTool) : list RsTool :=
  (RsFunction <$> filter (λ t, existsb (λ h, bool_decide (wire_name h = tool_name t)) hosted = false) tools) ++
  omap (λ h, match h with HostedWebSearch d => Some (RsWebSearch d) | HostedXSearch => None end) hosted.

Definition extra_raw_tools (hosted : list HostedTool) : list Json :=
  omap (λ h, match h with HostedXSearch => Some (JObject [("type", JString "x_search")]) | HostedWebSearch _ => None end) hosted.

End Responses.

(** * Where a rewind cuts *)

Module Export Rewind.

(** The scan of a rewind: the first index a user item opens that reaches the target. *)
Section Cut.
Context {St : Type} (effective : St → UserItem → option nat * St) (target : nat).

Fixpoint cut_from (i : nat) (st : St) (conversation : list ConversationItem) : nat :=
  match conversation with
  | [] => i
  | User u :: rest =>
      match effective st u with
      | (Some idx, st) => if target <=? idx then i else cut_from (S i) st rest
      | (None, st) => cut_from (S i) st rest
      end
  | _ :: rest => cut_from (S i) st rest
  end.

End Cut.

(** An item without a marker: the first that is not synthetic is the preamble. *)
Definition unmarked_index (seen_preamble : bool) (next : nat) (u : UserItem) : option nat * bool :=
  match synthetic_reason u with
  | None => if seen_preamble then (Some next, true) else (None, true)
  | Some r => (if starts_prompt_turn r then Some next else None, seen_preamble)
  end.

Definition markers_only (_ : unit) (u : UserItem) : option nat * unit := (item_prompt_index u, tt).
Definition conversation_truncate_markers_only (conversation : list ConversationItem) (target : nat) : nat :=
  cut_from markers_only target 0 tt conversation.

(** The next index and whether the preamble was seen. *)
Definition legacy_step (st : nat * bool) (u : UserItem) : option nat * (nat * bool) :=
  let (idx, seen) := unmarked_index st.2 st.1 u in
  (idx, (match idx with Some n => S n | None => st.1 end, seen)).
Definition conversation_truncate_legacy (conversation : list ConversationItem) (target : nat) : nat :=
  cut_from legacy_step target 0 (0, false) conversation.

Fixpoint count_legacy_from (turns : nat) (seen_preamble : bool) (conversation : list ConversationItem) : nat :=
  match conversation with
  | [] => turns
  | User u :: rest =>
      match item_prompt_index u with
      | Some _ => turns
      | None => let (idx, seen) := unmarked_index seen_preamble turns u in
                count_legacy_from (match idx with Some n => S n | None => turns end) seen rest
      end
  | _ :: rest => count_legacy_from turns seen_preamble rest
  end.
Definition count_legacy_turns_until_marker (conversation : list ConversationItem) : nat :=
  count_legacy_from 0 false conversation.

(** The next index, whether the preamble and whether a marker was seen. *)
Definition progressive_step (st : nat * bool * bool) (u : UserItem) : option nat * (nat * bool * bool) :=
  let '(next, seen, marker) := st in
  match item_prompt_index u with
  | Some idx => (Some idx, (next, seen, true))
  | None =>
      if marker then (None, st)
      else let (idx, seen) := unmarked_index seen next u in
           (idx, (match idx with Some n => S n | None => next end, seen, marker))
  end.
Definition conversation_truncate_progressive (conversation : list ConversationItem) (target : nat) : nat :=
  cut_from progressive_step target 0 (0, false, false) conversation.

Definition marker_of (i : ConversationItem) : option nat := match i with User u => item_prompt_index u | _ => None end.

Definition conversation_truncate_for_prompt (conversation : list ConversationItem) (target_prompt_index : nat) : nat :=
  match head (omap marker_of conversation) with
  | None => conversation_truncate_legacy conversation target_prompt_index
  | Some first_marker_idx =>
      if bool_decide (count_legacy_turns_until_marker conversation ≠ first_marker_idx)
      then conversation_truncate_markers_only conversation target_prompt_index
      else conversation_truncate_progressive conversation target_prompt_index
  end.

End Rewind.

(** * Forking into another working directory *)

Module Export ForkCwd.

(** [replace] also leaves a text without the directory as it is. *)
Definition move_text (source_cwd target_cwd : string) (t : string) : string :=
  if contains source_cwd t then replace source_cwd target_cwd t else t.

Definition move_part (mv : string → string) (p : ContentPart) : ContentPart :=
  match p with Text t => Text (mv t) | Image u => Image u end.
Definition move_call (mv : string → string) (c : ToolCall) : ToolCall := MkCall (call_id c) (call_name c) (mv (arguments c)).

Definition move_item (mv : string → string) (i : ConversationItem) : ConversationItem :=
  match i with
  | System s => System (MkSystem (mv (system_content s)))
  | User u => User (set_content u (move_part mv <$> user_content u))
  | Assistant a => Assistant (MkAssistant (mv (assistant_content a)) (move_call mv <$> tool_calls a)
                                (model_id a) (model_fingerprint a) (item_effort a))
  | ToolResult t => ToolResult (MkToolResult (tool_call_id t) (mv (result_content t)) (images t))
  | BackendToolCall b => BackendToolCall b
  | Reasoning r => Reasoning (MkReasoning (reasoning_id r) (mv <$> summary r) (fmap (M := list) mv <$> content r)
                                (encrypted_content r) (status r))
  end.

Definition transform_conversation_cwd (items : list ConversationItem) (source_cwd target_cwd : string)
  : list ConversationItem := move_item (move_text source_cwd target_cwd) <$> items.

End ForkCwd.
