(* ===== verification/ConversationRepair.v ===== *)
(** Repairing a conversation's tool calls (crates [ainxt-sampling-types],
    [conversation.rs], and [ainxt-chat-state], [compaction_utils.rs]): synthetic
    results for unanswered calls, dropping results that a later one supersedes,
    stripping results that do not follow their call, the whole history repair and
    its report, and the weaker check of a compacted history. A conversation is seen
    as blocks, an item with the results that follow it, on which each repair acts. *)
From stdpp Require Import list gmap strings.
From S2P Require Import Prelude RustStr StrSearch Conversation.

(** * The repairs as the code runs them *)

Module Export Repairs.

Inductive DanglingToolCallReason : Type :=
| UserCancelled
| HarnessHalted (class : string).

Definition backquote (s : string) : string := "`" +:+ s +:+ "`".

Definition synthetic_dangling_result_text (name : string) (reason : DanglingToolCallReason) : string :=
  match reason with
  | UserCancelled =>
      "Tool execution was cancelled by the user (tool " +:+ backquote name +:+ " was not executed)."
  | HarnessHalted class =>
      "Tool execution was halted by the harness (" +:+ class +:+ "); the tool " +:+ backquote name +:+
      " was not executed."
  end.

(** The results at the front of a conversation, and their call ids. *)
Fixpoint take_results (l : list ConversationItem) : list ConversationItem :=
  match l with ToolResult t :: l => ToolResult t :: take_results l | _ => [] end.
Definition result_id (i : ConversationItem) : option string :=
  match i with ToolResult t => Some (tool_call_id t) | _ => None end.
Definition result_ids (l : list ConversationItem) : list string := omap result_id l.

Definition synthetic_results (reason : DanglingToolCallReason) (a : AssistantItem) (run : list ConversationItem)
  : list ConversationItem :=
  (λ tc, tool_result (call_id tc) (synthetic_dangling_result_text (call_name tc) reason)) <$>
  filter (λ tc, call_id tc ∉ result_ids run) (tool_calls a).

(** Phase 1: where to insert what. [rest] is the conversation from index [i] on. *)
Fixpoint scan_repairs (fuel : nat) (reason : DanglingToolCallReason) (i : nat) (rest : list ConversationItem)
  : list (nat * list ConversationItem) :=
  match fuel, rest with
  | S fuel, Assistant a :: tl =>
      if bool_decide (tool_calls a = []) then scan_repairs fuel reason (S i) tl
      else
        let run := take_results tl in
        let j := S i + length run in
        let synthetic := synthetic_results reason a run in
        (if bool_decide (synthetic = []) then [] else [(j, synthetic)]) ++
        scan_repairs fuel reason j (drop (length run) tl)
  | S fuel, _ :: tl => scan_repairs fuel reason (S i) tl
  | _, _ => []
  end.

Definition splice (at_ : nat) (x l : list ConversationItem) : list ConversationItem := take at_ l ++ x ++ drop at_ l.

(** Phase 2 applies the repairs from the last one back. *)
Definition repair_dangling_tool_calls (conversation : list ConversationItem) (reason : DanglingToolCallReason)
  : list ConversationItem * nat :=
  let repairs := scan_repairs (length conversation) reason 0 conversation in
  (fold_left (λ c r, splice r.1 r.2 c) (reverse repairs) conversation,
   sum_list ((λ r, length r.2) <$> repairs)).

Fixpoint dangling_from (fuel : nat) (rest : list ConversationItem) : bool :=
  match fuel, rest with
  | S fuel, Assistant a :: tl =>
      if bool_decide (tool_calls a = []) then dangling_from fuel tl
      else
        let run := take_results tl in
        if existsb (λ tc, negb (bool_decide (call_id tc ∈ result_ids run))) (tool_calls a) then true
        else dangling_from fuel (drop (length run) tl)
  | S fuel, _ :: tl => dangling_from fuel tl
  | _, _ => false
  end.
Definition has_dangling_tool_calls (conversation : list ConversationItem) : bool :=
  dangling_from (length conversation) conversation.

(** The positions in a run that a later result of the same call supersedes, with
    the position each call id was last seen at. *)
Fixpoint superseded_from (idx : nat) (seen : gmap string nat) (run : list ConversationItem) : list nat :=
  match run with
  | ToolResult t :: run =>
      option_list (seen !! tool_call_id t) ++ superseded_from (S idx) (<[tool_call_id t := idx]> seen) run
  | _ :: run => superseded_from (S idx) seen run
  | [] => []
  end.

(** Removing from the highest index down. *)
Definition remove_positions (to_remove : list nat) (l : list ConversationItem) : list ConversationItem :=
  fold_left (λ l idx, take idx l ++ drop (S idx) l) (reverse (sort_by Nat.leb to_remove)) l.

(** The conversation, the current index and the number of removed results. *)
Fixpoint dedup_loop (fuel : nat) (conversation : list ConversationItem) (i : nat) (total : nat)
  : option (list ConversationItem * nat) :=
  match fuel with
  | 0 => None
  | S fuel =>
      match drop i conversation with
      | [] => Some (conversation, total)
      | Assistant a :: tl =>
          if bool_decide (tool_calls a = []) then dedup_loop fuel conversation (S i) total
          else
            let run := take_results tl in
            match superseded_from (S i) ∅ run with
            | [] => dedup_loop fuel conversation (S i + length run) total
            | to_remove => dedup_loop fuel (remove_positions to_remove conversation) i (total + length to_remove)
            end
      | _ :: _ => dedup_loop fuel conversation (S i) total
      end
  end.
Definition dedup_fuel (conversation : list ConversationItem) : nat := S (2 * length conversation).
Definition dedup_duplicate_tool_results (conversation : list ConversationItem) : list ConversationItem * nat :=
  default (conversation, 0) (dedup_loop (dedup_fuel conversation) conversation 0 0).

(** The call ids a result may answer here, and what was stripped. *)
Definition call_ids (a : AssistantItem) : list string := call_id <$> tool_calls a.

Fixpoint strip_from (run_ids : list string) (items : list ConversationItem)
  : list ConversationItem * list string :=
  match items with
  | [] => ([], [])
  | Assistant a :: items => let r := strip_from (call_ids a) items in (Assistant a :: r.1, r.2)
  | ToolResult t :: items =>
      let r := strip_from run_ids items in
      if bool_decide (tool_call_id t ∈ run_ids) then (ToolResult t :: r.1, r.2) else (r.1, tool_call_id t :: r.2)
  | i :: items => let r := strip_from [] items in (i :: r.1, r.2)
  end.
Definition strip_displaced_tool_results (items : list ConversationItem) : list ConversationItem * list string :=
  strip_from [] items.

Record HistoryRepairReport : Type := MkReport {
  duplicates_removed : nat;
  stripped_tool_result_ids : list string;
  synthetic_results_inserted : nat;
}.
Definition changed (r : HistoryRepairReport) : bool :=
  (0 <? duplicates_removed r) || negb (bool_decide (stripped_tool_result_ids r = []))
  || (0 <? synthetic_results_inserted r).

Definition repair_history (items : list ConversationItem) : list ConversationItem * HistoryRepairReport :=
  let (items, duplicates) := dedup_duplicate_tool_results items in
  let (items, stripped) := strip_displaced_tool_results items in
  let (items, synthetic) := repair_dangling_tool_calls items (HarnessHalted "history_repair") in
  (items, MkReport duplicates stripped synthetic).

(** The check and the repair of a compacted history: a call anywhere before will do. *)
Fixpoint validate_from (seen_ids : list string) (items : list ConversationItem) : list string :=
  match items with
  | [] => []
  | Assistant a :: items => validate_from (seen_ids ++ call_ids a) items
  | ToolResult t :: items =>
      (if bool_decide (tool_call_id t ∈ seen_ids) then [] else [tool_call_id t]) ++ validate_from seen_ids items
  | _ :: items => validate_from seen_ids items
  end.
Definition validate_compacted_history (items : list ConversationItem) : list string := validate_from [] items.

Fixpoint sanitize_from (seen_ids : list string) (items : list ConversationItem)
  : list ConversationItem * list string :=
  match items with
  | [] => ([], [])
  | Assistant a :: items =>
      let r := sanitize_from (seen_ids ++ call_ids a) items in (Assistant a :: r.1, r.2)
  | ToolResult t :: items =>
      let r := sanitize_from seen_ids items in
      if bool_decide (tool_call_id t ∈ seen_ids) then (ToolResult t :: r.1, r.2) else (r.1, tool_call_id t :: r.2)
  | i :: items => let r := sanitize_from seen_ids items in (i :: r.1, r.2)
  end.
Definition sanitize_compacted_history (items : list ConversationItem) : list ConversationItem * list string :=
  sanitize_from [] items.

End Repairs.

(** * Conversations as blocks *)

Module Export Blocks.

(** An item that is not a result, with the results that follow it. *)
Definition Block : Type := ConversationItem * list ToolResultItem.
Definition block_items (b : Block) : list ConversationItem := b.1 :: (ToolResult <$> b.2).
Definition body (bs : list Block) : list ConversationItem := bs ≫= block_items.

Fixpoint to_blocks (l : list ConversationItem) : list ToolResultItem * list Block :=
  match l with
  | [] => ([], [])
  | ToolResult t :: l => let r := to_blocks l in (t :: r.1, r.2)
  | i :: l => let r := to_blocks l in ([], (i, r.1) :: r.2)
  end.
Definition of_blocks (r : list ToolResultItem * list Block) : list ConversationItem :=
  (ToolResult <$> r.1) ++ body r.2.

Definition proper (b : Block) : Prop := is_result b.1 = false.

(** The calls a block makes. *)
Definition block_calls (b : Block) : list ToolCall := match b.1 with Assistant a => tool_calls a | _ => [] end.
Definition answers (b : Block) : list string := tool_call_id <$> b.2.

(** A block as the providers want it: each call answered once, nothing else. *)
Definition paired_block (b : Block) : Prop := answers b ≡ₚ call_id <$> block_calls b.
Definition paired (conversation : list ConversationItem) : Prop :=
  let r := to_blocks conversation in r.1 = [] ∧ Forall paired_block r.2.

(** The calls of one assistant message have different ids. *)
Definition calls_distinct (conversation : list ConversationItem) : Prop :=
  Forall (λ i, match i with Assistant a => NoDup (call_ids a) | _ => True end) conversation.

Lemma of_to_blocks l : of_blocks (to_blocks l) = l.
Proof.
  induction l as [|i l IH]; [done|]. unfold of_blocks in *.
  destruct i; cbn; unfold body in *; cbn; rewrite ?IH; try done; by rewrite <-IH at 2.
Qed.

Lemma to_blocks_proper l : Forall proper (to_blocks l).2.
Proof. induction l as [|i l IH]; [by constructor|]. destruct i; cbn; try done; by constructor. Qed.

Lemma body_cons b bs : body (b :: bs) = b.1 :: (ToolResult <$> b.2) ++ body bs.
Proof. by unfold body. Qed.

Lemma body_head bs : Forall proper bs → to_blocks (body bs) = ([], bs).
Proof.
  induction 1 as [|[i run] bs Hb _ IH]; [done|]. rewrite body_cons. cbn [fst snd].
  assert (E : to_blocks ((ToolResult <$> run) ++ body bs) = (run, bs)).
  { induction run as [|t run IHr]; [done|]. cbn. by rewrite IHr. }
  unfold proper in Hb. by destruct i; cbn; rewrite ?E.
Qed.

Lemma to_of_blocks o bs : Forall proper bs → to_blocks (of_blocks (o, bs)) = (o, bs).
Proof.
  intros Hb. unfold of_blocks. cbn [fst snd]. induction o as [|t o IH]; [by apply body_head|]. cbn. by rewrite IH.
Qed.

Lemma conversation_blocks l : ∃ o bs, l = (ToolResult <$> o) ++ body bs ∧ Forall proper bs.
Proof. exists (to_blocks l).1, (to_blocks l).2. split; [symmetry; apply of_to_blocks|apply to_blocks_proper]. Qed.

Lemma take_results_run run bs : Forall proper bs →
  take_results ((ToolResult <$> run) ++ body bs) = ToolResult <$> run.
Proof.
  intros Hb. induction run as [|t run IH]; cbn; [|by rewrite IH].
  destruct bs as [|[i r] bs]; [done|]. rewrite body_cons. apply Forall_cons in Hb as [Hi _].
  unfold proper in Hi. cbn in *. by destruct i.
Qed.

Lemma result_ids_run run : result_ids (ToolResult <$> run) = tool_call_id <$> run.
Proof. unfold result_ids. induction run as [|t run IH]; [done|]. cbn. by f_equal. Qed.

Lemma length_run (run : list ToolResultItem) : length (ToolResult <$> run) = length run.
Proof. apply length_fmap. Qed.

End Blocks.

(** * What each repair does to a block *)

Module Export BlockRepairs.

Definition unanswered (b : Block) : list ToolCall :=
  filter (λ tc, call_id tc ∉ answers b) (block_calls b).
Definition synthetic_result (reason : DanglingToolCallReason) (tc : ToolCall) : ToolResultItem :=
  MkToolResult (call_id tc) (synthetic_dangling_result_text (call_name tc) reason) [].
Definition answer_block (reason : DanglingToolCallReason) (b : Block) : Block :=
  (b.1, b.2 ++ (synthetic_result reason <$> unanswered b)).

(** A run without the results that a later one supersedes. *)
Fixpoint keep_last (run : list ToolResultItem) : list ToolResultItem :=
  match run with
  | [] => []
  | t :: run => if bool_decide (tool_call_id t ∈ tool_call_id <$> run) then keep_last run else t :: keep_last run
  end.
Definition dedup_block (b : Block) : Block :=
  if bool_decide (block_calls b = []) then b else (b.1, keep_last b.2).

Definition strip_block (b : Block) : Block :=
  (b.1, filter (λ t, tool_call_id t ∈ call_id <$> block_calls b) b.2).
Definition displaced (b : Block) : list string :=
  tool_call_id <$> filter (λ t, tool_call_id t ∉ call_id <$> block_calls b) b.2.

Lemma synthetic_results_block reason a run :
  synthetic_results reason a (ToolResult <$> run) =
  ToolResult <$> (synthetic_result reason <$> unanswered (Assistant a, run)).
Proof.
  unfold synthetic_results, unanswered. rewrite result_ids_run, <-list_fmap_compose.
  unfold block_calls, answers. cbn. reflexivity.
Qed.

(** The scan of phase 1 passes over anything but an assistant with calls. *)
Lemma scan_skip fuel reason i x tl :
  match x with Assistant a => tool_calls a = [] | _ => True end →
  scan_repairs (S fuel) reason i (x :: tl) = scan_repairs fuel reason (S i) tl.
Proof. intros Hx. destruct x; cbn; try done. by rewrite bool_decide_eq_true_2. Qed.

Lemma scan_run reason run : ∀ fuel i tl, length run ≤ fuel →
  scan_repairs fuel reason i ((ToolResult <$> run) ++ tl) =
  scan_repairs (fuel - length run) reason (i + length run) tl.
Proof.
  induction run as [|t run IH]; intros fuel i tl Hf; cbn [fmap list_fmap app length].
  - by rewrite Nat.sub_0_r, Nat.add_0_r.
  - destruct fuel as [|fuel]; [cbn in Hf; lia|]. rewrite scan_skip by done. cbn in Hf.
    rewrite IH by lia. f_equal; lia.
Qed.

Definition repair_splices (repairs : list (nat * list ConversationItem)) (l : list ConversationItem)
  : list ConversationItem := fold_left (λ c r, splice r.1 r.2 c) (reverse repairs) l.

Lemma repair_splices_app r1 r2 l : repair_splices (r1 ++ r2) l = repair_splices r1 (repair_splices r2 l).
Proof. unfold repair_splices. by rewrite reverse_app, fold_left_app. Qed.

Lemma repair_splices_one n x l : repair_splices [(n, x)] l = splice n x l.
Proof. done. Qed.

Lemma splice_here p x l n : n = length p → splice n x (p ++ l) = p ++ x ++ l.
Proof. intros ->. unfold splice. by rewrite take_app_length, drop_app_length. Qed.

Lemma unanswered_no_calls b : block_calls b = [] → unanswered b = [].
Proof. unfold unanswered. by intros ->. Qed.

Lemma answer_block_none reason b : unanswered b = [] → answer_block reason b = b.
Proof. intros E. unfold answer_block. rewrite E. cbn. by rewrite app_nil_r, <-surjective_pairing. Qed.

Lemma scan_calls fuel reason i a tl : tool_calls a ≠ [] →
  scan_repairs (S fuel) reason i (Assistant a :: tl) =
  (if bool_decide (synthetic_results reason a (take_results tl) = []) then []
   else [(S i + length (take_results tl), synthetic_results reason a (take_results tl))]) ++
  scan_repairs fuel reason (S i + length (take_results tl)) (drop (length (take_results tl)) tl).
Proof. intros Ha. cbn [scan_repairs]. by rewrite (bool_decide_eq_false_2 _ Ha). Qed.

Lemma scan_block reason fuel i x run bs : proper (x, run) → Forall proper bs → S (length run) ≤ fuel →
  ∃ fuel', fuel - S (length run) ≤ fuel' ∧
  scan_repairs fuel reason i (x :: (ToolResult <$> run) ++ body bs) =
  (if bool_decide (unanswered (x, run) = []) then []
   else [(S i + length run, ToolResult <$> (synthetic_result reason <$> unanswered (x, run)))]) ++
  scan_repairs fuel' reason (S i + length run) (body bs).
Proof.
  intros Hx Hbs Hf. destruct fuel as [|fuel]; [lia|].
  destruct (decide (block_calls (x, run) = [])) as [Hc|Hc].
  - exists (fuel - length run). split; [lia|]. rewrite (unanswered_no_calls _ Hc), bool_decide_eq_true_2 by done.
    rewrite scan_skip by (destruct x; try done; exact Hc). by rewrite scan_run by lia.
  - destruct x as [| |a| | |]; try done. exists fuel. split; [lia|]. rewrite scan_calls by done.
    rewrite take_results_run, synthetic_results_block, length_run, drop_app_length' by (done || by rewrite length_run).
    f_equal. by destruct (unanswered (Assistant a, run)).
Qed.

Definition inserted (bs : list Block) : nat := sum_list ((λ b, length (unanswered b)) <$> bs).

(** Both phases on the blocks that follow a prefix. *)
Lemma scan_body reason bs : Forall proper bs → ∀ fuel p, length (body bs) ≤ fuel →
  repair_splices (scan_repairs fuel reason (length p) (body bs)) (p ++ body bs) =
    p ++ body (answer_block reason <$> bs) ∧
  sum_list ((λ r, length r.2) <$> scan_repairs fuel reason (length p) (body bs)) = inserted bs.
Proof.
  induction 1 as [|[x run] bs Hb Hbs IH]; intros fuel p Hf.
  { destruct fuel; cbn; by rewrite app_nil_r. }
  rewrite body_cons in *. cbn [fst snd] in *. cbn in Hf. rewrite length_app, length_run in Hf.
  destruct (scan_block reason fuel (length p) x run bs Hb Hbs ltac:(lia)) as (fuel' & Hf' & ->).
  set (p' := p ++ x :: (ToolResult <$> run)).
  assert (Hp' : S (length p) + length run = length p') by (unfold p'; rewrite length_app; cbn; rewrite length_run; lia).
  replace (p ++ x :: (ToolResult <$> run) ++ body bs) with (p' ++ body bs) by (unfold p'; by rewrite <-app_assoc).
  rewrite Hp', repair_splices_app, fmap_app, list_sum_app.
  destruct (IH fuel' p' ltac:(lia)) as [-> ->]. cbn [fmap list_fmap]. rewrite body_cons.
  unfold inserted. cbn [fmap list_fmap sum_list]. case_bool_decide as Hu.
  - rewrite answer_block_none, Hu by done. cbn. split; [|done]. unfold p'. by rewrite <-app_assoc.
  - rewrite repair_splices_one, splice_here by done. split; cycle 1.
    { change (length (ToolResult <$> (synthetic_result reason <$> unanswered (x, run))) + 0 + inserted bs =
        length (unanswered (x, run)) + inserted bs). rewrite !length_fmap. lia. }
    unfold answer_block, p'. cbn [fst snd]. rewrite fmap_app, <-!app_assoc. done.
Qed.

Theorem repair_dangling_blocks o bs reason : Forall proper bs →
  repair_dangling_tool_calls (of_blocks (o, bs)) reason = (of_blocks (o, answer_block reason <$> bs), inserted bs).
Proof.
  intros Hbs. unfold repair_dangling_tool_calls, of_blocks. cbn [fst snd].
  rewrite scan_run by (rewrite length_app, length_run; lia). cbn [plus].
  destruct (scan_body reason bs Hbs (length ((ToolResult <$> o) ++ body bs) - length o) (ToolResult <$> o)
    ltac:(rewrite length_app, length_run; lia)) as [E1 E2].
  rewrite length_run in E1, E2. unfold repair_splices in E1. by rewrite E1, E2.
Qed.

(** The scan of the check follows the scan of the repair. *)
Lemma dangling_scan fuel reason i l :
  dangling_from fuel l = negb (bool_decide (scan_repairs fuel reason i l = [])).
Proof.
  revert i l. induction fuel as [|fuel IH]; intros i l; [done|].
  destruct l as [|[| |a| | |] tl]; cbn [dangling_from scan_repairs]; try done; try apply (IH (S i)).
  case_bool_decide as Hc; [apply (IH (S i))|].
  assert (E : existsb (λ tc, negb (bool_decide (call_id tc ∈ result_ids (take_results tl)))) (tool_calls a) =
              negb (bool_decide (synthetic_results reason a (take_results tl) = []))).
  { unfold synthetic_results. generalize (result_ids (take_results tl)) as ids. intros ids.
    clear Hc. induction (tool_calls a) as [|tc tcs IHt]; [done|]. cbn [existsb]. rewrite filter_cons. case_decide as Hd.
    - rewrite bool_decide_eq_false_2 by done. by rewrite bool_decide_eq_false_2 by done.
    - rewrite bool_decide_eq_true_2 by done. exact IHt. }
  rewrite E. case_bool_decide as Hs; cbn [negb]; [apply IH|by rewrite bool_decide_eq_false_2].
Qed.

Lemma inserted_zero bs : inserted bs = 0 ↔ Forall (λ b, unanswered b = []) bs.
Proof.
  unfold inserted. induction bs as [|b bs IH]; [split; [constructor|done]|]. rewrite Forall_cons, <-IH. cbn.
  rewrite <-length_zero_iff_nil. unfold sum_list. lia.
Qed.

Lemma scan_nonempty fuel reason : ∀ i l, Forall (λ r, r.2 ≠ []) (scan_repairs fuel reason i l).
Proof.
  induction fuel as [|fuel IH]; intros i l; [constructor|].
  destruct l as [|[| |a| | |] tl]; cbn [scan_repairs]; try constructor; try apply IH.
  case_bool_decide; [apply IH|]. apply Forall_app. split; [|apply IH].
  case_bool_decide; repeat constructor; done.
Qed.

Lemma has_dangling_blocks o bs : Forall proper bs →
  has_dangling_tool_calls (of_blocks (o, bs)) = false ↔ Forall (λ b, unanswered b = []) bs.
Proof.
  intros Hbs. unfold has_dangling_tool_calls. rewrite (dangling_scan _ UserCancelled 0).
  pose proof (repair_dangling_blocks o bs UserCancelled Hbs) as E. unfold repair_dangling_tool_calls in E.
  injection E as _ E. rewrite <-inserted_zero, <-E.
  pose proof (scan_nonempty (length (of_blocks (o, bs))) UserCancelled 0 (of_blocks (o, bs))) as Hne.
  destruct (scan_repairs _ _ _ _) as [|r rs]; [done|]. apply Forall_cons in Hne as [Hr _].
  rewrite bool_decide_eq_false_2 by done. cbn. destruct (r.2) eqn:Er; [done|]. cbn. done.
Qed.

End BlockRepairs.

(** * The scan for superseded results *)

Module Export Dedup.

(** A list without the positions [ps], counting from [k]. *)
Fixpoint keep_from (k : nat) (ps : list nat) (l : list ConversationItem) : list ConversationItem :=
  match l with
  | [] => []
  | i :: l => if bool_decide (k ∈ ps) then keep_from (S k) ps l else i :: keep_from (S k) ps l
  end.

Lemma keep_from_app ps l1 : ∀ k l2, keep_from k ps (l1 ++ l2) = keep_from k ps l1 ++ keep_from (k + length l1) ps l2.
Proof.
  induction l1 as [|i l1 IH]; intros k l2; cbn; [by rewrite Nat.add_0_r|].
  rewrite IH. replace (k + S (length l1)) with (S k + length l1) by lia. by case_bool_decide.
Qed.

Lemma keep_from_none ps l : ∀ k, (∀ p, p ∈ ps → p < k ∨ k + length l ≤ p) → keep_from k ps l = l.
Proof.
  induction l as [|i l IH]; intros k Hps; cbn; [done|].
  rewrite bool_decide_eq_false_2 by (intros Hk; specialize (Hps k Hk); cbn in Hps; lia).
  f_equal. apply IH. intros p Hp. specialize (Hps p Hp). cbn in Hps. lia.
Qed.

Lemma keep_from_ext ps ps' l : ∀ k, (∀ p, p ∈ ps ↔ p ∈ ps') → keep_from k ps l = keep_from k ps' l.
Proof.
  induction l as [|i l IH]; intros k He; cbn; [done|]. rewrite (IH _ He).
  by rewrite (bool_decide_ext _ _ (He k)).
Qed.

(** Removing one position above all others. *)
Lemma keep_from_remove h ps l : ∀ k, k ≤ h → Forall (λ p, p < h) ps →
  keep_from k ps (take (h - k) l ++ drop (S (h - k)) l) = keep_from k (h :: ps) l.
Proof.
  induction l as [|i l IH]; intros k Hk Hps.
  { rewrite take_nil, drop_nil. done. }
  destruct (decide (k = h)) as [->|Hne].
  - rewrite Nat.sub_diag. cbn. rewrite bool_decide_eq_true_2 by left.
    rewrite Forall_forall in Hps.
    rewrite !keep_from_none; [done| |].
    + intros p Hp%elem_of_cons. destruct Hp as [->|Hp]; [lia|]. specialize (Hps p Hp). lia.
    + intros p Hp. specialize (Hps p Hp). lia.
  - replace (h - k) with (S (h - S k)) by lia. cbn [take firstn drop skipn app keep_from].
    specialize (IH (S k) ltac:(lia) Hps). replace (take (h - S k) l) with (firstn (h - S k) l) in IH by done.
    rewrite IH. rewrite (bool_decide_ext (k ∈ h :: ps) (k ∈ ps)); [done|].
    rewrite elem_of_cons. naive_solver.
Qed.

Definition remove_one (l : list ConversationItem) (idx : nat) : list ConversationItem := take idx l ++ drop (S idx) l.

Lemma remove_descending ps l : StronglySorted (λ x y, y < x) ps → fold_left remove_one ps l = keep_from 0 ps l.
Proof.
  intros Hs. revert l. induction Hs as [|h ps _ IH Hh]; intros l; cbn [fold_left].
  - symmetry. apply keep_from_none. intros p Hp. by apply elem_of_nil in Hp.
  - rewrite IH. unfold remove_one. pose proof (keep_from_remove h ps l 0 ltac:(lia) Hh) as E.
    by rewrite Nat.sub_0_r in E.
Qed.

Lemma length_remove_descending ps : ∀ l, StronglySorted (λ x y, y < x) ps → Forall (λ p, p < length l) ps →
  length (fold_left remove_one ps l) + length ps = length l.
Proof.
  induction ps as [|h ps IH]; intros l Hs Hl; cbn; [lia|].
  apply StronglySorted_inv in Hs as [Hs Hh]. apply Forall_cons in Hl as [Hlt Hl].
  assert (E : length (remove_one l h) = length l - 1).
  { unfold remove_one. rewrite length_app, length_take, length_drop. lia. }
  pose proof (IH (remove_one l h) Hs) as IH'. rewrite E in IH'. enough (Forall (λ p, p < length l - 1) ps) by (specialize (IH' ltac:(done)); lia).
  eapply Forall_impl; [exact Hh|]. cbn. lia.
Qed.

(** Sorting distinct positions downwards. *)
Lemma descending ps : NoDup ps → StronglySorted (λ x y, y < x) (reverse (sort_by Nat.leb ps)).
Proof.
  intros Hnd.
  assert (Hs : StronglySorted (λ x y, Nat.leb x y = true) (sort_by Nat.leb ps)).
  { apply sort_by_sorted; [intros x y Hxy; apply Nat.leb_gt in Hxy; apply Nat.leb_le; lia|].
    intros x y z. rewrite !Nat.leb_le. lia. }
  assert (Hn : NoDup (sort_by Nat.leb ps)) by (by rewrite sort_by_Permutation).
  apply (StronglySorted_reverse (λ x y, x < y)).
  induction Hs as [|x l _ IH Hx]; constructor; apply NoDup_cons in Hn as [Hnx Hn]; [by apply IH|].
  rewrite Forall_forall in *. intros y Hy. specialize (Hx y Hy). apply Nat.leb_le in Hx.
  assert (x ≠ y) by (intros ->; done). lia.
Qed.

Lemma remove_positions_keep ps l : NoDup ps → remove_positions ps l = keep_from 0 ps l.
Proof.
  intros Hnd. unfold remove_positions. change (λ l idx, take idx l ++ drop (S idx) l) with remove_one.
  rewrite remove_descending by by apply descending. apply keep_from_ext.
  intros p. rewrite elem_of_reverse. by rewrite sort_by_Permutation.
Qed.

Lemma length_remove_positions ps l : NoDup ps → Forall (λ p, p < length l) ps →
  length (remove_positions ps l) + length ps = length l.
Proof.
  intros Hnd Hl. unfold remove_positions. change (λ l idx, take idx l ++ drop (S idx) l) with remove_one.
  rewrite <-(length_remove_descending (reverse (sort_by Nat.leb ps)) l); [|by apply descending|].
  - by rewrite length_reverse, (Permutation_length (sort_by_Permutation Nat.leb ps)).
  - apply Forall_reverse. by rewrite sort_by_Permutation.
Qed.

(** Where the superseded results are: seen before and again in the run, or in the
    run and again later. *)
Lemma elem_of_superseded run : ∀ idx seen p, p ∈ superseded_from idx seen (ToolResult <$> run) ↔
  (∃ id, seen !! id = Some p ∧ id ∈ tool_call_id <$> run) ∨
  (∃ j t, p = idx + j ∧ run !! j = Some t ∧ tool_call_id t ∈ tool_call_id <$> drop (S j) run).
Proof.
  induction run as [|t run IH]; intros idx seen p; cbn [fmap list_fmap superseded_from].
  { split; [by intros ?%elem_of_nil|]. intros [(? & _ & ?%elem_of_nil)|(j & t & _ & Hj & _)]; [done|done]. }
  rewrite elem_of_app, IH. split.
  - intros [Hp|[(id & Hid & Hin)|(j & t' & -> & Hj & Hin)]].
    + left. exists (tool_call_id t). split; [|left]. by apply elem_of_option_list in Hp.
    + destruct (decide (id = tool_call_id t)) as [->|Hne].
      * rewrite lookup_insert_eq in Hid. injection Hid as <-. right. exists 0, t. cbn. rewrite Nat.add_0_r. done.
      * rewrite lookup_insert_ne in Hid by done. left. exists id. split; [done|by right].
    + right. exists (S j), t'. split; [lia|done].
  - intros [(id & Hid & Hin)|(j & t' & -> & Hj & Hin)].
    + apply elem_of_cons in Hin as [->|Hin]; [left; rewrite Hid; by left|].
      destruct (decide (id = tool_call_id t)) as [->|Hne]; [left; rewrite Hid; by left|].
      right. left. exists id. by rewrite lookup_insert_ne.
    + destruct j as [|j].
      * injection Hj as <-. right. left. exists (tool_call_id t). rewrite lookup_insert_eq, Nat.add_0_r. done.
      * right. right. exists j, t'. split; [lia|done].
Qed.

Lemma NoDup_superseded run : ∀ idx (seen : gmap string nat),
  (∀ id p, seen !! id = Some p → p < idx) → (∀ id id' p, seen !! id = Some p → seen !! id' = Some p → id = id') →
  NoDup (superseded_from idx seen (ToolResult <$> run)).
Proof.
  induction run as [|t run IH]; intros idx seen Hlt Hinj; cbn [fmap list_fmap superseded_from]; [constructor|].
  assert (Hrest : NoDup (superseded_from (S idx) (<[tool_call_id t := idx]> seen) (ToolResult <$> run))).
  { apply IH.
    - intros id p. destruct (decide (id = tool_call_id t)) as [->|Hne]; rewrite ?lookup_insert_eq, ?lookup_insert_ne by done.
      + intros [= <-]. lia.
      + intros Hp. specialize (Hlt _ _ Hp). lia.
    - intros id id' p.
      destruct (decide (id = tool_call_id t)) as [->|Hne], (decide (id' = tool_call_id t)) as [->|Hne'];
        rewrite ?lookup_insert_eq, ?lookup_insert_ne by done; try done; [| |apply Hinj].
      + intros [= <-] Hp. specialize (Hlt _ _ Hp). lia.
      + intros Hp [= <-]. specialize (Hlt _ _ Hp). lia. }
  destruct (seen !! tool_call_id t) as [p|] eqn:Hp; [|done]. apply NoDup_cons. split; [|done].
  rewrite elem_of_superseded. intros [(id & Hid & _)|(j & t' & -> & _)].
  - destruct (decide (id = tool_call_id t)) as [->|Hne]; rewrite ?lookup_insert_eq, ?lookup_insert_ne in Hid by done.
    + injection Hid as <-. specialize (Hlt _ _ Hp). lia.
    + apply Hne. exact (Hinj _ _ _ Hid Hp).
  - specialize (Hlt _ _ Hp). lia.
Qed.

Lemma keep_last_keeps ps run : ∀ k,
  (∀ j t, run !! j = Some t → (k + j ∈ ps ↔ tool_call_id t ∈ tool_call_id <$> drop (S j) run)) →
  keep_from k ps (ToolResult <$> run) = ToolResult <$> keep_last run.
Proof.
  induction run as [|t run IH]; intros k Hps; [done|]. cbn [fmap list_fmap keep_from keep_last].
  specialize (IH (S k)). rewrite IH by (intros j t' Hj; rewrite <-(Hps (S j) t' Hj); by replace (S k + j) with (k + S j) by lia).
  pose proof (Hps 0 t eq_refl) as H0. rewrite Nat.add_0_r in H0. cbn [drop skipn] in H0.
  rewrite (bool_decide_ext _ _ H0). case_bool_decide as Ht; [by rewrite bool_decide_eq_true_2|by rewrite bool_decide_eq_false_2].
Qed.

Lemma superseded_spec k run p : p ∈ superseded_from k ∅ (ToolResult <$> run) ↔
  ∃ j t, p = k + j ∧ run !! j = Some t ∧ tool_call_id t ∈ tool_call_id <$> drop (S j) run.
Proof.
  rewrite elem_of_superseded. split; [|by right]. intros [(id & Hid & _)|Hj]; [|done].
  by rewrite lookup_empty in Hid.
Qed.

Lemma superseded_NoDup k run : NoDup (superseded_from k ∅ (ToolResult <$> run)).
Proof.
  apply NoDup_superseded.
  - intros id p Hp. by rewrite lookup_empty in Hp.
  - intros id id' p Hp. by rewrite lookup_empty in Hp.
Qed.

Lemma superseded_keeps k run :
  keep_from k (superseded_from k ∅ (ToolResult <$> run)) (ToolResult <$> run) = ToolResult <$> keep_last run.
Proof.
  apply keep_last_keeps. intros j t Hj. rewrite superseded_spec. split.
  - intros (j' & t' & E & Hj' & Hin). replace j' with j in * by lia. congruence.
  - intros Hin. by exists j, t.
Qed.

Lemma keep_last_ids run id : id ∈ tool_call_id <$> keep_last run ↔ id ∈ tool_call_id <$> run.
Proof.
  induction run as [|t run IH]; [done|]. cbn. case_bool_decide as Ht; cbn; rewrite ?elem_of_cons, IH; [|done].
  naive_solver.
Qed.

Lemma keep_last_NoDup run : NoDup (tool_call_id <$> keep_last run).
Proof.
  induction run as [|t run IH]; [constructor|]. cbn. case_bool_decide as Ht; [done|]. cbn.
  apply NoDup_cons. by rewrite keep_last_ids.
Qed.

Lemma keep_last_id run : NoDup (tool_call_id <$> run) → keep_last run = run.
Proof.
  induction run as [|t run IH]; [done|]. cbn. intros [Ht Hn]%NoDup_cons. rewrite bool_decide_eq_false_2 by done.
  by rewrite IH.
Qed.

Lemma superseded_nil k run : superseded_from k ∅ (ToolResult <$> run) = [] ↔ NoDup (tool_call_id <$> run).
Proof.
  split; intros Hs.
  - pose proof (superseded_keeps k run) as E. rewrite Hs, keep_from_none in E by (intros p Hp; by apply elem_of_nil in Hp).
    assert (Hinj : Inj (=) (=) ToolResult) by by intros ? ? [= ->]. apply (inj (fmap ToolResult)) in E. rewrite E.
    apply keep_last_NoDup.
  - destruct (superseded_from k ∅ (ToolResult <$> run)) as [|p ps] eqn:E; [done|]. exfalso.
    assert (Hp : p ∈ superseded_from k ∅ (ToolResult <$> run)) by (rewrite E; left).
    apply superseded_spec in Hp as (j & t & _ & Hj & Hin).
    rewrite <-(take_drop_middle _ _ _ Hj), fmap_app in Hs. apply NoDup_app in Hs as (_ & _ & Hs).
    by apply NoDup_cons in Hs as [Hn _].
Qed.

(** Removing the superseded results of a run in its place. *)
Lemma remove_run pre run bs : 
  let ps := superseded_from (length pre) ∅ (ToolResult <$> run) in
  remove_positions ps (pre ++ (ToolResult <$> run) ++ body bs) = pre ++ (ToolResult <$> keep_last run) ++ body bs ∧
  length ps = length run - length (keep_last run).
Proof.
  intros ps. pose proof (superseded_NoDup (length pre) run) as Hnd. fold ps in Hnd.
  assert (Hin : Forall (λ p, length pre ≤ p < length pre + length run) ps).
  { apply Forall_forall. intros p (j & t & -> & Hj & _)%superseded_spec. apply lookup_lt_Some in Hj. lia. }
  rewrite Forall_forall in Hin.
  assert (E : remove_positions ps (pre ++ (ToolResult <$> run) ++ body bs) = pre ++ (ToolResult <$> keep_last run) ++ body bs).
  { rewrite remove_positions_keep by done. rewrite !keep_from_app. cbn [plus]. unfold ps at 2. rewrite superseded_keeps.
    rewrite length_run, !keep_from_none; [done| |].
    - intros p Hp. specialize (Hin p Hp). lia.
    - intros p Hp. specialize (Hin p Hp). lia. }
  split; [done|]. pose proof (length_remove_positions ps (pre ++ (ToolResult <$> run) ++ body bs) Hnd) as L.
  rewrite E, !length_app, !length_run in L. enough (Forall (λ p, p < length pre + (length run + length (body bs))) ps) as Hb by (specialize (L Hb); lia).
  apply Forall_forall. intros p Hp. specialize (Hin p Hp). lia.
Qed.

End Dedup.

(** * The dedup loop and the strip on blocks *)

Module Export LoopAndStrip.

Lemma loop_skip fuel conversation i total x tl : drop i conversation = x :: tl →
  match x with Assistant a => tool_calls a = [] | _ => True end →
  dedup_loop (S fuel) conversation i total = dedup_loop fuel conversation (S i) total.
Proof. intros Hd Hx. cbn. rewrite Hd. destruct x; try done. by rewrite bool_decide_eq_true_2. Qed.

Lemma loop_run run : ∀ fuel pre tl total, length run ≤ fuel →
  dedup_loop fuel (pre ++ (ToolResult <$> run) ++ tl) (length pre) total =
  dedup_loop (fuel - length run) (pre ++ (ToolResult <$> run) ++ tl) (length pre + length run) total.
Proof.
  induction run as [|t run IH]; intros fuel pre tl total Hf; cbn [length].
  - by rewrite Nat.sub_0_r, Nat.add_0_r.
  - destruct fuel as [|fuel]; [cbn in Hf; lia|]. cbn in Hf.
    erewrite loop_skip by (apply drop_app_length || done). cbn [fmap list_fmap app].
    pose proof (IH fuel (pre ++ [ToolResult t]) tl total ltac:(lia)) as E.
    rewrite <-!app_assoc in E. cbn [app] in E. rewrite length_app in E. cbn [length] in E.
    rewrite Nat.add_1_r in E. rewrite E. f_equal. lia.
Qed.

Lemma loop_calls fuel pre a run bs total : tool_calls a ≠ [] → Forall proper bs →
  let conversation := pre ++ Assistant a :: (ToolResult <$> run) ++ body bs in
  dedup_loop (S fuel) conversation (length pre) total =
  match superseded_from (S (length pre)) ∅ (ToolResult <$> run) with
  | [] => dedup_loop fuel conversation (S (length pre) + length run) total
  | to_remove => dedup_loop fuel (remove_positions to_remove conversation) (length pre) (total + length to_remove)
  end.
Proof.
  intros Ha Hbs conversation. cbn [dedup_loop]. unfold conversation at 1. rewrite drop_app_length.
  rewrite bool_decide_eq_false_2 by done. rewrite take_results_run by done. by rewrite length_run.
Qed.

Definition dropped (b : Block) : nat := length b.2 - length (dedup_block b).2.

(** A block takes at most twice its length of steps. *)
Lemma loop_block fuel pre b bs total : proper b → Forall proper bs → 2 * length (block_items b) ≤ fuel →
  ∃ fuel', fuel - 2 * length (block_items b) ≤ fuel' ∧
  dedup_loop fuel (pre ++ body (b :: bs)) (length pre) total =
  dedup_loop fuel' (pre ++ body (dedup_block b :: bs)) (length pre + length (block_items (dedup_block b))) (total + dropped b).
Proof.
  destruct b as [x run]. intros Hx Hbs Hf. unfold block_items in *. cbn in Hf. rewrite length_run in Hf.
  unfold dedup_block, dropped, dedup_block. rewrite !body_cons. case_bool_decide as Hc; cbn [fst snd length]; rewrite !length_run.
  - exists (fuel - S (length run)). split; [lia|]. destruct fuel as [|fuel]; [lia|].
    erewrite loop_skip by (apply drop_app_length || (destruct x; try done; exact Hc)).
    pose proof (loop_run run fuel (pre ++ [x]) (body bs) total ltac:(lia)) as E.
    rewrite <-!app_assoc in E. cbn [app] in E. rewrite length_app in E. cbn [length] in E.
    rewrite Nat.add_1_r in E. rewrite E. f_equal; lia.
  - destruct x as [| |a| | |]; try done. destruct fuel as [|fuel]; [lia|].
    rewrite loop_calls by done.
    pose proof (remove_run (pre ++ [Assistant a]) run bs) as [Er El].
    rewrite length_app, <-!app_assoc in *. cbn [app length] in *. rewrite Nat.add_1_r in *.
    destruct (superseded_from (S (length pre)) ∅ (ToolResult <$> run)) as [|p ps] eqn:Es.
    + apply superseded_nil in Es. exists fuel. split; [lia|]. rewrite keep_last_id by done. f_equal; lia.
    + cbn [length] in El |- *. rewrite Er, El. destruct fuel as [|fuel]; [lia|]. exists fuel. split; [lia|]. rewrite loop_calls by done.
      rewrite (proj2 (superseded_nil (S (length pre)) (keep_last run)) (keep_last_NoDup run)).
      f_equal; lia.
Qed.

Definition removed_by (bs : list Block) : nat := sum_list (dropped <$> bs).

Lemma loop_body bs : Forall proper bs → ∀ fuel pre total, 2 * length (body bs) < fuel →
  dedup_loop fuel (pre ++ body bs) (length pre) total = Some (pre ++ body (dedup_block <$> bs), total + removed_by bs).
Proof.
  induction 1 as [|b bs Hb Hbs IH]; intros fuel pre total Hf.
  - destruct fuel as [|fuel]; [lia|]. cbn. rewrite drop_app_length. by rewrite Nat.add_0_r.
  - assert (Hlen : length (body (b :: bs)) = length (block_items b) + length (body bs)) by (unfold body; cbn [mbind list_bind]; by rewrite length_app).
    destruct (loop_block fuel pre b bs total Hb Hbs ltac:(lia)) as (fuel' & Hf' & ->).
    assert (Hbody : ∀ c cs, pre ++ body (c :: cs) = (pre ++ block_items c) ++ body cs) by (intros; by rewrite <-app_assoc).
    rewrite Hbody, <-length_app, (IH fuel') by lia. cbn [fmap list_fmap]. rewrite Hbody. do 2 f_equal.
    unfold removed_by, sum_list. cbn. lia.
Qed.

Theorem dedup_blocks o bs : Forall proper bs →
  dedup_duplicate_tool_results (of_blocks (o, bs)) = (of_blocks (o, dedup_block <$> bs), removed_by bs).
Proof.
  intros Hbs. unfold dedup_duplicate_tool_results, dedup_fuel, of_blocks. cbn [fst snd].
  pose proof (loop_run o (S (2 * length ((ToolResult <$> o) ++ body bs))) [] (body bs) 0
    ltac:(rewrite length_app, length_run; lia)) as E. cbn [app length] in E. rewrite E.
  replace (0 + length o) with (length (ToolResult <$> o)) by by rewrite length_run.
  by rewrite loop_body by (done || rewrite length_app, !length_run; lia).
Qed.

(** Stripping drops the results in front and, in each block, those of no call. *)
Lemma strip_run ids run tl :
  strip_from ids ((ToolResult <$> run) ++ tl) =
  ((ToolResult <$> filter (λ t, tool_call_id t ∈ ids) run) ++ (strip_from ids tl).1,
   (tool_call_id <$> filter (λ t, tool_call_id t ∉ ids) run) ++ (strip_from ids tl).2).
Proof.
  induction run as [|t run IH]; cbn [fmap list_fmap app strip_from]; [by destruct (strip_from ids tl)|].
  rewrite IH, !filter_cons. cbn [fst snd].
  case_bool_decide as Ht; [rewrite decide_True, decide_False by auto|rewrite decide_False, decide_True by auto]; done.
Qed.

Lemma strip_body bs : Forall proper bs → ∀ ids,
  strip_from ids (body bs) = (body (strip_block <$> bs), concat (displaced <$> bs)).
Proof.
  induction 1 as [|[x run] bs Hx Hbs IH]; intros ids; [done|]. rewrite body_cons. cbn [fst snd fmap list_fmap concat].
  rewrite body_cons. unfold strip_block at 1 2, displaced at 1. unfold proper in Hx. cbn [fst snd] in *.
  destruct x as [| |a| | |]; cbn [strip_from]; try done; by rewrite strip_run, IH.
Qed.

Theorem strip_blocks o bs : Forall proper bs →
  strip_displaced_tool_results (of_blocks (o, bs)) =
  (of_blocks ([], strip_block <$> bs), (tool_call_id <$> o) ++ concat (displaced <$> bs)).
Proof.
  intros Hbs. unfold strip_displaced_tool_results, of_blocks. cbn [fst snd]. rewrite strip_run, strip_body by done.
  assert (E1 : filter (λ t, tool_call_id t ∈ []) o = []).
  { apply filter_no. intros t _ Ht. by apply elem_of_nil in Ht. }
  assert (E2 : filter (λ t, tool_call_id t ∉ []) o = o).
  { apply filter_true. intros t _ Ht. by apply elem_of_nil in Ht. }
  by rewrite E1, E2.
Qed.

End LoopAndStrip.

(** * What the repairs achieve *)

Module Export RepairLaws.

Definition history_reason : DanglingToolCallReason := HarnessHalted "history_repair".
Definition repair_block (b : Block) : Block := answer_block history_reason (strip_block (dedup_block b)).

Lemma proper_map (f : Block → Block) bs : (∀ b, (f b).1 = b.1) → Forall proper bs → Forall proper (f <$> bs).
Proof. intros Hf Hbs. apply Forall_fmap. eapply Forall_impl; [exact Hbs|]. intros b. unfold proper. cbn. by rewrite Hf. Qed.

Lemma dedup_head b : (dedup_block b).1 = b.1.
Proof. unfold dedup_block. by case_bool_decide. Qed.
Lemma dedup_calls b : block_calls (dedup_block b) = block_calls b.
Proof. unfold block_calls. by rewrite dedup_head. Qed.

Theorem repair_history_blocks o bs : Forall proper bs →
  repair_history (of_blocks (o, bs)) =
  (of_blocks ([], repair_block <$> bs),
   MkReport (removed_by bs) ((tool_call_id <$> o) ++ concat (displaced <$> (dedup_block <$> bs)))
     (inserted (strip_block <$> (dedup_block <$> bs)))).
Proof.
  intros Hbs. unfold repair_history. rewrite dedup_blocks by done.
  assert (H1 : Forall proper (dedup_block <$> bs)) by (apply proper_map; [apply dedup_head|done]).
  rewrite strip_blocks by done. rewrite repair_dangling_blocks by (by apply proper_map).
  by rewrite <-!list_fmap_compose.
Qed.

Lemma answered_all reason b : unanswered (answer_block reason b) = [].
Proof.
  apply filter_no. intros tc Htc Hn. apply Hn. unfold answers, answer_block. cbn [snd].
  rewrite fmap_app. apply elem_of_app. destruct (decide (call_id tc ∈ answers b)) as [Ha|Ha]; [by left|right].
  apply list_elem_of_fmap. exists (synthetic_result reason tc). split; [done|]. apply list_elem_of_fmap_2.
  by apply list_elem_of_filter.
Qed.

Lemma synthetic_ids reason (tcs : list ToolCall) : tool_call_id <$> (synthetic_result reason <$> tcs) = call_id <$> tcs.
Proof. by rewrite <-list_fmap_compose. Qed.

Lemma filter_call_ids (ids : list string) (tcs : list ToolCall) :
  call_id <$> filter (λ tc, call_id tc ∉ ids) tcs = filter (λ i, i ∉ ids) (call_id <$> tcs).
Proof.
  induction tcs as [|tc tcs IH]; [done|]. cbn [fmap list_fmap]. rewrite !filter_cons. by case_decide; cbn; rewrite IH.
Qed.

Lemma sublist_keep_last run : keep_last run `sublist_of` run.
Proof. induction run as [|t run IH]; [done|]. cbn. case_bool_decide; by constructor. Qed.

Lemma answers_dedup_NoDup b : block_calls b ≠ [] → NoDup (answers (dedup_block b)).
Proof. intros Hc. unfold dedup_block, answers. rewrite bool_decide_eq_false_2 by done. apply keep_last_NoDup. Qed.

Lemma answers_strip b id : id ∈ answers (strip_block b) ↔ id ∈ answers b ∧ id ∈ call_id <$> block_calls b.
Proof.
  unfold answers, strip_block. cbn [snd]. split.
  - intros (t & -> & [Hc Ht]%list_elem_of_filter)%list_elem_of_fmap. split; [by apply list_elem_of_fmap_2|done].
  - intros [(t & -> & Ht)%list_elem_of_fmap Hc]. apply list_elem_of_fmap_2. by apply list_elem_of_filter.
Qed.

Lemma repair_block_paired b : NoDup (call_id <$> block_calls b) → paired_block (repair_block b).
Proof.
  intros Hnd. unfold paired_block, repair_block, answer_block. set (b' := strip_block (dedup_block b)).
  assert (Hcalls : block_calls b' = block_calls b) by (unfold b'; by rewrite <-(dedup_calls b)).
  change (block_calls (b'.1, _)) with (block_calls b'). rewrite Hcalls.
  unfold answers at 1. cbn [snd]. rewrite fmap_app, synthetic_ids. unfold unanswered. rewrite Hcalls, filter_call_ids.
  fold (answers b').
  assert (Hin : ∀ i, i ∈ answers b' → i ∈ call_id <$> block_calls b).
  { intros i Hi. apply answers_strip in Hi as [_ Hi]. by rewrite dedup_calls in Hi. }
  assert (Ha : NoDup (answers b')).
  { destruct (decide (block_calls b = [])) as [Hc|Hc].
    - destruct (answers b') as [|i l]; [constructor|]. specialize (Hin i ltac:(left)). rewrite Hc in Hin. by apply elem_of_nil in Hin.
    - apply answers_dedup_NoDup in Hc. unfold answers, b', strip_block in *. cbn [snd].
      eapply sublist_NoDup; [exact Hc|]. apply sublist_fmap, sublist_filter. }
  apply NoDup_Permutation; [|done|].
  - apply NoDup_app. split; [done|]. split; [|by apply NoDup_filter].
    intros i Hi Hf. by apply list_elem_of_filter in Hf as [? _].
  - intros i. rewrite elem_of_app, list_elem_of_filter. split; [naive_solver|]. intros Hi.
    destruct (decide (i ∈ answers b')); naive_solver.
Qed.

(** A block that is already paired is left alone by every repair. *)
Lemma paired_answers_NoDup b : NoDup (call_id <$> block_calls b) → paired_block b → NoDup (answers b).
Proof. unfold paired_block. by intros ? ->. Qed.

Lemma paired_dedup b : NoDup (call_id <$> block_calls b) → paired_block b → dedup_block b = b.
Proof.
  intros Hnd Hp. unfold dedup_block. case_bool_decide; [done|].
  by rewrite keep_last_id, <-surjective_pairing by (by apply paired_answers_NoDup).
Qed.

Lemma paired_strip b : paired_block b → strip_block b = b ∧ displaced b = [].
Proof.
  intros Hp. assert (Hin : ∀ t, t ∈ b.2 → tool_call_id t ∈ call_id <$> block_calls b).
  { intros t Ht. unfold paired_block in Hp. rewrite <-Hp. by apply list_elem_of_fmap_2. }
  unfold strip_block, displaced. rewrite filter_true, filter_no; [by rewrite <-surjective_pairing|..]; naive_solver.
Qed.

Lemma paired_answer b : paired_block b → unanswered b = [].
Proof.
  intros Hp. apply filter_no. intros tc Htc Hn. apply Hn. unfold paired_block in Hp. rewrite Hp.
  by apply list_elem_of_fmap_2.
Qed.

Definition block_distinct (b : Block) : Prop := NoDup (call_id <$> block_calls b).

Lemma repair_paired_block b : block_distinct b → paired_block b → repair_block b = b.
Proof.
  intros Hd Hp. unfold repair_block. rewrite paired_dedup by done. destruct (paired_strip b Hp) as [-> _].
  by rewrite answer_block_none by by apply paired_answer.
Qed.

Lemma sum_zero {A} (f : A → nat) l : Forall (λ x, f x = 0) l → sum_list (f <$> l) = 0.
Proof. induction 1 as [|x l Hx _ IH]; [done|]. unfold sum_list in *. cbn. by rewrite Hx. Qed.

Lemma map_fix {A} (f : A → A) l : Forall (λ x, f x = x) l → f <$> l = l.
Proof. induction 1 as [|x l Hx _ IH]; [done|]. cbn. by rewrite Hx, IH. Qed.

Lemma concat_nil {A B} (f : A → list B) l : Forall (λ x, f x = []) l → concat (f <$> l) = [].
Proof. induction 1 as [|x l Hx _ IH]; [done|]. cbn. by rewrite Hx. Qed.

Lemma paired_report bs : Forall block_distinct bs → Forall paired_block bs →
  dedup_block <$> bs = bs ∧ strip_block <$> bs = bs ∧ repair_block <$> bs = bs ∧
  removed_by bs = 0 ∧ concat (displaced <$> bs) = [] ∧ inserted bs = 0.
Proof.
  intros Hd Hp.
  assert (Hdp : Forall (λ b, block_distinct b ∧ paired_block b) bs) by (apply Forall_and; done).
  split_and!; [apply map_fix|apply map_fix|apply map_fix|apply sum_zero|apply concat_nil|apply inserted_zero];
    (eapply Forall_impl; [exact Hdp|]); intros b [Hbd Hbp]; cbv beta.
  - by apply paired_dedup.
  - by apply paired_strip.
  - by apply repair_paired_block.
  - unfold dropped. rewrite paired_dedup by done. lia.
  - by apply paired_strip.
  - by apply paired_answer.
Qed.

Lemma distinct_blocks o bs : calls_distinct (of_blocks (o, bs)) → Forall block_distinct bs.
Proof.
  intros Hd. apply Forall_forall. intros b Hb. unfold calls_distinct in Hd. rewrite Forall_forall in Hd.
  specialize (Hd b.1). unfold block_distinct, block_calls. destruct (b.1) as [| |a| | |] eqn:E; try constructor.
  apply Hd. unfold of_blocks. apply elem_of_app. right. apply list_elem_of_bind. exists b. split; [|done].
  unfold block_items. rewrite E. left.
Qed.

Lemma repair_head b : (repair_block b).1 = b.1.
Proof. unfold repair_block, answer_block, strip_block. apply dedup_head. Qed.

Lemma repair_distinct bs : Forall block_distinct bs → Forall block_distinct (repair_block <$> bs).
Proof.
  intros Hd. apply Forall_fmap. eapply Forall_impl; [exact Hd|]. intros b Hb.
  unfold compose, block_distinct, block_calls. by rewrite repair_head.
Qed.

(** The items that are not results. *)
Definition talk (items : list ConversationItem) : list ConversationItem := filter (λ i, is_result i = false) items.

Lemma talk_blocks o bs : Forall proper bs → talk (of_blocks (o, bs)) = bs.*1.
Proof.
  intros Hbs. unfold talk, of_blocks. cbn [fst snd].
  assert (Hr : ∀ run, filter (λ i, is_result i = false) (ToolResult <$> run) = []).
  { intros run. apply filter_no. intros i (t & -> & _)%list_elem_of_fmap. done. }
  rewrite filter_app, Hr. induction Hbs as [|[x run] bs Hx Hbs IH]; [done|]. rewrite body_cons, filter_cons_True by done.
  rewrite filter_app, Hr. cbn in *. by rewrite IH.
Qed.

Lemma keep_last_short run : length run - length (keep_last run) = 0 → keep_last run = run.
Proof.
  induction run as [|t run IH]; [done|]. cbn. pose proof (sublist_length _ _ (sublist_keep_last run)).
  case_bool_decide; cbn; intros E; [lia|]. by rewrite IH by lia.
Qed.

(** A report of zeros comes from a conversation that no repair touched. *)
Lemma unchanged_blocks o bs :
  removed_by bs ≤ 0 → (tool_call_id <$> o) ++ concat (displaced <$> (dedup_block <$> bs)) = [] →
  inserted (strip_block <$> (dedup_block <$> bs)) ≤ 0 → o = [] ∧ repair_block <$> bs = bs.
Proof.
  intros H1 [H2 H3]%app_nil H4. split; [by destruct o|]. clear H2.
  induction bs as [|b bs IH]; [done|]. cbn [fmap list_fmap concat] in *.
  change (dropped b + removed_by bs ≤ 0) in H1.
  change (length (unanswered (strip_block (dedup_block b))) + inserted (strip_block <$> (dedup_block <$> bs)) ≤ 0) in H4.
  apply app_nil in H3 as [Hdis H3]. f_equal; [|apply IH; (done || lia)]. clear IH H3.
  assert (Edd : dedup_block b = b).
  { unfold dropped in H1. assert (Hz : length b.2 - length (dedup_block b).2 = 0) by lia. unfold dedup_block in *.
    case_bool_decide; [done|]. cbn in Hz. by rewrite keep_last_short, <-surjective_pairing. }
  unfold repair_block. rewrite Edd in *. assert (Est : strip_block b = b).
  { unfold strip_block. rewrite filter_true; [by rewrite <-surjective_pairing|]. intros t Ht.
    apply dec_stable. intros Hn. unfold displaced in Hdis. apply fmap_nil_inv in Hdis.
    by apply (filter_nil_not_elem_of _ _ t Hdis Hn). }
  rewrite Est in *. apply answer_block_none, length_zero_iff_nil. lia.
Qed.

Lemma paired_of (o : list ToolResultItem) bs : Forall proper bs → paired (of_blocks (o, bs)) ↔ o = [] ∧ Forall paired_block bs.
Proof. intros Hbs. unfold paired. by rewrite to_of_blocks. Qed.

Lemma repair_pairs bs : Forall proper bs → Forall block_distinct bs → paired (of_blocks ([], repair_block <$> bs)).
Proof.
  intros Hbs Hd. apply paired_of; [apply proper_map; [apply repair_head|done]|]. split; [done|].
  apply Forall_fmap. eapply Forall_impl; [exact Hd|]. intros b. apply repair_block_paired.
Qed.

Lemma repair_paired bs : Forall proper bs → Forall block_distinct bs → Forall paired_block bs →
  repair_history (of_blocks ([], bs)) = (of_blocks ([], bs), MkReport 0 [] 0).
Proof.
  intros Hbs Hd Hp. rewrite repair_history_blocks by done. destruct (paired_report bs Hd Hp) as (-> & -> & -> & -> & -> & ->).
  done.
Qed.

End RepairLaws.

(** * The theorems *)

Module Export RepairTheorems.

(** C35: Repairing a history whose assistant messages number their calls distinctly
    leaves every call answered exactly once, right behind it, and no other result;
    the other items stay, in their order; a second repair changes nothing; and the
    report says "unchanged" exactly when nothing changed. *)
Theorem repair_history_pairs items : calls_distinct items →
  let r := repair_history items in
  paired r.1 ∧ talk r.1 = talk items ∧ repair_history r.1 = (r.1, MkReport 0 [] 0) ∧
  (changed r.2 = false ↔ r.1 = items).
Proof.
  intros Hd r. destruct (conversation_blocks items) as (o & bs & E & Hbs). change ((ToolResult <$> o) ++ body bs) with (of_blocks (o, bs)) in E.
  subst items. apply distinct_blocks in Hd as Hbd. unfold r. rewrite repair_history_blocks by done. cbn [fst snd].
  assert (Hrp : Forall proper (repair_block <$> bs)) by (apply proper_map; [apply repair_head|done]).
  assert (Hpb : Forall paired_block (repair_block <$> bs)).
  { apply Forall_fmap. eapply Forall_impl; [exact Hbd|]. intros b. apply repair_block_paired. }
  split_and!.
  - by apply repair_pairs.
  - rewrite !talk_blocks by done. rewrite <-list_fmap_compose. apply list_fmap_ext. intros ? b _. apply repair_head.
  - apply repair_paired; [done| |done]. by apply repair_distinct.
  - split.
    + intros Hc. unfold changed in Hc. cbn [duplicates_removed stripped_tool_result_ids synthetic_results_inserted] in Hc.
      apply orb_false_iff in Hc as [[H1 H2]%orb_false_iff H3].
      apply Nat.ltb_ge in H1, H3. apply negb_false_iff, bool_decide_eq_true in H2.
      destruct (unchanged_blocks o bs) as [-> ->]; try done; lia.
    + intros Eq. apply (f_equal to_blocks) in Eq. rewrite !to_of_blocks in Eq by done. injection Eq as <- Eq.
      rewrite Eq in Hpb. destruct (paired_report bs Hbd Hpb) as (-> & -> & _ & -> & -> & ->). done.
Qed.

(** Removing duplicates and answering unanswered calls, the repair at every write
    boundary: no call dangles, each call of an assistant that numbers them
    distinctly has one result behind it, other items stay, and it settles at once. *)
Definition restore (reason : DanglingToolCallReason) (b : Block) : Block := answer_block reason (dedup_block b).

Lemma restore_head reason b : (restore reason b).1 = b.1.
Proof. apply dedup_head. Qed.

Lemma restore_calls reason b : block_calls (restore reason b) = block_calls b.
Proof. unfold block_calls. by rewrite restore_head. Qed.

Lemma restore_NoDup reason b : block_calls b ≠ [] → block_distinct b → NoDup (answers (restore reason b)).
Proof.
  intros Hc Hd. unfold answers, restore, answer_block. cbn [snd]. rewrite fmap_app, synthetic_ids.
  unfold unanswered. rewrite dedup_calls, filter_call_ids. apply NoDup_app. split; [by apply answers_dedup_NoDup|].
  split; [|by apply NoDup_filter]. intros i Hi Hf. by apply list_elem_of_filter in Hf as [? _].
Qed.

Lemma restore_dedup reason b : block_distinct b → dedup_block (restore reason b) = restore reason b.
Proof.
  intros Hd. unfold dedup_block. case_bool_decide as Hc; [done|]. rewrite restore_calls in Hc.
  rewrite keep_last_id by (by apply restore_NoDup). by rewrite <-surjective_pairing.
Qed.

Lemma restore_fix reason b : block_distinct b → restore reason (restore reason b) = restore reason b.
Proof.
  intros Hd. unfold restore at 1. rewrite restore_dedup by done. apply answer_block_none. apply answered_all.
Qed.

Definition restored (reason : DanglingToolCallReason) (items : list ConversationItem)
  : list ConversationItem * (nat * nat) :=
  let (items, deduped) := dedup_duplicate_tool_results items in
  let (items, repaired) := repair_dangling_tool_calls items reason in (items, (deduped, repaired)).

Lemma restored_blocks reason o bs : Forall proper bs →
  restored reason (of_blocks (o, bs)) =
  (of_blocks (o, restore reason <$> bs), (removed_by bs, inserted (dedup_block <$> bs))).
Proof.
  intros Hbs. unfold restored. rewrite dedup_blocks by done.
  rewrite repair_dangling_blocks by (apply proper_map; [apply dedup_head|done]).
  by rewrite <-list_fmap_compose.
Qed.

Lemma restored_settles reason items : calls_distinct items →
  restored reason (restored reason items).1 = ((restored reason items).1, (0, 0)).
Proof.
  intros Hd. destruct (conversation_blocks items) as (o & bs & E & Hbs). change ((ToolResult <$> o) ++ body bs) with (of_blocks (o, bs)) in E.
  subst items. apply distinct_blocks in Hd. rewrite restored_blocks by done. cbn [fst].
  rewrite restored_blocks by (apply proper_map; [apply restore_head|done]).
  assert (E : restore reason <$> (restore reason <$> bs) = restore reason <$> bs).
  { apply map_fix, Forall_fmap. eapply Forall_impl; [exact Hd|]. intros b Hb. by apply restore_fix. }
  rewrite E. do 3 f_equal.
  - apply sum_zero, Forall_fmap. eapply Forall_impl; [exact Hd|]. intros b Hb. unfold compose, dropped.
    rewrite restore_dedup by done. lia.
  - apply inserted_zero, Forall_fmap, Forall_fmap. eapply Forall_impl; [exact Hd|]. intros b Hb. unfold compose.
    rewrite restore_dedup by done. apply answered_all.
Qed.

Lemma restored_answers reason items : has_dangling_tool_calls (restored reason items).1 = false.
Proof.
  destruct (conversation_blocks items) as (o & bs & E & Hbs). change ((ToolResult <$> o) ++ body bs) with (of_blocks (o, bs)) in E.
  subst items. rewrite restored_blocks by done. cbn [fst].
  apply has_dangling_blocks; [apply proper_map; [apply restore_head|done]|].
  apply Forall_fmap, Forall_forall. intros b _. apply answered_all.
Qed.

Lemma restored_talk reason items : talk (restored reason items).1 = talk items.
Proof.
  destruct (conversation_blocks items) as (o & bs & E & Hbs). change ((ToolResult <$> o) ++ body bs) with (of_blocks (o, bs)) in E.
  subst items. rewrite restored_blocks by done. cbn [fst].
  rewrite !talk_blocks by (done || (apply proper_map; [apply restore_head|done])).
  rewrite <-list_fmap_compose. apply list_fmap_ext. intros ? b _. apply restore_head.
Qed.

(** ** Compacted histories *)

Lemma sanitize_validates items : ∀ seen,
  validate_from seen (sanitize_from seen items).1 = [] ∧ (sanitize_from seen items).2 = validate_from seen items.
Proof.
  induction items as [|[| |a|t| |] items IH]; intros seen; cbn; try done; try apply IH.
  case_bool_decide as Ht; cbn; [rewrite bool_decide_eq_true_2 by done; apply IH|].
  destruct (IH seen) as [H1 H2]. by rewrite H2.
Qed.

Lemma sanitize_keeps items : ∀ seen, validate_from seen items = [] → sanitize_from seen items = (items, []).
Proof.
  induction items as [|[| |a|t| |] items IH]; intros seen; cbn; try done; try (intros E; by rewrite (IH _ E)).
  case_bool_decide as Ht; [|done]. intros E. by rewrite (IH _ E).
Qed.

End RepairTheorems.

(** * A broken session *)

Module Export RepairScene.

(** An orphan, a call answered twice, one not answered and one result too many. *)
Definition read_call : ToolCall := MkCall "c1" "read_file" "{}".
Definition run_call : ToolCall := MkCall "c2" "run_terminal" "{}".
Definition broken_session : list ConversationItem :=
  [tool_result "c9" "lost"; user "go"; assistant_tool_calls [read_call; run_call]; tool_result "c1" "old";
   tool_result "c1" "new"; tool_result "c7" "stray"; user "next"].

Lemma broken_distinct : calls_distinct broken_session.
Proof. unfold calls_distinct, broken_session. repeat (apply Forall_cons; split); try done. apply (NoDup_alt _). vm_compute. intros [|[|i]] [|[|j]] x; naive_solver. Qed.

Lemma repair_history_pairs_witness :
  calls_distinct broken_session ∧ result_ids broken_session = ["c9"; "c1"; "c1"; "c7"] ∧
  result_ids (repair_history broken_session).1 = ["c1"; "c2"] ∧ paired (repair_history broken_session).1.
Proof.
  split; [exact broken_distinct|]. split; [reflexivity|]. split; [vm_compute; reflexivity|].
  exact (proj1 (repair_history_pairs broken_session broken_distinct)).
Defined.

End RepairScene.
