(* ===== verification/ChatUsage.v ===== *)
(** Billing (crate [ainxt-chat-state], [usage.rs] and [pricing.rs]): the counters of a
    model call, the ledgers they fold into per prompt and per session, and the local
    price of a call the gateway left unpriced. [u64] counters saturate; costs are
    [i64] ticks that saturate; rates and prices are [f64]s. *)
From stdpp Require Import list gmap strings.
From S2P Require Import Prelude RustStr StrSearch Float64 Conversation.
From Stdlib Require Floats.SpecFloat.

(** * Prices *)

Module Export Pricing.

Definition f64_add : F64 → F64 → F64 := SpecFloat.SFadd 53 1024.
(** The double closest to [num / den]. *)
Definition f64_ratio (num den : N) : F64 := f64_div (f64_of_N num) (f64_of_N den).
(** [x.round() as i64] of an [x] that is not negative: halves go up. *)
Definition f64_round (max : N) (x : F64) : N :=
  match x with
  | SpecFloat.S754_finite false m e =>
      N.min max (if bool_decide (0 ≤ e)%Z then N.pos m * 2 ^ Z.to_N e
                 else (2 * N.pos m + 2 ^ Z.to_N (- e)) / (2 * 2 ^ Z.to_N (- e)))
  | SpecFloat.S754_infinity false => max
  | _ => 0
  end%N.
Definition i64_max : N := 9223372036854775807.

Definition COST_TICKS_PER_USD : F64 := f64_of_N 10000000000.

Record TokenRate : Type := MkRate {
  input_per_m : F64;
  output_per_m : F64;
  cache_read_per_m : F64;
  cache_write_per_m : option F64;
}.
Definition FREE : TokenRate := MkRate (f64_of_N 0) (f64_of_N 0) (f64_of_N 0) None.
Definition cache_write_rate (r : TokenRate) : F64 := default (input_per_m r) (cache_write_per_m r).

(** Rates in ten-thousandths of a dollar. *)
Definition rate4 (input output cache_read : N) : TokenRate :=
  MkRate (f64_ratio input 10000) (f64_ratio output 10000) (f64_ratio cache_read 10000) None.
Definition with_cache_write (r : TokenRate) (w : N) : TokenRate :=
  MkRate (input_per_m r) (output_per_m r) (cache_read_per_m r) (Some (f64_ratio w 10000)).

Definition SONNET : TokenRate := with_cache_write (rate4 30000 150000 3000) 37500.
Definition OPUS_HEAVY : TokenRate := with_cache_write (rate4 150000 750000 15000) 187500.
Definition OPUS_LIGHT : TokenRate := with_cache_write (rate4 50000 250000 5000) 62500.
Definition HAIKU : TokenRate := with_cache_write (rate4 10000 50000 1000) 12500.
Definition GPT_FLAGSHIP : TokenRate := rate4 25000 100000 12500.
Definition GPT_MINI : TokenRate := rate4 1500 6000 750.
Definition GEMINI_FLASH : TokenRate := rate4 1500 6000 375.
Definition GEMINI_PRO : TokenRate := rate4 12500 100000 3100.
Definition FALLBACK : TokenRate := OPUS_LIGHT.

Definition is_in_house (model : string) : bool :=
  let m := to_ascii_lowercase (trim model) in
  existsb (λ p, starts_with p m) ["local:"; "local-"; "local/"; "ollama:"; "ollama/"; "qwen"; "glm"; "kimi"; "gemma"]
  || existsb (λ p, starts_with p m) ["llama"; "mistral"; "deepseek"; "phi"]
  || ends_with "-inhouse" m || ends_with "-in-house" m || ends_with "-internal" m.

Definition opus_light (m : string) : bool :=
  existsb (λ n, contains n m) ["4-5"; "4.5"; "4-6"; "4.6"; "4-7"; "4.7"; "4-8"; "4.8"; "5"].

Definition rate_for (model : string) : TokenRate * bool :=
  if is_in_house model then (FREE, true)
  else
    let m := to_ascii_lowercase model in
    if contains "opus" m then (if opus_light m then OPUS_LIGHT else OPUS_HEAVY, true)
    else if contains "sonnet" m then (SONNET, true)
    else if contains "haiku" m then (HAIKU, true)
    else if contains "gpt" m || starts_with "o1" m || starts_with "o3" m || starts_with "o4" m then
      (if contains "mini" m || contains "nano" m then GPT_MINI else GPT_FLAGSHIP, true)
    else if contains "gemini" m then (if contains "pro" m then GEMINI_PRO else GEMINI_FLASH, true)
    else (FALLBACK, false).

(** The prompt by rate: fresh, cached and newly written tokens. *)
Definition buckets (input_tokens cached_read_tokens cache_write_tokens : N) : N * N * N :=
  let cached := N.min cached_read_tokens input_tokens in
  let written := N.min cache_write_tokens (input_tokens - cached) in
  (input_tokens - cached - written, cached, written)%N.

Definition per_m (tokens : N) (rate : F64) : F64 := f64_mul (f64_div (f64_of_N tokens) (f64_of_N 1000000)) rate.

Definition call_cost_usd (model : string) (input_tokens output_tokens cached_read_tokens cache_write_tokens : N) : F64 :=
  let rate := (rate_for model).1 in
  let '(fresh, cached, written) := buckets input_tokens cached_read_tokens cache_write_tokens in
  f64_add (f64_add (f64_add (per_m fresh (input_per_m rate)) (per_m output_tokens (output_per_m rate)))
             (per_m cached (cache_read_per_m rate)))
    (per_m written (cache_write_rate rate)).

Definition call_cost_ticks (model : string) (input_tokens output_tokens cached_read_tokens cache_write_tokens : N) : Z :=
  Z.of_N (f64_round i64_max (f64_mul (call_cost_usd model input_tokens output_tokens cached_read_tokens cache_write_tokens)
                               COST_TICKS_PER_USD)).

End Pricing.

(** * Ledgers *)

Module Export Ledgers.

(** [i64::saturating_add]. *)
Definition i64_add (a b : Z) : Z := Z.max (-9223372036854775808) (Z.min (a + b) (Z.of_N i64_max)).

Record UsageTotals : Type := MkTotals {
  input_tokens : N;
  output_tokens : N;
  cached_read_tokens : N;
  cache_write_tokens : N;
  reasoning_tokens : N;
  model_calls : N;
  api_duration_ms : N;
  totals_cost_usd_ticks : option Z;
  estimated_cost_usd_ticks : option Z;
  cost_missing_calls : N;
}.
Definition UsageTotals_default : UsageTotals := MkTotals 0 0 0 0 0 0 0 None None 0.

Record DisplayCost : Type := MkDisplayCost { ticks : Z; estimated : bool }.

Definition from_call (model : string) (u : TokenUsage) (api_duration : option N) (cost : option Z) : UsageTotals :=
  MkTotals (prompt_tokens u) (completion_tokens u) (cached_prompt_tokens u) (usage_cache_write_tokens u)
    (usage_reasoning_tokens u) 1 (default 0%N api_duration) cost
    (match cost with
     | Some _ => None
     | None => Some (call_cost_ticks model (prompt_tokens u) (completion_tokens u) (cached_prompt_tokens u)
                       (usage_cache_write_tokens u))
     end)
    (match cost with Some _ => 0 | None => 1 end).

Definition totals_total_tokens (t : UsageTotals) : N := sat_add64 (input_tokens t) (output_tokens t).
Definition fresh_input_tokens (t : UsageTotals) : N := (input_tokens t - cached_read_tokens t - cache_write_tokens t)%N.
Definition cost_is_partial (t : UsageTotals) : bool :=
  bool_decide (is_Some (totals_cost_usd_ticks t)) && (0 <? cost_missing_calls t)%N.

Definition displayable_cost (t : UsageTotals) : option DisplayCost :=
  match totals_cost_usd_ticks t, estimated_cost_usd_ticks t with
  | None, None => None
  | exact, estimate =>
      Some (MkDisplayCost (i64_add (default 0%Z exact) (default 0%Z estimate)) (bool_decide (is_Some estimate)))
  end.

Definition merge_cost_ticks (a b : option Z) : option Z :=
  match a, b with None, None => None | a, b => Some (i64_add (default 0%Z a) (default 0%Z b)) end.

Definition fold_totals (t other : UsageTotals) : UsageTotals :=
  MkTotals (sat_add64 (input_tokens t) (input_tokens other))
    (sat_add64 (output_tokens t) (output_tokens other))
    (sat_add64 (cached_read_tokens t) (cached_read_tokens other))
    (sat_add64 (cache_write_tokens t) (cache_write_tokens other))
    (sat_add64 (reasoning_tokens t) (reasoning_tokens other))
    (sat_add64 (model_calls t) (model_calls other))
    (sat_add64 (api_duration_ms t) (api_duration_ms other))
    (merge_cost_ticks (totals_cost_usd_ticks t) (totals_cost_usd_ticks other))
    (merge_cost_ticks (estimated_cost_usd_ticks t) (estimated_cost_usd_ticks other))
    (sat_add64 (cost_missing_calls t) (cost_missing_calls other)).

(** [IndexMap] keeps the order in which models first appear. *)
Record UsageLedger : Type := MkLedger {
  totals : UsageTotals;
  by_model : list (string * UsageTotals);
  main_loop_model_calls : N;
  incomplete : bool;
}.
Definition UsageLedger_default : UsageLedger := MkLedger UsageTotals_default [] 0 false.

Fixpoint entry_fold (model : string) (row : UsageTotals) (m : list (string * UsageTotals))
  : list (string * UsageTotals) :=
  match m with
  | [] => [(model, fold_totals UsageTotals_default row)]
  | (k, t) :: m => if bool_decide (k = model) then (k, fold_totals t row) :: m else (k, t) :: entry_fold model row m
  end.

Definition fold_entry (l : UsageLedger) (model : string) (row : UsageTotals) : UsageLedger :=
  MkLedger (fold_totals (totals l) row) (entry_fold model row (by_model l)) (main_loop_model_calls l) (incomplete l).

Definition record_main_loop_call (l : UsageLedger) (model : string) (u : TokenUsage) (api_duration : option N)
    (cost : option Z) : UsageLedger :=
  fold_entry (MkLedger (totals l) (by_model l) (sat_add64 (main_loop_model_calls l) 1) (incomplete l))
    model (from_call model u api_duration cost).

Definition mark_incomplete (l : UsageLedger) : UsageLedger :=
  MkLedger (totals l) (by_model l) (main_loop_model_calls l) true.

Definition record_subagent (l : UsageLedger) (rows : list (string * UsageTotals)) (partial : bool) : UsageLedger :=
  let l := fold_left (λ l r, fold_entry l r.1 r.2) rows l in
  if partial then mark_incomplete l else l.

End Ledgers.

(** * What the ledgers add up to *)

Module Export LedgerLaws.

(** A ledger sees calls of the main loop, the rows of a subagent, and marks. *)
Inductive LedgerOp : Type :=
| MainCall (model : string) (u : TokenUsage) (api_duration : option N) (cost : option Z)
| SubagentRows (rows : list (string * UsageTotals)) (partial : bool)
| Mark.
Definition ledger_step (l : UsageLedger) (o : LedgerOp) : UsageLedger :=
  match o with
  | MainCall model u d c => record_main_loop_call l model u d c
  | SubagentRows rows partial => record_subagent l rows partial
  | Mark => mark_incomplete l
  end.
Definition ledger_run (ops : list LedgerOp) : UsageLedger := fold_left ledger_step ops UsageLedger_default.

(** The rows an operation adds. *)
Definition op_rows (o : LedgerOp) : list (string * UsageTotals) :=
  match o with
  | MainCall model u d c => [(model, from_call model u d c)]
  | SubagentRows rows _ => rows
  | Mark => []
  end.
Definition op_calls (o : LedgerOp) : N := match o with MainCall _ _ _ _ => 1 | _ => 0 end.
Definition op_marks (o : LedgerOp) : bool :=
  match o with MainCall _ _ _ _ => false | SubagentRows _ p => p | Mark => true end.

Definition counters : list (UsageTotals → N) :=
  [input_tokens; output_tokens; cached_read_tokens; cache_write_tokens; reasoning_tokens; model_calls;
   api_duration_ms; cost_missing_calls].
Definition costs : list (UsageTotals → option Z) := [totals_cost_usd_ticks; estimated_cost_usd_ticks].

(** A row of 64-bit counters with prices that are not negative, whose estimate covers
    its unpriced calls. *)
Definition priced (c : option Z) : Prop := match c with Some t => (0 ≤ t ≤ Z.of_N i64_max)%Z | None => True end.
Definition counted (n : N) : Prop := (n ≤ u64_max)%N.
Definition sound_row (t : UsageTotals) : Prop :=
  Forall (λ f, counted (f t)) counters ∧
  priced (totals_cost_usd_ticks t) ∧ priced (estimated_cost_usd_ticks t) ∧
  (estimated_cost_usd_ticks t = None ↔ cost_missing_calls t = 0%N).

Definition sum_counter (l : list N) : N := foldr sat_add64 0%N l.
Definition sum_cost (l : list (option Z)) : option Z := foldr merge_cost_ticks None l.

Lemma sat_add64_assoc a b c : sat_add64 a (sat_add64 b c) = sat_add64 (sat_add64 a b) c.
Proof. unfold sat_add64. lia. Qed.
Lemma sat_add64_comm a b : sat_add64 a b = sat_add64 b a.
Proof. unfold sat_add64. lia. Qed.
Lemma sat_add64_counted a b : counted (sat_add64 a b).
Proof. unfold counted, sat_add64. lia. Qed.
Lemma sat_add64_0_l a : counted a → sat_add64 0 a = a.
Proof. unfold counted, sat_add64. lia. Qed.

Lemma merge_comm a b : merge_cost_ticks a b = merge_cost_ticks b a.
Proof. destruct a, b; cbn; f_equal; unfold i64_add; lia. Qed.
Lemma merge_priced a b : priced a → priced b → priced (merge_cost_ticks a b).
Proof. destruct a, b; cbn; unfold i64_add, i64_max; lia. Qed.
Lemma merge_assoc a b c : priced a → priced b → priced c →
  merge_cost_ticks a (merge_cost_ticks b c) = merge_cost_ticks (merge_cost_ticks a b) c.
Proof. destruct a, b, c; cbn; unfold i64_add, i64_max; intros; f_equal; lia. Qed.
Lemma merge_None_l a : priced a → merge_cost_ticks None a = a.
Proof. destruct a; cbn; unfold i64_add, i64_max; intros; f_equal; lia. Qed.

(** Folding a row into a map adds it to the sum over the map. *)
Section Sums.
Context {A : Type} (op : A → A → A) (zero : A) (P : A → Prop).
Context (Pop : ∀ a b, P a → P b → P (op a b)) (Pzero : P zero).
Context (assoc_P : ∀ a b c, P a → P b → P c → op a (op b c) = op (op a b) c) (comm_op : ∀ a b, op a b = op b a).
Context (zero_op : ∀ a, P a → op zero a = a).
Context (f : UsageTotals → A) (f_fold : ∀ t r, f (fold_totals t r) = op (f t) (f r)) (f_default : f UsageTotals_default = zero).

Definition map_sum (m : list (string * UsageTotals)) : A := foldr op zero (f <$> m.*2).

Lemma P_map_sum m : Forall (λ e, P (f e.2)) m → P (map_sum m).
Proof. induction 1; [done|]. by apply Pop. Qed.

Lemma P_entry_fold model row m : P (f row) → Forall (λ e, P (f e.2)) m → Forall (λ e, P (f e.2)) (entry_fold model row m).
Proof.
  intros Hr. induction 1 as [|[k t] m Ht Hm IH]; cbn.
  - repeat constructor. cbn. rewrite f_fold, f_default. by apply Pop.
  - case_bool_decide; constructor; try done. cbn. rewrite f_fold. by apply Pop.
Qed.

Lemma map_sum_entry model row m : P (f row) → Forall (λ e, P (f e.2)) m →
  map_sum (entry_fold model row m) = op (map_sum m) (f row).
Proof.
  intros Hr. induction 1 as [|[k t] m Ht Hm IH]; cbn.
  - unfold map_sum. cbn. rewrite f_fold, f_default, !zero_op by done. by rewrite comm_op, zero_op.
  - pose proof (P_map_sum m Hm). case_bool_decide; unfold map_sum in *; cbn; rewrite ?IH, ?f_fold.
    + rewrite <-!assoc_P by done. f_equal. apply comm_op.
    + by rewrite assoc_P.
Qed.

End Sums.

Lemma f_counter f t r : f ∈ counters → f (fold_totals t r) = sat_add64 (f t) (f r).
Proof. unfold counters. rewrite !elem_of_cons, elem_of_nil. naive_solver. Qed.
Lemma f_cost g t r : g ∈ costs → g (fold_totals t r) = merge_cost_ticks (g t) (g r).
Proof. unfold costs. rewrite !elem_of_cons, elem_of_nil. naive_solver. Qed.
Lemma default_counter f : f ∈ counters → f UsageTotals_default = 0%N.
Proof. unfold counters. rewrite !elem_of_cons, elem_of_nil. naive_solver. Qed.
Lemma default_cost g : g ∈ costs → g UsageTotals_default = None.
Proof. unfold costs. rewrite !elem_of_cons, elem_of_nil. naive_solver. Qed.

Lemma sound_counter f t : f ∈ counters → sound_row t → counted (f t).
Proof. intros Hf [Hc _]. rewrite Forall_forall in Hc. by apply Hc. Qed.
Lemma sound_cost g t : g ∈ costs → sound_row t → priced (g t).
Proof. unfold costs. rewrite !elem_of_cons, elem_of_nil. intros Hg (_ & H1 & H2 & _). naive_solver. Qed.

Lemma sound_default : sound_row UsageTotals_default.
Proof. split; [repeat constructor; done|]. done. Qed.

Lemma sound_fold t r : sound_row t → sound_row r → sound_row (fold_totals t r).
Proof.
  intros Ht Hr. split; [|split; [|split]].
  - apply Forall_forall. intros f Hf. rewrite f_counter by done. apply sat_add64_counted.
  - apply merge_priced; by apply (sound_cost totals_cost_usd_ticks); [left|].
  - apply merge_priced; by apply (sound_cost estimated_cost_usd_ticks); [right; left|].
  - destruct Ht as (_ & _ & _ & Ht), Hr as (_ & _ & _ & Hr). cbn.
    destruct (estimated_cost_usd_ticks t), (estimated_cost_usd_ticks r); cbn; unfold sat_add64, u64_max; naive_solver lia.
Qed.

Lemma sound_entry model row m : sound_row row → Forall (λ e, sound_row e.2) m → Forall (λ e, sound_row e.2) (entry_fold model row m).
Proof.
  intros Hr. induction 1 as [|[k t] m Ht Hm IH]; cbn.
  - constructor; [|constructor]. cbn. apply sound_fold; [apply sound_default|done].
  - case_bool_decide; constructor; try done. cbn. by apply sound_fold.
Qed.

(** The ledger's totals are the sums of its rows, one row per model. *)
Definition balanced (l : UsageLedger) : Prop :=
  NoDup (by_model l).*1 ∧ Forall (λ e, sound_row e.2) (by_model l) ∧ sound_row (totals l) ∧
  Forall (λ f, f (totals l) = sum_counter (f <$> (by_model l).*2)) counters ∧
  Forall (λ g, g (totals l) = sum_cost (g <$> (by_model l).*2)) costs.

Lemma entry_keys model row m k : k ∈ (entry_fold model row m).*1 ↔ k = model ∨ k ∈ m.*1.
Proof.
  induction m as [|[k' t] m IH]; cbn; [by rewrite list_elem_of_singleton, elem_of_nil; naive_solver|].
  case_bool_decide as E; cbn; rewrite !elem_of_cons, ?IH; naive_solver.
Qed.

Lemma entry_NoDup model row m : NoDup m.*1 → NoDup (entry_fold model row m).*1.
Proof.
  induction m as [|[k t] m IH]; cbn; [intros _; apply NoDup_singleton|].
  intros [Hk Hm]%NoDup_cons. case_bool_decide as E; cbn; apply NoDup_cons; [done|].
  split; [|by apply IH]. rewrite entry_keys. naive_solver.
Qed.

Lemma balanced_entry l model row : sound_row row → balanced l → balanced (fold_entry l model row).
Proof.
  intros Hr (Hnd & Hm & Ht & Hf & Hg). unfold fold_entry. split; [|split; [|split; [|split]]]; cbn [by_model totals].
  - by apply entry_NoDup.
  - by apply sound_entry.
  - by apply sound_fold.
  - apply Forall_forall. intros f Hin. rewrite Forall_forall in Hf. rewrite f_counter, (Hf f Hin) by done.
    symmetry. refine (map_sum_entry sat_add64 0%N counted _ _ _ _ _ f _ _ model row _ _ _).
    + intros; apply sat_add64_counted.
    + done.
    + intros; apply sat_add64_assoc.
    + apply sat_add64_comm.
    + apply sat_add64_0_l.
    + intros; by apply f_counter.
    + by apply default_counter.
    + by apply sound_counter.
    + eapply Forall_impl; [exact Hm|]. intros e. by apply sound_counter.
  - apply Forall_forall. intros g Hin. rewrite Forall_forall in Hg. rewrite f_cost, (Hg g Hin) by done.
    symmetry. refine (map_sum_entry merge_cost_ticks None priced _ _ _ _ _ g _ _ model row _ _ _).
    + apply merge_priced.
    + done.
    + apply merge_assoc.
    + apply merge_comm.
    + apply merge_None_l.
    + intros; by apply f_cost.
    + by apply default_cost.
    + by apply sound_cost.
    + eapply Forall_impl; [exact Hm|]. intros e. by apply sound_cost.
Qed.

Lemma f64_round_le max x : (f64_round max x ≤ max)%N.
Proof. unfold f64_round. destruct x as [|[]| |[] m e]; lia. Qed.

Lemma from_call_sound model u d c : Forall counted [prompt_tokens u; completion_tokens u; usage_reasoning_tokens u; cached_prompt_tokens u; usage_cache_write_tokens u] →
  counted (default 0%N d) → priced c → sound_row (from_call model u d c).
Proof.
  intros Hu Hd Hc. repeat (apply Forall_cons in Hu as [? Hu]). split; [|split; [done|split]].
  - unfold counters. repeat constructor; cbn; try done; by destruct c.
  - unfold from_call. cbn. destruct c; [done|]. cbn. unfold call_cost_ticks. split; [lia|].
    apply (N2Z.inj_le _ i64_max), f64_round_le.
  - unfold from_call. cbn. by destruct c.
Qed.

Lemma balanced_rows rows : ∀ l, Forall (λ r, sound_row r.2) rows → balanced l →
  balanced (fold_left (λ l r, fold_entry l r.1 r.2) rows l).
Proof.
  induction rows as [|r rows IH]; intros l Hr Hl; [done|]. apply Forall_cons in Hr as [Hr Hrs]. cbn. apply IH; [done|].
  by apply balanced_entry.
Qed.

Definition op_sound (o : LedgerOp) : Prop := Forall (λ r, sound_row r.2) (op_rows o).

Lemma balanced_step l o : op_sound o → balanced l → balanced (ledger_step l o).
Proof.
  intros Ho Hl. destruct o as [model u d c|rows partial|]; cbn.
  - apply Forall_cons in Ho as [Ho _]. by apply (balanced_entry (MkLedger _ _ _ _)).
  - unfold record_subagent. pose proof (balanced_rows rows l Ho Hl). by destruct partial.
  - done.
Qed.

Lemma balanced_default : balanced UsageLedger_default.
Proof.
  split; [constructor|]. split; [constructor|]. split; [apply sound_default|]. split; repeat constructor.
Qed.

Lemma rows_flags rows l : let l' := fold_left (λ l r, fold_entry l r.1 r.2) rows l in
  main_loop_model_calls l' = main_loop_model_calls l ∧ incomplete l' = incomplete l.
Proof. revert l. induction rows as [|r rows IH]; intros l; [done|]. cbn. by destruct (IH (fold_entry l r.1 r.2)) as [-> ->]. Qed.

Lemma rows_totals (rows : list (string * UsageTotals)) l :
  totals (fold_left (λ l r, fold_entry l r.1 r.2) rows l) = fold_left fold_totals rows.*2 (totals l).
Proof. revert l. induction rows as [|r rows IH]; intros l; [done|]. cbn. by rewrite IH. Qed.

(** A ledger balances: its totals are, counter by counter and cost by cost, the sums
    of its rows, one row per model, and these hold what was recorded; the reported
    and the estimated cost stay apart, and there is an estimate exactly when some
    call was unpriced; its turns are the calls of the main loop, and it is incomplete
    exactly when something marked it so. *)
Theorem ledger_balances ops : Forall op_sound ops →
  let l := ledger_run ops in
  balanced l ∧
  totals l = fold_left fold_totals (ops ≫= op_rows).*2 UsageTotals_default ∧
  (estimated_cost_usd_ticks (totals l) = None ↔ cost_missing_calls (totals l) = 0%N) ∧
  main_loop_model_calls l = sum_counter (op_calls <$> reverse ops) ∧
  incomplete l = existsb op_marks ops.
Proof.
  intros Hops l. unfold l, ledger_run.
  assert (Hb : balanced (fold_left ledger_step ops UsageLedger_default)).
  { apply fold_left_inv; [apply balanced_default|]. intros a o Hin. rewrite Forall_forall in Hops. apply balanced_step. by apply Hops. }
  split; [done|]. split; [|split; [by destruct Hb as (_ & _ & (_ & _ & _ & Hs) & _)|]]; clear Hb Hops l.
  - induction ops as [|o ops IH] using rev_ind; [done|]. rewrite fold_left_app, bind_app, fmap_app, fold_left_app, <-IH.
    cbn. rewrite app_nil_r. destruct o as [model u d c|rows partial|]; cbn; [done| |done].
    unfold record_subagent. rewrite <-rows_totals. by destruct partial.
  - induction ops as [|o ops IH] using rev_ind; [done|]. rewrite fold_left_app, existsb_app, reverse_app.
    destruct IH as [IH1 IH2]. cbn [fold_left existsb fmap list_fmap app]. rewrite orb_false_r, <-IH2. change (reverse [o]) with [o]. cbn [app fmap list_fmap].
    change (sum_counter (op_calls o :: (op_calls <$> reverse ops))) with (sat_add64 (op_calls o) (sum_counter (op_calls <$> reverse ops))).
    rewrite <-IH1. set (l := fold_left ledger_step ops UsageLedger_default) in *.
    assert (Hc : counted (main_loop_model_calls l)).
    { rewrite IH1. destruct (reverse ops); [done|]. apply sat_add64_counted. }
    destruct o as [model u d c|rows partial|]; cbn.
    + by rewrite sat_add64_comm, orb_false_r.
    + unfold record_subagent. destruct (rows_flags rows l) as [E1 E2].
      destruct partial; cbn; rewrite E1, ?E2, sat_add64_0_l by done; by rewrite ?orb_true_r, ?orb_false_r.
    + by rewrite sat_add64_0_l, orb_true_r.
Qed.

End LedgerLaws.

(** * A session's bill *)

Module Export UsageScene.

Definition big_call : TokenUsage := MkTokenUsage 1000 200 1200 50 100 0.
Definition bill : list LedgerOp :=
  [MainCall "grok-4" big_call (Some 900%N) (Some 5000%Z); MainCall "local" big_call None None;
   SubagentRows [("grok-4", from_call "grok-4" big_call None (Some 700%Z))] true].

Lemma bill_sound : Forall op_sound bill.
Proof.
  assert (Hone : ∀ model d c, counted (default 0%N d) → priced c → Forall (λ r, sound_row r.2) [(model, from_call model big_call d c)]).
  { intros model d c Hd Hc. apply Forall_cons. split; [|by apply Forall_nil]. apply from_call_sound; [|done|done].
    repeat (apply Forall_cons; split); try by apply Forall_nil. all: vm_compute; done. }
  unfold bill, op_sound. repeat (constructor; [apply Hone; vm_compute; done|]). constructor.
Qed.

Lemma ledger_balances_witness :
  Forall op_sound bill ∧ balanced (ledger_run bill) ∧ main_loop_model_calls (ledger_run bill) = 2%N ∧
  totals_cost_usd_ticks (totals (ledger_run bill)) = Some 5700%Z ∧ incomplete (ledger_run bill) = true.
Proof.
  split; [exact bill_sound|]. split; [exact (proj1 (ledger_balances bill bill_sound))|]. split; [vm_compute; reflexivity|].
  split; vm_compute; reflexivity.
Defined.

End UsageScene.
