(* ===== verification/ChatHistory.v ===== *)
(** What compaction makes of a chat history (crates [ainxt-token-estimation] and
    [ainxt-chat-state], [compaction_utils.rs] and the estimates of
    [actor/state.rs]): token estimates, the histories prepared for a summary, fitting
    one into a token budget, which user turns are real and what they ask, and the
    compacted history; with the pairing of calls and results that all of them keep. *)
From stdpp Require Import list gmap strings.
From S2P Require Import Prelude RustStr StrSearch Compaction CompactText Conversation ConversationRepair.

(** * Token estimates *)

Module Export Tokens.

Definition BYTES_PER_TOKEN : N := 4.
Definition IMAGE_TOKEN_ESTIMATE : N := 765.

(** [saturating_mul] of [u64]s. *)
Definition sat_mul64 (a b : N) : N := N.min (a * b) u64_max.

Definition str_len (s : string) : N := N.of_nat (String.length s).
Definition estimate_tokens (s : string) : N := (str_len s / BYTES_PER_TOKEN)%N.
Definition estimate_chars (tokens : N) : N := sat_mul64 tokens BYTES_PER_TOKEN.
Definition estimate_image_tokens (image_count : N) : N := sat_mul64 image_count IMAGE_TOKEN_ESTIMATE.

Definition usage_percentage_truncated_u8 (used total : N) : N :=
  if (total =? 0)%N then 0%N else N.min (sat_mul64 used 100 / total) 100.
Definition free_tokens (total used : N) : N := (total - used)%N.

Definition exceeds_threshold (used context_window threshold_percent : N) : bool :=
  if (context_window =? 0)%N then false
  else (sat_mul64 context_window threshold_percent <=? sat_mul64 used 100)%N.
Definition exceeds_threshold_with_headroom (used context_window threshold_percent headroom : N) : bool :=
  if (context_window =? 0)%N then false
  else (sat_mul64 context_window threshold_percent - sat_mul64 headroom 100 <=? sat_mul64 used 100)%N.

Definition sum_N (l : list N) : N := foldr N.add 0%N l.
Definition part_bytes (p : ContentPart) : N := match p with Text t => str_len t | Image _ => 0%N end.

(** [None] when the summary of a backend call panics. The sums of byte counts fit
    their 64 bits: the bytes are in memory. *)
Definition estimate_item_tokens (i : ConversationItem) : option N :=
  match i with
  | System s => Some (estimate_tokens (system_content s))
  | User u =>
      Some (sum_N (part_bytes <$> user_content u) / BYTES_PER_TOKEN +
            estimate_image_tokens (N.of_nat (count_images (user_content u))))%N
  | Assistant a =>
      Some ((str_len (assistant_content a) + sum_N ((λ tc, str_len (arguments tc)) <$> tool_calls a)) / BYTES_PER_TOKEN)%N
  | ToolResult t => Some (estimate_tokens (result_content t))
  | BackendToolCall b => estimate_tokens <$> text_summary b
  | Reasoning r =>
      Some ((str_len (reasoning_item_text r) + default 0%N (str_len <$> encrypted_content r)) / BYTES_PER_TOKEN)%N
  end.

Definition estimate_conversation_tokens (items : list ConversationItem) : option N :=
  sum_N <$> mapM estimate_item_tokens items.
Definition estimate_messages_tokens (items : list ConversationItem) : option N :=
  sum_N <$> mapM estimate_item_tokens (filter (λ i, is_system i = false) items).
Definition estimate_system_message_tokens (i : ConversationItem) : N :=
  match i with System s => estimate_tokens (system_content s) | _ => 0%N end.

(** [ToolDefinition]s print their parameters with [serde_json]. *)
Definition estimate_tool_definition_tokens (print_json : Json → string) (td : ToolSpec) : N :=
  ((str_len (tool_name td) + default 0%N (str_len <$> description td) + str_len (print_json (parameters td)))
   / BYTES_PER_TOKEN)%N.
Definition estimate_tool_definitions_tokens (print_json : Json → string) (tds : list ToolSpec) : N :=
  sum_N (estimate_tool_definition_tokens print_json <$> tds).

(** The counter of the compaction engine saturates at 32 bits; a panicking estimate
    counts as nothing here. *)
#[export] Instance estimated_item_token_counter : ItemTokenCounter ConversationItem :=
  λ i, N.min (default 0%N (estimate_item_tokens i)) u32_max.

End Tokens.

(** * Histories prepared for a summary *)

Module Export Prepare.

Definition called_tools (a : AssistantItem) : string :=
  newline +:+ "[Called tools: " +:+ join ", " (call_name <$> tool_calls a) +:+ "]".
Definition flatten_calls (a : AssistantItem) : AssistantItem :=
  if bool_decide (tool_calls a = []) then a
  else MkAssistant (assistant_content a +:+ called_tools a) [] (model_id a) (model_fingerprint a) (item_effort a).

Definition strip_tool_messages_for_conversation_item (conversation : list ConversationItem) : list ConversationItem :=
  omap (λ i, match i with
             | ToolResult _ => None
             | Assistant a => Some (Assistant (flatten_calls a))
             | other => Some other
             end) conversation.

Definition strip_reasoning_blocks (conversation : list ConversationItem) : list ConversationItem :=
  filter (λ i, is_reasoning i = false) conversation.

Definition strip_images (conversation : list ConversationItem) : list ConversationItem :=
  (λ i, match i with
        | User u => User (set_content u (strip_image_part "[image]" <$> user_content u))
        | other => other
        end) <$> conversation.

Definition prepare_conversation_for_summarization (conversation : list ConversationItem) : list ConversationItem :=
  strip_images (strip_reasoning_blocks (strip_tool_messages_for_conversation_item conversation)).
Definition prepare_conversation_for_segment (conversation : list ConversationItem) : list ConversationItem :=
  strip_images (strip_reasoning_blocks conversation).

Definition makes_calls (i : ConversationItem) : bool :=
  match i with Assistant a => negb (bool_decide (tool_calls a = [])) | _ => false end.

(** Dropping from the end, on the reversed list. *)
Fixpoint drop_calls (reversed : list ConversationItem) : list ConversationItem :=
  match reversed with i :: l => if makes_calls i then drop_calls l else reversed | [] => [] end.
Definition truncate_trailing_incomplete_tool_call (conversation : list ConversationItem) : list ConversationItem :=
  reverse (drop_calls (reverse conversation)).

Definition prepare_conversation_for_verbatim_summarization (conversation : list ConversationItem)
    (strip_reasoning : bool) : list ConversationItem :=
  truncate_trailing_incomplete_tool_call
    (if strip_reasoning then strip_reasoning_blocks conversation else conversation).

End Prepare.

(** * Fitting a history into a budget *)

Module Export Fit.

Definition MARKER_RESERVE : nat := 64.
Definition truncation_note (dropped : nat) : string :=
  newline +:+ "[... truncated " +:+ show_nat dropped +:+ " bytes to fit the compaction window ...]".

Definition truncate_text_to_bytes (s : string) (max_bytes : nat) : option string :=
  if String.length s <=? max_bytes then None
  else let end_ := boundary_before s (Nat.min (max_bytes - MARKER_RESERVE) (String.length s)) in
       Some (str_take end_ s +:+ truncation_note (String.length s - end_)).
Definition truncated (max_bytes : nat) (s : string) : string := default s (truncate_text_to_bytes s max_bytes).

(** [saturating_mul] of [usize]s. *)
Definition max_bytes_of (max_tokens : N) : nat := N.to_nat (sat_mul64 max_tokens 4).

Definition truncate_item_to_tokens (max_tokens : N) (i : ConversationItem) : ConversationItem :=
  let cut := truncated (max_bytes_of max_tokens) in
  match i with
  | ToolResult t => ToolResult (MkToolResult (tool_call_id t) (cut (result_content t)) (images t))
  | Assistant a => Assistant (MkAssistant (cut (assistant_content a)) (tool_calls a) (model_id a) (model_fingerprint a) (item_effort a))
  | User u => User (set_content u ((λ p, match p with Text t => Text (cut t) | p => p end) <$> user_content u))
  | other => other
  end.

(** The results at the end, and what stands before them. *)
Definition split_results (l : list ConversationItem) : list ConversationItem * list ConversationItem :=
  let run := take_results (reverse l) in (take (length l - length run) l, drop (length l - length run) l).

Section Budget.
(** The estimates of the items, which the caller has already computed once. *)
Context (cost : ConversationItem → N).

(** How many costs at the front fit into the budget. *)
Fixpoint fitting (remaining : N) (costs : list N) : nat :=
  match costs with
  | c :: costs => if (c <=? remaining)%N then S (fitting (remaining - c) costs) else 0
  | [] => 0
  end.

Definition recover_truncated_tail_unit (l : list ConversationItem) (budget : N) : list ConversationItem :=
  let (before, results) := split_results l in
  match results with
  | [] => match last before with Some i => [truncate_item_to_tokens budget i] | None => [] end
  | _ =>
      let owner := match last before with Some i => if makes_calls i then [i] else [] | None => [] end in
      let result_budget := (budget - sum_N (cost <$> owner))%N in
      let per := N.max (result_budget / N.of_nat (length results)) 1 in
      owner ++ (truncate_item_to_tokens per <$> results)
  end.

Fixpoint skip_results (l : list ConversationItem) : list ConversationItem :=
  match l with ToolResult _ :: l => skip_results l | l => l end.

Definition fit_body (budget : N) (l : list ConversationItem) : list ConversationItem :=
  let start := length l - fitting budget (reverse (cost <$> l)) in
  match skip_results (drop start l) with
  | [] => recover_truncated_tail_unit l budget
  | kept => kept
  end.

Definition fit_over (conversation : list ConversationItem) (max_tokens : N) : list ConversationItem :=
  match conversation with
  | System s :: l => System s :: fit_body (max_tokens - cost (System s)) l
  | l => fit_body max_tokens l
  end.

End Budget.

Definition known_cost (i : ConversationItem) : N := default 0%N (estimate_item_tokens i).
Definition fit_conversation_to_budget (conversation : list ConversationItem) (max_tokens : N)
  : option (list ConversationItem) :=
  total ← estimate_conversation_tokens conversation;
  Some (if (total <=? max_tokens)%N then conversation else fit_over known_cost conversation max_tokens).

End Fit.

(** * User queries *)

Module Export Queries.

Definition SYSTEM_TAGS : list string :=
  ["user_info"; "project_layout"; "git_status"; "fork-context"; "system-reminder"; "agent-memory";
   "system_reminder"; "background_context"; "command-name"; "command-message"; "command-args"].
Definition open_tag (t : string) : string := "<" +:+ t +:+ ">".
Definition close_tag (t : string) : string := "</" +:+ t +:+ ">".

(** One pass of the loop: the first block of the tag taken out. *)
Definition strip_step (t : string) (s : string) : option string :=
  start ← find (open_tag t) s;
  rel_end ← find (close_tag t) (str_drop start s);
  Some (str_take start s +:+ str_drop (start + rel_end + String.length (close_tag t)) s).

Fixpoint strip_tag (fuel : nat) (t : string) (s : string) : string :=
  match fuel with
  | 0 => s
  | S fuel => match strip_step t s with Some s => strip_tag fuel t s | None => s end
  end.

Definition strip_system_tags (text : string) : string :=
  trim (fold_left (λ s t, strip_tag (S (String.length s)) t s) SYSTEM_TAGS text).

Definition extract_user_query (text : string) : string :=
  match (start ← find "<user_query>" text;
         let rest := str_drop (start + String.length "<user_query>") text in
         end_ ← find "</user_query>" rest;
         Some (trim (str_take end_ rest))) with
  | Some inner => strip_system_tags inner
  | None => strip_system_tags text
  end.

Definition AUTO_CONTINUE_PROMPT : string :=
  "Continue the conversation from where it left off without asking the user any further questions. Resume directly - do not acknowledge the summary, do not recap what was happening, do not preface with "
  +:+ quote_str +:+ "I'll continue" +:+ quote_str +:+ " or similar." +:+ newline +:+
  "Pick up the last task as if the break never happened.".

Definition is_synthetic_extracted_query (text : string) : bool :=
  is_empty text || bool_decide (text = "__auto_continue__") || bool_decide (text = AUTO_CONTINUE_PROMPT).

Definition as_user (i : ConversationItem) : option UserItem := match i with User u => Some u | _ => None end.

Definition extract_last_user_query (conversation : list ConversationItem) : option string :=
  match last (omap as_user conversation) with
  | Some u => let q := extract_user_query (user_text u) in if is_empty q then None else Some q
  | None => None
  end.

Definition is_real_user (u : UserItem) : bool :=
  match synthetic_reason u with
  | Some _ => false
  | None => if existsb is_image (user_content u) then true
            else negb (is_synthetic_extracted_query (extract_user_query (user_text u)))
  end.
Definition is_real_user_turn (i : ConversationItem) : bool :=
  match i with User u => is_real_user u | _ => false end.

Definition real_users (conversation : list ConversationItem) : list UserItem :=
  filter (λ u, is_real_user u = true) (omap as_user conversation).
Definition extract_real_user_queries (conversation : list ConversationItem) : list string :=
  (λ u, extract_user_query (user_text u)) <$> real_users conversation.
Definition extract_last_real_user_query (conversation : list ConversationItem) : option string :=
  (λ u, extract_user_query (user_text u)) <$> last (real_users conversation).

Definition OMITTED : string := "Tool call omitted...".
(** The messages of a tail: assistant messages, and results without their content. *)
Definition tail_message (i : ConversationItem) : option ConversationItem :=
  match i with
  | Assistant a => Some (Assistant a)
  | ToolResult t => Some (tool_result (tool_call_id t) OMITTED)
  | _ => None
  end.

(** What follows the last item with a property, or everything. *)
Definition after_last (f : ConversationItem → bool) (l : list ConversationItem) : list ConversationItem :=
  match rposition f l with Some n => drop (S n) l | None => l end.

Definition extract_messages_since_last_user (conversation : list ConversationItem) : list ConversationItem :=
  omap tail_message (after_last is_user conversation).
Definition extract_messages_since_last_real_user (conversation : list ConversationItem) : list ConversationItem :=
  omap tail_message (after_last is_real_user_turn conversation).

End Queries.

(** * The compacted history *)

Module Export Compacted.

Record RunningSubagentSummary : Type := MkSubagentSummary {
  subagent_id : string; subagent_type : string; subagent_description : string; elapsed_ms : N }.
Record BackgroundTaskSummary : Type := MkTaskSummary {
  task_id : string; task_command : string; task_status : string; task_tool_name : option string }.
Record CompactionServerSummary : Type := MkServerSummary {
  server_name : string; tool_count : nat; server_description : option string }.
Inductive TodoSummaryStatus : Type := Pending | InProgress | Completed | Cancelled.
Definition todo_is_actionable (s : TodoSummaryStatus) : bool :=
  match s with Pending | InProgress => true | Completed | Cancelled => false end.
Definition todo_status_tag (s : TodoSummaryStatus) : string :=
  match s with
  | Pending => "[pending]" | InProgress => "[in_progress]"
  | Completed => "[completed]" | Cancelled => "[cancelled]"
  end.
Record TodoSummary : Type := MkTodo { todo_id : string; todo_content : string; todo_status : TodoSummaryStatus }.

Record CompactionStateContext : Type := MkStateContext {
  recent_messages : list ConversationItem;
  last_user_query : option string;
  context_edited_paths : list string;
  running_tasks : list BackgroundTaskSummary;
  running_subagents : list RunningSubagentSummary;
  connected_mcp_servers : list CompactionServerSummary;
  todos : list TodoSummary;
}.
(** The edited paths come as a set in order. *)
Record CompactionInputs : Type := MkInputs {
  in_tasks : list BackgroundTaskSummary;
  in_subagents : list RunningSubagentSummary;
  in_edited_paths : list string;
  in_servers : list CompactionServerSummary;
  in_todos : list TodoSummary;
}.

Definition context_build (conversation : list ConversationItem) (inputs : CompactionInputs) : CompactionStateContext :=
  MkStateContext (extract_messages_since_last_real_user conversation) (extract_last_real_user_query conversation)
    (in_edited_paths inputs) (in_tasks inputs) (in_subagents inputs) (in_servers inputs) (in_todos inputs).

Definition for_compaction (c : CompactionStateContext) : CompactionStateContext :=
  MkStateContext [] (last_user_query c) (context_edited_paths c) (running_tasks c) (running_subagents c)
    (connected_mcp_servers c) (todos c).

Record CompactedHistoryInput : Type := MkHistoryInput {
  system_message : ConversationItem;
  user_message_prefix : string;
  agents_md_reminder : option string;
  state_context : CompactionStateContext;
  compaction_summary : string;
  history_reminder : option string;
  transcript_hint : option string;
}.

Definition summary_item (input : CompactedHistoryInput) : ConversationItem :=
  user_meta (format_compact_summary_content (compaction_summary input) +:+ default "" (transcript_hint input)).

(** The carrier that would put the summary first is not compiled in. *)
Definition build_compacted_history (input : CompactedHistoryInput) : list ConversationItem :=
  [system_message input; user_meta (user_message_prefix input)] ++
  (project_instructions <$> option_list (agents_md_reminder input)) ++
  ((λ q, user (wrap_user_query q)) <$> option_list (last_user_query (state_context input))) ++
  recent_messages (state_context input) ++ [summary_item input] ++
  (system_reminder <$> option_list (history_reminder input)).

Definition format_transcript_location (path : string) : string :=
  newline +:+ newline +:+ "<transcript_location>" +:+ newline +:+
  "The full, unsummarized transcript of this conversation is saved at:" +:+ newline +:+ path +:+ newline +:+
  "If you need details that were dropped from the summary above (exact code, error text, file contents, or earlier tool output), read this file to recover them."
  +:+ newline +:+ "</transcript_location>".

(** The horizontal ellipsis. *)
Definition TRUNC_MARK : string := str_of_bytes [226; 128; 166]%N.

(** Characters, not bytes. *)
Definition bound_captured_output (s : string) (max_chars : nat) : string :=
  let cs := chars s in
  let total := length cs in
  if total <=? max_chars then s
  else
    let head := max_chars / 2 in
    let tail := max_chars - head in
    concat_str (take head cs) +:+ newline +:+ newline +:+ TRUNC_MARK +:+ "[" +:+ show_nat (total - head - tail) +:+
    " chars elided]" +:+ TRUNC_MARK +:+ newline +:+ newline +:+ concat_str (drop (total - tail) cs).

End Compacted.

(** * Pairs of calls and results survive *)

Module Export Pairs.

Lemma body_app bs bs' : body (bs ++ bs') = body bs ++ body bs'.
Proof. unfold body. apply bind_app. Qed.

Lemma paired_body items : paired items ↔ ∃ bs, items = body bs ∧ Forall proper bs ∧ Forall paired_block bs.
Proof.
  split.
  - intros [Ho Hp]. exists (to_blocks items).2. split; [|split; [apply to_blocks_proper|done]].
    rewrite <-(of_to_blocks items) at 1. unfold of_blocks. by rewrite Ho.
  - intros (bs & -> & Hbs & Hp). unfold paired. rewrite body_head by done. done.
Qed.

Lemma paired_app l l' : paired l → paired l' → paired (l ++ l').
Proof.
  rewrite !paired_body. intros (bs & -> & Hb & Hp) (bs' & -> & Hb' & Hp'). exists (bs ++ bs').
  rewrite body_app, !Forall_app. done.
Qed.

Lemma paired_nil : paired [].
Proof. by split. Qed.

(** An item that makes no call and is no result. *)
Definition plain_item (i : ConversationItem) : bool := negb (is_result i) && negb (makes_calls i).

Lemma paired_plain i l : plain_item i = true → paired l → paired (i :: l).
Proof.
  intros Hi Hl. apply (paired_app [i]); [|done]. apply paired_body. exists [(i, [])].
  unfold plain_item in Hi. apply andb_true_iff in Hi as [Hr Hc]. split; [done|]. split; repeat constructor.
  - unfold proper. by destruct i.
  - unfold paired_block, answers, block_calls. destruct i as [| |a| | |]; try done. cbn in *.
    destruct (tool_calls a); done.
Qed.

Lemma paired_plains l l' : Forall (λ i, plain_item i = true) l → paired l' → paired (l ++ l').
Proof. induction 1; intros Hl'; [done|]. cbn. apply paired_plain; auto. Qed.

(** A paired history passes the check of compacted histories. *)
Lemma validate_weaken items : ∀ seen seen', seen ⊆ seen' → validate_from seen items = [] → validate_from seen' items = [].
Proof.
  induction items as [|[| |a|t| |] items IH]; intros seen seen' Hs; cbn; try done; try (by apply IH).
  - apply IH. intros i [Hi|Hi]%elem_of_app; apply elem_of_app; [left; by apply Hs|by right].
  - case_bool_decide as Ht; [|done]. rewrite bool_decide_eq_true_2 by (by apply Hs). cbn. by apply IH.
Qed.

Lemma validate_run run ids items : tool_call_id <$> run ⊆ ids →
  validate_from ids ((ToolResult <$> run) ++ items) = validate_from ids items.
Proof.
  induction run as [|t run IH]; intros Hr; [done|]. cbn. rewrite bool_decide_eq_true_2 by (apply Hr; left).
  cbn. apply IH. intros i Hi. apply Hr. by right.
Qed.

Lemma paired_validates items : paired items → validate_compacted_history items = [].
Proof.
  rewrite paired_body. intros (bs & -> & Hbs & Hp). enough (He : ∀ seen, validate_from seen (body bs) = []) by apply He.
  induction Hp as [|[x run] bs Hx Hp IH]; intros seen; [done|]. apply Forall_cons in Hbs as [Hpr Hbs].
  rewrite body_cons. cbn [fst snd]. unfold proper, paired_block, answers, block_calls in *. cbn [fst snd] in *.
  assert (Hempty : tool_call_id <$> run ≡ₚ [] → run = []) by (intros E; apply Permutation_nil_r in E; by destruct run).
  destruct x as [| |a| | |]; cbn; try done; try (rewrite (Hempty Hx); cbn; by apply IH).
  rewrite validate_run; [by apply IH|]. intros i Hi. apply elem_of_app. right. unfold call_ids. by rewrite <-Hx.
Qed.

(** ** Suffixes that start at an item *)

Lemma skip_results_run run l : skip_results ((ToolResult <$> run) ++ l) = skip_results l.
Proof. by induction run. Qed.

Lemma skip_results_body bs : Forall proper bs → skip_results (body bs) = body bs.
Proof.
  destruct 1 as [|[x run] bs Hx _]; [done|]. rewrite body_cons. unfold proper in Hx. cbn in *. by destruct x.
Qed.

Lemma skip_drop bs : Forall proper bs → ∀ n, ∃ m, skip_results (drop n (body bs)) = body (drop m bs).
Proof.
  induction 1 as [|[x run] bs Hx Hbs IH]; intros n; [exists 0; by destruct n|].
  destruct n as [|n]; [exists 0; cbn [drop skipn]; apply skip_results_body; by constructor|].
  rewrite body_cons. cbn [fst snd]. change (drop (S n) (x :: ?l)) with (drop n l).
  rewrite drop_app, <-fmap_drop, skip_results_run. destruct (IH (n - length (ToolResult <$> run))) as (m & ->).
  by exists (S m).
Qed.

Lemma body_suffix bs m : body (drop m bs) `suffix_of` body bs.
Proof. exists (body (take m bs)). by rewrite <-body_app, take_drop. Qed.

Lemma paired_drop bs m : Forall proper bs → Forall paired_block bs → paired (body (drop m bs)).
Proof. intros Hbs Hp. apply paired_body. exists (drop m bs). split; [done|]. by split; apply Forall_drop. Qed.

(** ** What follows the last item of a kind *)

Lemma rposition_None f l : rposition f l = None ↔ Forall (λ i, f i = false) l.
Proof.
  induction l as [|i l IH]; [done|]. cbn. rewrite Forall_cons. destruct (rposition f l) as [n|].
  - split; [done|]. intros [_ Hl]. by apply IH in Hl.
  - destruct (f i); [naive_solver|]. split; [|done]. intros _. split; [done|]. by apply IH.
Qed.

Lemma after_last_behind f l1 l : rposition f l ≠ None → after_last f (l1 ++ l) = after_last f l.
Proof.
  intros Hl. assert (Hr : ∀ n, rposition f l = Some n → rposition f (l1 ++ l) = Some (length l1 + n)).
  { intros n Hn. induction l1 as [|i l1 IH]; [done|]. cbn. by rewrite IH. }
  unfold after_last. destruct (rposition f l) as [n|] eqn:En; [|done]. rewrite (Hr n eq_refl).
  rewrite drop_app_ge by lia. f_equal. lia.
Qed.

Lemma after_last_body f bs : Forall proper bs → (∀ t, f (ToolResult t) = false) →
  Forall (λ b, f b.1 = true → b.2 = []) bs → ∃ m, after_last f (body bs) = body (drop m bs).
Proof.
  intros Hbs Hf. induction Hbs as [|[x run] bs Hx Hbs IH]; intros Hc; [by exists 0|].
  apply Forall_cons in Hc as [Hc0 Hc]. cbn [fst snd] in Hc0. destruct (IH Hc) as [m Hm].
  rewrite body_cons. cbn [fst snd]. destruct (rposition f (body bs)) as [n|] eqn:En.
  - exists (S m). cbn [drop skipn]. rewrite <-Hm.
    apply (after_last_behind f (x :: (ToolResult <$> run)) (body bs)). by rewrite En.
  - assert (Hn : rposition f ((ToolResult <$> run) ++ body bs) = None).
    { apply rposition_None, Forall_app. split; [|by apply rposition_None]. apply Forall_fmap, Forall_true. intros t. apply Hf. }
    unfold after_last. cbn [rposition]. rewrite Hn. destruct (f x) eqn:Ex.
    + exists 1. rewrite (Hc0 eq_refl). done.
    + exists 0. done.
Qed.

End Pairs.

Module Export FitLaws.

Lemma take_results_reverse (run : list ToolResultItem) i k : is_result i = false →
  take_results (reverse (k ++ i :: (ToolResult <$> run))) = reverse (ToolResult <$> run).
Proof.
  intros Hi. rewrite reverse_app, reverse_cons, <-app_assoc. rewrite <-fmap_reverse. cbn [app].
  generalize (reverse run). intros r. induction r as [|t r IH]; cbn; [by destruct i|]. by rewrite IH.
Qed.

Lemma body_one b : body [b] = block_items b.
Proof. unfold body, block_items. cbn. by rewrite app_nil_r. Qed.

Lemma split_results_block bs x run : proper (x, run) →
  split_results (body (bs ++ [(x, run)])) = (body bs ++ [x], ToolResult <$> run).
Proof.
  intros Hx. rewrite body_app, body_one. unfold block_items. cbn [fst snd].
  unfold split_results. rewrite (take_results_reverse run) by done. rewrite length_reverse, length_app. cbn [length].
  replace (length (body bs) + S (length (ToolResult <$> run)) - length (ToolResult <$> run)) with (length (body bs ++ [x]))
    by (rewrite length_app; cbn; lia).
  change (x :: (ToolResult <$> run)) with ([x] ++ (ToolResult <$> run)). rewrite app_assoc.
  by rewrite take_app_length, drop_app_length.
Qed.

Lemma truncate_calls n i : block_calls (truncate_item_to_tokens n i, []) = block_calls (i, []).
Proof. by destruct i. Qed.

Lemma truncate_proper n i : is_result (truncate_item_to_tokens n i) = is_result i.
Proof. by destruct i. Qed.

Definition truncate_result (n : N) (t : ToolResultItem) : ToolResultItem :=
  MkToolResult (tool_call_id t) (truncated (max_bytes_of n) (result_content t)) (images t).

Lemma truncate_run n (run : list ToolResultItem) :
  truncate_item_to_tokens n <$> (ToolResult <$> run) = ToolResult <$> (truncate_result n <$> run).
Proof. by rewrite <-!list_fmap_compose. Qed.

Lemma recover_paired cost bs budget : Forall proper bs → Forall paired_block bs →
  paired (recover_truncated_tail_unit cost (body bs) budget).
Proof.
  destruct bs as [|[x run] bs _] using rev_ind; [intros _ _; apply paired_nil|].
  intros [Hbs [Hx _]%Forall_cons]%Forall_app [Hp [Hpx _]%Forall_cons]%Forall_app.
  unfold recover_truncated_tail_unit. rewrite split_results_block by done. rewrite last_snoc.
  unfold proper, paired_block, answers in *. cbn [fst snd] in *. destruct run as [|t run].
  - cbn [fmap list_fmap]. apply paired_body. exists [(truncate_item_to_tokens budget x, [])]. split; [done|].
    split; repeat constructor; [by unfold proper; cbn; rewrite truncate_proper|].
    unfold paired_block. rewrite truncate_calls. exact Hpx.
  - assert (Hc : makes_calls x = true).
    { unfold block_calls in Hpx. cbn [fst] in Hpx. destruct x as [| |a| | |]; cbn in *;
        try (by apply Permutation_sym, Permutation_nil_cons in Hpx).
      rewrite bool_decide_eq_false_2; [done|]. intros Ha. rewrite Ha in Hpx. by apply Permutation_sym, Permutation_nil_cons in Hpx. }
    rewrite Hc. assert (Hn : ∀ n, paired ([x] ++ (truncate_item_to_tokens n <$> (ToolResult <$> t :: run)))); [|apply Hn].
    intros n. rewrite truncate_run.
    assert (Hr : tool_call_id <$> (truncate_result n <$> t :: run) = tool_call_id <$> t :: run) by by rewrite <-list_fmap_compose.
    apply paired_body. exists [(x, truncate_result n <$> t :: run)]. rewrite body_one. split; [done|].
    split; repeat constructor; [done|]. unfold paired_block, answers. cbn [snd]. rewrite Hr. exact Hpx.
Qed.

Lemma fit_body_paired cost budget bs : Forall proper bs → Forall paired_block bs →
  paired (fit_body cost budget (body bs)).
Proof.
  intros Hbs Hp. unfold fit_body.
  destruct (skip_drop bs Hbs (length (body bs) - fitting budget (reverse (cost <$> body bs)))) as (m & ->).
  destruct (body (drop m bs)) eqn:E; [by apply recover_paired|]. rewrite <-E. by apply paired_drop.
Qed.

Lemma sum_N_app l l' : sum_N (l ++ l') = (sum_N l + sum_N l')%N.
Proof. unfold sum_N. induction l as [|c l IH]; [done|]. cbn [app foldr]. rewrite IH. lia. Qed.

Lemma sum_N_reverse l : sum_N (reverse l) = sum_N l.
Proof. induction l as [|c l IH]; [done|]. rewrite reverse_cons, sum_N_app, IH. change (sum_N l + (c + 0) = c + sum_N l)%N. lia. Qed.

Lemma fitting_le costs : ∀ remaining, fitting remaining costs ≤ length costs ∧
  (sum_N (take (fitting remaining costs) costs) ≤ remaining)%N.
Proof.
  induction costs as [|c costs IH]; intros remaining; [by split; [|apply N.le_0_l]|]. cbn [fitting].
  destruct (c <=? remaining)%N eqn:E; [|split; [apply Nat.le_0_l|apply N.le_0_l]].
  apply N.leb_le in E. destruct (IH (remaining - c)%N) as [H1 H2]. split; [cbn; lia|].
  change (c + sum_N (take (fitting (remaining - c) costs) costs) ≤ remaining)%N. lia.
Qed.

Lemma skip_results_suffix l : skip_results l `suffix_of` l.
Proof. induction l as [|i l IH]; [done|]. destruct i; try done. cbn. by apply suffix_cons_r. Qed.

Lemma suffix_sum cost (l k : list ConversationItem) : l `suffix_of` k → (sum_N (cost <$> l) ≤ sum_N (cost <$> k))%N.
Proof. intros [p ->]. rewrite fmap_app, sum_N_app. lia. Qed.

Lemma fit_body_kept cost budget l :
  fit_body cost budget l = recover_truncated_tail_unit cost l budget ∨
  (fit_body cost budget l `suffix_of` l ∧ (sum_N (cost <$> fit_body cost budget l) ≤ budget)%N).
Proof.
  unfold fit_body. destruct (fitting_le (reverse (cost <$> l)) budget) as [Hle Hsum]. rewrite length_reverse, length_fmap in Hle.
  set (n := fitting budget (reverse (cost <$> l))) in *. pose proof (skip_results_suffix (drop (length l - n) l)) as Hs.
  destruct (skip_results (drop (length l - n) l)) as [|i k] eqn:E; [by left|right]. split.
  - etrans; [exact Hs|]. exists (take (length l - n) l). by rewrite take_drop.
  - pose proof (suffix_sum cost _ _ Hs) as Hc. enough (sum_N (cost <$> drop (length l - n) l) ≤ budget)%N by lia.
    rewrite fmap_drop, <-sum_N_reverse, reverse_drop, length_fmap.
    by replace (length l - (length l - n)) with n by lia.
Qed.

(** The part of a history that fitting may shorten. *)
Definition head_of (conversation : list ConversationItem) : list ConversationItem :=
  match conversation with System s :: _ => [System s] | _ => [] end.
Definition turns_of (conversation : list ConversationItem) : list ConversationItem :=
  match conversation with System _ :: l => l | l => l end.

Lemma fit_over_parts cost conversation max_tokens :
  fit_over cost conversation max_tokens =
  head_of conversation ++ fit_body cost (max_tokens - sum_N (cost <$> head_of conversation)) (turns_of conversation).
Proof. destruct conversation as [|[] l]; cbn; by rewrite ?N.sub_0_r, ?N.add_0_r. Qed.

Lemma paired_turns conversation : paired conversation → ∃ bs, turns_of conversation = body bs ∧ Forall proper bs ∧ Forall paired_block bs.
Proof.
  intros (bs & -> & Hbs & Hp)%paired_body. destruct bs as [|[x run] bs]; [by exists []|].
  destruct x as [s| | | | |]; try (exists ((User u, run) :: bs); done).
  all: try by eexists (_ :: bs).
  exists bs. apply Forall_cons in Hbs as [_ Hbs], Hp as [Hx Hp]. split; [|done]. rewrite body_cons.
  unfold paired_block, answers, block_calls in Hx. cbn in Hx. apply Permutation_nil_r in Hx. cbn [fst snd turns_of].
  by destruct run.
Qed.

Lemma paired_head conversation l : paired l → paired (head_of conversation ++ l).
Proof. intros Hl. destruct conversation as [|[] k]; cbn; try done. by apply paired_plain. Qed.

(** Fitting a history with paired calls into a budget keeps them paired: a history
    within the budget is untouched, and otherwise its system message stays and what
    follows is the newest turns that fit, whose estimates stay within what the
    system message leaves, or the last unit cut short. *)
Theorem fit_keeps_pairs conversation max_tokens total :
  paired conversation → estimate_conversation_tokens conversation = Some total →
  ∃ l, fit_conversation_to_budget conversation max_tokens = Some l ∧ paired l ∧
    if (total <=? max_tokens)%N then l = conversation
    else let budget := (max_tokens - sum_N (known_cost <$> head_of conversation))%N in
         ∃ kept, l = head_of conversation ++ kept ∧
           (kept = recover_truncated_tail_unit known_cost (turns_of conversation) budget ∨
            (kept `suffix_of` turns_of conversation ∧ (sum_N (known_cost <$> kept) ≤ budget)%N)).
Proof.
  intros Hp He. unfold fit_conversation_to_budget. rewrite He. cbn [mbind option_bind].
  eexists. split; [done|]. destruct (total <=? max_tokens)%N; [done|]. rewrite fit_over_parts. split.
  - destruct (paired_turns conversation Hp) as (bs & -> & Hbs & Hb). by apply paired_head, fit_body_paired.
  - eexists. split; [done|]. apply fit_body_kept.
Qed.

End FitLaws.

(** * What the compacted history keeps *)

Module Export CompactedLaws.

Lemma paired_calls_nil b : paired_block b → block_calls b = [] → b.2 = [].
Proof. unfold paired_block. intros Hp Hc. rewrite Hc in Hp. apply Permutation_nil_r in Hp. unfold answers in Hp. by destruct (b.2). Qed.

Lemma tail_run (run : list ToolResultItem) : omap tail_message (ToolResult <$> run) =
  ToolResult <$> ((λ t, MkToolResult (tool_call_id t) OMITTED []) <$> run).
Proof. induction run as [|t run IH]; [done|]. cbn. by rewrite IH. Qed.

Lemma tail_messages_paired bs : Forall proper bs → Forall paired_block bs → paired (omap tail_message (body bs)).
Proof.
  intros Hbs. induction 1 as [|[x run] bs Hx _ IH]; [apply paired_nil|]. apply Forall_cons in Hbs as [Hp Hbs].
  specialize (IH Hbs). rewrite body_cons. cbn [fst snd]. unfold proper in Hp. cbn [fst] in Hp.
  change (x :: (ToolResult <$> run) ++ body bs) with ([x] ++ (ToolResult <$> run) ++ body bs). rewrite !omap_app, tail_run, app_assoc.
  apply paired_app; [|done].
  destruct x as [| |a| | |]; try done;
    try (pose proof (paired_calls_nil _ Hx eq_refl) as E; cbn in E; subst run; apply paired_nil).
  apply paired_body. exists [(Assistant a, (λ t, MkToolResult (tool_call_id t) OMITTED []) <$> run)]. rewrite body_one.
  split; [done|]. split; repeat constructor. unfold paired_block, answers in *. cbn [snd] in *.
  rewrite <-list_fmap_compose. exact Hx.
Qed.

Lemma real_user_run b : paired_block b → is_real_user_turn b.1 = true → b.2 = [].
Proof. intros Hp Hu. apply paired_calls_nil; [done|]. unfold block_calls. by destruct (b.1). Qed.

Lemma recent_paired conversation : paired conversation → paired (extract_messages_since_last_real_user conversation).
Proof.
  intros (bs & -> & Hbs & Hp)%paired_body. unfold extract_messages_since_last_real_user.
  destruct (after_last_body is_real_user_turn bs Hbs) as [m ->]; [done| |].
  - eapply Forall_impl; [exact Hp|]. intros b. apply real_user_run.
  - apply tail_messages_paired; by apply Forall_drop.
Qed.

(** Compacting a history whose calls and results are paired gives one whose calls
    and results are paired, with or without the recent messages, and which passes
    the check of compacted histories; what the model did since the last real user
    turn is there, and that turn's query. *)
Theorem compaction_keeps_pairs conversation inputs input :
  paired conversation → is_system (system_message input) = true →
  state_context input = context_build conversation inputs ∨
  state_context input = for_compaction (context_build conversation inputs) →
  paired (build_compacted_history input) ∧ validate_compacted_history (build_compacted_history input) = [] ∧
  (∀ q, extract_last_real_user_query conversation = Some q → user (wrap_user_query q) ∈ build_compacted_history input) ∧
  (state_context input = context_build conversation inputs →
   extract_messages_since_last_real_user conversation `sublist_of` build_compacted_history input).
Proof.
  intros Hp Hs Hc. assert (Hpaired : paired (build_compacted_history input)).
  { unfold build_compacted_history. apply paired_plains; [|apply paired_plains; [|apply paired_plains; [|apply paired_app]]].
    - constructor; [|by repeat constructor]. by destruct (system_message input).
    - by destruct (agents_md_reminder input); repeat constructor.
    - by destruct (last_user_query (state_context input)); repeat constructor.
    - destruct Hc as [-> | ->]; [by apply recent_paired|apply paired_nil].
    - apply paired_plains; [by repeat constructor|].
      destruct (history_reminder input); [by apply paired_plain; [|apply paired_nil]|apply paired_nil]. }
  split_and!; [done|by apply paired_validates| |].
  - intros q Hq. unfold build_compacted_history.
    assert (El : last_user_query (state_context input) = Some q) by (by destruct Hc as [-> | ->]).
    rewrite El. rewrite !elem_of_app. do 2 right. left. cbn. left.
  - intros E. unfold build_compacted_history. rewrite E. cbn [recent_messages context_build].
    apply sublist_inserts_l, sublist_inserts_l, sublist_inserts_l, sublist_inserts_r. done.
Qed.

End CompactedLaws.

(** * A session to compact *)

Module Export CompactScene.

Definition old_call : ToolCall := MkCall "a" "read_file" "{}".
Definition new_call : ToolCall := MkCall "b" "run_terminal" "{}".
Definition long_session : list ConversationItem :=
  [system "You are a coding agent."; user "Read the long file."; assistant_tool_calls [old_call];
   tool_result "a" (concat_str (replicate 40 "line of the file ")); assistant "Read.";
   user "Run the tests."; assistant_tool_calls [new_call]; tool_result "b" "ok"; assistant "Done."].

Lemma long_session_paired : paired long_session.
Proof. split; [reflexivity|]. unfold long_session. cbn. repeat (constructor; [vm_compute; reflexivity|]). constructor. Qed.

Lemma fit_keeps_pairs_witness :
  paired long_session ∧ estimate_conversation_tokens long_session = Some 184%N ∧
  ∃ l, fit_conversation_to_budget long_session 40 = Some l ∧ paired l ∧ length l = 6.
Proof.
  split; [exact long_session_paired|]. split; [vm_compute; reflexivity|].
  destruct (fit_keeps_pairs long_session 40 184 long_session_paired eq_refl) as (l & E & Hl & _).
  exists l. split; [exact E|]. split; [exact Hl|]. vm_compute in E. injection E as <-. reflexivity.
Defined.

Definition no_inputs : CompactionInputs := MkInputs [] [] [] [] [].
Definition compacted_input : CompactedHistoryInput :=
  MkHistoryInput (system "You are a coding agent.") "Today is Monday." None (context_build long_session no_inputs)
    "The file was read." None None.

Lemma compaction_keeps_pairs_witness :
  paired long_session ∧ paired (build_compacted_history compacted_input) ∧
  extract_messages_since_last_real_user long_session `sublist_of` build_compacted_history compacted_input ∧
  length (build_compacted_history compacted_input) = 7.
Proof.
  destruct (compaction_keeps_pairs long_session no_inputs compacted_input long_session_paired eq_refl (or_introl eq_refl)) as (H1 & _ & _ & H4).
  split; [exact long_session_paired|]. split; [exact H1|]. split; [exact (H4 eq_refl)|]. vm_compute. reflexivity.
Defined.

End CompactScene.
