(* ===== verification/ChatRequest.v ===== *)
(** Requests built from a chat history (crate [ainxt-chat-state], [types.rs],
    [conversation_util.rs] and [actor/request_builder.rs]): the settings, pruning old
    tool results by the age of their turn, evicting the oldest inline images within a
    byte budget, keeping the memory reminder in the system prompt, and aligning the
    system prompt of a conversation. *)
From stdpp Require Import list gmap strings.
From S2P Require Import Prelude RustStr StrSearch Conversation ConversationRepair ChatHistory.

(** * Settings *)

Module Export ChatTypes.

Inductive ApiBackend : Type := ChatCompletionsApi | ResponsesApi | MessagesApi.

(** Sampling parameters are passed on as they are: an [f32] by its bits. *)
Record SamplingConfig : Type := MkSampling {
  base_url : string;
  sampling_model : string;
  max_completion_tokens : option N;
  temperature : option N;
  top_p : option N;
  api_backend : ApiBackend;
  api_backend_explicit : bool;
  extra_headers : list (string * string);
  context_window : positive;
  reasoning_effort : option ReasoningEffort;
  stream_tool_calls : option bool;
}.

Record PruningConfig : Type := MkPruning {
  enabled : bool;
  keep_last_n_turns : nat;
  soft_trim_threshold : nat;
  soft_trim_head : nat;
  soft_trim_tail : nat;
  hard_clear_age_turns : nat;
}.
Definition PruningConfig_default : PruningConfig := MkPruning true 3 4000 1500 1500 10.

Inductive AuthType : Type := SessionToken | ApiKey.
Record Credentials : Type := MkCredentials {
  api_key : option string;
  auth_type : AuthType;
  alpha_test_key : option string;
  client_version : option string;
}.
Definition Credentials_default : Credentials := MkCredentials None SessionToken None None.

Definition MEMORY_CONTEXT_OPEN_TAG : string := "<memory-context>".

(** Which optional features the endpoint of a model accepts. *)
Record ModelCapabilities : Type := MkCapabilities {
  cap_thinking : bool;
  cap_prompt_caching : bool;
  cap_output_config : bool;
  cap_system_blocks : bool;
  cap_images : bool;
}.
Definition ModelCapabilities_full : ModelCapabilities := MkCapabilities true true true true true.

Inductive ConversationToolChoice : Type := ChoiceAuto | ChoiceNone | ChoiceRequired | ChoiceFunction (name : string).

(** The opaque tracing context is a parameter. *)
Record ConversationRequest {Trace : Type} : Type := MkRequest {
  request_items : list ConversationItem;
  request_tools : list ToolSpec;
  hosted_tools : list HostedTool;
  tool_choice : option ConversationToolChoice;
  request_model : option string;
  request_temperature : option N;
  max_output_tokens : option N;
  request_top_p : option N;
  x_ainxt_conv_id : option string;
  x_ainxt_req_id : option string;
  x_ainxt_session_id : option string;
  x_ainxt_turn_idx : option string;
  x_ainxt_agent_id : option string;
  x_ainxt_deployment_id : option string;
  x_ainxt_user_id : option string;
  trace : option Trace;
  request_effort : option ReasoningEffort;
  json_schema : option Json;
  capabilities : ModelCapabilities;
}.
Arguments ConversationRequest : clear implicits.

End ChatTypes.

(** * The system prompt at the head of a conversation *)

Module Export SystemHead.

Definition is_newline (c : string) : bool := bool_decide (c = newline).
Definition is_line_end (c : string) : bool := bool_decide (c = newline) || bool_decide (c = carriage_return).

Definition canonical_system_prompt_eq (a b : string) : bool :=
  bool_decide (trim_end_by is_line_end a = trim_end_by is_line_end b).

(** The conversation and whether it changed. *)
Definition replace_or_insert_system_head (conversation : list ConversationItem) (prompt : string)
  : list ConversationItem * bool :=
  match conversation with
  | System s :: rest =>
      if canonical_system_prompt_eq (system_content s) prompt then (conversation, false)
      else (System (MkSystem prompt) :: rest, true)
  | _ => (system prompt :: conversation, true)
  end.

Definition upsert_memory_reminder_text (system_prompt reminder : string) : string * bool :=
  let updated :=
    match find MEMORY_CONTEXT_OPEN_TAG system_prompt with
    | Some idx =>
        let prefix := trim_end_by is_newline (str_take (String.length (trim_end_by is_newline (str_take idx system_prompt))) system_prompt) in
        if is_empty prefix then reminder else prefix +:+ newline +:+ newline +:+ reminder
    | None =>
        if bool_decide (trim_end system_prompt = reminder) then system_prompt
        else if is_empty system_prompt then reminder
        else trim_end_by is_newline system_prompt +:+ newline +:+ newline +:+ reminder
    end in
  if bool_decide (system_prompt = updated) then (system_prompt, false) else (updated, true).

Definition inject_memory_reminder (items : list ConversationItem) (reminder : string) : list ConversationItem * bool :=
  let reminder := trim reminder in
  if is_empty reminder then (items, false)
  else
    match items with
    | System s :: rest =>
        let r := upsert_memory_reminder_text (system_content s) reminder in (System (MkSystem r.1) :: rest, r.2)
    | _ => (system reminder :: items, true)
    end.

End SystemHead.

(** * Pruning old tool results *)

Module Export Pruning.

(** "[Tool result omitted — too old]" and the separator with its ellipses. *)
Definition HARD_CLEAR_PLACEHOLDER : string := "[Tool result omitted " +:+ str_of_bytes [226; 128; 148]%N +:+ " too old]".
Definition SOFT_TRIM_SEPARATOR : string :=
  newline +:+ newline +:+ "[" +:+ TRUNC_MARK +:+ "trimmed" +:+ TRUNC_MARK +:+ "]" +:+ newline +:+ newline.

Definition should_prune (total_tokens : N) (window : positive) : bool := (N.pos window / 2 <? total_tokens)%N.

Definition safe_char_slice (s : string) (start count : nat) : string := concat_str (take count (drop start (chars s))).
Definition safe_char_slice_tail (s : string) (count : nat) : string :=
  let total := length (chars s) in
  if total <=? count then s else concat_str (drop (total - count) (chars s)).

Definition with_content (c : string) (t : ToolResultItem) : ToolResultItem := MkToolResult (tool_call_id t) c (images t).

(** The loop from the last item back: [turn_from_end] and [seen_first_user], with what
    [f] makes of a tool result at that age and whether it counts. *)
Fixpoint walk_back (f : nat → ToolResultItem → ToolResultItem * nat) (turn_from_end : nat) (seen_first_user : bool)
    (reversed : list ConversationItem) : list ConversationItem * nat :=
  match reversed with
  | [] => ([], 0)
  | User u :: l =>
      let r := walk_back f (if seen_first_user then S turn_from_end else turn_from_end) true l in (User u :: r.1, r.2)
  | ToolResult t :: l =>
      let r := walk_back f turn_from_end seen_first_user l in
      (ToolResult (f turn_from_end t).1 :: r.1, (f turn_from_end t).2 + r.2)
  | i :: l => let r := walk_back f turn_from_end seen_first_user l in (i :: r.1, r.2)
  end.

Definition hard_clear (t : ToolResultItem) : ToolResultItem * nat :=
  if bool_decide (result_content t = HARD_CLEAR_PLACEHOLDER) then (t, 0) else (with_content HARD_CLEAR_PLACEHOLDER t, 1).

Definition soft_trim (config : PruningConfig) (t : ToolResultItem) : ToolResultItem :=
  if soft_trim_threshold config <? length (chars (result_content t)) then
    with_content (safe_char_slice (result_content t) 0 (soft_trim_head config) +:+ SOFT_TRIM_SEPARATOR +:+
                  safe_char_slice_tail (result_content t) (soft_trim_tail config)) t
  else t.

Definition prune_result (config : PruningConfig) (turn_from_end : nat) (t : ToolResultItem) : ToolResultItem :=
  if turn_from_end <? keep_last_n_turns config then t
  else if hard_clear_age_turns config <=? turn_from_end then (hard_clear t).1
  else soft_trim config t.

Definition prune_conversation (conversation : list ConversationItem) (config : PruningConfig) : list ConversationItem :=
  if enabled config then
    reverse (walk_back (λ age t, (prune_result config age t, 0)) 0 false (reverse conversation)).1
  else conversation.

Definition count_users (l : list ConversationItem) : nat := length (filter (λ i, is_user i = true) l).

(** The pass over the retained conversation: its items and how many were cleared.
    The saturation of the threshold is out of reach of any conversation's length. *)
Definition clear_retained (config : PruningConfig) (prompt_index : nat) (conversation : list ConversationItem)
  : list ConversationItem * nat :=
  let synthetic_count := count_users conversation - prompt_index in
  let effective_threshold := hard_clear_age_turns config + synthetic_count in
  let r := walk_back (λ age t, if age <? effective_threshold then (t, 0) else hard_clear t) 0 false (reverse conversation) in
  (reverse r.1, r.2).

End Pruning.

(** * Evicting the oldest inline images *)

Module Export ImageBudget.

Definition IMAGE_COMPACT_PLACEHOLDER : string :=
  "[An earlier image was removed to keep the request within its size limit and is no longer visible. Do not describe or reason about its contents from memory; ask the user to re-share it if you need to see it again.]".
Definition MAX_REQUEST_BYTES : N := 50 * 1024 * 1024.
Definition IMAGE_COMPACT_TRIGGER_BYTES : N := MAX_REQUEST_BYTES - 3 * 1024 * 1024.
Definition IMAGE_COMPACT_RECLAIM_TARGET_BYTES : N := MAX_REQUEST_BYTES / 2.
(** The length of an image part in JSON, its URL left out. *)
Definition IMAGE_PART_FRAME_BYTES : N := 25.

Definition image_part_bytes (url : string) : N := (IMAGE_PART_FRAME_BYTES + str_len url)%N.

Definition inline_image_count (conversation : list ConversationItem) : nat :=
  length (filter (λ p, is_image p = true) (conversation ≫= λ i, match i with User u => user_content u | _ => [] end)).

Record ImageEvictionOutcome : Type := MkEviction { evicted : nat; body_bytes_after : N }.

Definition blank_part (p : ContentPart) : ContentPart := match p with Image _ => Image "" | p => p end.
Definition url_bytes (p : ContentPart) : N := match p with Image u => str_len u | Text _ => 0%N end.
Definition blank_item (i : ConversationItem) : ConversationItem :=
  match i with User u => User (set_content u (blank_part <$> user_content u)) | i => i end.
Definition item_url_bytes (i : ConversationItem) : N :=
  match i with User u => sum_N (url_bytes <$> user_content u) | _ => 0%N end.

(** [serde_json] writes the items: the lengths of what it writes are parameters. *)
Section Serialised.
Context (json_bytes : list ConversationItem → N) (part_json_bytes : ContentPart → N).

Definition conversation_body_bytes (conversation : list ConversationItem) : N :=
  (json_bytes (blank_item <$> conversation) + sum_N (item_url_bytes <$> conversation))%N.

(** Positions and sizes of the inline images, oldest first. *)
Fixpoint image_parts (i j : nat) (parts : list ContentPart) : list (nat * nat * N) :=
  match parts with
  | [] => []
  | Image url :: parts => (i, j, image_part_bytes url) :: image_parts i (S j) parts
  | Text _ :: parts => image_parts i (S j) parts
  end.
Fixpoint images_from (i : nat) (conversation : list ConversationItem) : list (nat * nat * N) :=
  match conversation with
  | [] => []
  | User u :: l => image_parts i 0 (user_content u) ++ images_from (S i) l
  | _ :: l => images_from (S i) l
  end.

Definition set_part (i j : nat) (p : ContentPart) (conversation : list ConversationItem) : option (list ConversationItem) :=
  match conversation !! i with
  | Some (User u) =>
      match user_content u !! j with
      | Some _ => Some (<[i := User (set_content u (<[j := p]> (user_content u)))]> conversation)
      | None => None
      end
  | _ => None
  end.

Definition placeholder_part : ContentPart := Text IMAGE_COMPACT_PLACEHOLDER.

Fixpoint evict_loop (target_bytes : N) (imgs : list (nat * nat * N)) (conversation : list ConversationItem)
    (running : N) (n : nat) : list ConversationItem * ImageEvictionOutcome :=
  match imgs with
  | [] => (conversation, MkEviction n running)
  | (i, j, image_bytes) :: imgs =>
      if (running <=? target_bytes)%N then (conversation, MkEviction n running)
      else
        match set_part i j placeholder_part conversation with
        | Some conversation =>
            evict_loop target_bytes imgs conversation (running - (image_bytes - part_json_bytes placeholder_part))%N (S n)
        | None => evict_loop target_bytes imgs conversation running n
        end
  end.

Definition compact_images_to_byte_budget (conversation : list ConversationItem) (current_bytes target_bytes : N)
  : list ConversationItem * ImageEvictionOutcome :=
  if (current_bytes <=? target_bytes)%N then (conversation, MkEviction 0 current_bytes)
  else evict_loop target_bytes (images_from 0 conversation) conversation current_bytes 0.

End Serialised.

End ImageBudget.

(** * Pruning goes by the age of a turn *)

Module Export PruningLaws.

(** What [f] makes of each tool result, by the number of user turns begun after it,
    of which there are [later] behind the list; the last turn counts as running. *)
Fixpoint aged (f : nat → ToolResultItem → ToolResultItem) (later : nat) (l : list ConversationItem) : list ConversationItem :=
  match l with
  | [] => []
  | ToolResult t :: l => ToolResult (f (count_users l + later - 1) t) :: aged f later l
  | i :: l => i :: aged f later l
  end.
Fixpoint aged_count (f : nat → ToolResultItem → nat) (later : nat) (l : list ConversationItem) : nat :=
  match l with
  | [] => 0
  | ToolResult t :: l => f (count_users l + later - 1) t + aged_count f later l
  | i :: l => aged_count f later l
  end.

Lemma count_users_app l l' : count_users (l ++ l') = count_users l + count_users l'.
Proof. unfold count_users. by rewrite filter_app, length_app. Qed.
Lemma count_users_cons i l : count_users (i :: l) = (if is_user i then 1 else 0) + count_users l.
Proof. unfold count_users. rewrite filter_cons. by destruct i. Qed.

Lemma aged_app f later l l' : aged f later (l ++ l') = aged f (count_users l' + later) l ++ aged f later l'.
Proof.
  induction l as [|[| | |t| |] l IH]; cbn; try done; try (by rewrite IH).
  rewrite IH, count_users_app. do 4 f_equal. lia.
Qed.
Lemma aged_count_app f later l l' : aged_count f later (l ++ l') = aged_count f (count_users l' + later) l + aged_count f later l'.
Proof.
  induction l as [|[| | |t| |] l IH]; cbn; try done; try (by rewrite IH).
  rewrite IH, count_users_app, Nat.add_assoc. do 3 f_equal. lia.
Qed.

Lemma walk_back_aged f l : ∀ later,
  reverse (walk_back f (later - 1) (0 <? later) (reverse l)).1 = aged (λ age t, (f age t).1) later l ∧
  (walk_back f (later - 1) (0 <? later) (reverse l)).2 = aged_count (λ age t, (f age t).2) later l.
Proof.
  induction l as [|i l IH] using rev_ind; intros later; [done|].
  rewrite reverse_snoc, aged_app, aged_count_app, count_users_cons.
  destruct i as [s|u|a|t|b|r]; cbn [walk_back fst snd is_user]; rewrite reverse_cons; change (count_users []) with 0; cbn [Nat.add];
    try (destruct (IH later) as [-> ->]; cbn; rewrite ?Nat.add_0_r; split; [done|lia]).
  assert (E : (if 0 <? later then S (later - 1) else later - 1) = S later - 1) by (destruct later; cbn; lia).
  rewrite E. change true with (0 <? S later). destruct (IH (S later)) as [-> ->]. cbn. split; [done|lia].
Qed.

(** The pruned copy, result by result. *)
Lemma prune_conversation_aged config l : enabled config = true →
  prune_conversation l config = aged (prune_result config) 0 l.
Proof. intros E. unfold prune_conversation. rewrite E. exact (proj1 (walk_back_aged _ l 0)). Qed.

Definition retained_result (config : PruningConfig) (synthetic age : nat) (t : ToolResultItem) : ToolResultItem :=
  if age <? hard_clear_age_turns config + synthetic then t else (hard_clear t).1.

Lemma hard_clear_kept t : (hard_clear t).2 = 0 → (hard_clear t).1 = t.
Proof. unfold hard_clear. by case_bool_decide. Qed.

Lemma aged_ext f g later l : (∀ age t, f age t = g age t) → aged f later l = aged g later l.
Proof. intros E. induction l as [|[] l IH]; cbn; try done; by rewrite IH, ?E. Qed.

Lemma clear_retained_aged config n l :
  (clear_retained config n l).1 = aged (retained_result config (count_users l - n)) 0 l.
Proof.
  unfold clear_retained. cbn [fst]. rewrite (proj1 (walk_back_aged _ l 0)). apply aged_ext. intros age t.
  unfold retained_result. by case_match.
Qed.

Lemma aged_kept f g l : (∀ age t, g age t = 0 → f age t = t) → ∀ later, aged_count g later l = 0 → aged f later l = l.
Proof.
  intros Hf. induction l as [|[| | |t| |] l IH]; intros later; cbn; try done; try (intros Hz; by rewrite (IH _ Hz)).
  intros [Ht Hz]%Nat.eq_add_0. by rewrite (IH _ Hz), Hf.
Qed.

Lemma clear_retained_kept config n l : (clear_retained config n l).2 = 0 → (clear_retained config n l).1 = l.
Proof.
  unfold clear_retained. cbn [fst snd]. set (f := λ age t, if age <? _ then _ else _).
  destruct (walk_back_aged f l 0) as [E1 E2]. change (0 - 1) with 0 in E1, E2. change (0 <? 0) with false in E1, E2.
  rewrite E1, E2. apply aged_kept. intros age t. unfold f. case_match; [done|]. apply hard_clear_kept.
Qed.

Lemma aged_lookup f l i : aged f 0 l !! i =
  (λ x, match x with ToolResult t => ToolResult (f (count_users (drop (S i) l) - 1) t) | x => x end) <$> (l !! i).
Proof.
  revert i. induction l as [|x l IH]; intros i; [done|]. destruct i as [|i].
  - rewrite skipn_cons, drop_0. destruct x; cbn; try done. by rewrite Nat.add_0_r.
  - rewrite skipn_cons. destruct x; cbn [aged lookup list_lookup]; apply IH.
Qed.

(** A request drops old results only: each tool result of the copy is what its age,
    the user turns begun after its own, makes of it, and everything else is kept; in
    particular nothing of the last turns changes. *)
Theorem prune_by_age config l i : enabled config = true →
  prune_conversation l config !! i =
    (λ x, match x with
          | ToolResult t => ToolResult (prune_result config (count_users (drop (S i) l) - 1) t)
          | x => x end) <$> (l !! i) ∧
  (count_users (drop (S i) l) ≤ keep_last_n_turns config → 0 < keep_last_n_turns config → prune_conversation l config !! i = l !! i).
Proof.
  intros He. rewrite prune_conversation_aged by done. rewrite aged_lookup. split; [done|]. intros Hk Hp.
  destruct (l !! i) as [[s|u|a|t|b|r]|]; cbn; try done. unfold prune_result. rewrite (proj2 (Nat.ltb_lt _ _)) by lia. done.
Qed.

Definition count_real (real : ConversationItem → bool) (l : list ConversationItem) : nat := length (filter (λ i, real i = true) l).

Lemma count_real_cons real i l : count_real real (i :: l) = (if real i then 1 else 0) + count_real real l.
Proof. unfold count_real. rewrite filter_cons. by destruct (real i). Qed.

Lemma synthetic_behind real l : (∀ i, real i = true → is_user i = true) → ∀ n,
  count_real real l ≤ count_users l ∧
  count_users (drop n l) - count_real real (drop n l) ≤ count_users l - count_real real l.
Proof.
  intros Hr. induction l as [|i l IH]; intros n; [by rewrite drop_nil|]. destruct (IH (pred n)) as [H1 H2].
  rewrite count_users_cons, count_real_cons. specialize (Hr i). destruct n as [|n].
  - rewrite drop_0, count_users_cons, count_real_cons. destruct (real i); [rewrite Hr by done|destruct (is_user i)]; lia.
  - cbn [drop pred] in *. destruct (real i); [rewrite Hr by done|destruct (is_user i)]; lia.
Qed.

(** Results leave memory late: while the conversation holds the real user turns that
    the prompt index counts, a result that is cleared is older than the configured
    number of them, however many synthetic messages there are. *)
Theorem cleared_results_are_old config n l real i t :
  0 < hard_clear_age_turns config → (∀ i, real i = true → is_user i = true) → n ≤ count_real real l →
  l !! i = Some (ToolResult t) → (clear_retained config n l).1 !! i ≠ Some (ToolResult t) →
  hard_clear_age_turns config < count_real real (drop (S i) l).
Proof.
  intros Hpos Hreal Hn Hi Hc. rewrite clear_retained_aged, aged_lookup, Hi in Hc. cbn in Hc. unfold retained_result in Hc.
  destruct (_ <? _) eqn:E in Hc; [done|]. apply Nat.ltb_ge in E. destruct (synthetic_behind real l Hreal (S i)) as [H1 H2]. lia.
Qed.

End PruningLaws.

(** * The shape of a conversation *)

Module Export Shape.

(** Equal up to the contents of messages and results: the same calls, answered by
    results with the same call ids. *)
Definition same_shape (i j : ConversationItem) : Prop :=
  match i, j with
  | Assistant a, Assistant b => tool_calls a = tool_calls b
  | ToolResult s, ToolResult t => tool_call_id s = tool_call_id t
  | System _, System _ | User _, User _ | BackendToolCall _, BackendToolCall _ | Reasoning _, Reasoning _ => True
  | _, _ => False
  end.

#[export] Instance same_shape_equiv : Equivalence same_shape.
Proof. split; [intros []|intros [] []|intros [] [] []]; cbn; congruence || done. Qed.

Definition same_block (b c : Block) : Prop := block_calls b = block_calls c ∧ answers b = answers c.

Lemma shape_blocks l l' : Forall2 same_shape l l' →
  tool_call_id <$> (to_blocks l).1 = tool_call_id <$> (to_blocks l').1 ∧
  Forall2 same_block (to_blocks l).2 (to_blocks l').2.
Proof.
  induction 1 as [|i j l l' Hij _ [IH1 IH2]]; [by split|].
  destruct i, j; try done; cbn in *; try (split; [done|]; constructor; [by split|done]).
  split; [congruence|done].
Qed.

(** No call of the conversation is answered twice in a row of results. *)
Definition answered_once (l : list ConversationItem) : Prop :=
  Forall (λ b, block_calls b ≠ [] → NoDup (answers b)) (to_blocks l).2.

Lemma shape_answered_once l l' : Forall2 same_shape l l' → answered_once l → answered_once l'.
Proof.
  intros [_ H]%shape_blocks. unfold answered_once. induction H as [|b c bs cs [E1 E2] _ IH]; [done|].
  intros [Hb Hbs]%Forall_cons. constructor; [|by apply IH]. by rewrite <-E1, <-E2.
Qed.

Lemma answered_blocks l : has_dangling_tool_calls l = false ↔
  Forall (λ b, Forall (λ tc, call_id tc ∈ answers b) (block_calls b)) (to_blocks l).2.
Proof.
  rewrite <-(of_to_blocks l) at 1. destruct (to_blocks l) as [o bs] eqn:E.
  rewrite has_dangling_blocks by (pose proof (to_blocks_proper l) as Hp; by rewrite E in Hp). cbn [snd].
  apply Forall_iff. intros b. unfold unanswered. rewrite Forall_forall. split.
  - intros Hn tc Hin. apply dec_stable. intros Hout. exact (filter_nil_not_elem_of _ _ tc Hn Hout Hin).
  - intros Hin. apply filter_no. intros tc Htc Hout. by apply Hout, Hin.
Qed.

Lemma shape_dangling l l' : Forall2 same_shape l l' → has_dangling_tool_calls l = false → has_dangling_tool_calls l' = false.
Proof.
  intros [_ H]%shape_blocks. rewrite !answered_blocks. induction H as [|b c bs cs [E1 E2] _ IH]; [done|].
  intros [Hb Hbs]%Forall_cons. constructor; [|by apply IH]. by rewrite <-E1, <-E2.
Qed.

End Shape.

(** * Eviction goes oldest first *)

Module Export EvictionLaws.

Definition item_urls (i : ConversationItem) : list string := match i with User u => omap image_url (user_content u) | _ => [] end.
Definition image_urls (l : list ConversationItem) : list string := l ≫= item_urls.

(** The first [k] inline images replaced by [p]. *)
Fixpoint evict_parts (p : ContentPart) (k : nat) (parts : list ContentPart) : list ContentPart :=
  match parts with
  | [] => []
  | Text t :: parts => Text t :: evict_parts p k parts
  | Image url :: parts => match k with 0 => Image url :: parts | S k => p :: evict_parts p k parts end
  end.
Fixpoint evict_first (p : ContentPart) (k : nat) (l : list ConversationItem) : list ConversationItem :=
  match l with
  | [] => []
  | User u :: l => User (set_content u (evict_parts p k (user_content u))) ::
                   evict_first p (k - length (omap image_url (user_content u))) l
  | i :: l => i :: evict_first p k l
  end.

(** How many images the loop takes, given what each frees. *)
Fixpoint evict_count (target : N) (savings : list N) (running : N) : nat :=
  match savings with
  | [] => 0
  | b :: savings => if (running <=? target)%N then 0 else S (evict_count target savings (running - b)%N)
  end.

Lemma evict_count_le target savings : ∀ running, evict_count target savings running ≤ length savings.
Proof. induction savings as [|b s IH]; intros r; cbn; [lia|]. case_match; [lia|]. pose proof (IH (r - b)%N). lia. Qed.

(** It stops at the target, or when no image is left, and not before. *)
Lemma evict_count_spec target savings : ∀ running, let k := evict_count target savings running in
  (running - sum_N (take k savings) ≤ target ∨ k = length savings)%N ∧
  ∀ j, j < k → (target < running - sum_N (take j savings))%N.
Proof.
  induction savings as [|b s IH]; intros r; cbn [evict_count].
  - split; [by right|]. intros j Hj. lia.
  - destruct (N.leb_spec r target) as [Hr|Hr].
    + split; [left; cbn; lia|]. intros j Hj. lia.
    + destruct (IH (r - b)%N) as [IH1 IH2]. split.
      * destruct IH1 as [IH1|IH1]; [left|right; cbn; by f_equal].
        cbn [take]. change (sum_N (b :: ?x)) with (b + sum_N x)%N. lia.
      * intros [|j] Hj; [cbn; lia|]. specialize (IH2 j). cbn [take]. change (sum_N (b :: ?x)) with (b + sum_N x)%N. lia.
Qed.

Lemma set_content_again u parts parts' : set_content (set_content u parts) parts' = set_content u parts'.
Proof. done. Qed.
Lemma set_content_same u : set_content u (user_content u) = u.
Proof. by destruct u. Qed.

Definition put (p : ContentPart) (l : list ConversationItem) (x : nat * nat * N) : list ConversationItem :=
  default l (set_part x.1.1 x.1.2 p l).

Lemma put_here p pre u parts1 q parts2 post b :
  set_part (length pre) (length parts1) p (pre ++ User (set_content u (parts1 ++ q :: parts2)) :: post) =
  Some (pre ++ User (set_content u (parts1 ++ p :: parts2)) :: post) ∧
  put p (pre ++ User (set_content u (parts1 ++ q :: parts2)) :: post) (length pre, length parts1, b) =
  pre ++ User (set_content u (parts1 ++ p :: parts2)) :: post.
Proof.
  unfold put. cbn [fst snd]. enough (E : set_part (length pre) (length parts1) p (pre ++ User (set_content u (parts1 ++ q :: parts2)) :: post) =
    Some (pre ++ User (set_content u (parts1 ++ p :: parts2)) :: post)) by (by rewrite E).
  unfold set_part. rewrite list_lookup_middle by done. cbn [user_content set_content]. rewrite list_lookup_middle by done.
  f_equal. rewrite set_content_again. rewrite <-(Nat.add_0_r (length pre)) at 1. rewrite insert_app_r. cbn. do 4 f_equal.
  rewrite <-(Nat.add_0_r (length parts1)). by rewrite insert_app_r.
Qed.

Lemma length_image_parts i j parts : length (image_parts i j parts) = length (omap image_url parts).
Proof. revert j. induction parts as [|[] parts IH]; intros j; cbn; by rewrite ?IH. Qed.
Lemma image_parts_bytes i parts : ∀ j, (image_parts i j parts).*2 = image_part_bytes <$> omap image_url parts.
Proof. induction parts as [|[] parts IH]; intros j; cbn; by rewrite ?IH. Qed.
Lemma images_from_bytes l : ∀ i, (images_from i l).*2 = image_part_bytes <$> image_urls l.
Proof.
  unfold image_urls. induction l as [|[] l IH]; intros i; cbn; rewrite ?fmap_app, ?IH, ?image_parts_bytes; done.
Qed.

Lemma put_parts p pre u post parts : ∀ k ppre,
  fold_left (put p) (take k (image_parts (length pre) (length ppre) parts)) (pre ++ User (set_content u (ppre ++ parts)) :: post) =
  pre ++ User (set_content u (ppre ++ evict_parts p k parts)) :: post.
Proof.
  induction parts as [|[t|url] parts IH]; intros k ppre; cbn [image_parts evict_parts].
  - by rewrite take_nil.
  - specialize (IH k (ppre ++ [Text t])). rewrite length_app, Nat.add_1_r, <-!app_assoc in IH. exact IH.
  - destruct k as [|k]; [done|]. cbn [take fold_left]. rewrite (proj2 (put_here p pre u ppre (Image url) parts post _)).
    specialize (IH k (ppre ++ [p])). rewrite length_app, Nat.add_1_r, <-!app_assoc in IH. exact IH.
Qed.

Lemma put_items p l : ∀ k pre,
  fold_left (put p) (take k (images_from (length pre) l)) (pre ++ l) = pre ++ evict_first p k l.
Proof.
  induction l as [|i l IH]; intros k pre; [by destruct k|].
  assert (Hskip : ∀ i', S (length pre) = length (pre ++ [i'])) by (intros; rewrite length_app; cbn; lia).
  assert (Hgo : ∀ k i', fold_left (put p) (take k (images_from (S (length pre)) l)) (pre ++ i' :: l) = pre ++ i' :: evict_first p k l).
  { intros k' i'. specialize (IH k' (pre ++ [i'])). rewrite <-Hskip, <-!app_assoc in IH. exact IH. }
  destruct i as [s|u|a|t|b|r]; cbn [images_from evict_first]; try apply Hgo.
  rewrite take_app, fold_left_app, length_image_parts.
  pose proof (put_parts p pre u l (user_content u) k []) as E. cbn [app] in E. change (length []) with 0 in E.
  rewrite set_content_same in E. rewrite E. apply Hgo.
Qed.

Lemma put_other p l x : length (put p l x) = length l.
Proof. unfold put, set_part. repeat case_match; cbn; rewrite ?length_insert; done. Qed.

(** A position names a part of a user message. *)
Definition names_part (l : list ConversationItem) (x : nat * nat * N) : Prop :=
  ∃ u q, l !! x.1.1 = Some (User u) ∧ user_content u !! x.1.2 = Some q.

Lemma put_names p l x y : names_part l y → names_part (put p l x) y.
Proof.
  intros (u & q & Hl & Hq). unfold names_part, put, set_part. destruct (l !! x.1.1) as [[]|] eqn:Ex; cbn; eauto.
  destruct (user_content u0 !! x.1.2) as [c|] eqn:Ec; cbn; eauto.
  destruct (decide (x.1.1 = y.1.1)) as [Exy|Exy].
  - rewrite <-Exy in *. assert (u0 = u) as -> by congruence. rewrite list_lookup_insert_eq by (by eapply lookup_lt_Some).
    destruct (decide (x.1.2 = y.1.2)) as [E2|E2]; do 2 eexists; (split; [done|]); cbn [user_content set_content].
    + rewrite E2, list_lookup_insert_eq by (by eapply lookup_lt_Some). done.
    + rewrite list_lookup_insert_ne by done. exact Hq.
  - rewrite list_lookup_insert_ne by done. eauto.
Qed.

Section Loop.
Context (part_json_bytes : ContentPart → N).
Local Notation placeholder_bytes := (part_json_bytes placeholder_part).
Definition saving (image_bytes : N) : N := (image_bytes - placeholder_bytes)%N.

Lemma loop_puts target imgs : ∀ l running n, Forall (names_part l) imgs →
  let k := evict_count target (saving <$> imgs.*2) running in
  evict_loop part_json_bytes target imgs l running n =
  (fold_left (put placeholder_part) (take k imgs) l,
   MkEviction (n + k) (running - sum_N (saving <$> take k imgs.*2))%N).
Proof.
  induction imgs as [|[[i j] b] imgs IH]; intros l running n Hv; cbn [evict_loop fmap list_fmap evict_count snd].
  - rewrite take_nil. cbn. by rewrite Nat.add_0_r, N.sub_0_r.
  - apply Forall_cons in Hv as [(u & q & Hl & Hq) Hv]. destruct (running <=? target)%N.
    + cbn. by rewrite Nat.add_0_r, N.sub_0_r.
    + assert (E : set_part i j placeholder_part l = Some (put placeholder_part l (i, j, b))).
      { unfold put, set_part. cbn in *. by rewrite Hl, Hq. }
      rewrite E. change (b - part_json_bytes placeholder_part)%N with (saving b).
      rewrite IH by (eapply Forall_impl; [exact Hv|]; intros; by apply put_names).
      cbn [take fold_left]. f_equal. f_equal; [lia|]. cbn [fmap list_fmap].
      change (sum_N (saving b :: ?x)) with (saving b + sum_N x)%N. lia.
Qed.

Lemma images_named l pre : Forall (names_part (pre ++ l)) (images_from (length pre) l).
Proof.
  revert pre. induction l as [|i l IH]; intros pre; [constructor|].
  specialize (IH (pre ++ [i])). rewrite length_app, Nat.add_1_r, <-app_assoc in IH. cbn [app] in IH.
  destruct i as [s|u|a|t|b|r]; cbn [images_from]; try exact IH. apply Forall_app. split; [|exact IH].
  assert (E : ∀ parts ppre, ppre ++ parts = user_content u → Forall (names_part (pre ++ User u :: l)) (image_parts (length pre) (length ppre) parts)).
  { induction parts as [|q parts IHp]; intros ppre E; [constructor|].
    specialize (IHp (ppre ++ [q])). rewrite length_app, Nat.add_1_r, <-app_assoc in IHp.
    destruct q; cbn [image_parts]; [by apply IHp|]. constructor; [|by apply IHp].
    exists u, (Image url). split; cbn [fst snd]; [by rewrite list_lookup_middle|]. rewrite <-E. by rewrite list_lookup_middle. }
  exact (E (user_content u) [] eq_refl).
Qed.

(** The loop evicts a prefix of the images, oldest first. *)
Lemma compact_images_spec l current target :
  let k := evict_count target (saving ∘ image_part_bytes <$> image_urls l) current in
  compact_images_to_byte_budget part_json_bytes l current target =
  (evict_first placeholder_part k l, MkEviction k (current - sum_N (saving ∘ image_part_bytes <$> take k (image_urls l)))%N).
Proof.
  intros k. unfold compact_images_to_byte_budget. destruct (N.leb_spec current target) as [Hle|Hgt].
  - assert (Ek : k = 0) by (unfold k; destruct (image_urls l); cbn; [done|]; by rewrite (proj2 (N.leb_le _ _) Hle)).
    rewrite Ek. cbn. rewrite N.sub_0_r. f_equal. rewrite <-(app_nil_l (evict_first _ 0 l)).
    exact (put_items placeholder_part l 0 []).
  - rewrite loop_puts by exact (images_named l []). rewrite images_from_bytes, <-list_fmap_compose. fold k.
    pose proof (put_items placeholder_part l k []) as E. cbn [app] in E. change (length []) with 0 in E. rewrite E. cbn [Nat.add].
    by rewrite <-fmap_take, <-list_fmap_compose.
Qed.

End Loop.

(** [serde_json] writes a conversation part by part: exchanging a part changes the
    length by the difference of the parts. *)
Section Written.
Context (json_bytes : list ConversationItem → N) (part_json_bytes : ContentPart → N).
Definition written_by_parts : Prop := ∀ pre u parts1 p q parts2 post,
  (json_bytes (pre ++ User (set_content u (parts1 ++ p :: parts2)) :: post) + part_json_bytes q =
   json_bytes (pre ++ User (set_content u (parts1 ++ q :: parts2)) :: post) + part_json_bytes p)%N.
Context (Hparts : written_by_parts).

Lemma evict_parts_bytes p pre u post parts : ∀ k ppre,
  (json_bytes (pre ++ User (set_content u (ppre ++ evict_parts p k parts)) :: post) +
   sum_N (part_json_bytes ∘ Image <$> take k (omap image_url parts)) =
   json_bytes (pre ++ User (set_content u (ppre ++ parts)) :: post) +
   N.of_nat (length (take k (omap image_url parts))) * part_json_bytes p)%N.
Proof using Hparts.
  induction parts as [|[t|url] parts IH]; intros k ppre; cbn [evict_parts].
  - destruct k; cbn; lia.
  - specialize (IH k (ppre ++ [Text t])). rewrite <-!app_assoc in IH. exact IH.
  - destruct k as [|k]; [cbn; lia|]. specialize (IH k (ppre ++ [p])). rewrite <-!app_assoc in IH. cbn [app] in IH.
    pose proof (Hparts pre u ppre (Image url) p parts post) as Hp. cbn [omap list_omap image_url take fmap list_fmap length].
    change (sum_N (?x :: ?y)) with (x + sum_N y)%N. unfold compose at 1. lia.
Qed.

Lemma evict_bytes p l : ∀ k pre,
  (json_bytes (pre ++ evict_first p k l) + sum_N (part_json_bytes ∘ Image <$> take k (image_urls l)) =
   json_bytes (pre ++ l) + N.of_nat (length (take k (image_urls l))) * part_json_bytes p)%N.
Proof using Hparts.
  unfold image_urls. induction l as [|i l IH]; intros k pre; [destruct k; cbn; lia|].
  assert (Hgo : ∀ k i', (json_bytes (pre ++ i' :: evict_first p k l) + sum_N (part_json_bytes ∘ Image <$> take k (l ≫= item_urls)) =
     json_bytes (pre ++ i' :: l) + N.of_nat (length (take k (l ≫= item_urls))) * part_json_bytes p)%N).
  { intros k' i'. specialize (IH k' (pre ++ [i'])). by rewrite <-!app_assoc in IH. }
  destruct i as [s|u|a|t|b|r]; cbn [evict_first mbind list_bind item_urls app]; try apply Hgo.
  rewrite take_app, fmap_app, sum_N_app, length_app.
  specialize (Hgo (k - length (omap image_url (user_content u))) (User (set_content u (evict_parts p k (user_content u))))).
  pose proof (evict_parts_bytes p pre u l (user_content u) k []) as E. cbn [app] in E. rewrite set_content_same in E. lia.
Qed.

Lemma blank_parts k parts : length (omap image_url parts) ≤ k → evict_parts (Image "") k parts = blank_part <$> parts.
Proof. revert k. induction parts as [|[t|url] parts IH]; intros k Hk; cbn in *; [done|by rewrite IH|]. destruct k; [lia|]. by rewrite IH by lia. Qed.
Lemma blank_items l : ∀ k, length (image_urls l) ≤ k → evict_first (Image "") k l = blank_item <$> l.
Proof.
  unfold image_urls. induction l as [|[] l IH]; intros k Hk; cbn in *; try done; try (by rewrite IH).
  rewrite length_app in Hk. rewrite blank_parts by lia. by rewrite IH by lia.
Qed.
Lemma sum_parts_urls parts : sum_N (url_bytes <$> parts) = sum_N (str_len <$> omap image_url parts).
Proof. induction parts as [|[t|url] parts IH]; [done|..]; cbn [fmap list_fmap omap list_omap image_url url_bytes]; change (sum_N (?x :: ?y)) with (x + sum_N y)%N; lia. Qed.
Lemma sum_item_urls l : sum_N (item_url_bytes <$> l) = sum_N (str_len <$> image_urls l).
Proof.
  unfold image_urls. induction l as [|[] l IH]; [done|..]; cbn [fmap list_fmap mbind list_bind item_urls item_url_bytes app];
    change (sum_N (?x :: ?y)) with (x + sum_N y)%N; rewrite ?fmap_app, ?sum_N_app, ?sum_parts_urls; lia.
Qed.

(** A URL of base 64 is written as it is. *)
Definition plain_url (url : string) : Prop := part_json_bytes (Image url) = image_part_bytes url.

Lemma sum_plain us : Forall plain_url us →
  sum_N (part_json_bytes ∘ Image <$> us) = (N.of_nat (length us) * IMAGE_PART_FRAME_BYTES + sum_N (str_len <$> us))%N.
Proof using.
  induction 1 as [|u us Hu _ IH]; [done|]. cbn [fmap list_fmap length]. change (sum_N (?x :: ?y)) with (x + sum_N y)%N.
  rewrite IH. unfold compose. rewrite Hu. unfold image_part_bytes. lia.
Qed.

(** Measuring with blanked URLs gives the length of what is sent. *)
Lemma body_bytes_exact l : Forall plain_url ("" :: image_urls l) → conversation_body_bytes json_bytes l = json_bytes l.
Proof using Hparts.
  intros [He Hu]%Forall_cons. unfold conversation_body_bytes. rewrite <-(blank_items l (length (image_urls l))) by done.
  pose proof (evict_bytes (Image "") l (length (image_urls l)) []) as E. cbn [app] in E. rewrite take_ge in E by done.
  rewrite sum_plain in E by done. rewrite He in E. rewrite sum_item_urls. unfold image_part_bytes in E. cbn [str_len String.length] in E.
  change (str_len "") with 0%N in E. lia.
Qed.

(** What an image part is shorter than the placeholder: the loop counts no change for it,
    while the body grows by that much. *)
Definition shortfall (url : string) : N := (part_json_bytes placeholder_part - image_part_bytes url)%N.

Lemma sum_saving us : Forall plain_url us →
  (sum_N (saving part_json_bytes ∘ image_part_bytes <$> us) + N.of_nat (length us) * part_json_bytes placeholder_part =
   sum_N (part_json_bytes ∘ Image <$> us) + sum_N (shortfall <$> us))%N.
Proof using.
  induction 1 as [|u l Hu _ IH]; [done|]. cbn [fmap list_fmap length].
  change (sum_N (?x :: ?y)) with (x + sum_N y)%N. unfold compose at 1 3. rewrite Hu. unfold saving at 1, shortfall at 1. lia.
Qed.

Lemma no_shortfall us : Forall (λ u, part_json_bytes placeholder_part ≤ image_part_bytes u)%N us → sum_N (shortfall <$> us) = 0%N.
Proof using.
  induction 1 as [|u l Hu _ IH]; [done|]. cbn [fmap list_fmap]. change (sum_N (?x :: ?y)) with (x + sum_N y)%N.
  rewrite IH. unfold shortfall. lia.
Qed.

Lemma image_part_frame url : (IMAGE_PART_FRAME_BYTES ≤ image_part_bytes url)%N.
Proof using. unfold image_part_bytes. lia. Qed.

(** What the loop subtracts is there to be subtracted. *)
Lemma saving_le_frame us : (IMAGE_PART_FRAME_BYTES ≤ part_json_bytes placeholder_part)%N → Forall plain_url us →
  (sum_N (saving part_json_bytes ∘ image_part_bytes <$> us) + N.of_nat (length us) * IMAGE_PART_FRAME_BYTES ≤
   sum_N (part_json_bytes ∘ Image <$> us))%N.
Proof using.
  intros Hf. induction 1 as [|u l Hu _ IH]; [done|]. cbn [fmap list_fmap length].
  change (sum_N (?x :: ?y)) with (x + sum_N y)%N. unfold compose at 1 3. rewrite Hu. unfold saving at 1.
  pose proof (image_part_frame u). change IMAGE_PART_FRAME_BYTES with 25%N in *. lia.
Qed.

(** The size the loop keeps, and the size of the body, after [j] images. *)
Lemma size_after l j : Forall plain_url ("" :: image_urls l) →
  (json_bytes l - sum_N (saving part_json_bytes ∘ image_part_bytes <$> take j (image_urls l)) + sum_N (shortfall <$> take j (image_urls l)) =
   json_bytes (evict_first placeholder_part j l))%N.
Proof using Hparts.
  intros [He Hu]%Forall_cons. apply (Forall_take _ j) in Hu.
  pose proof (evict_bytes placeholder_part l j []) as E. cbn [app] in E.
  pose proof (evict_bytes (Image "") l j []) as Eb. cbn [app] in Eb. rewrite He in Eb. change (image_part_bytes "") with IMAGE_PART_FRAME_BYTES in Eb.
  pose proof (sum_saving _ Hu) as Es. destruct (N.le_gt_cases IMAGE_PART_FRAME_BYTES (part_json_bytes placeholder_part)) as [Hf|Hf].
  - pose proof (saving_le_frame _ Hf Hu). change IMAGE_PART_FRAME_BYTES with 25%N in *. lia.
  - assert (sum_N (shortfall <$> take j (image_urls l)) = 0%N); [|lia].
    apply no_shortfall, Forall_forall. intros u _. pose proof (image_part_frame u). lia.
Qed.

Definition evicted_of (l : list ConversationItem) (target : N) :=
  compact_images_to_byte_budget part_json_bytes l (conversation_body_bytes json_bytes l) target.

(** C36: Eviction takes the oldest images only, as few as bring the size it keeps to the
    target, or all of them. The size it reports is the size of the body that is left, less
    what each evicted image part was shorter than the placeholder: exact when none was. *)
Theorem eviction_exact l target : Forall plain_url ("" :: image_urls l) →
  let k := evicted (evicted_of l target).2 in
  let reported := body_bytes_after (evicted_of l target).2 in
  (evicted_of l target).1 = evict_first placeholder_part k l ∧ k ≤ length (image_urls l) ∧
  (reported + sum_N (shortfall <$> take k (image_urls l)) = json_bytes (evicted_of l target).1)%N ∧
  (Forall (λ u, part_json_bytes placeholder_part ≤ image_part_bytes u)%N (image_urls l) → reported = json_bytes (evicted_of l target).1) ∧
  (reported ≤ target ∨ k = length (image_urls l))%N ∧
  ∀ j, j < k → (target < json_bytes (evict_first placeholder_part j l))%N.
Proof using Hparts.
  intros Hu k reported. unfold reported, k, evicted_of. rewrite compact_images_spec, body_bytes_exact by done.
  cbn [fst snd evicted body_bytes_after]. clear k reported. set (sv := saving part_json_bytes ∘ image_part_bytes <$> image_urls l).
  assert (Hlen : length sv = length (image_urls l)) by apply length_fmap.
  assert (Hsize : ∀ j, (json_bytes l - sum_N (take j sv) + sum_N (shortfall <$> take j (image_urls l)))%N = json_bytes (evict_first placeholder_part j l)).
  { intros j. rewrite <-size_after by done. unfold sv. by rewrite <-fmap_take. }
  destruct (evict_count_spec target sv (json_bytes l)) as [Hstop Hbefore]. pose proof (evict_count_le target sv (json_bytes l)) as Hle.
  rewrite <-Hlen. rewrite (fmap_take _ _ (image_urls l)). fold sv. split_and!; [done|done|by rewrite <-Hsize| |done|].
  - intros Hs. rewrite <-Hsize, (no_shortfall (take _ _)) by (by apply Forall_take). by rewrite N.add_0_r.
  - intros j Hj. rewrite <-Hsize. specialize (Hbefore j Hj). lia.
Qed.

End Written.

End EvictionLaws.

(** * The memory reminder is kept once *)

Module Export ReminderLaws.

Lemma trim_newline_snoc t : trim_end_by is_newline (t +:+ newline) = trim_end_by is_newline t.
Proof.
  unfold trim_end_by, newline. rewrite chars_app_start by done. rewrite reverse_app.
  change (chars (String (byte 10) "")) with [newline]. change (reverse [newline]) with [newline]. cbn [app drop_while].
  unfold is_newline at 1. by rewrite bool_decide_eq_true_2.
Qed.

Definition newlines (n : nat) : string := concat_str (replicate n newline).

Lemma trim_newlines t n : trim_end_by is_newline (t +:+ newlines n) = trim_end_by is_newline t.
Proof.
  revert t. induction n as [|n IH]; intros t; [by rewrite app_nil_r_str|].
  change (newlines (S n)) with (newline +:+ newlines n). by rewrite app_assoc_str, IH, trim_newline_snoc.
Qed.

Lemma trim_newline_spec s : ∃ n, s = trim_end_by is_newline s +:+ newlines n.
Proof.
  assert (E : ∀ l, ∃ n, l = replicate n newline ++ drop_while is_newline l).
  { induction l as [|c l [n IH]]; [by exists 0|]. cbn [drop_while]. destruct (is_newline c) eqn:Ec; [|by exists 0].
    apply bool_decide_eq_true_1 in Ec as ->. exists (S n). cbn. by f_equal. }
  destruct (E (reverse (chars s))) as [n En]. exists n. unfold trim_end_by, newlines.
  rewrite <-concat_str_app. rewrite <-(reverse_replicate n newline), <-reverse_app, <-En, reverse_involutive. by rewrite concat_chars.
Qed.

Lemma trim_newline_idem s : trim_end_by is_newline (trim_end_by is_newline s) = trim_end_by is_newline s.
Proof. destruct (trim_newline_spec s) as [n E]. rewrite E at 2. by rewrite trim_newlines. Qed.

Lemma trim_end_infix f s : ∃ v, s = trim_end_by f s +:+ v.
Proof.
  destruct (drop_while_suffix f (reverse (chars s))) as [k E]. exists (concat_str (reverse k)). unfold trim_end_by.
  rewrite <-concat_str_app, <-reverse_app, <-E, reverse_involutive. by rewrite concat_chars.
Qed.

(** The two trims of the code are one. *)
Lemma prefix_trimmed p idx : idx ≤ String.length p →
  trim_end_by is_newline (str_take (String.length (trim_end_by is_newline (str_take idx p))) p) =
  trim_end_by is_newline (str_take idx p).
Proof.
  intros Hi. destruct (trim_newline_spec (str_take idx p)) as [n En]. set (q := trim_end_by is_newline (str_take idx p)) in *.
  assert (E : p = q +:+ (newlines n +:+ str_drop idx p)).
  { rewrite app_assoc_str, <-En. by rewrite str_take_drop. }
  rewrite E, str_take_app at 1. apply trim_newline_idem.
Qed.

Definition blank_line : string := newline +:+ newline.
Definition reminder_text (prefix reminder : string) : string :=
  if is_empty prefix then reminder else prefix +:+ blank_line +:+ reminder.

Notation tag_byte := "<"%char.
Definition tag_rest : string := "memory-context>".

Lemma no_tag_blank_line q : contains MEMORY_CONTEXT_OPEN_TAG q = false → contains MEMORY_CONTEXT_OPEN_TAG (q +:+ blank_line) = false.
Proof.
  intros Hq. unfold blank_line, newline. apply contains_across_false; [done|done|done|]. by vm_compute.
Qed.

Lemma upsert_found u r prompt : starts_with MEMORY_CONTEXT_OPEN_TAG r = true → contains MEMORY_CONTEXT_OPEN_TAG u = false →
  ∀ v, prompt = u +:+ MEMORY_CONTEXT_OPEN_TAG +:+ v →
  (upsert_memory_reminder_text prompt r).1 = reminder_text (trim_end_by is_newline u) r.
Proof.
  intros Hr Hu v ->. unfold upsert_memory_reminder_text. change MEMORY_CONTEXT_OPEN_TAG with (String tag_byte tag_rest) in *.
  rewrite find_tag by done. rewrite prefix_trimmed by (rewrite length_app_str; lia). rewrite str_take_app.
  unfold reminder_text, blank_line. rewrite <-app_assoc_str. by case_bool_decide.
Qed.

(** A system prompt is its own text, then one reminder. *)
Lemma upsert_form prompt r : starts_with MEMORY_CONTEXT_OPEN_TAG r = true →
  ∃ u, contains MEMORY_CONTEXT_OPEN_TAG u = false ∧
    (prompt = u ∨ ∃ v, prompt = u +:+ MEMORY_CONTEXT_OPEN_TAG +:+ v) ∧
    (upsert_memory_reminder_text prompt r).1 =
      (if is_empty u then r else
       if bool_decide (prompt = u) then trim_end_by is_newline u +:+ blank_line +:+ r
       else reminder_text (trim_end_by is_newline u) r).
Proof.
  intros Hr. destruct (find MEMORY_CONTEXT_OPEN_TAG prompt) as [i|] eqn:Ef.
  - apply (find_first tag_byte tag_rest) in Ef as (u & v & -> & _ & Hu); [|done].
    change (String tag_byte tag_rest) with MEMORY_CONTEXT_OPEN_TAG in *. exists u. split; [done|]. split; [right; by exists v|].
    rewrite (upsert_found u r _ Hr Hu v eq_refl). rewrite bool_decide_eq_false_2.
    + destruct u; [|done]. done.
    + intros E. rewrite <-(app_nil_r_str u) in E at 2. by apply app_str_inj in E.
  - exists prompt. split; [by apply find_None|]. split; [by left|]. rewrite bool_decide_eq_true_2 by done.
    unfold upsert_memory_reminder_text. rewrite Ef. rewrite (bool_decide_eq_false_2 (trim_end prompt = r)).
    + destruct prompt; cbn [is_empty]; [by case_bool_decide|]. unfold blank_line. rewrite <-app_assoc_str. by case_bool_decide.
    + intros E. apply find_None in Ef. destruct (trim_end_infix is_whitespace prompt) as [v Ev]. fold trim_end in Ev.
      rewrite Ev, E in Ef. rewrite contains_app_l in Ef; [done|].
      apply starts_with_spec in Hr as [t ->]. apply contains_spec. by exists "", t.
Qed.

Lemma upsert_flag prompt r : (upsert_memory_reminder_text prompt r).2 = negb (bool_decide ((upsert_memory_reminder_text prompt r).1 = prompt)).
Proof. unfold upsert_memory_reminder_text. case_bool_decide as E; cbn; [by rewrite bool_decide_eq_true_2|]. by rewrite bool_decide_eq_false_2. Qed.

Lemma upsert_again q r : starts_with MEMORY_CONTEXT_OPEN_TAG r = true → contains MEMORY_CONTEXT_OPEN_TAG q = false →
  trim_end_by is_newline q = q → upsert_memory_reminder_text (reminder_text q r) r = (reminder_text q r, false).
Proof.
  intros Hr Hq Ht. enough (E : (upsert_memory_reminder_text (reminder_text q r) r).1 = reminder_text q r).
  { pose proof (upsert_flag (reminder_text q r) r) as Ef. rewrite E, bool_decide_eq_true_2 in Ef by done.
    destruct (upsert_memory_reminder_text _ _). cbn in *. by subst. }
  pose proof Hr as [t Et]%starts_with_spec. unfold reminder_text. destruct q as [|a q]; cbn [is_empty].
  - by apply (upsert_found "" r r Hr eq_refl t).
  - rewrite (upsert_found (String a q +:+ blank_line) r _ Hr) with (v := t); [|by apply no_tag_blank_line|by rewrite Et, <-app_assoc_str].
    change blank_line with (newlines 2) at 1. by rewrite trim_newlines, Ht.
Qed.

Lemma upsert_settles prompt r : starts_with MEMORY_CONTEXT_OPEN_TAG r = true →
  (trim_end_by is_newline prompt = "" → prompt = "") →
  ∃ q, (upsert_memory_reminder_text prompt r).1 = reminder_text q r ∧
    contains MEMORY_CONTEXT_OPEN_TAG q = false ∧ trim_end_by is_newline q = q ∧ ∃ v, prompt = q +:+ v.
Proof.
  intros Hr Hp. destruct (upsert_form prompt r Hr) as (u & Hu & Hform & E). exists (trim_end_by is_newline u).
  destruct (trim_newline_spec u) as [n En]. split; [|split; [|split]].
  - rewrite E. destruct u as [|a u]; [done|]. cbn [is_empty]. case_bool_decide as Epu; [|done]. unfold reminder_text.
    destruct (trim_end_by is_newline (String a u)) eqn:Et; [|done]. rewrite Epu, Et in Hp. by specialize (Hp eq_refl).
  - destruct (contains _ (trim_end_by is_newline u)) eqn:Ec; [|done]. rewrite En in Hu. by rewrite contains_app_l in Hu.
  - apply trim_newline_idem.
  - destruct Hform as [->|[v ->]]; [by exists (newlines n)|]. exists (newlines n +:+ MEMORY_CONTEXT_OPEN_TAG +:+ v).
    rewrite En at 1. by rewrite <-app_assoc_str.
Qed.

Definition head_prompt (items : list ConversationItem) : string :=
  match items with System s :: _ => system_content s | _ => "" end.
Definition behind_head (items : list ConversationItem) : list ConversationItem :=
  match items with System _ :: rest => rest | l => l end.

(** A memory reminder is kept once: injecting it leaves the conversation with one
    system prompt at its head, text of the old prompt and then the reminder, with the
    rest as it was, and injecting it again changes nothing. *)
Theorem reminder_injected_once items reminder :
  starts_with MEMORY_CONTEXT_OPEN_TAG (trim reminder) = true →
  (trim_end_by is_newline (head_prompt items) = "" → head_prompt items = "") →
  ∃ q v, head_prompt items = q +:+ v ∧ contains MEMORY_CONTEXT_OPEN_TAG q = false ∧
    (inject_memory_reminder items reminder).1 = system (reminder_text q (trim reminder)) :: behind_head items ∧
    inject_memory_reminder (inject_memory_reminder items reminder).1 reminder = ((inject_memory_reminder items reminder).1, false).
Proof.
  intros Hr Hp. assert (Hne : is_empty (trim reminder) = false) by (by destruct (trim reminder)).
  destruct (upsert_settles (head_prompt items) (trim reminder) Hr Hp) as (q & E & Hq & Ht & v & Ev).
  assert (Hin : ∃ q v, head_prompt items = q +:+ v ∧ contains MEMORY_CONTEXT_OPEN_TAG q = false ∧ trim_end_by is_newline q = q ∧
    (inject_memory_reminder items reminder).1 = system (reminder_text q (trim reminder)) :: behind_head items).
  { unfold inject_memory_reminder. rewrite Hne. destruct items as [|[s| | | | |] rest]; try (by exists "", "").
    exists q, v. split_and!; [done..|]. cbn [fst head_prompt behind_head] in *. by rewrite E. }
  clear q v E Hq Ht Ev. destruct Hin as (q & v & Ev & Hq & Ht & ->). exists q, v. split_and!; [done..|].
  unfold inject_memory_reminder. rewrite Hne. cbn [system system_content]. by rewrite upsert_again.
Qed.

End ReminderLaws.

(** * What a request makes of a conversation *)

Module Export SentLaws.

(** A part of a user message is sent as it is; only an image may give way to the
    placeholder, and only when images are evicted. *)
Definition part_carried (evicting : bool) (p q : ContentPart) : Prop :=
  q = p ∨ evicting = true ∧ is_image p = true ∧ q = placeholder_part.
(** A tool result is sent as it is; only when results are pruned may its content be
    cleared, or trimmed to its head and tail. *)
Definition result_carried (config : PruningConfig) (pruning : bool) (s t : ToolResultItem) : Prop :=
  t = s ∨ pruning = true ∧ (t = with_content HARD_CLEAR_PLACEHOLDER s ∨ t = soft_trim config s).
(** Everything else of an item, and every other item, is sent as it is. *)
Definition carried (config : PruningConfig) (evicting pruning : bool) (i j : ConversationItem) : Prop :=
  match i, j with
  | User u, User v => v = set_content u (user_content v) ∧ Forall2 (part_carried evicting) (user_content u) (user_content v)
  | ToolResult s, ToolResult t => result_carried config pruning s t
  | _, _ => j = i
  end.

(** The text of the system message at the head, and what a reminder makes of it. *)
Definition head_of (l : list ConversationItem) : option string :=
  match l with System s :: _ => Some (system_content s) | _ => None end.
Definition with_reminder (reminder : option string) (h : option string) : option string :=
  match reminder with
  | Some r => if is_empty (trim r) then h else Some (upsert_memory_reminder_text (default "" h) (trim r)).1
  | None => h
  end.

(** A conversation as it is sent: the reminder in the system message at its head, and
    behind it item for item what is carried. *)
Record sent (config : PruningConfig) (evicting pruning : bool) (reminder : option string) (l l' : list ConversationItem) : Prop := {
  sent_head : head_of l' = with_reminder reminder (head_of l);
  sent_behind : Forall2 (carried config evicting pruning) (behind_head l) (behind_head l');
}.

Lemma parts_carried_refl e parts : Forall2 (part_carried e) parts parts.
Proof. induction parts; constructor; [by left|done]. Qed.
Lemma carried_refl config e p i : carried config e p i i.
Proof.
  destruct i; cbn; try done; [split; [by destruct u|apply parts_carried_refl]|by left].
Qed.
Lemma carried_all_refl config e p l : Forall2 (carried config e p) l l.
Proof. induction l; constructor; [apply carried_refl|done]. Qed.

(** Evicting images and then pruning results. *)
Lemma carried_trans config e p i j k : carried config e false i j → carried config false p j k → carried config e p i k.
Proof.
  destruct i, j; cbn; try done; try (by intros [= ->]); destruct k; cbn; try done.
  - intros [Ev Hp] [Ew Hq]. assert (user_content u1 = user_content u0) as E.
    { revert Hq. generalize (user_content u0), (user_content u1). induction 1 as [|x y l l' Hxy _ IH]; [done|].
      destruct Hxy as [->|[? _]]; [by rewrite IH|done]. }
    split; [|by rewrite E]. rewrite Ew, Ev. done.
  - by intros [->|[? _]].
Qed.
Lemma carried_all_trans config e p l m n :
  Forall2 (carried config e false) l m → Forall2 (carried config false p) m n → Forall2 (carried config e p) l n.
Proof. intros H1. revert n. induction H1; intros n Hn; inversion Hn; subst; constructor; eauto using carried_trans. Qed.

(** What is carried item for item keeps its head. *)
Lemma carried_sent config e p l l' : Forall2 (carried config e p) l l' → sent config e p None l l'.
Proof.
  destruct 1 as [|i j l l' Hij Hl]; [by split; [|constructor]|]. split.
  - destruct i, j; cbn in *; try done. by injection Hij as ->.
  - destruct i, j; cbn in *; try done; constructor; try done.
Qed.

Lemma evict_carried config p k l : Forall2 (carried config true p) l (evict_first placeholder_part k l).
Proof.
  revert k. induction l as [|i l IH]; intros k; [constructor|].
  destruct i; cbn [evict_first]; constructor; try done; [|by left]. split; [done|]. cbn [user_content set_content].
  revert k. induction (user_content u) as [|[t|url] parts IHp]; intros k; cbn; [constructor|constructor; [by left|done]|].
  destruct k; [apply parts_carried_refl|]. constructor; [right; by split_and!|apply IHp].
Qed.

Lemma prune_carried config e l : Forall2 (carried config e true) l (prune_conversation l config).
Proof.
  destruct (enabled config) eqn:E; [|unfold prune_conversation; rewrite E; apply carried_all_refl].
  rewrite prune_conversation_aged by done. generalize 0 as later. induction l as [|i l IH]; intros later; [constructor|].
  destruct i; cbn [aged]; constructor; try done; [apply carried_refl|].
  cbn. unfold prune_result, hard_clear, result_carried. repeat case_match; [by left|by left|right; split; [done|by left]|right; split; [done|by right]].
Qed.

Lemma upsert_empty r : r ≠ "" → (upsert_memory_reminder_text "" r).1 = r.
Proof.
  intros Hr. unfold upsert_memory_reminder_text. change (find MEMORY_CONTEXT_OPEN_TAG "") with (@None nat). cbv beta iota.
  rewrite (bool_decide_eq_false_2 (trim_end "" = r)) by (by change (trim_end "") with ""; congruence). cbn. by rewrite bool_decide_eq_false_2 by congruence.
Qed.

Lemma inject_sent l r : head_of (inject_memory_reminder l r).1 = with_reminder (Some r) (head_of l) ∧
  behind_head (inject_memory_reminder l r).1 = behind_head l.
Proof.
  unfold inject_memory_reminder, with_reminder. destruct (is_empty (trim r)) eqn:E; [done|].
  assert (trim r ≠ "") as Hne by (intros E'; by rewrite E' in E).
  destruct l as [|[s| | | | |] rest]; cbn [fst head_of behind_head system default]; rewrite ?upsert_empty by done; done.
Qed.

(** Carried items have the same shape. *)
Lemma carried_shape config e p i j : carried config e p i j → same_shape i j.
Proof.
  destruct i, j; cbn; try done; try (by intros [= ->]). unfold result_carried, soft_trim.
  intros [->|[_ [->| ->]]]; [done|done|]. by destruct (_ <? _).
Qed.

(** The same conversation by shape, behind system messages. *)
Definition system_ahead (l l' : list ConversationItem) : Prop :=
  ∃ pre l'', l' = pre ++ l'' ∧ Forall (λ i, is_system i = true) pre ∧ Forall2 same_shape l l''.

Lemma sent_ahead config e p reminder l l' : sent config e p reminder l l' → system_ahead l l'.
Proof.
  intros [Hh Hb]. assert (Hshape : Forall2 same_shape (behind_head l) (behind_head l'))
    by (eapply Forall2_impl; [exact Hb|]; apply carried_shape).
  assert (Hl : ∀ m, m = match head_of m with Some t => [system t] | None => [] end ++ behind_head m)
    by (by intros [|[[]| | | | |] m]).
  destruct (head_of l) as [t|] eqn:E, (head_of l') as [t'|] eqn:E'.
  - exists [], l'. split_and!; [done|constructor|]. rewrite (Hl l), (Hl l'), E, E'. by constructor.
  - unfold with_reminder in Hh. by destruct reminder as [r|]; [destruct (is_empty _)|].
  - exists [system t'], (behind_head l'). split_and!; [by rewrite (Hl l') at 1; rewrite E'|by repeat constructor|].
    by rewrite (Hl l), E.
  - exists [], l'. split_and!; [done|constructor|]. by rewrite (Hl l), (Hl l'), E, E'.
Qed.

End SentLaws.

(** * Scenes *)

Module Export RequestScene.

(** A serialiser that writes user messages by their parts and nothing else. *)
Definition scene_part (p : ContentPart) : N := match p with Text t => 24 + str_len t | Image u => 25 + str_len u end%N.
Definition scene_json (l : list ConversationItem) : N :=
  sum_N ((λ i, match i with User u => sum_N (scene_part <$> user_content u) | _ => 0%N end) <$> l).

Lemma scene_by_parts : written_by_parts scene_json scene_part.
Proof.
  intros pre u parts1 p q parts2 post. unfold scene_json. rewrite !fmap_app, !sum_N_app. cbn [fmap list_fmap user_content set_content].
  change (sum_N (?x :: ?y)) with (x + sum_N y)%N. rewrite !fmap_app, !sum_N_app. cbn [fmap list_fmap].
  change (sum_N (?x :: ?y)) with (x + sum_N y)%N. lia.
Qed.

Definition picture (c : string) (n : nat) : string := "data:image/png;base64," +:+ concat_str (replicate n c).
Definition album : list ConversationItem :=
  [user_with_parts [Text "first"; Image (picture "A" 400)]; assistant "ok";
   user_with_parts [Image (picture "B" 400); Text "and"; Image (picture "C" 400)]].

Lemma album_plain : Forall (plain_url scene_part) ("" :: image_urls album).
Proof. unfold album. cbn. repeat (constructor; [vm_compute; reflexivity|]). constructor. Qed.

(** Of three pictures the two oldest go. *)
Lemma eviction_exact_witness :
  written_by_parts scene_json scene_part ∧ Forall (plain_url scene_part) ("" :: image_urls album) ∧
  evicted (evicted_of scene_json scene_part album 1100).2 = 2 ∧
  (evicted_of scene_json scene_part album 1100).1 = evict_first placeholder_part 2 album ∧
  body_bytes_after (evicted_of scene_json scene_part album 1100).2 = 977%N.
Proof.
  split; [exact scene_by_parts|]. split; [exact album_plain|].
  pose proof (eviction_exact scene_json scene_part scene_by_parts album 1100 album_plain) as E.
  assert (Ek : evicted (evicted_of scene_json scene_part album 1100).2 = 2) by (vm_compute; reflexivity).
  split; [exact Ek|]. cbv zeta in E. rewrite Ek in E. split; [exact (proj1 E)|]. vm_compute. reflexivity.
Defined.

(** An icon is smaller than the placeholder that replaces it: the body grows, and the size
    that is reported does not. *)
Example small_image_grows : let l := [user_with_parts [Image (picture "A" 10)]] in
  scene_json l = 57%N ∧ body_bytes_after (evicted_of scene_json scene_part l 0).2 = 57%N ∧
  (200 < scene_json (evicted_of scene_json scene_part l 0).1)%N.
Proof. by vm_compute. Qed.

Definition memory_block : string := "<memory-context>likes tests</memory-context>".
Definition reminded : list ConversationItem := [system ("You code." +:+ newline); user "hi"].

Lemma reminder_injected_once_witness :
  starts_with MEMORY_CONTEXT_OPEN_TAG (trim memory_block) = true ∧
  inject_memory_reminder (inject_memory_reminder reminded memory_block).1 memory_block =
    ((inject_memory_reminder reminded memory_block).1, false).
Proof.
  assert (H1 : starts_with MEMORY_CONTEXT_OPEN_TAG (trim memory_block) = true) by (vm_compute; reflexivity).
  assert (H2 : trim_end_by is_newline (head_prompt reminded) = "" → head_prompt reminded = "") by (vm_compute; discriminate).
  split; [exact H1|]. destruct (reminder_injected_once reminded memory_block H1 H2) as (q & v & _ & _ & _ & E). exact E.
Defined.

Definition many_turns : list ConversationItem :=
  [user "one"; assistant_tool_calls [MkCall "a" "read_file" "{}"]; tool_result "a" "long content";
   user "two"; assistant "done"; system_reminder "stay on task"; user "three"; user "four"].
Definition eager : PruningConfig := MkPruning true 1 5 2 2 2.

Lemma prune_by_age_witness :
  enabled eager = true ∧ prune_conversation many_turns eager !! 2 = Some (tool_result "a" HARD_CLEAR_PLACEHOLDER) ∧
  prune_conversation many_turns eager !! 6 = many_turns !! 6.
Proof.
  split; [reflexivity|]. split.
  - rewrite (proj1 (prune_by_age eager many_turns 2 eq_refl)). vm_compute. reflexivity.
  - apply (proj2 (prune_by_age eager many_turns 6 eq_refl)); vm_compute; lia.
Defined.

Definition prompts_only (i : ConversationItem) : bool :=
  match i with User u => bool_decide (synthetic_reason u = None) | _ => false end.

(** Three prompts lie behind the cleared result, the reminder not counted. *)
Lemma cleared_results_are_old_witness :
  4 ≤ count_real prompts_only many_turns ∧
  (clear_retained eager 4 many_turns).1 !! 2 ≠ Some (tool_result "a" "long content") ∧
  2 < count_real prompts_only (drop 3 many_turns).
Proof.
  assert (Hn : 4 ≤ count_real prompts_only many_turns) by (vm_compute; lia).
  assert (Hc : (clear_retained eager 4 many_turns).1 !! 2 ≠ Some (tool_result "a" "long content")) by (vm_compute; discriminate).
  split; [exact Hn|]. split; [exact Hc|].
  refine (cleared_results_are_old eager 4 many_turns prompts_only 2 (MkToolResult "a" "long content" []) _ _ Hn eq_refl Hc).
  - cbn. lia.
  - by intros [].
Defined.

End RequestScene.
