(* ===== verification/ChatState.v ===== *)
(** The chat state actor (crate [ainxt-chat-state], [actor/state.rs], [mutations.rs],
    [queries.rs], [request_builder.rs] and [mod.rs], with [types.rs], [commands.rs],
    [events.rs] and [persistence.rs]): its state, the records it sends to the disk and
    the events it sends to the session, and each command it handles. *)
From stdpp Require Import list gmap sets strings.
From S2P Require Import Prelude RustStr StrSearch Float64 Conversation ConversationRepair ChatUsage ChatHistory ChatRequest.

(** * State *)

Module Export ChatStates.

Record TurnCaptureState : Type := MkCapture {
  turn_start_offset : nat;
  pre_replacement_messages : list ConversationItem;
  compaction_occurred : bool;
}.

Record ChatState : Type := MkState {
  conversation : list ConversationItem;
  sampling_config : SamplingConfig;
  prompt_index : nat;
  prompt_texts : list string;
  total_tokens : N;
  stream_start_ms : option Z;
  turn_start_ms : option Z;
  agent_edited_paths : gset string;
  last_compaction_prompt_index : option nat;
  credentials : Credentials;
  estimated_tokens_since_model : N;
  estimate_at_last_response : N;
  last_turn_usage : option TokenUsage;
  prompt_usage : option UsageLedger;
  session_usage : UsageLedger;
  turn_capture : option TurnCaptureState;
  harness_trace_buffer : list ConversationItem;
  harness_trace_turns : list (list ConversationItem);
}.

(** Assignment to a field. *)
Definition set_conversation (x : list ConversationItem) (s : ChatState) : ChatState :=
  MkState x (sampling_config s) (prompt_index s) (prompt_texts s) (total_tokens s) (stream_start_ms s)
    (turn_start_ms s) (agent_edited_paths s) (last_compaction_prompt_index s) (credentials s)
    (estimated_tokens_since_model s) (estimate_at_last_response s) (last_turn_usage s) (prompt_usage s)
    (session_usage s) (turn_capture s) (harness_trace_buffer s) (harness_trace_turns s).
Definition set_sampling_config (x : SamplingConfig) (s : ChatState) : ChatState :=
  MkState (conversation s) x (prompt_index s) (prompt_texts s) (total_tokens s) (stream_start_ms s)
    (turn_start_ms s) (agent_edited_paths s) (last_compaction_prompt_index s) (credentials s)
    (estimated_tokens_since_model s) (estimate_at_last_response s) (last_turn_usage s) (prompt_usage s)
    (session_usage s) (turn_capture s) (harness_trace_buffer s) (harness_trace_turns s).
Definition set_prompt_index (x : nat) (s : ChatState) : ChatState :=
  MkState (conversation s) (sampling_config s) x (prompt_texts s) (total_tokens s) (stream_start_ms s)
    (turn_start_ms s) (agent_edited_paths s) (last_compaction_prompt_index s) (credentials s)
    (estimated_tokens_since_model s) (estimate_at_last_response s) (last_turn_usage s) (prompt_usage s)
    (session_usage s) (turn_capture s) (harness_trace_buffer s) (harness_trace_turns s).
Definition set_prompt_texts (x : list string) (s : ChatState) : ChatState :=
  MkState (conversation s) (sampling_config s) (prompt_index s) x (total_tokens s) (stream_start_ms s)
    (turn_start_ms s) (agent_edited_paths s) (last_compaction_prompt_index s) (credentials s)
    (estimated_tokens_since_model s) (estimate_at_last_response s) (last_turn_usage s) (prompt_usage s)
    (session_usage s) (turn_capture s) (harness_trace_buffer s) (harness_trace_turns s).
Definition set_total_tokens (x : N) (s : ChatState) : ChatState :=
  MkState (conversation s) (sampling_config s) (prompt_index s) (prompt_texts s) x (stream_start_ms s)
    (turn_start_ms s) (agent_edited_paths s) (last_compaction_prompt_index s) (credentials s)
    (estimated_tokens_since_model s) (estimate_at_last_response s) (last_turn_usage s) (prompt_usage s)
    (session_usage s) (turn_capture s) (harness_trace_buffer s) (harness_trace_turns s).
Definition set_stream_start_ms (x : option Z) (s : ChatState) : ChatState :=
  MkState (conversation s) (sampling_config s) (prompt_index s) (prompt_texts s) (total_tokens s) x
    (turn_start_ms s) (agent_edited_paths s) (last_compaction_prompt_index s) (credentials s)
    (estimated_tokens_since_model s) (estimate_at_last_response s) (last_turn_usage s) (prompt_usage s)
    (session_usage s) (turn_capture s) (harness_trace_buffer s) (harness_trace_turns s).
Definition set_turn_start_ms (x : option Z) (s : ChatState) : ChatState :=
  MkState (conversation s) (sampling_config s) (prompt_index s) (prompt_texts s) (total_tokens s)
    (stream_start_ms s) x (agent_edited_paths s) (last_compaction_prompt_index s) (credentials s)
    (estimated_tokens_since_model s) (estimate_at_last_response s) (last_turn_usage s) (prompt_usage s)
    (session_usage s) (turn_capture s) (harness_trace_buffer s) (harness_trace_turns s).
Definition set_agent_edited_paths (x : gset string) (s : ChatState) : ChatState :=
  MkState (conversation s) (sampling_config s) (prompt_index s) (prompt_texts s) (total_tokens s)
    (stream_start_ms s) (turn_start_ms s) x (last_compaction_prompt_index s) (credentials s)
    (estimated_tokens_since_model s) (estimate_at_last_response s) (last_turn_usage s) (prompt_usage s)
    (session_usage s) (turn_capture s) (harness_trace_buffer s) (harness_trace_turns s).
Definition set_last_compaction_prompt_index (x : option nat) (s : ChatState) : ChatState :=
  MkState (conversation s) (sampling_config s) (prompt_index s) (prompt_texts s) (total_tokens s)
    (stream_start_ms s) (turn_start_ms s) (agent_edited_paths s) x (credentials s)
    (estimated_tokens_since_model s) (estimate_at_last_response s) (last_turn_usage s) (prompt_usage s)
    (session_usage s) (turn_capture s) (harness_trace_buffer s) (harness_trace_turns s).
Definition set_credentials (x : Credentials) (s : ChatState) : ChatState :=
  MkState (conversation s) (sampling_config s) (prompt_index s) (prompt_texts s) (total_tokens s)
    (stream_start_ms s) (turn_start_ms s) (agent_edited_paths s) (last_compaction_prompt_index s) x
    (estimated_tokens_since_model s) (estimate_at_last_response s) (last_turn_usage s) (prompt_usage s)
    (session_usage s) (turn_capture s) (harness_trace_buffer s) (harness_trace_turns s).
Definition set_estimated_tokens_since_model (x : N) (s : ChatState) : ChatState :=
  MkState (conversation s) (sampling_config s) (prompt_index s) (prompt_texts s) (total_tokens s)
    (stream_start_ms s) (turn_start_ms s) (agent_edited_paths s) (last_compaction_prompt_index s)
    (credentials s) x (estimate_at_last_response s) (last_turn_usage s) (prompt_usage s) (session_usage s)
    (turn_capture s) (harness_trace_buffer s) (harness_trace_turns s).
Definition set_estimate_at_last_response (x : N) (s : ChatState) : ChatState :=
  MkState (conversation s) (sampling_config s) (prompt_index s) (prompt_texts s) (total_tokens s)
    (stream_start_ms s) (turn_start_ms s) (agent_edited_paths s) (last_compaction_prompt_index s)
    (credentials s) (estimated_tokens_since_model s) x (last_turn_usage s) (prompt_usage s)
    (session_usage s) (turn_capture s) (harness_trace_buffer s) (harness_trace_turns s).
Definition set_last_turn_usage (x : option TokenUsage) (s : ChatState) : ChatState :=
  MkState (conversation s) (sampling_config s) (prompt_index s) (prompt_texts s) (total_tokens s)
    (stream_start_ms s) (turn_start_ms s) (agent_edited_paths s) (last_compaction_prompt_index s)
    (credentials s) (estimated_tokens_since_model s) (estimate_at_last_response s) x (prompt_usage s)
    (session_usage s) (turn_capture s) (harness_trace_buffer s) (harness_trace_turns s).
Definition set_prompt_usage (x : option UsageLedger) (s : ChatState) : ChatState :=
  MkState (conversation s) (sampling_config s) (prompt_index s) (prompt_texts s) (total_tokens s)
    (stream_start_ms s) (turn_start_ms s) (agent_edited_paths s) (last_compaction_prompt_index s)
    (credentials s) (estimated_tokens_since_model s) (estimate_at_last_response s) (last_turn_usage s) x
    (session_usage s) (turn_capture s) (harness_trace_buffer s) (harness_trace_turns s).
Definition set_session_usage (x : UsageLedger) (s : ChatState) : ChatState :=
  MkState (conversation s) (sampling_config s) (prompt_index s) (prompt_texts s) (total_tokens s)
    (stream_start_ms s) (turn_start_ms s) (agent_edited_paths s) (last_compaction_prompt_index s)
    (credentials s) (estimated_tokens_since_model s) (estimate_at_last_response s) (last_turn_usage s)
    (prompt_usage s) x (turn_capture s) (harness_trace_buffer s) (harness_trace_turns s).
Definition set_turn_capture (x : option TurnCaptureState) (s : ChatState) : ChatState :=
  MkState (conversation s) (sampling_config s) (prompt_index s) (prompt_texts s) (total_tokens s)
    (stream_start_ms s) (turn_start_ms s) (agent_edited_paths s) (last_compaction_prompt_index s)
    (credentials s) (estimated_tokens_since_model s) (estimate_at_last_response s) (last_turn_usage s)
    (prompt_usage s) (session_usage s) x (harness_trace_buffer s) (harness_trace_turns s).
Definition set_harness_trace_buffer (x : list ConversationItem) (s : ChatState) : ChatState :=
  MkState (conversation s) (sampling_config s) (prompt_index s) (prompt_texts s) (total_tokens s)
    (stream_start_ms s) (turn_start_ms s) (agent_edited_paths s) (last_compaction_prompt_index s)
    (credentials s) (estimated_tokens_since_model s) (estimate_at_last_response s) (last_turn_usage s)
    (prompt_usage s) (session_usage s) (turn_capture s) x (harness_trace_turns s).
Definition set_harness_trace_turns (x : list (list ConversationItem)) (s : ChatState) : ChatState :=
  MkState (conversation s) (sampling_config s) (prompt_index s) (prompt_texts s) (total_tokens s)
    (stream_start_ms s) (turn_start_ms s) (agent_edited_paths s) (last_compaction_prompt_index s)
    (credentials s) (estimated_tokens_since_model s) (estimate_at_last_response s) (last_turn_usage s)
    (prompt_usage s) (session_usage s) (turn_capture s) (harness_trace_buffer s) x.

(** What is sent to the disk and to the session. *)
Inductive PersistenceRecord : Type :=
| Message (item : ConversationItem)
| ReplaceHistory (items : list ConversationItem)
| FlushRecord.

Inductive ChatStateEvent : Type :=
| PromptIndexChanged (new_index : nat)
| TokensUpdated (total : N)
| ConversationReset (new_len : nat)
| ImageBudget (body_bytes trigger_bytes reclaim_target_bytes : N) (inline_images : nat)
    (needs_image_compaction : bool) (images_evicted : nat) (bytes_after : N).

(** The actor: its state, and what it has sent so far. *)
Record Actor : Type := MkActor {
  state : ChatState;
  persisted : list PersistenceRecord;
  events : list ChatStateEvent;
}.
Definition update (f : ChatState → ChatState) (a : Actor) : Actor := MkActor (f (state a)) (persisted a) (events a).
Definition persist (r : PersistenceRecord) (a : Actor) : Actor := MkActor (state a) (persisted a ++ [r]) (events a).
Definition send_event (e : ChatStateEvent) (a : Actor) : Actor := MkActor (state a) (persisted a) (events a ++ [e]).

Record ChatStateSnapshot : Type := MkSnapshot {
  snap_conversation : list ConversationItem;
  snap_sampling_config : SamplingConfig;
  snap_prompt_index : nat;
  snap_total_tokens : N;
  snap_estimate_at_last_response : N;
  snap_agent_edited_paths : gset string;
  snap_prompt_texts : list string;
  snap_stream_start_ms : option Z;
  snap_turn_start_ms : option Z;
  snap_last_compaction_prompt_index : option nat;
  snap_credentials : Credentials;
}.

Record TurnCapture : Type := MkTurnCapture { captured_messages : list ConversationItem; captured_compaction : bool }.
Record ConversationCounts : Type := MkCounts { total_count : nat; user_count : nat; assistant_count : nat; tool_result_count : nat }.
Record AutoCompactTrigger : Type := MkTrigger { trigger_tokens : N; trigger_window : positive; utilization_percent : N }.
Record ModelMetadata : Type := MkMetadata { resolved_model_id : option string; metadata_fingerprint : option string }.

End ChatStates.

(** * Mutations *)

Module Export Mutations.

(** [None] when an estimate panics ([text_summary] of a backend call). *)
Definition ChatState_new (initial : list ConversationItem) (sampling : SamplingConfig) : option ChatState :=
  let conversation := (restored UserCancelled initial).1 in
  initial_tokens ← estimate_conversation_tokens conversation;
  Some (MkState conversation sampling 0 [] initial_tokens None None ∅ None Credentials_default 0 initial_tokens
          None None UsageLedger_default None [] []).

Definition seal_harness_trace_turn (s : ChatState) : ChatState :=
  if bool_decide (harness_trace_buffer s = []) then s
  else set_harness_trace_turns (harness_trace_turns s ++ [harness_trace_buffer s]) (set_harness_trace_buffer [] s).

(** An offset past the end yields nothing; with debug assertions it panics. *)
Definition turn_tail (l : list ConversationItem) (offset : nat) : list ConversationItem := drop offset l.

Definition snapshot_turn_slice (s : ChatState) : ChatState :=
  match turn_capture s with
  | Some cap =>
      set_turn_capture (Some (MkCapture (turn_start_offset cap)
                                (pre_replacement_messages cap ++ turn_tail (conversation s) (turn_start_offset cap))
                                (compaction_occurred cap))) s
  | None => s
  end.
Definition rebase_turn_capture_offset (s : ChatState) : ChatState :=
  match turn_capture s with
  | Some cap =>
      set_turn_capture (Some (MkCapture (length (conversation s)) (pre_replacement_messages cap) (compaction_occurred cap))) s
  | None => s
  end.

Definition ensure_conversation_integrity_with_reason (reason : DanglingToolCallReason) (a : Actor) : Actor :=
  let a := update snapshot_turn_slice a in
  let (deduped_items, deduped) := dedup_duplicate_tool_results (conversation (state a)) in
  let (items, repaired) := repair_dangling_tool_calls deduped_items reason in
  let a := update (set_conversation items) a in
  let a := if (0 <? repaired) || (0 <? deduped) then persist (ReplaceHistory items) a else a in
  update rebase_turn_capture_offset a.
Definition ensure_conversation_integrity : Actor → Actor := ensure_conversation_integrity_with_reason UserCancelled.
Definition repair_dangling_after_harness_halt (class : string) : Actor → Actor :=
  ensure_conversation_integrity_with_reason (HarnessHalted class).

(** The counter of the estimate wraps like the [u64] it is. *)
Definition add_estimate (n : N) (s : ChatState) : ChatState :=
  set_estimated_tokens_since_model (wrap64 (estimated_tokens_since_model s + n)) s.
Definition push_item (item : ConversationItem) (a : Actor) : Actor :=
  update (λ s, set_conversation (conversation s ++ [item]) s) (persist (Message item) a).

Definition push_message (item : ConversationItem) (a : Actor) : option Actor :=
  match item with
  | Assistant _ => Some (push_item item a)
  | _ => n ← estimate_item_tokens item; Some (push_item item (update (add_estimate n) a))
  end.

Definition item_content_bytes (i : ConversationItem) : option N :=
  match i with
  | System s => Some (str_len (system_content s))
  | User u => Some (sum_N ((λ p, match p with Text t => str_len t | Image url => str_len url end) <$> user_content u))
  | Assistant a => Some (str_len (assistant_content a))
  | ToolResult t => Some (str_len (result_content t))
  | BackendToolCall b => str_len <$> text_summary b
  | Reasoning r => Some (str_len (reasoning_item_text r) + default 0%N (str_len <$> encrypted_content r))%N
  end.
Definition conversation_content_bytes (l : list ConversationItem) : option N := sum_N <$> mapM item_content_bytes l.

(** The byte counts are only logged, but a panic in them is a panic. *)
Definition prune_retained_conversation (config : PruningConfig) (a : Actor) : option Actor :=
  let s := state a in
  if negb (enabled config) then Some a
  else if prompt_index s <? hard_clear_age_turns config then Some a
  else
    _ ← conversation_content_bytes (conversation s);
    let (items, cleared) := clear_retained config (prompt_index s) (conversation s) in
    let a := update (set_conversation items) a in
    if 0 <? cleared then _ ← conversation_content_bytes items; Some (persist (ReplaceHistory items) a) else Some a.

Definition push_user_message_with_repair_reason (config : PruningConfig) (reason : DanglingToolCallReason)
    (item : ConversationItem) (a : Actor) : option Actor :=
  let a := ensure_conversation_integrity_with_reason reason a in
  n ← estimate_item_tokens item;
  prune_retained_conversation config (push_item item (update (add_estimate n) a)).
Definition push_user_message (config : PruningConfig) : ConversationItem → Actor → option Actor :=
  push_user_message_with_repair_reason config UserCancelled.

Definition record_token_usage (tokens : N) (a : Actor) : option Actor :=
  n ← estimate_conversation_tokens (conversation (state a));
  Some (send_event (TokensUpdated tokens)
          (update (λ s, set_total_tokens tokens (set_estimate_at_last_response n (set_estimated_tokens_since_model 0 s))) a)).

Definition record_model_call_usage (model : option string) (u : TokenUsage) (api_duration : option N) (cost : option Z)
    (s : ChatState) : ChatState :=
  let model_key :=
    match model with
    | Some id => if is_empty id then sampling_model (sampling_config s) else id
    | None => sampling_model (sampling_config s)
    end in
  set_session_usage (record_main_loop_call (session_usage s) model_key u api_duration cost)
    (set_prompt_usage (Some (record_main_loop_call (default UsageLedger_default (prompt_usage s)) model_key u api_duration cost)) s).

Definition record_subagent_usage (rows : list (string * UsageTotals)) (attribute_to_prompt partial : bool) (s : ChatState)
  : ChatState :=
  if bool_decide (rows = []) && negb partial then s
  else
    let s := if attribute_to_prompt
             then set_prompt_usage (Some (record_subagent (default UsageLedger_default (prompt_usage s)) rows partial)) s else s in
    set_session_usage (record_subagent (session_usage s) rows partial) s.

Definition mark_usage_incomplete (prompt session : bool) (s : ChatState) : ChatState :=
  let s := if prompt then set_prompt_usage (Some (mark_incomplete (default UsageLedger_default (prompt_usage s)))) s else s in
  if session then set_session_usage (mark_incomplete (session_usage s)) s else s.

Definition increment_prompt_index (a : Actor) : Actor :=
  let a := update (λ s, set_prompt_index (S (prompt_index s)) (set_prompt_usage None s)) a in
  send_event (PromptIndexChanged (prompt_index (state a))) a.

(** The estimate of a replaced history: a compaction scales it by the ratio of the
    provider's count, up to what was counted before. *)
Definition reseed_tokens (is_compaction : bool) (pre_replace_total estimate_at base_estimate : N) : N :=
  let compacting := is_compaction && (0 <? pre_replace_total)%N in
  let estimated :=
    if compacting && (0 <? estimate_at)%N
    then f64_round u64_max (f64_mul (f64_of_N base_estimate) (f64_ratio pre_replace_total estimate_at))
    else base_estimate in
  if compacting then N.min estimated pre_replace_total else estimated.

Definition note_compaction (is_compaction : bool) (s : ChatState) : ChatState :=
  match turn_capture s with
  | Some cap =>
      if is_compaction
      then set_turn_capture (Some (MkCapture (turn_start_offset cap) (pre_replacement_messages cap) true)) s else s
  | None => s
  end.

Definition replace_conversation (items : list ConversationItem) (is_compaction : bool) (a : Actor) : option Actor :=
  let a := update (λ s, note_compaction is_compaction (snapshot_turn_slice s)) a in
  let s := state a in
  base_estimate ← estimate_conversation_tokens items;
  let estimated := reseed_tokens is_compaction (total_tokens s) (estimate_at_last_response s) base_estimate in
  let a := update (λ s, rebase_turn_capture_offset
             (set_estimate_at_last_response base_estimate (set_total_tokens estimated
               (set_estimated_tokens_since_model 0 (set_conversation items s))))) (persist (ReplaceHistory items) a) in
  Some (send_event (TokensUpdated estimated) (send_event (ConversationReset (length items)) a)).

(** Taking the conversation leaves the state with none while the repair runs. *)
Definition repair_history_command (dry_run : bool) (a : Actor) : option (Actor * HistoryRepairReport) :=
  if dry_run then Some (a, (repair_history (conversation (state a))).2)
  else
    let (items, report) := repair_history (conversation (state a)) in
    if changed report
    then a ← replace_conversation items false (update (set_conversation []) a); Some (a, report)
    else Some (update (set_conversation items) a, report).

Definition replace_system_head (prompt : string) (a : Actor) : option (Actor * bool) :=
  let unchanged :=
    match head (conversation (state a)) with
    | Some (System s) => canonical_system_prompt_eq (system_content s) prompt
    | _ => false
    end in
  if unchanged then Some (a, false)
  else
    let r := replace_or_insert_system_head (conversation (state a)) prompt in
    a ← replace_conversation r.1 false a; Some (a, r.2).

Definition restore_snapshot (snap : ChatStateSnapshot) (a : Actor) : option Actor :=
  let s := rebase_turn_capture_offset (set_conversation (snap_conversation snap) (snapshot_turn_slice (state a))) in
  estimate ← (if (0 <? snap_estimate_at_last_response snap)%N then Some (snap_estimate_at_last_response snap)
              else estimate_conversation_tokens (snap_conversation snap));
  Some (update (λ _,
    MkState (snap_conversation snap) (snap_sampling_config snap) (snap_prompt_index snap) (snap_prompt_texts snap)
      (snap_total_tokens snap) (snap_stream_start_ms snap) (snap_turn_start_ms snap) (snap_agent_edited_paths snap)
      (snap_last_compaction_prompt_index snap) (snap_credentials snap) 0 estimate (last_turn_usage s) None
      (session_usage s) (turn_capture s) (harness_trace_buffer s) (harness_trace_turns s)) a).

End Mutations.

(** * Queries and rewinding *)

Module Export StateQueries.

Definition snapshot (s : ChatState) : ChatStateSnapshot :=
  MkSnapshot (conversation s) (sampling_config s) (prompt_index s) (total_tokens s) (estimate_at_last_response s)
    (agent_edited_paths s) (prompt_texts s) (stream_start_ms s) (turn_start_ms s) (last_compaction_prompt_index s)
    (credentials s).

(** Where the user message number [target] is, [user_count] of them behind. *)
Fixpoint truncate_at (target user_count : nat) (l : list ConversationItem) : nat :=
  match l with
  | [] => 0
  | User _ :: l => if user_count =? target then 0 else S (truncate_at target (S user_count) l)
  | _ :: l => S (truncate_at target user_count l)
  end.

Definition truncate_to_prompt_index (target : nat) (a : Actor) : option Actor :=
  let s := state a in
  if prompt_index s <=? target then Some a
  else
    let items := take (truncate_at target 0 (conversation s)) (conversation s) in
    estimate ← estimate_conversation_tokens items;
    let a := update (λ s, set_estimate_at_last_response estimate (set_estimated_tokens_since_model 0
               (set_total_tokens estimate (set_prompt_index target (set_prompt_texts (take target (prompt_texts s))
                 (set_conversation items s)))))) a in
    Some (send_event (ConversationReset (length items)) (persist (ReplaceHistory items) a)).

Definition check_auto_compact_needed (threshold_percent : N) (s : ChatState) : option AutoCompactTrigger :=
  let cw := N.pos (context_window (sampling_config s)) in
  if exceeds_threshold (total_tokens s) cw threshold_percent
  then Some (MkTrigger (total_tokens s) (context_window (sampling_config s)) (usage_percentage_truncated_u8 (total_tokens s) cw))
  else None.

(** [Iterator::find_map]. *)
Fixpoint find_map {A B} (f : A → option B) (l : list A) : option B :=
  match l with [] => None | x :: l => match f x with Some y => Some y | None => find_map f l end end.

Definition get_last_model_metadata (s : ChatState) : ModelMetadata :=
  default (MkMetadata None None)
    (find_map (λ i, match i with Assistant a => Some (MkMetadata (model_id a) (model_fingerprint a)) | _ => None end)
       (reverse (conversation s))).

Definition get_last_assistant_text (s : ChatState) : option string :=
  find_map (λ i, match i with
                 | Assistant a => if is_empty (trim (assistant_content a)) then None else Some (assistant_content a)
                 | _ => None end) (reverse (conversation s)).
Definition get_first_user_text (s : ChatState) : option string :=
  find_map (λ i, match i with
                 | User u => match head (user_content u) with Some (Text t) => Some t | _ => None end
                 | _ => None end) (conversation s).
Definition get_last_user_query_text (s : ChatState) : option string := extract_last_user_query (conversation s).

Definition count_item (c : ConversationCounts) (i : ConversationItem) : ConversationCounts :=
  match i with
  | User _ => MkCounts (total_count c) (S (user_count c)) (assistant_count c) (tool_result_count c)
  | Assistant _ => MkCounts (total_count c) (user_count c) (S (assistant_count c)) (tool_result_count c)
  | ToolResult _ => MkCounts (total_count c) (user_count c) (assistant_count c) (S (tool_result_count c))
  | _ => c
  end.
Definition get_conversation_counts (s : ChatState) : ConversationCounts :=
  fold_left count_item (conversation s) (MkCounts (length (conversation s)) 0 0 0).

Definition get_system_message (s : ChatState) : option ConversationItem :=
  find_map (λ i, if is_system i then Some i else None) (conversation s).

End StateQueries.

(** * Requests and the command loop *)

Module Export Commands.

Section Handler.
Context {Trace : Type} (json_bytes : list ConversationItem → N) (part_json_bytes : ContentPart → N) (config : PruningConfig).

(** The reminder is made part of the state, or left for the copy. *)
Definition persist_reminder (reminder : option string) (persist_memory_reminder : bool) (a : Actor)
  : Actor * option string :=
  match reminder with
  | Some r =>
      if persist_memory_reminder then
        let a := update snapshot_turn_slice a in
        let (items, injected) := inject_memory_reminder (conversation (state a)) r in
        let a := update (set_conversation items) a in
        let a := if injected then persist (ReplaceHistory items) a else a in
        (update rebase_turn_capture_offset a, if injected then None else reminder)
      else (a, reminder)
  | None => (a, None)
  end.

Definition request_copy (s : ChatState) (body_bytes : N) (reminder : option string)
  : list ConversationItem * option ImageEvictionOutcome :=
  let needs_prune := should_prune (total_tokens s) (context_window (sampling_config s)) in
  let needs_image_compaction := (IMAGE_COMPACT_TRIGGER_BYTES <=? body_bytes)%N in
  let items := conversation s in
  let (items, eviction) :=
    if needs_image_compaction then
      let r := compact_images_to_byte_budget part_json_bytes items body_bytes IMAGE_COMPACT_RECLAIM_TARGET_BYTES in
      (r.1, Some r.2)
    else (items, None) in
  let items := if needs_prune then prune_conversation items config else items in
  (match reminder with Some r => (inject_memory_reminder items r).1 | None => items end, eviction).

Definition build_conversation_request (tool_definitions : list ToolSpec) (reminder : option string)
    (persist_memory_reminder : bool) (trace : option Trace) (conv_id req_id : string) (a : Actor)
  : Actor * ConversationRequest Trace :=
  let (a, reminder) := persist_reminder reminder persist_memory_reminder a in
  let s := state a in
  let body_bytes := conversation_body_bytes json_bytes (conversation s) in
  let inline_images := inline_image_count (conversation s) in
  let (items, eviction) := request_copy s body_bytes reminder in
  let a :=
    if 0 <? inline_images
    then send_event (ImageBudget body_bytes IMAGE_COMPACT_TRIGGER_BYTES IMAGE_COMPACT_RECLAIM_TARGET_BYTES inline_images
                       (IMAGE_COMPACT_TRIGGER_BYTES <=? body_bytes)%N (default 0 (evicted <$> eviction))
                       (default body_bytes (body_bytes_after <$> eviction))) a
    else a in
  let sampling := sampling_config s in
  (a, MkRequest Trace items tool_definitions [] None (Some (sampling_model sampling)) (temperature sampling)
        (max_completion_tokens sampling) (top_p sampling) (Some conv_id) (Some req_id) None None None None None trace
        (reasoning_effort sampling) None ModelCapabilities_full).

(** The commands; what a reply carries is the result of handling one. The flag of a
    history repair is its value when the command is handled. *)
Inductive ChatStateCommand : Type :=
| PushUserMessage (item : ConversationItem)
| PushUserMessageAndAck (item : ConversationItem)
| PushUserMessageWithRepairReason (item : ConversationItem) (reason : DanglingToolCallReason)
| PushAssistantResponse (item : ConversationItem)
| PushToolResult (item : ConversationItem)
| RecordTokenUsage (tokens : N)
| RecordLastTurnUsage (u : TokenUsage)
| RecordModelCallUsage (model : option string) (u : TokenUsage) (api_duration : option N) (cost : option Z)
| RecordSubagentUsage (rows : list (string * UsageTotals)) (attribute_to_prompt partial : bool)
| MarkUsageIncomplete (prompt session : bool)
| IncrementPromptIndex
| UpdateSamplingConfig (sampling : SamplingConfig)
| RecordAgentEditedPath (path : string)
| RecordStreamStart (timestamp_ms : Z)
| RecordTurnStart (timestamp_ms : Z)
| ReplaceConversation (items : list ConversationItem) (is_compaction : bool)
| RepairHistory (dry_run : bool) (turn_active : option bool)
| ReplaceSystemHead (prompt : string)
| CachePromptText (text : string)
| RecordCompactionAt (at_ : nat)
| Flush
| UpdateCredentials (c : Credentials)
| RestoreSnapshot (snap : ChatStateSnapshot)
| BeginTurnCapture
| AppendHarnessTraceItems (items : list ConversationItem)
| FlushHarnessTraceTurn
| RepairDanglingAfterHarnessHalt (class : string)
| BuildConversationRequest (tools : list ToolSpec) (reminder : option string) (persist_reminder : bool)
    (trace : option Trace) (conv_id req_id : string)
| TakeTurnMessages
| TakeHarnessTraceTurns
| TruncateToPromptIndex (target : nat)
| GetConversation | GetPromptIndex | GetLastCompactionPromptIndex | GetTotalTokens | GetLastTurnUsage
| GetPromptUsage | GetSessionUsage | GetEstimatedTotalTokens | GetSamplingConfig | GetAgentEditedPaths
| GetNotificationMeta | Snapshot | CheckAutoCompactNeeded (threshold_percent : N) | GetCredentials
| GetLastModelMetadata | GetConversationLen | HasDanglingToolCalls | GetLastAssistantText | GetFirstUserText
| GetConversationItemAt (index : nat) | GetLastUserQueryText | GetConversationCounts | GetSystemMessage
| GetEstimatedMessagesTokens.

Inductive Reply : Type :=
| NoReply
| Ack
| ReportReply (r : result unit HistoryRepairReport)
| BoolReply (b : bool)
| RequestReply (r : ConversationRequest Trace)
| ItemsReply (l : list ConversationItem)
| NatReply (n : nat)
| NatOptionReply (n : option nat)
| CountReply (n : N)
| TurnUsageReply (u : option TokenUsage)
| PromptUsageReply (u : option UsageLedger)
| SessionUsageReply (u : UsageLedger)
| SamplingReply (c : SamplingConfig)
| PathsReply (p : gset string)
| MetaReply (stream_start turn_start : option Z)
| SnapshotReply (s : ChatStateSnapshot)
| TriggerReply (t : option AutoCompactTrigger)
| CredentialsReply (c : Credentials)
| MetadataReply (m : ModelMetadata)
| CaptureReply (c : option TurnCapture)
| TracesReply (t : list (list ConversationItem))
| TextReply (t : option string)
| ItemReply (i : option ConversationItem)
| CountsReply (c : ConversationCounts).

Definition take_turn_messages (s : ChatState) : option TurnCapture :=
  (λ cap, MkTurnCapture (pre_replacement_messages cap ++ turn_tail (conversation s) (turn_start_offset cap))
            (compaction_occurred cap)) <$> turn_capture s.

Definition set_state (f : ChatState → ChatState) (a : Actor) : option (Actor * Reply) := Some (update f a, NoReply).
Definition silently (a : option Actor) : option (Actor * Reply) := (λ a, (a, NoReply)) <$> a.
Definition acked (a : option Actor) : option (Actor * Reply) := (λ a, (a, Ack)) <$> a.

Definition handle_mutation (cmd : ChatStateCommand) (a : Actor) : option (option (Actor * Reply)) :=
  match cmd with
  | PushUserMessage item => Some (silently (push_user_message config item a))
  | PushUserMessageAndAck item => Some (acked (push_user_message config item a))
  | PushUserMessageWithRepairReason item reason => Some (silently (push_user_message_with_repair_reason config reason item a))
  | PushAssistantResponse item | PushToolResult item => Some (silently (push_message item a))
  | RecordTokenUsage tokens => Some (silently (record_token_usage tokens a))
  | RecordLastTurnUsage u => Some (set_state (set_last_turn_usage (Some u)) a)
  | RecordModelCallUsage model u d c => Some (set_state (record_model_call_usage model u d c) a)
  | RecordSubagentUsage rows attribute partial => Some (acked (Some (update (record_subagent_usage rows attribute partial) a)))
  | MarkUsageIncomplete prompt session => Some (acked (Some (update (mark_usage_incomplete prompt session) a)))
  | IncrementPromptIndex => Some (silently (Some (increment_prompt_index a)))
  | UpdateSamplingConfig c => Some (set_state (set_sampling_config c) a)
  | RecordAgentEditedPath p => Some (set_state (λ s, set_agent_edited_paths ({[p]} ∪ agent_edited_paths s) s) a)
  | RecordStreamStart t => Some (set_state (set_stream_start_ms (Some t)) a)
  | RecordTurnStart t => Some (set_state (set_turn_start_ms (Some t)) a)
  | ReplaceConversation items c => Some (silently (replace_conversation items c a))
  | RepairHistory dry_run turn_active =>
      Some (if default false turn_active then Some (a, ReportReply (Err ()))
            else (λ r, (r.1, ReportReply (Ok r.2))) <$> repair_history_command dry_run a)
  | ReplaceSystemHead prompt => Some ((λ r, (r.1, BoolReply r.2)) <$> replace_system_head prompt a)
  | CachePromptText t => Some (set_state (λ s, set_prompt_texts (prompt_texts s ++ [t]) s) a)
  | RecordCompactionAt n => Some (set_state (set_last_compaction_prompt_index (Some n)) a)
  | Flush => Some (silently (Some (persist FlushRecord a)))
  | UpdateCredentials c => Some (set_state (set_credentials c) a)
  | RestoreSnapshot snap => Some (silently (restore_snapshot snap a))
  | BeginTurnCapture => Some (set_state (λ s, set_turn_capture (Some (MkCapture (length (conversation s)) [] false)) s) a)
  | AppendHarnessTraceItems items => Some (set_state (λ s, set_harness_trace_buffer (harness_trace_buffer s ++ items) s) a)
  | FlushHarnessTraceTurn => Some (set_state seal_harness_trace_turn a)
  | RepairDanglingAfterHarnessHalt class => Some (silently (Some (repair_dangling_after_harness_halt class a)))
  | BuildConversationRequest tools reminder keep trace conv_id req_id =>
      let r := build_conversation_request tools reminder keep trace conv_id req_id (ensure_conversation_integrity a) in
      Some (Some (r.1, RequestReply r.2))
  | TruncateToPromptIndex target =>
      Some (acked (update (λ s, set_prompt_usage None (set_turn_capture None s)) <$> truncate_to_prompt_index target a))
  | TakeTurnMessages => Some (Some (update (set_turn_capture None) a, CaptureReply (take_turn_messages (state a))))
  | TakeHarnessTraceTurns =>
      let a := update seal_harness_trace_turn a in
      Some (Some (update (set_harness_trace_turns []) a, TracesReply (harness_trace_turns (state a))))
  | _ => None
  end.

(** The queries read the state; the estimate of one may panic. *)
Definition answer (cmd : ChatStateCommand) (s : ChatState) : option Reply :=
  match cmd with
  | GetConversation => Some (ItemsReply (conversation s))
  | GetPromptIndex => Some (NatReply (prompt_index s))
  | GetLastCompactionPromptIndex => Some (NatOptionReply (last_compaction_prompt_index s))
  | GetTotalTokens => Some (CountReply (total_tokens s))
  | GetLastTurnUsage => Some (TurnUsageReply (last_turn_usage s))
  | GetPromptUsage => Some (PromptUsageReply (prompt_usage s))
  | GetSessionUsage => Some (SessionUsageReply (session_usage s))
  | GetEstimatedTotalTokens => Some (CountReply (wrap64 (total_tokens s + estimated_tokens_since_model s)))
  | GetSamplingConfig => Some (SamplingReply (sampling_config s))
  | GetAgentEditedPaths => Some (PathsReply (agent_edited_paths s))
  | GetNotificationMeta => Some (MetaReply (stream_start_ms s) (turn_start_ms s))
  | Snapshot => Some (SnapshotReply (snapshot s))
  | CheckAutoCompactNeeded t => Some (TriggerReply (check_auto_compact_needed t s))
  | GetCredentials => Some (CredentialsReply (credentials s))
  | GetLastModelMetadata => Some (MetadataReply (get_last_model_metadata s))
  | GetConversationLen => Some (NatReply (length (conversation s)))
  | HasDanglingToolCalls => Some (BoolReply (has_dangling_tool_calls (conversation s)))
  | GetLastAssistantText => Some (TextReply (get_last_assistant_text s))
  | GetFirstUserText => Some (TextReply (get_first_user_text s))
  | GetConversationItemAt i => Some (ItemReply (conversation s !! i))
  | GetLastUserQueryText => Some (TextReply (get_last_user_query_text s))
  | GetConversationCounts => Some (CountsReply (get_conversation_counts s))
  | GetSystemMessage => Some (ItemReply (get_system_message s))
  | GetEstimatedMessagesTokens => CountReply <$> estimate_messages_tokens (conversation s)
  | _ => None
  end.

Definition handle_command (cmd : ChatStateCommand) (a : Actor) : option (Actor * Reply) :=
  match handle_mutation cmd a with
  | Some r => r
  | None => (λ r, (a, r)) <$> answer cmd (state a)
  end.

(** The loop, over the commands in the order of the channel. *)
Fixpoint run (cmds : list ChatStateCommand) (a : Actor) : option (Actor * list Reply) :=
  match cmds with
  | [] => Some (a, [])
  | cmd :: cmds => r ← handle_command cmd a; rs ← run cmds r.1; Some (rs.1, r.2 :: rs.2)
  end.

Definition spawn (initial : list ConversationItem) (sampling : SamplingConfig) : option Actor :=
  (λ s, MkActor s [] []) <$> ChatState_new initial sampling.

End Handler.

Arguments ChatStateCommand : clear implicits.
Arguments Reply : clear implicits.

End Commands.

(** * The disk mirrors the conversation *)

Module Export Mirror.

(** What replaying the records on a history gives. *)
Definition apply_record (history : list ConversationItem) (r : PersistenceRecord) : list ConversationItem :=
  match r with Message i => history ++ [i] | ReplaceHistory l => l | FlushRecord => history end.
Definition on_disk (history : list ConversationItem) (records : list PersistenceRecord) : list ConversationItem :=
  fold_left apply_record records history.

Definition mirrored (history : list ConversationItem) (a : Actor) : Prop := on_disk history (persisted a) = conversation (state a).

(** A replacement makes the history before it irrelevant; without one the records append. *)
Lemma on_disk_replaced records l h h' : ReplaceHistory l ∈ records → on_disk h records = on_disk h' records.
Proof.
  revert h h'. unfold on_disk. induction records as [|r records IH]; intros h h' Hin; [by apply not_elem_of_nil in Hin|].
  apply elem_of_cons in Hin as [<-|Hin]; [done|]. by apply IH.
Qed.
Lemma on_disk_appended records h : (∀ l, ReplaceHistory l ∉ records) → on_disk h records = h ++ on_disk [] records.
Proof.
  revert h. unfold on_disk. induction records as [|r records IH] using rev_ind; intros h Hno; [by rewrite app_nil_r|].
  rewrite !fold_left_app. cbn [fold_left]. setoid_rewrite not_elem_of_app in Hno.
  destruct r as [i|l|]; cbn [apply_record].
  - rewrite IH by (intros l; apply Hno). by rewrite app_assoc.
  - destruct (Hno l) as [_ Hl]. destruct Hl. by left.
  - apply IH. intros l. apply Hno.
Qed.
Lemma on_disk_same records h h' :
  on_disk h records = on_disk h' records ↔ h' = h ∨ ∃ l, ReplaceHistory l ∈ records.
Proof.
  split; [|intros [->|[l Hl]]; [done|by eapply on_disk_replaced]]. intros He.
  set (replaces r := match r with ReplaceHistory _ => true | _ => false end).
  destruct (existsb replaces records) eqn:Hx.
  { apply existsb_exists in Hx as ([|l|] & Hin%list_elem_of_In & Hr); try done. right. by exists l. }
  left. assert (Hno : ∀ l, ReplaceHistory l ∉ records).
  { intros l Hl. apply not_true_iff_false in Hx. apply Hx, existsb_exists. exists (ReplaceHistory l).
    split; [by apply list_elem_of_In|done]. }
  rewrite (on_disk_appended records h), (on_disk_appended records h') in He by done. by apply app_inv_tail in He.
Qed.

Definition keeps_conversation (f : ChatState → ChatState) : Prop := ∀ s, conversation (f s) = conversation s.

Lemma snapshot_turn_slice_keeps : keeps_conversation snapshot_turn_slice.
Proof. intros s. unfold snapshot_turn_slice. by case_match. Qed.
Lemma rebase_keeps : keeps_conversation rebase_turn_capture_offset.
Proof. intros s. unfold rebase_turn_capture_offset. by case_match. Qed.
Lemma note_compaction_keeps c : keeps_conversation (note_compaction c).
Proof. intros s. unfold note_compaction. by repeat case_match. Qed.
Lemma model_call_keeps model u d c : keeps_conversation (record_model_call_usage model u d c).
Proof. done. Qed.
Lemma subagent_usage_keeps rows p i : keeps_conversation (record_subagent_usage rows p i).
Proof. intros s. unfold record_subagent_usage. by repeat case_match. Qed.
Lemma mark_usage_keeps p i : keeps_conversation (mark_usage_incomplete p i).
Proof. intros s. unfold mark_usage_incomplete. by repeat case_match. Qed.
Lemma seal_keeps : keeps_conversation seal_harness_trace_turn.
Proof. intros s. unfold seal_harness_trace_turn. by case_match. Qed.

Create HintDb keeps.
#[export] Hint Resolve snapshot_turn_slice_keeps rebase_keeps note_compaction_keeps model_call_keeps subagent_usage_keeps
  mark_usage_keeps seal_keeps : keeps.

Lemma mirrored_update h f a : keeps_conversation f → mirrored h a → mirrored h (update f a).
Proof. intros Hf Ha. unfold mirrored. cbn. by rewrite Hf. Qed.
Lemma mirrored_push h item a : mirrored h a → mirrored h (push_item item a).
Proof. intros Ha. unfold mirrored, on_disk. cbn. by rewrite fold_left_app, <-Ha. Qed.
Lemma mirrored_replace h items a : conversation (state a) = items → mirrored h (persist (ReplaceHistory items) a).
Proof. intros Ha. unfold mirrored, on_disk. cbn. by rewrite fold_left_app. Qed.
Lemma mirrored_event h e a : mirrored h (send_event e a) ↔ mirrored h a.
Proof. done. Qed.
Lemma mirrored_flush h a : mirrored h a → mirrored h (persist FlushRecord a).
Proof. intros Ha. unfold mirrored, on_disk. cbn. by rewrite fold_left_app. Qed.

(** Nothing repaired is nothing changed. *)
Lemma sublist_same_length {A} (l k : list A) : l `sublist_of` k → length k ≤ length l → l = k.
Proof.
  induction 1 as [|x l k _ IH|x l k Hs IH]; cbn; intros Hl; [done|f_equal; apply IH; lia|].
  apply sublist_length in Hs. lia.
Qed.

Lemma dropped_zero b : dropped b = 0 → dedup_block b = b.
Proof.
  destruct b as [i run]. unfold dropped, dedup_block. cbn [fst snd]. case_bool_decide; [done|]. cbn [snd]. intros H0.
  f_equal. apply sublist_same_length; [apply sublist_keep_last|]. lia.
Qed.

Lemma dedup_zero items : (dedup_duplicate_tool_results items).2 = 0 → (dedup_duplicate_tool_results items).1 = items.
Proof.
  destruct (conversation_blocks items) as (o & bs & E & Hbs). change ((ToolResult <$> o) ++ body bs) with (of_blocks (o, bs)) in E.
  subst items. rewrite dedup_blocks by done. cbn [fst snd]. unfold removed_by. clear Hbs. intros Hr. do 2 f_equal.
  induction bs as [|b bs IH]; [done|]. cbn [fmap list_fmap] in *. change (dropped b + sum_list (dropped <$> bs) = 0) in Hr.
  rewrite IH, dropped_zero by lia. done.
Qed.

Lemma dangling_zero reason items : (repair_dangling_tool_calls items reason).2 = 0 → (repair_dangling_tool_calls items reason).1 = items.
Proof.
  destruct (conversation_blocks items) as (o & bs & E & Hbs). change ((ToolResult <$> o) ++ body bs) with (of_blocks (o, bs)) in E.
  subst items. rewrite repair_dangling_blocks by done. cbn [fst snd]. intros Hi%inserted_zero. do 2 f_equal.
  apply map_fix. eapply Forall_impl; [exact Hi|]. intros b. apply answer_block_none.
Qed.

Lemma restored_zero reason items : (restored reason items).2 = (0, 0) → (restored reason items).1 = items.
Proof.
  unfold restored. pose proof (dedup_zero items) as Hd. destruct (dedup_duplicate_tool_results items) as [l1 n1].
  pose proof (dangling_zero reason l1) as Hr. destruct (repair_dangling_tool_calls l1 reason) as [l2 n2].
  cbn [fst snd] in *. intros [= E1 E2]. by rewrite Hr, Hd.
Qed.

Lemma stripped_none items : ∀ ids, (strip_from ids items).2 = [] → (strip_from ids items).1 = items.
Proof.
  induction items as [|[s|u|a|t|b|r] items IH]; intros ids; cbn; try done; try (intros E; by rewrite IH).
  case_bool_decide; [|done]. cbn. intros E. by rewrite IH.
Qed.

Lemma repair_unchanged items : changed (repair_history items).2 = false → (repair_history items).1 = items.
Proof.
  unfold repair_history, strip_displaced_tool_results.
  pose proof (dedup_zero items) as Hd. destruct (dedup_duplicate_tool_results items) as [l1 n1].
  pose proof (stripped_none l1 []) as Hs. destruct (strip_from [] l1) as [l2 st].
  pose proof (dangling_zero (HarnessHalted "history_repair") l2) as Hr. destruct (repair_dangling_tool_calls l2 _) as [l3 n3].
  cbn [fst snd] in *. unfold changed. cbn [duplicates_removed stripped_tool_result_ids synthetic_results_inserted].
  rewrite !orb_false_iff, !Nat.ltb_ge, negb_false_iff, bool_decide_eq_true. intros [[H1 H2] H3].
  rewrite Hr, Hs, Hd by (done || lia). done.
Qed.

Lemma mirrored_integrity h reason a : mirrored h a → mirrored h (ensure_conversation_integrity_with_reason reason a).
Proof.
  intros Ha. unfold ensure_conversation_integrity_with_reason.
  set (l := conversation (state (update snapshot_turn_slice a))).
  pose proof (dedup_zero l) as Hd. destruct (dedup_duplicate_tool_results l) as [l1 n1].
  pose proof (dangling_zero reason l1) as Hr. destruct (repair_dangling_tool_calls l1 reason) as [l2 n2].
  cbn [fst snd] in *. apply mirrored_update; [auto with keeps|]. destruct ((0 <? n2) || (0 <? n1)) eqn:En.
  - by apply mirrored_replace.
  - apply orb_false_iff in En as [E2%Nat.ltb_ge E1%Nat.ltb_ge]. rewrite Hr, Hd by lia.
    unfold mirrored, l. cbn. rewrite snapshot_turn_slice_keeps. exact Ha.
Qed.

Lemma mirrored_prune h config a a' : prune_retained_conversation config a = Some a' → mirrored h a → mirrored h a'.
Proof.
  intros E Ha. unfold prune_retained_conversation in E. destruct (negb _); [by simplify_eq|].
  destruct (prompt_index _ <? _); [by simplify_eq|].
  destruct (conversation_content_bytes _); [|done]. cbn [mbind option_bind] in E.
  pose proof (clear_retained_kept config (prompt_index (state a)) (conversation (state a))) as Hk.
  destruct (clear_retained _ _ _) as [items cleared]. cbn [fst snd] in Hk. destruct (0 <? cleared) eqn:Ec.
  - destruct (conversation_content_bytes items); [|done]. cbn in E. simplify_eq. by apply mirrored_replace.
  - apply Nat.ltb_ge in Ec. simplify_eq. rewrite Hk by lia. exact Ha.
Qed.

Lemma mirrored_user h config reason item a a' :
  push_user_message_with_repair_reason config reason item a = Some a' → mirrored h a → mirrored h a'.
Proof.
  unfold push_user_message_with_repair_reason. intros E Ha. destruct (estimate_item_tokens item); [|done]. cbn [mbind option_bind] in E.
  eapply mirrored_prune; [exact E|]. apply mirrored_push, mirrored_update; [done|]. by apply mirrored_integrity.
Qed.

Lemma mirrored_message h item a a' : push_message item a = Some a' → mirrored h a → mirrored h a'.
Proof.
  unfold push_message. intros E Ha. destruct (estimate_item_tokens item) eqn:En, item; cbn in E; simplify_eq;
    try (by apply mirrored_push); by apply mirrored_push, mirrored_update.
Qed.

Lemma mirrored_replaced h items c a a' : replace_conversation items c a = Some a' → mirrored h a'.
Proof.
  unfold replace_conversation. intros E. destruct (estimate_conversation_tokens items); [|done]. cbn [mbind option_bind] in E.
  simplify_eq. apply mirrored_event, mirrored_event. unfold mirrored, on_disk. cbn. by rewrite fold_left_app, rebase_keeps.
Qed.

Lemma mirrored_repair h dry a a' report : repair_history_command dry a = Some (a', report) → mirrored h a → mirrored h a'.
Proof.
  unfold repair_history_command. intros E Ha. destruct dry; [by simplify_eq|].
  pose proof (repair_unchanged (conversation (state a))) as Hu. destruct (repair_history (conversation (state a))) as [items r].
  cbn [fst snd] in Hu. destruct (changed r) eqn:Ec.
  - destruct (replace_conversation items false _) as [b|] eqn:Er; [|done]. cbn in E. simplify_eq. by eapply mirrored_replaced.
  - simplify_eq. rewrite Hu by done. exact Ha.
Qed.

Lemma mirrored_head h prompt a a' b : replace_system_head prompt a = Some (a', b) → mirrored h a → mirrored h a'.
Proof.
  unfold replace_system_head. intros E Ha. set (unchanged := match head _ with Some (System _) => _ | _ => false end) in E.
  destruct unchanged; [by simplify_eq|]. destruct (replace_conversation _ false a) as [c|] eqn:Er; [|done].
  cbn in E. simplify_eq. by eapply mirrored_replaced.
Qed.

Lemma mirrored_truncate h target a a' : truncate_to_prompt_index target a = Some a' → mirrored h a → mirrored h a'.
Proof.
  unfold truncate_to_prompt_index. intros E Ha. destruct (_ <=? target); [by simplify_eq|].
  destruct (estimate_conversation_tokens _); [|done]. cbn [mbind option_bind] in E. simplify_eq.
  apply mirrored_event. by apply mirrored_replace.
Qed.

Lemma inject_unchanged items reminder : (inject_memory_reminder items reminder).2 = false →
  (inject_memory_reminder items reminder).1 = items.
Proof.
  unfold inject_memory_reminder. destruct (is_empty _); [done|]. destruct items as [|[[c]| | | | |] rest]; try done. cbn.
  unfold upsert_memory_reminder_text. by case_bool_decide.
Qed.

Lemma mirrored_reminder h reminder keep a : mirrored h a → mirrored h (persist_reminder reminder keep a).1.
Proof.
  intros Ha. unfold persist_reminder. destruct reminder as [r|]; [|done]. destruct keep; [|done].
  set (l := conversation (state (update snapshot_turn_slice a))).
  pose proof (inject_unchanged l r) as Hi. destruct (inject_memory_reminder l r) as [items injected]. cbn [fst snd] in *.
  apply mirrored_update; [auto with keeps|]. destruct injected; [by apply mirrored_replace|]. rewrite Hi by done.
  unfold mirrored, l. cbn. rewrite snapshot_turn_slice_keeps. exact Ha.
Qed.

Section Run.
Context {Trace : Type} (json_bytes : list ConversationItem → N) (part_json_bytes : ContentPart → N) (config : PruningConfig).
Local Notation handle := (handle_command (Trace:=Trace) json_bytes part_json_bytes config).
Local Notation run_all := (run (Trace:=Trace) json_bytes part_json_bytes config).

Lemma mirrored_request h tools reminder keep (tr : option Trace) conv_id req_id a : mirrored h a →
  mirrored h (build_conversation_request json_bytes part_json_bytes config tools reminder keep tr conv_id req_id a).1.
Proof.
  intros Ha. unfold build_conversation_request. pose proof (mirrored_reminder h reminder keep a Ha) as Hr.
  destruct (persist_reminder reminder keep a) as [a1 rest]. cbn [fst] in Hr.
  destruct (request_copy _ _ _ _ _) as [items ev]. cbn [fst]. by case_match.
Qed.

(** Restoring a snapshot is not written to the disk. *)
Definition is_restore (cmd : ChatStateCommand Trace) : bool := match cmd with RestoreSnapshot _ => true | _ => false end.

(** A query leaves the actor as it is. *)
Lemma handle_cases cmd a r : handle cmd a = Some r → r.1 = a ∨ handle_mutation json_bytes part_json_bytes config cmd a = Some (Some r).
Proof.
  unfold handle_command. destruct (handle_mutation _ _ _ cmd a) as [o|]; [intros ->; by right|].
  rewrite fmap_Some. intros (reply & _ & ->). by left.
Qed.

Lemma mirrored_step h cmd a r : is_restore cmd = false → handle cmd a = Some r → mirrored h a → mirrored h r.1.
Proof.
  intros Hc [->|E]%handle_cases Ha; [done|].
  assert (Hs : ∀ f, keeps_conversation f → mirrored h (update f a)) by (intros; by apply mirrored_update).
  destruct cmd; cbn [handle_mutation] in E; try done; apply (inj Some) in E; unfold silently, acked, set_state, push_user_message in E.
  all: try (apply fmap_Some in E as (a1 & E & ->); by eapply mirrored_user).
  all: try (apply fmap_Some in E as (a1 & E & ->); by eapply mirrored_message).
  all: try (injection E as <-; cbn [fst]; apply Hs; auto with keeps; done).
  - apply fmap_Some in E as (a1 & E & ->). unfold record_token_usage in E.
    destruct (estimate_conversation_tokens _); [|done]. cbn in E. simplify_eq. exact Ha.
  - apply fmap_Some in E as (a1 & E & ->). by eapply mirrored_replaced.
  - destruct (default false turn_active); [by simplify_eq|]. apply fmap_Some in E as ([a1 rep] & E & ->). by eapply mirrored_repair.
  - apply fmap_Some in E as ([a1 b] & E & ->). by eapply mirrored_head.
  - injection E as <-. by apply mirrored_flush.
  - injection E as <-. by apply mirrored_integrity.
  - injection E as <-. cbn [fst]. by apply mirrored_request, mirrored_integrity.
  - apply fmap_Some in E as (a1 & E & ->). apply fmap_Some in E as (a2 & E & ->). apply mirrored_update; [done|]. by eapply mirrored_truncate.
Qed.

Lemma mirrored_run h cmds : ∀ a a' replies, Forall (λ c, is_restore c = false) cmds → run_all cmds a = Some (a', replies) →
  mirrored h a → mirrored h a'.
Proof.
  induction cmds as [|cmd cmds IH]; intros a a' replies Hc; cbn [run]; [by intros [= <- <-]|].
  apply Forall_cons in Hc as [Hc Hcs]. destruct (handle cmd a) as [r|] eqn:E; [|done]. cbn [mbind option_bind].
  destruct (run_all cmds r.1) as [[b rs]|] eqn:Er; [|done]. cbn. intros [= <- _] Ha.
  eapply IH; [done|exact Er|]. by eapply mirrored_step.
Qed.

(** C24: Memory and the disk: whatever commands the actor handles after it was started on a
    history, except the restoration of a snapshot, its conversation is what its records
    make of that history as [ChatState::new] repaired it. The repair itself is in no
    record, so the history on the disk is brought to the conversation exactly when there
    was nothing to repair, or some record has replaced the whole history since. *)
Theorem disk_mirrors_memory history sampling a0 cmds a replies :
  spawn history sampling = Some a0 →
  Forall (λ c, is_restore c = false) cmds → run_all cmds a0 = Some (a, replies) →
  on_disk (restored UserCancelled history).1 (persisted a) = conversation (state a) ∧
  (on_disk history (persisted a) = conversation (state a) ↔
   (restored UserCancelled history).1 = history ∨ ∃ l, ReplaceHistory l ∈ persisted a).
Proof.
  intros Hs Hc Hr. assert (Hm : mirrored (restored UserCancelled history).1 a).
  { eapply mirrored_run; [exact Hc|exact Hr|]. unfold spawn, ChatState_new in Hs.
    destruct (estimate_conversation_tokens _); [|done]. cbn in Hs. by simplify_eq. }
  split; [exact Hm|]. rewrite <-Hm. rewrite on_disk_same. split; (intros [He|He]; [by left|by right]).
Qed.

End Run.

End Mirror.

(** * A turn's capture holds what was pushed in it *)

Module Export Capture.

(** A result may have lost its old content meanwhile. *)
Definition cleared (i j : ConversationItem) : Prop :=
  j = i ∨ ∃ t, i = ToolResult t ∧ j = ToolResult (with_content HARD_CLEAR_PLACEHOLDER t).

#[export] Instance cleared_preorder : PreOrder cleared.
Proof.
  split; [by left|]. intros i j k [->|(t & -> & ->)] [->|(t' & E & ->)]; [by left|right; eauto|right; eauto|].
  injection E as <-. right. by exists t.
Qed.

Lemma hard_clear_cleared t : cleared (ToolResult t) (ToolResult (hard_clear t).1).
Proof. unfold hard_clear. case_bool_decide; [by left|]. right. by eexists. Qed.

Lemma clear_retained_cleared config n l : Forall2 cleared l (clear_retained config n l).1.
Proof.
  rewrite clear_retained_aged. generalize (count_users l - n) as k. intros k. generalize 0 as later.
  induction l as [|[s|u|a|t|b|r] l IH]; intros later; cbn; constructor; try done; try (by left).
  unfold retained_result. case_match; [by left|]. apply hard_clear_cleared.
Qed.

Definition tail_of (s : ChatState) (cap : TurnCaptureState) : list ConversationItem :=
  pre_replacement_messages cap ++ turn_tail (conversation s) (turn_start_offset cap).
Definition well_placed (s : ChatState) : Prop :=
  match turn_capture s with Some cap => turn_start_offset cap ≤ length (conversation s) | None => True end.

(** From [s] to [s'] the capture got the items [new]. *)
Definition extends (s s' : ChatState) (new : list ConversationItem) (compacted : bool) : Prop :=
  well_placed s → well_placed s' ∧
  match turn_capture s, turn_capture s' with
  | Some cap, Some cap' =>
      Forall2 cleared (tail_of s cap ++ new) (tail_of s' cap') ∧
      compaction_occurred cap' = compaction_occurred cap || compacted
  | None, None => True
  | _, _ => False
  end.

Lemma extends_trans s s' s'' n n' c c' : extends s s' n c → extends s' s'' n' c' → extends s s'' (n ++ n') (c || c').
Proof.
  intros E1 E2 Hw. destruct (E1 Hw) as [Hw1 H1]. destruct (E2 Hw1) as [Hw2 H2]. split; [done|].
  destruct (turn_capture s), (turn_capture s'), (turn_capture s''); try done.
  destruct H1 as [F1 O1], H2 as [F2 O2]. split; [|by rewrite O2, O1, orb_assoc]. rewrite app_assoc.
  etrans; [by apply Forall2_app; [exact F1|]|exact F2].
Qed.

Lemma extends_same s s' : conversation s' = conversation s → turn_capture s' = turn_capture s → extends s s' [] false.
Proof.
  intros Ec Et Hw. unfold well_placed, tail_of in *. rewrite Et, Ec. split; [done|]. destruct (turn_capture s); [|done].
  rewrite app_nil_r, orb_false_r. by split.
Qed.

(** The tail is saved and the offset moved behind the new conversation. *)
Lemma extends_saved s s' c :
  turn_capture s' = (λ cap, MkCapture (length (conversation s')) (tail_of s cap) (compaction_occurred cap || c)) <$> turn_capture s →
  extends s s' [] c.
Proof.
  intros Et Hw. unfold well_placed. rewrite Et. destruct (turn_capture s) as [cap|]; [|done]. cbn. split; [lia|].
  rewrite drop_ge by lia. rewrite !app_nil_r. by split.
Qed.

Lemma extends_push s s' i : conversation s' = conversation s ++ [i] → turn_capture s' = turn_capture s → extends s s' [i] false.
Proof.
  intros Ec Et Hw. unfold well_placed, tail_of, turn_tail in *. rewrite Et, Ec, length_app. destruct (turn_capture s) as [cap|]; [|done].
  split; [lia|]. rewrite orb_false_r, drop_app_le by lia. rewrite app_assoc. by split.
Qed.

Lemma extends_cleared s s' : Forall2 cleared (conversation s) (conversation s') → turn_capture s' = turn_capture s → extends s s' [] false.
Proof.
  intros Hf Et Hw. unfold well_placed, tail_of, turn_tail in *. rewrite Et, <-(Forall2_length _ _ _ Hf). destruct (turn_capture s) as [cap|]; [|done].
  split; [done|]. rewrite orb_false_r, app_nil_r. split; [|done]. apply Forall2_app; [done|]. by apply Forall2_drop.
Qed.

Lemma extends_integrity reason a : extends (state a) (state (ensure_conversation_integrity_with_reason reason a)) [] false.
Proof.
  apply extends_saved. unfold ensure_conversation_integrity_with_reason.
  destruct (dedup_duplicate_tool_results _) as [l1 n1]. destruct (repair_dangling_tool_calls l1 reason) as [l2 n2].
  assert (E : ∀ b r x, state (if b : bool then persist r x else x) = state x) by (by intros []).
  unfold update, rebase_turn_capture_offset, snapshot_turn_slice. cbn [state]. rewrite E. cbn [state].
  destruct (turn_capture (state a)) as [cap|] eqn:Ec; cbn; rewrite ?Ec; [|done]. by rewrite orb_false_r.
Qed.

Lemma extends_replaced items c a a' : replace_conversation items c a = Some a' → extends (state a) (state a') [] c.
Proof.
  unfold replace_conversation. destruct (estimate_conversation_tokens items); [|done]. cbn [mbind option_bind]. intros [= <-].
  apply extends_saved. unfold update, rebase_turn_capture_offset, note_compaction, snapshot_turn_slice. cbn [state send_event persist].
  destruct (turn_capture (state a)) as [cap|] eqn:Ec; cbn; rewrite ?Ec; [|done]. destruct c; cbn; by rewrite ?orb_true_r, ?orb_false_r.
Qed.

Lemma extends_restore snap a a' : restore_snapshot snap a = Some a' → extends (state a) (state a') [] false.
Proof.
  unfold restore_snapshot. destruct (if (0 <? _)%N then _ else _); [|done]. cbn [mbind option_bind]. intros [= <-].
  apply extends_saved. cbn [state update turn_capture conversation]. unfold rebase_turn_capture_offset, snapshot_turn_slice.
  destruct (turn_capture (state a)) as [cap|] eqn:Ec; cbn; rewrite ?Ec; [|done]. by rewrite orb_false_r.
Qed.

Lemma extends_prune config a a' : prune_retained_conversation config a = Some a' → extends (state a) (state a') [] false.
Proof.
  unfold prune_retained_conversation. destruct (negb _); [intros [= <-]; by apply extends_same|].
  destruct (prompt_index _ <? _); [intros [= <-]; by apply extends_same|].
  destruct (conversation_content_bytes _); [|done]. cbn [mbind option_bind].
  pose proof (clear_retained_cleared config (prompt_index (state a)) (conversation (state a))) as Hc.
  destruct (clear_retained _ _ _) as [items gone]. cbn [fst] in Hc. destruct (0 <? gone).
  - destruct (conversation_content_bytes items); [|done]. intros [= <-]. by apply extends_cleared.
  - intros [= <-]. by apply extends_cleared.
Qed.

Lemma extends_user config reason item a a' : push_user_message_with_repair_reason config reason item a = Some a' →
  extends (state a) (state a') [item] false.
Proof.
  unfold push_user_message_with_repair_reason. destruct (estimate_item_tokens item) as [n|]; [|done]. cbn [mbind option_bind].
  intros E%extends_prune. change [item] with ([] ++ [item]). change false with (false || false).
  eapply extends_trans; [apply (extends_integrity reason)|]. rewrite <-(app_nil_r [item]). change false with (false || false).
  eapply extends_trans; [|exact E]. by apply extends_push.
Qed.

Lemma extends_message item a a' : push_message item a = Some a' → extends (state a) (state a') [item] false.
Proof.
  unfold push_message. intros E. destruct (estimate_item_tokens item) eqn:En, item; cbn in E; simplify_eq; by apply extends_push.
Qed.

Lemma extends_head prompt a a' b : replace_system_head prompt a = Some (a', b) → extends (state a) (state a') [] false.
Proof.
  unfold replace_system_head. intros E. set (unchanged := match head _ with Some (System _) => _ | _ => false end) in E.
  destruct unchanged; [simplify_eq; by apply extends_same|]. destruct (replace_conversation _ false a) as [c|] eqn:Er; [|done].
  cbn in E. simplify_eq. by eapply extends_replaced.
Qed.

Lemma extends_reminder reminder keep a : extends (state a) (state (persist_reminder reminder keep a).1) [] false.
Proof.
  unfold persist_reminder. destruct reminder as [r|]; [|by apply extends_same]. destruct keep; [|by apply extends_same].
  destruct (inject_memory_reminder _ r) as [items injected]. apply extends_saved. cbn [fst].
  assert (E : ∀ b r x, state (if b : bool then persist r x else x) = state x) by (by intros []).
  unfold update, rebase_turn_capture_offset, snapshot_turn_slice. cbn [state]. rewrite E. cbn [state].
  destruct (turn_capture (state a)) as [cap|] eqn:Ec; cbn; rewrite ?Ec; [|done]. by rewrite orb_false_r.
Qed.

Lemma extends_update f a : conversation (f (state a)) = conversation (state a) → turn_capture (f (state a)) = turn_capture (state a) →
  extends (state a) (state (update f a)) [] false.
Proof. apply extends_same. Qed.

(** ** Commands *)

Section Turn.
Context {Trace : Type} (json_bytes : list ConversationItem → N) (part_json_bytes : ContentPart → N) (config : PruningConfig).
Local Notation handle := (handle_command (Trace:=Trace) json_bytes part_json_bytes config).
Local Notation run_all := (run (Trace:=Trace) json_bytes part_json_bytes config).

(** Commands that do not begin, take or drop the capture; a history repair that may
    change the history is left out. *)
Definition keeps_turn (cmd : ChatStateCommand Trace) : bool :=
  match cmd with
  | BeginTurnCapture | TakeTurnMessages | TruncateToPromptIndex _ => false
  | RepairHistory dry_run turn_active => dry_run || default false turn_active
  | _ => true
  end.
Definition pushed (cmd : ChatStateCommand Trace) : list ConversationItem :=
  match cmd with
  | PushUserMessage i | PushUserMessageAndAck i | PushUserMessageWithRepairReason i _
  | PushAssistantResponse i | PushToolResult i => [i]
  | _ => []
  end.
Definition compacts (cmd : ChatStateCommand Trace) : bool :=
  match cmd with ReplaceConversation _ c => c | _ => false end.

Lemma extends_request tools reminder keep (tr : option Trace) conv_id req_id a :
  extends (state a) (state (build_conversation_request json_bytes part_json_bytes config tools reminder keep tr conv_id req_id
    (ensure_conversation_integrity a)).1) [] false.
Proof.
  change (@nil ConversationItem) with ([] ++ @nil ConversationItem). change false with (false || false).
  eapply extends_trans; [apply (extends_integrity UserCancelled)|].
  unfold build_conversation_request. pose proof (extends_reminder reminder keep (ensure_conversation_integrity a)) as Hr.
  destruct (persist_reminder _ _ _) as [a1 rest]. cbn [fst] in Hr.
  destruct (request_copy _ _ _ _ _) as [items ev]. cbn [fst]. by case_match.
Qed.

Lemma extends_step cmd a r : keeps_turn cmd = true → handle cmd a = Some r →
  extends (state a) (state r.1) (pushed cmd) (compacts cmd).
Proof.
  intros Hc E. destruct (handle_mutation json_bytes part_json_bytes config cmd a) as [o|] eqn:Em.
  2:{ assert (Er : r.1 = a).
      { unfold handle_command in E. rewrite Em in E. apply fmap_Some in E as (x & _ & ->). done. }
      rewrite Er. destruct cmd; try done; by apply extends_same. }
  unfold handle_command in E. rewrite Em in E. subst o.
  destruct cmd; cbn [handle_mutation] in Em; try done; apply (inj Some) in Em;
    unfold silently, acked, set_state, push_user_message in Em; cbn [pushed compacts].
  all: try (apply fmap_Some in Em as (a1 & Em & ->); by eapply extends_user).
  all: try (apply fmap_Some in Em as (a1 & Em & ->); by eapply extends_message).
  all: try (injection Em as <-; cbn [fst]; apply extends_update; done).
  - apply fmap_Some in Em as (a1 & Em & ->). unfold record_token_usage in Em.
    destruct (estimate_conversation_tokens _); [|done]. cbn in Em. simplify_eq. by apply extends_same.
  - injection Em as <-. apply extends_update; [apply subagent_usage_keeps|]. unfold record_subagent_usage. by repeat case_match.
  - injection Em as <-. apply extends_update; [apply mark_usage_keeps|]. unfold mark_usage_incomplete. by repeat case_match.
  - apply fmap_Some in Em as (a1 & Em & ->). by eapply extends_replaced.
  - destruct turn_active as [[]|], dry_run; try done; cbn in Em; simplify_eq; try by apply extends_same.
  - apply fmap_Some in Em as ([a1 b] & Em & ->). by eapply extends_head.
  - injection Em as <-. by apply extends_same.
  - apply fmap_Some in Em as (a1 & Em & ->). by eapply extends_restore.
  - injection Em as <-. apply extends_update; [apply seal_keeps|]. unfold seal_harness_trace_turn. by case_match.
  - injection Em as <-. apply extends_integrity.
  - injection Em as <-. apply extends_request.
  - injection Em as <-. cbn [fst]. apply extends_same; cbn; unfold seal_harness_trace_turn; by case_match.
Qed.

Lemma extends_run cmds : ∀ a a' replies, Forall (λ c, keeps_turn c = true) cmds → run_all cmds a = Some (a', replies) →
  extends (state a) (state a') (cmds ≫= pushed) (existsb compacts cmds).
Proof.
  induction cmds as [|cmd cmds IH]; intros a a' replies Hc; cbn [run]; [intros [= <- <-]; by apply extends_same|].
  apply Forall_cons in Hc as [Hc Hcs]. destruct (handle cmd a) as [r|] eqn:E; [|done]. cbn [mbind option_bind].
  destruct (run_all cmds r.1) as [[b rs]|] eqn:Er; [|done]. cbn. intros [= <- _].
  eapply extends_trans; [by apply extends_step|by eapply IH].
Qed.

Lemma run_all_app c1 c2 : ∀ a a' replies, run_all (c1 ++ c2) a = Some (a', replies) →
  ∃ a1 r1 r2, run_all c1 a = Some (a1, r1) ∧ run_all c2 a1 = Some (a', r2) ∧ replies = r1 ++ r2.
Proof.
  induction c1 as [|cmd c1 IH]; intros a a' replies; cbn [app run]; [intros E; by exists a, [], replies|].
  destruct (handle cmd a) as [r|]; [|done]. cbn [mbind option_bind].
  destruct (run_all (c1 ++ c2) r.1) as [[b rs]|] eqn:Er; [|done]. intros [= <- <-].
  destruct (IH r.1 b rs Er) as (a1 & r1 & r2 & -> & E2 & ->). by exists a1, (r.2 :: r1), r2.
Qed.

(** What the capture of a turn returns is what was pushed during the turn, in order,
    whatever replacements, repairs, restorations and requests came between (a tool
    result may have lost its content to pruning), with the flag that a compaction
    took place; the capture is then gone. *)
Theorem turn_captured cmds a a' replies : Forall (λ c, keeps_turn c = true) cmds →
  run_all (BeginTurnCapture :: cmds ++ [TakeTurnMessages]) a = Some (a', replies) →
  ∃ messages, last replies = Some (CaptureReply (Some (MkTurnCapture messages (existsb compacts cmds)))) ∧
    Forall2 cleared (cmds ≫= pushed) messages ∧ turn_capture (state a') = None.
Proof.
  intros Hc. cbn [run]. cbn [handle_command handle_mutation set_state mbind option_bind fst snd].
  set (a0 := update _ a). destruct (run_all (cmds ++ [TakeTurnMessages]) a0) as [[b rs]|] eqn:Er; [|done].
  cbn. intros [= <- <-]. apply run_all_app in Er as (a1 & r1 & r2 & E1 & E2 & ->).
  apply extends_run in E1; [|done]. destruct E1 as [_ E1]; [unfold well_placed; cbn; lia|]. cbn [turn_capture state a0 update] in E1.
  cbn in E2. simplify_eq. unfold take_turn_messages. cbn [a0 state update set_turn_capture turn_capture] in E1.
  destruct (turn_capture (state a1)) as [cap|]; [|done]. destruct E1 as [F1 O1]. cbn in O1. rewrite <-O1.
  exists (tail_of (state a1) cap). split; [by rewrite app_comm_cons, last_snoc|]. split; [|done].
  unfold tail_of at 1 in F1. cbn in F1. unfold turn_tail in F1. rewrite drop_ge in F1 by lia. exact F1.
Qed.

End Turn.

End Capture.

(** * Requests answer every call *)

Module Export RequestLaws.




Section Requests.
Context {Trace : Type} (json_bytes : list ConversationItem → N) (part_json_bytes : ContentPart → N) (config : PruningConfig).






End Requests.

End RequestLaws.

(** * Rewinding, snapshots and token counts *)

Module Export StateLaws.

Lemma truncate_at_spec target l : ∀ n, n ≤ target → let k := truncate_at target n l in
  k ≤ length l ∧ n + count_users (take k l) = target `min` (n + count_users l) ∧
  (drop k l = [] ∨ ∃ u rest, drop k l = User u :: rest).
Proof.
  induction l as [|i l IH]; intros n Hn; [split_and!; [done|cbn; lia|by left]|].
  assert (Hgo : is_user i = false → truncate_at target n (i :: l) = S (truncate_at target n l)) by (by destruct i).
  destruct (is_user i) eqn:Ei.
  - destruct i as [|u| | | |]; try done. cbn [truncate_at]. destruct (n =? target) eqn:En.
    + apply Nat.eqb_eq in En as ->. split_and!; [cbn; lia|rewrite count_users_cons; cbn; lia|right; by exists u, l].
    + apply Nat.eqb_neq in En. destruct (IH (S n)) as (H1 & H2 & H3); [lia|]. cbn [take drop length]. rewrite !count_users_cons. cbn [is_user].
      split_and!; [lia|lia|done].
  - rewrite Hgo by done. destruct (IH n Hn) as (H1 & H2 & H3). cbn [take drop length]. rewrite !count_users_cons, Ei. split_and!; [lia|lia|done].
Qed.

Lemma to_blocks_app l k : (to_blocks k).1 = [] →
  to_blocks (l ++ k) = ((to_blocks l).1, (to_blocks l).2 ++ (to_blocks k).2).
Proof. intros Hk. induction l as [|[] l IH]; cbn; rewrite ?IH; try done. by destruct (to_blocks k) as [? ?]; cbn in *; subst. Qed.

Lemma paired_cut l u rest : paired (l ++ User u :: rest) → paired l.
Proof.
  unfold paired. rewrite to_blocks_app by done. cbn [fst snd]. intros [H1 H2%Forall_app]. by destruct H2.
Qed.

(** A rewind cuts the history before the user message with the number it asks for, the
    prompts with it, and keeps a history paired; to the current prompt or a later one
    it does nothing. *)
Theorem rewind_cuts target a a' : truncate_to_prompt_index target a = Some a' →
  if prompt_index (state a) <=? target then a' = a
  else
    ∃ rest, conversation (state a) = conversation (state a') ++ rest ∧
      count_users (conversation (state a')) = target `min` count_users (conversation (state a)) ∧
      (rest = [] ∨ ∃ u rest', rest = User u :: rest') ∧
      (paired (conversation (state a)) → paired (conversation (state a'))) ∧
      prompt_index (state a') = target ∧ prompt_texts (state a') = take target (prompt_texts (state a)) ∧
      estimate_conversation_tokens (conversation (state a')) = Some (total_tokens (state a')) ∧
      last (persisted a') = Some (ReplaceHistory (conversation (state a'))).
Proof.
  unfold truncate_to_prompt_index. destruct (_ <=? target); [by intros [= <-]|].
  destruct (estimate_conversation_tokens _) as [n|] eqn:En; [|done]. cbn [mbind option_bind]. intros [= <-].
  destruct (truncate_at_spec target (conversation (state a)) 0) as (Hk & Hc & Hr); [lia|].
  set (k := truncate_at target 0 (conversation (state a))) in *. exists (drop k (conversation (state a))).
  split; [symmetry; apply take_drop|]. split; [exact Hc|]. split; [exact Hr|]. split; [|split_and!; try done; apply last_snoc].
  cbn. intros Hp. rewrite <-(take_drop k (conversation (state a))) in Hp. destruct Hr as [Hr|(u & rest & Hr)]; rewrite Hr in Hp.
  - by rewrite app_nil_r in Hp.
  - by eapply paired_cut.
Qed.

(** A snapshot that knows its estimate can be restored into any actor of the session,
    which then has the state of the snapshot, and an ongoing capture keeps its items. *)
Theorem snapshot_restored s a : (0 < estimate_at_last_response s)%N →
  ∃ a', restore_snapshot (snapshot s) a = Some a' ∧ snapshot (state a') = snapshot s ∧
    persisted a' = persisted a ∧ session_usage (state a') = session_usage (state a) ∧ prompt_usage (state a') = None ∧
    captured_messages <$> take_turn_messages (state a') = captured_messages <$> take_turn_messages (state a).
Proof.
  intros He. unfold restore_snapshot. cbn [snapshot snap_estimate_at_last_response]. rewrite (proj2 (N.ltb_lt _ _) He).
  cbn [mbind option_bind]. eexists. split; [done|]. split; [done|]. split; [done|].
  unfold rebase_turn_capture_offset, snapshot_turn_slice, take_turn_messages. cbn.
  destruct (turn_capture (state a)) as [cap|] eqn:Ec; cbn; rewrite ?Ec; cbn; rewrite ?Ec; split_and!; try done.
  unfold turn_tail. by rewrite (drop_ge (conversation s)), app_nil_r by lia.
Qed.

(** Replacing the history reseeds the count and says so: a compaction never raises
    what was counted before it, any other replacement counts the new history; what is
    on the disk is the new history. *)
Theorem replacement_reseeds items c a a' : replace_conversation items c a = Some a' →
  ∃ base, estimate_conversation_tokens items = Some base ∧
    total_tokens (state a') = reseed_tokens c (total_tokens (state a)) (estimate_at_last_response (state a)) base ∧
    (c = true → (0 < total_tokens (state a))%N → (total_tokens (state a') ≤ total_tokens (state a))%N) ∧
    (c = false ∨ total_tokens (state a) = 0%N → total_tokens (state a') = base) ∧
    conversation (state a') = items ∧ estimated_tokens_since_model (state a') = 0%N ∧ estimate_at_last_response (state a') = base ∧
    persisted a' = persisted a ++ [ReplaceHistory items] ∧
    events a' = events a ++ [ConversationReset (length items); TokensUpdated (total_tokens (state a'))].
Proof.
  unfold replace_conversation. destruct (estimate_conversation_tokens items) as [base|]; [|done]. cbn [mbind option_bind].
  intros [= <-]. exists base. split; [done|].
  assert (E : total_tokens (note_compaction c (snapshot_turn_slice (state a))) = total_tokens (state a) ∧
              estimate_at_last_response (note_compaction c (snapshot_turn_slice (state a))) = estimate_at_last_response (state a)).
  { unfold note_compaction, snapshot_turn_slice. by destruct (turn_capture (state a)) eqn:Ec; cbn; rewrite ?Ec; destruct c. }
  destruct E as [E1 E2]. cbn [state send_event persist update events persisted]. unfold rebase_turn_capture_offset. cbn. rewrite E1, E2.
  set (n := reseed_tokens _ _ _ _).
  assert (Hn : (c = true → (0 < total_tokens (state a))%N → (n ≤ total_tokens (state a))%N) ∧
               (c = false ∨ total_tokens (state a) = 0%N → n = base)).
  { unfold n, reseed_tokens. split.
    - intros -> Hp. cbn. rewrite (proj2 (N.ltb_lt _ _) Hp). apply N.le_min_r.
    - intros [->|E]; [done|]. rewrite E. cbn. by rewrite andb_false_r. }
  destruct Hn as [Hn1 Hn2]. destruct (turn_capture _); cbn; rewrite <-app_assoc; done.
Qed.

End StateLaws.

(** * Scenes *)

Module Export StateScene.

Definition scene_sampling : SamplingConfig :=
  MkSampling "https://api.example.com" "test-model" None None None ChatCompletionsApi false [] 128000 None None.
Local Notation run_scene := (run (Trace:=unit) scene_json scene_part PruningConfig_default).

Definition first_history : list ConversationItem := [system "You are a coding agent."].
Definition one_call : ConversationItem := assistant_tool_calls [MkCall "c1" "read_file" "{}"].
(** A turn that is cancelled while a call runs, and the next one. *)
Definition cancelled_turn : list (ChatStateCommand unit) :=
  [IncrementPromptIndex; PushUserMessage (user "Read the file."); PushAssistantResponse one_call;
   IncrementPromptIndex; PushUserMessage (user "Stop."); BuildConversationRequest [] (Some memory_block) true None "c" "r"].

Definition scene_actor : option Actor := spawn first_history scene_sampling.

(** A history whose call was never answered, as a crash leaves it: until a record replaces
    it, the disk misses the result that the repair put in. *)
Definition crashed_history : list ConversationItem := [system "You are a coding agent."; user "Read the file."; one_call].
Definition quiet_turn : list (ChatStateCommand unit) := [IncrementPromptIndex; PushUserMessage (user "Go on.")].

Lemma disk_mirrors_memory_witness :
  ∃ a0 a replies, spawn crashed_history scene_sampling = Some a0 ∧ run_scene quiet_turn a0 = Some (a, replies) ∧
    on_disk (restored UserCancelled crashed_history).1 (persisted a) = conversation (state a) ∧
    on_disk crashed_history (persisted a) ≠ conversation (state a).
Proof.
  destruct (spawn crashed_history scene_sampling) as [a0|] eqn:Es; [|discriminate].
  destruct (run_scene quiet_turn a0) as [[a replies]|] eqn:Er; [|vm_compute in Es; injection Es as <-; vm_compute in Er; discriminate].
  exists a0, a, replies. split; [reflexivity|]. split; [exact Er|].
  destruct (disk_mirrors_memory scene_json scene_part PruningConfig_default crashed_history scene_sampling a0 quiet_turn a replies Es)
    as [Hm Hd]; [repeat (constructor; [reflexivity|]); constructor|exact Er|].
  split; [exact Hm|]. rewrite Hd. vm_compute in Es. injection Es as <-. vm_compute in Er. injection Er as <- _.
  intros [He|[l Hl]]; [by vm_compute in He|]. cbn [persisted] in Hl.
  repeat (apply elem_of_cons in Hl as [Hl|Hl]; [discriminate|]). by apply not_elem_of_nil in Hl.
Defined.

(** A turn in which the system prompt is replaced and the history compacted. *)
Definition busy_turn : list (ChatStateCommand unit) :=
  [PushUserMessage (user "Read the file."); ReplaceSystemHead "You are careful."; PushAssistantResponse one_call;
   ReplaceConversation [system "You are careful."; user "summary"] true; PushAssistantResponse (assistant "Done.")].

Lemma turn_captured_witness :
  ∃ a0 a replies messages, spawn first_history scene_sampling = Some a0 ∧
    run_scene (BeginTurnCapture :: busy_turn ++ [TakeTurnMessages]) a0 = Some (a, replies) ∧
    last replies = Some (CaptureReply (Some (MkTurnCapture messages true))) ∧
    Forall2 cleared [user "Read the file."; one_call; assistant "Done."] messages.
Proof.
  destruct (spawn first_history scene_sampling) as [a0|] eqn:Es; [|discriminate].
  destruct (run_scene (BeginTurnCapture :: busy_turn ++ [TakeTurnMessages]) a0) as [[a replies]|] eqn:Er;
    [|vm_compute in Es; injection Es as <-; vm_compute in Er; discriminate].
  assert (Hc : Forall (λ c, keeps_turn c = true) busy_turn) by (repeat (constructor; [reflexivity|]); constructor).
  destruct (turn_captured scene_json scene_part PruningConfig_default busy_turn a0 a replies Hc Er) as (messages & H1 & H2 & _).
  exists a0, a, replies, messages. split; [reflexivity|]. split; [exact Er|]. split; [exact H1|exact H2].
Defined.

(** A repair of the history during a turn takes the conversation out of the state
    before the tail of the turn is saved, and the capture has lost what was pushed. *)
Definition repaired_turn : list (ChatStateCommand unit) :=
  [PushUserMessage (user "Read the file."); PushAssistantResponse one_call; RepairHistory false None].

Theorem repair_loses_capture :
  (λ r, (last r.2, conversation (state r.1))) <$>
    (a0 ← spawn first_history scene_sampling; run_scene (BeginTurnCapture :: repaired_turn ++ [TakeTurnMessages]) a0) =
  Some (Some (CaptureReply (Some (MkTurnCapture [] false))),
        first_history ++ [user "Read the file."; one_call;
          tool_result "c1" (synthetic_dangling_result_text "read_file" (HarnessHalted "history_repair"))]).
Proof. vm_compute. reflexivity. Qed.

Definition two_turns : list ConversationItem :=
  first_history ++ [user "one"; one_call; tool_result "c1" "content"; user "two"; assistant "Done."].
Definition two_turn_state : ChatState :=
  MkState two_turns scene_sampling 2 ["one"; "two"] 500 None None ∅ None Credentials_default 0 40 None None UsageLedger_default
    None [] [].
Definition two_turn_actor : Actor := MkActor two_turn_state [] [].

Lemma rewind_cuts_witness :
  ∃ a', truncate_to_prompt_index 1 two_turn_actor = Some a' ∧ paired (conversation (state a')) ∧ length (conversation (state a')) = 4.
Proof.
  destruct (truncate_to_prompt_index 1 two_turn_actor) as [a'|] eqn:E; [|discriminate].
  pose proof (rewind_cuts 1 two_turn_actor a' E) as (rest & _ & _ & _ & Hp & _). exists a'. split; [reflexivity|]. split.
  - apply Hp. split; [reflexivity|]. unfold two_turn_actor. cbn. repeat (constructor; [vm_compute; reflexivity|]). constructor.
  - vm_compute in E. injection E as <-. reflexivity.
Defined.

Lemma snapshot_restored_witness :
  ∃ a', restore_snapshot (snapshot two_turn_state) (MkActor two_turn_state [] []) = Some a' ∧ snapshot (state a') = snapshot two_turn_state.
Proof.
  assert (He : (0 < estimate_at_last_response two_turn_state)%N) by (vm_compute; reflexivity).
  destruct (snapshot_restored two_turn_state two_turn_actor He) as (a' & E & Hs & _). exists a'. split; [exact E|exact Hs].
Defined.

(** 500 tokens reported for an estimate of 40; the compacted history is worth 5. *)
Lemma replacement_reseeds_witness :
  ∃ a', replace_conversation [system "You are a coding agent."] true two_turn_actor = Some a' ∧
    (total_tokens (state a') ≤ 500)%N ∧ total_tokens (state a') = 63%N.
Proof.
  destruct (replace_conversation [system "You are a coding agent."] true two_turn_actor) as [a'|] eqn:E; [|discriminate].
  pose proof (replacement_reseeds _ _ _ _ E) as (base & _ & _ & Hle & _). exists a'. split; [reflexivity|]. split.
  - apply Hle; reflexivity.
  - vm_compute in E. injection E as <-. reflexivity.
Defined.

End StateScene.
