(* ===== verification/IntraCompaction.v ===== *)
(** Compaction between the steps of an agent (crate [ainxt-compaction],
    [intra_compaction/]): configuration, trigger ([trigger.rs]), the stream
    processor whose state a pass commits to ([traits.rs]) and the passes
    ([compact.rs]). A pass is a program of a small state-and-error monad over the
    processor, the number of model calls and the events reported. *)
From stdpp Require Import list.
From S2P Require Import Prelude RustStr StrSearch Float64 CompactText Compaction CodeCompaction.

Module Export IntraConfig.

Inductive IntraCompactionMode := FullReplaceMode | StepsOnly | HistoryOnly | HistoryThenSteps.
#[export] Instance IntraCompactionMode_eq_dec : EqDecision IntraCompactionMode.
Proof. solve_decision. Defined.

Inductive IntraSummarizer := Shared | Legacy.

Record IntraCompactionConfig := MkIntraConfig {
  intra_enabled : bool;
  mode : IntraCompactionMode;
  trigger_threshold_percent : N;
  min_steps_before_compact : N;
  min_compactable_tokens : N;
  max_reduction_ratio : F64;
  compaction_model_name : option string;
  sampling_timeout_secs : N;
  max_attempts : N;
  retry_delay_secs : N;
  compaction_version : string;
  summarizer : IntraSummarizer;
  target_threshold_percent : N;
  steps_trigger_ratio : F64;
  user_message_truncate_chars : N;
}.

Definition DEFAULT_COMPACTION_MODEL_NAME : string := "ainxt-4.20".

Definition effective_compaction_model_name (c : IntraCompactionConfig) : string :=
  match trim <$> compaction_model_name c with
  | Some s => if is_empty s then DEFAULT_COMPACTION_MODEL_NAME else s
  | None => DEFAULT_COMPACTION_MODEL_NAME
  end.

(** The decimal [n/10] as an [f64]. *)
Definition tenths (n : N) : F64 := f64_div (f64_of_N n) (f64_of_N 10).

Definition intra_default : IntraCompactionConfig :=
  MkIntraConfig false FullReplaceMode 85 3 5000 (tenths 8) (Some DEFAULT_COMPACTION_MODEL_NAME) 120 2 3
    "intra-v1" Shared 50 (tenths 3) 3000.

End IntraConfig.

Module Export Trigger.

Record IntraCompactionTrigger := MkTrigger {
  last_prompt_tokens : N; context_window : N; percent : N; step : N }.

Inductive IntraCompactionError :=
| NothingToCompact
| IntraTimeout
| IntraEmptyResponse
| InsufficientReduction (tokens_before tokens_after : N)
| InvalidSplit (requested available : nat)
| Unsupported
| SamplerBuild (msg : string)
| SamplerStart (msg : string)
| SamplerStream (msg : string)
| ApplyFailed (msg : string).

(** [x as u32] of a [u64] product. *)
Definition percent_of (n percent : N) : N := wrap32 (n * percent / 100).

Definition should_compact (policy : IntraCompactionConfig) (last_prompt_tokens context_window current_step : N)
    : option IntraCompactionTrigger :=
  if negb (intra_enabled policy) then None
  else if bool_decide (context_window = 0%N) then None
  else if bool_decide (mode policy ≠ FullReplaceMode) && bool_decide (current_step < min_steps_before_compact policy)%N
  then None
  else
    let threshold := percent_of context_window (trigger_threshold_percent policy) in
    if bool_decide (last_prompt_tokens ≤ threshold)%N then None
    else
      let percent := N.min (last_prompt_tokens * 100 / context_window) 100 in
      Some (MkTrigger last_prompt_tokens context_window percent current_step).

(** Compaction triggers exactly when it is enabled, the prompt takes more than the
    configured share of a known context window and, unless the whole conversation
    is replaced, enough steps have passed; the reported percentage is at most 100
    and above the threshold when that is below 100. *)
Theorem should_compact_spec policy last window step :
  (window ≤ u32_max)%N → (trigger_threshold_percent policy ≤ 100)%N →
  match should_compact policy last window step with
  | None =>
      intra_enabled policy = false ∨ window = 0%N ∨
      (mode policy ≠ FullReplaceMode ∧ (step < min_steps_before_compact policy)%N) ∨
      (last * 100 ≤ window * trigger_threshold_percent policy)%N
  | Some t =>
      intra_enabled policy = true ∧ window ≠ 0%N ∧
      (mode policy = FullReplaceMode ∨ (min_steps_before_compact policy ≤ step)%N) ∧
      (window * trigger_threshold_percent policy < last * 100)%N ∧
      (trigger_threshold_percent policy ≤ percent t ≤ 100)%N ∧
      last_prompt_tokens t = last ∧ context_window t = window ∧ Trigger.step t = step
  end.
Proof.
  intros Hw Hp. unfold should_compact. destruct (intra_enabled policy); cbn [negb]; [|by left].
  case_bool_decide as Hz; [by auto|].
  destruct (bool_decide (mode policy ≠ FullReplaceMode) && _) eqn:Hm; to_prop; [by auto|].
  set (p := trigger_threshold_percent policy) in *.
  assert (percent_of window p = window * p / 100)%N as ->.
  { unfold percent_of. apply wrap32_small. transitivity (window * 100 / 100)%N.
    - apply N.Div0.div_le_mono. nia.
    - by rewrite N.div_mul. }
  assert (last ≤ window * p / 100 ↔ last * 100 ≤ window * p)%N as Hiff.
  { pose proof (N.div_mod (window * p) 100 ltac:(done)). pose proof (N.mod_lt (window * p) 100 ltac:(done)).
    revert H H0. generalize (window * p)%N as x. intros x. generalize (x / 100)%N (x mod 100)%N. clear. lia. }
  destruct (bool_decide (last ≤ _)%N) eqn:Hl; [apply bool_decide_eq_true in Hl|apply bool_decide_eq_false in Hl]; cbn; [right; right; right; by apply Hiff|].
  assert (window * p < last * 100)%N as Hlt by lia.
  split_and!; try done.
  - apply andb_false_iff in Hm as [Hm|Hm]; apply bool_decide_eq_false in Hm; [left; by apply dec_stable|right; lia].
  - apply N.min_glb; [|done]. apply N.div_le_lower_bound; lia.
  - lia.
Qed.

Lemma should_compact_spec_witness :
  (let p := trigger_threshold_percent intra_default in (1000 * p < 900 * 100)%N) ∧
  match should_compact (MkIntraConfig true FullReplaceMode 85 3 5000 (tenths 8) None 120 2 3 "v" Shared 50 (tenths 3) 3000)
    900 1000 0 with
  | None => False
  | Some t => (percent t ≤ 100)%N
  end.
Proof.
  split; [by vm_compute|].
  pose proof (should_compact_spec
    (MkIntraConfig true FullReplaceMode 85 3 5000 (tenths 8) None 120 2 3 "v" Shared 50 (tenths 3) 3000)
    900 1000 0 ltac:(by vm_compute) ltac:(by vm_compute)) as H.
  cbv iota beta in H. exact (proj2 (proj1 (proj2 (proj2 (proj2 (proj2 H)))))).
Defined.

End Trigger.

Module Export StreamProc.

Inductive CompactionTarget := StepsTarget | HistoryTarget | FullReplaceTarget.
#[export] Instance CompactionTarget_eq_dec : EqDecision CompactionTarget.
Proof. solve_decision. Defined.

Definition compaction_target_label (t : CompactionTarget) : string :=
  match t with StepsTarget => "steps" | HistoryTarget => "history" | FullReplaceTarget => "full_replace" end.

(** The agent's state, as a pass sees it: two views, and the one mutator, which
    may fail. *)
Class CompactionStreamProc (St T : Type) := {
  accumulated_turns : St → list T;
  history_turns : St → list T;
  replace_with_compaction : CompactionTarget → nat → T → St → St * result IntraCompactionError unit;
}.

(** The default of [get_all_turns_for_compaction]. *)
Definition all_turns `{CompactionStreamProc St T} (s : St) : list T := history_turns s ++ accumulated_turns s.

(** The read-view that a target selects. *)
Definition view `{CompactionStreamProc St T} (t : CompactionTarget) (s : St) : list T :=
  match t with
  | StepsTarget => accumulated_turns s
  | HistoryTarget => history_turns s
  | FullReplaceTarget => all_turns s
  end.

(** What the trait promises: a commit refused for an invalid split leaves the state
    untouched, a successful one replaces the first items of the selected view by the
    summary and leaves the other partial view alone. It promises nothing of a commit that
    fails for another reason. *)
Class CompactionStreamProcLaws (S T : Type) `{CompactionStreamProc St T} : Prop := {
  replace_refused t n x (s s' : St) requested available :
    replace_with_compaction (T := T) t n x s = (s', Err (InvalidSplit requested available)) → s' = s;
  replace_done t n x (s s' : St) :
    replace_with_compaction (T := T) t n x s = (s', Ok ()) →
    n ≤ length (view t s) ∧ view t s' = x :: drop n (view t s) ∧
    (t = StepsTarget → history_turns s' = history_turns s) ∧
    (t = HistoryTarget → accumulated_turns s' = accumulated_turns s);
}.

End StreamProc.

Module Export Passes.

Inductive IntraEvent :=
| OnPassError (status : string)
| OnPassSuccess (target : CompactionTarget) (tokens_before tokens_after turns_compacted : N).

(** [elapsed] is left out. *)
Record IntraCompactionResult := MkIntraResult {
  tokens_before : N; tokens_after : N; turns_compacted : N; summary : string }.

Definition error_status_label (e : IntraCompactionError) : string :=
  match e with
  | NothingToCompact => "nothing_to_compact"
  | IntraTimeout => "timeout"
  | IntraEmptyResponse => "empty_response"
  | InsufficientReduction _ _ => "insufficient_reduction"
  | InvalidSplit _ _ => "invalid_split"
  | Unsupported => "unsupported"
  | SamplerBuild _ => "sampler_build"
  | SamplerStart _ => "sampler_start"
  | SamplerStream _ => "sampler_stream"
  | ApplyFailed _ => "apply"
  end.

Definition compaction_sample_error_to_intra (e : CompactionSampleError) : IntraCompactionError :=
  match e with
  | SampleTimeout _ _ => IntraTimeout
  | SampleBuild msg => SamplerBuild msg
  | SampleStart msg => SamplerStart msg
  | SampleEmptyResponse => IntraEmptyResponse
  | SampleOther msg =>
      if contains "Failed to build" msg then SamplerBuild msg
      else if contains "Failed to start" msg then SamplerStart msg
      else if contains "no response channel content" msg then IntraEmptyResponse
      else SamplerStream msg
  end.

Definition is_transient (e : IntraCompactionError) : bool :=
  match e with
  | IntraTimeout | IntraEmptyResponse | SamplerStream _ | SamplerStart _ => true
  | _ => false
  end.

Section Passes.
Context {St T : Type} `{CompactionItemBuilder T, !ItemTokenCounter T, !CompactionStreamProc St T}.
Variable sample_compaction :
  nat → list T → CompactionPrompt → N → result CompactionSampleError LlmCompactionOutput.
(** The texts of the prompt templates. *)
Variable full_replace_template : string.
Variable history_prompt steps_prompt : CompactionPrompt.

(** The processor, the number of model calls so far and the events so far. *)
Record World := MkWorld { proc : St; calls : nat; events : list IntraEvent }.

(** A fallible program over the world: an error keeps the world reached. *)
Definition Intra (A : Type) : Type := World → World * result IntraCompactionError A.
#[local] Instance intra_ret : MRet Intra := λ A a w, (w, Ok a).
#[local] Instance intra_bind : MBind Intra := λ A B f m w,
  match m w with (w', Ok a) => f a w' | (w', Err e) => (w', Err e) end.
Definition fail {A} (e : IntraCompactionError) : Intra A := λ w, (w, Err e).
Definition get_proc : Intra St := λ w, (w, Ok (proc w)).
Definition emit (ev : IntraEvent) : Intra unit := λ w, (MkWorld (proc w) (calls w) (events w ++ [ev]), Ok ()).
Definition called (n : nat) : Intra unit := λ w, (MkWorld (proc w) (calls w + n) (events w), Ok ()).
Definition lift {A} (r : result IntraCompactionError A) : Intra A := λ w, (w, r).
(** [Result] as a value: the error is returned, not raised. *)
Definition attempt {A} (m : Intra A) : Intra (result IntraCompactionError A) :=
  λ w, let '(w', r) := m w in (w', Ok r).
Definition commit (t : CompactionTarget) (n : nat) (x : T) : Intra unit := λ w,
  let '(s, r) := replace_with_compaction t n x (proc w) in (MkWorld s (calls w) (events w), r).

Definition max_of (policy : IntraCompactionConfig) : nat := attempts_of (max_attempts policy).

Definition sample_shared_summary_with_retries (turns : list T) (policy : IntraCompactionConfig) : Intra string :=
  λ w,
    let prompt := MkPrompt "" (build_summary_prompt full_replace_template None) in
    let '(trace, r) := sample_summary_with_retries sample_compaction (calls w) turns prompt
                         (max_attempts policy) (sampling_timeout_secs policy) in
    (MkWorld (proc w) (calls w + length trace) (events w),
     match r with
     | Ok s => Ok (format_compact_summary (sampled_summary s))
     | Err (RetryEmpty _) => Err IntraEmptyResponse
     | Err (RetryFailure message deterministic _ _) =>
         Err (if deterministic then SamplerBuild message else SamplerStream message)
     end).

(** The legacy retry loop, with [left] attempts left. *)
Fixpoint legacy_from (turns : list T) (prompt : CompactionPrompt) (timeout : N) (max left attempt_ : nat)
    (last_err : option IntraCompactionError) : Intra string :=
  match left with
  | 0 => fail (default IntraEmptyResponse last_err)
  | S left' => λ w,
      let w' := MkWorld (proc w) (calls w + 1) (events w) in
      match sample_compaction (calls w) turns prompt timeout with
      | Ok output => (w', Ok (response output))
      | Err e =>
          let intra_err := compaction_sample_error_to_intra e in
          if is_transient intra_err && bool_decide (attempt_ < max)
          then legacy_from turns prompt timeout max left' (S attempt_) (Some intra_err) w'
          else (w', Err intra_err)
      end
  end.
Definition sample_compaction_with_retries (turns : list T) (prompt : CompactionPrompt) (timeout : N)
    (policy : IntraCompactionConfig) : Intra string :=
  legacy_from turns prompt timeout (max_of policy) (max_of policy) 1 None.

(** Below [tokens_before * ratio], rounded down. *)
Definition insufficient (policy : IntraCompactionConfig) (before after : N) : bool :=
  bool_decide (0 < before)%N &&
  bool_decide (f64_to_u32 (f64_mul (f64_of_N before) (max_reduction_ratio policy)) < after)%N.

(** [None] is the [unreachable!] of the full replacement. *)
Definition prompt_for_target (target : CompactionTarget) : option CompactionPrompt :=
  match target with
  | StepsTarget => Some steps_prompt
  | HistoryTarget => Some history_prompt
  | FullReplaceTarget => None
  end.

(** The turns the model is shown and the query blocks of earlier summaries. *)
Definition prepare (target : CompactionTarget) (turns : list T) : list T * option string :=
  match target with
  | HistoryTarget => let separated := separate_prior_user_queries turns in
                     (turns_for_llm separated, prior_user_queries separated)
  | _ => (turns, None)
  end.

(** The summary with its preamble of user queries. *)
Definition with_preamble (target : CompactionTarget) (policy : IntraCompactionConfig) (turns : list T)
    (prior : option string) (summary_text : string) : string :=
  match target with
  | HistoryTarget =>
      assemble_user_queries_preamble prior
        (extract_user_queries_from_turns turns (user_message_truncate_chars policy)) +:+ summary_text
  | _ => summary_text
  end.

(** Guard the reduction, commit, and report. *)
Definition finish_pass (policy : IntraCompactionConfig) (target : CompactionTarget) (before : N) (n : nat)
    (text : string) : Intra IntraCompactionResult :=
  let compaction_turn := compaction_summary_item text in
  let after := count_item_tokens compaction_turn in
  if insufficient policy before after then fail (InsufficientReduction before after)
  else
    _ ← commit target n compaction_turn;
    _ ← emit (OnPassSuccess target before after (wrap32 (N.of_nat n)));
    mret (MkIntraResult before after (wrap32 (N.of_nat n)) text).

(** [None] is a panic. *)
Definition plan_of (policy : IntraCompactionConfig) (trigger : IntraCompactionTrigger) (turns : list T)
    : option (option SplitPlan) :=
  select_turns_to_compact (count_item_tokens <$> turns) turns
    (percent_of (context_window trigger) (target_threshold_percent policy)) (min_compactable_tokens policy).

(** Only called for the two partial targets. The selection never panics here
    ([plan_of_total]), so that the last case is the one of no plan. *)
Definition compact_one_pass (policy : IntraCompactionConfig) (trigger : IntraCompactionTrigger)
    (target : CompactionTarget) : Intra IntraCompactionResult :=
  s ← get_proc;
  let source_turns := view target s in
  if bool_decide (length source_turns = 0) then fail NothingToCompact
  else
    match plan_of policy trigger source_turns with
    | Some (Some plan) =>
        let turns_to_compact := take (split_idx plan) source_turns in
        let '(turns_for_llm, prior) := prepare target turns_to_compact in
        summary_text ←
          match summarizer policy with
          | Legacy => match prompt_for_target target with
                      | Some p => sample_compaction_with_retries turns_for_llm p (sampling_timeout_secs policy) policy
                      | None => fail Unsupported
                      end
          | Shared => sample_shared_summary_with_retries turns_for_llm policy
          end;
        finish_pass policy target (tokens_to_compact plan) (split_idx plan)
          (with_preamble target policy turns_to_compact prior summary_text)
    | _ => fail NothingToCompact
    end.

Definition apply_steps_compaction policy trigger := compact_one_pass policy trigger StepsTarget.
Definition apply_history_compaction policy trigger := compact_one_pass policy trigger HistoryTarget.

(** The [u32] sum of an iterator, which wraps in a release build. *)
Definition sum_u32 (l : list N) : N := wrap32 (sum_tokens l).

Definition apply_full_replace_pass (policy : IntraCompactionConfig) (active_reminder : option string)
    : Intra IntraCompactionResult :=
  s ← get_proc;
  let source_turns := all_turns s in
  if bool_decide (length source_turns = 0) then fail NothingToCompact
  else
    let before := sum_u32 (count_item_tokens <$> source_turns) in
    if bool_decide (before < min_compactable_tokens policy)%N then fail NothingToCompact
    else
      summary_text ← sample_shared_summary_with_retries source_turns policy;
      finish_pass policy FullReplaceTarget before (length source_turns)
        (append_reminder_block summary_text active_reminder).

(** The results of two passes as one. *)
Definition join_results (h s : IntraCompactionResult) : IntraCompactionResult :=
  MkIntraResult (sat_add32 (tokens_before h) (tokens_before s)) (sat_add32 (tokens_after h) (tokens_after s))
    (sat_add32 (turns_compacted h) (turns_compacted s))
    (if is_empty (summary h) then summary s
     else if is_empty (summary s) then summary h
     else summary h +:+ blank_line +:+ summary s).

Definition worth_steps (policy : IntraCompactionConfig) (s : St) : bool :=
  let steps_tokens := sum_tokens (count_item_tokens <$> accumulated_turns s) in
  let history_tokens := sum_tokens (count_item_tokens <$> history_turns s) in
  bool_decide (f64_ceil_to_u64 (f64_mul (f64_of_N history_tokens) (steps_trigger_ratio policy)) < steps_tokens)%N.

Definition apply_history_then_steps (policy : IntraCompactionConfig) (trigger : IntraCompactionTrigger)
    : Intra IntraCompactionResult :=
  r ← attempt (apply_history_compaction policy trigger);
  history_result ← match r with
                   | Ok h => mret (Some h)
                   | Err NothingToCompact => mret None
                   | Err e => fail e
                   end;
  s ← get_proc;
  if negb (worth_steps policy s) then lift (ok_or history_result NothingToCompact)
  else
    steps_result ← attempt (apply_steps_compaction policy trigger);
    match history_result, steps_result with
    | Some h, Ok st => mret (join_results h st)
    | Some h, Err NothingToCompact => mret h
    | None, Ok st => mret st
    | _, Err e => fail e
    end.

Definition apply_intra_compaction (policy : IntraCompactionConfig) (trigger : IntraCompactionTrigger)
    (active_reminder : option string) : Intra IntraCompactionResult := λ w,
  let '(w', r) :=
    match mode policy with
    | FullReplaceMode => apply_full_replace_pass policy active_reminder w
    | StepsOnly => apply_steps_compaction policy trigger w
    | HistoryOnly => apply_history_compaction policy trigger w
    | HistoryThenSteps => apply_history_then_steps policy trigger w
    end in
  match r with
  | Err e => (MkWorld (proc w') (calls w') (events w' ++ [OnPassError (error_status_label e)]), Err e)
  | Ok a => (w', Ok a)
  end.

(** ** What a pass does to the state *)

Context `{!CompactionItemLaws T, !CompactionStreamProcLaws St T}.

Lemma bind_run {A B} (m : Intra A) (f : A → Intra B) w :
  (m ≫= f) w = match m w with (w', Ok a) => f a w' | (w', Err e) => (w', Err e) end.
Proof. done. Qed.

(** Programs that only ask the model: they leave the processor and the events. *)
Definition only_asks {A} (m : Intra A) : Prop :=
  ∀ w, proc (m w).1 = proc w ∧ events (m w).1 = events w.

Lemma shared_only_asks turns policy : only_asks (sample_shared_summary_with_retries turns policy).
Proof.
  intros w. unfold sample_shared_summary_with_retries.
  by destruct (sample_summary_with_retries _ _ _ _ _ _).
Qed.

Lemma legacy_only_asks turns prompt timeout max left n last_err :
  only_asks (legacy_from turns prompt timeout max left n last_err).
Proof.
  revert n last_err. induction left as [|left IH]; intros n last_err w; [done|]. cbn [legacy_from].
  destruct (sample_compaction _ _ _ _) as [o|e]; [done|]. destruct (_ && _); [|done].
  destruct (IH (S n) (Some (compaction_sample_error_to_intra e)) (MkWorld (proc w) (calls w + 1) (events w))) as [-> ->].
  done.
Qed.

(** The state that an error leaves: the one before, or the one a commit that failed, for
    another reason than an invalid split, has made of it. *)
Definition left_by (e : IntraCompactionError) (s s' : St) : Prop :=
  s' = s ∨
  (∀ requested available, e ≠ InvalidSplit requested available) ∧
  ∃ t n x, replace_with_compaction (T := T) t n x s = (s', Err e).

Lemma commit_left t n x (s s' : St) e : replace_with_compaction (T := T) t n x s = (s', Err e) → left_by e s s'.
Proof.
  intros Hr. destruct e; try (right; split; [done|]; by exists t, n, x). left. by eapply replace_refused.
Qed.

(** What a pass has done when it ends. *)
Definition pass_outcome (w : World) (target : CompactionTarget) (policy : IntraCompactionConfig) (before : N) (n : nat)
    (w' : World) (r : result IntraCompactionError IntraCompactionResult) : Prop :=
  match r with
  | Err e => left_by e (proc w) (proc w')
  | Ok res =>
      replace_with_compaction target n (compaction_summary_item (summary res)) (proc w) = (proc w', Ok ()) ∧
      tokens_before res = before ∧
      tokens_after res = count_item_tokens (compaction_summary_item (T := T) (summary res)) ∧
      insufficient policy before (tokens_after res) = false
  end.

Lemma finish_pass_outcome policy target before n text w :
  let '(w', r) := finish_pass policy target before n text w in pass_outcome w target policy before n w' r.
Proof.
  unfold finish_pass. destruct (insufficient policy before _) eqn:Hi; [by left|].
  rewrite bind_run. unfold commit.
  destruct (replace_with_compaction target n (compaction_summary_item text) (proc w)) as [s [[]|e]] eqn:Hr; [|].
  - cbn. done.
  - cbn. by eapply commit_left.
Qed.

Lemma asked_outcome policy target before n (m : Intra string) f w :
  only_asks m →
  let '(w', r) := (m ≫= λ text, finish_pass policy target before n (f text)) w in
  pass_outcome w target policy before n w' r.
Proof.
  intros Hm. rewrite bind_run. specialize (Hm w). destruct (m w) as [w1 [text|e]]; cbn in Hm |- *; [|left; tauto].
  pose proof (finish_pass_outcome policy target before n (f text) w1) as H2.
  destruct (finish_pass _ _ _ _ _ w1) as [w' r]. destruct Hm as [Hm _].
  unfold pass_outcome in *. rewrite Hm in H2. by destruct r.
Qed.

Lemma plan_of_total policy trigger turns : is_Some (plan_of policy trigger turns).
Proof.
  unfold plan_of. destruct (select_turns_spec (count_item_tokens <$> turns) turns
    (percent_of (context_window trigger) (target_threshold_percent policy)) (min_compactable_tokens policy)) as (r & -> & _);
    [apply length_fmap|done].
Qed.

(** A single pass either leaves the processor as it was, or commits one summary for
    the items its plan selected. *)
Lemma one_pass_outcome policy trigger target w :
  let '(w', r) := compact_one_pass policy trigger target w in
  proc w' = proc w ∧ (∃ e, r = Err e) ∨
  ∃ plan, plan_of policy trigger (view target (proc w)) = Some (Some plan) ∧
    pass_outcome w target policy (tokens_to_compact plan) (split_idx plan) w' r.
Proof.
  unfold compact_one_pass. rewrite bind_run. cbn [get_proc].
  case_bool_decide; [left; by eauto|]. cbv zeta.
  destruct (plan_of policy trigger (view target (proc w))) as [[plan|]|]; [|left; by eauto..].
  destruct (prepare target _) as [turns prior].
  set (ask := match summarizer policy with Shared => _ | Legacy => _ end).
  assert (only_asks ask) as Hask.
  { subst ask. destruct (summarizer policy); [apply shared_only_asks|].
    destruct (prompt_for_target target); [apply legacy_only_asks|by intros ?]. }
  pose proof (asked_outcome policy target (tokens_to_compact plan) (split_idx plan) ask
    (with_preamble target policy (take (split_idx plan) (view target (proc w))) prior) w Hask) as Hout.
  revert Hout. case_match. right. by eauto.
Qed.

Lemma full_replace_outcome policy active w :
  let '(w', r) := apply_full_replace_pass policy active w in
  proc w' = proc w ∧ (∃ e, r = Err e) ∨
  pass_outcome w FullReplaceTarget policy (sum_u32 (count_item_tokens <$> all_turns (proc w)))
    (length (all_turns (proc w))) w' r.
Proof.
  unfold apply_full_replace_pass. rewrite bind_run. cbn [get_proc].
  case_bool_decide; [left; by eauto|]. cbv zeta. case_bool_decide; [left; by eauto|].
  pose proof (asked_outcome policy FullReplaceTarget (sum_u32 (count_item_tokens <$> all_turns (proc w)))
    (length (all_turns (proc w))) (sample_shared_summary_with_retries (all_turns (proc w)) policy)
    (λ text, append_reminder_block text active) w (shared_only_asks _ _)) as Hout.
  revert Hout. case_match. by right.
Qed.

Lemma one_pass_error policy trigger target w w' e :
  compact_one_pass policy trigger target w = (w', Err e) → left_by e (proc w) (proc w').
Proof.
  intros E. pose proof (one_pass_outcome policy trigger target w) as Hout. rewrite E in Hout.
  destruct Hout as [[? _]|(plan & _ & ?)]; [by left|done].
Qed.

Lemma history_then_steps_run policy trigger w :
  apply_history_then_steps policy trigger w =
  let '(wh, r) := apply_history_compaction policy trigger w in
  match (match r with Ok h => Ok (Some h) | Err NothingToCompact => Ok None | Err e => Err e end) with
  | Err e => (wh, Err e)
  | Ok hr =>
      if negb (worth_steps policy (proc wh)) then (wh, ok_or hr NothingToCompact)
      else
        let '(ws, sr) := apply_steps_compaction policy trigger wh in
        (ws, match hr, sr with
             | Some h, Ok s => Ok (join_results h s)
             | Some h, Err NothingToCompact => Ok h
             | None, Ok s => Ok s
             | _, Err e => Err e
             end)
  end.
Proof.
  unfold apply_history_then_steps. rewrite bind_run. unfold attempt at 1.
  destruct (apply_history_compaction policy trigger w) as [wh [h|eh]]; rewrite bind_run.
  - change ((mret (Some h) : Intra _) wh) with (wh, Ok (E := IntraCompactionError) (Some h)). cbv iota beta. rewrite bind_run.
    cbn [get_proc]. destruct (negb _); [done|]. rewrite bind_run. unfold attempt.
    destruct (apply_steps_compaction policy trigger wh) as [ws [s|es]]; [done|]. by destruct es.
  - destruct eh; try done. change ((mret None : Intra _) wh) with (wh, Ok (E := IntraCompactionError) (None (A := IntraCompactionResult))).
    cbv iota beta. rewrite bind_run. cbn [get_proc]. destruct (negb _); [done|]. rewrite bind_run. unfold attempt.
    by destruct (apply_steps_compaction policy trigger wh) as [ws [s|es]].
Qed.

(** C37: Whatever the model answers, a failing compaction leaves the agent's state as it
    was, or as a commit left it that failed itself (and not for an invalid split, which
    changes nothing). The combined mode runs two passes: when the second one fails, this
    is said of the state that the history pass has reached, by committing its summary or
    by finding nothing to compact. *)
Theorem intra_error_state policy trigger active w w' e :
  apply_intra_compaction policy trigger active w = (w', Err e) →
  left_by e (proc w) (proc w') ∨
  mode policy = HistoryThenSteps ∧
    ∃ wh r, apply_history_compaction policy trigger w = (wh, r) ∧
      match r with Ok _ => True | Err eh => eh = NothingToCompact ∧ left_by eh (proc w) (proc wh) end ∧
      left_by e (proc wh) (proc w').
Proof.
  unfold apply_intra_compaction. destruct (mode policy) eqn:Hmode.
  - pose proof (full_replace_outcome policy active w) as Hout.
    destruct (apply_full_replace_pass policy active w) as [w1 [r|e1]]; [done|]. intros [= <- <-]. left.
    destruct Hout as [[? _]|?]; [by left|done].
  - destruct (apply_steps_compaction policy trigger w) as [w1 [r|e1]] eqn:E; [done|]. intros [= <- <-]. left.
    by apply one_pass_error in E.
  - destruct (apply_history_compaction policy trigger w) as [w1 [r|e1]] eqn:E; [done|]. intros [= <- <-]. left.
    by apply one_pass_error in E.
  - rewrite history_then_steps_run. destruct (apply_history_compaction policy trigger w) as [wh [h|eh]] eqn:Eh.
    + intros Hrun. right. split; [done|]. exists wh, (Ok h). do 2 (split; [done|]). revert Hrun.
      destruct (negb (worth_steps policy (proc wh))); [done|].
      destruct (apply_steps_compaction policy trigger wh) as [ws [s|es]] eqn:Es; [done|]. apply one_pass_error in Es.
      destruct es; intros [=]; subst; done.
    + apply one_pass_error in Eh as Eh'. intros Hrun. revert Hrun.
      destruct eh; try (intros [= <- <-]; left; exact Eh').
      destruct (negb (worth_steps policy (proc wh))); [intros [= <- <-]; left; exact Eh'|].
      destruct (apply_steps_compaction policy trigger wh) as [ws [s|es]] eqn:Es; [done|]. apply one_pass_error in Es.
      intros [= <- <-]. right. split; [done|]. by exists wh, (Err NothingToCompact).
Qed.

(** A successful partial pass replaces a prefix of its view by one summary item:
    the kept items are unchanged, fit the budget of the target percentage and do
    not begin with a tool result, the replaced ones are worth at least the
    configured minimum, and the summary is small enough to help; the other view is
    untouched. *)
Theorem compact_pass_sound policy trigger target w w' r :
  target ≠ FullReplaceTarget →
  compact_one_pass policy trigger target w = (w', Ok r) →
  let old := view target (proc w) in
  let budget := percent_of (context_window trigger) (target_threshold_percent policy) in
  ∃ n,
    view target (proc w') = compaction_summary_item (summary r) :: drop n old ∧
    may_keep (count_item_tokens <$> old) old budget n ∧
    tokens_before r = sat_sum (take n (count_item_tokens <$> old)) ∧
    (min_compactable_tokens policy ≤ tokens_before r)%N ∧
    tokens_after r = count_item_tokens (compaction_summary_item (T := T) (summary r)) ∧
    insufficient policy (tokens_before r) (tokens_after r) = false ∧
    (target = StepsTarget → history_turns (proc w') = history_turns (proc w)) ∧
    (target = HistoryTarget → accumulated_turns (proc w') = accumulated_turns (proc w)).
Proof.
  intros Ht E old budget. pose proof (one_pass_outcome policy trigger target w) as Hout. rewrite E in Hout.
  destruct Hout as [[_ [e He]]|(plan & Hplan & Hrep & Hb & Ha & Hi)]; [done|]. fold old in Hplan.
  apply replace_done in Hrep as (_ & Hview & Hs & Hh). exists (split_idx plan).
  unfold plan_of in Hplan. fold budget in Hplan.
  destruct (select_plan_spec _ _ _ _ _ (length_fmap _ _) Hplan) as (_ & Hk & _ & Htok & Hmin).
  rewrite Hb. by split_and!.
Qed.

End Passes.
Arguments World : clear implicits.
Arguments Intra : clear implicits.
End Passes.

(** * A processor, for the witnesses *)

Module Export TwoViews.

(** History and steps, as two lists. *)
Record Views := MkViews { view_history : list ChatTurn; view_steps : list ChatTurn }.

#[export] Instance views_proc : CompactionStreamProc Views ChatTurn := {|
  accumulated_turns := view_steps;
  history_turns := view_history;
  replace_with_compaction t n x s :=
    let l := match t with
             | StepsTarget => view_steps s
             | HistoryTarget => view_history s
             | FullReplaceTarget => view_history s ++ view_steps s
             end in
    if bool_decide (length l < n) then (s, Err (InvalidSplit n (length l)))
    else
      (match t with
       | StepsTarget => MkViews (view_history s) (x :: drop n l)
       | HistoryTarget => MkViews (x :: drop n l) (view_steps s)
       | FullReplaceTarget => MkViews [] (x :: drop n l)
       end, Ok ()) |}.

#[export] Instance views_laws : CompactionStreamProcLaws Views ChatTurn.
Proof.
  split.
  - intros t n x s s' requested available. simpl. by case_bool_decide; intros [= <-].
  - intros t n x s s'. simpl. case_bool_decide as Hn; [done|]. intros [= <-].
    split_and!; destruct t; try done; unfold view, all_turns; simpl in *; lia.
Qed.

(** Answers once, and then fails for good. *)
Definition one_answer (i : nat) (turns : list ChatTurn) (p : CompactionPrompt) (timeout : N)
    : result CompactionSampleError LlmCompactionOutput :=
  match i with 0 => Ok (MkOutput "done" "") | _ => Err (SampleBuild "unknown model") end.

Definition policy_of (m : IntraCompactionMode) : IntraCompactionConfig :=
  MkIntraConfig true m 85 0 1 (tenths 8) None 120 2 3 "intra-v1" Legacy 1 (tenths 3) 3000.
Definition full_prompt : IntraCompactionTrigger := MkTrigger 950 1000 95 3.
Definition busy : Views :=
  MkViews [TurnDeveloper "a long answer about the files of the project" false; TurnAssistant (Some "two files") false]
          [TurnAssistant (Some "a long report of the step that was taken") true; TurnTool; TurnAssistant (Some "ok") false].
Definition busy_world : World Views := MkWorld busy 0 [].

Definition run_mode (m : IntraCompactionMode) : World Views * result IntraCompactionError IntraCompactionResult :=
  apply_intra_compaction one_answer "" prompts prompts (policy_of m) full_prompt None busy_world.

Lemma compact_pass_sound_witness :
  ∃ w' r, compact_one_pass one_answer "" prompts prompts (policy_of StepsOnly) full_prompt StepsTarget busy_world =
      (w', Ok r) ∧
    view StepsTarget (proc w') = [TurnDeveloper "done" true; TurnAssistant (Some "ok") false] ∧
    history_turns (proc w') = view_history busy.
Proof.
  destruct (compact_one_pass one_answer "" prompts prompts (policy_of StepsOnly) full_prompt StepsTarget busy_world)
    as [w' [r|e]] eqn:E; [|by vm_compute in E].
  exists w', r. split; [done|].
  destruct (compact_pass_sound one_answer "" prompts prompts (policy_of StepsOnly) full_prompt StepsTarget busy_world
    w' r ltac:(discriminate) E) as (n & _ & _ & _ & _ & _ & _ & Hh & _).
  split; [|exact (Hh eq_refl)]. vm_compute in E. by injection E as <- _.
Defined.

Definition no_model (i : nat) (turns : list ChatTurn) (p : CompactionPrompt) (timeout : N)
    : result CompactionSampleError LlmCompactionOutput := Err (SampleBuild "unknown model").

Lemma intra_error_state_witness :
  ∃ w' e, apply_intra_compaction no_model "" prompts prompts (policy_of StepsOnly) full_prompt None busy_world =
      (w', Err e) ∧ proc w' = busy.
Proof.
  destruct (apply_intra_compaction no_model "" prompts prompts (policy_of StepsOnly) full_prompt None busy_world)
    as [w' [r|e]] eqn:E; [by vm_compute in E|].
  exists w', e. split; [done|].
  destruct (intra_error_state no_model "" prompts prompts (policy_of StepsOnly) full_prompt None busy_world w' e E)
    as [[H|[Hne (t & n & x & Hr)]]|[H _]]; [exact H| |discriminate H].
  simpl in Hr. destruct (bool_decide _) in Hr; [|discriminate Hr]. injection Hr as _ <-. by destruct (Hne _ _ eq_refl).
Defined.

(** The combined mode can fail with the history already replaced. *)
Theorem failed_compaction_changes_history :
  ∃ w' e, run_mode HistoryThenSteps = (w', Err e) ∧ proc w' ≠ busy ∧
    view_history (proc w') = [TurnDeveloper "done" true; TurnAssistant (Some "two files") false].
Proof.
  destruct (run_mode HistoryThenSteps) as [w' [r|e]] eqn:E; [by vm_compute in E|].
  exists w', e. split; [done|]. vm_compute in E. by injection E as <- <-.
Qed.

End TwoViews.
