(* ===== verification/ToolFs.v ===== *)
(** The file system under the file tools (crate [ainxt-tools]): a map from paths to
    bytes, with what the operating system answers (canonical paths, faults) as a
    parameter, and the decoding of file bytes. *)
From stdpp Require Import list gmap.
From S2P Require Import Prelude RustStr StrSearch.

(** * [String::from_utf8_lossy] *)

Module Export Utf8.

Definition replacement : string := str_of_bytes [239; 191; 189]%N.

(** Is [b] a legal second byte after the first byte [a] of a character of three or
    four bytes? *)
Definition second_of_three (a b : ascii) : bool :=
  let a := N_of_ascii a in
  if bool_decide (a = 224%N) then byte_in 160 191 b
  else if bool_decide (a = 237%N) then byte_in 128 159 b
  else byte_in 128 191 b.
Definition second_of_four (a b : ascii) : bool :=
  let a := N_of_ascii a in
  if bool_decide (a = 240%N) then byte_in 144 191 b
  else if bool_decide (a = 244%N) then byte_in 128 143 b
  else byte_in 128 191 b.

(** Every maximal ill-formed part becomes one replacement character. *)
Fixpoint from_utf8_lossy (s : string) : string :=
  match s with
  | "" => ""
  | String a s1 =>
      if byte_in 0 127 a then String a (from_utf8_lossy s1)
      else if byte_in 194 223 a then
        match s1 with
        | String b s2 =>
            if is_continuation b then String a (String b (from_utf8_lossy s2))
            else replacement +:+ from_utf8_lossy s1
        | "" => replacement
        end
      else if byte_in 224 239 a then
        match s1 with
        | String b s2 =>
            if second_of_three a b then
              match s2 with
              | String c s3 =>
                  if is_continuation c then String a (String b (String c (from_utf8_lossy s3)))
                  else replacement +:+ from_utf8_lossy s2
              | "" => replacement
              end
            else replacement +:+ from_utf8_lossy s1
        | "" => replacement
        end
      else if byte_in 240 244 a then
        match s1 with
        | String b s2 =>
            if second_of_four a b then
              match s2 with
              | String c s3 =>
                  if is_continuation c then
                    match s3 with
                    | String d s4 =>
                        if is_continuation d then
                          String a (String b (String c (String d (from_utf8_lossy s4))))
                        else replacement +:+ from_utf8_lossy s3
                    | "" => replacement
                    end
                  else replacement +:+ from_utf8_lossy s2
              | "" => replacement
              end
            else replacement +:+ from_utf8_lossy s1
        | "" => replacement
        end
      else replacement +:+ from_utf8_lossy s1
  end.

End Utf8.

(** * Characters *)

(** A first byte and continuation bytes. *)
Definition one_char (c : string) : Prop := ∃ a t, c = String a t ∧ bytes_all is_continuation t = true.
Definition begins_char (c : string) : Prop := starts_with_continuation c = false.

Lemma chars_wf s : Forall one_char (chars s) ∧ Forall begins_char (tail (chars s)).
Proof.
  induction s as [|a s [IH1 IH2]]; [by split; constructor|]. cbn [chars].
  destruct (chars s) as [|c cs]; [split; [|constructor]; constructor; [by exists a, ""|constructor]|].
  apply Forall_cons in IH1 as [Hc Hcs]. destruct (starts_with_continuation c) eqn:E; cbn [tail] in *.
  - split; [|done]. constructor; [|done]. exists a, c. split; [done|].
    destruct Hc as (b & t & -> & Ht). cbn [bytes_all starts_with_continuation] in *. by rewrite E, Ht.
  - split; [|by constructor]. constructor; [by exists a, ""|by constructor].
Qed.

Lemma chars_one c cs : one_char c → (∀ d ds, cs = d :: ds → begins_char d) → chars (concat_str cs) = cs →
  chars (c +:+ concat_str cs) = c :: cs.
Proof.
  intros (a & t & -> & Ht) Hd Hcs. revert a. induction t as [|b t IH]; intros a.
  - change (String a "" +:+ concat_str cs) with (String a (concat_str cs)). cbn [chars]. rewrite Hcs.
    destruct cs as [|d ds]; [done|]. by rewrite (Hd d ds eq_refl).
  - cbn [bytes_all] in Ht. apply andb_prop in Ht as [Hb Ht].
    change (String a (String b t) +:+ concat_str cs) with (String a (String b t +:+ concat_str cs)).
    cbn [chars]. rewrite (IH Ht b). cbn [starts_with_continuation]. by rewrite Hb.
Qed.

(** A run of the characters of a text has exactly these characters. *)
Lemma chars_concat cs : Forall one_char cs → Forall begins_char (tail cs) → chars (concat_str cs) = cs.
Proof.
  induction cs as [|c cs IH]; [done|]. intros [Hc Hcs]%Forall_cons Ht. cbn [tail] in Ht.
  change (concat_str (c :: cs)) with (c +:+ concat_str cs). apply chars_one; [done| |].
  - intros d ds ->. by apply Forall_cons in Ht as [? _].
  - apply IH; [done|]. by destruct Ht.
Qed.

Lemma chars_part s l m r : chars s = l ++ m ++ r → chars (concat_str m) = m.
Proof.
  intros E. destruct (chars_wf s) as [H1 H2]. rewrite E in H1, H2.
  apply Forall_app in H1 as [_ [H1 _]%Forall_app]. apply chars_concat; [done|].
  destruct m as [|c m]; [constructor|]. destruct l as [|d l]; cbn in *.
  - by apply Forall_app in H2 as [? _].
  - apply Forall_app in H2 as [_ [_ H2]%Forall_cons]. by apply Forall_app in H2 as [? _].
Qed.

(** * Well-formed text *)

(** The length of a character by its first byte. *)
Definition utf8_width (a : ascii) : nat :=
  if byte_in 0 127 a then 1 else if byte_in 192 223 a then 2
  else if byte_in 224 239 a then 3 else if byte_in 240 255 a then 4 else 0.
Definition utf8_char (c : string) : bool :=
  match c with
  | "" => false
  | String a t => bytes_all is_continuation t && bool_decide (String.length c = utf8_width a)
  end.
(** The bytes of a [str]: every character has its length (what a value of the
    type guarantees besides is not used). *)
Definition utf8 (s : string) : bool := forallb utf8_char (chars s).

Lemma utf8_char_inv c : utf8_char c = true →
  ∃ a t, c = String a t ∧ is_continuation a = false ∧ bytes_all is_continuation t = true ∧ S (String.length t) = utf8_width a.
Proof.
  destruct c as [|a t]; [done|]. cbn. intros [Ht Hw]%andb_prop. apply bool_decide_eq_true in Hw.
  exists a, t. split; [done|]. split; [|done]. destruct (is_continuation a) eqn:E; [|done].
  exfalso. assert (Hz : utf8_width a = 0); [|rewrite Hz in Hw; done]. revert E. clear.
  destruct a as [[] [] [] [] [] [] [] []]; done.
Qed.

Lemma chars_single c : utf8_char c = true → chars c = [c].
Proof.
  intros (a & t & -> & _ & Ht & _)%utf8_char_inv. rewrite <-(app_nil_r_str (String a t)) at 1.
  apply (chars_one (String a t) []); [by exists a, t|done|done].
Qed.

Lemma utf8_begins s : utf8 s = true → begins_char s.
Proof.
  destruct s as [|a s]; [done|]. unfold utf8. destruct (chars_first a s) as (c & cs & ->).
  cbn [forallb]. intros [(b & t & [= <- <-] & Ha & _)%utf8_char_inv _]%andb_prop. exact Ha.
Qed.

Lemma chars_app s t : begins_char t → chars (s +:+ t) = chars s ++ chars t.
Proof.
  destruct t as [|a t]; [by rewrite app_nil_r_str, app_nil_r|]. intros H. by apply chars_app_start.
Qed.

Lemma utf8_app s t : utf8 s = true → utf8 t = true → utf8 (s +:+ t) = true.
Proof.
  intros Hs Ht. unfold utf8. rewrite chars_app by (by apply utf8_begins). rewrite forallb_app.
  unfold utf8 in *. by rewrite Hs, Ht.
Qed.

(** A character takes all the continuation bytes that follow. *)
Lemma chars_takes a x y : bytes_all is_continuation x = true →
  ∃ z cs, chars (String a (x +:+ y)) = String a (x +:+ z) :: cs.
Proof.
  revert a. induction x as [|b x IH]; intros a Hx.
  - destruct (chars_first a y) as (c & cs & E). exists c, cs. exact E.
  - cbn [bytes_all] in Hx. apply andb_prop in Hx as [Hb Hx]. destruct (IH b Hx) as (z & cs & E).
    exists z, cs. rewrite !app_cons_str. cbn [chars] in *. rewrite E. cbn [starts_with_continuation]. by rewrite Hb.
Qed.

(** Text inside text ends at a character boundary. *)
Lemma utf8_inner_end u p v : utf8 (u +:+ p +:+ v) = true → utf8 p = true → p ≠ "" → begins_char v.
Proof.
  intros Hall Hp Hne. destruct (chars p) as [|c0 cs0] eqn:Ep.
  { exfalso. apply Hne. by rewrite <-(concat_chars p), Ep. }
  destruct (exists_last (l := c0 :: cs0)) as (cs & c & E); [done|]. rewrite E in Ep. clear E c0 cs0.
  assert (Hc : utf8_char c = true).
  { unfold utf8 in Hp. rewrite Ep, forallb_app in Hp. apply andb_prop in Hp as [_ Hp].
    cbn in Hp. by rewrite andb_true_r in Hp. }
  apply utf8_char_inv in Hc as (a & t & -> & Ha & Ht & Hw).
  assert (Es : u +:+ p +:+ v = (u +:+ concat_str cs) +:+ String a (t +:+ v)).
  { rewrite <-(concat_chars p), Ep, concat_str_app. cbn [concat_str foldr].
    rewrite app_nil_r_str, <-!app_assoc_str. done. }
  destruct v as [|b v]; [done|]. unfold begins_char. cbn [starts_with_continuation].
  destruct (is_continuation b) eqn:Hb; [|done]. exfalso.
  unfold utf8 in Hall. rewrite Es, chars_app_start, forallb_app in Hall by done.
  apply andb_prop in Hall as [_ Hall].
  destruct (chars_takes a (t +:+ String b "") v) as (z & ds & E).
  { rewrite bytes_all_app, Ht. cbn. by rewrite Hb. }
  rewrite <-app_assoc_str in E. cbn [app_cons_str] in E. change (String b "" +:+ v) with (String b v) in E.
  rewrite E in Hall. cbn [forallb] in Hall. apply andb_prop in Hall as [Hc _].
  apply utf8_char_inv in Hc as (a' & t' & [= <- <-] & _ & _ & Hw').
  rewrite !length_app_str in Hw'. cbn in Hw'. lia.
Qed.

Lemma utf8_cons c s : utf8_char c = true → utf8 s = true → utf8 (c +:+ s) = true.
Proof. intros Hc Hs. apply utf8_app; [|done]. unfold utf8. rewrite (chars_single c Hc). cbn. by rewrite Hc. Qed.

Lemma utf8_concat cs : Forall (λ c, utf8_char c = true) cs → utf8 (concat_str cs) = true.
Proof. induction 1 as [|c cs Hc _ IH]; [done|]. by apply utf8_cons. Qed.

Lemma byte_in_weaken lo hi lo' hi' a : (lo' ≤ lo)%N → (hi ≤ hi')%N → byte_in lo hi a = true → byte_in lo' hi' a = true.
Proof.
  intros Hl Hh. unfold byte_in. intros [H1 H2]%andb_prop. apply bool_decide_eq_true in H1, H2.
  rewrite !bool_decide_eq_true_2 by lia. done.
Qed.

Lemma second_continues a b :
  (second_of_three a b = true → is_continuation b = true) ∧ (second_of_four a b = true → is_continuation b = true).
Proof.
  unfold second_of_three, second_of_four.
  split; repeat case_bool_decide; apply byte_in_weaken; lia.
Qed.

Lemma width_by_range a :
  (byte_in 194 223 a = true → utf8_width a = 2) ∧ (byte_in 224 239 a = true → utf8_width a = 3) ∧
  (byte_in 240 244 a = true → utf8_width a = 4) ∧ (byte_in 0 127 a = true → utf8_width a = 1).
Proof. destruct a as [[] [] [] [] [] [] [] []]; repeat split; done. Qed.

(** Decoding yields well-formed text. *)
Lemma from_utf8_lossy_utf8 s : utf8 (from_utf8_lossy s) = true.
Proof.
  induction s as [s IH] using (induction_ltof1 _ String.length). unfold ltof in IH.
  destruct s as [|a s1]; [done|]. destruct (width_by_range a) as (W2 & W3 & W4 & W1).
  assert (HR : utf8_char replacement = true) by done.
  cbn [from_utf8_lossy]. destruct (byte_in 0 127 a) eqn:R1.
  { apply (utf8_cons (String a "")); [|apply IH; cbn; lia]. cbn. by rewrite W1. }
  destruct (byte_in 194 223 a) eqn:R2.
  { destruct s1 as [|b s2]; [done|]. destruct (is_continuation b) eqn:Hb; [|apply utf8_cons; [done|apply IH; cbn; lia]].
    apply (utf8_cons (String a (String b ""))); [|apply IH; cbn; lia]. cbn. by rewrite Hb, W2. }
  destruct (byte_in 224 239 a) eqn:R3.
  { destruct s1 as [|b s2]; [done|].
    destruct (second_of_three a b) eqn:Hb; [|apply utf8_cons; [done|apply IH; cbn; lia]].
    apply (second_continues a b) in Hb. destruct s2 as [|c s3]; [done|].
    destruct (is_continuation c) eqn:Hc; [|apply utf8_cons; [done|apply IH; cbn; lia]].
    apply (utf8_cons (String a (String b (String c "")))); [|apply IH; cbn; lia]. cbn. by rewrite Hb, Hc, W3. }
  destruct (byte_in 240 244 a) eqn:R4; [|apply utf8_cons; [done|apply IH; cbn; lia]].
  destruct s1 as [|b s2]; [done|].
  destruct (second_of_four a b) eqn:Hb; [|apply utf8_cons; [done|apply IH; cbn; lia]].
  apply (second_continues a b) in Hb. destruct s2 as [|c s3]; [done|].
  destruct (is_continuation c) eqn:Hc; [|apply utf8_cons; [done|apply IH; cbn; lia]].
  destruct s3 as [|d s4]; [done|].
  destruct (is_continuation d) eqn:Hd; [|apply utf8_cons; [done|apply IH; cbn; lia]].
  apply (utf8_cons (String a (String b (String c (String d ""))))); [|apply IH; cbn; lia].
  cbn. by rewrite Hb, Hc, Hd, W4.
Qed.

(** * The file system *)

Module Export Files.

(** [io_error_kind], as far as the tools distinguish it. *)
Inductive IoErrorKind : Type :=
| IoNotFound | IoAlreadyExists | IoInvalidFilename | IoIsADirectory | IoPermissionDenied
| IoOther (why : string).
#[export] Instance IoErrorKind_eq_dec : EqDecision IoErrorKind.
Proof. solve_decision. Defined.

Abbreviation fs := (gmap string string).

(** What the operating system answers during one call. *)
Class HostFs : Type := {
  try_canonicalize : fs → string → result IoErrorKind string;
  try_resolve_unicode_filename : fs → string → option string;
  is_dir : fs → string → bool;
  canonicalize_with_timeout : fs → string → string;
  read_fault : string → option IoErrorKind;
  write_fault : string → option IoErrorKind;
  show_io_error : IoErrorKind → string;
  format_not_found_error : fs → string → string → string;
}.

Section Ops.
Context `{HostFs}.

Definition read_file (path : string) (f : fs) : result IoErrorKind string :=
  match read_fault path with
  | Some e => Err e
  | None => ok_or (f !! path) IoNotFound
  end.
Definition write_file (path bytes : string) (f : fs) : result IoErrorKind unit * fs :=
  match write_fault path with
  | Some e => (Err e, f)
  | None => (Ok (), <[path := bytes]> f)
  end.
End Ops.

End Files.
