(* ===== verification/HashScheme.v ===== *)
(** Line anchors of the hashline tools (crate [ainxt-tools],
    [implementations/ainxt_build_hashline]): the line hash ([util/hash.rs]), the
    splitting of a file into lines ([anchor.rs]), anchors and the three anchor
    schemes ([scheme.rs]), and the scheme configuration ([config.rs]). *)
From stdpp Require Import list.
From S2P Require Import Prelude RustStr StrSearch.

(** * Hashing *)

Module Export LineHash.

Definition FNV_OFFSET : N := 2166136261.
Definition FNV_PRIME : N := 16777619.

(** One round: [h ^= x; h = h.wrapping_mul(FNV_PRIME)]. *)
Definition fnv_step (h x : N) : N := wrap32 (N.lxor h x * FNV_PRIME).

Fixpoint fnv_bytes (h : N) (data : string) : N :=
  match data with "" => h | String b data' => fnv_bytes (fnv_step h (N_of_ascii b)) data' end.
Definition fnv1a_32 (data : string) : N := fnv_bytes FNV_OFFSET data.

(** [u8::is_ascii_whitespace]: space, tab, line feed, form feed, carriage
    return. *)
Definition is_ascii_whitespace (b : ascii) : bool :=
  bool_decide (N_of_ascii b ∈ [32; 9; 10; 12; 13]%N).

Fixpoint line_hash_go (h : N) (prev_ws : bool) (data : string) : N :=
  match data with
  | "" => h
  | String b data' =>
      if is_ascii_whitespace b then
        line_hash_go (if prev_ws then h else fnv_step h 32) true data'
      else line_hash_go (fnv_step h (N_of_ascii b)) false data'
  end.
Definition line_hash (line : string) : N := line_hash_go FNV_OFFSET false (trim line).

(** The letter of byte [i] of the hash. *)
Definition hash_letter (hash : N) (i : nat) : ascii :=
  ascii_of_N (N.shiftr hash (N.of_nat (i * 8)) mod 26 + 97).
(** It asserts [1 ≤ len ≤ 4]: every caller passes the hash length of a scheme,
    which the constructors of the schemes assert to be in that range. *)
Definition encode_hash (hash : N) (len : nat) : string :=
  foldr (λ i s, String (hash_letter hash i) s) "" (seq 0 len).

Definition DEFAULT_HASH_LEN : nat := 3.

End LineHash.

(** * Anchors *)

Module Export Anchors.

Definition split_lines (content : string) : list string :=
  if is_empty content then [""]
  else
    let ls := lines content in
    if ends_with newline content then ls ++ [""] else ls.

Record Anchor : Type := MkAnchor { line : N; local : string; context : option string }.
Record ParsedAnchor : Type :=
  MkParsed { p_line : N; p_local : string; p_context : option string }.

#[export] Instance Anchor_eq_dec : EqDecision Anchor.
Proof. solve_decision. Defined.
#[export] Instance ParsedAnchor_eq_dec : EqDecision ParsedAnchor.
Proof. solve_decision. Defined.

Definition Anchor_render (a : Anchor) : string :=
  match context a with
  | Some ctx => pretty (line a) +:+ ":" +:+ local a +:+ ":" +:+ ctx
  | None => pretty (line a) +:+ ":" +:+ local a
  end.

Definition ParsedAnchor_render (p : ParsedAnchor) : string :=
  match p_context p with
  | Some ctx => pretty (p_line p) +:+ ":" +:+ p_local p +:+ ":" +:+ ctx
  | None => pretty (p_line p) +:+ ":" +:+ p_local p
  end.

Definition colon : ascii := ":"%char.
Definition is_hash (s : string) : bool := negb (is_empty s) && bytes_all is_ascii_lower s.

(** [s.splitn(3, ':')] gives the line, the local hash and the rest. *)
Definition ParsedAnchor_parse (s : string) : option ParsedAnchor :=
  '(line_str, rest) ← split_once colon s;
  let '(local, context) :=
    match split_once colon rest with
    | Some (local, context) => (local, Some context)
    | None => (rest, None)
    end in
  if is_empty line_str || is_empty local then None
  else
    line ← parse_u64 line_str;
    if bool_decide (line = 0%N) then None
    else if negb (bytes_all is_ascii_lower local) then None
    else if match context with Some ctx => negb (is_hash ctx) | None => false end then None
    else Some (MkParsed line local context).

(** The anchor as the model sends it back. *)
Definition as_parsed (a : Anchor) : ParsedAnchor := MkParsed (line a) (local a) (context a).

Inductive ValidationResult : Type := Valid | Stale | OutOfRange.
#[export] Instance ValidationResult_eq_dec : EqDecision ValidationResult.
Proof. solve_decision. Defined.

Inductive ShiftResult : Type :=
| Found (new_line : N)
| Ambiguous (candidates : list N)
| NotFound.

Definition DEFAULT_SEARCH_RADIUS : N := 15.

(** A [dyn AnchorScheme]. *)
Record AnchorScheme : Type := MkScheme {
  name : string;
  hash_len : nat;
  generate_anchors : list string → list Anchor;
  validate : ParsedAnchor → list string → ValidationResult;
  validation_window_lines : nat → nat → nat;
  find_shifted : ParsedAnchor → list string → N → ShiftResult;
}.

(** The integers [a..b]. *)
Definition range (a b : N) : list N :=
  (λ i, a + N.of_nat i)%N <$> seq 0 (N.to_nat (b - a)).

(** The line of an anchor as a 0-based index: line 0 gives the largest one. *)
Definition anchor_idx (p : ParsedAnchor) : N :=
  if bool_decide (p_line p = 0%N) then u64_max else (p_line p - 1)%N.
Definition len (ls : list string) : N := N.of_nat (length ls).
(** [lines[idx]] for an index that is in range. *)
Definition line_at (ls : list string) (idx : N) : string := default "" (ls !! N.to_nat idx).

(** The candidate test of [find_shifted_generic]: the loop body. *)
Definition shift_candidate (hash_len : nat) (validate : ParsedAnchor → list string → ValidationResult)
    (anchor : ParsedAnchor) (ls : list string) (orig_idx idx : N) : bool :=
  if bool_decide (idx = orig_idx) then false
  else
    let local := encode_hash (line_hash (line_at ls idx)) hash_len in
    if negb (bool_decide (local = p_local anchor)) then false
    else
      match p_context anchor with
      | Some _ =>
          let probe := MkParsed (idx + 1) local (p_context anchor) in
          bool_decide (validate probe ls = Valid)
      | None => true
      end.

Definition find_shifted_generic (hash_len : nat)
    (validate : ParsedAnchor → list string → ValidationResult)
    (anchor : ParsedAnchor) (ls : list string) (search_radius : N) : ShiftResult :=
  let orig_idx := (p_line anchor - 1)%N in
  let start := (orig_idx - search_radius)%N in
  let end_ := N.min (orig_idx + search_radius + 1) (len ls) in
  let candidates :=
    (λ idx, idx + 1)%N <$>
    filter (λ idx, shift_candidate hash_len validate anchor ls orig_idx idx = true) (range start end_) in
  match candidates with
  | [] => NotFound
  | [new_line] => Found new_line
  | _ => Ambiguous candidates
  end.

End Anchors.

(** * The schemes *)

Module Export Schemes.

(** The assertion of the constructors. *)
Definition hash_len_ok (n : nat) : bool := bool_decide (0 < n) && bool_decide (n ≤ 4).

(** Candidate A. *)
Definition ContentOnly_generate (hl : nat) (ls : list string) : list Anchor :=
  imap (λ i line, MkAnchor (N.of_nat (i + 1)) (encode_hash (line_hash line) hl) None) ls.

Definition ContentOnly_validate (hl : nat) (anchor : ParsedAnchor) (ls : list string) : ValidationResult :=
  let idx := anchor_idx anchor in
  if bool_decide (len ls ≤ idx)%N then OutOfRange
  else
    let expected_local := encode_hash (line_hash (line_at ls idx)) hl in
    if bool_decide (p_local anchor = expected_local) then Valid else Stale.

Definition ContentOnly (hl : nat) : AnchorScheme :=
  MkScheme "content_only_v1" hl (ContentOnly_generate hl) (ContentOnly_validate hl)
    (λ _ _, 1) (find_shifted_generic hl (ContentOnly_validate hl)).
Definition ContentOnly_with_hash_len (hl : nat) : option AnchorScheme :=
  if hash_len_ok hl then Some (ContentOnly hl) else None.

(** Candidate B. The fingerprint of a run of lines under a seed. *)
Definition mix_lines (seed : N) (ls : list string) : N :=
  fold_left (λ h l, fnv_step h (line_hash l)) ls seed.

Definition chunk_fingerprint (hl chunk_size : nat) (ls : list string) (line_idx : nat) : string :=
  let chunk_start := line_idx / chunk_size * chunk_size in
  let chunk_end := (chunk_start + chunk_size) `min` length ls in
  encode_hash (mix_lines (fnv1a_32 "chunk") (slice_lines chunk_start chunk_end ls)) hl.

Definition div_ceil (n k : nat) : nat := (n + k - 1) / k.

(** The fingerprints of all chunks, computed once. *)
Definition chunk_fps (hl chunk_size : nat) (ls : list string) : list string :=
  (λ chunk_idx,
     let start := chunk_idx * chunk_size in
     let end_ := (start + chunk_size) `min` length ls in
     encode_hash (mix_lines (fnv1a_32 "chunk") (slice_lines start end_ ls)) hl)
  <$> seq 0 (div_ceil (length ls) chunk_size).

(** [chunk_fps[i / chunk_size]] is in range ([chunk_fps_lookup]). *)
Definition ChunkFingerprint_generate (hl chunk_size : nat) (ls : list string) : list Anchor :=
  let fps := chunk_fps hl chunk_size ls in
  imap (λ i line,
    MkAnchor (N.of_nat (i + 1)) (encode_hash (line_hash line) hl) (fps !! (i / chunk_size))) ls.

(** [validate] of the two schemes that require a context; [fingerprint] recomputes it. *)
Definition validate_with_context (hl : nat) (fingerprint : list string → nat → string)
    (anchor : ParsedAnchor) (ls : list string) : ValidationResult :=
  let idx := anchor_idx anchor in
  if bool_decide (len ls ≤ idx)%N then OutOfRange
  else
    let expected_local := encode_hash (line_hash (line_at ls idx)) hl in
    if negb (bool_decide (p_local anchor = expected_local)) then Stale
    else
      match p_context anchor with
      | None => Stale
      | Some expected_ctx =>
          let actual_ctx := fingerprint ls (N.to_nat idx) in
          if negb (bool_decide (expected_ctx = actual_ctx)) then Stale else Valid
      end.

Definition ChunkFingerprint_validate (hl chunk_size : nat) :=
  validate_with_context hl (chunk_fingerprint hl chunk_size).

Definition ChunkFingerprint (hl chunk_size : nat) : AnchorScheme :=
  MkScheme "chunk_v1" hl (ChunkFingerprint_generate hl chunk_size)
    (ChunkFingerprint_validate hl chunk_size)
    (λ _ total_lines, chunk_size `min` total_lines)
    (find_shifted_generic hl (ChunkFingerprint_validate hl chunk_size)).
Definition ChunkFingerprint_with_params (hl chunk_size : nat) : option AnchorScheme :=
  if hash_len_ok hl && bool_decide (0 < chunk_size) then Some (ChunkFingerprint hl chunk_size) else None.

(** Candidate C. *)
Definition checkpoint_fingerprint (hl interval : nat) (ls : list string) (line_idx : nat) : string :=
  let checkpoint_start := line_idx / interval * interval in
  encode_hash (mix_lines (fnv1a_32 "ckpt") (slice_lines checkpoint_start (line_idx + 1) ls)) hl.

(** The loop over the lines: [i] is the index of the first one, [chain] the
    chain before it. *)
Fixpoint chain_anchors (hl interval : nat) (i : nat) (chain : N) (ls : list string) : list Anchor :=
  match ls with
  | [] => []
  | line :: rest =>
      let chain := if bool_decide (i mod interval = 0) then fnv1a_32 "ckpt" else chain in
      let lh := line_hash line in
      let chain := fnv_step chain lh in
      MkAnchor (N.of_nat (i + 1)) (encode_hash lh hl) (Some (encode_hash chain hl))
      :: chain_anchors hl interval (S i) chain rest
  end.

Definition CheckpointChain_generate (hl interval : nat) (ls : list string) : list Anchor :=
  chain_anchors hl interval 0 (fnv1a_32 "ckpt") ls.
Definition CheckpointChain_validate (hl interval : nat) :=
  validate_with_context hl (checkpoint_fingerprint hl interval).

Definition CheckpointChain (hl interval : nat) : AnchorScheme :=
  MkScheme "checkpoint_v1" hl (CheckpointChain_generate hl interval)
    (CheckpointChain_validate hl interval)
    (λ line_idx _, line_idx - line_idx / interval * interval + 1)
    (find_shifted_generic hl (CheckpointChain_validate hl interval)).
Definition CheckpointChain_with_params (hl interval : nat) : option AnchorScheme :=
  if hash_len_ok hl && bool_decide (0 < interval) then Some (CheckpointChain hl interval) else None.

End Schemes.

(** * Configuration *)

Module Export SchemeConfig.

Record HashlineSchemeParams : Type := MkParams {
  scheme : string;
  cfg_hash_len : nat;
  chunk_size : nat;
}.

Definition default_params : HashlineSchemeParams := MkParams "chunk" 3 8.

Definition params_validate (p : HashlineSchemeParams) : result string unit :=
  if negb (bool_decide (scheme p ∈ ["chunk"; "content_only"])) then
    Err ("unknown scheme " +:+ quote_str +:+ scheme p +:+ quote_str +:+ ": expected " +:+
         quote_str +:+ "chunk" +:+ quote_str +:+ " or " +:+ quote_str +:+ "content_only" +:+ quote_str)
  else if bool_decide (cfg_hash_len p = 0) || bool_decide (4 < cfg_hash_len p) then
    Err ("hash_len must be 1..=4, got " +:+ pretty (N.of_nat (cfg_hash_len p)))
  else if bool_decide (scheme p = "chunk") && bool_decide (chunk_size p = 0) then
    Err "chunk_size must be > 0"
  else Ok ().

(** [None] is a panic of a constructor. *)
Definition build_scheme (p : HashlineSchemeParams) : option (result string AnchorScheme) :=
  match params_validate p with
  | Err e => Some (Err e)
  | Ok _ =>
      Ok <$> (if bool_decide (scheme p = "content_only") then ContentOnly_with_hash_len (cfg_hash_len p)
              else ChunkFingerprint_with_params (cfg_hash_len p) (chunk_size p))
  end.

(** The field that [validate_params_value] reports for an invalid value, read
    off the message. *)
Definition reported_field (p : HashlineSchemeParams) : option (option string) :=
  match params_validate p with
  | Ok _ => None
  | Err message =>
      Some (if contains "unknown scheme" message then Some "scheme"
            else if contains "hash_len" message then Some "hash_len"
            else if contains "chunk_size" message then Some "chunk_size"
            else None)
  end.

End SchemeConfig.

(** * Facts about hashes *)

Lemma hash_letter_lower h i : is_ascii_lower (hash_letter h i) = true.
Proof.
  unfold hash_letter, is_ascii_lower, byte_in.
  set (x := N.shiftr h (N.of_nat (i * 8))).
  assert (Hlt : (x mod 26 < 26)%N) by (by apply N.mod_lt). generalize dependent (x mod 26)%N. intros y Hlt.
  rewrite Ascii.N_ascii_embedding by lia. apply andb_true_intro.
  split; apply bool_decide_eq_true; lia.
Qed.

Lemma encode_hash_lower h n : bytes_all is_ascii_lower (encode_hash h n) = true.
Proof.
  unfold encode_hash. generalize (seq 0 n) as l. induction l as [|i l IH]; [done|].
  simpl. by rewrite hash_letter_lower, IH.
Qed.

Lemma encode_hash_is_hash h n : 0 < n → is_hash (encode_hash h n) = true.
Proof.
  intros Hn. unfold is_hash. rewrite encode_hash_lower. by destruct n as [|n]; [lia|].
Qed.

(** ** Whitespace normalisation *)

Module Export Normalise.

(** Runs of ASCII white space as one space; [prev_ws]: inside a run. *)
Fixpoint collapse (prev_ws : bool) (data : string) : string :=
  match data with
  | "" => ""
  | String b data' =>
      if is_ascii_whitespace b then
        (if prev_ws then "" else " ") +:+ collapse true data'
      else String b (collapse false data')
  end.
Definition normalize (line : string) : string := collapse false (trim line).

End Normalise.

Lemma line_hash_go_collapse h prev data : line_hash_go h prev data = fnv_bytes h (collapse prev data).
Proof.
  revert h prev. induction data as [|b data IH]; intros h prev; [done|].
  cbn [line_hash_go collapse]. destruct (is_ascii_whitespace b); [destruct prev|]; by rewrite IH.
Qed.

Lemma line_hash_normalize line : line_hash line = fnv1a_32 (normalize line).
Proof. apply line_hash_go_collapse. Qed.

(** * Facts about lines *)

Lemma ends_with_newline (u rest : string) :
  contains_byte (byte 10) rest = false →
  ends_with newline (u +:+ newline +:+ rest) = is_empty rest.
Proof.
  intros Hn. unfold ends_with. destruct rest as [|a rest].
  - apply bool_decide_eq_true. exists u. apply strip_suffix_Some. by rewrite app_nil_r_str.
  - apply bool_decide_eq_false. intros [t E%strip_suffix_Some].
    rewrite app_assoc_str in E. apply app_eq_cases in E as [(k & _ & E)|(k & _ & E)].
    + destruct k as [|b k]; rewrite ?app_nil_l_str, ?app_cons_str in E; injection E as <- E.
      * by rewrite contains_byte_cons in Hn.
      * symmetry in E. by apply app_str_eq_nil in E as [_ ?].
    + rewrite E, contains_byte_app in Hn. by rewrite orb_true_r in Hn.
Qed.

(** A file is split at its newlines; every line but the last loses the carriage
    return of its line end. *)
Lemma split_lines_pieces content :
  ∃ ended rest, split_on (byte 10) content = ended ++ [rest] ∧
    split_lines content = (strip_cr <$> ended) ++ [rest].
Proof.
  pose proof (split_on_pieces (byte 10) content) as Hp.
  pose proof (join_split_on (byte 10) content) as Hj.
  pose proof (split_on_ne (byte 10) content) as Hne.
  unfold split_lines, lines.
  destruct (split_on (byte 10) content) as [|rest ended _] using rev_ind; [done|].
  apply Forall_app in Hp as [_ [Hr _]%Forall_cons].
  exists ended, rest. split; [done|]. rewrite reverse_app. simpl. rewrite reverse_involutive.
  destruct (decide (ended = [])) as [->|He].
  - simpl in Hj. subst rest. destruct content as [|a content]; [done|]. simpl.
    destruct (ends_with newline (String a content)) eqn:E; [|done].
    exfalso. apply bool_decide_eq_true in E as [t E%strip_suffix_Some].
    rewrite E in Hr; rewrite contains_byte_app in Hr. by rewrite orb_true_r in Hr.
  - rewrite join_snoc in Hj by done. rewrite <-Hj.
    change (String (byte 10) "" +:+ rest) with (newline +:+ rest).
    rewrite ends_with_newline by done.
    destruct (is_empty (join _ ended +:+ newline +:+ rest)) eqn:E.
    + by destruct (join (String (byte 10) "") ended).
    + destruct rest; [|done]. simpl. by rewrite app_nil_r.
Qed.

(** * What a scheme promises to the tools *)

(** [a] is the anchor that [s] shows for the line of [p], and agrees with [p] on
    everything the scheme shows. *)
Definition shows (s : AnchorScheme) (ls : list string) (p : ParsedAnchor) (a : Anchor) : Prop :=
  generate_anchors s ls !! N.to_nat (p_line p - 1) = Some a ∧
  line a = p_line p ∧ local a = p_local p ∧ (context a = None ∨ context a = p_context p).

(** Line [n] is a place to which the anchor [p] may have moved: another line
    within the radius that shows the letters of [p] and, if both have one, its
    context. *)
Definition near (s : AnchorScheme) (ls : list string) (p : ParsedAnchor) (r n : N) : Prop :=
  (0 < n ∧ n ≠ p_line p ∧ p_line p ≤ n + r ∧ n ≤ p_line p + r)%N ∧
  ∃ a, generate_anchors s ls !! N.to_nat (n - 1) = Some a ∧ local a = p_local p ∧
    (p_context p = None ∨ context a = None ∨ context a = p_context p).

(** The search reports exactly the near lines. *)
Definition reports (res : ShiftResult) (P : N → Prop) : Prop :=
  match res with
  | Found n => ∀ m, P m ↔ m = n
  | Ambiguous ns => 2 ≤ length ns ∧ NoDup ns ∧ ∀ m, P m ↔ m ∈ ns
  | NotFound => ∀ m, ¬ P m
  end.

Class LawfulScheme (s : AnchorScheme) : Prop := {
  scheme_hash_len : hash_len_ok (hash_len s) = true;
  gen_length ls : length (generate_anchors s ls) = length ls;
  gen_line ls i a : generate_anchors s ls !! i = Some a → line a = N.of_nat (i + 1);
  gen_local ls i a : generate_anchors s ls !! i = Some a → is_hash (local a) = true;
  gen_context ls i a c : generate_anchors s ls !! i = Some a → context a = Some c → is_hash c = true;
  validate_iff ls p : p_line p ≠ 0%N → validate s p ls = Valid ↔ ∃ a, shows s ls p a;
  validate_out ls p : p_line p ≠ 0%N → validate s p ls = OutOfRange ↔ (len ls < p_line p)%N;
  shift_exact ls p r : p_line p ≠ 0%N → reports (find_shifted s p ls r) (near s ls p r);
}.

Lemma elem_of_range x a b : x ∈ range a b ↔ (a ≤ x < b)%N.
Proof.
  unfold range. rewrite list_elem_of_fmap. setoid_rewrite elem_of_seq. split.
  - intros (i & -> & ?). lia.
  - intros H. exists (N.to_nat (x - a)). lia.
Qed.

Lemma anchor_idx_pos p : p_line p ≠ 0%N → anchor_idx p = (p_line p - 1)%N.
Proof. intros H. unfold anchor_idx. by rewrite bool_decide_eq_false_2. Qed.

Lemma line_at_lookup ls n l : ls !! n = Some l → line_at ls (N.of_nat n) = l.
Proof. intros H. unfold line_at. by rewrite Nat2N.id, H. Qed.

(** The line an index below the length names. *)
Lemma line_at_in ls idx : (idx < len ls)%N → ls !! N.to_nat idx = Some (line_at ls idx).
Proof.
  unfold len. intros H. destruct (lookup_lt_is_Some_2 ls (N.to_nat idx)) as [l Hl]; [lia|].
  unfold line_at. by rewrite Hl.
Qed.

(** The lines that the shifted-anchor search accepts. *)
Definition candidates (hl : nat) val p ls r : list N :=
  filter (λ idx, shift_candidate hl val p ls (p_line p - 1) idx = true)
         (range (p_line p - 1 - r) (N.min (p_line p - 1 + r + 1) (len ls))).

Lemma find_shifted_found hl val p ls r n :
  find_shifted_generic hl val p ls r = Found n ↔ (λ idx, idx + 1)%N <$> candidates hl val p ls r = [n].
Proof.
  unfold find_shifted_generic, candidates.
  destruct (_ <$> filter _ _) as [|x [|y l]]; naive_solver.
Qed.

Lemma elem_of_candidates hl val p ls r idx :
  idx ∈ candidates hl val p ls r ↔
  shift_candidate hl val p ls (p_line p - 1) idx = true ∧
  (p_line p - 1 ≤ idx + r ∧ idx ≤ p_line p - 1 + r ∧ idx < len ls)%N.
Proof. unfold candidates. rewrite list_elem_of_filter, elem_of_range. naive_solver lia. Qed.

Lemma NoDup_range a b : NoDup (range a b).
Proof. unfold range. apply NoDup_fmap; [intros ???; lia|apply NoDup_seq]. Qed.

Lemma generic_shift_reports hl val p ls r (P : N → Prop) :
  (∀ n, P n ↔ ∃ idx, n = (idx + 1)%N ∧ idx ∈ candidates hl val p ls r) →
  reports (find_shifted_generic hl val p ls r) P.
Proof.
  intros HP. assert (Hin : ∀ n, P n ↔ n ∈ (λ idx, idx + 1)%N <$> candidates hl val p ls r).
  { intros n. rewrite HP, list_elem_of_fmap. done. }
  assert (Hnd : NoDup ((λ idx, idx + 1)%N <$> candidates hl val p ls r)).
  { apply NoDup_fmap; [intros ???; lia|]. apply NoDup_filter, NoDup_range. }
  unfold find_shifted_generic. fold (candidates hl val p ls r).
  destruct (_ <$> candidates hl val p ls r) as [|x [|y l]]; cbn.
  - intros m. rewrite Hin. apply not_elem_of_nil.
  - intros m. by rewrite Hin, list_elem_of_singleton.
  - split_and!; [lia|done|done].
Qed.

(** ** The three schemes *)

Section SchemeLaws.
Context (hl : nat) (Hhl : hash_len_ok hl = true).

(** The candidate test finds the near lines, for any scheme that validates what
    it shows. *)
Lemma scheme_shift_exact nm gen val win ls p r :
  let s := MkScheme nm hl gen val win (find_shifted_generic hl val) in
  p_line p ≠ 0%N →
  (∀ i l, ls !! i = Some l → ∃ a, gen ls !! i = Some a ∧
     line a = N.of_nat (i + 1) ∧ local a = encode_hash (line_hash l) hl) →
  length (gen ls) = length ls →
  (∀ q, p_line q ≠ 0%N → val q ls = Valid ↔ ∃ a, shows s ls q a) →
  reports (find_shifted s p ls r) (near s ls p r).
Proof.
  intros s Hp Hgen Hlen Hval. apply generic_shift_reports. intros n. unfold near. split.
  - intros (Hb & a & Ha & Hl & Hc). exists (n - 1)%N. split; [lia|].
    pose proof (lookup_lt_Some _ _ _ Ha) as Hlt. cbn in Hlt. rewrite Hlen in Hlt.
    apply elem_of_candidates. split; [|unfold len; lia].
    unfold shift_candidate. rewrite bool_decide_eq_false_2 by lia.
    destruct (Hgen (N.to_nat (n - 1)) _ (line_at_in ls (n - 1) ltac:(unfold len; lia))) as (a' & Ha' & Hn & Hl').
    cbn in Ha. simplify_eq. rewrite bool_decide_eq_true_2 by congruence. cbn.
    destruct (p_context p) as [c|] eqn:Ec; [|done]. apply bool_decide_eq_true, Hval; [cbn; lia|].
    exists a. unfold shows. cbn. rewrite N.add_sub. split_and!; [done|lia|congruence|].
    destruct Hc as [?|[?|?]]; [done|by left|right; congruence].
  - intros (idx & -> & [Hc Hb]%elem_of_candidates). unfold shift_candidate in Hc.
    case_bool_decide; [done|]. split; [lia|].
    destruct (Hgen _ _ (line_at_in ls idx ltac:(lia))) as (a & Ha & Hn & Hl).
    exists a. cbn. rewrite N.add_sub. split; [done|].
    case_bool_decide as Heq; [|done]. split; [congruence|]. cbn in Hc.
    destruct (p_context p) as [c|]; [|by left]. right.
    apply bool_decide_eq_true, Hval in Hc as (a' & Ha' & _ & _ & Hctx); [|cbn; lia].
    cbn in Ha', Hctx. rewrite N.add_sub in Ha'. cbn in Ha. by simplify_eq.
Qed.

Lemma hl_pos : 0 < hl.
Proof. unfold hash_len_ok in Hhl. to_prop. done. Qed.

Lemma encoded h : is_hash (encode_hash h hl) = true.
Proof. apply encode_hash_is_hash, hl_pos. Qed.

Section WithContext.
Context (generate : list string → list Anchor) (fingerprint : list string → nat → string).
Context (Hlen : ∀ ls, length (generate ls) = length ls).
Context (Hgen : ∀ ls i l, ls !! i = Some l →
  generate ls !! i = Some (MkAnchor (N.of_nat (i + 1)) (encode_hash (line_hash l) hl) (Some (fingerprint ls i)))).
Context (Hhash : ∀ ls i, is_hash (fingerprint ls i) = true).

Lemma context_scheme_gen ls i a : generate ls !! i = Some a →
  ∃ l, ls !! i = Some l ∧
    a = MkAnchor (N.of_nat (i + 1)) (encode_hash (line_hash l) hl) (Some (fingerprint ls i)).
Proof.
  intros Ha. destruct (lookup_lt_is_Some_2 ls i) as [l Hl].
  { rewrite <-Hlen. by eapply lookup_lt_Some. }
  exists l. split; [done|]. rewrite (Hgen _ _ _ Hl) in Ha. by simplify_eq.
Qed.

Lemma context_scheme_valid nm win sh ls p : p_line p ≠ 0%N →
  validate_with_context hl fingerprint p ls = Valid ↔
  ∃ a, shows (MkScheme nm hl generate (validate_with_context hl fingerprint) win sh) ls p a.
Proof.
  intros Hp. unfold validate_with_context, shows. cbn. rewrite (anchor_idx_pos _ Hp).
  case_bool_decide as Hout.
  { split; [done|]. intros (a & (l & Hl & _)%context_scheme_gen & _).
    apply lookup_lt_Some in Hl. unfold len in Hout. lia. }
  pose proof (Hgen _ _ _ (line_at_in ls (p_line p - 1) ltac:(lia))) as Ha. rewrite Ha.
  replace (N.of_nat (N.to_nat (p_line p - 1) + 1)) with (p_line p) by lia.
  case_bool_decide as Hloc; simpl; [|split; [done|]; intros (a & [= <-] & _ & Hl & _); cbn in *; congruence].
  destruct (p_context p) as [c|] eqn:Ec; [|split; [done|naive_solver]].
  case_bool_decide as Hc; simpl.
  - split; [|done]. intros _. eexists. split_and!; [done|done|done|]. right. cbn. congruence.
  - split; [done|]. intros (a & [= <-] & _ & _ & [?|?]); cbn in *; congruence.
Qed.

Lemma context_scheme_lawful nm win :
  LawfulScheme (MkScheme nm hl generate (validate_with_context hl fingerprint) win
    (find_shifted_generic hl (validate_with_context hl fingerprint))).
Proof.
  split; cbn.
  - done.
  - done.
  - by intros ls i a (l & _ & ->)%context_scheme_gen.
  - intros ls i a (l & _ & ->)%context_scheme_gen. apply encoded.
  - intros ls i a c (l & _ & ->)%context_scheme_gen [= <-]. done.
  - intros ls p. apply context_scheme_valid.
  - intros ls p Hp. unfold validate_with_context. rewrite (anchor_idx_pos _ Hp). split_cases; split; lia || done.
  - intros ls p r Hp. apply scheme_shift_exact; [done| |done|].
    + intros i l Hl. eexists. by split; [apply Hgen|].
    + intros q Hq. by apply context_scheme_valid.
Qed.

End WithContext.

Lemma ContentOnly_gen ls i : ContentOnly_generate hl ls !! i =
  (λ l, MkAnchor (N.of_nat (i + 1)) (encode_hash (line_hash l) hl) None) <$> ls !! i.
Proof. apply list_lookup_imap. Qed.

Lemma ContentOnly_valid nm win sh ls p : p_line p ≠ 0%N →
  ContentOnly_validate hl p ls = Valid ↔
  ∃ a, shows (MkScheme nm hl (ContentOnly_generate hl) (ContentOnly_validate hl) win sh) ls p a.
Proof.
  intros Hp. unfold ContentOnly_validate, shows. cbn. rewrite ContentOnly_gen, (anchor_idx_pos _ Hp).
  case_bool_decide as Hout.
  { split; [done|]. intros (a & (l & Hl%lookup_lt_Some & _)%fmap_Some & _). unfold len in Hout. lia. }
  rewrite line_at_in by lia. cbn.
  replace (N.of_nat (N.to_nat (p_line p - 1) + 1)) with (p_line p) by lia.
  case_bool_decide as Hloc; (split; [|try done]).
  - intros _. eexists. split_and!; [done|done|done|by left].
  - done.
  - intros (a & [= <-] & _ & Hl & _). cbn in Hl. congruence.
Qed.

#[export] Instance ContentOnly_lawful : LawfulScheme (ContentOnly hl).
Proof.
  split; cbn.
  - done.
  - intros ls. apply length_imap.
  - intros ls i a. rewrite ContentOnly_gen. intros (l & _ & ->)%fmap_Some. done.
  - intros ls i a. rewrite ContentOnly_gen. intros (l & _ & ->)%fmap_Some. apply encoded.
  - intros ls i a c. rewrite ContentOnly_gen. by intros (l & _ & ->)%fmap_Some.
  - intros ls p. apply ContentOnly_valid.
  - intros ls p Hp. unfold ContentOnly_validate. rewrite (anchor_idx_pos _ Hp). split_cases; split; lia || done.
  - intros ls p r Hp. apply scheme_shift_exact; [done| |apply length_imap|].
    + intros i l Hl. eexists. by rewrite ContentOnly_gen, Hl.
    + intros q Hq. by apply ContentOnly_valid.
Qed.

Lemma chunk_fps_lookup cs ls i : 0 < cs → i < length ls →
  chunk_fps hl cs ls !! (i / cs) = Some (chunk_fingerprint hl cs ls i).
Proof.
  intros Hcs Hi. unfold chunk_fps. rewrite list_lookup_fmap, lookup_seq_lt; [done|].
  unfold div_ceil. apply Nat.div_lt_upper_bound; [lia|].
  pose proof (Nat.div_mod_eq (length ls + cs - 1) cs) as E.
  pose proof (Nat.mod_upper_bound (length ls + cs - 1) cs ltac:(lia)).
  set (q := (length ls + cs - 1) / cs) in *. set (m := (length ls + cs - 1) mod cs) in *. clearbody q m. nia.
Qed.

Lemma chunk_is_hash cs ls i : is_hash (chunk_fingerprint hl cs ls i) = true.
Proof. apply encoded. Qed.

Lemma ChunkFingerprint_lawful cs : 0 < cs → LawfulScheme (ChunkFingerprint hl cs).
Proof.
  intros Hcs. apply context_scheme_lawful; [| |apply chunk_is_hash].
  - intros ls. apply length_imap.
  - intros ls i l Hl. unfold ChunkFingerprint_generate. rewrite list_lookup_imap, Hl. cbn.
    by rewrite chunk_fps_lookup by (done || by eapply lookup_lt_Some).
Qed.

(** The running chain of candidate C is the fingerprint that its validation
    recomputes: [pre] are the lines already read. *)
Lemma chain_anchors_lookup k pre chain ls j l : 0 < k →
  (length pre mod k ≠ 0 → chain = mix_lines (fnv1a_32 "ckpt") (drop (length pre / k * k) pre)) →
  ls !! j = Some l →
  chain_anchors hl k (length pre) chain ls !! j =
  Some (MkAnchor (N.of_nat (length pre + j + 1)) (encode_hash (line_hash l) hl)
          (Some (checkpoint_fingerprint hl k (pre ++ ls) (length pre + j)))).
Proof.
  intros Hk. revert pre chain j. induction ls as [|x ls IH]; intros pre chain j Hchain Hl; [done|].
  cbn [chain_anchors].
  set (chain' := if bool_decide _ then _ else chain).
  assert (Hle : length pre / k * k ≤ length pre) by (pose proof (Nat.div_mod_eq (length pre) k); lia).
  assert (Hc : chain' = mix_lines (fnv1a_32 "ckpt") (drop (length pre / k * k) pre)).
  { subst chain'. case_bool_decide as Hm; [|by apply Hchain].
    rewrite drop_ge; [done|]. pose proof (Nat.div_mod_eq (length pre) k). lia. }
  assert (Hstep : fnv_step chain' (line_hash x) =
    mix_lines (fnv1a_32 "ckpt") (drop (length pre / k * k) (pre ++ [x]))).
  { rewrite Hc, drop_app_le by done. unfold mix_lines. by rewrite fold_left_app. }
  destruct j as [|j].
  - cbn in Hl. injection Hl as ->. cbn. rewrite Nat.add_0_r. do 3 f_equal.
    unfold checkpoint_fingerprint, slice_lines. rewrite Hstep. f_equal. f_equal.
    rewrite !drop_app_le by done. rewrite take_app_ge by (rewrite length_drop; lia).
    rewrite length_drop. by replace (_ - _ - _) with 1 by lia.
  - cbn. specialize (IH (pre ++ [x]) (fnv_step chain' (line_hash x)) j).
    rewrite length_app, <-app_assoc in IH. cbn in IH.
    replace (length pre + S j) with (length pre + 1 + j) by lia.
    rewrite <-Nat.add_1_r. apply IH; [|done]. intros Hm. rewrite Hstep. f_equal. f_equal. f_equal.
    apply (Nat.div_unique _ _ _ (length pre mod k + 1)).
    + pose proof (Nat.mod_upper_bound (length pre) k ltac:(lia)).
      destruct (decide (length pre mod k + 1 = k)) as [E|]; [|lia].
      exfalso. apply Hm. pose proof (Nat.div_mod_eq (length pre) k).
      replace (length pre + 1) with ((length pre / k + 1) * k) by lia. apply Nat.mod_mul. lia.
    + pose proof (Nat.div_mod_eq (length pre) k). lia.
Qed.

Lemma length_chain_anchors k i chain ls : length (chain_anchors hl k i chain ls) = length ls.
Proof. revert i chain. induction ls as [|x ls IH]; intros i chain; cbn; [done|]. by rewrite IH. Qed.

Lemma CheckpointChain_lawful k : 0 < k → LawfulScheme (CheckpointChain hl k).
Proof.
  intros Hk. apply context_scheme_lawful.
  - intros ls. apply length_chain_anchors.
  - intros ls i l Hl. apply (chain_anchors_lookup k [] (fnv1a_32 "ckpt") ls i l Hk); [|done].
    cbn. intros Hm. exfalso. apply Hm, Nat.Div0.mod_0_l.
  - intros ls i. apply encoded.
Qed.

End SchemeLaws.

(** * Properties *)

Lemma lower_no_colon s : bytes_all is_ascii_lower s = true → contains_byte colon s = false.
Proof.
  unfold contains_byte. induction s as [|a s IH]; [done|]. simpl. intros [Ha Hs]%andb_prop.
  rewrite bytes_any_cons, (IH Hs), orb_false_r. apply bool_decide_eq_false. by intros ->.
Qed.

Lemma is_hash_parts s : is_hash s = true ↔ is_empty s = false ∧ bytes_all is_ascii_lower s = true.
Proof. unfold is_hash. by rewrite andb_true_iff, negb_true_iff. Qed.

Lemma pretty_not_empty (n : N) : is_empty (pretty n) = false.
Proof. pose proof (pretty_N_nonempty n). by destruct (pretty n). Qed.

(** The fields of a rendered anchor are read back. *)
Lemma parse_render p : p_line p ≠ 0%N → (p_line p ≤ u64_max)%N → is_hash (p_local p) = true →
  (∀ c, p_context p = Some c → is_hash c = true) →
  ParsedAnchor_parse (ParsedAnchor_render p) = Some p.
Proof.
  destruct p as [n l c]. cbn. intros H0 Hmax [Hle Hll]%is_hash_parts Hc. unfold ParsedAnchor_parse, ParsedAnchor_render. cbn.
  assert (Hd : contains_byte colon (pretty n) = false) by (by apply digits_no_byte; [apply pretty_N_digits|]).
  destruct c as [c|]; change (":" +:+ ?x) with (String colon x); rewrite split_once_here by done; cbn.
  - change (":" +:+ c) with (String colon c). rewrite split_once_here by (by apply lower_no_colon).
    rewrite pretty_not_empty, Hle, parse_u64_pretty by done. cbn.
    by rewrite bool_decide_eq_false_2, Hll, Hc by done.
  - rewrite split_once_none by (by apply lower_no_colon).
    rewrite pretty_not_empty, Hle, parse_u64_pretty by done. cbn.
    by rewrite bool_decide_eq_false_2, Hll by done.
Qed.

(** What [parse] accepts has a positive line and letter hashes. *)
Lemma parse_wf s p : ParsedAnchor_parse s = Some p →
  p_line p ≠ 0%N ∧ (p_line p ≤ u64_max)%N ∧ is_hash (p_local p) = true ∧
  (∀ c, p_context p = Some c → is_hash c = true).
Proof.
  unfold ParsedAnchor_parse. rewrite bind_Some. intros ([l rest] & _ & H).
  destruct (match split_once colon rest with Some _ => _ | None => _ end) as [loc ctx].
  destruct (is_empty l || is_empty loc) eqn:He; [done|]. apply orb_false_elim in He as [_ He].
  apply bind_Some in H as (n & Hn & H). case_bool_decide as Hz; [done|].
  destruct (bytes_all is_ascii_lower loc) eqn:Hloc; [|done]. simpl in H.
  assert (Hmax : (n ≤ u64_max)%N).
  { unfold parse_u64 in Hn; cbn zeta in Hn. destruct (is_empty (default _ _)); [done|]. apply bind_Some in Hn as (m & _ & Hn).
    case_bool_decide; naive_solver. }
  destruct ctx as [c|]; [destruct (is_hash c) eqn:Hc; simpl in H; [|done]|];
    injection H as <-; cbn; (split_and!; [done|done|by apply is_hash_parts|naive_solver]).
Qed.

(** Every anchor a scheme shows for a file is read back from its printed form
    as itself, and printing a parsed anchor gives an anchor with the same
    meaning. *)
Theorem anchor_string_roundtrip s `{!LawfulScheme s} ls i a :
  (len ls ≤ u64_max)%N → generate_anchors s ls !! i = Some a →
  ParsedAnchor_parse (Anchor_render a) = Some (as_parsed a) ∧
  ∀ text p, ParsedAnchor_parse text = Some p → ParsedAnchor_parse (ParsedAnchor_render p) = Some p.
Proof.
  intros Hlen Ha. split.
  - change (Anchor_render a) with (ParsedAnchor_render (as_parsed a)).
    pose proof (gen_line _ _ _ Ha). apply lookup_lt_Some in Ha as Hi. rewrite gen_length in Hi.
    unfold len in Hlen. apply parse_render; cbn; [lia|lia|by eapply gen_local|].
    intros c. by eapply gen_context.
  - intros text p Hp. apply parse_wf in Hp. by apply parse_render; naive_solver.
Qed.

Lemma is_ascii_whitespace_spec a : is_ascii_whitespace a = true →
  is_whitespace (String a "") = true ∧ is_continuation a = false.
Proof. destruct a as [[] [] [] [] [] [] [] []]; vm_compute; done. Qed.

Lemma chars_spaces ws : bytes_all is_ascii_whitespace ws = true →
  Forall (λ c, is_whitespace c = true) (chars ws).
Proof.
  induction ws as [|a ws IH]; [done|]. cbn [bytes_all]. intros [Ha Hws]%andb_prop.
  apply is_ascii_whitespace_spec in Ha as [Ha _]. specialize (IH Hws). cbn [chars].
  destruct ws as [|b ws]; [by constructor|].
  cbn [bytes_all] in Hws. apply andb_prop in Hws as [[_ Hb]%is_ascii_whitespace_spec _].
  destruct (chars_first b ws) as (c & cs & E). rewrite E in *. simpl. rewrite Hb. by constructor.
Qed.

Lemma chars_app_spaces s ws : bytes_all is_ascii_whitespace ws = true → chars (s +:+ ws) = chars s ++ chars ws.
Proof.
  destruct ws as [|a ws]; [by rewrite app_nil_r_str, app_nil_r|].
  cbn [bytes_all]. intros [[_ Ha]%is_ascii_whitespace_spec _]%andb_prop. by apply chars_app_start.
Qed.

Lemma chars_spaces_app ws s : starts_with_continuation s = false → chars (ws +:+ s) = chars ws ++ chars s.
Proof.
  destruct s as [|a s]; [by rewrite app_nil_r_str, app_nil_r|]. intros Ha. by apply chars_app_start.
Qed.

(** The hash of a line is the FNV-1a hash of its normal form, in which the
    ends are trimmed and every run of white space is one space; so changing the
    indentation and the trailing white space of a line keeps its hash. *)
Theorem line_hash_ignores_layout before text after :
  bytes_all is_ascii_whitespace before = true → bytes_all is_ascii_whitespace after = true →
  starts_with_continuation text = false →
  line_hash text = fnv1a_32 (normalize text) ∧
  normalize (before +:+ text +:+ after) = normalize text ∧
  line_hash (before +:+ text +:+ after) = line_hash text.
Proof.
  intros Hb Ha Ht.
  assert (Hn : normalize (before +:+ text +:+ after) = normalize text).
  { unfold normalize. f_equal. unfold trim, trim_by. do 2 f_equal.
    destruct (decide (text = "")) as [->|Hne].
    - rewrite app_nil_l_str, chars_app_spaces by done.
      apply (drop_both_ends _ _ []); by apply chars_spaces.
    - rewrite chars_spaces_app by (by destruct text). rewrite (chars_app_spaces text) by done.
      apply drop_both_ends; by apply chars_spaces. }
  split; [apply line_hash_normalize|]. split; [done|]. by rewrite !line_hash_normalize, Hn.
Qed.

(** ** Built schemes *)

Lemma hash_len_ok_spec n : hash_len_ok n = true ↔ 0 < n ≤ 4.
Proof. unfold hash_len_ok. rewrite andb_true_iff, !bool_decide_eq_true. done. Qed.

Lemma built_scheme_lawful hl n s :
  ContentOnly_with_hash_len hl = Some s ∨ ChunkFingerprint_with_params hl n = Some s ∨
  CheckpointChain_with_params hl n = Some s → LawfulScheme s.
Proof.
  unfold ContentOnly_with_hash_len, ChunkFingerprint_with_params, CheckpointChain_with_params.
  destruct (hash_len_ok hl) eqn:Hhl; simpl; [|naive_solver].
  case_bool_decide as Hn; intros [H|[H|H]]; simplify_eq.
  - by apply ContentOnly_lawful.
  - by apply ChunkFingerprint_lawful.
  - by apply CheckpointChain_lawful.
  - by apply ContentOnly_lawful.
Qed.

(** A scheme that a constructor accepts validates an anchor exactly when it
    is the anchor the scheme shows for that line of the file as it is now: same
    letters and, for the schemes with a context, the same context. The
    precomputed fingerprints of the generator and the ones the validation
    recomputes never disagree. *)
Theorem validation_is_exact hl n s ls p :
  ContentOnly_with_hash_len hl = Some s ∨ ChunkFingerprint_with_params hl n = Some s ∨
  CheckpointChain_with_params hl n = Some s → p_line p ≠ 0%N →
  (validate s p ls = Valid ↔ ∃ a, generate_anchors s ls !! N.to_nat (p_line p - 1) = Some a ∧
     line a = p_line p ∧ local a = p_local p ∧ (context a = None ∨ context a = p_context p)) ∧
  (validate s p ls = OutOfRange ↔ (len ls < p_line p)%N).
Proof.
  intros Hs%built_scheme_lawful Hp. split; [by apply validate_iff|by apply validate_out].
Qed.

Definition sample_lines : list string := ["fn main() {"; "    let x = 1;"; "}"; ""; "// end"].

Lemma validation_is_exact_witness :
  ∃ a, generate_anchors (CheckpointChain 3 2) sample_lines !! 3 = Some a ∧
    line a = 4%N ∧ local a = "ddg" ∧ (context a = None ∨ context a = Some "kih").
Proof.
  apply (validation_is_exact 3 2 (CheckpointChain 3 2) sample_lines (MkParsed 4 "ddg" (Some "kih"))
           ltac:(right; right; reflexivity) ltac:(done)).
  vm_compute. reflexivity.
Defined.

(** The search for a shifted anchor reports every line within the radius, other
    than the original one, that shows the anchor's letters (and context): the
    single one, all of them if there are several, or none. *)
Theorem shift_search_exact hl n s ls p r :
  ContentOnly_with_hash_len hl = Some s ∨ ChunkFingerprint_with_params hl n = Some s ∨
  CheckpointChain_with_params hl n = Some s → p_line p ≠ 0%N →
  match find_shifted s p ls r with
  | Found m => ∀ k, near s ls p r k ↔ k = m
  | Ambiguous ms => 2 ≤ length ms ∧ NoDup ms ∧ ∀ k, near s ls p r k ↔ k ∈ ms
  | NotFound => ∀ k, ¬ near s ls p r k
  end.
Proof. intros Hs%built_scheme_lawful Hp. by apply shift_exact. Qed.

Lemma shift_search_exact_witness :
  near (ContentOnly 3) ("// new" :: sample_lines) (MkParsed 2 "rsj" None) 15 3.
Proof.
  pose proof (shift_search_exact 3 0 (ContentOnly 3) ("// new" :: sample_lines) (MkParsed 2 "rsj" None) 15
    (or_introl eq_refl) ltac:(done)) as H.
  assert (E : find_shifted (ContentOnly 3) (MkParsed 2 "rsj" None) ("// new" :: sample_lines) 15 = Found 3)
    by (vm_compute; reflexivity).
  rewrite E in H. by apply H.
Defined.

(** ** Freshness *)

Lemma slice_window start n ls :
  slice_lines start ((start + n) `min` length ls) ls = take n (drop start ls).
Proof.
  unfold slice_lines. destruct (decide (start + n ≤ length ls)).
  - rewrite Nat.min_l by done. f_equal. lia.
  - rewrite Nat.min_r by lia. rewrite !take_ge; [done|rewrite length_drop; lia..].
Qed.

Lemma window_ext start n (ls ls' : list string) :
  (∀ j, start ≤ j < start + n → ls !! j = ls' !! j) → take n (drop start ls) = take n (drop start ls').
Proof.
  intros H. apply list_eq. intros k. destruct (decide (k < n)).
  - rewrite !lookup_take_lt, !lookup_drop by done. apply H. lia.
  - by rewrite !lookup_take_ge by lia.
Qed.

Lemma same_block i j n : 0 < n → i / n * n ≤ j < i / n * n + n → j / n = i / n.
Proof. intros Hn Hj. symmetry. apply (Nat.div_unique _ _ _ (j - i / n * n)); lia. Qed.

Lemma block_of i n : 0 < n → i / n * n ≤ i < i / n * n + n.
Proof.
  intros Hn. pose proof (Nat.div_mod_eq i n). pose proof (Nat.mod_upper_bound i n ltac:(lia)). lia.
Qed.

Lemma len_le ls k : (len ls ≤ k)%N ↔ ls !! N.to_nat k = None.
Proof. rewrite lookup_ge_None. unfold len. lia. Qed.

(** Two files with the same line at [i] agree on whether [i] is in range and on
    the hash of the line. *)
Lemma context_scheme_window hl fp p ls ls' :
  let i := N.to_nat (p_line p - 1) in
  p_line p ≠ 0%N → ls !! i = ls' !! i → fp ls i = fp ls' i →
  validate_with_context hl fp p ls = validate_with_context hl fp p ls'.
Proof.
  intros i Hp Hi Hf. unfold validate_with_context, line_at. rewrite (anchor_idx_pos _ Hp).
  fold i. rewrite Hi, Hf. assert (Hr : (len ls ≤ p_line p - 1 ↔ len ls' ≤ p_line p - 1)%N).
  { rewrite !len_le. fold i. by rewrite Hi. }
  by rewrite (bool_decide_ext _ _ Hr).
Qed.

(** An anchor goes stale only through changes in the lines its scheme covers.
    Files that agree on the anchored line (content only), on its chunk, or on
    the lines from its checkpoint up to it, give the same verdict, whatever
    happens elsewhere. *)
Theorem validation_reads_window hl n p ls ls' (i := N.to_nat (p_line p - 1)) :
  p_line p ≠ 0%N → 0 < n →
  (ls !! i = ls' !! i → validate (ContentOnly hl) p ls = validate (ContentOnly hl) p ls') ∧
  ((∀ j, j / n = i / n → ls !! j = ls' !! j) →
     validate (ChunkFingerprint hl n) p ls = validate (ChunkFingerprint hl n) p ls') ∧
  ((∀ j, j / n = i / n → j ≤ i → ls !! j = ls' !! j) →
     validate (CheckpointChain hl n) p ls = validate (CheckpointChain hl n) p ls').
Proof.
  intros Hp Hn. pose proof (block_of i n Hn) as Hi. split_and!; intros Hw.
  - cbn. unfold ContentOnly_validate, line_at. rewrite (anchor_idx_pos _ Hp). fold i. rewrite Hw.
    assert (Hr : (len ls ≤ p_line p - 1 ↔ len ls' ≤ p_line p - 1)%N) by (rewrite !len_le; fold i; by rewrite Hw).
    by rewrite (bool_decide_ext _ _ Hr).
  - apply context_scheme_window; [done|by apply Hw|]. fold i. unfold chunk_fingerprint.
    rewrite !slice_window. do 2 f_equal. apply window_ext.
    intros j Hj. by apply Hw, same_block.
  - apply context_scheme_window; [done|by apply Hw|]. fold i. unfold checkpoint_fingerprint, slice_lines.
    do 2 f_equal. apply window_ext.
    intros j Hj. apply Hw; [apply same_block; lia|lia].
Qed.

(** The last line of a file of 20 lines, after the first one has changed. *)
Definition twenty (first : string) : list string := first :: replicate 18 "x" ++ ["last"].

Lemma validation_reads_window_witness :
  validate (ChunkFingerprint 3 16) (MkParsed 20 "abc" (Some "rst")) (twenty "old") =
  validate (ChunkFingerprint 3 16) (MkParsed 20 "abc" (Some "rst")) (twenty "new").
Proof.
  apply (validation_reads_window 3 16 (MkParsed 20 "abc" (Some "rst")) (twenty "old") (twenty "new")
           ltac:(done) ltac:(lia)).
  intros [|j] Hj; [vm_compute in Hj; discriminate|reflexivity].
Defined.

Lemma contains_first c p s : contains_byte c s = false → contains (String c p) s = false.
Proof.
  induction s as [|a s IH]; [done|]. rewrite contains_byte_cons. intros [Ha Hs]%orb_false_elim.
  rewrite contains_cons, starts_with_cons, (IH Hs). apply bool_decide_eq_false in Ha.
  by rewrite bool_decide_eq_false_2 by congruence.
Qed.

Lemma message_field p : reported_field p =
  if negb (bool_decide (scheme p ∈ ["chunk"; "content_only"])) then Some (Some "scheme")
  else if bool_decide (cfg_hash_len p = 0) || bool_decide (4 < cfg_hash_len p) then Some (Some "hash_len")
  else if bool_decide (scheme p = "chunk") && bool_decide (chunk_size p = 0) then Some (Some "chunk_size")
  else None.
Proof.
  unfold reported_field, params_validate.
  destruct (negb _); [by rewrite (contains_app_l _ "unknown scheme ")|].
  destruct (_ || _).
  - set (d := pretty (N.of_nat (cfg_hash_len p))).
    assert (E : contains "unknown scheme" ("hash_len must be 1..=4, got " +:+ d) = contains "unknown scheme" d)
      by reflexivity.
    rewrite E, contains_first by (apply digits_no_byte; [apply pretty_N_digits|done]).
    by rewrite (contains_app_l _ "hash_len must be 1..=4, got ").
  - by destruct (_ && _).
Qed.

Lemma build_scheme_lawful p s : build_scheme p = Some (Ok s) → LawfulScheme s.
Proof.
  unfold build_scheme. destruct (params_validate p) as [u|e]; [|done]. intros H.
  apply (built_scheme_lawful (cfg_hash_len p) (chunk_size p)). case_bool_decide;
    apply fmap_Some in H as (s' & H & [= ->]); eauto.
Qed.

Lemma build_scheme_no_panic p : is_Some (build_scheme p).
Proof.
  unfold build_scheme, params_validate.
  case_bool_decide as Hs; cbn [negb]; [|by eexists].
  case_bool_decide as H0; cbn [orb]; [by eexists|]. case_bool_decide as H4; [by eexists|].
  assert (Hh : hash_len_ok (cfg_hash_len p) = true) by (apply hash_len_ok_spec; lia).
  unfold ContentOnly_with_hash_len, ChunkFingerprint_with_params. rewrite Hh.
  case_bool_decide as Hc; cbn [andb].
  - case_bool_decide as Hz; [by eexists|].
    rewrite Hc, bool_decide_eq_false_2, bool_decide_eq_true_2 by (done || lia). by eexists.
  - rewrite bool_decide_eq_true_2 by set_solver. by eexists.
Qed.

(** Building the configured scheme never panics. It fails exactly on an unknown
    scheme name, a hash length outside 1 to 4, or an empty chunk; the report names
    a field exactly when it fails, and what it builds keeps the promises of a
    scheme. *)
Theorem build_scheme_total p : ∃ res, build_scheme p = Some res ∧
  (∀ s, res = Ok s → LawfulScheme s ∧ hash_len s = cfg_hash_len p) ∧
  match reported_field p with
  | Some field => (∃ e, res = Err e) ∧ field ∈ Some <$> ["scheme"; "hash_len"; "chunk_size"]
  | None => (∃ s, res = Ok s) ∧ 0 < cfg_hash_len p ≤ 4 ∧
      (scheme p = "content_only" ∨ scheme p = "chunk" ∧ 0 < chunk_size p)
  end.
Proof.
  rewrite message_field. unfold build_scheme, params_validate.
  case_bool_decide as Hs; cbn [negb]; [|by eexists; split_and!; [done|done|eauto|by_compute]].
  case_bool_decide as H0; cbn [orb]; [by eexists; split_and!; [done|done|eauto|by_compute]|].
  case_bool_decide as H4; [by eexists; split_and!; [done|done|eauto|by_compute]|].
  assert (Hh : hash_len_ok (cfg_hash_len p) = true) by (apply hash_len_ok_spec; lia).
  unfold ContentOnly_with_hash_len, ChunkFingerprint_with_params. rewrite Hh.
  case_bool_decide as Hc; cbn [andb].
  - case_bool_decide as Hz; [by eexists; split_and!; [done|done|eauto|by_compute]|].
    rewrite Hc, bool_decide_eq_false_2, bool_decide_eq_true_2 by (done || lia). cbn.
    eexists; split; [done|]. split.
    + intros s [= <-]. split; [apply ChunkFingerprint_lawful; [done|lia]|done].
    + split_and!; [eauto|lia|lia|]. right. split; [done|lia].
  - assert (Hs' : scheme p = "content_only") by set_solver.
    rewrite bool_decide_eq_true_2 by done. cbn. eexists; split; [done|]. split.
    + intros s [= <-]. split; [by apply ContentOnly_lawful|done].
    + split_and!; [eauto|lia|lia|by left].
Qed.
