(* ===== verification/HashlineEdit.v ===== *)
(** Anchor-based editing (crate [ainxt-tools],
    [implementations/ainxt_build_hashline]): the anchored view of a file
    ([read_file.rs]), the edit operations and errors ([edit/types.rs]), the
    range warnings ([edit/range_policy.rs]) and the application of a batch of
    edits ([edit/apply.rs]). A computation that may panic returns an [option]
    whose [None] is the panic. *)
From stdpp Require Import list.
From S2P Require Import Prelude RustStr StrSearch HashScheme.

(** * The anchored view *)

Module Export View.

Definition anchor_suffix (a : Anchor) : string :=
  match context a with Some ctx => local a +:+ ":" +:+ ctx | None => local a end.

Definition render_anchored_line (a : Anchor) (content : string) : string :=
  pretty (line a) +:+ ":" +:+ anchor_suffix a +:+ arrow +:+ content.

(** The lines shown, with their 0-based indices. *)
Definition shown_window (offset limit : option nat) (all_lines : list string) : list (nat * string) :=
  let skip := default 1 offset - 1 in
  let window := drop skip (imap pair all_lines) in
  match limit with Some n => take n window | None => window end.

Definition format_hashline_content (file_content : string) (offset limit : option nat)
    (s : AnchorScheme) : option (string * string) :=
  let all_lines := split_lines file_content in
  let anchors := generate_anchors s all_lines in
  let window := shown_window offset limit all_lines in
  output ← mapM (λ '(i, line),
             a ← anchors !! i;
             Some (show_nat (i + 1) +:+ ":" +:+ anchor_suffix a +:+ arrow +:+ line)) window;
  Some (join newline output, join newline window.*2).

End View.

(** * Operations, errors and warnings *)

Module Export EditTypes.

Inductive HashlineOp : Type :=
| Replace (anchor : string) (end_anchor : option string) (content : string)
| InsertAfter (anchor content : string)
| Write (content : string).

Inductive HashlineEditErrorKind : Type :=
| AnchorStale | AmbiguousAnchor | AnchorNotFound | FileNotFound | OverlappingEdits | InvalidInput | IoError.
#[export] Instance HashlineEditErrorKind_eq_dec : EqDecision HashlineEditErrorKind.
Proof. solve_decision. Defined.

Record HashlineEditError : Type := MkError {
  error : HashlineEditErrorKind;
  message : string;
  requested_anchor : option string;
  current : option string;
  err_context : option string;
  context_start_line : option nat;
  shifted_to : option N;
  shifted_anchor : option string;
  ambiguous_candidates : list N;
}.

(** An error without a place in the file. *)
Definition plain_error (kind : HashlineEditErrorKind) (msg : string) (requested : option string) : HashlineEditError :=
  MkError kind msg requested None None None None None [].

Record HashlineEditsApplied : Type := MkApplied {
  applied : nat;
  applied_scheme : string;
  snippet_start_line : nat;
  snippet : string;
  absolute_path : string;
  warnings : list string;
}.

Inductive HashlineEditOutput : Type :=
| EditsApplied (r : HashlineEditsApplied)
| EditError (e : HashlineEditError).

(** [range_policy.rs] *)
Inductive RangeSize : Type := Small | Medium | Large.
Definition RangeSize_classify (line_count : nat) : RangeSize :=
  if bool_decide (line_count ≤ 5) then Small
  else if bool_decide (line_count ≤ 20) then Medium else Large.

Definition range_warning (start end_ : nat) : option string :=
  let count := end_ - start in
  match RangeSize_classify count with
  | Large => Some ("Caution: large range edit (" +:+ show_nat count +:+ " lines, lines " +:+
                   show_nat (start + 1) +:+ "-" +:+ show_nat end_ +:+ "). Verify the target range is correct.")
  | Medium => Some ("Note: medium range edit (" +:+ show_nat count +:+ " lines, lines " +:+
                    show_nat (start + 1) +:+ "-" +:+ show_nat end_ +:+ ").")
  | Small => None
  end.

End EditTypes.

(** * Content copied from the anchored view *)

Module Export Pasted.

(** The part of a line before a separator looks like an anchor. *)
Definition anchor_before (sep s : string) : bool :=
  match split_once_str sep s with
  | Some (before, _) =>
      bool_decide (String.length before ≤ 25) && contains_byte colon before &&
      negb (contains_byte " "%char before)
  | None => false
  end.
Definition has_anchor_prefix (line : string) : bool :=
  let s := trim_start line in anchor_before arrow s || anchor_before "->" s.

Fixpoint detect_from (idx : nat) (ls : list string) : option nat :=
  match ls with
  | [] => None
  | line :: rest => if has_anchor_prefix line then Some (idx + 1) else detect_from (S idx) rest
  end.
Definition detect_anchor_prefix_in_content (content : string) : option nat :=
  detect_from 0 (lines content).

Definition anchor_content_error (op_label content : string) (line_num : nat) : HashlineEditError :=
  let offending_line := default "" (lines content !! (line_num - 1)) in
  let ls := lines content in
  let ctx_start := line_num - 1 - 1 in
  let ctx_end := (line_num + 1) `min` length ls in
  let ctx := join newline
    ((λ i, (if bool_decide (i + 1 = line_num) then ">>>" else "   ") +:+ " line " +:+ show_nat (i + 1) +:+
           ": " +:+ default "" (ls !! i)) <$> seq ctx_start (ctx_end - ctx_start)) in
  MkError InvalidInput
    (op_label +:+ " content contains anchor prefixes (e.g. " +:+ quote_str +:+ "22:abc:rst" +:+ arrow +:+
     quote_str +:+ ") copied from hashline_read output. The first offending line is line " +:+
     show_nat line_num +:+ ". Strip the anchor prefixes and the " +:+ arrow +:+
     " separator from every line, keeping only the actual file content, then retry.")
    None (Some offending_line) (Some ctx) (Some (ctx_start + 1)) None None [].

End Pasted.

(** * Resolving one operation *)

Module Export Resolve.

(** A fallible computation that may also panic. *)
Definition outcome (A : Type) : Type := option (result HashlineEditError A).
Definition and_then {A B} (m : outcome A) (f : A → outcome B) : outcome B :=
  match m with None => None | Some (Err e) => Some (Err e) | Some (Ok a) => f a end.

Record ResolvedOp : Type := MkOp {
  original_idx : nat;
  start : nat;
  end_ : nat;
  new_lines : list string;
}.

Definition anchor_format_hint (s : AnchorScheme) : string * string :=
  let n := (hash_len s `max` 1) `min` 4 in
  let hash := str_take n "abcd" in
  let has_context :=
    match head (generate_anchors s ["x"]) with
    | Some a => bool_decide (is_Some (context a))
    | None => false
    end in
  if has_context then ("LINE:HASH1:HASH2", "22:" +:+ hash +:+ ":" +:+ str_take n "rstu")
  else ("LINE:HASH", "22:" +:+ hash).

(** Does the bare suffix [suffix] name the anchor [a]? *)
Definition suffix_matches (suffix : string) (a : Anchor) : bool :=
  match context a, split_once colon suffix with
  | Some ctx, Some (loc, sfx_ctx) => bool_decide (local a = loc) && bool_decide (ctx = sfx_ctx)
  | None, None => bool_decide (local a = suffix)
  | _, _ => false
  end.

Definition recover_anchor_by_suffix (suffix : string) (ls : list string) (s : AnchorScheme) : option ParsedAnchor :=
  match filter (λ a, suffix_matches suffix a = true) (generate_anchors s ls) with
  | [a] => Some (as_parsed a)
  | _ => None
  end.

(** The anchor without the arrow and the line content copied after it. *)
Definition strip_arrow (anchor_str : string) : string :=
  match split_once_str arrow anchor_str with
  | Some (pre, _) => pre
  | None => match split_once_str "->" anchor_str with Some (pre, _) => pre | None => anchor_str end
  end.

Definition malformed_error (anchor_str : string) (s : AnchorScheme) : HashlineEditError :=
  let '(fmt, ex) := anchor_format_hint s in
  plain_error InvalidInput
    ("Malformed anchor: " +:+ quote_str +:+ anchor_str +:+ quote_str +:+ ". Expected format: " +:+ quote_str +:+
     fmt +:+ quote_str +:+ " (e.g. " +:+ quote_str +:+ ex +:+ quote_str +:+ ").") (Some anchor_str).

(** [lines[i]] under its fresh anchor. *)
Definition render_line (anchors : list Anchor) (ls : list string) (i : nat) : option string :=
  a ← anchors !! i; l ← ls !! i; Some (render_anchored_line a l).

Definition recovery_ctx : nat := 5.

(** The error of a stale anchor, with fresh anchors around its line. *)
Definition stale_error (anchor_str : string) (p : ParsedAnchor) (ls : list string) (s : AnchorScheme) :
    option HashlineEditError :=
  let shift := find_shifted s p ls DEFAULT_SEARCH_RADIUS in
  let anchors := generate_anchors s ls in
  let n := N.to_nat (p_line p) in
  let ctx_start := n - 1 - recovery_ctx in
  let ctx_end := (n + recovery_ctx) `min` length ls in
  ctx ← mapM (render_line anchors ls) (seq ctx_start (ctx_end - ctx_start));
  let idx := n - 1 in
  current ← (if bool_decide (idx < length ls) then Some <$> render_line anchors ls idx else Some None);
  let at_line := "Anchor stale at line " +:+ show_nat n +:+ ". " in
  '(to, fresh, cands, kind, msg) ←
    match shift with
    | Found new_line =>
        a ← anchors !! (N.to_nat new_line - 1);
        let fresh := pretty new_line +:+ ":" +:+ anchor_suffix a in
        Some (Some new_line, Some fresh, [], AnchorStale,
              at_line +:+ "Content appears to have shifted to line " +:+ pretty new_line +:+
              ". Retry with anchor " +:+ quote_str +:+ fresh +:+ quote_str +:+ ".")
    | Ambiguous candidates =>
        Some (None, None, candidates, AmbiguousAnchor,
              at_line +:+ "Multiple candidates at lines [" +:+ join ", " (pretty <$> candidates) +:+
              "]. Use the fresh anchors from the context below to retry your edit.")
    | NotFound =>
        Some (None, None, [], AnchorStale,
              at_line +:+ "Use the fresh anchors from the context below to retry your edit.")
    end;
  Some (MkError kind msg (Some anchor_str) current (Some (join newline ctx)) (Some (ctx_start + 1)) to fresh cands).

(** The 0-based index of the line an anchor names. *)
Definition validate_anchor (anchor_str : string) (ls : list string) (s : AnchorScheme) : outcome nat :=
  let anchor_str := strip_arrow anchor_str in
  let parsed :=
    match ParsedAnchor_parse anchor_str with
    | Some p => Some p
    | None => recover_anchor_by_suffix anchor_str ls s
    end in
  match parsed with
  | None => Some (Err (malformed_error anchor_str s))
  | Some p =>
      match validate s p ls with
      | Valid => Some (Ok (N.to_nat (p_line p) - 1))
      | OutOfRange =>
          Some (Err (plain_error AnchorNotFound
            ("Line " +:+ pretty (p_line p) +:+ " is out of range (file has " +:+ show_nat (length ls) +:+ " lines).")
            (Some anchor_str)))
      | Stale => Err <$> stale_error anchor_str p ls s
      end
  end.

(** Lines of replacement text; [if_empty] stands for the empty text. *)
Definition content_lines (if_empty : list string) (content : string) : list string :=
  if is_empty content then if_empty else lines content.

Definition eof_position (ls : list string) : nat :=
  let n := length ls in
  if bool_decide (1 < n) && is_empty (default "" (ls !! (n - 1))) then n - 1 else n.

Definition resolve_op (op : HashlineOp) (original_idx : nat) (ls : list string) (s : AnchorScheme) :
    outcome ResolvedOp :=
  match op with
  | Replace anchor end_anchor content =>
      and_then (validate_anchor anchor ls s) (λ start,
      and_then
        (match end_anchor with
         | Some ea =>
             and_then (validate_anchor ea ls s) (λ e,
             if bool_decide (e < start) then
               Some (Err (plain_error InvalidInput
                 ("end_anchor line " +:+ show_nat (e + 1) +:+ " is before start anchor line " +:+
                  show_nat (start + 1) +:+ ".") (Some ea)))
             else Some (Ok (e + 1)))
         | None => Some (Ok (start + 1))
         end) (λ end_,
      match detect_anchor_prefix_in_content content with
      | Some line_num => Some (Err (anchor_content_error "replace" content line_num))
      | None => Some (Ok (MkOp original_idx start end_ (content_lines [] content)))
      end))
  | InsertAfter anchor content =>
      and_then
        (if bool_decide (anchor = "0:") then Some (Ok 0)
         else if bool_decide (anchor = "EOF") then Some (Ok (eof_position ls))
         else and_then (validate_anchor anchor ls s) (λ line, Some (Ok (line + 1)))) (λ insert_at,
      match detect_anchor_prefix_in_content content with
      | Some line_num => Some (Err (anchor_content_error "insert_after" content line_num))
      | None => Some (Ok (MkOp original_idx insert_at insert_at (content_lines [""] content)))
      end)
  | Write _ =>
      Some (Err (plain_error InvalidInput
        ("Write op must be the only operation in a batch. " +:+
         "Either use write alone (to replace the entire file) or use " +:+
         "replace/insert_after ops without write.") None))
  end.

End Resolve.

(** * Overlaps *)

Module Export Overlap.

Definition describe_edit (a_start a_end a_idx : nat) : string :=
  "edit #" +:+ show_nat (a_idx + 1) +:+
  (if bool_decide (a_start = a_end) then " (insertion at line " +:+ show_nat (a_start + 1) +:+ ")"
   else " (lines " +:+ show_nat (a_start + 1) +:+ "-" +:+ show_nat a_end +:+ ")").

Definition overlap_error (a_start a_end a_idx b_start b_end b_idx : nat) : HashlineEditError :=
  plain_error OverlappingEdits
    ("Overlapping edits: " +:+ describe_edit a_start a_end a_idx +:+ " and " +:+ describe_edit b_start b_end b_idx +:+ ".")
    None.

Definition by_start (a b : ResolvedOp) : bool := bool_decide (start a ≤ start b).

(** The first two neighbours that overlap, [windows(2)]. *)
Fixpoint overlapping_neighbours (ranges : list ResolvedOp) : option (ResolvedOp * ResolvedOp) :=
  match ranges with
  | a :: (b :: _) as rest =>
      if bool_decide (start b < end_ a) then Some (a, b) else overlapping_neighbours rest
  | _ => None
  end.

Definition is_insertion (op : ResolvedOp) : bool := bool_decide (start op = end_ op).

(** The first range that an insertion point falls into. *)
Definition range_around (ranges : list ResolvedOp) (insert_at : nat) : option ResolvedOp :=
  head (filter (λ r, start r ≤ insert_at < end_ r) ranges).

Fixpoint insertion_inside (ranges ops : list ResolvedOp) : option (ResolvedOp * ResolvedOp) :=
  match ops with
  | [] => None
  | op :: rest =>
      if negb (is_insertion op) then insertion_inside ranges rest
      else match range_around ranges (start op) with
           | Some r => Some (r, op)
           | None => insertion_inside ranges rest
           end
  end.

Definition check_overlaps (ops : list ResolvedOp) : option HashlineEditError :=
  let ranges := sort_by by_start (filter (λ op, start op ≠ end_ op) ops) in
  match overlapping_neighbours ranges with
  | Some (a, b) => Some (overlap_error (start a) (end_ a) (original_idx a) (start b) (end_ b) (original_idx b))
  | None =>
      match insertion_inside ranges ops with
      | Some (r, op) =>
          Some (overlap_error (start r) (end_ r) (original_idx r) (start op) (start op) (original_idx op))
      | None => None
      end
  end.

End Overlap.

(** * Applying a batch *)

Module Export Apply.

Definition SNIPPET_CONTEXT : nat := 3.
Definition MAX_CONTIGUOUS_SNIPPET : nat := 80.

Record EditRegionDetail : Type := MkDetail {
  old_line : nat;
  old_text : string;
  new_line : nat;
  new_text : string;
}.

Record ApplyResult : Type := MkApply {
  output : HashlineEditOutput;
  new_content : option string;
  edit_details : list EditRegionDetail;
}.

Definition apply_error (e : HashlineEditError) : ApplyResult := MkApply (EditError e) None [].
Definition with_message (e : HashlineEditError) (msg : string) : HashlineEditError :=
  MkError (error e) msg (requested_anchor e) (current e) (err_context e) (context_start_line e)
          (shifted_to e) (shifted_anchor e) (ambiguous_candidates e).

Definition blank : string := newline +:+ newline.

Definition op_name (op : HashlineOp) : string :=
  match op with Replace _ _ _ => "replace" | InsertAfter _ _ => "insert_after" | Write _ => "write" end.

Definition batch_message (idx total : nat) (op : HashlineOp) (msg : string) : string :=
  "Edit " +:+ show_nat (idx + 1) +:+ "/" +:+ show_nat total +:+ " (" +:+ op_name op +:+ "): " +:+ msg +:+ blank +:+
  "This batch contained " +:+ show_nat total +:+ " edits. " +:+
  "Because this anchor failed validation, none of the edits were applied. " +:+
  "Retry all " +:+ show_nat total +:+ " edits with fresh anchors, not just the failed one.".

Definition overlap_message (total : nat) (msg : string) : string :=
  msg +:+ blank +:+ "This batch contained " +:+ show_nat total +:+ " edits. " +:+
  "Because of the overlap, none were applied. Fix the overlapping ranges and retry all edits.".

(** The loop over the operations: the first error stops it. *)
Fixpoint resolve_all (idx total : nat) (ops : list HashlineOp) (ls : list string) (s : AnchorScheme) :
    outcome (list ResolvedOp) :=
  match ops with
  | [] => Some (Ok [])
  | op :: rest =>
      match resolve_op op idx ls s with
      | None => None
      | Some (Err e) =>
          Some (Err (if bool_decide (1 < total) then with_message e (batch_message idx total op (message e)) else e))
      | Some (Ok r) => and_then (resolve_all (S idx) total rest ls s) (λ rs, Some (Ok (r :: rs)))
      end
  end.

(** [lines.splice(start..end, new)]: panics on a range that is not in the list. *)
Definition splice (op : ResolvedOp) (ls : list string) : option (list string) :=
  if bool_decide (start op ≤ end_ op ≤ length ls) then
    Some (take (start op) ls ++ new_lines op ++ drop (end_ op) ls)
  else None.

(** Bottom-up, and for one position the later operation first. *)
Definition bottom_up (a b : ResolvedOp) : bool :=
  bool_decide (start b < start a) ||
  (bool_decide (start a = start b) && bool_decide (original_idx b ≤ original_idx a)).

(** The region and the detail of each operation, top-down; [shift] is the change
    of the number of lines above. *)
Fixpoint regions (ls : list string) (shift : Z) (ops : list ResolvedOp) :
    list ((nat * nat) * EditRegionDetail) :=
  match ops with
  | [] => []
  | op :: rest =>
      let shifted_start := Z.to_nat (Z.of_nat (start op) + shift) in
      let replaced := end_ op - start op in
      let inserted := length (new_lines op) in
      let old := if bool_decide (start op < end_ op)
                 then join newline (slice_lines (start op) (end_ op) ls) else "" in
      ((shifted_start, shifted_start + inserted),
       MkDetail (start op + 1) old (shifted_start + 1) (join newline (new_lines op)))
      :: regions ls (shift + (Z.of_nat inserted - Z.of_nat replaced)) rest
  end.

Definition region_start (a b : nat * nat) : bool := bool_decide (a.1 ≤ b.1).

(** Regions with their context, merged where they touch. *)
Fixpoint merge_regions (total : nat) (merged : list (nat * nat)) (rs : list (nat * nat)) : list (nat * nat) :=
  match rs with
  | [] => reverse merged
  | (s, e) :: rest =>
      let ctx_start := s - SNIPPET_CONTEXT in
      let ctx_end := (e + SNIPPET_CONTEXT) `min` total in
      match merged with
      | (m_start, m_end) :: merged' =>
          if bool_decide (ctx_start ≤ m_end) then merge_regions total ((m_start, m_end `max` ctx_end) :: merged') rest
          else merge_regions total ((ctx_start, ctx_end) :: merged) rest
      | [] => merge_regions total [(ctx_start, ctx_end)] rest
      end
  end.

Definition not_shown (n : nat) : string := "... " +:+ show_nat n +:+ " lines not shown ...".

(** The parts of a snippet with gaps, [i] regions and [prev_end] lines in. *)
Fixpoint snippet_parts (new_content : string) (total : nat) (s : AnchorScheme) (i prev_end : nat)
    (rs : list (nat * nat)) : option (list string) :=
  match rs with
  | [] => Some (if bool_decide (prev_end < total) then [not_shown (total - prev_end)] else [])
  | (b, e) :: rest =>
      n ← usize_sub e b;
      '(region_snippet, _) ← format_hashline_content new_content (Some (b + 1)) (Some n) s;
      parts ← snippet_parts new_content total s (S i) e rest;
      let gap := if bool_decide (0 < i) then [not_shown (b - prev_end)]
                 else if bool_decide (0 < b) then [not_shown b] else [] in
      Some (gap ++ region_snippet :: parts)
  end.

Definition build_snippet (new_content : string) (edit_regions : list (nat * nat)) (total : nat)
    (s : AnchorScheme) : option string :=
  match head edit_regions, last edit_regions with
  | Some first, Some last =>
      let global_start := first.1 - SNIPPET_CONTEXT in
      let global_end := (last.2 + SNIPPET_CONTEXT) `min` total in
      n ← usize_sub global_end global_start;
      if bool_decide (n ≤ MAX_CONTIGUOUS_SNIPPET) then
        fst <$> format_hashline_content new_content (Some (global_start + 1)) (Some n) s
      else join newline <$> snippet_parts new_content total s 0 0 (merge_regions total [] edit_regions)
  | _, _ => Some ""
  end.

Definition build_write_result (new_content file_path : string) (s : AnchorScheme) : option HashlineEditOutput :=
  let total := length (split_lines new_content) in
  let snippet_end := (SNIPPET_CONTEXT * 2) `min` total in
  '(snip, _) ← format_hashline_content new_content (Some 1) (Some snippet_end) s;
  Some (EditsApplied (MkApplied 1 (name s) 1 snip file_path [])).

(** A resolved batch without overlaps. *)
Definition apply_resolved (resolved : list ResolvedOp) (n_ops : nat) (ls : list string) (file_path : string)
    (s : AnchorScheme) : option ApplyResult :=
  let warns := omap (λ op, range_warning (start op) (end_ op)) resolved in
  let resolved := sort_by bottom_up resolved in
  let regs := regions ls 0 (reverse resolved) in
  result_lines ← foldl (λ acc op, acc ≫= splice op) (Some ls) resolved;
  let content := join newline result_lines in
  let total := length (split_lines content) in
  let edit_regions := sort_by region_start regs.*1 in
  snip ← build_snippet content edit_regions total s;
  let start_line := match head edit_regions with Some r => r.1 - SNIPPET_CONTEXT + 1 | None => 1 end in
  Some (MkApply (EditsApplied (MkApplied n_ops (name s) start_line snip file_path warns))
          (Some content) regs.*2).

Definition apply_batch (ls : list string) (ops : list HashlineOp) (file_path : string) (s : AnchorScheme) :
    option ApplyResult :=
  resolved ← resolve_all 0 (length ops) ops ls s;
  match resolved with
  | Err e => Some (apply_error e)
  | Ok resolved =>
      match check_overlaps resolved with
      | Some e =>
          Some (apply_error (if bool_decide (1 < length ops)
                             then with_message e (overlap_message (length ops) (message e)) else e))
      | None => apply_resolved resolved (length ops) ls file_path s
      end
  end.

Definition apply_edits (content : string) (ops : list HashlineOp) (file_path : string) (s : AnchorScheme) :
    option ApplyResult :=
  let ls := split_lines content in
  match ops with
  | [Write text] =>
      match detect_anchor_prefix_in_content text with
      | Some line_num => Some (apply_error (anchor_content_error "write" text line_num))
      | None =>
          out ← build_write_result text file_path s;
          Some (MkApply out (Some text) [])
      end
  | _ => apply_batch ls ops file_path s
  end.

End Apply.

(** * Examples *)

Module EditExamples.

Definition file : string :=
  "fn main() {" +:+ newline +:+ "    let x = 1;" +:+ newline +:+ "}" +:+ newline.

Definition content_of (r : option ApplyResult) : option string := r ≫= new_content.

Example replace_one : content_of (apply_edits file [Replace "2:rsj" None "    let x = 2;"] "f.rs" (ContentOnly 3)) =
  Some ("fn main() {" +:+ newline +:+ "    let x = 2;" +:+ newline +:+ "}" +:+ newline).
Proof. vm_compute. reflexivity. Qed.

End EditExamples.

(** * Anchors sent back by the model *)

Lemma split_once_str_cons p a t : split_once_str p (String a t) =
  match strip_prefix p (String a t) with
  | Some u => Some ("", u)
  | None => '(h, u) ← split_once_str p t; Some (String a h, u)
  end.
Proof. done. Qed.

Lemma strip_prefix_other c p a t : a ≠ c → strip_prefix (String c p) (String a t) = None.
Proof.
  intros H. destruct (strip_prefix _ _) as [u|] eqn:E; [|done].
  apply strip_prefix_Some in E. rewrite app_cons_str in E. congruence.
Qed.

Lemma split_once_str_here c p pre t : contains_byte c pre = false →
  split_once_str (String c p) (pre +:+ String c p +:+ t) = Some (pre, t).
Proof.
  induction pre as [|a pre IH].
  - intros _. change ("" +:+ String c p +:+ t) with (String c (p +:+ t)). rewrite split_once_str_cons.
    by rewrite <-app_cons_str, strip_prefix_app.
  - rewrite contains_byte_cons. intros [Ha Hpre]%orb_false_elim.
    apply bool_decide_eq_false in Ha. rewrite app_cons_str, split_once_str_cons, strip_prefix_other by done.
    by rewrite (IH Hpre).
Qed.

Lemma split_once_str_none c p s : contains_byte c s = false → split_once_str (String c p) s = None.
Proof.
  induction s as [|a s IH]; [done|]. rewrite contains_byte_cons. intros [Ha Hs]%orb_false_elim.
  apply bool_decide_eq_false in Ha. rewrite split_once_str_cons, strip_prefix_other by done.
  by rewrite (IH Hs).
Qed.

(** The bytes of a rendered anchor. *)
Definition anchor_byte (a : ascii) : bool :=
  is_ascii_digit a || is_ascii_lower a || bool_decide (a = colon).

Lemma lower_anchor_bytes h : is_hash h = true → bytes_all anchor_byte h = true.
Proof.
  intros [_ H]%is_hash_parts. revert H. apply bytes_all_impl. intros a Ha. unfold anchor_byte.
  by rewrite Ha, orb_true_r.
Qed.

Section Anchored.
Context (s : AnchorScheme) `{!LawfulScheme s}.

Lemma rendered_bytes ls i a : generate_anchors s ls !! i = Some a →
  bytes_all anchor_byte (Anchor_render a) = true.
Proof.
  intros Ha. assert (Hd : bytes_all anchor_byte (pretty (line a)) = true).
  { apply (bytes_all_impl is_ascii_digit); [|apply pretty_N_digits]. intros b Hb. unfold anchor_byte. by rewrite Hb. }
  pose proof (lower_anchor_bytes _ (gen_local _ _ _ Ha)) as Hl.
  unfold Anchor_render. destruct (context a) as [c|] eqn:Hc; rewrite !bytes_all_app, Hd, Hl; [|done].
  by rewrite (lower_anchor_bytes c) by (by eapply gen_context).
Qed.

Lemma no_byte_outside f c t : bytes_all f t = true → f c = false → contains_byte c t = false.
Proof.
  intros Ht Hc. unfold contains_byte. induction t as [|a t IH]; [done|]. simpl in Ht.
  apply andb_prop in Ht as [Ha Ht]. rewrite bytes_any_cons, (IH Ht), orb_false_r.
  apply bool_decide_eq_false. intros ->. congruence.
Qed.

(** What the model copied after the anchor is dropped. *)
Lemma strip_arrow_rendered ls i a text : generate_anchors s ls !! i = Some a →
  strip_arrow (Anchor_render a) = Anchor_render a ∧
  strip_arrow (Anchor_render a +:+ arrow +:+ text) = Anchor_render a.
Proof.
  intros Hb%rendered_bytes. unfold strip_arrow. split.
  - unfold arrow. cbn [str_of_bytes]. rewrite !split_once_str_none; [done|..]; by eapply no_byte_outside.
  - unfold arrow. cbn [str_of_bytes]. rewrite split_once_str_here by (by eapply no_byte_outside). done.
Qed.

Lemma shown_valid ls i a : (len ls ≤ u64_max)%N → generate_anchors s ls !! i = Some a →
  p_line (as_parsed a) = N.of_nat (i + 1) ∧ validate s (as_parsed a) ls = Valid.
Proof.
  intros Hlen Ha. pose proof (gen_line _ _ _ Ha) as Hl. cbn. split; [done|].
  apply validate_iff; [cbn; lia|]. exists a. unfold shows. cbn. rewrite Hl.
  replace (N.to_nat _) with i by lia. split_and!; [done|done|done|by right].
Qed.

Lemma validate_anchor_shown ls i a text : (len ls ≤ u64_max)%N → generate_anchors s ls !! i = Some a →
  strip_arrow text = Anchor_render a → validate_anchor text ls s = Some (Ok i).
Proof.
  intros Hlen Ha Ht. unfold validate_anchor. rewrite Ht.
  assert (Hparse : ParsedAnchor_parse (Anchor_render a) = Some (as_parsed a)).
  { change (Anchor_render a) with (ParsedAnchor_render (as_parsed a)).
    pose proof (gen_line _ _ _ Ha). apply lookup_lt_Some in Ha as Hi. rewrite gen_length in Hi.
    unfold len in Hlen. apply parse_render; cbn; [lia|lia|by eapply gen_local|].
    intros c. by eapply gen_context. }
  rewrite Hparse. destruct (shown_valid _ _ _ Hlen Ha) as [Hl Hv]. rewrite Hv.
  do 2 f_equal. rewrite Hl. lia.
Qed.

End Anchored.

(** * Resolution never panics and stays in the file *)

Lemma and_then_Ok {A B} (m : outcome A) (f : A → outcome B) b :
  and_then m f = Some (Ok b) ↔ ∃ a, m = Some (Ok a) ∧ f a = Some (Ok b).
Proof. destruct m as [[a|e]|]; naive_solver. Qed.

Lemma and_then_total {A B} (m : outcome A) (f : A → outcome B) :
  is_Some m → (∀ a, m = Some (Ok a) → is_Some (f a)) → is_Some (and_then m f).
Proof. intros [[a|e] ->] Hf; simpl; eauto. Qed.

Section Resolved.
Context (s : AnchorScheme) `{!LawfulScheme s}.

Lemma valid_in_range p ls : p_line p ≠ 0%N → validate s p ls = Valid → N.to_nat (p_line p) - 1 < length ls.
Proof.
  intros Hp (a & Ha%lookup_lt_Some & _)%validate_iff; [|done]. rewrite gen_length in Ha. lia.
Qed.

Lemma render_line_total ls i : i < length ls → is_Some (render_line (generate_anchors s ls) ls i).
Proof.
  intros Hi. unfold render_line. destruct (lookup_lt_is_Some_2 ls i Hi) as [l ->].
  destruct (lookup_lt_is_Some_2 (generate_anchors s ls) i) as [a ->]; [by rewrite gen_length|]. by eexists.
Qed.

Lemma stale_error_total text p ls : p_line p ≠ 0%N → is_Some (stale_error text p ls s).
Proof.
  intros Hp. unfold stale_error. cbv zeta.
  set (window := seq _ _). assert (Hw : is_Some (mapM (render_line (generate_anchors s ls) ls) window)).
  { apply mapM_is_Some_2, Forall_forall. intros i Hi%elem_of_seq. apply render_line_total. lia. }
  destruct Hw as [ctx ->]. cbn [mbind option_bind].
  assert (Hc : is_Some (if bool_decide (N.to_nat (p_line p) - 1 < length ls)
                        then Some <$> render_line (generate_anchors s ls) ls (N.to_nat (p_line p) - 1) else Some None)).
  { case_bool_decide as Hi; [|by eexists]. destruct (render_line_total _ _ Hi) as [r ->]. by eexists. }
  destruct Hc as [cur ->]. cbn [mbind option_bind].
  pose proof (shift_exact ls p DEFAULT_SEARCH_RADIUS Hp) as Hsh.
  destruct (find_shifted s p ls DEFAULT_SEARCH_RADIUS) as [n|ns|]; [|by eexists..].
  cbn in Hsh. destruct (proj2 (Hsh n) eq_refl) as ([Hn _] & a & Ha & _).
  replace (N.to_nat n - 1) with (N.to_nat (n - 1)) by lia. rewrite Ha. by eexists.
Qed.

Lemma recovered_shown text ls p : recover_anchor_by_suffix text ls s = Some p →
  ∃ i a, generate_anchors s ls !! i = Some a ∧ p = as_parsed a.
Proof.
  unfold recover_anchor_by_suffix. destruct (filter _ _) as [|a [|]] eqn:E; [done| |done].
  intros [= <-]. assert (Ha : a ∈ filter (λ a, suffix_matches text a = true) (generate_anchors s ls)) by (rewrite E; by left).
  apply list_elem_of_filter in Ha as [_ [i Hi]%list_elem_of_lookup_1]. eauto.
Qed.

(** What an anchor resolves to: a line of the file whose shown anchor has the
    letters that were sent. *)
Lemma validate_anchor_spec text ls :
  is_Some (validate_anchor text ls s) ∧
  ∀ i, validate_anchor text ls s = Some (Ok i) → i < length ls ∧
    ∃ a p, generate_anchors s ls !! i = Some a ∧ local a = p_local p ∧ (context a = None ∨ context a = p_context p) ∧
      p_line p = N.of_nat (i + 1) ∧
      (ParsedAnchor_parse (strip_arrow text) = Some p ∨ recover_anchor_by_suffix (strip_arrow text) ls s = Some p).
Proof.
  unfold validate_anchor. set (t := strip_arrow text).
  destruct (match ParsedAnchor_parse t with Some p => Some p | None => _ end) as [p|] eqn:Ep; [|by split; [eexists|]].
  assert (Hp : p_line p ≠ 0%N ∧ (ParsedAnchor_parse t = Some p ∨ recover_anchor_by_suffix t ls s = Some p)).
  { destruct (ParsedAnchor_parse t) as [q|] eqn:Eq; simplify_eq.
    - split; [by eapply parse_wf|by left].
    - split; [|by right]. apply recovered_shown in Ep as (i & a & Ha%gen_line & ->). cbn. lia. }
  destruct Hp as [Hp Hfrom]. destruct (validate s p ls) eqn:Ev.
  - split; [by eexists|]. intros i [= <-]. split; [by apply valid_in_range|].
    apply validate_iff in Ev as (a & Ha & Hl & Hloc & Hc); [|done]. exists a, p.
    replace (N.to_nat (p_line p) - 1) with (N.to_nat (p_line p - 1)) by lia. split_and!; [done|done|done|lia|exact Hfrom].
  - destruct (stale_error_total t p ls Hp) as [e ->]. split; [by eexists|done].
  - split; [by eexists|done].
Qed.

Lemma validate_anchor_total text ls : is_Some (validate_anchor text ls s).
Proof. apply validate_anchor_spec. Qed.
Lemma validate_anchor_range text ls i : validate_anchor text ls s = Some (Ok i) → i < length ls.
Proof. intros H. by apply validate_anchor_spec in H as [? _]. Qed.

Lemma resolve_op_total op i ls : is_Some (resolve_op op i ls s).
Proof.
  destruct op as [anchor end_anchor content|anchor content|content]; cbn [resolve_op]; [| |by eexists].
  - apply and_then_total; [apply validate_anchor_total|]. intros st _. apply and_then_total.
    + destruct end_anchor as [ea|]; [|by eexists]. apply and_then_total; [apply validate_anchor_total|].
      intros e _. case_bool_decide; by eexists.
    + intros en _. destruct (detect_anchor_prefix_in_content content); by eexists.
  - apply and_then_total.
    + case_bool_decide; [by eexists|]. case_bool_decide; [by eexists|].
      apply and_then_total; [apply validate_anchor_total|]. intros l _. by eexists.
    + intros p _. destruct (detect_anchor_prefix_in_content content); by eexists.
Qed.

(** A resolved operation lies in the file, and has its place in the batch. *)
Definition in_file (ls : list string) (op : ResolvedOp) : Prop := start op ≤ end_ op ≤ length ls.

Lemma eof_position_le ls : eof_position ls ≤ length ls.
Proof. unfold eof_position. destruct (_ && _); lia. Qed.

Lemma resolve_op_in_file op i ls r : resolve_op op i ls s = Some (Ok r) → in_file ls r ∧ original_idx r = i.
Proof.
  destruct op as [anchor end_anchor content|anchor content|content]; cbn [resolve_op]; [| |done].
  - rewrite and_then_Ok. intros (st & Hst%validate_anchor_range & (en & Hen & Hr)%and_then_Ok).
    destruct (detect_anchor_prefix_in_content content); [done|]. injection Hr as <-.
    split; [|done]. unfold in_file. cbn. destruct end_anchor as [ea|]; [|injection Hen as <-; lia].
    apply and_then_Ok in Hen as (e & He%validate_anchor_range & Hen).
    case_bool_decide; [done|]. injection Hen as <-. lia.
  - rewrite and_then_Ok. intros (p & Hp & Hr).
    destruct (detect_anchor_prefix_in_content content); [done|]. injection Hr as <-.
    split; [|done]. unfold in_file. cbn. split; [done|].
    case_bool_decide; [injection Hp as <-; lia|].
    case_bool_decide; [injection Hp as <-; apply eof_position_le|].
    apply and_then_Ok in Hp as (l & Hl%validate_anchor_range & [= <-]). lia.
Qed.

Lemma resolve_all_total idx total ops ls : is_Some (resolve_all idx total ops ls s).
Proof.
  revert idx. induction ops as [|op ops IH]; intros idx; cbn [resolve_all]; [by eexists|].
  destruct (resolve_op_total op idx ls) as [[r|e] ->]; [|by eexists].
  apply and_then_total; [apply IH|]. intros rs _. by eexists.
Qed.

Lemma resolve_all_Ok idx total ops ls rs : resolve_all idx total ops ls s = Some (Ok rs) →
  Forall (in_file ls) rs ∧ (original_idx <$> rs) = seq idx (length ops) ∧
  ∀ k op, ops !! k = Some op → ∃ r, rs !! k = Some r ∧ resolve_op op (idx + k) ls s = Some (Ok r).
Proof.
  revert idx rs. induction ops as [|op ops IH]; intros idx rs; cbn [resolve_all]; [by intros [= <-]|].
  destruct (resolve_op op idx ls s) as [[r|e]|] eqn:Er; [|done|done].
  intros (rs' & (H1 & H2 & H3)%IH & [= <-])%and_then_Ok. split_and!.
  - constructor; [|done]. by eapply resolve_op_in_file.
  - cbn. rewrite H2. f_equal. by eapply resolve_op_in_file.
  - intros [|k] op' Hk; cbn in *; [simplify_eq; rewrite Nat.add_0_r; eauto|].
    destruct (H3 _ _ Hk) as (r' & ? & ?). exists r'. by rewrite Nat.add_succ_r.
Qed.

End Resolved.

(** * Operations without overlap *)

(** What a batch means: the file is copied from the top, each operation in its
    place putting its lines instead of its range. *)
Module Export Spec.

Fixpoint spec_lines (pos : nat) (ops : list ResolvedOp) (ls : list string) : list string :=
  match ops with
  | [] => drop pos ls
  | op :: rest => slice_lines pos (start op) ls ++ new_lines op ++ spec_lines (end_ op) rest ls
  end.

(** The ranges follow each other from [pos] on and lie in the file. *)
Fixpoint ordered (pos : nat) (ops : list ResolvedOp) (ls : list string) : Prop :=
  match ops with
  | [] => True
  | op :: rest => pos ≤ start op ∧ in_file ls op ∧ ordered (end_ op) rest ls
  end.

(** Top-down, and for one position the earlier operation first. *)
Definition top_down (a b : ResolvedOp) : Prop :=
  start a < start b ∨ start a = start b ∧ original_idx a ≤ original_idx b.

(** No two operations of a batch touch the same lines. *)
Definition apart (ops : list ResolvedOp) : Prop :=
  ∀ a b, a ∈ ops → b ∈ ops → original_idx a ≠ original_idx b → start a ≤ start b → end_ a ≤ start b.

End Spec.

Lemma neighbours_apart l : StronglySorted (λ x y, by_start x y = true) l → overlapping_neighbours l = None →
  StronglySorted (λ a b, end_ a ≤ start b) l.
Proof.
  induction 1 as [|a [|b l] Hl IH Ha]; [constructor|by repeat constructor|].
  cbn [overlapping_neighbours]. case_bool_decide as Hab; [done|]. intros Hn. constructor; [auto|].
  apply Forall_cons. split; [lia|]. apply StronglySorted_inv in Hl as [_ Hb].
  eapply Forall_impl; [exact Hb|]. intros c Hc. apply bool_decide_eq_true in Hc. lia.
Qed.

Lemma by_start_sorted l : StronglySorted (λ x y, by_start x y = true) (sort_by by_start l).
Proof.
  unfold by_start. apply sort_by_sorted.
  - intros x y H. apply bool_decide_eq_false in H. apply bool_decide_eq_true. lia.
  - intros x y z. rewrite !bool_decide_eq_true. lia.
Qed.

Lemma insertion_inside_None ranges ops : insertion_inside ranges ops = None →
  ∀ op r, op ∈ ops → start op = end_ op → r ∈ ranges → start op < start r ∨ end_ r ≤ start op.
Proof.
  induction ops as [|o ops IH]; intros Hn op r Hop He Hr; [by apply not_elem_of_nil in Hop|].
  cbn [insertion_inside] in Hn. apply elem_of_cons in Hop as [->|Hop].
  - unfold is_insertion in Hn. rewrite bool_decide_eq_true_2 in Hn by done. cbn in Hn.
    unfold range_around in Hn. destruct (filter _ ranges) as [|r' l] eqn:E; [|done].
    destruct (decide (start r ≤ start o < end_ r)) as [Hin|]; [|lia].
    assert (Hf : r ∈ filter (λ r, start r ≤ start o < end_ r) ranges) by (by apply list_elem_of_filter).
    rewrite E in Hf. by apply not_elem_of_nil in Hf.
  - apply IH; [|done..]. destruct (negb _); [done|]. by destruct (range_around _ _).
Qed.

(** A batch that passes the overlap check has no overlap at all. *)
Lemma check_overlaps_apart ls ops : Forall (in_file ls) ops → check_overlaps ops = None → apart ops.
Proof.
  intros Hin. unfold check_overlaps. set (ranges := sort_by _ _). cbv zeta.
  destruct (overlapping_neighbours ranges) as [[? ?]|] eqn:En; [done|].
  destruct (insertion_inside ranges ops) as [[? ?]|] eqn:Ei; [done|]. intros _ a b Ha Hb Hne Hab.
  assert (Hr : ∀ r, r ∈ ranges ↔ start r ≠ end_ r ∧ r ∈ ops).
  { intros r. unfold ranges. by rewrite sort_by_Permutation, list_elem_of_filter. }
  rewrite Forall_forall in Hin. pose proof (Hin _ Ha) as [Ha1 _]. pose proof (Hin _ Hb) as [Hb1 _].
  destruct (decide (start a = end_ a)); [lia|]. destruct (decide (start b = end_ b)) as [Hi|Hi].
  - destruct (insertion_inside_None _ _ Ei b a Hb Hi); [by apply Hr|lia|lia].
  - pose proof (neighbours_apart _ (by_start_sorted _) En) as Hs.
    destruct (StronglySorted_related _ _ a b Hs) as [->|[?|?]]; [by apply Hr..|done|done|lia].
Qed.

Lemma bottom_up_sorted l : StronglySorted (λ x y, bottom_up x y = true) (sort_by bottom_up l).
Proof.
  assert (Hspec : ∀ x y, bottom_up x y = true ↔ top_down y x).
  { intros x y. unfold bottom_up, top_down. rewrite orb_true_iff, andb_true_iff, !bool_decide_eq_true. intuition lia. }
  apply sort_by_sorted.
  - intros x y H. apply Hspec. apply not_true_iff_false in H. rewrite Hspec in H. unfold top_down in *. lia.
  - intros x y z. rewrite !Hspec. unfold top_down. lia.
Qed.

(** Top-down order of a batch. *)
Definition sorted_ops (ops : list ResolvedOp) : list ResolvedOp := reverse (sort_by bottom_up ops).

Lemma sorted_ops_Permutation ops : sorted_ops ops ≡ₚ ops.
Proof. unfold sorted_ops. by rewrite reverse_Permutation, sort_by_Permutation. Qed.

Lemma sorted_ops_top_down ops : StronglySorted top_down (sorted_ops ops).
Proof.
  pose proof (StronglySorted_reverse _ _ (bottom_up_sorted ops)) as H. revert H.
  unfold sorted_ops. generalize (reverse (sort_by bottom_up ops)). intros l.
  induction 1 as [|x l _ IH Hx]; constructor; [done|]. eapply Forall_impl; [exact Hx|].
  intros y. unfold flip, bottom_up, top_down. rewrite orb_true_iff, andb_true_iff, !bool_decide_eq_true. intuition lia.
Qed.

Lemma apart_ordered ls ops pos : Forall (in_file ls) ops → apart ops → NoDup (original_idx <$> ops) →
  StronglySorted top_down ops → Forall (λ op, pos ≤ start op) ops → ordered pos ops ls.
Proof.
  intros Hin Hap Hnd Hs. revert pos. induction Hs as [|a l _ IH Ha]; intros pos Hpos; [done|].
  apply Forall_cons in Hin as [Hina Hin]. apply Forall_cons in Hpos as [Hp Hpos].
  rewrite fmap_cons, NoDup_cons in Hnd. destruct Hnd as [Hna Hnd]. cbn. split_and!; [done|done|].
  apply IH; [done| |done|].
  - intros x y Hx Hy. apply Hap; by right.
  - rewrite Forall_forall in Ha |- *. intros b Hb. apply Hap; [by left|by right| |].
    + intros E. apply Hna. rewrite E. by apply list_elem_of_fmap_2.
    + specialize (Ha _ Hb). unfold top_down in Ha. lia.
Qed.

Lemma batch_ordered ls ops n : Forall (in_file ls) ops → (original_idx <$> ops) = seq 0 n →
  check_overlaps ops = None → ordered 0 (sorted_ops ops) ls.
Proof.
  intros Hin Hidx Hc. pose proof (check_overlaps_apart _ _ Hin Hc) as Hap.
  apply apart_ordered.
  - by rewrite sorted_ops_Permutation.
  - intros a b. rewrite !sorted_ops_Permutation. apply Hap.
  - rewrite sorted_ops_Permutation, Hidx. apply NoDup_seq.
  - apply sorted_ops_top_down.
  - apply Forall_forall. intros. lia.
Qed.

(** * The batch means its specification *)

Lemma ordered_start pos ops ls : ordered pos ops ls → Forall (λ op, pos ≤ start op) ops.
Proof.
  revert pos. induction ops as [|op ops IH]; intros pos; [constructor|]. cbn. intros (H1 & [H2 _] & H3).
  constructor; [done|]. eapply Forall_impl; [by apply IH|]. cbn. lia.
Qed.

(** Splicing bottom-up is copying top-down. *)
Lemma splices_spec ls ops pos : pos ≤ length ls → ordered pos ops ls →
  foldl (λ acc op, acc ≫= splice op) (Some ls) (reverse ops) = Some (take pos ls ++ spec_lines pos ops ls).
Proof.
  revert pos. induction ops as [|op ops IH]; intros pos Hpos Hord; [cbn; by rewrite take_drop|].
  destruct Hord as (H1 & [H2 H3] & Hord). rewrite reverse_cons, foldl_app, (IH (end_ op)) by done.
  cbn [foldl mbind option_bind spec_lines].
  unfold splice. rewrite bool_decide_eq_true_2.
  2:{ rewrite length_app, length_take. lia. }
  rewrite take_app_le, take_take, Nat.min_l, drop_app_length' by (rewrite ?length_take; lia).
  by rewrite (app_assoc (take pos ls)), take_slice by done.
Qed.

(** What the detail of an operation says of the old lines [ls] and the new ones. *)
Definition detail_ok (ls out : list string) (op : ResolvedOp) (r : (nat * nat) * EditRegionDetail) : Prop :=
  let d := r.2 in
  old_line d = start op + 1 ∧ old_text d = join newline (slice_lines (start op) (end_ op) ls) ∧
  new_text d = join newline (new_lines op) ∧
  slice_lines (new_line d - 1) (new_line d - 1 + length (new_lines op)) out = new_lines op ∧
  r.1 = (new_line d - 1, new_line d - 1 + length (new_lines op)) ∧
  0 < new_line d ∧ r.1.2 ≤ length out.

Lemma regions_spec ls ops pos pre : pos ≤ length ls → ordered pos ops ls →
  Forall2 (detail_ok ls (pre ++ spec_lines pos ops ls)) ops
          (regions ls (Z.of_nat (length pre) - Z.of_nat pos) ops).
Proof.
  revert pos pre. induction ops as [|op ops IH]; intros pos pre Hpos Hord; [constructor|].
  destruct Hord as (H1 & [H2 H3] & Hord). cbn.
  set (pre' := pre ++ slice_lines pos (start op) ls).
  assert (Hlen : length pre' = length pre + (start op - pos)).
  { unfold pre'. rewrite length_app, length_slice by lia. done. }
  replace (Z.to_nat (Z.of_nat (start op) + (Z.of_nat (length pre) - Z.of_nat pos))) with (length pre') by lia.
  replace (pre ++ slice_lines pos (start op) ls ++ new_lines op ++ spec_lines (end_ op) ops ls)
    with ((pre' ++ new_lines op) ++ spec_lines (end_ op) ops ls) by (unfold pre'; by rewrite !app_assoc).
  constructor.
  - unfold detail_ok. cbn. rewrite Nat.add_sub. split_and!; try done; [|..].
    + case_bool_decide; [done|]. unfold slice_lines. by replace (end_ op - start op) with 0 by lia.
    + unfold slice_lines. rewrite <-app_assoc, drop_app_length, Nat.add_sub_swap, Nat.sub_diag by lia. cbn.
      by rewrite take_app_length.
    + lia.
    + rewrite !length_app. lia.
  - specialize (IH (end_ op) (pre' ++ new_lines op)). rewrite length_app in IH.
    replace (Z.of_nat (length pre) - Z.of_nat pos + _)%Z
      with (Z.of_nat (length pre' + length (new_lines op)) - Z.of_nat (end_ op))%Z by lia.
    by apply IH.
Qed.

(** * Snippets never panic *)

Lemma length_split_on_app c w t :
  length (split_on c (w +:+ String c t)) = length (split_on c w) + length (split_on c t).
Proof.
  induction w as [|a w IH].
  - change ("" +:+ String c t) with (String c t). cbn [split_on]. by rewrite bool_decide_eq_true_2.
  - rewrite app_cons_str. cbn [split_on]. case_bool_decide; cbn [length]; [by rewrite IH|].
    pose proof (split_on_ne c w) as Hw. pose proof (split_on_ne c (w +:+ String c t)) as Hwt.
    by destruct (split_on c w), (split_on c (w +:+ String c t)).
Qed.

Lemma length_split_on_join c ws : length ws ≤ length (split_on c (join (String c "") ws)).
Proof.
  induction ws as [|w ws IH]; [cbn; lia|]. destruct (decide (ws = [])) as [->|Hne].
  - cbn. pose proof (split_on_ne c w). destruct (split_on c w); [done|cbn; lia].
  - rewrite join_cons by done. change (String c "" +:+ join (String c "") ws) with (String c (join (String c "") ws)).
    rewrite length_split_on_app. pose proof (split_on_ne c w). destruct (split_on c w); [done|cbn; lia].
Qed.

Lemma length_split_lines content : length (split_lines content) = length (split_on (byte 10) content).
Proof.
  destruct (split_lines_pieces content) as (ended & rest & -> & ->). by rewrite !length_app, length_fmap.
Qed.

Section Snippets.
Context (s : AnchorScheme) `{!LawfulScheme s}.

Lemma shown_window_index offset limit ls i l : (i, l) ∈ shown_window offset limit ls → ls !! i = Some l.
Proof.
  intros H. assert (Hin : (i, l) ∈ imap pair ls).
  { assert (Hd : ∀ n m, (i, l) ∈ take n (drop m (imap pair ls)) → (i, l) ∈ imap pair ls).
    { intros n m (j & Hj & _)%elem_of_take. rewrite lookup_drop in Hj. by eapply list_elem_of_lookup_2. }
    unfold shown_window in H. destruct limit as [n|]; [by eapply Hd|].
    eapply (Hd (length (drop (default 1 offset - 1) (imap pair ls)))). by rewrite firstn_all. }
  apply elem_of_lookup_imap in Hin as (j & m & [= -> ->] & Hj). done.
Qed.

Lemma format_total content offset limit : is_Some (format_hashline_content content offset limit s).
Proof.
  unfold format_hashline_content. cbv zeta.
  set (f := λ '(i, line), _). assert (Hf : is_Some (mapM f (shown_window offset limit (split_lines content)))).
  { apply mapM_is_Some_2, Forall_forall. intros [i l] Hi%shown_window_index%lookup_lt_Some. unfold f. change (is_Some (generate_anchors s (split_lines content) !! i ≫= λ a, Some (show_nat (i + 1) +:+ ":" +:+ anchor_suffix a +:+ arrow +:+ l))).
    destruct (lookup_lt_is_Some_2 (generate_anchors s (split_lines content)) i) as [a ->]; [by rewrite gen_length|].
    by eexists. }
  destruct Hf as [o ->]. by eexists.
Qed.

Lemma merge_regions_wf total merged rs : Forall (λ r, r.1 ≤ total) rs → Forall (λ r, r.1 ≤ r.2) rs →
  Forall (λ r, r.1 ≤ r.2) merged → Forall (λ r, r.1 ≤ r.2) (merge_regions total merged rs).
Proof.
  intros Ht. revert merged. induction Ht as [|[b e] rs Hb _ IH]; intros merged Hwf Hm;
    cbn [merge_regions]; [by apply Forall_reverse|].
  apply Forall_cons in Hwf as [Hbe Hwf]. cbn in Hb, Hbe. unfold SNIPPET_CONTEXT.
  destruct merged as [|[m1 m2] merged]; [apply IH; [done|]; repeat constructor; cbn; lia|].
  apply Forall_cons in Hm as [Hm1 Hm]. cbn in Hm1.
  case_bool_decide; (apply IH; [done|]); repeat constructor; cbn; try lia; done.
Qed.

Lemma usize_sub_le a b : b ≤ a → usize_sub a b = Some (a - b).
Proof. intros H. unfold usize_sub. by rewrite bool_decide_eq_true_2. Qed.

Lemma snippet_parts_total content total i prev rs : Forall (λ r, r.1 ≤ r.2) rs →
  is_Some (snippet_parts content total s i prev rs).
Proof.
  intros H. revert i prev. induction H as [|[b e] rs Hbe _ IH]; intros i prev; cbn [snippet_parts]; [by eexists|].
  cbn in Hbe. rewrite usize_sub_le by done. cbn [mbind option_bind].
  destruct (format_total content (Some (b + 1)) (Some (e - b))) as [[o r] ->]. cbn [mbind option_bind].
  destruct (IH (S i) e) as [parts ->]. by eexists.
Qed.

Lemma build_snippet_total content rs total : Forall (λ r, r.1 ≤ r.2 ∧ r.1 ≤ total) rs →
  StronglySorted (λ a b, region_start a b = true) rs → is_Some (build_snippet content rs total s).
Proof.
  intros Hrs Hs. unfold build_snippet. destruct rs as [|r rs]; [by eexists|].
  destruct (last (r :: rs)) as [r'|] eqn:El; cbn [head]; [|by eexists]. cbv zeta.
  assert (Hin : r' ∈ r :: rs) by (apply last_Some in El as [l ->]; set_solver).
  assert (Hle : r.1 ≤ r'.1).
  { apply elem_of_cons in Hin as [->|Hin]; [done|]. apply StronglySorted_inv in Hs as [_ Hs].
    rewrite Forall_forall in Hs. specialize (Hs _ Hin). by apply bool_decide_eq_true in Hs. }
  pose proof (proj1 (Forall_forall _ _) Hrs _ Hin) as [Hr1 Hr2].
  rewrite usize_sub_le by (unfold SNIPPET_CONTEXT; lia). cbn [mbind option_bind].
  case_bool_decide.
  - destruct (format_total content (Some (r.1 - SNIPPET_CONTEXT + 1))
      (Some ((r'.2 + SNIPPET_CONTEXT) `min` total - (r.1 - SNIPPET_CONTEXT)))) as [[o w] ->]. by eexists.
  - destruct (snippet_parts_total content total 0 0 (merge_regions total [] (r :: rs))) as [ps ->]; [|by eexists].
    apply merge_regions_wf; [| |constructor]; eapply Forall_impl; [exact Hrs|by intros ? []|exact Hrs|by intros ? []].
Qed.

Lemma region_start_sorted l : StronglySorted (λ x y, region_start x y = true) (sort_by region_start l).
Proof.
  unfold region_start. apply sort_by_sorted.
  - intros x y H. apply bool_decide_eq_false in H. apply bool_decide_eq_true. lia.
  - intros x y z. rewrite !bool_decide_eq_true. lia.
Qed.

(** An accepted batch produces the specified file and its details. *)
Lemma apply_resolved_spec rs n ls path k : Forall (in_file ls) rs → (original_idx <$> rs) = seq 0 k →
  check_overlaps rs = None →
  ∃ a ds, apply_resolved rs n ls path s =
    Some (MkApply (EditsApplied a) (Some (join newline (spec_lines 0 (sorted_ops rs) ls))) ds) ∧
    applied a = n ∧ absolute_path a = path ∧
    warnings a = omap (λ op, range_warning (start op) (end_ op)) rs ∧
    Forall2 (λ op d, ∃ r, detail_ok ls (spec_lines 0 (sorted_ops rs) ls) op (r, d)) (sorted_ops rs) ds.
Proof.
  intros Hin Hidx Hc. pose proof (batch_ordered _ _ _ Hin Hidx Hc) as Hord.
  unfold apply_resolved. cbv zeta.
  assert (Hfold : foldl (λ acc op, acc ≫= splice op) (Some ls) (sort_by bottom_up rs) =
                  Some (spec_lines 0 (sorted_ops rs) ls)).
  { rewrite <-(reverse_involutive (sort_by bottom_up rs)). by rewrite (splices_spec ls _ 0) by (done || lia). }
  rewrite Hfold. cbn [mbind option_bind]. fold (sorted_ops rs).
  pose proof (regions_spec ls (sorted_ops rs) 0 [] ltac:(lia) Hord) as Hregs.
  change (Z.of_nat (length []) - Z.of_nat 0)%Z with 0%Z in Hregs. cbn [app] in Hregs.
  set (out := spec_lines 0 (sorted_ops rs) ls) in *. set (regs := regions ls 0 (sorted_ops rs)) in *.
  assert (Htotal : length out ≤ length (split_lines (join newline out))).
  { rewrite length_split_lines. apply length_split_on_join. }
  destruct (build_snippet_total (join newline out) (sort_by region_start regs.*1)
    (length (split_lines (join newline out)))) as [snip ->].
  - rewrite sort_by_Permutation. apply Forall_fmap, Forall_forall. intros r Hr. cbn.
    apply list_elem_of_lookup_1 in Hr as [j Hj].
    destruct (Forall2_lookup_r _ _ _ _ _ Hregs Hj) as (op & _ & (_ & _ & _ & _ & E & _ & Hle)).
    rewrite E in *. cbn in *. lia.
  - apply region_start_sorted.
  - cbn [mbind option_bind]. eexists _, _. split; [done|]. split_and!; [done..|].
    apply Forall2_fmap_r. eapply Forall2_impl; [exact Hregs|]. intros op r Hr. exists r.1. by destruct r.
Qed.

End Snippets.

(** * Properties *)

(** The anchor in a text: the text, or what comes before an arrow in it. *)
Definition sent_anchor (text sent : string) : Prop :=
  text = sent ∨ ∃ tail, text = sent +:+ arrow +:+ tail ∨ text = sent +:+ "->" +:+ tail.

(** The text [text] names line [i]: the letters of its anchor are the ones the scheme
    shows for that line now, behind the number of the line; or they are sent without a
    number and no other line shows them. A scheme that shows no context takes no notice
    of one that is sent. *)
Inductive names (s : AnchorScheme) (ls : list string) (text : string) (i : nat) : Prop :=
| names_by_number a num letters :
    generate_anchors s ls !! i = Some a →
    sent_anchor text (num +:+ ":" +:+ letters) → parse_u64 num = Some (N.of_nat (i + 1)) →
    (letters = anchor_suffix a ∨ context a = None ∧ ∃ c, letters = local a +:+ ":" +:+ c) →
    names s ls text i
| names_by_letters a :
    generate_anchors s ls !! i = Some a → sent_anchor text (anchor_suffix a) →
    (∀ j b, generate_anchors s ls !! j = Some b → anchor_suffix b = anchor_suffix a → j = i) →
    names s ls text i.

Lemma split_once_str_Some p s h t : split_once_str p s = Some (h, t) → s = h +:+ p +:+ t.
Proof.
  revert h. induction s as [|c s IH]; intros h.
  - change (split_once_str p "") with (match strip_prefix p "" with Some t => Some ("", t) | None => None end).
    destruct (strip_prefix p "") as [r|] eqn:E; [|done]. intros [= <- <-]. by apply strip_prefix_Some in E.
  - rewrite split_once_str_cons. destruct (strip_prefix p (String c s)) as [r|] eqn:E; [intros [= <- <-]; by apply strip_prefix_Some in E|].
    destruct (split_once_str p s) as [[h' t']|] eqn:Er; [|done]. intros [= <- <-]. rewrite app_cons_str. f_equal. by apply IH.
Qed.

Lemma strip_arrow_sent text : sent_anchor text (strip_arrow text).
Proof.
  unfold strip_arrow, sent_anchor. destruct (split_once_str arrow text) as [[h t]|] eqn:E.
  { right. exists t. left. by apply split_once_str_Some. }
  destruct (split_once_str "->" text) as [[h t]|] eqn:E'; [|by left]. right. exists t. right. by apply split_once_str_Some.
Qed.

(** The fields of a parsed anchor, in the text. *)
Lemma parsed_text t p : ParsedAnchor_parse t = Some p →
  ∃ num, parse_u64 num = Some (p_line p) ∧
    t = num +:+ ":" +:+ match p_context p with Some c => p_local p +:+ ":" +:+ c | None => p_local p end.
Proof.
  unfold ParsedAnchor_parse. intros ([l rest] & [-> _]%split_once_Some & H)%bind_Some. exists l.
  destruct (split_once colon rest) as [[loc ctx]|] eqn:E.
  - apply split_once_Some in E as [-> _]. destruct (is_empty l || is_empty loc); [done|].
    apply bind_Some in H as (n & Hn & H). repeat case_match; simplify_eq; cbn in *; simplify_eq; done.
  - destruct (is_empty l || is_empty rest); [done|]. apply bind_Some in H as (n & Hn & H). repeat case_match; simplify_eq; cbn in *; simplify_eq; done.
Qed.

Lemma suffix_matches_spec s `{!LawfulScheme s} ls i a t : generate_anchors s ls !! i = Some a →
  suffix_matches t a = true ↔ t = anchor_suffix a.
Proof.
  intros Ha. pose proof (gen_local _ _ _ Ha) as [_ Hl%lower_no_colon]%is_hash_parts. unfold suffix_matches, anchor_suffix.
  destruct (context a) as [c|]; split.
  - destruct (split_once colon t) as [[l x]|] eqn:E; [|done]. apply split_once_Some in E as [-> _].
    by intros [->%bool_decide_eq_true_1 ->%bool_decide_eq_true_1]%andb_prop.
  - intros ->. change (":" +:+ c) with (String colon c). rewrite split_once_here by done. by rewrite !bool_decide_eq_true_2.
  - destruct (split_once colon t) as [[l x]|]; [done|]. by intros <-%bool_decide_eq_true_1.
  - intros ->. rewrite split_once_none by done. by rewrite bool_decide_eq_true_2.
Qed.

Lemma recovered_names s `{!LawfulScheme s} ls t p i :
  recover_anchor_by_suffix t ls s = Some p → p_line p = N.of_nat (i + 1) →
  ∃ a, generate_anchors s ls !! i = Some a ∧ t = anchor_suffix a ∧
    ∀ j b, generate_anchors s ls !! j = Some b → anchor_suffix b = anchor_suffix a → j = i.
Proof.
  unfold recover_anchor_by_suffix. destruct (filter _ _) as [|a [|]] eqn:E; [done| |done]. intros [= <-] Hn.
  assert (Ha : a ∈ filter (λ a, suffix_matches t a = true) (generate_anchors s ls)) by (rewrite E; by left).
  apply list_elem_of_filter in Ha as [Hm [k Hk]%list_elem_of_lookup_1].
  apply (suffix_matches_spec s ls k a t Hk) in Hm as ->. pose proof (gen_line _ _ _ Hk) as Hl. cbn in Hn.
  assert (k = i) as -> by lia. exists a. split_and!; [done..|]. intros j b Hb Ht.
  assert (b = a) as ->; [|apply gen_line in Hb; lia].
  apply list_elem_of_singleton. rewrite <-E. apply list_elem_of_filter.
  split; [by eapply suffix_matches_spec|by eapply list_elem_of_lookup_2].
Qed.

Lemma validated_names s `{!LawfulScheme s} ls text i : validate_anchor text ls s = Some (Ok i) → names s ls text i.
Proof.
  intros H. apply (proj2 (validate_anchor_spec s text ls)) in H as (_ & a & p & Ha & Hl & Hc & Hn & Hfrom).
  pose proof (strip_arrow_sent text) as Hs. destruct Hfrom as [Hp|Hr].
  - apply parsed_text in Hp as (num & Hnum & Ht). rewrite Ht in Hs. eapply names_by_number; [done|exact Hs|by rewrite Hnum, Hn|].
    rewrite <-Hl. unfold anchor_suffix. destruct Hc as [Hc|Hc]; rewrite Hc; destruct (p_context p) as [c|]; eauto.
  - destruct (recovered_names s ls _ p i Hr Hn) as (b & Hb & Ht & Huniq). rewrite Ht in Hs. by eapply names_by_letters.
Qed.

(** The range and the lines that an operation asks for. *)
Definition places (s : AnchorScheme) (ls : list string) (op : HashlineOp) (r : ResolvedOp) : Prop :=
  match op with
  | Replace anchor end_anchor content =>
      names s ls anchor (start r) ∧ new_lines r = content_lines [] content ∧
      match end_anchor with
      | None => end_ r = start r + 1
      | Some ea => ∃ j, names s ls ea j ∧ start r ≤ j ∧ end_ r = j + 1
      end
  | InsertAfter anchor content =>
      start r = end_ r ∧ new_lines r = content_lines [""] content ∧
      (anchor = "0:" ∧ start r = 0 ∨ anchor = "EOF" ∧ start r = eof_position ls ∨
       ∃ j, names s ls anchor j ∧ start r = j + 1)
  | Write _ => False
  end.

Lemma resolve_op_places s `{!LawfulScheme s} op i ls r :
  resolve_op op i ls s = Some (Ok r) → places s ls op r.
Proof.
  pose proof (validated_names s ls) as Hnames.
  destruct op as [anchor end_anchor content|anchor content|content]; cbn [resolve_op places]; [| |done].
  - rewrite and_then_Ok. intros (st & Hst%Hnames & (en & Hen & Hr)%and_then_Ok).
    destruct (detect_anchor_prefix_in_content content); [done|]. injection Hr as <-. cbn.
    split_and!; [done..|]. destruct end_anchor as [ea|]; [|by injection Hen as <-].
    apply and_then_Ok in Hen as (e & He%Hnames & Hen).
    case_bool_decide; [done|]. injection Hen as <-. exists e. split_and!; [done|lia|done].
  - rewrite and_then_Ok. intros (p & Hp & Hr).
    destruct (detect_anchor_prefix_in_content content); [done|]. injection Hr as <-. cbn.
    split_and!; [done..|].
    case_bool_decide; [injection Hp as <-; by left|].
    case_bool_decide; [injection Hp as <-; right; by left|].
    apply and_then_Ok in Hp as (l & Hl%Hnames & [= <-]). right. right. by exists l.
Qed.

(** C26: Applying edits never panics, and either changes nothing or does what the
    batch means. A single write puts its text, unless it contains pasted anchors.
    Any other batch fails without new content on the first operation that does not
    resolve and on an overlap; otherwise the new file is the old one copied from
    the top with each operation's lines in place of its range, in the order of
    the positions and, for one position, of the request. *)
Theorem apply_edits_refines s `{!LawfulScheme s} content ops path (ls := split_lines content) :
  ∃ r, apply_edits content ops path s = Some r ∧
  match ops with
  | [Write text] =>
      match detect_anchor_prefix_in_content text with
      | Some n => r = apply_error (anchor_content_error "write" text n)
      | None => ∃ a, r = MkApply (EditsApplied a) (Some text) [] ∧ applied a = 1
      end
  | _ =>
      match resolve_all 0 (length ops) ops ls s with
      | None => False
      | Some (Err e) => r = apply_error e
      | Some (Ok rs) =>
          match check_overlaps rs with
          | Some e => ∃ msg, r = apply_error (with_message e msg)
          | None => ∃ asc a ds, asc ≡ₚ rs ∧ StronglySorted top_down asc ∧ ordered 0 asc ls ∧
              r = MkApply (EditsApplied a) (Some (join newline (spec_lines 0 asc ls))) ds ∧
              applied a = length ops
          end
      end
  end.
Proof.
  assert (Hbatch : ∃ r, apply_batch ls ops path s = Some r ∧
    match resolve_all 0 (length ops) ops ls s with
    | None => False
    | Some (Err e) => r = apply_error e
    | Some (Ok rs) =>
        match check_overlaps rs with
        | Some e => ∃ msg, r = apply_error (with_message e msg)
        | None => ∃ asc a ds, asc ≡ₚ rs ∧ StronglySorted top_down asc ∧ ordered 0 asc ls ∧
            r = MkApply (EditsApplied a) (Some (join newline (spec_lines 0 asc ls))) ds ∧
            applied a = length ops
        end
    end).
  { unfold apply_batch. destruct (resolve_all_total s 0 (length ops) ops ls) as [[rs|e] Hres]; rewrite Hres;
      cbn [mbind option_bind]; [|by eexists].
    apply resolve_all_Ok in Hres as (Hin & Hidx & _); [|done].
    destruct (check_overlaps rs) as [e|] eqn:Hc.
    - eexists. split; [done|]. case_bool_decide; [by eexists|]. exists (message e). by destruct e.
    - destruct (apply_resolved_spec s rs (length ops) ls path _ Hin Hidx Hc) as (a & ds & -> & Ha & _).
      eexists. split; [done|]. exists (sorted_ops rs), a, ds.
      split_and!; [apply sorted_ops_Permutation|apply sorted_ops_top_down|by eapply batch_ordered|done|done]. }
  unfold apply_edits. fold ls.
  destruct ops as [|[| |text] [|op ops]]; try exact Hbatch.
  destruct (detect_anchor_prefix_in_content text); [by eexists|].
  unfold build_write_result. cbv zeta.
  destruct (format_total s text (Some 1) (Some ((SNIPPET_CONTEXT * 2) `min` length (split_lines text)))) as [[o w] ->].
  cbn [mbind option_bind]. eexists. split; [done|]. by eexists.
Qed.

(** Applied or refused, nothing in between. *)
Lemma apply_edits_outcome s `{!LawfulScheme s} content ops path :
  ∃ r, apply_edits content ops path s = Some r ∧
    ((∃ e, r = apply_error e) ∨
     ∃ a c ds, r = MkApply (EditsApplied a) (Some c) ds ∧ absolute_path a = path).
Proof.
  set (ls := split_lines content).
  assert (Hbatch : ∃ r, apply_batch ls ops path s = Some r ∧
    ((∃ e, r = apply_error e) ∨
     ∃ a c ds, r = MkApply (EditsApplied a) (Some c) ds ∧ absolute_path a = path)).
  { unfold apply_batch. destruct (resolve_all_total s 0 (length ops) ops ls) as [[rs|e] Hres]; rewrite Hres;
      cbn [mbind option_bind]; [|by eexists; eauto].
    apply resolve_all_Ok in Hres as (Hin & Hidx & _); [|done].
    destruct (check_overlaps rs) as [e|] eqn:Hc; [by eexists; eauto|].
    destruct (apply_resolved_spec s rs (length ops) ls path _ Hin Hidx Hc) as (a & ds & -> & _ & Hp & _).
    eexists. split; [done|]. right. by eexists _, _, _. }
  unfold apply_edits. fold ls.
  destruct ops as [|[| |text] [|op ops]]; try exact Hbatch.
  destruct (detect_anchor_prefix_in_content text); [by eexists; eauto|].
  unfold build_write_result. cbv zeta.
  destruct (format_total s text (Some 1) (Some ((SNIPPET_CONTEXT * 2) `min` length (split_lines text)))) as [[o w] ->].
  cbn [mbind option_bind]. eexists. split; [done|]. right. by eexists _, _, _.
Qed.

(** A scheme, a file and a batch whose operations come out of order. *)
Module EditWitness.
Definition sch : AnchorScheme := ContentOnly 3.
#[global] Instance sch_lawful : LawfulScheme sch.
Proof. by apply ContentOnly_lawful. Qed.
Definition batch : list HashlineOp :=
  [InsertAfter "3:ioi" "// done"; Replace "2:rsj" None ("    let y = 2;" +:+ newline +:+ "    let z = 3;");
   InsertAfter "3:ioi" "// really"].
Definition edited : string :=
  join newline ["fn main() {"; "    let y = 2;"; "    let z = 3;"; "}"; "// done"; "// really"; ""].
End EditWitness.

Lemma apply_edits_refines_witness :
  ∃ r, apply_edits EditExamples.file EditWitness.batch "f.rs" EditWitness.sch = Some r ∧
       new_content r = Some EditWitness.edited.
Proof.
  destruct (apply_edits_refines EditWitness.sch EditExamples.file EditWitness.batch "f.rs") as (r & Hr & _).
  exists r. split; [exact Hr|]. revert Hr. vm_compute. intros [= <-]. reflexivity.
Defined.

(** C27: A batch succeeds only if every operation is applied at the line its anchor
    names in the file as it is: the anchor's letters and context are the ones the
    scheme shows there now. The details returned give, for each operation from
    the top, the old lines it replaced and the place of its lines in the new
    file. *)
Theorem edits_hit_named_lines s `{!LawfulScheme s} content ops path (ls := split_lines content) r a c :
  (∀ text, ops ≠ [Write text]) → apply_edits content ops path s = Some r →
  output r = EditsApplied a → new_content r = Some c →
  ∃ asc out, c = join newline out ∧ length asc = length ops ∧
    (∀ k op, ops !! k = Some op → ∃ q, q ∈ asc ∧ original_idx q = k ∧ places s ls op q) ∧
    Forall2 (λ q d,
      old_line d = start q + 1 ∧ old_text d = join newline (slice_lines (start q) (end_ q) ls) ∧
      new_text d = join newline (new_lines q) ∧
      slice_lines (new_line d - 1) (new_line d - 1 + length (new_lines q)) out = new_lines q)
      asc (edit_details r).
Proof.
  intros Hw Hr Ho Hc. assert (Hb : apply_batch ls ops path s = Some r).
  { unfold apply_edits in Hr. destruct ops as [|[| |text] [|op ops]]; try done. by destruct (Hw text). }
  unfold apply_batch in Hb. destruct (resolve_all_total s 0 (length ops) ops ls) as [[rs|e] Hres]; rewrite Hres in Hb;
    cbn [mbind option_bind] in Hb; [|by injection Hb as <-].
  pose proof Hres as (Hin & Hidx & Hop)%resolve_all_Ok; [|done].
  destruct (check_overlaps rs) as [e|] eqn:Hov; [by injection Hb as <-|].
  destruct (apply_resolved_spec s rs (length ops) ls path _ Hin Hidx Hov) as (a' & ds & Hap & _ & _ & _ & Hds).
  rewrite Hap in Hb. injection Hb as <-. cbn in Hc. injection Hc as <-.
  eexists (sorted_ops rs), _. split_and!; [done| | |].
  - rewrite sorted_ops_Permutation. rewrite <-(length_fmap original_idx rs), Hidx. apply length_seq.
  - intros k op Hk. destruct (Hop k op Hk) as (q & Hq & Hres').
    exists q. rewrite sorted_ops_Permutation. split_and!; [by eapply list_elem_of_lookup_2| |].
    + by apply resolve_op_in_file in Hres' as [_ ?].
    + by eapply resolve_op_places.
  - cbn. eapply Forall2_impl; [exact Hds|]. intros q d (reg & H1 & H2 & H3 & H4 & _). done.
Qed.

Lemma edits_hit_named_lines_witness : ∃ r a c asc,
  apply_edits EditExamples.file EditWitness.batch "f.rs" EditWitness.sch = Some r ∧
  output r = EditsApplied a ∧ new_content r = Some c ∧ length asc = 3 ∧
  ∃ q, q ∈ asc ∧ original_idx q = 1 ∧ places EditWitness.sch (split_lines EditExamples.file)
         (Replace "2:rsj" None ("    let y = 2;" +:+ newline +:+ "    let z = 3;")) q.
Proof.
  destruct (apply_edits EditExamples.file EditWitness.batch "f.rs" EditWitness.sch) as [r|] eqn:Hr;
    [|vm_compute in Hr; discriminate].
  destruct (output r) as [a|e] eqn:Ho; [|revert Ho; vm_compute in Hr; injection Hr as <-; discriminate].
  destruct (new_content r) as [c|] eqn:Hc; [|revert Hc; vm_compute in Hr; injection Hr as <-; discriminate].
  destruct (edits_hit_named_lines EditWitness.sch EditExamples.file EditWitness.batch "f.rs" r a c
    ltac:(discriminate) Hr Ho Hc) as (asc & out & _ & Hlen & Hops & _).
  exists r, a, c, asc. split; [reflexivity|]. split; [exact Ho|]. split; [exact Hc|]. split; [exact Hlen|].
  apply Hops. reflexivity.
Defined.

(** ** The overlap check *)

Lemma neighbours_Some l a b : overlapping_neighbours l = Some (a, b) →
  ∃ l1 l2, l = l1 ++ a :: b :: l2 ∧ start b < end_ a.
Proof.
  induction l as [|x [|y l] IH]; cbn [overlapping_neighbours]; [done..|].
  case_bool_decide as Hxy; [intros [= <- <-]; by exists [], l|].
  intros (l1 & l2 & -> & ?)%IH. by exists (x :: l1), l2.
Qed.

Lemma insertion_inside_Some ranges ops r op : insertion_inside ranges ops = Some (r, op) →
  r ∈ ranges ∧ op ∈ ops ∧ start op = end_ op ∧ start r ≤ start op < end_ r.
Proof.
  induction ops as [|o ops IH]; cbn [insertion_inside]; [done|].
  unfold is_insertion.
  assert (Hrest : insertion_inside ranges ops = Some (r, op) →
    r ∈ ranges ∧ op ∈ o :: ops ∧ start op = end_ op ∧ start r ≤ start op < end_ r).
  { intros (H1 & H2 & H3 & H4)%IH. split_and!; [done|by right|done|lia..]. }
  case_bool_decide as Ho; cbn [negb]; [|done].
  destruct (range_around ranges (start o)) as [r'|] eqn:Er; [|done].
  intros [= -> ->]. unfold range_around in Er.
  destruct (filter _ ranges) as [|r'' l] eqn:Ef; [done|]. cbn in Er. injection Er as ->.
  assert (Hf : r ∈ filter (λ r, start r ≤ start op < end_ r) ranges) by (rewrite Ef; by left).
  apply list_elem_of_filter in Hf as [Hf ?]. split_and!; [done|by left|done|lia..].
Qed.

Lemma NoDup_fmap_filter {A B} (f : A → B) (P : A → Prop) `{∀ x, Decision (P x)} l :
  NoDup (f <$> l) → NoDup (f <$> filter P l).
Proof.
  induction l as [|x l IH]; [done|]. rewrite fmap_cons, NoDup_cons. intros [Hx Hl].
  rewrite filter_cons. case_decide; [|auto]. rewrite fmap_cons, NoDup_cons. split; [|auto].
  rewrite list_elem_of_fmap. intros (y & E & [_ Hy]%list_elem_of_filter). apply Hx. rewrite E.
  by apply list_elem_of_fmap_2.
Qed.

(** The overlap check accepts a batch exactly when no two of its operations
    touch the same lines: an operation that does not start above another one
    starts after its last line. Two insertions never collide. *)
Theorem overlap_check_exact ls ops : Forall (in_file ls) ops → NoDup (original_idx <$> ops) →
  (check_overlaps ops = None ↔
   ∀ a b, a ∈ ops → b ∈ ops → original_idx a ≠ original_idx b → start a ≤ start b → end_ a ≤ start b).
Proof.
  intros Hin Hnd. split; [intros Hc; by eapply check_overlaps_apart|]. intros Hap.
  unfold check_overlaps. set (ranges := sort_by _ _). cbv zeta.
  assert (Hr : ∀ r, r ∈ ranges → start r ≠ end_ r ∧ r ∈ ops).
  { intros r. unfold ranges. rewrite sort_by_Permutation. by rewrite list_elem_of_filter. }
  assert (Hnr : NoDup (original_idx <$> ranges)).
  { unfold ranges. rewrite sort_by_Permutation. by apply NoDup_fmap_filter. }
  destruct (overlapping_neighbours ranges) as [[a b]|] eqn:En.
  - exfalso. apply neighbours_Some in En as (l1 & l2 & E & Hlt).
    pose proof (by_start_sorted (filter (λ op, start op ≠ end_ op) ops)) as Hs. fold ranges in Hs.
    rewrite E in Hs, Hnr. apply StronglySorted_suffix, StronglySorted_inv in Hs as [_ Hs%Forall_cons]. destruct Hs as [Hs%bool_decide_eq_true _].
    rewrite fmap_app, NoDup_app, fmap_cons, NoDup_cons in Hnr. destruct Hnr as (_ & _ & Hne & _).
    assert (Ha : a ∈ ops) by (apply Hr; rewrite E, elem_of_app, !elem_of_cons; naive_solver).
    assert (Hb : b ∈ ops) by (apply Hr; rewrite E, elem_of_app, !elem_of_cons; naive_solver).
    cut (end_ a ≤ start b); [lia|]. apply Hap; [done|done| |done].
    intros Heq. apply Hne. rewrite Heq. cbn. by left.
  - destruct (insertion_inside ranges ops) as [[r op]|] eqn:Ei; [|done]. exfalso.
    apply insertion_inside_Some in Ei as ([Hrr Hro]%Hr & Hop & He & Hrange).
    cut (end_ r ≤ start op); [lia|]. apply Hap; [done|done| |lia].
    intros Heq. assert (r = op) as ->; [|done].
    apply list_elem_of_lookup_1 in Hro as [i Hi]. apply list_elem_of_lookup_1 in Hop as [j Hj].
    assert (i = j) as ->; [|naive_solver].
    eapply NoDup_lookup; [exact Hnd|rewrite list_lookup_fmap, Hi; done|rewrite list_lookup_fmap, Hj; by cbn; f_equal].
Qed.

Lemma overlap_check_exact_witness :
  check_overlaps [MkOp 0 2 5 ["x"]; MkOp 1 5 5 ["y"]; MkOp 2 5 5 ["z"]; MkOp 3 0 2 []] = None.
Proof.
  apply (overlap_check_exact (replicate 9 "l") [MkOp 0 2 5 ["x"]; MkOp 1 5 5 ["y"]; MkOp 2 5 5 ["z"]; MkOp 3 0 2 []]).
  - repeat constructor; cbn; lia.
  - by_compute.
  - intros a b Ha Hb. rewrite !elem_of_cons in Ha, Hb.
    destruct Ha as [->|[->|[->|[->|[]%not_elem_of_nil]]]], Hb as [->|[->|[->|[->|[]%not_elem_of_nil]]]]; cbn; lia.
Defined.

(** ** From the view to the edit *)

(** Every line of the anchored view, sent back whole or cut after the anchor,
    names the line of the file it shows, whatever the line contains. *)
Theorem view_line_names_its_line s `{!LawfulScheme s} content offset limit out raw (ls := split_lines content) :
  (len ls ≤ u64_max)%N →
  format_hashline_content content offset limit s = Some (out, raw) →
  ∃ shown, out = join newline shown ∧
    ∀ k text, shown !! k = Some text → ∃ anchor l,
      text = anchor +:+ arrow +:+ l ∧ ls !! (default 1 offset - 1 + k) = Some l ∧
      validate_anchor text ls s = Some (Ok (default 1 offset - 1 + k)) ∧
      validate_anchor anchor ls s = Some (Ok (default 1 offset - 1 + k)).
Proof.
  intros Hmax Hf. unfold format_hashline_content in Hf. fold ls in Hf. cbv zeta in Hf.
  apply bind_Some in Hf as (shown & Hm & [= <- _]). exists shown. split; [done|].
  intros k text Hk. apply mapM_Some in Hm.
  destruct (Forall2_lookup_r _ _ _ _ _ Hm Hk) as ([i l] & Hw & Ha). clear Hm Hk.
  apply bind_Some in Ha as (a & Ha & [= <-]).
  assert (Hi : i = default 1 offset - 1 + k ∧ ls !! i = Some l).
  { assert (Hd : drop (default 1 offset - 1) (imap pair ls) !! k = Some (i, l)).
    { unfold shown_window in Hw. destruct limit as [n|]; [|done]. by apply lookup_take_Some in Hw as [? _]. }
    rewrite lookup_drop, list_lookup_imap in Hd.
    destruct (ls !! (default 1 offset - 1 + k)) as [l'|] eqn:El; [|done]. cbn in Hd. by injection Hd as <- <-. }
  destruct Hi as [-> Hl]. exists (Anchor_render a), l.
  assert (Htext : show_nat (default 1 offset - 1 + k + 1) +:+ ":" +:+ anchor_suffix a +:+ arrow +:+ l =
                  Anchor_render a +:+ arrow +:+ l).
  { unfold Anchor_render, anchor_suffix, show_nat. rewrite (gen_line _ _ _ Ha).
    destruct (context a); by rewrite !app_assoc_str. }
  destruct (strip_arrow_rendered s ls _ a l Ha) as [H1 H2].
  split_and!; [done|done|rewrite Htext|]; by eapply validate_anchor_shown.
Qed.

Lemma view_line_names_its_line_witness :
  ∃ shown l text, text = shown +:+ arrow +:+ l ∧
    validate_anchor text (split_lines EditExamples.file) EditWitness.sch = Some (Ok 1).
Proof.
  destruct (format_hashline_content EditExamples.file (Some 2) (Some 1) EditWitness.sch) as [[out raw]|] eqn:E;
    [|vm_compute in E; discriminate].
  destruct (view_line_names_its_line EditWitness.sch EditExamples.file (Some 2) (Some 1) out raw
    ltac:(vm_compute; discriminate) E) as (shown & Ho & Hs).
  destruct shown as [|text shown]; [vm_compute in E; rewrite Ho in E; discriminate|].
  destruct (Hs 0 text eq_refl) as (anchor & l & -> & _ & Hv & _). by exists anchor, l, (anchor +:+ arrow +:+ l).
Defined.

(** ** Line ends *)

Definition crlf : string := carriage_return +:+ newline.

Lemma strip_cr_cases l : strip_cr l = l ∧ strip_suffix carriage_return l = None ∨
  l = strip_cr l +:+ carriage_return ∧ strip_cr l ≠ l.
Proof.
  unfold strip_cr. destruct (strip_suffix carriage_return l) as [t|] eqn:E; [right|by left]. cbn.
  apply strip_suffix_Some in E as ->. split; [done|]. intros H%(f_equal String.length).
  rewrite length_app_str in H. cbn in H. lia.
Qed.

Lemma strip_cr_no_newline l : contains_byte (byte 10) l = false → contains_byte (byte 10) (strip_cr l) = false.
Proof.
  destruct (strip_cr_cases l) as [[-> _]|[E _]]; [done|]. rewrite E at 1. rewrite contains_byte_app.
  by intros [? _]%orb_false_elim.
Qed.

Lemma split_on_app_sep c w t : split_on c (w +:+ String c t) = split_on c w ++ split_on c t.
Proof.
  induction w as [|a w IH].
  - change ("" +:+ String c t) with (String c t). cbn [split_on]. by rewrite bool_decide_eq_true_2.
  - rewrite app_cons_str. cbn [split_on]. rewrite IH. case_bool_decide; [done|].
    pose proof (split_on_ne c w). by destruct (split_on c w).
Qed.

(** The pieces of text that ends with a carriage return. *)
Lemma split_on_cr_last u : ∃ ps l, split_on (byte 10) (u +:+ carriage_return) = ps ++ [l +:+ carriage_return].
Proof.
  induction u as [|a u (ps & l & IH)]; [by exists [], ""|].
  rewrite app_cons_str. cbn [split_on]. rewrite IH. case_bool_decide; [by exists ("" :: ps), l|].
  destruct ps as [|p ps]; [by exists [], (String a l)|by exists (String a p :: ps), l].
Qed.

(** Text before a piece that ends with a carriage return and is followed by
    another piece. *)
Lemma join_piece sep e1 l e2 : e2 ≠ [] → ∃ u, join sep (e1 ++ l :: e2) = u +:+ l +:+ sep +:+ join sep e2.
Proof.
  intros He. induction e1 as [|w e1 (u & IH)].
  - exists "". cbn [app]. by rewrite join_cons.
  - exists (w +:+ sep +:+ u). rewrite <-app_comm_cons, join_cons by (by destruct e1). by rewrite IH, !app_assoc_str.
Qed.

(** A file is copied byte for byte where it is not edited exactly when it has no
    carriage return before a newline: a file with such line ends loses all of
    them in any batch that is applied. *)
Theorem copy_verbatim_iff content :
  join newline (split_lines content) = content ↔ contains crlf content = false.
Proof.
  destruct (split_lines_pieces content) as (ended & rest & Hp & ->).
  pose proof (split_on_pieces (byte 10) content) as Hn. rewrite Hp in Hn.
  pose proof (join_split_on (byte 10) content) as Hj. rewrite Hp in Hj.
  apply Forall_app in Hn as [Hn Hr]. split.
  - intros E. apply not_true_iff_false. intros (u & v & Ec)%contains_spec.
    assert (Hs : (strip_cr <$> ended) ++ [rest] = ended ++ [rest]).
    { rewrite <-Hp, <-E at 1. symmetry. apply split_on_join; [by destruct (strip_cr <$> ended)|].
      apply Forall_app. split; [|done]. apply Forall_fmap. eapply Forall_impl; [exact Hn|].
      intros l. apply strip_cr_no_newline. }
    apply app_inj_tail in Hs as [Hs _].
    assert (Hsplit : split_on (byte 10) content = split_on (byte 10) (u +:+ carriage_return) ++ split_on (byte 10) v).
    { rewrite Ec, <-split_on_app_sep. by rewrite <-app_assoc_str. }
    destruct (split_on_cr_last u) as (ps & l & El). rewrite Hp, El in Hsplit.
    pose proof (split_on_ne (byte 10) v) as Hv.
    destruct (split_on (byte 10) v) as [|r rs _] using rev_ind; [done|].
    rewrite app_assoc in Hsplit. apply app_inj_tail in Hsplit as [Hsplit _].
    assert (Hl : strip_cr (l +:+ carriage_return) = l +:+ carriage_return).
    { assert (Hin : l +:+ carriage_return ∈ ended) by (rewrite Hsplit, !elem_of_app, list_elem_of_singleton; naive_solver).
      apply list_elem_of_lookup_1 in Hin as [i Hi]. pose proof (f_equal (lookup i) Hs) as Hi'.
      rewrite list_lookup_fmap, Hi in Hi'. by injection Hi'. }
    unfold strip_cr in Hl. destruct (strip_suffix carriage_return (l +:+ carriage_return)) as [t|] eqn:Et.
    + cbn in Hl. subst t. apply strip_suffix_Some in Et. apply (f_equal String.length) in Et.
      rewrite !length_app_str in Et. cbn in Et. lia.
    + assert (Some l = None) as X; [|done]. rewrite <-Et. symmetry. by apply strip_suffix_Some.
  - intros Hc. rewrite <-Hj. do 2 f_equal. rewrite <-(list_fmap_id ended) at 2.
    apply list_fmap_ext. intros i l Hl. cbn. destruct (strip_cr_cases l) as [[? _]|[E _]]; [done|]. exfalso.
    apply not_true_iff_false in Hc. apply Hc, contains_spec.
    apply list_elem_of_lookup_2, list_elem_of_split in Hl as (e1 & e2 & ->).
    rewrite <-Hj, <-app_assoc, <-app_comm_cons.
    destruct (join_piece (String (byte 10) "") e1 l (e2 ++ [rest])) as [w ->]; [by destruct e2|].
    exists (w +:+ strip_cr l), (join (String (byte 10) "") (e2 ++ [rest])).
    rewrite E at 1. unfold crlf. change newline with (String (byte 10) ""). by rewrite !app_assoc_str.
Qed.
