(* ===== verification/HashlineTool.v ===== *)
(** The hashline tools around the edit engine (crate [ainxt-tools],
    [implementations/ainxt_build_hashline]): one run of [hashline_edit]
    ([edit/mod.rs]) and the anchors that [hashline_grep] puts into search results
    ([grep.rs]), over the file system of [ToolFs]. *)
From stdpp Require Import list gmap.
From S2P Require Import Prelude RustStr StrSearch ToolFs HashScheme HashlineEdit.

(** * [hashline_edit] *)

Module Export EditTool.

Record EditDetail : Type := MkEditDetail {
  old_string : string;
  d_old_line : nat;
  new_string : string;
  d_new_line : nat;
  context_before : string;
  context_after : string;
}.

Inductive SearchReplaceOutput : Type :=
| SrApplied (old_content new_content tool_output path : string) (details : list EditDetail)
| SrFileNotFound (msg : string)
| SrInvalidInput (msg : string)
| SrNoMatches (msg path : string).

(** The context around one edit, from the old file. *)
Definition detail_context (old_content : string) (d : EditRegionDetail) : EditDetail :=
  let old_lines := split_on (byte 10) old_content in
  let ctx_count := 3 in
  let old_idx := old_line d - 1 in
  let before_start := old_idx - ctx_count in
  let before := if bool_decide (before_start < old_idx)
                then join newline (slice_lines before_start old_idx old_lines) +:+ newline else "" in
  let old_text_line_count := if is_empty (old_text d) then 0 else length (split_on (byte 10) (old_text d)) in
  let after_start := old_idx + old_text_line_count in
  let after_end := (after_start + ctx_count) `min` length old_lines in
  let after := if bool_decide (after_start < after_end)
               then join newline (slice_lines after_start after_end old_lines) +:+ newline else "" in
  MkEditDetail (old_text d) (old_line d) (new_text d) (new_line d) before after.

Definition error_text (e : HashlineEditError) : string :=
  let msg := message e in
  let msg :=
    match err_context e with
    | Some ctx =>
        let label :=
          match context_start_line e with
          | Some start => "Fresh anchors around line " +:+ show_nat start +:+ " — use these to retry your edit:"
          | None => "Fresh anchors — use these to retry your edit:"
          end in
        msg +:+ blank +:+ label +:+ newline +:+ ctx
    | None => msg
    end in
  match shifted_anchor e with
  | Some anchor => msg +:+ blank +:+ "Suggested anchor: " +:+ anchor
  | None => msg
  end.

Definition to_search_replace (r : HashlineEditOutput) (file_path old_content : string)
    (new_content : option string) (details : list EditRegionDetail) : SearchReplaceOutput :=
  match r with
  | EditsApplied a =>
      let new_text := default "" new_content in
      let details :=
        match details with
        | [] => [MkEditDetail old_content 1 new_text 1 "" ""]
        | _ => detail_context old_content <$> details
        end in
      let out := match warnings a with
                 | [] => snippet a
                 | ws => join newline ws +:+ blank +:+ snippet a
                 end in
      SrApplied old_content new_text out (absolute_path a) details
  | EditError e =>
      match error e with
      | FileNotFound => SrFileNotFound (error_text e)
      | InvalidInput => SrInvalidInput (error_text e)
      | _ => SrNoMatches (error_text e) file_path
      end
  end.

Section Run.
Context `{HostFs}.

(** A write to a path that does not exist yet. *)
Definition create_new (joined display content : string) (s : AnchorScheme) (f : fs) :
    option SearchReplaceOutput * fs :=
  match write_file joined content f with
  | (Err IoNotFound, f) => (Some (SrFileNotFound (format_not_found_error f display joined)), f)
  | (Err e, f) => (Some (SrInvalidInput ("Failed to write file: " +:+ show_io_error e)), f)
  | (Ok _, f) =>
      let abs := canonicalize_with_timeout f joined in
      (r ← apply_edits content [Write content] abs s;
       Some (to_search_replace (output r) abs "" (new_content r) (edit_details r)), f)
  end.

(** An edit of the file at [path]. *)
Definition edit_existing (path display : string) (edits : list HashlineOp) (s : AnchorScheme) (f : fs) :
    option SearchReplaceOutput * fs :=
  match read_file path f with
  | Err IoNotFound => (Some (SrFileNotFound (format_not_found_error f display path)), f)
  | Err e => (Some (SrInvalidInput ("Failed to read file: " +:+ show_io_error e)), f)
  | Ok bytes =>
      let old_content := from_utf8_lossy bytes in
      match apply_edits old_content edits path s with
      | None => (None, f)
      | Some r =>
          match new_content r with
          | None => (Some (to_search_replace (output r) path old_content None (edit_details r)), f)
          | Some content =>
              match write_file path content f with
              | (Err e, f) =>
                  let err := plain_error IoError
                    ("Edits validated but failed to write file: " +:+ show_io_error e +:+ ".") None in
                  (Some (to_search_replace (EditError err) path old_content None []), f)
              | (Ok _, f) =>
                  (Some (to_search_replace (output r) path old_content (Some content) (edit_details r)), f)
              end
          end
      end
  end.

(** One call of the tool: [joined] is the resolved path, [display] the one shown
    to the model. [None] is a panic, [Err] a tool error. *)
Definition run (params : HashlineSchemeParams) (joined display : string) (edits : list HashlineOp) (f : fs) :
    option (result string SearchReplaceOutput) * fs :=
  match edits with
  | [] => (Some (Ok (SrInvalidInput "No edit operations provided.")), f)
  | _ =>
      match build_scheme params with
      | None => (None, f)
      | Some (Err e) => (Some (Err e), f)
      | Some (Ok s) =>
          let path := match try_canonicalize f joined with
                      | Ok p => Some p
                      | Err _ => try_resolve_unicode_filename f joined
                      end in
          let '(out, f) :=
            match path, edits with
            | Some p, _ => edit_existing p display edits s f
            | None, [Write content] => create_new joined display content s f
            | None, _ => (Some (SrFileNotFound (format_not_found_error f display joined)), f)
            end in
          (Ok <$> out, f)
      end
  end.

End Run.

End EditTool.

(** * Properties of an edit call *)

Section EditProps.
Context `{HostFs}.

Lemma error_not_applied e path old : ∀ o n t p ds,
  to_search_replace (EditError e) path old None [] ≠ SrApplied o n t p ds.
Proof. intros. cbn. by destruct (error e). Qed.

(** A call on an existing file never panics and keeps memory and disk in step.
    When it reports applied edits, the file now holds exactly the new text that
    is reported, computed from the text that was read; when it reports anything
    else, a stale anchor, an overlap, a fault of the file system, no file has
    changed. *)
Theorem edit_changes_file_iff_applied params joined display edits f p :
  try_canonicalize f joined = Ok p →
  ∃ res f', run params joined display edits f = (Some res, f') ∧
  match res with
  | Ok (SrApplied old new _ path _) =>
      path = p ∧ f' = <[p := new]> f ∧ ∃ bytes, f !! p = Some bytes ∧ old = from_utf8_lossy bytes
  | _ => f' = f
  end.
Proof.
  intros Hp. unfold run. destruct edits as [|op edits]; [by eexists _, _|].
  set (ops := op :: edits). destruct (build_scheme_no_panic params) as [[s|e] Hs]; rewrite Hs; [|by eexists _, _].
  pose proof (build_scheme_lawful _ _ Hs) as Hlaw. rewrite Hp. cbv zeta.
  unfold edit_existing. destruct (read_file p f) as [bytes|[| | | | |why]] eqn:Hread; [|by eexists _, _..].
  assert (Hbytes : f !! p = Some bytes).
  { unfold read_file in Hread. destruct (read_fault p); [done|]. by destruct (f !! p); simplify_eq/=. }
  destruct (apply_edits_outcome s (from_utf8_lossy bytes) ops p)
    as (r & -> & [[e ->]|(a & c & ds & -> & Ha)]); cbn [new_content output apply_error].
  - eexists _, _. split; [done|]. pose proof (error_not_applied e p (from_utf8_lossy bytes)) as Hne.
    by destruct (to_search_replace _ _ _ _ _) eqn:E; [edestruct Hne|..].
  - unfold write_file. destruct (write_fault p) as [w|]; [by eexists _, _|].
    eexists _, _. split; [done|]. cbn. split_and!; [done|done|]. by exists bytes.
Qed.

(** Writing a new file whose text contains pasted anchors is refused, yet the
    file has been created with that text: the check comes after the write. *)
Theorem rejected_write_creates_file params joined display text f n s e :
  build_scheme params = Some (Ok s) →
  try_canonicalize f joined = Err e → try_resolve_unicode_filename f joined = None →
  write_fault joined = None → detect_anchor_prefix_in_content text = Some n →
  ∃ msg, run params joined display [Write text] f = (Some (Ok (SrInvalidInput msg)), <[joined := text]> f).
Proof.
  intros Hs Hc Hu Hw Hd. unfold run. rewrite Hs, Hc, Hu. unfold create_new, write_file. rewrite Hw.
  cbn [apply_edits]. unfold apply_edits. rewrite Hd. cbn. by eexists.
Qed.

End EditProps.

(** A host that answers every path with itself if it exists. *)
Module ToyHost.
#[global] Instance toy_host : HostFs := {|
  try_canonicalize f p := if bool_decide (is_Some (f !! p)) then Ok p else Err IoNotFound;
  is_dir _ _ := false;
  try_resolve_unicode_filename _ _ := None;
  canonicalize_with_timeout _ p := p;
  read_fault _ := None;
  write_fault p := if bool_decide (p = "read-only") then Some (IoOther "denied") else None;
  show_io_error e := match e with IoOther why => why | _ => "not found" end;
  format_not_found_error _ d _ := "no file " +:+ d;
|}.
Definition disk : fs := {["f.rs" := EditExamples.file]}.
End ToyHost.

Lemma edit_changes_file_iff_applied_witness : ∃ res f',
  run default_params "f.rs" "f.rs" [Replace "2:zzz:zzz" None "x"] ToyHost.disk = (Some res, f') ∧ f' = ToyHost.disk.
Proof.
  destruct (@edit_changes_file_iff_applied ToyHost.toy_host default_params "f.rs" "f.rs" [Replace "2:zzz:zzz" None "x"] ToyHost.disk "f.rs"
    ltac:(vm_compute; reflexivity)) as (res & f' & Hr & Hm).
  exists res, f'. split; [exact Hr|].
  assert (E : (λ r, match r with Ok (SrNoMatches _ _) => true | _ => false end) <$>
    (run default_params "f.rs" "f.rs" [Replace "2:zzz:zzz" None "x"] ToyHost.disk).1 = Some true)
    by (vm_compute; reflexivity).
  rewrite Hr in E. destruct res as [[]|]; try discriminate E. exact Hm.
Defined.

Lemma rejected_write_creates_file_witness : ∃ msg,
  run default_params "new.rs" "new.rs" [Write ("22:abc:rst" +:+ arrow +:+ "fn main() {}")] ∅ =
  (Some (Ok (SrInvalidInput msg)), <["new.rs" := "22:abc:rst" +:+ arrow +:+ "fn main() {}"]> ∅).
Proof.
  apply (@rejected_write_creates_file ToyHost.toy_host default_params "new.rs" "new.rs" ("22:abc:rst" +:+ arrow +:+ "fn main() {}") ∅ 1
           (ChunkFingerprint 3 8) IoNotFound); [reflexivity|reflexivity|reflexivity|reflexivity|vm_compute; reflexivity].
Defined.

(** * [hashline_grep] *)

Module Export GrepTool.

(** The leading digits of a line and the rest. *)
Fixpoint digit_prefix (s : string) : string * string :=
  match s with
  | "" => ("", "")
  | String a s' => if is_ascii_digit a then let '(d, r) := digit_prefix s' in (String a d, r) else ("", s)
  end.

(** A numbered line: [123:content] or [45-context]. *)
Definition parse_rg_line (line : string) : option (N * ascii * string) :=
  let '(digits, rest) := digit_prefix line in
  match rest with
  | String sep content =>
      if is_empty digits then None
      else if bool_decide (sep = colon) || bool_decide (sep = "-"%char) then
        num ← parse_u64 digits; Some (num, sep, content)
      else None
  | "" => None
  end.

Section Inject.
Context `{HostFs} (s : AnchorScheme) (f : fs) (cwd : string).

Record InjectState : Type := MkInject {
  file_anchors : gmap string (list Anchor);
  inject_result : string;
  current_file : option string;
}.

Definition get_or_generate (cache : gmap string (list Anchor)) (path : string) :
    gmap string (list Anchor) * option (list Anchor) :=
  match cache !! path with
  | Some anchors => (cache, Some anchors)
  | None =>
      match read_file path f with
      | Err _ => (cache, None)
      | Ok bytes =>
          let anchors := generate_anchors s (split_lines (from_utf8_lossy bytes)) in
          (<[path := anchors]> cache, Some anchors)
      end
  end.

Definition with_anchor (a : Anchor) (line_num : N) (separator : ascii) (content : string) : string :=
  pretty line_num +:+ ":" +:+ anchor_suffix a +:+ String separator content.

(** What is appended for one line of the body, with the cache and the current
    file after it. [None]: [anchors[line_num - 1]] panics for line 0. *)
Definition inject_line (cache : gmap string (list Anchor)) (current : option string) (line : string) :
    option (gmap string (list Anchor) * option string * string) :=
  if bool_decide (line = "--") then Some (cache, current, line)
  else
    let '(cache, anchored) :=
      match parse_rg_line line, current with
      | Some (line_num, separator, content), Some file_path =>
          let '(cache, anchors) := get_or_generate cache file_path in
          match anchors with
          | Some anchors =>
              if bool_decide (line_num - 1 < N.of_nat (length anchors))%N
              then (cache, Some (line_num, separator, content, anchors))
              else (cache, None)
          | None => (cache, None)
          end
      | _, _ => (cache, None)
      end in
    match anchored with
    | Some (line_num, separator, content, anchors) =>
        if bool_decide (line_num = 0%N) then None
        else
          a ← anchors !! N.to_nat (line_num - 1);
          Some (cache, current, with_anchor a line_num separator content)
    | None =>
        let current :=
          if bool_decide (parse_rg_line line = None) && negb (starts_with "Found " line) &&
             negb (starts_with "... [" line) && negb (is_empty line)
          then Some (path_join cwd line) else current in
        Some (cache, current, line)
    end.

Definition inject_step (st : option InjectState) (line : string) : option InjectState :=
  st ← st;
  let result := inject_result st in
  let result := if negb (ends_with newline result) && negb (ends_with ">" result)
                then result +:+ newline else result in
  '(cache, current, piece) ← inject_line (file_anchors st) (current_file st) line;
  Some (MkInject cache (result +:+ piece) current).

Definition inject_anchors (stdout_bytes : string) : option string :=
  let stdout := from_utf8_lossy stdout_bytes in
  match find (">" +:+ newline) stdout, rfind (newline +:+ "</workspace_result>") stdout with
  | Some start, Some end_ =>
      let body_start := start + 2 in
      if bool_decide (end_ < body_start) then None
      else
        let prefix := str_take body_start stdout in
        let body := slice body_start end_ stdout in
        let suffix := str_drop end_ stdout in
        st ← foldl inject_step (Some (MkInject ∅ prefix None)) (lines body);
        Some (inject_result st +:+ suffix)
  | _, _ => Some stdout_bytes
  end.

End Inject.

End GrepTool.

(** * Properties of the search anchors *)

Section GrepProps.
Context `{HostFs} (s : AnchorScheme) `{!LawfulScheme s} (f : fs) (cwd : string).

(** The cached anchors are those of the files as they are. *)
Definition coherent (cache : gmap string (list Anchor)) : Prop :=
  map_Forall (λ p anchors, ∃ bytes, read_file p f = Ok bytes ∧
    anchors = generate_anchors s (split_lines (from_utf8_lossy bytes))) cache.

Lemma get_or_generate_coherent cache path cache' anchors :
  coherent cache → get_or_generate s f cache path = (cache', anchors) →
  coherent cache' ∧ ∀ l, anchors = Some l → ∃ bytes, read_file path f = Ok bytes ∧
    l = generate_anchors s (split_lines (from_utf8_lossy bytes)).
Proof.
  intros Hc. unfold get_or_generate. destruct (cache !! path) as [l|] eqn:E.
  - intros [= <- <-]. split; [done|]. intros ? [= <-]. by apply (Hc path).
  - destruct (read_file path f) as [bytes|e] eqn:Hr; intros [= <- <-]; [|by split].
    split; [|naive_solver]. apply map_Forall_insert_2; [naive_solver|done].
Qed.

(** Every line of a search result is passed on as it is or gets an anchor that
    names the line it numbers: with the anchor put back into an edit of the
    current file, that very line is found. *)
Theorem search_anchor_names_line cache current line cache' current' piece :
  (∀ p bytes, f !! p = Some bytes → len (split_lines (from_utf8_lossy bytes)) ≤ u64_max)%N →
  coherent cache → inject_line s f cwd cache current line = Some (cache', current', piece) →
  coherent cache' ∧
  (piece = line ∨ ∃ n sep rest path bytes a,
     parse_rg_line line = Some (n, sep, rest) ∧ current = Some path ∧ current' = current ∧
     read_file path f = Ok bytes ∧ piece = Anchor_render a +:+ String sep rest ∧ (0 < n)%N ∧
     validate_anchor (Anchor_render a) (split_lines (from_utf8_lossy bytes)) s = Some (Ok (N.to_nat (n - 1)))).
Proof.
  intros Hsize Hc. unfold inject_line. case_bool_decide; [intros [= <- <- <-]; split; [done|by left]|].
  destruct (parse_rg_line line) as [[[n sep] rest]|] eqn:Ep;
    [|intros [= <- <- <-]; split; [done|by left]].
  destruct current as [path|]; [|intros [= <- <- <-]; split; [done|by left]].
  destruct (get_or_generate s f cache path) as [c anchors] eqn:Eg.
  apply get_or_generate_coherent in Eg as [Hc' Ha]; [|done].
  destruct anchors as [l|]; [|intros [= <- <- <-]; split; [done|by left]].
  destruct (Ha _ eq_refl) as (bytes & Hb & ->).
  case_bool_decide as Hn; [|intros [= <- <- <-]; split; [done|by left]].
  case_bool_decide as Hz; [done|]. intros (a & Hla & [= <- <- <-])%bind_Some.
  split; [done|]. right. exists n, sep, rest, path, bytes, a.
  pose proof (gen_line _ _ _ Hla) as Hline.
  split_and!; [done|done|done|done| |lia|].
  - unfold with_anchor, Anchor_render, anchor_suffix. rewrite Hline.
    replace (N.of_nat (N.to_nat (n - 1) + 1)) with n by lia.
    destruct (context a); by rewrite <-!app_assoc_str.
  - eapply validate_anchor_shown; [done| |done|by apply (strip_arrow_rendered s _ _ _ "" Hla)].
    apply (Hsize path). unfold read_file in Hb. destruct (read_fault path); [done|].
    by destruct (f !! path); simplify_eq/=.
Qed.

End GrepProps.

(** A search over two files whose second heading begins with a date. *)
Module GrepWitness.
Definition disk : fs := {["/w/a.rs" := "alpha"; "/w/2024-01.sql" := "beta"]}.
Definition found (heading : string) : string :=
  "<workspace_result workspace_path=" +:+ quote_str +:+ "/w" +:+ quote_str +:+ ">" +:+ newline +:+
  "Found 2 matching lines" +:+ newline +:+ "a.rs" +:+ newline +:+ "1:alpha" +:+ newline +:+
  heading +:+ newline +:+ "1:beta" +:+ newline +:+ "</workspace_result>".

Definition shown_as (heading : string) : string :=
  "<workspace_result workspace_path=" +:+ quote_str +:+ "/w" +:+ quote_str +:+ ">" +:+ newline +:+
  "Found 2 matching lines" +:+ newline +:+ "a.rs" +:+ newline +:+ "1:lbb:alpha" +:+ newline +:+
  heading +:+ newline +:+ "1:lbb:beta" +:+ newline +:+ "</workspace_result>".
End GrepWitness.

(** A heading that begins with digits and a dash is taken for a line of the file
    before it: the lines under it get that file's anchors, and with line number 0
    the tool panics. *)
Lemma dated_heading_misattributed :
  inject_anchors (H := ToyHost.toy_host) (ContentOnly 3) GrepWitness.disk "/w" (GrepWitness.found "2024-01.sql") =
    Some (GrepWitness.shown_as "2024-01.sql") ∧
  inject_anchors (H := ToyHost.toy_host) (ContentOnly 3) GrepWitness.disk "/w" (GrepWitness.found "0-intro.md") = None.
Proof. split; vm_compute; reflexivity. Qed.

(** The search of one file. *)
Definition one_hit := inject_line (H := ToyHost.toy_host) (ContentOnly 3) {["/w/a.rs" := "alpha"]} "/w" ∅
  (Some "/w/a.rs") "1:alpha".

Lemma search_anchor_names_line_witness : ∃ cache piece a,
  one_hit = Some (cache, Some "/w/a.rs", piece) ∧ piece = Anchor_render a +:+ ":alpha" ∧
  validate_anchor (Anchor_render a) ["alpha"] (ContentOnly 3) = Some (Ok 0).
Proof.
  assert (Hq : (λ r, (r.1.2, r.2)) <$> one_hit = Some (Some "/w/a.rs", "1:lbb:alpha")) by (vm_compute; reflexivity).
  destruct one_hit as [[[cache cur] piece]|] eqn:E; [|discriminate Hq]. injection Hq as -> Hp.
  destruct (@search_anchor_names_line ToyHost.toy_host EditWitness.sch EditWitness.sch_lawful {["/w/a.rs" := "alpha"]}
    "/w" ∅ (Some "/w/a.rs") "1:alpha" cache (Some "/w/a.rs") piece) as [_ [Hq|Hq]].
  - intros p bytes [_ <-]%lookup_singleton_Some. vm_compute. discriminate.
  - apply map_Forall_empty.
  - exact E.
  - rewrite Hp in Hq. discriminate.
  - destruct Hq as (n & sep & rest & path & bytes & a & Hl & Hc & _ & Hr & Hpiece & _ & Hv).
    vm_compute in Hl. injection Hl as <- <- <-. injection Hc as <-. vm_compute in Hr. injection Hr as <-.
    exists cache, piece, a. split; [reflexivity|]. split; [exact Hpiece|exact Hv].
Defined.
