(* ===== verification/Confusables.v ===== *)
(** Typography characters that look like ASCII (crate [ainxt-tools],
    [util/unicode_confusables.rs]): their normal form, the map from offsets in the
    normal form back to the text, and the search for text up to them
    ([search_replace/helpers.rs]). Positions are byte offsets; the searches and
    slices of the code are at character boundaries, which is not checked here. *)
From stdpp Require Import list.
From S2P Require Import Prelude RustStr StrSearch ToolFs.

Module Export Normalized.

Definition CONFUSABLE_MAP : list (string * string) :=
  [(str_of_bytes [226; 128; 156]%N, quote_str); (str_of_bytes [226; 128; 157]%N, quote_str);
   (str_of_bytes [226; 128; 152]%N, "'"); (str_of_bytes [226; 128; 153]%N, "'");
   (str_of_bytes [226; 128; 148]%N, "--"); (str_of_bytes [226; 128; 147]%N, "-");
   (str_of_bytes [226; 128; 166]%N, "..."); (str_of_bytes [194; 160]%N, " ")].

Definition lookup_confusable (c : string) : option string :=
  snd <$> head (filter (λ e, e.1 = c) CONFUSABLE_MAP).

Definition has_confusables (s : string) : bool :=
  existsb (λ c, bool_decide (is_Some (lookup_confusable c))) (chars s).

(** One character of the normal form. *)
Definition normal_char (c : string) : string := default c (lookup_confusable c).
Definition normalize_confusables (s : string) : string := concat_str (normal_char <$> chars s).

Record ConfusableHit : Type := MkHit {
  byte_offset : nat;
  unicode_char : string;
  ascii_replacement : string;
  line_number : nat;
}.

(** The loop over [char_indices]: [off] is the offset of the next character. *)
Fixpoint detect_go (off line : nat) (cs : list string) : list ConfusableHit :=
  match cs with
  | [] => []
  | c :: cs' =>
      let rest := detect_go (off + String.length c) (if bool_decide (c = newline) then S line else line) cs' in
      match lookup_confusable c with
      | Some replacement => MkHit off c replacement line :: rest
      | None => rest
      end
  end.
Definition detect_confusables (s : string) : list ConfusableHit := detect_go 0 1 (chars s).

(** The offsets of the bytes of the normal form of one character. *)
Definition char_offsets (off : nat) (c : string) : list nat :=
  match lookup_confusable c with
  | Some replacement => replicate (String.length replacement) off
  | None => seq off (String.length c)
  end.
Fixpoint offsets_go (off : nat) (cs : list string) : list nat :=
  match cs with
  | [] => []
  | c :: cs' => char_offsets off c ++ offsets_go (off + String.length c) cs'
  end.
Definition build_offset_map (s : string) : string * list nat :=
  (normalize_confusables s, offsets_go 0 (chars s) ++ [String.length s]).

End Normalized.

(** * Matches *)

Module Export Matches.

(** [s.match_indices(p)] for a non-empty [p]: [skip] bytes of a match remain,
    [pos] is the offset of [s]. *)
Fixpoint match_go (p : string) (skip pos : nat) (s : string) : list nat :=
  match s with
  | "" => []
  | String _ s' =>
      match skip with
      | S skip' => match_go p skip' (S pos) s'
      | 0 => if starts_with p s then pos :: match_go p (String.length p - 1) (S pos) s'
             else match_go p 0 (S pos) s'
      end
  end.
Definition match_indices (p s : string) : list nat := match_go p 0 0 s.

Record NormalizedMatch : Type := MkMatch { original_start : nat; original_len : nat }.
#[export] Instance NormalizedMatch_eq_dec : EqDecision NormalizedMatch.
Proof. solve_decision. Defined.

Inductive NormalizedMatchResult : Type :=
| NoMatch
| Matches (ms : list NormalizedMatch)
| Ambiguous.

(** One candidate: [None] if it is rejected. [offset_map[i]] is in range. *)
Definition validate_candidate (text : string) (offset_map : list nat) (norm_pattern : string)
    (norm_start : nat) : option NormalizedMatch :=
  let norm_end := norm_start + String.length norm_pattern in
  let orig_start := default 0 (offset_map !! norm_start) in
  let orig_end := default 0 (offset_map !! norm_end) in
  if bool_decide (orig_end ≤ orig_start) then None
  else
    let orig_slice := slice orig_start orig_end text in
    if negb (bool_decide (normalize_confusables orig_slice = norm_pattern)) then None
    else Some (MkMatch orig_start (orig_end - orig_start)).

Fixpoint spans_overlap (ms : list NormalizedMatch) : bool :=
  match ms with
  | a :: (b :: _) as rest =>
      bool_decide (original_start b < original_start a + original_len a) || spans_overlap rest
  | _ => false
  end.

Definition find_normalized_match_positions (text pattern : string) : NormalizedMatchResult :=
  let '(norm_text, offset_map) := build_offset_map text in
  let norm_pattern := normalize_confusables pattern in
  if is_empty norm_pattern then NoMatch
  else
    let candidates := validate_candidate text offset_map norm_pattern <$> match_indices norm_pattern norm_text in
    let validated := omap id candidates in
    let had_rejected_candidates := existsb (λ c, bool_decide (c = None)) candidates in
    match validated with
    | [] => if had_rejected_candidates then Ambiguous else NoMatch
    | _ => if spans_overlap validated then Ambiguous else Matches validated
    end.

(** The replacement loop: text up to each match, the new string, the rest; with
    the offsets of the new strings. [last_end] is the end of the last match and
    [out] the length of the text produced. *)
Fixpoint replace_spans (text new_string : string) (last_end out : nat) (ms : list NormalizedMatch) :
    string * list nat :=
  match ms with
  | [] => (str_drop last_end text, [])
  | m :: rest =>
      let before := slice last_end (original_start m) text in
      let out := out + String.length before in
      let '(t, ps) := replace_spans text new_string (original_start m + original_len m)
                        (out + String.length new_string) rest in
      (before +:+ new_string +:+ t, out :: ps)
  end.
Definition replace_normalized_matches (text : string) (ms : list NormalizedMatch) (new_string : string) :
    string * list nat := replace_spans text new_string 0 0 ms.

(** The same for matches of one string. *)
Definition replace_using_positions (text : string) (match_positions : list nat) (old_string new_string : string) :
    string * list nat :=
  replace_spans text new_string 0 0 ((λ pos, MkMatch pos (String.length old_string)) <$> match_positions).

End Matches.

(** * Replacing matches *)

(** Replacing at the matches is [str::replace]. *)
Lemma replace_spans_matches p new s : p ≠ "" →
  (∀ text pre mid out, text = pre +:+ mid +:+ s →
     (replace_spans text new (String.length pre) out
        ((λ q, MkMatch q (String.length p)) <$> match_go p 0 (String.length pre + String.length mid) s)).1 =
     mid +:+ replace_go p new 0 s) ∧
  (∀ text pre k out, text = pre +:+ s →
     (replace_spans text new (String.length pre + k) out
        ((λ q, MkMatch q (String.length p)) <$> match_go p k (String.length pre) s)).1 =
     replace_go p new k s).
Proof.
  intros Hp. induction s as [|a s [IHa IHb]].
  - split.
    + intros text pre mid out ->. cbn. by rewrite str_drop_app, !app_nil_r_str.
    + intros text pre k out ->. cbn. rewrite app_nil_r_str. rewrite <-(app_nil_r_str pre) at 2.
      rewrite str_drop_app_add. by destruct k.
  - assert (HA : ∀ text pre mid out, text = pre +:+ mid +:+ String a s →
     (replace_spans text new (String.length pre) out
        ((λ q, MkMatch q (String.length p)) <$> match_go p 0 (String.length pre + String.length mid) (String a s))).1 =
     mid +:+ replace_go p new 0 (String a s)).
    { intros text pre mid out E. cbn [match_go replace_go].
      assert (E' : text = (pre +:+ mid +:+ String a "") +:+ s) by (rewrite E, <-!app_assoc_str; done).
      assert (El : String.length (pre +:+ mid +:+ String a "") = S (String.length pre + String.length mid))
        by (rewrite !length_app_str; cbn; lia).
      destruct (starts_with p (String a s)).
      - cbn [fmap list_fmap replace_spans original_start original_len].
        assert (Hs : slice (String.length pre) (String.length pre + String.length mid) text = mid)
          by (rewrite E; apply slice_mid).
        rewrite Hs.
        specialize (IHb text (pre +:+ mid +:+ String a "") (String.length p - 1)
          (out + String.length mid + String.length new) E').
        rewrite El in IHb.
        replace (S (String.length pre + String.length mid) + (String.length p - 1))
          with (String.length pre + String.length mid + String.length p) in IHb by (destruct p; [done|cbn; lia]).
        rewrite <-IHb. by destruct (replace_spans _ _ _ _ _).
      - specialize (IHa text pre (mid +:+ String a "") out).
        rewrite length_app_str in IHa. cbn in IHa.
        replace (String.length pre + (String.length mid + 1)) with (S (String.length pre + String.length mid)) in IHa by lia.
        rewrite IHa by (rewrite E, <-!app_assoc_str; done). by rewrite <-app_assoc_str. }
    split; [done|]. intros text pre [|k] out E.
    + specialize (HA text pre "" out E). cbn in HA. by rewrite !Nat.add_0_r in *.
    + cbn [match_go replace_go]. specialize (IHb text (pre +:+ String a "") k out).
      rewrite length_app_str in IHb. cbn in IHb.
      replace (String.length pre + S k) with (String.length pre + 1 + k) by lia.
      replace (S (String.length pre)) with (String.length pre + 1) by lia.
      apply IHb. by rewrite E, <-app_assoc_str.
Qed.

Lemma replace_using_matches p new text : p ≠ "" →
  (replace_using_positions text (match_indices p text) p new).1 = replace p new text.
Proof.
  intros Hp. destruct (replace_spans_matches p new text Hp) as [HA _].
  specialize (HA text "" "" 0 eq_refl). exact HA.
Qed.

(** The offsets returned are those of the new strings. *)
Lemma replace_spans_positions text new last out ms k q :
  (replace_spans text new last out ms).2 !! k = Some q →
  out ≤ q ∧ ∃ u v, (replace_spans text new last out ms).1 = u +:+ new +:+ v ∧ out + String.length u = q.
Proof.
  revert last out k. induction ms as [|m ms IH]; intros last out k; cbn [replace_spans]; [done|].
  set (before := slice last (original_start m) text).
  destruct (replace_spans text new (original_start m + original_len m)
    (out + String.length before + String.length new) ms) as [t ps] eqn:E.
  destruct k as [|k]; cbn [lookup list_lookup snd fst].
  - intros [= <-]. split; [lia|]. by exists before, t.
  - intros Hk. specialize (IH (original_start m + original_len m) (out + String.length before + String.length new) k).
    rewrite E in IH. apply IH in Hk as (Hle & u & v & Ht & Hu). split; [lia|].
    exists (before +:+ new +:+ u), v. cbn [fst] in Ht. rewrite Ht, !length_app_str, !app_assoc_str. split; [done|]. lia.
Qed.

Lemma replace_spans_length text new last out ms :
  length (replace_spans text new last out ms).2 = length ms.
Proof.
  revert last out. induction ms as [|m ms IH]; intros last out; cbn [replace_spans]; [done|].
  specialize (IH (original_start m + original_len m)
    (out + String.length (slice last (original_start m) text) + String.length new)).
  destruct (replace_spans _ _ _ _ ms). cbn in *. by rewrite IH.
Qed.

(** * The offset map *)

Definition norm_of (cs : list string) : string := concat_str (normal_char <$> cs).

Lemma normalize_part s l m r : chars s = l ++ m ++ r → normalize_confusables (concat_str m) = norm_of m.
Proof. intros E. unfold normalize_confusables. by rewrite (chars_part _ _ _ _ E). Qed.

Lemma norm_of_app l m : norm_of (l ++ m) = norm_of l +:+ norm_of m.
Proof. unfold norm_of. by rewrite fmap_app, concat_str_app. Qed.

Lemma lookup_confusable_Some c r : lookup_confusable c = Some r → r ∈ CONFUSABLE_MAP.*2.
Proof.
  unfold lookup_confusable. destruct (filter _ CONFUSABLE_MAP) as [|e l] eqn:E; [done|]. intros [= <-].
  assert (He : e ∈ filter (λ e, e.1 = c) CONFUSABLE_MAP) by (rewrite E; by left).
  apply list_elem_of_filter in He as [_ He]. by apply list_elem_of_fmap_2.
Qed.

Lemma replacement_not_empty c r : lookup_confusable c = Some r → 0 < String.length r.
Proof.
  intros H%lookup_confusable_Some. revert r H. apply Forall_forall.
  apply (bool_decide_unpack _). vm_compute. exact I.
Qed.

Lemma length_char_offsets off c : length (char_offsets off c) = String.length (normal_char c).
Proof.
  unfold char_offsets, normal_char. destruct (lookup_confusable c); cbn; [apply length_replicate|apply length_seq].
Qed.

Lemma char_offsets_first off c : one_char c → char_offsets off c !! 0 = Some off.
Proof.
  intros (a & t & -> & _). unfold char_offsets.
  destruct (lookup_confusable (String a t)) as [r|] eqn:E; [|done].
  apply replacement_not_empty in E. by destruct r; [cbn in E; lia|].
Qed.

Lemma offsets_go_app off l m :
  offsets_go off (l ++ m) = offsets_go off l ++ offsets_go (off + String.length (concat_str l)) m.
Proof.
  revert off. induction l as [|c l IH]; intros off; cbn [app offsets_go].
  - by rewrite Nat.add_0_r.
  - rewrite IH, <-app_assoc. change (concat_str (c :: l)) with (c +:+ concat_str l).
    by rewrite length_app_str, Nat.add_assoc.
Qed.

Lemma length_offsets_go off cs : length (offsets_go off cs) = String.length (norm_of cs).
Proof.
  revert off. induction cs as [|c cs IH]; intros off; cbn [offsets_go]; [done|].
  change (norm_of (c :: cs)) with (normal_char c +:+ norm_of cs).
  by rewrite length_app, length_char_offsets, IH, length_app_str.
Qed.

(** The end of a run of characters maps to the end of the run. *)
Lemma offset_map_boundary s l r : chars s = l ++ r →
  (build_offset_map s).2 !! String.length (norm_of l) = Some (String.length (concat_str l)).
Proof.
  intros E. cbn [build_offset_map snd]. rewrite E, offsets_go_app, <-app_assoc.
  rewrite <-(length_offsets_go 0 l), lookup_app_r, Nat.sub_diag by lia. cbn [Nat.add].
  destruct r as [|c r].
  - cbn. rewrite <-(concat_chars s), E, app_nil_r. done.
  - destruct (chars_wf s) as [H1 _]. rewrite E in H1. apply Forall_app in H1 as [_ [Hc _]%Forall_cons].
    cbn [offsets_go]. rewrite <-app_assoc, lookup_app_l; [by apply char_offsets_first|].
    eapply lookup_lt_Some. by apply (char_offsets_first (String.length (concat_str l))).
Qed.

Lemma offsets_go_sorted off cs : StronglySorted le (offsets_go off cs) ∧
  Forall (λ o, off ≤ o ≤ off + String.length (concat_str cs)) (offsets_go off cs).
Proof.
  revert off. induction cs as [|c cs IH]; intros off; cbn [offsets_go]; [split; constructor|].
  destruct (IH (off + String.length c)) as [Hs Hb].
  assert (Hc : StronglySorted le (char_offsets off c) ∧
               Forall (λ o, off ≤ o ≤ off + String.length c) (char_offsets off c)).
  { unfold char_offsets. destruct (lookup_confusable c) as [r|].
    - split; [|apply Forall_replicate; lia]. generalize (String.length r) as n.
      induction n as [|n IHn]; cbn; constructor; [done|]. apply Forall_replicate. lia.
    - split; [|apply Forall_forall; intros x ?%elem_of_seq; lia]. generalize (String.length c) as n.
      intros n. revert off Hs Hb IH. intros off _ _ _. revert off.
      induction n as [|n IHn]; intros off; cbn; constructor; [done|].
      apply Forall_forall. intros x ?%elem_of_seq. lia. }
  destruct Hc as [Hc1 Hc2]. change (concat_str (c :: cs)) with (c +:+ concat_str cs). rewrite length_app_str. split.
  - apply StronglySorted_app_le; [done|done|]. intros x y Hx Hy.
    rewrite Forall_forall in Hc2, Hb. specialize (Hc2 _ Hx). specialize (Hb _ Hy). lia.
  - apply Forall_app. split; (eapply Forall_impl; [eassumption|]); cbn; lia.
Qed.

(** At a character boundary of the normal form the map gives one of the text. *)
Lemma offsets_go_lookup cs off i o : Forall one_char cs → offsets_go off cs !! i = Some o →
  begins_char (str_drop i (norm_of cs)) → ∃ l r, cs = l ++ r ∧ o = off + String.length (concat_str l).
Proof.
  revert off i. induction cs as [|c cs IH]; intros off i; cbn [offsets_go]; [done|].
  intros [Hc Hcs]%Forall_cons Hi Hb.
  change (norm_of (c :: cs)) with (normal_char c +:+ norm_of cs) in Hb.
  destruct (decide (i < length (char_offsets off c))) as [Hlt|Hge].
  - exists [], (c :: cs). split; [done|]. cbn. rewrite lookup_app_l in Hi by done.
    unfold char_offsets in *. unfold normal_char in Hb. destruct (lookup_confusable c) as [r|].
    + apply lookup_replicate in Hi as [-> _]. lia.
    + apply lookup_seq in Hi as [-> _]. rewrite length_seq in Hlt. cbn [default] in Hb.
      destruct Hc as (a & t & -> & Ht). destruct i as [|i]; [lia|]. exfalso. cbn in Hlt, Hb.
      rewrite app_cons_str in Hb. cbn [str_drop] in Hb. clear IH Hcs. revert i t Ht Hlt Hb.
      induction i as [|i IHi]; intros [|b t] Ht Hlt Hb; cbn in Hlt; try lia; cbn [bytes_all] in Ht;
        apply andb_prop in Ht as [Hbc Ht]; rewrite app_cons_str in Hb; cbn [str_drop] in Hb.
      * unfold begins_char in Hb. cbn in Hb. congruence.
      * apply (IHi t); [done|lia|done].
  - rewrite lookup_app_r in Hi by lia. rewrite length_char_offsets in Hi, Hge.
    replace i with (String.length (normal_char c) + (i - String.length (normal_char c))) in Hb by lia.
    rewrite str_drop_app_add in Hb. destruct (IH _ _ Hcs Hi Hb) as (l & r & -> & ->).
    exists (c :: l), r. split; [done|]. change (concat_str (c :: l)) with (c +:+ concat_str l).
    rewrite length_app_str. lia.
Qed.

Lemma offset_map_lookup s i : i ≤ String.length (normalize_confusables s) →
  begins_char (str_drop i (normalize_confusables s)) →
  ∃ l r, chars s = l ++ r ∧ (build_offset_map s).2 !! i = Some (String.length (concat_str l)).
Proof.
  intros Hi Hb. cbn [build_offset_map snd].
  destruct (decide (i = String.length (normalize_confusables s))) as [->|Hne].
  - exists (chars s), []. rewrite app_nil_r. split; [done|].
    rewrite lookup_app_r by (rewrite length_offsets_go; unfold norm_of, normalize_confusables; lia).
    rewrite length_offsets_go. unfold norm_of, normalize_confusables. rewrite Nat.sub_diag. cbn.
    by rewrite concat_chars.
  - destruct (offsets_go 0 (chars s) !! i) as [o|] eqn:E.
    + destruct (offsets_go_lookup _ _ _ _ (proj1 (chars_wf s)) E Hb) as (l & r & Hlr & ->).
      exists l, r. split; [done|]. by rewrite lookup_app_l by (by apply lookup_lt_Some in E).
    + apply lookup_ge_None in E. rewrite length_offsets_go in E.
      unfold norm_of, normalize_confusables in *. lia.
Qed.

Lemma utf8_normalize s : utf8 s = true → utf8 (normalize_confusables s) = true.
Proof.
  unfold utf8 at 1, normalize_confusables. rewrite forallb_forall. intros H.
  assert (Hcs : Forall (λ c, utf8_char c = true) (chars s)).
  { apply Forall_forall. intros c Hc. apply H. by apply list_elem_of_In. }
  clear H. fold (norm_of (chars s)). induction Hcs as [|c cs Hc _ IH]; [done|].
  change (norm_of (c :: cs)) with (normal_char c +:+ norm_of cs).
  apply utf8_app; [|done]. unfold normal_char. destruct (lookup_confusable c) as [r|] eqn:E; cbn.
  - apply lookup_confusable_Some in E. revert r E. apply Forall_forall. apply (bool_decide_unpack _). vm_compute. exact I.
  - unfold utf8. rewrite (chars_single c Hc). cbn. by rewrite Hc.
Qed.

(** * Matches *)

Lemma match_go_skip p n pos s q : q ∈ match_go p n pos s → ∃ x t, s = x +:+ t ∧ String.length x = n ∧ q ∈ match_go p 0 (pos + n) t.
Proof.
  revert pos s. induction n as [|n IH]; intros pos s Hq.
  - exists "", s. by rewrite Nat.add_0_r.
  - destruct s as [|a s]; [by apply not_elem_of_nil in Hq|]. cbn [match_go] in Hq.
    apply IH in Hq as (x & t & -> & <- & Hq). exists (String a x), t. split; [done|]. split; [done|].
    by replace (pos + S (String.length x)) with (S pos + String.length x) by lia.
Qed.

(** Every position found holds the pattern. *)
Lemma match_go_sound p s k pos q : q ∈ match_go p k pos s → ∃ u v, s = u +:+ p +:+ v ∧ q = pos + String.length u.
Proof.
  revert k pos. induction s as [|a s IH]; intros k pos; cbn [match_go]; [by intros ?%not_elem_of_nil|].
  assert (Hrec : ∀ k, q ∈ match_go p k (S pos) s → ∃ u v, String a s = u +:+ p +:+ v ∧ q = pos + String.length u).
  { intros k' (u & v & -> & ->)%IH. exists (String a u), v. split; [done|]. cbn. lia. }
  destruct k as [|k]; [|apply Hrec]. destruct (starts_with p (String a s)) eqn:E; [|apply Hrec].
  rewrite elem_of_cons. intros [->|Hq]; [|by eapply Hrec].
  apply starts_with_spec in E as [v E]. exists "", v. split; [done|]. cbn. lia.
Qed.

Lemma match_indices_nil p s : p ≠ "" → match_indices p s = [] ↔ contains p s = false.
Proof.
  intros Hp. unfold match_indices. generalize 0 at 2 as pos. induction s as [|a s IH]; intros pos.
  - cbn [match_go]. rewrite contains_nil. destruct p; [done|]. split; [|done]. intros _.
    destruct (starts_with (String a p) "") eqn:E; [|done]. by apply starts_with_spec in E as [? [=]].
  - cbn [match_go]. rewrite contains_cons. destruct (starts_with p (String a s)); [done|]. apply IH.
Qed.

(** A run of whole characters of the text whose normal form is [np]. *)
Definition valid_match (text np : string) (m : NormalizedMatch) : Prop :=
  ∃ l c r, chars text = l ++ c ++ r ∧ original_start m = String.length (concat_str l) ∧
    original_len m = String.length (concat_str c) ∧ c ≠ [] ∧ norm_of c = np.
Definition before_match (a b : NormalizedMatch) : Prop := original_start a + original_len a ≤ original_start b.

Lemma concat_prefix_le s l1 r1 l2 r2 : chars s = l1 ++ r1 → chars s = l2 ++ r2 →
  String.length (concat_str l1) < String.length (concat_str l2) → ∃ c, l2 = l1 ++ c ∧ c ≠ [].
Proof.
  intros E1 E2 Hlt. rewrite E1 in E2. apply app_eq_inv in E2 as [(k & -> & _)|(k & -> & _)].
  - rewrite concat_str_app, length_app_str in Hlt. lia.
  - exists k. split; [done|]. intros ->. rewrite app_nil_r in Hlt. lia.
Qed.

Lemma validate_candidate_valid text np u v m : utf8 text = true → utf8 np = true → np ≠ "" →
  normalize_confusables text = u +:+ np +:+ v →
  validate_candidate text (build_offset_map text).2 np (String.length u) = Some m → valid_match text np m.
Proof.
  intros Ht Hnp Hne En. pose proof (utf8_normalize text Ht) as Hn. rewrite En in Hn.
  destruct (offset_map_lookup text (String.length u)) as (l1 & r1 & E1 & L1).
  { rewrite En, !length_app_str. lia. }
  { rewrite En, str_drop_app. destruct np as [|a np]; [done|]. apply utf8_begins in Hnp. exact Hnp. }
  destruct (offset_map_lookup text (String.length u + String.length np)) as (l2 & r2 & E2 & L2).
  { rewrite En, !length_app_str. lia. }
  { rewrite En, str_drop_app_add, str_drop_app. by eapply utf8_inner_end. }
  unfold validate_candidate. cbn zeta. rewrite L1, L2. cbn [default from_option id].
  case_bool_decide as Hle; [done|]. apply Nat.nle_gt in Hle.
  destruct (concat_prefix_le _ _ _ _ _ E1 E2 Hle) as (c & -> & Hc).
  rewrite concat_str_app, length_app_str. rewrite <-app_assoc in E2.
  assert (Es : text = concat_str l1 +:+ concat_str c +:+ concat_str r2).
  { by rewrite <-(concat_chars text), E2, !concat_str_app. }
  assert (Hs : slice (String.length (concat_str l1)) (String.length (concat_str l1) + String.length (concat_str c)) text = concat_str c)
    by (rewrite Es at 1; apply slice_mid).
  rewrite Hs, (normalize_part _ _ _ _ E2). case_bool_decide as Heq; [|done]. cbn [negb]. intros [= <-].
  exists l1, c, r2. cbn. repeat split; try done. lia.
Qed.

Lemma validate_candidate_norm text om np q m : validate_candidate text om np q = Some m →
  normalize_confusables (slice (original_start m) (original_start m + original_len m) text) = np.
Proof.
  unfold validate_candidate. cbn zeta. generalize (default 0 (om !! q)) as a.
  generalize (default 0 (om !! (q + String.length np))) as b. intros b a.
  case_bool_decide; [done|]. case_bool_decide as Hn; [|done].
  cbn [negb]. intros [= <-]. cbn [original_start original_len]. rewrite <-Hn. do 2 f_equal. lia.
Qed.

Lemma spans_overlap_sorted ms : spans_overlap ms = false → StronglySorted before_match ms.
Proof.
  intros H. apply Sorted_StronglySorted.
  { intros a b c. unfold before_match. lia. }
  induction ms as [|a ms IH]; [constructor|]. destruct ms as [|b ms]; [by repeat constructor|].
  cbn [spans_overlap] in H. apply orb_false_elim in H as [Hab H]. apply bool_decide_eq_false in Hab.
  constructor; [by apply IH|]. constructor. unfold before_match. lia.
Qed.

Lemma normalize_empty s : is_empty (normalize_confusables s) = true → s = "".
Proof.
  intros H. destruct (normalize_confusables s) as [|a n] eqn:E; [|done]. clear H.
  destruct s as [|a s]; [done|]. exfalso. unfold normalize_confusables in E.
  destruct (chars_first a s) as (c & cs & Ec). rewrite Ec in E. cbn [fmap list_fmap concat_str foldr] in E.
  apply app_str_eq_nil in E as [E _]. unfold normal_char in E.
  destruct (lookup_confusable (String a c)) as [r|] eqn:El; cbn in E; [|done].
  apply replacement_not_empty in El. subst r. cbn in El. lia.
Qed.

Lemma find_normalized_outcome text pattern ms : find_normalized_match_positions text pattern = Matches ms →
  let np := normalize_confusables pattern in
  np ≠ "" ∧ ms ≠ [] ∧ spans_overlap ms = false ∧
  Forall (λ m, ∃ u v, normalize_confusables text = u +:+ np +:+ v ∧
                      validate_candidate text (build_offset_map text).2 np (String.length u) = Some m) ms.
Proof.
  unfold find_normalized_match_positions. cbn zeta. cbn [build_offset_map].
  destruct (is_empty (normalize_confusables pattern)) eqn:Ee; [done|].
  set (np := normalize_confusables pattern) in *. set (om := offsets_go 0 (chars text) ++ [String.length text]).
  set (cands := validate_candidate text om np <$> match_indices np (normalize_confusables text)).
  intros E. assert (Hms : omap id cands = ms ∧ ms ≠ [] ∧ spans_overlap ms = false).
  { destruct (omap id cands) as [|m l]; [by destruct (existsb _ _)|].
    destruct (spans_overlap (m :: l)) eqn:Eo; [done|]. injection E as <-. done. }
  destruct Hms as (Hms & Hne & Ho). split; [by destruct np|]. split; [done|]. split; [done|].
  apply Forall_forall. intros m Hm. rewrite <-Hms in Hm.
  apply list_elem_of_omap in Hm as (c & Hc & Hcm). cbn in Hcm. subst c.
  apply list_elem_of_fmap in Hc as (q & Hq & Hin). apply match_go_sound in Hin as (u & v & Ev & ->).
  exists u, v. split; [done|]. by rewrite Hq.
Qed.

(** A normalized match is a run of whole characters of the text whose normal form is
    that of the pattern, and the matches are in order and do not overlap; that the
    text has no occurrence is reported exactly when the normal forms have none. *)
Theorem normalized_matches_sound text pattern (Ht : utf8 text = true) (Hp : utf8 pattern = true) :
  match find_normalized_match_positions text pattern with
  | Matches ms => ms ≠ [] ∧ Forall (valid_match text (normalize_confusables pattern)) ms ∧ StronglySorted before_match ms
  | NoMatch => pattern = "" ∨ contains (normalize_confusables pattern) (normalize_confusables text) = false
  | Ambiguous => contains (normalize_confusables pattern) (normalize_confusables text) = true
  end.
Proof.
  destruct (find_normalized_match_positions text pattern) as [|ms|] eqn:E.
  - destruct (is_empty (normalize_confusables pattern)) eqn:Ee; [left; by apply normalize_empty|right].
    unfold find_normalized_match_positions in E. cbn zeta in E. cbn [build_offset_map] in E. rewrite Ee in E.
    apply match_indices_nil; [by intros Hn; rewrite Hn in Ee|].
    destruct (match_indices _ _) as [|q qs]; [done|]. cbn [fmap list_fmap omap list_omap existsb id] in E.
    destruct (validate_candidate _ _ _ q) as [m|]; cbn [id] in E;
      [repeat case_match; done|].
    rewrite bool_decide_eq_true_2 in E by done. cbn [orb] in E.
    repeat case_match; done.
  - apply find_normalized_outcome in E as (Hne & Hms & Ho & Hall). split; [done|].
    split; [|by apply spans_overlap_sorted].
    eapply Forall_impl; [exact Hall|]. intros m (u & v & En & Hm).
    eapply validate_candidate_valid; [done|by apply utf8_normalize|done|done|done].
  - apply not_false_iff_true. intros Hc. unfold find_normalized_match_positions in E. cbn zeta in E.
    cbn [build_offset_map] in E. destruct (is_empty _) eqn:Ee; [done|].
    rewrite (proj2 (match_indices_nil _ _ ltac:(by intros Hn; rewrite Hn in Ee)) Hc) in E. done.
Qed.

Lemma normalized_matches_sound_witness :
  let text := "say " +:+ str_of_bytes [226; 128; 156]%N +:+ "hi" +:+ str_of_bytes [226; 128; 157]%N in
  let pattern := quote_str +:+ "hi" +:+ quote_str in
  utf8 text = true ∧ find_normalized_match_positions text pattern = Matches [MkMatch 4 8] ∧
  [MkMatch 4 8] ≠ [] ∧ Forall (valid_match text (normalize_confusables pattern)) [MkMatch 4 8] ∧
  StronglySorted before_match [MkMatch 4 8].
Proof.
  intros text pattern. assert (Hf : find_normalized_match_positions text pattern = Matches [MkMatch 4 8])
    by (vm_compute; reflexivity).
  pose proof (normalized_matches_sound text pattern eq_refl eq_refl) as Hw. rewrite Hf in Hw.
  split; [reflexivity|]. split; [exact Hf|exact Hw].
Defined.

(** The offset map: one entry for every byte of the normal form and one for its
    end, from 0 to the length of the text, never decreasing; the part of the normal
    form that comes from a run of characters is mapped back to exactly this run. *)
Theorem offset_map_contract s :
  let '(n, om) := build_offset_map s in
  length om = S (String.length n) ∧ om !! 0 = Some 0 ∧ om !! String.length n = Some (String.length s) ∧
  StronglySorted le om ∧
  ∀ l c r, chars s = l ++ c ++ r →
    let a := String.length (norm_of l) in
    let b := a + String.length (norm_of c) in
    slice a b n = norm_of c ∧
    ∃ x y, om !! a = Some x ∧ om !! b = Some y ∧ slice x y s = concat_str c ∧
      normalize_confusables (slice x y s) = slice a b n.
Proof.
  cbn [build_offset_map]. assert (Hlen : length (offsets_go 0 (chars s)) = String.length (normalize_confusables s))
    by apply length_offsets_go.
  pose proof (offset_map_boundary s) as HB. cbn [build_offset_map snd] in HB.
  split; [rewrite length_app, Hlen; cbn; lia|].
  split; [by apply (HB [] (chars s))|].
  split; [by rewrite <-Hlen, lookup_app_r, Nat.sub_diag by done|].
  split.
  { destruct (offsets_go_sorted 0 (chars s)) as [Hs Hb]. apply StronglySorted_app_le; [done|by repeat constructor|].
    intros x y Hx Hy%list_elem_of_singleton. subst y. rewrite Forall_forall in Hb. apply Hb in Hx.
    rewrite concat_chars in Hx. lia. }
  intros l c r E. cbn zeta.
  assert (Hn : normalize_confusables s = norm_of l +:+ norm_of c +:+ norm_of r).
  { unfold normalize_confusables. fold (norm_of (chars s)). by rewrite E, !norm_of_app. }
  assert (Hs : s = concat_str l +:+ concat_str c +:+ concat_str r)
    by (by rewrite <-(concat_chars s), E, !concat_str_app).
  rewrite Hn, slice_mid. split; [done|].
  exists (String.length (concat_str l)), (String.length (concat_str l) + String.length (concat_str c)).
  split; [by eapply HB|]. split.
  { rewrite <-length_app_str, <-norm_of_app, <-length_app_str, <-concat_str_app.
    apply (HB _ r). by rewrite <-app_assoc. }
  assert (Hx : slice (String.length (concat_str l)) (String.length (concat_str l) + String.length (concat_str c)) s = concat_str c)
    by (rewrite Hs at 1; apply slice_mid).
  rewrite Hx. split; [done|]. by eapply normalize_part.
Qed.

(** Not every range of the normal form is mapped to a text with this normal form:
    half an em-dash is mapped to nothing. *)
Lemma offset_map_splits_expansion :
  let s := str_of_bytes [226; 128; 148]%N in
  let '(n, om) := build_offset_map s in
  slice 0 1 n = "-" ∧ om !! 0 = Some 0 ∧ om !! 1 = Some 0 ∧ normalize_confusables (slice 0 0 s) = "".
Proof. vm_compute. done. Qed.

(** A candidate that fails the check is forgotten when another one passes: both
    em-dashes of the text have the normal form of the pattern, and only the second
    is found, since the search met the first one half way. *)
Lemma rejected_candidate_forgotten :
  let dash := str_of_bytes [226; 128; 148]%N in
  let text := "-" +:+ dash +:+ " " +:+ dash in
  normalize_confusables (slice 1 4 text) = "--" ∧ normalize_confusables (slice 5 8 text) = "--" ∧
  find_normalized_match_positions text "--" = Matches [MkMatch 5 3] ∧
  find_normalized_match_positions ("-" +:+ dash) "--" = Ambiguous.
Proof. vm_compute. done. Qed.

(** * Text woven from gaps and matches *)

Fixpoint weave (gaps mids : list string) : string :=
  match gaps, mids with
  | g :: gaps, m :: mids => g +:+ m +:+ weave gaps mids
  | g :: _, [] => g
  | [], _ => ""
  end.

Definition span_text (text : string) (m : NormalizedMatch) : string :=
  slice (original_start m) (original_start m + original_len m) text.

(** Replacing ordered spans of a text keeps the gaps and changes the spans. *)
Lemma replace_spans_weave text new last out ms :
  StronglySorted before_match ms → Forall (λ m, last ≤ original_start m) ms →
  ∃ gaps, length gaps = S (length ms) ∧
    str_drop last text = weave gaps (span_text text <$> ms) ∧
    (replace_spans text new last out ms).1 = weave gaps ((λ _, new) <$> ms).
Proof.
  intros Hs. revert last out. induction Hs as [|m ms Hs IH Hm]; intros last out Hl.
  { by exists [str_drop last text]. }
  apply Forall_cons in Hl as [Hlm Hl]. cbn [replace_spans].
  destruct (IH (original_start m + original_len m)
    (out + String.length (slice last (original_start m) text) + String.length new)) as (gaps & Hlen & Ht & Hr); [exact Hm|].
  destruct (replace_spans _ _ _ _ ms) as [t ps]. cbn [fst] in *.
  exists (slice last (original_start m) text :: gaps). rewrite !fmap_cons. cbn [length weave].
  split; [by rewrite Hlen|]. rewrite <-Ht, <-Hr. split; [|done]. unfold span_text.
  rewrite slice_drop by lia. by rewrite slice_drop.
Qed.

Lemma match_go_ge p k pos s q : q ∈ match_go p k pos s → pos + k ≤ q.
Proof.
  revert k pos. induction s as [|a s IH]; intros k pos; cbn [match_go]; [by intros ?%not_elem_of_nil|].
  destruct k as [|k]; [|intros Hq%IH; lia].
  destruct (starts_with p (String a s)); [rewrite elem_of_cons; intros [->|Hq%IH]; lia|intros Hq%IH; lia].
Qed.

Lemma match_go_sorted p k pos s : p ≠ "" → StronglySorted (λ a b, a + String.length p ≤ b) (match_go p k pos s).
Proof.
  intros Hp. revert k pos. induction s as [|a s IH]; intros k pos; cbn [match_go]; [constructor|].
  destruct k as [|k]; [|apply IH]. destruct (starts_with p (String a s)); [|apply IH].
  constructor; [apply IH|]. apply Forall_forall. intros q Hq%match_go_ge. destruct p; [done|cbn in *; lia].
Qed.

(** The occurrences of a string, as matches. *)
Definition exact_matches (p text : string) : list NormalizedMatch :=
  (λ pos, MkMatch pos (String.length p)) <$> match_indices p text.

Lemma exact_matches_spec p text : p ≠ "" →
  StronglySorted before_match (exact_matches p text) ∧ Forall (λ m, span_text text m = p) (exact_matches p text).
Proof.
  intros Hp. unfold exact_matches. split.
  - assert (Hs := match_go_sorted p 0 0 text Hp). unfold match_indices.
    induction Hs as [|q qs _ IH Hq]; [constructor|]. cbn. constructor; [exact IH|].
    apply Forall_fmap. eapply Forall_impl; [exact Hq|]. unfold before_match. cbn. lia.
  - apply Forall_fmap, Forall_forall. intros q Hq. apply match_go_sound in Hq as (u & v & -> & ->).
    cbn. unfold span_text. cbn. apply slice_mid.
Qed.
