(* ===== verification/EditDetails.v ===== *)
(** The description of an edit that [search_replace] returns (crate [ainxt-tools],
    [search_replace/helpers.rs]): the lines of a replacement in the new text and
    the lines around it. [None] is a panic, of a slice or of an unsigned
    subtraction. *)
From stdpp Require Import list.
From S2P Require Import Prelude RustStr StrSearch.

Module Export Snippets.

Definition LF : ascii := byte 10.

(** [s.split_inclusive(c)]. *)
Fixpoint split_inclusive (c : ascii) (s : string) : list string :=
  match s with
  | "" => []
  | String a s' =>
      if bool_decide (a = c) then String a "" :: split_inclusive c s'
      else match split_inclusive c s' with [] => [String a ""] | p :: ps => String a p :: ps end
  end.

(** [v[i..j]]. *)
Definition get_range (i j : nat) (v : list string) : option (list string) :=
  if bool_decide (i ≤ j) && bool_decide (j ≤ length v) then Some (slice_lines i j v) else None.

Record LineRange : Type := MkRange { start_line : nat; end_line : nat }.

Definition compute_line_range (text : string) (start_pos : nat) (inserted_text : string) : LineRange :=
  let start_line := count_byte LF (str_take start_pos text) in
  let lines_in_inserted := length (split_inclusive LF inserted_text) `max` 1 in
  MkRange start_line (start_line + lines_in_inserted - 1).

Definition numbered_line (i : nat) (line : string) : string :=
  show_nat (i + 1) +:+ arrow +:+ line.

Definition render_snippet (new_text new_string : string) (start_pos context_size : nat) :
    option (string * string * string) :=
  let '(MkRange start_line end_line) := compute_line_range new_text start_pos new_string in
  let total_lines_count := length (split_inclusive LF new_text) in
  let ls := split_inclusive LF new_text in
  let snippet_start := start_line - context_size in
  let snippet_end := (end_line + context_size) `min` (total_lines_count - 1) in
  before_context ← (if bool_decide (snippet_start < start_line)
                    then concat_str <$> get_range snippet_start start_line ls else Some "");
  after_context ← (if bool_decide (end_line < snippet_end)
                   then concat_str <$> get_range (end_line + 1) (snippet_end + 1) ls else Some "");
  count ← usize_sub snippet_end snippet_start;
  let snippet := concat_str (take (count + 1) (drop snippet_start (imap numbered_line ls))) in
  Some (snippet, before_context, after_context).

Record SearchReplaceEditDetail : Type := MkDetail {
  old_string : string;
  old_line : nat;
  new_string : string;
  new_line : nat;
  context_before : string;
  context_after : string;
  line_prefix : string;
}.

(** The offset of the line of [pos]. *)
Definition line_start (text : string) (pos : nat) : nat :=
  match rfind newline (str_take pos text) with Some i => i + 1 | None => 0 end.

Definition build_edit_detail (new_text old new : string) (context_lines start_pos : nat) :
    option SearchReplaceEditDetail :=
  '(_snippet, context_before, context_after) ← render_snippet new_text new start_pos context_lines;
  let line_range_new := compute_line_range new_text start_pos new in
  let line_prefix := slice (line_start new_text start_pos) start_pos new_text in
  Some (MkDetail old (start_line line_range_new + 1) new (start_line line_range_new + 1)
          context_before context_after line_prefix).

Definition build_edit_details (new_text old new : string) (new_positions : list nat) (context_lines : nat) :
    option (list SearchReplaceEditDetail) :=
  mapM (build_edit_detail new_text old new context_lines) new_positions.

End Snippets.

(** * Lines with their line ends *)

Lemma concat_split_inclusive c s : concat_str (split_inclusive c s) = s.
Proof.
  induction s as [|a s IH]; [done|]. cbn [split_inclusive]. case_bool_decide.
  - change (concat_str (String a "" :: split_inclusive c s)) with (String a (concat_str (split_inclusive c s))).
    by rewrite IH.
  - destruct (split_inclusive c s) as [|p ps]; [by rewrite <-IH|].
    change (concat_str (String a p :: ps)) with (String a (concat_str (p :: ps))). by rewrite IH.
Qed.

Lemma split_inclusive_nil c s : split_inclusive c s = [] → s = "".
Proof. intros E. rewrite <-(concat_split_inclusive c s), E. done. Qed.

Lemma count_byte_app c s t : count_byte c (s +:+ t) = count_byte c s + count_byte c t.
Proof. induction s as [|a s IH]; [done|]. rewrite app_cons_str. cbn. rewrite IH. lia. Qed.

Lemma count_byte_absent c s : contains_byte c s = false ↔ count_byte c s = 0.
Proof.
  induction s as [|a s IH]; [done|]. rewrite contains_byte_cons. cbn. case_bool_decide; cbn; [split; [done|lia]|].
  exact IH.
Qed.

(** The lines before a position: the text up to its line. *)
Lemma take_lines c u v : ∃ t, u = concat_str (take (count_byte c u) (split_inclusive c (u +:+ v))) +:+ t ∧
  contains_byte c t = false ∧ (u = t ∨ ∃ y, u = y +:+ String c t).
Proof.
  induction u as [|a u IH]; [by exists ""; auto|]. destruct IH as (t & Hu & Ht & Hy).
  rewrite app_cons_str. cbn [count_byte split_inclusive]. case_bool_decide as Ha.
  - subst a. exists t. cbn [take plus]. 
    change (concat_str (String c "" :: ?l)) with (String c (concat_str l)). rewrite app_cons_str.
    split; [by rewrite <-Hu|]. split; [done|]. right. destruct Hy as [->|[y ->]]; [by exists ""|by exists (String c y)].
  - cbn [plus]. destruct (count_byte c u) as [|n] eqn:En.
    + exists (String a u). cbn [take concat_str foldr]. rewrite app_nil_l_str. split; [done|].
      split; [|by left]. rewrite contains_byte_cons, bool_decide_eq_false_2 by done. by apply count_byte_absent.
    + exists t. destruct (split_inclusive c (u +:+ v)) as [|p ps] eqn:Ep.
      { exfalso. apply split_inclusive_nil, app_str_eq_nil in Ep as [-> _]. done. }
      cbn [take] in *. split; [|split; [done|]].
      * change (concat_str (String a p :: ?l)) with (String a (concat_str (p :: l))). rewrite app_cons_str. by rewrite <-Hu.
      * right. destruct Hy as [->|[y ->]]; [|by exists (String a y)].
        apply count_byte_absent in Ht. lia.
Qed.

Lemma length_split_inclusive c s : count_byte c s ≤ length (split_inclusive c s).
Proof.
  induction s as [|a s IH]; [done|]. cbn. case_bool_decide; cbn; [lia|].
  destruct (split_inclusive c s); cbn in *; lia.
Qed.

(** The lines through a position take the rest of its line. *)
Lemma take_lines_S c x v : ∃ v', v = default "" (head (split_inclusive c v)) +:+ v' ∧
  concat_str (take (S (count_byte c x)) (split_inclusive c (x +:+ v))) = x +:+ default "" (head (split_inclusive c v)).
Proof.
  induction x as [|a x (v' & Hv & IH)].
  - rewrite app_nil_l_str. destruct (split_inclusive c v) as [|p ps] eqn:E.
    + exists v. done.
    + exists (concat_str ps). split; [by rewrite <-(concat_split_inclusive c v), E|]. cbn. by rewrite app_nil_r_str.
  - exists v'. split; [done|]. rewrite !app_cons_str. cbn [count_byte split_inclusive]. case_bool_decide.
    + cbn [plus take].
      match goal with |- concat_str (String a "" :: ?l) = _ =>
        change (concat_str (String a "" :: l)) with (String a (concat_str l)) end. by rewrite <-IH.
    + cbn [plus]. destruct (split_inclusive c (x +:+ v)) as [|p ps] eqn:Ep.
      { apply split_inclusive_nil, app_str_eq_nil in Ep as [-> ->]. done. }
      cbn [take] in *.
      match goal with |- concat_str (String a p :: ?l) = _ =>
        change (concat_str (String a p :: l)) with (String a (concat_str (p :: l))) end. by rewrite IH.
Qed.

Lemma split_inclusive_count c w :
  ((∃ y, w = y +:+ String c "") ∧ length (split_inclusive c w) = count_byte c w) ∨
  length (split_inclusive c w) `max` 1 = S (count_byte c w).
Proof.
  induction w as [|a w IH]; [by right|]. cbn [split_inclusive count_byte]. case_bool_decide as Ha.
  - subst a. destruct w as [|b w]; [left; split; [by exists ""|done]|].
    destruct IH as [[[y ->] IH]|IH].
    + left. split; [by exists (String c y)|]. cbn [length plus]. by rewrite IH.
    + right. cbn [length plus]. destruct (split_inclusive c (String b w)) eqn:E; [by apply split_inclusive_nil in E|].
      cbn [length] in *. lia.
  - destruct (split_inclusive c w) as [|p ps] eqn:E; [right; apply split_inclusive_nil in E as ->; done|].
    destruct IH as [[[y ->] IH]|IH].
    + left. split; [by exists (String a y)|done].
    + right. exact IH.
Qed.

Lemma last_byte_eq c x z t : x +:+ String c "" = z +:+ t → t ≠ "" → ∃ t', t = t' +:+ String c "".
Proof.
  revert z. induction x as [|a x IH]; intros [|b z] E Ht.
  - exists "". exact (eq_sym E).
  - injection E as _ E. symmetry in E. by apply app_str_eq_nil in E as [_ ->].
  - exists (String a x). exact (eq_sym E).
  - injection E as _ E. by eapply IH.
Qed.

(** The lines through the end of an inserted text. *)
Lemma take_lines_through c u w v : ∃ r v', v = r +:+ v' ∧
  concat_str (take (count_byte c u + (length (split_inclusive c w) `max` 1)) (split_inclusive c (u +:+ w +:+ v))) = u +:+ w +:+ r.
Proof.
  destruct (split_inclusive_count c w) as [[[y Hy] Hl]|Hl].
  - exists "", v. split; [done|]. assert (Hc : count_byte c w ≠ 0).
    { rewrite Hy, count_byte_app. cbn. rewrite bool_decide_eq_true_2 by done. lia. }
    rewrite Nat.max_l, Hl, <-count_byte_app by lia. rewrite app_assoc_str, app_nil_r_str.
    destruct (take_lines c (u +:+ w) v) as (t & Hu & Ht & Hd).
    assert (t = "") as ->; [|by rewrite app_nil_r_str in Hu].
    destruct (decide (t = "")) as [->|Hne]; [done|]. exfalso.
    assert (Hend : ∃ t', t = t' +:+ String c "").
    { destruct Hd as [<-|[z Hz]].
      - exists (u +:+ y). by rewrite Hy, app_assoc_str.
      - rewrite Hy, app_assoc_str in Hz. change (String c t) with (String c "" +:+ t) in Hz.
        rewrite (app_assoc_str z) in Hz. by eapply last_byte_eq. }
    destruct Hend as [t' ->]. rewrite contains_byte_app, contains_byte_cons, bool_decide_eq_true_2 in Ht by done.
    cbn in Ht. by rewrite orb_true_r in Ht.
  - rewrite Hl, Nat.add_succ_r, <-count_byte_app, app_assoc_str.
    destruct (take_lines_S c (u +:+ w) v) as (v' & Hv & ->). eexists _, v'. split; [exact Hv|]. by rewrite app_assoc_str.
Qed.

Lemma count_lines_le c n m s : count_byte c (concat_str (take n (drop m (split_inclusive c s)))) ≤ n.
Proof.
  assert (Hall : Forall (λ l, count_byte c l ≤ 1) (split_inclusive c s)).
  { induction s as [|a s IH]; [constructor|]. cbn [split_inclusive]. case_bool_decide as Ha.
    - constructor; [|done]. cbn. by case_bool_decide.
    - destruct (split_inclusive c s) as [|p ps]; [constructor; [|done]|apply Forall_cons in IH as [Hp Hps]; constructor; [|done]];
        cbn; rewrite bool_decide_eq_false_2 by done; [lia|exact Hp]. }
  apply (Forall_drop _ m), (Forall_take _ n) in Hall. revert Hall. generalize (drop m (split_inclusive c s)) as l.
  intros l. revert n. induction l as [|x l IH]; intros [|n] Hall; cbn; try lia.
  cbn [take] in Hall. apply Forall_cons in Hall as [Hx Hall]. rewrite count_byte_app.
  specialize (IH n Hall). lia.
Qed.

(** * What a detail says *)

Lemma line_start_split u v t x : u = x +:+ t → contains_byte LF t = false → (u = t ∨ ∃ y, u = y +:+ String LF t) →
  slice (line_start (u +:+ v) (String.length u)) (String.length u) (u +:+ v) = t.
Proof.
  intros Hx Ht Hd. unfold line_start, newline. rewrite str_take_app.
  destruct Hd as [->|[y Hy]].
  - assert (Hn : rfind (String (byte 10) "") t = None).
    { apply rfind_None, not_true_iff_false. intros (p & q & E)%contains_spec. rewrite E in Ht.
      rewrite contains_byte_app, contains_byte_app in Ht. cbn in Ht. by rewrite orb_true_r in Ht. }
    rewrite Hn. exact (slice_mid_0 t v).
  - assert (Hf : rfind (String (byte 10) "") u = Some (String.length y)) by (rewrite Hy; by apply rfind_byte).
    rewrite Hf. replace (String.length y + 1) with (String.length (y +:+ String LF "")) by (rewrite length_app_str; done).
    assert (Hu : u = (y +:+ String LF "") +:+ t) by (rewrite Hy, <-app_assoc_str; done).
    revert Hu. generalize (y +:+ String LF "") as z. intros z ->.
    rewrite length_app_str, <-app_assoc_str. apply slice_mid.
Qed.

Lemma concat_slice i j ls : i ≤ j → concat_str (take i ls) +:+ concat_str (slice_lines i j ls) = concat_str (take j ls).
Proof. intros H. by rewrite <-concat_str_app, take_slice. Qed.

Lemma concat_take_drop i ls : concat_str (take i ls) +:+ concat_str (drop i ls) = concat_str ls.
Proof. by rewrite <-concat_str_app, take_drop. Qed.

(** What a detail says of the replacement [w] between [u] and [v]: its line is the
    line of the replacement; before the replacement the text reads the context
    before, then the prefix of the line; after it the rest of the line, then the
    context after; both contexts have at most [ctx] line ends. *)
Definition describes (u w v : string) (ctx : nat) (d : SearchReplaceEditDetail) : Prop :=
  new_string d = w ∧ new_line d = S (count_byte LF u) ∧
  (∃ pre, u = pre +:+ context_before d +:+ line_prefix d) ∧ contains_byte LF (line_prefix d) = false ∧
  (∃ r rest, v = r +:+ context_after d +:+ rest) ∧
  count_byte LF (context_before d) ≤ ctx ∧ count_byte LF (context_after d) ≤ ctx.

(** The detail of a replacement never panics and describes it. *)
Theorem edit_detail_describes u w v old ctx (Hctx : 0 < ctx) :
  ∃ d, build_edit_detail (u +:+ w +:+ v) old w ctx (String.length u) = Some d ∧
    old_string d = old ∧ describes u w v ctx d.
Proof.
  set (ls := split_inclusive LF (u +:+ w +:+ v)).
  destruct (take_lines LF u (w +:+ v)) as (t & Hu & Ht & Hd). fold ls in Hu.
  destruct (take_lines_through LF u w v) as (r & v' & Hv & Hthrough). fold ls in Hthrough.
  pose proof (length_split_inclusive LF (u +:+ w +:+ v)) as Hlen. fold ls in Hlen. rewrite count_byte_app in Hlen.
  unfold build_edit_detail, render_snippet, compute_line_range. rewrite str_take_app. fold ls.
  set (sl := count_byte LF u) in *. set (k := length (split_inclusive LF w) `max` 1) in *.
  assert (Hk : 1 ≤ k) by (subst k; lia).
  set (el := sl + k - 1). set (ss := sl - ctx). set (se := (el + ctx) `min` (length ls - 1)).
  assert (Hss : ss = sl - ctx) by done. assert (Hel : el = sl + k - 1) by done.
  assert (Hse : se = (el + ctx) `min` (length ls - 1)) by done. clearbody ss el se.
  assert (Hbefore : ∃ b pre, (if bool_decide (ss < sl) then concat_str <$> get_range ss sl ls else Some "") = Some b ∧
     concat_str (take sl ls) = pre +:+ b ∧ count_byte LF b ≤ ctx).
  { case_bool_decide as Hlt.
    - unfold get_range. rewrite !bool_decide_eq_true_2 by lia. cbn [andb fmap option_fmap option_map].
      eexists _, (concat_str (take ss ls)). split; [done|]. rewrite concat_slice by lia. split; [done|].
      unfold slice_lines, ls. etrans; [apply count_lines_le|]. lia.
    - exists "", "". split; [done|]. replace sl with 0 by lia. cbn. split; [done|lia]. }
  assert (Hafter : ∃ a rest, (if bool_decide (el < se) then concat_str <$> get_range (el + 1) (se + 1) ls else Some "") = Some a ∧
     v = r +:+ a +:+ rest ∧ count_byte LF a ≤ ctx).
  { destruct (decide (el < se)) as [Hlt|Hlt]; [rewrite bool_decide_eq_true_2 by done|rewrite bool_decide_eq_false_2 by done].
    - unfold get_range. rewrite !bool_decide_eq_true_2 by lia. cbn [andb fmap option_fmap option_map].
      eexists _, (concat_str (drop (se + 1) ls)). split; [done|]. split.
      + assert (Hall : concat_str (take (el + 1) ls) +:+ concat_str (slice_lines (el + 1) (se + 1) ls) +:+ concat_str (drop (se + 1) ls)
          = u +:+ w +:+ v).
        { rewrite app_assoc_str, concat_slice, concat_take_drop by lia. apply concat_split_inclusive. }
        replace (el + 1) with (sl + k) in Hall at 1 by lia. rewrite Hthrough, <-!app_assoc_str in Hall.
        by apply app_str_inj, app_str_inj in Hall.
      + unfold slice_lines, ls. etrans; [apply count_lines_le|]. lia.
    - exists "", v'. split; [done|]. split; [exact Hv|cbn; lia]. }
  destruct Hbefore as (b & pre & -> & Hb & Hbc). destruct Hafter as (a & rest & -> & Ha & Hac).
  cbn [mbind option_bind]. unfold usize_sub. rewrite bool_decide_eq_true_2 by lia. cbn [mbind option_bind].
  eexists. split; [reflexivity|]. unfold describes. cbn [old_string new_string new_line context_before context_after line_prefix start_line].
  fold sl. rewrite (line_start_split u (w +:+ v) t _ Hu Ht Hd).
  split; [done|]. split; [done|]. split; [lia|]. split; [exists pre; rewrite Hu, Hb at 1; by rewrite <-app_assoc_str|].
  split; [done|]. split; [by exists r, rest|]. done.
Qed.

Lemma edit_detail_describes_witness : ∃ d,
  build_edit_detail ("a" +:+ newline +:+ "  b" +:+ newline +:+ "c" +:+ newline) "x" "b" 3 4 = Some d ∧
  new_line d = 2 ∧ line_prefix d = "  " ∧ context_before d = "a" +:+ newline ∧ context_after d = "c" +:+ newline.
Proof.
  destruct (edit_detail_describes ("a" +:+ newline +:+ "  ") "b" (newline +:+ "c" +:+ newline) "x" 3 ltac:(lia))
    as (d & Hd & _ & _ & Hl & _).
  exists d. split; [exact Hd|]. split; [exact Hl|]. injection Hd as <-. vm_compute. done.
Defined.
