(* ===== verification/EditHints.v ===== *)
(** The hints of [search_replace] when the text to replace is not found (crate
    [ainxt-tools], [search_replace/mod.rs], [util/query_tools.rs],
    [util/truncate.rs]): the nearest line, and the lines whose typography differs
    from ASCII. *)
From stdpp Require Import list.
From S2P Require Import Prelude RustStr StrSearch ToolFs Confusables.

Module Export Truncate.

Definition TRUNCATION_MARKER : string := str_of_bytes [226; 128; 166]%N.

(** The loop that steps back to a character boundary. *)
Fixpoint back_to_boundary (s : string) (end_ : nat) : nat :=
  match end_ with
  | 0 => 0
  | S n => if is_char_boundary s end_ then end_ else back_to_boundary s n
  end.

Definition truncate_str (s : string) (max_bytes : nat) : string :=
  if bool_decide (String.length s ≤ max_bytes) then s else str_take (back_to_boundary s max_bytes) s.

Definition truncate_str_with_marker (s : string) (max_bytes : nat) : string :=
  if bool_decide (String.length s ≤ max_bytes) then s
  else if bool_decide (max_bytes < String.length TRUNCATION_MARKER) then truncate_str s max_bytes
  else str_take (back_to_boundary s (max_bytes - String.length TRUNCATION_MARKER)) s +:+ TRUNCATION_MARKER.

End Truncate.

Module Export Hints.

(** [str::split_whitespace] over characters; [cur] is the word being read. *)
Fixpoint words_go (cur : string) (cs : list string) : list string :=
  match cs with
  | [] => if is_empty cur then [] else [cur]
  | c :: cs' =>
      if is_whitespace c then (if is_empty cur then words_go "" cs' else cur :: words_go "" cs')
      else words_go (cur +:+ c) cs'
  end.
Definition split_whitespace (s : string) : list string := words_go "" (chars s).

(** [max_by_key(|w| w.len())]: the last one of the longest. *)
Definition longest (ws : list string) : option string :=
  match ws with
  | [] => None
  | w :: ws => Some (fold_left (λ best w, if bool_decide (String.length best ≤ String.length w) then w else best) ws w)
  end.

(** The token that is looked for. *)
Definition hint_keyword (old_string : string) : string :=
  default "" (longest (split_whitespace (default "" (head (lines old_string))))).

Definition build_nearest_match_hint (file old_string : string) : string :=
  let keyword := hint_keyword old_string in
  if is_empty keyword then ""
  else
    match list_find (λ l, contains keyword l = true) (lines file) with
    | Some (i, l) =>
        truncate_str_with_marker
          (newline +:+ newline +:+ "Nearest match: line " +:+ show_nat (i + 1) +:+ ": " +:+ trim_end l) 200
    | None => ""
    end.

Record QueryTools : Type := MkTools {
  jq : option string;
  python : option string;
  sed : option string;
  cut : option string;
}.

Definition backticked (t : string) : string := "`" +:+ t +:+ "`".
Definition wrap (tools : list (option string)) : list string := backticked <$> omap id tools.
Definition edit_tools (t : QueryTools) : list string := wrap [python t; sed t].

Definition examples_clause (tools : list string) : string :=
  match tools with
  | [] => ""
  | [a] => " (e.g. " +:+ a +:+ ")"
  | [a; b] => " (e.g. " +:+ a +:+ " or " +:+ b +:+ ")"
  | a :: b :: rest =>
      " (e.g. " +:+ join ", " (removelast tools) +:+ ", or " +:+ List.last tools "" +:+ ")"
  end.

Definition MAX_LISTED_LINES : nat := 8.

(** The lines with typography between two offsets of the text. *)
Definition affected_lines (file : string) (orig_start orig_end : nat) : list nat :=
  let match_start_line := count_byte (byte 10) (str_take orig_start file) + 1 in
  let match_end_line := count_byte (byte 10) (str_take orig_end file) + 1 in
  dedup (line_number <$>
    filter (λ h, (match_start_line ≤ line_number h ∧ line_number h ≤ match_end_line)%nat) (detect_confusables file)).

Definition line_summary (affected : list nat) : string :=
  if bool_decide (length affected ≤ MAX_LISTED_LINES) then join ", " (show_nat <$> affected)
  else join ", " (show_nat <$> take MAX_LISTED_LINES affected) +:+
       " (and " +:+ show_nat (length affected - MAX_LISTED_LINES) +:+ " more)".

(** The two indexings of the offset map panic outside it. *)
Definition build_confusable_hint (file old_string : string) (tools : QueryTools)
    (read_tool_name old_string_param execute_tool_name : string) : option (option string) :=
  if negb (has_confusables file) then Some None
  else
    let '(norm_file, offset_map) := build_offset_map file in
    let norm_old := normalize_confusables old_string in
    match find norm_old norm_file with
    | None => Some None
    | Some norm_start =>
        orig_start ← offset_map !! norm_start;
        orig_end ← offset_map !! (norm_start + String.length norm_old);
        let affected := affected_lines file orig_start orig_end in
        match affected with
        | [] => Some None
        | _ =>
            let read_qualifier := if is_empty read_tool_name then "" else " in " +:+ read_tool_name +:+ " output" in
            let param := if is_empty old_string_param then "old_string" else old_string_param in
            let terminal_fallback :=
              if bool_decide (edit_tools tools = []) || is_empty execute_tool_name then ""
              else ", or use " +:+ execute_tool_name +:+ " with a short script" +:+ examples_clause (edit_tools tools) +:+
                   " to edit the file directly" in
            Some (Some (newline +:+ newline +:+ "The nearest matching region contains Unicode typography characters " +:+
              "(smart quotes, em-dashes, etc.) on lines " +:+ line_summary affected +:+ " that look identical to " +:+
              "ASCII" +:+ read_qualifier +:+ " but differ at the byte level. Re-read the file and " +:+
              "use a shorter " +:+ param +:+ " anchored on nearby ASCII-only context" +:+ terminal_fallback +:+ "."))
        end
    end.

End Hints.

(** * Truncation *)

Lemma back_to_boundary_spec s n : back_to_boundary s n ≤ n ∧
  (back_to_boundary s n = 0 ∨ is_char_boundary s (back_to_boundary s n) = true) ∧
  ∀ m, back_to_boundary s n < m ≤ n → is_char_boundary s m = false.
Proof.
  induction n as [|n (IH1 & IH2 & IH3)]; [cbn; split_and!; [done|by left|lia]|].
  cbn [back_to_boundary]. destruct (is_char_boundary s (S n)) eqn:E; [split_and!; [done|by right|lia]|].
  split_and!; [lia|done|]. intros m Hm. destruct (decide (m = S n)) as [->|]; [done|]. apply IH3. lia.
Qed.

Lemma truncate_length s max_bytes : String.length (truncate_str_with_marker s max_bytes) ≤ max_bytes.
Proof.
  unfold truncate_str_with_marker, truncate_str. change (String.length TRUNCATION_MARKER) with 3.
  case_bool_decide; [done|]. case_bool_decide; [|].
  - destruct (back_to_boundary_spec s max_bytes) as (Hb & _). rewrite length_str_take by lia. lia.
  - destruct (back_to_boundary_spec s (max_bytes - 3)) as (Hb & _).
    rewrite length_app_str, length_str_take by lia. change (String.length TRUNCATION_MARKER) with 3. lia.
Qed.

(** Truncation keeps the budget, cuts nothing that fits, and otherwise keeps the
    longest run of whole characters for which the marker has room. *)
Theorem truncation_fits s max_bytes :
  String.length (truncate_str_with_marker s max_bytes) ≤ max_bytes ∧
  (String.length s ≤ max_bytes → truncate_str_with_marker s max_bytes = s) ∧
  (3 ≤ max_bytes < String.length s → ∃ n, truncate_str_with_marker s max_bytes = str_take n s +:+ TRUNCATION_MARKER ∧
     n ≤ max_bytes - 3 ∧ (n = 0 ∨ is_char_boundary s n = true) ∧
     ∀ m, n < m ≤ max_bytes - 3 → is_char_boundary s m = false).
Proof.
  split; [apply truncate_length|]. unfold truncate_str_with_marker. change (String.length TRUNCATION_MARKER) with 3.
  split; [intros; by rewrite bool_decide_eq_true_2|]. intros [H3 Hlt]. rewrite !bool_decide_eq_false_2 by lia.
  destruct (back_to_boundary_spec s (max_bytes - 3)) as (Hb & Hc & Hm). eexists. split_and!; [done|lia|done|done].
Qed.

(** * The hints *)

Lemma longest_spec ws w : longest ws = Some w → w ∈ ws ∧ Forall (λ x, String.length x ≤ String.length w) ws.
Proof.
  destruct ws as [|x ws]; [done|]. intros [= <-]. revert x. induction ws as [|y ws IH]; intros x.
  - cbn. split; [by left|by repeat constructor].
  - cbn [fold_left]. case_bool_decide as Hle.
    + destruct (IH y) as [Hin [Hy Hall]%Forall_cons]. split; [by right|]. repeat constructor; [lia|lia|done].
    + destruct (IH x) as [Hin [Hx Hall]%Forall_cons]. split.
      { apply elem_of_cons in Hin as [->|Hin]; [by left|by do 2 right]. }
      repeat constructor; [lia|lia|done].
Qed.

(** The nearest-match hint, within 200 bytes, is about the first line of the file
    that contains the keyword, a longest word of the first line searched for; it is
    empty when there is no word or no such line. *)
Theorem nearest_match_hint_spec file old :
  String.length (build_nearest_match_hint file old) ≤ 200 ∧
  (build_nearest_match_hint file old = "" ∨
   ∃ keyword i l, keyword ∈ split_whitespace (default "" (head (lines old))) ∧
     Forall (λ w, String.length w ≤ String.length keyword) (split_whitespace (default "" (head (lines old)))) ∧
     lines file !! i = Some l ∧ contains keyword l = true ∧
     (∀ j l', j < i → lines file !! j = Some l' → contains keyword l' = false) ∧
     build_nearest_match_hint file old =
       truncate_str_with_marker (newline +:+ newline +:+ "Nearest match: line " +:+ show_nat (i + 1) +:+ ": " +:+ trim_end l) 200).
Proof.
  unfold build_nearest_match_hint, hint_keyword. destruct (longest _) as [keyword|] eqn:Hk; cbn [default from_option id].
  2: { split; [cbn; lia|by left]. }
  apply longest_spec in Hk as [Hin Hall].
  destruct (is_empty keyword); [split; [cbn; lia|by left]|].
  destruct (list_find _ _) as [[i l]|] eqn:Hf; [|split; [cbn; lia|by left]].
  split; [apply truncate_length|right]. apply list_find_Some in Hf as (Hl & Hc & Hfirst).
  exists keyword, i, l. split_and!; try done.
  intros j l' Hj Hl'. apply not_true_iff_false. by eapply Hfirst.
Qed.

(** The hint about typography is total: the offset map has an entry for both ends
    of every match in the normal form. *)
Theorem confusable_hint_total file old tools read param exec :
  is_Some (build_confusable_hint file old tools read param exec).
Proof.
  unfold build_confusable_hint. destruct (has_confusables file); [cbn [negb]|by eexists].
  cbn [build_offset_map]. destruct (find _ _) as [i|] eqn:Hf; [|by eexists].
  apply find_le in Hf. set (om := offsets_go 0 (chars file) ++ [String.length file]).
  assert (Hlen : length om = S (String.length (normalize_confusables file))).
  { unfold om. rewrite length_app, length_offsets_go. cbn. unfold norm_of, normalize_confusables. lia. }
  destruct (lookup_lt_is_Some_2 om i) as [a ->]; [lia|].
  destruct (lookup_lt_is_Some_2 om (i + String.length (normalize_confusables old))) as [b ->]; [lia|].
  cbn [mbind option_bind]. by destruct (affected_lines file a b).
Qed.
