(* ===== verification/SearchReplace.v ===== *)
(** The tool [search_replace] (crate [ainxt-tools], [search_replace/mod.rs], the
    legacy wording in [versions/legacy_0_4_10.rs] and the concise variant): guards,
    creation of a file, replacement with CRLF files and with the typography
    fallback, and the notification that rewinding and hunk tracking rely on. A call
    is a function of the world, the disk and the notifications sent; [None] is a
    panic. The file system does not change during a call but by the call. *)
From stdpp Require Import list gmap.
From S2P Require Import Prelude RustStr StrSearch ToolFs Confusables EditDetails EditHints.

Module Input.
Record SearchReplaceInput : Type := Make {
  file_path : string;
  old_string : string;
  new_string : string;
  replace_all : bool;
}.
End Input.
Abbreviation SearchReplaceInput := Input.SearchReplaceInput.

Module Export Data.

Record SearchReplaceParams : Type := MkParams {
  skip_read_before_edit : bool;
  empty_old_string_does_not_override : bool;
  unicode_normalized_fallback : bool;
  include_user_edit_hint : bool;
}.
(** [#[derive(Default)]], and the defaults of deserialization. *)
Definition SearchReplaceParams_default : SearchReplaceParams := MkParams false false false false.
Definition SearchReplaceParams_deserialize (skip empty fallback hint : option bool) : SearchReplaceParams :=
  MkParams (default false skip) (default false empty) (default false fallback) (default true hint).

Inductive SearchReplaceVersion : Type := Current | Legacy0_4_10.
#[export] Instance SearchReplaceVersion_eq_dec : EqDecision SearchReplaceVersion.
Proof. solve_decision. Defined.
Definition from_contract (v : option string) : SearchReplaceVersion :=
  if bool_decide (v = Some "legacy-0.4.10") then Legacy0_4_10 else Current.
Definition is_legacy (v : SearchReplaceVersion) : bool := bool_decide (v = Legacy0_4_10).

Record FileWritten : Type := MkWritten {
  tool_call_id : string;
  written_path : string;
  content : string;
  previous_content : option string;
  is_new_file : bool;
}.

Record SearchReplaceEditsApplied : Type := MkApplied {
  applied_old : string;
  applied_new : string;
  tool_output_for_prompt : string;
  tool_output_for_prompt_concise : option string;
  absolute_path : string;
  edits : list SearchReplaceEditDetail;
  unicode_normalized : bool;
}.

Inductive SearchReplaceOutput : Type :=
| FileAlreadyExists (msg : string)
| EditsApplied (a : SearchReplaceEditsApplied)
| MultipleMatchesFound (msg : string)
| NoMatchesFound (message file_path : string)
| InvalidInput (msg : string)
| FileNotFound (msg : string)
| FilenameTooLong (msg : string).

Inductive ToolError : Type :=
| MissingResource (name : string)
| InvalidArguments (msg : string)
| Execution (tool msg : string).

(** The shared resources of the tools that a call reads; [template_renderer] is the
    template engine with the tool names of the session. *)
Record Resources : Type := MkResources {
  respect_gitignore : option bool;
  gitignore_filter : option (string → bool);
  params : option SearchReplaceParams;
  template_renderer : option (string → result string string);
  query_tools : QueryTools;
}.

Record World : Type := MkWorld { disk : fs; sent : list FileWritten }.
Definition send_file_written (n : FileWritten) (w : World) : World := MkWorld (disk w) (sent w ++ [n]).

Definition resolve (res : Resources) (template : string) : result ToolError string :=
  match template_renderer res with
  | None => Err (MissingResource "TemplateRenderer")
  | Some render => map_err InvalidArguments (render template)
  end.

Definition crlf : string := carriage_return +:+ newline.
Definition CONTEXT_LINES : nat := 3.
Definition NAME_MAX : nat := 255.

End Data.

(** * The guards *)

Module Export Guards.

(** The normal components of a path. *)
Definition normal_components (p : string) : list string :=
  filter (λ c, c ≠ "" ∧ c ≠ "." ∧ c ≠ "..") (split_on "/"%char p).

Definition validate_path_length (file_path : string) : option SearchReplaceOutput :=
  match filter (λ name, NAME_MAX < String.length name) (normal_components file_path) with
  | [] => None
  | name :: _ =>
      Some (FilenameTooLong ("Error: file name exceeds the " +:+ show_nat NAME_MAX +:+ "-character limit (" +:+
        show_nat (String.length name) +:+ " characters). Please use a shorter file name."))
  end.

Definition filename_too_long : SearchReplaceOutput :=
  FilenameTooLong ("Error: file name exceeds the " +:+ show_nat NAME_MAX +:+
    "-character limit. Please use a shorter file name.").

Definition ignored_by (res : Resources) (path : string) : bool :=
  default true (respect_gitignore res) &&
  match gitignore_filter res with Some ignored => ignored path | None => false end.

End Guards.

(** * Creating a file *)

Module Export Creation.
Section Creation.
Context `{HostFs}.

Definition creation_write_error (input : SearchReplaceInput) (f : fs) (path display_path : string) (e : IoErrorKind) :
    SearchReplaceOutput :=
  match e with
  | IoNotFound => FileNotFound (format_not_found_error f display_path path)
  | IoAlreadyExists => InvalidInput ("Error: cannot create " +:+ Input.file_path input +:+
      ". A component of the path already exists as a file where a directory is expected.")
  | IoInvalidFilename => filename_too_long
  | _ => InvalidInput ("Error: failed to write " +:+ Input.file_path input +:+ ": " +:+ show_io_error e)
  end.

Definition creation_output (input : SearchReplaceInput) (path : string) : SearchReplaceOutput :=
  EditsApplied (MkApplied (Input.old_string input) (Input.new_string input)
    ("The file " +:+ Input.file_path input +:+ " has been created successfully.")
    (Some ("The file " +:+ Input.file_path input +:+ " has been created."))
    path [MkDetail (Input.old_string input) 1 (Input.new_string input) 1 "" "" ""] false).

Definition handle_new_file_creation (input : SearchReplaceInput) (res : Resources) (call_id path display_path : string)
    (empty_old_does_not_override : bool) (w : World) : result ToolError SearchReplaceOutput * World :=
  let file_exists := match read_file path (disk w) with Ok bytes => negb (is_empty bytes) | Err _ => false end in
  let old_text := from_utf8_lossy <$> ok (read_file path (disk w)) in
  if file_exists && empty_old_does_not_override then
    (old_string_name ← resolve res "${{ params.edit.old_string }}";
     Ok (FileAlreadyExists (old_string_name +:+
       " is empty, which is only allowed when creating a new file or when the file is empty.")), w)
  else
    match write_file path (Input.new_string input) (disk w) with
    | (Err e, f) => (Ok (creation_write_error input f path display_path e), MkWorld f (sent w))
    | (Ok _, f) =>
        let n :=
          match old_text with
          | Some old_text =>
              if file_exists && empty_old_does_not_override
              then MkWritten call_id path (Input.new_string input) (Some old_text) false
              else MkWritten call_id path (Input.new_string input) None true
          | None => MkWritten call_id path (Input.new_string input) None true
          end in
        (Ok (creation_output input path), send_file_written n (MkWorld f (sent w)))
    end.
End Creation.
End Creation.

(** * Replacing *)

Module Export Replacement.
Section Replacement.
Context `{HostFs}.

Definition read_error (input : SearchReplaceInput) (f : fs) (path display_path : string) (e : IoErrorKind) :
    result ToolError SearchReplaceOutput :=
  match e with
  | IoNotFound => Ok (FileNotFound (format_not_found_error f display_path path))
  | IoIsADirectory => Ok (InvalidInput ("Error: " +:+ Input.file_path input +:+ " is a directory, not a file."))
  | IoInvalidFilename => Ok filename_too_long
  | IoPermissionDenied => Ok (InvalidInput ("Error: permission denied reading " +:+ Input.file_path input +:+ "."))
  | _ => Err (Execution "search_replace" (show_io_error e))
  end.

(** The positions of the text to replace and whether the fallback found them, or
    the answer to the call. *)
Definition locate (input : SearchReplaceInput) (res : Resources) (match_text : string) :
    list nat * bool + result ToolError SearchReplaceOutput :=
  let positions := match_indices (Input.old_string input) match_text in
  match positions with
  | _ :: _ => inl (positions, false)
  | [] =>
      if default false (unicode_normalized_fallback <$> params res) then
        match find_normalized_match_positions match_text (Input.old_string input) with
        | Matches ms =>
            if bool_decide (1 < length ms) && negb (Input.replace_all input) then
              inr (replace_all_name ← resolve res "${{ params.edit.replace_all }}";
                   Ok (MultipleMatchesFound ("The string to replace was found multiple times in the file " +:+
                     "(via Unicode normalization). Use " +:+ replace_all_name +:+ " to replace all occurrences, " +:+
                     "or include more context to only edit one occurrence.")))
            else inl (original_start <$> ms, true)
        | Ambiguous =>
            inr (old_string_name ← resolve res "${{ params.edit.old_string }}";
                 Ok (MultipleMatchesFound ("The string to replace was found via Unicode normalization but the " +:+
                   "match is ambiguous (partial or overlapping). Use a more specific " +:+ old_string_name +:+
                   " that avoids lines with Unicode typography characters.")))
        | NoMatch => inl ([], false)
        end
      else inl ([], false)
  end.

Definition no_match_output (input : SearchReplaceInput) (res : Resources) (match_text path : string)
    (legacy include_hint : bool) : option (result ToolError SearchReplaceOutput) :=
  match read_name ← resolve res "${{ tools.by_kind.read }}";
        param ← resolve res "${{ params.edit.old_string }}";
        execute_name ← resolve res "${{ tools.by_kind.execute }}";
        Ok (read_name, param, execute_name) with
  | Err e => Some (Err e)
  | Ok (read_name, param, execute_name) =>
      let hint := if legacy then "" else build_nearest_match_hint match_text (Input.old_string input) in
      confusable ← (if legacy then Some None
                    else build_confusable_hint match_text (Input.old_string input) (query_tools res)
                           read_name param execute_name);
      let user_edit_hint := if include_hint then " The user may have changed the file since you last read it." else "" in
      Some (Ok (NoMatchesFound ("The string to replace was not found in the file, use the " +:+ read_name +:+
        " tool to see the correct string." +:+ user_edit_hint +:+ hint +:+ default "" confusable) path))
  end.

Definition write_error (input : SearchReplaceInput) (e : IoErrorKind) : SearchReplaceOutput :=
  match e with
  | IoAlreadyExists => InvalidInput ("Error: cannot write " +:+ Input.file_path input +:+
      ". A component of the path already exists as a file where a directory is expected.")
  | IoInvalidFilename => filename_too_long
  | _ => InvalidInput ("Error: failed to write " +:+ Input.file_path input +:+ ": " +:+ show_io_error e)
  end.

(** The text after the replacement and where the new strings are. *)
Definition replaced (input : SearchReplaceInput) (match_text : string) (positions : list nat) (fallback : bool) :
    option (string * list nat) :=
  if fallback then
    match find_normalized_match_positions match_text (Input.old_string input) with
    | Matches ms => Some (replace_normalized_matches match_text ms (Input.new_string input))
    | _ => None
    end
  else Some (replace_using_positions match_text positions (Input.old_string input) (Input.new_string input)).

Definition applied_output (input : SearchReplaceInput) (path : string) (details : list SearchReplaceEditDetail)
    (new_positions : list nat) (fallback : bool) : SearchReplaceOutput :=
  let '(default_msg, concise_msg) :=
    if bool_decide (length new_positions = 1) then
      ("The file " +:+ Input.file_path input +:+ " has been updated successfully.",
       "The file " +:+ Input.file_path input +:+ " has been updated.")
    else
      ("The file " +:+ Input.file_path input +:+ " has been updated. All occurrences were successfully replaced.",
       "The file " +:+ Input.file_path input +:+ " has been updated. All occurrences were replaced.") in
  EditsApplied (MkApplied (Input.old_string input) (Input.new_string input) default_msg (Some concise_msg)
    path details fallback).

(** The text that is searched, and the text that is written. *)
Definition to_match_text (has_crlf : bool) (t : string) : string := if has_crlf then replace crlf newline t else t.
Definition to_write_text (has_crlf : bool) (t : string) : string :=
  if has_crlf then replace newline crlf (replace crlf newline t) else t.

Definition handle_replacement (input : SearchReplaceInput) (res : Resources) (call_id path display_path : string)
    (legacy include_hint : bool) (w : World) : option (result ToolError SearchReplaceOutput) * World :=
  match read_file path (disk w) with
  | Err e => (Some (read_error input (disk w) path display_path e), w)
  | Ok bytes =>
      let old_text := from_utf8_lossy bytes in
      let has_crlf := contains crlf old_text in
      let match_text := to_match_text has_crlf old_text in
      match locate input res match_text with
      | inr answer => (Some answer, w)
      | inl ([], _) => (no_match_output input res match_text path legacy include_hint, w)
      | inl (positions, fallback) =>
          if bool_decide (1 < length positions) && negb (Input.replace_all input) then
            (Some (replace_all_name ← resolve res "${{ params.edit.replace_all }}";
                   Ok (MultipleMatchesFound ("The string to replace was found multiple times in the file. Use " +:+
                     replace_all_name +:+ " to replace all occurrences, " +:+
                     "or include more context to only edit one occurrence."))), w)
          else
            match replaced input match_text positions fallback with
            | None => (Some (Ok (NoMatchesFound "Internal error: normalized match disappeared on re-evaluation" path)), w)
            | Some (new_text, new_positions) =>
                let write_text := to_write_text has_crlf new_text in
                match write_file path write_text (disk w) with
                | (Err e, f) => (Some (Ok (write_error input e)), MkWorld f (sent w))
                | (Ok _, f) =>
                    (details ← build_edit_details new_text (Input.old_string input) (Input.new_string input)
                                 new_positions CONTEXT_LINES;
                     Some (Ok (applied_output input path details new_positions fallback)),
                     send_file_written (MkWritten call_id path write_text (Some old_text) false) (MkWorld f (sent w)))
                end
            end
      end
  end.
End Replacement.
End Replacement.

(** * The call *)

Module Export Call.
Section Call.
Context `{HostFs}.

(** The file that a call is about: [resolved] is the path of the arguments. *)
Definition target_path (f : fs) (resolved : string) : string :=
  match try_canonicalize f resolved with
  | Ok p => p
  | Err IoNotFound => default resolved (try_resolve_unicode_filename f resolved)
  | Err _ => resolved
  end.

(** What is refused before the file is looked at. *)
Definition refused (input : SearchReplaceInput) (res : Resources) (f : fs) (path : string) (version : option string) :
    option SearchReplaceOutput :=
  match validate_path_length (Input.file_path input) with
  | Some err => Some err
  | None =>
      if is_dir f path then Some (InvalidInput "File path is a directory")
      else if negb (is_legacy (from_contract version)) && ignored_by res path then
        Some (InvalidInput ("Error: " +:+ Input.file_path input +:+ " is ignored by .gitignore and cannot be edited."))
      else if bool_decide (Input.old_string input = Input.new_string input) then
        Some (InvalidInput "Old string and new string are the same")
      else None
  end.

Definition run_search_replace (input : SearchReplaceInput) (res : Resources) (version : option string)
    (call_id resolved display_path : string) (w : World) : option (result ToolError SearchReplaceOutput) * World :=
  let path := target_path (disk w) resolved in
  match refused input res (disk w) path version with
  | Some out => (Some (Ok out), w)
  | None =>
      if is_empty (Input.old_string input) then
        let '(out, w) := handle_new_file_creation input res call_id path display_path
          (default false (empty_old_string_does_not_override <$> params res)) w in
        (Some out, w)
      else
        handle_replacement input res call_id path display_path (is_legacy (from_contract version))
          (default true (include_user_edit_hint <$> params res)) w
  end.

(** The wording of 0.4.10. *)
Inductive ErrorKind : Type := KFileAlreadyExists | KFileNotFound | KMultipleMatchesFound | KNoMatchesFound.

Record RenderContext : Type := MkRender {
  render_file_path : string;
  read_tool_name : string;
  replace_all_param_name : string;
  old_string_param_name : string;
}.

Definition render_error (kind : ErrorKind) (ctx : RenderContext) : string :=
  match kind with
  | KFileAlreadyExists => old_string_param_name ctx +:+
      " is empty, which is only allowed when creating a new file or when the file is empty."
  | KFileNotFound => "File not found: " +:+ render_file_path ctx +:+ ". Please check the path and try again."
  | KMultipleMatchesFound => "The string to replace was found multiple times in the file. Use " +:+
      replace_all_param_name ctx +:+ " to replace all occurrences, or include more context to only edit one occurrence."
  | KNoMatchesFound => "The string to replace was not found in the file, use the " +:+ read_tool_name ctx +:+
      " tool to see the correct string."
  end.

Definition build_render_context (res : Resources) (file_path : string) : result ToolError RenderContext :=
  read ← resolve res "${{ tools.by_kind.read }}";
  replace_all ← resolve res "${{ params.edit.replace_all }}";
  old ← resolve res "${{ params.edit.old_string }}";
  Ok (MkRender file_path read replace_all old).

Definition downgrade_structured_errors (output : SearchReplaceOutput) (res : Resources) (file_path : string) :
    result ToolError SearchReplaceOutput :=
  ctx ← build_render_context res file_path;
  Ok (match output with
      | FileAlreadyExists _ => InvalidInput (render_error KFileAlreadyExists ctx)
      | FileNotFound _ => InvalidInput (render_error KFileNotFound ctx)
      | FilenameTooLong msg => InvalidInput msg
      | MultipleMatchesFound _ => InvalidInput (render_error KMultipleMatchesFound ctx)
      | NoMatchesFound _ _ => InvalidInput (render_error KNoMatchesFound ctx)
      | other => other
      end).

(** [SearchReplaceTool::run]. *)
Definition run (input : SearchReplaceInput) (res : Resources) (version : option string)
    (call_id resolved display_path : string) (w : World) : option (result ToolError SearchReplaceOutput) * World :=
  match run_search_replace input res version call_id resolved display_path w with
  | (Some (Ok out), w) =>
      if is_legacy (from_contract version)
      then (Some (downgrade_structured_errors out res (Input.file_path input)), w)
      else (Some (Ok out), w)
  | other => other
  end.

(** [SearchReplaceConciseTool::run]. *)
Definition concise_output (out : SearchReplaceOutput) : SearchReplaceOutput :=
  match out with
  | EditsApplied a =>
      match tool_output_for_prompt_concise a with
      | Some text => EditsApplied (MkApplied (applied_old a) (applied_new a) text None (absolute_path a) (edits a)
                                     (unicode_normalized a))
      | None => out
      end
  | _ => out
  end.
Definition run_concise (input : SearchReplaceInput) (res : Resources) (version : option string)
    (call_id resolved display_path : string) (w : World) : option (result ToolError SearchReplaceOutput) * World :=
  match run_search_replace input res version call_id resolved display_path w with
  | (Some (Ok out), w) => (Some (Ok (concise_output out)), w)
  | other => other
  end.
End Call.
End Call.

(** * A replacement *)

Lemma length_mapM_Some {A B} (f : A → option B) l k : mapM f l = Some k → length k = length l.
Proof. intros Hm. apply mapM_Some in Hm. symmetry. by eapply Forall2_length. Qed.

Lemma crlf_form_inverse u : contains_byte (byte 13) u = false → replace crlf newline (replace newline crlf u) = u.
Proof.
  induction u as [|a u IH]; [done|]. rewrite contains_byte_cons. intros [Ha Hu]%orb_false_elim.
  apply bool_decide_eq_false in Ha. specialize (IH Hu). unfold replace in *. cbn [replace_go].
  destruct (starts_with newline (String a u)) eqn:E.
  - apply starts_with_spec in E as [t [= -> ->]]. change (String.length newline - 1) with 0.
    change (crlf +:+ ?x) with (String (byte 13) (String (byte 10) x)). cbn [replace_go].
    change (starts_with crlf (String (byte 13) (String (byte 10) ?x))) with (starts_with crlf (crlf +:+ x)).
    rewrite starts_with_app. change (String.length crlf - 1) with 1. cbn [replace_go].
    change (newline +:+ ?x) with (String (byte 10) x). by rewrite IH.
  - cbn [replace_go]. change crlf with (String (byte 13) newline) at 1. rewrite starts_with_cons, bool_decide_eq_false_2 by done.
    cbn [andb]. by rewrite IH.
Qed.

Lemma crlf_form_contains u : contains_byte LF u = true → contains crlf (replace newline crlf u) = true.
Proof.
  induction u as [|a u IH]; [done|]. rewrite contains_byte_cons. unfold replace in *. cbn [replace_go].
  destruct (starts_with newline (String a u)) eqn:E.
  - intros _. apply contains_spec. by exists "", (replace_go newline crlf 0 u).
  - intros [Ha|Hu]%orb_prop.
    + apply bool_decide_eq_true in Ha as ->. change (String LF u) with (newline +:+ u) in E. by rewrite starts_with_app in E.
    + rewrite contains_cons, IH by done. apply orb_true_r.
Qed.

Lemma crlf_form_app u v : replace newline crlf (u +:+ v) = replace newline crlf u +:+ replace newline crlf v.
Proof.
  induction u as [|a u IH]; [done|]. unfold replace in *. change (String a u +:+ v) with (String a (u +:+ v)). cbn [replace_go].
  change (String.length newline - 1) with 0. assert (Hs : ∀ x, starts_with newline (String a x) = bool_decide (LF = a)).
  { intros x. unfold newline. rewrite starts_with_cons. by rewrite andb_true_r. }
  rewrite !Hs, IH. case_bool_decide; [|done]. by rewrite app_assoc_str.
Qed.

Lemma crlf_absent t : contains_byte (byte 13) t = false → replace crlf newline t = t.
Proof.
  intros Ht. apply replace_absent. apply not_true_iff_false. intros (p & q & ->)%contains_spec.
  rewrite !contains_byte_app in Ht. change (contains_byte (byte 13) crlf) with true in Ht.
  by rewrite orb_true_l, orb_true_r in Ht.
Qed.

(** A text with the line ends of the file, byte for byte. *)
Definition file_ends (has_crlf : bool) (t : string) : string := if has_crlf then replace newline crlf t else t.

(** A file that is read and written back byte for byte: valid UTF-8 and, once there
    is a CRLF in it, no other line end and no other carriage return. *)
Definition kept_as_is (bytes : string) : Prop :=
  from_utf8_lossy bytes = bytes ∧
  (contains crlf bytes = true → ∃ t, bytes = replace newline crlf t ∧ contains_byte (byte 13) t = false).

Lemma file_ends_weave b gaps mids :
  file_ends b (weave gaps mids) = weave (file_ends b <$> gaps) (file_ends b <$> mids).
Proof.
  destruct b; cbn [file_ends].
  - revert mids. induction gaps as [|g gaps IH]; intros [|m mids]; [done..|].
    cbn [weave fmap list_fmap]. by rewrite !crlf_form_app, IH.
  - change (file_ends false) with (@id string). by rewrite !list_fmap_id.
Qed.

Lemma weave_byte c gaps mids : contains_byte c (weave gaps mids) = false → length gaps = S (length mids) →
  ∀ new, contains_byte c new = false → contains_byte c (weave gaps ((λ _, new) <$> mids)) = false.
Proof.
  intros Hw Hl new Hnew. revert mids Hw Hl. induction gaps as [|g gaps IH]; intros [|m mids] Hw Hl; [done..|].
  cbn [weave fmap list_fmap] in *. rewrite !contains_byte_app in *.
  apply orb_false_elim in Hw as [-> [_ Hw]%orb_false_elim]. rewrite Hnew. apply IH; [done|cbn in Hl; lia].
Qed.

(** Such a file is edited in place: what the search did not match stays on the disk. *)
Lemma edited_in_place bytes gaps mids new : kept_as_is bytes → length gaps = S (length mids) →
  let has_crlf := contains crlf (from_utf8_lossy bytes) in
  to_match_text has_crlf (from_utf8_lossy bytes) = weave gaps mids → (has_crlf = true → contains_byte (byte 13) new = false) →
  bytes = weave (file_ends has_crlf <$> gaps) (file_ends has_crlf <$> mids) ∧
  to_write_text has_crlf (weave gaps ((λ _, new) <$> mids)) =
    weave (file_ends has_crlf <$> gaps) ((λ _, file_ends has_crlf new) <$> mids).
Proof.
  intros [Hu Hk] Hl. cbn zeta. rewrite Hu. set (has_crlf := contains crlf bytes). intros Ht Hnew.
  assert (Hm : (λ _, file_ends has_crlf new) <$> mids = file_ends has_crlf <$> ((λ _ : string, new) <$> mids))
    by (by rewrite <-list_fmap_compose).
  rewrite Hm, <-!file_ends_weave, <-Ht. unfold has_crlf in *. destruct (contains crlf bytes); [|done].
  destruct (Hk eq_refl) as (t & -> & Hcr). cbn [to_match_text] in *. rewrite crlf_form_inverse in * by done. split; [done|].
  unfold to_write_text. rewrite crlf_absent; [done|]. apply weave_byte; [by rewrite <-Ht|done|by apply Hnew].
Qed.

Section Properties.
Context `{HostFs}.

Lemma locate_found input res text ps fallback : Input.old_string input ≠ "" →
  locate input res text = inl (ps, fallback) → ps ≠ [] →
  ∃ ms, ps = original_start <$> ms ∧ ms ≠ [] ∧ StronglySorted before_match ms ∧
    replaced input text ps fallback = Some (replace_spans text (Input.new_string input) 0 0 ms) ∧
    (if fallback then match_indices (Input.old_string input) text = [] ∧
                      default false (unicode_normalized_fallback <$> params res) = true ∧
                      find_normalized_match_positions text (Input.old_string input) = Matches ms
     else ms = exact_matches (Input.old_string input) text).
Proof.
  intros Hold. unfold locate. destruct (match_indices _ text) as [|q qs] eqn:Em.
  - destruct (default false _) eqn:Ef; [|intros [= <- <-]; done].
    destruct (find_normalized_match_positions _ _) as [|ms|] eqn:En; [intros [= <- <-]; done| |done].
    destruct (bool_decide _ && negb _); [done|]. intros [= <- <-] Hne. exists ms. split; [done|].
    apply find_normalized_outcome in En as Ho. destruct Ho as (_ & Hms & Ho & _).
    split; [done|]. split; [by apply spans_overlap_sorted|]. unfold replaced. rewrite En. done.
  - intros [= <- <-] _. exists (exact_matches (Input.old_string input) text). unfold exact_matches. rewrite Em.
    split; [cbn; f_equal; clear; by induction qs as [|x qs IH]; [|cbn; f_equal]|].
    split; [done|]. rewrite <-Em. split; [by apply exact_matches_spec|]. split; [|done].
    unfold replaced, replace_using_positions. by rewrite Em.
Qed.

Lemma locate_answer input res text answer : locate input res text = inr answer →
  match answer with Ok (EditsApplied a) => False | _ => True end.
Proof.
  unfold locate. destruct (match_indices _ _); [|done]. destruct (default false _); [|done].
  destruct (find_normalized_match_positions _ _) as [|ms|]; [done| |].
  - destruct (bool_decide _ && negb _); [|done]. intros [= <-]. by destruct (resolve res _).
  - intros [= <-]. by destruct (resolve res _).
Qed.

Lemma no_match_kind input res text path legacy hint r : no_match_output input res text path legacy hint = Some r →
  match r with Ok (NoMatchesFound _ p) => p = path | Err _ => True | _ => False end.
Proof.
  unfold no_match_output.
  match goal with |- context [match ?r with Ok _ => _ | Err e => Some (Err e) end] => destruct r as [[[read param] exec]|e] end;
    [|by intros [= <-]].
  destruct (if legacy then Some None else _) as [h|]; cbn [mbind option_bind]; [|done]. by intros [= <-].
Qed.

Lemma details_total text new last ms old :
  is_Some (build_edit_details (replace_spans text new last 0 ms).1 old new (replace_spans text new last 0 ms).2 CONTEXT_LINES).
Proof.
  apply mapM_is_Some_2. apply Forall_forall. intros q [k Hk]%list_elem_of_lookup_1.
  apply replace_spans_positions in Hk as (_ & u & v & -> & <-).
  destruct (edit_detail_describes u new v old CONTEXT_LINES ltac:(unfold CONTEXT_LINES; lia)) as (d & Hd & _).
  by exists d.
Qed.

Lemma no_match_total input res text path legacy hint : is_Some (no_match_output input res text path legacy hint).
Proof.
  unfold no_match_output.
  match goal with |- context [match ?r with Ok _ => _ | Err e => Some (Err e) end] => destruct r as [[[read param] exec]|e] end;
    [|by eexists].
  destruct legacy; [by eexists|].
  destruct (confusable_hint_total text (Input.old_string input) (query_tools res) read param exec) as [h ->].
  by eexists.
Qed.

Lemma refused_answer input res f path version out : refused input res f path version = Some out →
  match out with EditsApplied _ => False | _ => True end.
Proof.
  unfold refused, validate_path_length. destruct (filter _ _); [|by intros [= <-]].
  destruct (is_dir f path); [by intros [= <-]|]. destruct (_ && _); [by intros [= <-]|].
  case_bool_decide; [by intros [= <-]|done].
Qed.

Lemma read_file_Some path f bytes : read_file path f = Ok bytes → f !! path = Some bytes.
Proof. unfold read_file. destruct (read_fault path); [done|]. destruct (f !! path); [by intros [= ->]|done]. Qed.

(** What an applied replacement has done, from the world before it. *)
Definition replacement_done (input : SearchReplaceInput) (res : Resources) (call_id path : string) (w w' : World)
    (a : SearchReplaceEditsApplied) : Prop :=
  ∃ bytes ms, read_file path (disk w) = Ok bytes ∧
    let old_text := from_utf8_lossy bytes in
    let has_crlf := contains crlf old_text in
    let text := to_match_text has_crlf old_text in
    let written := to_write_text has_crlf (replace_spans text (Input.new_string input) 0 0 ms).1 in
    ms ≠ [] ∧ StronglySorted before_match ms ∧ (length ms = 1 ∨ Input.replace_all input = true) ∧
    (if unicode_normalized a
     then match_indices (Input.old_string input) text = [] ∧
          default false (unicode_normalized_fallback <$> params res) = true ∧
          find_normalized_match_positions text (Input.old_string input) = Matches ms
     else ms = exact_matches (Input.old_string input) text) ∧
    write_fault path = None ∧ absolute_path a = path ∧
    build_edit_details (replace_spans text (Input.new_string input) 0 0 ms).1 (Input.old_string input)
      (Input.new_string input) (replace_spans text (Input.new_string input) 0 0 ms).2 CONTEXT_LINES = Some (edits a) ∧
    w' = MkWorld (<[path := written]> (disk w))
           (sent w ++ [MkWritten call_id path written (Some old_text) false]).

Lemma handle_replacement_outcome input res call_id path display legacy hint w : Input.old_string input ≠ "" →
  ∃ r w', handle_replacement input res call_id path display legacy hint w = (Some r, w') ∧
  match r with
  | Ok (EditsApplied a) => replacement_done input res call_id path w w' a
  | _ => w' = w
  end.
Proof.
  intros Hold. unfold handle_replacement.
  destruct (read_file path (disk w)) as [bytes|e] eqn:Hread.
  2: { eexists _, w. split; [done|]. by destruct e. }
  cbv zeta. set (old_text := from_utf8_lossy bytes). set (has_crlf := contains crlf old_text).
  set (text := to_match_text has_crlf old_text).
  destruct (locate input res text) as [[ps fallback]|answer] eqn:Hloc.
  2: { eexists _, w. split; [done|]. apply locate_answer in Hloc. by destruct answer as [[]|]. }
  destruct ps as [|q qs].
  { destruct (no_match_total input res text path legacy hint) as [r Hr]. rewrite Hr.
    exists r, w. split; [done|]. apply no_match_kind in Hr. by destruct r as [[]|]. }
  destruct (locate_found input res text (q :: qs) fallback Hold Hloc ltac:(done)) as (ms & Hps & Hne & Hs & Hrep & Hkind).
  assert (Hlen : length (q :: qs) = length ms) by (by rewrite Hps, length_fmap).
  destruct (bool_decide (1 < length (q :: qs)) && negb (Input.replace_all input)) eqn:Hmany.
  { eexists _, w. split; [done|]. by destruct (resolve res _). }
  rewrite Hrep. destruct (replace_spans text (Input.new_string input) 0 0 ms) as [new_text new_positions] eqn:Espans.
  unfold write_file. destruct (write_fault path) as [e|] eqn:Hw.
  { eexists _, _. split; [done|]. destruct e; by destruct w. }
  destruct (details_total text (Input.new_string input) 0 ms (Input.old_string input)) as [details Hd].
  rewrite Espans in Hd. cbn [fst snd] in Hd. rewrite Hd. cbn [mbind option_bind].
  eexists _, _. split; [done|]. unfold applied_output.
  destruct (bool_decide (length new_positions = 1)); (exists bytes, ms; split; [exact Hread|];
    cbn zeta; fold old_text; fold has_crlf; fold text; rewrite Espans; cbn [fst snd unicode_normalized absolute_path edits];
    split_and!; try done;
    apply andb_false_iff in Hmany as [Hmany|Hmany];
      [apply bool_decide_eq_false in Hmany; left; destruct ms; [done|cbn in *; lia]|right; by apply negb_false_iff]).
Qed.

(** An applied call with a text to replace. *)
Lemma applied_inv input res version call_id resolved display w a w' : Input.old_string input ≠ "" →
  run_search_replace input res version call_id resolved display w = (Some (Ok (EditsApplied a)), w') →
  replacement_done input res call_id (target_path (disk w) resolved) w w' a.
Proof.
  intros Hold. unfold run_search_replace. destruct (refused _ _ _ _ _) as [out|] eqn:Hr.
  { intros [= ->]. by apply refused_answer in Hr. }
  destruct (is_empty (Input.old_string input)) eqn:He; [by destruct (Input.old_string input)|].
  destruct (handle_replacement_outcome input res call_id (target_path (disk w) resolved) display
    (is_legacy (from_contract version)) (default true (include_user_edit_hint <$> params res)) w Hold)
    as (r & w1 & Hrun & Hm). cbn zeta. rewrite Hrun. intros [= -> ->]. exact Hm.
Qed.

(** A call always returns. Unless it reports an applied edit the world is as before;
    an applied edit has changed one file and sent one notification, which carries
    the text that the file now holds. *)
Theorem search_replace_outcome input res version call_id resolved display w :
  ∃ r w', run_search_replace input res version call_id resolved display w = (Some r, w') ∧
  match r with
  | Ok (EditsApplied a) => ∃ n, w' = MkWorld (<[absolute_path a := content n]> (disk w)) (sent w ++ [n]) ∧
      written_path n = absolute_path a ∧ absolute_path a = target_path (disk w) resolved ∧ tool_call_id n = call_id
  | _ => w' = w
  end.
Proof.
  unfold run_search_replace. destruct (refused _ _ _ _ _) as [out|] eqn:Hr.
  { exists (Ok out), w. split; [done|]. apply refused_answer in Hr. by destruct out. }
  destruct (is_empty (Input.old_string input)) eqn:He.
  - unfold handle_new_file_creation. cbv zeta. destruct (_ && default false _).
    { eexists _, w. split; [done|]. by destruct (resolve res _). }
    unfold write_file. destruct (write_fault _) as [e|].
    { eexists _, _. split; [done|]. by destruct e, w. }
    eexists _, _. split; [done|]. unfold creation_output. cbn [absolute_path].
    set (n := match _ <$> _ with Some t => _ | None => _ end).
    assert (Hn : content n = Input.new_string input ∧ written_path n = target_path (disk w) resolved ∧ tool_call_id n = call_id).
    { subst n. by repeat case_match. }
    destruct Hn as (Hc & Hpath & Hid). exists n. unfold send_file_written. cbn [disk sent]. by rewrite Hc.
  - destruct (handle_replacement_outcome input res call_id (target_path (disk w) resolved) display
      (is_legacy (from_contract version)) (default true (include_user_edit_hint <$> params res)) w) as (r & w' & Hrun & Hm).
    { intros Hn. by rewrite Hn in He. }
    exists r, w'. split; [exact Hrun|]. destruct r as [[]|]; try exact Hm.
    destruct Hm as (bytes & ms & _ & _ & _ & _ & _ & _ & Hp & _ & Hw). rewrite Hw, Hp.
    eexists (MkWritten _ _ _ _ _). cbn [content written_path tool_call_id]. by split; [reflexivity|].
Qed.

(** C32: An applied call with a text to replace has replaced the matches and nothing
    else. It searches the file decoded as UTF-8, a replacement character for every
    invalid byte sequence, with a CRLF read as a line feed: this text and the new one
    have the same gaps, the matches are the text to replace, or text with the same
    normal form when the fallback found them, there is one match unless all were
    asked for, and without the fallback the new text is [str::replace] of the old
    one. On the disk is the new text as a whole, every line end a CRLF once the file
    had one. So the bytes outside the matches are those of before where the file is
    valid UTF-8 with line ends of one kind. *)
Theorem replacement_changes_only_matches input res version call_id resolved display w a w' :
  Input.old_string input ≠ "" →
  run_search_replace input res version call_id resolved display w = (Some (Ok (EditsApplied a)), w') →
  ∃ bytes gaps mids, disk w !! absolute_path a = Some bytes ∧
    let old_text := from_utf8_lossy bytes in
    let has_crlf := contains crlf old_text in
    let text := to_match_text has_crlf old_text in
    let new_text := weave gaps ((λ _, Input.new_string input) <$> mids) in
    text = weave gaps mids ∧ length gaps = S (length mids) ∧ mids ≠ [] ∧
    (length mids = 1 ∨ Input.replace_all input = true) ∧
    Forall (λ m, if unicode_normalized a then normalize_confusables m = normalize_confusables (Input.old_string input)
                 else m = Input.old_string input) mids ∧
    (unicode_normalized a = false → new_text = replace (Input.old_string input) (Input.new_string input) text) ∧
    disk w' !! absolute_path a = Some (to_write_text has_crlf new_text) ∧
    last (sent w') = Some (MkWritten call_id (absolute_path a) (to_write_text has_crlf new_text) (Some old_text) false) ∧
    (kept_as_is bytes → (has_crlf = true → contains_byte (byte 13) (Input.new_string input) = false) →
       bytes = weave (file_ends has_crlf <$> gaps) (file_ends has_crlf <$> mids) ∧
       disk w' !! absolute_path a =
         Some (weave (file_ends has_crlf <$> gaps) ((λ _, file_ends has_crlf (Input.new_string input)) <$> mids))).
Proof.
  intros Hold Hrun. apply applied_inv in Hrun as (bytes & ms & Hread & Hne & Hs & Hcount & Hkind & _ & Hp & _ & ->); [|done].
  set (old_text := from_utf8_lossy bytes) in *. set (has_crlf := contains crlf old_text) in *.
  set (text := to_match_text has_crlf old_text) in *.
  destruct (replace_spans_weave text (Input.new_string input) 0 0 ms Hs) as (gaps & Hgaps & Ht & Hn).
  { apply Forall_forall. intros. lia. }
  exists bytes, gaps, (span_text text <$> ms). rewrite Hp.
  split; [by eapply read_file_Some|]. cbv zeta. fold old_text; fold has_crlf; fold text.
  rewrite length_fmap, <-list_fmap_compose.
  assert (Hw : weave gaps ((λ _, Input.new_string input) ∘ span_text text <$> ms) =
    (replace_spans text (Input.new_string input) 0 0 ms).1) by (symmetry; exact Hn).
  rewrite Hw. split; [by rewrite <-Ht|]. split; [done|]. split; [by destruct ms|]. split; [done|].
  split; [|split; [|split; [|split]]].
  - apply Forall_fmap. destruct (unicode_normalized a).
    + destruct Hkind as (_ & _ & Hf). apply find_normalized_outcome in Hf as (_ & _ & _ & Hall).
      eapply Forall_impl; [exact Hall|]. intros m (u & v & _ & Hm). by eapply validate_candidate_norm.
    + subst ms. by apply exact_matches_spec.
  - intros Hu. rewrite Hu in Hkind. subst ms. by apply replace_using_matches.
  - cbn [disk]. apply lookup_insert_eq.
  - cbn [sent]. by rewrite last_snoc.
  - intros Hk Hcr. destruct (edited_in_place bytes gaps (span_text text <$> ms) (Input.new_string input) Hk) as [Hb Hd];
      [by rewrite length_fmap|by rewrite <-Ht|done|]. split; [exact Hb|].
    cbn [disk]. rewrite lookup_insert_eq. f_equal. rewrite <-!list_fmap_compose in Hd. rewrite Hw in Hd. by rewrite <-list_fmap_compose.
Qed.

(** The number of occurrences decides the answer for a readable and writable file:
    one, or several when all are asked for, are replaced as by [str::replace];
    several otherwise are refused; none is reported, unless the fallback is on. *)
Theorem occurrences_decide input res version call_id resolved display w bytes :
  let path := target_path (disk w) resolved in
  let has_crlf := contains crlf (from_utf8_lossy bytes) in
  let text := to_match_text has_crlf (from_utf8_lossy bytes) in
  let n := length (match_indices (Input.old_string input) text) in
  Input.old_string input ≠ "" → refused input res (disk w) path version = None →
  read_file path (disk w) = Ok bytes → write_fault path = None →
  ∃ r w', run_search_replace input res version call_id resolved display w = (Some r, w') ∧
  (n = 1 ∨ (1 < n ∧ Input.replace_all input = true) →
     (∃ a, r = Ok (EditsApplied a) ∧ unicode_normalized a = false ∧ length (edits a) = n) ∧
     disk w' = <[path := to_write_text has_crlf (replace (Input.old_string input) (Input.new_string input) text)]> (disk w)) ∧
  (1 < n ∧ Input.replace_all input = false →
     w' = w ∧ match r with Ok (MultipleMatchesFound _) => True | Err _ => True | _ => False end) ∧
  (n = 0 ∧ default false (unicode_normalized_fallback <$> params res) = false →
     w' = w ∧ match r with Ok (NoMatchesFound _ p) => p = path | Err _ => True | _ => False end).
Proof.
  cbn zeta. intros Hold Hr Hread Hw. unfold run_search_replace. rewrite Hr.
  destruct (is_empty (Input.old_string input)) eqn:He; [by destruct (Input.old_string input)|].
  unfold handle_replacement. rewrite Hread. cbn zeta.
  set (has_crlf := contains crlf (from_utf8_lossy bytes)). set (text := to_match_text has_crlf (from_utf8_lossy bytes)).
  set (path := target_path (disk w) resolved) in *. unfold locate.
  destruct (match_indices (Input.old_string input) text) as [|q qs] eqn:Em.
  { cbn [length]. destruct (default false _) eqn:Ef.
    - destruct (handle_replacement_outcome input res call_id path display (is_legacy (from_contract version))
        (default true (include_user_edit_hint <$> params res)) w Hold) as (r & w' & Hrun & _).
      unfold handle_replacement in Hrun. rewrite Hread in Hrun. cbn zeta in Hrun. fold has_crlf text in Hrun.
      unfold locate in Hrun. rewrite Em, Ef in Hrun. exists r, w'. split; [exact Hrun|]. split_and!; [lia|lia|by intros [_ ?]].
    - destruct (no_match_total input res text path (is_legacy (from_contract version))
        (default true (include_user_edit_hint <$> params res))) as [r Hn]. rewrite Hn.
      exists r, w. split; [done|]. split_and!; [lia|lia|]. intros _. split; [done|]. by apply no_match_kind in Hn. }
  set (n := length (q :: qs)). destruct (bool_decide (1 < n) && negb (Input.replace_all input)) eqn:Hmany.
  { apply andb_prop in Hmany as [H1%bool_decide_eq_true Hall%negb_true_iff].
    eexists _, w. split; [done|]. split_and!; [intros [|[_ ?]]; [lia|congruence]| |lia].
    intros _. split; [done|]. by destruct (resolve res _). }
  unfold replaced. unfold n. rewrite <-Em. fold n.
  assert (Htext := replace_using_matches (Input.old_string input) (Input.new_string input) text Hold).
  assert (Hlen := replace_spans_length text (Input.new_string input) 0 0 (exact_matches (Input.old_string input) text)).
  destruct (details_total text (Input.new_string input) 0 (exact_matches (Input.old_string input) text) (Input.old_string input))
    as [details Hd].
  unfold replace_using_positions in *. fold (exact_matches (Input.old_string input) text) in *.
  assert (Hld := length_mapM_Some _ _ _ Hd). rewrite Hlen in Hld. unfold exact_matches in Hld.
  rewrite length_fmap, Em in Hld. fold n in Hld.
  destruct (replace_spans text (Input.new_string input) 0 0 (exact_matches (Input.old_string input) text)) as [t ps].
  cbn [fst snd] in *. unfold write_file. rewrite Hw, Hd. cbn [mbind option_bind].
  eexists _, _. split; [done|]. split; [|split; [|intros [Hn0 _]; rewrite Em in Hn0; done]].
  - intros _. split; [|cbn; by rewrite Htext]. unfold applied_output.
    destruct (bool_decide (length ps = 1)); (eexists; split_and!; [done|done|by rewrite Em]).
  - intros [H1 Hall]. rewrite Em in H1. fold n in H1. rewrite (bool_decide_eq_true_2 _ H1), Hall in Hmany. done.
Qed.

(** An applied replacement returns one detail for every match, and every detail
    describes its place in the new text, which is on the disk with the line ends of
    the file: line, prefix and up to three lines of context. *)
Theorem details_describe_new_text input res version call_id resolved display w a w' :
  Input.old_string input ≠ "" →
  run_search_replace input res version call_id resolved display w = (Some (Ok (EditsApplied a)), w') →
  ∃ new_text has_crlf, disk w' !! absolute_path a = Some (to_write_text has_crlf new_text) ∧ edits a ≠ [] ∧
    Forall (λ d, EditDetails.Snippets.old_string d = Input.old_string input ∧
                 ∃ u v, new_text = u +:+ Input.new_string input +:+ v ∧
                        describes u (Input.new_string input) v CONTEXT_LINES d) (edits a).
Proof.
  intros Hold Hrun. apply applied_inv in Hrun as (bytes & ms & _ & Hne & _ & _ & _ & _ & Hp & Hd & ->); [|done].
  eexists _, _. rewrite Hp. split; [cbn [disk]; apply lookup_insert_eq|].
  assert (Hlen := length_mapM_Some _ _ _ Hd). rewrite replace_spans_length in Hlen.
  split; [intros Hn; rewrite Hn in Hlen; by destruct ms|].
  apply mapM_Some in Hd. apply Forall_forall. intros d [k Hk]%list_elem_of_lookup_1.
  destruct (Forall2_lookup_r _ _ _ _ _ Hd Hk) as (q & Hq & Hb).
  apply replace_spans_positions in Hq as (_ & u & v & Ht & Hu). cbn [plus] in Hu. subst q.
  destruct (edit_detail_describes u (Input.new_string input) v (Input.old_string input) CONTEXT_LINES
    ltac:(unfold CONTEXT_LINES; lia)) as (d' & Hd' & Ho & Hdesc).
  rewrite Ht, Hd' in Hb. injection Hb as ->. split; [exact Ho|]. by exists u, v.
Qed.

(** * Overwriting *)

(** An empty text to replace overwrites a file that exists (the default), and the
    notification calls the file new and has no previous content: what was in the
    file is in no message. *)
Theorem overwriting_forgets_old_text input res version call_id resolved display w bytes :
  let path := target_path (disk w) resolved in
  Input.old_string input = "" → refused input res (disk w) path version = None →
  read_file path (disk w) = Ok bytes → bytes ≠ "" → write_fault path = None →
  default false (empty_old_string_does_not_override <$> params res) = false →
  ∃ a, run_search_replace input res version call_id resolved display w =
    (Some (Ok (EditsApplied a)),
     MkWorld (<[path := Input.new_string input]> (disk w))
       (sent w ++ [MkWritten call_id path (Input.new_string input) None true])).
Proof.
  cbn zeta. intros Hold Hr Hread Hne Hw Hp. unfold run_search_replace. rewrite Hr, Hold. cbn [is_empty].
  unfold handle_new_file_creation. rewrite Hread, Hp, andb_false_r. unfold write_file. rewrite Hw.
  eexists. unfold creation_output. cbn [ok fmap option_fmap option_map]. rewrite Hold. reflexivity.
Qed.

(** * Line ends *)

(** A file whose line ends are all CRLF is edited like the text with plain line
    ends, and keeps its line ends. *)
Theorem crlf_file_edited_as_text u v :
  contains_byte (byte 13) u = false → contains_byte (byte 13) v = false → contains_byte LF u = true →
  let file := replace newline crlf u in
  contains crlf file = true ∧ to_match_text true file = u ∧ to_write_text true v = replace newline crlf v ∧
  to_match_text true (to_write_text true v) = v.
Proof.
  intros Hu Hv Hlf. cbn zeta. unfold to_match_text, to_write_text.
  split; [by apply crlf_form_contains|]. split; [by apply crlf_form_inverse|].
  rewrite (crlf_absent v) by done. split; [done|]. by apply crlf_form_inverse.
Qed.
End Properties.

(** * Concrete calls *)

(** A host on which every path is canonical and nothing fails but a write to
    [read-only]. *)
Module TextHost.
#[global] Instance text_host : HostFs := {|
  try_canonicalize f p := if bool_decide (is_Some (f !! p)) then Ok p else Err IoNotFound;
  try_resolve_unicode_filename _ _ := None;
  is_dir _ _ := false;
  canonicalize_with_timeout _ p := p;
  read_fault _ := None;
  write_fault p := if bool_decide (p = "read-only") then Some (IoOther "denied") else None;
  show_io_error e := match e with IoOther why => why | _ => "not found" end;
  format_not_found_error _ d _ := "no file " +:+ d;
|}.
Definition names : option (string → result string string) := Some (λ t, Ok t).
Definition res (fallback : bool) : Resources :=
  MkResources None None (Some (MkParams false false fallback true)) names (MkTools None None None None).
Definition world (bytes : string) : World := MkWorld {["f" := bytes]} [].
Definition input (old new : string) (all : bool) : SearchReplaceInput := Input.Make "f" old new all.
Definition call (fallback : bool) (old new : string) (all : bool) (bytes : string) :=
  run_search_replace (input old new all) (res fallback) None "id" "f" "f" (world bytes).
(** The kind of the answer and the file. *)
Definition summary (r : option (result ToolError SearchReplaceOutput) * World) : option (string * option string) :=
  match r.1 with
  | Some (Ok (EditsApplied _)) => Some ("applied", disk r.2 !! "f")
  | Some (Ok (MultipleMatchesFound _)) => Some ("several", disk r.2 !! "f")
  | Some (Ok (NoMatchesFound _ _)) => Some ("none", disk r.2 !! "f")
  | _ => None
  end.
End TextHost.
Import TextHost.

Lemma replacement_changes_only_matches_witness : let file := "a b" +:+ crlf +:+ "c" in ∃ a w' gaps mids,
  call false "b" "X" false file = (Some (Ok (EditsApplied a)), w') ∧ kept_as_is file ∧
  "a b" +:+ newline +:+ "c" = weave gaps mids ∧ mids = ["b"] ∧ disk w' !! "f" = Some (weave (file_ends true <$> gaps) ["X"]).
Proof.
  cbn zeta. set (file := "a b" +:+ crlf +:+ "c").
  destruct (call false "b" "X" false file) as [[[[]|]|] w'] eqn:E; try (exfalso; revert E; vm_compute; discriminate).
  destruct (replacement_changes_only_matches (input "b" "X" false) (res false) None "id" "f" "f" (world file) a w'
    ltac:(discriminate) E) as (bytes & gaps & mids & Hb & Ht & _ & _ & Hl & Hm & _ & _ & _ & Hd).
  assert (Ea : absolute_path a = "f" ∧ unicode_normalized a = false)
    by (revert E; vm_compute; intros [= <- _]; split; reflexivity).
  destruct Ea as [Ea Eu]. rewrite Ea in *. rewrite Eu in Hm. injection Hb as <-.
  destruct Hl as [Hl|Hl]; [|discriminate Hl]. destruct mids as [|m [|]]; try discriminate Hl.
  apply Forall_cons in Hm as [Hm _]. cbn in Hm. subst m.
  assert (Hk : kept_as_is file).
  { split; [reflexivity|]. intros _. exists ("a b" +:+ newline +:+ "c"). split; reflexivity. }
  destruct (Hd Hk (λ _, eq_refl)) as [_ Hdisk].
  exists a, w', gaps, ["b"]. split; [reflexivity|]. split; [exact Hk|]. split; [exact Ht|]. split; [reflexivity|exact Hdisk].
Defined.

Lemma occurrences_decide_witness : ∃ r w',
  call false "b" "X" false "b a b" = (Some r, w') ∧ w' = world "b a b" ∧
  match r with Ok (MultipleMatchesFound _) => True | Err _ => True | _ => False end.
Proof.
  destruct (occurrences_decide (input "b" "X" false) (res false) None "id" "f" "f" (world "b a b") "b a b"
    ltac:(discriminate) eq_refl eq_refl eq_refl) as (r & w' & Hr & _ & Hs & _).
  exists r, w'. split; [exact Hr|]. apply Hs. split; [vm_compute; lia|reflexivity].
Defined.

Lemma details_describe_new_text_witness : ∃ a w',
  call false "b" "X" true "b a b" = (Some (Ok (EditsApplied a)), w') ∧ edits a ≠ [].
Proof.
  destruct (call false "b" "X" true "b a b") as [[[[]|]|] w'] eqn:E; try (exfalso; revert E; vm_compute; discriminate).
  destruct (details_describe_new_text (input "b" "X" true) (res false) None "id" "f" "f" (world "b a b") a w'
    ltac:(discriminate) E) as (t & c & _ & Hne & _).
  exists a, w'. split; [reflexivity|exact Hne].
Defined.

Lemma overwriting_forgets_old_text_witness : ∃ a,
  call false "" "new" false "precious" =
  (Some (Ok (EditsApplied a)), MkWorld {["f" := "new"]} [MkWritten "id" "f" "new" None true]).
Proof.
  destruct (overwriting_forgets_old_text (input "" "new" false) (res false) None "id" "f" "f" (world "precious") "precious"
    ltac:(reflexivity) ltac:(vm_compute; reflexivity) ltac:(vm_compute; reflexivity) ltac:(discriminate)
    ltac:(vm_compute; reflexivity) ltac:(vm_compute; reflexivity)) as [a Ha].
  exists a. unfold call. rewrite Ha. reflexivity.
Defined.

Lemma crlf_file_edited_as_text_witness :
  contains_byte LF ("a" +:+ newline +:+ "b") = true ∧
  to_match_text true (replace newline crlf ("a" +:+ newline +:+ "b")) = "a" +:+ newline +:+ "b".
Proof.
  split; [reflexivity|].
  exact (proj1 (proj2 (crlf_file_edited_as_text ("a" +:+ newline +:+ "b") "c" eq_refl eq_refl eq_refl))).
Defined.

(** The fallback at work: typographic quotes in the file, plain ones in the call. *)
Lemma fallback_replaces_typography :
  let quoted := "say " +:+ str_of_bytes [226; 128; 156]%N +:+ "hi" +:+ str_of_bytes [226; 128; 157]%N in
  let plain := quote_str +:+ "hi" +:+ quote_str in
  summary (call true plain "ho" false quoted) = Some ("applied", Some "say ho") ∧
  summary (call false plain "ho" false quoted) = Some ("none", Some quoted).
Proof. vm_compute. done. Qed.

(** One CRLF makes all line ends of the written file CRLF. *)
Lemma mixed_line_ends_rewritten :
  summary (call false "a" "x" false ("a" +:+ crlf +:+ "b" +:+ newline +:+ "c")) =
  Some ("applied", Some ("x" +:+ crlf +:+ "b" +:+ crlf +:+ "c")).
Proof. vm_compute. done. Qed.

(** Overlapping occurrences count once, so the first of two places is edited. *)
Lemma overlapping_occurrences_not_several :
  summary (call false "aa" "b" false "aaa") = Some ("applied", Some "ba").
Proof. vm_compute. done. Qed.

(** The line in the old file is that of the new file: the second match, on line 2
    of the old file, is reported at line 3. *)
Lemma old_line_is_new_line : ∃ a w',
  call false "a" ("x" +:+ newline +:+ "y") true ("a" +:+ newline +:+ "a") = (Some (Ok (EditsApplied a)), w') ∧
  old_line <$> edits a = [1; 3].
Proof. eexists _, _. split; [vm_compute; reflexivity|]. vm_compute. reflexivity. Qed.

(** Under the legacy contract an edit whose answer cannot be worded has been
    applied, and the call reports an error. *)
Lemma legacy_error_after_edit :
  let no_names := MkResources None None None None (MkTools None None None None) in
  run (input "b" "X" false) no_names (Some "legacy-0.4.10") "id" "f" "f" (world "a b c") =
  (Some (Err (MissingResource "TemplateRenderer")),
   MkWorld {["f" := "a X c"]} [MkWritten "id" "f" "a X c" (Some "a b c") false]).
Proof. vm_compute. reflexivity. Qed.
