(* ===== verification/HunkDiff.v ===== *)
(** Changed regions of a file (crate [ainxt-hunk-tracker]: [types.rs], [diff.rs]):
    hunks from a line diff, their overlap and matching, and the line patches that
    accept and reject them. The diff itself is a library and a parameter here, with
    its contract as a class. Time stamps and the selection mark of a hunk, which
    only displays use, are left out; line numbers are unbounded, which the size
    limit of diffed files justifies. *)
From stdpp Require Import list.
From S2P Require Import Prelude RustStr StrSearch EditDetails.

Module Export HunkTypes.

(** A hunk's identifier; a new one is a number never given out before. *)
Definition HunkId : Type := N.

Record HunkLineInfo : Type := MkLineInfo {
  old_start : nat;
  old_count : nat;
  new_start : nat;
  new_count : nat;
}.
#[export] Instance HunkLineInfo_eq_dec : EqDecision HunkLineInfo.
Proof. solve_decision. Defined.

Inductive HunkSource : Type :=
| AgentEdit (prompt_index : N)
| ExternalEditOnAgentFile
| External.
#[export] Instance HunkSource_eq_dec : EqDecision HunkSource.
Proof. solve_decision. Defined.

Definition is_agent_edit (s : HunkSource) : bool := match s with AgentEdit _ => true | _ => false end.
Definition is_agent_tracked (s : HunkSource) : bool :=
  match s with AgentEdit _ | ExternalEditOnAgentFile => true | _ => false end.
Definition is_external (s : HunkSource) : bool :=
  match s with External | ExternalEditOnAgentFile => true | _ => false end.
Definition prompt_index (s : HunkSource) : option N := match s with AgentEdit p => Some p | _ => None end.

Record Hunk : Type := MkHunk {
  id : HunkId;
  path : string;
  line_info : HunkLineInfo;
  source : HunkSource;
  old_text : option string;
  new_text : string;
  patch : option string;
}.
#[export] Instance Hunk_eq_dec : EqDecision Hunk.
Proof. solve_decision. Defined.

Definition file_created (i : HunkId) (path content : string) (source : HunkSource) : Hunk :=
  let line_count := length (lines content) `max` 1 in
  MkHunk i path (MkLineInfo 0 0 1 line_count) source None content None.
Definition file_deleted (i : HunkId) (path content : string) (source : HunkSource) : Hunk :=
  let line_count := length (lines content) `max` 1 in
  MkHunk i path (MkLineInfo 1 line_count 0 0) source (Some content) "" None.

Definition summary (h : Hunk) : string :=
  let additions := length (lines (new_text h)) in
  let deletions := default 0 ((λ t, length (lines t)) <$> old_text h) in
  "+" +:+ show_nat additions +:+ "/-" +:+ show_nat deletions.
Definition display_path (h : Hunk) : string := path h +:+ ":" +:+ show_nat (new_start (line_info h)).
Definition show_line_info (l : HunkLineInfo) : string :=
  "@@ -" +:+ show_nat (old_start l) +:+ "," +:+ show_nat (old_count l) +:+ " +" +:+
  show_nat (new_start l) +:+ "," +:+ show_nat (new_count l) +:+ " @@".

End HunkTypes.

(** * The line diff *)

Module Export LineDiffs.

(** One element of [iter_all_changes]. *)
Inductive Change : Type := Equal (v : string) | Delete (v : string) | Insert (v : string).

(** The lines before and after. *)
Definition olds (cs : list Change) : list string :=
  omap (λ c, match c with Equal v | Delete v => Some v | Insert _ => None end) cs.
Definition news (cs : list Change) : list string :=
  omap (λ c, match c with Equal v | Insert v => Some v | Delete _ => None end) cs.

(** The library [similar]: the lines of a text, a diff within the time limit, and
    a unified diff with a context radius and two headers. *)
Class LineDiff : Type := {
  tokenize : string → list string;
  diff_lines : string → string → list Change;
  timed_out : string → string → bool;
  unified_diff : nat → string → string → string → string → string;
}.

(** What it documents: a diff spells out both texts line by line, lines are the
    pieces of the text, and without carriage returns they end at line feeds. *)
Class LawfulDiff `{LineDiff} : Prop := {
  tokenize_concat s : concat_str (tokenize s) = s;
  tokenize_plain s : contains_byte (byte 13) s = false → tokenize s = split_inclusive LF s;
  diff_olds a b : olds (diff_lines a b) = tokenize a;
  diff_news a b : news (diff_lines a b) = tokenize b;
}.

Record HunkBuilder : Type := MkBuilder {
  b_old_start : nat;
  b_new_start : nat;
  b_old_lines : list string;
  b_new_lines : list string;
}.
Definition HunkBuilder_new (old_start new_start : nat) : HunkBuilder := MkBuilder old_start new_start [] [].
Definition add_old_line (line : string) (b : HunkBuilder) : HunkBuilder :=
  MkBuilder (b_old_start b) (b_new_start b) (b_old_lines b ++ [line]) (b_new_lines b).
Definition add_new_line (line : string) (b : HunkBuilder) : HunkBuilder :=
  MkBuilder (b_old_start b) (b_new_start b) (b_old_lines b) (b_new_lines b ++ [line]).
Definition build (i : HunkId) (path : string) (source : HunkSource) (b : HunkBuilder) : Hunk :=
  let old_text := match b_old_lines b with [] => None | ls => Some (concat_str ls) end in
  MkHunk i path
    (MkLineInfo (b_old_start b) (length (b_old_lines b)) (b_new_start b) (length (b_new_lines b)))
    source old_text (concat_str (b_new_lines b)) None.

(** The loop over the changes: the hunks it completes, in order. *)
Fixpoint builders (old_line new_line : nat) (current : option HunkBuilder) (cs : list Change) : list HunkBuilder :=
  let hunk := default (HunkBuilder_new old_line new_line) current in
  match cs with
  | [] => option_list current
  | Equal _ :: cs => option_list current ++ builders (S old_line) (S new_line) None cs
  | Delete v :: cs => builders (S old_line) new_line (Some (add_old_line v hunk)) cs
  | Insert v :: cs => builders old_line (S new_line) (Some (add_new_line v hunk)) cs
  end.

Definition MAX_DIFF_FILE_SIZE : N := 1048576.
Definition CONTEXT_LINES : nat := 3.
Definition too_large (s : string) : bool := bool_decide (MAX_DIFF_FILE_SIZE < N.of_nat (String.length s))%N.

Section Compute.
Context `{LineDiff}.

(** The identifiers of the new hunks start at [next]. *)
Definition compute_hunks (next : HunkId) (path baseline current : string) (source : HunkSource) : list Hunk :=
  if bool_decide (baseline = current) then []
  else if too_large baseline || too_large current then []
  else if timed_out baseline current then []
  else imap (λ i b, build (next + N.of_nat i)%N path source b) (builders 1 1 None (diff_lines baseline current)).

Definition generate_unified_patch (path baseline current : string) : option string :=
  if bool_decide (baseline = current) then None
  else if too_large baseline || too_large current then None
  else if timed_out baseline current then None
  else
    let unified := unified_diff CONTEXT_LINES ("a/" +:+ path) ("b/" +:+ path) baseline current in
    if is_empty unified then None else Some unified.
End Compute.

End LineDiffs.

(** * Patches *)

Module Export Patches.

Definition patch_lines (content : string) (start_line remove_count : nat) (insert_text : string) : string :=
  let ls := lines content in
  let start_idx := start_line - 1 in
  let end_idx := (start_idx + remove_count) `min` length ls in
  let result := take (start_idx `min` length ls) ls ++
                (if is_empty insert_text then [] else lines insert_text) ++ drop end_idx ls in
  let output := join newline result in
  if ends_with newline content && negb (is_empty output) then output +:+ newline else output.

Definition prefixed (p : string) (ls : list string) : string := concat_str ((λ l, p +:+ l +:+ newline) <$> ls).

(** One hunk written into the baseline, or taken back out of the current text. *)
Definition accept_text (h : Hunk) (baseline : string) : string :=
  patch_lines baseline (old_start (line_info h)) (old_count (line_info h)) (new_text h).
Definition reject_text (h : Hunk) (current : string) : string :=
  patch_lines current (new_start (line_info h)) (new_count (line_info h)) (default "" (old_text h)).

(** The loops of the batch actions, from the end of the file to its start. *)
Definition by_old_start_rev (x y : Hunk) : bool := bool_decide (old_start (line_info y) ≤ old_start (line_info x)).
Definition by_new_start_rev (x y : Hunk) : bool := bool_decide (new_start (line_info y) ≤ new_start (line_info x)).
Definition accept_all_text (hs : list Hunk) (baseline : string) : string :=
  fold_left (λ t h, accept_text h t) (sort_by by_old_start_rev hs) baseline.
Definition reject_all_text (hs : list Hunk) (current : string) : string :=
  fold_left (λ t h, reject_text h t) (sort_by by_new_start_rev hs) current.

(** The fragment of one hunk with its context; [None] where an unsigned subtraction
    panics. *)
Definition generate_hunk_patch (baseline current : string) (h : Hunk) : option string :=
  let old_lines := lines baseline in
  let new_lines := lines current in
  let i := line_info h in
  let old_start_idx := old_start i - 1 in
  let new_start_idx := new_start i - 1 in
  let context_before_start := old_start_idx - CONTEXT_LINES in
  let context_before_end := old_start_idx in
  let changes_end_new := new_start_idx + new_count i in
  let context_after_end := (changes_end_new + CONTEXT_LINES) `min` length new_lines in
  let changes_end_old := old_start_idx + old_count i in
  let context_after_end_old := (changes_end_old + CONTEXT_LINES) `min` length old_lines in
  after_old ← usize_sub context_after_end_old changes_end_old;
  after_new ← usize_sub context_after_end changes_end_new;
  let total_old_lines := (context_before_end - context_before_start) + old_count i + after_old in
  let total_new_lines := (context_before_end - context_before_start) + new_count i + after_new in
  let header := "@@ -" +:+ show_nat (context_before_start + 1) +:+ "," +:+ show_nat total_old_lines +:+
                " +" +:+ show_nat (context_before_start + 1) +:+ "," +:+ show_nat total_new_lines +:+ " @@" +:+ newline in
  Some (header +:+
    prefixed " " (slice_lines context_before_start context_before_end old_lines) +:+
    (match old_text h with Some t => prefixed "-" (lines t) | None => "" end) +:+
    prefixed "+" (lines (new_text h)) +:+
    prefixed " " (slice_lines changes_end_new context_after_end new_lines)).

Definition format_unified_diff (h : Hunk) : string :=
  "--- a/" +:+ path h +:+ newline +:+ "+++ b/" +:+ path h +:+ newline +:+
  show_line_info (line_info h) +:+ newline +:+
  (match old_text h with Some t => prefixed "-" (lines t) | None => "" end) +:+
  prefixed "+" (lines (new_text h)).

End Patches.

(** * Matching *)

Module Export Matching.

Definition hunks_match_content (a b : Hunk) : bool :=
  bool_decide (path a = path b) && bool_decide (old_text a = old_text b) && bool_decide (new_text a = new_text b).

Definition hunk_moved (old new : Hunk) : bool :=
  hunks_match_content old new && negb (bool_decide (line_info old = line_info new)).

Definition hunks_overlap (a b : Hunk) : bool :=
  if negb (bool_decide (path a = path b)) then false
  else
    let a_start := old_start (line_info a) in
    let a_end := old_start (line_info a) + old_count (line_info a) in
    let b_start := old_start (line_info b) in
    let b_end := old_start (line_info b) + old_count (line_info b) in
    if bool_decide (old_count (line_info a) = 0) && bool_decide (old_count (line_info b) = 0)
    then bool_decide (a_start = b_start)
    else if bool_decide (old_count (line_info a) = 0)
    then bool_decide (b_start ≤ a_start) && bool_decide (a_start ≤ b_end)
    else if bool_decide (old_count (line_info b) = 0)
    then bool_decide (a_start ≤ b_start) && bool_decide (b_start ≤ a_end)
    else negb (bool_decide (a_end < b_start) || bool_decide (b_end < a_start)).

Definition abs_diff (a b : nat) : nat := (a - b) + (b - a).

Definition calculate_overlap_size (a b : HunkLineInfo) : nat :=
  ((old_start a + old_count a) `min` (old_start b + old_count b)) - (old_start a `max` old_start b).

(** [min_by_key] keeps the first of the least, [max_by_key] the last of the
    greatest. *)
Definition min_by_key {A} (key : A → nat) (l : list A) : option A :=
  match l with
  | [] => None
  | x :: l => Some (fold_left (λ best y, if bool_decide (key y < key best) then y else best) l x)
  end.
Definition max_by_key {A} (key : A → nat) (l : list A) : option A :=
  match l with
  | [] => None
  | x :: l => Some (fold_left (λ best y, if bool_decide (key best ≤ key y) then y else best) l x)
  end.

Definition find_matching_old_hunk (new_hunk : Hunk) (old_hunks : list Hunk) : option Hunk :=
  match filter (λ o, hunks_match_content o new_hunk = true) old_hunks with
  | [] =>
      max_by_key (λ o, calculate_overlap_size (line_info o) (line_info new_hunk))
        (filter (λ o, hunks_overlap o new_hunk = true) old_hunks)
  | content_matches =>
      min_by_key (λ o, abs_diff (new_start (line_info o)) (new_start (line_info new_hunk))) content_matches
  end.

Definition find_overlapping_hunks (new_hunk : Hunk) (old_hunks : list Hunk) : list Hunk :=
  filter (λ o, hunks_overlap o new_hunk = true) old_hunks.

End Matching.
