(* ===== verification/HunkGeometry.v ===== *)
(** What the hunks of a line diff and the line patches mean: every hunk is one
    maximal changed run of the diff at its place in both texts, patching all of them
    into one text gives the other, and [patch_lines] is that patch on texts of plain
    lines. Also where it is not: carriage returns and a last line without its end. *)
From stdpp Require Import list sorting.
From S2P Require Import Prelude RustStr StrSearch EditDetails HunkDiff.

(** * Patches on lists of lines *)

Module Export LinePatches.

(** [count] lines from the one-based [start] replaced by [ins]. *)
Definition patch_list {A} (ls : list A) (start count : nat) (ins : list A) : list A :=
  take (start - 1) ls ++ ins ++ drop (start - 1 + count) ls.

Lemma patch_list_mid {A} (pre mid post ins : list A) :
  patch_list (pre ++ mid ++ post) (S (length pre)) (length mid) ins = pre ++ ins ++ post.
Proof.
  unfold patch_list. rewrite Nat.sub_succ, Nat.sub_0_r.
  rewrite take_app_length, <-drop_drop, drop_app_length, drop_app_length. done.
Qed.

Lemma patch_list_fmap {A B} (f : A → B) ls s c ins :
  patch_list (f <$> ls) s c (f <$> ins) = f <$> patch_list ls s c ins.
Proof. unfold patch_list. by rewrite !fmap_app, fmap_take, fmap_drop. Qed.

(** A selected builder takes its new lines, every other run keeps its old ones. *)
Definition keep_or_take (sel : HunkBuilder → bool) (b : HunkBuilder) : list string :=
  if sel b then b_new_lines b else b_old_lines b.
Fixpoint mixed (sel : HunkBuilder → bool) (ol nl : nat) (current : option HunkBuilder) (cs : list Change) : list string :=
  let hunk := default (HunkBuilder_new ol nl) current in
  match cs with
  | [] => default [] (keep_or_take sel <$> current)
  | Equal v :: cs => default [] (keep_or_take sel <$> current) ++ v :: mixed sel (S ol) (S nl) None cs
  | Delete v :: cs => mixed sel (S ol) nl (Some (add_old_line v hunk)) cs
  | Insert v :: cs => mixed sel ol (S nl) (Some (add_new_line v hunk)) cs
  end.

Lemma mixed_ext sel sel' : (∀ b, sel b = sel' b) → ∀ cs ol nl cur, mixed sel ol nl cur cs = mixed sel' ol nl cur cs.
Proof.
  intros He. assert (Hk : ∀ b, keep_or_take sel b = keep_or_take sel' b) by (intros b; unfold keep_or_take; by rewrite He).
  induction cs as [|[v|v|v] cs IH]; intros ol nl cur; cbn [mixed]; rewrite ?IH; [..|done|done];
    (destruct cur as [b|]; cbn; [by rewrite Hk|done]).
Qed.

Lemma mixed_all ol nl cur cs :
  mixed (λ _, true) ol nl cur cs = default [] (b_new_lines <$> cur) ++ news cs.
Proof.
  revert ol nl cur. induction cs as [|[v|v|v] cs IH]; intros ol nl cur; cbn [mixed].
  - destruct cur; cbn; [by rewrite app_nil_r|done].
  - rewrite IH. by destruct cur.
  - rewrite IH. cbn. by destruct cur.
  - rewrite IH. cbn. destruct cur; cbn; [by rewrite <-app_assoc|done].
Qed.

Lemma mixed_none ol nl cur cs :
  mixed (λ _, false) ol nl cur cs = default [] (b_old_lines <$> cur) ++ olds cs.
Proof.
  revert ol nl cur. induction cs as [|[v|v|v] cs IH]; intros ol nl cur; cbn [mixed].
  - destruct cur; cbn; [by rewrite app_nil_r|done].
  - rewrite IH. by destruct cur.
  - rewrite IH. cbn. destruct cur; cbn; [by rewrite <-app_assoc|done].
  - rewrite IH. cbn. by destruct cur.
Qed.

Definition accept_list (b : HunkBuilder) (ls : list string) : list string :=
  patch_list ls (b_old_start b) (length (b_old_lines b)) (b_new_lines b).
Definition reject_list (b : HunkBuilder) (ls : list string) : list string :=
  patch_list ls (b_new_start b) (length (b_new_lines b)) (b_old_lines b).

(** Patching the selected builders in from the last to the first. *)
Lemma accept_selected sel cs : ∀ (pre : list string) ol nl cur,
  (match cur with
   | None => ol = S (length pre)
   | Some b => b_old_start b = S (length pre) ∧ ol = b_old_start b + length (b_old_lines b)
   end) →
  foldr accept_list (pre ++ default [] (b_old_lines <$> cur) ++ olds cs) (filter (λ b, sel b = true) (builders ol nl cur cs)) =
  pre ++ mixed sel ol nl cur cs.
Proof.
  assert (Hput : ∀ b pre post, b_old_start b = S (length pre) →
    foldr accept_list (pre ++ b_old_lines b ++ post) (filter (λ b, sel b = true) [b]) = pre ++ keep_or_take sel b ++ post).
  { intros b pre post Hb. unfold keep_or_take. rewrite filter_cons, filter_nil. destruct (sel b); [|done].
    rewrite decide_True by done. cbn. unfold accept_list. rewrite Hb. apply patch_list_mid. }
  induction cs as [|[v|v|v] cs IH]; intros pre ol nl cur Hcur; cbn [builders mixed].
  - destruct cur as [b|]; [|done]. destruct Hcur as [Hb _]. rewrite <-(app_nil_r (default [] (keep_or_take sel <$> Some b))). exact (Hput _ _ [] Hb).
  - rewrite filter_app, foldr_app. destruct cur as [b|].
    + destruct Hcur as [Hb Hol].
      specialize (IH (pre ++ b_old_lines b ++ [v]) (S ol) (S nl) None). cbn in IH.
      rewrite <-!app_assoc in IH.
      etransitivity; [|exact (Hput _ _ (v :: mixed sel (S ol) (S nl) None cs) Hb)].
      f_equal. apply IH. rewrite !length_app. cbn. lia.
    + cbn. specialize (IH (pre ++ [v]) (S ol) (S nl) None). cbn in IH. rewrite <-!app_assoc in IH. apply IH.
      rewrite length_app. cbn. lia.
  - rewrite <-IH; cbn.
    + f_equal. destruct cur; cbn; [by rewrite <-app_assoc|done].
    + destruct cur; cbn; [rewrite length_app; cbn; lia|lia].
  - rewrite <-IH; cbn.
    + f_equal. by destruct cur.
    + destruct cur; cbn; lia.
Qed.

(** ** The other direction, by exchanging the two sides *)

Definition swap_change (c : Change) : Change :=
  match c with Equal v => Equal v | Delete v => Insert v | Insert v => Delete v end.
Definition swap_builder (b : HunkBuilder) : HunkBuilder :=
  MkBuilder (b_new_start b) (b_old_start b) (b_new_lines b) (b_old_lines b).

Lemma olds_swap cs : olds (swap_change <$> cs) = news cs.
Proof. unfold olds, news. induction cs as [|[v|v|v] cs IH]; cbn in *; congruence. Qed.
Lemma news_swap cs : news (swap_change <$> cs) = olds cs.
Proof. unfold olds, news. induction cs as [|[v|v|v] cs IH]; cbn in *; congruence. Qed.

Lemma builders_swap cs : ∀ ol nl cur,
  builders nl ol (swap_builder <$> cur) (swap_change <$> cs) = swap_builder <$> builders ol nl cur cs.
Proof.
  induction cs as [|[v|v|v] cs IH]; intros ol nl cur; cbn [builders fmap list_fmap swap_change].
  - by destruct cur.
  - rewrite fmap_app. f_equal; [by destruct cur|]. apply (IH _ _ None).
  - rewrite <-IH. cbn. f_equal. by destruct cur.
  - rewrite <-IH. cbn. f_equal. by destruct cur.
Qed.

Lemma mixed_swap sel cs : ∀ ol nl cur,
  mixed (λ b, negb (sel (swap_builder b))) nl ol (swap_builder <$> cur) (swap_change <$> cs) = mixed sel ol nl cur cs.
Proof.
  assert (Hk : ∀ b, keep_or_take (λ b, negb (sel (swap_builder b))) (swap_builder b) = keep_or_take sel b).
  { intros [s1 s2 l1 l2]. unfold keep_or_take, swap_builder. cbn. by destruct (sel _). }
  induction cs as [|[v|v|v] cs IH]; intros ol nl cur; cbn [mixed fmap list_fmap swap_change].
  - destruct cur; cbn; [apply Hk|done].
  - f_equal; [destruct cur; cbn; [apply Hk|done]|]. f_equal. apply (IH _ _ None).
  - rewrite <-IH. cbn. f_equal. by destruct cur.
  - rewrite <-IH. cbn. f_equal. by destruct cur.
Qed.

Lemma reject_selected sel cs :
  foldr reject_list (news cs) (filter (λ b, sel b = false) (builders 1 1 None cs)) = mixed sel 1 1 None cs.
Proof.
  pose proof (accept_selected (λ b, negb (sel (swap_builder b))) (swap_change <$> cs) [] 1 1 None eq_refl) as Ha.
  cbn in Ha. rewrite olds_swap, (builders_swap _ _ _ None), (mixed_swap sel _ _ _ None) in Ha. rewrite <-Ha.
  generalize (builders 1 1 None cs) as bs. clear. induction bs as [|[s1 s2 l1 l2] bs IH]; [done|].
  rewrite fmap_cons, !filter_cons. unfold swap_builder at 3. cbn. destruct (sel _) eqn:E; cbn; rewrite ?E; cbn.
  - rewrite !decide_False by done. apply IH.
  - rewrite !decide_True by done. cbn. by rewrite IH.
Qed.

End LinePatches.

(** * Where the hunks are *)

Module Export HunkPlaces.

Definition changed (c : Change) : Prop := match c with Equal _ => False | _ => True end.

(** [b] is a maximal changed run of the diff, with the line numbers it has in the
    two texts. *)
Definition is_run (cs : list Change) (b : HunkBuilder) : Prop :=
  ∃ c1 run c3, cs = c1 ++ run ++ c3 ∧ run ≠ [] ∧ Forall changed run ∧
    (c1 = [] ∨ ∃ c v, c1 = c ++ [Equal v]) ∧ (c3 = [] ∨ ∃ v c, c3 = Equal v :: c) ∧
    b = MkBuilder (S (length (olds c1))) (S (length (news c1))) (olds run) (news run).

Lemma olds_app cs cs' : olds (cs ++ cs') = olds cs ++ olds cs'.
Proof. unfold olds. apply omap_app. Qed.
Lemma news_app cs cs' : news (cs ++ cs') = news cs ++ news cs'.
Proof. unfold news. apply omap_app. Qed.

Lemma builders_are_runs cs : ∀ c0 run cur,
  (c0 = [] ∨ ∃ c v, c0 = c ++ [Equal v]) → Forall changed run →
  (match cur with
   | None => run = []
   | Some b => run ≠ [] ∧ b = MkBuilder (S (length (olds c0))) (S (length (news c0))) (olds run) (news run)
   end) →
  Forall (is_run (c0 ++ run ++ cs)) (builders (S (length (olds (c0 ++ run)))) (S (length (news (c0 ++ run)))) cur cs).
Proof.
  assert (Hstep : ∀ c c0 run cur, changed c →
    (match cur with
     | None => run = []
     | Some b => run ≠ [] ∧ b = MkBuilder (S (length (olds c0))) (S (length (news c0))) (olds run) (news run)
     end) →
    default (HunkBuilder_new (S (length (olds (c0 ++ run)))) (S (length (news (c0 ++ run))))) cur =
    MkBuilder (S (length (olds c0))) (S (length (news c0))) (olds run) (news run)).
  { intros c c0 run [b|] _ Hcur; [by destruct Hcur as [_ ->]|]. subst run. by rewrite app_nil_r. }
  induction cs as [|c cs IH]; intros c0 run cur Hc0 Hrun Hcur.
  { destruct cur as [b|]; [|constructor]. destruct Hcur as [Hne ->]. repeat constructor.
    exists c0, run, []. split_and!; auto. }
  destruct c as [v|v|v]; cbn [builders].
  - apply Forall_app_2.
    { destruct cur as [b|]; [|constructor]. destruct Hcur as [Hne ->]. repeat constructor.
      exists c0, run, (Equal v :: cs). split_and!; eauto. }
    specialize (IH ((c0 ++ run) ++ [Equal v]) [] None).
    rewrite app_nil_r, <-!app_assoc, (app_assoc c0 run), (olds_app (c0 ++ run)), (news_app (c0 ++ run)) in IH.
    rewrite !length_app in IH. cbn in IH. rewrite !Nat.add_1_r in IH.
    apply IH; [right; eauto|constructor|done].
  - specialize (IH c0 (run ++ [Delete v]) (Some (MkBuilder (S (length (olds c0))) (S (length (news c0))) (olds run ++ [v]) (news run)))).
    rewrite !olds_app, !news_app in IH. cbn in IH.
    rewrite !app_nil_r, !length_app, <-!app_assoc in IH. cbn in IH.
    rewrite ?Nat.add_1_r, ?Nat.add_succ_r in IH.
    rewrite (Hstep (Delete v) c0 run cur I Hcur), olds_app, news_app, !length_app.
    apply IH; [done|by apply Forall_app; repeat constructor|]. split; [by destruct run|done].
  - specialize (IH c0 (run ++ [Insert v]) (Some (MkBuilder (S (length (olds c0))) (S (length (news c0))) (olds run) (news run ++ [v])))).
    rewrite !olds_app, !news_app in IH. cbn in IH.
    rewrite !app_nil_r, !length_app, <-!app_assoc in IH. cbn in IH.
    rewrite ?Nat.add_1_r, ?Nat.add_succ_r in IH.
    rewrite (Hstep (Insert v) c0 run cur I Hcur), olds_app, news_app, !length_app.
    apply IH; [done|by apply Forall_app; repeat constructor|]. split; [by destruct run|done].
Qed.

(** In order, with at least one common line between two of them. *)
Definition before (a b : HunkBuilder) : Prop :=
  b_old_start a + length (b_old_lines a) < b_old_start b ∧ b_new_start a + length (b_new_lines a) < b_new_start b.

Lemma builders_ordered cs : ∀ ol nl cur,
  (match cur with
   | None => True
   | Some b => ol = b_old_start b + length (b_old_lines b) ∧ nl = b_new_start b + length (b_new_lines b)
   end) →
  StronglySorted before (builders ol nl cur cs) ∧
  Forall (λ b, default ol (b_old_start <$> cur) ≤ b_old_start b ∧ default nl (b_new_start <$> cur) ≤ b_new_start b)
    (builders ol nl cur cs).
Proof.
  induction cs as [|[v|v|v] cs IH]; intros ol nl cur Hcur; cbn [builders].
  - destruct cur; cbn; split; repeat constructor.
  - destruct (IH (S ol) (S nl) None I) as [Hs Hf]. cbn in Hf. destruct cur as [b|]; cbn.
    + destruct Hcur as [-> ->]. split; constructor; [done| |done|];
        (eapply Forall_impl; [exact Hf|]); unfold before; cbn; intros x [??]; lia.
    + split; [done|]. eapply Forall_impl; [exact Hf|]. cbn. intros x [??]. lia.
  - destruct (IH (S ol) nl (Some (add_old_line v (default (HunkBuilder_new ol nl) cur)))) as [Hs Hf].
    { destruct cur; cbn; rewrite ?length_app; cbn; lia. }
    split; [done|]. eapply Forall_impl; [exact Hf|]. by destruct cur.
  - destruct (IH ol (S nl) (Some (add_new_line v (default (HunkBuilder_new ol nl) cur)))) as [Hs Hf].
    { destruct cur; cbn; rewrite ?length_app; cbn; lia. }
    split; [done|]. eapply Forall_impl; [exact Hf|]. by destruct cur.
Qed.

End HunkPlaces.

(** * Texts of plain lines *)

Module Export PlainTexts.

Definition CR : ascii := byte 13.

(** A line end after every line and no carriage return. *)
Definition plain_text (s : string) : bool :=
  negb (contains_byte CR s) && (is_empty s || ends_with newline s).
Definition plain_line (l : string) : Prop := contains_byte LF l = false ∧ contains_byte CR l = false.
Definition unlines (ls : list string) : string := concat_str ((λ l, l +:+ newline) <$> ls).

Lemma unlines_app l l' : unlines (l ++ l') = unlines l +:+ unlines l'.
Proof. unfold unlines. by rewrite fmap_app, concat_str_app. Qed.
Lemma unlines_cons l ls : unlines (l :: ls) = l +:+ String LF (unlines ls).
Proof. unfold unlines. rewrite fmap_cons. change (concat_str (?x :: ?l)) with (x +:+ concat_str l). by rewrite <-app_assoc_str. Qed.

Lemma split_on_unlines ls : Forall plain_line ls → split_on LF (unlines ls) = ls ++ [""].
Proof.
  induction 1 as [|l ls [Hl _] _ IH]; [done|]. rewrite unlines_cons, split_on_sep by done. by rewrite IH.
Qed.

Lemma strip_suffix_None p s : strip_suffix p s = None ↔ ∀ t, s ≠ t +:+ p.
Proof.
  split; [intros E t ->|intros Hn].
  - assert (strip_suffix p (t +:+ p) = Some t) by by apply strip_suffix_Some. congruence.
  - destruct (strip_suffix p s) as [t|] eqn:E; [|done]. apply strip_suffix_Some in E. by destruct (Hn t).
Qed.

Lemma strip_cr_plain l : contains_byte CR l = false → strip_cr l = l.
Proof.
  intros Hl. unfold strip_cr. destruct (strip_suffix carriage_return l) as [t|] eqn:E; [|done].
  apply strip_suffix_Some in E. rewrite E, contains_byte_app in Hl. apply orb_false_iff in Hl as [_ Hc]. done.
Qed.

Lemma lines_unlines ls : Forall plain_line ls → lines (unlines ls) = ls.
Proof.
  intros Hls. unfold lines. change (byte 10) with LF. rewrite split_on_unlines, reverse_snoc by done. cbn.
  rewrite app_nil_r, reverse_involutive. induction Hls as [|l ls [_ Hl] _ IH]; cbn; [done|].
  by rewrite strip_cr_plain, IH.
Qed.

Lemma join_unlines ls : ls ≠ [] → join newline ls +:+ newline = unlines ls.
Proof.
  induction ls as [|l ls IH]; [done|]. intros _. destruct (decide (ls = [])) as [->|Hne]; [by rewrite unlines_cons|].
  rewrite join_cons, unlines_cons by done. by rewrite <-IH, <-!app_assoc_str.
Qed.

Lemma join_eq_nil ls : join newline ls = "" ↔ ls = [] ∨ ls = [""].
Proof.
  split; [|by intros [->| ->]]. destruct ls as [|l ls]; [by left|]. intros E. right.
  destruct (decide (ls = [])) as [->|Hne]; [by cbn in E; subst l|].
  rewrite join_cons in E by done. apply app_str_eq_nil in E as [_ E]. done.
Qed.

Lemma contains_byte_concat c ls : contains_byte c (concat_str ls) = false ↔ Forall (λ l, contains_byte c l = false) ls.
Proof.
  induction ls as [|l ls IH]; [done|]. change (concat_str (l :: ls)) with (l +:+ concat_str ls).
  by rewrite contains_byte_app, orb_false_iff, Forall_cons, IH.
Qed.

Lemma plain_text_lines s : plain_text s = true → unlines (lines s) = s ∧ Forall plain_line (lines s).
Proof.
  unfold plain_text. rewrite andb_true_iff, negb_true_iff, orb_true_iff. intros [Hcr Hend].
  assert (∃ ls, s = unlines ls ∧ Forall (λ l, contains_byte LF l = false) ls) as (ls & -> & Hls).
  { destruct Hend as [He|He]; [by exists []; destruct s|].
    unfold ends_with in He. apply bool_decide_eq_true in He as [t Ht]. apply strip_suffix_Some in Ht.
    exists (split_on LF t). split; [|apply split_on_pieces]. rewrite <-join_unlines by apply split_on_ne.
    unfold newline. change (byte 10) with LF. by rewrite join_split_on. }
  assert (Hp : Forall plain_line ls).
  { unfold unlines in Hcr. rewrite contains_byte_concat, Forall_fmap in Hcr. rewrite Forall_forall in *.
    intros l Hl. split; [by apply Hls|]. specialize (Hcr l Hl). cbn in Hcr.
    rewrite contains_byte_app in Hcr. by apply orb_false_iff in Hcr as [? _]. }
  by rewrite lines_unlines.
Qed.

Lemma unlines_plain ls : Forall plain_line ls → plain_text (unlines ls) = true.
Proof.
  intros Hls. unfold plain_text. apply andb_true_iff. split.
  - apply negb_true_iff, contains_byte_concat, Forall_fmap. eapply Forall_impl; [exact Hls|].
    intros l [_ Hl]. cbv [compose]. rewrite contains_byte_app, Hl. done.
  - destruct (decide (ls = [])) as [->|Hne]; [done|]. apply orb_true_iff. right.
    unfold ends_with. apply bool_decide_eq_true. exists (join newline ls). apply strip_suffix_Some.
    by rewrite join_unlines.
Qed.

Lemma split_inclusive_line l s : contains_byte LF l = false →
  split_inclusive LF (l +:+ String LF s) = (l +:+ newline) :: split_inclusive LF s.
Proof.
  induction l as [|a l IH]; intros Hl; [done|]. rewrite contains_byte_cons in Hl. apply orb_false_iff in Hl as [Ha Hl].
  rewrite !app_cons_str. cbn [split_inclusive]. rewrite Ha, IH by done. done.
Qed.

Lemma split_inclusive_unlines ls : Forall plain_line ls →
  split_inclusive LF (unlines ls) = (λ l, l +:+ newline) <$> ls.
Proof.
  induction 1 as [|l ls [Hl _] _ IH]; [done|]. rewrite unlines_cons, split_inclusive_line by done. by rewrite IH.
Qed.

(** [patch_lines] is the patch on the lines, unless it starts from no line or leaves
    nothing but one blank line. *)
Lemma patch_lines_unlines ls s c ins :
  Forall plain_line ls → Forall plain_line ins → ls ≠ [] → patch_list ls s c ins ≠ [""] →
  patch_lines (unlines ls) s c (unlines ins) = unlines (patch_list ls s c ins).
Proof.
  intros Hls Hins Hne Hblank. unfold patch_lines. rewrite !lines_unlines by done.
  assert (Hi : (if is_empty (unlines ins) then [] else ins) = ins).
  { destruct ins as [|i ins]; [done|]. rewrite unlines_cons. by destruct i. }
  rewrite Hi.
  assert (Hr : take ((s - 1) `min` length ls) ls ++ ins ++ drop ((s - 1 + c) `min` length ls) ls = patch_list ls s c ins).
  { unfold patch_list. f_equal; [|f_equal].
    - destruct (decide (s - 1 ≤ length ls)); [by rewrite Nat.min_l|].
      rewrite Nat.min_r, !take_ge by lia. done.
    - destruct (decide (s - 1 + c ≤ length ls)); [by rewrite Nat.min_l|].
      rewrite Nat.min_r, !drop_ge by lia. done. }
  rewrite Hr.
  assert (Hend : ends_with newline (unlines ls) = true).
  { unfold ends_with. apply bool_decide_eq_true. exists (join newline ls). by rewrite strip_suffix_Some, join_unlines. }
  rewrite Hend. cbn [andb]. clear Hi. destruct (is_empty (join _ _)) eqn:E; cbn.
  - assert (E' : join newline (patch_list ls s c ins) = "") by (revert E; by destruct (join newline (patch_list ls s c ins))).
    apply join_eq_nil in E' as [E'|E']; [|done]. by rewrite E'.
  - rewrite join_unlines; [done|]. intros E'. by rewrite E' in E.
Qed.

End PlainTexts.

(** * Hunks of a diff *)

Module Export HunkBatches.

(** What a hunk says about the texts, without its identifier and attribution. *)
Definition shape (h : Hunk) : HunkLineInfo * option string * string := (line_info h, old_text h, new_text h).
Definition b_shape (b : HunkBuilder) : HunkLineInfo * option string * string := shape (build 0%N "" External b).

Lemma shape_build i p s b : shape (build i p s b) = b_shape b.
Proof. done. Qed.

#[export] Instance HunkBuilder_eq_dec : EqDecision HunkBuilder.
Proof. solve_decision. Defined.

Lemma sort_by_reverse {A} (key : A → nat) l : StronglySorted (λ x y, key x < key y) l →
  sort_by (λ x y, bool_decide (key y ≤ key x)) l = reverse l.
Proof.
  induction 1 as [|x l _ IH Hx]; [done|].
  change (sort_by ?le (x :: l)) with (insert_by le x (sort_by le l)). rewrite IH, reverse_cons.
  assert (Hr : Forall (λ y, key x < key y) (reverse l)) by by apply Forall_reverse.
  revert Hr. generalize (reverse l). clear. intros l. induction 1 as [|y l Hy _ IH]; [done|]. cbn.
  rewrite bool_decide_eq_false_2 by lia. by rewrite IH.
Qed.

(** Pieces of text that each are a plain line with its end. *)
Definition full_tokens (toks : list string) : Prop := ∃ ls, toks = (λ l, l +:+ newline) <$> ls ∧ Forall plain_line ls.

Lemma full_tokens_app t t' : full_tokens (t ++ t') ↔ full_tokens t ∧ full_tokens t'.
Proof.
  split.
  - intros (ls & E & Hls). symmetry in E. apply fmap_app_inv in E as (l1 & l2 & -> & -> & ->).
    apply Forall_app in Hls as [??]. split; eexists; eauto.
  - intros [(l1 & -> & ?) (l2 & -> & ?)]. exists (l1 ++ l2). rewrite fmap_app, Forall_app. done.
Qed.

Lemma full_tokens_patch toks s c ins : full_tokens toks → full_tokens ins → full_tokens (patch_list toks s c ins).
Proof.
  intros (ls & -> & Hls) (js & -> & Hjs). rewrite patch_list_fmap. eexists. split; [done|].
  unfold patch_list. rewrite !Forall_app. split_and!; [by apply Forall_take|done|by apply Forall_drop].
Qed.

(** One patch of the text is the patch of its pieces. *)
Lemma patch_tokens toks s c ins : full_tokens toks → full_tokens ins → toks ≠ [] → patch_list toks s c ins ≠ [newline] →
  patch_lines (concat_str toks) s c (concat_str ins) = concat_str (patch_list toks s c ins).
Proof.
  intros (ls & -> & Hls) (js & -> & Hjs) Hne Hb. rewrite patch_list_fmap in *.
  change (concat_str (_ <$> ?l)) with (unlines l). apply patch_lines_unlines; [done|done|by intros ->|].
  intros E. rewrite E in Hb. done.
Qed.

Lemma mixed_common sel v cs : ∀ ol nl cur, Equal v ∈ cs → v ∈ mixed sel ol nl cur cs.
Proof.
  induction cs as [|c cs IH]; intros ol nl cur; [by intros ?%not_elem_of_nil|].
  rewrite elem_of_cons. intros [<-|Hin]; [cbn; rewrite elem_of_app, elem_of_cons; auto|].
  destruct c as [w|w|w]; cbn [mixed]; [|by apply IH|by apply IH].
  rewrite elem_of_app, elem_of_cons. right. right. by apply IH.
Qed.

Lemma StronglySorted_filter {A : Type} (R : A → A → Prop) (P : A → Prop) `{!∀ x, Decision (P x)} (l : list A) :
  StronglySorted R l → StronglySorted R (filter P l).
Proof.
  induction 1 as [|b bs _ IH Hb]; [constructor|]. rewrite filter_cons. destruct (decide _); [|done].
  constructor; [done|]. apply Forall_forall. intros x Hx. apply list_elem_of_filter in Hx as [_ Hx].
  by eapply Forall_forall in Hb.
Qed.

Lemma filter_ext_in {A : Type} (P Q : A → Prop) `{!∀ x, Decision (P x), !∀ x, Decision (Q x)} (l : list A) :
  (∀ x, x ∈ l → P x ↔ Q x) → filter P l = filter Q l.
Proof.
  induction l as [|x l IH]; intros HP; [done|]. rewrite !filter_cons, IH by (intros y Hy; apply HP; by right).
  apply decide_ext. apply HP. by left.
Qed.

(** Of builders in order, those behind a point of the list are a selection. *)
Lemma select_behind (sel : HunkBuilder → bool) bs l1 l2 :
  StronglySorted before bs → filter (λ b, sel b = true) bs = l1 ++ l2 →
  filter (λ b, sel b && bool_decide (b ∉ l1) = true) bs = l2.
Proof.
  intros Hs Hf.
  assert (Hl : filter (λ b, sel b && bool_decide (b ∉ l1) = true) bs =
               filter (λ b, bool_decide (b ∉ l1) = true) (filter (λ b, sel b = true) bs)).
  { rewrite list_filter_filter. apply list_filter_iff. intros b. rewrite andb_true_iff. tauto. }
  rewrite Hl, Hf, filter_app.
  assert (Hs' : StronglySorted before (l1 ++ l2)).
  { rewrite <-Hf. by apply StronglySorted_filter. }
  assert (Hno : ∀ x, x ∈ l2 → x ∉ l1).
  { intros x H2 H1. destruct (StronglySorted_app_1_elem_of _ l1 l2 x x Hs' H1 H2). lia. }
  rewrite filter_no, filter_true; [done|..]; intros x Hx; rewrite bool_decide_eq_true; auto.
Qed.

Lemma before_NoDup bs : StronglySorted before bs → NoDup bs.
Proof.
  induction 1 as [|b bs _ IH Hb]; [constructor|]. constructor; [|done]. intros Hin.
  eapply Forall_forall in Hb; [|exact Hin]. destruct Hb. lia.
Qed.

(** Folding the text patches is folding the patches of the pieces. *)
Lemma fold_tokens (st cnt : HunkBuilder → nat) (ins : HunkBuilder → list string) toks l :
  full_tokens toks → Forall (λ b, full_tokens (ins b)) l →
  (∀ l1 l2, l = l1 ++ l2 →
     ∃ v, v ≠ newline ∧ v ∈ foldr (λ b t, patch_list t (st b) (cnt b) (ins b)) toks l2) →
  foldr (λ b t, patch_lines t (st b) (cnt b) (concat_str (ins b))) (concat_str toks) l =
    concat_str (foldr (λ b t, patch_list t (st b) (cnt b) (ins b)) toks l) ∧
  full_tokens (foldr (λ b t, patch_list t (st b) (cnt b) (ins b)) toks l).
Proof.
  intros Htoks. induction l as [|b l IH]; intros Hins Hv; [done|]. apply Forall_cons in Hins as [Hb Hins].
  destruct IH as [IH1 IH2]; [done|intros l1 l2 ->; by apply (Hv (b :: l1))|]. cbn. rewrite IH1.
  destruct (Hv [b] l eq_refl) as (v & Hne & Hin). destruct (Hv [] (b :: l) eq_refl) as (w & Hne' & Hin'). cbn in Hin'.
  split; [|by apply full_tokens_patch]. apply patch_tokens; [done|done|..].
  - intros E. rewrite E in Hin. by apply not_elem_of_nil in Hin.
  - intros E. rewrite E in Hin'. by apply list_elem_of_singleton in Hin' as ->.
Qed.

End HunkBatches.

(** * Accepting and rejecting any of the hunks *)

Module Export BatchTheorems.

Lemma builders_full cs : full_tokens (olds cs) → full_tokens (news cs) →
  Forall (λ b, full_tokens (b_old_lines b) ∧ full_tokens (b_new_lines b)) (builders 1 1 None cs).
Proof.
  intros Ho Hn. eapply Forall_impl; [apply (builders_are_runs cs [] [] None); [by left|constructor|done]|].
  intros b (c1 & run & c3 & E & _ & _ & _ & _ & ->). cbn in *. subst cs.
  rewrite !olds_app, !full_tokens_app in Ho. rewrite !news_app, !full_tokens_app in Hn. tauto.
Qed.

Section Tokens.
Context (cs : list Change) (v : string).
Context (Ho : full_tokens (olds cs)) (Hn : full_tokens (news cs)).
Context (Hv : Equal v ∈ cs) (Hblank : v ≠ newline).
Let bs := builders 1 1 None cs.

Lemma bs_sorted : StronglySorted before bs.
Proof. apply (builders_ordered cs 1 1 None I). Qed.

Lemma accept_tokens sel :
  foldr (λ b t, patch_lines t (b_old_start b) (length (b_old_lines b)) (concat_str (b_new_lines b))) (concat_str (olds cs))
    (filter (λ b, sel b = true) bs) = concat_str (mixed sel 1 1 None cs).
Proof.
  destruct (fold_tokens b_old_start (λ b, length (b_old_lines b)) b_new_lines (olds cs) (filter (λ b, sel b = true) bs))
    as [-> _]; [done|..].
  - apply Forall_forall. intros b [_ Hb]%list_elem_of_filter.
    pose proof (builders_full cs Ho Hn) as Hall. rewrite Forall_forall in Hall. by apply Hall.
  - intros l1 l2 E. exists v. split; [done|]. rewrite <-(select_behind _ bs l1 l2 bs_sorted E).
    rewrite (accept_selected _ cs [] 1 1 None eq_refl : foldr _ (olds cs) _ = _). by apply mixed_common.
  - f_equal. apply (accept_selected _ cs [] 1 1 None eq_refl).
Qed.

Lemma reject_tokens sel :
  foldr (λ b t, patch_lines t (b_new_start b) (length (b_new_lines b)) (concat_str (b_old_lines b))) (concat_str (news cs))
    (filter (λ b, sel b = false) bs) = concat_str (mixed sel 1 1 None cs).
Proof.
  destruct (fold_tokens b_new_start (λ b, length (b_new_lines b)) b_old_lines (news cs) (filter (λ b, sel b = false) bs))
    as [-> _]; [done|..].
  - apply Forall_forall. intros b [_ Hb]%list_elem_of_filter.
    pose proof (builders_full cs Ho Hn) as Hall. rewrite Forall_forall in Hall. by apply Hall.
  - intros l1 l2 E. exists v. split; [done|].
    rewrite (list_filter_iff _ (λ b, negb (sel b) = true)) in E by (intros b; by rewrite negb_true_iff).
    rewrite <-(select_behind _ bs l1 l2 bs_sorted E).
    rewrite (list_filter_iff _ (λ b, negb (negb (sel b) && bool_decide (b ∉ l1)) = false))
      by (intros b; by rewrite negb_false_iff).
    change (foldr _ ?t ?l) with (foldr reject_list t l). rewrite reject_selected. by apply mixed_common.
  - f_equal. apply reject_selected.
Qed.

End Tokens.

(** Hunks and builders with the same shapes. *)

Lemma shapes_selected (P : Hunk → bool) hs : ∀ bs, NoDup bs → shape <$> hs = b_shape <$> bs →
  ∃ sel : HunkBuilder → bool,
    shape <$> filter (λ h, P h = true) hs = b_shape <$> filter (λ b, sel b = true) bs ∧
    shape <$> filter (λ h, P h = false) hs = b_shape <$> filter (λ b, sel b = false) bs.
Proof.
  induction hs as [|h hs IH]; intros [|b bs] Hnd E; try done; [by exists (λ _, true)|].
  rewrite !fmap_cons in E. apply (inj2 cons) in E as [Eh Ehs]. apply NoDup_cons in Hnd as [Hb Hnd].
  destruct (IH bs Hnd Ehs) as (sel & E1 & E2).
  exists (λ x, if bool_decide (x = b) then P h else sel x).
  assert (Hout : ∀ r, filter (λ x, (if bool_decide (x = b) then P h else sel x) = r) bs = filter (λ x, sel x = r) bs).
  { intros r. apply filter_ext_in. intros x Hx. rewrite bool_decide_eq_false_2; [done|]. by intros ->. }
  rewrite !filter_cons, !Hout, (bool_decide_eq_true_2 (b = b)) by done.
  destruct (P h); [rewrite !(decide_True (P := true = true)), !(decide_False (P := true = false)) by done|
                   rewrite !(decide_True (P := false = false)), !(decide_False (P := false = true)) by done];
    rewrite ?fmap_cons, ?Eh, E1, E2; done.
Qed.

Lemma shapes_sorted hs bs : shape <$> hs = b_shape <$> bs → StronglySorted before bs →
  StronglySorted (λ x y, old_start (line_info x) < old_start (line_info y)) hs ∧
  StronglySorted (λ x y, new_start (line_info x) < new_start (line_info y)) hs.
Proof.
  intros E Hs. revert hs E. induction Hs as [|b bs _ IH Hb]; intros [|h hs] E; try done; [split; constructor|].
  rewrite !fmap_cons in E. apply (inj2 cons) in E as [Eh Ehs]. destruct (IH hs Ehs) as [H1 H2].
  assert (Hall : Forall (λ y, old_start (line_info h) < old_start (line_info y) ∧ new_start (line_info h) < new_start (line_info y)) hs).
  { apply Forall_forall. intros y Hy. apply (list_elem_of_fmap_2 shape) in Hy. rewrite Ehs in Hy.
    apply list_elem_of_fmap in Hy as (b' & E' & Hb'). eapply Forall_forall in Hb; [|exact Hb'].
    destruct Hb as [??]. apply (f_equal (λ s, s.1.1)) in Eh, E'. cbn in Eh, E'. rewrite Eh, E'. cbn. lia. }
  apply Forall_and in Hall as [??]. by split; constructor.
Qed.

Lemma shape_texts h b t : shape h = b_shape b →
  accept_text h t = patch_lines t (b_old_start b) (length (b_old_lines b)) (concat_str (b_new_lines b)) ∧
  reject_text h t = patch_lines t (b_new_start b) (length (b_new_lines b)) (concat_str (b_old_lines b)).
Proof.
  unfold shape, b_shape, build, accept_text, reject_text. cbn. intros [= -> -> ->]. cbn. split; [done|].
  by destruct (b_old_lines b).
Qed.

Lemma fold_left_reverse {A B} (f : A → B → A) l a : fold_left f (reverse l) a = foldr (λ b t, f t b) a l.
Proof. induction l as [|b l IH]; [done|]. by rewrite reverse_cons, fold_left_app, IH. Qed.

Lemma batch_texts hs bs t : shape <$> hs = b_shape <$> bs → StronglySorted before bs →
  accept_all_text hs t =
    foldr (λ b t, patch_lines t (b_old_start b) (length (b_old_lines b)) (concat_str (b_new_lines b))) t bs ∧
  reject_all_text hs t =
    foldr (λ b t, patch_lines t (b_new_start b) (length (b_new_lines b)) (concat_str (b_old_lines b))) t bs.
Proof.
  intros E Hs. destruct (shapes_sorted _ _ E Hs) as [Ho Hn]. unfold accept_all_text, reject_all_text.
  unfold by_old_start_rev, by_new_start_rev.
  rewrite (sort_by_reverse (λ h, old_start (line_info h)) hs Ho), (sort_by_reverse (λ h, new_start (line_info h)) hs Hn).
  rewrite !fold_left_reverse.
  clear Hs Ho Hn. revert bs E. induction hs as [|h hs IH]; intros [|b bs] E; try done.
  rewrite !fmap_cons in E. apply (inj2 cons) in E as [Eh Ehs]. destruct (IH bs Ehs) as [IH1 IH2]. cbn.
  rewrite IH1, IH2. split; by apply shape_texts.
Qed.

End BatchTheorems.

(** * A line diff that keeps the contract *)

Module Export ReferenceDiff.

(** Lines with their ends: a line feed, a carriage return, or both. *)
Fixpoint line_pieces (s : string) : list string :=
  match s with
  | "" => []
  | String a s' =>
      let ends := bool_decide (a = LF) ||
        bool_decide (a = CR) && match s' with String b _ => negb (bool_decide (b = LF)) | "" => true end in
      if ends then String a "" :: line_pieces s'
      else match line_pieces s' with [] => [String a ""] | p :: ps => String a p :: ps end
  end.

Definition cost (cs : list Change) : nat :=
  length (filter (λ c, match c with Equal _ => false | _ => true end = true) cs).
Fixpoint shortest_diff (a b : list string) : list Change :=
  match a with
  | [] => Insert <$> b
  | x :: a' =>
      (fix go (b : list string) : list Change :=
         match b with
         | [] => Delete <$> (x :: a')
         | y :: b' =>
             if bool_decide (x = y) then Equal x :: shortest_diff a' b'
             else
               let d := Delete x :: shortest_diff a' (y :: b') in
               let i := Insert y :: go b' in
               if bool_decide (cost d ≤ cost i) then d else i
         end) b
  end.

Definition reference_diff : LineDiff := {|
  tokenize := line_pieces;
  diff_lines a b := shortest_diff (line_pieces a) (line_pieces b);
  timed_out _ _ := false;
  unified_diff _ _ _ _ _ := "";
|}.

Lemma concat_line_pieces s : concat_str (line_pieces s) = s.
Proof.
  induction s as [|a s IH]; [done|]. cbn [line_pieces]. destruct (_ || _).
  - change (concat_str (?x :: ?l)) with (x +:+ concat_str l). by rewrite IH.
  - destruct (line_pieces s) as [|p ps]; cbn in *; by rewrite <-IH.
Qed.

Lemma line_pieces_plain s : contains_byte CR s = false → line_pieces s = split_inclusive LF s.
Proof.
  induction s as [|a s IH]; [done|]. rewrite contains_byte_cons. intros [Ha Hs]%orb_false_iff.
  cbn [line_pieces split_inclusive]. rewrite Ha, (IH Hs), orb_false_r. done.
Qed.

Lemma shortest_diff_sides a : ∀ b, olds (shortest_diff a b) = a ∧ news (shortest_diff a b) = b.
Proof.
  assert (Hins : ∀ l, olds (Insert <$> l) = [] ∧ news (Insert <$> l) = l).
  { unfold olds, news. induction l as [|x l [IH1 IH2]]; cbn in *; [done|]. by rewrite IH1, IH2. }
  assert (Hdel : ∀ l, olds (Delete <$> l) = l ∧ news (Delete <$> l) = []).
  { unfold olds, news. induction l as [|x l [IH1 IH2]]; cbn in *; [done|]. by rewrite IH1, IH2. }
  induction a as [|x a IH]; [exact Hins|]. induction b as [|y b [IHb1 IHb2]]; [apply Hdel|].
  cbn [shortest_diff]. destruct (bool_decide_reflect (x = y)) as [->|_].
  - destruct (IH b) as [H1 H2]. unfold olds, news in *. cbn. by rewrite H1, H2.
  - destruct (IH (y :: b)) as [H1 H2]. destruct (bool_decide _).
    + unfold olds, news in *. cbn. by rewrite H1, H2.
    + split; [exact IHb1|exact (f_equal (cons y) IHb2)].
Qed.

#[export] Instance reference_lawful : @LawfulDiff reference_diff.
Proof.
  split; intros *; cbn; [apply concat_line_pieces|apply line_pieces_plain|apply shortest_diff_sides|apply shortest_diff_sides].
Qed.

End ReferenceDiff.

(** * The theorems *)

Module HunkTheorems.

Definition shared_line (cs : list Change) : bool :=
  existsb (λ c, match c with Equal v => negb (bool_decide (v = newline)) | _ => false end) cs.

(** [count] pieces of a text from a one-based line. *)
Definition lines_at (ps : list string) (start count : nat) : string :=
  concat_str (take count (drop (start - 1) ps)).

Section Laws.
Context `{LawfulDiff}.

(** Where the hunks of [compute_hunks] come from. *)
Lemma compute_hunks_cases next p a b src :
  compute_hunks next p a b src = [] ∨
  compute_hunks next p a b src =
    imap (λ i bd, build (next + N.of_nat i)%N p src bd) (builders 1 1 None (diff_lines a b)).
Proof.
  unfold compute_hunks. case_bool_decide; [by left|]. destruct (_ || _); [by left|].
  destruct (timed_out a b); [by left|by right].
Qed.

Lemma compute_hunks_shapes next p a b src : compute_hunks next p a b src ≠ [] →
  shape <$> compute_hunks next p a b src = b_shape <$> builders 1 1 None (diff_lines a b).
Proof.
  destruct (compute_hunks_cases next p a b src) as [->| ->]; [done|]. intros _.
  generalize (builders 1 1 None (diff_lines a b)). clear. intros bs. revert next.
  induction bs as [|bd bs IH]; intros next; [done|]. rewrite imap_cons, !fmap_cons. f_equal.
  rewrite <-(IH (next + 1)%N). f_equal. apply imap_ext. intros i x _. cbn. f_equal. lia.
Qed.

(** A hunk computed from a diff, with its builder. *)
Lemma compute_hunks_elem next p a b src h : h ∈ compute_hunks next p a b src →
  ∃ i bd, h = build (next + N.of_nat i)%N p src bd ∧ is_run (diff_lines a b) bd.
Proof.
  intros Hin. destruct (compute_hunks_cases next p a b src) as [E|E]; rewrite E in Hin; [by apply not_elem_of_nil in Hin|].
  apply elem_of_lookup_imap in Hin as (i & bd & -> & Hbd). exists i, bd. split; [done|].
  apply list_elem_of_lookup_2 in Hbd.
  refine (proj1 (Forall_forall _ _) (builders_are_runs (diff_lines a b) [] [] None _ _ _) _ Hbd);
    [by left|constructor|done].
Qed.

Lemma plain_tokens s : plain_text s = true → full_tokens (tokenize s).
Proof.
  intros Hs. pose proof (plain_text_lines _ Hs) as [E Hl]. rewrite tokenize_plain.
  - rewrite <-E. exists (lines s). split; [by apply split_inclusive_unlines|done].
  - unfold plain_text in Hs. apply andb_true_iff in Hs as [Hs _]. by apply negb_true_iff.
Qed.

(** The two texts agree in every line outside the runs, so a run cut out of either
    leaves what the other has there. *)
Lemma run_lines cs bd : is_run cs bd →
  lines_at (olds cs) (b_old_start bd) (length (b_old_lines bd)) = concat_str (b_old_lines bd) ∧
  lines_at (news cs) (b_new_start bd) (length (b_new_lines bd)) = concat_str (b_new_lines bd) ∧
  1 ≤ b_old_start bd ∧ b_old_start bd - 1 + length (b_old_lines bd) ≤ length (olds cs) ∧
  1 ≤ b_new_start bd ∧ b_new_start bd - 1 + length (b_new_lines bd) ≤ length (news cs) ∧
  0 < length (b_old_lines bd) + length (b_new_lines bd).
Proof.
  intros (c1 & run & c3 & -> & Hne & Hch & _ & _ & ->). cbn [b_old_start b_new_start b_old_lines b_new_lines].
  rewrite !olds_app, !news_app. unfold lines_at. rewrite !Nat.sub_succ, !Nat.sub_0_r, !drop_app_length, !take_app_length.
  rewrite !length_app. split_and!; try done; try lia.
  destruct run as [|[w|w|w] run]; [done|by apply Forall_cons in Hch as [[] _]|..]; unfold olds, news; cbn; lia.
Qed.
End Laws.

(** Every hunk of [compute_hunks] names the lines it is about: the text it says was
    removed is the text of its old lines in the baseline, the text it says was added
    that of its new lines in the current content, both ranges lie inside their file
    and one of them is not empty; hunks carry the path and source asked for, come in
    file order with at least one common line between any two, and have distinct
    identifiers, none below the next free one. *)
Theorem hunks_locate_changes `{LawfulDiff} next p a b src :
  let hs := compute_hunks next p a b src in
  Forall (λ h, let l := line_info h in
    path h = p ∧ source h = src ∧ (next ≤ id h)%N ∧
    default "" (old_text h) = lines_at (tokenize a) (old_start l) (old_count l) ∧
    new_text h = lines_at (tokenize b) (new_start l) (new_count l) ∧
    1 ≤ old_start l ∧ old_start l - 1 + old_count l ≤ length (tokenize a) ∧
    1 ≤ new_start l ∧ new_start l - 1 + new_count l ≤ length (tokenize b) ∧
    0 < old_count l + new_count l) hs ∧
  StronglySorted (λ h h', old_start (line_info h) + old_count (line_info h) < old_start (line_info h') ∧
                          new_start (line_info h) + new_count (line_info h) < new_start (line_info h')) hs ∧
  NoDup (id <$> hs).
Proof.
  intros hs. split_and!.
  - apply Forall_forall. intros h Hh. apply compute_hunks_elem in Hh as (i & bd & -> & Hr).
    apply run_lines in Hr as (E1 & E2 & B). rewrite diff_olds, diff_news in *.
    cbn -[lines_at]. rewrite E1, E2. split_and!; try apply B; try done; [lia|]. by destruct (b_old_lines bd).
  - subst hs. destruct (compute_hunks_cases next p a b src) as [->| ->]; [constructor|].
    assert (Hs := proj1 (builders_ordered (diff_lines a b) 1 1 None I)). revert next.
    induction Hs as [|bd bs _ IH Hb]; intros next; [constructor|]. rewrite imap_cons. constructor.
    + specialize (IH (next + 1)%N). erewrite imap_ext; [exact IH|]. intros i x _. cbn. f_equal. lia.
    + apply Forall_forall. intros h Hh. apply elem_of_lookup_imap in Hh as (i & bd' & -> & Hbd).
      apply list_elem_of_lookup_2 in Hbd. rewrite Forall_forall in Hb. exact (Hb _ Hbd).
  - subst hs. destruct (compute_hunks_cases next p a b src) as [->| ->]; [constructor|].
    rewrite fmap_imap. apply NoDup_alt. intros i j x Hi Hj.
    rewrite list_lookup_imap, fmap_Some in Hi, Hj. destruct Hi as (? & _ & ->), Hj as (? & _ & Ej). cbn in Ej. lia.
Qed.

(** Any hunks with the shapes of the diff, applied to texts of plain lines that keep a
    line that is not blank. *)
Lemma review_exact `{LawfulDiff} a b hs (chosen : Hunk → bool) :
  plain_text a = true → plain_text b = true → shared_line (diff_lines a b) = true →
  shape <$> hs = b_shape <$> builders 1 1 None (diff_lines a b) →
  accept_all_text (filter (λ h, chosen h = true) hs) a = reject_all_text (filter (λ h, chosen h = false) hs) b ∧
  accept_all_text hs a = b ∧ reject_all_text hs b = a.
Proof.
  intros Ha Hb Hsh Hne.
  apply existsb_exists in Hsh as ([v|v|v] & Hin & Hv); try done. apply list_elem_of_In in Hin.
  apply negb_true_iff, bool_decide_eq_false in Hv.
  set (cs := diff_lines a b) in *. set (bs := builders 1 1 None cs) in *.
  pose proof (plain_tokens a Ha) as Fa. rewrite <-(diff_olds a b) in Fa. fold cs in Fa.
  pose proof (plain_tokens b Hb) as Fb. rewrite <-(diff_news a b) in Fb. fold cs in Fb.
  assert (Ea : concat_str (olds cs) = a) by (unfold cs; by rewrite diff_olds, tokenize_concat).
  assert (Eb : concat_str (news cs) = b) by (unfold cs; by rewrite diff_news, tokenize_concat).
  pose proof (bs_sorted cs : StronglySorted before bs) as Hs.
  assert (Hall : ∀ P : Hunk → bool, ∃ sel,
    accept_all_text (filter (λ h, P h = true) hs) a = concat_str (mixed sel 1 1 None cs) ∧
    reject_all_text (filter (λ h, P h = false) hs) b = concat_str (mixed sel 1 1 None cs)).
  { intros P. destruct (shapes_selected P hs bs (before_NoDup _ Hs) Hne) as (sel & E1 & E2). exists sel.
    destruct (batch_texts _ _ a E1) as [-> _]; [by apply StronglySorted_filter|].
    destruct (batch_texts _ _ b E2) as [_ ->]; [by apply StronglySorted_filter|].
    rewrite <-Ea at 1. rewrite <-Eb. split; [by apply (accept_tokens cs v)|by apply (reject_tokens cs v)]. }
  assert (Hwhole : accept_all_text hs a = b ∧ reject_all_text hs b = a).
  { destruct (batch_texts _ _ a Hne Hs) as [-> _]. destruct (batch_texts _ _ b Hne Hs) as [_ ->].
    pose proof (accept_tokens cs v Fa Fb Hin Hv (λ _, true)) as A. pose proof (reject_tokens cs v Fa Fb Hin Hv (λ _, false)) as R.
    rewrite filter_true in A, R by done. rewrite mixed_all, Ea in A. rewrite mixed_none, Eb in R. cbn in A, R.
    by rewrite Eb in A; rewrite Ea in R. }
  destruct (Hall chosen) as (sel & -> & ->). done.
Qed.

(** Review is exact on texts of plain lines that keep a line that is not blank:
    whatever hunks are chosen, writing them into the baseline gives the same text as
    taking all the others out of the current content. So accepting everything makes the
    baseline the current content, and rejecting everything restores the baseline. *)
Theorem accepting_is_rejecting_the_rest `{LawfulDiff} next p a b src (chosen : Hunk → bool) :
  plain_text a = true → plain_text b = true → shared_line (diff_lines a b) = true →
  compute_hunks next p a b src ≠ [] →
  let hs := compute_hunks next p a b src in
  accept_all_text (filter (λ h, chosen h = true) hs) a = reject_all_text (filter (λ h, chosen h = false) hs) b ∧
  accept_all_text hs a = b ∧ reject_all_text hs b = a.
Proof.
  intros Ha Hb Hsh Hne hs. apply compute_hunks_shapes in Hne. by apply review_exact.
Qed.

(** ** Where review is not exact *)

Lemma ends_with_spec p s : ends_with p s = true ↔ ∃ t, s = t +:+ p.
Proof.
  unfold ends_with. rewrite bool_decide_eq_true. split; intros [t Ht]; exists t; by apply strip_suffix_Some.
Qed.

(** A patch of a text that ends with a line feed is empty or ends with one. *)
Lemma patch_lines_end s start count ins : ends_with newline s = true →
  patch_lines s start count ins = "" ∨ ends_with newline (patch_lines s start count ins) = true.
Proof.
  intros Hs. unfold patch_lines. rewrite Hs. cbn [andb]. destruct (is_empty (join _ _)) eqn:E; cbn [negb].
  - left. by destruct (join _ _).
  - right. apply ends_with_spec. eauto.
Qed.

(** Line ends are not reviewed: no hunk can take a final line feed out of a text again,
    by rejecting or by accepting it; and a whole review goes wrong in four ways: a file
    with carriage returns loses them all, a last line without its end stays ended (or
    comes back so), text accepted into an empty baseline loses its last line end, and a
    file that becomes one blank line becomes empty. *)
Theorem line_ends_not_reviewed :
  (∀ h s t, ends_with newline s = true → t ≠ "" → ends_with newline t = false →
     reject_text h s ≠ t ∧ accept_text h s ≠ t) ∧
  (let review a b := (accept_all_text (@compute_hunks reference_diff 0%N "f" a b External) a,
                      reject_all_text (@compute_hunks reference_diff 0%N "f" a b External) b) in
   let LFs (l : list string) := join newline l in
   let crlf := carriage_return +:+ newline in
   review ("a" +:+ crlf +:+ "b" +:+ crlf) ("a" +:+ crlf +:+ "c" +:+ crlf) = (LFs ["a"; "c"; ""], LFs ["a"; "b"; ""]) ∧
   review (LFs ["a"; "b"]) (LFs ["a"; "b"; ""]) = (LFs ["a"; "b"], LFs ["a"; "b"; ""]) ∧
   review "" (LFs ["a"; ""]) = ("a", "") ∧
   review (LFs ["a"; ""]) (LFs [""; ""]) = ("", "a" +:+ newline)).
Proof.
  split; [|vm_compute; split_and!; reflexivity].
  intros h s t Hs Hne Ht. unfold reject_text, accept_text.
  split; intros E; rewrite <-E in Hne, Ht;
    match goal with H : patch_lines ?a ?b ?c ?d ≠ "" |- _ => destruct (patch_lines_end a b c d Hs) end; congruence.
Qed.

(** ** The fragment of one hunk *)

Lemma length_lines s : length (lines s) = length (split_inclusive LF s).
Proof.
  assert (Hl : length (lines s) = length (split_on LF s) - 1 + (if is_empty (default "" (last (split_on LF s))) then 0 else 1)).
  { unfold lines. change (byte 10) with LF. rewrite <-(reverse_involutive (split_on LF s)) at 2 3.
    destruct (reverse (split_on LF s)) as [|r l] eqn:E; [done|].
    rewrite reverse_cons, last_snoc, !length_app, length_fmap. cbn. destruct (is_empty r); cbn; lia. }
  rewrite Hl. clear Hl. induction s as [|a s IH]; [done|]. cbn [split_on split_inclusive].
  pose proof (split_on_ne LF s) as Hne. case_bool_decide.
  - destruct (split_on LF s) as [|w ws] eqn:E; [done|]. cbn [length] in *. rewrite <-IH.
    cbn [last default]. destruct ws; cbn; lia.
  - destruct (split_inclusive LF s) as [|p ps] eqn:E.
    + apply split_inclusive_nil in E as ->. done.
    + destruct (split_on LF s) as [|w ws]; [done|]. cbn [length] in *. rewrite <-IH.
      destruct ws; [|cbn; lia]. cbn in IH |- *. destruct w; cbn in *; lia.
Qed.

Lemma generate_hunk_patch_total a b h :
  old_start (line_info h) - 1 + old_count (line_info h) ≤ length (lines a) →
  new_start (line_info h) - 1 + new_count (line_info h) ≤ length (lines b) →
  is_Some (generate_hunk_patch a b h).
Proof.
  intros Ha Hb. unfold generate_hunk_patch, usize_sub. cbv zeta.
  rewrite (bool_decide_eq_true_2 (_ ≤ (_ + CONTEXT_LINES) `min` length (lines a))) by (apply Nat.min_glb; lia).
  rewrite (bool_decide_eq_true_2 (_ ≤ (_ + CONTEXT_LINES) `min` length (lines b))) by (apply Nat.min_glb; lia).
  cbn. by eexists.
Qed.

(** The patch fragment shown with a hunk can be made for every hunk of texts without
    carriage returns, of changed, created and deleted files alike; a lone carriage
    return, which the diff takes for a line end and [lines] does not, makes the
    unsigned subtraction under the line counts panic. *)
Theorem hunk_patch_total `{LawfulDiff} a b :
  (∀ next p src h, contains_byte CR a = false → contains_byte CR b = false →
     h ∈ compute_hunks next p a b src → is_Some (generate_hunk_patch a b h)) ∧
  (∀ i p src, b ≠ "" → is_Some (generate_hunk_patch "" b (file_created i p b src))) ∧
  (∀ i p src, a ≠ "" → is_Some (generate_hunk_patch a "" (file_deleted i p a src))) ∧
  (let b := "x" +:+ carriage_return +:+ "y" in
   ∃ h, h ∈ @compute_hunks reference_diff 0%N "f" "a" b External ∧ generate_hunk_patch "a" b h = None).
Proof.
  assert (Hone : ∀ s, s ≠ "" → 1 ≤ length (lines s)).
  { intros s Hs. rewrite length_lines. destruct (split_inclusive LF s) eqn:E; [by apply split_inclusive_nil in E|cbn; lia]. }
  split_and!.
  - intros next p src h Ha Hb Hh. apply compute_hunks_elem in Hh as (i & bd & -> & Hr).
    apply run_lines in Hr as (_ & _ & _ & B1 & _ & B2 & _). rewrite diff_olds, tokenize_plain, <-length_lines in B1 by done.
    rewrite diff_news, tokenize_plain, <-length_lines in B2 by done. by apply generate_hunk_patch_total.
  - intros i p src Hb. apply generate_hunk_patch_total; cbn; [lia|]. specialize (Hone b Hb). lia.
  - intros i p src Ha. apply generate_hunk_patch_total; cbn; [|lia]. specialize (Hone a Ha). lia.
  - eexists. split; [by left|]. vm_compute. reflexivity.
Qed.

(** The header of a fragment gives the new text the line of the old one: behind an
    inserted line the fragment of a hunk at new line 9 begins at line 6 of the new text
    and says 5. *)
Example patch_header_old_coordinates :
  let a := join newline ["1"; "2"; "3"; "4"; "5"; "6"; "7"; "8"; ""] in
  let b := join newline ["0"; "1"; "2"; "3"; "4"; "5"; "6"; "7"; "x"; ""] in
  ∃ h h', @compute_hunks reference_diff 0%N "f" a b External = [h; h'] ∧ new_start (line_info h') = 9 ∧
    ∃ t, generate_hunk_patch a b h' = Some ("@@ -5,4 +5,4 @@" +:+ newline +:+ t).
Proof. eexists _, _. split; [vm_compute; reflexivity|]. split; [done|]. eexists. vm_compute. reflexivity. Qed.

Lemma accepting_is_rejecting_the_rest_witness :
  let a := join newline ["1"; "2"; "3"; "4"; ""] in
  let b := join newline ["1"; "x"; "y"; "3"; ""] in
  let hs := @compute_hunks reference_diff 0%N "f" a b External in
  length hs = 2 ∧
  accept_all_text (filter (λ h, bool_decide (id h = 0%N) = true) hs) a =
  reject_all_text (filter (λ h, bool_decide (id h = 0%N) = false) hs) b ∧
  accept_all_text hs a = b ∧ reject_all_text hs b = a.
Proof.
  intros a b hs. split; [vm_compute; reflexivity|].
  apply (@accepting_is_rejecting_the_rest reference_diff reference_lawful 0%N "f" a b External (λ h, bool_decide (id h = 0%N)));
    vm_compute; done.
Defined.

Lemma hunks_locate_changes_witness :
  let a := join newline ["1"; "2"; "3"; "4"; ""] in
  let b := join newline ["1"; "x"; "y"; "3"; ""] in
  NoDup (id <$> @compute_hunks reference_diff 7%N "f" a b External) ∧
  length (@compute_hunks reference_diff 7%N "f" a b External) = 2.
Proof.
  intros a b. split; [|vm_compute; reflexivity].
  destruct (@hunks_locate_changes reference_diff reference_lawful 7%N "f" a b External) as (_ & _ & Hnd). exact Hnd.
Defined.

Lemma hunk_patch_total_witness :
  let a := join newline ["1"; "2"; ""] in
  is_Some (generate_hunk_patch a "" (file_deleted 0%N "f" a External)).
Proof.
  intros a. apply (@hunk_patch_total reference_diff reference_lawful a ""). vm_compute. done.
Defined.

End HunkTheorems.
