(* ===== verification/HunkFiles.v ===== *)
(** The files the hunk tracker looks at (crate [ainxt-hunk-tracker]: [actor/state.rs],
    [actor/file_utils.rs], the reads of [actor/git.rs]): what a file's content counts
    as, reading it from disk within a bound, and its content in git HEAD. Disk and
    repository are data the operations are given; git itself and the canonical form of
    a path are answers of the operating system and of libraries, so parameters. Paths
    are absolute and spelled one way. *)
From stdpp Require Import list gmap strings.
From S2P Require Import Prelude RustStr StrSearch ToolFs.

Module Export ContentStates.

Definition MAX_TRACKED_TEXT_BYTES : N := 1048576.

Inductive FileContentState : Type :=
| Missing
| Binary (byte_len : option N)
| TooLarge (byte_len : N)
| LfsPointer (byte_len : N)
| Symlink
| Full (s : string).
#[export] Instance FileContentState_eq_dec : EqDecision FileContentState.
Proof. solve_decision. Defined.

Definition as_str (c : FileContentState) : option string := match c with Full s => Some s | _ => None end.
Definition is_diffable (c : FileContentState) : bool := match c with Full _ => true | _ => false end.
Definition str_len (s : string) : N := N.of_nat (String.length s).
Definition byte_len (c : FileContentState) : option N :=
  match c with
  | Missing => Some 0%N
  | Binary n => n
  | TooLarge n => Some n
  | LfsPointer n => Some n
  | Symlink => None
  | Full s => Some (str_len s)
  end.

Definition LFS_POINTER_PREFIX : string := "version https://git-lfs.github.com/spec/v1" +:+ newline.
Definition is_lfs_pointer (bytes : string) : bool :=
  bool_decide (String.length bytes < 1024) && starts_with LFS_POINTER_PREFIX bytes.
Definition is_binary (content : string) : bool := contains_byte (byte 0) (str_take 8000 content).

(** [String::from_utf8] succeeds on what the lossy decoding leaves alone. *)
Definition from_utf8 (bytes : string) : option string :=
  if bool_decide (from_utf8_lossy bytes = bytes) then Some bytes else None.

Definition classify_bytes (bytes : string) : FileContentState :=
  let byte_len := str_len bytes in
  if bool_decide (MAX_TRACKED_TEXT_BYTES < byte_len)%N then TooLarge byte_len
  else if is_lfs_pointer bytes then LfsPointer byte_len
  else if is_binary bytes then Binary (Some byte_len)
  else match from_utf8 bytes with Some s => Full s | None => Binary (Some byte_len) end.

Definition classify_string (s : string) : FileContentState :=
  let byte_len := str_len s in
  if bool_decide (MAX_TRACKED_TEXT_BYTES < byte_len)%N then TooLarge byte_len
  else if is_lfs_pointer s then LfsPointer byte_len
  else if is_binary s then Binary (Some byte_len)
  else Full s.

Definition missing_content : FileContentState := Missing.

(** The views of the answers to clients. *)
Inductive FileContentStatus : Type := StMissing | StBinary | StTooLarge | StLfsPointer | StSymlink | StFull.
Record FileContentView : Type := MkView {
  status : FileContentStatus;
  view_byte_len : option N;
  content : option string;
}.
Definition FileContentView_missing : FileContentView := MkView StMissing None None.
Definition FileContentView_binary (n : option N) : FileContentView := MkView StBinary n None.
Definition FileContentView_too_large (n : N) : FileContentView := MkView StTooLarge (Some n) None.
Definition FileContentView_lfs_pointer (n : N) : FileContentView := MkView StLfsPointer (Some n) None.
Definition FileContentView_symlink : FileContentView := MkView StSymlink None None.
Definition FileContentView_full (s : string) : FileContentView := MkView StFull (Some (str_len s)) (Some s).
Definition from_content_state (c : FileContentState) : FileContentView :=
  match c with
  | Missing => FileContentView_missing
  | Binary n => FileContentView_binary n
  | TooLarge n => FileContentView_too_large n
  | LfsPointer n => FileContentView_lfs_pointer n
  | Symlink => FileContentView_symlink
  | Full s => FileContentView_full s
  end.

(** One trailing line end less. *)
Definition strip_single_trailing_newline (content : string) : string :=
  match strip_suffix (carriage_return +:+ newline) content with
  | Some s => s
  | None => default content (strip_suffix newline content)
  end.

End ContentStates.

(** * Paths by components *)

Module Export Components.

(** The root is a component of its own; empty and [.] segments are none. *)
Definition components (p : string) : list string :=
  (if path_is_absolute p then ["/"] else []) ++ filter (λ c, c ≠ "" ∧ c ≠ ".") (split_on "/"%char p).
Definition of_components (cs : list string) : string :=
  match cs with "/" :: cs => "/" +:+ join "/" cs | cs => join "/" cs end.
Fixpoint strip_components (base cs : list string) : option (list string) :=
  match base, cs with
  | [], _ => Some cs
  | b :: base, c :: cs => if bool_decide (b = c) then strip_components base cs else None
  | _ :: _, [] => None
  end.

(** [Path::strip_prefix] and [Path::parent]. *)
Definition path_strip_prefix (base p : string) : option string :=
  of_components <$> strip_components (components base) (components p).
Definition path_parent (p : string) : option string :=
  match reverse (components p) with
  | [] | ["/"] => None
  | _ :: cs => Some (of_components (reverse cs))
  end.

End Components.

(** * Disk and repository *)

Module Export Worlds.

Inductive DiskEntry : Type := File (bytes : string) | Dir | Link (target : string).

Inductive TreeEntry : Type := LinkEntry | Blob (data : string) | SubTree.

(** What git says about a repository: its working tree, HEAD and the tree of its
    commit, the index file, and the status under a list of path specifications. *)
Record Repo : Type := MkRepo {
  workdir : option string;
  repo_head_oid : option string;
  head_tree : option (gmap string TreeEntry);
  repo_index_mtime : option N;
  index_len : option N;
  git_status : list string → option (list (option (string * bool)));
}.

Record World : Type := MkWorld {
  disk : gmap string DiskEntry;
  unreadable : string → bool;
  write_fault : string → bool;
  remove_fault : string → bool;
  canonicalize : string → option string;
  discover : string → option string;
  repo_at : string → Repo;
  hash_order : list string → list string;
}.

Definition set_disk (d : gmap string DiskEntry) (w : World) : World :=
  MkWorld d (unreadable w) (write_fault w) (remove_fault w) (canonicalize w) (discover w) (repo_at w) (hash_order w).

(** The file a path stands for once its link is followed. *)
Definition resolve (w : World) (p : string) : string :=
  match disk w !! p with Some (Link q) => q | _ => p end.
Definition exists_ (w : World) (p : string) : bool :=
  match disk w !! resolve w p with Some (File _) | Some Dir => true | _ => false end.
Definition is_dir (w : World) (p : string) : bool :=
  match disk w !! resolve w p with Some Dir => true | _ => false end.

(** [tokio::fs::write] and [tokio::fs::remove_file]; a link itself is removed. *)
Definition fs_write (w : World) (p content : string) : option World :=
  if write_fault w p then None
  else match disk w !! resolve w p with
       | Some Dir => None
       | _ => Some (set_disk (<[resolve w p := File content]> (disk w)) w)
       end.
Definition remove_file (w : World) (p : string) : option World :=
  if remove_fault w p then None
  else match disk w !! p with
       | Some (File _) | Some (Link _) => Some (set_disk (delete p (disk w)) w)
       | _ => None
       end.

(** Reading with the size and kind checked first; a directory opens and does not read. *)
Definition read_file_bounded (w : World) (p : string) : FileContentState :=
  match disk w !! p with
  | None => missing_content
  | Some (Link _) => Symlink
  | Some Dir => missing_content
  | Some (File bytes) =>
      let byte_len := str_len bytes in
      if bool_decide (MAX_TRACKED_TEXT_BYTES < byte_len)%N then TooLarge byte_len
      else if unreadable w p then missing_content
      else
        let prefix := str_take 8000 bytes in
        if is_lfs_pointer prefix then LfsPointer byte_len
        else if is_binary prefix then Binary (Some byte_len)
        else match from_utf8 bytes with Some s => Full s | None => Binary (Some byte_len) end
  end.

Inductive GitRepoState : Type := Unknown | NotARepo | Discovered (repo prefix : string).
#[export] Instance GitRepoState_eq_dec : EqDecision GitRepoState.
Proof. solve_decision. Defined.

Record RepoSyncState : Type := MkSync { head_oid : option string; index_mtime : option N }.
#[export] Instance RepoSyncState_eq_dec : EqDecision RepoSyncState.
Proof. solve_decision. Defined.

(** The repository, the working directory within it, and what was discovered now. *)
Definition open_or_discover (w : World) (cached : GitRepoState) (working_dir : string) :
    option (string * string * option (string * string)) :=
  match cached with
  | Discovered repo prefix => Some (repo, prefix, None)
  | Unknown =>
      repo ← discover w working_dir;
      repo_root ← workdir (repo_at w repo);
      let canonical_working_dir := default working_dir (canonicalize w working_dir) in
      let canonical_repo_root := default repo_root (canonicalize w repo_root) in
      prefix ← path_strip_prefix canonical_repo_root canonical_working_dir;
      Some (repo, prefix, Some (repo, prefix))
  | NotARepo => None
  end.

Definition canonicalize_or_parent (w : World) (p : string) : string :=
  match canonicalize w p with
  | Some c => c
  | None => default p (d ← path_parent p; cp ← canonicalize w d; f ← path_file_name p; Some (path_join cp f))
  end.

(** A path in the tree of HEAD. *)
Definition lookup_head (w : World) (repo prefix working_dir p : string) : option FileContentState :=
  let canonical_working_dir := default working_dir (canonicalize w working_dir) in
  rel ← path_strip_prefix canonical_working_dir (canonicalize_or_parent w p);
  tree ← head_tree (repo_at w repo);
  entry ← tree !! path_join prefix rel;
  match entry with LinkEntry => Some Symlink | Blob data => Some (classify_bytes data) | SubTree => None end.

End Worlds.
