(* ===== verification/HunkTracker.v ===== *)
(** The hunk tracker (crate [ainxt-hunk-tracker], [actor/]): one task that owns, for
    every tracked file, its baseline, its last known content and the hunks between the
    two, and works through commands one at a time: agent writes, file notifications,
    git refreshes, accepting and rejecting hunks, queries, snapshots. Handlers take the
    state and give the new one; only rejecting changes the disk. *)
From stdpp Require Import list gmap sets strings.
From S2P Require Import Prelude RustStr StrSearch HunkDiff HunkFiles.

Module Export TrackerState.

Inductive HunkRemovalReason : Type := Accepted | Rejected | Superseded.

Inductive HunkEvent : Type :=
| HunkAdded (path : string) (hunk : Hunk)
| HunkRemoved (path : string) (hunk_id : HunkId) (reason : HunkRemovalReason)
| HunkMoved (path : string) (hunk_id : HunkId) (new_line_info : HunkLineInfo)
| HunkContentChanged (path : string) (hunk : Hunk) (trigger_source : HunkSource) (prev_lines_added prev_lines_removed : nat)
| FileAdded (path : string) (is_agent_file : bool)
| FileRemoved (path : string)
| BaselineUpdated (path : string).

Inductive TrackingMode : Type := AgentOnly | AllDirty.
#[export] Instance TrackingMode_eq_dec : EqDecision TrackingMode.
Proof. solve_decision. Defined.

Inductive HunkAction : Type := Accept | Reject.
#[export] Instance HunkAction_eq_dec : EqDecision HunkAction.
Proof. solve_decision. Defined.

Inductive HunkActionError : Type := HunkNotFound (i : HunkId) | WriteError (path : string) | DeleteError (path : string).
#[export] Instance HunkActionError_eq_dec : EqDecision HunkActionError.
Proof. solve_decision. Defined.

Record SessionStats : Type := MkStats {
  accepted_hunks : N;
  rejected_hunks : N;
  accepted_lines_added : N;
  accepted_lines_removed : N;
  rejected_lines_added : N;
  rejected_lines_removed : N;
}.
Definition SessionStats_default : SessionStats := MkStats 0 0 0 0 0 0.

Record FileHunkState : Type := MkFile {
  baseline : FileContentState;
  current_content : FileContentState;
  hunks : list Hunk;
  is_agent_file : bool;
  baseline_accepted : bool;
}.
#[export] Instance FileHunkState_eq_dec : EqDecision FileHunkState.
Proof. solve_decision. Defined.

Definition set_baseline (b : FileContentState) (st : FileHunkState) : FileHunkState :=
  MkFile b (current_content st) (hunks st) (is_agent_file st) (baseline_accepted st).
Definition set_current (c : FileContentState) (st : FileHunkState) : FileHunkState :=
  MkFile (baseline st) c (hunks st) (is_agent_file st) (baseline_accepted st).
Definition set_hunks (hs : list Hunk) (st : FileHunkState) : FileHunkState :=
  MkFile (baseline st) (current_content st) hs (is_agent_file st) (baseline_accepted st).
Definition set_agent (st : FileHunkState) : FileHunkState :=
  MkFile (baseline st) (current_content st) (hunks st) true (baseline_accepted st).
Definition set_accepted (a : bool) (st : FileHunkState) : FileHunkState :=
  MkFile (baseline st) (current_content st) (hunks st) (is_agent_file st) a.

(** The actor; events sent are kept in order, and [next_id] is the next identifier
    never given out. *)
Record Actor : Type := MkActor {
  working_dir : string;
  file_states : gmap string FileHunkState;
  turn_index : gmap N (gset HunkId);
  git_dirty_cache : gset string;
  git_staged_cache : gset string;
  git_repo_state : GitRepoState;
  repo_sync_state : RepoSyncState;
  mode : TrackingMode;
  session_stats : SessionStats;
  events : list HunkEvent;
  next_id : HunkId;
}.

Definition new (working_dir : string) (mode : TrackingMode) : Actor :=
  MkActor working_dir ∅ ∅ ∅ ∅ Unknown (MkSync None None) mode SessionStats_default [] 0%N.

Definition set_files (m : gmap string FileHunkState) (s : Actor) : Actor :=
  MkActor (working_dir s) m (turn_index s) (git_dirty_cache s) (git_staged_cache s) (git_repo_state s)
    (repo_sync_state s) (mode s) (session_stats s) (events s) (next_id s).
Definition set_index (ti : gmap N (gset HunkId)) (s : Actor) : Actor :=
  MkActor (working_dir s) (file_states s) ti (git_dirty_cache s) (git_staged_cache s) (git_repo_state s)
    (repo_sync_state s) (mode s) (session_stats s) (events s) (next_id s).
Definition set_caches (dirty staged : gset string) (s : Actor) : Actor :=
  MkActor (working_dir s) (file_states s) (turn_index s) dirty staged (git_repo_state s)
    (repo_sync_state s) (mode s) (session_stats s) (events s) (next_id s).
Definition set_repo (r : GitRepoState) (s : Actor) : Actor :=
  MkActor (working_dir s) (file_states s) (turn_index s) (git_dirty_cache s) (git_staged_cache s) r
    (repo_sync_state s) (mode s) (session_stats s) (events s) (next_id s).
Definition set_sync (r : RepoSyncState) (s : Actor) : Actor :=
  MkActor (working_dir s) (file_states s) (turn_index s) (git_dirty_cache s) (git_staged_cache s) (git_repo_state s)
    r (mode s) (session_stats s) (events s) (next_id s).
Definition put_mode (m : TrackingMode) (s : Actor) : Actor :=
  MkActor (working_dir s) (file_states s) (turn_index s) (git_dirty_cache s) (git_staged_cache s) (git_repo_state s)
    (repo_sync_state s) m (session_stats s) (events s) (next_id s).
Definition set_stats (st : SessionStats) (s : Actor) : Actor :=
  MkActor (working_dir s) (file_states s) (turn_index s) (git_dirty_cache s) (git_staged_cache s) (git_repo_state s)
    (repo_sync_state s) (mode s) st (events s) (next_id s).
Definition set_next (n : HunkId) (s : Actor) : Actor :=
  MkActor (working_dir s) (file_states s) (turn_index s) (git_dirty_cache s) (git_staged_cache s) (git_repo_state s)
    (repo_sync_state s) (mode s) (session_stats s) (events s) n.
Definition send_events (es : list HunkEvent) (s : Actor) : Actor :=
  MkActor (working_dir s) (file_states s) (turn_index s) (git_dirty_cache s) (git_staged_cache s) (git_repo_state s)
    (repo_sync_state s) (mode s) (session_stats s) (events s ++ es) (next_id s).
Definition send_event (e : HunkEvent) (s : Actor) : Actor := send_events [e] s.

Definition insert_file (p : string) (st : FileHunkState) (s : Actor) : Actor := set_files (<[p := st]> (file_states s)) s.
Definition contains_key (p : string) (s : Actor) : bool := bool_decide (is_Some (file_states s !! p)).
Definition is_agent (p : string) (s : Actor) : bool := default false (is_agent_file <$> file_states s !! p).
(** The keys of a hash map in the order it is walked. *)
Definition keys_of (w : World) (m : gmap string FileHunkState) : list string := hash_order w (map_to_list m).*1.

End TrackerState.

(** * Recomputing hunks *)

Module Export Recompute.
Section Diffed.
Context `{LineDiff}.

(** The hunks between two contents, with fresh identifiers from [next]. *)
Definition fresh_hunks (next : HunkId) (path : string) (baseline current : FileContentState) (source : HunkSource) : list Hunk :=
  match baseline, current with
  | Full baseline, Full current => compute_hunks next path baseline current source
  | Full baseline, Missing => if is_empty baseline then [] else [file_deleted next path baseline source]
  | Missing, Full current => if is_empty current then [] else [file_created next path current source]
  | _, _ => []
  end.

(** Identifier and attribution taken over from the best match among the old hunks,
    each of which is claimed once. *)
Definition take_over (best h : Hunk) : Hunk :=
  let source := if is_external (source h) && is_agent_edit (source best) then source best else source h in
  MkHunk (id best) (path h) (line_info h) source (old_text h) (new_text h) (patch h).
Fixpoint preserve_ids (old_hunks : list Hunk) (claimed : gset HunkId) (new_hunks : list Hunk) : list Hunk :=
  match new_hunks with
  | [] => []
  | h :: new_hunks =>
      match find_matching_old_hunk h old_hunks with
      | Some best =>
          if bool_decide (id best ∈ claimed) then h :: preserve_ids old_hunks claimed new_hunks
          else take_over best h :: preserve_ids old_hunks ({[id best]} ∪ claimed) new_hunks
      | None => h :: preserve_ids old_hunks claimed new_hunks
      end
  end.

Definition unindex (i : HunkId) (source : HunkSource) (ti : gmap N (gset HunkId)) : gmap N (gset HunkId) :=
  match prompt_index source with
  | Some p => match ti !! p with Some ids => <[p := ids ∖ {[i]}]> ti | None => ti end
  | None => ti
  end.
Definition reindex (h : Hunk) (ti : gmap N (gset HunkId)) : gmap N (gset HunkId) :=
  match prompt_index (source h) with
  | Some p => <[p := default ∅ (ti !! p) ∪ {[id h]}]> ti
  | None => ti
  end.
Definition unindex_all (hs : list Hunk) (ti : gmap N (gset HunkId)) : gmap N (gset HunkId) :=
  fold_left (λ ti h, unindex (id h) (source h) ti) hs ti.
Definition reindex_all (hs : list Hunk) (ti : gmap N (gset HunkId)) : gmap N (gset HunkId) :=
  fold_left (λ ti h, reindex h ti) hs ti.

Definition emit_hunk_diff_events (path : string) (old_hunks new_hunks : list Hunk) (trigger_source : HunkSource) : list HunkEvent :=
  omap (λ o,
    if existsb (λ n, hunks_overlap o n || hunks_match_content o n) new_hunks then None
    else Some (HunkRemoved path (id o) Superseded)) old_hunks ++
  omap (λ n,
    match list_find (λ o, hunks_match_content o n = true) old_hunks with
    | Some (_, o) => if hunk_moved o n then Some (HunkMoved path (id o) (line_info n)) else None
    | None =>
        if existsb (λ o, hunks_overlap o n) old_hunks then
          let prev :=
            match list_find (λ o, id o = id n) old_hunks with
            | Some (_, o) => Some o
            | None => snd <$> list_find (λ o, hunks_overlap o n = true) old_hunks
            end in
          Some (HunkContentChanged path n trigger_source
            (default 0 ((λ h, new_count (line_info h)) <$> prev)) (default 0 ((λ h, old_count (line_info h)) <$> prev)))
        else Some (HunkAdded path n)
    end) new_hunks.

Definition recompute_hunks (path : string) (new_current : option FileContentState) (source : HunkSource) (s : Actor) : Actor :=
  match file_states s !! path with
  | None => s
  | Some state =>
      let old_hunks := hunks state in
      let current := default missing_content new_current in
      let fresh := fresh_hunks (next_id s) path (baseline state) current source in
      let new_hunks := preserve_ids old_hunks ∅ fresh in
      let s := set_next (next_id s + N.of_nat (length fresh))%N s in
      let s := insert_file path (set_hunks new_hunks (set_current current state)) s in
      let s := set_index (reindex_all new_hunks (unindex_all old_hunks (turn_index s))) s in
      send_events (emit_hunk_diff_events path old_hunks new_hunks source) s
  end.

End Diffed.
End Recompute.

(** * Git *)

Module Export GitReads.

(** The shape of every read of the repository: nothing is asked once it is known that
    there is none, and what was discovered is remembered. *)
Definition with_repo {A} (w : World) (default : A) (read : string → string → A) (s : Actor) : A * Actor :=
  match git_repo_state s with
  | NotARepo => (default, s)
  | cached =>
      match open_or_discover w cached (working_dir s) with
      | None => (default, match cached with Unknown => set_repo NotARepo s | _ => s end)
      | Some (repo, prefix, discovered) =>
          (read repo prefix, match discovered with Some (r, p) => set_repo (Discovered r p) s | None => s end)
      end
  end.

Definition read_baseline (w : World) (path : string) (s : Actor) : FileContentState * Actor :=
  with_repo w missing_content (λ repo prefix, default missing_content (lookup_head w repo prefix (working_dir s) path)) s.

Definition read_baselines_batch (w : World) (paths : list string) (s : Actor) : gmap string FileContentState * Actor :=
  if bool_decide (paths = []) || bool_decide (git_repo_state s = NotARepo) then (∅, s)
  else
    with_repo w (list_to_map ((λ p, (p, missing_content)) <$> paths))
      (λ repo prefix, list_to_map ((λ p, (p, default missing_content (lookup_head w repo prefix (working_dir s) p))) <$> paths)) s.

Definition read_repo_sync_state (w : World) (s : Actor) : option RepoSyncState * Actor :=
  with_repo w None (λ repo _, Some (MkSync (repo_head_oid (repo_at w repo)) (repo_index_mtime (repo_at w repo)))) s.

(** Dirty and staged paths below the working directory, relative to it. *)
Definition read_status (w : World) (scope : option (list string)) (repo prefix : string) : gset string * gset string :=
  match index_len (repo_at w repo) with
  | None | Some 0%N => (∅, ∅)
  | Some _ =>
      let pathspecs := (λ rel, ":(top,literal)" +:+ path_join prefix rel) <$> default [] scope in
      match git_status (repo_at w repo) pathspecs with
      | None => (∅, ∅)
      | Some items =>
          fold_left (λ '(dirty, staged) item,
            match item with
            | Some (location, is_tree_index) =>
                match path_strip_prefix prefix location with
                | Some rel => ({[rel]} ∪ dirty, if (is_tree_index : bool) then {[rel]} ∪ staged else staged)
                | None => (dirty, staged)
                end
            | None => (dirty, staged)
            end) items (∅, ∅)
      end
  end.

(** [path] relative to the working directory, where it is below it. *)
Definition relative (s : Actor) (path : string) : string := default path (path_strip_prefix (working_dir s) path).
Definition is_dirty (s : Actor) (path : string) : bool := bool_decide (relative s path ∈ git_dirty_cache s).

End GitReads.

(** * Mutations *)

Module Export Mutations.
Section Diffed.
Context `{LineDiff}.

Definition fresh_file (b c : FileContentState) (agent : bool) : FileHunkState := MkFile b c [] agent false.

Definition record_agent_write (w : World) (path content : string) (prompt : N) (previous_content : option string)
    (s : Actor) : Actor :=
  let current_state := classify_string content in
  if negb (is_diffable current_state) then
    match file_states s !! path with
    | None =>
        let '(b, s) := match previous_content with
                       | Some prev => (classify_string prev, s)
                       | None => read_baseline w path s
                       end in
        send_event (FileAdded path true) (insert_file path (fresh_file b current_state true) s)
    | Some state => insert_file path (set_hunks [] (set_current current_state (set_agent state))) s
    end
  else
    let s :=
      match file_states s !! path with
      | None =>
          let '(head, s) := read_baseline w path s in
          let b := match head with Missing => default missing_content (classify_string <$> previous_content) | other => other end in
          send_event (FileAdded path true) (insert_file path (fresh_file b current_state true) s)
      | Some state => insert_file path (set_agent state) s
      end in
    recompute_hunks path (Some current_state) (AgentEdit prompt) s.

Definition take_baseline (w : World) (preloaded : option FileContentState) (path : string) (s : Actor) :
    FileContentState * Actor :=
  match preloaded with Some b => (b, s) | None => read_baseline w path s end.

(** Not in HEAD, not known dirty and no directory: ignored by git. *)
Definition is_ignored (w : World) (path : string) (b : FileContentState) (s : Actor) : bool :=
  bool_decide (mode s = AllDirty) && bool_decide (b = Missing) && negb (is_dir w path) && negb (is_dirty s path).

Definition matches_head (s : Actor) (path : string) (current head : FileContentState) : bool :=
  match current, head with
  | Full current, Full head => bool_decide (strip_single_trailing_newline current = strip_single_trailing_newline head)
  | Missing, Missing | Binary _, Binary _ | TooLarge _, TooLarge _ | LfsPointer _, LfsPointer _ | Symlink, Symlink => true
  | Symlink, Full _ | Full _, Symlink => negb (is_dirty s path)
  | _, _ => false
  end.

Definition external_source (path : string) (s : Actor) : HunkSource :=
  if is_agent path s then ExternalEditOnAgentFile else External.

Definition process_file_change (w : World) (path : string) (preloaded : option FileContentState) (s : Actor) : Actor :=
  let is_tracked := contains_key path s in
  if bool_decide (mode s = AgentOnly) && negb is_tracked then s
  else
    let current_state := read_file_bounded w path in
    if negb (is_diffable current_state) && negb is_tracked then
      let '(b, s) := if bool_decide (mode s = AllDirty) then take_baseline w preloaded path s else (missing_content, s) in
      if is_ignored w path b s then s
      else
        let s := send_event (FileAdded path false) (insert_file path (fresh_file b current_state false) s) in
        if is_diffable b then recompute_hunks path None External s else s
    else if negb is_tracked then
      let '(b, s) := take_baseline w preloaded path s in
      if is_ignored w path b s then s
      else
        let s := send_event (FileAdded path false) (insert_file path (fresh_file b missing_content false) s) in
        recompute_hunks path (Some current_state) (external_source path s) s
    else if default false (baseline_accepted <$> file_states s !! path) then
      let '(head, s) := take_baseline w preloaded path s in
      if matches_head s path current_state head then
        match file_states s !! path with
        | Some state => insert_file path (set_hunks [] (set_accepted false (set_current head (set_baseline head state)))) s
        | None => s
        end
      else recompute_hunks path (Some current_state) (external_source path s) s
    else recompute_hunks path (Some current_state) (external_source path s) s.

Definition handle_file_change (w : World) (path : string) (s : Actor) : Actor := process_file_change w path None s.

(** The paths whose baseline a change will read. *)
Definition needs_baseline (s : Actor) (p : string) : bool :=
  if bool_decide (mode s = AgentOnly) && negb (contains_key p s) then false
  else negb (contains_key p s) || default false (baseline_accepted <$> file_states s !! p).
Definition handle_file_changes_batch (w : World) (paths : list string) (s : Actor) : Actor :=
  match paths with
  | [] => s
  | _ =>
      let baseline_paths := filter (λ p, needs_baseline s p = true) paths in
      let '(baselines, s) := match baseline_paths with [] => (∅, s) | _ => read_baselines_batch w baseline_paths s end in
      (fold_left (λ '(baselines, s) p,
         (delete p baselines, process_file_change w p (baselines !! p) s)) paths (baselines, s)).2
  end.

Definition handle_file_deleted (w : World) (path : string) (s : Actor) : Actor :=
  if negb (contains_key path s) then
    if bool_decide (mode s = AgentOnly) then s
    else if exists_ w path then s
    else
      let '(b, s) := read_baseline w path s in
      if bool_decide (b = Missing) then s
      else
        let s := send_event (FileAdded path false) (insert_file path (fresh_file b missing_content false) s) in
        recompute_hunks path None External s
  else if exists_ w path then handle_file_change w path s
  else recompute_hunks path None (external_source path s) s.

(** Every hunk of a file removed: from the index, with an event each. *)
Definition drop_hunks (path : string) (hs : list Hunk) (s : Actor) : Actor :=
  send_events ((λ h, HunkRemoved path (id h) Superseded) <$> hs) (set_index (unindex_all hs (turn_index s)) s).

Definition reset_baseline (path : string) (s : Actor) : Actor :=
  match file_states s !! path with
  | None => s
  | Some state =>
      let s := insert_file path (set_hunks [] (set_accepted false (set_baseline (current_content state) state))) s in
      send_event (BaselineUpdated path) (drop_hunks path (hunks state) s)
  end.

Definition refresh_git_dirty_cache (w : World) (scope : option (list string)) (s : Actor) : Actor :=
  match git_repo_state s with
  | NotARepo => s
  | _ =>
      let '((dirty, staged), s) := with_repo w (∅, ∅) (read_status w scope) s in
      let paths_to_track := filter (λ rel, contains_key (path_join (working_dir s) rel) s = false)
                              (hash_order w (elements dirty)) in
      let s := set_caches dirty staged s in
      if bool_decide (mode s = AllDirty) then
        fold_left (λ s rel, handle_file_change w (path_join (working_dir s) rel) s) paths_to_track s
      else s
  end.

Definition is_clean (w : World) (s : Actor) (path : string) (b c : FileContentState) : bool :=
  match b, c with
  | Full b, Full c => bool_decide (strip_single_trailing_newline b = strip_single_trailing_newline c)
  | Binary _, Binary _ | TooLarge _, TooLarge _ | LfsPointer _, LfsPointer _ | Symlink, Symlink => negb (is_dirty s path)
  | LfsPointer _, _ | _, LfsPointer _ => negb (is_dirty s path)
  | Symlink, Full _ | Full _, Symlink => negb (is_dirty s path)
  | Missing, Missing => negb (exists_ w path)
  | Missing, _ => negb (is_dirty s path)
  | _, _ => false
  end.

(** One file of a refresh, with the new HEAD content of those that were asked for. *)
Definition refresh_file (w : World) (baselines : gmap string FileContentState) (path : string) (s : Actor) : Actor :=
  let new_baseline := default missing_content (baselines !! path) in
  let new_current := read_file_bounded w path in
  match file_states s !! path with
  | None => s
  | Some state =>
      let state := set_accepted false (set_current new_current (set_baseline new_baseline state)) in
      if is_clean w s path new_baseline new_current then
        if negb (is_agent_file state) then
          let s := drop_hunks path (hunks state) (set_files (delete path (file_states s)) s) in
          send_event (FileRemoved path) s
        else
          let s := drop_hunks path (hunks state) (insert_file path (set_hunks [] state) s) in
          send_event (BaselineUpdated path) s
      else
        let source := if is_agent_file state then ExternalEditOnAgentFile else External in
        send_event (BaselineUpdated path)
          (recompute_hunks path (Some new_current) source (insert_file path state s))
  end.

Definition refresh_all_baselines_except (w : World) (skip : gset string) (s : Actor) : Actor :=
  if bool_decide (mode s = AgentOnly) && bool_decide (file_states s = ∅) then s
  else
    let '(sync, s) := read_repo_sync_state w s in
    if bool_decide (sync = Some (repo_sync_state s)) then s
    else
      let s := match sync with Some r => set_sync r s | None => s end in
      let s :=
        match mode s with
        | AllDirty => refresh_git_dirty_cache w None s
        | AgentOnly =>
            match omap (path_strip_prefix (working_dir s)) (keys_of w (file_states s)) with
            | [] => set_caches ∅ ∅ s
            | rels => refresh_git_dirty_cache w (Some rels) s
            end
        end in
      let paths := filter (λ p, p ∉ skip) (keys_of w (file_states s)) in
      let '(baselines, s) := match paths with [] => (∅, s) | _ => read_baselines_batch w paths s end in
      fold_left (λ s p, refresh_file w baselines p s) paths s.
Definition refresh_all_baselines (w : World) (s : Actor) : Actor := refresh_all_baselines_except w ∅ s.

Definition set_mode (w : World) (m : TrackingMode) (s : Actor) : Actor :=
  let old_mode := mode s in
  let s := put_mode m s in
  match old_mode, m with
  | AgentOnly, AllDirty => refresh_git_dirty_cache w None s
  | AllDirty, AgentOnly =>
      let non_agent_paths := filter (λ p, is_agent p s = false) (keys_of w (file_states s)) in
      fold_left (λ s p,
        match file_states s !! p with
        | Some state => send_event (FileRemoved p) (drop_hunks p (hunks state) (set_files (delete p (file_states s)) s))
        | None => s
        end) non_agent_paths s
  | _, _ => s
  end.

End Diffed.
End Mutations.

(** * Accepting and rejecting *)

Module Export Actions.
Section Diffed.
Context `{LineDiff}.


Definition update_session_stats (l : HunkLineInfo) (accepted : bool) (s : Actor) : Actor :=
  let st := session_stats s in
  let added := N.of_nat (new_count l) in
  let removed := N.of_nat (old_count l) in
  set_stats
    (if accepted
     then MkStats (sat_add64 (accepted_hunks st) 1) (rejected_hunks st) (sat_add64 (accepted_lines_added st) added)
            (sat_add64 (accepted_lines_removed st) removed) (rejected_lines_added st) (rejected_lines_removed st)
     else MkStats (accepted_hunks st) (sat_add64 (rejected_hunks st) 1) (accepted_lines_added st)
            (accepted_lines_removed st) (sat_add64 (rejected_lines_added st) added) (sat_add64 (rejected_lines_removed st) removed)) s.

Definition remove_from_turn_index (i : HunkId) (source : HunkSource) (s : Actor) : Actor :=
  set_index (unindex i source (turn_index s)) s.

(** What both kinds of action do before they touch the file. *)
Definition account (action : HunkAction) (h : Hunk) (s : Actor) : Actor :=
  remove_from_turn_index (id h) (source h)
    (update_session_stats (line_info h) (bool_decide (action = Accept)) s).

Definition without (hs : list Hunk) (st : FileHunkState) : FileHunkState :=
  set_hunks (filter (λ h, id h ∉ id <$> hs) (hunks st)) st.
Definition removed_events (path : string) (reason : HunkRemovalReason) (hs : list Hunk) : list HunkEvent :=
  (λ h, HunkRemoved path (id h) reason) <$> hs.
Definition remaining_source (path : string) (s : Actor) : HunkSource :=
  default External (source <$> (st ← file_states s !! path; head (hunks st))).

Definition accept_hunk (path : string) (hunk : Hunk) (s : Actor) : Actor :=
  match file_states s !! path with
  | None => s
  | Some state =>
      let '(should_recompute, state) :=
        match baseline state with
        | Missing => (false, without [hunk] (set_accepted true (set_baseline (current_content state) state)))
        | b =>
            let b := match b with Full text => Full (accept_text hunk text) | b => b end in
            (true, without [hunk] (set_accepted true (set_baseline b state)))
        end in
      let s := insert_file path state s in
      let s := send_events [HunkRemoved path (id hunk) Accepted; BaselineUpdated path] s in
      if should_recompute
      then recompute_hunks path (Some (current_content state)) (remaining_source path s) s
      else s
  end.

Inductive RejectAction : Type :=
| RestoreDeleted (baseline : string)
| DeleteCreated
| RevertChange (patched : string)
| NoOp.

Definition reject_action (state : FileHunkState) (hunk : Hunk) : RejectAction :=
  match current_content state, baseline state with
  | Missing, Full b => RestoreDeleted b
  | Full _, Missing => DeleteCreated
  | Full current, _ => RevertChange (reject_text hunk current)
  | _, _ => NoOp
  end.

Definition reject_hunk (w : World) (path : string) (hunk : Hunk) (s : Actor) : World * Actor * result HunkActionError unit :=
  match file_states s !! path with
  | None => (w, s, Ok tt)
  | Some state =>
      let done w state :=
        (w, send_event (HunkRemoved path (id hunk) Rejected) (insert_file path (without [hunk] state) s), Ok tt) in
      match reject_action state hunk with
      | RestoreDeleted b =>
          match fs_write w path b with
          | None => (w, s, Err (WriteError path))
          | Some w => done w (set_current (Full b) state)
          end
      | DeleteCreated =>
          match remove_file w path with
          | None => (w, s, Err (DeleteError path))
          | Some w => done w (set_current Missing state)
          end
      | RevertChange patched =>
          match fs_write w path patched with
          | None => (w, s, Err (WriteError path))
          | Some w =>
              let '(w, s, r) := done w (set_current (Full patched) state) in
              (w, recompute_hunks path (Some (Full patched)) (remaining_source path s) s, r)
          end
      | NoOp => (w, s, Ok tt)
      end
  end.

Definition find_hunk (w : World) (i : HunkId) (s : Actor) : option (string * Hunk) :=
  head (omap (λ p, st ← file_states s !! p; '(_, h) ← list_find (λ h, id h = i) (hunks st); Some (p, h))
          (keys_of w (file_states s))).

Definition apply_hunk_action (w : World) (i : HunkId) (action : HunkAction) (s : Actor) :
    World * Actor * result HunkActionError unit :=
  match find_hunk w i s with
  | None => (w, s, Err (HunkNotFound i))
  | Some (path, hunk) =>
      let s := account action hunk s in
      match action with
      | Accept => (w, accept_hunk path hunk s, Ok tt)
      | Reject => reject_hunk w path hunk s
      end
  end.

Definition accept_hunks_batch (path : string) (hs : list Hunk) (s : Actor) : Actor :=
  match hs, file_states s !! path with
  | [], _ | _, None => s
  | _, Some state =>
      match baseline state with
      | Missing =>
          let state := without hs (set_accepted true (set_baseline (current_content state) state)) in
          send_events (removed_events path Accepted hs ++ [BaselineUpdated path]) (insert_file path state s)
      | b =>
          let b := match b with Full text => Full (accept_all_text hs text) | b => b end in
          let state := without hs (set_accepted true (set_baseline b state)) in
          let s := send_events (removed_events path Accepted hs ++ [BaselineUpdated path]) (insert_file path state s) in
          recompute_hunks path (Some (current_content state)) (remaining_source path s) s
      end
  end.

Definition reject_hunks_batch (w : World) (path : string) (hs : list Hunk) (s : Actor) :
    World * Actor * result HunkActionError unit :=
  match hs, file_states s !! path with
  | [], _ | _, None => (w, s, Ok tt)
  | _, Some state =>
      let done state := send_events (removed_events path Rejected hs) (insert_file path (without hs state) s) in
      match current_content state, baseline state with
      | Missing, Full b =>
          match fs_write w path b with
          | None => (w, s, Err (WriteError path))
          | Some w => (w, done (set_current (Full b) state), Ok tt)
          end
      | Full _, Missing =>
          match remove_file w path with
          | None => (w, s, Err (DeleteError path))
          | Some w => (w, done (set_current Missing state), Ok tt)
          end
      | Full current, _ =>
          let current := reject_all_text hs current in
          match fs_write w path current with
          | None => (w, s, Err (WriteError path))
          | Some w =>
              let s := done (set_current (Full current) state) in
              (w, recompute_hunks path (Some (Full current)) (remaining_source path s) s, Ok tt)
          end
      | _, _ => (w, s, Ok tt)
      end
  end.

(** The hunks of each file are accounted for before the file is patched; the first
    failing file ends the batch. *)
Fixpoint apply_action_batch (w : World) (files_with_hunks : list (string * list Hunk)) (action : HunkAction) (s : Actor) :
    World * Actor * result HunkActionError (list HunkId) :=
  match files_with_hunks with
  | [] => (w, s, Ok [])
  | (path, hs) :: files =>
      let s := fold_left (λ s h, account action h s) hs s in
      let '(w, s, r) := match action with
                        | Accept => (w, accept_hunks_batch path hs s, Ok tt)
                        | Reject => reject_hunks_batch w path hs s
                        end in
      match r with
      | Err e => (w, s, Err e)
      | Ok _ =>
          let '(w, s, r) := apply_action_batch w files action s in
          match r with Ok ids => (w, s, Ok ((id <$> hs) ++ ids)) | Err e => (w, s, Err e) end
      end
  end.

Definition apply_file_action (w : World) (path : string) (action : HunkAction) (s : Actor) :
    World * Actor * result HunkActionError (list HunkId) :=
  match file_states s !! path with
  | None => (w, s, Ok [])
  | Some state =>
      match hunks state with
      | [] => (w, s, Ok [])
      | hs => apply_action_batch w [(path, hs)] action s
      end
  end.

(** The files that have hunks of a kind, with these hunks. *)
Definition files_with (w : World) (P : Hunk → bool) (s : Actor) : list (string * list Hunk) :=
  omap (λ p,
    st ← file_states s !! p;
    match filter (λ h, P h = true) (hunks st) with [] => None | hs => Some (p, hs) end) (keys_of w (file_states s)).

Definition apply_all_action (w : World) (action : HunkAction) (s : Actor) :
    World * Actor * result HunkActionError (list HunkId) :=
  apply_action_batch w (files_with w (λ _, true) s) action s.
Definition of_turn (prompt : N) (h : Hunk) : bool := bool_decide (prompt_index (source h) = Some prompt).
(** The files of a turn are put into a map of their own, walked in its own order. *)
Definition files_of_turn (w : World) (prompt : N) (s : Actor) : list (string * list Hunk) :=
  let files := files_with w (of_turn prompt) s in
  omap (λ p, hs ← (list_to_map files : gmap string (list Hunk)) !! p; Some (p, hs)) (hash_order w files.*1).
Definition apply_turn_action (w : World) (prompt : N) (action : HunkAction) (s : Actor) :
    World * Actor * result HunkActionError (list HunkId) :=
  apply_action_batch w (files_of_turn w prompt s) action s.

End Diffed.
End Actions.

(** * Queries and snapshots *)

Module Export Queries.

Definition get_all_hunks (w : World) (s : Actor) : list Hunk :=
  keys_of w (file_states s) ≫= λ p, default [] (hunks <$> file_states s !! p).
Definition get_hunks_for_path (path : string) (s : Actor) : list Hunk := default [] (hunks <$> file_states s !! path).
Definition get_all_tracked_paths (w : World) (s : Actor) : list string := keys_of w (file_states s).

Inductive HunkSourceFilter : Type := FilterAgent | FilterExternal.
Definition get_hunks_by_source (w : World) (f : HunkSourceFilter) (s : Actor) : list Hunk :=
  filter (λ h, match f with FilterAgent => is_agent_edit (source h) | FilterExternal => is_external (source h) end = true)
    (get_all_hunks w s).
Definition get_hunk (w : World) (i : HunkId) (s : Actor) : option Hunk :=
  snd <$> list_find (λ h, id h = i) (get_all_hunks w s).
Definition get_hunks_for_turn (w : World) (prompt : N) (s : Actor) : list Hunk :=
  match turn_index s !! prompt with
  | None => []
  | Some ids => omap (λ i, get_hunk w i s) (elements ids)
  end.
Definition get_staged_files (s : Actor) : gset string := set_map (path_join (working_dir s)) (git_staged_cache s).

Record FileHunkData : Type := MkFileData {
  data_hunks : list Hunk;
  data_baseline : FileContentView;
  data_current : FileContentView;
  baseline_content : option string;
  data_current_content : option string;
}.
Definition FileHunkData_default : FileHunkData :=
  MkFileData [] FileContentView_missing FileContentView_missing None None.

Definition with_patch (patch : option string) (h : Hunk) : Hunk :=
  MkHunk (id h) (path h) (line_info h) (source h) (old_text h) (new_text h) patch.
(** [None] is the panic of [generate_hunk_patch]. *)
Definition get_file_hunk_data (path : string) (s : Actor) : option FileHunkData :=
  match file_states s !! path with
  | None => Some FileHunkData_default
  | Some state =>
      hs ← mapM (λ h,
        match as_str (baseline state), as_str (current_content state) with
        | None, None => Some (with_patch None h)
        | b, c => p ← generate_hunk_patch (default "" b) (default "" c) h; Some (with_patch (Some p) h)
        end) (hunks state);
      let b := from_content_state (baseline state) in
      let c := from_content_state (current_content state) in
      Some (MkFileData hs b c (content b) (content c))
  end.

Record FileContentEntry : Type := MkEntry {
  entry_path : string;
  entry_baseline : FileContentView;
  entry_current : FileContentView;
  entry_is_agent_file : bool;
  staged : bool;
}.
Definition get_all_file_contents (w : World) (s : Actor) : list FileContentEntry :=
  omap (λ p, st ← file_states s !! p;
    Some (MkEntry p (from_content_state (baseline st)) (from_content_state (current_content st)) (is_agent_file st)
            (bool_decide (relative s p ∈ git_staged_cache s)))) (keys_of w (file_states s)).

Record TurnSummary : Type := MkTurn {
  turn_prompt : N;
  turn_files : list string;
  pending : list Hunk;
  lines_added : nat;
  lines_removed : nat;
}.
Record SessionSummary : Type := MkSummary {
  stats : SessionStats;
  turns : list TurnSummary;
  files_modified : nat;
  files_with_pending : nat;
  pending_hunks : nat;
  pending_lines_added : nat;
  pending_lines_removed : nat;
  unattributed_pending : nat;
}.

Definition sum_list (l : list nat) : nat := foldr plus 0 l.

Record TurnData : Type := MkTurnData {
  td_files : gset string;
  td_pending : list Hunk;
  td_lines_added : nat;
  td_lines_removed : nat;
}.
Definition TurnData_default : TurnData := MkTurnData ∅ [] 0 0.
Definition add_pending (path : string) (h : Hunk) (d : TurnData) : TurnData :=
  MkTurnData ({[path]} ∪ td_files d) (td_pending d ++ [h]) (td_lines_added d + new_count (line_info h))
    (td_lines_removed d + old_count (line_info h)).

(** One file: its agent hunks go to their turns, the others are counted. *)
Record Collected : Type := MkCollected {
  by_prompt : gmap N TurnData;
  modified : gset string;
  unattributed : nat;
}.
Definition collect_hunk (path : string) (c : Collected) (h : Hunk) : Collected :=
  match prompt_index (source h) with
  | Some p => MkCollected (<[p := add_pending path h (default TurnData_default (by_prompt c !! p))]> (by_prompt c)) (modified c) (unattributed c)
  | None => MkCollected (by_prompt c) (modified c) (S (unattributed c))
  end.
Definition collect_file (s : Actor) (c : Collected) (path : string) : Collected :=
  match file_states s !! path with
  | None => c
  | Some state =>
      let c := fold_left (collect_hunk path) (hunks state) c in
      if existsb (λ h, is_agent_edit (source h)) (hunks state)
      then MkCollected (by_prompt c) ({[path]} ∪ modified c) (unattributed c) else c
  end.

Definition turn_of (e : N * TurnData) : TurnSummary :=
  MkTurn e.1 (elements (td_files e.2)) (td_pending e.2) (td_lines_added e.2) (td_lines_removed e.2).
Definition by_turn (x y : TurnSummary) : bool := bool_decide (turn_prompt x ≤ turn_prompt y)%N.

Definition compute_session_summary (w : World) (s : Actor) : SessionSummary :=
  let c := fold_left (collect_file s) (keys_of w (file_states s)) (MkCollected ∅ ∅ 0) in
  let turns := sort_by by_turn (turn_of <$> map_to_list (by_prompt c)) in
  MkSummary (session_stats s) turns (size (modified c)) (size (modified c))
    (sum_list ((λ t, length (pending t)) <$> turns)) (sum_list (lines_added <$> turns)) (sum_list (lines_removed <$> turns))
    (unattributed c).

(** A snapshot of a file is its state. *)
Record HunkTrackerSnapshot : Type := MkSnapshot {
  snap_file_states : gmap string FileHunkState;
  snap_turn_index : gmap N (gset HunkId);
  snap_session_stats : SessionStats;
}.
Definition snapshot_file_state (st : FileHunkState) : FileHunkState :=
  MkFile (baseline st) (current_content st) (hunks st) (is_agent_file st) (baseline_accepted st).
Definition take_snapshot (s : Actor) : HunkTrackerSnapshot :=
  MkSnapshot (snapshot_file_state <$> file_states s) (turn_index s) (session_stats s).
Definition restore_snapshot (snap : HunkTrackerSnapshot) (s : Actor) : Actor :=
  set_stats (snap_session_stats snap) (set_index (snap_turn_index snap)
    (set_files (snapshot_file_state <$> snap_file_states snap) s)).

Record HunkTurnDelta : Type := MkDelta {
  delta_prompt : N;
  delta_file_states : gmap string FileHunkState;
  hunk_ids : gset HunkId;
}.
Definition take_turn_delta (prompt : N) (s : Actor) : HunkTurnDelta :=
  let ids := default ∅ (turn_index s !! prompt) in
  MkDelta prompt
    (snapshot_file_state <$> filter (λ '(_, st), existsb (λ h, bool_decide (id h ∈ ids)) (hunks st) = true) (file_states s)) ids.

Definition rewrite_single_path (path old_cwd canonical_old new_cwd : string) : option string :=
  path_join new_cwd <$>
    match path_strip_prefix canonical_old path with
    | Some rel => Some rel
    | None => path_strip_prefix old_cwd path
    end.
Definition with_path (p : string) (h : Hunk) : Hunk :=
  MkHunk (id h) p (line_info h) (source h) (old_text h) (new_text h) (patch h).
(** Files are moved in the order the map is walked; a later one wins. *)
Definition rewrite_paths (w : World) (old_cwd canonical_old_cwd new_cwd : string) (snap : HunkTrackerSnapshot) : HunkTrackerSnapshot :=
  let moved := omap (λ p, st ← snap_file_states snap !! p;
    let target := default p (rewrite_single_path p old_cwd canonical_old_cwd new_cwd) in
    Some (target, set_hunks (with_path target <$> hunks st) st)) (keys_of w (snap_file_states snap)) in
  MkSnapshot (fold_left (λ m '(p, st), <[p := st]> m) moved ∅) (snap_turn_index snap) (snap_session_stats snap).

End Queries.

(** * Commands *)

Module Export Commands.

(** The commands that do more than answer a query; replies are the outcomes. *)
Inductive HunkTrackerCommand : Type :=
| RecordAgentWrite (path content : string) (prompt : N) (previous_content : option string)
| HandleFileChange (path : string)
| HandleFileDeleted (path : string)
| RefreshGitDirtyCache
| ResetBaseline (path : string)
| SetMode (m : TrackingMode)
| HunkActionCmd (i : HunkId) (action : HunkAction)
| FileAction (path : string) (action : HunkAction)
| AllAction (action : HunkAction)
| TurnAction (prompt : N) (action : HunkAction)
| ResetStats
| RefreshAllBaselines
| RestoreState (snap : HunkTrackerSnapshot)
| Query.

Section Diffed.
Context `{LineDiff}.

Definition outcome {A} (r : World * Actor * result HunkActionError A) : World * Actor * option HunkActionError :=
  let '(w, s, r) := r in (w, s, match r with Ok _ => None | Err e => Some e end).

Definition handle_command (w : World) (cmd : HunkTrackerCommand) (s : Actor) : World * Actor * option HunkActionError :=
  match cmd with
  | RecordAgentWrite path content prompt previous => (w, record_agent_write w path content prompt previous s, None)
  | HandleFileChange path => (w, handle_file_change w path s, None)
  | HandleFileDeleted path => (w, handle_file_deleted w path s, None)
  | RefreshGitDirtyCache => (w, refresh_git_dirty_cache w None s, None)
  | ResetBaseline path => (w, reset_baseline path s, None)
  | SetMode m => (w, set_mode w m s, None)
  | HunkActionCmd i action => outcome (apply_hunk_action w i action s)
  | FileAction path action => outcome (apply_file_action w path action s)
  | AllAction action => outcome (apply_all_action w action s)
  | TurnAction prompt action => outcome (apply_turn_action w prompt action s)
  | ResetStats => (w, set_stats SessionStats_default s, None)
  | RefreshAllBaselines => (w, refresh_all_baselines w s, None)
  | RestoreState snap => (w, restore_snapshot snap s, None)
  | Query => (w, s, None)
  end.

(** ** Coalescing of queued commands *)

Inductive CoalescedPathAction : Type := Changed | Deleted | DeletedThenChanged.

Record CoalescedBatch : Type := MkBatch {
  file_actions : gmap string CoalescedPathAction;
  refresh_all : bool;
  refresh_dirty : bool;
  other_commands : list HunkTrackerCommand;
  command_count : nat;
}.
Definition CoalescedBatch_new : CoalescedBatch := MkBatch ∅ false false [] 0.

Definition add (cmd : HunkTrackerCommand) (b : CoalescedBatch) : CoalescedBatch :=
  let n := S (command_count b) in
  match cmd with
  | HandleFileChange path =>
      let a := match file_actions b !! path with
               | Some Deleted => DeletedThenChanged
               | Some a => a
               | None => Changed
               end in
      MkBatch (<[path := a]> (file_actions b)) (refresh_all b) (refresh_dirty b) (other_commands b) n
  | HandleFileDeleted path =>
      MkBatch (<[path := Deleted]> (file_actions b)) (refresh_all b) (refresh_dirty b) (other_commands b) n
  | RefreshAllBaselines => MkBatch (file_actions b) true (refresh_dirty b) (other_commands b) n
  | RefreshGitDirtyCache => MkBatch (file_actions b) (refresh_all b) true (other_commands b) n
  | cmd => MkBatch (file_actions b) (refresh_all b) (refresh_dirty b) (other_commands b ++ [cmd]) n
  end.

Definition is_coalescable (cmd : HunkTrackerCommand) : bool :=
  match cmd with
  | HandleFileChange _ | HandleFileDeleted _ | RefreshAllBaselines | RefreshGitDirtyCache => true
  | _ => false
  end.

Definition drain_and_coalesce (first : HunkTrackerCommand) (queued : list HunkTrackerCommand) : CoalescedBatch :=
  fold_left (λ b cmd, add cmd b) queued (add first CoalescedBatch_new).

Fixpoint handle_commands (w : World) (cmds : list HunkTrackerCommand) (s : Actor) : World * Actor :=
  match cmds with
  | [] => (w, s)
  | cmd :: cmds => let '(w, s, _) := handle_command w cmd s in handle_commands w cmds s
  end.

Definition action_order (w : World) (m : gmap string CoalescedPathAction) : list string := hash_order w (map_to_list m).*1.
Definition is_deleted (m : gmap string CoalescedPathAction) (p : string) : bool :=
  match m !! p with Some Deleted => true | _ => false end.

Definition handle_coalesced_batch (w : World) (b : CoalescedBatch) (s : Actor) : World * Actor :=
  let s := if refresh_dirty b && negb (refresh_all b) then refresh_git_dirty_cache w None s else s in
  let paths := action_order w (file_actions b) in
  let s :=
    if refresh_all b then
      let '(already_processed, s) :=
        fold_left (λ '(already_processed, s) p,
          if is_deleted (file_actions b) p then
            (already_processed, if contains_key p s then handle_file_deleted w p s else s)
          else if contains_key p s then (already_processed, s)
          else ({[p]} ∪ already_processed, handle_file_change w p s)) paths (∅ : gset string, s) in
      refresh_all_baselines_except w already_processed s
    else
      let s := fold_left (λ s p, handle_file_deleted w p s) (filter (λ p, is_deleted (file_actions b) p = true) paths) s in
      handle_file_changes_batch w (filter (λ p, is_deleted (file_actions b) p = false) paths) s in
  handle_commands w (other_commands b) s.

(** One turn of the main loop, with what is queued behind the command received: the
    rest of the queue is taken along only by a command that can be coalesced. *)
Definition run_once (w : World) (cmd : HunkTrackerCommand) (queued : list HunkTrackerCommand) (s : Actor) :
    World * Actor * list HunkTrackerCommand :=
  if is_coalescable cmd then (handle_coalesced_batch w (drain_and_coalesce cmd queued) s, [])
  else let '(w, s, _) := handle_command w cmd s in (w, s, queued).
Definition start (w : World) (working_dir : string) (mode : TrackingMode) : Actor :=
  let s := new working_dir mode in
  if bool_decide (mode = AllDirty) then refresh_git_dirty_cache w None s else s.

End Diffed.
End Commands.
