(* ===== verification/HunkInvariant.v ===== *)
(** The state invariant of the hunk tracker and that every command keeps it: what the
    hunks of a file are, that identifiers are unique, and what the index of turns
    knows. *)
From stdpp Require Import list gmap sets strings.
From S2P Require Import Prelude RustStr StrSearch HunkDiff HunkGeometry HunkFiles HunkTracker.

Import HunkTheorems.

Module Export TrackerInvariant.
Section Diffed.
Context `{LawfulDiff}.

Definition turn_ids (s : Actor) (k : N) : gset HunkId := default ∅ (turn_index s !! k).

(** The hunks of a file carry its path and distinct known identifiers, and are the
    difference between its two contents, unless they were cleared. *)
Record FileInv (next : HunkId) (p : string) (st : FileHunkState) : Prop := {
  fi_known : Forall (λ h, path h = p ∧ (id h < next)%N) (hunks st);
  fi_ids : NoDup (id <$> hunks st);
  fi_shape : hunks st = [] ∨ shape <$> hunks st = shape <$> fresh_hunks 0%N p (baseline st) (current_content st) External;
}.

(** An indexed identifier is an old one of that turn; every agent hunk is indexed,
    but for those in [lost]. *)
Record Inv (lost : gset HunkId) (s : Actor) : Prop := {
  inv_file p st : file_states s !! p = Some st → FileInv (next_id s) p st;
  inv_unique p q st st' h h' : file_states s !! p = Some st → file_states s !! q = Some st' →
    h ∈ hunks st → h' ∈ hunks st' → id h = id h' → p = q;
  inv_indexed k i : i ∈ turn_ids s k → (i < next_id s)%N ∧
    ∀ p st h, file_states s !! p = Some st → h ∈ hunks st → id h = i → prompt_index (source h) = Some k;
  inv_complete p st h k : file_states s !! p = Some st → h ∈ hunks st → prompt_index (source h) = Some k →
    id h ∉ lost → id h ∈ turn_ids s k;
}.

Lemma Inv_weaken lost lost' s : lost ⊆ lost' → Inv lost s → Inv lost' s.
Proof.
  intros Hsub [Hf Hu Hi Hc]. split; [done|done|done|]. intros p st h k Hp Hh Hk Hl. eapply Hc; eauto.
Qed.

(** What a handler leaves alone while it changes other parts of the state. *)
Definition same_core (s s' : Actor) : Prop :=
  file_states s' = file_states s ∧ turn_index s' = turn_index s ∧ next_id s' = next_id s.

Lemma Inv_core lost s s' : same_core s s' → Inv lost s → Inv lost s'.
Proof.
  intros (E1 & E2 & E3) [Hf Hu Hi Hc]. split; unfold turn_ids in *; rewrite ?E1, ?E2, ?E3; done.
Qed.

(** One file gets a new state. *)
Lemma Inv_update lost lost' s s' p st' :
  Inv lost s →
  file_states s' = <[p := st']> (file_states s) →
  (next_id s ≤ next_id s')%N →
  FileInv (next_id s') p st' →
  (∀ h, h ∈ hunks st' → (next_id s ≤ id h)%N ∨ ∃ st o, file_states s !! p = Some st ∧ o ∈ hunks st ∧ id o = id h) →
  (∀ k i, i ∈ turn_ids s' k → (i < next_id s')%N ∧
     ((i ∈ turn_ids s k ∧ i ∉ id <$> hunks st') ∨ ∃ h, h ∈ hunks st' ∧ id h = i ∧ prompt_index (source h) = Some k)) →
  (∀ h k, h ∈ hunks st' → prompt_index (source h) = Some k → id h ∉ lost' → id h ∈ turn_ids s' k) →
  (∀ k i, i ∈ turn_ids s k → (∀ st, file_states s !! p = Some st → i ∉ id <$> hunks st) → i ∈ turn_ids s' k) →
  (∀ i, i ∈ lost → (∀ st, file_states s !! p = Some st → i ∉ id <$> hunks st) → i ∈ lost') →
  Inv lost' s'.
Proof.
  intros HI Efs Hnext HF Hids Hidx Hcomp Hkeep Hlost. destruct HI as [Hf Hu Hi Hc].
  assert (Hother : ∀ q st h, q ≠ p → file_states s' !! q = Some st → h ∈ hunks st →
    file_states s !! q = Some st ∧ (id h < next_id s)%N ∧ ∀ st0, file_states s !! p = Some st0 → id h ∉ id <$> hunks st0).
  { intros q st h Hne Hq Hh. rewrite Efs, lookup_insert_ne in Hq by done. split; [done|].
    destruct (Hf q st Hq) as [Hk _ _]. rewrite Forall_forall in Hk. split; [by apply Hk|].
    intros st0 Hp Hin. apply list_elem_of_fmap in Hin as (o & Eo & Ho). destruct Hne. by eapply (Hu q p). }
  assert (Hself : ∀ st, file_states s' !! p = Some st → st = st').
  { intros st E. rewrite Efs, lookup_insert in E. by rewrite decide_True in E; simplify_eq. }
  assert (Hcross : ∀ q st h h', q ≠ p → file_states s' !! q = Some st → h ∈ hunks st → h' ∈ hunks st' → id h ≠ id h').
  { intros q st h h' Hne Hq Hh Hh' E. destruct (Hother q st h Hne Hq Hh) as (Hq' & Hlt & Hno).
    destruct (Hids h' Hh') as [Hge|(st0 & o & Hp & Ho & Eo)]; [lia|].
    apply (Hno st0 Hp). rewrite E, <-Eo. by apply list_elem_of_fmap_2. }
  split.
  - intros q st Hq. destruct (decide (q = p)) as [->|Hne]; [by rewrite (Hself st Hq)|].
    rewrite Efs, lookup_insert_ne in Hq by done. destruct (Hf q st Hq) as [Hk Hn Hs]. split; [|done|done].
    eapply Forall_impl; [exact Hk|]. intros h [? ?]. split; [done|lia].
  - intros q q' st st2 h h' Hq Hq' Hh Hh' E.
    destruct (decide (q = p)) as [->|Hne], (decide (q' = p)) as [->|Hne']; [done|..].
    + rewrite (Hself st Hq) in Hh. destruct (Hcross q' st2 h' h); auto.
    + rewrite (Hself st2 Hq') in Hh'. destruct (Hcross q st h h'); auto.
    + destruct (Hother q st h Hne Hq Hh) as [Hq0 _]. destruct (Hother q' st2 h' Hne' Hq' Hh') as [Hq0' _].
      by eapply (Hu q q').
  - intros k i Hki. destruct (Hidx k i Hki) as [Hlt Hcase]. split; [done|]. intros q st h Hq Hh E.
    destruct (decide (q = p)) as [->|Hne].
    + rewrite (Hself st Hq) in Hh. destruct Hcase as [[_ Hno]|(h' & Hh' & E' & Hk)].
      * destruct Hno. rewrite <-E. by apply list_elem_of_fmap_2.
      * destruct HF as [_ Hn _]. assert (h = h') as ->; [|done].
        apply list_elem_of_lookup in Hh as [a Ha]. apply list_elem_of_lookup in Hh' as [b Hb].
        assert (a = b) as ->; [|congruence]. eapply (NoDup_lookup (id <$> hunks st') a b i); [done|..];
          rewrite list_lookup_fmap; [rewrite Ha|rewrite Hb]; cbn; congruence.
    + destruct Hcase as [[Hin _]|(h' & Hh' & E' & Hk)].
      * destruct (Hother q st h Hne Hq Hh) as [Hq0 _]. destruct (Hi k i Hin) as [_ Hall]. by eapply Hall.
      * destruct (Hcross q st h h'); auto. congruence.
  - intros q st h k Hq Hh Hk Hl. destruct (decide (q = p)) as [->|Hne].
    + rewrite (Hself st Hq) in Hh. by apply Hcomp.
    + destruct (Hother q st h Hne Hq Hh) as (Hq0 & _ & Hno). apply Hkeep; [|done].
      eapply Hc; eauto.
Qed.

(** One file is no longer tracked. *)
Lemma Inv_delete lost s s' p :
  Inv lost s → file_states s' = delete p (file_states s) → next_id s' = next_id s →
  (∀ k, turn_ids s' k ⊆ turn_ids s k) →
  (∀ k i, i ∈ turn_ids s k → (∀ st, file_states s !! p = Some st → i ∉ id <$> hunks st) → i ∈ turn_ids s' k) →
  Inv lost s'.
Proof.
  intros [Hf Hu Hi Hc] Efs En Hsub Hkeep.
  assert (Hold : ∀ q st, file_states s' !! q = Some st → q ≠ p ∧ file_states s !! q = Some st).
  { intros q st. rewrite Efs, lookup_delete_Some. intros [??]. done. }
  split.
  - intros q st [_ Hq]%Hold. rewrite En. by apply Hf.
  - intros q q' st st' h h' [_ Hq]%Hold [_ Hq']%Hold. by eapply Hu.
  - intros k i Hki. rewrite En. apply Hsub in Hki. destruct (Hi k i Hki) as [Hlt Hall]. split; [done|].
    intros q st h [_ Hq]%Hold. by apply (Hall q st h).
  - intros q st h k [Hne Hq]%Hold Hh Hk Hl. apply Hkeep; [by eapply Hc|].
    intros st0 Hp Hin. apply list_elem_of_fmap in Hin as (o & Eo & Ho). destruct Hne. by eapply (Hu q p).
Qed.

(** ** The index of turns *)

Definition index_ids (ti : gmap N (gset HunkId)) (k : N) : gset HunkId := default ∅ (ti !! k).

Lemma elem_of_unindex i j src ti k :
  i ∈ index_ids (unindex j src ti) k ↔ i ∈ index_ids ti k ∧ ¬ (i = j ∧ prompt_index src = Some k).
Proof.
  unfold unindex, index_ids. destruct (prompt_index src) as [p|]; [|set_solver].
  destruct (ti !! p) as [ids|] eqn:E.
  - destruct (decide (k = p)) as [->|Hne].
    + rewrite lookup_insert, decide_True, E by done. cbn. set_solver.
    + rewrite lookup_insert_ne by done. split; [intros Hi; split; [done|intros [_ ?]; congruence]|by intros [? _]].
  - split; [|by intros [? _]]. intros Hi. split; [done|]. intros [_ [= ->]]. rewrite E in Hi. cbn in Hi. set_solver.
Qed.

Lemma elem_of_reindex i h ti k :
  i ∈ index_ids (reindex h ti) k ↔ i ∈ index_ids ti k ∨ (i = id h ∧ prompt_index (source h) = Some k).
Proof.
  unfold reindex, index_ids. destruct (prompt_index (source h)) as [p|]; [|set_solver].
  destruct (decide (k = p)) as [->|Hne].
  - rewrite lookup_insert, decide_True by done. cbn. set_solver.
  - rewrite lookup_insert_ne by done. split; [by left|]. intros [?|[_ ?]]; [done|congruence].
Qed.

Lemma elem_of_unindex_all i hs : ∀ ti k, i ∈ index_ids (unindex_all hs ti) k ↔
  i ∈ index_ids ti k ∧ ¬ (∃ h, h ∈ hs ∧ id h = i ∧ prompt_index (source h) = Some k).
Proof.
  unfold unindex_all. induction hs as [|h hs IH]; intros ti k; cbn [fold_left].
  - split; [|by intros [? _]]. intros Hi. split; [done|]. intros (h & Hh & _). by apply not_elem_of_nil in Hh.
  - rewrite IH, elem_of_unindex. split.
    + intros [[H1 H2] H3]. split; [done|]. intros (h' & [->|Hh']%elem_of_cons & E & Hk); [apply H2; auto|].
      apply H3. eauto.
    + intros [H1 H2]. split_and!; [done|..].
      * intros [-> Hk]. apply H2. exists h. split_and!; [by left|done|done].
      * intros (h' & Hh' & E & Hk). apply H2. exists h'. split_and!; [by right|done|done].
Qed.

Lemma elem_of_reindex_all i hs : ∀ ti k, i ∈ index_ids (reindex_all hs ti) k ↔
  i ∈ index_ids ti k ∨ ∃ h, h ∈ hs ∧ id h = i ∧ prompt_index (source h) = Some k.
Proof.
  unfold reindex_all. induction hs as [|h hs IH]; intros ti k; cbn [fold_left].
  - split; [by left|]. intros [?|(h & Hh & _)]; [done|]. by apply not_elem_of_nil in Hh.
  - rewrite IH, elem_of_reindex. split.
    + intros [[?|[-> ?]]|(h' & Hh' & ?)]; [by left|right; exists h; split_and!; [by left|done..]|].
      right. exists h'. split; [by right|done].
    + intros [?|(h' & [->|Hh']%elem_of_cons & <- & ?)]; [auto|auto|right; eauto].
Qed.

(** ** The hunks of a recomputation *)

Lemma fresh_hunks_ids next p b c src :
  Forall (λ h, path h = p ∧ (next ≤ id h < next + N.of_nat (length (fresh_hunks next p b c src)))%N)
    (fresh_hunks next p b c src) ∧ NoDup (id <$> fresh_hunks next p b c src).
Proof.
  assert (Hnil : Forall (λ h : Hunk, path h = p ∧ (next ≤ id h < next + N.of_nat (length (@nil Hunk)))%N) [] ∧ NoDup (id <$> ([] : list Hunk)))
    by (split; constructor).
  assert (Hone : ∀ h, path h = p → id h = next →
    Forall (λ h, path h = p ∧ (next ≤ id h < next + N.of_nat (length [h]))%N) [h] ∧ NoDup (id <$> [h])).
  { intros h Hp Hi. split; [repeat constructor; [done|lia|cbn; lia]|]. cbn. apply NoDup_singleton. }
  destruct b as [| | | | |b], c as [| | | | |c]; cbn [fresh_hunks]; try exact Hnil;
    try (destruct (is_empty _); [exact Hnil|by apply Hone]).
  destruct (compute_hunks_cases next p b c src) as [E|E]; rewrite E; [exact Hnil|].
  generalize (builders 1 1 None (diff_lines b c)). intros bs. split.
  - apply Forall_forall. intros h Hh. apply elem_of_lookup_imap in Hh as (i & bd & -> & Hi). cbn. rewrite length_imap.
    apply lookup_lt_Some in Hi. split; [done|lia].
  - rewrite fmap_imap. apply NoDup_alt. intros i j x Hi Hj.
    rewrite list_lookup_imap, fmap_Some in Hi, Hj. destruct Hi as (? & _ & ->), Hj as (? & _ & Ej). cbn in Ej. lia.
Qed.

Lemma imap_build_shapes next p src bs :
  shape <$> imap (λ i bd, build (next + N.of_nat i)%N p src bd) bs = b_shape <$> bs.
Proof.
  revert next. induction bs as [|bd bs IH]; intros next; [done|]. rewrite imap_cons, !fmap_cons. f_equal.
  rewrite <-(IH (next + 1)%N). f_equal. apply imap_ext. intros i x _. cbn. f_equal. lia.
Qed.

Lemma fresh_hunks_shape next p b c src next' src' :
  shape <$> fresh_hunks next p b c src = shape <$> fresh_hunks next' p b c src'.
Proof.
  destruct b as [| | | | |b], c as [| | | | |c]; cbn [fresh_hunks]; try done; try by destruct (is_empty _).
  unfold compute_hunks. case_bool_decide; [done|]. destruct (_ || _); [done|]. destruct (timed_out b c); [done|].
  by rewrite !imap_build_shapes.
Qed.

Lemma fold_best_elem {A} (f : A → A → bool) l x :
  fold_left (λ best y, if f best y then y else best) l x ∈ x :: l.
Proof.
  revert x. induction l as [|y l IH]; intros x; cbn; [by left|]. specialize (IH (if f x y then y else x)).
  apply elem_of_cons in IH as [->|IH]; [destruct (f x y); [right; left|left]|right; by right].
Qed.

Lemma find_matching_elem h olds best : find_matching_old_hunk h olds = Some best → best ∈ olds.
Proof.
  unfold find_matching_old_hunk. destruct (filter _ olds) as [|o os] eqn:E.
  - unfold max_by_key. destruct (filter _ olds) as [|o os] eqn:E' in |- *; [done|]. intros [= <-].
    eapply (list_elem_of_filter _ _ _). rewrite E'. apply fold_best_elem.
  - unfold min_by_key. intros [= <-]. eapply (list_elem_of_filter _ _ _). rewrite E. apply fold_best_elem.
Qed.

Lemma preserve_ids_shape olds claimed news : shape <$> preserve_ids olds claimed news = shape <$> news.
Proof.
  revert claimed. induction news as [|h news IH]; intros claimed; cbn [preserve_ids]; [done|].
  destruct (find_matching_old_hunk h olds) as [best|]; [case_bool_decide|]; rewrite !fmap_cons, IH; done.
Qed.

Lemma preserve_ids_spec olds news next top : ∀ claimed,
  Forall (λ o, (id o < next)%N) olds →
  Forall (λ h, (next ≤ id h < top)%N) news → NoDup (id <$> news) →
  NoDup (id <$> preserve_ids olds claimed news) ∧
  Forall (λ h, (id h ∈ id <$> news ∧ (next ≤ id h < top)%N) ∨ (∃ o, o ∈ olds ∧ id o = id h ∧ id h ∉ claimed)) (preserve_ids olds claimed news).
Proof.
  induction news as [|h news IH]; intros claimed Ho Hn Hnd; cbn [preserve_ids]; [split; constructor|].
  apply Forall_cons in Hn as [Hh Hn]. apply NoDup_cons in Hnd as [Hno Hnd]. rewrite Forall_forall in Ho.
  assert (Hkeep : ∀ claimed', NoDup (id <$> preserve_ids olds claimed' news) →
    Forall (λ h, (id h ∈ id <$> news ∧ (next ≤ id h < top)%N) ∨ (∃ o, o ∈ olds ∧ id o = id h ∧ id h ∉ claimed')) (preserve_ids olds claimed' news) →
    NoDup (id <$> h :: preserve_ids olds claimed' news)).
  { intros claimed' H1 H2. rewrite fmap_cons. constructor; [|done]. intros Hin.
    apply list_elem_of_fmap in Hin as (x & Ex & Hx). rewrite Forall_forall in H2.
    destruct (H2 x Hx) as [[Hin _]|(o & Hol & Eo & _)]; [by rewrite <-Ex in Hin|]. specialize (Ho o Hol). cbn in Ho. lia. }
  assert (Hweak : ∀ claimed', claimed ⊆ claimed' →
    Forall (λ h, (id h ∈ id <$> news ∧ (next ≤ id h < top)%N) ∨ (∃ o, o ∈ olds ∧ id o = id h ∧ id h ∉ claimed')) (preserve_ids olds claimed' news) →
    Forall (λ x, (id x ∈ id <$> h :: news ∧ (next ≤ id x < top)%N) ∨ (∃ o, o ∈ olds ∧ id o = id x ∧ id x ∉ claimed)) (preserve_ids olds claimed' news)).
  { intros claimed' Hsub H2. eapply Forall_impl; [exact H2|]. intros x [[Hin ?]|(o & ? & ? & ?)]; [left; split; [by right|done]|].
    right. exists o. split_and!; auto. }
  assert (Hself : ((id h ∈ id <$> h :: news ∧ (next ≤ id h < top)%N) ∨ (∃ o, o ∈ olds ∧ id o = id h ∧ id h ∉ claimed)))
    by (left; split; [by left|done]).
  destruct (find_matching_old_hunk h olds) as [best|] eqn:Eb; [case_bool_decide as Hc|].
  - destruct (IH claimed) as [H1 H2]; [by rewrite Forall_forall|done|done|]. split; [by apply Hkeep|by constructor; [|apply Hweak]].
  - apply find_matching_elem in Eb.
    destruct (IH ({[id best]} ∪ claimed)) as [H1 H2]; [by rewrite Forall_forall|done|done|]. split.
    + rewrite fmap_cons. constructor; [|done]. cbn. intros Hin. apply list_elem_of_fmap in Hin as (x & Ex & Hx).
      rewrite Forall_forall in H2. destruct (H2 x Hx) as [[Hin [Hge _]]|(o & _ & _ & Hcl)]; [|set_solver].
      specialize (Ho best Eb). cbn in Ho. lia.
    + constructor; [right; exists best; by split_and!|]. apply Hweak; [set_solver|done].
  - destruct (IH claimed) as [H1 H2]; [by rewrite Forall_forall|done|done|]. split; [by apply Hkeep|by constructor; [|apply Hweak]].
Qed.

Lemma preserve_ids_path olds claimed news p : Forall (λ h, path h = p) news → Forall (λ h, path h = p) (preserve_ids olds claimed news).
Proof.
  intros Hp. revert claimed. induction Hp as [|h news Hh _ IH]; intros claimed; cbn [preserve_ids]; [constructor|].
  destruct (find_matching_old_hunk h olds); [case_bool_decide|]; by constructor.
Qed.

(** ** Recomputing keeps the invariant *)

Definition old_hunks_of (s : Actor) (p : string) : list Hunk := default [] (hunks <$> file_states s !! p).

Lemma old_hunks_known lost s p o : Inv lost s → o ∈ old_hunks_of s p →
  (id o < next_id s)%N ∧ path o = p ∧ ∃ st, file_states s !! p = Some st ∧ o ∈ hunks st.
Proof.
  intros HI. unfold old_hunks_of. destruct (file_states s !! p) as [st|] eqn:E; cbn; [|by intros ?%not_elem_of_nil].
  intros Ho. destruct (inv_file lost s HI p st E) as [Hk _ _]. rewrite Forall_forall in Hk.
  destruct (Hk o Ho). split_and!; eauto.
Qed.

(** From a state that is as [s] but for the file itself, whose hunks are some of the
    old ones: a recomputation ends in the invariant, with every hunk of the file
    indexed again. *)
Lemma recompute_from lost lost' s s1 p st1 c src :
  Inv lost s →
  file_states s1 = <[p := st1]> (file_states s) → turn_index s1 = turn_index s → next_id s1 = next_id s →
  (∀ o, o ∈ hunks st1 → o ∈ old_hunks_of s p) →
  (∀ i, i ∈ lost → i ∉ id <$> old_hunks_of s p → i ∈ lost') →
  Inv lost' (recompute_hunks p c src s1).
Proof.
  intros HI Efs Eti En Hsub Hlost. unfold recompute_hunks. rewrite Efs, lookup_insert, decide_True by done.
  set (cur := default missing_content c).
  set (fresh := fresh_hunks (next_id s1) p (baseline st1) cur src).
  destruct (fresh_hunks_ids (next_id s1) p (baseline st1) cur src) as [Hfr Hfn]. fold fresh in Hfr, Hfn.
  set (new_hunks := preserve_ids (hunks st1) ∅ fresh).
  assert (Hold : ∀ o, o ∈ hunks st1 → (id o < next_id s)%N ∧ ∃ st, file_states s !! p = Some st ∧ o ∈ hunks st).
  { intros o Ho. apply Hsub in Ho. destruct (old_hunks_known _ _ _ _ HI Ho) as (? & _ & ?). done. }
  destruct (preserve_ids_spec (hunks st1) fresh (next_id s1) (next_id s1 + N.of_nat (length fresh)) ∅) as [Hnd Hids].
  { apply Forall_forall. intros o Ho. rewrite En. by apply Hold. }
  { eapply Forall_impl; [exact Hfr|]. by intros h [_ ?]. }
  { done. }
  fold new_hunks in Hnd, Hids. rewrite Forall_forall in Hids.
  assert (Hsrc : ∀ h, h ∈ new_hunks → (next_id s ≤ id h)%N ∨ ∃ st o, file_states s !! p = Some st ∧ o ∈ hunks st ∧ o ∈ hunks st1 ∧ id o = id h).
  { intros h Hh. destruct (Hids h Hh) as [[_ [Hge _]]|(o & Ho & Eo & _)]; [left; lia|].
    right. destruct (Hold o Ho) as (_ & st & Hst & Hos). eauto 10. }
  assert (Hlt : ∀ h, h ∈ new_hunks → (id h < next_id s1 + N.of_nat (length fresh))%N).
  { intros h Hh. destruct (Hids h Hh) as [[_ [_ Hl]]|(o & Ho & Eo & _)]; [done|]. destruct (Hold o Ho). lia. }
  eapply (Inv_update lost lost' s _ p); cbn [file_states next_id send_events set_index insert_file set_files set_next hunks set_hunks set_current].
  - done.
  - by rewrite Efs, insert_insert, decide_True by done.
  - lia.
  - split; cbn.
    + apply Forall_forall. intros h Hh. split; [|by apply Hlt].
      pose proof (preserve_ids_path (hunks st1) ∅ fresh p) as Hp. rewrite !Forall_forall in Hp. apply Hp; [|done].
      intros x Hx. rewrite Forall_forall in Hfr. by destruct (Hfr x Hx).
    + done.
    + right. unfold new_hunks. rewrite preserve_ids_shape. unfold fresh. apply fresh_hunks_shape.
  - intros h Hh. destruct (Hsrc h Hh) as [?|(st & o & ? & ? & _ & ?)]; [by left|right; eauto].
  - intros k i Hki. change (turn_ids _ k) with (index_ids (reindex_all new_hunks (unindex_all (hunks st1) (turn_index s1))) k) in Hki.
    rewrite elem_of_reindex_all, elem_of_unindex_all, Eti in Hki.
    destruct Hki as [[Hki Hno]|(h & Hh & E & Hk)].
    + destruct (inv_indexed lost s HI k i Hki) as [Hil Hall]. split; [lia|]. left. split; [done|]. intros Hin.
      apply list_elem_of_fmap in Hin as (h & -> & Hh). destruct (Hsrc h Hh) as [?|(st & o & Hst & Ho & Ho1 & Eo)]; [lia|].
      apply Hno. exists o. split_and!; [done|done|]. by apply (Hall p st o).
    + split; [rewrite <-E; by apply Hlt|]. right. eauto.
  - intros h k Hh Hk _. change (turn_ids _ k) with (index_ids (reindex_all new_hunks (unindex_all (hunks st1) (turn_index s1))) k).
    rewrite elem_of_reindex_all. right. eauto.
  - intros k i Hki Hno. change (turn_ids _ k) with (index_ids (reindex_all new_hunks (unindex_all (hunks st1) (turn_index s1))) k).
    rewrite elem_of_reindex_all, elem_of_unindex_all, Eti. left. split; [done|]. intros (o & Ho & Eo & _).
    destruct (Hold o Ho) as (_ & st & Hst & Hos). apply (Hno st Hst). rewrite <-Eo. by apply list_elem_of_fmap_2.
  - intros i Hi Hno. apply Hlost; [done|]. unfold old_hunks_of. destruct (file_states s !! p) as [st|] eqn:E; cbn; [|by intros ?%not_elem_of_nil].
    by apply Hno.
Qed.

(** One file put into a state without hunks, or whose hunks go away with their index
    entries. *)
Lemma insert_hunkless lost lost' s s' p st' :
  Inv lost s → file_states s' = <[p := st']> (file_states s) → next_id s' = next_id s → hunks st' = [] →
  (∀ k, turn_ids s' k ⊆ turn_ids s k) →
  (∀ k i, i ∈ turn_ids s k → i ∉ id <$> old_hunks_of s p → i ∈ turn_ids s' k) →
  (∀ i, i ∈ lost → i ∉ id <$> old_hunks_of s p → i ∈ lost') →
  Inv lost' s'.
Proof.
  intros HI Efs En Hh Hsub Hkeep Hlost. eapply (Inv_update lost lost' s s' p st'); rewrite ?Hh; try done.
  - by rewrite En.
  - split; rewrite Hh; [constructor|constructor|by left].
  - intros h Hin. by apply not_elem_of_nil in Hin.
  - intros k i Hki. rewrite En. apply Hsub in Hki. split; [by apply (inv_indexed lost s HI k i)|]. left.
    split; [done|]. apply not_elem_of_nil.
  - intros h k Hin. by apply not_elem_of_nil in Hin.
  - intros k i Hki Hno. apply Hkeep; [done|]. unfold old_hunks_of.
    destruct (file_states s !! p) as [st|] eqn:E; cbn; [by apply Hno|by apply not_elem_of_nil].
  - intros i Hi Hno. apply Hlost; [done|]. unfold old_hunks_of.
    destruct (file_states s !! p) as [st|] eqn:E; cbn; [by apply Hno|by apply not_elem_of_nil].
Qed.

Lemma recompute_keeps lost s p c src : Inv lost s → Inv lost (recompute_hunks p c src s).
Proof.
  intros HI. destruct (file_states s !! p) as [st|] eqn:E; [|unfold recompute_hunks; by rewrite E].
  eapply (recompute_from lost lost s s p st); [done| |done|done| |done].
  - by rewrite insert_id.
  - intros o Ho. unfold old_hunks_of. by rewrite E.
Qed.

(** ** Every handler keeps it *)

Lemma core_events es s : same_core s (send_events es s).
Proof. done. Qed.
Lemma core_repo {A} w (d : A) r s : same_core s (with_repo w d r s).2.
Proof.
  unfold with_repo. destruct (git_repo_state s); [|done|];
    (destruct (open_or_discover _ _ _) as [[[? ?] [[? ?]|]]|]; done).
Qed.
Lemma core_trans s1 s2 s3 : same_core s1 s2 → same_core s2 s3 → same_core s1 s3.
Proof. unfold same_core. intros (E1 & E2 & E3) (-> & -> & ->). done. Qed.
Lemma core_refl s : same_core s s.
Proof. done. Qed.

Lemma core_baseline w p s : same_core s (read_baseline w p s).2.
Proof. apply core_repo. Qed.
Lemma core_take w pre p s : same_core s (take_baseline w pre p s).2.
Proof. unfold take_baseline. destruct pre; [done|apply core_baseline]. Qed.
Lemma core_batch w ps s : same_core s (read_baselines_batch w ps s).2.
Proof. unfold read_baselines_batch. destruct (_ || _); [done|apply core_repo]. Qed.

Lemma old_hunks_core s s' p : same_core s s' → old_hunks_of s' p = old_hunks_of s p.
Proof. intros (E & _). unfold old_hunks_of. by rewrite E. Qed.

(** A file without hunks put in, with the index as it was. *)
Lemma put_hunkless lost s p st es : Inv lost s → hunks st = [] → Inv lost (send_events es (insert_file p st s)).
Proof. intros HI Hh. by eapply insert_hunkless. Qed.
Lemma put_hunkless' lost s p st : Inv lost s → hunks st = [] → Inv lost (insert_file p st s).
Proof. intros HI Hh. by eapply insert_hunkless. Qed.

(** A file put in with its hunks as they were, and recomputed. *)
Lemma recompute_put lost s p st st1 c src : Inv lost s → file_states s !! p = Some st → hunks st1 = hunks st →
  Inv lost (recompute_hunks p c src (insert_file p st1 s)).
Proof.
  intros HI E Hh. eapply (recompute_from lost lost s _ p st1); try done.
  intros o Ho. unfold old_hunks_of. rewrite E. cbn. by rewrite <-Hh.
Qed.

Ltac use_core L :=
  match goal with
  | HI : Inv ?lost ?s |- _ => let HC := fresh "HC" in pose proof L as HC; cbn in HC; apply (Inv_core lost) in HC; [|exact HI]
  end.

Lemma record_agent_write_keeps lost w p content k prev s :
  Inv lost s → Inv lost (record_agent_write w p content k prev s).
Proof.
  intros HI. unfold record_agent_write. destruct (negb _).
  - destruct (file_states s !! p) as [st|] eqn:E; [by apply put_hunkless'|].
    destruct prev as [b|]; [by apply put_hunkless|].
    use_core (core_baseline w p s). destruct (read_baseline w p s) as [b s']. by apply put_hunkless.
  - destruct (file_states s !! p) as [st|] eqn:E; [by eapply recompute_put|].
    use_core (core_baseline w p s). destruct (read_baseline w p s) as [b s'].
    by apply recompute_keeps, put_hunkless.
Qed.

Lemma process_file_change_keeps lost w p pre s : Inv lost s → Inv lost (process_file_change w p pre s).
Proof.
  intros HI. unfold process_file_change. destruct (_ && negb _); [done|]. destruct (_ && negb _).
  { destruct (bool_decide _).
    - use_core (core_take w pre p s). destruct (take_baseline w pre p s) as [b s']. destruct (is_ignored _ _ _ _); [done|].
      destruct (is_diffable b); [by apply recompute_keeps, put_hunkless|by apply put_hunkless].
    - destruct (is_ignored _ _ _ _); [done|]. by apply put_hunkless. }
  destruct (negb _).
  { use_core (core_take w pre p s). destruct (take_baseline w pre p s) as [b s']. destruct (is_ignored _ _ _ _); [done|].
    by apply recompute_keeps, put_hunkless. }
  destruct (default false _); [|by apply recompute_keeps].
  use_core (core_take w pre p s). destruct (take_baseline w pre p s) as [b s'].
  destruct (matches_head _ _ _ _); [|by apply recompute_keeps].
  destruct (file_states s' !! p); [by apply put_hunkless'|done].
Qed.

Lemma handle_file_changes_batch_keeps lost w ps s : Inv lost s → Inv lost (handle_file_changes_batch w ps s).
Proof.
  intros HI. unfold handle_file_changes_batch. destruct ps as [|p0 ps0]; [done|]. set (ps := p0 :: ps0).
  assert (Hfold : ∀ l bs t, Inv lost t → Inv lost
    (fold_left (λ '(bs, s) p, (delete p bs, process_file_change w p (bs !! p) s)) l (bs : gmap string FileContentState, t)).2).
  { induction l as [|p l IH]; intros bs t Ht; [done|]. cbn. by apply IH, process_file_change_keeps. }
  destruct (filter _ ps); [by apply Hfold|].
  use_core (core_batch w (s0 :: l) s). destruct (read_baselines_batch w (s0 :: l) s) as [bs s']. by apply Hfold.
Qed.

Lemma handle_file_deleted_keeps lost w p s : Inv lost s → Inv lost (handle_file_deleted w p s).
Proof.
  intros HI. unfold handle_file_deleted. destruct (negb _).
  - destruct (bool_decide _); [done|]. destruct (exists_ w p); [done|].
    use_core (core_baseline w p s). destruct (read_baseline w p s) as [b s']. destruct (bool_decide _); [done|].
    by apply recompute_keeps, put_hunkless.
  - destruct (exists_ w p); [by apply process_file_change_keeps|by apply recompute_keeps].
Qed.

(** The hunks of a file dropped from the index. *)
Lemma unindex_all_ids s hs k : turn_ids (set_index (unindex_all hs (turn_index s)) s) k ⊆ turn_ids s k ∧
  ∀ i, i ∈ turn_ids s k → i ∉ id <$> hs → i ∈ turn_ids (set_index (unindex_all hs (turn_index s)) s) k.
Proof.
  split.
  - intros i. change (turn_ids (set_index ?t s) k) with (index_ids t k). rewrite elem_of_unindex_all. by intros [? _].
  - intros i Hi Hno. change (turn_ids (set_index ?t s) k) with (index_ids t k). rewrite elem_of_unindex_all.
    split; [done|]. intros (h & Hh & <- & _). by apply Hno, list_elem_of_fmap_2.
Qed.

Lemma clear_file_keeps lost s p st st1 es : Inv lost s → file_states s !! p = Some st → hunks st1 = [] →
  Inv lost (send_events es (drop_hunks p (hunks st) (insert_file p st1 s))).
Proof.
  intros HI E Hh. eapply (insert_hunkless lost lost s _ p st1 HI); [done|done|done|..|done].
  - intros k. apply (unindex_all_ids s (hunks st) k).
  - intros k i Hi Hno. apply (unindex_all_ids s (hunks st) k); [done|]. unfold old_hunks_of in Hno. by rewrite E in Hno.
Qed.
Lemma drop_file_keeps lost s p st es : Inv lost s → file_states s !! p = Some st →
  Inv lost (send_events es (drop_hunks p (hunks st) (set_files (delete p (file_states s)) s))).
Proof.
  intros HI E. eapply (Inv_delete lost s _ p HI); [done|done|..].
  - intros k. apply (unindex_all_ids s (hunks st) k).
  - intros k i Hi Hno. apply (unindex_all_ids s (hunks st) k); [done|]. by apply Hno.
Qed.

Lemma reset_baseline_keeps lost p s : Inv lost s → Inv lost (reset_baseline p s).
Proof.
  intros HI. unfold reset_baseline. destruct (file_states s !! p) as [st|] eqn:E; [|done]. by apply clear_file_keeps.
Qed.

Lemma fold_keeps {A} (f : Actor → A → Actor) lost l s :
  (∀ s a, Inv lost s → Inv lost (f s a)) → Inv lost s → Inv lost (fold_left f l s).
Proof. intros Hf. revert s. induction l as [|a l IH]; intros s HI; [done|]. cbn. auto. Qed.

Lemma refresh_git_dirty_cache_keeps lost w scope s : Inv lost s → Inv lost (refresh_git_dirty_cache w scope s).
Proof.
  intros HI. unfold refresh_git_dirty_cache.
  assert (Hgo : Inv lost (let '((dirty, staged), s) := with_repo w (∅, ∅) (read_status w scope) s in
      let paths_to_track := filter (λ rel, contains_key (path_join (working_dir s) rel) s = false) (hash_order w (elements dirty)) in
      let s := set_caches dirty staged s in
      if bool_decide (mode s = AllDirty) then
        fold_left (λ s rel, handle_file_change w (path_join (working_dir s) rel) s) paths_to_track s
      else s)).
  { use_core (core_repo w (∅, ∅) (read_status w scope) s). destruct (with_repo _ _ _ s) as [[dirty staged] s'].
    cbv zeta. destruct (bool_decide _); [|by apply (Inv_core lost s')].
    apply fold_keeps; [intros; by apply process_file_change_keeps|by apply (Inv_core lost s')]. }
  by destruct (git_repo_state s).
Qed.

Lemma refresh_file_keeps lost w bs p s : Inv lost s → Inv lost (refresh_file w bs p s).
Proof.
  intros HI. unfold refresh_file. destruct (file_states s !! p) as [st|] eqn:E; [|done]. cbv zeta.
  destruct (is_clean _ _ _ _ _).
  - destruct (negb _); [by apply (drop_file_keeps lost s p st)|by apply (clear_file_keeps lost s p st)].
  - eapply Inv_core; [apply core_events|]. by eapply recompute_put.
Qed.

Lemma refresh_all_keeps lost w skip s : Inv lost s → Inv lost (refresh_all_baselines_except w skip s).
Proof.
  intros HI. unfold refresh_all_baselines_except. destruct (_ && _); [done|].
  use_core (core_repo w None (λ repo _, Some (MkSync (repo_head_oid (repo_at w repo)) (repo_index_mtime (repo_at w repo)))) s).
  fold (read_repo_sync_state w s) in HC. destruct (read_repo_sync_state w s) as [sync s']. cbn in HC.
  destruct (bool_decide _); [done|].
  assert (H1 : Inv lost (match sync with Some r => set_sync r s' | None => s' end)) by (destruct sync; [by apply (Inv_core lost s')|done]).
  revert H1. generalize (match sync with Some r => set_sync r s' | None => s' end). clear HI HC s s'. intros s HI.
  set (s1 := match mode s with AllDirty => _ | AgentOnly => _ end).
  assert (HI1 : Inv lost s1).
  { unfold s1. destruct (mode s); [|by apply refresh_git_dirty_cache_keeps].
    destruct (omap _ _); [by apply (Inv_core lost s)|by apply refresh_git_dirty_cache_keeps]. }
  clearbody s1. clear HI. cbv zeta. destruct (filter _ _) as [|q qs]; [done|].
  use_core (core_batch w (q :: qs) s1). destruct (read_baselines_batch w (q :: qs) s1) as [bs s2].
  apply fold_keeps; [intros; by apply refresh_file_keeps|done].
Qed.

Lemma set_mode_keeps lost w m s : Inv lost s → Inv lost (set_mode w m s).
Proof.
  intros HI. unfold set_mode. cbv zeta. assert (HI' : Inv lost (put_mode m s)) by by apply (Inv_core lost s).
  destruct (mode s), m; [done|by apply refresh_git_dirty_cache_keeps| |done].
  apply fold_keeps; [|done]. intros s0 p H1. destruct (file_states s0 !! p) as [st|] eqn:E; [|done].
  by apply (drop_file_keeps lost s0 p st).
Qed.

(** ** Actions *)

Definition ids_of (hs : list Hunk) : gset HunkId := list_to_set (id <$> hs).

Lemma account_keeps lost a h s : Inv lost s → Inv (lost ∪ {[id h]}) (account a h s).
Proof.
  intros [Hf Hu Hi Hc]. unfold account, remove_from_turn_index, update_session_stats, set_stats, set_index.
  split; cbn [file_states next_id]; [done|done|..].
  - intros k i. unfold turn_ids. cbn [turn_index]. change (default ∅ (?t !! k)) with (index_ids t k).
    rewrite elem_of_unindex. intros [Hki _]. by apply Hi.
  - intros p st h' k Hp Hh' Hk Hl. unfold turn_ids. cbn [turn_index]. change (default ∅ (?t !! k)) with (index_ids t k).
    rewrite elem_of_unindex. split; [eapply Hc; eauto; set_solver|]. intros [E _]. set_solver.
Qed.

Lemma account_all_keeps lost a hs s : Inv lost s → Inv (lost ∪ ids_of hs) (fold_left (λ s h, account a h s) hs s).
Proof.
  revert lost s. induction hs as [|h hs IH]; intros lost s HI; cbn [fold_left].
  - eapply Inv_weaken; [|exact HI]. set_solver.
  - eapply Inv_weaken; [|apply IH, account_keeps, HI]. unfold ids_of. set_solver.
Qed.

Lemma account_files a hs s : file_states (fold_left (λ s h, account a h s) hs s) = file_states s.
Proof. revert s. induction hs as [|h hs IH]; intros s; [done|]. cbn [fold_left]. by rewrite IH. Qed.

(** Where there are hunks, the contents can be patched; a created or deleted file has
    one hunk. *)
Lemma hunks_patchable next p st : FileInv next p st → hunks st ≠ [] →
  (∃ b c, baseline st = Full b ∧ current_content st = Full c) ∨
  ((∃ b, baseline st = Full b ∧ b ≠ "" ∧ current_content st = Missing) ∨
   (∃ c, baseline st = Missing ∧ current_content st = Full c ∧ c ≠ "")) ∧ length (hunks st) = 1.
Proof.
  intros [_ _ [E|E]] Hne; [done|].
  assert (El : length (hunks st) = length (fresh_hunks 0%N p (baseline st) (current_content st) External)).
  { rewrite <-(length_fmap shape (hunks st)), E. by rewrite length_fmap. }
  destruct (baseline st) as [| | | | |b], (current_content st) as [| | | | |c]; cbn [fresh_hunks] in *;
    try (destruct (hunks st); done).
  - right. destruct c; [by destruct (hunks st)|]. split; [right; eauto|done].
  - right. destruct b; [by destruct (hunks st)|]. split; [left; eauto|done].
  - left. eauto.
Qed.

(** A single action is the batch of one hunk. *)
Lemma accept_hunk_batch p h s : accept_hunk p h s = accept_hunks_batch p [h] s.
Proof.
  unfold accept_hunk, accept_hunks_batch. destruct (file_states s !! p) as [st|]; [|done]. by destruct (baseline st).
Qed.
Lemma reject_hunk_batch w p h s : reject_hunk w p h s = reject_hunks_batch w p [h] s.
Proof.
  unfold reject_hunk, reject_hunks_batch, reject_action. destruct (file_states s !! p) as [st|]; [|done].
  destruct (current_content st), (baseline st); done.
Qed.

Lemma without_elem hs st h : h ∈ hunks (without hs st) → h ∈ hunks st.
Proof. cbn. by intros [_ ?]%list_elem_of_filter. Qed.

Lemma without_single hs st : hs ≠ [] → (∀ h, h ∈ hs → h ∈ hunks st) → length (hunks st) = 1 → hunks (without hs st) = [].
Proof.
  intros Hne Hsub Hlen. destruct (hunks st) as [|x [|]] eqn:E; try done. destruct hs as [|h hs]; [done|].
  assert (h = x) as -> by (apply list_elem_of_singleton, Hsub; by left).
  cbn [hunks without set_hunks]. rewrite E, filter_cons_False, filter_nil; [done|]. intros Hno. apply Hno. by left.
Qed.

Lemma accept_batch_eq p hs s st : hs ≠ [] → file_states s !! p = Some st → accept_hunks_batch p hs s =
  match baseline st with
  | Missing => send_events (removed_events p Accepted hs ++ [BaselineUpdated p])
      (insert_file p (without hs (set_accepted true (set_baseline (current_content st) st))) s)
  | b =>
      let b := match b with Full text => Full (accept_all_text hs text) | b => b end in
      let s := send_events (removed_events p Accepted hs ++ [BaselineUpdated p])
                 (insert_file p (without hs (set_accepted true (set_baseline b st))) s) in
      recompute_hunks p (Some (current_content st)) (remaining_source p s) s
  end.
Proof. intros Hne E. unfold accept_hunks_batch. destruct hs; [done|]. rewrite E. by destruct (baseline st). Qed.

Lemma reject_batch_eq w p hs s st : hs ≠ [] → file_states s !! p = Some st → reject_hunks_batch w p hs s =
  let done state := send_events (removed_events p Rejected hs) (insert_file p (without hs state) s) in
  match current_content st, baseline st with
  | Missing, Full b =>
      match fs_write w p b with
      | None => (w, s, Err (WriteError p))
      | Some w => (w, done (set_current (Full b) st), Ok tt)
      end
  | Full _, Missing =>
      match remove_file w p with
      | None => (w, s, Err (DeleteError p))
      | Some w => (w, done (set_current Missing st), Ok tt)
      end
  | Full current, _ =>
      match fs_write w p (reject_all_text hs current) with
      | None => (w, s, Err (WriteError p))
      | Some w =>
          let s := done (set_current (Full (reject_all_text hs current)) st) in
          (w, recompute_hunks p (Some (Full (reject_all_text hs current))) (remaining_source p s) s, Ok tt)
      end
  | _, _ => (w, s, Ok tt)
  end.
Proof. intros Hne E. unfold reject_hunks_batch. destruct hs; [done|]. rewrite E. done. Qed.

Section OneFile.
Context (lost lost' : gset HunkId) (s : Actor) (p : string) (st : FileHunkState) (hs : list Hunk).
Context (HI : Inv lost s) (Hst : file_states s !! p = Some st) (Hhs : hs ≠ []) (Hsub : ∀ h, h ∈ hs → h ∈ hunks st).
Context (Hlost : lost ⊆ lost' ∪ ids_of hs).

Lemma lost_rest i : i ∈ lost → i ∉ id <$> old_hunks_of s p → i ∈ lost'.
Proof.
  intros Hi Hno. apply Hlost, elem_of_union in Hi as [Hi|Hi]; [done|]. unfold ids_of in Hi.
  apply elem_of_list_to_set, list_elem_of_fmap in Hi as (h & -> & Hh). destruct Hno. apply list_elem_of_fmap_2.
  unfold old_hunks_of. rewrite Hst. by apply Hsub.
Qed.

Lemma settle_single st1 es : hunks st1 = hunks st → length (hunks st) = 1 →
  Inv lost' (send_events es (insert_file p (without hs st1) s)).
Proof.
  intros E1 Hl. eapply (insert_hunkless lost lost' s _ p (without hs st1) HI); try done; [|apply lost_rest].
  apply without_single; [done| |by rewrite E1]. intros h Hh. rewrite E1. by apply Hsub.
Qed.

Lemma settle_recompute st1 es c src : hunks st1 = hunks st →
  Inv lost' (recompute_hunks p c src (send_events es (insert_file p (without hs st1) s))).
Proof.
  intros E1. eapply (recompute_from lost lost' s _ p (without hs st1)); try done; [|apply lost_rest].
  intros o Ho%without_elem. unfold old_hunks_of. rewrite Hst. cbn. by rewrite <-E1.
Qed.

Lemma patchable :
  (∃ b c, baseline st = Full b ∧ current_content st = Full c) ∨
  ((∃ b, baseline st = Full b ∧ b ≠ "" ∧ current_content st = Missing) ∨
   (∃ c, baseline st = Missing ∧ current_content st = Full c ∧ c ≠ "")) ∧ length (hunks st) = 1.
Proof.
  apply (hunks_patchable _ _ _ (inv_file _ _ HI p st Hst)). intros E. rewrite E in Hsub.
  destruct hs as [|h l]; [done|]. by specialize (Hsub h ltac:(by left)) as ?%not_elem_of_nil.
Qed.

Lemma accept_batch_keeps : Inv lost' (accept_hunks_batch p hs s).
Proof.
  rewrite (accept_batch_eq p hs s st Hhs Hst). pose proof patchable as Hp. destruct Hp as [(b & c & Eb & Ec)|[[(b & Eb & _ & Ec)|(c & Eb & Ec & _)] Hl]]; rewrite Eb, ?Ec; cbv zeta.
  - by apply settle_recompute.
  - by apply settle_recompute.
  - by apply settle_single.
Qed.

Lemma reject_batch_keeps w : ∀ w' s' r, reject_hunks_batch w p hs s = (w', s', r) →
  match r with Ok _ => Inv lost' s' | Err _ => s' = s end.
Proof.
  rewrite (reject_batch_eq w p hs s st Hhs Hst). pose proof patchable as Hp. intros w' s' r.
  destruct Hp as [(b & c & Eb & Ec)|[[(b & Eb & _ & Ec)|(c & Eb & Ec & _)] Hl]]; rewrite Eb, Ec; cbv zeta.
  - destruct (fs_write _ _ _); intros [= <- <- <-]; [|done]. by apply settle_recompute.
  - destruct (fs_write _ _ _); intros [= <- <- <-]; [|done]. by apply settle_single.
  - destruct (remove_file _ _); intros [= <- <- <-]; [|done]. by apply settle_single.
Qed.
End OneFile.

(** Other files are not touched. *)
Lemma recompute_other p q c src s : q ≠ p → file_states (recompute_hunks p c src s) !! q = file_states s !! q.
Proof.
  intros Hne. unfold recompute_hunks. destruct (file_states s !! p) as [st|] eqn:E; [|done]. cbn.
  by rewrite lookup_insert_ne.
Qed.
Lemma accept_batch_other p q hs s : q ≠ p → file_states (accept_hunks_batch p hs s) !! q = file_states s !! q.
Proof.
  intros Hne. unfold accept_hunks_batch. destruct hs; [done|]. destruct (file_states s !! p) as [st|] eqn:E; [|done].
  destruct (baseline st); cbv zeta; rewrite ?recompute_other by done; cbn; by rewrite lookup_insert_ne.
Qed.
Lemma reject_batch_other w p q hs s w' s' r : q ≠ p → reject_hunks_batch w p hs s = (w', s', r) →
  file_states s' !! q = file_states s !! q.
Proof.
  intros Hne. unfold reject_hunks_batch. destruct hs; [by intros [= <- <- <-]|].
  destruct (file_states s !! p) as [st|] eqn:E; [|by intros [= <- <- <-]]. cbv zeta.
  destruct (current_content st), (baseline st); try (by intros [= <- <- <-]);
    try (destruct (fs_write _ _ _)); try (destruct (remove_file _ _)); intros [= <- <- <-];
    rewrite ?recompute_other by done; cbn; rewrite ?lookup_insert_ne by done; done.
Qed.

(** The files of a batch: distinct, each with some of its hunks. *)
Definition batch_ok (s : Actor) (files : list (string * list Hunk)) : Prop :=
  NoDup files.*1 ∧ ∀ p hs, (p, hs) ∈ files → hs ≠ [] ∧ ∃ st, file_states s !! p = Some st ∧ ∀ h, h ∈ hs → h ∈ hunks st.

Lemma apply_action_batch_keeps files : ∀ lost w a s w' s' r,
  Inv lost s → batch_ok s files → apply_action_batch w files a s = (w', s', r) →
  match r with Ok _ => Inv lost s' | Err _ => ∃ lost', Inv (lost ∪ lost') s' end.
Proof.
  induction files as [|[p hs] files IH]; intros lost w a s w' s' r HI [Hnd Hok]; cbn [apply_action_batch]; [by intros [= <- <- <-]|].
  destruct (Hok p hs ltac:(by left)) as (Hne & st & Hst & Hsub). rewrite fmap_cons in Hnd.
  apply NoDup_cons in Hnd as [Hp Hnd]. cbn [fst] in Hp.
  pose proof (account_all_keeps lost a hs s HI) as HI1. pose proof (account_files a hs s) as Ef.
  set (s1 := fold_left (λ s h, account a h s) hs s) in *. clearbody s1.
  assert (Hst1 : file_states s1 !! p = Some st) by by rewrite Ef.
  assert (Hnext : ∀ s2, (∀ q, q ≠ p → file_states s2 !! q = file_states s1 !! q) → batch_ok s2 files).
  { intros s2 Hother. split; [done|]. intros q l Hin. destruct (Hok q l ltac:(by right)) as (Hl & st' & Hst' & Hs').
    split; [done|]. exists st'. split; [|done]. rewrite Hother, Ef; [done|]. intros ->. apply Hp.
    by apply (list_elem_of_fmap_2 fst) in Hin. }
  destruct a.
  - pose proof (accept_batch_keeps (lost ∪ ids_of hs) lost s1 p st hs HI1 Hst1 Hne Hsub ltac:(done)) as HI2.
    destruct (apply_action_batch w files Accept (accept_hunks_batch p hs s1)) as [[w3 s3] r3] eqn:E3.
    specialize (IH lost w Accept _ w3 s3 r3 HI2 ltac:(apply Hnext; intros; by apply accept_batch_other) E3).
    by destruct r3; intros [= <- <- <-].
  - destruct (reject_hunks_batch w p hs s1) as [[w2 s2] r2] eqn:E2.
    pose proof (reject_batch_keeps (lost ∪ ids_of hs) lost s1 p st hs HI1 Hst1 Hne Hsub ltac:(done) w w2 s2 r2 E2) as HI2.
    destruct r2 as [u|e]; [|intros [= <- <- <-]; subst s2; by exists (ids_of hs)].
    destruct (apply_action_batch w2 files Reject s2) as [[w3 s3] r3] eqn:E3.
    specialize (IH lost w2 Reject s2 w3 s3 r3 HI2 ltac:(apply Hnext; intros q Hq; by apply (reject_batch_other _ _ _ _ _ _ _ _ Hq E2)) E3).
    by destruct r3; intros [= <- <- <-].
Qed.

(** The order a hash map is walked in. *)
Definition walks (w : World) : Prop := ∀ l, hash_order w l ≡ₚ l.

Lemma elem_of_keys w (m : gmap string FileHunkState) p : walks w → p ∈ keys_of w m ↔ is_Some (m !! p).
Proof.
  intros Hw. unfold keys_of. rewrite (Hw _). rewrite list_elem_of_fmap. split.
  - intros ([q st] & -> & Hin). apply elem_of_map_to_list in Hin. cbn. by eexists.
  - intros [st Hst]. exists (p, st). split; [done|]. by apply elem_of_map_to_list.
Qed.
Lemma NoDup_keys w (m : gmap string FileHunkState) : walks w → NoDup (keys_of w m).
Proof. intros Hw. unfold keys_of. rewrite (Hw _). apply NoDup_fst_map_to_list. Qed.

Lemma files_with_elem w P s p hs : walks w → (p, hs) ∈ files_with w P s ↔
  ∃ st, file_states s !! p = Some st ∧ hs = filter (λ h, P h = true) (hunks st) ∧ hs ≠ [].
Proof.
  intros Hw. unfold files_with. rewrite list_elem_of_omap. split.
  - intros (q & _ & E). destruct (file_states s !! q) as [st|] eqn:Eq; [|done]. cbn in E.
    destruct (filter _ (hunks st)) as [|h l] eqn:Ef; [done|]. injection E as -> <-. exists st. by rewrite Ef.
  - intros (st & Hst & -> & Hne). exists p. split; [apply elem_of_keys; [done|by eexists]|]. rewrite Hst. cbn.
    revert Hne. by destruct (filter _ (hunks st)).
Qed.

Lemma omap_keys {A} (f : string → option (string * A)) l : (∀ y r, f y = Some r → r.1 = y) → NoDup l → NoDup (omap f l).*1.
Proof.
  intros Hf. induction 1 as [|q l Hq _ IH]; [constructor|]. cbn [omap list_omap].
  destruct (f q) as [r|] eqn:E; [|exact IH]. rewrite fmap_cons. constructor; [|exact IH].
  rewrite (Hf q r E). intros Hx. apply list_elem_of_fmap in Hx as (r' & -> & Hr). apply list_elem_of_omap in Hr as (y & Hy & Ey).
  rewrite (Hf y r' Ey) in Hq. done.
Qed.

Lemma files_with_ok w P s : walks w → batch_ok s (files_with w P s).
Proof.
  intros Hw. split.
  - unfold files_with. apply omap_keys; [|by apply NoDup_keys]. intros y r E. destruct (file_states s !! y); [|done].
    cbn in E. destruct (filter _ _); [done|]. by injection E as <-.
  - intros p hs Hin. apply files_with_elem in Hin as (st & Hst & -> & Hne); [|done]. split; [done|]. exists st.
    split; [done|]. by intros h [_ ?]%list_elem_of_filter.
Qed.

Lemma files_of_turn_elem w k s p hs : walks w → (p, hs) ∈ files_of_turn w k s ↔ (p, hs) ∈ files_with w (of_turn k) s.
Proof.
  intros Hw. unfold files_of_turn. pose proof (proj1 (files_with_ok w (of_turn k) s Hw)) as Hnd.
  rewrite list_elem_of_omap. setoid_rewrite (Hw (files_with w (of_turn k) s).*1). split.
  - intros (q & _ & E). destruct (list_to_map _ !! q) as [l|] eqn:El; [|done]. injection E as -> ->. by apply elem_of_list_to_map_2.
  - intros Hin. exists p. split; [by apply (list_elem_of_fmap_2 fst _ (p, hs))|].
    by rewrite (elem_of_list_to_map_1 _ p hs Hnd Hin).
Qed.
Lemma files_of_turn_ok w k s : walks w → batch_ok s (files_of_turn w k s).
Proof.
  intros Hw. destruct (files_with_ok w (of_turn k) s Hw) as [Hnd Hok]. split.
  - unfold files_of_turn. apply omap_keys; [|by rewrite (Hw _)]. intros q r E. destruct (_ !! q); [|done]. by injection E as <-.
  - intros p hs Hin%files_of_turn_elem; [|done]. by apply Hok.
Qed.

Lemma find_hunk_elem w i s p h : find_hunk w i s = Some (p, h) →
  id h = i ∧ ∃ st, file_states s !! p = Some st ∧ h ∈ hunks st.
Proof.
  unfold find_hunk. intros E. apply head_Some_elem_of in E. apply list_elem_of_omap in E as (q & _ & E).
  destruct (file_states s !! q) as [st|] eqn:Eq; [|done]. cbn in E. destruct (list_find _ (hunks st)) as [[j x]|] eqn:El; [|done].
  injection E as <- <-. apply list_find_Some in El as (Hj & Hi & _). split; [done|]. exists st. split; [done|].
  by apply list_elem_of_lookup_2 in Hj.
Qed.

(** ** Commands *)

Lemma snapshot_id (m : gmap string FileHunkState) : snapshot_file_state <$> m = m.
Proof. rewrite <-(map_fmap_id m) at 2. apply map_fmap_ext. by intros p [] _. Qed.

Lemma Inv_later lost s s' : file_states s' = file_states s → turn_index s' = turn_index s → (next_id s ≤ next_id s')%N →
  Inv lost s → Inv lost s'.
Proof.
  intros E1 E2 Hle [Hf Hu Hi Hc]. split; unfold turn_ids in *; rewrite ?E1, ?E2; [|done| |done].
  - intros p st Hp. destruct (Hf p st Hp) as [Hk Hn Hs]. split; [|done|done].
    eapply Forall_impl; [exact Hk|]. intros h [? ?]. split; [done|lia].
  - intros k i Hki. destruct (Hi k i Hki) as [? Hall]. split; [lia|done].
Qed.

Lemma restore_keeps lost s0 s : Inv lost s0 → (next_id s0 ≤ next_id s)%N → Inv lost (restore_snapshot (take_snapshot s0) s).
Proof.
  intros HI Hle. eapply (Inv_later lost s0); [|done|done|exact HI]. unfold restore_snapshot. cbn. by rewrite !snapshot_id.
Qed.

Definition no_restore (cmd : HunkTrackerCommand) : bool := match cmd with RestoreState _ => false | _ => true end.

(** The disk refused a write or a removal. *)
Definition disk_failed (e : option HunkActionError) : bool :=
  match e with Some (WriteError _) | Some (DeleteError _) => true | _ => false end.

Lemma reject_batch_fails w p hs s w' s' e : reject_hunks_batch w p hs s = (w', s', Err e) → disk_failed (Some e) = true.
Proof.
  unfold reject_hunks_batch. destruct hs; [done|]. destruct (file_states s !! p) as [st|]; [|done]. cbv zeta.
  destruct (current_content st), (baseline st); try done;
    try (destruct (fs_write _ _ _)); try (destruct (remove_file _ _)); intros [= <- <- <-]; done.
Qed.
Lemma apply_action_batch_fails files : ∀ w a s w' s' e, apply_action_batch w files a s = (w', s', Err e) →
  disk_failed (Some e) = true ∧ a = Reject.
Proof.
  induction files as [|[p hs] files IH]; intros w a s w' s' e; cbn [apply_action_batch]; [done|]. cbv zeta. destruct a.
  - destruct (apply_action_batch w files Accept _) as [[w2 s2] [|e2]] eqn:E2; [done|]. by destruct (IH _ _ _ _ _ _ E2).
  - destruct (reject_hunks_batch _ _ _ _) as [[w1 s1] [|e1]] eqn:E1.
    + destruct (apply_action_batch w1 files Reject _) as [[w2 s2] [|e2]] eqn:E2; [done|]. intros [= <- <- <-].
      by apply IH in E2.
    + intros [= <- <- <-]. by apply reject_batch_fails in E1.
Qed.

Lemma batch_action_keeps lost w files a s w' s' r : Inv lost s → batch_ok s files →
  apply_action_batch w files a s = (w', s', r) → ∃ lost', Inv (lost ∪ lost') s' ∧ (match r with Ok _ => lost' = ∅ | Err _ => True end).
Proof.
  intros HI Hok E. pose proof (apply_action_batch_keeps files lost w a s w' s' r HI Hok E) as HK. destruct r.
  - exists ∅. by rewrite union_empty_r_L.
  - destruct HK as [lost' ?]. by exists lost'.
Qed.

Lemma handle_command_keeps lost w cmd s w' s' e : Inv lost s → walks w → no_restore cmd = true →
  handle_command w cmd s = (w', s', e) →
  ∃ lost', Inv (lost ∪ lost') s' ∧ (disk_failed e = false → lost' = ∅).
Proof.
  intros HI Hw Hno E.
  assert (Hdone : ∀ s1, Inv lost s1 → s' = s1 → ∃ lost', Inv (lost ∪ lost') s' ∧ (disk_failed e = false → lost' = ∅)).
  { intros s1 H1 ->. exists ∅. by rewrite union_empty_r_L. }
  assert (Hbatch : ∀ files a w1 s1 (r : result HunkActionError (list HunkId)), batch_ok s files →
    apply_action_batch w files a s = (w1, s1, r) → outcome (w1, s1, r) = (w', s', e) → ∃ lost', Inv (lost ∪ lost') s' ∧ (disk_failed e = false → lost' = ∅)).
  { intros files a w1 s1 r Hok Eb Eo. destruct (batch_action_keeps lost w files a s w1 s1 r HI Hok Eb) as (lost' & HK & Hr).
    unfold outcome in Eo. destruct r; injection Eo as <- <- <-; exists lost'; split; try done.
    apply apply_action_batch_fails in Eb as [Eb _]. by rewrite Eb. }
  destruct cmd as [p c k prev|p|p| |p|m|i a|p a|a|k a| | |snap|]; cbn [handle_command] in E; try done;
    try (injection E as <- <- <-; eapply Hdone; [|reflexivity]).
  - by apply record_agent_write_keeps.
  - by apply process_file_change_keeps.
  - by apply handle_file_deleted_keeps.
  - by apply refresh_git_dirty_cache_keeps.
  - by apply reset_baseline_keeps.
  - by apply set_mode_keeps.
  - unfold apply_hunk_action in E. destruct (find_hunk w i s) as [[p h]|] eqn:Ef; [|injection E as <- <- <-; by eapply Hdone].
    apply find_hunk_elem in Ef as (Ei & st & Hst & Hh).
    pose proof (account_keeps lost a h s HI) as HI1. set (s1 := account a h s) in *.
    assert (Hst1 : file_states s1 !! p = Some st) by done. clearbody s1. cbv zeta in E.
    assert (Hsub : ∀ x, x ∈ [h] → x ∈ hunks st) by by intros x ->%list_elem_of_singleton.
    assert (Hl : lost ∪ {[id h]} ⊆ lost ∪ ids_of [h]) by (unfold ids_of; set_solver).
    destruct a.
    + injection E as <- <- <-. rewrite accept_hunk_batch. exists ∅. split; [|done]. rewrite union_empty_r_L.
      by apply (accept_batch_keeps (lost ∪ {[id h]}) lost s1 p st [h]).
    + rewrite reject_hunk_batch in E. destruct (reject_hunks_batch w p [h] s1) as [[w2 s2] r] eqn:Er. cbn [outcome] in E.
      pose proof (reject_batch_keeps (lost ∪ {[id h]}) lost s1 p st [h] HI1 Hst1 ltac:(done) Hsub Hl w w2 s2 r Er) as HK.
      destruct r; injection E as <- <- <-.
      * exists ∅. by rewrite union_empty_r_L.
      * subst s2. exists {[id h]}. split; [done|]. apply reject_batch_fails in Er. by rewrite Er.
  - unfold apply_file_action in E. destruct (file_states s !! p) as [st|] eqn:Est; [|injection E as <- <- <-; by eapply Hdone].
    destruct (hunks st) as [|h hs] eqn:Eh; [injection E as <- <- <-; by eapply Hdone|].
    destruct (apply_action_batch w _ a s) as [[w1 s1] r] eqn:Eb. eapply Hbatch; [|exact Eb|exact E].
    split; [apply NoDup_singleton|]. intros q l Hin%list_elem_of_singleton. injection Hin as -> ->. split; [done|].
    exists st. rewrite Eh. done.
  - unfold apply_all_action in E. destruct (apply_action_batch w _ a s) as [[w1 s1] r] eqn:Eb.
    eapply Hbatch; [|exact Eb|exact E]. by apply files_with_ok.
  - unfold apply_turn_action in E. destruct (apply_action_batch w _ a s) as [[w1 s1] r] eqn:Eb.
    eapply Hbatch; [|exact Eb|exact E]. by apply files_of_turn_ok.
  - by apply (Inv_core lost s).
  - by apply refresh_all_keeps.
  - done.
Qed.

(** The walk of the maps is not the disk's business. *)
Lemma fs_write_order w p c w' : fs_write w p c = Some w' → hash_order w' = hash_order w.
Proof. unfold fs_write. destruct (write_fault w p); [done|]. destruct (disk w !! _) as [[]|]; intros; simplify_eq; done. Qed.
Lemma remove_file_order w p w' : remove_file w p = Some w' → hash_order w' = hash_order w.
Proof. unfold remove_file. destruct (remove_fault w p); [done|]. destruct (disk w !! p) as [[]|]; intros; simplify_eq; done. Qed.

Lemma reject_batch_order w p hs s w' s' r : reject_hunks_batch w p hs s = (w', s', r) → hash_order w' = hash_order w.
Proof.
  unfold reject_hunks_batch. destruct hs; [by intros [= <- <- <-]|].
  destruct (file_states s !! p) as [st|]; [|by intros [= <- <- <-]]. cbv zeta.
  destruct (current_content st), (baseline st); try (by intros [= <- <- <-]);
    try (destruct (fs_write _ _ _) eqn:E); try (destruct (remove_file _ _) eqn:E'); intros [= <- <- <-];
    first [done|by eapply fs_write_order|by eapply remove_file_order].
Qed.
Lemma apply_action_batch_order files : ∀ w a s w' s' r, apply_action_batch w files a s = (w', s', r) → hash_order w' = hash_order w.
Proof.
  induction files as [|[p hs] files IH]; intros w a s w' s' r; cbn [apply_action_batch]; [by intros [= <- <- <-]|].
  cbv zeta. destruct a.
  - destruct (apply_action_batch w files Accept _) as [[w2 s2] r2] eqn:E2. apply IH in E2. by destruct r2; intros [= <- <- <-].
  - destruct (reject_hunks_batch _ _ _ _) as [[w1 s1] r1] eqn:E1. apply reject_batch_order in E1.
    destruct r1; [|by intros [= <- <- <-]]. destruct (apply_action_batch w1 files Reject _) as [[w2 s2] r2] eqn:E2.
    apply IH in E2. destruct r2; intros [= <- <- <-]; congruence.
Qed.

Lemma handle_command_order w cmd s w' s' e : handle_command w cmd s = (w', s', e) → hash_order w' = hash_order w.
Proof.
  assert (Hout : ∀ A w1 s1 (r : result HunkActionError A), outcome (w1, s1, r) = (w', s', e) → w' = w1)
    by (intros A w1 s1 r [= -> -> _]; done).
  destruct cmd as [p c k prev|p|p| |p|m|i a|p a|a|k a| | |snap|]; cbn [handle_command]; try (by intros [= <- <- <-]).
  - unfold apply_hunk_action. destruct (find_hunk w i s) as [[p h]|]; [|by intros ->%Hout]. cbv zeta.
    destruct a; [by intros ->%Hout|]. rewrite reject_hunk_batch.
    destruct (reject_hunks_batch _ _ _ _) as [[w1 s1] r1] eqn:E1. apply reject_batch_order in E1. by intros ->%Hout.
  - unfold apply_file_action. destruct (file_states s !! p) as [st|]; [|by intros ->%Hout].
    destruct (hunks st); [by intros ->%Hout|].
    destruct (apply_action_batch w _ a s) as [[w1 s1] r] eqn:E. apply apply_action_batch_order in E. by intros ->%Hout.
  - unfold apply_all_action. destruct (apply_action_batch w _ a s) as [[w1 s1] r] eqn:E.
    apply apply_action_batch_order in E. by intros ->%Hout.
  - unfold apply_turn_action. destruct (apply_action_batch w _ a s) as [[w1 s1] r] eqn:E.
    apply apply_action_batch_order in E. by intros ->%Hout.
Qed.

(** ** Batches of queued commands *)

Definition is_reject (cmd : HunkTrackerCommand) : bool :=
  match cmd with
  | HunkActionCmd _ Reject | FileAction _ Reject | AllAction Reject | TurnAction _ Reject => true
  | _ => false
  end.

Lemma only_rejects_fail w cmd s w' s' e : handle_command w cmd s = (w', s', e) → is_reject cmd = false → disk_failed e = false.
Proof.
  intros E Hr. assert (Hb : ∀ files a w1 s1 (r : result HunkActionError (list HunkId)), a ≠ Reject →
    apply_action_batch w files a s = (w1, s1, r) → outcome (w1, s1, r) = (w', s', e) → disk_failed e = false).
  { intros files a w1 s1 r Ha Eb [= _ _ <-]. destruct r; [done|]. by apply apply_action_batch_fails in Eb as [_ ?]. }
  destruct cmd as [p c k prev|p|p| |p|m|i a|p a|a|k a| | |snap|]; cbn [handle_command] in E;
    try (injection E as <- <- <-; done); destruct a; try done.
  - unfold apply_hunk_action in E. destruct (find_hunk w i s) as [[p h]|]; by injection E as <- <- <-.
  - unfold apply_file_action in E. destruct (file_states s !! p) as [st|]; [|by injection E as <- <- <-].
    destruct (hunks st); [by injection E as <- <- <-|].
    destruct (apply_action_batch w _ Accept s) as [[w1 s1] r] eqn:Eb. by eapply Hb; [|exact Eb|exact E].
  - unfold apply_all_action in E. destruct (apply_action_batch w _ Accept s) as [[w1 s1] r] eqn:Eb. by eapply Hb; [|exact Eb|exact E].
  - unfold apply_turn_action in E. destruct (apply_action_batch w _ Accept s) as [[w1 s1] r] eqn:Eb. by eapply Hb; [|exact Eb|exact E].
Qed.

Lemma handle_commands_keeps cmds : ∀ lost w s w' s', Inv lost s → walks w → forallb no_restore cmds = true →
  handle_commands w cmds s = (w', s') →
  walks w' ∧ ∃ lost', Inv (lost ∪ lost') s' ∧ (existsb is_reject cmds = false → lost' = ∅).
Proof.
  induction cmds as [|cmd cmds IH]; intros lost w s w' s' HI Hw Hno; cbn [handle_commands].
  { intros [= <- <-]. split; [done|]. exists ∅. by rewrite union_empty_r_L. }
  cbn [forallb] in Hno. apply andb_prop in Hno as [Hc Hcs].
  destruct (handle_command w cmd s) as [[w1 s1] e] eqn:E1. intros E2.
  pose proof (handle_command_order _ _ _ _ _ _ E1) as Ho. pose proof (only_rejects_fail _ _ _ _ _ _ E1) as Hf.
  destruct (handle_command_keeps lost w cmd s w1 s1 e HI Hw Hc E1) as (l1 & H1 & Hl1).
  destruct (IH (lost ∪ l1) w1 s1 w' s' H1) as (Hw' & l2 & H2 & Hl2); [|done|done|].
  { unfold walks. rewrite Ho. exact Hw. }
  split; [done|]. exists (l1 ∪ l2). rewrite union_assoc_L. split; [done|]. cbn [existsb]. intros [Hr Hrs]%orb_false_iff.
  rewrite (Hl1 (Hf Hr)), (Hl2 Hrs). by rewrite union_empty_r_L.
Qed.

Lemma handle_coalesced_batch_keeps lost w b s w' s' : Inv lost s → walks w →
  forallb no_restore (other_commands b) = true → handle_coalesced_batch w b s = (w', s') →
  walks w' ∧ ∃ lost', Inv (lost ∪ lost') s' ∧ (existsb is_reject (other_commands b) = false → lost' = ∅).
Proof.
  intros HI Hw Hno. unfold handle_coalesced_batch. cbv zeta.
  set (s1 := if _ && _ then refresh_git_dirty_cache w None s else s).
  assert (H1 : Inv lost s1) by (unfold s1; destruct (_ && _); [by apply refresh_git_dirty_cache_keeps|done]).
  clearbody s1. set (paths := action_order w (file_actions b)). clearbody paths.
  set (s2 := if refresh_all b then _ else _). assert (H2 : Inv lost s2); [|clearbody s2; by apply handle_commands_keeps].
  unfold s2. destruct (refresh_all b).
  - assert (Hfold : ∀ l a t, Inv lost t → Inv lost (fold_left (λ '(already_processed, s) p,
          if is_deleted (file_actions b) p then
            (already_processed, if contains_key p s then handle_file_deleted w p s else s)
          else if contains_key p s then (already_processed, s)
          else ({[p]} ∪ already_processed, handle_file_change w p s)) l (a : gset string, t)).2).
    { induction l as [|p l IH]; intros a t Ht; [done|]. cbn [fold_left]. destruct (is_deleted _ _).
      - apply IH. destruct (contains_key p t); [by apply handle_file_deleted_keeps|done].
      - destruct (contains_key p t); apply IH; [done|]. by apply process_file_change_keeps. }
    specialize (Hfold paths ∅ s1 H1). destruct (fold_left _ paths _) as [a t]. by apply refresh_all_keeps.
  - apply handle_file_changes_batch_keeps. apply fold_keeps; [|done]. intros. by apply handle_file_deleted_keeps.
Qed.

End Diffed.
End TrackerInvariant.
