(* ===== verification/HunkReview.v ===== *)
(** What the hunk tracker does for its user: the invariant in every reachable state,
    the exact effect of accepting and rejecting the changes of a file, the hunks of a
    turn, the session summary, the coalescing of notifications, and the places where
    review goes wrong. *)
From stdpp Require Import list gmap sets strings.
From S2P Require Import Prelude RustStr StrSearch HunkDiff HunkGeometry HunkFiles HunkTracker HunkInvariant.

Import HunkTheorems.

Module Reachable.
Section Diffed.
Context `{LineDiff}.

(** States of the tracker together with the disk: commands one by one or in coalesced
    batches, snapshots of earlier states restored, and anything happening to disk and
    repository in between. The flag tells that the disk refused a rejection (for a
    batch: that a rejection was among it). *)
Inductive reachable (dir : string) (m : TrackingMode) : World → Actor → bool → Prop :=
| r_start w : walks w → reachable dir m w (start w dir m) false
| r_command w s b cmd w' s' e : reachable dir m w s b → no_restore cmd = true →
    handle_command w cmd s = (w', s', e) → reachable dir m w' s' (b || disk_failed e)
| r_batch w s b first queued w' s' : reachable dir m w s b → is_coalescable first = true →
    forallb no_restore queued = true →
    handle_coalesced_batch w (drain_and_coalesce first queued) s = (w', s') →
    reachable dir m w' s' (b || existsb is_reject queued)
| r_restore w s b w0 s0 b0 : reachable dir m w s b → reachable dir m w0 s0 b0 → (next_id s0 ≤ next_id s)%N →
    reachable dir m w (restore_snapshot (take_snapshot s0) s) b0
| r_outside w s b w' : reachable dir m w s b → walks w' → reachable dir m w' s b.

Lemma drained_others queued : ∀ b, existsb is_reject (other_commands (fold_left (λ b cmd, add cmd b) queued b)) =
    existsb is_reject (other_commands b) || existsb is_reject queued ∧
  (forallb no_restore (other_commands b) = true → forallb no_restore queued = true →
   forallb no_restore (other_commands (fold_left (λ b cmd, add cmd b) queued b)) = true).
Proof.
  induction queued as [|c queued IH]; intros b; cbn [fold_left].
  - split; [by rewrite orb_false_r|done].
  - destruct (IH (add c b)) as [E1 E2]. rewrite E1.
    assert (Ha : (other_commands (add c b) = other_commands b ∧ is_reject c = false) ∨ other_commands (add c b) = other_commands b ++ [c])
      by (destruct c; cbn; auto).
    destruct Ha as [[Ea Er]|Ea]; rewrite Ea in E2 |- *; cbn [existsb forallb].
    + rewrite Er. split; [done|]. intros Hb [_ Hq]%andb_prop. by apply E2.
    + rewrite existsb_app. cbn [existsb]. split; [by rewrite orb_false_r, orb_assoc|].
      intros Hb [Hc Hq]%andb_prop. apply E2; [|done]. rewrite forallb_app, Hb. cbn. by rewrite Hc.
Qed.

End Diffed.

Section Laws.
Context `{LawfulDiff}.

Lemma start_Inv w dir m : Inv ∅ (new dir m) ∧ Inv ∅ (start w dir m).
Proof.
  assert (HI : Inv ∅ (new dir m)).
  { split; cbn; [by intros p st; rewrite lookup_empty|by intros p q st st'; rewrite lookup_empty| |by intros p st; rewrite lookup_empty].
    intros k i. unfold turn_ids. cbn. rewrite lookup_empty. cbn. set_solver. }
  split; [done|]. unfold start. cbv zeta. destruct (bool_decide _); [by apply refresh_git_dirty_cache_keeps|done].
Qed.

Lemma reachable_Inv dir m w s b : reachable dir m w s b → walks w ∧ ∃ lost, Inv lost s ∧ (b = false → lost = ∅).
Proof.
  induction 1 as [w Hw|w s b cmd w' s' e _ [Hw (lost & HI & Hl)] Hno E|w s b first queued w' s' _ [Hw (lost & HI & Hl)] Hfirst Hno E|
    w s b w0 s0 b0 _ [Hw _] _ [_ (lost & HI & Hl)] Hle|w s b w' _ [_ HK] Hw'].
  - split; [done|]. exists ∅. split; [apply start_Inv|done].
  - pose proof (handle_command_order _ _ _ _ _ _ E) as Ho. split; [unfold walks; by rewrite Ho|].
    destruct (handle_command_keeps lost w cmd s w' s' e HI Hw Hno E) as (l & HI' & Hl'). exists (lost ∪ l). split; [done|].
    intros [Hb He]%orb_false_iff. rewrite (Hl Hb), (Hl' He). by rewrite union_empty_r_L.
  - destruct (drained_others queued (add first CoalescedBatch_new)) as [E1 E2].
    assert (Ef : other_commands (add first CoalescedBatch_new) = []) by by destruct first.
    rewrite Ef in E1, E2. cbn in E1. specialize (E2 eq_refl Hno).
    destruct (handle_coalesced_batch_keeps lost w _ s w' s' HI Hw E2 E) as (Hw' & l & HI' & Hl').
    split; [done|]. exists (lost ∪ l). split; [done|]. intros [Hb Hq]%orb_false_iff. unfold drain_and_coalesce in Hl'.
    rewrite E1 in Hl'. rewrite (Hl Hb), (Hl' Hq). by rewrite union_empty_r_L.
  - split; [done|]. exists lost. split; [by apply restore_keeps|done].
  - by split.
Qed.

(** C30: Whatever commands, batches, restored snapshots and changes from outside the tracker
    has been through: the hunks of a file carry its path and identifiers given out
    before, no identifier belongs to two hunks, the hunks are the difference of the two
    contents the tracker knows (or were cleared), an identifier indexed under a turn
    belongs to no hunk of another turn, and, as long as the disk has refused no
    rejection, every agent hunk is indexed under its turn. *)
Theorem tracker_invariant dir m w s b : reachable dir m w s b →
  (∀ p st, file_states s !! p = Some st →
     Forall (λ h, path h = p ∧ (id h < next_id s)%N) (hunks st) ∧ NoDup (id <$> hunks st) ∧
     (hunks st = [] ∨ shape <$> hunks st = shape <$> fresh_hunks 0%N p (baseline st) (current_content st) External)) ∧
  (∀ p q st st' h h', file_states s !! p = Some st → file_states s !! q = Some st' →
     h ∈ hunks st → h' ∈ hunks st' → id h = id h' → p = q) ∧
  (∀ k p st h, id h ∈ default ∅ (turn_index s !! k) → file_states s !! p = Some st → h ∈ hunks st →
     prompt_index (source h) = Some k) ∧
  (b = false → ∀ p st h k, file_states s !! p = Some st → h ∈ hunks st → prompt_index (source h) = Some k →
     id h ∈ default ∅ (turn_index s !! k)).
Proof.
  intros Hr. apply reachable_Inv in Hr as (_ & lost & [Hf Hu Hi Hc] & Hl). split_and!.
  - intros p st Hp. by destruct (Hf p st Hp).
  - exact Hu.
  - intros k p st h Hk Hp Hh. destruct (Hi k (id h) Hk) as [_ Hall]. by apply (Hall p st h).
  - intros Hb p st h k Hp Hh Hk. apply (Hc p st h k Hp Hh Hk). rewrite (Hl Hb). set_solver.
Qed.

End Laws.
End Reachable.

(** * Reviewing a file *)

Module FileReview.
Section Laws.
Context `{LawfulDiff}.

(** The contents whose review is exact. *)
Definition reviewable (st : FileHunkState) : bool :=
  match baseline st, current_content st with
  | Full b, Full c => plain_text b && plain_text c && shared_line (diff_lines b c)
  | _, _ => true
  end.

(** The disk with one file as a content state says. *)
Definition put_content (w : World) (p : string) (c : FileContentState) : gmap string DiskEntry :=
  match c with Full t => <[resolve w p := File t]> (disk w) | _ => delete p (disk w) end.

Lemma recompute_same p c src s st : file_states s !! p = Some st → baseline st = Full c →
  file_states (recompute_hunks p (Some (Full c)) src s) !! p = Some (set_hunks [] (set_current (Full c) st)).
Proof.
  intros E Eb. unfold recompute_hunks. rewrite E, Eb. cbv zeta.
  assert (Ec : compute_hunks (next_id s) p c c src = []) by (unfold compute_hunks; by rewrite bool_decide_eq_true_2).
  change (default missing_content (Some (Full c))) with (Full c). cbn [fresh_hunks]. rewrite Ec. cbn.
  by rewrite lookup_insert, decide_True.
Qed.

Lemma recompute_deleted p src s st : file_states s !! p = Some st → baseline st = Full "" →
  file_states (recompute_hunks p (Some Missing) src s) !! p = Some (set_hunks [] (set_current Missing st)).
Proof.
  intros E Eb. unfold recompute_hunks. rewrite E, Eb. change (default missing_content (Some Missing)) with Missing.
  cbn. by rewrite lookup_insert, decide_True.
Qed.

Lemma without_all st : hunks (without (hunks st) st) = [].
Proof. cbn. apply filter_no. intros h Hh Hno. apply Hno. by apply list_elem_of_fmap_2. Qed.

(** The accepted deletion of a file leaves an empty baseline. *)
Lemma accept_deletion b i p src : accept_text (file_deleted i p b src) b = "".
Proof.
  unfold accept_text, file_deleted. cbn [line_info old_start old_count new_text]. unfold patch_lines.
  change (is_empty "") with true. cbn [app]. rewrite Nat.sub_diag, Nat.min_0_l, Nat.add_0_l. cbn [take app].
  rewrite Nat.min_r by lia. rewrite drop_all. cbn [join String.concat is_empty]. by rewrite andb_false_r.
Qed.

Lemma single_accept h t : accept_all_text [h] t = accept_text h t.
Proof. done. Qed.

Lemma review_shapes next p st : FileInv next p st → hunks st ≠ [] → ∀ b c,
  baseline st = Full b → current_content st = Full c →
  shape <$> hunks st = b_shape <$> builders 1 1 None (diff_lines b c).
Proof.
  intros [_ _ [E|E]] Hne b c Eb Ec; [done|]. rewrite Eb, Ec in E. cbn [fresh_hunks] in E. rewrite E.
  apply compute_hunks_shapes. intros En. rewrite En in E. by destruct (hunks st).
Qed.

Lemma accept_text_shape h h' t : shape h = shape h' → accept_text h t = accept_text h' t.
Proof. unfold shape, accept_text. by intros [= -> _ ->]. Qed.

Section OneFile.
Context (s : Actor) (p : string) (st : FileHunkState) (next : HunkId).
Context (Hst : file_states s !! p = Some st) (HF : FileInv next p st) (Hne : hunks st ≠ []) (Hrev : reviewable st = true).

Lemma texts_exact b c : baseline st = Full b → current_content st = Full c →
  accept_all_text (hunks st) b = c ∧ reject_all_text (hunks st) c = b.
Proof using H0 HF Hne Hrev.
  intros Eb Ec. unfold reviewable in Hrev. rewrite Eb, Ec in Hrev. apply andb_prop in Hrev as [[Hpb Hpc]%andb_prop Hsh].
  pose proof (review_shapes _ _ _ HF Hne b c Eb Ec) as Hs. by apply (review_exact b c _ (λ _, true)).
Qed.

Lemma deletion_exact b : baseline st = Full b → current_content st = Missing → accept_all_text (hunks st) b = "".
Proof using H0 HF Hne.
  intros Eb Ec. destruct HF as [_ _ [Hs|Hs]]; [done|]. rewrite Eb, Ec in Hs. cbn [fresh_hunks] in Hs.
  destruct (is_empty b); [by destruct (hunks st)|]. destruct (hunks st) as [|h [|h' l]]; try done.
  injection Hs as E1 E2 E3. rewrite single_accept, (accept_text_shape h (file_deleted 0%N p b External)) by (unfold shape; by rewrite E1, E2, E3).
  apply accept_deletion.
Qed.

Lemma put_lookup st1 es : file_states (send_events es (insert_file p st1 s)) !! p = Some st1.
Proof. cbn. by rewrite lookup_insert, decide_True. Qed.

Lemma without_same st1 : hunks st1 = hunks st → hunks (without (hunks st) st1) = [].
Proof. intros E. cbn. rewrite E. apply without_all. Qed.

Lemma accept_file : ∃ st', file_states (accept_hunks_batch p (hunks st) s) !! p = Some st' ∧ hunks st' = [] ∧
  current_content st' = current_content st ∧ baseline st' = match current_content st with Missing => Full "" | c => c end.
Proof using H0 Hst HF Hne Hrev.
  rewrite (accept_batch_eq p (hunks st) s st) by done.
  destruct (hunks_patchable _ _ _ HF Hne) as [(b & c & Eb & Ec)|[[(b & Eb & _ & Ec)|(c & Eb & Ec & _)] _]];
    rewrite Eb, ?Ec; cbv zeta iota.
  - rewrite (proj1 (texts_exact b c Eb Ec)).
    rewrite (recompute_same p c _ _ (without (hunks st) (set_accepted true (set_baseline (Full c) st))) (put_lookup _ _) eq_refl).
    by eexists.
  - rewrite (deletion_exact b Eb Ec).
    rewrite (recompute_deleted p _ _ (without (hunks st) (set_accepted true (set_baseline (Full "") st))) (put_lookup _ _) eq_refl).
    by eexists.
  - rewrite put_lookup. eexists. split; [done|]. split; [by apply without_same|]. cbn. by rewrite Ec.
Qed.

Lemma reject_file w w' s' r : reject_hunks_batch w p (hunks st) s = (w', s', r) →
  match r with
  | Err e => disk_failed (Some e) = true ∧ w' = w ∧ s' = s
  | Ok _ => ∃ st', file_states s' !! p = Some st' ∧ hunks st' = [] ∧
      current_content st' = baseline st ∧ baseline st' = baseline st ∧ disk w' = put_content w p (baseline st)
  end.
Proof using H0 Hst HF Hne Hrev.
  assert (Hwrite : ∀ b w1, fs_write w p b = Some w1 → disk w1 = <[resolve w p := File b]> (disk w)).
  { intros b w1. unfold fs_write. destruct (write_fault w p); [done|]. by destruct (disk w !! resolve w p) as [[]|]; intros [= <-]. }
  rewrite (reject_batch_eq w p (hunks st) s st) by done. cbv zeta.
  destruct (hunks_patchable _ _ _ HF Hne) as [(b & c & Eb & Ec)|[[(b & Eb & _ & Ec)|(c & Eb & Ec & _)] _]]; rewrite Eb, Ec.
  - rewrite (proj2 (texts_exact b c Eb Ec)). destruct (fs_write w p b) as [w1|] eqn:Ew; intros [= <- <- <-]; [|done].
    rewrite (recompute_same p b _ _ (without (hunks st) (set_current (Full b) st)) (put_lookup _ _) Eb).
    eexists. split; [done|]. cbn. by rewrite Eb, (Hwrite b w1 Ew).
  - destruct (fs_write w p b) as [w1|] eqn:Ew; intros [= <- <- <-]; [|done].
    rewrite put_lookup. eexists. split; [done|]. split; [by apply without_same|]. cbn. by rewrite Eb, (Hwrite b w1 Ew).
  - destruct (remove_file w p) as [w1|] eqn:Ew; intros [= <- <- <-]; [|done].
    rewrite put_lookup. eexists. split; [done|]. split; [by apply without_same|]. cbn. rewrite Eb. split_and!; try done.
    unfold remove_file in Ew. destruct (remove_fault w p); [done|]. destruct (disk w !! p) as [[]|]; by simplify_eq.
Qed.
End OneFile.

(** Accepting or rejecting all changes of a file does exactly that, where its texts
    can be reviewed exactly (created and deleted files always). Accepting never touches
    the disk and makes the known content the baseline (an accepted deletion leaves an
    empty one); rejecting puts the baseline back, on disk (a created file is removed)
    and as known content. Either way the file has no hunks left, exactly its hunks are
    reported, and no other file changes; a refusal of the disk is reported, is only
    possible for a rejection, and changes neither disk nor files. *)
Theorem file_review_exact lost w s p st action w' s' r :
  Inv lost s → file_states s !! p = Some st → hunks st ≠ [] → reviewable st = true →
  apply_file_action w p action s = (w', s', r) →
  match r with
  | Err e => action = Reject ∧ disk_failed (Some e) = true ∧ w' = w ∧ file_states s' = file_states s
  | Ok ids =>
      ids = id <$> hunks st ∧
      (∀ q, q ≠ p → file_states s' !! q = file_states s !! q) ∧
      ∃ st', file_states s' !! p = Some st' ∧ hunks st' = [] ∧
        match action with
        | Accept => w' = w ∧ current_content st' = current_content st ∧
            baseline st' = match current_content st with Missing => Full "" | c => c end
        | Reject => current_content st' = baseline st ∧ baseline st' = baseline st ∧
            disk w' = put_content w p (baseline st)
        end
  end.
Proof.
  intros HI Hst Hne Hrev. unfold apply_file_action. rewrite Hst. pose proof (inv_file _ _ HI p st Hst) as HF.
  destruct (hunks st) as [|h0 l0] eqn:Eh; [done|]. rewrite <-Eh in *. clear Eh. cbn [apply_action_batch].
  pose proof (account_files action (hunks st) s) as Ef. set (s1 := fold_left _ (hunks st) s) in *. clearbody s1.
  rewrite <-Ef in Hst. destruct action; cbv zeta iota.
  - intros [= <- <- <-]. rewrite app_nil_r. split; [done|]. split; [intros q Hq; by rewrite accept_batch_other, Ef by done|].
    destruct (accept_file s1 p st _ Hst HF Hne Hrev) as (st' & ? & ? & ? & ?). by exists st'.
  - destruct (reject_hunks_batch w p (hunks st) s1) as [[w2 s2] r2] eqn:E2.
    pose proof (λ q Hq, reject_batch_other w p q (hunks st) s1 w2 s2 r2 Hq E2) as Hother.
    apply (reject_file s1 p st _ Hst HF Hne Hrev) in E2. destruct r2; intros [= <- <- <-].
    + rewrite app_nil_r. split; [done|]. split; [intros q Hq; by rewrite Hother, Ef|]. exact E2.
    + destruct E2 as (? & -> & ->). done.
Qed.

End Laws.
End FileReview.

(** * The hunks of a turn *)

Module TurnHunks.
Section Laws.
Context `{LawfulDiff}.

Lemma elem_of_all w s h : walks w → h ∈ get_all_hunks w s ↔ ∃ p st, file_states s !! p = Some st ∧ h ∈ hunks st.
Proof.
  intros Hw. unfold get_all_hunks. rewrite list_elem_of_bind. split.
  - intros (p & Hh & Hp). destruct (file_states s !! p) as [st|] eqn:E; cbn in Hh; [eauto|]. by apply not_elem_of_nil in Hh.
  - intros (p & st & E & Hh). exists p. rewrite E. split; [done|]. apply elem_of_keys; [done|by eexists].
Qed.

Lemma NoDup_all lost w s : walks w → Inv lost s → NoDup (id <$> get_all_hunks w s).
Proof.
  intros Hw HI. unfold get_all_hunks. pose proof (NoDup_keys w (file_states s) Hw) as Hnd. revert Hnd.
  generalize (keys_of w (file_states s)). intros ps. induction 1 as [|p ps Hp _ IH]; [constructor|].
  rewrite bind_cons, fmap_app. apply NoDup_app. split_and!; [|..|done].
  - destruct (file_states s !! p) as [st|] eqn:E; [|constructor]. by destruct (inv_file _ _ HI p st E).
  - intros i Hi Hi'. destruct (file_states s !! p) as [st|] eqn:E; cbn in Hi; [|by apply not_elem_of_nil in Hi].
    apply list_elem_of_fmap in Hi as (h & -> & Hh). apply list_elem_of_fmap in Hi' as (h' & Ei & Hh').
    apply list_elem_of_bind in Hh' as (q & Hh' & Hq). destruct (file_states s !! q) as [st'|] eqn:E'; cbn in Hh'; [|by apply not_elem_of_nil in Hh'].
    apply Hp. by rewrite (inv_unique _ _ HI p q st st' h h').
Qed.

Lemma NoDup_by_id (hs : list Hunk) h h' : NoDup (id <$> hs) → h ∈ hs → h' ∈ hs → id h = id h' → h = h'.
Proof.
  intros Hnd [i Hi]%list_elem_of_lookup [j Hj]%list_elem_of_lookup E.
  assert (i = j) as ->; [|congruence]. eapply (NoDup_lookup _ i j (id h) Hnd); rewrite list_lookup_fmap, ?Hi, ?Hj; cbn; congruence.
Qed.

Lemma get_hunk_spec lost w s i h : walks w → Inv lost s → get_hunk w i s = Some h ↔ h ∈ get_all_hunks w s ∧ id h = i.
Proof.
  intros Hw HI. pose proof (NoDup_all _ _ _ Hw HI) as Hnd. unfold get_hunk. split.
  - destruct (list_find _ _) as [[j x]|] eqn:E; [|done]. cbn. intros [= <-]. apply list_find_Some in E as (Hj & Hi & _).
    split; [by eapply list_elem_of_lookup_2|done].
  - intros [Hh Hi]. destruct (list_find_elem_of (λ h, id h = i) _ _ Hh Hi) as [[j x] E]. rewrite E. cbn. f_equal.
    apply list_find_Some in E as (Hj & Hx & _). eapply NoDup_by_id; [exact Hnd|by eapply list_elem_of_lookup_2|done|congruence].
Qed.

Lemma turn_hunks_Permutation w s k : walks w → Inv ∅ s →
  get_hunks_for_turn w k s ≡ₚ filter (λ h, of_turn k h = true) (get_all_hunks w s).
Proof.
  intros Hw HI. pose proof (NoDup_all _ _ _ Hw HI) as Hnd.
  assert (Hin : ∀ h, h ∈ get_hunks_for_turn w k s ↔ h ∈ get_all_hunks w s ∧ id h ∈ turn_ids s k).
  { intros h. unfold get_hunks_for_turn, turn_ids. destruct (turn_index s !! k) as [ids|]; cbn.
    - rewrite list_elem_of_omap. split.
      + intros (i & Hi & E). apply (get_hunk_spec ∅ w s i h Hw HI) in E as [? <-]. by rewrite elem_of_elements in Hi.
      + intros [Hh Hi]. exists (id h). rewrite elem_of_elements. split; [done|]. by apply (get_hunk_spec ∅ w s _ h Hw HI).
    - split; [by intros ?%not_elem_of_nil|set_solver]. }
  apply NoDup_Permutation.
  - unfold get_hunks_for_turn. destruct (turn_index s !! k) as [ids|]; [|constructor].
    pose proof (NoDup_elements ids) as Hids. revert Hids. generalize (elements ids). intros l.
    induction 1 as [|i l Hi _ IH]; [constructor|]. cbn [omap list_omap]. destruct (get_hunk w i s) as [h|] eqn:E; [|exact IH].
    constructor; [|exact IH]. intros (j & Hj & E')%list_elem_of_omap. apply Hi.
    apply (get_hunk_spec ∅ w s i h Hw HI) in E as [_ <-]. apply (get_hunk_spec ∅ w s j h Hw HI) in E' as [_ <-]. done.
  - apply NoDup_filter. by eapply NoDup_fmap_1.
  - intros h. rewrite Hin, list_elem_of_filter. unfold of_turn. rewrite bool_decide_eq_true, elem_of_all by done. split.
    + intros [(p & st & Hp & Hh) Hi]. split; [|eauto]. destruct (inv_indexed _ _ HI k (id h) Hi) as [_ Hall]. by apply (Hall p st h).
    + intros [Hk (p & st & Hp & Hh)]. split; [eauto|]. apply (inv_complete _ _ HI p st h k Hp Hh Hk). set_solver.
Qed.

End Laws.

Import Reachable.

(** Asking for a turn gives exactly the hunks attributed to it, each once, and acting
    on the turn acts on the same hunks, as long as the disk has refused no rejection:
    the index that answers and the attributions of the hunks agree. *)
Theorem turn_hunks_exact `{LawfulDiff} dir m w s k : reachable dir m w s false →
  get_hunks_for_turn w k s ≡ₚ filter (λ h, of_turn k h = true) (get_all_hunks w s) ∧
  NoDup (id <$> get_hunks_for_turn w k s) ∧
  NoDup (files_of_turn w k s).*1 ∧
  ∀ h, h ∈ get_hunks_for_turn w k s ↔ ∃ p hs, (p, hs) ∈ files_of_turn w k s ∧ h ∈ hs.
Proof.
  intros Hr. apply reachable_Inv in Hr as (Hw & lost & HI & Hl). rewrite (Hl eq_refl) in HI.
  pose proof (turn_hunks_Permutation w s k Hw HI) as Hp. split_and!; [done|..].
  - rewrite Hp. eapply sublist_NoDup; [apply (NoDup_all _ _ _ Hw HI)|]. apply sublist_fmap, sublist_filter.
  - apply (files_of_turn_ok w k s Hw).
  - intros h. rewrite Hp, list_elem_of_filter. setoid_rewrite files_of_turn_elem; [|done]. split.
    + intros [Ht (p & st & Hst & Hh)%elem_of_all]; [|done]. assert (Hf : h ∈ filter (λ h, of_turn k h = true) (hunks st)) by by apply list_elem_of_filter.
      exists p, (filter (λ h, of_turn k h = true) (hunks st)). split; [|done]. apply files_with_elem; [done|]. exists st. split_and!; [done..|].
      intros E. rewrite E in Hf. by apply not_elem_of_nil in Hf.
    + intros (p & hs & Hin & Hh). apply files_with_elem in Hin as (st & Hst & -> & _); [|done].
      apply list_elem_of_filter in Hh as [Ht Hh]. split; [done|]. apply elem_of_all; eauto.
Qed.

End TurnHunks.

(** * Batched notifications *)

Module BatchedChanges.
Section Diffed.
Context `{LineDiff}.
Context (w : World).

(** What any read of the repository leaves behind, and what it gives. *)
Definition settled (s : Actor) : GitRepoState :=
  match git_repo_state s with
  | NotARepo => NotARepo
  | cached =>
      match open_or_discover w cached (working_dir s) with
      | None => match cached with Unknown => NotARepo | c => c end
      | Some (_, _, Some (r, p)) => Discovered r p
      | Some (_, _, None) => cached
      end
  end.
Definition settle (s : Actor) : Actor := set_repo (settled s) s.
Definition located (s : Actor) : option (string * string) :=
  match git_repo_state s with
  | NotARepo => None
  | cached => fst <$> open_or_discover w cached (working_dir s)
  end.
Definition head_content (s : Actor) (p : string) : FileContentState :=
  match located s with
  | None => missing_content
  | Some (repo, prefix) => default missing_content (lookup_head w repo prefix (working_dir s) p)
  end.

Lemma set_repo_id s : set_repo (git_repo_state s) s = s.
Proof. by destruct s. Qed.

Lemma with_repo_spec {A} (d : A) r s :
  with_repo w d r s = (match located s with None => d | Some (repo, prefix) => r repo prefix end, settle s).
Proof.
  unfold with_repo, located, settle, settled. pose proof (set_repo_id s) as Hid.
  destruct (git_repo_state s) eqn:E; [|by rewrite Hid|];
    destruct (open_or_discover _ _ _) as [[[r0 p0] [[r1 p1]|]]|]; cbn; by rewrite ?Hid.
Qed.

Lemma settled_settle s : settled (settle s) = settled s ∧ located (settle s) = located s.
Proof.
  unfold settle, settled, located. cbn [git_repo_state set_repo working_dir].
  destruct (git_repo_state s) as [| |r p]; [|done|done].
  cbn [open_or_discover]. destruct (discover w (working_dir s)) as [repo|]; [|done]. cbn.
  destruct (workdir (repo_at w repo)) as [root|]; [|done]. cbn.
  by destruct (path_strip_prefix _ _) as [prefix|].
Qed.

Lemma settle_idem s : settle (settle s) = settle s.
Proof. unfold settle at 1. rewrite (proj1 (settled_settle s)). done. Qed.
Lemma head_settle s p : head_content (settle s) p = head_content s p.
Proof. unfold head_content. by rewrite (proj2 (settled_settle s)). Qed.

Lemma read_baseline_spec p s : read_baseline w p s = (head_content s p, settle s).
Proof. unfold read_baseline. rewrite with_repo_spec. unfold head_content. by destruct (located s) as [[??]|]. Qed.

Lemma read_batch_spec p ps s : NoDup (p :: ps) →
  (∀ q b, (read_baselines_batch w (p :: ps) s).1 !! q = Some b → b = head_content s q) ∧
  (read_baselines_batch w (p :: ps) s).2 = settle s.
Proof.
  intros Hnd. unfold read_baselines_batch. rewrite bool_decide_eq_false_2 by done. cbn [orb].
  case_bool_decide as E.
  - cbn [fst snd]. split; [by intros q b; rewrite lookup_empty|]. unfold settle, settled. rewrite E. cbn. rewrite <-E. by rewrite set_repo_id.
  - rewrite with_repo_spec. split; [|done]. cbn [fst]. intros q b Hq. unfold head_content.
    assert (Hmap : ∀ f : string → FileContentState, (list_to_map ((λ p, (p, f p)) <$> p :: ps) : gmap string FileContentState) !! q = Some b → b = f q).
    { intros f Hl. apply elem_of_list_to_map_2 in Hl. apply list_elem_of_fmap in Hl as (y & [= -> ->] & _). done. }
    destruct (located s) as [[r0 p0]|]; [by apply (Hmap (λ p, default missing_content (lookup_head w r0 p0 (working_dir s) p)))|
                                          by apply (Hmap (λ _, missing_content))].
Qed.

(** Reading nothing, a handler does the same before and after. *)
Lemma recompute_set_repo r p c src s : recompute_hunks p c src (set_repo r s) = set_repo r (recompute_hunks p c src s).
Proof. unfold recompute_hunks. cbn [file_states set_repo]. by destruct (file_states s !! p). Qed.

Definition same_env (s s' : Actor) : Prop :=
  git_repo_state s' = git_repo_state s ∧ working_dir s' = working_dir s ∧ mode s' = mode s ∧ git_dirty_cache s' = git_dirty_cache s.
Lemma recompute_env p c src s : same_env s (recompute_hunks p c src s).
Proof. unfold recompute_hunks. by destruct (file_states s !! p). Qed.

Lemma env_settled s s' : same_env s s' → settled s' = settled s ∧ ∀ p, head_content s' p = head_content s p.
Proof. intros (E1 & E2 & _). unfold settled, head_content, located. by rewrite E1, E2. Qed.

(** A change that reads no baseline leaves the repository state alone. *)
Lemma take_given p pre s : is_Some pre → take_baseline w pre p s = (default missing_content pre, s).
Proof. by intros [b ->]. Qed.

Lemma process_env p pre s : needs_baseline s p = false ∨ is_Some pre → same_env s (process_file_change w p pre s).
Proof.
  intros Hpre. unfold process_file_change, needs_baseline in *.
  destruct (_ && negb (contains_key p s)) eqn:E1; [done|]. destruct (contains_key p s) eqn:E2; cbn [negb orb] in *; rewrite ?andb_false_r, ?andb_true_r.
  - destruct (default false _) eqn:E3; [|apply recompute_env]. destruct Hpre as [?|Hpre]; [done|]. rewrite (take_given _ _ _ Hpre).
    destruct (matches_head _ _ _ _); [|apply recompute_env]. by destruct (file_states s !! p).
  - destruct Hpre as [?|Hpre]; [done|]. rewrite !(take_given _ _ _ Hpre). destruct (negb (is_diffable _)).
    + destruct (bool_decide (mode s = AllDirty)); destruct (is_ignored _ _ _ _); try done; destruct (is_diffable _); try done;
        apply (recompute_env _ _ _ (send_event _ (insert_file p _ s))).
    + destruct (is_ignored _ _ _ _); [done|]. apply (recompute_env _ _ _ (send_event _ (insert_file p _ s))).
Qed.

Lemma process_set_repo p pre r s : needs_baseline s p = false ∨ is_Some pre →
  process_file_change w p pre (set_repo r s) = set_repo r (process_file_change w p pre s).
Proof.
  intros Hpre. unfold process_file_change, needs_baseline in *.
  change (mode (set_repo r s)) with (mode s). change (contains_key p (set_repo r s)) with (contains_key p s).
  change (file_states (set_repo r s)) with (file_states s).
  destruct (_ && negb (contains_key p s)) eqn:E1; [done|]. destruct (contains_key p s) eqn:E2; cbn [negb orb] in *; rewrite ?andb_false_r, ?andb_true_r.
  - destruct (default false _) eqn:E3; [|apply recompute_set_repo]. destruct Hpre as [?|Hpre]; [done|]. rewrite !(take_given _ _ _ Hpre).
    change (matches_head (set_repo r s)) with (matches_head s). destruct (matches_head _ _ _ _); [|apply recompute_set_repo].
    change (file_states (set_repo r s)) with (file_states s). by destruct (file_states s !! p).
  - destruct Hpre as [?|Hpre]; [done|]. rewrite !(take_given _ _ _ Hpre). destruct (negb (is_diffable _)).
    + destruct (bool_decide (mode s = AllDirty)) eqn:Em;
        change (is_ignored w p ?b (set_repo r s)) with (is_ignored w p b s); destruct (is_ignored _ _ _ _); try done;
        destruct (is_diffable _); try done; apply (recompute_set_repo r p _ _ (send_event _ (insert_file p _ s))).
    + change (is_ignored w p ?b (set_repo r s)) with (is_ignored w p b s). destruct (is_ignored _ _ _ _); [done|].
      apply (recompute_set_repo r p _ _ (send_event _ (insert_file p _ s))).
Qed.

(** A change that reads its baseline does so first: it is the change given that
    baseline, on the settled state. *)
Lemma process_reads p s : needs_baseline s p = true →
  process_file_change w p None s = process_file_change w p (Some (head_content s p)) (settle s).
Proof.
  intros Hn. unfold process_file_change, needs_baseline in *.
  change (mode (settle s)) with (mode s). change (contains_key p (settle s)) with (contains_key p s).
  change (file_states (settle s)) with (file_states s). change (take_baseline w None p s) with (read_baseline w p s).
  rewrite read_baseline_spec. cbn [take_baseline].
  destruct (bool_decide (mode s = AgentOnly) && negb (contains_key p s)) eqn:E1; [done|].
  destruct (contains_key p s) eqn:E2; cbn [negb orb] in *; rewrite ?andb_false_r, ?andb_true_r in *.
  - by rewrite Hn.
  - destruct (negb (is_diffable _)); [|done]. destruct (mode s); [done|]. done.
Qed.

Lemma process_given p b s : needs_baseline s p = false → process_file_change w p (Some b) s = process_file_change w p None s.
Proof.
  intros Hn. unfold process_file_change, needs_baseline in *.
  destruct (bool_decide (mode s = AgentOnly) && negb (contains_key p s)) eqn:E1; [done|].
  destruct (contains_key p s) eqn:E2; cbn [negb orb] in *; [|done]. rewrite ?andb_false_r. by rewrite Hn.
Qed.

(** Other files are not touched. *)
Lemma process_other p q pre s : q ≠ p → file_states (process_file_change w p pre s) !! q = file_states s !! q.
Proof.
  intros Hne. unfold process_file_change.
  assert (Htake : ∀ t, file_states (take_baseline w pre p t).2 = file_states t).
  { intros t. unfold take_baseline. destruct pre; [done|]. by rewrite read_baseline_spec. }
  specialize (Htake s). destruct (take_baseline w pre p s) as [b s1] eqn:Et. cbn in Htake.
  destruct (_ && negb _); [done|]. destruct (_ && _).
  { destruct (bool_decide (mode s = AllDirty)); destruct (is_ignored _ _ _ _); try (by rewrite ?Htake); destruct (is_diffable _);
      rewrite ?(TrackerInvariant.recompute_other p q) by done; cbn; by rewrite lookup_insert_ne, ?Htake. }
  destruct (negb _).
  { destruct (is_ignored _ _ _ _); [by rewrite Htake|].
    rewrite (TrackerInvariant.recompute_other p q) by done. cbn. by rewrite lookup_insert_ne, Htake. }
  destruct (default false _); [|by apply TrackerInvariant.recompute_other].
  destruct (matches_head _ _ _ _); [|by rewrite TrackerInvariant.recompute_other, Htake].
  destruct (file_states s1 !! p); [|by rewrite Htake]. cbn. by rewrite lookup_insert_ne, Htake.
Qed.

Lemma settle_eq s : settled s = git_repo_state s → settle s = s.
Proof. intros E. unfold settle. rewrite E. apply set_repo_id. Qed.

Lemma process_settled p s : settle s = s → same_env s (process_file_change w p None s).
Proof.
  intros Hs. destruct (needs_baseline s p) eqn:En; [|apply process_env; by left].
  rewrite (process_reads p s En), Hs. apply process_env. by right.
Qed.

Lemma settled_env s s' : same_env s s' → settle s = s → settle s' = s'.
Proof.
  intros He Hs. apply settle_eq. rewrite (proj1 (env_settled _ _ He)). destruct He as (-> & _).
  rewrite <-Hs at 2. done.
Qed.

Lemma needs_other p q pre s : q ≠ p → (needs_baseline s p = false ∨ is_Some pre) →
  needs_baseline (process_file_change w p pre s) q = needs_baseline s q.
Proof.
  intros Hne Hpre. unfold needs_baseline, contains_key. rewrite process_other by done.
  by destruct (process_env p pre s Hpre) as (_ & _ & -> & _).
Qed.

(** With the baselines at hand. *)
Lemma fold_given ps : ∀ bs s, NoDup ps → settle s = s → (∀ q b, bs !! q = Some b → b = head_content s q) →
  (fold_left (λ '(bs, s) p, (delete p bs, process_file_change w p (bs !! p) s)) ps (bs : gmap string FileContentState, s)).2 =
  fold_left (λ s p, handle_file_change w p s) ps s.
Proof.
  induction ps as [|p ps IH]; intros bs s Hnd Hs Hbs; [done|]. apply NoDup_cons in Hnd as [_ Hnd]. cbn [fold_left].
  assert (E : process_file_change w p (bs !! p) s = handle_file_change w p s).
  { unfold handle_file_change. destruct (bs !! p) as [b|] eqn:Eb; [|done]. destruct (needs_baseline s p) eqn:En.
    - by rewrite (process_reads p s En), Hs, (Hbs p b Eb).
    - by apply process_given. }
  rewrite E. pose proof (process_settled p s Hs : same_env s (handle_file_change w p s)) as He. apply IH; [done|by eapply settled_env|].
  intros q b [_ Hq]%lookup_delete_Some. rewrite (proj2 (env_settled _ _ He) q). by apply Hbs.
Qed.

(** Settling first changes nothing where something is read. *)
Lemma fold_settles ps : ∀ s, NoDup ps → (∃ p, p ∈ ps ∧ needs_baseline s p = true) →
  fold_left (λ s p, handle_file_change w p s) ps (settle s) = fold_left (λ s p, handle_file_change w p s) ps s.
Proof.
  induction ps as [|p ps IH]; intros s Hnd (q & Hq & En); [by apply not_elem_of_nil in Hq|].
  apply NoDup_cons in Hnd as [Hp Hnd]. cbn [fold_left]. unfold handle_file_change at 2 4.
  destruct (needs_baseline s p) eqn:Ep.
  - rewrite (process_reads p s Ep), (process_reads p (settle s)) by exact Ep. by rewrite head_settle, settle_idem.
  - apply elem_of_cons in Hq as [->|Hq]; [congruence|].
    assert (E : process_file_change w p None (settle s) = settle (process_file_change w p None s)).
    { unfold settle at 1. rewrite process_set_repo by by left. unfold settle.
      by rewrite (proj1 (env_settled _ _ (process_env p None s (or_introl Ep)))). }
    rewrite E. apply IH; [done|]. exists q. split; [done|].
    rewrite needs_other; [done| |by left]. by intros ->.
Qed.

End Diffed.

(** Handling the changed files of a batch, whose baselines are read from git in one go,
    leaves exactly the state, repository discovery and events included, that handling
    them one after the other with a read each does. *)
Theorem batched_changes_sequential `{LineDiff} w ps s : NoDup ps →
  handle_file_changes_batch w ps s = fold_left (λ s p, handle_file_change w p s) ps s.
Proof.
  intros Hnd. unfold handle_file_changes_batch. destruct ps as [|p0 ps0]; [done|].
  set (ps := p0 :: ps0) in *. destruct (filter _ ps) as [|q qs] eqn:Ef.
  - assert (Hnone : ∀ l (bs : gmap string FileContentState) t, bs = ∅ →
      (fold_left (λ '(bs, s) p, (delete p bs, process_file_change w p (bs !! p) s)) l (bs, t)).2 = fold_left (λ s p, handle_file_change w p s) l t).
    { induction l as [|p l IH]; intros bs t ->; [done|]. cbn [fold_left]. rewrite lookup_empty. by apply IH, delete_empty. }
    by apply Hnone.
  - assert (Hq : NoDup (q :: qs)) by (rewrite <-Ef; by apply NoDup_filter).
    destruct (read_batch_spec w q qs s Hq) as [Hbs Hs]. destruct (read_baselines_batch w (q :: qs) s) as [bs s1]. cbn in Hbs, Hs. subst s1.
    rewrite fold_given; [|done|apply settle_idem|by intros; rewrite head_settle; apply Hbs].
    apply fold_settles; [done|]. exists q. assert (Hin : q ∈ filter (λ p, needs_baseline s p = true) ps) by (rewrite Ef; by left).
    by apply list_elem_of_filter in Hin as [??].
Qed.

End BatchedChanges.

(** * Coalescing *)

Module Coalescing.

(** What a command says about a path: [true] for a deletion. *)
Definition note_of (p : string) (cmd : HunkTrackerCommand) : option bool :=
  match cmd with
  | HandleFileChange q => if bool_decide (q = p) then Some false else None
  | HandleFileDeleted q => if bool_decide (q = p) then Some true else None
  | _ => None
  end.
Definition coalesced (notes : list bool) : option CoalescedPathAction :=
  match last notes with
  | None => None
  | Some true => Some Deleted
  | Some false => Some (if existsb (λ n, n) notes then DeletedThenChanged else Changed)
  end.

Definition batch_of (cmds : list HunkTrackerCommand) : CoalescedBatch := fold_left (λ b c, add c b) cmds CoalescedBatch_new.

Lemma batch_snoc cmds c : batch_of (cmds ++ [c]) = add c (batch_of cmds).
Proof. unfold batch_of. by rewrite fold_left_app. Qed.

Lemma coalesced_snoc notes n : coalesced (notes ++ [n]) =
  Some (if n then Deleted else if existsb (λ n, n) notes then DeletedThenChanged else Changed).
Proof. unfold coalesced. rewrite last_snoc. destruct n; [done|]. by rewrite existsb_app, orb_false_r. Qed.

Lemma coalesced_any notes : coalesced notes = None ∧ existsb (λ n, n) notes = false ∨
  coalesced notes = Some Changed ∧ existsb (λ n, n) notes = false ∨
  (coalesced notes = Some Deleted ∨ coalesced notes = Some DeletedThenChanged) ∧ existsb (λ n, n) notes = true.
Proof.
  induction notes as [|n l _] using rev_ind; [by left|].
  rewrite coalesced_snoc, existsb_app. destruct n; cbn; rewrite ?orb_true_r, ?orb_false_r; [right; right; auto|].
  destruct (existsb _ l); auto.
Qed.

(** Queued commands lose nothing but repetition: for every path the last notification
    decides, with a mark when it was deleted in between; both refreshes are
    remembered; all other commands stay, in order. *)
Theorem coalescing_exact first queued :
  let cmds := first :: queued in
  let b := drain_and_coalesce first queued in
  (∀ p, file_actions b !! p = coalesced (omap (note_of p) cmds)) ∧
  refresh_all b = existsb (λ c, match c with RefreshAllBaselines => true | _ => false end) cmds ∧
  refresh_dirty b = existsb (λ c, match c with RefreshGitDirtyCache => true | _ => false end) cmds ∧
  other_commands b = filter (λ c, is_coalescable c = false) cmds ∧
  command_count b = length cmds.
Proof.
  intros cmds b. assert (Hb : b = batch_of cmds) by done. rewrite Hb. clear Hb b. generalize cmds. clear. intros cmds.
  induction cmds as [|c cmds (IH1 & IH2 & IH3 & IH4 & IH5)] using rev_ind.
  { by split_and!. }
  rewrite batch_snoc, !existsb_app, filter_app, length_app. cbn [existsb length]. rewrite !orb_false_r.
  split_and!.
  - intros p. rewrite omap_app. specialize (IH1 p).
    destruct c as [q c' k prev|q|q| |q|m|i a|q a|a|k a| | |snap|]; cbn [omap list_omap note_of add file_actions];
      rewrite ?app_nil_r; try exact IH1.
    + destruct (decide (q = p)) as [->|Hne].
      * rewrite lookup_insert, decide_True, bool_decide_eq_true_2, coalesced_snoc, IH1 by done.
        destruct (coalesced_any (omap (note_of p) cmds)) as [[-> ->]|[[-> ->]|[[E|E] ->]]]; rewrite ?E; done.
      * rewrite lookup_insert_ne, bool_decide_eq_false_2, app_nil_r by done. exact IH1.
    + destruct (decide (q = p)) as [->|Hne].
      * by rewrite lookup_insert, decide_True, bool_decide_eq_true_2, coalesced_snoc by done.
      * rewrite lookup_insert_ne, bool_decide_eq_false_2, app_nil_r by done. exact IH1.
  - destruct c; cbn [add refresh_all]; rewrite ?IH2; by rewrite ?orb_true_r, ?orb_false_r.
  - destruct c; cbn [add refresh_dirty]; rewrite ?IH3; by rewrite ?orb_true_r, ?orb_false_r.
  - rewrite filter_cons, filter_nil. destruct c; cbn [add other_commands is_coalescable]; rewrite ?IH4;
      first [by rewrite decide_False, app_nil_r by done|by rewrite decide_True by done].
  - destruct c; cbn [add command_count]; rewrite IH5; lia.
Qed.

End Coalescing.

(** * The session summary *)

Module Summaries.

Definition agent_hunk (h : Hunk) : bool := is_agent_edit (source h).
Definition sum_of (f : Hunk → nat) (hs : list Hunk) : nat := sum_list (f <$> hs).
Definition added (h : Hunk) : nat := new_count (line_info h).
Definition removed (h : Hunk) : nat := old_count (line_info h).

Lemma agent_turn h : agent_hunk h = true ↔ ∃ k, prompt_index (source h) = Some k.
Proof. unfold agent_hunk. destruct (source h); cbn; split; try done; [eauto|by intros [? ?]..]. Qed.
Lemma agent_none h : agent_hunk h = false ↔ prompt_index (source h) = None.
Proof. unfold agent_hunk. by destruct (source h). Qed.

Lemma sum_list_app l l' : sum_list (l ++ l') = sum_list l + sum_list l'.
Proof. unfold sum_list. induction l as [|x l IH]; cbn; [done|]. rewrite IH. lia. Qed.
#[local] Instance sum_list_proper : Proper ((≡ₚ) ==> (=)) sum_list.
Proof. unfold sum_list. induction 1; cbn; lia. Qed.

(** What has been collected from a list of hunks, each with its file. *)
Definition of_list (l : list (string * Hunk)) (k : N) : option TurnData :=
  match filter (λ e, of_turn k e.2 = true) l with
  | [] => None
  | es => Some (MkTurnData (list_to_set es.*1) es.*2 (sum_of added es.*2) (sum_of removed es.*2))
  end.
Definition total (f : TurnData → nat) (m : gmap N TurnData) : nat := sum_list (f <$> (map_to_list m).*2).

Lemma total_fresh f m k d : m !! k = None → total f (<[k := d]> m) = f d + total f m.
Proof. intros E. unfold total. by rewrite map_to_list_insert. Qed.

Lemma total_insert f m k d : total f (<[k := d]> m) + default 0 (f <$> m !! k) = total f m + f d.
Proof.
  destruct (m !! k) as [d0|] eqn:E; cbn [fmap option_fmap option_map default from_option Datatypes.id].
  - assert (Em : m = <[k := d0]> (delete k m)) by by rewrite insert_delete_id.
    rewrite Em at 2. rewrite <-(insert_delete_eq m k d). rewrite !total_fresh by apply lookup_delete_eq. unfold Datatypes.id. lia.
  - rewrite total_fresh by done. lia.
Qed.

Record CInv (l : list (string * Hunk)) (c : Collected) : Prop := {
  ci_prompt k : by_prompt c !! k = of_list l k;
  ci_none : unattributed c = length (filter (λ h, agent_hunk h = false) l.*2);
  ci_total f g : f TurnData_default = 0 → (∀ p h d, f (add_pending p h d) = f d + g h) →
    total f (by_prompt c) = sum_of g (filter (λ h, agent_hunk h = true) l.*2);
}.

Lemma list_filter_snoc {A : Type} (P : A → Prop) `{!∀ x, Decision (P x)} (l : list A) x :
  filter P (l ++ [x]) = filter P l ++ (if decide (P x) then [x] else []).
Proof. rewrite filter_app, filter_cons, filter_nil. by destruct (decide (P x)). Qed.

Lemma of_list_snoc l p h k : of_list (l ++ [(p, h)]) k =
  if bool_decide (prompt_index (source h) = Some k) then Some (add_pending p h (default TurnData_default (of_list l k))) else of_list l k.
Proof.
  assert (Hd : ∀ a a' b c c' d d', a = a' → c = c' → d = d' → Some (MkTurnData a b c d) = Some (MkTurnData a' b c' d')) by congruence.
  unfold of_list. rewrite list_filter_snoc. unfold of_turn. cbn [snd]. case_bool_decide as E.
  - rewrite decide_True by done. destruct (filter _ l) as [|e es] eqn:Ef; cbn [app].
    + apply Hd; cbn; [set_solver|unfold added; lia|unfold removed; lia].
    + set (l' := e :: es). change (e :: es ++ [(p, h)]) with (l' ++ [(p, h)]).
      unfold sum_of. rewrite !fmap_app, !sum_list_app. cbn [default from_option]. unfold add_pending. cbn [fmap list_fmap snd fst].
      apply Hd; [rewrite list_to_set_app_L; cbn; set_solver|unfold added; cbn; lia|unfold removed; cbn; lia].
  - rewrite decide_False by done. by rewrite app_nil_r.
Qed.

Lemma snoc_snd (l : list (string * Hunk)) p h : (l ++ [(p, h)]).*2 = l.*2 ++ [h].
Proof. by rewrite fmap_app. Qed.

Lemma collect_hunk_inv l c p h : CInv l c → CInv (l ++ [(p, h)]) (collect_hunk p c h).
Proof.
  intros [Hp Hn Ht]. unfold collect_hunk. destruct (prompt_index (source h)) as [k|] eqn:E.
  - assert (Ha : agent_hunk h = true) by (apply agent_turn; eauto). split; cbn [by_prompt unattributed].
    + intros k'. rewrite of_list_snoc. destruct (decide (k' = k)) as [->|Hne].
      * by rewrite lookup_insert, decide_True, bool_decide_eq_true_2, Hp by done.
      * rewrite lookup_insert_ne, bool_decide_eq_false_2 by congruence. apply Hp.
    + rewrite snoc_snd, list_filter_snoc. cbn. rewrite Ha, decide_False, app_nil_r by done. exact Hn.
    + intros f g Hf0 Hf. rewrite snoc_snd, list_filter_snoc. cbn. rewrite Ha, decide_True by done.
      unfold sum_of. rewrite fmap_app, sum_list_app. fold (sum_of g (filter (λ h, agent_hunk h = true) l.*2)).
      rewrite <-(Ht f g Hf0 Hf). cbn. pose proof (total_insert f (by_prompt c) k (add_pending p h (default TurnData_default (by_prompt c !! k)))) as Hi.
      rewrite Hf in Hi. destruct (by_prompt c !! k); cbn in *; rewrite ?Hf0 in Hi; lia.
  - assert (Ha : agent_hunk h = false) by by apply agent_none. split; cbn [by_prompt unattributed].
    + intros k'. rewrite of_list_snoc, E, bool_decide_eq_false_2 by done. apply Hp.
    + rewrite snoc_snd, list_filter_snoc. cbn. rewrite Ha, decide_True by done. rewrite length_app, Hn. cbn. lia.
    + intros f g Hf0 Hf. rewrite snoc_snd, list_filter_snoc. cbn. rewrite Ha, decide_False, app_nil_r by done. by apply Ht.
Qed.

Definition hunks_at (s : Actor) (p : string) : list Hunk := default [] (hunks <$> file_states s !! p).

Lemma collect_file_inv s l c p : CInv l c → CInv (l ++ (pair p <$> hunks_at s p)) (collect_file s c p) ∧
  modified (collect_file s c p) = (if existsb agent_hunk (hunks_at s p) then {[p]} else ∅) ∪ modified c.
Proof.
  intros HC. unfold collect_file, hunks_at. destruct (file_states s !! p) as [st|]; cbn [fmap option_fmap option_map default from_option];
    [|cbn; rewrite app_nil_r; split; [done|set_solver]].
  assert (Hfold : ∀ hs l c, CInv l c → CInv (l ++ (pair p <$> hs)) (fold_left (collect_hunk p) hs c) ∧
    modified (fold_left (collect_hunk p) hs c) = modified c).
  { induction hs as [|h hs IH]; intros l0 c0 H0; cbn [fold_left fmap list_fmap]; [by rewrite app_nil_r|].
    destruct (IH (l0 ++ [(p, h)]) (collect_hunk p c0 h) (collect_hunk_inv _ _ _ _ H0)) as [H1 H2]. rewrite <-app_assoc in H1.
    split; [exact H1|]. rewrite H2. unfold collect_hunk. by destruct (prompt_index _). }
  destruct (Hfold (hunks st) l c HC) as [[H1 H2 H3] H4]. unfold default, Datatypes.id.
  change (existsb (λ h, is_agent_edit (source h)) (hunks st)) with (existsb agent_hunk (hunks st)).
  destruct (existsb agent_hunk (hunks st)); cbn; split; try (by split); rewrite H4; set_solver.
Qed.

(** Every hunk with its file, in the order of the walk. *)
Definition with_files (s : Actor) (ps : list string) : list (string * Hunk) := ps ≫= λ p, pair p <$> hunks_at s p.

Lemma with_files_snd s ps : (with_files s ps).*2 = ps ≫= hunks_at s.
Proof.
  unfold with_files. induction ps as [|p ps IH]; [done|]. rewrite !bind_cons, fmap_app, IH. f_equal.
  rewrite <-list_fmap_compose. rewrite <-(list_fmap_id (hunks_at s p)) at 2. by apply list_fmap_ext.
Qed.

Lemma elem_of_with_files s ps p h : (p, h) ∈ with_files s ps ↔ p ∈ ps ∧ h ∈ hunks_at s p.
Proof.
  unfold with_files. rewrite list_elem_of_bind. split.
  - intros (q & Hin & Hq). apply list_elem_of_fmap in Hin as (x & [= -> ->] & Hx). done.
  - intros [Hp Hh]. exists p. split; [by apply list_elem_of_fmap_2|done].
Qed.

Lemma collect_all s ps : NoDup ps → let c := fold_left (collect_file s) ps (MkCollected ∅ ∅ 0) in
  CInv (with_files s ps) c ∧ modified c = list_to_set (filter (λ p, existsb agent_hunk (hunks_at s p) = true) ps).
Proof.
  cbv zeta. induction ps as [|p ps IH] using rev_ind; intros Hnd.
  - split; [|done]. split; [by intros k; cbn; rewrite lookup_empty|done|]. intros f g _ _. unfold total. cbn. by rewrite map_to_list_empty.
  - apply NoDup_app in Hnd as (Hnd & _). destruct (IH Hnd) as [H1 H2]. rewrite fold_left_app. cbn [fold_left].
    destruct (collect_file_inv s _ _ p H1) as [H3 H4]. split.
    + unfold with_files in *. rewrite bind_app, bind_cons. cbn. rewrite app_nil_r. exact H3.
    + rewrite H4, H2, list_filter_snoc, list_to_set_app_L. destruct (existsb agent_hunk (hunks_at s p)).
      * rewrite decide_True by done. cbn. set_solver.
      * rewrite decide_False by done. cbn. set_solver.
Qed.

Lemma of_list_Some l k d : of_list l k = Some d → let es := filter (λ e, of_turn k e.2 = true) l in
  es ≠ [] ∧ d = MkTurnData (list_to_set es.*1) es.*2 (sum_of added es.*2) (sum_of removed es.*2).
Proof. unfold of_list. by destruct (filter _ l) as [|e es] eqn:E; intros [= <-]. Qed.

Lemma filter_snd (P : Hunk → bool) (l : list (string * Hunk)) :
  (filter (λ e, P e.2 = true) l).*2 = filter (λ h, P h = true) l.*2.
Proof.
  induction l as [|[p h] l IH]; [done|]. rewrite fmap_cons, !filter_cons. cbn [snd].
  destruct (decide (P h = true)); [by rewrite fmap_cons, IH|exact IH].
Qed.

Lemma turns_sorted (m : gmap N TurnData) :
  StronglySorted N.lt (turn_prompt <$> sort_by by_turn (turn_of <$> map_to_list m)) ∧
  sort_by by_turn (turn_of <$> map_to_list m) ≡ₚ turn_of <$> map_to_list m.
Proof.
  pose proof (sort_by_Permutation by_turn (turn_of <$> map_to_list m)) as Hp. split; [|done].
  assert (Hs : StronglySorted (λ x y, by_turn x y = true) (sort_by by_turn (turn_of <$> map_to_list m))).
  { apply sort_by_sorted; unfold by_turn; intros *; rewrite ?bool_decide_eq_true, ?bool_decide_eq_false; lia. }
  assert (Hnd : NoDup (turn_prompt <$> sort_by by_turn (turn_of <$> map_to_list m))).
  { rewrite Hp, <-list_fmap_compose. apply (NoDup_fst_map_to_list m). }
  revert Hs Hnd. generalize (sort_by by_turn (turn_of <$> map_to_list m)). clear. intros l.
  induction 1 as [|t l _ IH Ht]; intros Hnd; [constructor|]. rewrite fmap_cons in *. apply NoDup_cons in Hnd as [Hn Hnd].
  constructor; [by apply IH|]. apply Forall_fmap, Forall_forall. intros x Hx. rewrite Forall_forall in Ht.
  specialize (Ht x Hx). unfold by_turn in Ht. apply bool_decide_eq_true in Ht. cbn.
  assert (turn_prompt t ≠ turn_prompt x); [|lia]. intros E. apply Hn. rewrite E. by apply list_elem_of_fmap_2.
Qed.

(** The turns made of what was collected. *)
Section Turns.
Context (l : list (string * Hunk)) (m : gmap N TurnData).
Context (Hp : ∀ k, m !! k = of_list l k).
Let ts := sort_by by_turn (turn_of <$> map_to_list m).

Lemma turn_keys k : k ∈ turn_prompt <$> ts ↔ ∃ h, h ∈ l.*2 ∧ of_turn k h = true.
Proof using Hp.
  unfold ts. rewrite (proj2 (turns_sorted m)), <-list_fmap_compose, list_elem_of_fmap. split.
  - intros ([k' d] & -> & Hin). apply elem_of_map_to_list in Hin. rewrite Hp in Hin. apply of_list_Some in Hin as [Hne _].
    cbn. destruct (filter _ l) as [|e es] eqn:E; [done|]. exists e.2.
    assert (He : e ∈ filter (λ e, of_turn k' e.2 = true) l) by (rewrite E; by left).
    apply list_elem_of_filter in He as [He1 He2]. split; [by apply list_elem_of_fmap_2|done].
  - intros (h & Hh & Hk). apply list_elem_of_fmap in Hh as (e & -> & He).
    destruct (m !! k) as [d|] eqn:E; [exists (k, d); split; [done|by apply elem_of_map_to_list]|].
    rewrite Hp in E. unfold of_list in E. destruct (filter _ l) eqn:Ef; [|done].
    assert (Hin : e ∈ filter (λ e, of_turn k e.2 = true) l) by by apply list_elem_of_filter.
    rewrite Ef in Hin. by apply not_elem_of_nil in Hin.
Qed.

Lemma turn_contents t : t ∈ ts →
  pending t = filter (λ h, of_turn (turn_prompt t) h = true) l.*2 ∧
  lines_added t = sum_of added (pending t) ∧ lines_removed t = sum_of removed (pending t) ∧ NoDup (turn_files t) ∧
  ∀ p, p ∈ turn_files t ↔ ∃ h, (p, h) ∈ l ∧ of_turn (turn_prompt t) h = true.
Proof using Hp.
  unfold ts. rewrite (proj2 (turns_sorted m)), list_elem_of_fmap. intros ([k d] & -> & Hin). apply elem_of_map_to_list in Hin.
  rewrite Hp in Hin. apply of_list_Some in Hin as [_ ->]. cbn. rewrite filter_snd. split_and!; try done; [apply NoDup_elements|].
  intros p. rewrite elem_of_elements, elem_of_list_to_set, list_elem_of_fmap. split.
  - intros ([q h] & -> & Hin). apply list_elem_of_filter in Hin as [Hk Hin]. eauto.
  - intros (h & Hin & Hk). exists (p, h). split; [done|]. by apply list_elem_of_filter.
Qed.

Lemma turn_sum (f : TurnSummary → nat) (f' : TurnData → nat) : (∀ e, f (turn_of e) = f' e.2) → sum_list (f <$> ts) = total f' m.
Proof using.
  intros Hf. unfold ts, total. rewrite (proj2 (turns_sorted m)), <-!list_fmap_compose. f_equal.
  apply list_fmap_ext. intros i e _. apply Hf.
Qed.
End Turns.

(** The summary of a session tells the truth about the pending changes: there is one
    turn for every prompt that has hunks, in prompt order, with exactly its hunks, its
    files and its lines; the totals are those of all agent hunks, what is left is
    counted as unattributed, and the file counts are those of files with agent hunks. *)
Theorem session_summary_exact w s : walks w →
  let sm := compute_session_summary w s in
  let all := get_all_hunks w s in
  let agents := filter (λ h, agent_hunk h = true) all in
  StronglySorted N.lt (turn_prompt <$> turns sm) ∧
  (∀ k, k ∈ turn_prompt <$> turns sm ↔ ∃ h, h ∈ all ∧ of_turn k h = true) ∧
  Forall (λ t,
    pending t = filter (λ h, of_turn (turn_prompt t) h = true) all ∧
    lines_added t = sum_of added (pending t) ∧ lines_removed t = sum_of removed (pending t) ∧
    NoDup (turn_files t) ∧
    ∀ p, p ∈ turn_files t ↔ existsb (of_turn (turn_prompt t)) (hunks_at s p) = true) (turns sm) ∧
  pending_hunks sm = length agents ∧ unattributed_pending sm + length agents = length all ∧
  pending_lines_added sm = sum_of added agents ∧ pending_lines_removed sm = sum_of removed agents ∧
  files_modified sm = length (filter (λ p, existsb agent_hunk (hunks_at s p) = true) (keys_of w (file_states s))) ∧
  files_with_pending sm = files_modified sm ∧ stats sm = session_stats s.
Proof.
  intros Hw sm all agents. pose proof (NoDup_keys w (file_states s) Hw) as Hnd.
  destruct (collect_all s (keys_of w (file_states s)) Hnd) as [[Hp Hn Ht] Hm].
  set (c := fold_left _ _ _) in *. set (l := with_files s (keys_of w (file_states s))) in *.
  assert (Hall : l.*2 = all) by apply with_files_snd. rewrite Hall in *. fold agents in Ht.
  assert (Hsum : ∀ f f' g, (∀ e, f (turn_of e) = f' e.2) → f' TurnData_default = 0 →
    (∀ p h d, f' (add_pending p h d) = f' d + g h) → sum_list (f <$> turns sm) = sum_of g agents).
  { intros f f' g Hf H0 Hadd. rewrite <-(Ht f' g H0 Hadd). by apply turn_sum. }
  split_and!; try done.
  - apply turns_sorted.
  - intros k. rewrite <-Hall. by apply turn_keys.
  - apply Forall_forall. intros t Hin. destruct (turn_contents l (by_prompt c) Hp t Hin) as (-> & -> & -> & ? & Hf).
    rewrite Hall. split_and!; try done. intros p. rewrite Hf, existsb_exists. split.
    + intros (h & [_ Hh]%elem_of_with_files & Hk). exists h. split; [by apply list_elem_of_In|done].
    + intros (h & Hh%list_elem_of_In & Hk). exists h. split; [|done]. apply elem_of_with_files. split; [|done].
      apply elem_of_keys; [done|]. unfold hunks_at in Hh. destruct (file_states s !! p); [by eexists|]. by apply not_elem_of_nil in Hh.
  - change (pending_hunks sm) with (sum_list ((λ t, length (pending t)) <$> turns sm)).
    rewrite (Hsum (λ t, length (pending t)) (λ d, length (td_pending d)) (λ _, 1));
      [|done|done|intros; cbn; by rewrite length_app].
    unfold sum_of, sum_list. clear. induction agents as [|h hs IH]; cbn; lia.
  - change (unattributed_pending sm) with (unattributed c). rewrite Hn. unfold agents. clear. induction all as [|h hs IH]; [done|]. rewrite !filter_cons.
    destruct (agent_hunk h); [rewrite decide_False, decide_True by done|rewrite decide_True, decide_False by done]; cbn; lia.
  - change (pending_lines_added sm) with (sum_list (lines_added <$> turns sm)). by rewrite (Hsum lines_added td_lines_added added).
  - change (pending_lines_removed sm) with (sum_list (lines_removed <$> turns sm)).
    by rewrite (Hsum lines_removed td_lines_removed removed).
  - change (files_modified sm) with (size (modified c)). rewrite Hm. apply size_list_to_set. by apply NoDup_filter.
Qed.

End Summaries.

(** * Snapshots and reading *)

Module Snapshots.

(** A snapshot put back into any tracker is the snapshot that tracker then gives, and
    the per-turn slice of the restored state is that of the original. *)
Theorem snapshot_roundtrip s0 s k :
  take_snapshot (restore_snapshot (take_snapshot s0) s) = take_snapshot s0 ∧
  take_turn_delta k (restore_snapshot (take_snapshot s0) s) = take_turn_delta k s0 ∧
  ∀ p, get_file_hunk_data p (restore_snapshot (take_snapshot s0) s) = get_file_hunk_data p s0.
Proof.
  assert (Hid : ∀ m : gmap string FileHunkState, snapshot_file_state <$> m = m) by apply snapshot_id.
  unfold take_turn_delta, restore_snapshot, take_snapshot, get_file_hunk_data. cbn. rewrite !Hid. done.
Qed.

Lemma str_take_take n m s : str_take n (str_take m s) = str_take (n `min` m) s.
Proof.
  revert n s. induction m as [|m IH]; intros n s; [by destruct n, s|].
  destruct n as [|n], s as [|a s]; try done. cbn [str_take Nat.min]. by rewrite IH.
Qed.

Lemma starts_with_take p n s : String.length p ≤ n → starts_with p (str_take n s) = starts_with p s.
Proof.
  revert n s. induction p as [|a p IH]; intros n s Hn; [done|]. cbn [String.length] in Hn.
  destruct n as [|n]; [lia|]. destruct s as [|b s]; [done|]. cbn [str_take]. rewrite !starts_with_cons.
  by rewrite IH by lia.
Qed.

Lemma lfs_prefix s : is_lfs_pointer (str_take 8000 s) = is_lfs_pointer s.
Proof.
  unfold is_lfs_pointer. rewrite starts_with_take by (apply Nat.leb_le; vm_compute; reflexivity). f_equal.
  assert (Hl : String.length (str_take 8000 s) = 8000 `min` String.length s).
  { generalize 8000. intros n. revert s. induction n as [|n IH]; intros [|a s]; try done. cbn. by rewrite IH. }
  assert (Hb : 1024 < 8000) by (apply Nat.ltb_lt; vm_compute; reflexivity).
  rewrite Hl. apply bool_decide_ext. revert Hb. generalize 8000. intros m Hb. lia.
Qed.

(** Reading a file by pieces classifies it as its whole bytes are, which is how HEAD's
    content is classified: the two sides of a diff are judged alike. *)
Theorem reading_classifies w p bytes : disk w !! p = Some (File bytes) → unreadable w p = false →
  read_file_bounded w p = classify_bytes bytes.
Proof.
  intros Hp Hr. unfold read_file_bounded, classify_bytes. rewrite Hp, Hr. case_bool_decide; [done|]. cbv zeta.
  rewrite lfs_prefix. destruct (is_lfs_pointer bytes); [done|].
  unfold is_binary. by rewrite str_take_take.
Qed.

End Snapshots.

(** * Where it goes wrong, and the theorems at work *)

Module Scenes.

(** A world without a repository, and a tracker in it. *)
Definition bare_repo : Repo := MkRepo None None None None None (λ _, None).
Definition scene (files : gmap string DiskEntry) (refused : bool) : World :=
  MkWorld files (λ _, false) (λ _, refused) (λ _, false) (λ p, Some p) (λ _, None) (λ _, bare_repo) (λ l, l).
Lemma scene_walks files refused : walks (scene files refused).
Proof. by intros l. Qed.

Definition file : string := "/w/f".
Definition text (ls : list string) : string := join newline (ls ++ [""]).
Definition before_text : string := text ["a"; "b"].
Definition after_text : string := text ["a"; "c"].
Definition edited (w : World) : Actor :=
  @record_agent_write reference_diff w file after_text 3 (Some before_text) (new "/w" AgentOnly).

Lemma edited_reachable files : @Reachable.reachable reference_diff "/w" AgentOnly (scene files false) (edited (scene files false)) false.
Proof.
  change false with (false || disk_failed None) at 3.
  eapply (@Reachable.r_command reference_diff "/w" AgentOnly (scene files false) (new "/w" AgentOnly) false
           (RecordAgentWrite file after_text 3 (Some before_text)) (scene files false) _ None); [|done|reflexivity].
  apply (@Reachable.r_start reference_diff "/w" AgentOnly (scene files false)), scene_walks.
Qed.

(** A rejection that the disk refuses leaves its hunk in the file, but the hunk is gone
    from its turn and already counted as rejected; asking again counts it again. *)
Theorem refused_rejection_forgets_turn :
  let w := scene {[file := File after_text]} true in
  let s := edited w in
  let '(_, s1, r1) := @apply_file_action reference_diff w file Reject s in
  let '(_, s2, _) := @apply_file_action reference_diff w file Reject s1 in
  length (get_hunks_for_turn w 3 s) = 1 ∧ r1 = Err (WriteError file) ∧
  get_all_hunks w s1 = get_all_hunks w s ∧ get_hunks_for_turn w 3 s1 = [] ∧
  rejected_hunks (session_stats s1) = 1%N ∧ rejected_hunks (session_stats s2) = 2%N.
Proof. vm_compute. split_and!; reflexivity. Qed.

(** Coalescing reorders: a change of another file, an agent write and the notification
    of a later edit by the user, queued in this order, are worked through with the
    agent write last. The tracker then shows the agent's text as current, although the
    disk has the user's, and rejecting the file throws the user's edit away unseen. *)
Theorem coalescing_goes_stale :
  let w := scene {[file := File (text ["a"; "user"])]} false in
  let queued := [RecordAgentWrite file after_text 3 (Some before_text); HandleFileChange file] in
  let s := new "/w" AgentOnly in
  let current s := current_content <$> file_states s !! file in
  let batch := @handle_coalesced_batch reference_diff w (drain_and_coalesce (HandleFileChange "/w/g") queued) s in
  current (@handle_commands reference_diff w (HandleFileChange "/w/g" :: queued) s).2 = Some (Full (text ["a"; "user"])) ∧
  current batch.2 = Some (Full after_text) ∧
  disk (@apply_file_action reference_diff batch.1 file Reject batch.2).1.1 = {[file := File before_text]}.
Proof. vm_compute. split_and!; reflexivity. Qed.

(** A write announced without the text it replaced, as an overwriting replacement is,
    to a file that git does not know: rejecting it deletes the file with what was in it
    before. *)
Theorem rejecting_overwrite_deletes :
  let w := scene {[file := File after_text]} false in
  let s := @record_agent_write reference_diff w file after_text 3 None (new "/w" AgentOnly) in
  let '(w', _, r) := @apply_file_action reference_diff w file Reject s in
  r = Ok [0%N] ∧ disk w' = ∅.
Proof. vm_compute. split_and!; reflexivity. Qed.

Lemma tracker_invariant_witness :
  let w := scene ∅ false in
  let st := default (fresh_file Missing Missing false) (file_states (edited w) !! file) in
  hunks st ≠ [] ∧ NoDup (id <$> hunks st).
Proof.
  intros w st. assert (Hst : file_states (edited w) !! file = Some st) by (vm_compute; reflexivity).
  split; [vm_compute; discriminate|].
  destruct (@Reachable.tracker_invariant reference_diff reference_lawful _ _ _ _ _ (edited_reachable ∅)) as [Hf _].
  apply (Hf file st Hst).
Defined.

Lemma file_review_exact_witness :
  let w := scene {[file := File after_text]} false in
  let r := @apply_file_action reference_diff w file Reject (edited w) in
  disk r.1.1 = {[file := File before_text]} ∧ ∃ st', file_states r.1.2 !! file = Some st' ∧ hunks st' = [].
Proof.
  intros w r. set (st := default (fresh_file Missing Missing false) (file_states (edited w) !! file)).
  assert (HI : @Inv reference_diff ∅ (edited w)).
  { apply (@record_agent_write_keeps reference_diff reference_lawful), (@Reachable.start_Inv reference_diff reference_lawful w). }
  assert (Hst : file_states (edited w) !! file = Some st) by (vm_compute; reflexivity).
  assert (Hne : hunks st ≠ []) by (vm_compute; discriminate).
  assert (Hrev : @FileReview.reviewable reference_diff st = true) by (vm_compute; reflexivity).
  assert (Er : r.2 = Ok [0%N]) by (vm_compute; reflexivity).
  assert (Eb : FileReview.put_content w file (baseline st) = {[file := File before_text]}) by (vm_compute; reflexivity).
  assert (Ecall : @apply_file_action reference_diff w file Reject (edited w) = (r.1.1, r.1.2, Ok [0%N])).
  { rewrite <-Er. unfold r. by destruct (@apply_file_action reference_diff w file Reject (edited w)) as [[? ?] ?]. }
  destruct (@FileReview.file_review_exact reference_diff reference_lawful ∅ w (edited w) file st Reject r.1.1 r.1.2 (Ok [0%N])
    HI Hst Hne Hrev Ecall) as (_ & _ & st' & Hs' & Hh & _ & _ & Hd).
  split; [by rewrite Hd|eauto].
Defined.

Lemma turn_hunks_exact_witness :
  let w := scene ∅ false in
  get_hunks_for_turn w 3 (edited w) ≡ₚ filter (λ h, of_turn 3 h = true) (get_all_hunks w (edited w)) ∧
  length (get_hunks_for_turn w 3 (edited w)) = 1.
Proof.
  intros w. split; [|vm_compute; reflexivity].
  apply (@TurnHunks.turn_hunks_exact reference_diff reference_lawful "/w" AgentOnly w (edited w) 3 (edited_reachable ∅)).
Defined.

Lemma batched_changes_sequential_witness :
  let w := scene {[file := File after_text]} false in
  @handle_file_changes_batch reference_diff w [file; "/w/g"] (edited w) =
  fold_left (λ s p, @handle_file_change reference_diff w p s) [file; "/w/g"] (edited w).
Proof.
  intros w. apply (@BatchedChanges.batched_changes_sequential reference_diff).
  constructor; [by intros ?%list_elem_of_singleton|apply NoDup_singleton].
Defined.

Lemma session_summary_exact_witness :
  let w := scene ∅ false in
  pending_hunks (compute_session_summary w (edited w)) = 1 ∧
  stats (compute_session_summary w (edited w)) = session_stats (edited w).
Proof.
  intros w. split; [vm_compute; reflexivity|].
  apply (Summaries.session_summary_exact w (edited w) (scene_walks ∅ false)).
Defined.

Lemma reading_classifies_witness :
  let w := scene {[file := File after_text]} false in
  read_file_bounded w file = Full after_text.
Proof.
  intros w. rewrite (Snapshots.reading_classifies w file after_text); vm_compute; reflexivity.
Defined.

End Scenes.
