(* ===== verification/HunkLoc.v ===== *)
(** Counting lines of code (crate [ainxt-hunk-tracker], [loc/mod.rs]): a task that
    consumes the tracker's events and writes an attribution record for each one that
    changes a hunk's lines, so that the sum of a hunk's records is its contribution;
    the append-only file the records go to; and how the sums follow the tracker's
    hunks. Time stamps are left out, a record's JSON text is a parameter, and line
    totals are unbounded integers: a hunk has at most a mebibyte of lines. *)
From stdpp Require Import list gmap strings.
From S2P Require Import Prelude RustStr StrSearch EditDetails HunkDiff HunkGeometry HunkFiles HunkTracker HunkInvariant HunkReview.

Module Export LocRecords.

Inductive AuthorType : Type := Agent | Human.
#[export] Instance AuthorType_eq_dec : EqDecision AuthorType.
Proof. solve_decision. Defined.
Definition show_author (a : AuthorType) : string := match a with Agent => "agent" | Human => "human" end.

Inductive SourceType : Type := AgentEditType | ExternalEditOnAgentFileType | ExternalType.
Definition show_source (s : SourceType) : string :=
  match s with
  | AgentEditType => "agent_edit"
  | ExternalEditOnAgentFileType => "external_edit_on_agent_file"
  | ExternalType => "external"
  end.

Inductive EventType : Type := Added | Updated | Removed.
Definition show_event (e : EventType) : string :=
  match e with Added => "added" | Updated => "updated" | Removed => "removed" end.

Record HunkRecord : Type := MkRecord {
  hunk_id : HunkId;
  file_path : string;
  hunk_start : nat;
  hunk_end : nat;
  lines_added : Z;
  lines_removed : Z;
  author_type : option AuthorType;
  author_id : option string;
  agent_id : string;
  session_id : string;
  record_prompt_index : option N;
  source_type : option SourceType;
  event_type : EventType;
  removal_reason : option HunkRemovalReason;
}.

Record LocSinkContext : Type := MkContext {
  ctx_session_id : string;
  ctx_agent_id : string;
  ctx_user_id : option string;
  aggregate_tx : bool;
}.

(** Who a change is charged to. *)
Definition attribution (agent_id : string) (user_id : option string) (source : HunkSource) :
    AuthorType * option string * option N * SourceType :=
  match source with
  | AgentEdit p => (Agent, Some agent_id, Some p, AgentEditType)
  | ExternalEditOnAgentFile => (Human, user_id, None, ExternalEditOnAgentFileType)
  | External => (Human, user_id, None, ExternalType)
  end.

Definition from_hunk (h : Hunk) (ctx : LocSinkContext) (event_type : EventType) (attribution_source : HunkSource) : HunkRecord :=
  let '(author, author_id, prompt, source_type) := attribution (ctx_agent_id ctx) (ctx_user_id ctx) attribution_source in
  let li := line_info h in
  let '(start, count) := if bool_decide (new_count li = 0) then (old_start li, old_count li) else (new_start li, new_count li) in
  let last := if bool_decide (count = 0) then start else start + count - 1 in
  MkRecord (id h) (path h) start last (Z.of_nat (new_count li)) (Z.of_nat (old_count li)) (Some author) author_id
    (ctx_agent_id ctx) (ctx_session_id ctx) prompt (Some source_type) event_type None.

Definition with_lines (added removed : Z) (r : HunkRecord) : HunkRecord :=
  MkRecord (hunk_id r) (file_path r) (hunk_start r) (hunk_end r) added removed (author_type r) (author_id r)
    (agent_id r) (session_id r) (record_prompt_index r) (source_type r) (event_type r) (removal_reason r).

(** The record that takes a removed hunk's lines back. *)
Definition negating (ctx : LocSinkContext) (path : string) (i : HunkId) (total : Z * Z) (reason : HunkRemovalReason) : HunkRecord :=
  MkRecord i path 0 0 (- total.1) (- total.2) None None (ctx_agent_id ctx) (ctx_session_id ctx) None None Removed (Some reason).

Inductive LocAggregate : Type :=
| LinesChanged (author : AuthorType) (added removed : Z) (path : string)
| LinesReverted (added_reverted removed_reverted : Z).

Definition changed_aggregate (default_author : AuthorType) (r : HunkRecord) : LocAggregate :=
  LinesChanged (default default_author (author_type r)) (lines_added r) (lines_removed r) (file_path r).

End LocRecords.

(** * The sink *)

Module Export LocSinks.

(** Where records go; the second component says whether the operation succeeded. *)
Class HunkRecordWriter (W : Type) : Type := {
  write : HunkRecord → W → W * bool;
  flush : W → W * bool;
}.

Section Sink.
Context {W : Type} `{HunkRecordWriter W}.

(** The totals accumulated per hunk, the writer, and the aggregates sent. *)
Record LocSink : Type := MkSink {
  acc : gmap HunkId (Z * Z);
  writer : W;
  aggregates : list LocAggregate;
}.

(** A record that cannot be written is dropped. *)
Definition write_record (r : HunkRecord) (s : LocSink) : LocSink :=
  MkSink (acc s) (write r (writer s)).1 (aggregates s).
Definition accumulate (r : HunkRecord) (s : LocSink) : LocSink :=
  let '(a, d) := default (0, 0)%Z (acc s !! hunk_id r) in
  MkSink (<[hunk_id r := (a + lines_added r, d + lines_removed r)%Z]> (acc s)) (writer s) (aggregates s).
Definition send_aggregate (ctx : LocSinkContext) (a : LocAggregate) (s : LocSink) : LocSink :=
  if aggregate_tx ctx then MkSink (acc s) (writer s) (aggregates s ++ [a]) else s.
Definition forget (i : HunkId) (s : LocSink) : LocSink := MkSink (delete i (acc s)) (writer s) (aggregates s).

Definition handle_event (ctx : LocSinkContext) (e : HunkEvent) (s : LocSink) : LocSink :=
  match e with
  | HunkAdded _ h =>
      let r := from_hunk h ctx Added (source h) in
      write_record r (send_aggregate ctx (changed_aggregate Agent r) (accumulate r s))
  | HunkContentChanged _ h trigger prev_added prev_removed =>
      let r := with_lines (Z.of_nat (new_count (line_info h)) - Z.of_nat prev_added)
                 (Z.of_nat (old_count (line_info h)) - Z.of_nat prev_removed) (from_hunk h ctx Updated trigger) in
      write_record r (send_aggregate ctx (changed_aggregate Human r) (accumulate r s))
  | HunkRemoved _ i Accepted => forget i s
  | HunkRemoved p i reason =>
      match acc s !! i with
      | Some (a, d) =>
          let s := forget i s in
          if bool_decide (a ≠ 0 ∨ d ≠ 0)%Z then
            write_record (negating ctx p i (a, d) reason) (send_aggregate ctx (LinesReverted (a `max` 0) (d `max` 0)) s)
          else s
      | None => s
      end
  | HunkMoved _ _ _ | FileAdded _ _ | FileRemoved _ | BaselineUpdated _ => s
  end.

Definition handle_events (ctx : LocSinkContext) (es : list HunkEvent) (s : LocSink) : LocSink :=
  fold_left (λ s e, handle_event ctx e s) es s.
Definition drain_remaining (ctx : LocSinkContext) (queued : list HunkEvent) (s : LocSink) : LocSink :=
  handle_events ctx queued s.

(** The task: the events received before it ends, those still queued when it is
    cancelled ([None] where the channel was closed instead), then the flush. *)
Definition run_loc_sink (ctx : LocSinkContext) (received : list HunkEvent) (cancelled : option (list HunkEvent)) (w : W) : LocSink :=
  let s := handle_events ctx received (MkSink ∅ w []) in
  let s := match cancelled with Some queued => drain_remaining ctx queued s | None => s end in
  MkSink (acc s) (flush (writer s)).1 (aggregates s).

End Sink.
Arguments LocSink : clear implicits.

(** A writer that keeps every record. *)
#[export] Instance records_writer : HunkRecordWriter (list HunkRecord) :=
  {| write r w := (w ++ [r], true); flush w := (w, true) |}.

End LocSinks.

(** * The record file *)

Module Export JsonlFiles.
Section Jsonl.
Variable to_json : HunkRecord → option string.

Record JsonlHunkRecordWriter : Type := MkJsonl { jsonl_path : string; opened : bool; world : World }.
Definition jsonl_new (path : string) (w : World) : JsonlHunkRecordWriter := MkJsonl path false w.

(** Opening to append creates the file; the directories above it are made as needed. *)
Definition open_append (w : World) (p : string) : option World :=
  if write_fault w p then None
  else match disk w !! resolve w p with
       | Some Dir => None
       | Some (File _) => Some w
       | _ => Some (set_disk (<[resolve w p := File ""]> (disk w)) w)
       end.
Definition ensure_open (j : JsonlHunkRecordWriter) : option JsonlHunkRecordWriter :=
  if opened j then Some j else (λ w, MkJsonl (jsonl_path j) true w) <$> open_append (world j) (jsonl_path j).
Definition append_all (w : World) (p text : string) : option World :=
  if write_fault w p then None
  else match disk w !! resolve w p with
       | Some (File c) => Some (set_disk (<[resolve w p := File (c +:+ text)]> (disk w)) w)
       | _ => None
       end.

#[export] Instance jsonl_writer : HunkRecordWriter JsonlHunkRecordWriter := {|
  write r j :=
    match ensure_open j with
    | None => (j, false)
    | Some j =>
        match to_json r with
        | None => (j, false)
        | Some line =>
            match append_all (world j) (jsonl_path j) (line +:+ String LF "") with
            | Some w => (MkJsonl (jsonl_path j) true w, true)
            | None => (j, false)
            end
        end
    end;
  flush j := (j, true)
|}.

End Jsonl.
End JsonlFiles.

(** * What the sums say *)

Module LocLedger.

Definition counts (h : Hunk) : Z * Z := (Z.of_nat (new_count (line_info h)), Z.of_nat (old_count (line_info h))).
Definition padd (x y : Z * Z) : Z * Z := (x.1 + y.1, x.2 + y.2)%Z.

(** The sum of a hunk's records. *)
Definition sum_for (i : HunkId) (rs : list HunkRecord) : Z * Z :=
  foldr (λ r t, if bool_decide (hunk_id r = i) then padd (lines_added r, lines_removed r) t else t) (0, 0)%Z rs.

(** The account a hunk's events open: what it has at present, and what it keeps of
    changes that were accepted. *)
Definition entry_step (i : HunkId) (t : (Z * Z) * (Z * Z)) (e : HunkEvent) : (Z * Z) * (Z * Z) :=
  let '(live, kept) := t in
  match e with
  | HunkAdded _ h => if bool_decide (id h = i) then (padd live (counts h), kept) else t
  | HunkContentChanged _ h _ a d =>
      if bool_decide (id h = i) then (padd live (padd (counts h) (- Z.of_nat a, - Z.of_nat d)%Z), kept) else t
  | HunkRemoved _ j Accepted => if bool_decide (j = i) then ((0, 0)%Z, padd kept live) else t
  | HunkRemoved _ j _ => if bool_decide (j = i) then ((0, 0)%Z, kept) else t
  | _ => t
  end.
Definition entry (i : HunkId) (es : list HunkEvent) : (Z * Z) * (Z * Z) :=
  fold_left (entry_step i) es ((0, 0), (0, 0))%Z.

Lemma padd_0_r x : padd x (0, 0)%Z = x.
Proof. destruct x. unfold padd. cbn. f_equal; lia. Qed.
Lemma padd_0_l x : padd (0, 0)%Z x = x.
Proof. destruct x. unfold padd. cbn. f_equal; lia. Qed.
Ltac pairs := repeat match goal with x : Z * Z |- _ => destruct x end; unfold padd in *; cbn [fst snd] in *;
  repeat match goal with E : (_, _) = (_, _) |- _ => injection E as ? ? end; try (f_equal; lia).

Lemma sum_for_app i xs ys : sum_for i (xs ++ ys) = padd (sum_for i xs) (sum_for i ys).
Proof.
  induction xs as [|r xs IH]; cbn [sum_for foldr app]; [by rewrite padd_0_l|].
  fold (sum_for i (xs ++ ys)) (sum_for i xs). rewrite IH. destruct (bool_decide _); [|done].
  generalize (sum_for i xs), (sum_for i ys). intros. pairs.
Qed.
Lemma sum_for_one i r : sum_for i [r] = if bool_decide (hunk_id r = i) then (lines_added r, lines_removed r) else (0, 0)%Z.
Proof. cbn [sum_for foldr]. destruct (bool_decide _); [apply padd_0_r|done]. Qed.

Lemma from_hunk_lines h ctx et src :
  hunk_id (from_hunk h ctx et src) = id h ∧ (lines_added (from_hunk h ctx et src), lines_removed (from_hunk h ctx et src)) = counts h.
Proof. unfold from_hunk. destruct (attribution _ _ _) as [[[? ?] ?] ?], (bool_decide (new_count _ = 0)); done. Qed.

(** The accumulated total of a hunk. *)
Definition total (i : HunkId) (s : LocSink (list HunkRecord)) : Z * Z := default (0, 0)%Z (acc s !! i).

Lemma write_record_log r (s : LocSink (list HunkRecord)) : writer (write_record r s) = writer s ++ [r].
Proof. done. Qed.
Lemma send_aggregate_log ctx a (s : LocSink (list HunkRecord)) :
  writer (send_aggregate ctx a s) = writer s ∧ acc (send_aggregate ctx a s) = acc s.
Proof. unfold send_aggregate. by destruct (aggregate_tx ctx). Qed.

(** The sink's bookkeeping agrees with the account: totals are what is live, records
    sum to live and kept. *)
Definition agrees (i : HunkId) (t : (Z * Z) * (Z * Z)) (s : LocSink (list HunkRecord)) : Prop :=
  total i s = t.1 ∧ sum_for i (writer s) = padd t.2 t.1.

Lemma agrees_add i live kept ctx a r s lines :
  agrees i (live, kept) s → (lines_added r, lines_removed r) = lines →
  agrees i (if bool_decide (hunk_id r = i) then (padd live lines, kept) else (live, kept))
    (write_record r (send_aggregate ctx a (accumulate r s))).
Proof.
  intros [Ht Hs] Hl. cbn [fst snd] in Ht, Hs. subst lines. unfold agrees. rewrite write_record_log.
  assert (Ea : total i (write_record r (send_aggregate ctx a (accumulate r s))) =
    if bool_decide (hunk_id r = i) then padd live (lines_added r, lines_removed r) else live).
  { unfold total, write_record. cbn [acc]. rewrite (proj2 (send_aggregate_log _ _ _)). unfold accumulate.
    destruct (default (0, 0)%Z (acc s !! hunk_id r)) as [x y] eqn:Ed. cbn [acc]. destruct (bool_decide _) eqn:Eb.
    - apply bool_decide_eq_true in Eb. subst i. rewrite lookup_insert, decide_True by done. unfold total in Ht.
      rewrite Ed in Ht. by subst live.
    - apply bool_decide_eq_false in Eb. by rewrite lookup_insert_ne. }
  rewrite Ea, (proj1 (send_aggregate_log _ _ _)), sum_for_app, sum_for_one.
  replace (writer (accumulate r s)) with (writer s) by (unfold accumulate; by destruct (default _ _)).
  rewrite Hs. destruct (bool_decide _); cbn [fst snd]; [|by rewrite padd_0_r]. split; [done|]. pairs.
Qed.

Lemma agrees_revert ctx p i j reason live kept (s : LocSink (list HunkRecord)) : agrees i (live, kept) s →
  agrees i (if bool_decide (j = i) then ((0, 0)%Z, kept) else (live, kept))
    match acc s !! j with
    | Some (a, d) =>
        if bool_decide (a ≠ 0 ∨ d ≠ 0)%Z then
          write_record (negating ctx p j (a, d) reason)
            (send_aggregate ctx (LinesReverted (a `max` 0) (d `max` 0)) (forget j s))
        else forget j s
    | None => s
    end.
Proof.
  intros [Ht Hs]. unfold total in Ht. cbn [fst snd] in Ht, Hs.
  assert (Hf : total i (forget j s) = if bool_decide (j = i) then (0, 0)%Z else live).
  { unfold total. cbn. destruct (bool_decide (j = i)) eqn:Eb.
    - apply bool_decide_eq_true in Eb. subst j. by rewrite lookup_delete_eq.
    - apply bool_decide_eq_false in Eb. by rewrite lookup_delete_ne. }
  destruct (acc s !! j) as [[a d]|] eqn:Ej.
  - assert (Hlive : j = i → live = (a, d)) by (intros <-; by rewrite Ej in Ht).
    destruct (bool_decide (a ≠ 0 ∨ d ≠ 0)%Z) eqn:Ez.
    + unfold agrees. rewrite write_record_log, sum_for_app, sum_for_one, (proj1 (send_aggregate_log _ _ _)).
      replace (total i (write_record _ _)) with (total i (forget j s))
        by (unfold total, write_record; cbn [acc]; by rewrite (proj2 (send_aggregate_log _ _ _))).
      rewrite Hf. cbn [writer forget hunk_id negating lines_added lines_removed fst snd]. rewrite Hs. destruct (bool_decide (j = i)) eqn:Eb; cbn [fst snd].
      * apply bool_decide_eq_true in Eb. rewrite (Hlive Eb). split; [done|]. pairs.
      * split; [done|]. apply padd_0_r.
    + apply bool_decide_eq_false in Ez. assert (a = 0 ∧ d = 0)%Z as [-> ->] by lia.
      unfold agrees. rewrite Hf. cbn [writer forget]. rewrite Hs. destruct (bool_decide (j = i)) eqn:Eb; [|done].
      apply bool_decide_eq_true in Eb. by rewrite (Hlive Eb).
  - unfold agrees, total. rewrite Hs. destruct (bool_decide (j = i)) eqn:Eb; [|done]. apply bool_decide_eq_true in Eb. subst j.
    rewrite Ej in Ht |- *. by rewrite <-Ht.
Qed.

Lemma reverted_forgets ctx p i reason (s : LocSink (list HunkRecord)) :
  acc match acc s !! i with
    | Some (a, d) =>
        if bool_decide (a ≠ 0 ∨ d ≠ 0)%Z then
          write_record (negating ctx p i (a, d) reason)
            (send_aggregate ctx (LinesReverted (a `max` 0) (d `max` 0)) (forget i s))
        else forget i s
    | None => s
    end !! i = None.
Proof.
  destruct (acc s !! i) as [[a d]|] eqn:Ei; [|done]. destruct (bool_decide _).
  - unfold write_record. cbn [acc]. rewrite (proj2 (send_aggregate_log _ _ _)). cbn. by rewrite lookup_delete_eq.
  - cbn. by rewrite lookup_delete_eq.
Qed.

Lemma agrees_step ctx i t e s : agrees i t s → agrees i (entry_step i t e) (handle_event ctx e s).
Proof.
  destruct t as [live kept]. intros Ha. destruct e as [p h|p j reason| |p h trigger a d| | |]; try exact Ha.
  - pose proof (from_hunk_lines h ctx Added (source h)) as [Ei El]. cbn. rewrite <-Ei. by apply agrees_add.
  - destruct reason; cbn [entry_step handle_event]; [|by apply agrees_revert..].
    destruct Ha as [Ht Hs]. unfold total in Ht. cbn [fst snd] in Ht, Hs. unfold agrees, total. cbn [acc writer forget]. destruct (bool_decide (j = i)) eqn:Eb.
    + apply bool_decide_eq_true in Eb. subst j. rewrite lookup_delete_eq. cbn. by rewrite Hs, padd_0_r.
    + apply bool_decide_eq_false in Eb. by rewrite lookup_delete_ne.
  - pose proof (from_hunk_lines h ctx Updated trigger) as [Ei El]. cbn.
    set (r := with_lines _ _ (from_hunk h ctx Updated trigger)). replace (id h) with (hunk_id r) by apply Ei.
    apply agrees_add; [done|]. unfold r, padd, counts. cbn. f_equal; lia.
Qed.

Lemma agrees_events ctx i es : ∀ t s, agrees i t s → agrees i (fold_left (entry_step i) es t) (handle_events ctx es s).
Proof.
  induction es as [|e es IH]; intros t s Ha; [done|]. cbn. by apply IH, agrees_step.
Qed.

(** The run of the sink over the events it received and, if cancelled, drained. *)
Definition loc_run (ctx : LocSinkContext) (es : list HunkEvent) : LocSink (list HunkRecord) := run_loc_sink ctx es None [].
Lemma loc_run_agrees ctx i es : agrees i (entry i es) (loc_run ctx es).
Proof. unfold loc_run, run_loc_sink. cbn. apply (agrees_events ctx i es ((0, 0), (0, 0))%Z). done. Qed.

(** Whatever the order of events, and whether the task ends by its channel closing or
    by being cancelled with events still queued, the records written for a hunk sum to
    the lines it has at present and those kept by its acceptance; what is rejected or
    superseded adds up to nothing, and is no longer remembered. *)
Theorem loc_records_sum ctx received cancelled i :
  let es := received ++ default [] cancelled in
  let s := run_loc_sink ctx received cancelled ([] : list HunkRecord) in
  let '(live, kept) := entry i es in
  sum_for i (writer s) = padd kept live ∧ total i s = live ∧
  (∀ es' p reason, es = es' ++ [HunkRemoved p i reason] →
     acc s !! i = None ∧
     sum_for i (writer s) = match reason with Accepted => sum_for i (writer (loc_run ctx es')) | _ => (entry i es').2 end).
Proof.
  intros es s.
  assert (Es : acc s = acc (loc_run ctx es) ∧ writer s = writer (loc_run ctx es)).
  { unfold s, loc_run, run_loc_sink, es. destruct cancelled as [queued|]; cbn; [|by rewrite app_nil_r].
    unfold drain_remaining, handle_events. by rewrite fold_left_app. }
  destruct Es as [Ea Ew]. pose proof (loc_run_agrees ctx i es) as [Ht Hs].
  unfold total. rewrite Ea, Ew. destruct (entry i es) as [live kept] eqn:Ee. split_and!; [done|done|].
  intros es' p reason ->. pose proof (loc_run_agrees ctx i es') as [Ht' Hs'].
  unfold entry in Ee. rewrite fold_left_app in Ee. fold (entry i es') in Ee.
  assert (El : acc (loc_run ctx (es' ++ [HunkRemoved p i reason])) !! i = None).
  { unfold loc_run, run_loc_sink, handle_events. rewrite fold_left_app. cbn -[handle_event].
    set (s0 := fold_left _ es' _). destruct reason; cbn [handle_event].
    - unfold forget. cbn. by rewrite lookup_delete_eq.
    - by apply reverted_forgets.
    - by apply reverted_forgets. }
  split; [done|]. rewrite Hs. destruct (entry i es') as [live' kept'] eqn:Ee'. cbn [fold_left entry_step] in Ee.
  rewrite bool_decide_eq_true_2 in Ee by done. rewrite Hs'.
  destruct reason; injection Ee as <- <-; cbn [fst snd]; by rewrite padd_0_r.
Qed.

End LocLedger.

(** * The records follow the tracker *)

Module LocFollows.
Import LocLedger.

Lemma ids_name_hunks (l : list Hunk) x y : NoDup (id <$> l) → x ∈ l → y ∈ l → id x = id y → x = y.
Proof.
  intros Hnd [i Hi]%list_elem_of_lookup [j Hj]%list_elem_of_lookup E.
  assert (i = j) as <-; [|congruence]. eapply (NoDup_lookup (id <$> l)); [done|rewrite list_lookup_fmap, Hi; done|].
  rewrite list_lookup_fmap, Hj. cbn. by rewrite E.
Qed.
Lemma pick_none i (f : Hunk → option HunkEvent) l t :
  (∀ h e t, f h = Some e → id h ≠ i → entry_step i t e = t) → i ∉ id <$> l → fold_left (entry_step i) (omap f l) t = t.
Proof.
  intros Hf. revert t. induction l as [|h l IH]; intros t Hi; [done|].
  rewrite fmap_cons in Hi. apply not_elem_of_cons in Hi as [Hh Hi]. cbn. destruct (f h) as [e|] eqn:E; cbn; [|by apply IH].
  rewrite (Hf h e) by done. by apply IH.
Qed.
Lemma pick_one (f : Hunk → option HunkEvent) l h t :
  (∀ h' e t, f h' = Some e → id h' ≠ id h → entry_step (id h) t e = t) → NoDup (id <$> l) → h ∈ l →
  fold_left (entry_step (id h)) (omap f l) t = from_option (entry_step (id h) t) t (f h).
Proof.
  intros Hf. revert t. induction l as [|x l IH]; intros t Hnd Hin; [by apply not_elem_of_nil in Hin|].
  rewrite fmap_cons in Hnd. apply NoDup_cons in Hnd as [Hx Hnd]. apply elem_of_cons in Hin as [<-|Hin]; cbn.
  - destruct (f h) as [e|]; cbn; by rewrite pick_none.
  - assert (id x ≠ id h) by (intros E; apply Hx; rewrite E; by apply list_elem_of_fmap_2).
    destruct (f x) as [e|] eqn:E; cbn; [rewrite (Hf x e) by done|]; by apply IH.
Qed.

(** A change in which every hunk that lives on keeps its own account: what touches an
    old hunk continues one, none is merged into another and none is split. *)
Definition continued (news : list Hunk) (o : Hunk) : bool := existsb (λ n, hunks_overlap o n || hunks_match_content o n) news.
Definition one_to_one (olds news : list Hunk) : bool :=
  forallb (λ o, bool_decide (id o ∈ id <$> news) || negb (continued news o)) olds &&
  forallb (λ n,
    match list_find (λ o, id o = id n) olds with
    | Some (_, o) =>
        continued news o &&
        match list_find (λ o, hunks_match_content o n = true) olds with
        | Some _ => bool_decide (counts o = counts n)
        | None => existsb (λ o, hunks_overlap o n) olds
        end
    | None => negb (existsb (λ o, hunks_overlap o n || hunks_match_content o n) olds)
    end) news.

Definition gone_event (path : string) (news : list Hunk) (o : Hunk) : option HunkEvent :=
  if continued news o then None else Some (HunkRemoved path (id o) Superseded).
Definition news_event (path : string) (olds : list Hunk) (trigger : HunkSource) (n : Hunk) : option HunkEvent :=
  match list_find (λ o, hunks_match_content o n = true) olds with
  | Some (_, o) => if hunk_moved o n then Some (HunkMoved path (id o) (line_info n)) else None
  | None =>
      if existsb (λ o, hunks_overlap o n) olds then
        let prev :=
          match list_find (λ o, id o = id n) olds with
          | Some (_, o) => Some o
          | None => snd <$> list_find (λ o, hunks_overlap o n = true) olds
          end in
        Some (HunkContentChanged path n trigger
          (default 0 ((λ h, new_count (line_info h)) <$> prev)) (default 0 ((λ h, old_count (line_info h)) <$> prev)))
      else Some (HunkAdded path n)
  end.
Lemma emit_parts path olds news trigger :
  emit_hunk_diff_events path olds news trigger = omap (gone_event path news) olds ++ omap (news_event path olds trigger) news.
Proof. done. Qed.

Lemma gone_event_other path news h e i t : gone_event path news h = Some e → id h ≠ i → entry_step i t e = t.
Proof.
  unfold gone_event. destruct (continued _ _); [done|]. intros [= <-] Hi. destruct t. cbn. by rewrite bool_decide_eq_false_2.
Qed.
Lemma news_event_other path olds trigger h e i t : news_event path olds trigger h = Some e → id h ≠ i → entry_step i t e = t.
Proof.
  unfold news_event. intros He Hi. destruct t as [live kept].
  destruct (list_find _ olds) as [[? o]|].
  { destruct (hunk_moved _ _); [|done]. by injection He as <-. }
  destruct (existsb _ _); injection He as <-; cbn; by rewrite bool_decide_eq_false_2.
Qed.

Section Step.
Variables (path : string) (olds news : list Hunk) (trigger : HunkSource).
Hypothesis Hold : NoDup (id <$> olds).
Hypothesis Hnew : NoDup (id <$> news).
Hypothesis Hone : one_to_one olds news = true.

Let after i t := fold_left (entry_step i) (emit_hunk_diff_events path olds news trigger) t.

Lemma gone_o o : o ∈ olds → id o ∉ id <$> news → continued news o = false.
Proof.
  intros Ho Hn. unfold one_to_one in Hone. apply andb_true_iff in Hone as [Ha _]. rewrite forallb_forall in Ha.
  apply list_elem_of_In, Ha in Ho. rewrite bool_decide_eq_false_2 in Ho by done. by apply negb_true_iff in Ho.
Qed.
Lemma follows_removed o kept : o ∈ olds → id o ∉ id <$> news → after (id o) (counts o, kept) = ((0, 0)%Z, kept).
Proof.
  intros Ho Hn. unfold after. rewrite emit_parts, fold_left_app.
  rewrite (pick_one _ olds o) by (done || (intros; by eapply gone_event_other)).
  unfold gone_event. rewrite gone_o by done. cbn. rewrite bool_decide_eq_true_2 by done.
  rewrite pick_none; [done| |done]. intros. by eapply news_event_other.
Qed.
Lemma same_id_find o n : o ∈ olds → id o = id n → ∃ k, list_find (λ o, id o = id n) olds = Some (k, o).
Proof.
  intros Ho E. destruct (list_find_elem_of (λ o, id o = id n) olds o Ho E) as [[k o'] Hf]. exists k. rewrite Hf. do 2 f_equal.
  apply list_find_Some in Hf as (Hk & E' & _). apply list_elem_of_lookup_2 in Hk.
  apply (ids_name_hunks olds); [done|done|done|]. by rewrite E', E.
Qed.
Lemma follows_continued o n kept : o ∈ olds → n ∈ news → id o = id n → after (id n) (counts o, kept) = (counts n, kept).
Proof.
  intros Ho Hn E. destruct (same_id_find o n Ho E) as [k Hf].
  unfold one_to_one in Hone. apply andb_true_iff in Hone as [_ Hb]. rewrite forallb_forall in Hb.
  pose proof (Hb n (proj1 (list_elem_of_In _ _) Hn)) as Hbn. rewrite Hf in Hbn. apply andb_true_iff in Hbn as [Hc Hm].
  unfold after. rewrite emit_parts, fold_left_app. rewrite <-E at 2.
  rewrite (pick_one _ olds o) by (done || (intros; by eapply gone_event_other)).
  unfold gone_event at 1. rewrite Hc. cbn [from_option].
  rewrite (pick_one _ news n) by (done || (intros; by eapply news_event_other)). unfold news_event. rewrite Hf.
  destruct (list_find (λ o, hunks_match_content o n = true) olds) as [[? x]|].
  - apply bool_decide_eq_true in Hm. rewrite <-Hm. by destruct (hunk_moved _ _).
  - rewrite Hm. cbn. rewrite bool_decide_eq_true_2 by done. f_equal. unfold padd, counts. cbn. f_equal; lia.
Qed.
Lemma follows_added n live kept : n ∈ news → id n ∉ id <$> olds → after (id n) (live, kept) = (padd live (counts n), kept).
Proof.
  intros Hn Ho. unfold one_to_one in Hone. apply andb_true_iff in Hone as [_ Hb]. rewrite forallb_forall in Hb.
  pose proof (Hb n (proj1 (list_elem_of_In _ _) Hn)) as Hbn.
  assert (Hf : list_find (λ o, id o = id n) olds = None).
  { apply list_find_None, Forall_forall. intros o Hin E. apply Ho. rewrite <-E. by apply list_elem_of_fmap_2. }
  rewrite Hf in Hbn. apply negb_true_iff in Hbn. unfold after. rewrite emit_parts, fold_left_app.
  rewrite (pick_none _ _ olds) by (done || (intros; by eapply gone_event_other)).
  rewrite (pick_one _ news n) by (done || (intros; by eapply news_event_other)). unfold news_event.
  assert (Hno : ∀ o, o ∈ olds → hunks_overlap o n = false ∧ hunks_match_content o n = false).
  { intros o Hin%list_elem_of_In. apply orb_false_iff. apply not_true_iff_false. intros Ht. apply not_true_iff_false in Hbn.
    apply Hbn, existsb_exists. eauto. }
  destruct (list_find (λ o, hunks_match_content o n = true) olds) as [[k o]|] eqn:E.
  { apply list_find_Some in E as (Hk & Em & _). apply list_elem_of_lookup_2, Hno in Hk as [_ ?]. congruence. }
  destruct (existsb (λ o, hunks_overlap o n) olds) eqn:Ex.
  { apply existsb_exists in Ex as (o & Hin%list_elem_of_In & Hov). apply Hno in Hin as [? _]. congruence. }
  cbn. by rewrite bool_decide_eq_true_2 by done.
Qed.

End Step.

(** What a hunk is charged with in the records of a run over some events. *)
Definition charged (ctx : LocSinkContext) (es : list HunkEvent) (i : HunkId) (x : Z * Z) : Prop :=
  total i (loc_run ctx es) = x ∧ sum_for i (writer (loc_run ctx es)) = x.
Lemma charged_entry ctx es i x : charged ctx es i x ↔ entry i es = (x, (0, 0)%Z).
Proof.
  unfold charged. destruct (loc_run_agrees ctx i es) as [-> ->]. destruct (entry i es) as [live kept]. cbn. split.
  - intros [-> E]. f_equal. pairs.
  - intros [= -> ->]. by rewrite padd_0_l.
Qed.

(** The hunk an event is about was given its identifier before [next]. *)
Definition known (next : HunkId) (e : HunkEvent) : Prop :=
  match e with
  | HunkAdded _ h | HunkContentChanged _ h _ _ _ => (id h < next)%N
  | HunkRemoved _ i _ => (i < next)%N
  | _ => True
  end.
#[export] Instance known_dec next e : Decision (known next e).
Proof. destruct e; unfold known; apply _. Defined.
Lemma unknown_entry next i es : Forall (known next) es → (next ≤ i)%N → entry i es = ((0, 0), (0, 0))%Z.
Proof.
  intros Hes Hi. unfold entry. generalize ((0, 0), (0, 0))%Z. induction Hes as [|e es He _ IH]; intros t; [done|]. cbn.
  replace (entry_step i t e) with t; [by rewrite IH|]. destruct t as [live kept], e as [? h|? j reason| |? h| | |]; cbn in *; try done.
  - rewrite bool_decide_eq_false_2 by lia. done.
  - rewrite bool_decide_eq_false_2 by lia. by destruct reason.
  - rewrite bool_decide_eq_false_2 by lia. done.
Qed.
Lemma known_mono next next' es : (next ≤ next')%N → Forall (known next) es → Forall (known next') es.
Proof. intros Hle Hk. eapply Forall_impl; [exact Hk|]. intros []; cbn; lia. Qed.
Lemma known_emitted path olds news trigger next :
  Forall (λ h, id h < next)%N olds → Forall (λ h, id h < next)%N news →
  Forall (known next) (emit_hunk_diff_events path olds news trigger).
Proof.
  intros Ho Hn. rewrite emit_parts. apply Forall_app. rewrite !Forall_forall in Ho, Hn. split; apply Forall_forall; intros e He.
  - apply list_elem_of_omap in He as (h & Hh & He). unfold gone_event in He. destruct (continued _ _); [done|].
    injection He as <-. by apply Ho.
  - apply list_elem_of_omap in He as (h & Hh & He). unfold news_event in He. destruct (list_find _ olds) as [[? o]|].
    { destruct (hunk_moved _ _); [|done]. by injection He as <-. }
    destruct (existsb _ _); injection He as <-; by apply Hn.
Qed.

Section Diffed.
Context `{LineDiff} `{!LawfulDiff}.

Lemma recompute_ids lost s p st c src : Inv lost s → file_states s !! p = Some st →
  let s' := recompute_hunks p c src s in
  ∃ st', file_states s' !! p = Some st' ∧ NoDup (id <$> hunks st') ∧ Forall (λ h, id h < next_id s')%N (hunks st') ∧
    (next_id s ≤ next_id s')%N ∧ events s' = events s ++ emit_hunk_diff_events p (hunks st) (hunks st') src ∧
    ∀ h, h ∈ hunks st' → id h ∈ id <$> hunks st ∨ (next_id s ≤ id h)%N.
Proof.
  intros HI Hst s'. pose proof (recompute_keeps lost s p c src HI) as HI'. fold s' in HI'.
  assert (Es : ∃ st', file_states s' !! p = Some st' ∧ (next_id s ≤ next_id s')%N ∧
    hunks st' = preserve_ids (hunks st) ∅ (fresh_hunks (next_id s) p (baseline st) (default missing_content c) src) ∧
    events s' = events s ++ emit_hunk_diff_events p (hunks st) (hunks st') src).
  { unfold s', recompute_hunks. rewrite Hst. cbn. rewrite lookup_insert, decide_True by done.
    eexists. split_and!; [done|lia|done|done]. }
  destruct Es as (st' & Hst' & Hle & Eh & Ee). exists st'. pose proof (inv_file _ _ HI' p st' Hst') as [Hk Hnd _].
  split_and!; try done.
  - eapply Forall_impl; [exact Hk|]. by intros h [].
  - intros h Hh. rewrite Eh in Hh. pose proof (inv_file _ _ HI p st Hst) as [Hk0 _ _].
    destruct (fresh_hunks_ids (next_id s) p (baseline st) (default missing_content c) src) as [Hfr Hfn].
    destruct (preserve_ids_spec (hunks st) _ (next_id s) (next_id s + N.of_nat (length (fresh_hunks (next_id s) p (baseline st) (default missing_content c) src))) ∅
      ltac:(eapply Forall_impl; [exact Hk0|by intros ? []]) ltac:(eapply Forall_impl; [exact Hfr|by intros ? []]) Hfn) as [_ Hids].
    rewrite Forall_forall in Hids. destruct (Hids h Hh) as [[_ [? _]]|(o & Ho & <- & _)]; [by right|left; by apply list_elem_of_fmap_2].
Qed.

(** When the tracker recomputes the hunks of a file and no hunk is merged or split,
    the records keep up: before and after, the records of every hunk of the file sum to
    the lines it has, those of a hunk that went away sum to nothing, and no other
    hunk's records are touched. *)
Theorem loc_follows_tracker lost ctx s p st c src :
  let s' := recompute_hunks p c src s in
  let news := default [] (hunks <$> file_states s' !! p) in
  Inv lost s → Forall (known (next_id s)) (events s) → file_states s !! p = Some st →
  one_to_one (hunks st) news = true →
  (∀ h, h ∈ hunks st → charged ctx (events s) (id h) (counts h)) →
  Forall (known (next_id s')) (events s') ∧
  (∀ h, h ∈ news → charged ctx (events s') (id h) (counts h)) ∧
  (∀ h, h ∈ hunks st → id h ∉ id <$> news → charged ctx (events s') (id h) (0, 0)%Z) ∧
  (∀ i x, i ∉ id <$> hunks st → i ∉ id <$> news → charged ctx (events s) i x → charged ctx (events s') i x).
Proof.
  intros s' news HI Hk Hst Hone Hch. pose proof (inv_file _ _ HI p st Hst) as [Hkst Hnd0 _].
  destruct (recompute_ids lost s p st c src HI Hst) as (st' & Hst' & Hnd & Hlt & Hle & Ee & Hid). fold s' in Hst', Hlt, Hle, Ee.
  unfold news in *. rewrite Hst' in *. cbn in Hone |- *.
  assert (Ea : ∀ i, entry i (events s') = fold_left (entry_step i) (emit_hunk_diff_events p (hunks st) (hunks st') src) (entry i (events s)))
    by (intros i; unfold entry; by rewrite Ee, fold_left_app).
  split_and!.
  - rewrite Ee. apply Forall_app. split; [by apply (known_mono (next_id s))|]. apply known_emitted; [|done].
    eapply Forall_impl; [exact Hkst|]. intros h [_ ?]. lia.
  - intros h Hh. apply charged_entry. rewrite Ea. destruct (decide (id h ∈ id <$> hunks st)) as [Hin|Hno].
    + apply list_elem_of_fmap in Hin as (o & E & Ho). pose proof (proj1 (charged_entry _ _ _ _) (Hch o Ho)) as Ec.
      rewrite <-E in Ec. rewrite Ec. by apply follows_continued.
    + rewrite (unknown_entry (next_id s)) by (try done; by destruct (Hid h Hh)).
      rewrite follows_added by done. by rewrite padd_0_l.
  - intros h Hh Hno. apply charged_entry. rewrite Ea, (proj1 (charged_entry _ _ _ _) (Hch h Hh)). by apply follows_removed.
  - intros i x Hi Hn Hc%charged_entry. apply charged_entry. rewrite Ea, emit_parts, fold_left_app.
    rewrite (pick_none _ _ (hunks st)) by (done || (intros; by eapply gone_event_other)).
    by rewrite pick_none by (done || (intros; by eapply news_event_other)).
Qed.

End Diffed.
End LocFollows.

(** * The record file *)

Module JsonlAppends.
Section Jsonl.
Variable to_json : HunkRecord → option string.

Definition json_line (r : HunkRecord) : string := default "" ((λ line, line +:+ String LF "") <$> to_json r).
Definition write_all (rs : list HunkRecord) (j : JsonlHunkRecordWriter) : JsonlHunkRecordWriter :=
  fold_left (λ j r, (@write _ (jsonl_writer to_json) r j).1) rs j.

Lemma write_all_cons r rs j : write_all (r :: rs) j = write_all rs (@write _ (jsonl_writer to_json) r j).1.
Proof. done. Qed.
Lemma no_json rs : omap to_json rs = [] → concat_str (json_line <$> rs) = "".
Proof.
  induction rs as [|r rs IH]; [done|]. cbn [omap list_omap fmap list_fmap]. change (concat_str (?x :: ?l)) with (x +:+ concat_str l).
  unfold json_line at 1. destruct (to_json r); [done|]. intros E. by rewrite IH.
Qed.
Lemma resolve_insert w p x : (∀ q, x ≠ Link q) → resolve (set_disk (<[resolve w p := x]> (disk w)) w) p = resolve w p.
Proof.
  intros Hx. unfold resolve at 1. cbn. destruct (decide (p = resolve w p)) as [Ep|Ep].
  - rewrite <-Ep. rewrite lookup_insert, decide_True by done. by destruct x; [..|destruct (Hx target)].
  - by rewrite lookup_insert_ne by done.
Qed.
Lemma opened_appends rs : ∀ w p c, write_fault w p = false → disk w !! resolve w p = Some (File c) →
  disk (world (write_all rs (MkJsonl p true w))) =
  if bool_decide (omap to_json rs = []) then disk w
  else <[resolve w p := File (c +:+ concat_str (json_line <$> rs))]> (disk w).
Proof.
  induction rs as [|r rs IH]; intros w p c Hf Hc; [done|]. rewrite write_all_cons.
  cbn [write jsonl_writer ensure_open opened omap list_omap].
  cbn [fmap list_fmap]. change (concat_str (?x :: ?l)) with (x +:+ concat_str l).
  destruct (to_json r) as [line|] eqn:Ej; cbn [world jsonl_path fst].
  2: { rewrite (IH w p c) by done. unfold json_line at 2. by rewrite Ej. }
  unfold append_all. rewrite Hf, Hc. cbn [fst].
  set (w' := set_disk (<[resolve w p := File (c +:+ line +:+ String LF "")]> (disk w)) w).
  assert (Er : resolve w' p = resolve w p) by by apply resolve_insert.
  rewrite (IH w' p (c +:+ line +:+ String LF "")).
  2: done.
  2: { rewrite Er. cbn. by rewrite lookup_insert, decide_True by done. }
  rewrite Er. unfold json_line at 2. rewrite Ej. cbn [fmap option_fmap option_map default from_option Datatypes.id].
  rewrite (bool_decide_eq_false_2 (line :: _ = [])) by done. rewrite !app_assoc_str. case_bool_decide as En.
  - rewrite (no_json rs En), app_nil_r_str. unfold w'. cbn [disk set_disk]. by rewrite app_assoc_str.
  - unfold w'. cbn [disk set_disk]. rewrite !app_assoc_str. by rewrite insert_insert, decide_True by done.
Qed.

(** The file is append-only and made lazily: without records, or where only opening
    happens, what was there stays, and each record that has a JSON text adds its line,
    in order, to a file that is created by the first write. *)
Theorem jsonl_appends w p rs c :
  write_fault w p = false →
  match disk w !! resolve w p with Some (File c') => c = c' | Some Dir => False | _ => c = "" end →
  disk (world (write_all rs (jsonl_new p w))) =
  match rs with
  | [] => disk w
  | _ => <[resolve w p := File (c +:+ concat_str (json_line <$> rs))]> (disk w)
  end.
Proof.
  intros Hf Hc. destruct rs as [|r rs]; [done|].
  set (w1 := match disk w !! resolve w p with Some (File _) => w | _ => set_disk (<[resolve w p := File ""]> (disk w)) w end).
  assert (Eo : open_append w p = Some w1).
  { unfold open_append, w1. rewrite Hf. by destruct (disk w !! resolve w p) as [[]|]. }
  assert (Er : resolve w1 p = resolve w p ∧ disk w1 = <[resolve w p := File c]> (disk w)).
  { unfold w1. destruct (disk w !! resolve w p) as [[c'| |q]|] eqn:E; try done.
    - subst c'. by rewrite insert_id.
    - subst c. split; [|done]. by apply resolve_insert.
    - subst c. split; [|done]. by apply resolve_insert. }
  destruct Er as [Er Ed].
  assert (Es : write_all (r :: rs) (jsonl_new p w) = write_all (r :: rs) (MkJsonl p true w1)).
  { rewrite !write_all_cons. f_equal. cbn [write jsonl_writer]. unfold ensure_open, jsonl_new. cbn [opened world jsonl_path].
    rewrite Eo. cbn. destruct (to_json r); [|done]. by destruct (append_all _ _ _). }
  rewrite Es, (opened_appends (r :: rs) w1 p c).
  - rewrite Er, Ed. case_bool_decide as En; [by rewrite (no_json _ En), app_nil_r_str|]. by rewrite insert_insert, decide_True by done.
  - unfold w1. by destruct (disk w !! resolve w p) as [[]|].
  - rewrite Er, Ed. by rewrite lookup_insert, decide_True by done.
Qed.

End Jsonl.
End JsonlAppends.

(** * The records at work *)

Module LocScenes.
Import LocLedger LocFollows JsonlAppends Scenes.

Definition ctx : LocSinkContext := MkContext "s" "agent-1" (Some "user-7") true.
Definition base_text : string := text ["a"; "b"; "c"].
Definition two_changes : string := text ["x"; "b"; "z"].
Definition one_change : string := text ["x"; "y"; "z"].
Definition agent_write (w : World) (content : string) (prompt : N) (s : Actor) : Actor :=
  @record_agent_write reference_diff w file content prompt (Some base_text) s.
Definition pending_sum (w : World) (s : Actor) : Z * Z := foldr (λ h t, padd (counts h) t) (0, 0)%Z (get_all_hunks w s).
Definition records_sum (rs : list HunkRecord) : Z * Z := foldr (λ r t, padd (lines_added r, lines_removed r) t) (0, 0)%Z rs.

(** Two hunks that a later write joins become one; the one absorbed is announced
    neither as removed nor as changed, so that its lines stay in the records: they sum
    to four lines added where three are pending, and to one where all were rejected. *)
Theorem merged_hunk_counted_twice :
  let w := scene {[file := File base_text]} false in
  let s1 := agent_write w two_changes 1 (new "/w" AgentOnly) in
  let s2 := agent_write w one_change 2 s1 in
  let '(w3, s3, r) := @apply_file_action reference_diff w file Reject s2 in
  let recorded s := records_sum (writer (loc_run ctx (events s))) in
  recorded s1 = pending_sum w s1 ∧
  pending_sum w s2 = (3, 3)%Z ∧ recorded s2 = (4, 4)%Z ∧
  r = Ok [1%N] ∧ pending_sum w3 s3 = (0, 0)%Z ∧ recorded s3 = (1, 1)%Z.
Proof. vm_compute. split_and!; reflexivity. Qed.

(** The hunks of a file that turns binary are dropped without an event: its lines are
    never taken back. *)
Theorem binary_write_keeps_lines :
  let w := scene {[file := File base_text]} false in
  let s1 := agent_write w one_change 1 (new "/w" AgentOnly) in
  let s2 := agent_write w ("x" +:+ String (byte 0) "") 2 s1 in
  get_all_hunks w s2 = [] ∧ records_sum (writer (loc_run ctx (events s2))) = (3, 3)%Z.
Proof. vm_compute. split_and!; reflexivity. Qed.

(** An agent's change of three lines, of which the user takes one back. *)
Lemma loc_follows_tracker_witness :
  let w := scene {[file := File base_text]} false in
  let s := agent_write w one_change 1 (new "/w" AgentOnly) in
  let s' := @recompute_hunks reference_diff file (Some (Full (text ["x"; "y"; "c"]))) ExternalEditOnAgentFile s in
  Forall (λ h, charged ctx (events s') (id h) (counts h)) (default [] (hunks <$> file_states s' !! file)).
Proof.
  intros w s s'. set (st := default (fresh_file Missing Missing false) (file_states s !! file)).
  assert (HI : @Inv reference_diff ∅ s).
  { apply (@record_agent_write_keeps reference_diff reference_lawful), (@Reachable.start_Inv reference_diff reference_lawful w). }
  assert (Hk : Forall (known (next_id s)) (events s)) by (apply (bool_decide_eq_true (Forall _ _)); vm_compute; reflexivity).
  assert (Hst : file_states s !! file = Some st) by (vm_compute; reflexivity).
  assert (Hone : one_to_one (hunks st) (default [] (hunks <$> file_states s' !! file)) = true) by (vm_compute; reflexivity).
  assert (Hch : ∀ h, h ∈ hunks st → charged ctx (events s) (id h) (counts h)).
  { assert (Eh : hunks st = [MkHunk 0%N file (MkLineInfo 1 3 1 3) (AgentEdit 1) (Some base_text) one_change None]) by (vm_compute; reflexivity).
    rewrite Eh. intros h ->%list_elem_of_singleton. split; vm_compute; reflexivity. }
  apply Forall_forall.
  apply (@loc_follows_tracker reference_diff reference_lawful ∅ ctx s file st _ _ HI Hk Hst Hone Hch).
Defined.

Lemma jsonl_appends_witness :
  let w := scene {["/l" := File "old"]} false in
  let r := negating ctx file 0%N (1, 2)%Z Rejected in
  disk (world (write_all (λ _, Some "{}") [r; r] (jsonl_new "/l" w))) =
    {["/l" := File ("old" +:+ "{}" +:+ newline +:+ "{}" +:+ newline)]}.
Proof.
  intros w r. rewrite (jsonl_appends (λ _, Some "{}") w "/l" [r; r] "old"); [|reflexivity|vm_compute; reflexivity].
  vm_compute. reflexivity.
Defined.

End LocScenes.
