(* ===== verification/HostFiles.v ===== *)
(** What the configuration code sees of the machine it runs on: variables, files, the
    home directory, and the values TOML and JSON texts stand for ([toml::Value],
    [serde_json::Value], crate [ainxt-config], [paths.rs] and [lib.rs]). *)
From stdpp Require Import list gmap strings.
From Stdlib Require Import Wellfounded.
From S2P Require Import Prelude RustStr StrSearch.

(** * Values of TOML and JSON texts *)

Module Export Values.

(** A float and a date are kept as their text. *)
Inductive Toml : Type :=
| TString (s : string)
| TInteger (n : Z)
| TFloat (text : string)
| TBoolean (b : bool)
| TDatetime (text : string)
| TArray (items : list Toml)
| TTable (table : gmap string Toml).

Definition toml_as_table (v : Toml) : option (gmap string Toml) := match v with TTable t => Some t | _ => None end.
Definition toml_as_array (v : Toml) : option (list Toml) := match v with TArray l => Some l | _ => None end.
Definition toml_as_bool (v : Toml) : option bool := match v with TBoolean b => Some b | _ => None end.
Definition toml_as_str (v : Toml) : option string := match v with TString s => Some s | _ => None end.
(** [Value::get] with a key. *)
Definition toml_get (k : string) (v : Toml) : option Toml := t ← toml_as_table v; t !! k.
Definition empty_table : Toml := TTable ∅.
(** [as_table().is_some_and(|t| !t.is_empty())]. *)
Definition filled_table (v : Toml) : bool :=
  match toml_as_table v with Some t => bool_decide (t ≠ ∅) | None => false end.

(** A number keeps what [as_i64] and [to_string] give. *)
Inductive Jv : Type :=
| JNull
| JBool (b : bool)
| JNumber (as_i64 : option Z) (text : string)
| JString (s : string)
| JArray (items : list Jv)
| JObject (fields : gmap string Jv).

Definition jv_as_str (v : Jv) : option string := match v with JString s => Some s | _ => None end.
Definition jv_as_array (v : Jv) : option (list Jv) := match v with JArray l => Some l | _ => None end.
Definition jv_as_object (v : Jv) : option (gmap string Jv) := match v with JObject m => Some m | _ => None end.
Definition jv_get (k : string) (v : Jv) : option Jv := m ← jv_as_object v; m !! k.

(** How deep a value is nested: the measure of proofs by induction on values. *)
Fixpoint depth (v : Toml) : nat :=
  match v with
  | TArray l => S (foldr (λ v n, depth v `max` n) 0 l)
  | TTable t => S (map_fold (λ _ v n, depth v `max` n) 0 t)
  | _ => 0
  end.

Lemma depth_entry t k v : t !! k = Some v → depth v < depth (TTable t).
Proof. intros Hk. cbn. rewrite (map_fold_delete_L _ _ k v); [|intros; lia|done]. lia. Qed.
Lemma depth_item (l : list Toml) v : v ∈ l → depth v < depth (TArray l).
Proof. cbn. induction 1 as [|x y l _ IH]; cbn; lia. Qed.
Lemma Toml_induction (P : Toml → Prop) :
  (∀ v, (∀ l x, v = TArray l → x ∈ l → P x) → (∀ t k x, v = TTable t → t !! k = Some x → P x) → P v) → ∀ v, P v.
Proof.
  intros Hstep v. induction (wf_inverse_image _ _ _ depth lt_wf v) as [v _ IH]. apply Hstep.
  - intros l x -> Hx. by apply IH, depth_item.
  - intros t k x -> Hk. by eapply IH, depth_entry.
Qed.

End Values.

(** * The machine *)

Module Export Hosts.

Inductive Os : Type := Linux | MacOs | OtherUnix | Windows.
#[export] Instance Os_eq_dec : EqDecision Os.
Proof. solve_decision. Defined.

(** What is at a path. A file whose text is [None] cannot be read or is not UTF-8; a
    link keeps what it leads to, [None] when it dangles. *)
Inductive Entry : Type :=
| Plain (text : option string)
| Directory
| LinkTo (target : option (option string)).

(** What [git2] says about a repository. *)
Record GitRepo : Type := MkGitRepo { repo_workdir : option string; is_worktree : bool; commondir : string }.

(** [canonical] is [dunce::canonicalize], [git_discover] and [git_open] are
    [git2::Repository::discover] and [open]; [worktree_db] is the registry of worktrees
    with their source repositories, [None] when it cannot be opened; [mdm_forced] is the
    string forced by the device profile of macOS. *)
Record Host : Type := MkHost {
  os : Os;
  env_vars : gmap string string;
  home_dir : option string;
  files : gmap string Entry;
  canonical : string → option string;
  git_discover : string → option GitRepo;
  git_open : string → option GitRepo;
  worktree_db : option (gmap string string);
  mdm_forced : option string;
}.

Inductive ReadError : Type := NotFound | OtherError.

Definition env_var (h : Host) (name : string) : option string := env_vars h !! name.
Definition read_to_string (h : Host) (path : string) : result ReadError string :=
  match files h !! path with
  | Some (Plain (Some s)) | Some (LinkTo (Some (Some s))) => Ok s
  | Some (LinkTo None) | None => Err NotFound
  | _ => Err OtherError
  end.
Definition path_exists (h : Host) (path : string) : bool :=
  match files h !! path with Some (LinkTo None) | None => false | _ => true end.
Definition is_file (h : Host) (path : string) : bool :=
  match files h !! path with Some (Plain _) | Some (LinkTo (Some _)) => true | _ => false end.
Definition is_dir (h : Host) (path : string) : bool :=
  match files h !! path with Some Directory => true | _ => false end.
(** [symlink_metadata(path).is_ok_and(|m| !m.is_file())]. *)
Definition non_regular_file_at (h : Host) (path : string) : bool :=
  match files h !! path with Some Directory | Some (LinkTo _) => true | _ => false end.

(** The work tree of the repository around a directory. *)
Definition git_workdir (h : Host) (dir : string) : option string := r ← git_discover h dir; repo_workdir r.

Definition canonicalize_or_owned (h : Host) (path : string) : string := default path (canonical h path).

Definition with_files (h : Host) (fs : gmap string Entry) : Host :=
  MkHost (os h) (env_vars h) (home_dir h) fs (canonical h) (git_discover h) (git_open h) (worktree_db h) (mdm_forced h).
(** The rename at the end of an atomic write. *)
Definition put_file (h : Host) (path text : string) : Host := with_files h (<[path := Plain (Some text)]> (files h)).

Lemma read_put h path text : read_to_string (put_file h path text) path = Ok text.
Proof. unfold read_to_string. cbn. by rewrite lookup_insert_eq. Qed.
Lemma read_put_other h path text q : q ≠ path → files (put_file h path text) !! q = files h !! q.
Proof. intros Hq. cbn. by rewrite lookup_insert_ne. Qed.

(** [lib.rs]. *)
Definition env_bool (h : Host) (name : string) : option bool :=
  value ← env_var h name;
  let v := to_ascii_lowercase (trim value) in
  if bool_decide (v ∈ ["1"; "true"; "yes"; "on"; "enabled"]) then Some true
  else if bool_decide (v ∈ ["0"; "false"; "no"; "off"; "disabled"]) then Some false
  else None.

End Hosts.

(** * Places ([paths.rs]) *)

Module Export Places.

Definition default_ainxt_home (h : Host) : string :=
  let home := default "." (home_dir h) in path_join (canonicalize_or_owned h home) ".ainxt".
Definition ainxt_home (h : Host) : string := default (default_ainxt_home h) (env_var h "AINXT_HOME").
Definition user_ainxt_home (h : Host) : option string :=
  if bool_decide (is_Some (env_var h "AINXT_HOME")) || bool_decide (is_Some (home_dir h)) then Some (ainxt_home h) else None.

Definition system_config_dir (h : Host) : option string := if bool_decide (os h = Windows) then None else Some "/etc/ainxt".

Definition CLAUDE_MANAGED_SETTINGS_PATH (h : Host) : option string :=
  match os h with
  | MacOs => Some "/Library/Application Support/ClaudeCode/managed-settings.json"
  | Linux => Some "/etc/claude-code/managed-settings.json"
  | OtherUnix | Windows => None
  end.
Definition claude_managed_settings_path (h : Host) : option string :=
  path ← CLAUDE_MANAGED_SETTINGS_PATH h; if path_exists h path then Some path else None.

(** Without a home nothing is looked for in the working directory. *)
Lemma user_home_resolves h home : user_ainxt_home h = Some home → is_Some (env_var h "AINXT_HOME") ∨ is_Some (home_dir h).
Proof. unfold user_ainxt_home. do 2 case_bool_decide; naive_solver. Qed.

End Places.
