(* ===== verification/ConfigLayers.v ===== *)
(** The layers of the configuration (crate [ainxt-config]): loading and expanding TOML
    files, merging layers, patches bound to versions and campaigns, and the layers an
    administrator forces ([loader.rs], [config_override.rs], [version_overrides.rs],
    [campaigns.rs], [validation.rs], [macos_managed.rs]). *)
From stdpp Require Import list gmap strings sorting.
From S2P Require Import Prelude RustStr StrSearch HostFiles.

(** What the code uses of the crates [toml], [shellexpand], [semver], [base64] and of
    [serde_json] with the type [CampaignsState]. *)
Class ConfigLibs : Type := {
  toml_from_str : string → option Toml;
  (** [env_with_context_no_errors]. *)
  shell_expand : string → (string → option string) → string;
  Version : Type;
  Version_parse : string → option Version;
  version_le : Version → Version → bool;
  (** [Version::new(0, 0, 0)], the version of this build, and the bytes of padded base64
      as text when they are UTF-8. *)
  version_zero : Version;
  VERSION : string;
  base64_text : string → option string;
  campaigns_state : string → option (list string);
}.

(** Versions are ordered. *)
Class LawfulVersions `{ConfigLibs} : Prop := {
  version_total v v' : version_le v v' = false → version_le v' v = true;
  version_trans v1 v2 v3 : version_le v1 v2 = true → version_le v2 v3 = true → version_le v1 v3 = true;
}.

(** * Merging ([loader.rs]) *)

Module Export Merging.

Fixpoint deep_merge_toml (base overrides : Toml) {struct overrides} : Toml :=
  match overrides, base with
  | TTable o, TTable b =>
      TTable (map_fold (λ k v acc,
        match acc !! k with
        | Some existing => <[k := deep_merge_toml existing v]> acc
        | None => <[k := v]> acc
        end) b o)
  | _, _ => overrides
  end.

(** What is at a path of keys. *)
Fixpoint at_path (v : Toml) (path : list string) : option Toml :=
  match path with
  | [] => Some v
  | k :: path => x ← toml_get k v; at_path x path
  end.

(** [patch_touches_path] ([config_override.rs]): below the first key. *)
Fixpoint touches_below (cur : Toml) (path : list string) : bool :=
  match path with
  | [] => true
  | seg :: path =>
      match toml_as_table cur with
      | Some t => match t !! seg with Some v => touches_below v path | None => false end
      | None => true
      end
  end.
Definition patch_touches_path (patch : gmap string Toml) (path : list string) : bool :=
  match path with
  | [] => false
  | first :: path => match patch !! first with Some cur => touches_below cur path | None => false end
  end.
Definition patch_touches_any (patch : gmap string Toml) (paths : list (list string)) : bool :=
  existsb (patch_touches_path patch) paths.

Section Expand.
Context `{ConfigLibs}.

Definition expand_env_vars_in_string (h : Host) (input : string) : string := shell_expand input (env_var h).
Fixpoint expand_env_vars_in_toml (h : Host) (v : Toml) : Toml :=
  match v with
  | TString s => TString (expand_env_vars_in_string h s)
  | TArray items => TArray (expand_env_vars_in_toml h <$> items)
  | TTable t => TTable (expand_env_vars_in_toml h <$> t)
  | _ => v
  end.

Definition load_toml_file (h : Host) (path : string) : option Toml :=
  match read_to_string h path with
  | Ok s => expand_env_vars_in_toml h <$> toml_from_str s
  | Err NotFound => Some empty_table
  | Err OtherError => None
  end.
End Expand.

End Merging.

(** * Arrays of patches ([config_override.rs]) *)

Module Export Patches.

Record ConfigOverrideEntry (M : Type) : Type := MkOverrideEntry { entry_meta : M; entry_patch : gmap string Toml }.
Global Arguments MkOverrideEntry {M}.
Global Arguments entry_meta {M}.
Global Arguments entry_patch {M}.

(** How [serde] reads the named fields of a type from a table: the fields, or nothing
    when one has the wrong type, and the rest of the table. *)
Definition MetaReader (M : Type) : Type := gmap string Toml → option (M * gmap string Toml).

(** An optional string under one of the names [keys]: not there, there twice, of another
    type, or a string; and the rest. *)
Definition read_optional_str (keys : list string) : MetaReader (option string) := λ t,
  let rest := foldr delete t keys in
  match omap (λ k, t !! k) keys with
  | [] => Some (None, rest)
  | [TString s] => Some (Some s, rest)
  | _ => None
  end.

Definition read_entry {M} (meta : MetaReader M) (v : Toml) : option (ConfigOverrideEntry M) :=
  t ← toml_as_table v; '(m, rest) ← meta t; Some (MkOverrideEntry m rest).

(** The configuration without the key, and the entries unless they cannot be read. *)
Definition take_patch_array {M} (meta : MetaReader M) (config : Toml) (key : string) :
    Toml * option (list (ConfigOverrideEntry M)) :=
  match config with
  | TTable t =>
      match t !! key with
      | None => (config, Some [])
      | Some v => (TTable (delete key t), items ← toml_as_array v; mapM (read_entry meta) items)
      end
  | _ => (config, Some [])
  end.

Definition PATCH_STRIP_KEYS : list string := ["version_overrides"; "campaigns"].

Definition apply_patches (config : Toml) (patches : list (gmap string Toml)) (strip_keys : list string) : Toml :=
  fold_left (λ config patch, deep_merge_toml config (TTable (foldr delete patch strip_keys))) patches config.

End Patches.

(** * The version of this build ([ainxt-version]) *)

Module Export Installed.

(** The text between two equal quotes. *)
Definition unquoted (q s : string) : option string := r ← strip_prefix q s; strip_suffix q r.

(** [fuel]: every round drops two bytes. *)
Fixpoint normalize_loop (fuel : nat) (s : string) : string :=
  match fuel with
  | 0 => s
  | S fuel =>
      match (match unquoted quote_str s with Some r => Some r | None => unquoted "'" s end) with
      | Some inner => normalize_loop fuel (trim inner)
      | None => s
      end
  end.
Definition normalize (raw : string) : string := let s := trim raw in normalize_loop (String.length s) s.

Section Installed.
Context `{ConfigLibs}.
Definition TEST_VERSION_ENV : string := "AINXT_TEST_VERSION".
Definition installed (h : Host) : string := normalize (default VERSION (env_var h TEST_VERSION_ENV)).
Definition installed_semver (h : Host) : option Version := Version_parse (installed h).
End Installed.

End Installed.

(** * Patches bound to versions ([version_overrides.rs]) *)

Module Export Overrides.
Section Overrides.
Context `{ConfigLibs}.

Definition VERSION_OVERRIDES_KEY : string := "version_overrides".

Record VersionOverrideMeta : Type := MkVersionMeta { minimum_version : option string; maximum_version : option string }.

Inductive VersionOverrideError : Type :=
| Deserialize
| InvalidMinimumVersion (index : nat) (value : string)
| InvalidMaximumVersion (index : nat) (value : string).

Definition read_version_meta : MetaReader VersionOverrideMeta := λ t,
  '(minimum, t) ← read_optional_str ["minimum_version"] t;
  '(maximum, t) ← read_optional_str ["maximum_version"] t;
  Some (MkVersionMeta minimum maximum, t).

(** Bounds and patch. *)
Definition Parsed : Type := Version * option Version * gmap string Toml.

Definition parse_override (index : nat) (e : ConfigOverrideEntry VersionOverrideMeta) : result VersionOverrideError Parsed :=
  min_v ← match minimum_version (entry_meta e) with
    | Some s => ok_or (Version_parse (trim s)) (InvalidMinimumVersion index s)
    | None => Ok version_zero
    end;
  max_v ← match maximum_version (entry_meta e) with
    | Some s => v ← ok_or (Version_parse (trim s)) (InvalidMaximumVersion index s); Ok (Some v)
    | None => Ok None
    end;
  Ok (min_v, max_v, entry_patch e).

Fixpoint parse_overrides (index : nat) (es : list (ConfigOverrideEntry VersionOverrideMeta)) :
    result VersionOverrideError (list Parsed) :=
  match es with
  | [] => Ok []
  | e :: es => p ← parse_override index e; ps ← parse_overrides (S index) es; Ok (p :: ps)
  end.

Definition version_lt (v v' : Version) : bool := negb (version_le v' v).
Definition applies_to (version : Version) (p : Parsed) : bool :=
  let '(min_v, max_v, _) := p in
  negb (version_lt version min_v) && match max_v with Some m => negb (version_lt m version) | None => true end.

(** The configuration afterwards, and the error if there was one. *)
Definition apply_version_overrides (config : Toml) (version : Version) : Toml * option VersionOverrideError :=
  match take_patch_array read_version_meta config VERSION_OVERRIDES_KEY with
  | (config, None) => (config, Some Deserialize)
  | (config, Some entries) =>
      match parse_overrides 0 entries with
      | Err e => (config, Some e)
      | Ok parsed =>
          let parsed := sort_by (λ a b, version_le a.1.1 b.1.1) parsed in
          let patches := snd <$> filter (λ p, applies_to version p = true) parsed in
          (apply_patches config patches PATCH_STRIP_KEYS, None)
      end
  end.

(** [loader.rs]. *)
Definition remove_key (k : string) (v : Toml) : Toml := match v with TTable t => TTable (delete k t) | _ => v end.
Definition apply_version_overrides_with_registered (h : Host) (value : Toml) : Toml * option VersionOverrideError :=
  match installed_semver h with
  | Some version => apply_version_overrides value version
  | None => (remove_key VERSION_OVERRIDES_KEY value, None)
  end.

Definition load_config_file (h : Host) (path : string) : option Toml :=
  v ← load_toml_file h path;
  match apply_version_overrides_with_registered h v with (v, None) => Some v | (_, Some _) => None end.

Definition MANAGED_CONFIG_FILENAME : string := "managed_config.toml".
Definition REQUIREMENTS_FILENAME : string := "requirements.toml".

Definition load_user_config_layer (h : Host) (home : option string) (filename : string) : option Toml :=
  match home with Some g => load_config_file h (path_join g filename) | None => Some empty_table end.
Definition load_from_disk (h : Host) : option Toml := load_user_config_layer h (user_ainxt_home h) "config.toml".
Definition load_managed_config (h : Host) : option Toml :=
  load_user_config_layer h (user_ainxt_home h) MANAGED_CONFIG_FILENAME.
Definition load_system_managed_config (h : Host) : option Toml :=
  v ← match system_config_dir h with
    | Some dir => load_toml_file h (path_join dir MANAGED_CONFIG_FILENAME)
    | None => Some empty_table
    end;
  match apply_version_overrides_with_registered h v with (v, None) => Some v | (_, Some _) => None end.

Record ManagedConfigLayer : Type := MkManagedLayer { managed_value : Toml; managed_path : string; managed_is_system : bool }.
Definition managed_config_layers_at (h : Host) (system_dir user_home : option string) : list ManagedConfigLayer :=
  omap (λ '(dir, is_system),
    path ← (λ d, path_join d MANAGED_CONFIG_FILENAME) <$> dir;
    if is_file h path then value ← load_config_file h path; Some (MkManagedLayer value path is_system) else None)
    [(system_dir, true); (user_home, false)].
Definition managed_config_layers (h : Host) : list ManagedConfigLayer :=
  managed_config_layers_at h (system_config_dir h) (user_ainxt_home h).

End Overrides.
End Overrides.

(** * Campaigns ([campaigns.rs]) *)

Module Export Campaigns.

Definition CAMPAIGNS_KEY : string := "campaigns".
Record CampaignEntry : Type := MkCampaign { campaign_id : string; campaign_patch : gmap string Toml }.

Definition read_campaign_meta : MetaReader (option string) := read_optional_str ["id"; "campaign_id"].

Definition take_campaigns (config : Toml) : Toml * list (ConfigOverrideEntry (option string)) :=
  let '(config, entries) := take_patch_array read_campaign_meta config CAMPAIGNS_KEY in (config, default [] entries).
Definition build_campaign_entries (taken : list (ConfigOverrideEntry (option string))) : list CampaignEntry :=
  omap (λ e,
    id ← trim <$> entry_meta e;
    if is_empty id then None
    else if bool_decide (entry_patch e = ∅) then None
    else Some (MkCampaign id (entry_patch e))) taken.
Definition take_campaign_entries (config : Toml) : Toml * list CampaignEntry :=
  let '(config, taken) := take_campaigns config in (config, build_campaign_entries taken).

(** The entries of one source, with the ids seen. *)
Definition merge_step (acc : gset string * list CampaignEntry) (e : CampaignEntry) : gset string * list CampaignEntry :=
  let '(seen, out) := acc in
  if bool_decide (campaign_id e ∈ seen) then acc else ({[campaign_id e]} ∪ seen, out ++ [e]).
Definition merge_campaign_entries (sources : list (list CampaignEntry)) : list CampaignEntry :=
  (fold_left (λ acc source, fold_left merge_step source acc) sources (∅, [])).2.

Definition filter_active_campaigns (merged : list CampaignEntry) (dismissed_ids : gset string) : list CampaignEntry :=
  filter (λ e, campaign_id e ∉ dismissed_ids) merged.
Definition ids_touching_paths (active : list CampaignEntry) (paths : list (list string)) : list string :=
  campaign_id <$> filter (λ e, patch_touches_any (campaign_patch e) paths = true) active.
Definition apply_active_campaign_patches (effective : Toml) (active : list CampaignEntry) : Toml :=
  apply_patches effective (campaign_patch <$> reverse active) PATCH_STRIP_KEYS.

End Campaigns.

(** * Layers an administrator forces ([validation.rs], [macos_managed.rs]) *)

Module Export Requirements.
Section Requirements.
Context `{ConfigLibs}.

Definition FAIL_CLOSED_KEY : string := "fail_closed".
Definition FAIL_CLOSED_ENV : string := "AINXT_MANAGED_CONFIG_FAIL_CLOSED".

Definition fail_closed_flag (requirements : Toml) : bool :=
  default false (toml_get FAIL_CLOSED_KEY requirements ≫= toml_as_bool).
(** [deployment_config_types.rs]. *)
Definition fail_closed_flag_from_str (requirements : string) : bool :=
  default false (v ← toml_from_str requirements; toml_get FAIL_CLOSED_KEY v ≫= toml_as_bool).

Inductive RequirementsSource : Type := SourceFile (path : string) | SourceMdm.
Definition MDM_REQUIREMENTS_SOURCE : string := "dev.ainxt:requirements_toml_base64".
Definition label (s : RequirementsSource) : string :=
  match s with SourceFile p => p | SourceMdm => MDM_REQUIREMENTS_SOURCE end.
Record RequirementsLayer : Type := MkRequirementsLayer {
  requirements_value : Toml;
  requirements_source : RequirementsSource;
  is_system : bool;
}.

Definition normalize_requirements_value (h : Host) (v : Toml) : option Toml :=
  match apply_version_overrides_with_registered h (remove_key FAIL_CLOSED_KEY v) with
  | (v, None) => Some v
  | (_, Some _) => None
  end.
Definition load_requirements_layer (h : Host) (path : string) : option Toml :=
  match load_toml_file h path with
  | Some v => if filled_table v then normalize_requirements_value h v else None
  | None => None
  end.

(** [macos_managed.rs]. *)
Definition is_ascii_whitespace (a : ascii) : bool := bool_decide (N_of_ascii a ∈ [9; 10; 12; 13; 32]%N).
Fixpoint without_whitespace (s : string) : string :=
  match s with
  | "" => ""
  | String a s => if is_ascii_whitespace a then without_whitespace s else String a (without_whitespace s)
  end.
Definition decode_managed_toml (encoded : string) : option Toml :=
  toml_str ← base64_text (without_whitespace encoded);
  value ← toml_from_str toml_str;
  if filled_table value then Some value else None.
Definition read_forced_requirements (h : Host) : option string :=
  if bool_decide (os h = MacOs) then mdm_forced h else None.
Definition managed_preferences_requirements (h : Host) : option Toml := read_forced_requirements h ≫= decode_managed_toml.
Definition mdm_requirements_value (h : Host) : option Toml :=
  managed_preferences_requirements h ≫= normalize_requirements_value h.

Definition file_layer (h : Host) (dir : option string) (system : bool) : list RequirementsLayer :=
  match (λ d, path_join d "requirements.toml") <$> dir with
  | Some path =>
      match load_requirements_layer h path with
      | Some value => [MkRequirementsLayer value (SourceFile path) system]
      | None => []
      end
  | None => []
  end.
Definition requirements_layers (h : Host) : list RequirementsLayer :=
  file_layer h (user_ainxt_home h) false ++ file_layer h (system_config_dir h) true ++
  match mdm_requirements_value h with Some value => [MkRequirementsLayer value SourceMdm true] | None => [] end.

Definition load_merged_requirements (h : Host) : option Toml :=
  match requirements_layers h with
  | [] => None
  | l :: ls => Some (fold_left (λ merged l, deep_merge_toml merged (requirements_value l)) ls (requirements_value l))
  end.

Definition load_requirements (h : Host) : option Toml :=
  home ← user_ainxt_home h; load_requirements_layer h (path_join home "requirements.toml").
Definition load_system_requirements (h : Host) : option Toml :=
  dir ← system_config_dir h; load_requirements_layer h (path_join dir "requirements.toml").

Definition resolve_fail_closed_mode (h : Host) (requirements : Toml) : bool :=
  fail_closed_flag requirements || bool_decide (env_bool h FAIL_CLOSED_ENV = Some true).

(** [RequirementsError::InvalidVersionOverrides]. *)
Record RequirementsError : Type := InvalidVersionOverrides { error_path : string; error_source : VersionOverrideError }.

Definition validate_requirements_value (h : Host) (v : Toml) (source : RequirementsSource) : result RequirementsError () :=
  if negb (filled_table v) then Ok ()
  else
    match installed_semver h with
    | None => Ok ()
    | Some version =>
        match apply_version_overrides v version with
        | (_, Some e) =>
            if resolve_fail_closed_mode h v then Err (InvalidVersionOverrides (label source) e) else Ok ()
        | (_, None) => Ok ()
        end
    end.
Definition validate_requirements_layer (h : Host) (path : string) : result RequirementsError () :=
  match load_toml_file h path with
  | Some v => validate_requirements_value h v (SourceFile path)
  | None => Ok ()
  end.
Definition validate_requirements (h : Host) : result RequirementsError () :=
  _ ← match user_ainxt_home h with
    | Some g => validate_requirements_layer h (path_join g "requirements.toml")
    | None => Ok ()
    end;
  _ ← match system_config_dir h with
    | Some dir => validate_requirements_layer h (path_join dir "requirements.toml")
    | None => Ok ()
    end;
  match managed_preferences_requirements h with
  | Some mdm => validate_requirements_value h mdm SourceMdm
  | None => Ok ()
  end.

End Requirements.
End Requirements.

(** * The layers together ([loader.rs]) *)

Module Export Layers.
Section Layers.
Context `{ConfigLibs}.

Record CampaignOverrides : Type := MkCampaigns {
  requirements_campaigns : list CampaignEntry;
  user_campaigns : list CampaignEntry;
  managed_campaigns : list CampaignEntry;
  system_managed_campaigns : list CampaignEntry;
}.
Record ConfigLayers : Type := MkLayers {
  system_managed : Toml;
  managed : Toml;
  user : Toml;
  user_requirements : option Toml;
  system_requirements : option Toml;
  mdm_requirements : option Toml;
  campaigns : CampaignOverrides;
}.

Definition take_optional (req : option Toml) : option Toml * list CampaignEntry :=
  match req with
  | Some v => let '(v, cs) := take_campaign_entries v in (Some v, cs)
  | None => (None, [])
  end.

Definition load (h : Host) : option ConfigLayers :=
  system_managed ← load_system_managed_config h;
  let '(system_managed, system_managed_campaigns) := take_campaign_entries system_managed in
  managed ← load_managed_config h;
  let '(managed, managed_campaigns) := take_campaign_entries managed in
  user ← load_from_disk h;
  let '(user, user_campaigns) := take_campaign_entries user in
  let '(mdm_requirements, mdm_campaigns) := take_optional (mdm_requirements_value h) in
  let '(system_requirements, system_campaigns) := take_optional (load_system_requirements h) in
  let '(user_requirements, user_req_campaigns) := take_optional (load_requirements h) in
  Some (MkLayers system_managed managed user user_requirements system_requirements mdm_requirements
    (MkCampaigns (mdm_campaigns ++ system_campaigns ++ user_req_campaigns)
       user_campaigns managed_campaigns system_managed_campaigns)).

Definition merge_optional (merged : Toml) (req : option Toml) : Toml :=
  match req with Some r => deep_merge_toml merged r | None => merged end.

Definition effective_config_base (l : ConfigLayers) : Toml :=
  let merged := deep_merge_toml (deep_merge_toml (system_managed l) (managed l)) (user l) in
  merge_optional (merge_optional (merge_optional merged (user_requirements l)) (system_requirements l)) (mdm_requirements l).

Definition campaign_source_slices (l : ConfigLayers) (remote_campaigns : list CampaignEntry) : list (list CampaignEntry) :=
  let c := campaigns l in
  [requirements_campaigns c; remote_campaigns; user_campaigns c; managed_campaigns c; system_managed_campaigns c].

Definition campaigns_application_disabled (h : Host) (base_effective : Toml) : bool :=
  bool_decide (env_bool h "AINXT_CAMPAIGNS" = Some false) ||
  bool_decide ((f ← toml_get "features" base_effective; c ← toml_get "campaigns" f; toml_as_bool c) = Some false).

Definition resolve_campaigns (h : Host) (l : ConfigLayers) (base : Toml) (remote_campaigns : list CampaignEntry)
    (dismissed_ids : gset string) : list CampaignEntry :=
  if campaigns_application_disabled h base then []
  else filter_active_campaigns (merge_campaign_entries (campaign_source_slices l remote_campaigns)) dismissed_ids.

Definition reapply_requirements (l : ConfigLayers) (merged : Toml) : Toml :=
  fold_left deep_merge_toml (omap id [user_requirements l; system_requirements l; mdm_requirements l]) merged.
Definition apply_campaign_overrides (l : ConfigLayers) (merged : Toml) (active : list CampaignEntry) : Toml :=
  reapply_requirements l (apply_active_campaign_patches merged active).
Definition effective_config_with_campaigns (h : Host) (l : ConfigLayers) (remote_campaigns : list CampaignEntry)
    (dismissed_ids : gset string) : Toml :=
  let merged := effective_config_base l in
  apply_campaign_overrides l merged (resolve_campaigns h l merged remote_campaigns dismissed_ids).

Definition campaigns_state_path (home : string) : string := path_join home "campaigns_state.json".
Definition load_dismissed_ids_from_home (h : Host) : gset string :=
  match user_ainxt_home h with
  | None => ∅
  | Some home =>
      match read_to_string h (campaigns_state_path home) with
      | Ok contents => list_to_set (default [] (campaigns_state contents))
      | Err _ => ∅
      end
  end.
Definition effective_config_disk_only (h : Host) (l : ConfigLayers) : Toml :=
  effective_config_with_campaigns h l [] (load_dismissed_ids_from_home h).
Definition load_effective_config_disk_only (h : Host) : option Toml := effective_config_disk_only h <$> load h.

Definition has_system_managed (l : ConfigLayers) : bool := filled_table (system_managed l).
Definition has_managed (l : ConfigLayers) : bool := filled_table (managed l) || filled_table (system_managed l).

End Layers.
End Layers.

(** * What merging does, path by path *)

Module Export MergeLaws.

Lemma merge_lookup b o k :
  toml_get k (deep_merge_toml (TTable b) (TTable o)) =
  match o !! k with
  | None => b !! k
  | Some v => Some (match b !! k with Some e => deep_merge_toml e v | None => v end)
  end.
Proof.
  cbn. generalize k. apply (map_fold_weak_ind (λ r m, ∀ k, r !! k = match m !! k with
    | None => b !! k
    | Some v => Some (match b !! k with Some e => deep_merge_toml e v | None => v end) end)); clear k; [done|].
  intros i v m r Hi IH k. pose proof (IH i) as Hri. rewrite Hi in Hri. rewrite Hri.
  destruct (decide (k = i)) as [->|Hk]; [rewrite lookup_insert_eq; case_match; by rewrite lookup_insert_eq|].
  rewrite lookup_insert_ne by done. case_match; by rewrite lookup_insert_ne.
Qed.

Lemma merge_leaf base v : toml_as_table v = None → deep_merge_toml base v = v.
Proof. by destruct v. Qed.
Lemma merge_onto_leaf e v : toml_as_table e = None → deep_merge_toml e v = v.
Proof. by destruct e, v. Qed.
Lemma at_leaf v path : toml_as_table v = None → path ≠ [] → at_path v path = None.
Proof. by destruct v, path. Qed.

(** What a patch with the value [v] at a path makes of what was there. *)
Definition put_over (old : option Toml) (v : Toml) : Toml := match old with Some e => deep_merge_toml e v | None => v end.

Lemma put_over_leaf old v : toml_as_table v = None → put_over old v = v.
Proof. destruct old; [apply merge_leaf|done]. Qed.

(** One layer at one path. *)
Definition over (path : list string) (old : option Toml) (layer : Toml) : option Toml :=
  if touches_below layer path then put_over old <$> at_path layer path else old.

Lemma untouched_absent v path : touches_below v path = false → at_path v path = None.
Proof.
  revert v. induction path as [|k path IH]; intros v; [done|]. cbn. unfold toml_get.
  destruct (toml_as_table v) as [t|]; [|done]. cbn. destruct (t !! k) as [x|]; [apply IH|done].
Qed.

Lemma merge_at e v path : at_path (deep_merge_toml e v) path = over path (at_path e path) v.
Proof.
  revert e v. induction path as [|k path IH]; intros e v; [done|]. unfold over.
  destruct (toml_as_table v) as [o|] eqn:Ev.
  2: { rewrite merge_leaf by done. cbn [touches_below]. rewrite Ev. by rewrite at_leaf. }
  destruct v; try done. injection Ev as ->. destruct (toml_as_table e) as [b|] eqn:Ee.
  - destruct e; try done. injection Ee as ->. cbn [at_path touches_below toml_as_table]. rewrite merge_lookup.
    unfold toml_get. cbn. destruct (o !! k) as [v|]; cbn; [|done]. destruct (b !! k) as [e|]; cbn; [apply IH|].
    unfold put_over. destruct (touches_below v path) eqn:Et; [|by apply untouched_absent].
    by destruct (at_path v path).
  - rewrite merge_onto_leaf, (at_leaf e) by done. destruct (touches_below _ _) eqn:Et; [|by apply untouched_absent].
    unfold put_over. by destruct (at_path _ _).
Qed.

Lemma fold_merge_at path layers base :
  at_path (fold_left deep_merge_toml layers base) path = fold_left (over path) layers (at_path base path).
Proof. revert base. induction layers as [|l layers IH]; intros base; [done|]. cbn. by rewrite IH, merge_at. Qed.

Lemma patch_touches_below o path : path ≠ [] → patch_touches_path o path = touches_below (TTable o) path.
Proof. by destruct path. Qed.

(** What a configuration has at a path when the contents of tables are left to the
    longer paths: nothing, a plain value, or a table. A configuration is known once its
    cells are known at all paths. *)
Inductive Cell : Type := NoValue | PlainValue (v : Toml) | ATable.
Definition cell_at (v : Toml) (path : list string) : Cell :=
  match at_path v path with
  | None => NoValue
  | Some (TTable _) => ATable
  | Some v => PlainValue v
  end.

Lemma merge_cell e v : cell_at (deep_merge_toml e v) [] = cell_at v [].
Proof. by destruct v, e. Qed.

Lemma over_cell path old layer :
  touches_below layer path = true →
  match over path old layer with None => NoValue | Some (TTable _) => ATable | Some v => PlainValue v end
    = cell_at layer path.
Proof.
  intros Ht. unfold over, cell_at. rewrite Ht. destruct (at_path layer path) as [v|]; [|done]. cbn.
  destruct old as [e|]; [|done]. cbn. exact (merge_cell e v).
Qed.

(** C29: A patch changes a configuration at the paths [patch_touches_path] names and at no
    other. At a path it names, the merged configuration has what the patch has there: its
    plain value, a table, or nothing when the patch has a plain value at the beginning of
    the path. At any other path it has, whole, what the configuration had. *)
Theorem patch_touches_exact base o path : path ≠ [] →
  if patch_touches_path o path
  then cell_at (deep_merge_toml base (TTable o)) path = cell_at (TTable o) path
  else at_path (deep_merge_toml base (TTable o)) path = at_path base path.
Proof.
  intros Hp. rewrite patch_touches_below by done. destruct (touches_below (TTable o) path) eqn:Ht.
  - unfold cell_at at 1. rewrite merge_at. by apply over_cell.
  - rewrite merge_at. unfold over. by rewrite Ht.
Qed.

(** The layer leaves no room for another value: it has a plain value at the path, or at
    the beginning of it. *)
Definition settles (layer : Toml) (path : list string) : Prop :=
  touches_below layer path = true ∧ ∀ t, at_path layer path ≠ Some (TTable t).

Lemma settled layer path old old' : settles layer path → over path old layer = over path old' layer.
Proof.
  intros [Ht Hv]. unfold over. rewrite Ht. destruct (at_path layer path) as [v|]; [|done]. cbn.
  destruct v; try (destruct old, old'; done). by destruct (Hv table).
Qed.
Lemma settled_fold path layers : (∃ l, l ∈ layers ∧ settles l path) → ∀ old old',
  fold_left (over path) layers old = fold_left (over path) layers old'.
Proof.
  induction layers as [|l layers IH]; intros (x & Hx & Hs) old old'; [by apply not_elem_of_nil in Hx|]. cbn.
  apply elem_of_cons in Hx as [->|Hx]; [by rewrite (settled l path old old')|]. eauto.
Qed.
Lemma untouched_fold path layers old : Forall (λ l, touches_below l path = false) layers →
  fold_left (over path) layers old = old.
Proof. induction 1 as [|l layers Hl _ IH]; [done|]. cbn. unfold over at 2. by rewrite Hl. Qed.

Lemma lookup_strip (keys : list string) (patch : gmap string Toml) k :
  foldr delete patch keys !! k = if bool_decide (k ∈ keys) then None else patch !! k.
Proof.
  induction keys as [|x keys IH]; [done|]. cbn [foldr]. destruct (decide (k = x)) as [->|Hk].
  - rewrite lookup_delete_eq. by rewrite bool_decide_eq_true_2 by left.
  - rewrite lookup_delete_ne, IH by done. do 2 case_bool_decide; set_solver.
Qed.
Lemma strip_touches keys patch path : patch_touches_path patch path = false →
  touches_below (TTable (foldr delete patch keys)) path = false ∨ path = [].
Proof.
  destruct path as [|k path]; [by right|]. left. cbn. rewrite lookup_strip. cbn in *. by case_bool_decide.
Qed.

Lemma stripped_decides keys patch path v old : path ≠ [] → head path ∉ Some <$> keys →
  at_path (TTable patch) path = Some v → toml_as_table v = None →
  over path old (TTable (foldr delete patch keys)) = Some v.
Proof.
  intros Hp Hk Hv Hl. destruct path as [|k path]; [done|].
  assert (He : at_path (TTable (foldr delete patch keys)) (k :: path) = Some v).
  { rewrite <-Hv. cbn [at_path toml_get toml_as_table mbind option_bind]. rewrite lookup_strip, bool_decide_eq_false_2; [done|].
    intros Hin. apply Hk. cbn [head]. apply list_elem_of_fmap. by exists k. }
  unfold over. destruct (touches_below _ _) eqn:Et; [|by rewrite (untouched_absent _ _ Et) in He].
  rewrite He. cbn. unfold put_over. by destruct old; [rewrite merge_leaf|].
Qed.
Lemma untouched_over keys patch path old : path ≠ [] → patch_touches_path patch path = false →
  over path old (TTable (foldr delete patch keys)) = old.
Proof. intros Hp Ht. unfold over. by destruct (strip_touches keys patch path Ht) as [-> |]. Qed.

Lemma apply_patches_fold config patches keys :
  apply_patches config patches keys = fold_left deep_merge_toml ((λ p, TTable (foldr delete p keys)) <$> patches) config.
Proof. unfold apply_patches. revert config. induction patches as [|p ps IH]; intros config; [done|]. cbn. apply IH. Qed.

End MergeLaws.

(** * Campaigns under the requirements *)

Module Export CampaignLaws.
Section CampaignLaws.
Context `{ConfigLibs}.

Lemma reapply_at l merged path :
  at_path (reapply_requirements l merged) path =
  fold_left (over path) (omap id [user_requirements l; system_requirements l; mdm_requirements l]) (at_path merged path).
Proof. apply fold_merge_at. Qed.
Lemma base_ends l : ∃ lower, effective_config_base l =
  fold_left deep_merge_toml (omap id [user_requirements l; system_requirements l; mdm_requirements l]) lower.
Proof.
  exists (deep_merge_toml (deep_merge_toml (system_managed l) (managed l)) (user l)). unfold effective_config_base, merge_optional.
  by destruct (user_requirements l), (system_requirements l), (mdm_requirements l).
Qed.

(** The configuration at a path is computed from what the layers have at that path, from
    the system's managed layer to the device profile. *)
Lemma base_at l path : at_path (effective_config_base l) path =
  fold_left (over path) (managed l :: user l :: omap id [user_requirements l; system_requirements l; mdm_requirements l])
    (at_path (system_managed l) path).
Proof.
  unfold effective_config_base, merge_optional. rewrite <-fold_merge_at.
  by destruct (user_requirements l), (system_requirements l), (mdm_requirements l).
Qed.

Lemma requirements_stand h l remote dismissed r path :
  Some r ∈ [user_requirements l; system_requirements l; mdm_requirements l] → settles r path →
  at_path (effective_config_with_campaigns h l remote dismissed) path = at_path (effective_config_base l) path.
Proof.
  intros Hr Hs. unfold effective_config_with_campaigns, apply_campaign_overrides. rewrite reapply_at.
  destruct (base_ends l) as [lower ->]. rewrite fold_merge_at. apply settled_fold. exists r. split; [|done].
  apply list_elem_of_omap. by exists (Some r).
Qed.

(** C18: Where a requirement has a plain value, or one at the beginning of the path, no
    campaign from any source changes the configuration. *)
Theorem requirements_outrank_campaigns h l remote dismissed r path :
  Some r ∈ [user_requirements l; system_requirements l; mdm_requirements l] → settles r path →
  at_path (effective_config_with_campaigns h l remote dismissed) path = at_path (effective_config_base l) path.
Proof. apply requirements_stand. Qed.

(** A value forced by the device profile stands whatever all other layers and campaigns
    say. *)
Theorem forced_value_stands h l remote dismissed m path v :
  mdm_requirements l = Some m → path ≠ [] → at_path m path = Some v → toml_as_table v = None →
  at_path (effective_config_with_campaigns h l remote dismissed) path = Some v.
Proof.
  intros Hm Hp Hv Hl. assert (Ht : touches_below m path = true).
  { destruct (touches_below m path) eqn:E; [done|]. by rewrite (untouched_absent m path E) in Hv. }
  assert (Hs : settles m path) by (split; [done|intros t Ht'; rewrite Hv in Ht'; naive_solver]).
  rewrite (requirements_stand h l remote dismissed m path); [|rewrite Hm; set_solver|done].
  rewrite base_at, Hm. rewrite <-(merge_leaf v v) at 1 by done.
  rewrite (merge_leaf v v) by done.
  replace (managed l :: user l :: omap id [user_requirements l; system_requirements l; Some m])
    with ((managed l :: user l :: omap id [user_requirements l; system_requirements l]) ++ [m])
    by (by destruct (user_requirements l), (system_requirements l)).
  rewrite fold_left_app. cbn [fold_left]. unfold over at 1. rewrite Ht, Hv. cbn. unfold put_over.
  by destruct (fold_left _ _ _); [rewrite merge_leaf|].
Qed.

(** *** Which campaigns are active *)

Lemma merge_steps es acc :
  (fold_left merge_step es acc).1 = list_to_set (campaign_id <$> es) ∪ acc.1 ∧
  ∀ e, e ∈ (fold_left merge_step es acc).2 ↔
    e ∈ acc.2 ∨ ∃ l1 l2, es = l1 ++ e :: l2 ∧ campaign_id e ∉ campaign_id <$> l1 ∧ campaign_id e ∉ acc.1.
Proof.
  revert acc. induction es as [|x es IH]; intros [seen out]; cbn [fold_left].
  { split; [cbn; set_solver|]. intros e. cbn. split; [by left|]. by intros [?|([|??] & ? & ? & _)]. }
  destruct (IH (merge_step (seen, out) x)) as [IH1 IH2]. unfold merge_step in *.
  case_bool_decide as Hx; cbn [fst snd] in *.
  - split; [rewrite IH1; cbn; set_solver|]. intros e. rewrite IH2. apply or_iff_compat_l. split.
    + intros (l1 & l2 & -> & Hl & Hs). exists (x :: l1), l2. split_and!; [done| |done].
      cbn. apply not_elem_of_cons. split; [congruence|done].
    + intros ([|y l1] & l2 & Hes & Hl & Hs); cbn in Hes; simplify_eq; [done|].
      cbn in Hl. apply not_elem_of_cons in Hl as [_ Hl]. by exists l1, l2.
  - split; [rewrite IH1; cbn; set_solver|]. intros e. rewrite IH2, elem_of_app, list_elem_of_singleton. split.
    + intros [[Ho| ->]|(l1 & l2 & -> & Hl & Hs)]; [by left| |].
      * right. exists [], es. split_and!; [done|apply not_elem_of_nil|done].
      * right. exists (x :: l1), l2. split_and!; [done| |set_solver]. cbn. apply not_elem_of_cons. set_solver.
    + intros [Ho|([|y l1] & l2 & Hes & Hl & Hs)]; [by left; left| |]; cbn in Hes; simplify_eq; [by left; right|].
      cbn in Hl. apply not_elem_of_cons in Hl as [Hxe Hl]. right. exists l1, l2. split_and!; [done|done|set_solver].
Qed.

Lemma merge_flat sources acc :
  fold_left (λ acc source, fold_left merge_step source acc) sources acc = fold_left merge_step (concat sources) acc.
Proof. revert acc. induction sources as [|s ss IH]; intros acc; [done|]. cbn. by rewrite IH, fold_left_app. Qed.

(** A campaign is merged when it is the first of its id, in the order of the sources. *)
Theorem first_id_wins sources e :
  e ∈ merge_campaign_entries sources ↔ ∃ l1 l2, concat sources = l1 ++ e :: l2 ∧ campaign_id e ∉ campaign_id <$> l1.
Proof.
  unfold merge_campaign_entries. rewrite merge_flat. destruct (merge_steps (concat sources) (∅, [])) as [_ ->]. cbn.
  split; [|by intros (l1 & l2 & ? & ?); right; exists l1, l2; split_and!; [| |apply not_elem_of_empty]].
  intros [Hn%not_elem_of_nil|(l1 & l2 & ? & ? & _)]; [done|]. by exists l1, l2.
Qed.

Lemma apply_active_at effective active path :
  at_path (apply_active_campaign_patches effective active) path =
  fold_left (over path) ((λ e, TTable (foldr delete (campaign_patch e) PATCH_STRIP_KEYS)) <$> reverse active)
    (at_path effective path).
Proof. unfold apply_active_campaign_patches. rewrite apply_patches_fold, fold_merge_at, <-list_fmap_compose. done. Qed.

Lemma untouching_campaigns active path effective : path ≠ [] →
  Forall (λ e, patch_touches_path (campaign_patch e) path = false) active →
  at_path (apply_active_campaign_patches effective active) path = at_path effective path.
Proof.
  intros Hp Ha. rewrite apply_active_at. apply untouched_fold. apply Forall_fmap, Forall_reverse.
  eapply Forall_impl; [exact Ha|]. intros e He. by destruct (strip_touches PATCH_STRIP_KEYS _ _ He).
Qed.

(** When the user writes a value at a path, dismissing the campaigns
    [ids_touching_paths] names leaves at that path what the configuration has without
    any campaign, whatever campaigns remain. *)
Theorem dismissal_frees_path h l remote dismissed path : path ≠ [] →
  let active := resolve_campaigns h l (effective_config_base l) remote dismissed in
  let dismissed' := dismissed ∪ list_to_set (ids_touching_paths active [path]) in
  at_path (effective_config_with_campaigns h l remote dismissed') path =
  at_path (apply_campaign_overrides l (effective_config_base l) []) path.
Proof.
  intros Hp active dismissed'. unfold effective_config_with_campaigns, apply_campaign_overrides. rewrite !reapply_at. f_equal.
  rewrite !untouching_campaigns; [done|done|done|done|]. unfold resolve_campaigns, dismissed', active, resolve_campaigns.
  destruct (campaigns_application_disabled _ _); [done|]. apply Forall_forall. intros e [He Hm]%list_elem_of_filter.
  destruct (patch_touches_path (campaign_patch e) path) eqn:Et; [|done]. destruct He. apply elem_of_union.
  destruct (decide (campaign_id e ∈ dismissed)) as [Hd|Hd]; [by left|right]. apply elem_of_list_to_set, list_elem_of_fmap.
  exists e. split; [done|]. apply list_elem_of_filter. split; [cbn; by rewrite Et|].
  by apply list_elem_of_filter.
Qed.

(** Of the active campaigns with a plain value at a path the first decides. *)
Lemma highest_campaign_wins effective higher e lower path v : path ≠ [] → head path ∉ Some <$> PATCH_STRIP_KEYS →
  at_path (TTable (campaign_patch e)) path = Some v → toml_as_table v = None →
  Forall (λ e, patch_touches_path (campaign_patch e) path = false) higher →
  at_path (apply_active_campaign_patches effective (higher ++ e :: lower)) path = Some v.
Proof.
  intros Hp Hk Hv Hl Hh. rewrite apply_active_at, reverse_app, reverse_cons, !fmap_app, !fold_left_app.
  rewrite untouched_fold.
  2: { apply Forall_fmap, Forall_reverse. eapply Forall_impl; [exact Hh|]. intros x Hx.
       by destruct (strip_touches PATCH_STRIP_KEYS _ _ Hx). }
  by apply stripped_decides.
Qed.

End CampaignLaws.
End CampaignLaws.

(** * Patches bound to versions, and validation *)

Module Export OverrideLaws.
Section OverrideLaws.
Context `{ConfigLibs}.

Lemma take_array_table {M} (meta : MetaReader M) t key : ∃ es,
  take_patch_array meta (TTable t) key = (TTable (delete key t), es).
Proof.
  unfold take_patch_array. destruct (t !! key) as [v|] eqn:E; [by eexists|]. exists (Some []). by rewrite delete_id.
Qed.

Lemma fold_merge_key k t ps : k ∈ PATCH_STRIP_KEYS →
  ∃ t', fold_left deep_merge_toml ((λ p, TTable (foldr delete p PATCH_STRIP_KEYS)) <$> ps) (TTable t) = TTable t' ∧ t' !! k = t !! k.
Proof.
  intros Hk. revert t. induction ps as [|p ps IH]; intros t; [by exists t|]. cbn [fmap list_fmap fold_left].
  pose proof (merge_lookup t (foldr delete p PATCH_STRIP_KEYS) k) as Hm. rewrite lookup_strip, bool_decide_eq_true_2 in Hm by done.
  destruct (deep_merge_toml (TTable t) (TTable (foldr delete p PATCH_STRIP_KEYS))) as [| | | | | |t1] eqn:E; try done.
  destruct (IH t1) as (t' & -> & Ht'). exists t'. split; [done|]. by rewrite Ht'.
Qed.

(** Patches bound to versions never bring back an array of patches: the section is gone,
    the campaigns are those of the file, and when a bound cannot be read nothing but the
    section changes. *)
Theorem overrides_inject_nothing t version :
  let '(config, error) := apply_version_overrides (TTable t) version in
  ∃ t', config = TTable t' ∧ t' !! VERSION_OVERRIDES_KEY = None ∧ t' !! CAMPAIGNS_KEY = t !! CAMPAIGNS_KEY ∧
  (is_Some error → t' = delete VERSION_OVERRIDES_KEY t).
Proof.
  unfold apply_version_overrides. destruct (take_array_table read_version_meta t VERSION_OVERRIDES_KEY) as [es ->].
  assert (Hd : delete VERSION_OVERRIDES_KEY t !! VERSION_OVERRIDES_KEY = None) by apply lookup_delete_eq.
  assert (Hc : delete VERSION_OVERRIDES_KEY t !! CAMPAIGNS_KEY = t !! CAMPAIGNS_KEY) by (by rewrite lookup_delete_ne).
  destruct es as [es|]; [|by eexists]. destruct (parse_overrides 0 es) as [ps|e]; [|by eexists].
  rewrite apply_patches_fold. set (patches := snd <$> _).
  destruct (fold_merge_key VERSION_OVERRIDES_KEY (delete VERSION_OVERRIDES_KEY t) patches) as (t' & Ht & Hv); [set_solver|].
  destruct (fold_merge_key CAMPAIGNS_KEY (delete VERSION_OVERRIDES_KEY t) patches) as (t'' & Ht' & Hc'); [set_solver|].
  rewrite Ht in Ht'. injection Ht' as <-. exists t'. split_and!; [done|by rewrite Hv|by rewrite Hc'|]. by intros [? ?].
Qed.

Lemma removed_key_same_error t version :
  (apply_version_overrides (TTable (delete FAIL_CLOSED_KEY t)) version).2 = (apply_version_overrides (TTable t) version).2.
Proof.
  unfold apply_version_overrides, take_patch_array. rewrite lookup_delete_ne by done.
  destruct (t !! VERSION_OVERRIDES_KEY) as [v|].
  - destruct (toml_as_array v) as [items|]; [|done]. cbn. destruct (mapM _ items) as [es|]; [|done].
    by destruct (parse_overrides 0 es).
  - done.
Qed.

Lemma registered_applies h t :
  match installed_semver h with
  | Some version => (apply_version_overrides (TTable t) version).2 = None
  | None => True
  end → ∃ value, normalize_requirements_value h (TTable t) = Some value.
Proof.
  unfold normalize_requirements_value, apply_version_overrides_with_registered. destruct (installed_semver h) as [version|]; [|by eexists].
  intros Hn. cbn [remove_key]. pose proof (removed_key_same_error t version) as He. rewrite Hn in He.
  clear Hn. destruct (apply_version_overrides _ _) as [v [e|]]; [done|]. by exists v.
Qed.

Lemma validated_value h v source : validate_requirements_value h v source = Ok () → filled_table v = true →
  resolve_fail_closed_mode h v = true → ∃ value, normalize_requirements_value h v = Some value.
Proof.
  intros Hv Hf Hc. assert (∃ t, v = TTable t) as [t ->] by (destruct v; try done; by eexists).
  apply registered_applies. unfold validate_requirements_value in Hv. rewrite Hf, Hc in Hv. cbn [negb] in Hv.
  destruct (installed_semver h) as [version|]; [|done]. by destruct (apply_version_overrides (TTable t) version) as [v [e|]].
Qed.

(** No override of the table [t] that matches this build touches the path. *)
Definition unpatched (h : Host) (t : gmap string Toml) (path : list string) : Prop :=
  ∀ version items es ps p, installed_semver h = Some version →
    t !! VERSION_OVERRIDES_KEY = Some (TArray items) → mapM (read_entry read_version_meta) items = Some es →
    parse_overrides 0 es = Ok ps → p ∈ ps → applies_to version p = true → patch_touches_path p.2 path = false.

(** The same as a test. *)
Definition unpatched_test (h : Host) (t : gmap string Toml) (path : list string) : bool :=
  match installed_semver h, t !! VERSION_OVERRIDES_KEY with
  | Some version, Some (TArray items) =>
      match mapM (read_entry read_version_meta) items with
      | Some es =>
          match parse_overrides 0 es with
          | Ok ps => forallb (λ p, negb (applies_to version p && patch_touches_path p.2 path)) ps
          | Err _ => true
          end
      | None => true
      end
  | _, _ => true
  end.
Lemma unpatched_tested h t path : unpatched_test h t path = true → unpatched h t path.
Proof.
  unfold unpatched_test. intros Ht version items es ps p Hv Hi He Hps Hp Ha.
  rewrite Hv, Hi, He, Hps in Ht. rewrite forallb_forall in Ht.
  specialize (Ht p (proj1 (list_elem_of_In _ _) Hp)). rewrite Ha in Ht. by destruct (patch_touches_path _ _).
Qed.

(** The keys a requirement is stripped of. *)
Definition CONSUMED_KEYS : list string := [FAIL_CLOSED_KEY; VERSION_OVERRIDES_KEY].

Lemma at_deleted t path : path ≠ [] → head path ∉ Some <$> CONSUMED_KEYS →
  at_path (TTable (delete VERSION_OVERRIDES_KEY (delete FAIL_CLOSED_KEY t))) path = at_path (TTable t) path.
Proof.
  destruct path as [|k path]; [done|]. intros _ Hk. unfold CONSUMED_KEYS in Hk. cbn [head] in Hk.
  cbn [at_path]. unfold toml_get. cbn [toml_as_table mbind option_bind].
  rewrite !lookup_delete_ne; [done|..]; intros <-; apply Hk; set_solver.
Qed.

Lemma patches_untouched config patches path : path ≠ [] →
  Forall (λ p, patch_touches_path p path = false) patches →
  at_path (apply_patches config patches PATCH_STRIP_KEYS) path = at_path config path.
Proof.
  intros Hp Hall. rewrite apply_patches_fold, fold_merge_at. apply untouched_fold.
  rewrite Forall_fmap. eapply Forall_impl; [exact Hall|]. intros p Ht. cbn.
  by destruct (strip_touches PATCH_STRIP_KEYS p path Ht).
Qed.

(** A requirement keeps what it says, apart from the two keys it is stripped of and the
    paths its own overrides touch. *)
Lemma normalized_at h t value path : normalize_requirements_value h (TTable t) = Some value →
  path ≠ [] → head path ∉ Some <$> CONSUMED_KEYS → unpatched h t path → at_path value path = at_path (TTable t) path.
Proof.
  unfold normalize_requirements_value, apply_version_overrides_with_registered. cbn [remove_key]. intros Hn Hp Hk Hun.
  rewrite <-(at_deleted t path Hp Hk). destruct (installed_semver h) as [version|] eqn:Ev; [|by injection Hn as <-].
  unfold apply_version_overrides in Hn.
  unfold take_patch_array in Hn. rewrite lookup_delete_ne in Hn by done.
  destruct (t !! VERSION_OVERRIDES_KEY) as [x|] eqn:Ex.
  2: { cbn [parse_overrides] in Hn. injection Hn as <-. rewrite (delete_id (delete FAIL_CLOSED_KEY t) VERSION_OVERRIDES_KEY) by (by rewrite lookup_delete_ne). done. }
  destruct (toml_as_array x) as [items|] eqn:Ei; [|done]. destruct x; try done. injection Ei as ->. cbn in Hn.
  destruct (mapM _ items) as [es|] eqn:Ees; [|done]. destruct (parse_overrides 0 es) as [ps|e] eqn:Eps; [|done].
  injection Hn as <-. apply patches_untouched; [done|]. apply Forall_forall. intros o (p & -> & Hin)%list_elem_of_fmap.
  apply list_elem_of_filter in Hin as [Ha Hin]. rewrite sort_by_Permutation in Hin.
  by apply (Hun version items es ps p).
Qed.

(** A plain value of one layer that no later layer touches is in the merged requirements. *)
Lemma merged_value h l before after path v :
  requirements_layers h = before ++ l :: after → path ≠ [] →
  at_path (requirements_value l) path = Some v → toml_as_table v = None →
  Forall (λ l', touches_below (requirements_value l') path = false) after →
  ∃ merged, load_merged_requirements h = Some merged ∧ at_path merged path = Some v.
Proof.
  intros Hl Hp Hv Hplain Hafter. unfold load_merged_requirements. rewrite Hl.
  assert (Hend : ∀ base, at_path (fold_left (λ m l', deep_merge_toml m (requirements_value l')) after base) path = at_path base path).
  { revert Hafter. clear. induction 1 as [|l' after Ht _ IH]; intros base; [done|]. cbn [fold_left]. rewrite IH, merge_at. unfold over. by rewrite Ht. }
  destruct before as [|l0 before]; cbn [app]; eexists; (split; [done|]); [by rewrite Hend|].
  rewrite fold_left_app. cbn [fold_left]. rewrite Hend, merge_at. unfold over.
  destruct (touches_below _ _) eqn:Et; [|by rewrite (untouched_absent _ _ Et) in Hv].
  rewrite Hv. cbn [fmap option_fmap option_map]. f_equal. by apply put_over_leaf.
Qed.

(** Where the layer of a source is read from, for the effective configuration. *)
Definition loaded_layer (h : Host) (source : RequirementsSource) (system : bool) : option Toml :=
  match source with
  | SourceFile _ => if system then load_system_requirements h else load_requirements h
  | SourceMdm => mdm_requirements_value h
  end.

(** A requirement that is read from [source]. *)
Definition required (h : Host) (source : RequirementsSource) (system : bool) (v : Toml) : Prop :=
  match source with
  | SourceFile path =>
      load_toml_file h path = Some v ∧
      (λ d, path_join d "requirements.toml") <$> (if system then system_config_dir h else user_ainxt_home h) = Some path
  | SourceMdm => managed_preferences_requirements h = Some v ∧ system = true
  end.

Lemma validated_layer h source (system : bool) v :
  validate_requirements h = Ok () → required h source system v → filled_table v = true →
  resolve_fail_closed_mode h v = true →
  ∃ value, normalize_requirements_value h v = Some value ∧ loaded_layer h source system = Some value ∧
    MkRequirementsLayer value source system ∈ requirements_layers h.
Proof.
  intros Hv Hs Hf Hc. unfold validate_requirements in Hv. apply bind_Ok in Hv as (u1 & Hu & Hv).
  apply bind_Ok in Hv as (u2 & Hy & Hm). destruct u1, u2. unfold requirements_layers.
  destruct source as [path|]; destruct Hs as [Hl Hp].
  - assert (Hin : validate_requirements_layer h path = Ok ()).
    { destruct system; apply fmap_Some in Hp as (d & Hd & ->); by rewrite Hd in *. }
    unfold validate_requirements_layer in Hin. rewrite Hl in Hin.
    destruct (validated_value h v _ Hin Hf Hc) as [value Hn]. exists value.
    assert (Hload : load_requirements_layer h path = Some value) by (unfold load_requirements_layer; by rewrite Hl, Hf).
    assert (Hx : MkRequirementsLayer value (SourceFile path) system ∈
      file_layer h (if system then system_config_dir h else user_ainxt_home h) system).
    { unfold file_layer. rewrite Hp, Hload. by left. }
    split_and!; [done| |rewrite !elem_of_app; destruct system; naive_solver].
    cbn. destruct system; apply fmap_Some in Hp as (d & Hd & ->); unfold load_system_requirements, load_requirements; by rewrite Hd.
  - subst. rewrite Hl in Hm. destruct (validated_value h v _ Hm Hf Hc) as [value Hn]. exists value.
    assert (mdm_requirements_value h = Some value) as Hmdm by (unfold mdm_requirements_value; by rewrite Hl).
    split_and!; [done..|]. rewrite Hmdm, !elem_of_app. right; right. by left.
Qed.

(** C19: A requirement that fails closed and can be read is in force once the start-up check
    has passed, whether it comes from the user's directory, the system's or the device
    profile: its layer is loaded, for the effective configuration and among the merged
    requirements; the layer says at every path what the file says there, apart from the
    keys [fail_closed] and [version_overrides] and the paths that an override bound to this
    version touches; and each of its plain values that no stronger layer touches is the
    value of the merged requirements. *)
Theorem fail_closed_layers_apply h source (system : bool) t : validate_requirements h = Ok () →
  required h source system (TTable t) → t ≠ ∅ → resolve_fail_closed_mode h (TTable t) = true →
  ∃ value before after, loaded_layer h source system = Some value ∧
    requirements_layers h = before ++ MkRequirementsLayer value source system :: after ∧
    ∀ path, path ≠ [] → head path ∉ Some <$> CONSUMED_KEYS → unpatched h t path →
      at_path value path = at_path (TTable t) path ∧
      (∀ v, at_path (TTable t) path = Some v → toml_as_table v = None →
         Forall (λ l, touches_below (requirements_value l) path = false) after →
         ∃ merged, load_merged_requirements h = Some merged ∧ at_path merged path = Some v).
Proof.
  intros Hv Hs Ht Hc. destruct (validated_layer h source system (TTable t) Hv Hs) as (value & Hn & Hl & Hin); [|done|].
  { unfold filled_table. cbn. by rewrite bool_decide_eq_true_2. }
  apply list_elem_of_split in Hin as (before & after & Hsplit). exists value, before, after. split_and!; [done..|].
  intros path Hp Hk Hun. pose proof (normalized_at h t value path Hn Hp Hk Hun) as Hat. split; [done|].
  intros v Hv' Hplain Hafter. eapply merged_value; eauto. by rewrite <-Hv'.
Qed.

Context `{!LawfulVersions}.

Lemma StronglySorted_filtered {A} (R : A → A → Prop) (P : A → Prop) `{∀ x, Decision (P x)} l :
  StronglySorted R l → StronglySorted R (filter P l).
Proof.
  induction 1 as [|x l _ IH Hx]; [constructor|]. rewrite filter_cons. case_decide; [|done]. constructor; [done|].
  rewrite Forall_forall in *. intros y [_ Hy]%list_elem_of_filter. auto.
Qed.

(** The matching patches in the order of their bounds, around one of them. *)
Lemma matching_split ps version p : p ∈ ps → applies_to version p = true → ∃ l1 l2,
  filter (λ q, applies_to version q = true) (sort_by (λ a b, version_le a.1.1 b.1.1) ps) = l1 ++ p :: l2 ∧
  Forall (λ q, q ∈ ps ∧ applies_to version q = true ∧ version_le p.1.1 q.1.1 = true) l2.
Proof.
  intros Hp Ha. set (le := λ a b : Parsed, version_le a.1.1 b.1.1).
  set (good := filter (λ q, applies_to version q = true) (sort_by le ps)).
  assert (Hgood : ∀ q, q ∈ good ↔ applies_to version q = true ∧ q ∈ ps).
  { intros q. unfold good. by rewrite list_elem_of_filter, sort_by_Permutation. }
  assert (Hsort : StronglySorted (λ x y, le x y = true) good).
  { apply StronglySorted_filtered. apply sort_by_sorted; unfold le; [intros x y; apply version_total|intros x y z; apply version_trans]. }
  assert (Hin : p ∈ good) by (by apply Hgood). apply list_elem_of_split in Hin as (l1 & l2 & E).
  exists l1, l2. split; [done|]. apply Forall_forall. intros q Hq.
  assert (q ∈ good) as [Hqa Hqin]%Hgood by (rewrite E; set_solver). split_and!; [done..|].
  rewrite E in Hsort. apply StronglySorted_app in Hsort as (_ & _ & Hsort). apply StronglySorted_inv in Hsort as [_ Hf].
  rewrite Forall_forall in Hf. by apply Hf.
Qed.

(** Of the patches that match this build, one above all others that touch a path decides
    its value. *)
Theorem newest_override_wins t items es ps version p path v :
  t !! VERSION_OVERRIDES_KEY = Some (TArray items) → mapM (read_entry read_version_meta) items = Some es →
  parse_overrides 0 es = Ok ps → p ∈ ps → applies_to version p = true →
  path ≠ [] → head path ∉ Some <$> PATCH_STRIP_KEYS → at_path (TTable p.2) path = Some v → toml_as_table v = None →
  (∀ q, q ∈ ps → applies_to version q = true → patch_touches_path q.2 path = true → q = p ∨ version_le p.1.1 q.1.1 = false) →
  at_path (apply_version_overrides (TTable t) version).1 path = Some v.
Proof.
  intros Ht Hes Hps Hp Ha Hpath Hk Hv Hl Hmax. unfold apply_version_overrides, take_patch_array. rewrite Ht. cbn [toml_as_array].
  cbn [mbind option_bind]. rewrite Hes, Hps. cbn [fst]. rewrite apply_patches_fold, fold_merge_at, <-list_fmap_compose.
  set (layer := compose _ _). set (old := at_path _ _).
  destruct (matching_split ps version p Hp Ha) as (l1 & l2 & -> & Hafter). rewrite fmap_app, fold_left_app. cbn [fmap list_fmap fold_left].
  assert (Hput : ∀ old, over path old (layer p) = Some v) by (intros old'; by apply stripped_decides).
  rewrite Hput. induction Hafter as [|q l2 (Hq & Hqa & Hle) _ IH]; [done|]. cbn [fmap list_fmap fold_left].
  destruct (patch_touches_path q.2 path) eqn:Et.
  - destruct (Hmax q Hq Hqa Et) as [->|Hn]; [by rewrite Hput|congruence].
  - unfold layer at 2. cbn [compose]. by rewrite untouched_over.
Qed.

End OverrideLaws.
End OverrideLaws.

(** * Scenes *)

Module Export ConfigScene.

(** A parser for three texts, and versions that are numbers. *)
Definition expanding : gmap string Toml := {[ "mode" := TString "$MODE" ]}.
Definition strict_table : gmap string Toml :=
  {[ "fail_closed" := TBoolean true; "features" := TTable {[ "web" := TBoolean false ]};
     "version_overrides" := TArray [TTable {[ "minimum_version" := TString "1"; "pin" := TInteger 7 ]};
                                    TTable {[ "minimum_version" := TString "9"; "pin" := TInteger 9 ]}] ]}.
#[local] Instance scene_libs : ConfigLibs := {|
  toml_from_str s :=
    if bool_decide (s = "expanding") then Some (TTable expanding)
    else if bool_decide (s = "strict") then Some (TTable strict_table) else None;
  shell_expand s env := match strip_prefix "$" s with Some x => default s (env x) | None => s end;
  Version := N;
  Version_parse := parse_u64;
  version_le := N.leb;
  version_zero := 0%N;
  VERSION := "5";
  base64_text := Some;
  campaigns_state _ := None;
|}.
#[local] Instance scene_versions : LawfulVersions.
Proof. split; cbn; intros *; rewrite ?N.leb_le, ?N.leb_gt; lia. Qed.

Definition machine (env : gmap string string) (fs : gmap string Entry) : Host :=
  MkHost MacOs env (Some "/home/u") fs Some (λ _, None) (λ _, None) None (Some "strict").

(** The file of the administrator under [/etc] is expanded from the variables of the
    user, which is why the device profile is not. *)
Theorem system_requirements_expanded :
  let fs : gmap string Entry := {[ "/etc/ainxt/requirements.toml" := Plain (Some "expanding") ]} in
  let mode env := v ← load_system_requirements (machine env fs); toml_get "mode" v in
  mode {[ "MODE" := "open" ]} = Some (TString "open") ∧ mode {[ "MODE" := "shut" ]} = Some (TString "shut").
Proof. by vm_compute. Qed.

(** A requirements file that cannot be parsed passes the check and is skipped. *)
Theorem broken_requirements_skipped :
  let h := machine ∅ {[ "/etc/ainxt/requirements.toml" := Plain (Some "fail_closed = tru") ]} in
  validate_requirements h = Ok () ∧ load_system_requirements h = None.
Proof. by vm_compute. Qed.

Definition patch_at (k : string) (v : Toml) : gmap string Toml := {[ "features" := TTable {[ k := v ]} ]}.
Definition scene_layers : ConfigLayers :=
  MkLayers empty_table empty_table (TTable (patch_at "web" (TBoolean true))) None None (Some (TTable (patch_at "web" (TBoolean false))))
    (MkCampaigns [] [MkCampaign "a" (patch_at "web" (TBoolean true)); MkCampaign "b" (patch_at "ads" (TBoolean true))] [] []).

Lemma patch_touches_exact_witness : (["features"; "web"] : list string) ≠ [] ∧
  cell_at (deep_merge_toml (TTable (patch_at "web" (TBoolean true))) (TTable (patch_at "web" (TBoolean false)))) ["features"; "web"]
    = PlainValue (TBoolean false).
Proof.
  split; [done|].
  exact (patch_touches_exact (TTable (patch_at "web" (TBoolean true))) (patch_at "web" (TBoolean false)) ["features"; "web"]
    ltac:(discriminate)).
Defined.

Lemma requirements_outrank_campaigns_witness :
  at_path (effective_config_with_campaigns (machine ∅ ∅) scene_layers [] ∅) ["features"; "web"] = Some (TBoolean false).
Proof.
  rewrite (requirements_outrank_campaigns (machine ∅ ∅) scene_layers [] ∅ (TTable (patch_at "web" (TBoolean false))) ["features"; "web"]).
  - by vm_compute.
  - right; right. by left.
  - split; [by vm_compute|]. intros t Ht. vm_compute in Ht. done.
Defined.

Lemma dismissal_frees_path_witness :
  at_path (effective_config_with_campaigns (machine ∅ ∅) scene_layers []
    (∅ ∪ list_to_set (ids_touching_paths (resolve_campaigns (machine ∅ ∅) scene_layers (effective_config_base scene_layers) [] ∅)
       [["features"; "ads"]]))) ["features"; "ads"] = None.
Proof.
  rewrite (dismissal_frees_path (machine ∅ ∅) scene_layers [] ∅ ["features"; "ads"]); [by vm_compute|done].
Defined.

(** The device profile of the scene: its override for versions up from 1 matches this
    build and touches only [pin], so that [features.web] is in force as it stands. *)
Lemma fail_closed_layers_apply_witness :
  ∃ merged, load_merged_requirements (machine ∅ ∅) = Some merged ∧
    at_path merged ["features"; "web"] = Some (TBoolean false).
Proof.
  assert (length (requirements_layers (machine ∅ ∅)) = 1) as Hlen by (vm_compute; reflexivity).
  destruct (fail_closed_layers_apply (machine ∅ ∅) SourceMdm true strict_table) as (value & before & after & _ & Hs & Hat).
  - vm_compute; reflexivity.
  - split; [vm_compute; reflexivity|reflexivity].
  - apply insert_non_empty.
  - vm_compute; reflexivity.
  - destruct (Hat ["features"; "web"]) as [_ Hin];
      [discriminate|by_compute|apply unpatched_tested; vm_compute; reflexivity|].
    apply Hin; [vm_compute; reflexivity|reflexivity|].
    rewrite Hs, length_app in Hlen. cbn in Hlen. by destruct after; [|cbn in Hlen; lia].
Defined.

Lemma newest_override_wins_witness :
  at_path (@apply_version_overrides scene_libs (TTable strict_table) 5%N).1 ["pin"] = Some (TInteger 7).
Proof.
  eapply (@newest_override_wins scene_libs scene_versions strict_table _ _ _ 5%N (1%N, None, {[ "pin" := TInteger 7 ]}) ["pin"] (TInteger 7));
    [by vm_compute|by vm_compute|by vm_compute|by left|done|done| |done|done|].
  - intros (x & Hx & Hin)%list_elem_of_fmap. injection Hx as <-. set_solver.
  - intros q Hq Ha _. apply elem_of_cons in Hq as [->|Hq]; [by left|]. apply list_elem_of_singleton in Hq as ->. by vm_compute in Ha.
Defined.

End ConfigScene.
