(* ===== verification/ManagedCache.v ===== *)
(** The managed policy in the user's directory (crate [ainxt-config],
    [signed_policy.rs], [managed_cache.rs]; the wire types of
    [deployment_config_types.rs]): its signature at rest, the marker of the last
    synchronisation, when it is fetched again and when a session is refused. *)
From stdpp Require Import list gmap strings.
From S2P Require Import Prelude RustStr StrSearch HostFiles.

Module Export Envelope.

Record SignedPayload : Type := MkPayload {
  payload_version : N;
  deployment_id : option string;
  team_id : option string;
  payload_managed_config : option string;
  payload_requirements : option string;
  payload_fail_closed : bool;
  expires_at : N;
  key_id : string;
}.
Record SignatureEnvelope : Type := MkEnvelope { signed_payload : string; signature : string; hint_key_id : string }.

(** The marker of the last synchronisation ([managed_cache.rs]). *)
Record ManagedConfigCache : Type := MkCache {
  synced_at : option N;
  cache_principal : option string;
  had_managed_config : bool;
  had_requirements : bool;
  cache_key_fingerprint : option string;
  cache_fail_closed : bool;
}.
Definition ManagedConfigCache_default : ManagedConfigCache := MkCache None None false false None false.

End Envelope.

(** What the code uses of the crates [serde_json], [base64] and [ring]: the texts of the
    types above, and the check of an Ed25519 signature with a key on a message. *)
Class SigningLibs : Type := {
  payload_from_str : string → option SignedPayload;
  envelope_from_str : string → option SignatureEnvelope;
  envelope_to_str : SignatureEnvelope → string;
  cache_from_str : string → option ManagedConfigCache;
  cache_to_str : ManagedConfigCache → string;
  base64_decode : string → option string;
  ed25519_verify : string → string → string → bool;
}.

(** What is written reads back. *)
Class LawfulTexts `{SigningLibs} : Prop := {
  envelope_roundtrip e : envelope_from_str (envelope_to_str e) = Some e;
  cache_roundtrip c : cache_from_str (cache_to_str c) = Some c;
}.

(** * The signed policy ([signed_policy.rs]) *)

Module Export SignedPolicy.
Section SignedPolicy.
Context `{SigningLibs}.

(** Keys by id. This build has none. *)
Definition Keys : Type := list (string * string).
Definition EMBEDDED_DEPLOYMENT_CONFIG_PUBKEYS : Keys := [].
Definition SIGNATURE_SIDECAR_FILE : string := "managed_config.sig.json".

Inductive SigError : Type :=
| BadSignatureEncoding
| SignatureMismatch
| BadPayload
| UnknownKeyId
| PrincipalMismatch
| Expired
| ContentMismatch (label : string)
| Unreadable (label : string).

Definition active (keys : Keys) : bool := bool_decide (keys ≠ []).
Definition verification_active : bool := active EMBEDDED_DEPLOYMENT_CONFIG_PUBKEYS.
Definition key_id_trusted (keys : Keys) (id : string) : bool := existsb (λ k, bool_decide (k.1 = id)) keys.
Definition embedded_key_id_trusted : string → bool := key_id_trusted EMBEDDED_DEPLOYMENT_CONFIG_PUBKEYS.

Definition verify_signed_payload (signed_payload signature_b64 : string) (trusted_keys : Keys) : result SigError SignedPayload :=
  payload ← ok_or (payload_from_str signed_payload) BadPayload;
  k ← ok_or (List.find (λ k, bool_decide (k.1 = key_id payload)) trusted_keys) UnknownKeyId;
  sig ← ok_or (base64_decode (trim signature_b64)) BadSignatureEncoding;
  if ed25519_verify k.2 signed_payload sig then Ok payload else Err SignatureMismatch.

Definition check_fetch_identity (payload : SignedPayload) (active_team_id : option string) (now_unix : N) : result SigError () :=
  if bool_decide (expires_at payload < now_unix)%N then Err Expired
  else if bool_decide (is_Some (deployment_id payload)) then Ok ()
  else
    match team_id payload, active_team_id with
    | Some signed, Some active => if bool_decide (signed ≠ active) then Err PrincipalMismatch else Ok ()
    | _, _ => Ok ()
    end.

Definition option_or {A} (a b : option A) : option A := match a with Some _ => a | None => b end.
Definition payload_principal (payload : SignedPayload) : option string := option_or (deployment_id payload) (team_id payload).
Definition signed_principal_matches (payload : SignedPayload) (expected_principal : option string) : bool :=
  match payload_principal payload, expected_principal with
  | Some signed, Some expected => bool_decide (signed = expected)
  | _, _ => true
  end.

Definition verify_fetched_with_keys (sidecar : SignatureEnvelope) (trusted_keys : Keys) (active_team_id : option string)
    (now_unix : N) : result SigError SignedPayload :=
  payload ← verify_signed_payload (signed_payload sidecar) (signature sidecar) trusted_keys;
  _ ← check_fetch_identity payload active_team_id now_unix;
  Ok payload.
Definition verify_fetched (sidecar : SignatureEnvelope) : option string → N → result SigError SignedPayload :=
  verify_fetched_with_keys sidecar EMBEDDED_DEPLOYMENT_CONFIG_PUBKEYS.

(** One artifact: its file name, its label and what was signed. *)
Definition slots (payload : SignedPayload) : list (string * string * option string) :=
  [("managed_config.toml", "managed_config", payload_managed_config payload);
   ("requirements.toml", "requirements", payload_requirements payload)].

Definition check_slot (h : Host) (home : string) (slot : string * string * option string) : result SigError () :=
  let '(name, label, signed) := slot in
  let path := path_join home name in
  if non_regular_file_at h path then Err (ContentMismatch label)
  else
    on_disk ← match read_to_string h path with
      | Ok s => Ok (Some s)
      | Err NotFound => Ok None
      | Err OtherError => Err (Unreadable label)
      end;
    let matches :=
      match signed with
      | Some s => if is_empty s then is_empty (default "" on_disk) else bool_decide (on_disk = Some s)
      | None => is_empty (default "" on_disk)
      end in
    if matches then Ok () else Err (ContentMismatch label).
Fixpoint check_slots (h : Host) (home : string) (l : list (string * string * option string)) : result SigError () :=
  match l with
  | [] => Ok ()
  | slot :: l => _ ← check_slot h home slot; check_slots h home l
  end.
Definition check_on_disk_matches (h : Host) (home : string) (payload : SignedPayload) : result SigError () :=
  check_slots h home (slots payload).

Definition sidecar_path (home : string) : string := path_join home SIGNATURE_SIDECAR_FILE.
Inductive SidecarRead : Type := SidecarPresent (e : SignatureEnvelope) | SidecarAbsent | SidecarBlocked.
Definition read_sidecar (h : Host) (home : string) : SidecarRead :=
  let path := sidecar_path home in
  if non_regular_file_at h path then SidecarAbsent
  else
    match read_to_string h path with
    | Ok json => match envelope_from_str json with Some sidecar => SidecarPresent sidecar | None => SidecarAbsent end
    | Err NotFound => SidecarAbsent
    | Err OtherError => SidecarBlocked
    end.
(** When the atomic write succeeds. *)
Definition write_sidecar (h : Host) (home : string) (sidecar : SignatureEnvelope) : Host :=
  put_file h (sidecar_path home) (envelope_to_str sidecar).

Inductive DiskStatus : Type := DiskMatch | DiskMismatch | DiskUnreadable.
#[export] Instance DiskStatus_eq_dec : EqDecision DiskStatus.
Proof. solve_decision. Defined.

Record SignedCacheFacts : Type := MkFacts {
  identity_ok : bool;
  expired : bool;
  fact_fail_closed : bool;
  disk : DiskStatus;
}.
Inductive SignedCacheEvaluation : Type := NoAuthentic | Blocked | Facts (f : SignedCacheFacts).

Definition disk_status (h : Host) (home : string) (payload : SignedPayload) : DiskStatus :=
  match check_on_disk_matches h home payload with
  | Ok _ => DiskMatch
  | Err (Unreadable _) => DiskUnreadable
  | Err _ => DiskMismatch
  end.
Definition evaluate_signed_cache (h : Host) (home : string) (trusted_keys : Keys) (expected_principal : option string)
    (now_unix : N) : SignedCacheEvaluation :=
  match read_sidecar h home with
  | SidecarAbsent => NoAuthentic
  | SidecarBlocked => Blocked
  | SidecarPresent sidecar =>
      match verify_signed_payload (signed_payload sidecar) (signature sidecar) trusted_keys with
      | Err _ => NoAuthentic
      | Ok payload =>
          Facts (MkFacts (signed_principal_matches payload expected_principal) (bool_decide (expires_at payload < now_unix)%N)
            (payload_fail_closed payload) (disk_status h home payload))
      end
  end.

Definition has_policy (h : Host) (home : string) : bool :=
  path_exists h (path_join home "requirements.toml") || path_exists h (path_join home "managed_config.toml").
Definition cloud_cache_signature_invalid_with_keys (h : Host) (home : string) (trusted_keys : Keys)
    (expected_principal : option string) (now_unix : N) : bool :=
  if negb (has_policy h home) then false
  else
    match evaluate_signed_cache h home trusted_keys expected_principal now_unix with
    | NoAuthentic | Blocked => true
    | Facts f => negb (identity_ok f) || expired f || bool_decide (disk f ≠ DiskMatch)
    end.
(** [keys] are the keys of the build. *)
Definition cloud_cache_signature_invalid (keys : Keys) (h : Host) (home : string) (expected_principal : option string)
    (now_unix : N) : bool :=
  if negb (active keys) then false else cloud_cache_signature_invalid_with_keys h home keys expected_principal now_unix.

Inductive SignedVerdict : Type := Inactive | NoAuthenticSidecar | SidecarUnreadable | Trusted | Compromised.
#[export] Instance SignedVerdict_eq_dec : EqDecision SignedVerdict.
Proof. solve_decision. Defined.

Definition signed_cache_compromised_with_keys (h : Host) (home : string) (trusted_keys : Keys)
    (expected_principal : option string) (now_unix : N) : SignedVerdict :=
  match evaluate_signed_cache h home trusted_keys expected_principal now_unix with
  | NoAuthentic => NoAuthenticSidecar
  | Blocked => SidecarUnreadable
  | Facts f =>
      if negb (identity_ok f) then Compromised
      else if negb (fact_fail_closed f) then Trusted
      else if expired f || bool_decide (disk f = DiskMismatch) then Compromised
      else Trusted
  end.
Definition signed_cache_compromised (keys : Keys) (h : Host) (home : string) (expected_principal : option string)
    (now_unix : N) : SignedVerdict :=
  if negb (active keys) then Inactive else signed_cache_compromised_with_keys h home keys expected_principal now_unix.

End SignedPolicy.
End SignedPolicy.

(** * The marker, staleness and the gate ([managed_cache.rs]) *)

Module Export Cache.
Section Cache.
Context `{SigningLibs}.

Definition MANAGED_CONFIG_CACHE_FILE : string := "managed_config_cache.json".

Inductive ServingIdentity : Type := Team (id : string) | DeploymentKey (fingerprint : string) | NoIdentity.

Record SyncMarker : Type := MkMarker {
  marker_principal : option string;
  marker_managed_config : bool;
  marker_requirements : bool;
  marker_key_fingerprint : option string;
  marker_fail_closed : bool;
}.

Definition known (value : option string) : option string :=
  v ← value; if is_empty (trim v) then None else Some v.
Definition normalize_identity (value : option string) : option string := trim <$> known value.
(** The recorded value, on a confirmed switch. *)
Definition confirmed_switch (recorded current : option string) : option string :=
  match known recorded, known current with
  | Some old, Some new => if bool_decide (trim old ≠ trim new) then Some old else None
  | _, _ => None
  end.

(** Times are in nanoseconds since the epoch. *)
Definition second : N := 1000000000%N.
Definition mark_managed_config_synced_at (h : Host) (home : string) (marker : SyncMarker) (now : N) : Host :=
  put_file h (path_join home MANAGED_CONFIG_CACHE_FILE)
    (cache_to_str (MkCache (Some (now / second)%N) (normalize_identity (marker_principal marker)) (marker_managed_config marker)
       (marker_requirements marker) (normalize_identity (marker_key_fingerprint marker)) (marker_fail_closed marker))).

Definition read_managed_config_cache (h : Host) (home : string) : option ManagedConfigCache :=
  json ← ok (read_to_string h (path_join home MANAGED_CONFIG_CACHE_FILE)); cache_from_str json.

Definition managed_deployment_id_at (h : Host) (home key_fingerprint : string) : option string :=
  if is_empty (trim key_fingerprint) then None
  else
    cache ← read_managed_config_cache h home;
    if bool_decide (cache_key_fingerprint cache = Some key_fingerprint) then normalize_identity (cache_principal cache) else None.
Definition managed_deployment_id (h : Host) (key_fingerprint : string) : option string :=
  home ← user_ainxt_home h; managed_deployment_id_at h home key_fingerprint.

Definition managed_config_identity_changed_at (h : Host) (home : string) (new_principal new_key_fingerprint : option string) : bool :=
  match read_managed_config_cache h home with
  | None => false
  | Some cache =>
      bool_decide (is_Some (confirmed_switch (cache_principal cache) new_principal)) ||
      bool_decide (is_Some (confirmed_switch (cache_key_fingerprint cache) new_key_fingerprint))
  end.
Definition confirmed_team_switch_at (h : Host) (home new_team_id : string) : option string :=
  cache ← read_managed_config_cache h home;
  if bool_decide (is_Some (known (cache_key_fingerprint cache))) then None
  else confirmed_switch (cache_principal cache) (Some new_team_id).
Definition confirmed_team_switch (h : Host) (new_team_id : string) : option string :=
  home ← user_ainxt_home h; confirmed_team_switch_at h home new_team_id.

Definition cache_missing_required_artifact (cache : ManagedConfigCache) (h : Host) (home : string) : bool :=
  (had_requirements cache && negb (path_exists h (path_join home "requirements.toml"))) ||
  (had_managed_config cache && negb (path_exists h (path_join home "managed_config.toml"))).
Definition cache_identity_mismatch (cache : ManagedConfigCache) (identity : ServingIdentity) : bool :=
  match identity with
  | Team team_id =>
      match known (cache_principal cache), known (Some team_id) with
      | None, None => false
      | Some a, Some b => bool_decide (trim a ≠ trim b)
      | _, _ => true
      end
  | DeploymentKey _ | NoIdentity => false
  end.
Definition cache_key_fingerprint_mismatch (cache : ManagedConfigCache) (identity : ServingIdentity) : bool :=
  match identity with
  | DeploymentKey fingerprint => bool_decide (is_Some (confirmed_switch (cache_key_fingerprint cache) (Some fingerprint)))
  | Team _ | NoIdentity => false
  end.
Definition serving_team_id (identity : ServingIdentity) : option string :=
  match identity with Team team_id => Some team_id | DeploymentKey _ | NoIdentity => None end.

Record TamperSignals : Type := MkSignals { artifact_missing : bool; identity_mismatch : bool; key_fingerprint_mismatch : bool }.
Definition evaluate (cache : ManagedConfigCache) (h : Host) (home : string) (identity : ServingIdentity) : TamperSignals :=
  MkSignals (cache_missing_required_artifact cache h home) (cache_identity_mismatch cache identity)
    (cache_key_fingerprint_mismatch cache identity).
Definition needs_refetch (s : TamperSignals) : bool := artifact_missing s || identity_mismatch s || key_fingerprint_mismatch s.
Definition compromised_for_gate (s : TamperSignals) : bool := artifact_missing s || key_fingerprint_mismatch s.

Definition cache_unusable_for (cache : ManagedConfigCache) (h : Host) (home : string) (identity : ServingIdentity) : bool :=
  needs_refetch (evaluate cache h home identity).
Definition expected_signed_principal (cache : option ManagedConfigCache) (identity : ServingIdentity) : option string :=
  option_or (serving_team_id identity) (c ← cache; cache_principal c).

(** [keys] are the keys of the build and [now] the clock. *)
Context (keys : Keys).

Definition signed_cache_needs_refetch (h : Host) (home : string) (cache : option ManagedConfigCache) (identity : ServingIdentity)
    (now : N) : bool :=
  cloud_cache_signature_invalid keys h home (expected_signed_principal cache identity) (now / second).
Definition is_managed_config_hard_stale_for_at (h : Host) (home : string) (identity : ServingIdentity) (now : N) : bool :=
  let cache := read_managed_config_cache h home in
  match cache with Some cache => cache_unusable_for cache h home identity | None => true end ||
  signed_cache_needs_refetch h home cache identity now.
Definition is_managed_config_hard_stale_for (h : Host) (identity : ServingIdentity) (now : N) : bool :=
  match user_ainxt_home h with Some home => is_managed_config_hard_stale_for_at h home identity now | None => false end.

Definition marker_compromised (cache : option ManagedConfigCache) (h : Host) (home : string) (identity : ServingIdentity) : bool :=
  match cache with
  | Some cache => cache_fail_closed cache && compromised_for_gate (evaluate cache h home identity)
  | None => false
  end.
Definition sidecar_required_but_missing (cache : option ManagedConfigCache) : bool :=
  match cache with
  | Some c => cache_fail_closed c && (had_managed_config c || had_requirements c)
  | None => false
  end.
Definition managed_policy_compromised_decision (signed_verdict : SignedVerdict) (key_mismatch : bool)
    (cache : option ManagedConfigCache) (h : Host) (home : string) (identity : ServingIdentity) : bool :=
  match signed_verdict with
  | Compromised => true
  | Trusted => key_mismatch && marker_compromised cache h home identity
  | NoAuthenticSidecar => sidecar_required_but_missing cache || marker_compromised cache h home identity
  | SidecarUnreadable | Inactive => marker_compromised cache h home identity
  end.
Definition managed_policy_compromised_once (h : Host) (home : string) (identity : ServingIdentity) (now : N) : bool * SignedVerdict :=
  let cache := read_managed_config_cache h home in
  let signed_verdict := signed_cache_compromised keys h home (expected_signed_principal cache identity) (now / second) in
  let key_mismatch := match cache with Some c => cache_key_fingerprint_mismatch c identity | None => false end in
  (managed_policy_compromised_decision signed_verdict key_mismatch cache h home identity, signed_verdict).

(** The second evaluation sees the machine [h'] at [now'], after the pause. *)
Definition managed_policy_compromised_for_at (h h' : Host) (home : string) (identity : ServingIdentity) (now now' : N) : bool :=
  match managed_policy_compromised_once h home identity now with
  | (false, _) => false
  | (true, Compromised) => (managed_policy_compromised_once h' home identity now').1
  | (true, _) => true
  end.
Definition managed_policy_compromised_for (h h' : Host) (identity : ServingIdentity) (now now' : N) : bool :=
  match user_ainxt_home h with
  | Some home => managed_policy_compromised_for_at h h' home identity now now'
  | None => false
  end.

(** In seconds. *)
Definition managed_config_stale_threshold (h : Host) : N :=
  default 1800%N (env_var h "AINXT_DEPLOYMENT_CONFIG_CACHE_TTL_SECS" ≫= parse_u64).
Definition managed_config_stale_at (h : Host) (home : option string) (identity : ServingIdentity) (now : N) : bool :=
  match home with
  | None => false
  | Some home =>
      match read_managed_config_cache h home with
      | None => true
      | Some cache =>
          if cache_unusable_for cache h home identity then true
          else if signed_cache_needs_refetch h home (Some cache) identity now then true
          else
            match synced_at cache with
            | Some secs =>
                bool_decide (secs * second ≤ now)%N && bool_decide (managed_config_stale_threshold h * second < now - secs * second)%N
            | None => true
            end
      end
  end.
Definition is_managed_config_stale_for (h : Host) (identity : ServingIdentity) (now : N) : bool :=
  managed_config_stale_at h (user_ainxt_home h) identity now.

End Cache.
End Cache.

(** * What the signature at rest establishes *)

Module Export SignedLaws.
Section SignedLaws.
Context `{SigningLibs}.

(** The payload of the sidecar, under a signature of a trusted key. *)
Definition authentic (h : Host) (home : string) (keys : Keys) (payload : SignedPayload) : Prop :=
  ∃ sidecar, read_sidecar h home = SidecarPresent sidecar ∧
  verify_signed_payload (signed_payload sidecar) (signature sidecar) keys = Ok payload.

Lemma verified_by text sig keys payload : verify_signed_payload text sig keys = Ok payload →
  payload_from_str text = Some payload ∧ ∃ key raw, (key_id payload, key) ∈ keys ∧ base64_decode (trim sig) = Some raw ∧
  ed25519_verify key text raw = true.
Proof.
  unfold verify_signed_payload. rewrite bind_Ok. intros (p & Hp%ok_or_Ok & Hr).
  apply bind_Ok in Hr as (k & Hk%ok_or_Ok & Hr). apply bind_Ok in Hr as (raw & Hraw%ok_or_Ok & Hr).
  destruct (ed25519_verify _ _ _) eqn:E; [|done]. injection Hr as ->. split; [done|].
  apply find_some in Hk as [Hin He]. to_prop. exists k.2, raw. split_and!; [|done|done].
  rewrite <-He. apply list_elem_of_In. by destruct k.
Qed.

Lemma evaluated h home keys principal now f : evaluate_signed_cache h home keys principal now = Facts f ↔
  ∃ payload, authentic h home keys payload ∧ f = MkFacts (signed_principal_matches payload principal)
    (bool_decide (expires_at payload < now)%N) (payload_fail_closed payload) (disk_status h home payload).
Proof.
  unfold evaluate_signed_cache, authentic. destruct (read_sidecar h home) as [e| |]; [|split; [done|by intros (p & (e & [=] & _) & _)]..].
  destruct (verify_signed_payload _ _ _) as [p|err] eqn:E.
  - split; [intros [= <-]; exists p; split; [by exists e|done]|]. intros (q & (e' & [= <-] & Hv) & ->). rewrite E in Hv. by simplify_eq.
  - split; [done|]. intros (q & (e' & [= <-] & Hv) & ->). congruence.
Qed.

(** *** The files of the policy *)

(** A slot holds what was signed: the signed text, or nothing (no file or an empty one)
    where nothing or the empty text was signed. *)
Definition slot_holds (h : Host) (home : string) (slot : string * string * option string) : Prop :=
  let '(name, _, signed) := slot in
  let path := path_join home name in
  non_regular_file_at h path = false ∧
  match files h !! path with
  | Some (Plain (Some s)) => s = default "" signed
  | None => default "" signed = ""
  | _ => False
  end.

Lemma slot_exact h home slot : check_slot h home slot = Ok () ↔ slot_holds h home slot.
Proof.
  destruct slot as [[name label] signed]. unfold check_slot, slot_holds, non_regular_file_at, read_to_string.
  destruct (files h !! path_join home name) as [[[s|]| |[[s|]|]]|]; cbn; [|split; [done|by intros [_ []]]..|].
  - destruct signed as [t|]; cbn.
    + destruct t as [|a t]; cbn; [destruct s; cbn; naive_solver|]. case_bool_decide; naive_solver.
    + destruct s; cbn; naive_solver.
  - destruct signed as [[|a t]|]; cbn; [naive_solver| |naive_solver]. case_bool_decide; naive_solver.
Qed.
Lemma slots_exact h home l : check_slots h home l = Ok () ↔ Forall (slot_holds h home) l.
Proof.
  induction l as [|slot l IH]; cbn; [done|]. rewrite bind_Ok, Forall_cons, <-slot_exact, <-IH. split; [by intros ([] & ? & ?)|].
  intros [? ?]. by exists ().
Qed.
Lemma disk_match h home payload : disk_status h home payload = DiskMatch ↔ Forall (slot_holds h home) (slots payload).
Proof.
  rewrite <-slots_exact. unfold disk_status, check_on_disk_matches. destruct (check_slots _ _ _) as [[]|[]]; naive_solver.
Qed.

(** A slot cannot be read, though a regular file is there. *)
Definition slot_blocked (h : Host) (home : string) (slot : string * string * option string) : Prop :=
  files h !! path_join home slot.1.1 = Some (Plain None).

Lemma slot_unreadable h home slot label : check_slot h home slot = Err (Unreadable label) → slot_blocked h home slot.
Proof.
  destruct slot as [[name l] signed]. unfold check_slot, slot_blocked, non_regular_file_at, read_to_string. cbn.
  destruct (files h !! path_join home name) as [[[s|]| |[[s|]|]]|]; cbn; try done; repeat case_match; done.
Qed.
Lemma disk_unreadable h home payload : disk_status h home payload = DiskUnreadable →
  Exists (slot_blocked h home) (slots payload).
Proof.
  unfold disk_status, check_on_disk_matches. generalize (slots payload). induction l as [|slot l IH]; [done|]. cbn.
  destruct (check_slot h home slot) as [[]|e] eqn:E; cbn; [intros Hd; right; by apply IH|].
  destruct e; try done. intros _. left. by eapply slot_unreadable.
Qed.

(** With a key in the build the verdict is [Trusted] for exactly the policies whose
    sidecar bears a signature of a trusted key for this principal, and which are
    either not strict or in date and on disk as they were signed; only files that
    cannot be read are let pass. *)
Theorem trusted_exact keys h home principal now : active keys = true →
  signed_cache_compromised keys h home principal now = Trusted ↔
  ∃ payload, authentic h home keys payload ∧ signed_principal_matches payload principal = true ∧
  (payload_fail_closed payload = true →
    (now ≤ expires_at payload)%N ∧
    (Forall (slot_holds h home) (slots payload) ∨ disk_status h home payload = DiskUnreadable)).
Proof.
  intros Ha. unfold signed_cache_compromised, signed_cache_compromised_with_keys. rewrite Ha. cbn [negb].
  destruct (evaluate_signed_cache h home keys principal now) as [| |f] eqn:E.
  - split; [done|]. intros (p & Hp & _). assert (∃ f, evaluate_signed_cache h home keys principal now = Facts f) as [f Hf].
    { eexists. apply evaluated. by exists p. } congruence.
  - split; [done|]. intros (p & Hp & _). assert (∃ f, evaluate_signed_cache h home keys principal now = Facts f) as [f Hf].
    { eexists. apply evaluated. by exists p. } congruence.
  - apply evaluated in E as (p & Hp & ->). cbn [identity_ok expired fact_fail_closed disk].
    assert (Hsame : ∀ q, authentic h home keys q → q = p).
    { intros q (e & He & Hv). destruct Hp as (e' & He' & Hv'). congruence. }
    setoid_rewrite <-disk_match. destruct (signed_principal_matches p principal) eqn:Em; cbn [negb].
    2: { split; [done|]. intros (q & ->%Hsame & ? & _). congruence. }
    destruct (payload_fail_closed p) eqn:Ef; cbn [negb].
    2: { split; [|done]. intros _. exists p. split_and!; [done|done|by rewrite Ef]. }
    case_bool_decide as Hx; cbn [orb].
    { split; [done|]. intros (q & ->%Hsame & _ & Hq). destruct (Hq Ef) as [? _]. lia. }
    destruct (disk_status h home p) eqn:Ed; cbn.
    + split; [|done]. intros _. exists p. split_and!; [done|done|]. intros _. split; [lia|by left].
    + split; [done|]. intros (q & ->%Hsame & _ & Hq). destruct (Hq Ef) as [_ [Hd|Hd]]; congruence.
    + split; [|done]. intros _. exists p. split_and!; [done|done|]. intros _. split; [lia|by right].
Qed.

End SignedLaws.
End SignedLaws.

(** * The gate, the refetch and the marker *)

Module Export GateLaws.
Section GateLaws.
Context `{SigningLibs}.

Lemma normalize_known v t : normalize_identity v = Some t → ∃ s, v = Some s ∧ t = trim s ∧ is_empty t = false.
Proof.
  unfold normalize_identity, known. destruct v as [s|]; [|done]. cbn. destruct (is_empty (trim s)) eqn:E; [done|].
  intros [= <-]. by exists s.
Qed.

(** A switch is confirmed only between two identities that are there and differ by more
    than white space. *)
Lemma confirmed_switch_spec recorded current old : confirmed_switch recorded current = Some old ↔
  recorded = Some old ∧ is_empty (trim old) = false ∧
  ∃ new, current = Some new ∧ is_empty (trim new) = false ∧ trim old ≠ trim new.
Proof.
  unfold confirmed_switch, known. destruct recorded as [r|]; cbn; [|naive_solver].
  destruct (is_empty (trim r)) eqn:Er; cbn; [split; [done|naive_solver congruence]|].
  destruct current as [c|]; cbn; [|naive_solver]. destruct (is_empty (trim c)) eqn:Ec; cbn; [split; [done|naive_solver congruence]|].
  case_bool_decide as Hd; naive_solver.
Qed.

(** Nothing was recorded as served and nothing is on disk. *)
Definition nothing_served (h : Host) (home : string) : Prop :=
  has_policy h home = false ∧
  ∃ cache, read_managed_config_cache h home = Some cache ∧ had_managed_config cache = false ∧ had_requirements cache = false.

Lemma artifacts_gone h home cache : has_policy h home = false →
  cache_missing_required_artifact cache h home = had_requirements cache || had_managed_config cache.
Proof.
  unfold has_policy, cache_missing_required_artifact. intros [-> ->]%orb_false_elim. by rewrite !andb_true_r.
Qed.

Lemma gate_signals cache h home identity : marker_compromised cache h home identity = true →
  ∃ c, cache = Some c ∧ cache_unusable_for c h home identity = true.
Proof.
  destruct cache as [c|]; [|done]. cbn. unfold compromised_for_gate, cache_unusable_for, needs_refetch.
  intros [_ Hs]%andb_prop. exists c. split; [done|]. to_prop. destruct Hs as [-> | ->]; [done|by rewrite !orb_true_r].
Qed.

Lemma compromised_invalid keys h home principal now : has_policy h home = true →
  signed_cache_compromised keys h home principal now ∈ [Compromised; NoAuthenticSidecar] →
  cloud_cache_signature_invalid keys h home principal now = true.
Proof.
  intros Hp. unfold signed_cache_compromised, cloud_cache_signature_invalid.
  destruct (active keys); cbn [negb]; [|set_solver].
  unfold signed_cache_compromised_with_keys, cloud_cache_signature_invalid_with_keys. rewrite Hp. cbn [negb].
  destruct (evaluate_signed_cache h home keys principal now) as [| |[i e f d]]; [done|set_solver|]. cbn.
  destruct i; cbn; [|done]. destruct f; cbn; [|set_solver]. destruct e; cbn; [done|]. destruct d; cbn; [set_solver|done|set_solver].
Qed.

(** C20: A session that is refused is also fetched for: what the gate refuses the refresh at
    the start of a session does not leave as it is, unless no policy is on disk and the
    marker says none was served. *)
Theorem refused_is_refetched keys h home identity now :
  (managed_policy_compromised_once keys h home identity now).1 = true →
  is_managed_config_hard_stale_for_at keys h home identity now = true ∨ nothing_served h home.
Proof.
  unfold managed_policy_compromised_once, is_managed_config_hard_stale_for_at, signed_cache_needs_refetch. cbn [fst].
  set (cache := read_managed_config_cache h home). set (principal := expected_signed_principal cache identity). intros Hc.
  destruct (decide (marker_compromised cache h home identity = true)) as [Hm|Hm].
  { left. apply gate_signals in Hm as (c & -> & ->). done. }
  apply not_true_is_false in Hm. unfold managed_policy_compromised_decision in Hc. rewrite Hm in Hc.
  destruct (has_policy h home) eqn:Hp.
  - left. apply orb_true_iff. right. apply compromised_invalid; [done|].
    destruct (signed_cache_compromised _ _ _ _ _) in Hc |- *; try done; [set_solver|by rewrite andb_false_r in Hc|set_solver].
  - destruct cache as [c|] eqn:Ec; [|by left].
    destruct (had_requirements c || had_managed_config c) eqn:Eh.
    + left. apply orb_true_iff. left. unfold cache_unusable_for, needs_refetch. cbn. by rewrite artifacts_gone, Eh by done.
    + right. apply orb_false_elim in Eh as [? ?]. split; [done|]. by exists c.
Qed.

(** With a strict marker of a served policy the signature cannot be taken away: without an
    authentic sidecar the session is refused, whatever is on disk. *)
Theorem stripped_sidecar_refused keys h home identity now cache : active keys = true →
  read_managed_config_cache h home = Some cache → cache_fail_closed cache = true →
  had_managed_config cache || had_requirements cache = true →
  (∀ payload, ¬ authentic h home keys payload) → read_sidecar h home ≠ SidecarBlocked →
  managed_policy_compromised_once keys h home identity now = (true, NoAuthenticSidecar).
Proof.
  intros Ha Hc Hf Hs Hn Hb. unfold managed_policy_compromised_once. rewrite Hc.
  assert (Hv : ∀ p, signed_cache_compromised keys h home p (now / second) = NoAuthenticSidecar).
  { intros p. unfold signed_cache_compromised, signed_cache_compromised_with_keys. rewrite Ha. cbn [negb].
    destruct (evaluate_signed_cache h home keys p (now / second)) as [| |f] eqn:E; [done| |].
    - unfold evaluate_signed_cache in E. destruct (read_sidecar h home); [|done..]. by destruct (verify_signed_payload _ _ _).
    - apply evaluated in E as (q & Hq & _). by destruct (Hn q). }
  rewrite Hv. cbn. by rewrite Hf, Hs.
Qed.

Context `{!LawfulTexts}.

Lemma read_marker h home marker now :
  read_managed_config_cache (mark_managed_config_synced_at h home marker now) home =
  Some (MkCache (Some (now / second)%N) (normalize_identity (marker_principal marker)) (marker_managed_config marker)
    (marker_requirements marker) (normalize_identity (marker_key_fingerprint marker)) (marker_fail_closed marker)).
Proof.
  unfold read_managed_config_cache, mark_managed_config_synced_at. rewrite read_put. cbn. apply cache_roundtrip.
Qed.

Lemma file_paths_apart home a b : path_is_absolute a = false → path_is_absolute b = false → a ≠ b →
  path_join home a ≠ path_join home b.
Proof.
  intros Ha Hb Hab. unfold path_join. rewrite Ha, Hb. destruct (is_empty home); [done|].
  destruct (ends_with "/" home); intros Hj; simplify_eq.
Qed.

(** *** A fetched policy, applied *)

(** The disk after [apply_managed_config] ([managed_config.rs] of [ainxt-shell]) has
    written the texts served, which are those signed, and removed the files of those not
    served, and the envelope was written behind them. *)
Definition put_or_remove (h : Host) (path : string) (signed : option string) : Host :=
  match signed with
  | Some s => if is_empty s then with_files h (delete path (files h)) else put_file h path s
  | None => with_files h (delete path (files h))
  end.
Definition applied (h : Host) (home : string) (sidecar : SignatureEnvelope) (payload : SignedPayload) : Host :=
  write_sidecar
    (put_or_remove (put_or_remove h (path_join home "managed_config.toml") (payload_managed_config payload))
       (path_join home "requirements.toml") (payload_requirements payload)) home sidecar.

Lemma put_or_remove_at h path signed :
  files (put_or_remove h path signed) !! path =
  if is_empty (default "" signed) then None else Some (Plain (Some (default "" signed))).
Proof.
  unfold put_or_remove. destruct signed as [s|]; cbn; [destruct (is_empty s); cbn|].
  - apply lookup_delete_eq.
  - apply lookup_insert_eq.
  - apply lookup_delete_eq.
Qed.
Lemma put_or_remove_other h path signed q : q ≠ path → files (put_or_remove h path signed) !! q = files h !! q.
Proof.
  intros Hq. unfold put_or_remove. destruct signed as [s|]; [destruct (is_empty s)|]; cbn;
    [by rewrite lookup_delete_ne|by rewrite lookup_insert_ne|by rewrite lookup_delete_ne].
Qed.

Lemma applied_slots h home sidecar payload : Forall (slot_holds (applied h home sidecar payload) home) (slots payload).
Proof.
  assert (Hmr : path_join home "managed_config.toml" ≠ path_join home "requirements.toml") by (by apply file_paths_apart).
  assert (Hms : path_join home "managed_config.toml" ≠ sidecar_path home) by (by apply file_paths_apart).
  assert (Hrs : path_join home "requirements.toml" ≠ sidecar_path home) by (by apply file_paths_apart).
  repeat apply Forall_cons_2; [..|constructor]; unfold slot_holds, non_regular_file_at, applied, write_sidecar;
    rewrite read_put_other by done.
  - rewrite put_or_remove_other, put_or_remove_at by done. by destruct (default "" (payload_managed_config payload)).
  - rewrite put_or_remove_at. by destruct (default "" (payload_requirements payload)).
Qed.

(** C21: What passes the check of a fetch is trusted once it was applied, as long as it has not
    expired and the machine's principal is the signed one. *)
Theorem fetched_then_trusted keys h home sidecar payload team t principal now : active keys = true →
  verify_fetched_with_keys sidecar keys team t = Ok payload → signed_principal_matches payload principal = true →
  (now ≤ expires_at payload)%N →
  signed_cache_compromised keys (applied h home sidecar payload) home principal now = Trusted.
Proof.
  intros Ha Hv Hm Ht. apply trusted_exact; [done|]. exists payload. split_and!; [|done|].
  - exists sidecar. unfold verify_fetched_with_keys in Hv. apply bind_Ok in Hv as (p & Hp & Hv).
    apply bind_Ok in Hv as (u & _ & [= ->]). split; [|done].
    unfold read_sidecar, applied, write_sidecar. unfold non_regular_file_at. cbn [files put_file with_files].
    rewrite lookup_insert_eq. by rewrite read_put, envelope_roundtrip.
  - intros _. split; [done|]. left. apply applied_slots.
Qed.

Lemma trim_known s : is_empty (trim s) = false → known (Some s) = Some s.
Proof. intros Hs. unfold known. cbn. by rewrite Hs. Qed.

Lemma exists_after_mark h home marker now name : path_is_absolute name = false → name ≠ MANAGED_CONFIG_CACHE_FILE →
  path_exists (mark_managed_config_synced_at h home marker now) (path_join home name) = path_exists h (path_join home name).
Proof.
  intros Ha Hn. unfold path_exists, mark_managed_config_synced_at. rewrite read_put_other; [done|]. by apply file_paths_apart.
Qed.

(** After a synchronisation for a team the cache is not fetched again before the time is
    up, while the files it recorded are there and, with a key in the build, the signature
    holds. *)
Theorem synced_stays_fresh keys h home marker team now now' :
  marker_principal marker = Some team → is_empty (trim team) = false → trim (trim team) = trim team →
  (marker_requirements marker = true → path_exists h (path_join home "requirements.toml") = true) →
  (marker_managed_config marker = true → path_exists h (path_join home "managed_config.toml") = true) →
  let h' := mark_managed_config_synced_at h home marker now in
  cloud_cache_signature_invalid keys h' home (Some team) (now' / second) = false →
  (now' ≤ (now / second + managed_config_stale_threshold h) * second)%N →
  managed_config_stale_at keys h' (Some home) (Team team) now' = false.
Proof.
  intros Hp Ht Hi Hr Hm h' Hs Hn. unfold managed_config_stale_at, h'. rewrite read_marker, Hp.
  unfold normalize_identity. rewrite trim_known by done. cbn [fmap option_fmap option_map].
  assert (Hu : cache_unusable_for (MkCache (Some (now / second)%N) (Some (trim team)) (marker_managed_config marker)
    (marker_requirements marker) (trim <$> known (marker_key_fingerprint marker)) (marker_fail_closed marker))
    h' home (Team team) = false).
  { unfold cache_unusable_for, needs_refetch, evaluate, cache_missing_required_artifact, cache_identity_mismatch.
    cbn -[known]. rewrite !trim_known, Hi by (by rewrite ?Hi). unfold h'. rewrite !exists_after_mark by done.
    rewrite bool_decide_eq_false_2 by naive_solver.
    destruct (marker_requirements marker); [rewrite Hr by done|]; destruct (marker_managed_config marker); [rewrite Hm by done| |rewrite Hm by done|]; done. }
  unfold h' in Hu. rewrite Hu. unfold signed_cache_needs_refetch, expected_signed_principal. cbn [serving_team_id option_or].
  unfold h' in Hs. rewrite Hs. cbn [synced_at].
  replace (managed_config_stale_threshold (mark_managed_config_synced_at h home marker now)) with (managed_config_stale_threshold h) by done.
  apply andb_false_iff. destruct (decide (now / second * second ≤ now')%N); [right|left]; apply bool_decide_eq_false; [|done].
  rewrite N.mul_add_distr_r in Hn. lia.
Qed.

End GateLaws.
End GateLaws.

(** * Scenes *)

Module Export CacheScene.

(** Texts as bit strings of what they stand for. *)
Fixpoint bits (p : positive) : string :=
  match p with xI p => String "1" (bits p) | xO p => String "0" (bits p) | xH => "" end.
Fixpoint of_bits (s : string) : positive :=
  match s with "" => xH | String a s => if bool_decide (a = "1"%char) then xI (of_bits s) else xO (of_bits s) end.
Lemma of_bits_bits p : of_bits (bits p) = p.
Proof. by induction p as [p IH|p IH|]; cbn; rewrite ?IH. Qed.

#[export] Instance envelope_eq_dec : EqDecision SignatureEnvelope.
Proof. solve_decision. Defined.
#[export] Instance envelope_countable : Countable SignatureEnvelope.
Proof.
  refine (inj_countable' (λ e, (signed_payload e, signature e, hint_key_id e)) (λ '(a, b, c), MkEnvelope a b c) _).
  abstract (by intros []).
Defined.
#[export] Instance cache_eq_dec : EqDecision ManagedConfigCache.
Proof. solve_decision. Defined.
#[export] Instance cache_countable : Countable ManagedConfigCache.
Proof.
  refine (inj_countable' (λ c, (synced_at c, cache_principal c, had_managed_config c, had_requirements c, cache_key_fingerprint c,
    cache_fail_closed c)) (λ '(a, b, c, d, e, f), MkCache a b c d e f) _).
  abstract (by intros []).
Defined.

Definition strict_payload : SignedPayload := MkPayload 1 None (Some "acme") None (Some "pin = 1") true 100 "k1".
(** Signed for a deployment. *)
Definition deployment_payload : SignedPayload := MkPayload 1 (Some "d-7") None None (Some "pin = 1") false 100 "k1".
#[local] Instance scene_signing : SigningLibs := {|
  payload_from_str s := if bool_decide (s = "strict") then Some strict_payload
    else if bool_decide (s = "deployment") then Some deployment_payload else None;
  envelope_from_str s := decode (of_bits s);
  envelope_to_str e := bits (encode e);
  cache_from_str s := decode (of_bits s);
  cache_to_str c := bits (encode c);
  base64_decode := Some;
  ed25519_verify key text sig := bool_decide (sig = key +:+ ":" +:+ text);
|}.
#[local] Instance scene_texts : LawfulTexts.
Proof. split; intros x; cbn; by rewrite of_bits_bits, decode_encode. Qed.

Definition keys : Keys := [("k1", "secret")].
Definition bare : Host := MkHost Linux ∅ (Some "/h") ∅ Some (λ _, None) (λ _, None) None None.
Definition envelope (text : string) : SignatureEnvelope := MkEnvelope text ("secret:" +:+ text) "k1".
Definition synced (h : Host) : Host :=
  mark_managed_config_synced_at h "/h" (MkMarker (Some "acme") false true None true) (10 * second).
Definition strict_home : Host := synced (applied bare "/h" (envelope "strict") strict_payload).
Definition verdict (h : Host) : bool * SignedVerdict := managed_policy_compromised_once keys h "/h" (Team "acme") (20 * second).

(** An edit of the strict policy is refused; but a file that cannot be read, or is no
    longer UTF-8, passes the gate, and the loader skips it. *)
Theorem garbled_policy_trusted :
  verdict strict_home = (false, Trusted) ∧
  verdict (put_file strict_home "/h/requirements.toml" "pin = 2") = (true, Compromised) ∧
  verdict (with_files strict_home (<["/h/requirements.toml" := Plain None]> (files strict_home))) = (false, Trusted).
Proof. by vm_compute. Qed.

(** A policy signed for a deployment is accepted when a team's machine fetches it, and
    refused from then on. *)
Theorem fetched_but_refused :
  let e := envelope "deployment" in
  verify_fetched_with_keys e keys (Some "acme") 20 = Ok deployment_payload ∧
  verdict (synced (applied bare "/h" e deployment_payload)) = (true, Compromised).
Proof. by vm_compute. Qed.

(** A session can be refused without anything being fetched before the timer: no policy
    on disk, none recorded, and a sidecar of another principal. *)
Theorem refused_not_refetched :
  let h := mark_managed_config_synced_at (write_sidecar bare "/h" (envelope "deployment")) "/h"
    (MkMarker (Some "acme") false false None false) (10 * second) in
  verdict h = (true, Compromised) ∧ is_managed_config_hard_stale_for_at keys h "/h" (Team "acme") (20 * second) = false.
Proof. by vm_compute. Qed.

(** Without a key in the build the marker decides alone. *)
Theorem dark_build h home identity now :
  managed_policy_compromised_once EMBEDDED_DEPLOYMENT_CONFIG_PUBKEYS h home identity now =
  (marker_compromised (read_managed_config_cache h home) h home identity, Inactive).
Proof. done. Qed.

Lemma trusted_exact_witness : ∃ payload, authentic strict_home "/h" keys payload.
Proof.
  destruct (proj1 (trusted_exact keys strict_home "/h" (Some "acme") 20 ltac:(by vm_compute))) as (p & Hp & _); [by vm_compute|by exists p].
Defined.
Lemma refused_is_refetched_witness :
  is_managed_config_hard_stale_for_at keys (put_file strict_home "/h/requirements.toml" "pin = 2") "/h" (Team "acme") (20 * second) = true.
Proof.
  destruct (refused_is_refetched keys (put_file strict_home "/h/requirements.toml" "pin = 2") "/h" (Team "acme") (20 * second))
    as [Hs|[Hp _]]; [by vm_compute|exact Hs|by vm_compute in Hp].
Defined.
Lemma stripped_sidecar_refused_witness :
  verdict (with_files strict_home (delete "/h/managed_config.sig.json" (files strict_home))) = (true, NoAuthenticSidecar).
Proof.
  unfold verdict. eapply (stripped_sidecar_refused keys); [by vm_compute|by vm_compute|done|done| |by vm_compute].
  intros p (e & He & _). by vm_compute in He.
Defined.
Lemma fetched_then_trusted_witness :
  signed_cache_compromised keys (applied bare "/h" (envelope "strict") strict_payload) "/h" (Some "acme") 50 = Trusted.
Proof. apply (fetched_then_trusted keys bare "/h" (envelope "strict") strict_payload (Some "acme") 20); by vm_compute. Defined.
Lemma synced_stays_fresh_witness :
  managed_config_stale_at [] (synced (applied bare "/h" (envelope "strict") strict_payload)) (Some "/h") (Team "acme") (1800 * second) = false.
Proof.
  apply (synced_stays_fresh [] (applied bare "/h" (envelope "strict") strict_payload) "/h"
    (MkMarker (Some "acme") false true None true) "acme" (10 * second) (1800 * second)); by vm_compute.
Defined.

End CacheScene.
