(* ===== verification/TrustStore.v ===== *)
(** The store of trusted folders (crate [ainxt-workspace], [trust.rs]; [repo.rs] of
    [ainxt-agent] and the registry lookup of [worktree/mod.rs]): which decision holds
    for a folder, how decisions are recorded by several processes, and the key under
    which a working directory is trusted. *)
From stdpp Require Import list gmap strings.
From S2P Require Import Prelude RustStr StrSearch HunkFiles HostFiles.

Module Export Paths.

(** [Path::eq] and [Path::starts_with]. *)
Definition path_eqb (p q : string) : bool := bool_decide (components p = components q).
Definition path_starts_with (p base : string) : bool := bool_decide (is_Some (strip_components (components base) (components p))).
(** [components().count()]. *)
Definition path_depth (p : string) : nat := length (components p).

Definition is_home_dir (h : Host) (path : string) : bool :=
  match home_dir h with
  | Some home => path_eqb (canonicalize_or_owned h path) (canonicalize_or_owned h home)
  | None => false
  end.
Definition is_unsafe_trust_root (h : Host) (key : string) : bool :=
  negb (path_is_absolute key) || bool_decide (path_parent key = None) || is_home_dir h key.

End Paths.

Record FolderTrust : Type := MkTrust { trusted : bool; decided_at : option Z }.
(** [TrustDocument]. *)
Notation TrustDocument := (gmap string FolderTrust).

(** What the code uses of the crate [toml] with the type of the document. *)
Class TrustCodec : Type := {
  document_from_str : string → option TrustDocument;
  document_to_str : TrustDocument → option string;
}.
(** What is written reads back. *)
Class LawfulTrustCodec `{TrustCodec} : Prop := {
  document_roundtrip doc body : document_to_str doc = Some body → document_from_str body = Some doc;
}.

(** * The store *)

Module Export Store.
Section Store.
Context `{TrustCodec}.

Definition TRUST_FILE_NAME : string := "trusted_folders.toml".

Record TrustStore : Type := MkStore { doc : TrustDocument; store_path : option string }.

(** What [read_doc] makes of an attempt to read the file: a file that cannot be read, or
    not parsed, is taken as empty. *)
Definition read_doc_from (attempt : result ReadError string) : TrustDocument :=
  match attempt with
  | Ok contents => default ∅ (document_from_str contents)
  | Err _ => ∅
  end.
Definition read_doc (h : Host) (path : string) : TrustDocument := read_doc_from (read_to_string h path).
Definition empty_store : TrustStore := MkStore ∅ None.
Definition load_from (h : Host) (path : string) : TrustStore := MkStore (read_doc h path) (Some path).
Definition default_path_in (user_ainxt_home : option string) : option string :=
  (λ home, path_join home TRUST_FILE_NAME) <$> user_ainxt_home.
Definition default_path (h : Host) : option string := default_path_in (user_ainxt_home h).
Definition load (h : Host) : TrustStore :=
  match default_path h with Some path => load_from h path | None => empty_store end.

(** One turn of the loop of [is_trusted]: the best depth and whether it is trusted. *)
Definition consider (h : Host) (key : string) (acc : option nat * bool) (entry : string * FolderTrust) : option nat * bool :=
  let '(best_depth, tr) := acc in
  let '(folder, record) := entry in
  if is_unsafe_trust_root h folder || negb (path_starts_with key folder) then acc
  else
    let depth := path_depth folder in
    match best_depth with
    | Some d =>
        if bool_decide (depth < d) then acc
        else if bool_decide (depth = d) then (Some d, tr && trusted record)
        else (Some depth, trusted record)
    | None => (Some depth, trusted record)
    end.
Definition is_trusted (h : Host) (s : TrustStore) (workspace_key : string) : bool :=
  let key := canonicalize_or_owned h workspace_key in
  (fold_left (consider h key) (map_to_list (doc s)) (None, false)).2.

Definition store_len (s : TrustStore) : nat := size (doc s).
Definition store_is_empty (s : TrustStore) : bool := bool_decide (doc s = ∅).
Definition has_decision (h : Host) (s : TrustStore) (workspace_key : string) : bool :=
  bool_decide (is_Some (doc s !! canonicalize_or_owned h workspace_key)).

(** The steps that can fail: making the directory, the lock, reading the file that is
    there, the durable write. *)
Record IoFaults : Type := MkFaults { dirs_ok : bool; lock_ok : bool; read_ok : bool; write_ok : bool }.
(** Reading the file, which can fail although its contents are fine. *)
Definition attempt_read (h : Host) (faults : IoFaults) (path : string) : result ReadError string :=
  if read_ok faults then read_to_string h path else Err OtherError.
Inductive IoError : Type := NoParent | DirError | LockError | SerializeError | WriteError.

Definition persist_doc (h : Host) (faults : IoFaults) (path : string) (d : TrustDocument) : result IoError Host :=
  _ ← ok_or (path_parent path) NoParent;
  if negb (dirs_ok faults) then Err DirError
  else
    body ← ok_or (document_to_str d) SerializeError;
    if negb (write_ok faults) then Err WriteError else Ok (put_file h path body).

Definition record_decision (h : Host) (faults : IoFaults) (now : option Z) (s : TrustStore) (workspace_key : string) (tr : bool) :
    Host * TrustStore * result IoError () :=
  let canonical := canonicalize_or_owned h workspace_key in
  if is_unsafe_trust_root h canonical then (h, s, Ok ())
  else
    match store_path s with
    | None => (h, s, Ok ())
    | Some path =>
        if bool_decide (path_parent path = None) then (h, s, Err NoParent)
        else if negb (dirs_ok faults) then (h, s, Err DirError)
        else if negb (lock_ok faults) then (h, s, Err LockError)
        else
          let d := <[canonical := MkTrust tr now]> (read_doc_from (attempt_read h faults path)) in
          match persist_doc h faults path d with
          | Ok h' => (h', MkStore d (Some path), Ok ())
          | Err e => (h, s, Err e)
          end
    end.
Definition set_trusted (h : Host) (faults : IoFaults) (now : option Z) (s : TrustStore) (workspace_key : string) :
    Host * TrustStore * result IoError () := record_decision h faults now s workspace_key true.
Definition set_untrusted (h : Host) (faults : IoFaults) (now : option Z) (s : TrustStore) (workspace_key : string) :
    Host * TrustStore * result IoError () := record_decision h faults now s workspace_key false.

End Store.
End Store.

(** * The key of a directory *)

Module Export Keys.

(** [source_repo_for_cwd] of [worktree/mod.rs]: up from the directory, within the
    worktrees. [fuel] is one more than the components of the directory. *)
Fixpoint worktree_record (fuel : nat) (db : gmap string string) (worktrees_dir path : string) : option string :=
  match fuel with
  | 0 => None
  | S fuel =>
      if path_starts_with path worktrees_dir && negb (path_eqb path worktrees_dir) then
        match db !! path with
        | Some source_repo => Some source_repo
        | None => parent ← path_parent path; worktree_record fuel db worktrees_dir parent
        end
      else None
  end.
Definition source_repo_for_cwd (h : Host) (cwd : string) : option string :=
  let worktrees_dir := path_join (ainxt_home h) "worktrees" in
  if negb (path_starts_with cwd worktrees_dir) then None
  else db ← worktree_db h; worktree_record (S (path_depth cwd)) db worktrees_dir cwd.

Definition git_derived_workspace_key (h : Host) (cwd : string) : string :=
  match source_repo_for_cwd h cwd with
  | Some source_repo =>
      default (canonicalize_or_owned h source_repo) (canonicalize_or_owned h <$> git_workdir h source_repo)
  | None =>
      match git_discover h cwd with
      | None => canonicalize_or_owned h cwd
      | Some repo =>
          let main_workdir :=
            if is_worktree repo then
              main ← git_open h (commondir repo);
              main_workdir ← repo_workdir main;
              if path_eqb (canonicalize_or_owned h (path_join main_workdir ".git")) (canonicalize_or_owned h (commondir repo))
              then Some main_workdir else None
            else None in
          match main_workdir with
          | Some w => canonicalize_or_owned h w
          | None =>
              match repo_workdir repo with
              | Some w => canonicalize_or_owned h w
              | None => canonicalize_or_owned h cwd
              end
          end
      end
  end.
Definition workspace_key (h : Host) (cwd : string) : string :=
  let key := git_derived_workspace_key h cwd in
  if is_unsafe_trust_root h key then canonicalize_or_owned h cwd else key.

End Keys.

(** * Grants of the hooks ([trust.rs]; [ainxt-hooks/trust.rs]) *)

Module Export Migration.
Section Migration.
Context `{TrustCodec}.

Definition list_trusted_projects_with_file (h : Host) (trust_file : string) : result ReadError (list string) :=
  match read_to_string h trust_file with
  | Ok content => Ok (filter (λ l, negb (is_empty l) && negb (starts_with "#" l) = true) (trim <$> lines content))
  | Err NotFound => Ok []
  | Err OtherError => Err OtherError
  end.

(** The grants one after the other: the machine, the store, how many were seeded, and
    whether a write failed. [faults] are those of each write, in order. *)
Fixpoint seed (h : Host) (now : option Z) (s : TrustStore) (projects : list string) (faults : list IoFaults) :
    Host * TrustStore * nat * bool :=
  match projects with
  | [] => (h, s, 0, false)
  | project :: projects =>
      if has_decision h s project then seed h now s projects faults
      else
        let f := default (MkFaults true true true true) (head faults) in
        match set_trusted h f now s project with
        | (h, s, Err _) => let '(h, s, n, _) := seed h now s projects (tail faults) in (h, s, n, true)
        | (h, s, Ok _) =>
            let '(h', s', n, e) := seed h now s projects (tail faults) in
            (h', s', (if has_decision h s project then S n else n), e)
        end
  end.
(** [with_extension("migrated")] of [trusted-hook-projects]. [rename_ok] says that the
    rename succeeds. *)
Definition migrate_legacy_hook_trust_in (h : Host) (now : option Z) (legacy_file : string) (s : TrustStore)
    (faults : list IoFaults) (rename_ok : bool) : Host * TrustStore * nat :=
  match list_trusted_projects_with_file h legacy_file with
  | Err _ => (h, s, 0)
  | Ok projects =>
      let '(h, s, migrated, had_seed_error) := seed h now s projects faults in
      if had_seed_error then (h, s, migrated)
      else
        match files h !! legacy_file with
        | Some e =>
            if path_exists h legacy_file && rename_ok
            then (with_files h (<[legacy_file +:+ ".migrated" := e]> (delete legacy_file (files h))), s, migrated)
            else (h, s, migrated)
        | None => (h, s, migrated)
        end
  end.

End Migration.
End Migration.

(** * Which record decides *)

Module Export TrustLaws.
Section TrustLaws.
Context `{TrustCodec}.

(** A record that is honoured for a key: its folder is the key or above it, and not too
    broad. *)
Definition honoured (h : Host) (key folder : string) : Prop :=
  is_unsafe_trust_root h folder = false ∧ path_starts_with key folder = true.
#[export] Instance honoured_dec h key folder : Decision (honoured h key folder).
Proof. unfold honoured. apply _. Defined.

(** What the loop keeps: the greatest depth so far, and whether all records at it are
    trusted. *)
Definition kept (h : Host) (key : string) (l : list (string * FolderTrust)) (acc : option nat * bool) : Prop :=
  match acc.1 with
  | None => acc.2 = false ∧ ∀ f r, (f, r) ∈ l → ¬ honoured h key f
  | Some d =>
      (∃ f r, (f, r) ∈ l ∧ honoured h key f ∧ path_depth f = d) ∧
      (∀ f r, (f, r) ∈ l → honoured h key f → path_depth f ≤ d) ∧
      (acc.2 = true ↔ ∀ f r, (f, r) ∈ l → honoured h key f → path_depth f = d → trusted r = true)
  end.

Lemma consider_skip h key acc f r : ¬ honoured h key f → consider h key acc (f, r) = acc.
Proof.
  unfold honoured, consider. destruct acc as [b t]. destruct (is_unsafe_trust_root h f); [done|].
  destruct (path_starts_with key f); [|done]. cbn. intros Hn. by destruct Hn.
Qed.

Lemma in_snoc (l : list (string * FolderTrust)) e f r : (f, r) ∈ l ++ [e] ↔ (f, r) ∈ l ∨ e = (f, r).
Proof. rewrite elem_of_app, list_elem_of_singleton. naive_solver. Qed.

Lemma kept_skip h key l acc f r : ¬ honoured h key f → kept h key l acc → kept h key (l ++ [(f, r)]) acc.
Proof.
  intros Hn. unfold kept. destruct acc as [[d|] t]; cbn.
  - intros ((f0 & r0 & Hin & Hx) & Hmax & Ht). setoid_rewrite in_snoc. split_and!.
    + exists f0, r0. split; [by left|done].
    + intros f1 r1 [Hy|[= <- <-]] Hh; [by eapply Hmax|done].
    + rewrite Ht. split; intros Hall f1 r1; [intros [Hy|[= <- <-]] Hh; [by eapply Hall|done]|]. intros Hy. apply Hall. by left.
  - intros [-> Hk]. split; [done|]. setoid_rewrite in_snoc. intros f1 r1 [Hy|[= <- <-]]; [by eapply Hk|done].
Qed.

Lemma kept_new h key l f r : honoured h key f →
  (∀ f1 r1, (f1, r1) ∈ l → honoured h key f1 → path_depth f1 < path_depth f) →
  kept h key (l ++ [(f, r)]) (Some (path_depth f), trusted r).
Proof.
  intros Hh Hlow. unfold kept. cbn. setoid_rewrite in_snoc. split_and!.
  - exists f, r. split_and!; [by right|done|done].
  - intros f1 r1 [Hy|[= <- <-]] Hh1; [specialize (Hlow _ _ Hy Hh1); lia|done].
  - split; [|intros Hall; apply (Hall f r); [by right|done|done]].
    intros Hr f1 r1 [Hy|[= <- <-]] Hh1 Hd; [specialize (Hlow _ _ Hy Hh1); lia|done].
Qed.

Lemma consider_kept h key l acc f r : kept h key l acc → kept h key (l ++ [(f, r)]) (consider h key acc (f, r)).
Proof.
  intros Hk. destruct (decide (honoured h key f)) as [Hh|Hh]; [|rewrite consider_skip by done; by apply kept_skip].
  destruct acc as [[d|] t]; unfold consider; rewrite (proj1 Hh), (proj2 Hh); cbn [orb negb].
  - destruct Hk as ((f0 & r0 & Hin & Hh0 & Hd0) & Hmax & Ht). cbn [snd fst] in *.
    case_bool_decide as Hlt; [|case_bool_decide as Heq].
    + unfold kept. cbn [fst snd]. setoid_rewrite in_snoc. split_and!.
      * exists f0, r0. split; [by left|done].
      * intros f1 r1 [Hy|[= <- <-]] Hh1; [by eapply Hmax|lia].
      * rewrite Ht. split; intros Hall f1 r1; [intros [Hy|[= <- <-]] Hh1 Hd; [by eapply Hall|lia]|]. intros Hy. apply Hall. by left.
    + unfold kept. cbn [fst snd]. setoid_rewrite in_snoc. split_and!.
      * exists f0, r0. split; [by left|done].
      * intros f1 r1 [Hy|[= <- <-]] Hh1; [by eapply Hmax|lia].
      * rewrite andb_true_iff, Ht. split.
        -- intros [Hall Hr] f1 r1 [Hy|[= <- <-]] Hh1 Hd; [by eapply Hall|done].
        -- intros Hall. split; [intros f1 r1 Hy; apply Hall; by left|]. apply (Hall f r); [by right|done|done].
    + apply kept_new; [done|]. intros f1 r1 Hy Hh1. specialize (Hmax _ _ Hy Hh1). lia.
  - apply kept_new; [done|]. intros f1 r1 Hy Hh1. by destruct (proj2 Hk f1 r1).
Qed.

Lemma loop_kept h key l : kept h key l (fold_left (consider h key) l (None, false)).
Proof.
  induction l as [|[f r] l IH] using rev_ind; [by split; [|intros ?? ?%not_elem_of_nil]|].
  rewrite fold_left_app. by apply consider_kept.
Qed.

Lemma nearest_decide h s k : let key := canonicalize_or_owned h k in
  is_trusted h s k = true ↔
  ∃ folder record, doc s !! folder = Some record ∧ honoured h key folder ∧
  ∀ f r, doc s !! f = Some r → honoured h key f →
    path_depth f ≤ path_depth folder ∧ (path_depth f = path_depth folder → trusted r = true).
Proof.
  intros key. unfold is_trusted. fold key. pose proof (loop_kept h key (map_to_list (doc s))) as Hk.
  setoid_rewrite <-elem_of_map_to_list. destruct (fold_left _ _ _) as [[d|] t]; cbn in *.
  - destruct Hk as ((f0 & r0 & Hin & Hh & Hd) & Hmax & ->). split.
    + intros Hall. exists f0, r0. rewrite Hd. split_and!; [done|done|]. intros f r Hf Hhf. split; [by eapply Hmax|by eapply Hall].
    + intros (f1 & r1 & Hf1 & Hh1 & Hall) f r Hf Hhf Hdf. destruct (Hall f r Hf Hhf) as [Hle Heq]. apply Heq.
      pose proof (Hmax f1 r1 Hf1 Hh1). lia.
  - destruct Hk as [-> Hk]. split; [done|]. intros (f & r & Hf & Hh & _). by destruct (Hk f r).
Qed.

(** A folder is trusted when of the honoured records the nearest are, and all of them:
    a nearer record overrides those above it, and contradictory spellings of one folder
    do not trust it. *)
Theorem most_specific_decides h s k : let key := canonicalize_or_owned h k in
  is_trusted h s k = true ↔
  ∃ folder record, doc s !! folder = Some record ∧ honoured h key folder ∧
  ∀ f r, doc s !! f = Some r → honoured h key f →
    path_depth f ≤ path_depth folder ∧ (path_depth f = path_depth folder → trusted r = true).
Proof. apply nearest_decide. Qed.

(** *** Recording *)

Context `{!LawfulTrustCodec}.

Lemma unsafe_put h path text key : is_unsafe_trust_root (put_file h path text) key = is_unsafe_trust_root h key.
Proof. done. Qed.

(** What an operation leaves behind: the file it wrote, holding the decisions on disk
    and its own, or nothing. *)
Lemma record_cases h faults now s k tr h' s' res : record_decision h faults now s k tr = (h', s', res) →
  (h' = h ∧ s' = s ∧ (res = Ok () → is_unsafe_trust_root h (canonicalize_or_owned h k) = true ∨ store_path s = None)) ∨
  (res = Ok () ∧ ∃ path, store_path s = Some path ∧ s' = load_from h' path ∧ (∃ body, h' = put_file h path body) ∧
    is_unsafe_trust_root h (canonicalize_or_owned h k) = false ∧
    read_doc h' path = <[canonicalize_or_owned h k := MkTrust tr now]> (read_doc_from (attempt_read h faults path))).
Proof.
  unfold record_decision. destruct (is_unsafe_trust_root h (canonicalize_or_owned h k)) eqn:Eu; [naive_solver|].
  destruct (store_path s) as [path|] eqn:Ep; [|naive_solver]. case_bool_decide as Hp; [naive_solver|].
  unfold persist_doc. destruct (path_parent path) as [parent|]; [|done]. cbn [ok_or mbind result_bind].
  destruct (dirs_ok faults); [|naive_solver]. destruct (lock_ok faults); [|naive_solver]. cbn [negb].
  set (d := <[_ := _]> _). destruct (document_to_str d) as [body|] eqn:Eb; [|naive_solver]. cbn [ok_or result_bind].
  destruct (write_ok faults); [|naive_solver]. cbn [negb]. intros [= <- <- <-]. right. split; [done|]. exists path.
  assert (Hr : read_doc (put_file h path body) path = d).
  { unfold read_doc, read_doc_from. rewrite read_put. by rewrite (document_roundtrip d body Eb). }
  split_and!; [done| |by eexists|done|done]. unfold load_from. by rewrite Hr.
Qed.

(** One decision: the faults of its steps, the time, the store of the process that
    records it, the folder and the decision. *)
Definition Op : Type := IoFaults * option Z * TrustStore * string * bool.
Definition run_op (h : Host) (op : Op) : Host :=
  let '(faults, now, s, k, tr) := op in (record_decision h faults now s k tr).1.1.

Lemma run_op_keeps h op path folder record : let '(faults, _, s, k, _) := op in
  read_ok faults = true → store_path s = Some path → canonicalize_or_owned h k ≠ folder → read_doc h path !! folder = Some record →
  read_doc (run_op h op) path !! folder = Some record ∧ canonical (run_op h op) = canonical h.
Proof.
  destruct op as [[[[faults now] s] k] tr]. intros Hok Hp Hk Hr. cbn.
  destruct (record_decision h faults now s k tr) as [[h' s'] res] eqn:E. cbn.
  destruct (record_cases _ _ _ _ _ _ _ _ _ E) as [(-> & _ & _)|(_ & p & Hp' & _ & [body ->] & _ & Hd)]; [done|].
  assert (p = path) as -> by congruence. unfold attempt_read in Hd. rewrite Hok in Hd. by rewrite Hd, lookup_insert_ne.
Qed.

(** C22: A decision that was recorded stands on disk after any decisions that other
    processes record on other folders, whatever is in their memory and whether or not
    their directory, lock or write fails, as long as each of them can read the file it
    writes back. What happens otherwise is [failed_read_drops_decisions]. *)
Theorem decisions_survive h faults now s k tr h' s' path ops :
  record_decision h faults now s k tr = (h', s', Ok ()) → store_path s = Some path →
  is_unsafe_trust_root h (canonicalize_or_owned h k) = false →
  Forall (λ op : Op, let '(faults', _, s, k', _) := op in
    read_ok faults' = true ∧ store_path s = Some path ∧ canonicalize_or_owned h k' ≠ canonicalize_or_owned h k) ops →
  read_doc (fold_left run_op ops h') path !! canonicalize_or_owned h k = Some (MkTrust tr now).
Proof.
  intros E Hp Hu Hops. destruct (record_cases _ _ _ _ _ _ _ _ _ E) as [(-> & _ & Hx)|(_ & p & Hp' & _ & [body Hb] & _ & Hd)].
  { destruct (Hx eq_refl); congruence. }
  assert (p = path) as -> by congruence. assert (Hc : canonical h' = canonical h) by (by rewrite Hb).
  assert (Hr : read_doc h' path !! canonicalize_or_owned h k = Some (MkTrust tr now)) by (by rewrite Hd, lookup_insert_eq).
  clear E Hb Hd. revert h' Hc Hr. induction Hops as [|op ops Hop _ IH]; intros h' Hc Hr; [done|]. cbn [fold_left].
  pose proof (run_op_keeps h' op path (canonicalize_or_owned h k) (MkTrust tr now)) as Hk.
  destruct op as [[[[f n] s0] k'] t0]. destruct Hop as (Hok & Hs & Hne).
  assert (Hsame : canonicalize_or_owned h' k' = canonicalize_or_owned h k') by (unfold canonicalize_or_owned; by rewrite Hc).
  destruct Hk as [Hk1 Hk2]; [done|done|by rewrite Hsame|done|]. apply IH; [by rewrite Hk2|done].
Qed.

(** A decision that is recorded while the file cannot be read replaces all the others: the
    failed read counts as an empty document, and that is what is written back. *)
Theorem failed_read_drops_decisions h faults now s k tr h' s' path :
  record_decision h faults now s k tr = (h', s', Ok ()) → store_path s = Some path →
  is_unsafe_trust_root h (canonicalize_or_owned h k) = false → read_ok faults = false →
  read_doc h' path = {[ canonicalize_or_owned h k := MkTrust tr now ]}.
Proof.
  intros E Hp Hu Hf. destruct (record_cases _ _ _ _ _ _ _ _ _ E) as [(-> & _ & Hx)|(_ & p & Hp' & _ & _ & _ & Hd)].
  { destruct (Hx eq_refl); congruence. }
  assert (p = path) as -> by congruence. rewrite Hd. unfold attempt_read. by rewrite Hf.
Qed.

Lemma strip_self cs : is_Some (strip_components cs cs).
Proof. induction cs as [|c cs IH]; cbn; [by eexists|]. by rewrite bool_decide_eq_true_2. Qed.
Lemma strip_shorter base : ∀ cs, is_Some (strip_components base cs) → length base ≤ length cs.
Proof.
  induction base as [|b base IH]; intros [|c cs]; cbn; [lia|lia|by intros []|]. case_bool_decide; [|by intros []].
  intros Hs. specialize (IH cs Hs). lia.
Qed.
(** A refusal just recorded holds for its folder. *)
Lemma refusal_holds h faults now s k h' s' path : record_decision h faults now s k false = (h', s', Ok ()) →
  store_path s = Some path → is_unsafe_trust_root h (canonicalize_or_owned h k) = false →
  is_trusted h' (load_from h' path) k = false.
Proof.
  intros E Hp Hu. destruct (record_cases _ _ _ _ _ _ _ _ _ E) as [(-> & _ & Hx)|(_ & p & Hp' & Hs' & [body ->] & _ & Hd)].
  { destruct (Hx eq_refl); congruence. }
  replace p with path in * by congruence. apply not_true_iff_false. rewrite nearest_decide.
  change (canonicalize_or_owned (put_file h path body) k) with (canonicalize_or_owned h k).
  intros (f & r & _ & [_ Hf] & Hall). unfold path_starts_with in Hf. apply bool_decide_eq_true, strip_shorter in Hf.
  destruct (Hall (canonicalize_or_owned h k) (MkTrust false now)) as [Hle Heq].
  - unfold load_from. cbn [doc]. rewrite Hd. apply lookup_insert_eq.
  - split; [exact Hu|]. apply bool_decide_eq_true, strip_self.
  - unfold path_depth in *. by discriminate Heq; lia.
Qed.

(** What was just recorded decides for its folder, and for every folder below it that
    has no record of its own at least as near. *)
Theorem recorded_decision_holds h faults now s k tr h' s' path below :
  record_decision h faults now s k tr = (h', s', Ok ()) → store_path s = Some path →
  is_unsafe_trust_root h (canonicalize_or_owned h k) = false →
  path_starts_with (canonicalize_or_owned h below) (canonicalize_or_owned h k) = true →
  (∀ f r, doc s' !! f = Some r → honoured h (canonicalize_or_owned h below) f → f ≠ canonicalize_or_owned h k →
    path_depth f < path_depth (canonicalize_or_owned h k)) →
  is_trusted h' s' below = tr.
Proof.
  intros E Hp Hu Hb Hnear. destruct (record_cases _ _ _ _ _ _ _ _ _ E) as [(-> & _ & Hx)|(_ & p & Hp' & Hs' & [body ->] & _ & Hd)].
  { destruct (Hx eq_refl); congruence. }
  assert (Hdoc : doc s' !! canonicalize_or_owned h k = Some (MkTrust tr now)).
  { rewrite Hs'. unfold load_from. cbn [doc]. rewrite Hd. apply lookup_insert_eq. }
  apply eq_true_iff_eq. rewrite nearest_decide.
  change (canonicalize_or_owned (put_file h p body) below) with (canonicalize_or_owned h below). split.
  - intros (f & r & Hf & Hh & Hall). destruct (Hall _ _ Hdoc (conj Hu Hb)) as [Hle Heq].
    destruct (decide (f = canonicalize_or_owned h k)) as [->|Hne]; [by apply Heq|].
    pose proof (Hnear f r Hf Hh Hne). lia.
  - intros ->. exists (canonicalize_or_owned h k), (MkTrust true now). split_and!; [done|exact (conj Hu Hb)|]. intros f r Hf Hh.
    destruct (decide (f = canonicalize_or_owned h k)) as [->|Hne]; [split; [done|]; by simplify_eq|].
    pose proof (Hnear f r Hf Hh Hne). lia.
Qed.

(** The key of a directory is never too broad because of the repository around it. *)
Lemma workspace_key_safe h cwd : is_unsafe_trust_root h (workspace_key h cwd) = true →
  workspace_key h cwd = canonicalize_or_owned h cwd.
Proof. unfold workspace_key. destruct (is_unsafe_trust_root h (git_derived_workspace_key h cwd)) eqn:E; congruence. Qed.

End TrustLaws.
End TrustLaws.

(** * The migration *)

Module Export MigrationLaws.
Section MigrationLaws.
Context `{TrustCodec} `{!LawfulTrustCodec}.

(** A project has a decision, or never can have one. *)
Definition settled_project (h : Host) (s : TrustStore) (project : string) : Prop :=
  has_decision h s project = true ∨ is_unsafe_trust_root h (canonicalize_or_owned h project) = true.

Lemma tail_ok (fs : list IoFaults) : Forall (λ f, read_ok f = true) fs → Forall (λ f, read_ok f = true) (tail fs).
Proof. by destruct 1. Qed.
Lemma head_ok (fs : list IoFaults) :
  Forall (λ f, read_ok f = true) fs → read_ok (default (MkFaults true true true true) (head fs)) = true.
Proof. by destruct 1. Qed.

Lemma seed_spec now path projects : ∀ h s faults h' s' n e, Forall (λ f, read_ok f = true) faults → s = load_from h path →
  seed h now s projects faults = (h', s', n, e) →
  s' = load_from h' path ∧ canonical h' = canonical h ∧ home_dir h' = home_dir h ∧
  (∀ f r, doc s !! f = Some r → doc s' !! f = Some r) ∧
  (∀ q, q ≠ path → files h' !! q = files h !! q) ∧
  (e = false → Forall (settled_project h' s') projects).
Proof.
  induction projects as [|project projects IH]; intros h s faults h' s' n e Hok Hs E; [cbn in E; simplify_eq; by split_and!|].
  cbn in E. destruct (has_decision h s project) eqn:Ed.
  { destruct (IH _ _ _ _ _ _ _ Hok Hs E) as (G1 & G2 & G3 & G4 & G5 & G6). split_and!; [done..|]. intros He. constructor; [|by apply G6].
    left. unfold has_decision, canonicalize_or_owned in *. rewrite G2. apply bool_decide_eq_true in Ed as [r Hr].
    apply bool_decide_eq_true. exists r. by apply G4. }
  unfold set_trusted in E. destruct (record_decision h (default (MkFaults true true true true) (head faults)) now s project true) as [[h1 s1] res] eqn:Er.
  destruct (record_cases _ _ _ _ _ _ _ _ _ Er) as [(-> & -> & Hno)|(-> & p & Hp & Hs1 & [body Hb] & Hu & Hd)].
  - destruct res as [u|err].
    + destruct (seed h now s projects (tail faults)) as [[[h2 s2] n2] e2] eqn:E2. injection E as <- <- <- <-.
      destruct (IH _ _ _ _ _ _ _ (tail_ok faults Hok) Hs E2) as (G1 & G2 & G3 & G4 & G5 & G6). split_and!; [done..|]. intros He. constructor; [|by apply G6].
      right. destruct u. destruct (Hno eq_refl) as [Hx|Hx]; [|by rewrite Hs in Hx].
      unfold is_unsafe_trust_root, is_home_dir, canonicalize_or_owned in *. by rewrite G2, G3.
    + destruct (seed h now s projects (tail faults)) as [[[h2 s2] n2] e2] eqn:E2. injection E as <- <- <- <-.
      destruct (IH _ _ _ _ _ _ _ (tail_ok faults Hok) Hs E2) as (G1 & G2 & G3 & G4 & G5 & G6). by split_and!.
  - assert (p = path) as -> by (rewrite Hs in Hp; cbn in Hp; congruence).
    destruct (seed h1 now s1 projects (tail faults)) as [[[h2 s2] n2] e2] eqn:E2. injection E as <- <- <- <-.
    destruct (IH _ _ _ _ _ _ _ (tail_ok faults Hok) Hs1 E2) as (G1 & G2 & G3 & G4 & G5 & G6).
    assert (Hcan : canonical h1 = canonical h) by (by rewrite Hb).
    assert (Hdoc : doc s1 = <[canonicalize_or_owned h project := MkTrust true now]> (doc s)).
    { rewrite Hs1, Hs. cbn [load_from doc]. rewrite Hd. unfold attempt_read. by rewrite (head_ok faults Hok). }
    split_and!; [done|congruence|by rewrite G3, Hb| | |].
    + intros f r Hf. apply G4. rewrite Hdoc, lookup_insert_ne; [done|]. intros <-.
      unfold has_decision in Ed. apply bool_decide_eq_false in Ed. by apply Ed; exists r.
    + intros q Hq. rewrite G5, Hb by done. by apply read_put_other.
    + intros He. constructor; [|by apply G6]. left. unfold has_decision. apply bool_decide_eq_true. exists (MkTrust true now).
      apply G4. rewrite Hdoc. unfold canonicalize_or_owned. rewrite G2, Hcan. apply lookup_insert_eq.
Qed.

(** The migration changes no decision the user has made since, and takes the old file
    away only when every grant of it was recorded, had a decision, or is too broad to be
    recorded; as long as the store can be read at each write. *)
Theorem migration_respects_decisions h now legacy path faults rename_ok h' s' n projects :
  legacy ≠ path → list_trusted_projects_with_file h legacy = Ok projects → Forall (λ f, read_ok f = true) faults →
  migrate_legacy_hook_trust_in h now legacy (load_from h path) faults rename_ok = (h', s', n) →
  (∀ f r, doc (load_from h path) !! f = Some r → doc s' !! f = Some r) ∧
  (is_Some (files h !! legacy) → files h' !! legacy = None → Forall (settled_project h' s') projects).
Proof.
  intros Hne Hl Hok. unfold migrate_legacy_hook_trust_in. rewrite Hl.
  destruct (seed h now (load_from h path) projects faults) as [[[h1 s1] n1] e1] eqn:E.
  destruct (seed_spec _ _ _ _ _ _ _ _ _ _ Hok eq_refl E) as (_ & Hc & Hh & Hkeep & Hfiles & Hall).
  rewrite <-(Hfiles legacy Hne). destruct e1; [intros [= <- <- <-]; split; [done|]; intros [x Hx]; congruence|].
  destruct (files h1 !! legacy) as [ent|] eqn:El; [|intros [= <- <- <-]; split; [done|]; by intros [? ?]].
  destruct (_ && _); intros [= <- <- <-]; (split; [done|]); [intros _ _; exact (Hall eq_refl)|]. intros _ Hx. congruence.
Qed.

End MigrationLaws.
End MigrationLaws.

(** * Scenes *)

Module Export TrustScene.

#[export] Instance trust_eq_dec : EqDecision FolderTrust.
Proof. solve_decision. Defined.
(** A file holds at most one record here: [folder=yes] or [folder=no]. *)
#[local] Instance scene_codec : TrustCodec := {|
  document_from_str s := match split_once "="%char s with
    | Some (f, v) => Some {[ f := MkTrust (bool_decide (v = "yes")) None ]}
    | None => None end;
  document_to_str d := match map_to_list d with
    | [(f, MkTrust t None)] =>
        let s := f +:+ (if t then "=yes" else "=no") in
        if bool_decide (match split_once "="%char s with
          | Some (f', v) => Some ({[ f' := MkTrust (bool_decide (v = "yes")) None ]} : gmap string FolderTrust)
          | None => None end = Some d) then Some s else None
    | _ => None end;
|}.
#[local] Instance scene_lawful : LawfulTrustCodec.
Proof.
  split. intros doc body. cbn. destruct (map_to_list doc) as [|[f [t [o|]]] [|? ?]]; try done.
  case_bool_decide as Hd; [|done]. by intros [= <-].
Qed.

Definition laptop (fs : gmap string Entry) : Host :=
  MkHost Linux ∅ (Some "/home/u") fs Some (λ _, None) (λ _, None) None None.
Definition store_of (l : list (string * bool)) : TrustStore := MkStore (list_to_map ((λ '(f, t), (f, MkTrust t None)) <$> l)) None.

(** A nearer refusal overrides the trust of the folders above it, contradictory spellings
    trust nothing, and a record of the home directory is not honoured. *)
Example nearest_wins : let s := store_of [("/a", true); ("/a/b", false); ("/x", true); ("/x/", false); ("/home/u", true)] in
  is_trusted (laptop ∅) s <$> ["/a/c"; "/a/b/c"; "/x"; "/home/u/p"; "/ab"] = [true; false; false; false; false].
Proof. by vm_compute. Qed.

(** One grant, on an empty disk. *)
Definition recorded : Host * TrustStore * result IoError () :=
  set_trusted (laptop ∅) (MkFaults true true true true) None (load_from (laptop ∅) "/t") "/p".

Lemma most_specific_decides_witness : ∃ folder record, doc (store_of [("/a", true)]) !! folder = Some record ∧ trusted record = true.
Proof.
  destruct (proj1 (most_specific_decides (laptop ∅) (store_of [("/a", true)]) "/a/c")) as (f & r & Hf & Hh & Hall); [by vm_compute|].
  exists f, r. split; [done|]. by apply (Hall f r).
Defined.
Lemma decisions_survive_witness :
  read_doc (run_op recorded.1.1 (MkFaults true true true true, None, load_from (laptop ∅) "/t", "/q", true)) "/t" !! "/p" =
  Some (MkTrust true None).
Proof.
  refine (decisions_survive (laptop ∅) (MkFaults true true true true) None (load_from (laptop ∅) "/t") "/p" true
    recorded.1.1 recorded.1.2 "/t" [(MkFaults true true true true, None, load_from (laptop ∅) "/t", "/q", true)] _ _ _ _);
    [by vm_compute|by vm_compute|by vm_compute|by repeat constructor].
Defined.
(** The second process cannot read the file: the first decision is gone. *)
Lemma failed_read_drops_decisions_witness :
  let h' := run_op recorded.1.1 (MkFaults true true false true, None, load_from (laptop ∅) "/t", "/q", true) in
  read_doc recorded.1.1 "/t" !! "/p" = Some (MkTrust true None) ∧ read_doc h' "/t" !! "/p" = None.
Proof.
  split; [by vm_compute|].
  rewrite (failed_read_drops_decisions recorded.1.1 (MkFaults true true false true) None (load_from (laptop ∅) "/t") "/q" true
    _ (record_decision recorded.1.1 (MkFaults true true false true) None (load_from (laptop ∅) "/t") "/q" true).1.2 "/t");
    by vm_compute.
Defined.
Lemma recorded_decision_holds_witness : is_trusted recorded.1.1 recorded.1.2 "/p/q" = true.
Proof.
  refine (recorded_decision_holds (laptop ∅) (MkFaults true true true true) None (load_from (laptop ∅) "/t") "/p" true
    recorded.1.1 recorded.1.2 "/t" "/p/q" _ _ _ _ _); [by vm_compute|by vm_compute|by vm_compute|by vm_compute|].
  intros f r Hf _ Hne. change (doc recorded.1.2) with ({[ "/p" := MkTrust true None ]} : gmap string FolderTrust) in Hf.
  apply lookup_singleton_Some in Hf as [<- _]. by destruct Hne.
Defined.
Lemma migration_respects_decisions_witness :
  let h := laptop {[ "/legacy" := Plain (Some "/p"); "/t" := Plain (Some "/p=no") ]} in
  doc (migrate_legacy_hook_trust_in h None "/legacy" (load_from h "/t") [] true).1.2 !! "/p" = Some (MkTrust false None).
Proof.
  intros h. destruct (migrate_legacy_hook_trust_in h None "/legacy" (load_from h "/t") [] true) as [[h' s'] n] eqn:E.
  destruct (migration_respects_decisions h None "/legacy" "/t" [] true h' s' n ["/p"]) as [Hk _]; [done|by vm_compute|constructor|done|].
  apply Hk. by vm_compute.
Defined.

End TrustScene.
