(* ===== verification/PermissionShell.v ===== *)
(** The gate on the files a shell command touches (crate [ainxt-workspace],
    [permission/shell_access.rs]) and the resolution of symbolic links below it
    ([ainxt-shell-ast], the end of [access.rs]): readers, writers, moves and redirects
    of a command are judged by the same rules as the file tools. *)
From stdpp Require Import list gmap strings.
From S2P Require Import Prelude RustStr StrSearch ShellWords ShellTree Permission.

(** * Links ([access.rs]) *)

(** What the functions ask the file system: [dunce::canonicalize],
    [symlink_metadata] with [is_symlink], and [read_link]. *)
Class LinkFs : Type := {
  canonicalize : string → option string;
  is_symlink : string → bool;
  read_link : string → option string;
}.

Module Export Links.

(** Empty segments and, but at the front of a relative path, [.] are no components:
    what is left of the reversed segments. *)
Fixpoint trim_right (absolute : bool) (r : list string) : list string :=
  match r with
  | s :: t =>
      if bool_decide (s = "") || (bool_decide (s = ".") && (absolute || negb (bool_decide (t = []))))
      then trim_right absolute t else r
  | [] => []
  end.

Definition body_segments (p : string) : list string :=
  let segs := split_on "/"%char p in if path_is_absolute p then drop 1 segs else segs.

(** [Path::parent]. *)
Definition path_parent (p : string) : option string :=
  let absolute := path_is_absolute p in
  match trim_right absolute (reverse (body_segments p)) with
  | [] => None
  | _ :: t => Some ((if absolute then "/" else "") +:+ join "/" (reverse (trim_right absolute t)))
  end.

(** What the prefix is after each component of an absolute path was pushed. *)
Fixpoint prefixes_from (prefix : string) (segs : list string) : list string :=
  match segs with
  | [] => []
  | s :: segs => let prefix := path_join prefix s in prefix :: prefixes_from prefix segs
  end.
Definition component_prefixes (p : string) : list string :=
  "/" :: prefixes_from "/" (filter (λ s, s ≠ "" ∧ s ≠ ".") (body_segments p)).

Section Links.
Context `{LinkFs}.

Definition path_has_symlink (absolute : string) : bool :=
  path_is_absolute absolute && existsb is_symlink (component_prefixes absolute).

(** [fuel] is 41 less the depth, which may be 40 at most. *)
Fixpoint resolve_following_symlinks (fuel : nat) (path : string) : option string :=
  match fuel with
  | 0 => None
  | S fuel =>
      match canonicalize path with
      | Some canonical => Some canonical
      | None =>
          parent ← path_parent path;
          file_name ← path_file_name path;
          resolved_parent ← resolve_following_symlinks fuel parent;
          let candidate := path_join resolved_parent file_name in
          if is_symlink candidate then
            target ← read_link candidate;
            resolve_following_symlinks fuel (path_join resolved_parent target)
          else Some candidate
      end
  end.

Definition MAX_SYMLINK_DEPTH : nat := 40.
Definition resolve_symlink_target (absolute : string) : option string :=
  if negb (path_is_absolute absolute) then None
  else normalize_shell_path <$> resolve_following_symlinks (S MAX_SYMLINK_DEPTH) absolute.

End Links.
End Links.

(** * The gate ([shell_access.rs]) *)

Module Export FileGate.
Section Gate.
Context `{PermissionLibs} `{BashParser} `{LinkFs}.

Definition shell_access (mode : ShellFileMode) (path : string) : AK.AccessKind Json :=
  match mode with Read => AK.Read (Some path) | Write => AK.Edit path end.

Definition absolute_of (normalize : string → string) (cwd path : string) : string :=
  if is_absolute_shell_path path then path else normalize (path_join cwd path).

Definition evaluate_shell_path (self : CompiledPolicy) (token cwd : string) (mode : ShellFileMode) : option Dec.Decision :=
  let path := normalize_shell_path token in
  let absolute := absolute_of normalize_shell_path cwd path in
  let judge path := escalate (evaluate self (shell_access mode path)) in
  let raw := normalize_shell_path_raw token in
  let raw_absolute := absolute_of normalize_shell_path_raw cwd raw in
  let resolved_decision :=
    match resolve_symlink_target raw_absolute with
    | Some resolved => if negb (bool_decide (resolved = absolute)) then judge resolved else None
    | None => if path_has_symlink raw_absolute then Some Dec.Ask else None
    end in
  combine_decisions (combine_decisions (judge path) (judge absolute)) resolved_decision.

(** The loop's state: an ask that is forced, and the strongest decision. *)
Record GateState : Type := MkGate { forced_ask : bool; gate_decision : option Dec.Decision }.
Definition force (b : bool) (g : GateState) : GateState := MkGate (forced_ask g || b) (gate_decision g).
Definition judge_path (self : CompiledPolicy) (cwd : string) (g : GateState) (o : string * ShellFileMode) : GateState :=
  MkGate (forced_ask g) (combine_decisions (gate_decision g) (evaluate_shell_path self o.1 cwd o.2)).
(** An operand: a pattern of the shell forces an ask, and the path is judged. *)
Definition judge_operand (self : CompiledPolicy) (cwd : string) (g : GateState) (o : string * ShellFileMode) : GateState :=
  judge_path self cwd (force (shell_arg_is_ambiguous o.1) g) o.

Definition gate_redirect (self : CompiledPolicy) (cwd : string) (cwd_changes : list nat) (g : GateState)
    (r : nat * option string * ShellFileMode * bool) : GateState :=
  let '(start, path, mode, ambiguous) := r in
  let g := force ambiguous g in
  match path with
  | None => g
  | Some path =>
      judge_path self cwd
        (force (cwd_unpinned_before cwd_changes start && negb (is_absolute_shell_path (normalize_shell_path path))) g)
        (path, mode)
  end.

(** The modes of the positional operands; [None] for a program that is no reader or
    writer. *)
Definition operand_modes (program : string) (words : list string) : option (list ShellFileMode) :=
  match shell_file_mode program with
  | Some m => Some (if bool_decide (program = "sed") && shell_sed_in_place words then [Read; Write] else [m])
  | None => None
  end.

(** Every mode of an operand in turn; the pattern is looked at once. *)
Definition judge_modes (self : CompiledPolicy) (cwd : string) (modes : list ShellFileMode) (g : GateState) (token : string)
  : GateState :=
  fold_left (λ g m, judge_path self cwd g (token, m)) modes (force (shell_arg_is_ambiguous token) g).

Definition gate_invocation (self : CompiledPolicy) (cwd : string) (cwd_changes : list nat) (parse_failed : bool)
    (g : GateState) (i : nat * list string * bool) : GateState :=
  let '(start, raw_words, arg_ambiguous) := i in
  let ws := unwrap_wrappers raw_words in
  match head ws with
  | None => g
  | Some w =>
      let program := to_ascii_lowercase (shell_program_name w) in
      if bool_decide (program = "cd") then g
      else
        let cwd_unpinned := cwd_unpinned_before cwd_changes start || wrapper_has_chdir raw_words in
        let candidates := shell_file_candidates ws in
        let path_operands := shell_path_command_operands program ws in
        let is_known := bool_decide (program = "dd") || bool_decide (is_Some (shell_file_mode program))
                        || bool_decide (is_Some path_operands) in
        let g := force (is_known && (cwd_unpinned || arg_ambiguous || parse_failed)) g in
        let g := fold_left (judge_operand self cwd) (special_file_operands program ws) g in
        if bool_decide (program = "dd") then g
        else
          match path_operands with
          | Some operands => fold_left (judge_operand self cwd) operands g
          | None =>
              match operand_modes program ws with
              | None => g
              | Some modes =>
                  let g := fold_left (judge_modes self cwd modes) candidates g in
                  force (shell_reader_can_recurse program ws candidates) g
              end
          end
  end.

Definition evaluate_shell_file_access (self : CompiledPolicy) (cmd cwd : string) : option Dec.Decision :=
  if negb (has_file_restrictions self) then None
  else
    root ← try_parse_shell cmd;
    let cwd_changes := cwd_poison_positions root cmd in
    let g := fold_left (gate_redirect self cwd cwd_changes) (shell_redirect_targets root cmd) (MkGate false None) in
    let g := fold_left (gate_invocation self cwd cwd_changes (has_error root)) (shell_command_invocations root cmd) g in
    combine_decisions (gate_decision g) (if forced_ask g then Some Dec.Ask else None).

End Gate.
End FileGate.

(** * What the gate guarantees *)

Module Export GateLaws.
Section Laws.
Context `{PermissionLibs} `{BashParser} `{LinkFs}.

(** The paths a command names, with what it does to them. *)
Definition named_paths (words : list string) : list (string * ShellFileMode) :=
  let ws := unwrap_wrappers words in
  match head ws with
  | None => []
  | Some w =>
      let program := to_ascii_lowercase (shell_program_name w) in
      if bool_decide (program = "cd") then []
      else
        special_file_operands program ws ++
        if bool_decide (program = "dd") then []
        else
          match shell_path_command_operands program ws with
          | Some operands => operands
          | None =>
              match operand_modes program ws with
              | None => []
              | Some modes => shell_file_candidates ws ≫= λ token, pair token <$> modes
              end
          end
  end.

Definition redirect_path (r : nat * option string * ShellFileMode * bool) : option (string * ShellFileMode) :=
  let '(_, path, mode, _) := r in path ≫= λ p, Some (p, mode).

Definition touched (root : Tree) (src : string) : list (string * ShellFileMode) :=
  omap redirect_path (shell_redirect_targets root src) ++
  (shell_command_invocations root src ≫= λ i, named_paths i.1.2).

Section Judged.
Context (self : CompiledPolicy) (cwd : string).
Definition judged (o : string * ShellFileMode) : option Dec.Decision := evaluate_shell_path self o.1 cwd o.2.

Lemma judged_objects o : objection (judged o).
Proof.
  unfold judged, evaluate_shell_path. repeat apply objection_combine; try apply evaluate_objects.
  destruct (resolve_symlink_target _); [case_match; [apply evaluate_objects|by left]|].
  case_match; [right; by left|by left].
Qed.

(** A step judges the paths [l], and asks for no less than before. *)
Definition steps (l : list (string * ShellFileMode)) (g g' : GateState) : Prop :=
  gate_decision g' = combine_decisions (gate_decision g) (combine_all judged l) ∧
  (forced_ask g = true → forced_ask g' = true).

Lemma steps_force b g : steps [] g (force b g).
Proof. split; cbn; [by rewrite combine_None_r|by intros ->]. Qed.

Lemma steps_trans l l' g g' g'' : steps l g g' → steps l' g' g'' → steps (l ++ l') g g''.
Proof.
  intros [E F] [E' F']. split; [|by auto]. rewrite E', E. rewrite combine_assoc. f_equal.
  unfold combine_all at 3. rewrite fold_left_app. by rewrite (combine_from judged l').
Qed.

Lemma steps_forced b l g g' : steps l (force b g) g' → steps l g g'.
Proof. intros [E F]. split; [done|]. intros Hg. apply F. cbn. by rewrite Hg. Qed.

Lemma steps_judge o g : steps [o] g (judge_path self cwd g o).
Proof. split; [|done]. cbn [judge_path gate_decision]. unfold combine_all. cbn [fold_left]. by rewrite combine_None_l. Qed.

Lemma steps_fold {A} (f : GateState → A → GateState) (paths : A → list (string * ShellFileMode)) (l : list A) :
  (∀ g x, steps (paths x) g (f g x)) → ∀ g, steps (l ≫= paths) g (fold_left f l g).
Proof.
  intros Hf. induction l as [|x l IH]; intros g; cbn [fold_left]; [by split; cbn; [rewrite combine_None_r|]|].
  change ((x :: l) ≫= paths) with (paths x ++ (l ≫= paths)). by eapply steps_trans.
Qed.

Lemma steps_operand g o : steps [o] g (judge_operand self cwd g o).
Proof. eapply steps_forced, steps_judge. Qed.

Lemma bind_singles {A B} (f : A → B) (l : list A) : (l ≫= λ x, [f x]) = f <$> l.
Proof. induction l as [|x l IH]; [done|]. cbn. by rewrite IH. Qed.

Lemma steps_operands l g : steps l g (fold_left (judge_operand self cwd) l g).
Proof. rewrite <-(list_fmap_id l) at 1. rewrite <-bind_singles. apply steps_fold. intros. apply steps_operand. Qed.

Lemma steps_modes modes g token : steps (pair token <$> modes) g (judge_modes self cwd modes g token).
Proof.
  unfold judge_modes. rewrite <-bind_singles. eapply steps_forced.
  apply (steps_fold (λ g m, judge_path self cwd g (token, m))). intros. apply steps_judge.
Qed.

Lemma steps_redirect cwd_changes g r :
  steps (option_list (redirect_path r)) g (gate_redirect self cwd cwd_changes g r).
Proof.
  destruct r as [[[start [path|]] mode] ambiguous]; cbn [gate_redirect redirect_path mbind option_bind option_list]; [|apply steps_force].
  eapply steps_forced, steps_forced, steps_judge.
Qed.

Lemma steps_invocation cwd_changes failed g i :
  steps (named_paths i.1.2) g (gate_invocation self cwd cwd_changes failed g i).
Proof.
  destruct i as [[start raw_words] ambiguous]. unfold gate_invocation, named_paths. cbn [fst snd].
  destruct (head _) as [w|]; [|by split; cbn; [rewrite combine_None_r|]].
  case_bool_decide; [by split; cbn; [rewrite combine_None_r|]|].
  set (ws := unwrap_wrappers raw_words). set (program := to_ascii_lowercase _).
  match goal with |- context [force ?b g] => apply (steps_forced b) end. eapply steps_trans; [apply steps_operands|].
  case_bool_decide; [by split; cbn; [rewrite combine_None_r|]|].
  destruct (shell_path_command_operands program ws) as [operands|]; [apply steps_operands|].
  destruct (operand_modes program ws) as [modes|]; [|by split; cbn; [rewrite combine_None_r|]].
  rewrite <-(app_nil_r (_ ≫= _)). eapply steps_trans; [|apply steps_force]. apply steps_fold. intros. apply steps_modes.
Qed.

Lemma omap_bind {A B} (f : A → option B) (l : list A) : omap f l = l ≫= λ x, option_list (f x).
Proof. induction l as [|x l IH]; [done|]. cbn. rewrite IH. by destruct (f x). Qed.

Lemma gate_judges cmd root : try_parse_shell cmd = Some root → has_file_restrictions self = true →
  ∃ forced : bool, evaluate_shell_file_access self cmd cwd =
    combine_decisions (combine_all judged (touched root cmd)) (if forced then Some Dec.Ask else None).
Proof.
  intros Er Hf. unfold evaluate_shell_file_access. rewrite Hf, Er. cbn [negb mbind option_bind].
  set (g1 := fold_left _ (shell_redirect_targets root cmd) _). set (g2 := fold_left _ (shell_command_invocations root cmd) g1).
  exists (forced_ask g2). f_equal.
  assert (Hs : steps (touched root cmd) (MkGate false None) g2).
  { apply (steps_trans _ _ _ g1).
    - rewrite omap_bind. apply steps_fold. intros. apply steps_redirect.
    - apply (steps_fold _ (λ i, named_paths i.1.2)). intros. apply steps_invocation. }
  destruct Hs as [-> _]. by rewrite combine_None_l.
Qed.


End Judged.

(** What a rule sees of a path of the command: as it is written, from the working
    directory, and with its links followed. *)
Definition seen (cwd token : string) : list string :=
  normalize_shell_path token :: absolute_of normalize_shell_path cwd (normalize_shell_path token) ::
  option_list (resolve_symlink_target (absolute_of normalize_shell_path_raw cwd (normalize_shell_path_raw token))).

Lemma judged_rejects self cwd o :
  rejects (judged self cwd o) ↔ ∃ path, path ∈ seen cwd o.1 ∧ rejects (evaluate self (shell_access o.2 path)).
Proof.
  assert (He : ∀ d, rejects (escalate d) ↔ rejects d) by (intros d; unfold rejects; by setoid_rewrite escalate_spec).
  unfold judged, evaluate_shell_path, seen. set (p := normalize_shell_path o.1). set (a := absolute_of _ _ p).
  destruct (resolve_symlink_target _) as [r|]; cbn [option_list].
  - rewrite !rejects_combine; try apply objection_combine; try apply evaluate_objects;
      [|case_match; [apply evaluate_objects|by left]].
    rewrite <-Exists_exists, !Exists_cons; cbn; rewrite ?Exists_cons, Exists_nil, !He. unfold negb. case_bool_decide as E.
    + subst r. unfold rejects at 3. naive_solver.
    + rewrite He. naive_solver.
  - rewrite !rejects_combine; try apply objection_combine; try apply evaluate_objects; [|case_match; [right; by left|by left]].
    rewrite <-Exists_exists, !Exists_cons; cbn; rewrite ?Exists_cons, Exists_nil, !He.
    assert (Hn : ¬ rejects (if path_has_symlink (absolute_of normalize_shell_path_raw cwd (normalize_shell_path_raw o.1))
      then Some Dec.Ask else None)) by (unfold rejects; case_match; naive_solver).
    naive_solver.
Qed.

(** C8: The gate on files never allows; it rejects a command exactly when a deny rule for
    reading or editing matches a path the command touches, as written, from the
    working directory or through its links: the target of a redirect, an operand of a
    reader, a writer or a move, or the value of an output flag. *)
Theorem shell_file_gate_exact config cmd cwd root : try_parse_shell cmd = Some root →
  has_file_restrictions (CompiledPolicy_new config) = true →
  let d := evaluate_shell_file_access (CompiledPolicy_new config) cmd cwd in
  (rejects d ↔ ∃ token mode path, (token, mode) ∈ touched root cmd ∧ path ∈ seen cwd token ∧
     matched config (shell_access mode path) RA.Deny) ∧
  (d = Some Dec.Ask ∨ rejects d ∨ d = None).
Proof.
  intros Er Hf. destruct (gate_judges (CompiledPolicy_new config) cwd cmd root Er Hf) as [forced E]. rewrite E. cbn zeta.
  set (self := CompiledPolicy_new config).
  assert (Hall : objection (combine_all (judged self cwd) (touched root cmd))).
  { apply combine_all_objects, Forall_forall. intros. apply judged_objects. }
  assert (Ha : objection (if forced then Some Dec.Ask else None)) by (destruct forced; [right; by left|by left]).
  split.
  - rewrite rejects_combine, combine_all_rejects by (done || (apply Forall_forall; intros; apply judged_objects)).
    rewrite Exists_exists. setoid_rewrite judged_rejects.
    assert (Hm : ∀ mode path, rejects (evaluate self (shell_access mode path)) ↔ matched config (shell_access mode path) RA.Deny).
    { intros mode path. pose proof (evaluate_spec config (shell_access mode path)) as Hs. subst self. unfold rejects, matched in *.
      destruct (evaluate _ _) as [[]|]; naive_solver. }
    setoid_rewrite Hm. split.
    + intros [([token mode] & Hin & path & Hp & Hd)|[r Hr]]; [by exists token, mode, path|by destruct forced].
    + intros (token & mode & path & Hin & Hp & Hd). left. by exists (token, mode); eauto.
  - pose proof (objection_combine _ _ Hall Ha) as Ho. unfold objection in Ho. naive_solver.
Qed.

Lemma elem_of_written p l : p ∈ written l ↔ (p, Write) ∈ l.
Proof.
  unfold written. rewrite list_elem_of_omap. split.
  - intros ([q []] & Hin & E); naive_solver.
  - intros Hin. by exists (p, Write).
Qed.

(** The paths a derivation of capabilities reports as written, and that the gate
    judges as written, are the same: no write that is derived escapes the rules. *)
Theorem derived_writes_are_gated root src p : p ∈ command_write_paths_in_tree root src → (p, Write) ∈ touched root src.
Proof.
  unfold command_write_paths_in_tree, touched. rewrite !elem_of_app. intros [Hr|Hc].
  - left. apply list_elem_of_omap in Hr as ([[[start path] mode] amb] & Hr & Hp). apply list_elem_of_omap.
    exists (start, path, mode, amb). split; [done|]. cbn in *. destruct mode; [done|]. by subst.
  - right. apply list_elem_of_In, in_concat in Hc as (l & Hl%list_elem_of_In & Hp%list_elem_of_In).
    apply list_elem_of_fmap in Hl as ([[start raw] amb] & -> & Hi). apply list_elem_of_bind. exists (start, raw, amb).
    split; [|done]. cbn. unfold command_words_write_paths, named_paths in *.
    destruct (head _) as [w|]; [|by apply not_elem_of_nil in Hp].
    set (ws := unwrap_wrappers raw) in *. set (program := to_ascii_lowercase _) in *. clearbody ws program.
    destruct (decide (program = "cd")) as [->|Ecd]; [by apply not_elem_of_nil in Hp|].
    rewrite (bool_decide_eq_false_2 _ Ecd). apply elem_of_app.
    destruct (shell_path_command_operands program ws) as [operands|] eqn:Eo.
    + rewrite elem_of_app, !elem_of_written in Hp. destruct Hp as [Hp|Hp]; [by left|right].
      destruct (decide (program = "dd")) as [->|Ed]; [by cbn in Eo|]. by rewrite (bool_decide_eq_false_2 _ Ed).
    + assert (Hp' : p ∈ written (special_file_operands program ws) ∨
        p ∈ shell_file_candidates ws ∧ (shell_file_mode program = Some Write ∨ program = "sed" ∧ shell_sed_in_place ws = true)).
      { match type of Hp with context [if ?b then _ else _] => destruct b eqn:Ew end; [|by left]. apply elem_of_app in Hp as [Hp|Hp]; [by left|right]. split; [done|].
        to_prop. destruct Ew as [Ew|Ew]; to_prop; [by left|by right]. }
      destruct Hp' as [Hp'|[Hp' Hm]]; [left; by apply elem_of_written|right].
      destruct (decide (program = "dd")) as [->|Ed]; [by destruct Hm as [Hm|[Hm _]]; vm_compute in Hm|].
      rewrite (bool_decide_eq_false_2 _ Ed).
      unfold operand_modes. destruct Hm as [Hm|[Hm Hs]].
      * rewrite Hm. apply list_elem_of_bind. exists p. split; [|done].
        apply list_elem_of_fmap. exists Write. split; [done|]. destruct (_ && _); by_compute.
      * subst program. rewrite Hs. cbn. apply list_elem_of_bind. exists p. split; [|done].
        apply list_elem_of_fmap. exists Write. split; [done|]. by_compute.
Qed.

End Laws.
End GateLaws.

(** * A concrete file system *)

Module GateScene.
#[local] Existing Instance PolicyScene.scene_libs.
#[local] Existing Instance PolicyScene.scene_bash.

(** [/w/notes] is a link to [/etc/shadow]; [/w] and [/etc] are directories. *)
#[local] Instance scene_links : LinkFs := {|
  canonicalize p :=
    if bool_decide (p = "/w/notes") then Some "/etc/shadow"
    else if bool_decide (p ∈ ["/"; "/w"; "/etc"]) then Some p else None;
  is_symlink p := bool_decide (p = "/w/notes");
  read_link p := if bool_decide (p = "/w/notes") then Some "/etc/shadow" else None;
|}.

Definition no_shadow : PermissionConfig :=
  PermissionConfig_new [PolicyScene.deny TF.Read "/etc/shadow"; PolicyScene.allow TF.Bash "cat"].

(** Reading through a link is denied by a rule on its target. *)
Lemma shell_file_gate_exact_witness :
  ∃ token mode path, (token, mode) ∈ touched (Toy.toy_tree "cat notes") "cat notes" ∧ path ∈ seen "/w" token ∧
    matched no_shadow (shell_access mode path) RA.Deny.
Proof.
  assert (Er : try_parse_shell "cat notes" = Some (Toy.toy_tree "cat notes")) by (by vm_compute).
  apply (proj1 (shell_file_gate_exact no_shadow "cat notes" "/w" _ Er eq_refl)).
  eexists. by vm_compute.
Defined.

Lemma derived_writes_are_gated_witness :
  ("out", Write) ∈ touched (Toy.toy_tree "touch out") "touch out".
Proof. apply derived_writes_are_gated. by_compute. Defined.

Example missing_file_below_directory : resolve_symlink_target "/w/new/file" = Some "/w/new/file".
Proof. by vm_compute. Qed.

End GateScene.
