(* ===== verification/PermissionGrants.v ===== *)
(** What is approved without a question (crate [ainxt-workspace],
    [permission/sovereign.rs], [permission/state.rs] and the first half of
    [permission/manager.rs]): the grants of a session, the safe and dangerous commands,
    the judgement on every segment of a shell script, and the actions that should
    always have a human. *)
From stdpp Require Import list gmap gmultiset sets strings.
From S2P Require Import Prelude RustStr StrSearch PolicyTypes ShellWords ShellTree Permission.

(** * Sovereign actions ([sovereign.rs]) *)

Module Export Sovereign.

Definition SECURITY_CONFIG_MARKERS : list string := ["ainxt_tls_insecure"; "ainxt_api_backend"; "ainxt_policy_authority"].
Definition PRIVESC_MARKERS : list string := ["sudo "; "doas "; "pkexec "; "su -"; "su root"].
Definition PERSISTENCE_MARKERS : list string :=
  ["crontab"; "systemctl enable"; "systemctl --user enable"; "launchctl load"; "launchctl bootstrap";
   ".bashrc"; ".zshrc"; ".bash_profile"; ".profile"; "/etc/cron"; ".git/hooks"; "/launchagents/"; "/launchdaemons/";
   "/systemd/"].
Definition CREDENTIAL_MARKERS : list string :=
  ["/.ssh/"; "id_rsa"; "id_ed25519"; "/.aws/credentials"; "/.kube/config"; "/etc/shadow"; "169.254.169.254"; "/.netrc"].

Definition marked (markers : list string) (lc : string) : bool := existsb (λ m, contains m lc) markers.

Definition classify_command (cmd : string) : option SovereignAction :=
  let lc := to_ascii_lowercase cmd in
  if marked SECURITY_CONFIG_MARKERS lc then Some SecurityConfigChange
  else if marked PRIVESC_MARKERS lc || starts_with "su " (trim_start lc) then Some PrivilegeEscalation
  else if marked CREDENTIAL_MARKERS lc || contains ".env" lc then Some CredentialAccess
  else if marked PERSISTENCE_MARKERS lc then Some Persistence
  else None.

Definition classify_write_path (path : string) : option SovereignAction :=
  let lc := to_ascii_lowercase path in
  if marked CREDENTIAL_MARKERS lc then Some CredentialAccess
  else if marked PERSISTENCE_MARKERS lc then Some Persistence
  else None.

Definition classify_credential_path (path : string) : option SovereignAction :=
  let lc := to_ascii_lowercase path in
  if marked CREDENTIAL_MARKERS lc || ends_with ".env" lc then Some CredentialAccess else None.

Definition sovereign_classify {J} (access : AK.AccessKind J) : option SovereignAction :=
  match access with
  | AK.Bash cmd => classify_command cmd
  | AK.Edit path => classify_write_path path
  | AK.Read (Some path) => classify_credential_path path
  | _ => None
  end.

End Sovereign.

(** * The state that is remembered ([state.rs]) *)

Module Export PermState.

Record PermissionState : Type := MkPermState {
  edit_policy : EP.EditPolicy;
  allow_bash_execute : bool;
  allowed_bash_commands : gset string;
  disallowed_bash_commands : gset string;
  allowed_web_fetch_domains : gset string;
  allowed_mcp_tools : gset string;
  allowed_mcp_servers : gset string;
}.
Definition PermissionState_default : PermissionState := MkPermState EP.Ask false ∅ ∅ ∅ ∅ ∅.

Definition sanitize_byte (a : ascii) : bool :=
  is_ascii_alphanumeric a || bool_decide (a = "-"%char) || bool_decide (a = "_"%char).
(** A character that is not ASCII becomes one underscore. *)
Definition sanitize_char (c : string) : string :=
  match c with String a "" => if sanitize_byte a then c else "_" | _ => "_" end.
Definition sanitize_client_id (id : string) : string := concat_str (sanitize_char <$> chars id).

Definition state_file_name (client_identifier : option string) : string :=
  match client_identifier with
  | Some id => "permission_" +:+ sanitize_client_id id +:+ ".toml"
  | None => "permission.toml"
  end.

(** The directory as a map from file names to what their text parses to: [None] for a
    text that is no state. *)
Definition StateDir : Type := gmap string (option PermissionState).

Definition try_load_state (dir : StateDir) (file : string) : option PermissionState :=
  default PermissionState_default <$> dir !! file.

Definition load_state_from_dir (dir : StateDir) (client_identifier : option string) : PermissionState :=
  match client_identifier with
  | Some id =>
      match try_load_state dir (state_file_name (Some id)) with
      | Some s => s
      | None => default PermissionState_default (try_load_state dir (state_file_name None))
      end
  | None => default PermissionState_default (try_load_state dir (state_file_name None))
  end.

Definition persist_state_to_dir (dir : StateDir) (s : PermissionState) (client_identifier : option string) : StateDir :=
  <[state_file_name client_identifier := Some s]> dir.

End PermState.

(** The order in which a hash set is walked. *)
Class HashOrder : Type := {
  walked : gset string → list string;
  walked_spec : ∀ s x, x ∈ walked s ↔ x ∈ s;
}.

(** * Commands and grants ([manager.rs]) *)

Module Reasons.
Definition YOLO : string := "yolo".
Definition POLICY_ALLOW : string := "policy_allow".
Definition POLICY_DENY : string := "policy_deny".
Definition POLICY_ASK : string := "policy_ask".
Definition AUTO_FAST_PATH : string := "auto_fast_path".
Definition AUTO_CLASSIFIER_ALLOW : string := "auto_classifier_allow".
Definition AUTO_CLASSIFIER_BLOCK : string := "auto_classifier_block".
Definition SANDBOX_AUTO : string := "sandbox_auto".
Definition PERSISTED_GRANT : string := "persisted_grant".
Definition SESSION_GRANT : string := "session_grant".
Definition STATIC_ALLOWLIST : string := "static_allowlist".
Definition SAFE_COMMAND : string := "safe_command".
Definition SESSION_DENY : string := "session_deny".
Definition PROMPT_DENY : string := "prompt_deny".
Definition NEEDS_USER : string := "needs_user".
Definition REQUESTER_GONE : string := "requester_gone".
End Reasons.

Module Export Commands.

Definition mcp_server_prefix_allowed (name : string) (servers : gset string) : bool :=
  negb (bool_decide (servers = ∅)) &&
  match split_once_str "__" name with
  | None => false
  | Some (server, _) => negb (is_empty server) && bool_decide (server ∈ servers)
  end.

Definition mcp_pre_decision (name : string) (state : PermissionState)
    (policy_forced_prompt remember_tool_approvals : bool) : option Dec.Decision :=
  if policy_forced_prompt && negb remember_tool_approvals then None
  else if bool_decide (name ∈ allowed_mcp_tools state) then Some Dec.Allow
  else if mcp_server_prefix_allowed name (allowed_mcp_servers state) then Some Dec.Allow
  else None.

Definition rg_has_pre_flag (words : list string) : bool :=
  match words with
  | [] => false
  | w :: _ =>
      bool_decide (w = "rg") && existsb (λ w, bool_decide (w = "--pre") || starts_with "--pre=" w) words
  end.

Definition matches_command_prefix (cmd pattern : string) : bool :=
  bool_decide (cmd = pattern) || starts_with (pattern +:+ " ") cmd.

Definition SAFE_PREFIXES : list string :=
  ["ls"; "cat"; "pwd"; "date"; "git status"; "git branch"; "git log"; "git diff"; "git ls-files"; "git show";
   "git rev-parse"; "cargo check"; "whoami"; "hostname"; "uptime"; "grep"; "rg"; "kubectl get"; "kubectl logs";
   "kubectl describe"; "ps"; "bin/explorer ls"; "head"; "tail"; "wc"; "sort"; "uniq"; "tr"; "cut"].
Definition is_safe_command_words_str (cmd : string) : bool := existsb (matches_command_prefix cmd) SAFE_PREFIXES.
Definition is_safe_command_words (words : list string) : bool :=
  negb (bool_decide (words = [])) && negb (rg_has_pre_flag words) && is_safe_command_words_str (join " " words).

Definition ALWAYS_SAFE_COMMANDS : list string :=
  ["ls"; "cat"; "pwd"; "date"; "whoami"; "hostname"; "uptime"; "ps"; "git status"; "git branch"; "git log"; "git diff";
   "git ls-files"; "git show"; "git rev-parse"; "grep"; "rg"; "cargo check"; "kubectl get"; "kubectl logs";
   "kubectl describe"; "bin/explorer ls"].
Definition is_always_safe_command_words (words : list string) : bool :=
  negb (bool_decide (words = [])) && negb (rg_has_pre_flag words) &&
  existsb (matches_command_prefix (join " " words)) ALWAYS_SAFE_COMMANDS.

(** The words from the third on while they are flags. *)
Fixpoint leading_flags (words : list string) : nat :=
  match words with w :: rest => if starts_with "-" w then S (leading_flags rest) else 0 | [] => 0 end.

Definition default_always_allow_scope (words : list string) : nat :=
  match words with
  | [] => 0
  | w :: _ =>
      let wide := (length words `min` 2) + leading_flags (drop (length words `min` 2) words) in
      if is_safe_command_words words then
        if is_safe_command_words_str w then 1
        else if (2 <=? length words) && is_safe_command_words_str (join " " (take 2 words)) then 2
        else wide
      else wide
  end.

Definition DANGEROUS_PREFIXES : list string :=
  ["rm"; "chmod"; "chown"; "chgrp"; "chattr"; "pkill"; "kill"; "killall"; "git push"].
Definition is_dangerous_command_words (words : list string) : bool :=
  negb (bool_decide (words = [])) && existsb (matches_command_prefix (join " " words)) DANGEROUS_PREFIXES.

Inductive SegmentEvaluation : Type :=
| AutoAllow (via_session_grant : bool)
| SegmentReject (reason : string)
| NeedsPrompts (segments : list string) (any_dangerous : bool)
| Unparseable.

Section Segments.
Context `{BashParser} `{HashOrder}.

Definition disallowed_by (state : PermissionState) (s : string) : option string :=
  snd <$> list_find (λ d, matches_command_prefix s d = true) (walked (disallowed_bash_commands state)).
Definition granted (state : PermissionState) (s : string) : bool :=
  existsb (matches_command_prefix s) (walked (allowed_bash_commands state)).

Definition quoted_backtick (s : string) : string := "`" +:+ s +:+ "`".

Fixpoint segments_loop (state : PermissionState) (honor_safe_lists : bool) (segments : list PlainCommand)
    (needs_prompt : list string) (any_dangerous via_session_grant : bool) : SegmentEvaluation :=
  match segments with
  | [] => if bool_decide (needs_prompt = []) then AutoAllow via_session_grant else NeedsPrompts needs_prompt any_dangerous
  | parsed :: segments =>
      let ws := unwrap_wrappers (words parsed) in
      if is_setup_command ws then segments_loop state honor_safe_lists segments needs_prompt any_dangerous via_session_grant
      else
        let s := join " " ws in
        match disallowed_by state s with
        | Some d => SegmentReject ("User previously rejected " +:+ quoted_backtick d +:+ " for this session")
        | None =>
            if is_dangerous_command_words ws
            then segments_loop state honor_safe_lists segments (needs_prompt ++ [s]) true via_session_grant
            else
              let matched_safe := honor_safe_lists && (is_safe_command_words ws || is_always_safe_command_words ws) in
              if granted state s || matched_safe
              then segments_loop state honor_safe_lists segments needs_prompt any_dangerous
                     (via_session_grant || granted state s)
              else segments_loop state honor_safe_lists segments (needs_prompt ++ [s]) any_dangerous via_session_grant
        end
  end.

Definition evaluate_bash_segments_inner (cmd : string) (state : PermissionState) (honor_safe_lists : bool)
  : SegmentEvaluation :=
  match all_commands_from_script cmd with
  | None => Unparseable
  | Some segments => segments_loop state honor_safe_lists segments [] false false
  end.
Definition evaluate_bash_segments (cmd : string) (state : PermissionState) : SegmentEvaluation :=
  evaluate_bash_segments_inner cmd state true.

Definition persisted_bash_auto_allows (state : PermissionState) (cmd : string) (yolo_pin : option string) : bool :=
  (allow_bash_execute state && bool_decide (yolo_pin = None)) || bool_decide (cmd ∈ allowed_bash_commands state).

Record BashGrantOpts : Type := MkGrantOpts {
  honor_safe_lists : bool;
  allow_blanket : bool;
  conservative_blanket : bool;
}.
Definition PRE_CLASSIFIER : BashGrantOpts := MkGrantOpts true true true.
Definition ASK_FLOOR_REMEMBER : BashGrantOpts := MkGrantOpts false false false.
Definition post_classify (auto_forced_prompt : bool) : BashGrantOpts := MkGrantOpts true (negb auto_forced_prompt) false.

Definition grant_allow (reason : string) : option (Dec.Decision * string) := Some (Dec.Allow, reason).

Definition bash_grant_pre_decision (cmd : string) (state : PermissionState) (yolo_pin : option string)
    (opts : BashGrantOpts) : option (Dec.Decision * string) :=
  match evaluate_bash_segments_inner cmd state (honor_safe_lists opts) with
  | SegmentReject reason => Some (Dec.Reject reason, Reasons.SESSION_DENY)
  | AutoAllow via => grant_allow (if via then Reasons.SESSION_GRANT else Reasons.SAFE_COMMAND)
  | NeedsPrompts _ any_dangerous =>
      if negb (allow_blanket opts) then None
      else if any_dangerous && conservative_blanket opts then None
      else if persisted_bash_auto_allows state cmd yolo_pin then grant_allow Reasons.SESSION_GRANT else None
  | Unparseable =>
      if negb (allow_blanket opts) then None
      else
        let allowed :=
          if conservative_blanket opts then bool_decide (cmd ∈ allowed_bash_commands state)
          else persisted_bash_auto_allows state cmd yolo_pin in
        if allowed then grant_allow Reasons.SESSION_GRANT else None
  end.

Context `{PermissionLibs}.

(** The grants for a URL; [granted_reason] is the reason a remembered domain gives. *)
Definition web_fetch_grant (url : string) (state : PermissionState) (matcher : DomainMatcher) (granted_reason : string)
  : option (Dec.Decision * string) :=
  parsed ← url_parse url;
  match domain_check matcher parsed with
  | None => grant_allow Reasons.STATIC_ALLOWLIST
  | Some _ =>
      host ← host_str parsed;
      if bool_decide (normalize_domain host ∈ allowed_web_fetch_domains state) then grant_allow granted_reason else None
  end.

Definition session_grant_pre_decision (access : AK.AccessKind Json) (state : PermissionState)
    (allow_edits_for_session : bool) (matcher : DomainMatcher) (yolo_pin : option string)
  : option (Dec.Decision * string) :=
  match access with
  | AK.MCPTool name _ => (λ d, (d, Reasons.SESSION_GRANT)) <$> mcp_pre_decision name state false false
  | AK.WebFetch url => web_fetch_grant url state matcher Reasons.SESSION_GRANT
  | AK.Edit _ => if allow_edits_for_session then grant_allow Reasons.SESSION_GRANT else None
  | AK.Bash cmd => bash_grant_pre_decision cmd state yolo_pin PRE_CLASSIFIER
  | AK.Read _ | AK.Grep _ _ | AK.WebSearch _ => None
  end.

End Segments.
End Commands.

(** * What the segments of a script decide *)

Module Export GrantLaws.
Section Laws.
Context `{BashParser} `{HashOrder}.
Context (state : PermissionState) (honor : bool).

(** A segment as it is judged: its words behind the wrappers. *)
Definition judged_words (p : PlainCommand) : list string := unwrap_wrappers (words p).
Definition judged_text (p : PlainCommand) : string := join " " (judged_words p).

Definition is_disallowed (p : PlainCommand) : Prop :=
  is_setup_command (judged_words p) = false ∧
  ∃ d, d ∈ disallowed_bash_commands state ∧ matches_command_prefix (judged_text p) d = true.
Definition is_dangerous (p : PlainCommand) : bool :=
  negb (is_setup_command (judged_words p)) && is_dangerous_command_words (judged_words p).
Definition has_grant (p : PlainCommand) : Prop :=
  ∃ a, a ∈ allowed_bash_commands state ∧ matches_command_prefix (judged_text p) a = true.
Definition is_safe (p : PlainCommand) : Prop :=
  honor = true ∧ (is_safe_command_words (judged_words p) = true ∨ is_always_safe_command_words (judged_words p) = true).
(** A segment that passes without a question. *)
Definition is_fine (p : PlainCommand) : Prop :=
  is_setup_command (judged_words p) = true ∨
  (is_dangerous_command_words (judged_words p) = false ∧ (has_grant p ∨ is_safe p)).

Lemma disallowed_by_spec s d : disallowed_by state s = Some d →
  d ∈ disallowed_bash_commands state ∧ matches_command_prefix s d = true.
Proof.
  unfold disallowed_by. intros ([i d'] & E & [= ->])%fmap_Some. apply list_find_Some in E as (E & Hm & _).
  split; [|done]. apply walked_spec. by eapply list_elem_of_lookup_2.
Qed.
Lemma disallowed_by_None s : disallowed_by state s = None →
  ∀ d, d ∈ disallowed_bash_commands state → matches_command_prefix s d = false.
Proof.
  unfold disallowed_by. intros E%fmap_None d Hd%walked_spec. apply list_find_None in E. rewrite Forall_forall in E.
  specialize (E d Hd). by apply not_true_is_false.
Qed.
Lemma granted_spec s : granted state s = true ↔ ∃ a, a ∈ allowed_bash_commands state ∧ matches_command_prefix s a = true.
Proof. unfold granted. rewrite existsb_exists. setoid_rewrite <-walked_spec. setoid_rewrite list_elem_of_In. naive_solver. Qed.

(** What the loop says when [dis] tells that a segment is disallowed, [fine] that all
    pass and [dg] that one is dangerous. *)
Definition loop_says (r : SegmentEvaluation) (needs : list string) (dis fine : Prop) (dg : bool) : Prop :=
  match r with
  | SegmentReject _ => dis
  | AutoAllow _ => ¬ dis ∧ needs = [] ∧ fine
  | NeedsPrompts _ d => ¬ dis ∧ (needs ≠ [] ∨ ¬ fine) ∧ d = dg
  | Unparseable => False
  end.

#[local] Instance loop_says_proper : Proper (eq ==> eq ==> iff ==> iff ==> eq ==> iff) loop_says.
Proof. intros r ? <- needs ? <- d d' Hd f f' Hf g ? <-. destruct r; cbn; tauto. Qed.

(** A segment that passes changes nothing; one that needs a question leaves its mark. *)
Lemma says_passes r needs (q f dis fine : Prop) dg : ¬ q → f → loop_says r needs dis fine dg →
  loop_says r needs (q ∨ dis) (f ∧ fine) dg.
Proof. destruct r; cbn; tauto. Qed.
Lemma says_asks r needs s (q f dis fine : Prop) dg : ¬ q → ¬ f → loop_says r (needs ++ [s]) dis fine dg →
  loop_says r needs (q ∨ dis) (f ∧ fine) dg.
Proof. destruct r; cbn; try tauto. intros _ _ (_ & E & _). by destruct needs. Qed.

Lemma segments_loop_spec segments : ∀ needs dangerous via,
  loop_says (segments_loop state honor segments needs dangerous via) needs (Exists is_disallowed segments)
    (Forall is_fine segments) (dangerous || existsb is_dangerous segments).
Proof.
  induction segments as [|p segments IH]; intros needs dangerous via.
  - cbn [segments_loop existsb]. rewrite orb_false_r, Exists_nil. case_bool_decide as En; cbn; [|tauto]. split_and!; [tauto|done|constructor].
  - rewrite Exists_cons, Forall_cons. cbn [segments_loop existsb]. unfold is_disallowed at 1, is_fine at 1, is_dangerous at 1.
    fold (judged_words p). destruct (is_setup_command (judged_words p)) eqn:Es; cbn [negb andb orb].
    { apply says_passes; [naive_solver|by left|apply IH]. }
    fold (judged_text p). destruct (disallowed_by state (judged_text p)) as [d|] eqn:Ed.
    { left. split; [done|]. exists d. by apply disallowed_by_spec. }
    assert (Hd : ¬ (false = false ∧ ∃ d, d ∈ disallowed_bash_commands state ∧ matches_command_prefix (judged_text p) d = true)).
    { intros [_ (d & Hd & Hm)]. by rewrite (disallowed_by_None _ Ed d Hd) in Hm. }
    destruct (is_dangerous_command_words (judged_words p)) eqn:Edg; cbn [orb].
    { rewrite orb_true_r. by apply (says_asks _ _ (judged_text p)); [done|naive_solver|apply (IH _ true)]. }
    assert (Hg : granted state (judged_text p) = true ↔ has_grant p) by apply granted_spec.
    assert (Hs : honor && (is_safe_command_words (judged_words p) || is_always_safe_command_words (judged_words p)) = true
      ↔ is_safe p) by (unfold is_safe; rewrite andb_true_iff, orb_true_iff; done).
    destruct (granted state (judged_text p) || _) eqn:Eok.
    + apply orb_true_iff in Eok. rewrite Hg, Hs in Eok. apply says_passes; [done|by right|apply IH].
    + apply orb_false_iff in Eok as [E1 E2]. rewrite <-not_true_iff_false, Hg in E1. rewrite <-not_true_iff_false, Hs in E2.
      apply (says_asks _ _ (judged_text p)); [done|naive_solver|apply IH].
Qed.

(** Every segment of a chained script counts: the script is rejected exactly when one
    of them begins with what the user excluded, passes without a question exactly when
    none does and each is a setup command or is not dangerous and was granted or is on
    the lists of safe commands, and is otherwise brought before the user, marked as
    dangerous exactly when a segment is. *)
Theorem segments_exact cmd segments : all_commands_from_script cmd = Some segments →
  match evaluate_bash_segments_inner cmd state honor with
  | SegmentReject _ => Exists is_disallowed segments
  | AutoAllow _ => ¬ Exists is_disallowed segments ∧ Forall is_fine segments
  | NeedsPrompts _ dangerous =>
      ¬ Exists is_disallowed segments ∧ ¬ Forall is_fine segments ∧ dangerous = existsb is_dangerous segments
  | Unparseable => False
  end.
Proof.
  intros E. unfold evaluate_bash_segments_inner. rewrite E. pose proof (segments_loop_spec segments [] false false) as Hs.
  destruct (segments_loop _ _ _ _ _ _); cbn in *; naive_solver.
Qed.

End Laws.

Section Grants.
Context `{BashParser} `{HashOrder}.

(** A script with a dangerous segment is allowed by no grant before the classifier and
    by none under an ask rule; behind the classifier only by the grant of this very
    script or of all scripts. *)
Theorem dangerous_needs_grant cmd segments state pin opts reason :
  all_commands_from_script cmd = Some segments → existsb is_dangerous segments = true →
  bash_grant_pre_decision cmd state pin opts = Some (Dec.Allow, reason) →
  allow_blanket opts = true ∧ conservative_blanket opts = false ∧
  (cmd ∈ allowed_bash_commands state ∨ (allow_bash_execute state = true ∧ pin = None)).
Proof.
  intros E Hd. unfold bash_grant_pre_decision, evaluate_bash_segments_inner. rewrite E.
  pose proof (segments_loop_spec state (honor_safe_lists opts) segments [] false false) as Hs.
  destruct (segments_loop _ _ _ _ _ _) as [via| |l d|]; try done.
  - destruct Hs as (_ & _ & Hf). apply existsb_exists in Hd as (p & Hp%list_elem_of_In & Hd). rewrite Forall_forall in Hf.
    specialize (Hf p Hp). unfold is_fine, is_dangerous in *. to_prop. naive_solver congruence.
  - destruct Hs as (_ & _ & ->). rewrite Hd. destruct (allow_blanket opts); [|done]. destruct (conservative_blanket opts); [done|].
    cbn. unfold persisted_bash_auto_allows. destruct (_ || _) eqn:Ep; [|done]. intros _. to_prop.
    split_and!; [done..|]. destruct Ep as [Ep|Ep]; to_prop; [by right|by left].
Qed.

End Grants.

(** ** The scope of a remembered command *)

Lemma prefix_spec cmd p : matches_command_prefix cmd p = true ↔ cmd = p ∨ ∃ t, cmd = p +:+ " " +:+ t.
Proof.
  unfold matches_command_prefix. rewrite orb_true_iff, bool_decide_eq_true, starts_with_spec.
  f_equiv. split; intros [t ->]; exists t; by rewrite app_assoc_str.
Qed.

Lemma safe_extends cmd p : is_safe_command_words_str p = true → matches_command_prefix cmd p = true →
  is_safe_command_words_str cmd = true.
Proof.
  unfold is_safe_command_words_str. rewrite !existsb_exists. intros (q & Hq & Hp) Hc. exists q. split; [done|].
  apply prefix_spec in Hp, Hc. apply prefix_spec. destruct Hc as [->|[t ->]], Hp as [->|[u ->]]; [by left|by right; eauto..|].
  right. exists (u +:+ " " +:+ t). by rewrite !app_assoc_str.
Qed.

(** The default scope of "always allow" takes at least one word of a command and no
    more than it has; for a safe command whose safe prefix it keeps, everything it
    grants is on the safe list by its words. *)
Theorem default_scope_grants words : words ≠ [] →
  let n := default_always_allow_scope words in
  1 ≤ n ≤ length words ∧
  (is_safe_command_words words = true → is_safe_command_words_str (join " " (take n words)) = true → ∀ cmd,
   matches_command_prefix cmd (join " " (take n words)) = true → is_safe_command_words_str cmd = true).
Proof.
  intros Hw n. split; [|intros _ Hs cmd Hc; by eapply safe_extends]. subst n. destruct words as [|w ws]; [done|].
  assert (Hl : ∀ l, leading_flags l ≤ length l).
  { induction l as [|x l IH]; cbn; [lia|]. destruct (starts_with "-" x); lia. }
  specialize (Hl (drop (length (w :: ws) `min` 2) (w :: ws))). rewrite length_drop in Hl.
  unfold default_always_allow_scope. cbn [length] in *.
  repeat case_match; try lia. apply andb_prop in H1 as [H1 _]. apply Nat.leb_le in H1. lia.
Qed.

End GrantLaws.

(** * Scenes *)

Module GrantScene.
#[local] Existing Instance PolicyScene.scene_libs.
#[local] Existing Instance PolicyScene.scene_bash.
#[local] Program Instance scene_order : HashOrder := {| walked := elements |}.
Next Obligation. intros s x. apply elem_of_elements. Qed.

Definition with_commands (allowed disallowed : list string) : PermissionState :=
  MkPermState EP.Ask false (list_to_set allowed) (list_to_set disallowed) ∅ ∅ ∅.

(** A script is sourced without a question and whatever the user excluded: [source] and
    [.] count as setup. *)
Theorem sourced_script_unasked :
  evaluate_bash_segments "source ./setup.sh" (with_commands [] ["source"]) = AutoAllow false.
Proof. by vm_compute. Qed.

(** "Always allow" on a safe [rg] keeps the word [rg] alone, which then also grants the
    preprocessor that the safe list leaves out. *)
Theorem safe_scope_grants_preprocessor :
  let safe := ["rg"; "needle"] in let hostile := "rg --pre ./x needle" in
  let granted := with_commands [join " " (take (default_always_allow_scope safe) safe)] [] in
  evaluate_bash_segments hostile PermissionState_default = NeedsPrompts [hostile] false ∧
  evaluate_bash_segments hostile granted = AutoAllow true.
Proof. by vm_compute. Qed.

Lemma segments_exact_witness : ¬ Forall (is_fine PermissionState_default true) (default [] (all_commands_from_script "ls | rm x")).
Proof.
  pose proof (segments_exact PermissionState_default true "ls | rm x" _ eq_refl) as Hs.
  by destruct Hs as (_ & Hs & _).
Defined.

Lemma dangerous_needs_grant_witness :
  "rm x" ∈ allowed_bash_commands (with_commands ["rm x"] []) ∨
  allow_bash_execute (with_commands ["rm x"] []) = true ∧ Some "managed" = None.
Proof.
  refine (proj2 (proj2 (dangerous_needs_grant "rm x" _ (with_commands ["rm x"] []) (Some "managed") (post_classify false)
    Reasons.SESSION_GRANT eq_refl _ _))); by vm_compute.
Defined.

Lemma default_scope_grants_witness :
  is_safe_command_words_str "git status --short" = true.
Proof.
  apply (proj2 (default_scope_grants ["git"; "status"; "-s"] ltac:(done))); by vm_compute.
Defined.

End GrantScene.
