(* ===== verification/PermissionAuto.v ===== *)
(** The auto mode of permissions (crate [ainxt-workspace], [permission/auto_mode.rs]):
    what is allowed without asking, the heuristic that reads a shell command, the
    conversation a model is shown, and the verdict read from its reply. *)
From stdpp Require Import list gmap sets strings.
From S2P Require Import Prelude RustStr StrSearch PolicyTypes ShellWords ShellTree EditHints Permission PermissionGrants.

Module CV.
Inductive ClassifierVerdict : Type := Allow | Block | Unavailable.
End CV.
#[export] Instance ClassifierVerdict_eq_dec : EqDecision CV.ClassifierVerdict.
Proof. solve_decision. Defined.

(** What the code uses of the crate [serde_json]. *)
Class JsonValues `{PermissionLibs} : Type := {
  json_from_str : string → option Json;
  json_get : Json → string → option Json;
  json_as_bool : Json → option bool;
  json_as_str : Json → option string;
  json_as_i64 : Json → option Z;
  json_string : string → Json;
  json_array : list Json → Json;
  json_object : list (string * Json) → Json;
}.

(** * The conversation the classifier sees *)

Module Export Turns.

Inductive ClassifierMessageRole : Type := MessageSystem | MessageUser.
Inductive ClassifierPromptType : Type := Full | NoUserToolPrefix | BareInstructions | JustCommand.
Record ClassifierMessage : Type := MkMessage { message_role : ClassifierMessageRole; message_text : string }.

Inductive ClassifierTurn : Type :=
| UserText (text : string)
| AssistantToolUse (tool args : string)
| PermissionDecision (tool args : string) (approved : bool).

Definition render (t : ClassifierTurn) : string :=
  match t with
  | UserText text => "User: " +:+ text
  | AssistantToolUse tool args => tool +:+ " " +:+ args
  | PermissionDecision tool args true =>
      "The user was asked before running " +:+ tool +:+ " " +:+ args +:+ " and approved it; it has run once."
  | PermissionDecision tool args false =>
      "The user was asked about running " +:+ tool +:+ " " +:+ args +:+ " and declined it."
  end.

Record ClassifierContext : Type := MkContext { turns : list ClassifierTurn; project_instructions : option string }.
Definition transcript_text (c : ClassifierContext) : string := join newline (render <$> turns c).

End Turns.

(** * The shell heuristic *)

Module Export Routine.

Definition ROUTINE_PREFIXES : list string :=
  ["cargo "; "git status"; "git diff"; "git log"; "git branch"; "git add"; "git commit"; "git checkout";
   "git switch"; "git stash"; "git pull"; "git fetch"; "git show"; "git blame"; "git grep"; "git ls-files";
   "git rev-parse"; "git describe"; "git merge-base"; "git worktree list"; "pytest"; "python "; "python3 ";
   "node "; "rustc "; "rustfmt"; "clippy"; "make "; "cmake "; "cd"; "pushd"; "popd"; "ls"; "pwd"; "echo ";
   "printf "; "cat "; "head "; "tail "; "wc "; "rg "; "grep "; "which "; "type "; "true"; "false"; "test ";
   "sort "; "uniq "; "tr "; "cut "; "diff "; "jq "; "date"; "whoami"; "hostname"; "uname"; "nproc"; "printenv";
   "stat "; "file "; "tree"; "basename "; "dirname "; "realpath "; "readlink "; "strings "; "sleep "; "df ";
   "du "; "ps "; "top"; "htop"; "bazel "; "just "; "go "; "kubectl get"; "kubectl logs"; "kubectl describe";
   "set"].
Definition SAFE_ENV_KEYS : list string :=
  ["CARGO_TERM_COLOR"; "CARGO_TERM_PROGRESS_WHEN"; "RUST_LOG"; "RUST_LOG_STYLE"; "RUST_BACKTRACE";
   "RUST_TEST_THREADS"; "RUST_MIN_STACK"; "NO_COLOR"; "CLICOLOR"; "CLICOLOR_FORCE"; "FORCE_COLOR"; "COLORTERM"].
Definition NPM_SAFE_SUBCOMMANDS : list string :=
  ["install"; "i"; "ci"; "add"; "remove"; "rm"; "uninstall"; "update"; "up"; "upgrade"; "test"; "t"; "run";
   "run-script"; "start"; "build"; "audit"; "list"; "ls"; "ll"; "outdated"; "why"; "view"; "info"; "dedupe";
   "prune"; "version"; "pack"; "config"; "link"; "unlink"; "rebuild"; "store"; "fetch"; "import"].
Definition UV_SAFE_SUBCOMMANDS : list string :=
  ["sync"; "pip"; "lock"; "venv"; "add"; "remove"; "tree"; "export"; "build"; "version"; "python"; "cache";
   "init"; "self"; "help"].
Definition RUSTUP_SAFE_SUBCOMMANDS : list string :=
  ["show"; "toolchain"; "component"; "target"; "default"; "update"; "which"; "doc"; "self"; "completions";
   "set"; "override"].

Definition is_safe_env_key (key : string) : bool := bool_decide (key ∈ SAFE_ENV_KEYS).
Definition is_lone_wrapper (words : list string) : bool := (length words =? 1) && is_wrapper_command words.
Definition is_safe_write_sink (path : string) : bool :=
  bool_decide (path ∈ ["/dev/null"; "/dev/stdout"; "/dev/stderr"]).

Definition find_actions : list string :=
  ["-delete"; "-exec"; "-execdir"; "-ok"; "-okdir"; "-fprint"; "-fprint0"; "-fprintf"; "-fls"].
Definition find_is_read_only (words : list string) : bool := forallb (λ w, negb (bool_decide (w ∈ find_actions))) words.

Definition launched_writes_nonsink (words : list string) : bool :=
  existsb (λ p, negb (is_safe_write_sink p)) (command_words_write_paths words).

(** The arguments of one [env]: an option, or an assignment to a key that is not
    cosmetic, up to the first plain word. *)
Fixpoint env_args_unsafe (args : list string) : bool :=
  match args with
  | [] => false
  | arg :: args =>
      if bool_decide (arg = "--") then false
      else if starts_with "-" arg then true
      else match split_once "="%char arg with
           | Some (key, _) => if is_safe_env_key key then env_args_unsafe args else true
           | None => false
           end
  end.
Fixpoint env_is_unsafe_n (n : nat) (current : list string) : bool :=
  match n with
  | 0 => false
  | S n =>
      if bool_decide ((shell_program_name <$> head current) = Some "env") && env_args_unsafe (drop 1 current) then true
      else match strip_wrapper_command current with Some inner => env_is_unsafe_n n inner | None => false end
  end.
Definition command_env_is_unsafe (words : list string) : bool := env_is_unsafe_n 8 words.

Definition nonflag_tokens (inner : list string) (n : nat) : list string :=
  take n (filter (λ w, starts_with "-" w = false) (drop 1 inner)).

Definition gh_groups : list string := ["pr"; "issue"; "release"; "run"; "workflow"; "repo"; "gist"].
Definition gh_reads : list string := ["view"; "list"; "status"; "checks"; "diff"].
Definition gh_subcommand_is_read_only (inner : list string) : bool :=
  match nonflag_tokens inner 2 with
  | [group; sub] =>
      (bool_decide (group ∈ gh_groups) && bool_decide (sub ∈ gh_reads)) ||
      (bool_decide (group = "auth") && bool_decide (sub = "status"))
  | [one] => bool_decide (one = "status")
  | _ => false
  end.

Definition npm_like (head : string) : bool := bool_decide (head ∈ ["npm"; "pnpm"; "yarn"]).

Definition launcher_subcommand (head : string) (inner : list string) : option string :=
  sub ← inner !! 1;
  Some (if npm_like head && bool_decide (sub = "x") then "exec"
        else if npm_like head && bool_decide (sub = "innit") then "init"
        else sub).

Definition is_remote_launcher (head : string) (inner : list string) : bool :=
  if bool_decide (head = "npx") || bool_decide (head = "uvx") then true
  else if bool_decide (head = "uv") && bool_decide (inner !! 1 = Some "tool") && bool_decide (inner !! 2 = Some "run")
  then true
  else match launcher_subcommand head inner with
       | None => false
       | Some sub =>
           npm_like head &&
           (bool_decide (sub ∈ ["dlx"; "create"; "explore"]) ||
            (bool_decide (sub = "init") && match inner !! 2 with Some a => negb (starts_with "-" a) | None => false end))
       end.

Inductive LaunchTarget : Type := NotLauncher | Inner (words : list string) | Unresolved.

(** The command at [start], which must not be an option. *)
Definition launch_at (inner : list string) (start : nat) : LaunchTarget :=
  match inner !! start with
  | Some tok => if starts_with "-" tok then Unresolved else Inner (drop start inner)
  | None => Unresolved
  end.
Definition explicit_launch_target (head : string) (inner : list string) : LaunchTarget :=
  match launcher_subcommand head inner with
  | None => NotLauncher
  | Some sub =>
      if bool_decide (head = "uv") && bool_decide (sub = "run") then launch_at inner 2
      else if bool_decide (head = "rustup") && bool_decide (sub = "run") then
        match inner !! 2 with
        | Some toolchain => if starts_with "-" toolchain then Unresolved else launch_at inner 3
        | None => Unresolved
        end
      else if npm_like head && bool_decide (sub = "exec") then
        launch_at inner (if bool_decide (inner !! 2 = Some "--") then 3 else 2)
      else NotLauncher
  end.

Definition package_managers : list string := ["uv"; "uvx"; "npm"; "npx"; "pnpm"; "yarn"; "rustup"].

Definition safe_subcommand (prog : string) (sub : option string) : bool :=
  match sub with
  | None => false
  | Some s =>
      if npm_like prog then bool_decide (s ∈ NPM_SAFE_SUBCOMMANDS)
      else if bool_decide (prog = "uv") then bool_decide (s ∈ UV_SAFE_SUBCOMMANDS)
      else if bool_decide (prog = "rustup") then bool_decide (s ∈ RUSTUP_SAFE_SUBCOMMANDS)
      else false
  end.

(** [git grep] with a pager to open files in, abbreviated options included. *)
Definition git_grep_opens (inner : list string) : bool :=
  match inner !! 1 with
  | Some s =>
      bool_decide (to_ascii_lowercase s = "grep") &&
      existsb (λ w,
        let flag := split_first (λ a, bool_decide (a = "="%char)) w in
        starts_with "-O" w || (starts_with "--o" flag && starts_with flag "--open-files-in-pager")) inner
  | None => false
  end.
Definition tree_writes (inner : list string) : bool :=
  existsb (λ w, (starts_with "-" w && negb (starts_with "--" w) && contains_byte "o"%char w) || starts_with "--output" w) inner.

(** The checks behind the package managers. *)
Definition plain_command_is_routine (head : string) (inner : list string) : bool :=
  if bool_decide (head = "find") then find_is_read_only inner
  else if bool_decide (head = "git") && git_grep_opens inner then false
  else if bool_decide (head = "tree") && tree_writes inner then false
  else if bool_decide (head = "gh") then gh_subcommand_is_read_only inner
  else
    let joined := to_ascii_lowercase (join " " inner) in
    existsb (λ p, matches_command_prefix joined (trim p)) ROUTINE_PREFIXES.

(** [package_manager_subcommand_is_routine]; [routine] judges the command that an
    explicit launcher runs. *)
Definition package_manager_subcommand_is_routine (routine : list string → bool) (prog : string) (inner : list string)
  : option bool :=
  if negb (bool_decide (prog ∈ package_managers)) then None
  else if is_remote_launcher prog inner then Some false
  else match explicit_launch_target prog inner with
       | Unresolved => Some false
       | Inner launched =>
           Some (negb (command_env_is_unsafe launched) && negb (launched_writes_nonsink launched) && routine launched)
       | NotLauncher => Some (safe_subcommand prog (launcher_subcommand prog inner))
       end.

Fixpoint routine_n (fuel : nat) (words : list string) : bool :=
  match fuel with
  | 0 => false
  | S fuel =>
      let inner := unwrap_wrappers words in
      match inner with
      | [] => true
      | first :: _ =>
          if is_lone_wrapper inner then true
          else
            let head := to_ascii_lowercase (shell_program_name first) in
            match package_manager_subcommand_is_routine (routine_n fuel) head inner with
            | Some routine => routine
            | None => plain_command_is_routine head inner
            end
      end
  end.
(** Every launcher takes at least two words off. *)
Definition bash_command_is_routine (words : list string) : bool := routine_n (S (length words)) words.

Section Bash.
Context `{BashParser}.

Definition assignment_key (node : Tree) (src : string) : string :=
  match head (omap (λ c, if bool_decide (kind c = "variable_name") then utf8_text c src else None) (children node)) with
  | Some text => text
  | None => default "" (split_first (λ a, bool_decide (a = "="%char)) <$> utf8_text node src)
  end.

Definition sets_unsafe_env (root : Tree) (src : string) (cmds : list PlainCommand) : bool :=
  existsb (λ n, bool_decide (kind n = "variable_assignment") && negb (is_safe_env_key (assignment_key n src))) (visited root) ||
  existsb (λ c, command_env_is_unsafe (words c)) cmds.

Definition classify_bash (cmd : string) : CV.ClassifierVerdict :=
  match try_parse_shell cmd with
  | None => CV.Block
  | Some tree =>
      match try_parse_word_only_commands_sequence tree cmd with
      | None => CV.Block
      | Some cmds =>
          if sets_unsafe_env tree cmd cmds then CV.Block
          else if existsb (λ p, negb (is_safe_write_sink p)) (command_write_paths_in_tree tree cmd) then CV.Block
          else if negb (bool_decide (cmds = [])) && forallb (λ c, bash_command_is_routine (words c)) cmds then CV.Allow
          else CV.Block
      end
  end.

End Bash.
End Routine.

(** * The verdict on a tool call *)

Module Export Heuristic.

Definition DANGEROUS_PATTERNS : list string :=
  ["rm -rf /"; "rm -rf /*"; "mkfs"; "dd if="; ":(){ :|:& };:"; "curl | sh"; "curl|sh"; "curl | bash";
   "curl|bash"; "wget | sh"; "wget|sh"; "wget | bash"; "wget|bash"; "chmod 777"; "chmod -r 777";
   "chmod +x /tmp"; "base64 -d"; "base64 --decode"; "nc -e"; "ncat -e"; "/dev/tcp/"; "shutdown"; "reboot";
   "useradd"; "userdel"; "passwd "; "chown -r /"; "iptables -f"; "kill -9 1"; "sudo rm"; "sudo dd";
   "sudo mkfs"; "exfiltrat"; "steal credential"; "send secrets"].
Definition HOSTILE_INTENT : list string :=
  ["delete all files"; "wipe the disk"; "exfiltrate"; "steal secrets"; "send my credentials"; "ignore safety";
   "bypass permission"].
Definition fetchers : list string := ["curl"; "wget"; "fetch"].
Definition into_shell : list string := ["| sh"; "|sh"; "| bash"; "|bash"; "| zsh"; "|zsh"].

(** What is scanned: the tool, the detail and the conversation in lower case. *)
Definition scanned (tool_name : string) (access_detail : option string) (context : ClassifierContext) : string :=
  to_ascii_lowercase tool_name +:+ " " +:+ to_ascii_lowercase (default "" access_detail) +:+ " " +:+
  to_ascii_lowercase (transcript_text context).

Section Sync.
Context `{BashParser} `{PermissionLibs}.

Definition classify_access (access : AK.AccessKind Json) : CV.ClassifierVerdict :=
  match access with
  | AK.Bash cmd => classify_bash cmd
  | AK.WebFetch _ => CV.Block
  | AK.Edit _ | AK.MCPTool _ _ => CV.Block
  | AK.Read _ | AK.Grep _ _ | AK.WebSearch _ => CV.Allow
  end.

Definition classify_sync (tool_name : string) (access : AK.AccessKind Json) (access_detail : option string)
    (context : ClassifierContext) : CV.ClassifierVerdict :=
  let tool := to_ascii_lowercase tool_name in
  let transcript := to_ascii_lowercase (transcript_text context) in
  let blob := scanned tool_name access_detail context in
  if contains "ask_user" tool || contains "askuserquestion" tool then CV.Block
  else if marked DANGEROUS_PATTERNS blob then CV.Block
  else if marked fetchers blob && marked into_shell blob then CV.Block
  else if marked HOSTILE_INTENT transcript then CV.Block
  else classify_access access.

Definition access_requires_user_interaction (tool_name : string) (access : AK.AccessKind Json) : bool :=
  let t := to_ascii_lowercase tool_name in
  if contains "ask_user" t || contains "askuserquestion" t || contains "user_question" t ||
     bool_decide (t = "ask_user_question") then true
  else match access with
       | AK.MCPTool name _ =>
           let n := to_ascii_lowercase name in
           contains "ask_user" n || (contains "confirm" n && contains "human" n)
       | _ => false
       end.

Definition is_auto_mode_allowlisted_access (access : AK.AccessKind Json) : bool :=
  match access with AK.Read _ | AK.Grep _ _ | AK.WebSearch _ => true | _ => false end.

Definition auto_mode_tool_names : list string :=
  ["todo_write"; "TodoWrite"; "task_output"; "TaskOutput"; "wait_tasks"; "WaitTasks"; "ask_user_question";
   "AskUserQuestion"; "enter_plan_mode"; "EnterPlanMode"; "exit_plan_mode"; "ExitPlanMode"; "switch_mode"; "SwitchMode";
   "create_plan"; "CreatePlan"; "update_plan"; "UpdatePlan"; "list_mcp_resources"; "ListMcpResources";
   "read_mcp_resource"; "ReadMcpResource"; "tool_search"; "ToolSearch"; "sleep"; "Sleep"].
Definition is_auto_mode_allowlisted_tool_name (tool_name : string) : bool := bool_decide (tool_name ∈ auto_mode_tool_names).

Inductive AutoFastPath : Type := FastAllow | FastPromptUser | FastClassify.

Definition auto_mode_fast_path (access : AK.AccessKind Json) (tool_name : string) (requires_user_interaction : bool)
  : AutoFastPath :=
  if requires_user_interaction then FastPromptUser
  else if is_auto_mode_allowlisted_access access || is_auto_mode_allowlisted_tool_name tool_name then FastAllow
  else match access with
       | AK.Edit _ => FastAllow
       | AK.Bash cmd => if bool_decide (trim cmd ∈ ["true"; ":"; "false"]) then FastAllow else FastClassify
       | _ => FastClassify
       end.

End Sync.
End Heuristic.

(** * The model *)

Module Export Model.

Definition AUTO_MODE_CLASSIFIER_SYSTEM_PROMPT : string :=
"You review a command that a coding agent wants to run on its user's machine. Decide whether it can run now (shouldBlock=false) or must wait for the user's approval (shouldBlock=true).

Let it run if everything it does is ordinary development work on this machine: building, testing, searching, and editing project files; reading the user's own files, logs, configuration, and environment; scratch work in temp directories; read-only queries of the team's own services, dashboards, and internal APIs made from this machine (using stored credentials for read access is normal); git reads and commits (status, diff, log, show, add, commit, amending the latest local commit, switching branches). A chain of safe steps, or a harmless no-op like `true`, is still safe. A local VM on this machine counts as this machine.

Make it wait if any part reaches beyond the machine or cannot be undone: publishing anything (git push, PR or review edits and comments, posts, messages), opening shells on or changing other machines (SSH sessions, kubectl exec, cluster mutations, production services), rewriting or discarding saved work (rebase, hard reset, force-clean, force-deleting branches or worktrees), extracting credentials or secrets, looking up people's private data (even read-only), destroying files outside scratch space, downloading and running untrusted code, or probing systems for access.

Judge by what the command actually does — not by scary names in paths or strings. If you cannot tell what it does, make it wait.

Decisions the user has already made in this conversation are part of their intent. When they have seen an action and approved it, running it again without asking is fine as long as repeating it changes nothing new beyond this machine; the same goes for tamer steps in the same piece of work. But they approved the run they saw, not a standing policy: anything that would set off another event outside this machine — publish again, send again, deploy again — deserves its own ask each time, even when the command is word-for-word what they approved, and nothing riskier than what they approved inherits their yes. When they have declined something, do not wave through that or anything close to it.
".

Definition quoted (s : string) : string := quote_str +:+ s +:+ quote_str.
Definition CLASSIFIER_JSON_INSTRUCTION : string :=
  "Respond with JSON only: {" +:+ quoted "thinking" +:+ ":" +:+ quoted "..." +:+ "," +:+ quoted "shouldBlock" +:+
  ":true|false," +:+ quoted "reason" +:+ ":" +:+ quoted "..." +:+ "}".

Definition MCP_ACCESS_DETAIL_MAX_LEN : nat := 1024.
Definition CLASSIFIER_TURN_MAX_LEN : nat := 400.

(** [truncate_line] of [util/truncate.rs]. *)
Definition truncate_line (line : string) (max_chars : nat) : string :=
  if String.length line <=? max_chars then line
  else
    let char_count := length (chars line) in
    if char_count <=? max_chars then line
    else concat_str (take max_chars (chars line)) +:+ " [... truncated (" +:+ show_nat char_count +:+ " chars total)]".

Section Model.
Context `{JsonValues}.

Definition mcp_access_detail (name : string) (input : Json) : string :=
  if json_is_null input then name
  else truncate_line (name +:+ " " +:+ json_to_string input) MCP_ACCESS_DETAIL_MAX_LEN.

Definition permission_decision_args (access : AK.AccessKind Json) (access_detail : option string) : string :=
  let raw :=
    match access with
    | AK.Bash cmd => json_to_string (json_object [("command", json_string cmd)])
    | _ => default "(none)" access_detail
    end in
  truncate_str_with_marker raw CLASSIFIER_TURN_MAX_LEN.

Definition access_kind_str (access : AK.AccessKind Json) : string :=
  match access with
  | AK.Read _ => "read"
  | AK.Grep _ _ => "grep"
  | AK.Edit _ => "edit"
  | AK.Bash _ => "bash"
  | AK.MCPTool _ _ => "mcp"
  | AK.WebFetch _ => "web_fetch"
  | AK.WebSearch _ => "web_search"
  end.

Definition build_classifier_messages (tool_name : string) (access : AK.AccessKind Json) (access_detail : option string)
    (ctx : ClassifierContext) (prompt_type : ClassifierPromptType) : list ClassifierMessage :=
  let agents_md :=
    match prompt_type, project_instructions ctx with
    | (Full | NoUserToolPrefix), Some agents_md =>
        [MkMessage MessageUser
           ("The following is the user's AGENTS.md configuration. These are instructions the user provided to the agent and should be treated as part of the user's intent when evaluating actions."
            +:+ newline +:+ newline +:+ "<project_instructions>" +:+ newline +:+ agents_md +:+ newline
            +:+ "</project_instructions>")]
    | _, _ => []
    end in
  let proposed_action :=
    "tool: " +:+ tool_name +:+ newline +:+ "access_kind: " +:+ access_kind_str access +:+ newline +:+
    "detail: " +:+ default "(none)" access_detail in
  let asked := "## Proposed action" +:+ newline +:+ proposed_action +:+ newline +:+ newline +:+ CLASSIFIER_JSON_INSTRUCTION in
  let trailing :=
    match prompt_type with
    | Full =>
        let transcript :=
          if bool_decide (length (turns ctx) = 0) then "(no recent conversation context)" else transcript_text ctx in
        "## Recent conversation" +:+ newline +:+ transcript +:+ newline +:+ newline +:+ asked
    | NoUserToolPrefix | BareInstructions => asked
    | JustCommand => proposed_action
    end in
  MkMessage MessageSystem AUTO_MODE_CLASSIFIER_SYSTEM_PROMPT :: agents_md ++ [MkMessage MessageUser trailing].

Definition verdict_of (b : bool) : CV.ClassifierVerdict := if b then CV.Block else CV.Allow.

(** The verdict of a text that is JSON as a whole. *)
Definition whole_json_verdict (trimmed : string) : option CV.ClassifierVerdict :=
  v ← json_from_str trimmed;
  match b ← json_get v "shouldBlock"; json_as_bool b with
  | Some b => Some (verdict_of b)
  | None => verdict_of <$> (b ← json_get v "should_block"; json_as_bool b)
  end.
(** The verdict of the text from the first brace to the last. *)
Definition embedded_json_verdict (trimmed : string) : option CV.ClassifierVerdict :=
  start ← find "{" trimmed;
  end_ ← rfind "}" trimmed;
  if start <? end_ then
    v ← json_from_str (slice start (S end_) trimmed);
    b ← or_else (json_get v "shouldBlock") (json_get v "should_block");
    verdict_of <$> json_as_bool b
  else None.

Definition terse_verdict (lower : string) : CV.ClassifierVerdict :=
  if contains (quoted "shouldblock" +:+ ": true") lower || contains ("shouldblock" +:+ quote_str +:+ ":true") lower
  then CV.Block
  else if bool_decide (trim lower ∈ ["block"; "blocked"; "deny"; "denied"]) then CV.Block
  else if bool_decide (trim lower ∈ ["allow"; "allowed"; "approve"; "approved"]) then CV.Allow
  else CV.Unavailable.

Definition parse_classifier_model_text (text : string) : CV.ClassifierVerdict :=
  let trimmed := trim text in
  if is_empty trimmed then CV.Unavailable
  else match whole_json_verdict trimmed with
       | Some v => v
       | None =>
           match embedded_json_verdict trimmed with
           | Some v => v
           | None => terse_verdict (to_ascii_lowercase trimmed)
           end
       end.

(** A classifier as the gate sees it. *)
Definition Classifier : Type :=
  string → AK.AccessKind Json → option string → ClassifierContext → CV.ClassifierVerdict.

(** The side queries answer a request with the text of the model, or fail. *)
Record LlmPermissionClassifier : Type := MkLlm {
  classify_text : option (list ClassifierMessage → option string);
  classify_channel : option (list ClassifierMessage → option string);
  prompt_type : ClassifierPromptType;
}.
Definition LlmPermissionClassifier_default : LlmPermissionClassifier := MkLlm None None Full.
Definition has_side_query (c : LlmPermissionClassifier) : bool :=
  bool_decide (is_Some (classify_text c)) || bool_decide (is_Some (classify_channel c)).

Definition model_text (c : LlmPermissionClassifier) (messages : list ClassifierMessage) : option string :=
  match classify_channel c with
  | Some ask => ask messages
  | None => ask ← classify_text c; ask messages
  end.

Context `{BashParser}.

Definition llm_classify (c : LlmPermissionClassifier) : Classifier := λ tool_name access access_detail context,
  let heuristic := classify_sync tool_name access access_detail context in
  if bool_decide (heuristic = CV.Allow) then CV.Allow
  else
    let messages := build_classifier_messages tool_name access access_detail context (prompt_type c) in
    match model_text c messages with
    | Some text =>
        let v := parse_classifier_model_text text in
        if bool_decide (v = CV.Unavailable) then heuristic else v
    | None => heuristic
    end.
Definition default_auto_mode_classifier : Classifier := llm_classify LlmPermissionClassifier_default.

End Model.
End Model.

(** * What the heuristic allows *)

Module Export AutoLaws.

Lemma existsb_false {A} (f : A → bool) l : existsb f l = false ↔ ∀ x, x ∈ l → f x = false.
Proof.
  rewrite <-not_true_iff_false, existsb_exists. setoid_rewrite <-list_elem_of_In. setoid_rewrite <-not_true_iff_false.
  naive_solver.
Qed.
Lemma str_map_app f s t : str_map f (s +:+ t) = str_map f s +:+ str_map f t.
Proof. induction s as [|a s IH]; [done|]. rewrite !app_cons_str. cbn [str_map]. by rewrite IH, app_cons_str. Qed.
Lemma join_extends sep l m : ∃ u, join sep (l ++ m) = join sep l +:+ u.
Proof.
  induction l as [|w l IH]; [by eexists|]. cbn [app]. destruct (decide (l = [])) as [->|Hl].
  { destruct m as [|x m]; [exists ""; by rewrite app_nil_r, app_nil_r_str|]. rewrite join_cons by done. by eexists. }
  destruct IH as [u IH]. exists u. rewrite !join_cons by (try done; by destruct l). by rewrite IH, !app_assoc_str.
Qed.

Lemma launch_shorter head inner launched : inner ≠ [] → explicit_launch_target head inner = Inner launched →
  length launched < length inner.
Proof.
  intros Hne. assert (Hl : ∀ n, 2 ≤ n → launch_at inner n = Inner launched → length launched < length inner).
  { intros n Hn. unfold launch_at. destruct (inner !! n) as [tok|] eqn:E; [|done]. destruct (starts_with "-" tok); [done|].
    intros [= <-]. rewrite length_drop. apply lookup_lt_Some in E. lia. }
  unfold explicit_launch_target. destruct (launcher_subcommand head inner) as [sub|]; [|done].
  repeat case_match; try done; apply Hl; lia.
Qed.

(** The judgement on a command comes to an end: launchers nest less deeply than the
    command has words, and more fuel than that changes nothing. *)
Theorem routine_terminates words fuel : length words < fuel → routine_n fuel words = bash_command_is_routine words.
Proof.
  assert (Hind : ∀ k f f' ws, length ws ≤ k → length ws < f → length ws < f' → routine_n f ws = routine_n f' ws).
  { induction k as [|k IH]; intros [|f] [|f'] ws Hk Hf Hf'; try lia; cbn [routine_n].
    { destruct ws as [|w ws]; [done|cbn in Hk; lia]. }
    destruct (unwrap_n_suffix 8 ws) as (i & Ei & _). fold (unwrap_wrappers ws) in Ei.
    destruct (unwrap_wrappers ws) as [|w inner] eqn:Eu; [done|]. destruct (is_lone_wrapper (w :: inner)); [done|].
    assert (Hw : length (w :: inner) ≤ length ws) by (rewrite Ei, length_drop; lia).
    unfold package_manager_subcommand_is_routine. destruct (negb _); [done|]. destruct (is_remote_launcher _ _); [done|].
    destruct (explicit_launch_target _ _) as [|launched|] eqn:El; [done| |done].
    apply launch_shorter in El; [|done]. rewrite (IH f f' launched); [done|lia..]. }
  intros Hl. unfold bash_command_is_routine. apply (Hind (length words)); lia.
Qed.

Section Bash.
Context `{BashParser}.

(** A command passes the heuristic exactly when it parses into plain commands of
    which there is one, it assigns no variable but the cosmetic ones anywhere in its
    tree and in no [env], it writes nothing but the null and standard streams, and
    each of its commands is routine. *)
Theorem classify_bash_exact cmd : classify_bash cmd = CV.Allow ↔ ∃ tree cmds,
  try_parse_shell cmd = Some tree ∧ try_parse_word_only_commands_sequence tree cmd = Some cmds ∧
  (∀ n, descendant tree n → kind n = "variable_assignment" → assignment_key n cmd ∈ SAFE_ENV_KEYS) ∧
  (∀ p, p ∈ command_write_paths_in_tree tree cmd → p ∈ ["/dev/null"; "/dev/stdout"; "/dev/stderr"]) ∧
  cmds ≠ [] ∧ ∀ c, c ∈ cmds → command_env_is_unsafe (words c) = false ∧ bash_command_is_routine (words c) = true.
Proof.
  unfold classify_bash. destruct (try_parse_shell cmd) as [tree|]; [|by split; [done|intros (? & ? & ? & _)]].
  destruct (try_parse_word_only_commands_sequence tree cmd) as [cmds|] eqn:Ec; [|by split; [done|intros (? & ? & [= <-] & ? & _); congruence]].
  trans (sets_unsafe_env tree cmd cmds = false ∧ existsb (λ p, negb (is_safe_write_sink p)) (command_write_paths_in_tree tree cmd) = false ∧
         cmds ≠ [] ∧ forallb (λ c, bash_command_is_routine (words c)) cmds = true).
  { destruct (sets_unsafe_env _ _ _); [naive_solver|]. destruct (existsb _ _); [naive_solver|].
    destruct (decide (cmds = [])) as [->|Hne]; [naive_solver|]. rewrite (bool_decide_eq_false_2 _ Hne). cbn.
    destruct (forallb _ _); naive_solver. }
  unfold sets_unsafe_env, is_safe_write_sink, is_safe_env_key. rewrite orb_false_iff, !existsb_false, forallb_forall.
  setoid_rewrite elem_of_visited. setoid_rewrite andb_false_iff. setoid_rewrite negb_false_iff.
  setoid_rewrite bool_decide_eq_true. setoid_rewrite bool_decide_eq_false. setoid_rewrite <-list_elem_of_In.
  split.
  - intros ([He Hc] & Hw & Hne & Hr). exists tree, cmds. split_and!; try done; [|naive_solver].
    intros n Hn Hk. destruct (He n Hn); [done|by auto].
  - intros (? & ? & [= <-] & Ec' & He & Hw & Hne & Hc). rewrite Ec in Ec'. injection Ec' as <-. split_and!; [|naive_solver..]. intros n Hn.
    destruct (decide (kind n = "variable_assignment")); [right; auto|by left].
Qed.

Context `{PermissionLibs}.

(** More conversation only adds objections: what the heuristic allows with a longer
    transcript it allows with every shorter one, whatever the project's
    instructions. *)
Theorem context_only_objects tool access detail earlier later instructions instructions' :
  classify_sync tool access detail (MkContext (earlier ++ later) instructions) = CV.Allow →
  classify_sync tool access detail (MkContext earlier instructions') = CV.Allow.
Proof.
  assert (Hj : ∃ u, to_ascii_lowercase (transcript_text (MkContext (earlier ++ later) instructions)) =
    to_ascii_lowercase (transcript_text (MkContext earlier instructions')) +:+ u).
  { unfold transcript_text. cbn [turns]. rewrite fmap_app. destruct (join_extends newline (render <$> earlier) (render <$> later))
      as [u ->]. exists (to_ascii_lowercase u). apply str_map_app. }
  assert (Hm : ∀ ms s u, marked ms (s +:+ u) = false → marked ms s = false).
  { intros ms s u. unfold marked. rewrite !existsb_false. intros Hf m Hin. specialize (Hf m Hin).
    apply not_true_iff_false. intros Hc%(contains_app_l _ _ u). congruence. }
  destruct Hj as [u Hu]. unfold classify_sync, scanned. rewrite Hu, !app_assoc_str.
  destruct (contains "ask_user" _ || _); [done|].
  destruct (marked DANGEROUS_PATTERNS _) eqn:E1; [done|]. apply Hm in E1 as ->.
  destruct (marked fetchers _ && _) eqn:E2; [done|]. destruct (marked HOSTILE_INTENT _) eqn:E3; [done|]. apply Hm in E3 as ->.
  apply andb_false_iff in E2. destruct E2 as [->%Hm| ->%Hm]; [done|]. by rewrite andb_false_r.
Qed.

End Bash.

Section Model.
Context `{JsonValues} `{BashParser}.

(** What the model's text must be for an allow: JSON, as a whole or from the first
    brace to the last, whose verdict is a clear no to blocking, or a single word. *)
Definition clear_allow (text : string) : Prop :=
  let trimmed := trim text in
  whole_json_verdict trimmed = Some CV.Allow ∨
  (whole_json_verdict trimmed = None ∧ embedded_json_verdict trimmed = Some CV.Allow) ∨
  (whole_json_verdict trimmed = None ∧ embedded_json_verdict trimmed = None ∧
   trim (to_ascii_lowercase trimmed) ∈ ["allow"; "allowed"; "approve"; "approved"]).

Lemma parse_allow text : parse_classifier_model_text text = CV.Allow → clear_allow text.
Proof.
  unfold parse_classifier_model_text, clear_allow. cbv zeta. destruct (is_empty (trim text)); [done|].
  destruct (whole_json_verdict (trim text)) as [v|]; [intros ->; by left|].
  destruct (embedded_json_verdict (trim text)) as [v|]; [intros ->; right; by left|].
  unfold terse_verdict. destruct (_ || _); [done|]. case_bool_decide; [done|]. case_bool_decide; [|done]. by right; right.
Qed.

(** The classifier allows a call only when the heuristic does, without asking the
    model, or when the model was asked and its text is a clear allow: a model that
    fails, is missing or cannot be read never approves. *)
Theorem classifier_allow c tool access detail ctx : llm_classify c tool access detail ctx = CV.Allow →
  classify_sync tool access detail ctx = CV.Allow ∨
  ∃ text, model_text c (build_classifier_messages tool access detail ctx (prompt_type c)) = Some text ∧ clear_allow text.
Proof.
  unfold llm_classify. cbv zeta. case_bool_decide as Eh; [by left|]. intros Hv. right.
  destruct (model_text _ _) as [text|]; [|done]. exists text. split; [done|]. apply parse_allow.
  by case_bool_decide; [rewrite Hv in Eh|].
Qed.

End Model.
End AutoLaws.

(** * Scenes *)

Module AutoScene.
#[local] Existing Instance PolicyScene.scene_libs.
#[local] Existing Instance PolicyScene.scene_bash.

(** A text is JSON when it is a verdict alone; a value is its own verdict and outcome. *)
#[local] Instance scene_json : JsonValues := {|
  json_from_str s := if bool_decide (s ∈ ["{block}"; "{allow}"]) then Some s else None;
  json_get j k := if bool_decide (k ∈ ["shouldBlock"; "outcome"]) then Some j else None;
  json_as_bool j := Some (bool_decide (j = "{block}"));
  json_as_str j := Some j;
  json_as_i64 _ := None;
  json_string s := s;
  json_array l := join "," l;
  json_object l := join "," (snd <$> l);
|}.

(** A search whose preprocessor is a program of the project passes the heuristic. *)
Theorem heuristic_runs_preprocessor : classify_bash "rg --pre ./x needle" = CV.Allow.
Proof. by vm_compute. Qed.

(** A program anywhere on the disk passes the heuristic for the name of its file. *)
Theorem heuristic_trusts_file_name :
  classify_bash "/tmp/payload/find ." = CV.Allow ∧ classify_bash "/tmp/payload/npm test" = CV.Allow ∧
  classify_bash "/tmp/payload/ls" = CV.Block.
Proof. by vm_compute. Qed.

Lemma routine_terminates_witness :
  2 < 9 ∧ routine_n 9 ["npx"; "cowsay"] = bash_command_is_routine ["npx"; "cowsay"].
Proof. assert (Hl : 2 < 9) by lia. split; [exact Hl|]. exact (routine_terminates ["npx"; "cowsay"] 9 Hl). Defined.

Lemma context_only_objects_witness :
  classify_sync "run_terminal_command" (AK.Bash "ls") (Some "ls") (MkContext [UserText "list"] None) = CV.Allow.
Proof.
  apply (context_only_objects "run_terminal_command" (AK.Bash "ls") (Some "ls") [UserText "list"] [UserText "more"] None None).
  by vm_compute.
Defined.

Lemma classifier_allow_witness :
  classify_sync "web_fetch" (AK.WebFetch "https://x") None (MkContext [] None) = CV.Allow ∨ ∃ text, clear_allow text.
Proof.
  destruct (classifier_allow (MkLlm (Some (λ _, Some "Sure: {allow}")) None Full) "web_fetch" (AK.WebFetch "https://x") None
    (MkContext [] None) ltac:(by vm_compute)) as [?|(text & _ & ?)]; [by left|by right; exists text].
Defined.

End AutoScene.
