(* ===== verification/PermissionPrompt.v ===== *)
(** How a permission is asked for (crate [ainxt-workspace], [permission/prompter.rs] and
    [permission/hub_permission.rs]): the options a client is shown, what its answer
    means, and the same question sent to chat over the hub. *)
From stdpp Require Import list gmap sets strings.
From S2P Require Import Prelude RustStr StrSearch ShellWords ShellTree Permission PermissionAuto.

(** * The answers *)

Module PO.
Inductive PromptOutcome : Type :=
| AllowOnce
| AllowAlways
| AllowEditsForSession
| AllowAlwaysBashCommand (prefix : string)
| AllowAlwaysDomain (domain : string)
| AllowAlwaysMcpTool (tool_name : string)
| AllowAlwaysMcpServer (server_prefix : string)
| RejectOnce
| RejectAlwaysBashCommand (prefix : string)
| Cancelled
| FollowupMessage (message : string)
| Error (e : string).
End PO.

(** The kinds of option of the Agent Client Protocol, with one for those it may add. *)
Module OK.
Inductive PermissionOptionKind : Type := AllowOnce | AllowAlways | RejectOnce | RejectAlways | OtherKind.
End OK.

Module Export Options.

Inductive ClientType : Type := Generic | AinxtTUI | AinxtWeb | Nebula | Extension | AinxtPager | Desktop.
Definition fancy_client (c : ClientType) : bool := match c with AinxtTUI | AinxtPager | Desktop => true | _ => false end.
Definition client_supports_enable_always_approve (c : ClientType) : bool := fancy_client c.

(** What is attached to an option for the client's view. *)
Inductive OptionMeta : Type :=
| NoMeta
| BashCommandPermission (prompt_prefix : string)
| McpToolPermission (prompt_prefix tool_name : string) (server_prefix : option string).

Record PermissionOption : Type := MkOption {
  option_id : string;
  option_name : string;
  option_kind : OK.PermissionOptionKind;
  option_meta : OptionMeta;
}.

(** [IndexMap]: keys in the order of their first insertion. *)
Definition IndexMap : Type := list (string * PermissionOption).
Fixpoint index_insert (l : IndexMap) (k : string) (v : PermissionOption) : IndexMap :=
  match l with
  | [] => [(k, v)]
  | kv :: l => if bool_decide (kv.1 = k) then (k, v) :: l else kv :: index_insert l k v
  end.
Definition index_extend (l m : IndexMap) : IndexMap := fold_left (λ l kv, index_insert l kv.1 kv.2) m l.
Definition shift_remove (k : string) (l : IndexMap) : IndexMap := filter (λ kv, kv.1 ≠ k) l.
Definition index_get (l : IndexMap) (k : string) : option PermissionOption :=
  snd <$> (snd <$> list_find (λ kv, kv.1 = k) l).

Definition plain_option (id name : string) (kind : OK.PermissionOptionKind) : string * PermissionOption :=
  (id, MkOption id name kind NoMeta).

Definition REJECT_ONCE_LABEL : string := "No, and tell ainxt what to do differently".
Definition ALLOW_EDITS_SESSION_OPTION_ID : string := "allow-edits-session".
Definition ENABLE_ALWAYS_APPROVE_OPTION_ID : string := "enable-always-approve".
Definition ENABLE_ALWAYS_APPROVE_LABEL : string := "Yes, and don't ask again for anything (always-approve mode)".
Definition enable_always_approve_option : PermissionOption :=
  MkOption ENABLE_ALWAYS_APPROVE_OPTION_ID ENABLE_ALWAYS_APPROVE_LABEL OK.AllowOnce NoMeta.
Definition is_enable_always_approve_option (opt : PermissionOption) : bool :=
  bool_decide (option_id opt = ENABLE_ALWAYS_APPROVE_OPTION_ID).

Definition prepend_enable_always_approve (c : ClientType) (base : IndexMap) : IndexMap :=
  if negb (client_supports_enable_always_approve c) then base
  else index_extend (index_insert [] (option_id enable_always_approve_option) enable_always_approve_option) base.

Definition reject_once_row : string * PermissionOption := plain_option "reject-once" REJECT_ONCE_LABEL OK.RejectOnce.
Definition edit_options : IndexMap :=
  [plain_option ALLOW_EDITS_SESSION_OPTION_ID "Yes, allow all edits during this session" OK.AllowAlways;
   plain_option "allow-once" "Yes" OK.AllowOnce; reject_once_row].
Definition bash_options : IndexMap := [plain_option "allow-once" "Yes, proceed" OK.AllowOnce; reject_once_row].
Definition generic_bash_options : IndexMap :=
  [plain_option "always-allow" "Yes, and don't ask again for bash commands" OK.AllowAlways;
   plain_option "allow-once" "Yes, proceed" OK.AllowOnce; reject_once_row;
   plain_option "reject-always" "No, and don't run bash commands" OK.RejectAlways].
Definition fallback_options : IndexMap :=
  [plain_option "always-allow" "always allow" OK.AllowAlways; plain_option "allow-once" "allow once" OK.AllowOnce;
   plain_option "reject-once" "reject once" OK.RejectOnce].

Definition REMEMBER_TOOL_APPROVALS_GATED_IDS : list string :=
  ["allow-always-command"; "reject-always-command"; "allow-always-mcp"; "allow-always-domain"; "always-allow"; "reject-always"].

Definition bash_scope_option (id prefix : string) (kind : OK.PermissionOptionKind) (primary : BashCommandHighlights)
  : string * PermissionOption :=
  (id, MkOption id (prefix +:+ " " +:+ join " " (highlighted_words primary)) kind (BashCommandPermission prefix)).

Record AcpPrompter : Type := MkPrompter { client_type : ClientType; remember_tool_approvals : bool }.

(** The name of a tool in the events, the display of an MCP tool aside. *)
Definition tool_name_for_access {J} (access : AK.AccessKind J) : string :=
  match access with
  | AK.Read _ => "read_file"
  | AK.Grep _ _ => "grep"
  | AK.Edit _ => "search_replace"
  | AK.Bash _ => "run_terminal_command"
  | AK.MCPTool name _ => "mcp:" +:+ name
  | AK.WebFetch _ => "web_fetch"
  | AK.WebSearch _ => "web_search"
  end.

Section Build.
Context `{PermissionLibs} `{BashParser}.

(** [domain_from_url] of the web-fetch tool. *)
Definition domain_from_url (raw_url : string) : option string :=
  u ← url_parse raw_url; normalize_domain <$> host_str u.

Definition build_options_inner (self : AcpPrompter) (access : AK.AccessKind Json) : IndexMap :=
  match access with
  | AK.Edit _ => edit_options
  | AK.Bash bash_command =>
      if fancy_client (client_type self) then
        let primary := primary_command_from_script bash_command in
        let row id prefix kind (l : IndexMap) :=
          match primary with
          | Some p => let o := bash_scope_option id prefix kind p in index_insert l o.1 o.2
          | None => l
          end in
        row "reject-always-command" "Never allow:" OK.RejectAlways
          (index_extend (row "allow-always-command" "Always allow:" OK.AllowAlways []) bash_options)
      else generic_bash_options
  | AK.WebFetch url =>
      let domain := default "unknown domain" (domain_from_url url) in
      [plain_option "allow-always-domain" ("Yes, always allow " +:+ domain +:+ " this session") OK.AllowAlways;
       plain_option "allow-once" "Yes, allow once" OK.AllowOnce; reject_once_row]
  | AK.MCPTool tool_name _ =>
      if fancy_client (client_type self) then
        [("allow-always-mcp",
          MkOption "allow-always-mcp" ("Always allow: " +:+ tool_name) OK.AllowAlways
            (McpToolPermission "Always allow:" tool_name (fst <$> split_once_str "__" tool_name)));
         plain_option "allow-once" "Yes" OK.AllowOnce; reject_once_row]
      else fallback_options
  | _ => fallback_options
  end.

Definition build_options (self : AcpPrompter) (access : AK.AccessKind Json) : IndexMap :=
  let base := build_options_inner self access in
  let base :=
    if remember_tool_approvals self then base
    else fold_left (λ l id, shift_remove id l) REMEMBER_TOOL_APPROVALS_GATED_IDS base in
  prepend_enable_always_approve (client_type self) base.

Definition bash_selection_meta (self : AcpPrompter) (access : AK.AccessKind Json) : option BashCommandHighlights :=
  match access with
  | AK.Bash bash_command =>
      if remember_tool_approvals self && fancy_client (client_type self) then primary_command_from_script bash_command
      else None
  | _ => None
  end.

End Build.
End Options.

(** * The client's answer *)

Module Export Answer.

Inductive McpScopeSelection : Type := ScopeTool (tool_name : string) | ScopeServer (server : string).

(** How the meta of an answer reads as the types the client may send. *)
Class AnswerMeta `{JsonValues} : Type := {
  selected_terms : Json → option (list string);
  scope_selection : Json → option McpScopeSelection;
}.

(** The answer to a request as the protocol delivers it. *)
Inductive ClientReply {J : Type} : Type :=
| ReplyFailed
| ReplyCancelled
| ReplyOther
| ReplySelected (id : string) (meta : option J).
Arguments ClientReply : clear implicits.

Section Map.
Context `{AnswerMeta} `{BashParser}.

Definition primary_words (cmd : string) : option string :=
  (λ p, join " " (highlighted_words p)) <$> primary_command_from_script cmd.

Definition map_allow_always (id : string) (meta : option Json) (access : AK.AccessKind Json) : PO.PromptOutcome :=
  if bool_decide (id = ENABLE_ALWAYS_APPROVE_OPTION_ID) then PO.AllowOnce
  else if bool_decide (id = "allow-always-mcp") then
    match meta ≫= scope_selection, access with
    | Some (ScopeTool tool_name), _ => PO.AllowAlwaysMcpTool tool_name
    | Some (ScopeServer server), AK.MCPTool name _ =>
        if is_empty server then PO.AllowAlwaysMcpTool name else PO.AllowAlwaysMcpServer server
    | Some (ScopeServer server), _ => if is_empty server then PO.AllowAlways else PO.AllowAlwaysMcpServer server
    | None, AK.MCPTool name _ => PO.AllowAlwaysMcpTool name
    | None, _ => PO.AllowAlways
    end
  else if bool_decide (id = "allow-always-domain") then
    match access with
    | AK.WebFetch url =>
        match domain_from_url url with
        | Some domain => if is_empty domain then PO.AllowOnce else PO.AllowAlwaysDomain domain
        | None => PO.AllowOnce
        end
    | _ => PO.AllowOnce
    end
  else if bool_decide (id = "allow-always-command") then
    match meta ≫= selected_terms, access with
    | Some command_parts, _ => PO.AllowAlwaysBashCommand (join " " command_parts)
    | None, AK.Bash cmd =>
        match primary_words cmd with Some w => PO.AllowAlwaysBashCommand w | None => PO.AllowAlways end
    | None, _ => PO.AllowAlways
    end
  else if bool_decide (id = ALLOW_EDITS_SESSION_OPTION_ID) then PO.AllowEditsForSession
  else PO.AllowAlways.

Definition map_reject_once (meta : option Json) : PO.PromptOutcome :=
  match m ← meta; v ← json_get m "followup_message"; json_as_str v with
  | Some followup => if is_empty (trim followup) then PO.RejectOnce else PO.FollowupMessage followup
  | None => PO.RejectOnce
  end.

Definition map_reject_always (id : string) (meta : option Json) (access : AK.AccessKind Json) : PO.PromptOutcome :=
  if bool_decide (id = "reject-always-command") then
    match meta ≫= selected_terms, access with
    | Some command_parts, _ => PO.RejectAlwaysBashCommand (join " " command_parts)
    | None, AK.Bash cmd =>
        match primary_words cmd with Some w => PO.RejectAlwaysBashCommand w | None => PO.RejectOnce end
    | None, _ => PO.RejectOnce
    end
  else PO.RejectOnce.

Definition map_selected_outcome (permission_options : IndexMap) (id : string) (meta : option Json)
    (access : AK.AccessKind Json) : PO.PromptOutcome :=
  match index_get permission_options id with
  | None => PO.Error "unknown permission option"
  | Some opt =>
      match option_kind opt with
      | OK.AllowOnce => PO.AllowOnce
      | OK.AllowAlways => map_allow_always id meta access
      | OK.RejectOnce => map_reject_once meta
      | OK.RejectAlways => map_reject_always id meta access
      | OK.OtherKind => PO.Error "unknown permission option kind"
      end
  end.

End Map.
End Answer.

(** * The same question over the hub ([hub_permission.rs]) *)

Module Export HubPrompt.
Section Hub.
Context `{JsonValues}.

Definition is_timeout_err (msg : string) : bool := contains "timed out" msg.

Definition hitl_permission_live_enabled (var : option string) : bool :=
  match var with
  | Some v => bool_decide (to_ascii_lowercase (trim v) ∈ ["1"; "true"; "yes"; "on"])
  | None => false
  end.

Definition scope_for_access (access : AK.AccessKind Json) : string :=
  match access with
  | AK.Bash _ | AK.Edit _ | AK.MCPTool _ _ => "write"
  | _ => "read"
  end.
Definition describe_access (access : AK.AccessKind Json) : string :=
  match access with
  | AK.Bash _ => "Run a terminal command"
  | AK.Edit path => "Edit " +:+ path
  | AK.MCPTool name _ => "Run MCP tool " +:+ name
  | AK.WebFetch url => "Fetch " +:+ url
  | AK.WebSearch query => "Search the web for " +:+ query
  | AK.Read _ => "Read a file"
  | AK.Grep _ _ => "Search file contents"
  end.

Definition build_permission_payload (access : AK.AccessKind Json) (tool_call_id : string) : Json :=
  json_object
    ([("tool_call_id", json_string tool_call_id); ("tool_name", json_string (tool_name_for_access access));
      ("description", json_string (describe_access access)); ("scope", json_string (scope_for_access access))] ++
     match access with
     | AK.Bash command => [("bash_command", json_string command)]
     | AK.Edit path => [("edit_file_paths", json_array [json_string path])]
     | _ => []
     end).

Definition scope_kind_value (reply : Json) : option (string * option string) :=
  scope ← json_get reply "scope";
  kind ← (k ← json_get scope "kind"; json_as_str k);
  Some (kind, v ← json_get scope "value"; json_as_str v).

Definition reply_word (reply : Json) : string :=
  match json_get reply "outcome" with
  | None => ""
  | Some v =>
      match json_as_str v with
      | Some s => s
      | None =>
          match json_as_i64 v with
          | Some 1%Z => "approve"
          | Some 2%Z => "reject"
          | Some 3%Z => "always_approve"
          | Some 4%Z => "always_reject"
          | _ => ""
          end
      end
  end.

Definition always_approved (scope : option (string * option string)) : PO.PromptOutcome :=
  match scope with
  | Some (kind, Some value) =>
      if bool_decide (kind = "bash_command") then PO.AllowAlwaysBashCommand value
      else if bool_decide (kind = "server_prefix") then PO.AllowAlwaysMcpServer value
      else if bool_decide (kind = "domain") then PO.AllowAlwaysDomain value
      else PO.AllowAlways
  | _ => PO.AllowAlways
  end.
Definition always_rejected (scope : option (string * option string)) : PO.PromptOutcome :=
  match scope with
  | Some (kind, Some value) =>
      if bool_decide (kind = "bash_command") then PO.RejectAlwaysBashCommand value else PO.RejectOnce
  | _ => PO.RejectOnce
  end.

Definition reply_to_outcome (reply : Json) : PO.PromptOutcome :=
  let outcome := reply_word reply in
  if bool_decide (outcome = "approve") then PO.AllowOnce
  else if bool_decide (outcome = "always_approve") then always_approved (scope_kind_value reply)
  else if bool_decide (outcome = "reject") then
    match v ← json_get reply "followup_message"; s ← json_as_str v; if is_empty s then None else Some s with
    | Some message => PO.FollowupMessage message
    | None => PO.RejectOnce
    end
  else if bool_decide (outcome = "always_reject") then always_rejected (scope_kind_value reply)
  else if bool_decide (outcome = "cancelled") then PO.Cancelled
  else PO.RejectOnce.

Definition prompt_outcome_allows (o : PO.PromptOutcome) : bool :=
  match o with
  | PO.AllowOnce | PO.AllowAlways | PO.AllowEditsForSession | PO.AllowAlwaysBashCommand _ | PO.AllowAlwaysDomain _
  | PO.AllowAlwaysMcpTool _ | PO.AllowAlwaysMcpServer _ => true
  | _ => false
  end.

(** [transport] is the hook of the server with its reply or error. *)
Definition request_permission_via_hub (transport : Json → result string Json) (access : AK.AccessKind Json)
    (tool_call_id : string) : PO.PromptOutcome :=
  match transport (build_permission_payload access tool_call_id) with
  | Ok reply =>
      match reply_to_outcome reply, access with
      | PO.AllowAlways, AK.Edit _ => PO.AllowEditsForSession
      | other, _ => other
      end
  | Err e => PO.Error ("hub permission request failed: " +:+ e)
  end.

(** [access_kind_for_hub_tool]: the permission a tool served over the hub needs. *)
Definition arg_str (args : Json) (keys : list string) (missing : string) : string :=
  default missing (v ← head (omap (json_get args) keys); json_as_str v).
Definition access_kind_for_hub_tool (tool_name : string) (args : Json) : option (AK.AccessKind Json) :=
  let name := rsplit_first (λ a, bool_decide (a = ":"%char)) tool_name in
  let name := default name (strip_prefix "AinxtBuild:" name) in
  if bool_decide (name ∈ ["run_terminal_command"; "run_terminal_cmd"; "bash"; "shell"])
  then Some (AK.Bash (arg_str args ["command"; "full_command"] ""))
  else if bool_decide (name ∈ ["search_replace"; "hashline_edit"; "write"; "write_file"])
  then Some (AK.Edit (arg_str args ["file_path"; "path"] "unknown"))
  else if bool_decide (name = "apply_patch") then Some (AK.Edit "apply_patch")
  else if bool_decide (name = "web_fetch") then Some (AK.WebFetch (arg_str args ["url"] ""))
  else if contains "__" name || starts_with "mcp" name then Some (AK.MCPTool tool_name args)
  else None.

End Hub.
End HubPrompt.

(** * The question as a whole *)

Module Export Prompting.

(** The two events of a question in [events.jsonl], the waiting time aside. *)
Inductive PermissionOutcome : Type := OutcomeAllow | OutcomeDeny | OutcomeCancelled | OutcomeFollowup.
Inductive PromptEvent : Type :=
| PermissionRequested (tool_name : string)
| PermissionResolved (tool_name : string) (decision : PermissionOutcome).

Definition permission_decision_for_outcome (o : PO.PromptOutcome) : PermissionOutcome :=
  match o with
  | PO.RejectOnce | PO.RejectAlwaysBashCommand _ | PO.Error _ => OutcomeDeny
  | PO.Cancelled => OutcomeCancelled
  | PO.FollowupMessage _ => OutcomeFollowup
  | _ => OutcomeAllow
  end.

Section Ask.
Context `{AnswerMeta} `{BashParser}.

(** Where the question goes: to the client with its answer, or to the hub. *)
Inductive Asked : Type :=
| AskedClient (reply : ClientReply Json)
| AskedHub (transport : Json → result string Json).

Definition outcome_of (self : AcpPrompter) (access : AK.AccessKind Json) (tool_call_id : string) (a : Asked) : PO.PromptOutcome :=
  match a with
  | AskedHub transport => request_permission_via_hub transport access tool_call_id
  | AskedClient reply =>
      match reply with
      | ReplyCancelled => PO.Cancelled
      | ReplySelected id meta => map_selected_outcome (build_options self access) id meta access
      | ReplyOther => PO.Error "unknown permission outcome"
      | ReplyFailed => PO.Error "failed to request permission"
      end
  end.

(** [AcpPrompter::request]; [None] is a question abandoned before its answer, which
    the guard still resolves. *)
Definition prompter_request (self : AcpPrompter) (access : AK.AccessKind Json) (tool_call_id : string) (a : option Asked)
  : option PO.PromptOutcome * list PromptEvent :=
  let tool_name := tool_name_for_access access in
  match a with
  | Some a =>
      let outcome := outcome_of self access tool_call_id a in
      (Some outcome, [PermissionRequested tool_name; PermissionResolved tool_name (permission_decision_for_outcome outcome)])
  | None => (None, [PermissionRequested tool_name; PermissionResolved tool_name OutcomeCancelled])
  end.

End Ask.
End Prompting.

(** * What an answer can mean *)

Module Export PromptLaws.

(** An answer that leaves nothing behind on disk. *)
Definition leaves_nothing (o : PO.PromptOutcome) : Prop :=
  match o with
  | PO.AllowOnce | PO.AllowEditsForSession | PO.RejectOnce | PO.Cancelled | PO.FollowupMessage _ | PO.Error _ => True
  | _ => False
  end.

Section Laws.
Context `{AnswerMeta} `{BashParser}.

(** What the answer may grant, given what was asked for. *)
Definition fits (access : AK.AccessKind Json) (o : PO.PromptOutcome) : Prop :=
  match o, access with
  | PO.AllowEditsForSession, AK.Edit _ => True
  | PO.AllowAlwaysDomain d, AK.WebFetch url => domain_from_url url = Some d ∧ d ≠ ""
  | (PO.AllowAlwaysMcpTool _ | PO.AllowAlwaysMcpServer _), AK.MCPTool _ _ => True
  | (PO.AllowAlwaysBashCommand _ | PO.RejectAlwaysBashCommand _), AK.Bash _ => True
  | PO.AllowAlways, (AK.Edit _ | AK.WebFetch _) => False
  | (PO.AllowOnce | PO.AllowAlways | PO.RejectOnce | PO.Cancelled | PO.FollowupMessage _ | PO.Error _), _ => True
  | _, _ => False
  end.

Lemma index_get_elem l k o : index_get l k = Some o → (k, o) ∈ l.
Proof.
  unfold index_get. intros ([k' o'] & ([i [k'' o'']] & Hf & [= -> ->])%fmap_Some & [= ->])%fmap_Some. cbn.
  apply list_find_Some in Hf as (Hi & E & _). cbn in E. subst. by eapply list_elem_of_lookup_2.
Qed.

Lemma mapped_by_rows (P : PO.PromptOutcome → Prop) l id meta access :
  P (PO.Error "unknown permission option") → P PO.AllowOnce →
  Forall (λ kv, match option_kind kv.2 with
                | OK.AllowOnce => True
                | OK.AllowAlways => P (map_allow_always kv.1 meta access)
                | OK.RejectOnce => P (map_reject_once meta)
                | OK.RejectAlways => P (map_reject_always kv.1 meta access)
                | OK.OtherKind => False end) l →
  P (map_selected_outcome l id meta access).
Proof.
  intros He Ho Hl. unfold map_selected_outcome. destruct (index_get l id) as [o|] eqn:E; [|done].
  apply index_get_elem in E. rewrite Forall_forall in Hl. specialize (Hl _ E). cbn in Hl. by destruct (option_kind o).
Qed.

Lemma Forall_insert P l k v : Forall P l → P (k, v) → Forall P (index_insert l k v).
Proof.
  intros Hl Hv. induction Hl as [|kv l Hkv Hl IH]; cbn; [by repeat constructor|]. case_bool_decide; by constructor.
Qed.
Lemma Forall_removed P l k : Forall P l → Forall P (shift_remove k l).
Proof. rewrite !Forall_forall. intros Hl x [_ Hx]%list_elem_of_filter. by apply Hl. Qed.
Lemma Forall_prepended P c base : P (option_id enable_always_approve_option, enable_always_approve_option) →
  Forall P base → Forall P (prepend_enable_always_approve c base).
Proof.
  intros He Hb. unfold prepend_enable_always_approve. destruct (negb _); [done|]. unfold index_extend.
  assert (Hs : ∀ acc, Forall P acc → Forall P (fold_left (λ l kv, index_insert l kv.1 kv.2) base acc)).
  { clear -Hb. induction Hb as [|[k v] base Hk Hb IH]; intros acc Ha; [done|]. cbn. by apply IH, Forall_insert. }
  apply Hs. by apply Forall_insert.
Qed.
(** What holds of the rows of a question and of the one that is put before them holds
    of what is shown. *)
Lemma built_rows P self access : P (option_id enable_always_approve_option, enable_always_approve_option) →
  Forall P (build_options_inner self access) → Forall P (build_options self access).
Proof.
  intros He Hl. apply Forall_prepended; [done|]. destruct (remember_tool_approvals self); [done|].
  cbn [fold_left REMEMBER_TOOL_APPROVALS_GATED_IDS]. by do 6 apply Forall_removed.
Qed.

Lemma reject_once_plain meta : map_reject_once meta = PO.RejectOnce ∨ ∃ m, map_reject_once meta = PO.FollowupMessage m.
Proof. unfold map_reject_once. repeat case_match; eauto. Qed.

(** Without the gate for remembered approvals no answer of a client leaves anything on
    disk: nothing that is offered may be remembered, and nothing else is accepted. *)
Lemma client_leaves_nothing client access id reply :
  leaves_nothing (outcome_of (MkPrompter client false) access id (AskedClient reply)).
Proof.
  destruct reply as [| | |opt meta]; try done. cbn [outcome_of].
  assert (Hr : leaves_nothing (map_reject_once meta)) by (destruct (reject_once_plain meta) as [->|[m ->]]; done).
  apply mapped_by_rows; [done..|]. unfold build_options. cbn [remember_tool_approvals client_type].
  destruct access as [p|p g|p|cmd|n i|u|q]; cbn [build_options_inner client_type];
    [| | |destruct (primary_command_from_script cmd) as [p|]| | |]; destruct client; by repeat constructor.
Qed.

(** The answer of a client fits what it was asked about: a grant for edits can only
    follow a question about an edit, one for a domain only a fetch from that domain,
    one for a tool or server only a call of an MCP tool, one for a command only a
    command. *)
Theorem answers_fit self access id reply : fits access (outcome_of self access id (AskedClient reply)).
Proof.
  destruct reply as [| | |opt meta]; try (by destruct access). cbn [outcome_of].
  apply mapped_by_rows; [by destruct access..|]. apply built_rows; [done|]. destruct self as [client remember].
  assert (Hr : ∀ a, fits a (map_reject_once meta)) by (intros a; destruct (reject_once_plain meta) as [->|[m ->]]; by destruct a).
  unfold map_allow_always, map_reject_always.
  destruct access as [p|p g|p|cmd|n i|u|q]; cbn [build_options_inner client_type];
    [| | |destruct (primary_command_from_script cmd) as [p|]| | |]; destruct client; repeat constructor; cbn;
    repeat case_match; try done; split; try done; by intros ->.
Qed.

End Laws.

Section Hub.
Context `{JsonValues}.

(** Over the hub only a reply that says so approves: an error, a reply that cannot be
    read and a reply that says anything else do not. *)
Theorem hub_fails_closed transport access id :
  prompt_outcome_allows (request_permission_via_hub transport access id) = true →
  ∃ reply, transport (build_permission_payload access id) = Ok reply ∧ reply_word reply ∈ ["approve"; "always_approve"].
Proof.
  unfold request_permission_via_hub. destruct (transport _) as [reply|e]; [|done]. intros Ha. exists reply. split; [done|].
  assert (Ho : prompt_outcome_allows (reply_to_outcome reply) = true) by (destruct (reply_to_outcome reply), access; done).
  clear Ha. revert Ho. unfold reply_to_outcome. cbv zeta.
  destruct (decide (reply_word reply = "approve")) as [->|E1]; [by intros _; left|].
  destruct (decide (reply_word reply = "always_approve")) as [->|E2]; [by intros _; right; left|].
  rewrite (bool_decide_eq_false_2 _ E1), (bool_decide_eq_false_2 _ E2). unfold always_rejected. by repeat case_match.
Qed.

End Hub.
End PromptLaws.

(** * Scenes *)

Module PromptScene.
#[local] Existing Instance PolicyScene.scene_libs.
#[local] Existing Instance PolicyScene.scene_bash.
#[local] Existing Instance AutoScene.scene_json.
#[local] Instance scene_meta : AnswerMeta := {|
  selected_terms j := strip_prefix "terms:" j ≫= λ t, Some (split_on " "%char t);
  scope_selection j := ScopeServer <$> strip_prefix "server:" j;
|}.

(** "Don't ask again for bash commands" remembers this script and no other, and "don't
    run bash commands" refuses this call and no other. *)
Theorem generic_bash_answers cmd id :
  let ask opt := outcome_of (MkPrompter Generic true) (AK.Bash cmd) id (AskedClient (ReplySelected opt None)) in
  ask "always-allow" = PO.AllowAlways ∧ ask "reject-always" = PO.RejectOnce.
Proof. done. Qed.

(** What a client sends as the selected words of a command is taken as it is. *)
Theorem selected_words_taken :
  outcome_of (MkPrompter AinxtPager true) (AK.Bash "ls") "1" (AskedClient (ReplySelected "allow-always-command" (Some "terms:rm")))
  = PO.AllowAlwaysBashCommand "rm".
Proof. by vm_compute. Qed.

Definition approving (payload : Json) : result string Json := Ok ("approve" : Json).
Lemma hub_fails_closed_witness : ∃ reply : Json, reply_word reply ∈ ["approve"; "always_approve"].
Proof.
  destruct (hub_fails_closed approving (AK.Bash "ls") "1" ltac:(by vm_compute)) as (reply & _ & Hw).
  by exists reply.
Defined.

End PromptScene.
