(* ===== verification/PermissionManager.v ===== *)
(** The permission manager (crate [ainxt-workspace], [permission/manager.rs] and
    [permission/pep_gate.rs]): the handle that asks the enforcement point first, the
    actor that answers one request at a time from the policy, the modes, the grants,
    the classifier and the user, and what it remembers. *)
From stdpp Require Import list gmap gmultiset sets strings.
From S2P Require Import Prelude RustStr StrSearch PolicyTypes PolicyEngine SessionRisk AuditChain Pep ShellWords ShellTree.
From S2P Require Import Permission PermissionShell PermissionGrants PermissionAuto PermissionPrompt.

(** * The enforcement point before the manager ([pep_gate.rs]) *)

Module Export PepGate.

Inductive PepOutcome : Type := PepProceed | PepForcedPrompt (reason : string) | PepDeny (reason : string).

Section Gate.
Context {St : Type} `{RiskStore St} `{BashParser} `{AuditEnv} `{RecordCodec} `{PermissionLibs}.

Definition intent_for (windows : bool) (access : AK.AccessKind Json) : Intent :=
  match access with
  | AK.Bash command => IntentShell command (default_shell windows)
  | AK.Read (Some path) => FileRead path
  | AK.Read None => ToolCall "read"
  | AK.Edit path => FileWrite path
  | AK.Grep _ _ => ToolCall "grep"
  | AK.WebFetch url => Egress url
  | AK.WebSearch _ => ToolCall "websearch"
  | AK.MCPTool name _ =>
      match split_once_str "__" name with
      | Some (server, tool) => McpCall server tool
      | None => McpCall "unknown" name
      end
  end.

Definition influence_tier : TrustTier := Tier.Operator.

Definition gate_request (vars : Vars) (windows : bool) (access : AK.AccessKind Json) (session_id subagent_type : option string)
  : Request :=
  MkRequest (local_principal vars session_id subagent_type) (intent_for windows access) influence_tier.

(** [evaluate]: the outcome and the enforcement point after it, if one is installed. *)
Definition pep_evaluate (env : Env) (engine : PolicyEngine) (pep : option (Pep St)) (request : Request)
  : PepOutcome * option (Pep St) :=
  match pep with
  | None => (PepProceed, None)
  | Some p =>
      let '(a, p) := authorize env engine request p in
      (match obligation a with
       | Proceed => PepProceed
       | Prompt reason _ => PepForcedPrompt reason
       | Refuse reason => PepDeny reason
       end, Some p)
  end.

Definition note_outcome (env : Env) (vars : Vars) (program : string) (success : bool) (pep : option (Pep St))
  : option (Pep St) :=
  observe_effect env (local_principal vars None None) (Outcome program success) <$> pep.

End Gate.
End PepGate.

(** * What the actor keeps *)

Module Export ActorState.
Section State.
Context `{JsonValues}.

(** What is fixed when the actor is spawned. *)
Record Manager : Type := MkManager {
  mgr_cwd : string;
  prompter : AcpPrompter;
  yolo_pin : option string;
  prompt_policy : PP.PromptPolicy;
  compiled_policy : option CompiledPolicy;
  static_domain_matcher : DomainMatcher;
  client_identifier : option string;
}.

Record Actor : Type := MkActor {
  actor_state : PermissionState;
  yolo_mode : bool;
  auto_mode : bool;
  auto_classifier : option Classifier;
  classifier_turns : list ClassifierTurn;
  recorded_permission_decisions : list ClassifierTurn;
  actor_instructions : option string;
  pin_refusal_logged : bool;
  allow_edits_for_session : bool;
  state_dir : StateDir;
}.

Definition with_state (a : Actor) (s : PermissionState) : Actor :=
  MkActor s (yolo_mode a) (auto_mode a) (auto_classifier a) (classifier_turns a) (recorded_permission_decisions a)
    (actor_instructions a) (pin_refusal_logged a) (allow_edits_for_session a) (state_dir a).
Definition with_dir (a : Actor) (d : StateDir) : Actor :=
  MkActor (actor_state a) (yolo_mode a) (auto_mode a) (auto_classifier a) (classifier_turns a)
    (recorded_permission_decisions a) (actor_instructions a) (pin_refusal_logged a) (allow_edits_for_session a) d.
Definition with_edits (a : Actor) (b : bool) : Actor :=
  MkActor (actor_state a) (yolo_mode a) (auto_mode a) (auto_classifier a) (classifier_turns a)
    (recorded_permission_decisions a) (actor_instructions a) (pin_refusal_logged a) b (state_dir a).
Definition with_modes (a : Actor) (yolo auto : bool) : Actor :=
  MkActor (actor_state a) yolo auto (auto_classifier a) (classifier_turns a) (recorded_permission_decisions a)
    (actor_instructions a) (pin_refusal_logged a) (allow_edits_for_session a) (state_dir a).
Definition with_recorded (a : Actor) (l : list ClassifierTurn) : Actor :=
  MkActor (actor_state a) (yolo_mode a) (auto_mode a) (auto_classifier a) (classifier_turns a) l (actor_instructions a)
    (pin_refusal_logged a) (allow_edits_for_session a) (state_dir a).
Definition with_classifier (a : Actor) (c : option Classifier) : Actor :=
  MkActor (actor_state a) (yolo_mode a) (auto_mode a) c (classifier_turns a) (recorded_permission_decisions a)
    (actor_instructions a) (pin_refusal_logged a) (allow_edits_for_session a) (state_dir a).
Definition with_turns (a : Actor) (l : list ClassifierTurn) : Actor :=
  MkActor (actor_state a) (yolo_mode a) (auto_mode a) (auto_classifier a) l (recorded_permission_decisions a)
    (actor_instructions a) (pin_refusal_logged a) (allow_edits_for_session a) (state_dir a).
Definition with_instructions (a : Actor) (i : option string) : Actor :=
  MkActor (actor_state a) (yolo_mode a) (auto_mode a) (auto_classifier a) (classifier_turns a)
    (recorded_permission_decisions a) i (pin_refusal_logged a) (allow_edits_for_session a) (state_dir a).
Definition with_refusal (a : Actor) (b : bool) : Actor :=
  MkActor (actor_state a) (yolo_mode a) (auto_mode a) (auto_classifier a) (classifier_turns a)
    (recorded_permission_decisions a) (actor_instructions a) b (allow_edits_for_session a) (state_dir a).

(** [persist_state]: a write that fails is only logged. *)
Definition persist (m : Manager) (write_fails : bool) (a : Actor) : Actor :=
  if write_fails then a else with_dir a (persist_state_to_dir (state_dir a) (actor_state a) (client_identifier m)).

Definition with_edit_policy (s : PermissionState) (p : EP.EditPolicy) : PermissionState :=
  MkPermState p (allow_bash_execute s) (allowed_bash_commands s) (disallowed_bash_commands s)
    (allowed_web_fetch_domains s) (allowed_mcp_tools s) (allowed_mcp_servers s).
Definition allow_command (s : PermissionState) (c : string) : PermissionState :=
  MkPermState (edit_policy s) (allow_bash_execute s) ({[c]} ∪ allowed_bash_commands s) (disallowed_bash_commands s)
    (allowed_web_fetch_domains s) (allowed_mcp_tools s) (allowed_mcp_servers s).
Definition disallow_command (s : PermissionState) (c : string) : PermissionState :=
  MkPermState (edit_policy s) (allow_bash_execute s) (allowed_bash_commands s) ({[c]} ∪ disallowed_bash_commands s)
    (allowed_web_fetch_domains s) (allowed_mcp_tools s) (allowed_mcp_servers s).
Definition allow_domain (s : PermissionState) (d : string) : PermissionState :=
  MkPermState (edit_policy s) (allow_bash_execute s) (allowed_bash_commands s) (disallowed_bash_commands s)
    ({[d]} ∪ allowed_web_fetch_domains s) (allowed_mcp_tools s) (allowed_mcp_servers s).
Definition allow_mcp_tool (s : PermissionState) (t : string) : PermissionState :=
  MkPermState (edit_policy s) (allow_bash_execute s) (allowed_bash_commands s) (disallowed_bash_commands s)
    (allowed_web_fetch_domains s) ({[t]} ∪ allowed_mcp_tools s) (allowed_mcp_servers s).
Definition allow_mcp_server (s : PermissionState) (p : string) : PermissionState :=
  MkPermState (edit_policy s) (allow_bash_execute s) (allowed_bash_commands s) (disallowed_bash_commands s)
    (allowed_web_fetch_domains s) (allowed_mcp_tools s) ({[p]} ∪ allowed_mcp_servers s).

(** ** Spawning *)

Definition clamp_yolo (requested : bool) (pin : option string) : bool := requested && bool_decide (pin = None).

Context `{BashParser}.

Definition spawn_manager (cwd : string) (p : AcpPrompter) (permission_config : option PermissionConfig)
    (web_fetch_allowed_domains : list string) (pin client : option string) : Manager :=
  MkManager cwd p pin (default PP.Ask (config_prompt_policy <$> permission_config))
    (CompiledPolicy_new <$> permission_config) (DomainMatcher_new web_fetch_allowed_domains) client.

(** The modes the session begins with. *)
Definition seed_modes (permission_config : option PermissionConfig) (initial_yolo : bool) (pin : option string) : bool * bool :=
  let yolo := clamp_yolo initial_yolo pin in
  (yolo, negb yolo && bool_decide (config_prompt_policy <$> permission_config = Some PP.Auto)).

Definition spawn_actor (m : Manager) (modes : bool * bool) (write_fails : bool) (dir : StateDir) : Actor :=
  let state := load_state_from_dir dir (client_identifier m) in
  let a := MkActor state modes.1 modes.2 (Some default_auto_mode_classifier) [] [] None false false dir in
  if bool_decide (edit_policy state = EP.Allow) then persist m write_fails (with_state a (with_edit_policy state EP.Ask)) else a.

End State.
End ActorState.

(** * One request *)

Module Export Requests.
Section Requests.
Context `{AnswerMeta} `{BashParser} `{LinkFs} `{HashOrder}.

Record PermissionRequest : Type := MkPermRequest {
  access : AK.AccessKind Json;
  tool_call_id : string;
  request_session_id : option string;
  request_subagent_type : option string;
  request_subagent_description : option string;
  pep_forced_prompt : bool;
}.

(** What the actor meets while it answers: the active policy engine, whether the
    sandbox lets commands through, how many requests wait, when the requester goes
    away, where the question goes, and whether a write of the state fails. *)
Record Surroundings : Type := MkSurroundings {
  engine : PolicyEngine;
  should_auto_allow_bash : bool;
  queue_depth : nat;
  gone_at_dequeue : bool;
  gone_in_classify : bool;
  gone_before_prompt : bool;
  gone_in_prompt : bool;
  gone_at_end : bool;
  asked : Asked;
  write_fails : bool;
}.

(** The event of a decision; its two times are left out. *)
Record PermissionEvent : Type := MkPermEvent {
  event_tool_id : string;
  event_tool_name : string;
  event_access_kind : string;
  event_access_detail : option string;
  event_yolo_mode : bool;
  auto_approved : bool;
  user_prompted : bool;
  event_decision : string;
  event_prompt_outcome : option string;
  reject_reason : option string;
  event_session_id : option string;
  event_subagent_type : option string;
  event_subagent_description : option string;
  permission_mode : string;
  decision_reason : option string;
  event_queue_depth : nat;
}.

(** What a request leaves: the actor, the event, and the answer if one was sent. *)
Record Handled : Type := MkHandled { after : Actor; event : PermissionEvent; answer : option Dec.Decision }.

Definition access_detail (a : AK.AccessKind Json) : option string :=
  match a with
  | AK.Read _ => None
  | AK.Grep path _ => path
  | AK.Edit path => Some path
  | AK.Bash cmd => Some cmd
  | AK.MCPTool name input => Some (mcp_access_detail name input)
  | AK.WebFetch url => Some url
  | AK.WebSearch query => Some query
  end.

Definition decision_str (d : Dec.Decision) : string * option string :=
  match d with
  | Dec.Allow => ("allow", None)
  | Dec.Ask => ("ask", None)
  | Dec.Reject reason | Dec.PolicyDeny reason => ("reject", Some reason)
  | Dec.FollowupMessage _ => ("followup", None)
  | Dec.Cancelled => ("cancelled", None)
  end.

Definition mode_str (a : Actor) : string :=
  if yolo_mode a then "always-approve" else if auto_mode a then "auto" else "ask".

Definition emit_event (a : Actor) (r : PermissionRequest) (w : Surroundings) (d : Dec.Decision) (auto prompted : bool)
    (outcome reason : option string) : PermissionEvent :=
  MkPermEvent (tool_call_id r) (tool_name_for_access (access r)) (access_kind_str (access r)) (access_detail (access r))
    (yolo_mode a) auto prompted (decision_str d).1 outcome (decision_str d).2 (request_session_id r)
    (request_subagent_type r) (request_subagent_description r) (mode_str a) reason (queue_depth w).

(** ** The gates *)

Record Gates : Type := MkGates {
  policy_decision : option Dec.Decision;
  policy_forced_prompt : bool;
  shell_file_forced_prompt : bool;
  shell_forced_prompt : bool;
  sovereign_forced_prompt : bool;
}.

Definition is_ask (d : option Dec.Decision) : bool := bool_decide (d = Some Dec.Ask).

Definition gates (m : Manager) (r : PermissionRequest) (w : Surroundings) : Gates :=
  let direct_decision := policy ← compiled_policy m; evaluate policy (access r) in
  let shell_command_decision :=
    policy ← compiled_policy m;
    match access r with AK.Bash cmd => evaluate_bash_command_policy policy cmd | _ => None end in
  let shell_file_decision :=
    policy ← compiled_policy m;
    match access r with AK.Bash cmd => evaluate_shell_file_access policy cmd (mgr_cwd m) | _ => None end in
  let decision := combine_decisions (combine_decisions direct_decision shell_command_decision) shell_file_decision in
  MkGates decision (is_ask decision) (is_ask shell_file_decision)
    (is_ask shell_file_decision || is_ask shell_command_decision)
    (pep_forced_prompt r ||
     (is_enforcing (engine w) &&
      match sovereign_classify (access r) with Some a => negb (can_auto_approve (engine w) a) | None => false end)).

(** ** Auto mode *)

Inductive AutoStage : Type :=
| StageAllow (reason : string)
| StageGone
| StageNext (auto_forced_prompt : bool) (auto_prompt_reason : option string).

Definition auto_stage (a : Actor) (r : PermissionRequest) (w : Surroundings) (g : Gates) : AutoStage :=
  if auto_mode a && negb (policy_forced_prompt g) && negb (shell_forced_prompt g) && negb (sovereign_forced_prompt g) then
    let tool_name := tool_name_for_access (access r) in
    match auto_mode_fast_path (access r) tool_name (access_requires_user_interaction tool_name (access r)) with
    | FastAllow => StageAllow Reasons.AUTO_FAST_PATH
    | FastPromptUser => StageNext true (Some Reasons.NEEDS_USER)
    | FastClassify =>
        match auto_classifier a with
        | None => StageNext true (Some Reasons.AUTO_CLASSIFIER_BLOCK)
        | Some clf =>
            if gone_in_classify w then StageGone
            else
              let ctx := MkContext (classifier_turns a ++ recorded_permission_decisions a) (actor_instructions a) in
              match clf tool_name (access r) (access_detail (access r)) ctx with
              | CV.Allow => StageAllow Reasons.AUTO_CLASSIFIER_ALLOW
              | CV.Block | CV.Unavailable => StageNext true (Some Reasons.AUTO_CLASSIFIER_BLOCK)
              end
        end
    end
  else StageNext false None.

(** ** What is decided without a question *)

Definition pre_decision (m : Manager) (a : Actor) (r : PermissionRequest) (g : Gates) (auto_forced_prompt : bool)
  : option (Dec.Decision * string) :=
  let state := actor_state a in
  match access r with
  | AK.Read _ | AK.Grep _ _ => if policy_forced_prompt g then None else Some (Dec.Allow, Reasons.SAFE_COMMAND)
  | AK.WebSearch _ => Some (Dec.Allow, Reasons.SAFE_COMMAND)
  | AK.MCPTool name _ =>
      (λ d, (d, Reasons.PERSISTED_GRANT)) <$>
      mcp_pre_decision name state (policy_forced_prompt g) (remember_tool_approvals (prompter m))
  | AK.Edit _ =>
      if allow_edits_for_session a then Some (Dec.Allow, Reasons.PERSISTED_GRANT)
      else match edit_policy state with
           | EP.Reject => Some (Dec.Reject "edits prohibited", Reasons.SESSION_DENY)
           | EP.Ask | EP.Allow => None
           end
  | AK.Bash cmd =>
      if policy_forced_prompt g then
        if remember_tool_approvals (prompter m) && negb auto_forced_prompt && negb (shell_file_forced_prompt g)
        then bash_grant_pre_decision cmd state (yolo_pin m) ASK_FLOOR_REMEMBER
        else None
      else bash_grant_pre_decision cmd state (yolo_pin m) (post_classify auto_forced_prompt)
  | AK.WebFetch url => web_fetch_grant url state (static_domain_matcher m) Reasons.PERSISTED_GRANT
  end.

Definition auto_prompt_blocks_allow (a : AK.AccessKind Json) : bool := match a with AK.Bash _ => false | _ => true end.
Definition neutralize (a : AK.AccessKind Json) (auto_forced_prompt : bool) (d : option (Dec.Decision * string))
  : option (Dec.Decision * string) :=
  if auto_forced_prompt && auto_prompt_blocks_allow a && bool_decide (fst <$> d = Some Dec.Allow) then None else d.

(** ** The question *)

(** The decision an answer stands for, its name, and the actor after it; [save] writes
    the new state to disk. *)
Definition save (m : Manager) (w : Surroundings) (a : Actor) (s : PermissionState) : Actor :=
  persist m (write_fails w) (with_state a s).

Definition bash_answer (m : Manager) (w : Surroundings) (a : Actor) (cmd : string) (o : PO.PromptOutcome)
  : Dec.Decision * string * Actor :=
  let state := actor_state a in
  match o with
  | PO.AllowOnce => (Dec.Allow, "allow_once", a)
  | PO.AllowAlways => (Dec.Allow, "allow_always", save m w a (allow_command state cmd))
  | PO.AllowAlwaysBashCommand prefix => (Dec.Allow, "allow_always_bash", save m w a (allow_command state prefix))
  | PO.AllowAlwaysDomain _ | PO.AllowAlwaysMcpTool _ | PO.AllowAlwaysMcpServer _ | PO.AllowEditsForSession =>
      (Dec.Allow, "allow_once", a)
  | PO.RejectOnce => (Dec.Reject "User rejected the execution", "reject_once", a)
  | PO.RejectAlwaysBashCommand prefix =>
      (Dec.Reject ("User rejected the execution and excluded " +:+ prefix +:+ " from this session"), "reject_always_bash",
       save m w a (disallow_command state prefix))
  | PO.Cancelled => (Dec.Cancelled, "cancelled", a)
  | PO.FollowupMessage msg => (Dec.FollowupMessage msg, "followup", a)
  | PO.Error e => (Dec.Reject ("Failed to request permission from user: " +:+ e), "error", a)
  end.

(** The server part of the tool that was asked about. *)
Definition canonical_server (name : string) : option string :=
  match split_once_str "__" name with
  | Some (s, _) => if is_empty s then None else Some s
  | None => None
  end.

Definition other_answer (m : Manager) (w : Surroundings) (a : Actor) (acc : AK.AccessKind Json) (o : PO.PromptOutcome)
  : Dec.Decision * string * Actor :=
  let state := actor_state a in
  match o with
  | PO.AllowOnce => (Dec.Allow, "allow_once", a)
  | PO.AllowEditsForSession => (Dec.Allow, "allow_edits_for_session", with_edits a true)
  | PO.AllowAlways =>
      (Dec.Allow, "allow_always",
       save m w a (match acc with AK.MCPTool name _ => allow_mcp_tool state name | _ => state end))
  | PO.AllowAlwaysBashCommand _ => (Dec.Allow, "allow_always_bash", a)
  | PO.AllowAlwaysDomain domain =>
      (Dec.Allow, "allow_always_domain",
       match acc with AK.WebFetch _ => save m w a (allow_domain state domain) | _ => a end)
  | PO.AllowAlwaysMcpTool _ =>
      (Dec.Allow, "allow_always_mcp_tool",
       match acc with AK.MCPTool access_name _ => save m w a (allow_mcp_tool state access_name) | _ => a end)
  | PO.AllowAlwaysMcpServer server_prefix =>
      (Dec.Allow, "allow_always_mcp_server",
       match acc with
       | AK.MCPTool access_name _ =>
           save m w a
             (if bool_decide (canonical_server access_name = Some server_prefix)
              then allow_mcp_server state server_prefix else allow_mcp_tool state access_name)
       | _ => a
       end)
  | PO.RejectAlwaysBashCommand _ => (Dec.Reject "User rejected the execution", "reject_always_bash", a)
  | PO.RejectOnce => (Dec.Reject "User rejected the execution", "reject_once", a)
  | PO.Cancelled => (Dec.Cancelled, "cancelled", a)
  | PO.Error e => (Dec.Reject ("Failed to request permission from user: " +:+ e), "error", a)
  | PO.FollowupMessage msg => (Dec.FollowupMessage msg, "followup", a)
  end.

Definition MAX_RECORDED_PERMISSION_DECISIONS : nat := 12.

Definition prompted_decision_approved (d : Dec.Decision) (outcome_str : string) : option bool :=
  match d with
  | Dec.Allow => Some true
  | Dec.Reject _ => if bool_decide (outcome_str = "error") then None else Some false
  | _ => None
  end.

Definition record_prompted (r : PermissionRequest) (d : Dec.Decision) (outcome_str : string) (a : Actor) : Actor :=
  match prompted_decision_approved d outcome_str with
  | None => a
  | Some approved =>
      let l := recorded_permission_decisions a ++
        [PermissionDecision (tool_name_for_access (access r))
           (permission_decision_args (access r) (access_detail (access r))) approved] in
      with_recorded a (drop (length l - MAX_RECORDED_PERMISSION_DECISIONS) l)
  end.

(** The open prompt: the answer, or [Cancelled] when the requester leaves first. *)
Definition prompt_stage (m : Manager) (a : Actor) (r : PermissionRequest) (w : Surroundings) (trigger : string) : Handled :=
  let outcome :=
    if gone_in_prompt w then PO.Cancelled
    else default PO.Cancelled (prompter_request (prompter m) (access r) (tool_call_id r) (Some (asked w))).1 in
  let '(decision, outcome_str, a') :=
    match access r with
    | AK.Bash cmd => bash_answer m w a cmd outcome
    | acc => other_answer m w a acc outcome
    end in
  let trigger := if bool_decide (decision = Dec.Cancelled) && gone_at_end w then Reasons.REQUESTER_GONE else trigger in
  MkHandled (record_prompted r decision outcome_str a')
    (emit_event a r w decision false true (Some outcome_str) (Some trigger)) (Some decision).

(** ** The whole request, in the order of its checks *)

(** An answer without a question. *)
Definition answered (a : Actor) (r : PermissionRequest) (w : Surroundings) (auto : bool) (d : Dec.Decision) (reason : string)
  : Handled := MkHandled a (emit_event a r w d auto false None (Some reason)) (Some d).
Definition gone (a : Actor) (r : PermissionRequest) (w : Surroundings) : Handled :=
  MkHandled a (emit_event a r w Dec.Cancelled false false None (Some Reasons.REQUESTER_GONE)) None.

(** From the prompt policy on. *)
Definition ask_stage (m : Manager) (a : Actor) (r : PermissionRequest) (w : Surroundings) (g : Gates)
    (auto_prompt_reason : option string) : Handled :=
  if bool_decide (prompt_policy m = PP.Deny)
  then answered a r w false (Dec.PolicyDeny "denied by prompt policy (tool not pre-approved)") Reasons.PROMPT_DENY
  else if gone_before_prompt w then gone a r w
  else
    prompt_stage m a r w
      (if policy_forced_prompt g || shell_forced_prompt g then Reasons.POLICY_ASK
       else default Reasons.NEEDS_USER auto_prompt_reason).

(** From the sandbox on. *)
Definition late_stage (m : Manager) (a : Actor) (r : PermissionRequest) (w : Surroundings) (g : Gates)
    (auto_forced_prompt : bool) (auto_prompt_reason : option string) : Handled :=
  if match access r with AK.Bash _ => true | _ => false end && should_auto_allow_bash w &&
     negb (policy_forced_prompt g) && negb auto_forced_prompt && negb (sovereign_forced_prompt g)
  then answered a r w true Dec.Allow Reasons.SANDBOX_AUTO
  else
    let undecided :=
      match neutralize (access r) auto_forced_prompt (pre_decision m a r g auto_forced_prompt) with
      | Some (decision, reason) => answered a r w true decision reason
      | None => ask_stage m a r w g auto_prompt_reason
      end in
    match policy_decision g with
    | Some Dec.Ask | None => undecided
    | Some decision => answered a r w true decision Reasons.POLICY_ALLOW
    end.

(** From the modes on. *)
Definition open_stage (m : Manager) (a : Actor) (r : PermissionRequest) (w : Surroundings) (g : Gates) : Handled :=
  if yolo_mode a && negb (shell_forced_prompt g) && negb (sovereign_forced_prompt g)
  then answered a r w true Dec.Allow Reasons.YOLO
  else
    match
      (if negb (policy_forced_prompt g) && negb (shell_forced_prompt g) && negb (sovereign_forced_prompt g)
       then session_grant_pre_decision (access r) (actor_state a) (allow_edits_for_session a)
              (static_domain_matcher m) (yolo_pin m)
       else None)
    with
    | Some (decision, reason) => answered a r w true decision reason
    | None =>
        match auto_stage a r w g with
        | StageAllow reason => answered a r w true Dec.Allow reason
        | StageGone => gone a r w
        | StageNext forced reason => late_stage m a r w g forced reason
        end
    end.

Definition handle_request (m : Manager) (a : Actor) (r : PermissionRequest) (w : Surroundings) : Handled :=
  if gone_at_dequeue w then gone a r w
  else
    let g := gates m r w in
    match policy_decision g with
    | Some (Dec.Reject reason) => answered a r w false (Dec.PolicyDeny reason) Reasons.POLICY_DENY
    | _ => open_stage m a r w g
    end.

End Requests.
End Requests.

(** * The handle and the actor together *)

Module Export Handles.
Section Handles.
Context `{AnswerMeta} `{BashParser} `{LinkFs} `{HashOrder}.

Inductive PermissionCommand : Type :=
| CommandRequest (r : PermissionRequest)
| SetYoloMode (enabled : bool)
| SetAutoMode (enabled : bool)
| SetClassifier (c : option Classifier)
| SetClassifierTranscript (l : list ClassifierTurn)
| SetProjectInstructions (i : option string)
| ResetState
| Shutdown.

(** The flags the clones of the handle share with the actor. *)
Record Shared : Type := MkShared { yolo_state : bool; auto_state : bool; side_query_wired : bool }.

(** [AllowAll] has no actor. *)
Inductive PermissionHandle : Type := HandleActor (s : Shared) | HandleAllowAll.
Definition is_yolo_mode (h : PermissionHandle) : bool := match h with HandleActor s => yolo_state s | HandleAllowAll => true end.
Definition is_auto_mode (h : PermissionHandle) : bool := match h with HandleActor s => auto_state s | HandleAllowAll => false end.
Definition has_llm_side_query (h : PermissionHandle) : bool :=
  match h with HandleActor s => side_query_wired s | HandleAllowAll => false end.

(** The two modes after a command that sets one of them. *)
Definition modes_after (pin : option string) (c : PermissionCommand) (modes : bool * bool) : bool * bool :=
  match c with
  | SetYoloMode enabled => let clamped := clamp_yolo enabled pin in (clamped, if clamped then false else modes.2)
  | SetAutoMode enabled => (if enabled then false else modes.1, enabled)
  | _ => modes
  end.
Definition flags (s : Shared) : bool * bool := (yolo_state s, auto_state s).
Definition with_flags (s : Shared) (modes : bool * bool) : Shared := MkShared modes.1 modes.2 (side_query_wired s).
Definition with_wired (s : Shared) (b : bool) : Shared := MkShared (yolo_state s) (auto_state s) b.

(** The operations of the handle: what each stores in the flags at once, and the
    command it sends. *)
Definition set_yolo_mode (m : Manager) (s : Shared) (enabled : bool) : Shared * PermissionCommand :=
  (with_flags s (modes_after (yolo_pin m) (SetYoloMode enabled) (flags s)), SetYoloMode enabled).
Definition set_auto_mode (m : Manager) (s : Shared) (enabled : bool) : Shared * PermissionCommand :=
  (with_flags s (modes_after (yolo_pin m) (SetAutoMode enabled) (flags s)), SetAutoMode enabled).
Definition set_classifier (s : Shared) (c : option Classifier) : Shared * PermissionCommand :=
  (with_wired s false, SetClassifier c).
Definition set_classifier_with_side_query (s : Shared) (c : Classifier) (has_side_query : bool) : Shared * PermissionCommand :=
  (with_wired s has_side_query, SetClassifier (Some c)).
Definition set_llm_side_query_wired (s : Shared) (wired : bool) : Shared := with_wired s wired.
Definition set_classifier_transcript (s : Shared) (l : list ClassifierTurn) : Shared * PermissionCommand :=
  (s, SetClassifierTranscript l).
Definition set_project_instructions (s : Shared) (i : option string) : Shared * PermissionCommand :=
  (s, SetProjectInstructions i).
Definition reset_state (s : Shared) : Shared * PermissionCommand := (s, ResetState).

(** [PermissionHandle::request] up to the actor's answer: what is decided at once, or
    the request that is sent. *)
Definition request_begin (h : PermissionHandle) (pep : PepOutcome) (engine : PolicyEngine) (acc : AK.AccessKind Json)
    (id : string) (session subagent description : option string) : Dec.Decision + PermissionRequest :=
  match pep with
  | PepDeny reason => inl (Dec.PolicyDeny reason)
  | _ =>
      let forced := match pep with PepForcedPrompt _ => true | _ => false end in
      match h with
      | HandleActor _ => inr (MkPermRequest acc id session subagent description forced)
      | HandleAllowAll =>
          inl (if forced then
                 Dec.PolicyDeny "this action requires interactive human approval; not permitted under allow-all"
               else if is_enforcing engine &&
                 match sovereign_classify acc with Some a => negb (can_auto_approve engine a) | None => false end
               then Dec.PolicyDeny
                 "sovereign action requires interactive human approval; not permitted under allow-all (INV-5)"
               else Dec.Allow)
      end
  end.
(** What the caller gets when the actor is gone before or after the request is sent. *)
Definition unreachable_answer (sent : bool) : Dec.Decision :=
  Dec.Reject (if sent then "failed to receive permission decision" else "permission manager unavailable").

(** ** The commands *)

Definition process (m : Manager) (s : Shared) (a : Actor) (c : PermissionCommand) (w : Surroundings) : Shared * Actor :=
  match c with
  | CommandRequest r => (s, after (handle_request m a r w))
  | SetYoloMode enabled =>
      let modes := modes_after (yolo_pin m) c (yolo_mode a, auto_mode a) in
      let refused := enabled && negb (clamp_yolo enabled (yolo_pin m)) in
      (with_flags s (modes_after (yolo_pin m) c (flags s)),
       with_refusal (with_modes a modes.1 modes.2) (pin_refusal_logged a || refused))
  | SetAutoMode enabled =>
      let modes := modes_after (yolo_pin m) c (yolo_mode a, auto_mode a) in
      let a := with_modes a modes.1 modes.2 in
      (with_flags s (modes_after (yolo_pin m) c (flags s)),
       if enabled && bool_decide (auto_classifier a = None)
       then with_classifier a (Some default_auto_mode_classifier) else a)
  | SetClassifier clf => (s, with_classifier a clf)
  | SetClassifierTranscript l => (s, with_turns a l)
  | SetProjectInstructions i => (s, with_instructions a i)
  | ResetState => (s, with_edits (save m w a PermissionState_default) false)
  | Shutdown => (s, a)
  end.

(** The handles, the channel and the actor. *)
Record System : Type := MkSystem { shared : Shared; actor : Actor; queue : list PermissionCommand; stopped : bool }.

Definition posted (m : Manager) (s : System) (c : PermissionCommand) : System :=
  MkSystem (with_flags (shared s) (modes_after (yolo_pin m) c (flags (shared s)))) (actor s) (queue s ++ [c]) (stopped s).

(** A handle sends a command; the wiring of a side query changes; the actor takes a
    command from the channel, in surroundings that [ok] admits. *)
Inductive system_step (m : Manager) (ok : Surroundings → Prop) (s : System) : System → Prop :=
| step_post c : system_step m ok s (posted m s c)
| step_wire b : system_step m ok s (MkSystem (with_wired (shared s) b) (actor s) (queue s) (stopped s))
| step_take c rest w : stopped s = false → queue s = c :: rest → ok w →
    system_step m ok s
      (MkSystem (process m (shared s) (actor s) c w).1 (process m (shared s) (actor s) c w).2 rest
         (match c with Shutdown => true | _ => false end)).

(** A session from its first moment on. *)
Definition spawned (m : Manager) (modes : bool * bool) (write_fails : bool) (dir : StateDir) : System :=
  MkSystem (MkShared modes.1 modes.2 false) (spawn_actor m modes write_fails dir) [] false.
Definition session_reaches (m : Manager) (ok : Surroundings → Prop) (s t : System) : Prop := rtc (system_step m ok) s t.

End Handles.
End Handles.
