(* ===== verification/PermissionLaws.v ===== *)
(** What the permission manager guarantees: which paths lead to an answer without a
    question, that denials and ask rules bind, what is remembered and for whom, and
    that the modes the handles show and those of the actor come to agree. *)
From stdpp Require Import list gmap gmultiset sets strings relations.
From S2P Require Import Prelude RustStr StrSearch PolicyTypes PolicyEngine ShellWords ShellTree.
From S2P Require Import Permission PermissionShell PermissionGrants PermissionAuto PermissionPrompt PermissionManager.

(** * What the gates can say *)

Module Export GateFacts.

(** An opinion of a policy: to allow, or an objection. *)
Definition opinion (d : option Dec.Decision) : Prop := d = Some Dec.Allow ∨ objection d.

Lemma opinion_combine a b : opinion a → opinion b → opinion (combine_decisions a b).
Proof. unfold opinion, objection, rejects. destruct a as [[]|], b as [[]|]; cbn; naive_solver. Qed.
Lemma rejects_opinions a b : opinion a → opinion b → rejects (combine_decisions a b) ↔ rejects a ∨ rejects b.
Proof. unfold opinion, objection, rejects. destruct a as [[]|], b as [[]|]; cbn; naive_solver. Qed.

Section Facts.
Context `{PermissionLibs} `{BashParser} `{LinkFs}.

Lemma evaluate_opinion self acc : opinion (evaluate self acc).
Proof.
  pose proof (evaluate_objects self acc) as Ho. unfold opinion. destruct (evaluate self acc) as [[]|]; cbn in Ho; auto.
Qed.
Lemma commands_object self cmd : objection (evaluate_bash_command_policy self cmd).
Proof.
  unfold evaluate_bash_command_policy. destruct (negb _); [by left|]. apply segments_object.
Qed.
Lemma files_object self cmd cwd : objection (evaluate_shell_file_access self cmd cwd).
Proof.
  destruct (has_file_restrictions self) eqn:Hf; [|by left; unfold evaluate_shell_file_access; rewrite Hf].
  destruct (try_parse_shell cmd) as [root|] eqn:Er.
  - destruct (gate_judges self cwd cmd root Er Hf) as [forced ->]. apply objection_combine.
    + apply combine_all_objects, Forall_forall. intros. apply judged_objects.
    + destruct forced; [right; by left|by left].
  - unfold evaluate_shell_file_access. rewrite Hf, Er. cbn. unfold objection. auto.
Qed.
End Facts.

Section Gates.
Context `{AnswerMeta} `{BashParser} `{LinkFs} `{HashOrder}.

(** A denial by any of the three judgements of the policy. *)
Definition denied (m : Manager) (r : PermissionRequest) : Prop :=
  ∃ policy, compiled_policy m = Some policy ∧
    (rejects (evaluate policy (access r)) ∨
     ∃ cmd, access r = AK.Bash cmd ∧
       (rejects (evaluate_bash_command_policy policy cmd) ∨ rejects (evaluate_shell_file_access policy cmd (mgr_cwd m)))).

Lemma gates_rejects m r w : rejects (policy_decision (gates m r w)) ↔ denied m r.
Proof.
  unfold gates, denied. cbn [policy_decision]. destruct (compiled_policy m) as [policy|]; cbn [mbind option_bind].
  2: { split; [by intros [? ?]|by intros (? & ? & _)]. }
  pose proof (evaluate_opinion policy (access r)) as Ho.
  destruct (access r) as [p|p g|p|cmd|n i|u|q].
  4: { rewrite !rejects_opinions by (try apply opinion_combine; try done; right; (apply commands_object || apply files_object)).
       naive_solver. }
  all: rewrite !combine_None_r; naive_solver.
Qed.
Lemma gates_opinion m r w : opinion (policy_decision (gates m r w)).
Proof.
  unfold gates. cbn [policy_decision]. destruct (compiled_policy m) as [policy|]; cbn [mbind option_bind]; [|by right; left].
  pose proof (evaluate_opinion policy (access r)) as Ho.
  destruct (access r) as [p|p g|p|cmd|n i|u|q]; [..|]; rewrite ?combine_None_r; try done.
  repeat apply opinion_combine; try done; right; (apply commands_object || apply files_object).
Qed.
Lemma forced_ask m r w : policy_forced_prompt (gates m r w) = true ↔ policy_decision (gates m r w) = Some Dec.Ask.
Proof. unfold gates, is_ask. cbn. apply bool_decide_eq_true. Qed.

End Gates.
End GateFacts.

(** * The paths of a request *)

Module Export Paths.
Section Paths.
Context `{AnswerMeta} `{BashParser} `{LinkFs} `{HashOrder}.
Context (m : Manager) (a : Actor) (r : PermissionRequest) (w : Surroundings).
Let g := gates m r w.

(** Nothing demands a human. *)
Definition unforced : Prop :=
  policy_forced_prompt g = false ∧ shell_forced_prompt g = false ∧ sovereign_forced_prompt g = false.
(** The mode that approves everything is off or suspended. *)
Definition yolo_blocked : Prop :=
  yolo_mode a = false ∨ shell_forced_prompt g = true ∨ sovereign_forced_prompt g = true.

Inductive path : Handled → Prop :=
| path_gone : path (gone a r w)
| path_denied reason : denied m r → path (answered a r w false (Dec.PolicyDeny reason) Reasons.POLICY_DENY)
| path_yolo : ¬ denied m r → yolo_mode a = true → shell_forced_prompt g = false → sovereign_forced_prompt g = false →
    path (answered a r w true Dec.Allow Reasons.YOLO)
| path_session d reason : ¬ denied m r → unforced →
    session_grant_pre_decision (access r) (actor_state a) (allow_edits_for_session a) (static_domain_matcher m) (yolo_pin m)
      = Some (d, reason) →
    path (answered a r w true d reason)
| path_auto reason : ¬ denied m r → yolo_blocked → auto_mode a = true → unforced → auto_stage a r w g = StageAllow reason →
    path (answered a r w true Dec.Allow reason)
| path_sandbox cmd : ¬ denied m r → yolo_blocked → access r = AK.Bash cmd → should_auto_allow_bash w = true →
    policy_forced_prompt g = false → sovereign_forced_prompt g = false →
    path (answered a r w true Dec.Allow Reasons.SANDBOX_AUTO)
| path_policy : ¬ denied m r → yolo_blocked → policy_decision g = Some Dec.Allow →
    path (answered a r w true Dec.Allow Reasons.POLICY_ALLOW)
| path_pre forced why d reason : ¬ denied m r → yolo_blocked → policy_decision g ≠ Some Dec.Allow →
    auto_stage a r w g = StageNext forced why → neutralize (access r) forced (pre_decision m a r g forced) = Some (d, reason) →
    path (answered a r w true d reason)
| path_prompt_policy reason : ¬ denied m r → prompt_policy m = PP.Deny →
    path (answered a r w false (Dec.PolicyDeny reason) Reasons.PROMPT_DENY)
| path_prompt trigger : ¬ denied m r → prompt_policy m ≠ PP.Deny → path (prompt_stage m a r w trigger).

Lemma ask_path why : ¬ denied m r → path (ask_stage m a r w g why).
Proof.
  intros Hd. unfold ask_stage. case_bool_decide; [by apply path_prompt_policy|].
  destruct (gone_before_prompt w); [apply path_gone|by apply path_prompt].
Qed.

Lemma late_path forced why : ¬ denied m r → yolo_blocked → auto_stage a r w g = StageNext forced why →
  path (late_stage m a r w g forced why).
Proof.
  intros Hd Hy Hs. unfold late_stage.
  destruct (_ && negb (sovereign_forced_prompt g)) eqn:Eb.
  { repeat apply andb_prop in Eb as [Eb ?]. destruct (access r) as [| | |cmd| | |] eqn:Ea; try done. to_prop.
    by apply (path_sandbox cmd). }
  assert (Hu : policy_decision g ≠ Some Dec.Allow → path
    match neutralize (access r) forced (pre_decision m a r g forced) with
    | Some (decision, reason) => answered a r w true decision reason
    | None => ask_stage m a r w g why end).
  { intros Hp. destruct (neutralize _ _ _) as [[d reason]|] eqn:En; [by apply (path_pre forced why)|by apply ask_path]. }
  pose proof (gates_opinion m r w) as Ho. fold g in Ho.
  destruct (policy_decision g) as [d|] eqn:Ep; [|by apply Hu].
  destruct Ho as [[= ->]|[?|[[= ->]|[reason [= ->]]]]]; [by apply path_policy|done|by apply Hu|].
  destruct Hd. apply (gates_rejects m r w). fold g. by exists reason.
Qed.

Lemma open_path : ¬ denied m r → path (open_stage m a r w g).
Proof.
  intros Hd. unfold open_stage. destruct (yolo_mode a && _ && _) eqn:Ey.
  { apply andb_prop in Ey as [[Ey ?]%andb_prop ?]. to_prop. by apply path_yolo. }
  assert (Hy : yolo_blocked).
  { unfold yolo_blocked. destruct (yolo_mode a), (shell_forced_prompt g), (sovereign_forced_prompt g); cbn in Ey; auto. }
  match goal with |- path match ?e with _ => _ end => destruct e as [[d reason]|] eqn:Es end.
  { destruct (negb (policy_forced_prompt g) && _ && _) eqn:Eu; [|done]. apply andb_prop in Eu as [[? ?]%andb_prop ?]. to_prop.
    by apply path_session. }
  destruct (auto_stage a r w g) as [reason| |forced why] eqn:Ea; [|apply path_gone|by apply late_path].
  pose proof Ea as Eu. unfold auto_stage in Eu. destruct (auto_mode a && _ && _ && _) eqn:Ec; [|done].
  apply andb_prop in Ec as [[[? ?]%andb_prop ?]%andb_prop ?]. to_prop. by apply path_auto.
Qed.

(** Every request takes one of the paths. *)
Lemma handle_path : path (handle_request m a r w).
Proof.
  unfold handle_request. cbv zeta. fold g. destruct (gone_at_dequeue w); [apply path_gone|].
  pose proof (gates_rejects m r w) as Hr. fold g in Hr. destruct (policy_decision g) as [[]|] eqn:Ep;
    try (apply open_path; intros Hd; apply Hr in Hd as [? ?]; done).
  apply path_denied, Hr. by eexists.
Qed.

End Paths.
End Paths.

(** * What runs without a question *)

Module Export Unasked.
Section Unasked.
Context `{AnswerMeta} `{BashParser} `{LinkFs} `{HashOrder}.

(** A script that the user or the lists let pass: every segment is fine, or this very
    script or all scripts are granted. *)
Definition all_fine (state : PermissionState) (honor : bool) (cmd : string) : Prop :=
  ∃ segments, all_commands_from_script cmd = Some segments ∧ Forall (is_fine state honor) segments.
Definition blanket_grant (state : PermissionState) (pin : option string) (cmd : string) : Prop :=
  cmd ∈ allowed_bash_commands state ∨ (allow_bash_execute state = true ∧ pin = None).

Lemma auto_allow_fine state honor cmd via : evaluate_bash_segments_inner cmd state honor = AutoAllow via → all_fine state honor cmd.
Proof.
  unfold evaluate_bash_segments_inner, all_fine. destruct (all_commands_from_script cmd) as [segments|]; [|done]. intros E.
  pose proof (segments_loop_spec state honor segments [] false false) as Hs. rewrite E in Hs. destruct Hs as (_ & _ & Hf). eauto.
Qed.

Lemma persisted_blanket state pin cmd : persisted_bash_auto_allows state cmd pin = true → blanket_grant state pin cmd.
Proof. unfold persisted_bash_auto_allows, blanket_grant. intros Hp. to_prop. destruct Hp as [Hp|Hp]; to_prop; tauto. Qed.

Lemma bash_grant_allows cmd state pin opts reason : bash_grant_pre_decision cmd state pin opts = Some (Dec.Allow, reason) →
  all_fine state (honor_safe_lists opts) cmd ∨ (allow_blanket opts = true ∧ blanket_grant state pin cmd).
Proof.
  unfold bash_grant_pre_decision. destruct (evaluate_bash_segments_inner _ _ _) as [via| |l d|] eqn:E; [|done|..].
  - intros _. left. by eapply auto_allow_fine.
  - destruct (allow_blanket opts); [|done]. destruct (_ && _); [done|]. destruct (persisted_bash_auto_allows _ _ _) eqn:Ep; [|done].
    intros _. right. split; [done|]. by apply persisted_blanket.
  - destruct (allow_blanket opts); [|done]. cbn [negb]. destruct (conservative_blanket opts).
    + case_bool_decide; [|done]. intros _. right. split; [done|]. by left.
    + destruct (persisted_bash_auto_allows _ _ _) eqn:Ep; [|done]. intros _. right. split; [done|]. by apply persisted_blanket.
Qed.

Context (m : Manager) (a : Actor) (r : PermissionRequest) (w : Surroundings).

Lemma prompt_prompted trigger : user_prompted (event (prompt_stage m a r w trigger)) = true.
Proof.
  unfold prompt_stage. cbv zeta. match goal with |- context [let '(_, _) := ?e in _] => destruct e as [[d o] a'] end. done.
Qed.

(** A request the policy denies is refused in every mode and whatever was granted, and
    leaves the manager as it was. *)
Theorem denial_binds : gone_at_dequeue w = false → denied m r →
  ∃ reason, handle_request m a r w = answered a r w false (Dec.PolicyDeny reason) Reasons.POLICY_DENY.
Proof.
  intros Hg [reason Hr]%(gates_rejects m r w). exists reason. unfold handle_request. rewrite Hg. cbv zeta. by rewrite Hr.
Qed.

Lemma auto_command cmd reason : access r = AK.Bash cmd → auto_stage a r w (gates m r w) = StageAllow reason →
  trim cmd ∈ ["true"; ":"; "false"] ∨ ∃ clf turns, auto_classifier a = Some clf ∧
    clf "run_terminal_command" (AK.Bash cmd) (Some cmd) turns = CV.Allow.
Proof.
  intros Ea. unfold auto_stage. rewrite Ea. destruct (_ && _); [|done]. cbn [tool_name_for_access Requests.access_detail].
  destruct (auto_mode_fast_path _ _ _) eqn:Ef; [|done|].
  - intros _. left. revert Ef. unfold auto_mode_fast_path. destruct (access_requires_user_interaction _ _); [done|].
    change (is_auto_mode_allowlisted_access (AK.Bash cmd) || is_auto_mode_allowlisted_tool_name "run_terminal_command") with false.
    cbn [orb]. by case_bool_decide.
  - destruct (auto_classifier a) as [clf|]; [|done]. destruct (gone_in_classify w); [done|].
    destruct (clf _ _ _ _) eqn:Ec; [|done..]. intros _. right. eauto.
Qed.

(** C5: A command runs without a question only when the policy does not deny it and
    - the mode that approves everything is on, and neither the policy asks about the
      shell command nor must a human decide; or
    - auto mode is on, nothing demands a human, and it does nothing or the classifier
      allows it; or
    - the sandbox lets commands through, the policy does not ask and no human must
      decide; or
    - the policy allows it; or
    - every segment is setup, granted, or on the safe lists and not dangerous, or this
      very script or all scripts are granted: under an ask rule, only when approvals
      are remembered and every segment is setup or granted. *)
Theorem unasked_command cmd : access r = AK.Bash cmd →
  answer (handle_request m a r w) = Some Dec.Allow → user_prompted (event (handle_request m a r w)) = false →
  let g := gates m r w in
  ¬ denied m r ∧
  ((yolo_mode a = true ∧ shell_forced_prompt g = false ∧ sovereign_forced_prompt g = false) ∨
   (auto_mode a = true ∧ unforced m r w ∧ (trim cmd ∈ ["true"; ":"; "false"] ∨ ∃ clf turns, auto_classifier a = Some clf ∧
      clf "run_terminal_command" (AK.Bash cmd) (Some cmd) turns = CV.Allow)) ∨
   (should_auto_allow_bash w = true ∧ policy_forced_prompt g = false ∧ sovereign_forced_prompt g = false) ∨
   policy_decision g = Some Dec.Allow ∨
   (policy_forced_prompt g = false ∧ (all_fine (actor_state a) true cmd ∨ blanket_grant (actor_state a) (yolo_pin m) cmd)) ∨
   (policy_forced_prompt g = true ∧ remember_tool_approvals (prompter m) = true ∧ all_fine (actor_state a) false cmd)).
Proof.
  intros Ea. pose proof (handle_path m a r w) as Hp. destruct Hp as [|reason Hd|Hd Hy Hs Hv|d reason Hd Hu Hs|reason Hd Hy Hm Hu Hs
    |cmd' Hd Hy Ec Hs Hf Hv|Hd Hy Hp|forced why d reason Hd Hy Hp Hs Hn|reason Hd Hp|trigger Hd Hp].
  - done.
  - done.
  - intros _ _ g. split; [done|]. by left.
  - intros [= ->] _ g. split; [done|]. do 4 right. left. destruct Hu as (Hu & _). split; [done|].
    rewrite Ea in Hs. apply bash_grant_allows in Hs. cbn in Hs. tauto.
  - intros _ _ g. split; [done|]. right. left. split_and!; [done..|]. by eapply auto_command.
  - intros _ _ g. split; [done|]. do 2 right. by left.
  - intros _ _ g. split; [done|]. do 3 right. by left.
  - intros [= ->] _ g. split; [done|]. do 4 right. revert Hn. unfold neutralize, pre_decision. rewrite Ea.
    cbn [auto_prompt_blocks_allow]. rewrite andb_false_r. cbn [andb]. fold g. destruct (policy_forced_prompt g).
    + destruct (remember_tool_approvals (prompter m)); [|done]. destruct (_ && _); [|done]. intros Hg%bash_grant_allows.
      cbn in Hg. right. split_and!; [done..|]. by destruct Hg as [?|[? ?]].
    + intros Hg%bash_grant_allows. cbn in Hg. left. split; [done|]. tauto.
  - done.
  - by rewrite prompt_prompted.
Qed.

(** C17: Under an ask rule a file access, a search of files, a command or a call of an MCP
    tool is allowed by the user alone, unless everything is approved or approvals are
    remembered. *)
Theorem ask_rule_binds : policy_decision (gates m r w) = Some Dec.Ask → yolo_mode a = false →
  remember_tool_approvals (prompter m) = false →
  match access r with AK.Edit _ | AK.WebFetch _ | AK.WebSearch _ => False | _ => True end →
  answer (handle_request m a r w) = Some Dec.Allow → user_prompted (event (handle_request m a r w)) = true.
Proof.
  intros Hask Hyolo Hrem Hk. assert (Hf : policy_forced_prompt (gates m r w) = true) by (by apply forced_ask).
  pose proof (handle_path m a r w) as Hp. destruct Hp as [|reason Hd|Hd Hy Hs Hv|d reason Hd [Hu _] Hs|reason Hd Hy Hm [Hu _] Hs
    |cmd' Hd Hy Ec Hs Hu Hv|Hd Hy Hp|forced why d reason Hd Hy Hp Hs Hn|reason Hd Hp|trigger Hd Hp]; try done; try congruence.
  - intros [= ->]. revert Hn. unfold neutralize, pre_decision. rewrite Hf, Hrem. destruct (_ && bool_decide _); [done|].
    unfold mcp_pre_decision. by destruct (access r).
  - intros _. apply prompt_prompted.
Qed.

(** Reads, searches of files and searches of the web are allowed without a question
    whenever the policy does not deny them and has no ask rule for the first two: also
    when the enforcement point or a sovereign action demands a human, when an ask rule
    names web searches, and when the prompt policy is to deny. *)
Theorem quiet_kinds_unasked : gone_at_dequeue w = false → ¬ denied m r →
  match access r with
  | AK.Read _ | AK.Grep _ _ => policy_decision (gates m r w) ≠ Some Dec.Ask
  | AK.WebSearch _ => True
  | _ => False
  end →
  answer (handle_request m a r w) = Some Dec.Allow ∧ user_prompted (event (handle_request m a r w)) = false.
Proof.
  intros Hg Hd Hk. unfold handle_request. rewrite Hg. cbv zeta. pose proof (gates_rejects m r w) as Hr.
  pose proof (gates_opinion m r w) as Ho. set (g := gates m r w) in *.
  assert (Hopen : answer (open_stage m a r w g) = Some Dec.Allow ∧ user_prompted (event (open_stage m a r w g)) = false).
  { unfold open_stage. destruct (yolo_mode a && _ && _); [done|].
    assert (Hs : session_grant_pre_decision (access r) (actor_state a) (allow_edits_for_session a) (static_domain_matcher m)
      (yolo_pin m) = None) by (by destruct (access r)).
    rewrite Hs. assert (Ha : auto_stage a r w g = StageAllow Reasons.AUTO_FAST_PATH ∨ auto_stage a r w g = StageNext false None).
    { unfold auto_stage. destruct (auto_mode a && _ && _ && _); [left|by right]. by destruct (access r). }
    assert (Hl : answer (late_stage m a r w g false None) = Some Dec.Allow ∧
      user_prompted (event (late_stage m a r w g false None)) = false).
    { unfold late_stage, neutralize, pre_decision. cbn [andb]. pose proof (forced_ask m r w) as Hf. fold g in Hf.
      destruct (policy_forced_prompt g), (access r); cbn [andb]; try done; try (destruct Hk; by apply Hf);
        destruct Ho as [->|[->|[->|Hrej]]]; try done; by apply Hr in Hrej. }
    destruct (_ && _ && _); (destruct Ha as [->| ->]; [done|exact Hl]). }
  destruct (policy_decision g) as [[]|] eqn:Ep; try exact Hopen. destruct Hd. apply Hr. by eexists.
Qed.

(** When a human must decide, neither the mode that approves everything nor a shortcut
    of the session, auto mode or the sandbox approves; what still approves without a
    question is an allow rule and the decision before the question. *)
Theorem human_demand_limits : sovereign_forced_prompt (gates m r w) = true →
  answer (handle_request m a r w) = Some Dec.Allow → user_prompted (event (handle_request m a r w)) = false →
  policy_decision (gates m r w) = Some Dec.Allow ∨ ∃ reason, pre_decision m a r (gates m r w) false = Some (Dec.Allow, reason).
Proof.
  intros Hv. pose proof (handle_path m a r w) as Hp.
  destruct Hp as [|reason Hd|Hd Hy Hs Hv'|d reason Hd (_ & _ & Hu) Hs|reason Hd Hy Hm (_ & _ & Hu) Hs
    |cmd' Hd Hy Ec Hs Hu Hv'|Hd Hy Hp|forced why d reason Hd Hy Hp Hs Hn|reason Hd Hp|trigger Hd Hp]; try done; try congruence.
  - by left.
  - intros [= ->] _. right. exists reason. unfold auto_stage in Hs. rewrite Hv, andb_false_r in Hs. injection Hs as <- <-. exact Hn.
  - by rewrite prompt_prompted.
Qed.

(** The handle without an actor allows a call only when the enforcement point lets it
    proceed and it is no action that an enforcing policy reserves to a human. *)
Theorem allow_all_exact pep engine acc id session subagent description :
  request_begin HandleAllowAll pep engine acc id session subagent description = inl Dec.Allow ↔
  pep = PepProceed ∧ (is_enforcing engine = true → ∀ action, sovereign_classify acc = Some action →
    can_auto_approve engine action = true).
Proof.
  unfold request_begin. destruct pep as [|reason|reason]; [|naive_solver..].
  destruct (is_enforcing engine); cbn; [|naive_solver]. destruct (sovereign_classify acc) as [action|]; [|naive_solver].
  destruct (can_auto_approve engine action) eqn:E; naive_solver congruence.
Qed.

End Unasked.
End Unasked.

(** * What is remembered *)

Module Export Memory.
Section Memory.
Context `{AnswerMeta} `{BashParser} `{LinkFs} `{HashOrder}.

(** What a request about [acc] may add to the state. *)
Inductive grown (acc : AK.AccessKind Json) (s : PermissionState) : PermissionState → Prop :=
| grown_same : grown acc s s
| grown_allowed cmd c : acc = AK.Bash cmd → grown acc s (allow_command s c)
| grown_disallowed cmd c : acc = AK.Bash cmd → grown acc s (disallow_command s c)
| grown_domain url d : acc = AK.WebFetch url → grown acc s (allow_domain s d)
| grown_tool name input : acc = AK.MCPTool name input → grown acc s (allow_mcp_tool s name)
| grown_server name input p : acc = AK.MCPTool name input → canonical_server name = Some p → grown acc s (allow_mcp_server s p).

(** What a request makes of the actor, but for the recorded decisions. *)
Inductive moved (m : Manager) (w : Surroundings) (acc : AK.AccessKind Json) (a : Actor) : Actor → Prop :=
| moved_not : moved m w acc a a
| moved_edits : moved m w acc a (with_edits a true)
| moved_saved s : grown acc (actor_state a) s → moved m w acc a (save m w a s).
#[local] Hint Constructors grown moved : core.

Definition answered_by (m : Manager) (w : Surroundings) (a : Actor) (acc : AK.AccessKind Json) (o : PO.PromptOutcome)
  : Dec.Decision * string * Actor :=
  match acc with AK.Bash cmd => bash_answer m w a cmd o | acc => other_answer m w a acc o end.

Lemma answered_moves m w a acc o : moved m w acc a (answered_by m w a acc o).2.
Proof.
  destruct acc as [p|p g|p|cmd|name i|u|q], o; cbn; eauto 7.
  case_bool_decide; eauto 7.
Qed.

(** The question of [prompt_stage] as one answer. *)
Definition prompt_outcome (m : Manager) (r : PermissionRequest) (w : Surroundings) : PO.PromptOutcome :=
  if gone_in_prompt w then PO.Cancelled
  else default PO.Cancelled (prompter_request (prompter m) (access r) (tool_call_id r) (Some (asked w))).1.
Lemma prompt_after m a r w trigger :
  let x := answered_by m w a (access r) (prompt_outcome m r w) in
  after (prompt_stage m a r w trigger) = record_prompted r x.1.1 x.1.2 x.2.
Proof.
  cbv zeta. unfold prompt_stage, answered_by, prompt_outcome. cbv zeta.
  destruct (access r) as [p|p g|p|cmd|name i|u|q]; match goal with |- context [let '(_, _) := ?e in _] => destruct e as [[d o] a'] end; done.
Qed.

(** A request leaves the actor alone or moves it and records the user's decision. *)
Lemma handled_moves m a r w : after (handle_request m a r w) = a ∨
  ∃ a' d o, moved m w (access r) a a' ∧ after (handle_request m a r w) = record_prompted r d o a'.
Proof.
  destruct (handle_path m a r w); try by left. right. rewrite prompt_after. do 3 eexists. split; [|done]. apply answered_moves.
Qed.

Lemma record_state r d o a : actor_state (record_prompted r d o a) = actor_state a ∧ state_dir (record_prompted r d o a) = state_dir a.
Proof. unfold record_prompted. by destruct (prompted_decision_approved d o). Qed.
Lemma save_state m w a s : actor_state (save m w a s) = s.
Proof. unfold save, persist. by destruct (write_fails w). Qed.

Lemma moved_grown m w acc a a' : moved m w acc a a' → grown acc (actor_state a) (actor_state a').
Proof. intros [| |s Hs]; [constructor..|]. by rewrite save_state. Qed.

(** A request may only add to what is remembered what it asked about: an MCP tool or
    its server for a call of this tool, a domain for a fetch, commands for a command;
    nothing is ever taken back, and the policy for edits is left alone. *)
Theorem requests_remember_their_kind m a r w : grown (access r) (actor_state a) (actor_state (after (handle_request m a r w))).
Proof.
  destruct (handled_moves m a r w) as [->|(a' & d & o & Hm & ->)]; [constructor|].
  rewrite (proj1 (record_state _ _ _ _)). by apply (moved_grown m w).
Qed.

(** When approvals are not to be remembered, no request that a client answers changes
    what the manager remembers or has on disk. *)
Theorem gate_off_state_fixed m a r w reply : remember_tool_approvals (prompter m) = false → asked w = AskedClient reply →
  actor_state (after (handle_request m a r w)) = actor_state a ∧ state_dir (after (handle_request m a r w)) = state_dir a.
Proof.
  intros Hr Ha. destruct (handle_path m a r w); try done. rewrite prompt_after.
  rewrite (proj1 (record_state _ _ _ _)), (proj2 (record_state _ _ _ _)).
  assert (Ho : leaves_nothing (prompt_outcome m r w)).
  { unfold prompt_outcome. destruct (gone_in_prompt w); [done|]. rewrite Ha. cbn. destruct (prompter m) as [client remember].
    cbn in Hr. subst. by apply (client_leaves_nothing client (access r) (tool_call_id r)). }
  by destruct (prompt_outcome m r w), (access r).
Qed.

(** ** The disk *)

Lemma persisted_loads dir s client : load_state_from_dir (persist_state_to_dir dir s client) client = s.
Proof.
  unfold load_state_from_dir, persist_state_to_dir, try_load_state. destruct client as [id|]; cbn [state_file_name];
    (rewrite lookup_insert_eq || setoid_rewrite lookup_insert_eq); done.
Qed.

(** What is on disk is what the actor has. *)
Definition mirrored (m : Manager) (a : Actor) : Prop := load_state_from_dir (state_dir a) (client_identifier m) = actor_state a.

Lemma persist_mirrors m a : mirrored m (persist m false a).
Proof. unfold mirrored, persist. cbn. apply persisted_loads. Qed.

Lemma request_mirrors m a r w : write_fails w = false → mirrored m a → mirrored m (after (handle_request m a r w)).
Proof.
  intros Hw Ha. destruct (handled_moves m a r w) as [->|(a' & d & o & Hm & ->)]; [done|].
  assert (Ha' : mirrored m a').
  { destruct Hm as [| |s Hs]; [done..|]. unfold save. rewrite Hw. apply persist_mirrors. }
  unfold mirrored in *. destruct (record_state r d o a') as [-> ->]. done.
Qed.

(** ** What holds throughout a session *)

Definition kept (a : Actor) : Prop :=
  edit_policy (actor_state a) ≠ EP.Allow ∧ length (recorded_permission_decisions a) ≤ MAX_RECORDED_PERMISSION_DECISIONS.

Lemma request_keeps m a r w : kept a → kept (after (handle_request m a r w)).
Proof.
  intros Ha. destruct (handled_moves m a r w) as [->|(a' & d & o & Hm & ->)]; [done|].
  assert (Ha' : kept a').
  { destruct Ha as [He Hl], Hm as [| |s Hs]; [done..|]. unfold kept, save, persist.
    destruct (write_fails w); cbn; (split; [by destruct Hs|done]). }
  destruct Ha' as [He Hl]. split; [by rewrite (proj1 (record_state _ _ _ _))|]. unfold record_prompted.
  destruct (prompted_decision_approved d o); [|done]. cbn [recorded_permission_decisions with_recorded]. rewrite length_drop. lia.
Qed.

Lemma process_fields (P : Actor → Prop) m s a c w :
  (∀ r, P (after (handle_request m a r w))) → (∀ y u, P (with_modes a y u)) →
  (∀ a, P a → ∀ b, P (with_refusal a b)) → (∀ a, P a → ∀ clf, P (with_classifier a clf)) → (∀ l, P (with_turns a l)) →
  (∀ i, P (with_instructions a i)) → P (with_edits (save m w a PermissionState_default) false) → P a →
  P (process m s a c w).2.
Proof. intros. destruct c; cbn; auto. destruct (_ && _); auto. Qed.

Lemma process_keeps m s a c w : kept a → kept (process m s a c w).2.
Proof.
  intros Ha. apply process_fields; try done; [intros; by apply request_keeps|]. destruct Ha as [_ Hl].
  unfold kept, save, persist. by destruct (write_fails w).
Qed.

Lemma spawned_kept m modes fails dir : kept (spawn_actor m modes fails dir).
Proof.
  unfold spawn_actor. case_bool_decide as Ee; [|split; [done|cbn; lia]]. unfold kept, persist. destruct fails; split; cbn; done || lia.
Qed.

(** Throughout a session, whatever its commands and answers, a standing approval of all
    edits is never in force, not even one found on disk, and the decisions kept for the
    classifier are at most twelve. *)
Theorem session_keeps m modes fails dir ok s : session_reaches m ok (spawned m modes fails dir) s →
  edit_policy (actor_state (actor s)) ≠ EP.Allow ∧
  length (recorded_permission_decisions (actor s)) ≤ MAX_RECORDED_PERMISSION_DECISIONS.
Proof.
  intros Hr. change (kept (actor s)). assert (Hfirst : kept (actor (spawned m modes fails dir))) by apply spawned_kept.
  revert Hfirst. induction Hr as [s|s t u Hs Hr IH]; [done|]. intros Hk. apply IH.
  destruct Hs as [c|b|c rest w Hrun Hq Hok]; cbn; [done..|]. by apply process_keeps.
Qed.

(** As long as every write succeeds, what is on disk is at every moment what the actor
    remembers: a new session finds what this one granted and refused. *)
Theorem disk_follows_state m modes dir s :
  session_reaches m (λ w, write_fails w = false) (spawned m modes false dir) s →
  load_state_from_dir (state_dir (actor s)) (client_identifier m) = actor_state (actor s).
Proof.
  intros Hr. change (mirrored m (actor s)). assert (Hfirst : mirrored m (actor (spawned m modes false dir))).
  { cbn. unfold spawn_actor. case_bool_decide; [apply persist_mirrors|done]. }
  revert Hfirst. induction Hr as [s|s t u Hs Hr IH]; [done|]. intros Hk. apply IH.
  destruct Hs as [c|b|c rest w Hrun Hq Hok]; cbn; [done..|].
  apply process_fields; try done; [intros; by apply request_mirrors|]. unfold save. rewrite Hok. unfold mirrored, with_edits.
  apply persist_mirrors.
Qed.

End Memory.
End Memory.

(** * The modes *)

Module Export Modes.
Section Modes.
Context `{AnswerMeta} `{BashParser} `{LinkFs} `{HashOrder}.
Context (m : Manager).

Definition run_modes (q : list PermissionCommand) (modes : bool * bool) : bool * bool :=
  fold_left (λ modes c, modes_after (yolo_pin m) c modes) q modes.

(** A command either sets one of the modes to a value of its own or leaves it, and so
    does a channel full of commands. *)
Definition sets_or_leaves (f : bool * bool → bool * bool) : Prop :=
  ((∃ v, ∀ x, (f x).1 = v) ∨ ∀ x, (f x).1 = x.1) ∧ ((∃ v, ∀ x, (f x).2 = v) ∨ ∀ x, (f x).2 = x.2).

Lemma modes_after_simple c : sets_or_leaves (modes_after (yolo_pin m) c).
Proof.
  destruct c as [r|b|b|c|l|i| |]; try (split; by right); unfold sets_or_leaves, modes_after.
  - split; [left; by exists (clamp_yolo b (yolo_pin m))|].
    destruct (clamp_yolo b (yolo_pin m)); [left; by exists false|by right].
  - split; [destruct b; [left; by exists false|by right]|left; by exists b].
Qed.
Lemma run_modes_simple q : sets_or_leaves (run_modes q).
Proof.
  induction q as [|c q IH]; [split; by right|]. destruct IH as [I1 I2], (modes_after_simple c) as [C1 C2].
  unfold sets_or_leaves, run_modes in *. cbn [fold_left]. split.
  - destruct I1 as [I1|I1]; [left; naive_solver|]. destruct C1 as [[v C1]|C1]; [left; exists v|right]; intros x; by rewrite I1, C1.
  - destruct I2 as [I2|I2]; [left; naive_solver|]. destruct C2 as [[v C2]|C2]; [left; exists v|right]; intros x; by rewrite I2, C2.
Qed.

(** A command that is applied at once and again at the end of the channel counts once. *)
Lemma early_application f g x y : sets_or_leaves f → sets_or_leaves g → g x = g y → f (g (f x)) = f (g y).
Proof.
  intros [F1 F2] [G1 G2] E. apply (f_equal fst) in E as E1. apply (f_equal snd) in E as E2.
  destruct (f (g (f x))) as [u1 u2] eqn:Eu, (f (g y)) as [v1 v2] eqn:Ev.
  apply (f_equal fst) in Eu as Eu1. apply (f_equal snd) in Eu as Eu2. apply (f_equal fst) in Ev as Ev1. apply (f_equal snd) in Ev as Ev2.
  cbn in *. f_equal.
  - destruct F1 as [[v F1]|F1]; [by rewrite F1 in Eu1, Ev1; congruence|]. rewrite F1 in Eu1, Ev1.
    destruct G1 as [[z G1]|G1]; [by rewrite G1 in Eu1, Ev1; congruence|]. rewrite !G1 in *. rewrite F1 in Eu1. congruence.
  - destruct F2 as [[v F2]|F2]; [by rewrite F2 in Eu2, Ev2; congruence|]. rewrite F2 in Eu2, Ev2.
    destruct G2 as [[z G2]|G2]; [by rewrite G2 in Eu2, Ev2; congruence|]. rewrite !G2 in *. rewrite F2 in Eu2. congruence.
Qed.

Definition actor_modes (a : Actor) : bool * bool := (yolo_mode a, auto_mode a).

Lemma request_modes a r w : actor_modes (after (handle_request m a r w)) = actor_modes a.
Proof.
  destruct (handled_moves m a r w) as [->|(a' & d & o & Hm & ->)]; [done|].
  assert (Ha : actor_modes a' = actor_modes a).
  { destruct Hm; [done..|]. unfold save, persist. by destruct (write_fails w). }
  rewrite <-Ha. unfold record_prompted. by destruct (prompted_decision_approved d o).
Qed.

Lemma process_modes s a c w :
  flags (process m s a c w).1 = modes_after (yolo_pin m) c (flags s) ∧
  actor_modes (process m s a c w).2 = modes_after (yolo_pin m) c (actor_modes a).
Proof.
  destruct c as [r|b|b|c|l|i| |]; cbn [process]; try done.
  - split; [done|]. apply request_modes.
  - split; [done|]. by destruct (b && _).
  - split; [done|]. unfold save, persist. by destruct (write_fails w).
Qed.

(** At most one mode, and no approving of everything under the pin. *)
Definition sound_modes (modes : bool * bool) : Prop := modes.1 && modes.2 = false ∧ (yolo_pin m ≠ None → modes.1 = false).
Lemma modes_after_sound c modes : sound_modes modes → sound_modes (modes_after (yolo_pin m) c modes).
Proof.
  intros [Hx Hp]. unfold sound_modes. destruct c as [r|b|b|c|l|i| |]; try done; cbn.
  - unfold clamp_yolo. destruct b; cbn; [|done]. case_bool_decide; cbn; tauto.
  - destruct b; cbn; [done|]. by rewrite andb_false_r.
Qed.

Definition coherent (s : System) : Prop :=
  sound_modes (flags (shared s)) ∧ sound_modes (actor_modes (actor s)) ∧
  run_modes (queue s) (flags (shared s)) = run_modes (queue s) (actor_modes (actor s)).

Lemma coherent_step ok s t : coherent s → system_step m ok s t → coherent t.
Proof.
  intros (Hf & Ha & Hq) [c|b|c rest w Hrun Hc Hok]; unfold coherent; cbn.
  - split_and!; [by apply (modes_after_sound c) in Hf|done|]. unfold run_modes. rewrite !fold_left_app. cbn [fold_left].
    change (flags (with_flags (shared s) ?x)) with (x.1, x.2). rewrite <-surjective_pairing.
    apply (early_application (modes_after (yolo_pin m) c) (run_modes (queue s)));
      [apply modes_after_simple|apply run_modes_simple|done].
  - done.
  - destruct (process_modes (shared s) (actor s) c w) as [-> ->]. split_and!; [by apply modes_after_sound..|].
    rewrite Hc in Hq. exact Hq.
Qed.

(** C6: Whatever the handles send and in whatever order the actor gets to it: approving
    everything and auto mode are never both on, neither for the actor nor for those
    who read the flags; under the managed pin approving everything is never on; and
    whenever the channel is empty the flags are the actor's modes. *)
Theorem modes_agree config initial_yolo fails dir ok s :
  session_reaches m ok (spawned m (seed_modes config initial_yolo (yolo_pin m)) fails dir) s →
  yolo_mode (actor s) && auto_mode (actor s) = false ∧ yolo_state (shared s) && auto_state (shared s) = false ∧
  (yolo_pin m ≠ None → yolo_mode (actor s) = false ∧ yolo_state (shared s) = false) ∧
  (queue s = [] → yolo_state (shared s) = yolo_mode (actor s) ∧ auto_state (shared s) = auto_mode (actor s)).
Proof.
  intros Hr. assert (Hc : coherent s).
  { assert (Hseed : sound_modes (seed_modes config initial_yolo (yolo_pin m))).
    { unfold sound_modes, seed_modes, clamp_yolo. cbn. destruct initial_yolo; cbn; [|done].
      case_bool_decide; cbn; split; try done; tauto. }
    assert (Hfirst : coherent (spawned m (seed_modes config initial_yolo (yolo_pin m)) fails dir)).
    { assert (Hm : actor_modes (spawn_actor m (seed_modes config initial_yolo (yolo_pin m)) fails dir)
        = seed_modes config initial_yolo (yolo_pin m)).
      { unfold spawn_actor. case_bool_decide; [|done]. by destruct fails. }
      unfold coherent, spawned. cbn [shared actor queue]. rewrite Hm. done. }
    revert Hfirst. clear Hseed. induction Hr as [s|s t u Hs Hr IH]; [done|]. intros Hk. by apply IH, (coherent_step ok s). }
  destruct Hc as ([Hf1 Hf2] & [Ha1 Ha2] & Hq). split_and!; [done|done|by auto|]. intros E. rewrite E in Hq. by injection Hq.
Qed.

End Modes.
End Modes.

(** * Scenes *)

Module ManagerScene.
#[local] Existing Instance PolicyScene.scene_libs.
#[local] Existing Instance PolicyScene.scene_bash.
#[local] Existing Instance AutoScene.scene_json.
#[local] Existing Instance PromptScene.scene_meta.
#[local] Existing Instance GateScene.scene_links.
#[local] Existing Instance GrantScene.scene_order.

Definition strict_engine : PolicyEngine := PolicyEngine_new (MkPolicy EnforceBlock SecurityCapabilities_default).
Definition ask_search : PermissionConfig :=
  PermissionConfig_new [MkRule RA.Ask TF.WebSearch None PM.Glob; MkRule RA.Ask TF.Bash (Some "make") PM.Glob;
                        MkRule RA.Deny TF.Bash (Some "rm") PM.Glob].
Definition with_config (config : option PermissionConfig) (remember : bool) (pin : option string) : Manager :=
  spawn_manager "/w" (MkPrompter AinxtPager remember) config [] pin None.
Definition plain : Manager := with_config (Some ask_search) false None.
Definition seeded (m : Manager) (yolo : bool) : System := spawned m (seed_modes None yolo (yolo_pin m)) false ∅.
Definition request_for (acc : AK.AccessKind Json) (forced : bool) : PermissionRequest := MkPermRequest acc "1" None None None forced.
Definition answering (option_id : string) : Surroundings :=
  MkSurroundings strict_engine false 1 false false false false false (AskedClient (ReplySelected option_id None)) false.
Definition ask (m : Manager) (s : System) (acc : AK.AccessKind Json) (opt : string) : Handled :=
  handle_request m (actor s) (request_for acc false) (answering opt).

(** A private key is read without a question although reading it is reserved to a
    human, and a search that an ask rule names is made without a question. *)
Theorem reserved_read_unasked :
  let r := request_for (AK.Read (Some "/home/u/.ssh/id_rsa")) true in
  let h := handle_request plain (actor (seeded plain false)) r (answering "reject-once") in
  sovereign_forced_prompt (gates plain r (answering "reject-once")) = true ∧
  answer h = Some Dec.Allow ∧ user_prompted (event h) = false.
Proof. by vm_compute. Qed.
Theorem ask_rule_on_search_ignored :
  let h := ask plain (seeded plain false) (AK.WebSearch "x") "reject-once" in
  policy_decision (gates plain (request_for (AK.WebSearch "x") false) (answering "reject-once")) = Some Dec.Ask ∧
  answer h = Some Dec.Allow ∧ user_prompted (event h) = false.
Proof. by vm_compute. Qed.

(** A domain allowed "this session" is found on disk by the next one. *)
Theorem session_domain_outlives_session :
  let m := with_config None true None in
  let h := ask m (seeded m false) (AK.WebFetch "https://a.b/c") "allow-always-domain" in
  answer (ask m (spawned m (false, false) false (state_dir (after h))) (AK.WebFetch "https://a.b/d") "reject-once") = Some Dec.Allow.
Proof. by vm_compute. Qed.

Lemma denial_binds_witness :
  let r := request_for (AK.Bash "ls | rm x") false in
  ∃ reason, handle_request plain (actor (seeded plain true)) r (answering "allow-once") =
    answered (actor (seeded plain true)) r (answering "allow-once") false (Dec.PolicyDeny reason) Reasons.POLICY_DENY.
Proof.
  intros r. apply (denial_binds plain (actor (seeded plain true)) r (answering "allow-once") eq_refl).
  apply (gates_rejects plain r (answering "allow-once")). eexists. by vm_compute.
Defined.

Lemma unasked_command_witness :
  ¬ denied plain (request_for (AK.Bash "ls") false).
Proof.
  destruct (unasked_command plain (actor (seeded plain false)) (request_for (AK.Bash "ls") false) (answering "reject-once") "ls"
    eq_refl) as [Hd _]; [by vm_compute|by vm_compute|exact Hd].
Defined.

Lemma ask_rule_binds_witness :
  let h := ask plain (seeded plain false) (AK.Bash "make") "allow-once" in
  answer h = Some Dec.Allow ∧ user_prompted (event h) = true.
Proof.
  intros h. assert (Ha : answer h = Some Dec.Allow) by by vm_compute. split; [exact Ha|].
  apply (ask_rule_binds plain (actor (seeded plain false)) (request_for (AK.Bash "make") false) (answering "allow-once"));
    [by vm_compute|done|done|exact I|exact Ha].
Defined.

Lemma quiet_kinds_unasked_witness :
  answer (ask plain (seeded plain false) (AK.WebSearch "x") "reject-once") = Some Dec.Allow.
Proof.
  apply (proj1 (quiet_kinds_unasked plain (actor (seeded plain false)) (request_for (AK.WebSearch "x") false) (answering "reject-once")
    eq_refl ltac:(rewrite <-(gates_rejects _ _ (answering "reject-once")); intros [r Hr]; by vm_compute in Hr) I)).
Defined.

Lemma human_demand_limits_witness :
  let r := request_for (AK.Read (Some "/home/u/.ssh/id_rsa")) true in
  ∃ reason, pre_decision plain (actor (seeded plain false)) r (gates plain r (answering "reject-once")) false = Some (Dec.Allow, reason).
Proof.
  intros r. destruct (human_demand_limits plain (actor (seeded plain false)) r (answering "reject-once")
    ltac:(by vm_compute) ltac:(by vm_compute) ltac:(by vm_compute)) as [Hp|Hp]; [by vm_compute in Hp|exact Hp].
Defined.

Lemma gate_off_state_fixed_witness :
  actor_state (after (ask plain (seeded plain false) (AK.WebFetch "https://a.b/c") "allow-always-domain")) = PermissionState_default.
Proof.
  exact (proj1 (gate_off_state_fixed plain (actor (seeded plain false)) (request_for (AK.WebFetch "https://a.b/c") false)
    (answering "allow-always-domain") _ eq_refl eq_refl)).
Defined.

(** A session in which a command is granted and approving everything is switched on
    under the pin. *)
Definition pinned : Manager := with_config None true (Some "managed").
Definition granting : list PermissionCommand := [CommandRequest (request_for (AK.Bash "make") false); SetYoloMode true].
Definition after_post (m : Manager) (s : System) : System := fold_left (posted m) granting s.
Definition after_take (m : Manager) (s : System) : System :=
  match queue s with
  | c :: rest => let x := process m (shared s) (actor s) c (answering "allow-always-command") in MkSystem x.1 x.2 rest false
  | [] => s
  end.
Definition ended : System := after_take pinned (after_take pinned (after_post pinned (seeded pinned true))).
Lemma take_step (ok : Surroundings → Prop) m s c rest : ok (answering "allow-always-command") → stopped s = false →
  queue s = c :: rest → c ≠ Shutdown → system_step m ok s (after_take m s).
Proof.
  intros Hok Hs Hq Hc. unfold after_take. rewrite Hq. cbv zeta.
  pose proof (step_take m ok s c rest (answering "allow-always-command") Hs Hq Hok) as Ht. by destruct c.
Qed.
Lemma pinned_reaches (ok : Surroundings → Prop) : ok (answering "allow-always-command") →
  session_reaches pinned ok (seeded pinned true) ended.
Proof.
  intros Hok. unfold session_reaches. 
  eapply rtc_l; [apply (step_post pinned ok _ (CommandRequest (request_for (AK.Bash "make") false)))|].
  eapply rtc_l; [apply (step_post pinned ok _ (SetYoloMode true))|].
  change (rtc (system_step pinned ok) (after_post pinned (seeded pinned true)) ended). unfold ended.
  eapply rtc_l; [by eapply take_step|]. eapply rtc_l; [|apply rtc_refl]. by eapply take_step.
Qed.

Lemma session_keeps_witness : length (recorded_permission_decisions (actor ended)) = 1 ∧
  edit_policy (actor_state (actor ended)) ≠ EP.Allow.
Proof.
  split; [by vm_compute|].
  exact (proj1 (session_keeps pinned (seed_modes None true (yolo_pin pinned)) false ∅ (λ _, True) ended
    (pinned_reaches (λ _, True) I))).
Defined.

Lemma disk_follows_state_witness :
  load_state_from_dir (state_dir (actor ended)) None = allow_command PermissionState_default "make".
Proof.
  change None with (client_identifier pinned). rewrite (disk_follows_state pinned (seed_modes None true (yolo_pin pinned)) ∅ ended
    (pinned_reaches (λ w, write_fails w = false) eq_refl)). by vm_compute.
Defined.

Lemma modes_agree_witness : yolo_mode (actor ended) = false ∧ yolo_state (shared ended) = false.
Proof.
  destruct (modes_agree pinned None true false ∅ (λ _, True) ended (pinned_reaches (λ _, True) I)) as (_ & _ & Hp & _).
  by apply Hp.
Defined.

End ManagerScene.
