(* ===== verification/PermissionSources.v ===== *)
(** Where permission rules come from (crate [ainxt-workspace],
    [permission/claude_settings.rs] and [permission/resolution.rs]): the vendor's
    settings files, managed settings, the layers of the configuration, the mode a
    session starts in, and the policies for MCP servers and marketplaces. *)
From stdpp Require Import list gmap strings.
From S2P Require Import Prelude RustStr StrSearch ShellWords ShellTree HunkFiles Permission HostFiles ConfigLayers TrustStore.

(** What the code uses of [serde_json], of [serde] for the verbose form of a permission
    section, and of [glob] without regard to case. *)
Class SourceLibs `{PermissionLibs} : Type := {
  jv_from_str : string → option Jv;
  permission_config_of_toml : Toml → option PermissionConfig;
  matches_nocase : Pattern → string → bool;
}.

(** * The vendor's settings ([claude_settings.rs]) *)

Module Export ClaudeSettings.

Record ParsedPermissions : Type := MkParsed { allow : list string; deny : list string; ask : list string }.
Record ClaudeSettings : Type := MkSettings {
  settings_permissions : option ParsedPermissions;
  settings_default_mode : option string;
  additional_directories : option (list string);
  settings_env : option (gmap string string);
}.

(** [Display] of a parse error. *)
Definition show_rule_error (e : RuleParseError) : string :=
  match e with
  | UnsupportedToolPrefix p => "unsupported tool prefix: " +:+ p
  | UnknownToolPrefix p => "unknown tool prefix: " +:+ p
  | MalformedRule d => "malformed rule: " +:+ d
  end.

(** The rules of one list, and the warnings for the entries that are none. *)
Definition parse_list (action : RA.RuleAction) (label : string) (entries : list string) : list PermissionRule * list string :=
  (omap (λ s, ok (parse_permission_rule s action)) entries,
   omap (λ s, match parse_permission_rule s action with
     | Ok _ => None
     | Err e => Some ("permissions." +:+ label +:+ ": " +:+ s +:+ " -- " +:+ show_rule_error e)
     end) entries).
Definition into_permission_config (p : ParsedPermissions) : PermissionConfig * list string :=
  let a := parse_list RA.Allow "allow" (allow p) in
  let d := parse_list RA.Deny "deny" (deny p) in
  let k := parse_list RA.Ask "ask" (ask p) in
  (PermissionConfig_new (a.1 ++ d.1 ++ k.1), a.2 ++ d.2 ++ k.2).

(** The strings of an array; the warnings are only logged. *)
Definition extract_string_array (value : option Jv) : list string :=
  match value with Some (JArray arr) => omap jv_as_str arr | _ => [] end.

Definition nested (k1 k2 : string) (value : Jv) : option Jv := p ← jv_get k1 value; jv_get k2 p.
Definition extract_default_mode (value : Jv) : option string :=
  match nested "permissions" "defaultMode" value with
  | Some dm => jv_as_str dm
  | None => dm ← jv_get "defaultMode" value; jv_as_str dm
  end.
Definition extract_additional_directories (value : Jv) : option (list string) :=
  let arr : option (list Jv) :=
    match nested "permissions" "additionalDirectories" value with
    | Some nested => jv_as_array nested
    | None => v ← jv_get "additionalDirectories" value; jv_as_array v
    end in
  (λ l : list Jv, omap jv_as_str l) <$> arr.
Definition scalar_text (v : Jv) : option string :=
  match v with
  | JString s => Some s
  | JNumber _ text => Some text
  | JBool b => Some (if b then "true" else "false")
  | JNull | JArray _ | JObject _ => None
  end.
Definition extract_string_map (value : option Jv) : option (gmap string string) :=
  match value with
  | Some (JObject obj) =>
      let result : gmap string string := omap scalar_text obj in
      if bool_decide (result = ∅) then None else Some result
  | _ => None
  end.

Section Loading.
Context `{PermissionLibs} `{!SourceLibs} `{ConfigLibs}.

Definition load_claude_settings (h : Host) (path : string) : option ClaudeSettings :=
  content ← ok (read_to_string h path);
  value ← jv_from_str content;
  let permissions :=
    p ← jv_get "permissions" value;
    let a := extract_string_array (jv_get "allow" p) in
    let d := extract_string_array (jv_get "deny" p) in
    let k := extract_string_array (jv_get "ask" p) in
    if bool_decide (a = []) && bool_decide (d = []) && bool_decide (k = []) then None else Some (MkParsed a d k) in
  Some (MkSettings permissions (extract_default_mode value) (extract_additional_directories value)
    (extract_string_map (jv_get "env" value))).

Definition settings_in (dir : string) : list string :=
  let claude_dir := path_join dir ".claude" in [path_join claude_dir "settings.local.json"; path_join claude_dir "settings.json"].
Definition global_claude_settings_paths (h : Host) : list string :=
  match home_dir h with Some home => settings_in home | None => [] end.

(** A directory and those above it, to the root. [fuel] is one more than the
    components. *)
Fixpoint upwards (fuel : nat) (dir : string) : list string :=
  match fuel with
  | 0 => []
  | S fuel => dir :: match path_parent dir with Some parent => upwards fuel parent | None => [] end
  end.
Definition ancestors (dir : string) : list string := upwards (S (path_depth dir)) dir.

Definition find_repo_root (h : Host) (start : string) : option string :=
  List.find (λ d, path_exists h (path_join d ".git")) (ancestors start).

(** The first directories of a list, up to and with the one that passes. *)
Fixpoint through (f : string → bool) (l : list string) : list string :=
  match l with [] => [] | d :: l => d :: if f d then [] else through f l end.
Definition collect_project_claude_paths (h : Host) (cwd : string) : list string :=
  let repo_root :=
    match find_repo_root h cwd with
    | Some root => if is_home_dir h root then cwd else root
    | None => cwd
    end in
  through (λ d, path_eqb d repo_root) (ancestors cwd) ≫= settings_in.
Definition find_claude_settings_paths (h : Host) (cwd : string) : list string :=
  collect_project_claude_paths h cwd ++ global_claude_settings_paths h.
Definition has_claude_compat (h : Host) (cwd : string) : bool := existsb (path_exists h) (find_claude_settings_paths h cwd).
Definition project_claude_settings_present (h : Host) (cwd : string) : bool :=
  existsb (is_file h) (collect_project_claude_paths h cwd).

Definition is_claude_import_marked (h : Host) : bool :=
  if bool_decide (env_var h "_AINXT_CLAUDE_MARKER_OVERRIDE" = Some "1") then true
  else
    default false (
      home ← user_ainxt_home h;
      contents ← ok (read_to_string h (path_join home "config.toml"));
      value ← toml_from_str contents;
      c ← toml_get "claude_compat" value; v ← toml_get "imported" c; toml_as_bool v).

(** [HashMap::extend]: later pairs win. *)
Definition merge_env (h : Host) (merged : gmap string string) (path : string) : gmap string string :=
  match (s ← load_claude_settings h path; settings_env s) with Some env => env ∪ merged | None => merged end.
Definition load_claude_env_with_project (h : Host) (cwd : string) (project_trusted : bool) : gmap string string :=
  if is_claude_import_marked h then ∅
  else
    let paths := if project_trusted then find_claude_settings_paths h cwd else global_claude_settings_paths h in
    fold_left (merge_env h) (reverse paths) ∅.

End Loading.
End ClaudeSettings.

(** * The rules of all sources ([resolution.rs]) *)

Module RS.
Inductive RequirementSource : Type :=
| Unknown
| Requirements (path : string)
| SystemRequirements (path : string)
| ManagedSettings (path : string)
| ManagedConfig (path : string)
| Config (path : string)
| Settings (path : string).
End RS.
#[export] Instance RequirementSource_eq_dec : EqDecision RS.RequirementSource.
Proof. solve_decision. Defined.

Module Export Sources.

Record Sourced (A : Type) : Type := MkSourced { value : A; source : RS.RequirementSource }.
Global Arguments MkSourced {A}.
Global Arguments value {A}.
Global Arguments source {A}.
Record SkippedPermission : Type := MkSkipped { skipped_rule : string; skipped_reason : string }.
Inductive UserDefaultModeLoad : Type := Apply | SkipManagedOwns.

Definition tag (src : RS.RequirementSource) (rules : list PermissionRule) : list (Sourced PermissionRule) :=
  (λ r, MkSourced r src) <$> rules.

Definition synthetic_rules_for_default_mode (mode : DefaultPermissionMode) (policy_block : option string) :
    list PermissionRule * list SkippedPermission * bool :=
  let e := effects mode in
  if bypass_permissions e then
    match policy_block with
    | Some reason => ([], [MkSkipped "defaultMode=bypassPermissions" reason], true)
    | None => ([MkRule RA.Allow TF.Any None PM.Glob], [], false)
    end
  else if accept_edits e then ([MkRule RA.Allow TF.Edit None PM.Glob], [], false)
  else ([], [], false).

Definition parse_default_mode_claiming_scope (raw : string) : DefaultPermissionMode * list SkippedPermission :=
  match DefaultPermissionMode_from_str raw with
  | Ok mode => (mode, [])
  | Err invalid => (DefaultMode, [MkSkipped ("defaultMode=" +:+ invalid) "unrecognized value; treated as default"])
  end.

Section Resolve.
Context `{PermissionLibs} `{!SourceLibs} `{ConfigLibs}.

Definition compact_lists : list (RA.RuleAction * string) := [(RA.Deny, "deny"); (RA.Allow, "allow"); (RA.Ask, "ask")].
Definition compact_list (permission_value : Toml) (key : string) : option (list Toml) :=
  v ← toml_get key permission_value; toml_as_array v.
Definition parse_items (action : RA.RuleAction) (arr : list Toml) : list PermissionRule :=
  omap (λ item, s ← toml_as_str item; ok (parse_permission_rule s action)) arr.
Definition parse_toml_permission_section (permission_value : Toml) : option (list PermissionRule) :=
  if existsb (λ '(_, key), bool_decide (is_Some (compact_list permission_value key))) compact_lists
  then Some (compact_lists ≫= λ '(action, key), parse_items action (default [] (compact_list permission_value key)))
  else rules <$> permission_config_of_toml permission_value.
Definition extract_toml_permissions (config : Toml) (src : RS.RequirementSource) : list (Sourced PermissionRule) :=
  match toml_get "permission" config with
  | Some permission_value => tag src (default [] (parse_toml_permission_section permission_value))
  | None => []
  end.

Definition layer_source (l : RequirementsLayer) : RS.RequirementSource :=
  let path := label (requirements_source l) in
  if is_system l then RS.SystemRequirements path else RS.Requirements path.
Definition load_requirements_permissions (h : Host) : list (Sourced PermissionRule) :=
  requirements_layers h ≫= λ l, extract_toml_permissions (requirements_value l) (layer_source l).

Definition ainxt_config_in (dir : string) : string := path_join (path_join dir ".ainxt") "config.toml".
Definition find_project_ainxt_configs (h : Host) (cwd : string) : list string :=
  let dirs :=
    match git_workdir h cwd with
    | Some root => reverse (through (λ d, path_eqb d root) (ancestors cwd))
    | None => [cwd]
    end in
  filter (λ p, is_file h p = true) (ainxt_config_in <$> dirs).

Definition config_permissions (h : Host) (path : string) : list (Sourced PermissionRule) :=
  match load_config_file h path with Some v => extract_toml_permissions v (RS.Config path) | None => [] end.
Definition load_config_toml_permissions (h : Host) (cwd : string) : list (Sourced PermissionRule) :=
  match (λ g, path_join g "config.toml") <$> user_ainxt_home h with
  | Some global_path => if is_file h global_path then config_permissions h global_path else []
  | None => []
  end ++ (find_project_ainxt_configs h cwd ≫= config_permissions h).
Definition managed_config_permissions (layers : list ManagedConfigLayer) : list (Sourced PermissionRule) :=
  layers ≫= λ l, extract_toml_permissions (managed_value l) (RS.ManagedConfig (managed_path l)).

Definition deny_read_globs_from_config (config : PermissionConfig) : list string :=
  omap rule_pattern (filter (λ r, rule_action r = RA.Deny ∧ rule_tool r ∈ [TF.Read; TF.Grep; TF.Any]) (rules config)).

Definition is_catchall_allow (rule : PermissionRule) : bool :=
  if bool_decide (rule_action rule ≠ RA.Allow) then false
  else if bool_decide (rule_tool rule ∈ [TF.Read; TF.Edit; TF.Grep]) then false
  else rule_is_catchall rule.
Definition is_admin_source (src : RS.RequirementSource) : bool :=
  match src with RS.SystemRequirements _ | RS.ManagedSettings _ => true | _ => false end.
Definition untrusted_catchall (s : Sourced PermissionRule) : bool := is_catchall_allow (value s) && negb (is_admin_source (source s)).
Definition drop_untrusted_catchall_allows (rs : list (Sourced PermissionRule)) (policy_block : option string)
    (skipped : list SkippedPermission) : list (Sourced PermissionRule) * list SkippedPermission :=
  match policy_block with
  | None => (rs, skipped)
  | Some reason =>
      (filter (λ s, untrusted_catchall s = false) rs,
       skipped ++ ((λ s, MkSkipped ("allow " +:+ default "*" (rule_pattern (value s)) +:+ " (catch-all)") reason) <$>
         filter (λ s, untrusted_catchall s = true) rs))
  end.

(** *** The vendor's settings *)

Definition em_dash : string := str_of_bytes [226; 128; 148]%N.
Definition skipped_of_warning (w : string) : SkippedPermission :=
  match split_once_str (" " +:+ em_dash +:+ " ") w with
  | Some (r, d) => MkSkipped r d
  | None => match split_once_str " -- " w with Some (r, d) => MkSkipped r d | None => MkSkipped w "" end
  end.

Record Scan : Type := MkScan {
  scan_rules : list PermissionRule;
  scan_skipped : list SkippedPermission;
  primary_source_path : option string;
  default_mode_source : option string;
  applied_mode : option DefaultPermissionMode;
  scan_prompt_policy : PP.PromptPolicy;
}.
Definition claim_mode (user_mode_load : UserDefaultModeLoad) (path : string) (settings : ClaudeSettings) (s : Scan) : Scan :=
  match user_mode_load, default_mode_source s, settings_default_mode settings with
  | Apply, None, Some raw =>
      let '(mode, skips) := parse_default_mode_claiming_scope raw in
      MkScan (scan_rules s) (scan_skipped s ++ skips) (primary_source_path s) (Some path) (Some mode)
        (mode_prompt_policy (effects mode))
  | _, _, _ => s
  end.
Definition add_permissions (path : string) (settings : ClaudeSettings) (s : Scan) : Scan :=
  match settings_permissions settings with
  | Some perms =>
      let '(cfg, warnings) := into_permission_config perms in
      let primary :=
        match primary_source_path s with
        | Some p => Some p
        | None => if bool_decide (rules cfg ≠ []) || bool_decide (warnings ≠ []) then Some path else None
        end in
      MkScan (scan_rules s ++ rules cfg) (scan_skipped s ++ (skipped_of_warning <$> warnings)) primary
        (default_mode_source s) (applied_mode s) (scan_prompt_policy s)
  | None => s
  end.
Definition scan_file (h : Host) (user_mode_load : UserDefaultModeLoad) (s : Scan) (path : string) : Scan :=
  match load_claude_settings h path with
  | None => s
  | Some settings => add_permissions path settings (claim_mode user_mode_load path settings s)
  end.

Definition resolve_claude_settings_inner (h : Host) (cwd : string) (policy_block : option string)
    (user_mode_load : UserDefaultModeLoad) : option (PermissionConfig * list SkippedPermission * string) :=
  let s := fold_left (scan_file h user_mode_load) (find_claude_settings_paths h cwd) (MkScan [] [] None None None PP.Ask) in
  let '(syn_rules, syn_skipped, bypass_blocked) :=
    match applied_mode s with
    | Some mode => synthetic_rules_for_default_mode mode policy_block
    | None => ([], [], false)
    end in
  let all_rules := scan_rules s ++ syn_rules in
  let all_skipped := scan_skipped s ++ syn_skipped in
  if bool_decide (all_rules = []) && bool_decide (scan_prompt_policy s = PP.Ask) && negb bypass_blocked
     && bool_decide (default_mode_source s = None) && bool_decide (all_skipped = [])
  then None
  else
    let source_path := default cwd (match primary_source_path s with Some p => Some p | None => default_mode_source s end) in
    Some (MkConfig all_rules (scan_prompt_policy s), all_skipped, source_path).

End Resolve.
End Sources.

(** * Policies for MCP servers and marketplaces *)

Module AS.
Inductive AllowedMcpServer : Type := Http (url_pattern : string) | Stdio (command : string) | Name (name : string).
End AS.

Module Export Allowlists.

(** A server as the client protocol describes it. *)
Inductive McpServer : Type :=
| HttpServer (name url : string)
| SseServer (name url : string)
| StdioServer (name command : string)
| UnknownServer.

Record McpServerAllowlist : Type := MkMcpList {
  entries : list AS.AllowedMcpServer;
  deny_entries : list AS.AllowedMcpServer;
  url_patterns : list string;
  commands : list string;
  names : list string;
  deny_url_patterns : list string;
  deny_commands : list string;
  deny_names : list string;
  mcp_source_path : option string;
}.
Definition split_mcp_entries (es : list AS.AllowedMcpServer) : list string * list string * list string :=
  (omap (λ e, match e with AS.Http p => Some p | _ => None end) es,
   omap (λ e, match e with AS.Stdio c => Some c | _ => None end) es,
   omap (λ e, match e with AS.Name n => Some n | _ => None end) es).
Definition McpServerAllowlist_new (es des : list AS.AllowedMcpServer) (source_path : option string) : McpServerAllowlist :=
  let '(us, cs, ns) := split_mcp_entries es in
  let '(dus, dcs, dns) := split_mcp_entries des in
  MkMcpList es des us cs ns dus dcs dns source_path.
Definition is_restricted (l : McpServerAllowlist) : bool := bool_decide (entries l ≠ []) || bool_decide (deny_entries l ≠ []).

Definition MANAGED_MCP_PREFIX : string := "ainxt_com_".
Definition MANAGED_MCP_NAME_MAX_CHARS : nat := 39.
Definition mcp_server_name (server : McpServer) : string :=
  match server with HttpServer n _ | SseServer n _ | StdioServer n _ => n | UnknownServer => "" end.
Definition server_url (server : McpServer) : option string :=
  match server with HttpServer _ url | SseServer _ url => Some url | _ => None end.
Definition server_command (server : McpServer) : option string :=
  match server with StdioServer _ command => Some command | _ => None end.

Definition strip_url_query (url : string) : string :=
  split_first (λ a, bool_decide (a = "?"%char)) (split_first (λ a, bool_decide (a = "#"%char)) url).
Definition split_host_path (s : string) : option string * string :=
  let after_scheme := match find "://" s with Some i => str_drop (i + 3) s | None => s end in
  let '(authority, path) :=
    match find "/" after_scheme with
    | Some i => (str_take i after_scheme, str_drop i after_scheme)
    | None => (after_scheme, "")
    end in
  let authority := rsplit_first (λ a, bool_decide (a = "@"%char)) authority in
  let host := split_first (λ a, bool_decide (a = ":"%char)) authority in
  let host := to_ascii_lowercase (trim_end_by is_dot host) in
  (if is_empty host then None else Some host, path).

Section Matching.
Context `{PermissionLibs} `{!SourceLibs}.

Definition normalize_managed_name (bare : string) : string := replace " " "_" (to_lowercase bare).
Definition mcp_name_key (s : string) : string :=
  let normalized := normalize_managed_name (default s (strip_prefix MANAGED_MCP_PREFIX s)) in
  concat_str (take (MANAGED_MCP_NAME_MAX_CHARS - String.length MANAGED_MCP_PREFIX) (chars normalized)).
Definition mcp_name_matches (pattern name : string) : bool :=
  negb (is_empty (mcp_name_key pattern)) && bool_decide (mcp_name_key pattern = mcp_name_key name).

Definition glob_match (pat s : string) : bool :=
  match Pattern_new pat with Some p => matches_nocase p s | None => false end.
Definition url_glob_matches (pattern url : string) : bool := glob_match pattern (strip_url_query url).
Definition url_deny_matches (pattern url : string) : bool :=
  match split_host_path pattern, split_host_path (strip_url_query url) with
  | (Some pat_host, pat_path), (Some url_host, url_path) =>
      if negb (glob_match pat_host url_host) then false
      else if is_empty pat_path then true
      else glob_match pat_path (if is_empty url_path then "/" else url_path)
  | _, _ => false
  end.

Definition is_server_denied (l : McpServerAllowlist) (server : McpServer) : bool :=
  if existsb (λ pat, mcp_name_matches pat (mcp_server_name server)) (deny_names l) then true
  else
    match server with
    | HttpServer _ url | SseServer _ url => existsb (λ pat, url_deny_matches pat url) (deny_url_patterns l)
    | StdioServer _ command => existsb (λ c, bool_decide (c = command)) (deny_commands l)
    | UnknownServer => false
    end.
Definition is_server_allowed (l : McpServerAllowlist) (server : McpServer) : bool :=
  if negb (is_restricted l) then true
  else if is_server_denied l server then false
  else
    let by_name := bool_decide (names l ≠ []) in
    let name_match := by_name && existsb (λ pat, mcp_name_matches pat (mcp_server_name server)) (names l) in
    let '(restricted, matched) :=
      match server with
      | HttpServer _ url | SseServer _ url =>
          if bool_decide (url_patterns l ≠ []) then (true, name_match || existsb (λ pat, url_glob_matches pat url) (url_patterns l))
          else (by_name, name_match)
      | StdioServer _ command =>
          if bool_decide (commands l ≠ []) then (true, name_match || existsb (λ c, bool_decide (c = command)) (commands l))
          else (by_name, name_match)
      | UnknownServer => (by_name, name_match)
      end in
    negb restricted || matched.

(** [trim_end_matches(".git")]: [fuel] is the length. *)
Fixpoint trim_git (fuel : nat) (s : string) : string :=
  match fuel with
  | 0 => s
  | S fuel => match strip_suffix ".git" s with Some s => trim_git fuel s | None => s end
  end.
Definition normalize_git_url (url : string) : string := let s := to_lowercase url in trim_git (String.length s) s.

Record MarketplaceAllowlist : Type := MkMarketplaces { allowed_urls : list string; marketplace_source_path : option string }.
Definition marketplace_is_restricted (l : MarketplaceAllowlist) : bool := bool_decide (allowed_urls l ≠ []).
Definition is_url_allowed (l : MarketplaceAllowlist) (url : string) : bool :=
  if bool_decide (allowed_urls l = []) then true
  else existsb (λ allowed, bool_decide (normalize_git_url allowed = normalize_git_url url)) (allowed_urls l).
Definition block_reason (l : MarketplaceAllowlist) : string :=
  match marketplace_source_path l with
  | Some p => "source not in strictKnownMarketplaces (" +:+ p +:+ ")"
  | None => "source not in strictKnownMarketplaces"
  end.

End Matching.
End Allowlists.

(** * Managed settings, the lock on always-approve, and the whole *)

Module Export Resolution.
Section Resolution.
Context `{PermissionLibs} `{!SourceLibs} `{ConfigLibs}.

Record ManagedSettingsFeatures : Type := MkFeatures {
  disable_telemetry : option bool;
  disable_feedback : option bool;
  disable_yolo : option bool;
  features_source_path : option string;
}.
Record ManagedSettings : Type := MkManaged {
  features : ManagedSettingsFeatures;
  permissions : list (Sourced PermissionRule);
  default_mode : option DefaultPermissionMode;
  mcp_allowlist : McpServerAllowlist;
  marketplace_allowlist : MarketplaceAllowlist;
}.
Definition ManagedSettings_default : ManagedSettings :=
  MkManaged (MkFeatures None None None None) [] None (McpServerAllowlist_new [] [] None) (MkMarketplaces [] None).

Definition json_env_flag (env : option Jv) (key : string) : option bool :=
  match env with
  | Some env =>
      match jv_get key env with
      | Some (JNumber n _) => Some (bool_decide (default 0%Z n ≠ 0%Z))
      | Some (JBool b) => Some b
      | Some (JString s) => Some (bool_decide (s ∉ ["0"; ""; "false"]))
      | _ => None
      end
  | None => None
  end.
Definition parse_disable_bypass_permissions (json : Jv) : option bool :=
  match nested "permissions" "disableBypassPermissionsMode" json with
  | Some val => Some (bool_decide (jv_as_str val = Some "disable"))
  | None => None
  end.

Definition array_at (json : Jv) (key : string) : list Jv :=
  match jv_get key json with Some (JArray l) => l | _ => [] end.
Definition str_at (entry : Jv) (key : string) : option string :=
  match jv_get key entry with Some (JString s) => Some s | _ => None end.
Definition parse_mcp_entries (json : Jv) (key : string) : list AS.AllowedMcpServer :=
  omap (λ entry,
    match str_at entry "serverUrl", str_at entry "command", str_at entry "serverName" with
    | Some url, _, _ => Some (AS.Http url)
    | None, Some cmd, _ => Some (AS.Stdio cmd)
    | None, None, Some name => Some (AS.Name name)
    | None, None, None => None
    end) (array_at json key).

(** [serde_json::from_value::<ParsedPermissions>]: an object whose lists, where present,
    hold strings only, or an array of up to three such lists. *)
Definition string_list (v : Jv) : option (list string) :=
  match v with JArray l => mapM jv_as_str l | _ => None end.
Definition list_field (v : option Jv) : option (list string) :=
  match v with Some v => string_list v | None => Some [] end.
Definition parsed_permissions (v : Jv) : option ParsedPermissions :=
  match v with
  | JObject m => a ← list_field (m !! "allow"); d ← list_field (m !! "deny"); k ← list_field (m !! "ask"); Some (MkParsed a d k)
  | JArray l =>
      if bool_decide (length l ≤ 3)
      then a ← list_field (l !! 0); d ← list_field (l !! 1); k ← list_field (l !! 2); Some (MkParsed a d k)
      else None
  | _ => None
  end.
Definition parse_managed_settings_permissions (json : Jv) (path : string) : list (Sourced PermissionRule) :=
  match jv_get "permissions" json with
  | Some v =>
      match parsed_permissions v with
      | Some p => tag (RS.ManagedSettings path) (rules (into_permission_config p).1)
      | None => []
      end
  | None => []
  end.

Definition parse_managed_settings_json (json : Jv) (path : string) : ManagedSettings :=
  let env := jv_get "env" json in
  MkManaged
    (MkFeatures (json_env_flag env "DISABLE_TELEMETRY") (json_env_flag env "DISABLE_FEEDBACK_COMMAND")
       (parse_disable_bypass_permissions json) (Some path))
    (parse_managed_settings_permissions json path)
    ((λ raw, (parse_default_mode_claiming_scope raw).1) <$> extract_default_mode json)
    (McpServerAllowlist_new (parse_mcp_entries json "allowedMcpServers") (parse_mcp_entries json "deniedMcpServers") (Some path))
    (MkMarketplaces (omap (λ entry,
       if bool_decide (str_at entry "source" = Some "git") then str_at entry "url" else None)
       (array_at json "strictKnownMarketplaces")) (Some path)).
Definition read_managed_settings_json (h : Host) (path : string) : option Jv :=
  match read_to_string h path with Ok content => jv_from_str content | Err _ => None end.
Definition load_managed_settings (h : Host) : ManagedSettings :=
  match claude_managed_settings_path h with
  | Some path =>
      match read_managed_settings_json h path with
      | Some json => parse_managed_settings_json json path
      | None => ManagedSettings_default
      end
  | None => ManagedSettings_default
  end.

Definition YOLO_PIN_REASON_REQUIREMENTS : string :=
  "always-approve disabled by managed policy ([ui] disable_bypass_permissions_mode = true in requirements.toml)".
Definition YOLO_PIN_REASON_LEGACY_YOLO : string :=
  "always-approve disabled by managed policy ([ui] yolo = false in requirements.toml)".
Definition requirements_lock_bool (ui : option Toml) (key : string) : option bool :=
  match ui with
  | Some ui => match toml_get key ui with Some v => toml_as_bool v | None => None end
  | None => None
  end.
Fixpoint resolve_yolo_policy_block (requirement_layers : list Toml) : option string :=
  match requirement_layers with
  | [] => None
  | layer :: layers =>
      let ui := toml_get "ui" layer in
      if bool_decide (requirements_lock_bool ui "disable_bypass_permissions_mode" = Some true)
      then Some YOLO_PIN_REASON_REQUIREMENTS
      else if bool_decide (requirements_lock_bool ui "yolo" = Some false) then Some YOLO_PIN_REASON_LEGACY_YOLO
      else resolve_yolo_policy_block layers
  end.
Definition yolo_disabled_by_policy (h : Host) : option string :=
  resolve_yolo_policy_block (requirements_value <$> requirements_layers h).

Record ResolvedPermissions : Type := MkResolved {
  resolved_config : PermissionConfig;
  sources : list RS.RequirementSource;
  resolved_skipped : list SkippedPermission;
}.
Record ResolveInputs : Type := MkInputs {
  policy_block : option string;
  managed_input : ManagedSettings;
  managed_config_rules : list (Sourced PermissionRule);
}.
Definition live (h : Host) : ResolveInputs :=
  MkInputs (yolo_disabled_by_policy h) (load_managed_settings h) (managed_config_permissions (managed_config_layers h)).

(** The rules of every source in order, what was skipped, and the policy for prompts,
    before the lock takes out catch-all rules. *)
Definition collected (h : Host) (cwd : string) (i : ResolveInputs) :
    list (Sourced PermissionRule) * list SkippedPermission * PP.PromptPolicy :=
  let m := managed_input i in
  let mode_load := match default_mode m with Some _ => SkipManagedOwns | None => Apply end in
  let settings_json :=
    if is_claude_import_marked h then None else resolve_claude_settings_inner h cwd (policy_block i) mode_load in
  let managed_source := RS.ManagedSettings (default "managed-settings.json" (features_source_path (features m))) in
  let '(syn_rules, syn_skipped, prompt) :=
    match default_mode m with
    | Some mode =>
        let '(r, s, _) := synthetic_rules_for_default_mode mode (policy_block i) in
        (tag managed_source r, s, mode_prompt_policy (effects mode))
    | None => ([], [], PP.Ask)
    end in
  let '(user_rules, user_skipped, prompt) :=
    match settings_json with
    | Some (config, skipped_rules, path) =>
        (tag (RS.Settings path) (rules config), skipped_rules,
         match default_mode m with Some _ => prompt | None => config_prompt_policy config end)
    | None => ([], [], prompt)
    end in
  (load_requirements_permissions h ++ permissions m ++ syn_rules ++ managed_config_rules i ++
   load_config_toml_permissions h cwd ++ user_rules, syn_skipped ++ user_skipped, prompt).

Definition resolve_permissions_with_provenance_inner (h : Host) (cwd : string) (i : ResolveInputs) : option ResolvedPermissions :=
  let '(all_rules, skipped, prompt_policy) := collected h cwd i in
  let '(all_rules, skipped) := drop_untrusted_catchall_allows all_rules (policy_block i) skipped in
  if bool_decide (all_rules = []) && bool_decide (prompt_policy = PP.Ask) && bool_decide (skipped = []) then None
  else Some (MkResolved (MkConfig (value <$> all_rules) prompt_policy) (source <$> all_rules) skipped).
Definition resolve_permissions_with_provenance (h : Host) (cwd : string) : option ResolvedPermissions :=
  resolve_permissions_with_provenance_inner h cwd (live h).
Definition resolve_permission_config_with_fallback (h : Host) (cwd : string) : option PermissionConfig :=
  resolved_config <$> resolve_permissions_with_provenance h cwd.

End Resolution.
End Resolution.
