(* ===== verification/PermissionSourceLaws.v ===== *)
(** What holds of the rules of all sources: the lock on always-approve takes away what it
    means to and nothing else, a denial of any source stands, one place owns the mode,
    the policy for MCP servers is the one its entries say, and what trust unlocks is what
    the trust gate looks at. *)
From stdpp Require Import list gmap strings.
From S2P Require Import Prelude RustStr StrSearch ShellWords ShellTree HunkFiles Permission HostFiles ConfigLayers.
From S2P Require Import TrustStore PermissionSources.

(** * The lock and the denials *)

Module Export SourceLaws.
Section SourceLaws.
Context `{PermissionLibs} `{!SourceLibs} `{ConfigLibs}.

(** A rule the lock leaves. *)
Definition stands (block : option string) (s : Sourced PermissionRule) : Prop :=
  block = None ∨ untrusted_catchall s = false.
(** A collected rule with the action matches the access. *)
Definition collected_match (all : list (Sourced PermissionRule)) (access : AK.AccessKind Json) (action : RA.RuleAction)
    (s : Sourced PermissionRule) : Prop :=
  s ∈ all ∧ rule_action (value s) = action ∧ rule_matches access (value s, compile_pattern (value s)) = true.
(** What the resolved permissions decide, a missing configuration deciding nothing. *)
Definition resolved_decision (r : option ResolvedPermissions) (access : AK.AccessKind Json) : option Dec.Decision :=
  r ← r; evaluate (CompiledPolicy_new (resolved_config r)) access.

Lemma drop_exact rs block skipped s :
  s ∈ (drop_untrusted_catchall_allows rs block skipped).1 ↔ s ∈ rs ∧ stands block s.
Proof. unfold drop_untrusted_catchall_allows, stands. destruct block; cbn; [rewrite list_elem_of_filter|]; naive_solver. Qed.

Lemma resolved_rules h cwd i :
  let rs := (drop_untrusted_catchall_allows (collected h cwd i).1.1 (policy_block i) (collected h cwd i).1.2).1 in
  default [] ((λ r, rules (resolved_config r)) <$> resolve_permissions_with_provenance_inner h cwd i) = value <$> rs.
Proof.
  unfold resolve_permissions_with_provenance_inner. destruct (collected h cwd i) as [[all skipped] prompt]. cbn.
  destruct (drop_untrusted_catchall_allows _ _ _) as [rs sk]. cbn.
  destruct (bool_decide (rs = [])) eqn:Er; cbn; [|done]. apply bool_decide_eq_true in Er as ->. by repeat case_match.
Qed.

Lemma resolved_match h cwd i access action :
  matched (PermissionConfig_new (default [] ((λ r, rules (resolved_config r)) <$> resolve_permissions_with_provenance_inner h cwd i)))
    access action ↔
  ∃ s, collected_match (collected h cwd i).1.1 access action s ∧ stands (policy_block i) s.
Proof.
  rewrite resolved_rules. unfold matched, collected_match. cbn. split.
  - intros (rule & (s & -> & Hs)%list_elem_of_fmap & Ha & Hm). apply drop_exact in Hs as [Hs Hk]. by exists s.
  - intros (s & (Hs & Ha & Hm) & Hk). exists (value s). split_and!; [|done..]. apply list_elem_of_fmap_2. by apply drop_exact.
Qed.

Lemma decision_matches r access :
  let c := PermissionConfig_new (default [] ((λ r, rules (resolved_config r)) <$> r)) in
  match resolved_decision r access with
  | Some (Dec.Reject reason) => matched c access RA.Deny
  | Some Dec.Ask => ¬ matched c access RA.Deny ∧ matched c access RA.Ask
  | Some Dec.Allow => ¬ matched c access RA.Deny ∧ ¬ matched c access RA.Ask ∧ matched c access RA.Allow
  | None => ∀ action, ¬ matched c access action
  | _ => False
  end.
Proof.
  intros c. destruct r as [r|]; cbn [resolved_decision mbind option_bind].
  - assert (Hm : ∀ action, matched (resolved_config r) access action ↔ matched c access action) by done.
    pose proof (evaluate_spec (resolved_config r) access) as E.
    destruct (evaluate _ access) as [[]|]; try done. destruct E as (rule & ? & ? & ? & ->). apply Hm. unfold matched; eauto.
  - intros action (rule & Hin & _). by apply elem_of_nil in Hin.
Qed.

Lemma lock_only_allows s : untrusted_catchall s = true → rule_action (value s) = RA.Allow.
Proof. unfold untrusted_catchall, is_catchall_allow. intros [Hc _]%andb_true_iff. by case_bool_decide. Qed.
Lemma denial_stands block s : rule_action (value s) ≠ RA.Allow → stands block s.
Proof. intros Ha. right. destruct (untrusted_catchall s) eqn:E; [|done]. by apply lock_only_allows in E. Qed.

(** C9: Whatever the policy of the administrator: an access is rejected when a deny rule of
    any source matches it, else asked about when an ask rule of any source does, else
    allowed when an allow rule matches which, under the lock on always-approve, opens
    less than everything or comes from a file only root writes; else nothing is
    decided. *)
Theorem lock_exact h cwd i access :
  let d := resolved_decision (resolve_permissions_with_provenance_inner h cwd i) access in
  let some action := ∃ s, collected_match (collected h cwd i).1.1 access action s in
  let open := ∃ s, collected_match (collected h cwd i).1.1 access RA.Allow s ∧
    (policy_block i = None ∨ is_catchall_allow (value s) = false ∨ is_admin_source (source s) = true) in
  (rejects d ↔ some RA.Deny) ∧
  (d = Some Dec.Ask ↔ ¬ some RA.Deny ∧ some RA.Ask) ∧
  (d = Some Dec.Allow ↔ ¬ some RA.Deny ∧ ¬ some RA.Ask ∧ open) ∧
  (d = None ↔ ¬ some RA.Deny ∧ ¬ some RA.Ask ∧ ¬ open).
Proof.
  intros d some open. pose proof (decision_matches (resolve_permissions_with_provenance_inner h cwd i) access) as E. cbn in E.
  pose proof (resolved_match h cwd i access) as Hm.
  set (c := PermissionConfig_new _) in E, Hm. fold d in E. clearbody c d.
  assert (HX : ∀ action, action ≠ RA.Allow → matched c access action ↔ some action).
  { intros action Hne. rewrite Hm. subst some. split; [naive_solver|]. intros (s & Hs). exists s. split; [done|].
    apply denial_stands. destruct Hs as (_ & -> & _). done. }
  assert (HO : matched c access RA.Allow ↔ open).
  { rewrite Hm. subst open. unfold stands, untrusted_catchall. setoid_rewrite andb_false_iff. setoid_rewrite negb_false_iff. done. }
  pose proof (HX RA.Deny ltac:(done)) as HD. pose proof (HX RA.Ask ltac:(done)) as HA. clear HX Hm. clearbody some open.
  unfold rejects.
  destruct d as [[]|]; try done; [..|pose proof (E RA.Deny); pose proof (E RA.Ask); pose proof (E RA.Allow)]; naive_solver.
Qed.

Lemma config_rules_collected h cwd i s : s ∈ load_config_toml_permissions h cwd → s ∈ (collected h cwd i).1.1.
Proof.
  intros Hs. unfold collected. destruct (match default_mode _ with Some _ => _ | None => _ end) as [[syn sk] p].
  destruct (match (if is_claude_import_marked h then _ else _) with Some _ => _ | None => _ end) as [[us sk'] p'].
  cbn. rewrite !elem_of_app. tauto.
Qed.
Lemma denied_line_parsed perm items text rule :
  compact_list perm "deny" = Some items → TString text ∈ items → parse_permission_rule text RA.Deny = Ok rule →
  rule ∈ default [] (parse_toml_permission_section perm).
Proof.
  intros Hdeny Hin Hrule. unfold parse_toml_permission_section.
  rewrite (proj2 (existsb_exists _ compact_lists)); [cbn|].
  - rewrite Hdeny. cbn. apply elem_of_app. left. unfold parse_items. apply list_elem_of_omap.
    exists (TString text). split; [done|]. cbn. by rewrite Hrule.
  - exists (RA.Deny, "deny"). split; [by left|]. apply bool_decide_eq_true. by rewrite Hdeny.
Qed.

(** A line under [permission.deny] of a project's file, from the top of the repository to
    the working directory, refuses what it matches, whatever the other sources allow. *)
Theorem project_denial_stands h cwd i path config perm items text rule access :
  path ∈ find_project_ainxt_configs h cwd → load_config_file h path = Some config →
  toml_get "permission" config = Some perm → compact_list perm "deny" = Some items →
  TString text ∈ items → parse_permission_rule text RA.Deny = Ok rule →
  rule_matches access (rule, compile_pattern rule) = true →
  rejects (resolved_decision (resolve_permissions_with_provenance_inner h cwd i) access).
Proof.
  intros Hp Hl Hperm Hdeny Hin Hrule Hmatch.
  assert (Ha : rule_action rule = RA.Deny).
  { revert Hrule. unfold parse_permission_rule. by repeat case_match; intros [= <-]. }
  assert (Hs : collected_match (collected h cwd i).1.1 access RA.Deny (MkSourced rule (RS.Config path))).
  { split; [|done]. apply config_rules_collected. unfold load_config_toml_permissions. apply elem_of_app. right.
    apply list_elem_of_bind. exists path. split; [|done]. unfold config_permissions, extract_toml_permissions.
    rewrite Hl, Hperm. unfold tag. apply list_elem_of_fmap. exists rule. split; [done|]. by eapply denied_line_parsed. }
  pose proof (decision_matches (resolve_permissions_with_provenance_inner h cwd i) access) as E. cbn in E.
  assert (Hd : ∃ s, collected_match (collected h cwd i).1.1 access RA.Deny s ∧ stands (policy_block i) s).
  { eexists. split; [exact Hs|]. apply denial_stands. cbn. congruence. }
  apply resolved_match in Hd. unfold rejects.
  destruct (resolved_decision _ _) as [[]|]; naive_solver.
Qed.

End SourceLaws.
End SourceLaws.

(** * The mode, the environment and the lock *)

Module Export ModeLaws.
Section ModeLaws.
Context `{PermissionLibs} `{!SourceLibs} `{ConfigLibs}.

(** The mode the nearest settings file sets, as text, and the policy it stands for. *)
Definition nearest_mode (h : Host) (paths : list string) : option string :=
  head (omap (λ p, s ← load_claude_settings h p; settings_default_mode s) paths).
Definition prompt_of_mode (raw : string) : PP.PromptPolicy := mode_prompt_policy (effects (parse_default_mode_claiming_scope raw).1).

(** What a scan has settled about the mode. *)
Definition settled (mode : option string) (s : Scan) : Prop :=
  match mode with
  | Some raw => is_Some (default_mode_source s) ∧ scan_prompt_policy s = prompt_of_mode raw
  | None => default_mode_source s = None ∧ scan_prompt_policy s = PP.Ask
  end.

Lemma settled_permissions mode path settings s : settled mode s → settled mode (add_permissions path settings s).
Proof.
  unfold add_permissions. destruct (settings_permissions settings) as [perms|]; [|done].
  destruct (into_permission_config perms) as [cfg warnings]. by destruct mode.
Qed.
Lemma settled_claim mode path settings s : settled mode s →
  settled (match mode with Some raw => Some raw | None => settings_default_mode settings end) (claim_mode Apply path settings s).
Proof.
  unfold claim_mode. destruct mode as [raw|]; cbn [settled].
  - intros [[p Hp] Hs]. rewrite Hp. by eauto.
  - intros [Hn Hs]. rewrite Hn. destruct (settings_default_mode settings) as [raw|]; [|done].
    unfold settled, prompt_of_mode. destruct (parse_default_mode_claiming_scope raw) as [m sk]. cbn. by eauto.
Qed.
Lemma settled_scan h paths : ∀ mode s, settled mode s →
  settled (match mode with Some raw => Some raw | None => nearest_mode h paths end) (fold_left (scan_file h Apply) paths s).
Proof.
  induction paths as [|path paths IH]; intros mode s Hs; cbn; [by destruct mode|].
  unfold nearest_mode. cbn. unfold scan_file at 2. destruct (load_claude_settings h path) as [settings|];
    cbn -[claim_mode add_permissions]; [|by apply IH].
  specialize (IH _ _ (settled_permissions _ path settings _ (settled_claim mode path settings s Hs))).
  by destruct mode; [exact IH|]; destruct (settings_default_mode settings).
Qed.
Lemma skipped_scan h paths : ∀ s, settled None s → settled None (fold_left (scan_file h SkipManagedOwns) paths s).
Proof.
  induction paths as [|path paths IH]; intros s Hs; cbn; [done|]. apply IH. unfold scan_file.
  destruct (load_claude_settings h path) as [settings|]; [|done]. by apply settled_permissions.
Qed.

Lemma inner_prompt h cwd block load :
  match resolve_claude_settings_inner h cwd block load with
  | Some (config, _, _) => config_prompt_policy config
  | None => PP.Ask
  end = scan_prompt_policy (fold_left (scan_file h load) (find_claude_settings_paths h cwd) (MkScan [] [] None None None PP.Ask)).
Proof.
  unfold resolve_claude_settings_inner. set (s := fold_left _ _ _).
  destruct (match applied_mode s with Some _ => _ | None => _ end) as [[syn sk] blocked].
  destruct (bool_decide (scan_prompt_policy s = PP.Ask)) eqn:Ep; rewrite ?andb_false_r, ?andb_false_l; [|done].
  apply bool_decide_eq_true in Ep. rewrite Ep. by destruct (_ && bool_decide (scan_skipped s ++ sk = [])).
Qed.

(** One place owns the mode of a session: managed settings where they name one, else
    the nearest of the vendor's files that does, a project's before those of the user,
    else prompts are asked. A mode that is not known counts as the cautious one and
    still keeps those further away out. *)
Theorem one_mode_owner h cwd i :
  (collected h cwd i).2 =
  match default_mode (managed_input i) with
  | Some mode => mode_prompt_policy (effects mode)
  | None =>
      if is_claude_import_marked h then PP.Ask
      else match nearest_mode h (find_claude_settings_paths h cwd) with Some raw => prompt_of_mode raw | None => PP.Ask end
  end.
Proof.
  unfold collected. destruct (default_mode (managed_input i)) as [mode|].
  - destruct (synthetic_rules_for_default_mode mode (policy_block i)) as [[syn sk] b].
    destruct (if is_claude_import_marked h then _ else _) as [[[c s] p]|]; done.
  - destruct (is_claude_import_marked h); [done|].
    pose proof (inner_prompt h cwd (policy_block i) Apply) as Hp.
    pose proof (settled_scan h (find_claude_settings_paths h cwd) None (MkScan [] [] None None None PP.Ask) (conj eq_refl eq_refl)) as Hs.
    cbn [default] in Hs. destruct (resolve_claude_settings_inner _ _ _ _) as [[[c s] p]|]; cbn [snd];
      rewrite Hp; destruct (nearest_mode _ _); by destruct Hs.
Qed.

(** *** What trust unlocks *)

Lemma settings_are_files h path s : load_claude_settings h path = Some s → is_file h path = true.
Proof.
  unfold load_claude_settings, read_to_string, is_file. destruct (files h !! path) as [[[t|]| |[[t|]|]]|]; done.
Qed.
Lemma no_settings_no_env h paths : existsb (is_file h) paths = false → ∀ m, fold_left (merge_env h) paths m = m.
Proof.
  induction paths as [|path paths IH]; cbn; [done|]. intros [Hf Hr]%orb_false_iff m. unfold merge_env at 2.
  destruct (load_claude_settings h path) eqn:El; [apply settings_are_files in El; congruence|]. cbn. by apply IH.
Qed.
Lemma existsb_reverse {A} (f : A → bool) l : existsb f (reverse l) = existsb f l.
Proof.
  apply eq_true_iff_eq. rewrite !existsb_exists. split; intros (x & Hx & Hf); exists x; (split; [|done]);
    rewrite <-!list_elem_of_In in *; by apply elem_of_reverse.
Qed.

Lemma env_needs_settings h cwd :
  load_claude_env_with_project h cwd true ≠ load_claude_env_with_project h cwd false →
  project_claude_settings_present h cwd = true.
Proof.
  unfold load_claude_env_with_project, project_claude_settings_present. destruct (is_claude_import_marked h); [done|].
  destruct (existsb _ _) eqn:E; [done|]. intros Hd. destruct Hd. unfold find_claude_settings_paths.
  rewrite reverse_app, fold_left_app. apply no_settings_no_env. by rewrite existsb_reverse.
Qed.

(** *** The lock *)

(** A layer of the requirements that locks always-approve. *)
Definition locks (layer : Toml) : Prop :=
  let ui := toml_get "ui" layer in
  requirements_lock_bool ui "disable_bypass_permissions_mode" = Some true ∨ requirements_lock_bool ui "yolo" = Some false.

(** Always-approve is locked when some layer of the requirements locks it: no other layer
    can undo that. *)
Theorem lock_ratchets layers : is_Some (resolve_yolo_policy_block layers) ↔ ∃ layer, layer ∈ layers ∧ locks layer.
Proof.
  rewrite <-Exists_exists. induction layers as [|layer layers IH]; [split; [by intros [? ?]|by intros ?%Exists_nil]|].
  rewrite Exists_cons, <-IH. cbn. unfold locks. repeat case_bool_decide; [naive_solver eauto..|]. tauto.
Qed.

End ModeLaws.
End ModeLaws.

(** * The policy for MCP servers *)

Module Export ServerLaws.
Section ServerLaws.
Context `{PermissionLibs} `{!SourceLibs}.

(** An entry of a list that can speak about a server; one of the allowed list that lets it
    in; one of the denied list that keeps it out. *)
Definition concerns (e : AS.AllowedMcpServer) (server : McpServer) : Prop :=
  match e with
  | AS.Http _ => is_Some (server_url server)
  | AS.Stdio _ => is_Some (server_command server)
  | AS.Name _ => True
  end.
Definition entry_match (url_matches : string → string → bool) (e : AS.AllowedMcpServer) (server : McpServer) : Prop :=
  match e with
  | AS.Http p => ∃ url, server_url server = Some url ∧ url_matches p url = true
  | AS.Stdio c => server_command server = Some c
  | AS.Name p => mcp_name_matches p (mcp_server_name server) = true
  end.
Definition admits := entry_match url_glob_matches.
Definition refuses := entry_match url_deny_matches.

(** What the three lists of a policy hold. *)
Lemma split_entries es :
  (∀ p, p ∈ (split_mcp_entries es).1.1 ↔ AS.Http p ∈ es) ∧
  (∀ c, c ∈ (split_mcp_entries es).1.2 ↔ AS.Stdio c ∈ es) ∧
  (∀ n, n ∈ (split_mcp_entries es).2 ↔ AS.Name n ∈ es).
Proof.
  unfold split_mcp_entries. cbn. split_and!; intros x; rewrite list_elem_of_omap; (split; [intros (e & He & Hx)|eauto]);
    destruct e; try done; by injection Hx as ->.
Qed.
Lemma existsb_elem {A} (f : A → bool) l : existsb f l = true ↔ ∃ x, x ∈ l ∧ f x = true.
Proof. rewrite existsb_exists. by setoid_rewrite list_elem_of_In. Qed.
Lemma nonempty_elem {A} `{EqDecision A} (l : list A) : bool_decide (l ≠ []) = true ↔ ∃ x, x ∈ l.
Proof.
  rewrite bool_decide_eq_true. destruct l as [|x l]; split; [done|by intros [x ?%elem_of_nil]|by exists x; left|done].
Qed.

Lemma entries_by_kind (P : AS.AllowedMcpServer → Prop) (es : list AS.AllowedMcpServer) :
  (∃ e, e ∈ es ∧ P e) ↔ (∃ n, AS.Name n ∈ es ∧ P (AS.Name n)) ∨ (∃ p, AS.Http p ∈ es ∧ P (AS.Http p)) ∨
    (∃ c, AS.Stdio c ∈ es ∧ P (AS.Stdio c)).
Proof. split; [intros ([p|c|n] & He & Hx); eauto 10|naive_solver]. Qed.

Lemma denied_exact es des src server :
  is_server_denied (McpServerAllowlist_new es des src) server = true ↔ ∃ e, e ∈ des ∧ refuses e server.
Proof.
  unfold is_server_denied, McpServerAllowlist_new. pose proof (split_entries des) as (Hu & Hc & Hn).
  destruct (split_mcp_entries es) as [[us cs] ns], (split_mcp_entries des) as [[dus dcs] dns]. cbn in *.
  rewrite (entries_by_kind (λ e, refuses e server)). cbn.
  setoid_rewrite <-Hu. setoid_rewrite <-Hc. setoid_rewrite <-Hn.
  destruct (existsb (λ n, mcp_name_matches n _) dns) eqn:E; [apply existsb_elem in E; naive_solver|].
  apply not_true_iff_false in E. rewrite existsb_elem in E.
  destruct server as [nm url|nm url|nm cmd|]; cbn; rewrite ?existsb_elem; try setoid_rewrite bool_decide_eq_true; naive_solver.
Qed.

(** Whether the allowed list speaks about a server, and whether it lets it in. *)
Lemma allowed_parts es des src server :
  let l := McpServerAllowlist_new es des src in
  let by_name := bool_decide (names l ≠ []) in
  let name_match := by_name && existsb (λ pat, mcp_name_matches pat (mcp_server_name server)) (names l) in
  let by_kind {A} (kind : option A) (patterns : list string) (f : string → A → bool) :=
    match kind with
    | Some x => if bool_decide (patterns ≠ []) then (true, name_match || existsb (λ pat, f pat x) patterns) else (by_name, name_match)
    | None => (by_name, name_match)
    end in
  let '(restricted, matched) :=
    match server with
    | HttpServer _ url | SseServer _ url => by_kind (Some url) (url_patterns l) url_glob_matches
    | StdioServer _ command => by_kind (Some command) (commands l) (λ c x, bool_decide (c = x))
    | UnknownServer => (by_name, name_match)
    end in
  (restricted = true ↔ ∃ e, e ∈ es ∧ concerns e server) ∧ (matched = true ↔ ∃ e, e ∈ es ∧ admits e server).
Proof.
  unfold McpServerAllowlist_new. pose proof (split_entries es) as (Hu & Hc & Hn).
  destruct (split_mcp_entries es) as [[us cs] ns], (split_mcp_entries des) as [[dus dcs] dns]. cbn in *.
  assert (HN : bool_decide (ns ≠ []) = true ↔ ∃ n, AS.Name n ∈ es) by (rewrite nonempty_elem; by setoid_rewrite Hn).
  assert (HM : bool_decide (ns ≠ []) && existsb (λ pat, mcp_name_matches pat (mcp_server_name server)) ns = true ↔
    ∃ n, AS.Name n ∈ es ∧ mcp_name_matches n (mcp_server_name server) = true).
  { rewrite andb_true_iff, existsb_elem, HN. setoid_rewrite Hn. naive_solver. }
  set (by_name := bool_decide (ns ≠ [])) in *. set (nm := by_name && _) in *. clearbody by_name nm.
  pose proof (entries_by_kind (λ e, concerns e server) es) as HC. pose proof (entries_by_kind (λ e, admits e server) es) as HA.
  cbn in HC, HA. setoid_rewrite <-Hu in HC. setoid_rewrite <-Hc in HC. setoid_rewrite <-Hu in HA. setoid_rewrite <-Hc in HA.
  rewrite <-HM in HA. assert (HT : (∃ n, AS.Name n ∈ es ∧ True) ↔ by_name = true) by (rewrite HN; naive_solver).
  rewrite HT in HC. clear HN HM HT.
  assert (Hl : ∀ l : list string, if bool_decide (l ≠ []) then ∃ x, x ∈ l else ∀ x, x ∉ l).
  { intros l. destruct (bool_decide (l ≠ [])) eqn:E; [by apply nonempty_elem|].
    apply bool_decide_eq_false, dec_stable in E as ->. intros x. apply not_elem_of_nil. }
  destruct server as [m url|m url|m cmd|]; cbn in *;
    pose proof (Hl us) as Lu; pose proof (Hl cs) as Lc; (destruct (bool_decide (us ≠ [])), (bool_decide (cs ≠ [])));
    rewrite HC, HA, ?orb_true_iff, ?existsb_elem; try setoid_rewrite bool_decide_eq_true;
    clear Hu Hc Hn HC HA Hl; unfold is_Some; naive_solver.
Qed.

Lemma unrestricted_without_entries es des src : is_restricted (McpServerAllowlist_new es des src) = false → es = [] ∧ des = [].
Proof.
  unfold is_restricted, McpServerAllowlist_new. destruct (split_mcp_entries es) as [[us cs] ns], (split_mcp_entries des) as [[dus dcs] dns].
  cbn. intros [E1 E2]%orb_false_iff. apply bool_decide_eq_false, dec_stable in E1. by apply bool_decide_eq_false, dec_stable in E2.
Qed.
(** C28: A server may run exactly when no entry of the denied list is about it and, unless no
    entry of the allowed list can speak about a server of its kind, some entry of the
    allowed list lets it in. *)
Theorem mcp_policy_exact es des src server :
  is_server_allowed (McpServerAllowlist_new es des src) server = true ↔
  (∀ e, e ∈ des → ¬ refuses e server) ∧
  ((∀ e, e ∈ es → ¬ concerns e server) ∨ ∃ e, e ∈ es ∧ admits e server).
Proof.
  pose proof (denied_exact es des src server) as Hd. pose proof (allowed_parts es des src server) as Ha. cbv zeta in Ha.
  unfold is_server_allowed. destruct (is_restricted _) eqn:Er.
  - cbn [negb]. destruct (is_server_denied _ _).
    { split; [done|]. intros [Hn _]. destruct (proj1 Hd eq_refl) as (e & He & Hx). by destruct (Hn e). }
    assert (Hno : ∀ e, e ∈ des → ¬ refuses e server) by (intros e He Hx; enough (false = true) by done; apply Hd; eauto).
    transitivity ((∀ e, e ∈ es → ¬ concerns e server) ∨ ∃ e, e ∈ es ∧ admits e server); [|tauto].
    destruct server; repeat case_bool_decide; destruct Ha as [Hc Hm]; rewrite orb_true_iff, negb_true_iff, Hm, <-not_true_iff_false, Hc;
      naive_solver.
  - split; [|done]. intros _. apply unrestricted_without_entries in Er as [-> ->].
    split; [|left]; by intros e ?%elem_of_nil.
Qed.

End ServerLaws.
End ServerLaws.

(** * Scenes *)

Module Export SourceScene.

(** A denied address of version 6 is cut at its first colon, and what is left is no
    pattern, so that the entry keeps no server out. *)
Theorem ipv6_denial_never_matches `{PermissionLibs} `{!SourceLibs} src : Pattern_new "[" = None →
  is_server_allowed (McpServerAllowlist_new [] [AS.Http "http://[::1]:8080/*"] src) (HttpServer "local" "http://[::1]:8080/mcp") = true.
Proof.
  intros Hn. assert (Hd : url_deny_matches "http://[::1]:8080/*" "http://[::1]:8080/mcp" = false).
  { unfold url_deny_matches, glob_match. change (split_host_path "http://[::1]:8080/*") with (Some "[", "/*").
    change (split_host_path (strip_url_query "http://[::1]:8080/mcp")) with (Some "[", "/mcp"). cbn. by rewrite Hn. }
  unfold is_server_allowed, is_server_denied. cbn -[url_deny_matches]. by rewrite Hd.
Qed.

(** One entry that is no string loses every rule of the managed settings, denials
    included; the same list in the settings of the user loses that entry only. *)
Definition mixed_list : Jv := JArray [JString "Bash(rm)"; JNumber (Some 7%Z) "7"].
Definition mixed_settings : Jv := JObject {[ "permissions" := JObject {[ "deny" := mixed_list ]} ]}.
Theorem managed_denials_lost :
  parse_managed_settings_permissions mixed_settings "/etc/managed-settings.json" = [] ∧
  extract_string_array (nested "permissions" "deny" mixed_settings) = ["Bash(rm)"].
Proof. by vm_compute. Qed.

(** A project file that refuses [rm], and settings that name the mode. *)
#[local] Instance scene_permissions : PermissionLibs := PolicyScene.scene_libs.
#[local] Instance scene_sources : SourceLibs := {|
  jv_from_str s :=
    match strip_prefix "mode " s with
    | Some m => Some (JObject {[ "defaultMode" := JString m ]})
    | None => m ← strip_prefix "env " s; Some (JObject {[ "env" := JObject {[ "PATH" := JString m ]} ]})
    end;
  permission_config_of_toml _ := None;
  matches_nocase p t := bool_decide (p = to_ascii_lowercase t);
|}.
#[local] Instance scene_config : ConfigLibs := {|
  toml_from_str s :=
    d ← strip_prefix "deny " s;
    Some (TTable {[ "permission" := TTable {[ "deny" := TArray [TString d] ]} ]});
  shell_expand s _ := s;
  Version := N;
  Version_parse := parse_u64;
  version_le := N.leb;
  version_zero := 0%N;
  VERSION := "5";
  base64_text := Some;
  campaigns_state _ := None;
|}.
Definition desk : Host :=
  MkHost Linux ∅ (Some "/home/u")
    {[ "/p/.ainxt/config.toml" := Plain (Some "deny Bash(rm)"); "/p/.git" := Directory;
       "/p/.claude/settings.json" := Plain (Some "mode bypassPermissions");
       "/p/q/.claude/settings.json" := Plain (Some "mode no-such-mode");
       "/p/q/.claude/settings.local.json" := Plain (Some "env ./bin") ]}
    Some (λ d, if path_starts_with d "/p" then Some (MkGitRepo (Some "/p") false "/p/.git") else None) (λ _, None) None None.

(** The nearest mode is the one in force, although it is not known. *)
Example nearest_mode_owns : (collected desk "/p/q" (live desk)).2 = PP.Ask ∧ nearest_mode desk (find_claude_settings_paths desk "/p/q") = Some "no-such-mode".
Proof. by vm_compute. Qed.

Lemma project_denial_stands_witness :
  rejects (resolved_decision (resolve_permissions_with_provenance_inner desk "/p/q" (live desk)) (AK.Bash "rm")).
Proof.
  eapply (project_denial_stands desk "/p/q" (live desk) "/p/.ainxt/config.toml" _ _ _ "Bash(rm)" _ (AK.Bash "rm"));
    [by left|by vm_compute..|by left|by vm_compute|by vm_compute].
Defined.
Lemma ipv6_denial_never_matches_witness :
  Pattern_new "[" = None ∧
  is_server_allowed (McpServerAllowlist_new [] [AS.Http "http://[::1]:8080/*"] None) (HttpServer "local" "http://[::1]:8080/mcp") = true.
Proof. split; [done|]. by apply (ipv6_denial_never_matches None). Defined.

End SourceScene.
