(* ===== verification/FolderTrust.v ===== *)
(** Whether a folder is trusted: what a repository carries that could run code, the
    decision, and the verdicts a process keeps (crates [ainxt-workspace],
    [folder_trust.rs] and [project_config.rs]; [ainxt-agent], [repo.rs];
    [ainxt-config-types], [flags.rs]; [ainxt-shell], [agent/folder_trust.rs] and
    [folder_trust_prompt.rs]). *)
From stdpp Require Import list gmap strings.
From S2P Require Import Prelude RustStr StrSearch ShellWords ShellTree HunkFiles Permission HostFiles ConfigLayers.
From S2P Require Import TrustStore PermissionSources PermissionSourceLaws.

(** * The directories of a repository ([repo.rs], [project_config.rs]) *)

Module Export Chains.
Section Chains.
Context `{ConfigLibs}.

Record RepoDirChain : Type := MkChain { git_root : option string; dirs : list string }.
Definition RepoDirChain_resolve (h : Host) (cwd : string) : RepoDirChain :=
  match git_workdir h cwd with
  | Some root =>
      if is_home_dir h root then MkChain None [cwd]
      else
        let root_canonical := canonicalize_or_owned h root in
        MkChain (Some root) (through (λ d, path_eqb (canonicalize_or_owned h d) root_canonical) (ancestors cwd))
  | None => MkChain None [cwd]
  end.

Definition existing_subdirs_along (h : Host) (chain_dirs subdirs : list string) : list string :=
  chain_dirs ≫= λ dir, filter (λ p, is_dir h p = true) ((λ s, path_join dir s) <$> subdirs).
Definition project_plugin_dirs_in (h : Host) (chain_dirs : list string) : list string :=
  existing_subdirs_along h chain_dirs [".ainxt/plugins"; ".claude/plugins"].
Definition PROJECT_AGENT_SUBDIRS : list string := [".ainxt/agents"; ".claude/agents"].
Definition project_agent_dirs_in (h : Host) (chain_dirs : list string) : list string :=
  existing_subdirs_along h chain_dirs PROJECT_AGENT_SUBDIRS.

Definition MCP_JSON_FILENAME : string := ".mcp.json".
Definition mcp_json_candidate_paths_in (chain_dirs : list string) : list string :=
  (λ dir, path_join dir MCP_JSON_FILENAME) <$> reverse chain_dirs.
Definition mcp_json_candidate_paths (h : Host) (cwd : string) : list string :=
  mcp_json_candidate_paths_in (dirs (RepoDirChain_resolve h cwd)).
Definition find_mcp_json_files_in (h : Host) (chain_dirs : list string) : list string :=
  filter (λ p, is_file h p = true) (mcp_json_candidate_paths_in chain_dirs).
Definition find_mcp_json_files (h : Host) (cwd : string) : list string :=
  find_mcp_json_files_in h (dirs (RepoDirChain_resolve h cwd)).

Definition is_user_ainxt_config_file (h : Host) (config_path : string) : bool :=
  match user_ainxt_home h with
  | None => false
  | Some user_home =>
      let user_config := path_join user_home "config.toml" in
      if path_eqb config_path user_config then true
      else
        match canonical h config_path with
        | None => false
        | Some canonical_config => path_eqb canonical_config (canonicalize_or_owned h user_config)
        end
  end.
Definition find_project_configs_in (h : Host) (chain_dirs : list string) : list string :=
  filter (λ p, is_file h p && negb (is_user_ainxt_config_file h p) = true)
    ((λ dir, path_join (path_join dir ".ainxt") "config.toml") <$> reverse chain_dirs).
Definition find_project_configs (h : Host) (cwd : string) : list string :=
  find_project_configs_in h (dirs (RepoDirChain_resolve h cwd)).

End Chains.
End Chains.

(** * A flag of several sources ([flags.rs]) *)

Module CS.
Inductive ConfigSource : Type :=
| Requirement | Cli | Env | SystemManagedConfig | ManagedConfig | UserConfig | Config | Remote | Default.
End CS.

Module Export Flags.

Definition resolve_bool_flag (h : Host) (requirement cli_arg : option bool) (env_name : string)
    (config_val managed_val feature_flag_val : option bool) (dflt : bool) : bool * CS.ConfigSource :=
  match requirement with Some v => (v, CS.Requirement) | None =>
  match cli_arg with Some v => (v, CS.Cli) | None =>
  match env_bool h env_name with Some v => (v, CS.Env) | None =>
  match config_val with Some v => (v, CS.Config) | None =>
  match managed_val with Some v => (v, CS.ManagedConfig) | None =>
  match feature_flag_val with Some v => (v, CS.Remote) | None => (dflt, CS.Default)
  end end end end end end.

End Flags.

(** * The decision ([folder_trust.rs] of [ainxt-workspace]) *)

Module TO.
Inductive TrustOutcome : Type := Trusted | Untrusted | Prompt.
End TO.
#[export] Instance TrustOutcome_eq_dec : EqDecision TO.TrustOutcome.
Proof. solve_decision. Defined.

Module Export Gate.

Record DecideInputs : Type := MkInputs {
  store_trusted : bool;
  repo_configs : bool;
  interactive : bool;
  key_recordable : bool;
}.
Definition decide_trust (feature_enabled : bool) (i : DecideInputs) : TO.TrustOutcome :=
  if negb feature_enabled then TO.Trusted
  else if store_trusted i then TO.Trusted
  else if negb (key_recordable i) then TO.Trusted
  else if negb (repo_configs i) then TO.Trusted
  else if interactive i then TO.Prompt
  else TO.Untrusted.

(** The macro [hit!] over the markers found, in order. *)
Fixpoint collect_hits (first_only : bool) (kinds hits : list string) : list string :=
  match hits with
  | [] => kinds
  | k :: hits =>
      let kinds := if bool_decide (k ∈ kinds) then kinds else kinds ++ [k] in
      if first_only then kinds else collect_hits first_only kinds hits
  end.

Section Gate.
Context `{PermissionLibs} `{!SourceLibs} `{ConfigLibs} `{TrustCodec}.
(** Whether [AINXT_VERSION] was set when the program was built. *)
Variable stamped : bool.

Definition claude_project_mcp_names (h : Host) (cwd : string) : option (gset string) :=
  home ← home_dir h;
  content ← ok (read_to_string h (path_join home ".claude.json"));
  value ← jv_from_str content;
  let servers := (p ← jv_get "projects" value; proj ← jv_get cwd p; m ← jv_get "mcpServers" proj; jv_as_object m) in
  let names : gset string := default ∅ (dom <$> servers) in
  if bool_decide (names = ∅) then None else Some names.

Definition when (b : bool) (k : string) : list string := if b then [k] else [].
Definition config_hits (h : Host) (path : string) : list string :=
  match load_config_file h path with
  | None => []
  | Some root =>
      let has_mcp_servers := match toml_get "mcp_servers" root with Some v => filled_table v | None => false end in
      let has_plugin_paths :=
        match (v ← toml_get "plugins" root; ps ← toml_get "paths" v; toml_as_array ps) with Some (_ :: _) => true | _ => false end in
      when has_mcp_servers "mcp" ++ when has_plugin_paths "plugins"
  end.
Definition markers (h : Host) (cwd : string) : list string :=
  let chain := RepoDirChain_resolve h cwd in
  let hook_root := default cwd (git_root chain) in
  when (bool_decide (find_mcp_json_files_in h (dirs chain) ≠ [])) "mcp" ++
  (find_project_configs_in h (dirs chain) ≫= config_hits h) ++
  when (is_file h (path_join (path_join cwd ".ainxt") "lsp.json")) "lsp" ++
  when (is_file h (path_join (path_join cwd ".cursor") "mcp.json")) "mcp" ++
  when (is_file h (path_join cwd ".envrc")) "envrc" ++
  when (project_claude_settings_present h cwd) "claude" ++
  when (is_dir h (path_join (path_join hook_root ".ainxt") "hooks")
        || is_file h (path_join (path_join hook_root ".cursor") "hooks.json")) "hooks" ++
  when (bool_decide (project_plugin_dirs_in h (dirs chain) ≠ [])) "plugins" ++
  when (bool_decide (project_agent_dirs_in h (dirs chain) ≠ [])) "agents" ++
  when (bool_decide (is_Some (claude_project_mcp_names h cwd))) "mcp".
Definition collect_repo_config_kinds (h : Host) (cwd : string) (first_only : bool) : list string :=
  collect_hits first_only [] (markers h cwd).
Definition repo_configs_present (h : Host) (cwd : string) : bool := bool_decide (collect_repo_config_kinds h cwd true ≠ []).
Definition repo_config_kinds (h : Host) (cwd : string) : list string := collect_repo_config_kinds h cwd false.

Definition decide_inputs_with_interactive (h : Host) (cwd key : string) (is_interactive : bool) : DecideInputs :=
  MkInputs (is_trusted h (load h) key) (repo_configs_present h cwd) is_interactive (negb (is_unsafe_trust_root h key)).

Definition is_local_build (h : Host) : bool :=
  if bool_decide (is_Some (env_var h "AINXT_TEST_VERSION")) then false else negb stamped.
Definition folder_trust_inert (h : Host) : bool := is_local_build h.
Definition flag_from_toml (v : option Toml) : option bool :=
  v ← v; t ← toml_get "folder_trust" v; e ← toml_get "enabled" t; toml_as_bool e.
(** [remote] is [folder_trust_enabled] of the remote settings. *)
Definition feature_enabled_for_build (h : Host) (remote : option bool) (is_local_build : bool) : bool :=
  if is_local_build then false
  else (resolve_bool_flag h None None "AINXT_FOLDER_TRUST" (flag_from_toml (load_from_disk h))
          (flag_from_toml (load_managed_config h)) remote true).1.
Definition feature_enabled (h : Host) (remote : option bool) : bool := feature_enabled_for_build h remote (is_local_build h).

Definition persist_trust (h : Host) (faults : IoFaults) (now : option Z) (s : TrustStore) (key : string) : Host :=
  (set_trusted h faults now s key).1.1.
Definition grant_folder_trust (h : Host) (faults : IoFaults) (now : option Z) (cwd : string) : Host :=
  if folder_trust_inert h then h else persist_trust h faults now (load h) (workspace_key h cwd).
Definition revoke_folder_trust_store (h : Host) (faults : IoFaults) (now : option Z) (cwd : string) : Host * bool :=
  if folder_trust_inert h then (h, false)
  else
    let key := workspace_key h cwd in
    let store := load h in
    let was_trusted := is_trusted h store key in
    (if was_trusted then (set_untrusted h faults now store key).1.1 else h, was_trusted).

(** The answer typed, [None] at the end of the input or on an error. *)
Definition prompt_for_trust (line : option string) : bool :=
  match line with
  | Some line => bool_decide (to_ascii_lowercase (trim line) ∈ ["y"; "yes"])
  | None => false
  end.

End Gate.
End Gate.

(** * The verdicts of a process ([agent/folder_trust.rs] of [ainxt-shell]) *)

Module Export Verdicts.
Section Verdicts.
Context `{PermissionLibs} `{!SourceLibs} `{ConfigLibs} `{TrustCodec}.
Variable stamped : bool.

(** The machine, and the verdicts this process recorded ([DECISIONS]). *)
Record Process : Type := MkProcess { host : Host; decisions : gmap string bool }.
Definition record (p : Process) (workspace_key : string) (allowed : bool) : Process :=
  MkProcess (host p) (<[workspace_key := allowed]> (decisions p)).

(** What a resolution meets at the terminal: whether standard input and error are one,
    the answer typed, and the failures and the time of a write. *)
Record Console : Type := MkConsole { is_terminal : bool; answer : option string; faults : IoFaults; now : option Z }.

Definition compute_from_inputs (h : Host) (inputs : DecideInputs) (feature : bool) (key : string) (allow_prompt : bool)
    (c : Console) : Host * (bool * bool) :=
  match decide_trust feature inputs with
  | TO.Trusted => (h, (true, negb feature || store_trusted inputs))
  | TO.Prompt =>
      if allow_prompt then
        if prompt_for_trust (answer c)
        then (persist_trust h (faults c) (now c) (load h) key, (true, true))
        else (h, (false, true))
      else (h, (false, true))
  | TO.Untrusted => (h, (false, true))
  end.
Definition compute (h : Host) (cwd key : string) (remote : option bool) (allow_prompt : bool) (c : Console) : Host * (bool * bool) :=
  compute_from_inputs h (decide_inputs_with_interactive h cwd key (is_terminal c)) (feature_enabled stamped h remote) key allow_prompt c.

Definition resolve_and_record_inner (p : Process) (key : string) (recompute : Host * (bool * bool)) : Process * bool :=
  match decisions p !! key with
  | Some true => (p, true)
  | Some false => if is_trusted (host p) (load (host p)) key then (record p key true, true) else (p, false)
  | None =>
      let '(h, (allowed, durable)) := recompute in
      let p := MkProcess h (decisions p) in
      (if durable then record p key allowed else p, allowed)
  end.
Definition resolve_and_record (p : Process) (cwd : string) (remote : option bool) (allow_prompt : bool) (c : Console) : Process * bool :=
  if folder_trust_inert stamped (host p) then (p, true)
  else
    let key := workspace_key (host p) cwd in
    resolve_and_record_inner p key (compute (host p) cwd key remote allow_prompt c).
Definition resolve_launch_dir_trust (p : Process) (cwd : string) (remote : option bool) (c : Console) : Process * bool :=
  if folder_trust_inert stamped (host p) then (p, true)
  else
    let h := host p in
    let key := workspace_key h cwd in
    let feature := feature_enabled stamped h remote in
    let inputs := decide_inputs_with_interactive h cwd key (is_terminal c) in
    resolve_and_record_inner p key (compute_from_inputs h inputs feature key false c).

Definition project_scope_allowed (p : Process) (cwd : string) (c : Console) : Process * bool :=
  let key := workspace_key (host p) cwd in
  match decisions p !! key with
  | Some true => (p, true)
  | Some false => if is_trusted (host p) (load (host p)) key then (record p key true, true) else (p, false)
  | None => resolve_and_record p cwd None false c
  end.

Definition revoke_folder_trust (p : Process) (cwd : string) (c : Console) : Process * bool :=
  if folder_trust_inert stamped (host p) then (p, false)
  else
    let key := workspace_key (host p) cwd in
    if is_unsafe_trust_root (host p) key then (p, false)
    else
      let '(h, was_trusted) := revoke_folder_trust_store stamped (host p) (faults c) (now c) cwd in
      (record (MkProcess h (decisions p)) key false, was_trusted).

Definition prompt_warranted (h : Host) (cwd : string) (remote : option bool) : bool :=
  bool_decide (decide_trust (feature_enabled stamped h remote) (decide_inputs_with_interactive h cwd (workspace_key h cwd) true) = TO.Prompt).

(** ** The question to a graphical client ([folder_trust_prompt.rs]) *)

(** The process, the workspaces a client was asked about, and the questions open. *)
Record Agent : Type := MkAgent { process : Process; prompted : gset string; questions : list (string * string * option bool) }.
(** How a question ends. *)
Inductive Reply : Type := Trust | Reject | Undecodable | TransportError | Elapsed.

(** [shares_workspace] says that a session of the workspace exists, whose servers a grant
    would reload. *)
Definition maybe_spawn_interactive_trust_prompt (a : Agent) (interactive_client shares_workspace : bool) (cwd : string)
    (remote : option bool) : Agent :=
  let h := host (process a) in
  if negb interactive_client then a
  else if negb (prompt_warranted h cwd remote) then a
  else
    let key := workspace_key h cwd in
    if bool_decide (key ∈ prompted a) then a
    else if negb shares_workspace then a
    else MkAgent (process a) ({[ key ]} ∪ prompted a) (questions a ++ [(key, cwd, remote)]).

(** The end of a question, and whether it granted trust. *)
Definition finish_question (a : Agent) (key cwd : string) (remote : option bool) (r : Reply) (c : Console) : Agent * bool :=
  match r with
  | Undecodable | TransportError | Elapsed => (MkAgent (process a) (prompted a ∖ {[ key ]}) (questions a), false)
  | Reject => (a, false)
  | Trust =>
      if bool_decide (key ∉ prompted a) then (a, false)
      else
        let p := MkProcess (grant_folder_trust stamped (host (process a)) (faults c) (now c) cwd) (decisions (process a)) in
        (MkAgent (resolve_and_record p cwd remote false c).1 (prompted a) (questions a), true)
  end.
Definition reply_to (a : Agent) (i : nat) (r : Reply) (c : Console) : Agent * bool :=
  match questions a !! i with
  | Some (key, cwd, remote) =>
      finish_question (MkAgent (process a) (prompted a) (delete i (questions a))) key cwd remote r c
  | None => (a, false)
  end.
(** [execute_hooks_action] with [Untrust]: the workspace may be asked about again, and the
    session then revokes the trust. *)
Definition release_prompt (a : Agent) (cwd : string) : Agent :=
  MkAgent (process a) (prompted a ∖ {[ workspace_key (host (process a)) cwd ]}) (questions a).
Definition untrust (a : Agent) (cwd git_root : string) (c : Console) : Agent :=
  let a := release_prompt a cwd in
  MkAgent (revoke_folder_trust (process a) git_root c).1 (prompted a) (questions a).

End Verdicts.
End Verdicts.

(** * What the gate sees *)

Module Export GateLaws.
Section GateLaws.
Context `{PermissionLibs} `{!SourceLibs} `{ConfigLibs} `{TrustCodec}.

Lemma collect_hits_spec hits : ∀ kinds, NoDup kinds →
  NoDup (collect_hits false kinds hits) ∧ ∀ k, k ∈ collect_hits false kinds hits ↔ k ∈ kinds ∨ k ∈ hits.
Proof.
  induction hits as [|x hits IH]; intros kinds Hn; cbn; [split; [done|]; intros k; by rewrite elem_of_nil; tauto|].
  case_bool_decide as Hx.
  - destruct (IH kinds Hn) as [Hd Hin]. split; [done|]. intros k. rewrite Hin, elem_of_cons. naive_solver.
  - destruct (IH (kinds ++ [x])) as [Hd Hin].
    { apply NoDup_app. split_and!; [done| |apply NoDup_singleton]. intros y Hy Hyx. apply list_elem_of_singleton in Hyx. by subst y. }
    split; [done|]. intros k. rewrite Hin, elem_of_app, !elem_of_cons, elem_of_nil. tauto.
Qed.

Lemma gate_first h cwd : repo_configs_present h cwd = true ↔ markers h cwd ≠ [].
Proof.
  unfold repo_configs_present, collect_repo_config_kinds. rewrite bool_decide_eq_true. by destruct (markers h cwd).
Qed.

(** The gate, which stops at the first marker, fires exactly when the list shown to the
    user, which goes through them all, is not empty; that list holds each kind of marker
    found once. *)
Theorem gate_matches_kinds h cwd :
  (repo_configs_present h cwd = true ↔ repo_config_kinds h cwd ≠ []) ∧ NoDup (repo_config_kinds h cwd) ∧
  ∀ k, k ∈ repo_config_kinds h cwd ↔ k ∈ markers h cwd.
Proof.
  destruct (collect_hits_spec (markers h cwd) [] (NoDup_nil_2)) as [Hd Hin].
  assert (Hk : ∀ k, k ∈ repo_config_kinds h cwd ↔ k ∈ markers h cwd).
  { intros k. unfold repo_config_kinds, collect_repo_config_kinds. rewrite Hin, elem_of_nil. tauto. }
  split_and!; [|done|done]. rewrite gate_first. split; intros Hne E; destruct Hne; apply elem_of_nil_inv; intros k Hx;
    apply Hk in Hx; rewrite E in Hx; by apply elem_of_nil in Hx.
Qed.

Lemma gate_claude h cwd : project_claude_settings_present h cwd = true → repo_configs_present h cwd = true.
Proof.
  intros Hp. apply gate_first. intros E. assert (Hin : "claude" ∈ markers h cwd); [|rewrite E in Hin; by apply elem_of_nil in Hin].
  unfold markers. rewrite Hp. rewrite !elem_of_app. do 5 right. left. by left.
Qed.

(** C11: Where the verdict on a folder changes the variables that settings files pass to every
    process started there, the gate fires: no folder is found harmless whose settings
    reach a process. *)
Theorem gate_sees_env h cwd :
  load_claude_env_with_project h cwd true ≠ load_claude_env_with_project h cwd false →
  repo_configs_present h cwd = true.
Proof. intros Hd. by apply gate_claude, env_needs_settings. Qed.

End GateLaws.
End GateLaws.

(** * What a process lets run *)

Module Export VerdictLaws.
Section VerdictLaws.
Context `{PermissionLibs} `{!SourceLibs} `{ConfigLibs} `{TrustCodec}.
Variable stamped : bool.

(** The folder is not gated at this moment: the feature is off, the store trusts it, the
    store could not, or it carries nothing that runs. *)
Definition ungated (h : Host) (cwd : string) : Prop :=
  let key := workspace_key h cwd in
  folder_trust_inert stamped h = true ∨ feature_enabled stamped h None = false ∨ is_trusted h (load h) key = true ∨
  is_unsafe_trust_root h key = true ∨ repo_configs_present h cwd = false.

Lemma decide_trusted feature i : decide_trust feature i = TO.Trusted ↔
  feature = false ∨ store_trusted i = true ∨ key_recordable i = false ∨ repo_configs i = false.
Proof. unfold decide_trust. destruct i as [st rc ia kr], feature, st, rc, ia, kr; cbn; naive_solver. Qed.

(** Where nothing is recorded, a folder may run what it carries exactly when it is not
    gated. A permission that rests on an empty or an over-broad folder is not recorded, so
    that the next check looks again. *)
Lemma unrecorded_exact p cwd c : decisions p !! workspace_key (host p) cwd = None →
  let '(p', allowed) := project_scope_allowed stamped p cwd c in
  (allowed = true ↔ ungated (host p) cwd) ∧ host p' = host p ∧
  (allowed = true → folder_trust_inert stamped (host p) = false → feature_enabled stamped (host p) None = true →
    is_trusted (host p) (load (host p)) (workspace_key (host p) cwd) = false → p' = p).
Proof.
  intros Hn. unfold project_scope_allowed, resolve_and_record, resolve_and_record_inner. rewrite Hn. unfold ungated.
  destruct (folder_trust_inert stamped (host p)); [naive_solver|].
  unfold compute, compute_from_inputs. set (key := workspace_key (host p) cwd).
  set (i := decide_inputs_with_interactive _ _ _ _). set (feature := feature_enabled stamped (host p) None).
  pose proof (decide_trusted feature i) as Hd. cbn in Hd. rewrite negb_false_iff in Hd.
  destruct (decide_trust feature i); cbn -[load is_trusted]; destruct p as [h ds]; cbn -[load is_trusted] in *.
  - split_and!; [naive_solver|by case_match|]. intros _ _ -> ->. done.
  - split_and!; [|done|done]. split; [done|]. intros [Hx|Hx]; [done|]. by apply Hd in Hx.
  - split_and!; [|done|done]. split; [done|]. intros [Hx|Hx]; [done|]. by apply Hd in Hx.
Qed.

(** ** What a process remembers *)

(** What happens around a process: the machine changes, whatever the cause; a session or
    the start resolves a folder; a loader asks; a user revokes. *)
Inductive Event : Type :=
| Changed (h : Host)
| Resolved (cwd : string) (remote : option bool) (allow_prompt : bool) (c : Console)
| Launched (cwd : string) (remote : option bool) (c : Console)
| Asked (cwd : string) (c : Console)
| Revoked (cwd : string) (c : Console).
Definition step (p : Process) (e : Event) : Process :=
  match e with
  | Changed h => MkProcess h (decisions p)
  | Resolved cwd remote allow_prompt c => (resolve_and_record stamped p cwd remote allow_prompt c).1
  | Launched cwd remote c => (resolve_launch_dir_trust stamped p cwd remote c).1
  | Asked cwd c => (project_scope_allowed stamped p cwd c).1
  | Revoked cwd c => (revoke_folder_trust stamped p cwd c).1
  end.
Definition run_events (p : Process) (events : list Event) : Process := fold_left step events p.

(** A moment that lets a process remember a folder as trusted: a resolution of it with
    the feature off, with the store trusting it, or with the user answering yes. *)
Definition licence (p : Process) (e : Event) (key : string) : Prop :=
  let h := host p in
  let resolved cwd remote yes :=
    key = workspace_key h cwd ∧ (feature_enabled stamped h remote = false ∨ is_trusted h (load h) key = true ∨ yes = true) in
  match e with
  | Resolved cwd remote allow_prompt c => resolved cwd remote (allow_prompt && prompt_for_trust (answer c))
  | Launched cwd remote _ => resolved cwd remote false
  | Asked cwd _ => resolved cwd None false
  | Changed _ | Revoked _ _ => False
  end.
(** A moment that makes it forget. *)
Definition forgets (p : Process) (e : Event) (key : string) : Prop :=
  match e with
  | Revoked cwd _ =>
      key = workspace_key (host p) cwd ∧ folder_trust_inert stamped (host p) = false ∧ is_unsafe_trust_root (host p) key = false
  | _ => False
  end.

Lemma record_lookup p k b key : decisions (record p k b) !! key = Some true →
  (key = k ∧ b = true) ∨ (key ≠ k ∧ decisions p !! key = Some true).
Proof. cbn. destruct (decide (k = key)) as [->|Hne]; [rewrite lookup_insert_eq|rewrite lookup_insert_ne by done]; naive_solver. Qed.

Lemma inner_licence p k rec key : decisions (resolve_and_record_inner p k rec).1 !! key = Some true →
  decisions p !! key = Some true ∨
  (key = k ∧ (is_trusted (host p) (load (host p)) k = true ∨ rec.2 = (true, true))).
Proof.
  unfold resolve_and_record_inner. destruct (decisions p !! k) as [[]|] eqn:Ek; [by left| |].
  - destruct (is_trusted _ _ _) eqn:Et; [|by left]. intros [[-> _]|[_ ?]]%record_lookup; auto.
  - destruct rec as [h [allowed [|]]]; [|by left]. cbn [fst snd]. intros [[-> ->]|[_ ?]]%record_lookup; auto.
Qed.
Lemma durable_licence h i feature key allow_prompt c : (compute_from_inputs h i feature key allow_prompt c).2 = (true, true) →
  feature = false ∨ store_trusted i = true ∨ allow_prompt && prompt_for_trust (answer c) = true.
Proof.
  unfold compute_from_inputs. destruct (decide_trust feature i); [|done|].
  - cbn. intros [= [Hf|Ht]%orb_true_iff]; [left; by apply negb_true_iff|auto].
  - destruct allow_prompt; [|done]. destruct (prompt_for_trust _); [auto|done].
Qed.
Lemma resolve_licence p cwd remote allow_prompt c key :
  decisions (resolve_and_record stamped p cwd remote allow_prompt c).1 !! key = Some true →
  decisions p !! key = Some true ∨ licence p (Resolved cwd remote allow_prompt c) key.
Proof.
  unfold resolve_and_record. destruct (folder_trust_inert _ _); [by left|]. intros [?|[-> Hx]]%inner_licence; [by left|right].
  split; [done|]. destruct Hx as [Ht|Hd]; [auto|]. unfold compute in Hd. apply durable_licence in Hd. cbn in Hd. tauto.
Qed.

Lemma step_licence p e key : decisions (step p e) !! key = Some true →
  licence p e key ∨ (decisions p !! key = Some true ∧ ¬ forgets p e key).
Proof.
  destruct e as [h|cwd remote ap c|cwd remote c|cwd c|cwd c]; cbn [step forgets].
  - cbn. tauto.
  - intros [Hd|Hl]%resolve_licence; [tauto|by left].
  - unfold resolve_launch_dir_trust. destruct (folder_trust_inert _ _); [tauto|]. intros [?|[-> Hx]]%inner_licence; [tauto|left].
    split; [done|]. destruct Hx as [Ht|Hd]; [auto|]. apply durable_licence in Hd. cbn in Hd. tauto.
  - unfold project_scope_allowed. destruct (decisions p !! workspace_key (host p) cwd) as [[]|] eqn:Ek; [tauto| |].
    + destruct (is_trusted _ _ _) eqn:Et; [|tauto]. cbn [fst]. intros [[-> _]|[_ Hk]]%record_lookup; [|tauto].
      left. split; [done|auto].
    + intros [Hd|[Hk Hl]]%resolve_licence; [tauto|left]. split; [done|]. cbn in Hl. tauto.
  - unfold revoke_folder_trust. destruct (folder_trust_inert _ _) eqn:Ei; [intros ?; right; split; [done|intros (? & ? & ?); congruence]|].
    destruct (is_unsafe_trust_root _ _) eqn:Eu; [intros ?; right; split; [done|intros (? & ? & ?); congruence]|].
    destruct (revoke_folder_trust_store _ _ _ _ _) as [h w]. cbn [fst].
    intros [[_ ?]|[Hne Hd]]%record_lookup; [done|right]. split; [exact Hd|intros (? & _); congruence].
Qed.

Lemma run_snoc p events e : run_events p (events ++ [e]) = step (run_events p events) e.
Proof. unfold run_events. by rewrite fold_left_app. Qed.

(** A verdict of trust that a process remembers was licensed at some moment, and nobody
    has revoked it since. *)
Lemma remembered_has_cause h0 events key : decisions (run_events (MkProcess h0 ∅) events) !! key = Some true →
  ∃ pre e post, events = pre ++ e :: post ∧ licence (run_events (MkProcess h0 ∅) pre) e key ∧
    ∀ pre' e' post', post = pre' ++ e' :: post' → ¬ forgets (run_events (MkProcess h0 ∅) (pre ++ e :: pre')) e' key.
Proof.
  induction events as [|x events IH] using rev_ind; [cbn; by rewrite lookup_empty|].
  rewrite run_snoc. intros [Hl|[Hd Hf]]%step_licence.
  - exists events, x, []. split_and!; [done..|]. intros pre' ? ? E. by destruct pre'.
  - destruct (IH Hd) as (pre & e & post & -> & Hl & Hp). exists pre, e, (post ++ [x]). split_and!; [by rewrite <-app_assoc|done|].
    intros pre' e' post' E. destruct post' as [|y post' _] using rev_ind.
    + apply app_inj_tail in E as [<- <-]. exact Hf.
    + rewrite app_comm_cons, app_assoc in E. apply app_inj_tail in E as [E _]. by apply (Hp _ _ post').
Qed.

(** C10: Whatever happens around a process and in whatever order, a folder may run what it
    carries only if it is not gated now, or was resolved at an earlier moment with the
    feature off, with the store trusting it or with the user answering yes, and no one
    has revoked that since. *)
Theorem no_verdict_without_cause h0 events cwd c :
  let start := MkProcess h0 ∅ in
  let p := run_events start events in
  let key := workspace_key (host p) cwd in
  (project_scope_allowed stamped p cwd c).2 = true →
  ungated (host p) cwd ∨
  ∃ pre e post, events = pre ++ e :: post ∧ licence (run_events start pre) e key ∧
    ∀ pre' e' post', post = pre' ++ e' :: post' → ¬ forgets (run_events start (pre ++ e :: pre')) e' key.
Proof.
  intros start p key Ha. destruct (decisions p !! key) as [[]|] eqn:Ek.
  - right. by apply remembered_has_cause.
  - left. revert Ha. unfold project_scope_allowed. fold key. rewrite Ek. unfold ungated. fold key.
    destruct (is_trusted _ _ _); [auto|done].
  - left. pose proof (unrecorded_exact p cwd c Ek) as Hu. destruct (project_scope_allowed _ _ _ _) as [p' allowed]. by apply Hu.
Qed.

(** ** Revoking *)

Context `{!LawfulTrustCodec}.

Lemma load_put h path text : default_path h = Some path → load (put_file h path text) = load_from (put_file h path text) path.
Proof. intros Hp. unfold load. change (default_path (put_file h path text)) with (default_path h). by rewrite Hp. Qed.
Lemma store_path_load h : store_path (load h) = default_path h.
Proof. unfold load. by destruct (default_path h). Qed.

(** What the store says of a folder it trusted, after a refusal was written or was not. *)
Lemma refusal_read_back h fl nw key : is_unsafe_trust_root h (canonicalize_or_owned h key) = false →
  is_trusted h (load h) key = true →
  let '(h', _, res) := set_untrusted h fl nw (load h) key in
  (is_trusted h' (load h') key = true ↔ ∃ e, res = Err e) ∧ ∀ cwd, workspace_key h' cwd = workspace_key h cwd.
Proof.
  intros Hc Ht. unfold set_untrusted. destruct (record_decision h fl nw (load h) key false) as [[h' s'] res] eqn:E.
  destruct (record_cases _ _ _ _ _ _ _ _ _ E) as [(-> & -> & Hx)|(-> & path & Hp & Hs & [body ->] & _ & _)].
  - split; [|done]. rewrite Ht. split; [intros _|done]. destruct res as [[]|e]; [|by exists e].
    destruct (Hx eq_refl) as [?|Hp]; [congruence|]. rewrite store_path_load in Hp. unfold load in Ht. rewrite Hp in Ht.
    by vm_compute in Ht.
  - split; [|done]. pose proof (refusal_holds _ _ _ _ _ _ _ path E Hp Hc) as Hf.
    rewrite store_path_load in Hp. rewrite (load_put _ _ _ Hp), Hf. split; [done|by intros [? ?]].
Qed.

(** C23: After a revocation the folder is allowed again exactly when the store trusted it and
    the write of the refusal failed: the next check reads the store once more. *)
Theorem revocation_bites p cwd c c' :
  let key := workspace_key (host p) cwd in
  folder_trust_inert stamped (host p) = false → is_unsafe_trust_root (host p) key = false →
  is_unsafe_trust_root (host p) (canonicalize_or_owned (host p) key) = false →
  let '(p', was_trusted) := revoke_folder_trust stamped p cwd c in
  was_trusted = is_trusted (host p) (load (host p)) key ∧
  ((project_scope_allowed stamped p' cwd c').2 = true ↔
   was_trusted = true ∧ ∃ e, (set_untrusted (host p) (faults c) (now c) (load (host p)) key).2 = Err e).
Proof.
  intros key Hi Hu Hc. unfold revoke_folder_trust, revoke_folder_trust_store. rewrite Hi. fold key. rewrite Hu.
  destruct (is_trusted (host p) (load (host p)) key) eqn:Et.
  - pose proof (refusal_read_back _ (faults c) (now c) key Hc Et) as Hr.
    destruct (set_untrusted _ _ _ _ _) as [[h' s'] res]. destruct Hr as [Hr Hk]. split; [done|].
    unfold project_scope_allowed. cbn [fst snd host record]. rewrite Hk. fold key. cbn [decisions record]. rewrite lookup_insert_eq.
    rewrite <-Hr. destruct (is_trusted h' (load h') key); cbn; tauto.
  - split; [done|]. unfold project_scope_allowed. cbn [fst snd host record]. fold key. cbn [decisions record].
    rewrite lookup_insert_eq, Et. cbn. split; [done|by intros [? _]].
Qed.

End VerdictLaws.
End VerdictLaws.

(** * Questions to a client *)

Module Export QuestionLaws.
Section QuestionLaws.
Context `{PermissionLibs} `{!SourceLibs} `{ConfigLibs} `{TrustCodec}.
Variable stamped : bool.

Inductive QuestionEvent : Type :=
| Opened (interactive_client shares_workspace : bool) (cwd : string) (remote : option bool)
| Replied (i : nat) (r : Reply) (c : Console)
| Elsewhere (p : Process).
Definition question_step (a : Agent) (e : QuestionEvent) : Agent :=
  match e with
  | Opened ic sw cwd remote => maybe_spawn_interactive_trust_prompt stamped a ic sw cwd remote
  | Replied i r c => (reply_to stamped a i r c).1
  | Elsewhere p => MkAgent p (prompted a) (questions a)
  end.
Definition question_keys (a : Agent) : list string := (λ q, q.1.1) <$> questions a.
(** No workspace is asked about twice at a time, and those asked about are marked. *)
Definition one_each (a : Agent) : Prop := NoDup (question_keys a) ∧ ∀ k, k ∈ question_keys a → k ∈ prompted a.

Lemma keys_delete i (l : list (string * string * option bool)) q : l !! i = Some q → NoDup ((λ q, q.1.1) <$> l) →
  NoDup ((λ q, q.1.1) <$> delete i l) ∧ ∀ k, k ∈ (λ q, q.1.1) <$> delete i l → k ≠ q.1.1 ∧ k ∈ (λ q, q.1.1) <$> l.
Proof.
  intros Hi Hn. pose proof (delete_Permutation _ _ _ Hi) as Hp. apply (fmap_Permutation (λ q, q.1.1)) in Hp. cbn [fmap list_fmap] in Hp.
  rewrite Hp in Hn. apply NoDup_cons in Hn as [Hq Hn]. split; [done|]. intros k Hk. rewrite Hp. split; [|by right].
  by intros ->.
Qed.

Lemma reply_prompted a key cwd remote r c :
  prompted (finish_question stamped a key cwd remote r c).1 = prompted a ∨
  prompted (finish_question stamped a key cwd remote r c).1 = prompted a ∖ {[ key ]}.
Proof. unfold finish_question. destruct r; cbn; auto. case_bool_decide; auto. Qed.
Lemma reply_questions a key cwd remote r c : questions (finish_question stamped a key cwd remote r c).1 = questions a.
Proof. unfold finish_question. destruct r; cbn; auto. by case_bool_decide. Qed.

Lemma one_each_step a e : one_each a → one_each (question_step a e).
Proof.
  intros [Hn Hm]. destruct e as [ic sw cwd remote|i r c|p]; cbn [question_step]; [| |done].
  - unfold maybe_spawn_interactive_trust_prompt. destruct (negb ic); [done|]. destruct (negb (prompt_warranted _ _ _ _)); [done|].
    case_bool_decide as Hp; [done|]. destruct (negb sw); [done|]. unfold one_each, question_keys. cbn [questions prompted]. split.
    + rewrite fmap_app. apply NoDup_app. split_and!; [done| |apply NoDup_singleton].
      intros k Hk Hs. apply list_elem_of_singleton in Hs as ->. by apply Hp, Hm.
    + intros k. rewrite fmap_app, elem_of_app. cbn. rewrite list_elem_of_singleton. intros [Hk| ->]; [|set_solver]. apply Hm in Hk. set_solver.
  - unfold reply_to. destruct (questions a !! i) as [[[key cwd] remote]|] eqn:Ei; [|done].
    destruct (keys_delete _ _ _ Ei Hn) as [Hd Hk]. cbn [fst] in Hk. unfold one_each, question_keys. rewrite reply_questions.
    cbn [questions]. split; [done|]. intros k Hin. destruct (Hk k Hin) as [Hne Hin'].
    destruct (reply_prompted (MkAgent (process a) (prompted a) (delete i (questions a))) key cwd remote r c) as [-> | ->];
      cbn [prompted]; apply Hm in Hin'; set_solver.
Qed.

(** However sessions open and clients answer, at most one question per workspace is open
    at a time, as long as no user revokes trust. *)
Theorem one_question_per_workspace p events :
  NoDup (question_keys (fold_left question_step events (MkAgent p ∅ []))).
Proof.
  assert (Hi : one_each (MkAgent p ∅ [])) by (split; [apply NoDup_nil_2|intros k []%elem_of_nil]).
  revert Hi. generalize (MkAgent p ∅ []). induction events as [|e events IH]; intros a Ha; cbn; [apply Ha|]. by apply IH, one_each_step.
Qed.

(** After a user has revoked the trust of a workspace, no answer to a question that was
    open about it grants trust again, however many other answers come first. *)
Theorem stale_answers_ignored a cwd root c replies i key dir remote c' :
  let a' := fold_left (λ a '(i, r, c), (reply_to stamped a i r c).1) replies (untrust stamped a cwd root c) in
  key = workspace_key (host (process a)) cwd → questions a' !! i = Some (key, dir, remote) →
  (reply_to stamped a' i Trust c').2 = false.
Proof.
  intros a' Hk Hq. assert (Hp : key ∉ prompted a').
  { subst a'. assert (Hs : key ∉ prompted (untrust stamped a cwd root c)) by (subst key; cbn; set_solver).
    clear Hq. revert Hs. generalize (untrust stamped a cwd root c). induction replies as [|[[j r] c0] replies IH]; intros b Hs; cbn; [done|].
    apply IH. unfold reply_to. destruct (questions b !! j) as [[[key' cwd'] remote']|]; [|done].
    destruct (reply_prompted (MkAgent (process b) (prompted b) (delete j (questions b))) key' cwd' remote' r c0) as [-> | ->]; cbn; set_solver. }
  unfold reply_to. rewrite Hq. unfold finish_question. cbn [prompted]. by rewrite bool_decide_eq_true_2.
Qed.

End QuestionLaws.
End QuestionLaws.

(** * Scenes *)

Module Export FolderScene.
#[local] Existing Instance SourceScene.scene_permissions.
#[local] Existing Instance SourceScene.scene_sources.
#[local] Existing Instance TrustScene.scene_codec.
#[local] Existing Instance TrustScene.scene_lawful.
(** The configuration of a project is a list of allowed rules. *)
#[local] Instance scene_config : ConfigLibs := {|
  toml_from_str s :=
    d ← strip_prefix "allow " s;
    Some (TTable {[ "permission" := TTable {[ "allow" := TArray [TString d] ]} ]});
  shell_expand s _ := s;
  Version := N;
  Version_parse := parse_u64;
  version_le := N.leb;
  version_zero := 0%N;
  VERSION := "5";
  base64_text := Some;
  campaigns_state _ := None;
|}.
Definition host_with (fs : gmap string Entry) : Host :=
  MkHost Linux ∅ (Some "/home/u") fs Some (λ d, if path_starts_with d "/p" then Some (MkGitRepo (Some "/p") false "/p/.git") else None)
    (λ _, None) None None.
Definition tty (a : option string) (w : bool) : Console := MkConsole true a (MkFaults true true true w) None.

(** A clone whose one file allows a tool: the folder counts as harmless, nobody is
    asked, and the rule is in force. *)
Definition clone : Host := host_with {[ "/p/.ainxt/config.toml" := Plain (Some "allow Bash(rm)") ]}.
Theorem cloned_rules_apply :
  repo_configs_present clone "/p" = false ∧ prompt_warranted true clone "/p" None = false ∧
  (project_scope_allowed true (MkProcess clone ∅) "/p" (tty None true)).2 = true ∧
  resolved_decision (resolve_permissions_with_provenance clone "/p") (AK.Bash "rm") = Some Dec.Allow.
Proof. by vm_compute. Qed.

(** The same file in a folder that is gated and was refused: the rule is in force all the
    same. *)
Definition refused_clone : Process :=
  MkProcess (host_with {[ "/p/.ainxt/config.toml" := Plain (Some "allow Bash(rm)"); "/p/.mcp.json" := Plain (Some "{}") ]}) {[ "/p" := false ]}.
Theorem refused_rules_apply :
  (project_scope_allowed true refused_clone "/p" (tty None true)).2 = false ∧
  resolved_decision (resolve_permissions_with_provenance (host refused_clone) "/p") (AK.Bash "rm") = Some Dec.Allow.
Proof. by vm_compute. Qed.

(** A revocation between two openings leaves two questions open about one workspace, and
    the answer to the first, which was open when trust was revoked, grants it. *)
Definition gated : Agent := MkAgent (MkProcess (host_with {[ "/p/.mcp.json" := Plain (Some "{}") ]}) ∅) ∅ [].
Theorem two_questions_open :
  let ask a := maybe_spawn_interactive_trust_prompt true a true true "/p" None in
  let a := ask (untrust true (ask gated) "/p" "/p" (tty None true)) in
  question_keys a = ["/p"; "/p"] ∧ (reply_to true a 0 Trust (tty None true)).2 = true.
Proof. by vm_compute. Qed.

Definition stored : Process :=
  MkProcess (host_with {[ "/p/.mcp.json" := Plain (Some "{}"); "/home/u/.ainxt/trusted_folders.toml" := Plain (Some "/p=yes") ]}) ∅.

(** A refusal that could not be written is forgotten by the next check. *)
Theorem failed_revocation_forgotten :
  let '(p, was_trusted) := revoke_folder_trust true stored "/p" (tty None false) in
  was_trusted = true ∧ decisions p !! "/p" = Some false ∧ (project_scope_allowed true p "/p" (tty None true)).2 = true.
Proof. by vm_compute. Qed.

Lemma revocation_bites_witness :
  (project_scope_allowed true (revoke_folder_trust true stored "/p" (tty None true)).1 "/p" (tty None true)).2 = false.
Proof.
  pose proof (revocation_bites true stored "/p" (tty None true) (tty None true) eq_refl ltac:(by vm_compute) ltac:(by vm_compute)) as Hr.
  destruct (revoke_folder_trust true stored "/p" (tty None true)) as [p' was]. destruct Hr as [_ [Hr _]]. cbn [fst].
  apply not_true_iff_false. intros Ha. destruct (Hr Ha) as [_ [e He]]. by vm_compute in He.
Defined.

Lemma no_verdict_without_cause_witness :
  let events := [Asked "/p" (tty None true); Changed clone] in
  let p := run_events true (MkProcess (host stored) ∅) events in
  ungated true (host p) "/p" ∨
  ∃ pre e post, events = pre ++ e :: post ∧ licence true (run_events true (MkProcess (host stored) ∅) pre) e "/p".
Proof.
  intros events p. destruct (no_verdict_without_cause true (host stored) events "/p" (tty None true)) as [Hu|(pre & e & post & E & Hl & _)];
    [by vm_compute|by left|right; by exists pre, e, post].
Defined.

Lemma gate_sees_env_witness : repo_configs_present (host_with {[ "/p/.claude/settings.json" := Plain (Some "env ./bin") ]}) "/p" = true.
Proof. apply (gate_sees_env _ "/p"). intros E. apply (f_equal (lookup "PATH")) in E. by vm_compute in E. Defined.

Lemma stale_answers_ignored_witness :
  (reply_to true (untrust true (maybe_spawn_interactive_trust_prompt true gated true true "/p" None) "/p" "/p" (tty None true)) 0 Trust (tty None true)).2 = false.
Proof.
  apply (stale_answers_ignored true (maybe_spawn_interactive_trust_prompt true gated true true "/p" None) "/p" "/p" (tty None true) [] 0
    "/p" "/p" None); by vm_compute.
Defined.

End FolderScene.
